(* ===== verification/_CoqProject ===== *)
-Q . S2P
Prelude.v
BaseUtil.v
MemFS.v
Base.v
Arena.v
Batch.v
Heap.v
Iter.v
MergingIter.v
CompactionIter.v
MergeCursor.v
UserIter.v
FlushableBatch.v
Table.v
ArrayTable.v
PlainFlush.v
Meta.v
Commit.v
ReadState.v
WalFiles.v
Skl.v
SklInv.v
SklCursor.v
MemTable.v
Record.v
RecordSpec.v
PlainDB.v
PlainWal.v
PlainRead.v
PlainReplay.v
BytePools.v
SuperTable.v
SuperTableSpec.v
Bitree.v
BitreeSpec.v
BitreeIter.v
Freelist.v
FreelistSpec.v
FreelistSafe.v
SeqDB.v
SeqSpec.v
SeqIter.v
BdbPage.v
BdbCursor.v
BdbTree.v
BdbIter.v
BdbMeta.v
BdbNode.v
BdbTx.v
BdbOverlay.v
BdbPut.v
BdbLaid.v
BdbSpace.v
BdbSpill.v
BdbCommit.v
BdbUpdate.v
