(* ===== verification/Prelude.v ===== *)
(** * bitaloslog: a verification of its stores

    ** The program

    bitaloslog is a log store of two engines behind one front ([DB], db.go).

    - The _plain store_ (plain_db.go, plain_flush.go) takes batches: a commit
      pipeline numbers them, writes them to a write-ahead log and applies them to
      a memtable; full memtables queue up and are flushed, merged with the
      previous one, into a single sorted file, the array table.
    - The _sequential store_ (sequential_db.go, sequential_flush.go) takes single
      keys, without a log: memtables in front of the bitree, an index of
      append-only super tables.  The index is an embedded B+tree database, bdb.
    - Both are read through a user iterator over a merge of the sources' own
      iterators.

    ** The files, from the bottom up

    Shared: this file (integers with the wrap-around of each Go width, Go's
    outcomes as a value, an error or a panic, byte strings and their order, the
    codecs of encoding/binary, flat memory for mapped files, [sort.Search]), Base
    (internal/base: internal keys, errors), Iter ([InternalIterator] and its two
    contracts: [ForwardLaws], a forward scan, and [CursorLaws], a cursor with
    bounds in both directions; [listOps] is the reference iterator), Heap
    (the heap of the merge), BaseUtil (internal/base: names of files, the
    comparer), MemFS (internal/vfs/mem_fs.go: the in-memory file system with its
    simulated crash).

    Memtables: Arena, Skl (internal/arenaskl), SklInv (the skiplist is a sorted
    list), SklCursor (its iterator is a cursor), MemTable (mem_table.go).

    Iterators: MergingIter (merging_iter.go), MergeCursor (it is a cursor over
    its levels), CompactionIter (compaction_iter.go), UserIter (iterator.go).

    Plain store: Batch and FlushableBatch (batch.go), Commit (commit.go), Record
    and RecordSpec (internal/record), WalFiles (log_recycler.go and the obsolete
    logs), Table (table.go), ArrayTable (array_table.go,
    array_table_iterator.go), PlainFlush (compaction.go, plain_flush.go), Meta
    (manifest.go, meta.go, bitree/manifest.go), ReadState (read_state.go,
    flushable.go), PlainDB (plain_db.go, plain_flush.go, open.go), PlainWal,
    PlainRead, PlainReplay (what the store guarantees).

    Sequential store: BytePools (internal/bytepools), SuperTable and
    SuperTableSpec (bitree/super_table.go and its iterator), Bitree, BitreeSpec
    and BitreeIter (bitree/bitree.go, flusher.go, bdb.go, bitree_iterator.go),
    SeqDB, SeqSpec, SeqIter (sequential_db.go, sequential_flush.go).

    bdb: Freelist, FreelistSpec, FreelistSafe (freelist*.go), BdbPage (page.go and
    the page format of node.go), BdbCursor (cursor.go, the read side of bucket.go,
    iterator.go), BdbTree (trees and positions in them), BdbIter (the index
    iterator); for writing, BdbMeta (the file, its meta pages and mappings: db.go,
    tx.go), BdbNode (putting, deleting and splitting in nodes: node.go), BdbTx
    (transactions, buckets, rebalancing, spilling and the commit: tx.go, bucket.go,
    node.go, db.go); what they guarantee is in BdbOverlay (a tree of pages some of
    which are nodes by then), BdbPut ([Put]), BdbLaid (trees that are all on
    pages), BdbSpace (which pages an allocation may hand out), BdbSpill, BdbCommit
    and BdbUpdate (a transaction from its beginning to its end).

    ** How state and operations correspond to the code

    A struct is a [Record] with the source's fields, an operation a function from
    the state to an [outcome] of the new state; [Panic] is a Go panic, an access
    out of bounds or a nil dereference.  Objects that are shared through pointers
    are named by a number into a table of the state (super tables, flushable
    entries, nodes of bdb).  What the code leaves to chance is an argument: the
    height of a skiplist tower, the order in which Go visits a map, the memory
    behind a buffer, what a [sync.Pool] hands out, which tables bdb reports as
    freed.  Concurrency is explicit where the code has it: Commit, MemTable,
    ReadState, PlainDB and Record are step relations or sequences of events at
    the granularity of atomic accesses or critical sections; the sequential
    store's operations run one after the other.

    Components meet at interfaces, and the clients' theorems are proved against
    them: [Comparator], [ForwardLaws], [CursorLaws], [FreeStore] and
    [FreeStoreLaws], [Index] and [IndexLaws], [IndexIterLaws].

    ** What the theorems show

    - Durability: the logs the manifest asks for hold exactly the unflushed
      batches under every interleaving, also when the current one is a recycled
      file with the remains of an older log behind the written prefix, provided
      these hold no chunk of this log with a right checksum where the reader comes
      to ([wal_recovers], [quiet]); records survive framing, recycling and torn tails ([record_roundtrip], [record_torn_tail]); a replay
      rebuilds the memtables ([replay_rebuilds]).
    - Visibility: commits become visible in order and whole
      ([commit_visibility]); reads see the newest entry ([get_newest]); readers
      keep what they read alive ([read_state_safe]).
    - Refinements: the skiplist, the merge, the flush, the user iterator, the
      super table, the bitree and the sequential store refine lists of entries
      ([skl_sorted_map], [merging_scan], [flush_writes_newest],
      [iterator_refines], [super_table_refines], [bitree_refines],
      [seq_store_refines], [seq_iterates]).
    - bdb: an update puts pairs and commits them, onto pages that no reader sees,
      and readers of the new snapshot find them ([update_puts], with [put_get] and
      [split_parts] for its steps); a process that dies in a commit leaves the old
      or the new snapshot ([commit_atomic]); no page is handed out while a reader
      can see it ([freelist_safe], [freePages_safe]), both free-page stores are interchangeable
      ([stores_equivalent]), the list survives its page
      ([freelist_page_roundtrip]), nodes survive their pages ([node_page_roundtrip]) and
      the index iterator is a cursor over the tree ([bdb_iterates]), which
      discharges the contract the bitree's iterator is proved against.
    - Bounds: an addition that reserved room always fits ([reserved_adds_fit]).
    - Utilities: the in-memory file system returns from a crash with what was
      synced ([crash_forgets]), names of files are parsed back
      ([filename_roundtrip]), separators are between their keys
      ([separator_between]).
    - Defects: some theorems state what the code does where it does not do what
      it means to, with a run that shows it ([failed_commit_blocks],
      [open_never_returns], [oversized_set_never_returns], and the lemmas
      [reopen_may_fail], [reopen_forgets], [torn_append_lost], [hash_reload_overlap],
      [delete_undone_by_flush], [SetIgnoreSyncs_blocks], [Rename_loses],
      [reset_cycle]).

    ** Fuel

    Loops that are not structural take a number of turns and answer
    [ErrModelFuel] when it is used up, which no theorem about a result allows:
    each states how much is enough.  A merge needs one turn for a step, a user
    iterator more turns than there are entries, a flush more than there are
    pairs, [makeRoomForWrite] of the sequential store 3, a descent of bdb the
    height of the tree, a reset of the in-memory file system the depth of the
    synced tree.  For a commit of bdb [settles] says that from some amount on the
    result is the same and never [ErrModelFuel].

    ** Not modelled

    - Of bdb: deleting buckets, [Batch], copying, checking and compacting a file,
      opening one and rebuilding a lost free list, and the search of freed pages
      for super tables.  [update_puts] is about a bucket that has pages of its
      own; the inlining of small buckets, deletions and rebalancing are modelled
      in BdbTx without a theorem about a whole commit.  The bitree is proved
      against [IndexLaws], the contract of a committed transaction, which a sorted
      list satisfies.
    - db.go, options.go and parts of open.go: forwarding to the two stores, file
      locks, default values.
    - internal/iterator: a copy of the merging iterator.
    - the rest of internal/vfs, internal/mmap, internal/manual,
      internal/rawalloc: wrappers around system calls; mapped accesses are in Table and Meta.
    - Statistics, logging, formatting, compression wrappers, and containers no
      modelled operation uses. *)

From Stdlib Require Import ZArith Lia.
From stdpp Require Import base numbers option sorting list.

#[global] Open Scope Z_scope.

Create HintDb bitalos.

(** ** Tactics *)

(** Split every boolean test of the goal or the context into its arithmetic
    meaning. *)
Ltac bdestruct_all :=
  repeat match goal with
  | |- context [Z.eqb ?a ?b] => destruct (Z.eqb_spec a b)
  | |- context [Z.ltb ?a ?b] => destruct (Z.ltb_spec a b)
  | |- context [Z.leb ?a ?b] => destruct (Z.leb_spec a b)
  | H : context [Z.eqb ?a ?b] |- _ => destruct (Z.eqb_spec a b)
  | H : context [Z.ltb ?a ?b] |- _ => destruct (Z.ltb_spec a b)
  | H : context [Z.leb ?a ?b] |- _ => destruct (Z.leb_spec a b)
  end.

(** Case analysis on the innermost match of the goal, keeping the equation. *)
Ltac case_goal :=
  match goal with
  | |- context [match ?x with _ => _ end] =>
      lazymatch x with context [match _ with _ => _ end] => fail | _ => destruct x eqn:? end
  end.

(** ** Machine integers *)

Definition u8 (x : Z) : Z := x mod 256.
Definition u16 (x : Z) : Z := x mod 65536.
Definition u32 (x : Z) : Z := x mod 4294967296.
Definition u64 (x : Z) : Z := x mod 18446744073709551616.

Lemma u8_range x : 0 <= u8 x < 256.
Proof. apply Z.mod_pos_bound. lia. Qed.
Lemma u16_range x : 0 <= u16 x < 65536.
Proof. apply Z.mod_pos_bound. lia. Qed.
Lemma u32_range x : 0 <= u32 x < 4294967296.
Proof. apply Z.mod_pos_bound. lia. Qed.
Lemma u64_range x : 0 <= u64 x < 18446744073709551616.
Proof. apply Z.mod_pos_bound. lia. Qed.
Lemma u8_small x : 0 <= x < 256 -> u8 x = x.
Proof. unfold u8. intros. by apply Z.mod_small. Qed.
Lemma u16_small x : 0 <= x < 65536 -> u16 x = x.
Proof. unfold u16. intros. by apply Z.mod_small. Qed.
Lemma u32_small x : 0 <= x < 4294967296 -> u32 x = x.
Proof. unfold u32. intros. by apply Z.mod_small. Qed.
Lemma u64_small x : 0 <= x < 18446744073709551616 -> u64 x = x.
Proof. unfold u64. intros. by apply Z.mod_small. Qed.

(** Conversion to [int32]. *)
Definition i32 (x : Z) : Z := (x + 2147483648) mod 4294967296 - 2147483648.
Lemma i32_small x : 0 <= x < 2147483648 -> i32 x = x.
Proof. intros. unfold i32. rewrite Z.mod_small by lia. lia. Qed.

#[export] Hint Rewrite u8_small u16_small u32_small u64_small using lia : bitalos.
#[export] Hint Resolve u8_range u16_range u32_range u64_range : bitalos.

(** Bitwise facts: a byte placed below a shifted value is an addition. *)
Lemma lor_shiftl_add (k a b : Z) :
  0 <= k -> 0 <= a < 2 ^ k -> Z.lor a (Z.shiftl b k) = a + b * 2 ^ k.
Proof.
  intros Hk Ha. rewrite <-Z.shiftl_mul_pow2 by lia.
  assert (Hland : Z.land a (Z.shiftl b k) = 0).
  { apply Z.bits_inj'. intros n Hn. rewrite Z.land_spec, Z.bits_0.
    destruct (Z.lt_ge_cases n k) as [Hlt|Hge].
    - rewrite Z.shiftl_spec_low by lia. apply andb_false_r.
    - assert (Z.testbit a n = false) as ->; [|done].
      destruct (Z.eq_dec a 0) as [->|Hne]; [apply Z.bits_0|].
      apply Z.bits_above_log2; [lia|].
      enough (Z.log2 a < k) by lia. apply Z.log2_lt_pow2; lia. }
  pose proof (Z.add_lor_land a (Z.shiftl b k)). lia.
Qed.

Lemma shiftr_8 v : Z.shiftr v 8 = v / 256.
Proof. by rewrite Z.shiftr_div_pow2. Qed.

Lemma land_255 v : Z.land v 255 = u8 v.
Proof. change 255 with (Z.ones 8). by rewrite Z.land_ones. Qed.

(** ** Outcomes of Go code *)

Inductive result (E A : Type) : Type :=
| Ok (a : A)
| Err (e : E)
| Panic.
Arguments Ok {E A} a.
Arguments Err {E A} e.
Arguments Panic {E A}.

Definition rbind {E A B} (m : result E A) (k : A -> result E B) : result E B :=
  match m with
  | Ok a => k a
  | Err e => Err e
  | Panic => Panic
  end.

Declare Scope go_scope.
Delimit Scope go_scope with go.
Notation "'let!' x ':=' m 'in' k" := (rbind m (fun x => k))
  (at level 200, x pattern, m at level 100, k at level 200, right associativity) : go_scope.
#[global] Open Scope go_scope.

Lemma rbind_Ok {E A B} (m : result E A) (k : A -> result E B) b :
  rbind m k = Ok b -> exists a, m = Ok a /\ k a = Ok b.
Proof. destruct m; simpl; intros; [eauto|discriminate..]. Qed.

(** Go's slice expression [l[a:b]] with its bound checks, for [0 <= a]. *)
Definition slice {E} (a b : Z) (l : list Z) : result E (list Z) :=
  if (0 <=? a) && (a <=? b) && (b <=? Z.of_nat (length l))
  then Ok (take (Z.to_nat (b - a)) (drop (Z.to_nat a) l))
  else Panic.

Lemma slice_Ok {E} a b l :
  0 <= a <= b -> b <= Z.of_nat (length l) ->
  @slice E a b l = Ok (take (Z.to_nat (b - a)) (drop (Z.to_nat a) l)).
Proof. intros. unfold slice. bdestruct_all; simpl; (done || lia). Qed.

(** ** Byte strings and their order *)

Abbreviation bytes := (list Z).

(** [len] as a Go [int]. *)
Definition len {A} (l : list A) : Z := Z.of_nat (length l).

Lemma len_nonneg {A} (l : list A) : 0 <= len l.
Proof. unfold len. lia. Qed.
Lemma len_app {A} (l k : list A) : len (l ++ k) = len l + len k.
Proof. unfold len. rewrite length_app. lia. Qed.
Lemma len_cons {A} (x : A) l : len (x :: l) = 1 + len l.
Proof. unfold len. simpl. lia. Qed.
Lemma len_nil {A} : len (@nil A) = 0.
Proof. done. Qed.
#[export] Hint Resolve len_nonneg : bitalos.

(** [bytes.Compare]: lexicographic, -1, 0 or 1. *)
Fixpoint bytes_compare (a b : bytes) : Z :=
  match a, b with
  | [], [] => 0
  | [], _ :: _ => -1
  | _ :: _, [] => 1
  | x :: a', y :: b' =>
      if x <? y then -1 else if y <? x then 1 else bytes_compare a' b'
  end.

(** What the store asks of a [base.Compare]: a three-way comparison of a total
    order on byte strings. *)
Class Comparator (cmp : bytes -> bytes -> Z) : Prop := {
  cmp_eq : forall a b, cmp a b = 0 <-> a = b;
  cmp_sym : forall a b, cmp a b < 0 <-> 0 < cmp b a;
  cmp_trans : forall a b c, cmp a b < 0 -> cmp b c < 0 -> cmp a c < 0
}.

#[export] Instance bytes_compare_comparator : Comparator bytes_compare.
Proof.
  split.
  - induction a as [|x a IH]; intros [|y b]; simpl; try (split; (done || lia)).
    bdestruct_all; [split; [lia|injection 1; lia]..|].
    rewrite IH. split; [intros ->; f_equal; lia|by injection 1].
  - induction a as [|x a IH]; intros [|y b]; simpl; try lia.
    bdestruct_all; try lia. apply IH.
  - induction a as [|x a IH]; intros [|y b] [|z c]; simpl; try lia.
    bdestruct_all; try lia. apply IH.
Qed.

Section ComparatorFacts.
Context (cmp : bytes -> bytes -> Z) `{!Comparator cmp}.

Lemma cmp_refl a : cmp a a = 0.
Proof. by apply cmp_eq. Qed.

Lemma cmp_gt_lt a b : 0 < cmp a b <-> cmp b a < 0.
Proof. symmetry. apply cmp_sym. Qed.

Lemma cmp_le_lt_trans a b c : cmp a b <= 0 -> cmp b c < 0 -> cmp a c < 0.
Proof.
  intros Hab Hbc. destruct (Z.eq_dec (cmp a b) 0) as [->%cmp_eq|]; [done|].
  eapply cmp_trans; [|done]. lia.
Qed.

Lemma cmp_lt_le_trans a b c : cmp a b < 0 -> cmp b c <= 0 -> cmp a c < 0.
Proof.
  intros Hab Hbc. destruct (Z.eq_dec (cmp b c) 0) as [->%cmp_eq|]; [done|].
  eapply cmp_trans; [done|]. lia.
Qed.

Lemma cmp_le_trans a b c : cmp a b <= 0 -> cmp b c <= 0 -> cmp a c <= 0.
Proof.
  intros Hab Hbc. destruct (Z.eq_dec (cmp a b) 0) as [->%cmp_eq|]; [done|].
  enough (cmp a c < 0) by lia. eapply cmp_lt_le_trans; [|done]. lia.
Qed.

Lemma cmp_total a b : cmp a b < 0 \/ a = b \/ cmp b a < 0.
Proof.
  destruct (Z.lt_trichotomy (cmp a b) 0) as [?|[?%cmp_eq|?]]; auto.
  right; right. by apply cmp_gt_lt.
Qed.
End ComparatorFacts.

(** The proposition that holds of a pair of strings when [cmp] puts the first
    strictly before the second. *)
Definition cmp_lt (cmp : bytes -> bytes -> Z) (a b : bytes) : Prop := cmp a b < 0.

(** ** Sorted lists *)

Lemma StronglySorted_elem {A} (R : A -> A -> Prop) l a b :
  StronglySorted R l -> a ∈ l -> b ∈ l -> a = b \/ R a b \/ R b a.
Proof.
  induction 1 as [|x l Hs IH Hx]; intros Ha Hb; [by apply elem_of_nil in Ha|].
  rewrite Forall_forall in Hx.
  apply elem_of_cons in Ha as [->|Ha], Hb as [->|Hb]; auto.
Qed.

Lemma StronglySorted_fmap {A B} (R : A -> A -> Prop) (R' : B -> B -> Prop) (f : A -> B) l :
  StronglySorted R l -> NoDup l ->
  (forall a b, a ∈ l -> b ∈ l -> a <> b -> R a b -> R' (f a) (f b)) ->
  StronglySorted R' (f <$> l).
Proof.
  induction 1 as [|x l Hs IH Hx]; intros Hnd HR; cbn; constructor.
  - apply IH; [by inversion Hnd|]. intros. apply HR; by try right.
  - apply Forall_fmap, Forall_forall. intros y Hy. rewrite Forall_forall in Hx. cbn.
    apply NoDup_cons in Hnd as [Hn _]. apply HR; [left|by right|congruence|auto].
Qed.

Lemma StronglySorted_NoDup {A} (R : A -> A -> Prop) l :
  (forall a, ~ R a a) -> StronglySorted R l -> NoDup l.
Proof.
  intros Hirr. induction 1 as [|x l Hs IH Hx]; constructor; [|done].
  rewrite Forall_forall in Hx. intros Hin. by eapply Hirr, Hx.
Qed.

Lemma StronglySorted_lookup {A} (R : A -> A -> Prop) l i j a b :
  StronglySorted R l -> l !! i = Some a -> l !! j = Some b -> (i < j)%nat -> R a b.
Proof.
  intros Hs. revert i j. induction Hs as [|x l Hs IH Hx]; intros i j Hi Hj Hij; [done|].
  destruct j as [|j]; [lia|]. destruct i as [|i]; cbn in *.
  - injection Hi as ->. by eapply Forall_lookup_1.
  - by eapply IH; [..|apply Nat.succ_lt_mono].
Qed.

(** ** [encoding/binary] *)

(** [LittleEndian.PutUint16/32/64]: [n] bytes of [v], least significant
    first; and the matching reads. *)
Fixpoint le_put (n : nat) (v : Z) : bytes :=
  match n with
  | O => []
  | S n' => Z.land v 255 :: le_put n' (Z.shiftr v 8)
  end.

Fixpoint le_get (l : bytes) : Z :=
  match l with
  | [] => 0
  | b :: l' => Z.lor b (Z.shiftl (le_get l') 8)
  end.

(** The big-endian forms. *)
Definition be_put (n : nat) (v : Z) : bytes := reverse (le_put n v).
Definition be_get (l : bytes) : Z := le_get (reverse l).

Lemma length_le_put n v : length (le_put n v) = n.
Proof. revert v. induction n; intros; simpl; [done|by rewrite IHn]. Qed.

Lemma length_be_put n v : length (be_put n v) = n.
Proof. unfold be_put. by rewrite length_reverse, length_le_put. Qed.

Lemma pow256_S n : 2 ^ (8 * Z.of_nat (S n)) = 256 * 2 ^ (8 * Z.of_nat n).
Proof.
  replace (8 * Z.of_nat (S n)) with (8 + 8 * Z.of_nat n) by lia.
  by rewrite Z.pow_add_r by lia.
Qed.

Lemma le_get_put n v : le_get (le_put n v) = v mod 2 ^ (8 * Z.of_nat n).
Proof.
  revert v. induction n as [|n IH]; intros v.
  { simpl. by rewrite Z.mod_1_r. }
  cbn [le_put le_get]. rewrite IH, land_255, shiftr_8.
  rewrite lor_shiftl_add by (pose proof (u8_range v); lia).
  rewrite pow256_S. rewrite Z.rem_mul_r by lia.
  unfold u8. change (2 ^ 8) with 256. lia.
Qed.

Lemma be_get_put n v : be_get (be_put n v) = v mod 2 ^ (8 * Z.of_nat n).
Proof. unfold be_get, be_put. by rewrite reverse_involutive, le_get_put. Qed.

Lemma le_get_put_u16 v : le_get (le_put 2 v) = u16 v.
Proof. apply le_get_put. Qed.
Lemma le_get_put_u32 v : le_get (le_put 4 v) = u32 v.
Proof. apply le_get_put. Qed.
Lemma le_get_put_u64 v : le_get (le_put 8 v) = u64 v.
Proof. apply le_get_put. Qed.
Lemma be_get_put_u16 v : be_get (be_put 2 v) = u16 v.
Proof. apply be_get_put. Qed.
Lemma be_get_put_u32 v : be_get (be_put 4 v) = u32 v.
Proof. apply be_get_put. Qed.
#[export] Hint Rewrite length_le_put length_be_put le_get_put_u16 le_get_put_u32
  le_get_put_u64 be_get_put_u16 be_get_put_u32 : bitalos.

#[global] Arguments le_put : simpl never.
#[global] Arguments le_get : simpl never.

(** ** Flat memory: an mmapped or a plain file, zero where never written *)

Definition mem : Type := Z -> Z.

Definition mem_zero : mem := fun _ => 0.

Definition mem_write (m : mem) (off : Z) (bs : bytes) : mem := fun i =>
  if (off <=? i) && (i <? off + len bs)
  then nth (Z.to_nat (i - off)) bs 0
  else m i.

Fixpoint mem_read (m : mem) (off : Z) (n : nat) : bytes :=
  match n with
  | O => []
  | S n' => m off :: mem_read m (off + 1) n'
  end.

(** [ftruncate]: the bytes at or past the new size are lost. *)
Definition mem_truncate (m : mem) (size : Z) : mem := fun i => if i <? size then m i else 0.

Lemma length_mem_read m off n : length (mem_read m off n) = n.
Proof. revert off. induction n; intros; simpl; [done|by rewrite IHn]. Qed.

Lemma mem_read_ext m m' off n :
  (forall i, off <= i < off + Z.of_nat n -> m i = m' i) ->
  mem_read m off n = mem_read m' off n.
Proof.
  revert off. induction n as [|n IH]; intros off H; simpl; [done|].
  f_equal; [apply H; lia|]. apply IH. intros. apply H. lia.
Qed.

Lemma mem_read_app m off n k :
  mem_read m off (n + k) = mem_read m off n ++ mem_read m (off + Z.of_nat n) k.
Proof.
  revert off. induction n as [|n IH]; intros off; simpl; [by rewrite Z.add_0_r|].
  f_equal. rewrite IH. do 2 f_equal. lia.
Qed.

(** A block read back where it was written. *)
Lemma mem_read_write_same m off bs :
  mem_read (mem_write m off bs) off (length bs) = bs.
Proof.
  revert m off. induction bs as [|b bs IH]; intros m off; simpl; [done|].
  f_equal.
  - unfold mem_write. rewrite len_cons. bdestruct_all; simpl; try (pose proof (len_nonneg bs); lia).
    by rewrite Z.sub_diag.
  - etransitivity; [|apply (IH m (off + 1))]. apply mem_read_ext. intros i Hi.
    unfold mem_write. rewrite len_cons. unfold len.
    bdestruct_all; simpl; try lia.
    replace (Z.to_nat (i - off)) with (S (Z.to_nat (i - (off + 1)))) by lia. done.
Qed.

(** A read disjoint from a write does not see it. *)
Lemma mem_read_write_disjoint m off bs o n :
  o + Z.of_nat n <= off \/ off + len bs <= o ->
  mem_read (mem_write m off bs) o n = mem_read m o n.
Proof.
  intros H. apply mem_read_ext. intros i Hi. unfold mem_write.
  bdestruct_all; simpl; (done || lia).
Qed.

Lemma mem_read_truncate m size o n :
  o + Z.of_nat n <= size -> mem_read (mem_truncate m size) o n = mem_read m o n.
Proof.
  intros H. apply mem_read_ext. intros i Hi. unfold mem_truncate.
  bdestruct_all; (done || lia).
Qed.

Lemma mem_read_write_sub m off bs o n :
  off <= o -> o + Z.of_nat n <= off + len bs ->
  mem_read (mem_write m off bs) o n = take n (drop (Z.to_nat (o - off)) bs).
Proof.
  intros H1 H2. pose proof (mem_read_write_same m off bs) as Hall.
  unfold len in H2.
  set (k := Z.to_nat (o - off)) in *.
  replace (length bs) with (k + (n + (length bs - k - n)))%nat in Hall by lia.
  rewrite !mem_read_app in Hall.
  replace (off + Z.of_nat k) with o in Hall by lia.
  rewrite <-Hall at 2.
  rewrite drop_app_length' by (by rewrite length_mem_read).
  by rewrite take_app_length' by (by rewrite length_mem_read).
Qed.

(** A block inside a block that was read. *)
Lemma mem_read_mid m off n a b c :
  mem_read m off n = a ++ b ++ c -> mem_read m (off + len a) (length b) = b.
Proof.
  intros H. assert (Hn : n = (length a + (length b + length c))%nat).
  { apply (f_equal length) in H. rewrite length_mem_read, !length_app in H. lia. }
  rewrite Hn, !mem_read_app in H. unfold len.
  apply app_inj_1 in H as [_ H]; [|apply length_mem_read].
  by apply app_inj_1 in H as [H _]; [|apply length_mem_read].
Qed.

(** ** [sort.Search]

    The loop of Go's library: [i], [j] delimit the interval still open and
    the predicate may itself panic.  [n] rounds are enough since each one
    shortens the interval. *)
Fixpoint search_loop {E} (fuel : nat) (i j : Z) (f : Z -> result E bool) : result E Z :=
  match fuel with
  | O => Ok i
  | S fuel' =>
      if i <? j then
        let h := Z.shiftr (i + j) 1 in
        let! b := f h in
        if b then search_loop fuel' i h f else search_loop fuel' (h + 1) j f
      else Ok i
  end.

Definition search {E} (n : Z) (f : Z -> result E bool) : result E Z :=
  search_loop (Z.to_nat n) 0 n f.

(** The specification: on a predicate that is false on a prefix and true
    after it, the search returns the length of that prefix. *)
Lemma search_loop_spec {E} (f : Z -> result E bool) (g : Z -> bool) p fuel i j :
  0 <= i -> i <= p <= j -> (Z.to_nat (j - i) <= fuel)%nat ->
  (forall k, i <= k < j -> f k = Ok (g k)) ->
  (forall k, i <= k < p -> g k = false) -> (forall k, p <= k < j -> g k = true) ->
  search_loop fuel i j f = Ok p.
Proof.
  revert i j. induction fuel as [|fuel IH]; intros i j Hi Hp Hf Hfg Hlo Hhi; simpl.
  { f_equal. lia. }
  destruct (Z.ltb_spec i j) as [Hlt|]; [|f_equal; lia].
  rewrite Z.shiftr_div_pow2 by lia. change (2 ^ 1) with 2.
  assert (Hh : i <= (i + j) / 2 < j).
  { split; [apply Z.div_le_lower_bound; lia|apply Z.div_lt_upper_bound; lia]. }
  rewrite Hfg by lia. simpl. destruct (g ((i + j) / 2)) eqn:Hg.
  - apply IH; [lia| |lia| | |].
    + split; [lia|]. destruct (Z.le_gt_cases p ((i + j) / 2)); [done|].
      rewrite Hlo in Hg by lia. done.
    + intros. apply Hfg. lia.
    + done.
    + intros. apply Hhi. lia.
  - apply IH; [lia| |lia| | |].
    + split; [|lia]. destruct (Z.le_gt_cases p ((i + j) / 2)); [|lia].
      rewrite Hhi in Hg by lia. done.
    + intros. apply Hfg. lia.
    + intros. apply Hlo. lia.
    + intros. apply Hhi. lia.
Qed.

Lemma search_spec {E} (f : Z -> result E bool) (g : Z -> bool) n p :
  0 <= p <= n ->
  (forall k, 0 <= k < n -> f k = Ok (g k)) ->
  (forall k, 0 <= k < p -> g k = false) -> (forall k, p <= k < n -> g k = true) ->
  search n f = Ok p.
Proof. intros. apply (search_loop_spec f g p); (done || lia). Qed.

Lemma search_ext {E} (f g : Z -> result E bool) n : (forall h, f h = g h) -> search n f = search n g.
Proof.
  intros H. unfold search. generalize (Z.to_nat n) as fuel. generalize 0 as i, n as j. intros i j fuel. revert i j.
  induction fuel as [|fuel IH]; intros i j; cbn [search_loop]; [done|]. rewrite H.
  destruct (i <? j); [|done]. destruct (g (Z.shiftr (i + j) 1)) as [[]| |]; cbn [rbind]; (apply IH || done).
Qed.
