(* ===== verification/BaseUtil.v ===== *)
(** File names and the byte-wise comparer (internal/base/filenames.go and
    comparer.go).  Strings are lists of bytes.  Of the standard library the model
    has what the code uses: decimal numbers, [strconv.ParseUint] and
    [path.Base].  [MakeFilepath] joins a directory and a name with a function of
    the file system, and is not modelled; formatting of keys is not either. *)

From Stdlib Require Import ZArith Lia.
From stdpp Require Import base numbers option list.
From S2P Require Import Prelude.

(** * File names *)

Module FileNames.

Inductive FileType : Type := FileTypeLog | FileTypeLock | FileTypeMeta | FileTypeBdb | FileTypeArrayTable | FileTypeSuperTable | FileTypeSuperTableIndex.

#[export] Instance FileType_eq_dec : EqDecision FileType.
Proof. solve_decision. Defined.

Definition s_log : bytes := [108; 111; 103].                                (* log *)
Definition s_at : bytes := [97; 116].                                       (* at *)
Definition s_xt : bytes := [120; 116].                                      (* xt *)
Definition s_xti : bytes := [120; 116; 105].                                (* xti *)
Definition s_bdb : bytes := [98; 105; 116; 114; 101; 101; 46; 98; 100; 98]. (* bitree.bdb *)
Definition s_lock : bytes := [76; 79; 67; 75].                              (* LOCK *)
Definition s_manifest : bytes := [77; 65; 78; 73; 70; 69; 83; 84].          (* MANIFEST *)
Definition dot : Z := 46.
Definition slash : Z := 47.

(** [fmt.Sprintf("%d", n)] of a [uint64]: at most twenty digits. *)
Fixpoint digits (fuel : nat) (n : Z) : bytes :=
  match fuel with
  | O => []
  | S fuel' => if n <? 10 then [48 + n] else digits fuel' (n / 10) ++ [48 + n mod 10]
  end.

Definition decimal (n : Z) : bytes := digits 20 n.

Definition MakeFilename (t : FileType) (n : Z) : bytes :=
  match t with
  | FileTypeLog => decimal n ++ dot :: s_log
  | FileTypeArrayTable => decimal n ++ dot :: s_at
  | FileTypeSuperTable => decimal n ++ dot :: s_xt
  | FileTypeSuperTableIndex => decimal n ++ dot :: s_xti
  | FileTypeBdb => s_bdb
  | FileTypeLock => s_lock
  | FileTypeMeta => s_manifest
  end.

(** [strconv.ParseUint(s, 10, 64)]; none is an error. *)
Fixpoint parse_digits (s : bytes) (n : Z) : option Z :=
  match s with
  | [] => Some n
  | c :: s' =>
      if (c <? 48) || (57 <? c) then None
      else if 1844674407370955162 <=? n then None
      else let n1 := n * 10 + (c - 48) in if 18446744073709551615 <? n1 then None else parse_digits s' n1
  end.

Definition parseFileNum (s : bytes) : option Z := match s with [] => None | _ => parse_digits s 0 end.

(** [path.Base] *)
Fixpoint drop_slashes (s : bytes) : bytes := match s with c :: s' => if c =? slash then drop_slashes s' else s | [] => [] end.
Fixpoint upto_slash (s : bytes) : bytes := match s with c :: s' => if c =? slash then [] else c :: upto_slash s' | [] => [] end.

Definition PathBase (s : bytes) : bytes :=
  match s with
  | [] => [dot]
  | _ => match reverse (upto_slash (drop_slashes (reverse s))) with [] => [slash] | b => b end
  end.

(** The index of the first byte [c], as the text before and behind it. *)
Fixpoint cut (c : Z) (s : bytes) : option (bytes * bytes) :=
  match s with
  | [] => None
  | x :: s' => if x =? c then Some ([], s') else match cut c s' with Some (a, b) => Some (x :: a, b) | None => None end
  end.

(** The type, the number and whether it is a name of the store. *)
Definition ParseFilename (filename : bytes) : FileType * Z * bool :=
  let f := PathBase filename in
  if decide (f = s_lock) then (FileTypeLock, 0, true)
  else if decide (f = s_manifest) then (FileTypeMeta, 0, true)
  else
    match cut dot f with
    | None => (FileTypeLog, 0, false)
    | Some (a, b) =>
        match parseFileNum a with
        | None => (FileTypeLog, 0, false)
        | Some n =>
            if decide (b = s_log) then (FileTypeLog, n, true)
            else if decide (b = s_at) then (FileTypeArrayTable, n, true)
            else if decide (b = s_xt) then (FileTypeSuperTable, n, true)
            else if decide (b = s_xti) then (FileTypeSuperTableIndex, n, true)
            else (FileTypeLog, n, false)
        end
    end.

(** [GetFilePathBase]: the last two elements of a path. *)
Fixpoint trim_right (s : bytes) : bytes :=
  match s with
  | [] => []
  | c :: s' => match trim_right s' with [] => if c =? slash then [] else [c] | t => c :: t end
  end.

Fixpoint last_slash (s : bytes) : option nat :=
  match s with
  | [] => None
  | c :: s' => match last_slash s' with Some i => Some (S i) | None => if c =? slash then Some O else None end
  end.

Definition GetFilePathBase (path : bytes) : bytes :=
  match path with
  | [] => [dot]
  | _ =>
      let path := trim_right path in
      let path :=
        match last_slash path with
        | None => path
        | Some pos => match last_slash (take pos path) with Some pos => drop (S pos) path | None => path end
        end in
      match path with [] => [slash] | _ => path end
  end.

(** ** Facts *)

Definition is_digit (c : Z) : Prop := 48 <= c <= 57.

Lemma digits_digit fuel : forall n, 0 <= n -> Forall is_digit (digits fuel n).
Proof.
  induction fuel as [|fuel IH]; intros n Hn; [constructor|]. cbn [digits]. destruct (Z.ltb_spec n 10); [repeat constructor; unfold is_digit; lia|].
  apply Forall_app. split; [apply IH, Z.div_pos; lia|]. pose proof (Z.mod_pos_bound n 10). repeat constructor; unfold is_digit; lia.
Qed.

Lemma parse_digits_app a b n m : parse_digits a n = Some m -> parse_digits (a ++ b) n = parse_digits b m.
Proof.
  revert n. induction a as [|c a IH]; intros n; cbn [parse_digits app]; [by intros [= ->]|]. destruct (_ || _); [done|]. destruct (_ <=? n); [done|]. destruct (_ <? _); [done|]. apply IH.
Qed.

Lemma parse_digit d s n : 0 <= d < 10 -> n < 1844674407370955162 ->
  parse_digits ((48 + d) :: s) n = if 18446744073709551615 <? n * 10 + d then None else parse_digits s (n * 10 + d).
Proof.
  intros Hd Hn. cbn [parse_digits]. replace (48 + d - 48) with d by lia. destruct (Z.ltb_spec (48 + d) 48); [lia|]. destruct (Z.ltb_spec 57 (48 + d)); [lia|]. cbn [orb]. by destruct (Z.leb_spec 1844674407370955162 n); [lia|].
Qed.

Lemma parse_digits_dec fuel : forall n, 0 <= n < 10 ^ Z.of_nat fuel -> n < 18446744073709551616 -> parse_digits (digits fuel n) 0 = Some n.
Proof.
  induction fuel as [|fuel IH]; intros n Hn H64; [change (10 ^ Z.of_nat 0) with 1 in Hn; cbn; f_equal; lia|]. cbn [digits]. destruct (Z.ltb_spec n 10) as [Hs|Hs].
  - rewrite parse_digit by lia. rewrite Z.mul_0_l, Z.add_0_l. destruct (Z.ltb_spec 18446744073709551615 n); [lia|done].
  - assert (Hd : n = 10 * (n / 10) + n mod 10) by (apply Z.div_mod; lia). pose proof (Z.mod_pos_bound n 10 ltac:(lia)) as Hm. rewrite Nat2Z.inj_succ, Z.pow_succ_r in Hn by lia.
    rewrite (parse_digits_app _ _ 0 (n / 10)); [|apply IH; lia]. rewrite parse_digit by lia. replace (n / 10 * 10 + n mod 10) with n by lia. destruct (Z.ltb_spec 18446744073709551615 n); [lia|done].
Qed.

Lemma decimal_ne n : decimal n <> [].
Proof. unfold decimal. change 20%nat with (S 19). cbn [digits]. destruct (n <? 10); [done|]. intros E%app_nil. by destruct E. Qed.

Lemma parse_decimal n : 0 <= n < 18446744073709551616 -> parseFileNum (decimal n) = Some n.
Proof.
  intros Hn. unfold parseFileNum. destruct (decimal n) as [|c l] eqn:E; [by apply decimal_ne in E|]. rewrite <-E. apply parse_digits_dec; [|lia]. change (10 ^ Z.of_nat 20) with 100000000000000000000. lia.
Qed.

Lemma cut_first c a b : Forall (fun x => x <> c) a -> cut c (a ++ c :: b) = Some (a, b).
Proof. induction 1 as [|x a Hx _ IH]; cbn; [by rewrite Z.eqb_refl|]. destruct (Z.eqb_spec x c); [done|]. by rewrite IH. Qed.

Lemma upto_slash_app a b : Forall (fun x => x <> slash) a -> upto_slash (a ++ slash :: b) = a.
Proof. induction 1 as [|x a Hx _ IH]; cbn; [done|]. destruct (Z.eqb_spec x slash); [done|]. by rewrite IH. Qed.

Lemma upto_slash_all a : Forall (fun x => x <> slash) a -> upto_slash a = a.
Proof. induction 1 as [|x a Hx _ IH]; cbn; [done|]. destruct (Z.eqb_spec x slash); [done|]. by rewrite IH. Qed.

(** The name of a file in any directory, or in none. *)
Lemma PathBase_name dir f : f <> [] -> Forall (fun x => x <> slash) f -> PathBase (dir ++ slash :: f) = f /\ PathBase f = f.
Proof.
  intros Hne Hf. assert (Hr : exists x l, reverse f = x :: l /\ x <> slash).
  { destruct (reverse f) as [|x l] eqn:E; [apply (f_equal reverse) in E; rewrite reverse_involutive in E; by subst|]. exists x, l. split; [done|]. rewrite Forall_forall in Hf. apply Hf. apply elem_of_reverse. rewrite E. by left. }
  destruct Hr as (x & l & Er & Hx). assert (Hall : Forall (fun z => z <> slash) (x :: l)) by (rewrite <-Er; by apply Forall_reverse).
  assert (Hd : forall t, drop_slashes ((x :: l) ++ t) = (x :: l) ++ t) by (intros t; cbn; by destruct (Z.eqb_spec x slash)).
  assert (Hback : reverse (x :: l) = f) by (rewrite <-Er; apply reverse_involutive). split; unfold PathBase.
  - destruct (dir ++ slash :: f) as [|c s] eqn:E; [by destruct dir|]. rewrite <-E. rewrite reverse_app, reverse_cons, Er, <-app_assoc, Hd. cbn [app]. change (x :: l ++ slash :: reverse dir) with ((x :: l) ++ slash :: reverse dir). rewrite upto_slash_app by done.
    rewrite Hback. by destruct f.
  - destruct f as [|c s] eqn:E; [done|]. rewrite <-E in *. rewrite Er. rewrite <-(app_nil_r (x :: l)), Hd, app_nil_r, upto_slash_all by done. rewrite Hback. by destruct f.
Qed.

Lemma decimal_chars n (c : Z) : 0 <= n -> ~ is_digit c -> Forall (fun x => x <> c) (decimal n).
Proof. intros Hn Hc. eapply Forall_impl; [by apply digits_digit|]. by intros x Hx ->. Qed.

Lemma MakeFilename_plain t n : 0 <= n -> MakeFilename t n <> [] /\ Forall (fun x => x <> slash) (MakeFilename t n).
Proof.
  intros Hn. pose proof (decimal_chars n slash Hn ltac:(unfold is_digit, slash; lia)) as Hd.
  destruct t; cbn [MakeFilename]; (split; [by try (destruct (decimal n))|]); try (repeat constructor; done); apply Forall_app; (split; [done|]); repeat constructor; done.
Qed.

(** The number that a name carries. *)
Definition numbered (t : FileType) (n : Z) : Z := match t with FileTypeLock | FileTypeMeta => 0 | _ => n end.

Lemma parse_ext n ext : 0 <= n < 18446744073709551616 -> let f := decimal n ++ dot :: ext in f <> s_lock /\ f <> s_manifest /\ cut dot f = Some (decimal n, ext).
Proof.
  intros Hn f. assert (Hd : dot ∈ f) by (apply elem_of_app; right; by left). split; [|split].
  - intros E. rewrite E in Hd. by apply list_elem_of_In in Hd as [|[|[|[|[]]]]].
  - intros E. rewrite E in Hd. by apply list_elem_of_In in Hd as [|[|[|[|[|[|[|[|[]]]]]]]]].
  - apply cut_first, decimal_chars; [lia|]. unfold is_digit, dot. lia.
Qed.

(** C39: the names of the store's files.  The name made for a file of any type but
    the index, in any directory or in none, is parsed back to the type and the
    number; the index's own name is none of them. *)
Theorem filename_roundtrip t n dir : 0 <= n < 18446744073709551616 ->
  let r := (match t with FileTypeBdb => FileTypeLog | _ => t end, match t with FileTypeBdb => 0 | _ => numbered t n end, bool_decide (t <> FileTypeBdb)) in
  ParseFilename (MakeFilename t n) = r /\ ParseFilename (dir ++ slash :: MakeFilename t n) = r.
Proof.
  intros Hn r. destruct (MakeFilename_plain t n ltac:(lia)) as [Hne Hpl]. destruct (PathBase_name dir (MakeFilename t n) Hne Hpl) as [E1 E2].
  assert (H : forall s, PathBase s = MakeFilename t n -> ParseFilename s = r).
  { intros s Es. unfold ParseFilename. rewrite Es. unfold r. destruct t; cbn [MakeFilename numbered].
    all: try (destruct (parse_ext n s_log Hn) as (L1 & L2 & L3); rewrite decide_False, decide_False by done; rewrite L3, parse_decimal by done; reflexivity).
    all: try (destruct (parse_ext n s_at Hn) as (L1 & L2 & L3); rewrite decide_False, decide_False by done; rewrite L3, parse_decimal by done; reflexivity).
    all: try (destruct (parse_ext n s_xt Hn) as (L1 & L2 & L3); rewrite decide_False, decide_False by done; rewrite L3, parse_decimal by done; reflexivity).
    all: try (destruct (parse_ext n s_xti Hn) as (L1 & L2 & L3); rewrite decide_False, decide_False by done; rewrite L3, parse_decimal by done; reflexivity).
    all: vm_compute; reflexivity. }
  by split; apply H.
Qed.

Lemma filename_roundtrip_witness :
  ParseFilename ([47; 100; 98] ++ slash :: MakeFilename FileTypeSuperTableIndex 4711) = (FileTypeSuperTableIndex, 4711, true) /\ MakeFilename FileTypeSuperTableIndex 4711 = [52; 55; 49; 49; 46; 120; 116; 105].
Proof. split; [|vm_compute; reflexivity]. exact (proj2 (filename_roundtrip FileTypeSuperTableIndex 4711 [47; 100; 98] ltac:(lia))). Defined.

End FileNames.

(** * The comparer of byte strings *)

Module Comparer.

(** The loop over eight bytes at a time, and the one over single bytes. *)
Fixpoint words_shared (fuel : nat) (a b : bytes) (i n : nat) : nat :=
  match fuel with
  | O => i
  | S fuel' => if bool_decide (i + 7 < n)%nat && (le_get (take 8 (drop i a)) =? le_get (take 8 (drop i b))) then words_shared fuel' a b (i + 8) n else i
  end.

Fixpoint bytes_shared (fuel : nat) (a b : bytes) (i n : nat) : nat :=
  match fuel with
  | O => i
  | S fuel' => if bool_decide (i < n)%nat && bool_decide (a !! i = b !! i) then bytes_shared fuel' a b (S i) n else i
  end.

Definition SharedPrefixLen (a b : bytes) : nat :=
  let n := (length a `min` length b)%nat in bytes_shared (S n) a b (words_shared (S n) a b 0 n) n.

(** The first byte that is not 255 is incremented, and the rest cut off. *)
Fixpoint bump (l : bytes) : bytes := match l with [] => [] | c :: l' => if negb (c =? 255) then [u8 (c + 1)] else c :: bump l' end.

Definition Separator (dst a b : bytes) : bytes :=
  let i := SharedPrefixLen a b in
  match a !! i, b !! i with
  | Some x, Some y =>
      if y <=? x then dst ++ a
      else if bool_decide (S i < length b)%nat || (u8 (x + 1) <? y) then dst ++ take i a ++ [u8 (x + 1)]
      else dst ++ take (S i) a ++ bump (drop (S i) a)
  | _, _ => dst ++ a
  end.

Definition Successor (dst a : bytes) : bytes := dst ++ bump a.

Definition AbbreviatedKey (key : bytes) : Z :=
  if 8 <=? len key then be_get (take 8 key)
  else u64 (Z.shiftl (fold_left (fun v b => Z.lor (u64 (Z.shiftl v 8)) b) key 0) (8 * (8 - len key))).

(** ** Facts *)

Definition octets (l : bytes) : Prop := Forall (fun c => 0 <= c < 256) l.

Lemma octets_take n l : octets l -> octets (take n l).
Proof. apply Forall_take. Qed.
Lemma octets_drop n l : octets l -> octets (drop n l).
Proof. apply Forall_drop. Qed.

Lemma le_get_cons c l : 0 <= c < 256 -> le_get (c :: l) = c + 256 * le_get l.
Proof. intros Hc. unfold le_get at 1. fold le_get. rewrite lor_shiftl_add by lia. lia. Qed.

Lemma le_get_inj a : forall b, octets a -> octets b -> length a = length b -> le_get a = le_get b -> a = b.
Proof.
  induction a as [|x a IH]; intros [|y b] Ha Hb Hl E; [done..|]. apply Forall_cons_1 in Ha as [Hx Ha]. apply Forall_cons_1 in Hb as [Hy Hb]. rewrite !le_get_cons in E by done.
  assert (x = y /\ le_get a = le_get b) as [-> E'] by lia. f_equal. apply IH; [done|done| |done]. cbn in Hl. lia.
Qed.

(** The longest common prefix. *)
Fixpoint lcp (a b : bytes) : nat := match a, b with x :: a', y :: b' => if x =? y then S (lcp a' b') else O | _, _ => O end.

Lemma lcp_unique a : forall b i, take i a = take i b -> (i <= length a `min` length b)%nat -> (i = length a `min` length b)%nat \/ a !! i <> b !! i -> i = lcp a b.
Proof.
  induction a as [|x a IH]; intros [|y b] i Ht Hi Hm; cbn in *; [lia..|]. destruct (Z.eqb_spec x y) as [->|Hne].
  - destruct i as [|i]; [destruct Hm as [|Hm]; [lia|by destruct Hm]|]. f_equal. cbn in *. injection Ht as Ht. apply IH; [done|lia|]. destruct Hm as [|Hm]; [left; lia|by right].
  - destruct i as [|i]; [done|]. cbn in Ht. injection Ht as Hxy _. done.
Qed.

Lemma take_grow (l k : bytes) i m : take i l = take i k -> take m (drop i l) = take m (drop i k) -> take (i + m) l = take (i + m) k.
Proof. intros H1 H2. by rewrite <-!take_take_drop, H1, H2. Qed.

Lemma words_shared_ok fuel a b n : octets a -> octets b -> n = (length a `min` length b)%nat -> forall i, take i a = take i b -> (i <= n)%nat ->
  let j := words_shared fuel a b i n in take j a = take j b /\ (i <= j <= n)%nat.
Proof.
  intros Ha Hb Hn. induction fuel as [|fuel IH]; intros i Ht Hi; cbn [words_shared]; [done|]. case_bool_decide as H7; cbn [andb]; [|done].
  destruct (Z.eqb_spec (le_get (take 8 (drop i a))) (le_get (take 8 (drop i b)))) as [E|]; [|done]. assert (E8 : take 8 (drop i a) = take 8 (drop i b)).
  { apply le_get_inj; [by apply octets_take, octets_drop..| |done]. rewrite !length_take, !length_drop. lia. }
  destruct (IH (i + 8)%nat (take_grow a b i 8 Ht E8) ltac:(lia)) as [H1 H2]. split; [done|]. lia.
Qed.

Lemma bytes_shared_ok fuel a b n : n = (length a `min` length b)%nat -> forall i, (n < i + fuel)%nat -> take i a = take i b -> (i <= n)%nat -> bytes_shared fuel a b i n = lcp a b.
Proof.
  intros Hn. induction fuel as [|fuel IH]; intros i Hf Ht Hi; [lia|]. cbn [bytes_shared]. case_bool_decide as Hlt; cbn [andb]; [|apply lcp_unique; [done|lia|left; lia]].
  case_bool_decide as He; [|apply lcp_unique; [done|lia|by right]]. apply IH; [lia| |lia]. destruct (a !! i) as [x|] eqn:Ea; [|apply lookup_ge_None in Ea; lia]. rewrite (take_S_r _ _ x), (take_S_r b _ x) by done. by rewrite Ht.
Qed.

Lemma SharedPrefixLen_lcp a b : octets a -> octets b -> SharedPrefixLen a b = lcp a b.
Proof.
  intros Ha Hb. unfold SharedPrefixLen. destruct (words_shared_ok (S (length a `min` length b)) a b _ Ha Hb eq_refl 0) as [H1 H2]; [done|lia|]. apply bytes_shared_ok; [done|lia|done|lia].
Qed.

(** Two strings and the place where they part. *)
Lemma lcp_split a : forall b, exists p a' b', a = p ++ a' /\ b = p ++ b' /\ lcp a b = length p /\
  match a', b' with x :: _, y :: _ => x <> y | _, _ => True end.
Proof.
  induction a as [|x a IH]; intros [|y b]; [by exists [], [], []|by exists [], [], (y :: b)|by exists [], (x :: a), []|]. cbn. destruct (Z.eqb_spec x y) as [->|Hne]; [|by exists [], (x :: a), (y :: b)].
  destruct (IH b) as (p & a' & b' & -> & -> & E & H). exists (y :: p), a', b'. rewrite E. done.
Qed.

Lemma cmp_prefix p u v : bytes_compare (p ++ u) (p ++ v) = bytes_compare u v.
Proof. induction p as [|x p IH]; cbn; [done|]. by rewrite Z.ltb_irrefl. Qed.

Lemma bump_ge l : octets l -> bytes_compare l (bump l) <= 0.
Proof.
  induction 1 as [|c l Hc _ IH]; cbn; [lia|]. destruct (Z.eqb_spec c 255) as [->|]; cbn; [done|]. rewrite u8_small by lia. by destruct (Z.ltb_spec c (c + 1)); [|lia].
Qed.

Lemma length_bump l : (length (bump l) <= length l)%nat.
Proof. induction l as [|c l IH]; cbn; [done|]. destruct (negb _); cbn; lia. Qed.

(** C40: the separator of two keys is behind [dst], no longer than the first key,
    and, when the first is below the second, from the first on and below the
    second; the successor of a key is no longer than it and not below it. *)
Theorem separator_between dst a b : octets a -> octets b ->
  (exists s, Separator dst a b = dst ++ s /\ (length s <= length a)%nat /\ (bytes_compare a b < 0 -> bytes_compare a s <= 0 /\ bytes_compare s b < 0)) /\
  (exists s, Successor dst a = dst ++ s /\ (length s <= length a)%nat /\ bytes_compare a s <= 0).
Proof.
  intros Ha Hb. split; [|exists (bump a); split; [done|]; split; [apply length_bump|by apply bump_ge]].
  unfold Separator. rewrite SharedPrefixLen_lcp by done. destruct (lcp_split a b) as (p & a' & b' & -> & -> & E & Hne). rewrite E. rewrite !lookup_app_r, !Nat.sub_diag by lia.
  assert (Hsame : exists s, dst ++ p ++ a' = dst ++ s /\ (length s <= length (p ++ a'))%nat /\ (bytes_compare (p ++ a') (p ++ b') < 0 -> bytes_compare (p ++ a') s <= 0 /\ bytes_compare s (p ++ b') < 0)).
  { exists (p ++ a'). split; [done|]. split; [done|]. intros H. rewrite (cmp_refl bytes_compare). done. }
  destruct a' as [|x a'], b' as [|y b']; cbn [lookup list_lookup]; try exact Hsame. destruct (Z.leb_spec y x) as [Hyx|Hxy]; [exact Hsame|].
  apply Forall_app in Ha as [_ Ha], Hb as [_ Hb]. apply Forall_cons_1 in Ha as [Hx Ha]. apply Forall_cons_1 in Hb as [Hy _]. rewrite u8_small by lia.
  destruct (bool_decide _ || _) eqn:Eb.
  - rewrite take_app_length. exists (p ++ [x + 1]). split; [done|]. split; [rewrite !length_app; cbn; lia|]. intros _. rewrite !cmp_prefix. cbn. destruct (Z.ltb_spec x (x + 1)); [|lia]. split; [lia|].
    destruct (Z.ltb_spec (x + 1) y) as [|Hge]; [lia|]. rewrite orb_false_r in Eb. apply bool_decide_eq_true in Eb. rewrite length_app in Eb. cbn in Eb. destruct b'; [cbn in Eb; lia|]. destruct (Z.ltb_spec y (x + 1)); [lia|]. done.
  - assert (Et : take (S (length p)) (p ++ x :: a') = p ++ [x]) by (rewrite take_app_ge by lia; f_equal; replace (S (length p) - length p)%nat with 1%nat by lia; done).
    assert (Ed : drop (S (length p)) (p ++ x :: a') = a') by (rewrite drop_app_ge by lia; replace (S (length p) - length p)%nat with 1%nat by lia; done). rewrite Et, Ed, <-app_assoc. cbn [app].
    exists (p ++ x :: bump a'). split; [done|]. split; [rewrite !length_app; cbn; pose proof (length_bump a'); lia|]. intros _. rewrite !cmp_prefix. cbn. rewrite Z.ltb_irrefl. split; [by apply bump_ge|]. by destruct (Z.ltb_spec x y); [|lia].
Qed.

Lemma separator_between_witness : exists s, Separator [9] [1; 2; 255; 7] [1; 3] = [9] ++ s /\ bytes_compare [1; 2; 255; 7] s <= 0 /\ bytes_compare s [1; 3] < 0 /\ s = [1; 2; 255; 8].
Proof.
  destruct (separator_between [9] [1; 2; 255; 7] [1; 3]) as [(s & E & _ & H) _]; [repeat constructor; lia..|]. destruct H as [H1 H2]; [by vm_compute|]. exists s. split; [done|]. split; [done|]. split; [done|].
  vm_compute in E. by injection E.
Defined.

(** ** Abbreviated keys *)

(** The first [n] bytes, with zeros behind a shorter string, and their number. *)
Fixpoint pad (n : nat) (l : bytes) : bytes := match n with O => [] | S n' => match l with [] => 0 :: pad n' [] | c :: l' => c :: pad n' l' end end.
Fixpoint number (l : bytes) : Z := match l with [] => 0 | c :: l' => c * 256 ^ Z.of_nat (length l') + number l' end.

Lemma length_pad n l : length (pad n l) = n.
Proof. revert l. induction n as [|n IH]; intros [|c l]; cbn; [done..| |]; by rewrite IH. Qed.

Lemma octets_pad n l : octets l -> octets (pad n l).
Proof. revert l. induction n as [|n IH]; intros l Hl; cbn; [constructor|]. destruct Hl as [|c l Hc Hl]; constructor; [lia|apply IH; constructor|done|by apply IH]. Qed.

Lemma number_range l : octets l -> 0 <= number l < 256 ^ Z.of_nat (length l).
Proof. induction 1 as [|c l Hc _ IH]; cbn [number length]; [change (256 ^ Z.of_nat 0) with 1; lia|]. rewrite Nat2Z.inj_succ, Z.pow_succ_r by lia. nia. Qed.

Lemma number_mono a : forall b, octets a -> octets b -> length a = length b -> bytes_compare a b <= 0 -> number a <= number b.
Proof.
  induction a as [|x a IH]; intros [|y b] Ha Hb Hl Hc; [done..|]. apply Forall_cons_1 in Ha as [Hx Ha]. apply Forall_cons_1 in Hb as [Hy Hb]. cbn [number length bytes_compare] in *. injection Hl as Hl. rewrite Hl.
  pose proof (number_range a Ha) as Ra. pose proof (number_range b Hb) as Rb. rewrite Hl in Ra. destruct (Z.ltb_spec x y); [nia|]. destruct (Z.ltb_spec y x); [lia|]. assert (x = y) as -> by lia. specialize (IH b Ha Hb Hl Hc). lia.
Qed.

Lemma pad_mono n : forall a b, octets a -> octets b -> bytes_compare a b <= 0 -> bytes_compare (pad n a) (pad n b) <= 0.
Proof.
  induction n as [|n IH]; intros a b Ha Hb Hc; [done|]. destruct a as [|x a], b as [|y b]; cbn [pad bytes_compare] in *; [..|lia|].
  - apply IH; [done..|cbn; lia].
  - apply Forall_cons_1 in Hb as [Hy Hb]. destruct (Z.ltb_spec 0 y); [lia|]. destruct (Z.ltb_spec y 0); [lia|]. apply IH; [done|done|]. by destruct b.
  - apply Forall_cons_1 in Ha as [Hx Ha]. apply Forall_cons_1 in Hb as [Hy Hb]. destruct (Z.ltb_spec x y); [lia|]. destruct (Z.ltb_spec y x); [lia|]. by apply IH.
Qed.

Lemma be_get_number l : octets l -> be_get l = number l.
Proof.
  unfold be_get. induction l as [|c l IH] using rev_ind; intros Hl; [done|]. apply Forall_app in Hl as [Hl Hc]. apply Forall_cons_1 in Hc as [Hc _]. rewrite reverse_snoc, le_get_cons, IH by done.
  clear. induction l as [|x l IH]; cbn [number app length]; [change (256 ^ Z.of_nat 0) with 1; lia|]. rewrite length_app. cbn [length]. replace (Z.of_nat (length l + 1)) with (Z.succ (Z.of_nat (length l))) by lia. rewrite Z.pow_succ_r by lia. lia.
Qed.

Lemma pad_short n l : (length l <= n)%nat -> number (pad n l) = number l * 256 ^ Z.of_nat (n - length l).
Proof.
  revert l. induction n as [|n IH]; intros [|c l] Hl; cbn [pad number length] in *; [done|lia| |].
  - rewrite IH by (cbn; lia). cbn. done.
  - rewrite IH, length_pad by lia. replace (S n - S (length l))%nat with (n - length l)%nat by lia. rewrite Z.mul_add_distr_r, <-Z.mul_assoc, <-Z.pow_add_r by lia. do 3 f_equal. lia.
Qed.

Lemma pad_long n l : (n <= length l)%nat -> pad n l = take n l.
Proof. revert l. induction n as [|n IH]; intros [|c l] Hl; cbn in *; [done|done|lia|]. by rewrite IH by lia. Qed.

Lemma fold_number l : octets l -> (length l <= 8)%nat -> fold_left (fun v b => Z.lor (u64 (Z.shiftl v 8)) b) l 0 = number l.
Proof.
  induction l as [|c l IH] using rev_ind; intros Hl Hn; [done|]. apply Forall_app in Hl as [Hl Hc]. apply Forall_cons_1 in Hc as [Hc _]. rewrite length_app in Hn. cbn in Hn. rewrite fold_left_app. cbn [fold_left].
  rewrite IH by (done || lia). pose proof (number_range l Hl) as Hr. assert (Hp : 256 ^ Z.of_nat (length l) <= 256 ^ 7) by (apply Z.pow_le_mono_r; lia). change (256 ^ 7) with 72057594037927936 in Hp.
  assert (Hsh : Z.shiftl (number l) 8 = number l * 256) by (by rewrite Z.shiftl_mul_pow2). rewrite u64_small by lia. rewrite Z.lor_comm, lor_shiftl_add by lia.
  rewrite <-be_get_number, <-be_get_number; [|apply Forall_app; split; [done|by constructor]|done]. unfold be_get. rewrite reverse_snoc, le_get_cons by done. lia.
Qed.

Lemma AbbreviatedKey_number key : octets key -> AbbreviatedKey key = number (pad 8 key).
Proof.
  intros Hk. unfold AbbreviatedKey. destruct (Z.leb_spec 8 (len key)) as [Hl|Hl]; unfold len in Hl.
  - rewrite pad_long by lia. apply be_get_number. by apply octets_take.
  - rewrite fold_number by (done || lia). rewrite pad_short by lia. pose proof (number_range key Hk) as Hr. rewrite Z.shiftl_mul_pow2 by (unfold len; lia).
    assert (E : 2 ^ (8 * (8 - len key)) = 256 ^ Z.of_nat (8 - length key)). { change 256 with (2 ^ 8). rewrite <-Z.pow_mul_r by lia. f_equal. unfold len. lia. } rewrite E. apply u64_small.
    assert (Hp : 256 ^ Z.of_nat (length key) * 256 ^ Z.of_nat (8 - length key) = 18446744073709551616) by (rewrite <-Z.pow_add_r by lia; replace (Z.of_nat (length key) + Z.of_nat (8 - length key)) with 8 by lia; done).
    assert (0 < 256 ^ Z.of_nat (8 - length key)) by (apply Z.pow_pos_nonneg; lia). nia.
Qed.

(** Abbreviated keys are in the order of the keys. *)
Lemma AbbreviatedKey_mono a b : octets a -> octets b -> bytes_compare a b <= 0 -> AbbreviatedKey a <= AbbreviatedKey b.
Proof.
  intros Ha Hb Hc. rewrite !AbbreviatedKey_number by done. apply number_mono; [by apply octets_pad..|by rewrite !length_pad|by apply pad_mono].
Qed.

End Comparer.
