(* ===== verification/MemFS.v ===== *)
(** The in-memory file system (internal/vfs/mem_fs.go) behind the tests of the
    stores: a tree of nodes that are shared by links and open files, and, in its
    strict form, a second tree of what has been synced, to which a simulated
    crash returns.

    The nodes are in a heap, as Go's pointers may share and even close a cycle.
    An operation is a function from the file system to the file system and a
    result, so that what an operation has changed before it fails stays changed.
    The mutex is a flag: taking it twice is waiting for ever, [ErrModelBlocked].
    The order of a loop over a map is an argument.  Modification times and the
    debug dump are left out, and so are [PathJoin] and [PathDir], which call the
    path package. *)

From Stdlib Require Import ZArith Lia.
From stdpp Require Import base numbers option list gmap sets.
From S2P Require Import Prelude.

Module MemFS.

Inductive fsError : Type :=
| errEmptyName | ErrNotExist | errNotDir | ErrExist | ErrInvalid | errNotEmpty
| errNotReading | errNotWriting | errIsDir | EOF | errNotSupported
| ErrModelFuel | ErrModelBlocked.

Record memNode : Type := mkMemNode {
  name : bytes;
  isDir : bool;
  refs : Z;
  data : bytes;
  syncedData : bytes;
  children : gmap bytes Z;
  syncedChildren : gmap bytes Z
}.

Record MemFS : Type := mkMemFS {
  heap : gmap Z memNode;
  next : Z;
  root : Z;
  strict : bool;
  ignoreSyncs : bool;
  locked : bool
}.

(** A reader or writer of a node's data; [fs] is whether it belongs to a file
    system. *)
Record memFile : Type := mkMemFile { n : option Z; fs : bool; rpos : Z; wpos : Z; read : bool; write : bool }.

(** ** Operations with a result *)

Definition fsm (A : Type) : Type := MemFS -> MemFS * result fsError A.

Definition ret {A} (a : A) : fsm A := fun y => (y, Ok a).
Definition fail {A} (e : fsError) : fsm A := fun y => (y, Err e).
Definition crash {A} : fsm A := fun y => (y, Panic).
Definition bind {A B} (m : fsm A) (k : A -> fsm B) : fsm B :=
  fun y => let '(y', r) := m y in match r with Ok a => k a y' | Err e => (y', Err e) | Panic => (y', Panic) end.

Notation "'let?' x ':=' m 'in' k" := (bind m (fun x => k)) (at level 200, x pattern, m at level 100, k at level 200, right associativity) : go_scope.

Definition with_heap (y : MemFS) h : MemFS := mkMemFS h (next y) (root y) (strict y) (ignoreSyncs y) (locked y).
Definition with_locked (y : MemFS) b : MemFS := mkMemFS (heap y) (next y) (root y) (strict y) (ignoreSyncs y) b.
Definition with_ignoreSyncs (y : MemFS) b : MemFS := mkMemFS (heap y) (next y) (root y) (strict y) b (locked y).

Definition node (id : Z) : fsm memNode := fun y => match heap y !! id with Some x => (y, Ok x) | None => (y, Panic) end.
Definition set (id : Z) (x : memNode) : fsm unit := fun y => (with_heap y (<[id := x]> (heap y)), Ok tt).
Definition alloc (x : memNode) : fsm Z := fun y => (mkMemFS (<[next y := x]> (heap y)) (next y + 1) (root y) (strict y) (ignoreSyncs y) (locked y), Ok (next y)).
Definition rootOf : fsm Z := fun y => (y, Ok (root y)).
Definition isStrict : fsm bool := fun y => (y, Ok (strict y)).
Definition ignores : fsm bool := fun y => (y, Ok (ignoreSyncs y)).

(** [Lock] with a deferred [Unlock]. *)
Definition with_lock {A} (m : fsm A) : fsm A :=
  fun y => if locked y then (y, Err ErrModelBlocked) else let '(y', r) := m (with_locked y true) in (with_locked y' false, r).

Definition with_name (x : memNode) s := mkMemNode s (isDir x) (refs x) (data x) (syncedData x) (children x) (syncedChildren x).
Definition with_refs (x : memNode) r := mkMemNode (name x) (isDir x) r (data x) (syncedData x) (children x) (syncedChildren x).
Definition with_data (x : memNode) d := mkMemNode (name x) (isDir x) (refs x) d (syncedData x) (children x) (syncedChildren x).
Definition with_syncedData (x : memNode) d := mkMemNode (name x) (isDir x) (refs x) (data x) d (children x) (syncedChildren x).
Definition with_children (x : memNode) c := mkMemNode (name x) (isDir x) (refs x) (data x) (syncedData x) c (syncedChildren x).
Definition with_syncedChildren (x : memNode) c := mkMemNode (name x) (isDir x) (refs x) (data x) (syncedData x) (children x) c.

Definition update (id : Z) (f : memNode -> memNode) : fsm unit := let? x := node id in set id (f x).

Definition new_dir (s : bytes) : memNode := mkMemNode s true 0 [] [] ∅ ∅.
Definition new_file (s : bytes) : memNode := mkMemNode s false 0 [] [] ∅ ∅.

Definition NewMem : MemFS := mkMemFS {[0 := new_dir []]} 1 0 false false false.
Definition NewStrictMem : MemFS := mkMemFS {[0 := new_dir []]} 1 0 true false false.

Definition NewMemFile (d : bytes) : fsm memFile := let? id := alloc (mkMemNode [] false 1 d [] ∅ ∅) in ret (mkMemFile (Some id) false 0 0 true false).

(** ** Walking a path *)

Definition sep : Z := 47.

Fixpoint strip (s : bytes) : bytes := match s with [] => [] | c :: s' => if c =? sep then strip s' else s end.

(** The text before and behind the first separator. *)
Fixpoint cut_sep (s : bytes) : option (bytes * bytes) :=
  match s with
  | [] => None
  | c :: s' => if c =? sep then Some ([], s') else match cut_sep s' with Some (a, b) => Some (c :: a, b) | None => None end
  end.

(** The callback gets the directory, the fragment and whether it is the last
    one; [acc] is what it has stored so far in the caller's variables. *)
Fixpoint walk_loop {A} (fuel : nat) (f : Z -> bytes -> bool -> A -> fsm A) (dir : Z) (fullname : bytes) (acc : A) : fsm A :=
  match fuel with
  | O => fail ErrModelFuel
  | S fuel' =>
      match cut_sep fullname with
      | None => f dir fullname true acc
      | Some (frag, remaining) =>
          let? acc := f dir frag false acc in
          let? d := node dir in
          match children d !! frag with
          | None => fail ErrNotExist
          | Some child =>
              let? c := node child in
              if negb (isDir c) then fail errNotDir else walk_loop fuel' f child (strip remaining) acc
          end
      end
  end.

Definition walk {A} (fullname : bytes) (f : Z -> bytes -> bool -> A -> fsm A) (acc : A) : fsm A :=
  with_lock (let? r := rootOf in walk_loop (S (length fullname)) f r (strip fullname) acc).

(** A callback that only acts on the last step. *)
Definition at_end {A} (g : Z -> bytes -> A -> fsm A) : Z -> bytes -> bool -> A -> fsm A :=
  fun dir frag final acc => if final then g dir frag acc else ret acc.

Definition set_child (dir : Z) (frag : bytes) (id : Z) : fsm unit := update dir (fun d => with_children d (<[frag := id]> (children d))).
Definition drop_child (dir : Z) (frag : bytes) : fsm unit := update dir (fun d => with_children d (delete frag (children d))).
Definition child_of (dir : Z) (frag : bytes) : fsm (option Z) := let? d := node dir in ret (children d !! frag).

Definition named {A} (frag : bytes) (m : fsm A) : fsm A := if decide (frag = []) then fail errEmptyName else m.

Definition opened (id : Z) (f : memFile) : fsm memFile := let? _ := update id (fun x => with_refs x (refs x + 1)) in ret f.

Definition Create (fullname : bytes) : fsm memFile :=
  let? r := walk fullname (at_end (fun dir frag _ =>
    named frag (let? id := alloc (new_file frag) in let? _ := set_child dir frag id in ret (Some id)))) None in
  match r with Some id => opened id (mkMemFile (Some id) true 0 0 true true) | None => crash end.

Definition Link (oldname newname : bytes) : fsm unit :=
  let? r := walk oldname (at_end (fun dir frag _ => named frag (child_of dir frag))) None in
  match r with
  | None => fail ErrNotExist
  | Some id =>
      walk newname (at_end (fun dir frag _ => named frag (let? c := child_of dir frag in
        match c with Some _ => fail ErrExist | None => set_child dir frag id end))) tt
  end.

(** The variable holds the node and whether it is opened for reading. *)
Definition open (fullname : bytes) (allowEmptyName : bool) : fsm memFile :=
  let? r := walk fullname (at_end (fun dir frag _ =>
    if decide (frag = []) then if negb allowEmptyName then fail errEmptyName else ret (Some (dir, false))
    else let? c := child_of dir frag in ret (match c with Some id => Some (id, true) | None => None end))) None in
  match r with Some (id, rd) => opened id (mkMemFile (Some id) true 0 0 rd false) | None => fail ErrNotExist end.

Definition Open (fullname : bytes) : fsm memFile := open fullname false.
Definition OpenDir (fullname : bytes) : fsm memFile := open fullname true.

Definition Remove (fullname : bytes) : fsm unit :=
  walk fullname (at_end (fun dir frag _ => named frag (let? c := child_of dir frag in
    match c with
    | None => fail ErrNotExist
    | Some id =>
        let? x := node id in
        if 0 <? refs x then fail ErrInvalid
        else if negb (bool_decide (children x = ∅)) then fail errNotEmpty
        else drop_child dir frag
    end))) tt.

(** A path that does not exist is no error. *)
Definition RemoveAll (fullname : bytes) : fsm unit :=
  fun y => match walk fullname (at_end (fun dir frag _ => named frag (let? c := child_of dir frag in
    match c with None => ret tt | Some _ => drop_child dir frag end))) tt y with (y', Err ErrNotExist) => (y', Ok tt) | r => r end.

Definition Rename (oldname newname : bytes) : fsm unit :=
  let? r := walk oldname (at_end (fun dir frag _ => named frag (let? c := child_of dir frag in let? _ := drop_child dir frag in ret c))) None in
  match r with
  | None => fail ErrNotExist
  | Some id => walk newname (at_end (fun dir frag _ => named frag (let? _ := set_child dir frag id in update id (fun x => with_name x frag)))) tt
  end.

Definition ReuseForWrite (oldname newname : bytes) : fsm memFile :=
  let? _ := Rename oldname newname in
  let? f := Open newname in
  with_lock (ret (mkMemFile (n f) (fs f) (rpos f) (wpos f) false true)).

Definition MkdirAll (dirname : bytes) : fsm unit :=
  walk dirname (fun dir frag final _ =>
    if decide (frag = []) then if final : bool then ret tt else fail errEmptyName
    else let? c := child_of dir frag in
      match c with
      | None => let? id := alloc (new_dir frag) in set_child dir frag id
      | Some id => let? x := node id in if negb (isDir x) then fail errNotDir else ret tt
      end) tt.

Definition Lock (fullname : bytes) : fsm memFile := Create fullname.

Definition ends_sep (s : bytes) : bool := match last s with Some c => c =? sep | None => false end.

(** The names, in any order. *)
Definition List_ (dirname : bytes) : fsm (list bytes) :=
  let s := if ends_sep dirname then dirname else dirname ++ [sep] in
  walk s (at_end (fun dir frag _ => if decide (frag = []) then let? d := node dir in ret (map_to_list (children d)).*1 else crash)) [].

(** ** Files *)

Definition file_node (f : memFile) : fsm Z := match n f with Some id => ret id | None => crash end.

Definition Close (f : memFile) : fsm memFile :=
  let? id := file_node f in
  let? x := node id in
  let? _ := set id (with_refs x (refs x - 1)) in
  if refs x - 1 <? 0 then crash else ret (mkMemFile None (fs f) (rpos f) (wpos f) (read f) (write f)).

(** The data copied into a buffer of [k] bytes. *)
Definition Read (f : memFile) (k : nat) : fsm (memFile * bytes) :=
  if negb (read f) then fail errNotReading
  else
    let? id := file_node f in
    let? x := node id in
    if isDir x then fail errIsDir
    else if len (data x) <=? rpos f then fail EOF
    else let p := take k (drop (Z.to_nat (rpos f)) (data x)) in ret (mkMemFile (n f) (fs f) (rpos f + len p) (wpos f) (read f) (write f), p).

Definition ReadAt (f : memFile) (k : nat) (off : Z) : fsm bytes :=
  if negb (read f) then fail errNotReading
  else
    let? id := file_node f in
    let? x := node id in
    if isDir x then fail errIsDir
    else if len (data x) <=? off then fail EOF
    else if off <? 0 then crash
    else ret (take k (drop (Z.to_nat off) (data x))).

(** [spare] is what is behind the data in its array, into which a slice may
    reach when a reset has made the data shorter than the position. *)
Definition Write (f : memFile) (spare p : bytes) : fsm (memFile * Z) :=
  if negb (write f) then fail errNotWriting
  else
    let? id := file_node f in
    let? x := node id in
    if isDir x then fail errIsDir
    else
      let w := Z.to_nat (wpos f) in
      let? _ := (if wpos f + len p <=? len (data x) then set id (with_data x (take w (data x) ++ p ++ drop (w + length p) (data x)))
                 else if wpos f <=? len (data x) + len spare then set id (with_data x (take w (data x ++ spare) ++ p))
                 else crash) in
      ret (mkMemFile (n f) (fs f) (rpos f) (wpos f + len p) (read f) (write f), len p).

Definition Seek (f : memFile) : fsm Z := ret 0.

(** The name, whether it is a directory, and the size. *)
Definition file_Stat (f : memFile) : fsm (bytes * bool * Z) := let? id := file_node f in let? x := node id in ret (name x, isDir x, len (data x)).

Definition Stat (fullname : bytes) : fsm (bytes * bool * Z) :=
  let? f := Open fullname in
  let? i := file_Stat f in
  let? _ := Close f in
  ret i.

Definition Sync (f : memFile) : fsm unit :=
  let? s := isStrict in
  if fs f && s then
    with_lock (let? b := ignores in
      if b : bool then ret tt
      else
        let? id := file_node f in
        let? x := node id in
        set id (if isDir x then with_syncedChildren x (children x) else with_syncedData x (data x)))
  else ret tt.

Definition Flush (f : memFile) : fsm unit := ret tt.

Definition GetDiskUsage : fsm unit := fail errNotSupported.

(** ** Crashes *)

(** On a file system that is not strict the mutex is left locked. *)
Definition SetIgnoreSyncs (b : bool) : fsm unit :=
  fun y => if locked y then (y, Err ErrModelBlocked) else if negb (strict y) then (with_locked y true, Ok tt) else (with_ignoreSyncs y b, Ok tt).

Section Reset.
Context (order : gmap bytes Z -> list Z).

Fixpoint resetToSyncedState (fuel : nat) (id : Z) : fsm unit :=
  match fuel with
  | O => fail ErrModelFuel
  | S fuel' =>
      let? x := node id in
      if isDir x then
        let? _ := set id (with_children x (syncedChildren x)) in
        (fix go (l : list Z) : fsm unit := match l with [] => ret tt | c :: l' => let? _ := resetToSyncedState fuel' c in go l' end) (order (syncedChildren x))
      else set id (with_data x (syncedData x))
  end.

Definition ResetToSyncedState (fuel : nat) : fsm unit :=
  fun y => if negb (strict y) then (y, Ok tt) else with_lock (let? r := rootOf in resetToSyncedState fuel r) y.

End Reset.

(** ** Any sequence of calls *)

Inductive call : Type :=
| CCreate (p : bytes) | CLink (o p : bytes) | COpen (p : bytes) | COpenDir (p : bytes) | CRemove (p : bytes) | CRemoveAll (p : bytes)
| CRename (o p : bytes) | CReuse (o p : bytes) | CMkdirAll (p : bytes) | CLock (p : bytes) | CList (p : bytes) | CStat (p : bytes)
| CClose (h : nat) | CRead (h k : nat) | CReadAt (h k : nat) (off : Z) | CWrite (h : nat) (spare p : bytes) | CSync (h : nat).

(** A process: the file system and the files it has opened. *)
Record world : Type := mkWorld { mem : MemFS; files : list memFile }.

Definition run_file {A} (w : world) (h : nat) (m : memFile -> fsm A) (k : memFile -> A -> memFile) : world :=
  match files w !! h with
  | None => w
  | Some f => let '(y, r) := m f (mem w) in mkWorld y (match r with Ok a => <[h := k f a]> (files w) | _ => files w end)
  end.

Definition run_open (w : world) (m : fsm memFile) : world :=
  let '(y, r) := m (mem w) in mkWorld y (match r with Ok f => files w ++ [f] | _ => files w end).

Definition run {A} (w : world) (m : fsm A) : world := mkWorld (m (mem w)).1 (files w).

Definition exec (w : world) (c : call) : world :=
  match c with
  | CCreate p => run_open w (Create p)
  | CLink o p => run w (Link o p)
  | COpen p => run_open w (Open p)
  | COpenDir p => run_open w (OpenDir p)
  | CRemove p => run w (Remove p)
  | CRemoveAll p => run w (RemoveAll p)
  | CRename o p => run w (Rename o p)
  | CReuse o p => run_open w (ReuseForWrite o p)
  | CMkdirAll p => run w (MkdirAll p)
  | CLock p => run_open w (Lock p)
  | CList p => run w (List_ p)
  | CStat p => run w (Stat p)
  | CClose h => run_file w h Close (fun _ f => f)
  | CRead h k => run_file w h (fun f => Read f k) (fun _ x => x.1)
  | CReadAt h k off => run_file w h (fun f => ReadAt f k off) (fun f _ => f)
  | CWrite h spare p => run_file w h (fun f => Write f spare p) (fun _ x => x.1)
  | CSync h => run_file w h Sync (fun f _ => f)
  end.

Definition exec_all (w : world) (l : list call) : world := fold_left exec l w.

(** ** The nodes stay well formed, and what is synced stays *)

Definition valid (y : MemFS) (id : Z) : Prop := is_Some (heap y !! id).

Record inv (y : MemFS) : Prop := mkInv {
  iv_below : forall id, valid y id -> id < next y;
  iv_root : exists x, heap y !! root y = Some x /\ isDir x = true;
  iv_kids : forall id x s c, heap y !! id = Some x -> children x !! s = Some c -> valid y c;
  iv_synced : forall id x s c, heap y !! id = Some x -> syncedChildren x !! s = Some c -> valid y c
}.

(** Every node is still there, with its kind; when syncs are ignored, also with
    what was synced of it. *)
Record kept (y y' : MemFS) : Prop := mkKept {
  kp_root : root y' = root y;
  kp_strict : strict y' = strict y;
  kp_ignore : ignoreSyncs y' = ignoreSyncs y;
  kp_node : forall id x, heap y !! id = Some x -> exists x', heap y' !! id = Some x' /\ isDir x' = isDir x /\
    (ignoreSyncs y = true -> syncedData x' = syncedData x /\ syncedChildren x' = syncedChildren x)
}.

Lemma kept_refl y : kept y y.
Proof. split; [done..|]. intros id x Hx. by exists x. Qed.

Lemma kept_trans y1 y2 y3 : kept y1 y2 -> kept y2 y3 -> kept y1 y3.
Proof.
  intros [A1 A2 A3 A4] [B1 B2 B3 B4]. split; [congruence..|]. intros id x Hx. destruct (A4 id x Hx) as (x2 & H2 & D2 & S2). destruct (B4 id x2 H2) as (x3 & H3 & D3 & S3).
  exists x3. split; [done|]. split; [congruence|]. intros Hi. destruct (S2 Hi) as [E1 E2]. rewrite A3 in S3. destruct (S3 Hi) as [E3 E4]. split; congruence.
Qed.

Lemma kept_valid y y' id : kept y y' -> valid y id -> valid y' id.
Proof. intros H [x Hx]. destruct (kp_node _ _ H id x Hx) as (x' & Hx' & _). by exists x'. Qed.

(** [m] keeps the nodes; [P] is what it needs of the state and [Q] what it says
    of its result. *)
Definition keeps {A} (P : MemFS -> Prop) (m : fsm A) (Q : A -> MemFS -> Prop) : Prop :=
  forall y, inv y -> P y -> inv (m y).1 /\ kept y (m y).1 /\ locked (m y).1 = locked y /\ forall a, (m y).2 = Ok a -> Q a (m y).1.

Definition lasting (P : MemFS -> Prop) : Prop := forall y y', kept y y' -> P y -> P y'.

Definition any {A} (_ : A) (_ : MemFS) : Prop := True.

Lemma lasting_valid id : lasting (fun y => valid y id).
Proof. intros y y' Hk. by apply kept_valid. Qed.

Lemma keeps_ret {A} P (a : A) Q : (forall y, P y -> Q a y) -> keeps P (ret a) Q.
Proof. intros H y Hi HP. split; [done|]. split; [apply kept_refl|]. split; [done|]. intros ? [= <-]. by apply H. Qed.

Lemma keeps_fail {A} P e (Q : A -> MemFS -> Prop) : keeps P (fail e) Q.
Proof. intros y Hi HP. split; [done|]. split; [apply kept_refl|]. done. Qed.

Lemma keeps_crash {A} P (Q : A -> MemFS -> Prop) : keeps P crash Q.
Proof. intros y Hi HP. split; [done|]. split; [apply kept_refl|]. done. Qed.

Lemma keeps_bind {A B} P (m : fsm A) (k : A -> fsm B) Q R : lasting P -> keeps P m Q -> (forall a, keeps (fun y => P y /\ Q a y) (k a) R) -> keeps P (bind m k) R.
Proof.
  intros HL Hm Hk y Hi HP. unfold bind. destruct (Hm y Hi HP) as (I1 & K1 & L1 & Q1). destruct (m y) as [y1 [a|e|]]; cbn in *; [|done|done].
  destruct (Hk a y1 I1 (conj (HL _ _ K1 HP) (Q1 a eq_refl))) as (I2 & K2 & L2 & Q2). split; [done|]. split; [by eapply kept_trans|]. split; [congruence|done].
Qed.

Lemma keeps_mono {A} (P P' : MemFS -> Prop) (m : fsm A) (Q Q' : A -> MemFS -> Prop) : (forall y, P' y -> P y) -> (forall a y, Q a y -> Q' a y) -> keeps P m Q -> keeps P' m Q'.
Proof. intros HP HQ H y Hi Hp. destruct (H y Hi (HP y Hp)) as (? & ? & ? & ?). eauto 10. Qed.

Lemma keeps_node P id : keeps P (node id) (fun x y => valid y id /\ (forall s c, children x !! s = Some c -> valid y c)).
Proof.
  intros y Hi HP. unfold node. destruct (heap y !! id) as [x|] eqn:E; cbn; (split; [done|]); (split; [apply kept_refl|]); (split; [done|]); [|done].
  intros ? [= <-]. split; [by eexists|]. intros s c Hc. by eapply iv_kids.
Qed.

(** Changing a node. *)
Lemma set_keeps y id x x' : inv y -> heap y !! id = Some x -> isDir x' = isDir x ->
  (ignoreSyncs y = true -> syncedData x' = syncedData x /\ syncedChildren x' = syncedChildren x) ->
  (forall s c, children x' !! s = Some c -> valid y c) -> (forall s c, syncedChildren x' !! s = Some c -> valid y c) ->
  let y' := with_heap y (<[id := x']> (heap y)) in inv y' /\ kept y y'.
Proof.
  intros [I1 I2 I3 I4] Hx Hd Hs Hc Hsc y'. assert (Hv : forall j, valid y' j <-> valid y j).
  { intros j. unfold valid, y'. cbn. destruct (decide (j = id)) as [->|]; [rewrite lookup_insert_eq, Hx; split; eauto|]. by rewrite lookup_insert_ne. }
  split.
  - split.
    + intros j Hj%Hv. by apply I1.
    + destruct I2 as (r & Hr & Dr). cbn. destruct (decide (root y = id)) as [E|]; [|rewrite lookup_insert_ne by done; eauto]. exists x'. rewrite E, lookup_insert_eq. split; [done|]. rewrite Hd. rewrite E, Hx in Hr. by injection Hr as ->.
    + intros j z s c Hz Hcz. apply Hv. cbn in Hz. destruct (decide (j = id)) as [->|]; [rewrite lookup_insert_eq in Hz; injection Hz as <-; by eapply Hc|]. rewrite lookup_insert_ne in Hz by done. by eapply I3.
    + intros j z s c Hz Hcz. apply Hv. cbn in Hz. destruct (decide (j = id)) as [->|]; [rewrite lookup_insert_eq in Hz; injection Hz as <-; by eapply Hsc|]. rewrite lookup_insert_ne in Hz by done. by eapply I4.
  - split; [done..|]. intros j z Hz. cbn. destruct (decide (j = id)) as [->|]; [|rewrite lookup_insert_ne by done; eauto]. rewrite lookup_insert_eq. rewrite Hx in Hz. injection Hz as <-. eauto.
Qed.

(** An update that leaves the kind, what is synced and the children, but for valid
    ones, alone. *)
Definition gentle (f : memNode -> memNode) (V : Z -> Prop) : Prop :=
  forall x, isDir (f x) = isDir x /\ syncedData (f x) = syncedData x /\ syncedChildren (f x) = syncedChildren x /\
    forall s c, children (f x) !! s = Some c -> children x !! s = Some c \/ V c.

Lemma keeps_update P id f : (forall y, P y -> gentle f (valid y)) -> keeps P (update id f) any.
Proof.
  intros Hg y Hi HP. unfold update, bind, node, set. destruct (heap y !! id) as [x|] eqn:E; cbn; [|split; [done|]; split; [apply kept_refl|done]].
  destruct (Hg y HP x) as (G1 & G2 & G3 & G4). destruct (set_keeps y id x (f x) Hi E G1) as [I' K'].
  - intros _. by rewrite G2, G3.
  - intros s c Hc. destruct (G4 s c Hc) as [Hc'|]; [by eapply (iv_kids y Hi)|done].
  - intros s c Hc. rewrite G3 in Hc. by eapply (iv_synced y Hi).
  - done.
Qed.

Lemma keeps_alloc P x : children x = ∅ -> syncedChildren x = ∅ -> keeps P (alloc x) (fun id y => valid y id).
Proof.
  intros Hc Hs y [I1 I2 I3 I4] HP. unfold alloc. cbn. assert (Hn : heap y !! next y = None) by (destruct (heap y !! next y) eqn:E; [|done]; specialize (I1 (next y) ltac:(by eexists)); lia).
  set (y' := mkMemFS _ _ _ _ _ _). assert (Hv : forall j, valid y' j <-> valid y j \/ j = next y).
  { intros j. unfold valid, y'. cbn. destruct (decide (j = next y)) as [->|]; [rewrite lookup_insert_eq; split; eauto|]. rewrite lookup_insert_ne by done. tauto. }
  split; [split|split; [split; [done..|]|split; [done|]]].
  - intros j [Hj| ->]%Hv; cbn; [specialize (I1 j Hj)|]; lia.
  - destruct I2 as (r & Hr & Dr). exists r. cbn. rewrite lookup_insert_ne; [done|]. intros E. by rewrite <-E, Hn in Hr.
  - intros j z s c Hz Hcz. cbn in Hz. destruct (decide (j = next y)) as [->|]; [rewrite lookup_insert_eq in Hz; injection Hz as <-; by rewrite Hc, lookup_empty in Hcz|].
    rewrite lookup_insert_ne in Hz by done. apply Hv. left. by eapply I3.
  - intros j z s c Hz Hcz. cbn in Hz. destruct (decide (j = next y)) as [->|]; [rewrite lookup_insert_eq in Hz; injection Hz as <-; by rewrite Hs, lookup_empty in Hcz|].
    rewrite lookup_insert_ne in Hz by done. apply Hv. left. by eapply I4.
  - intros j z Hz. cbn. rewrite lookup_insert_ne by (intros <-; by rewrite Hn in Hz). eauto.
  - intros ? [= <-]. apply Hv. by right.
Qed.

Lemma lasting_and P Q : lasting P -> lasting Q -> lasting (fun y => P y /\ Q y).
Proof. intros H1 H2 y y' Hk [? ?]. split; [by eapply H1|by eapply H2]. Qed.

Lemma lasting_any {A} (a : A) : lasting (any a).
Proof. done. Qed.

Lemma kept_locked y b : kept y (with_locked y b).
Proof. split; [done..|]. intros id x Hx. by exists x. Qed.

Lemma keeps_lock {A} P (m : fsm A) Q : lasting P -> (forall a, lasting (Q a)) -> keeps P m Q -> keeps P (with_lock m) Q.
Proof.
  intros HL HQ Hm y Hi HP. unfold with_lock. destruct (locked y) eqn:El; [split; [done|]; split; [apply kept_refl|done]|].
  assert (Hi' : inv (with_locked y true)) by (by destruct Hi; split). assert (HP' : P (with_locked y true)) by (by eapply HL; [apply kept_locked|]).
  destruct (Hm _ Hi' HP') as (I1 & K1 & L1 & Q1). destruct (m (with_locked y true)) as [y1 r]; cbn in *. split; [by destruct I1; split|].
  split; [eapply kept_trans; [apply (kept_locked y true)|]; eapply kept_trans; [exact K1|apply kept_locked]|]. split; [done|]. intros a Ha. eapply HQ; [apply kept_locked|by apply Q1].
Qed.

Lemma keeps_walk_loop {A} P (f : Z -> bytes -> bool -> A -> fsm A) (V : A -> MemFS -> Prop) : lasting P -> (forall a, lasting (V a)) ->
  (forall dir frag final acc, keeps (fun y => P y /\ valid y dir /\ V acc y) (f dir frag final acc) V) ->
  forall fuel dir fullname acc, keeps (fun y => P y /\ valid y dir /\ V acc y) (walk_loop fuel f dir fullname acc) V.
Proof.
  intros HP HV Hf. induction fuel as [|fuel IH]; intros dir fullname acc; cbn [walk_loop]; [apply keeps_fail|]. destruct (cut_sep fullname) as [[frag rem]|]; [|apply Hf].
  assert (HL : forall d a, lasting (fun y => P y /\ valid y d /\ V a y)) by (intros; apply lasting_and; [done|]; apply lasting_and; [apply lasting_valid|done]).
  eapply keeps_bind; [apply HL|apply Hf|]. intros a. eapply keeps_bind; [apply lasting_and; [apply HL|apply HV]|apply keeps_node|]. intros d.
  destruct (children d !! frag) as [c|] eqn:Ec; [|apply keeps_fail]. eapply (keeps_mono (fun y => P y /\ valid y c /\ V a y)); [|intros ? ? H; exact H|].
  { intros y [[(H1 & _ & _) H2] [_ H3]]. split; [done|]. split; [by apply (H3 frag)|done]. }
  eapply keeps_bind; [apply HL|apply keeps_node|]. intros x. destruct (negb (isDir x)); [apply keeps_fail|]. eapply keeps_mono; [|intros ? ? H; exact H|apply IH]. by intros y [? _].
Qed.

Lemma keeps_walk {A} P fullname (f : Z -> bytes -> bool -> A -> fsm A) (V : A -> MemFS -> Prop) acc : lasting P -> (forall a, lasting (V a)) ->
  (forall dir frag final acc, keeps (fun y => P y /\ valid y dir /\ V acc y) (f dir frag final acc) V) -> (forall y, P y -> V acc y) -> keeps P (walk fullname f acc) V.
Proof.
  intros HP HV Hf Hacc. unfold walk. apply keeps_lock; [done|done|]. eapply (keeps_bind _ _ _ (fun r y => valid y r)); [done| |].
  - intros y Hi Hp. cbn. split; [done|]. split; [apply kept_refl|]. split; [done|]. intros ? [= <-]. destruct (iv_root y Hi) as (x & Hx & _). by exists x.
  - intros r. eapply keeps_mono; [|intros ? ? H; exact H|by apply (keeps_walk_loop P f V)]. intros y [? ?]. auto.
Qed.

Lemma keeps_at_end {A} P (g : Z -> bytes -> A -> fsm A) (V : A -> MemFS -> Prop) : (forall dir frag acc, keeps (fun y => P y /\ valid y dir /\ V acc y) (g dir frag acc) V) ->
  forall dir frag final acc, keeps (fun y => P y /\ valid y dir /\ V acc y) (at_end g dir frag final acc) V.
Proof. intros Hg dir frag [] acc; [apply Hg|]. apply keeps_ret. by intros y (_ & _ & ?). Qed.

Lemma keeps_named {A} P frag (m : fsm A) Q : keeps P m Q -> keeps P (named frag m) Q.
Proof. intros H. unfold named. case_decide; [apply keeps_fail|done]. Qed.

Definition opt_valid (r : option Z) (y : MemFS) : Prop := match r with Some id => valid y id | None => True end.

Lemma lasting_opt r : lasting (opt_valid r).
Proof. destruct r; [apply lasting_valid|done]. Qed.

Lemma keeps_child P dir frag : keeps P (child_of dir frag) opt_valid.
Proof.
  intros y Hi HP. unfold child_of, bind. destruct (keeps_node P dir y Hi HP) as (I1 & K1 & L1 & Q1). destruct (node dir y) as [y1 [x|e|]]; cbn in *; [|done|done].
  split; [done|]. split; [done|]. split; [done|]. intros a [= <-]. destruct (Q1 x eq_refl) as [_ Hc]. destruct (children x !! frag) eqn:E; [by eapply Hc|done].
Qed.

Lemma keeps_set_child P dir frag id : (forall y, P y -> valid y id) -> keeps P (set_child dir frag id) any.
Proof.
  intros Hv. apply keeps_update. intros y Hy x. repeat split. cbn. intros s c. destruct (decide (s = frag)) as [->|]; [rewrite lookup_insert_eq; intros [= <-]; right; by apply Hv|].
  rewrite lookup_insert_ne by done. by left.
Qed.

Lemma keeps_drop_child P dir frag : keeps P (drop_child dir frag) any.
Proof. apply keeps_update. intros y Hy x. repeat split. cbn. intros s c [_ ?]%lookup_delete_Some. by left. Qed.

(** An open file reads or writes a node that is there. *)
Definition sound (f : memFile) (y : MemFS) : Prop := opt_valid (n f) y.

Lemma lasting_sound f : lasting (sound f).
Proof. apply lasting_opt. Qed.

Lemma keeps_opened P id rd wr : (forall y, P y -> valid y id) -> lasting P -> keeps P (opened id (mkMemFile (Some id) true 0 0 rd wr)) sound.
Proof.
  intros Hv HL. unfold opened. eapply keeps_bind; [done|apply keeps_update; intros y Hy x; repeat split; by left|]. intros []. apply keeps_ret. intros y [Hy _]. by apply Hv.
Qed.

Definition always (y : MemFS) : Prop := True.

Lemma keeps_Create p : keeps always (Create p) sound.
Proof.
  unfold Create. eapply (keeps_bind _ _ _ opt_valid); [done| |intros [id|]; [|apply keeps_crash]].
  - apply keeps_walk; [done|apply lasting_opt| |done]. apply keeps_at_end. intros dir frag acc. apply keeps_named.
    assert (HL : lasting (fun y => always y /\ valid y dir /\ opt_valid acc y)) by (apply lasting_and; [done|apply lasting_and; [apply lasting_valid|apply lasting_opt]]).
    eapply keeps_bind; [exact HL|by apply keeps_alloc|]. intros id. eapply keeps_bind; [apply lasting_and; [exact HL|apply lasting_valid]|apply keeps_set_child; by intros y [_ ?]|].
    intros []. apply keeps_ret. by intros y [[_ ?] _].
  - apply keeps_opened; [by intros y [_ ?]|]. apply lasting_and; [done|apply lasting_valid].
Qed.

Lemma keeps_open p b : keeps always (open p b) sound.
Proof.
  unfold open. eapply (keeps_bind _ _ _ (fun r => opt_valid (fst <$> r))); [done| |intros [[id rd]|]; [|apply keeps_fail]].
  - apply keeps_walk; [done|intros a; apply lasting_opt| |done]. apply keeps_at_end. intros dir frag acc. case_decide.
    + destruct (negb b); [apply keeps_fail|]. apply keeps_ret. by intros y (_ & ? & _).
    + eapply keeps_bind; [apply lasting_and; [done|apply lasting_and; [apply lasting_valid|apply lasting_opt]]|apply keeps_child|]. intros [id|]; apply keeps_ret; by intros y [_ ?].
  - apply keeps_opened; [by intros y [_ ?]|]. apply lasting_and; [done|apply lasting_valid].
Qed.

Lemma keeps_Link o p : keeps always (Link o p) any.
Proof.
  unfold Link. eapply (keeps_bind _ _ _ opt_valid); [done| |intros [id|]; [|apply keeps_fail]].
  - apply keeps_walk; [done|apply lasting_opt| |done]. apply keeps_at_end. intros dir frag acc. apply keeps_named, keeps_child.
  - apply keeps_walk; [apply lasting_and; [done|apply lasting_valid]|done| |done]. apply keeps_at_end. intros dir frag []. apply keeps_named.
    eapply keeps_bind; [apply lasting_and; [apply lasting_and; [done|apply lasting_valid]|apply lasting_and; [apply lasting_valid|done]]|apply keeps_child|].
    intros [c|]; [apply keeps_fail|]. apply keeps_set_child. by intros y [[[_ ?] _] _].
Qed.

Lemma keeps_Remove p : keeps always (Remove p) any.
Proof.
  apply keeps_walk; [done|done| |done]. apply keeps_at_end. intros dir frag []. apply keeps_named. eapply keeps_bind; [apply lasting_and; [done|apply lasting_and; [apply lasting_valid|done]]|apply keeps_child|].
  intros [c|]; [|apply keeps_fail]. eapply keeps_bind; [apply lasting_and; [apply lasting_and; [done|apply lasting_and; [apply lasting_valid|done]]|apply lasting_valid]|apply keeps_node|].
  intros x. destruct (0 <? refs x); [apply keeps_fail|]. destruct (negb _); [apply keeps_fail|apply keeps_drop_child].
Qed.

Lemma keeps_RemoveAll p : keeps always (RemoveAll p) any.
Proof.
  intros y Hi HP. unfold RemoveAll. set (m := walk _ _ _). assert (Hm : keeps always m any).
  { apply keeps_walk; [done|done| |done]. apply keeps_at_end. intros dir frag []. apply keeps_named. eapply keeps_bind; [apply lasting_and; [done|apply lasting_and; [apply lasting_valid|done]]|apply keeps_child|].
    intros [c|]; [apply keeps_drop_child|by apply keeps_ret]. }
  destruct (Hm y Hi HP) as (I1 & K1 & L1 & _). destruct (m y) as [y1 [a|[]|]]; cbn in *; done.
Qed.

Lemma keeps_Rename o p : keeps always (Rename o p) any.
Proof.
  unfold Rename. eapply (keeps_bind _ _ _ opt_valid); [done| |intros [id|]; [|apply keeps_fail]].
  - apply keeps_walk; [done|apply lasting_opt| |done]. apply keeps_at_end. intros dir frag acc. apply keeps_named.
    assert (HL : lasting (fun y => always y /\ valid y dir /\ opt_valid acc y)) by (apply lasting_and; [done|apply lasting_and; [apply lasting_valid|apply lasting_opt]]).
    eapply keeps_bind; [exact HL|apply keeps_child|]. intros c. eapply keeps_bind; [apply lasting_and; [exact HL|apply lasting_opt]|apply keeps_drop_child|]. intros []. apply keeps_ret. by intros y [[_ ?] _].
  - apply keeps_walk; [apply lasting_and; [done|apply lasting_valid]|done| |done]. apply keeps_at_end. intros dir frag []. apply keeps_named.
    eapply keeps_bind; [apply lasting_and; [apply lasting_and; [done|apply lasting_valid]|apply lasting_and; [apply lasting_valid|done]]|apply keeps_set_child; by intros y [[_ ?] _]|].
    intros []. apply keeps_update. intros y Hy x. repeat split. by left.
Qed.

Lemma keeps_Reuse o p : keeps always (ReuseForWrite o p) sound.
Proof.
  unfold ReuseForWrite. eapply keeps_bind; [done|apply keeps_Rename|]. intros []. eapply keeps_bind; [done|eapply keeps_mono; [|intros ? ? H; exact H|apply keeps_open]; done|].
  intros f. apply keeps_lock; [apply lasting_and; [done|apply lasting_sound]|intros g; apply lasting_sound|]. apply keeps_ret. by intros y [_ ?].
Qed.

Lemma keeps_MkdirAll p : keeps always (MkdirAll p) any.
Proof.
  apply keeps_walk; [done|done| |done]. intros dir frag final []. case_decide; [destruct final; [by apply keeps_ret|apply keeps_fail]|].
  assert (HL : lasting (fun y => always y /\ valid y dir /\ any tt y)) by (apply lasting_and; [done|apply lasting_and; [apply lasting_valid|done]]).
  eapply keeps_bind; [exact HL|apply keeps_child|]. intros [c|].
  - eapply keeps_bind; [apply lasting_and; [exact HL|apply lasting_valid]|apply keeps_node|]. intros x. destruct (negb _); [apply keeps_fail|by apply keeps_ret].
  - eapply keeps_bind; [apply lasting_and; [exact HL|done]|by apply keeps_alloc|]. intros id. apply keeps_set_child. by intros y [_ ?].
Qed.

Lemma keeps_List p : keeps always (List_ p) any.
Proof.
  apply keeps_walk; [done|done| |done]. apply keeps_at_end. intros dir frag acc. case_decide; [|apply keeps_crash].
  eapply keeps_bind; [apply lasting_and; [done|apply lasting_and; [apply lasting_valid|done]]|apply keeps_node|]. intros d. by apply keeps_ret.
Qed.

(** *** Files *)

Lemma keeps_file_node f : keeps (sound f) (file_node f) (fun id y => valid y id).
Proof. unfold file_node, sound. destruct (n f) as [id|]; [apply keeps_ret; by intros y ?|apply keeps_crash]. Qed.

(** A node is looked at and changed at once. *)
Lemma keeps_modify {A} P id (k : memNode -> fsm A) Q : (forall y x, inv y -> P y -> heap y !! id = Some x -> inv (k x y).1 /\ kept y (k x y).1 /\ locked (k x y).1 = locked y /\ forall a, (k x y).2 = Ok a -> Q a (k x y).1) ->
  keeps P (let? x := node id in k x) Q.
Proof. intros H y Hi HP. unfold bind, node. destruct (heap y !! id) as [x|] eqn:E; cbn; [by apply H|]. split; [done|]. split; [apply kept_refl|done]. Qed.

(** Only fields that are neither children nor synced change. *)
Lemma set_plain y id x x' : inv y -> heap y !! id = Some x -> isDir x' = isDir x -> syncedData x' = syncedData x -> syncedChildren x' = syncedChildren x -> children x' = children x ->
  let y' := with_heap y (<[id := x']> (heap y)) in inv y' /\ kept y y'.
Proof.
  intros Hi Hx H1 H2 H3 H4. apply (set_keeps y id x x' Hi Hx H1); [by intros _| |].
  - intros s c. rewrite H4. by apply (iv_kids y Hi id).
  - intros s c. rewrite H3. by apply (iv_synced y Hi id).
Qed.

Lemma keeps_Close f : keeps (sound f) (Close f) sound.
Proof.
  unfold Close. eapply keeps_bind; [apply lasting_sound|apply keeps_file_node|]. intros id. apply keeps_modify. intros y x Hi [_ _] Hx. unfold bind, set. cbn.
  destruct (set_plain y id x (with_refs x (refs x - 1)) Hi Hx) as [I' K']; try done. destruct (refs x - 1 <? 0); (split; [done|]; split; [done|]; split; [done|]); [done|]. by intros a [= <-].
Qed.

Lemma keeps_Read f k : keeps (sound f) (Read f k) (fun r => sound r.1).
Proof.
  unfold Read. destruct (negb _); [apply keeps_fail|]. eapply keeps_bind; [apply lasting_sound|apply keeps_file_node|]. intros id. eapply keeps_bind; [apply lasting_and; [apply lasting_sound|apply lasting_valid]|apply keeps_node|].
  intros x. destruct (isDir x); [apply keeps_fail|]. destruct (_ <=? _); [apply keeps_fail|]. apply keeps_ret. by intros y [[? _] _].
Qed.

Lemma keeps_ReadAt f k off : keeps (sound f) (ReadAt f k off) any.
Proof.
  unfold ReadAt. destruct (negb _); [apply keeps_fail|]. eapply keeps_bind; [apply lasting_sound|apply keeps_file_node|]. intros id. eapply keeps_bind; [apply lasting_and; [apply lasting_sound|apply lasting_valid]|apply keeps_node|].
  intros x. destruct (isDir x); [apply keeps_fail|]. destruct (_ <=? _); [apply keeps_fail|]. destruct (_ <? _); [apply keeps_crash|]. by apply keeps_ret.
Qed.

Lemma keeps_Write f spare p : keeps (sound f) (Write f spare p) (fun r => sound r.1).
Proof.
  unfold Write. destruct (negb _); [apply keeps_fail|]. eapply keeps_bind; [apply lasting_sound|apply keeps_file_node|]. intros id. apply keeps_modify. intros y x Hi [Hs _] Hx.
  destruct (isDir x) eqn:Ed; [split; [done|]; split; [apply kept_refl|done]|]. unfold bind, set.
  assert (Hset : forall d, let y' := with_heap y (<[id := with_data x d]> (heap y)) in inv y' /\ kept y y') by (intros d; by apply (set_plain y id x)).
  destruct (_ <=? len (data x)); cbn.
  - destruct (Hset (take (Z.to_nat (wpos f)) (data x) ++ p ++ drop (Z.to_nat (wpos f) + length p) (data x))) as [I' K']. split; [done|]. split; [done|]. split; [done|]. intros a [= <-]. by apply (lasting_sound f _ _ K').
  - destruct (_ <=? _); cbn; [|split; [done|]; split; [apply kept_refl|done]]. destruct (Hset (take (Z.to_nat (wpos f)) (data x ++ spare) ++ p)) as [I' K']. split; [done|]. split; [done|]. split; [done|]. intros a [= <-].
    by apply (lasting_sound f _ _ K').
Qed.

Lemma keeps_Stat p : keeps always (Stat p) any.
Proof.
  unfold Stat. eapply keeps_bind; [done|apply keeps_open|]. intros f. unfold file_Stat.
  assert (HL : lasting (fun y => always y /\ sound f y)) by (apply lasting_and; [done|apply lasting_sound]).
  eapply (keeps_bind _ _ _ any); [exact HL| |].
  - eapply keeps_bind; [exact HL|eapply keeps_mono; [|intros ? ? H; exact H|apply keeps_file_node]; by intros y [_ ?]|]. intros id.
    eapply keeps_bind; [apply lasting_and; [exact HL|apply lasting_valid]|apply keeps_node|]. intros x. by apply keeps_ret.
  - intros i. eapply keeps_bind; [apply lasting_and; [exact HL|done]|eapply keeps_mono; [|intros ? ? H; exact H|apply keeps_Close]; by intros y [[_ ?] _]|]. intros g. by apply keeps_ret.
Qed.

Lemma keeps_Sync f : keeps (sound f) (Sync f) any.
Proof.
  unfold Sync. eapply (keeps_bind _ _ _ any); [apply lasting_sound|intros y Hi Hs; split; [done|]; split; [apply kept_refl|done]|]. intros s. destruct (fs f && s); [|by apply keeps_ret].
  apply keeps_lock; [apply lasting_and; [apply lasting_sound|done]|done|]. intros y Hi [Hs _]. unfold bind, ignores. cbn. destruct (ignoreSyncs y) eqn:Eg; [split; [done|]; split; [apply kept_refl|done]|].
  unfold file_node, sound in *. destruct (n f) as [id|]; [|split; [done|]; split; [apply kept_refl|done]]. destruct Hs as [x Hx]. unfold ret, node, set. cbn. rewrite Hx. cbn.
  destruct (set_keeps y id x (if isDir x then with_syncedChildren x (children x) else with_syncedData x (data x)) Hi Hx) as [I' K'].
  - by destruct (isDir x) eqn:Ed.
  - by rewrite Eg.
  - intros s0 c. destruct (isDir x); cbn; by apply (iv_kids y Hi id).
  - intros s0 c. destruct (isDir x); cbn; [by apply (iv_kids y Hi id)|by apply (iv_synced y Hi id)].
  - done.
Qed.

(** *** The process *)

Definition world_ok (w : world) : Prop := inv (mem w) /\ Forall (fun f => sound f (mem w)) (files w).

Definition goes (w w' : world) : Prop := world_ok w' /\ kept (mem w) (mem w') /\ locked (mem w') = locked (mem w).

Lemma files_last w y : Forall (fun f => sound f (mem w)) (files w) -> kept (mem w) y -> Forall (fun f => sound f y) (files w).
Proof. intros H Hk. eapply Forall_impl; [exact H|]. intros f Hf. by eapply lasting_sound. Qed.

Lemma run_goes {A} w (m : fsm A) Q : world_ok w -> keeps always m Q -> goes w (run w m).
Proof. intros [Hi Hf] Hm. destruct (Hm (mem w) Hi Logic.I) as (I1 & K1 & L1 & _). split; [|done]. split; [done|]. exact (files_last w _ Hf K1). Qed.

Lemma run_open_goes w m : world_ok w -> keeps always m sound -> goes w (run_open w m).
Proof.
  intros [Hi Hf] Hm. unfold run_open. destruct (Hm (mem w) Hi Logic.I) as (I1 & K1 & L1 & Q1). destruct (m (mem w)) as [y r]; cbn in *. split; [|done]. split; [done|]. cbn.
  pose proof (files_last w y Hf K1) as Hf'. destruct r as [f|e|]; [|done|done]. apply Forall_app. split; [done|]. constructor; [by apply Q1|constructor].
Qed.

Lemma run_file_goes {A} w h (m : memFile -> fsm A) k (Q : memFile -> A -> MemFS -> Prop) : world_ok w -> (forall f, keeps (sound f) (m f) (Q f)) -> (forall f a y, Q f a y -> sound f y -> sound (k f a) y) -> goes w (run_file w h m k).
Proof.
  intros [Hi Hf] Hm Hk. unfold run_file. destruct (files w !! h) as [f|] eqn:Eh; [|split; [by split|]; split; [apply kept_refl|done]].
  assert (Hs : sound f (mem w)) by exact (Forall_lookup_1 _ _ _ _ Hf Eh). destruct (Hm f (mem w) Hi Hs) as (I1 & K1 & L1 & Q1). destruct (m f (mem w)) as [y r]; cbn in *. split; [|done]. split; [done|]. cbn.
  pose proof (files_last w y Hf K1) as Hf'. destruct r as [a|e|]; [|done|done]. apply Forall_insert; [done|]. apply Hk; [by apply Q1|by eapply lasting_sound].
Qed.

Lemma exec_goes w c : world_ok w -> goes w (exec w c).
Proof.
  intros Hw. destruct c; cbn [exec].
  - apply run_open_goes, keeps_Create; done.
  - eapply run_goes, keeps_Link; done.
  - apply run_open_goes, keeps_open; done.
  - apply run_open_goes, keeps_open; done.
  - eapply run_goes, keeps_Remove; done.
  - eapply run_goes, keeps_RemoveAll; done.
  - eapply run_goes, keeps_Rename; done.
  - apply run_open_goes, keeps_Reuse; done.
  - eapply run_goes, keeps_MkdirAll; done.
  - apply run_open_goes, keeps_Create; done.
  - eapply run_goes, keeps_List; done.
  - eapply run_goes, keeps_Stat; done.
  - eapply run_file_goes; [done|intros f; apply keeps_Close|done].
  - eapply run_file_goes; [done|intros f; apply keeps_Read|done].
  - eapply run_file_goes; [done|intros f; apply keeps_ReadAt|done].
  - eapply run_file_goes; [done|intros f; apply keeps_Write|done].
  - eapply run_file_goes; [done|intros f; apply keeps_Sync|done].
Qed.

Lemma exec_all_goes l : forall w, world_ok w -> goes w (exec_all w l).
Proof.
  induction l as [|c l IH]; intros w Hw; [split; [done|]; split; [apply kept_refl|done]|]. cbn. destruct (exec_goes w c Hw) as (W1 & K1 & L1). destruct (IH _ W1) as (W2 & K2 & L2).
  split; [done|]. split; [by eapply kept_trans|]. unfold exec_all in *. congruence.
Qed.

(** ** What a crash leaves *)

(** What is at a path below a node, now or as it was synced: the bytes of a file
    or the names in a directory. *)
Inductive content : Type := File (d : bytes) | Dir (s : gset bytes).

Definition kids (synced : bool) (x : memNode) : gmap bytes Z := if synced then syncedChildren x else children x.
Definition content_of (synced : bool) (x : memNode) : content := if isDir x then Dir (dom (kids synced x)) else File (if synced then syncedData x else data x).

Fixpoint look (synced : bool) (y : MemFS) (id : Z) (path : list bytes) : option content :=
  match heap y !! id with
  | None => None
  | Some x =>
      match path with
      | [] => Some (content_of synced x)
      | s :: path' => if isDir x then match kids synced x !! s with Some c => look synced y c path' | None => None end else None
      end
  end.

(** The synced tree is no deeper than [rk] says. *)
Definition ranked (y : MemFS) (rk : Z -> nat) : Prop := forall id x s c, heap y !! id = Some x -> syncedChildren x !! s = Some c -> (rk c < rk id)%nat.

(** [y] has the nodes of [y0] with the same synced state. *)
Definition same_synced (y0 y : MemFS) : Prop :=
  forall id x0, heap y0 !! id = Some x0 -> exists x, heap y !! id = Some x /\ isDir x = isDir x0 /\ syncedData x = syncedData x0 /\ syncedChildren x = syncedChildren x0.

Lemma look_synced_same y0 y path : inv y0 -> same_synced y0 y -> forall id, valid y0 id -> look true y id path = look true y0 id path.
Proof.
  intros Hi Hs. induction path as [|s path IH]; intros id [x0 Hx0]; destruct (Hs id x0 Hx0) as (x & Hx & D & E1 & E2); cbn [look]; rewrite Hx, Hx0.
  - unfold content_of, kids. by rewrite D, E1, E2.
  - rewrite D. unfold kids. rewrite E2. destruct (isDir x0); [|done]. destruct (syncedChildren x0 !! s) as [c|] eqn:E; [|done]. apply IH. by eapply (iv_synced y0 Hi).
Qed.

(** A node that has been reset. *)
Definition fresh_node (x : memNode) : Prop := if isDir x then children x = syncedChildren x else data x = syncedData x.

(** Some nodes have been reset, and stay so. *)
Definition resets (y y' : MemFS) : Prop :=
  forall id x, heap y !! id = Some x -> exists x', heap y' !! id = Some x' /\ isDir x' = isDir x /\ syncedData x' = syncedData x /\ syncedChildren x' = syncedChildren x /\ (fresh_node x -> fresh_node x').

Lemma resets_refl y : resets y y.
Proof. intros id x Hx. eauto 10. Qed.

Lemma resets_trans y1 y2 y3 : resets y1 y2 -> resets y2 y3 -> resets y1 y3.
Proof. intros H1 H2 id x Hx. destruct (H1 id x Hx) as (x2 & Hx2 & A1 & A2 & A3 & A4). destruct (H2 id x2 Hx2) as (x3 & Hx3 & B1 & B2 & B3 & B4). exists x3. repeat split; [done|congruence..|eauto]. Qed.

Lemma resets_synced y0 y y' : same_synced y0 y -> resets y y' -> same_synced y0 y'.
Proof. intros H1 H2 id x0 Hx0. destruct (H1 id x0 Hx0) as (x & Hx & A1 & A2 & A3). destruct (H2 id x Hx) as (x' & Hx' & B1 & B2 & B3 & _). exists x'. repeat split; [done|congruence..]. Qed.

Lemma resets_set y id x x' : heap y !! id = Some x -> isDir x' = isDir x -> syncedData x' = syncedData x -> syncedChildren x' = syncedChildren x -> fresh_node x' -> resets y (with_heap y (<[id := x']> (heap y))).
Proof.
  intros Hx H1 H2 H3 H4 j z Hz. cbn. destruct (decide (j = id)) as [->|]; [|rewrite lookup_insert_ne by done; eauto 10]. rewrite lookup_insert_eq. rewrite Hx in Hz. injection Hz as <-. eauto 10.
Qed.

(** The nodes of the synced tree below one. *)
Inductive below (y : MemFS) (id : Z) : Z -> Prop :=
| bl_here : below y id id
| bl_kid x s c j : heap y !! id = Some x -> isDir x = true -> syncedChildren x !! s = Some c -> below y c j -> below y id j.

Definition all_fresh (y0 y : MemFS) (id : Z) : Prop := forall j, below y0 id j -> exists x, heap y !! j = Some x /\ fresh_node x.

Lemma all_fresh_resets y0 y y' id : all_fresh y0 y id -> resets y y' -> all_fresh y0 y' id.
Proof. intros H Hr j Hj. destruct (H j Hj) as (x & Hx & Hf). destruct (Hr j x Hx) as (x' & Hx' & _ & _ & _ & Hf'). exists x'. split; [done|by apply Hf']. Qed.

Section Crash.
Context (order : gmap bytes Z -> list Z) (Horder : forall m, order m ≡ₚ (map_to_list m).*2).

Lemma elem_order m c : c ∈ order m <-> exists s, m !! s = Some c.
Proof.
  rewrite (Horder m). rewrite list_elem_of_fmap. split; [intros ([s c'] & -> & H%elem_of_map_to_list); by exists s|intros [s H]; exists (s, c); split; [done|by apply elem_of_map_to_list]].
Qed.

Lemma reset_ok y0 rk : inv y0 -> ranked y0 rk -> forall fuel id y, (rk id < fuel)%nat -> valid y0 id -> same_synced y0 y ->
  exists y', resetToSyncedState order fuel id y = (y', Ok tt) /\ resets y y' /\ all_fresh y0 y' id /\ root y' = root y /\ strict y' = strict y /\ locked y' = locked y /\ ignoreSyncs y' = ignoreSyncs y.
Proof.
  intros Hi Hrk. induction fuel as [|fuel IH]; intros id y Hf [x0 Hx0] Hs; [lia|]. destruct (Hs id x0 Hx0) as (x & Hx & D & E1 & E2). cbn [resetToSyncedState]. unfold bind at 1, node. rewrite Hx. cbn.
  destruct (isDir x) eqn:Edir.
  - set (y1 := with_heap y (<[id := with_children x (syncedChildren x)]> (heap y))).
    assert (R1 : resets y y1) by (apply (resets_set y id x); [done..|unfold fresh_node; cbn; by rewrite Edir]). assert (F1 : exists z, heap y1 !! id = Some z /\ fresh_node z) by (eexists; cbn; rewrite lookup_insert_eq; split; [done|]; unfold fresh_node; cbn; by rewrite Edir).
    assert (Hgo : forall l y2, (forall c, c ∈ l -> exists s, syncedChildren x0 !! s = Some c) -> same_synced y0 y2 ->
      exists y', (fix go (l : list Z) : fsm unit := match l with [] => ret tt | c :: l' => let? _ := resetToSyncedState order fuel c in go l' end) l y2 = (y', Ok tt) /\
        resets y2 y' /\ (forall c, c ∈ l -> all_fresh y0 y' c) /\ root y' = root y2 /\ strict y' = strict y2 /\ locked y' = locked y2 /\ ignoreSyncs y' = ignoreSyncs y2).
    { induction l as [|c l IHl]; intros y2 Hl Hs2; [exists y2; split; [done|]; split; [apply resets_refl|]; split; [by intros c ?%elem_of_nil|done]|].
      destruct (Hl c ltac:(by left)) as [s Hc]. destruct (IH c y2) as (y3 & E3 & R3 & A3 & B1 & B2 & B3 & B4); [specialize (Hrk id x0 s c Hx0 Hc); lia|by eapply (iv_synced y0 Hi)|done|].
      destruct (IHl y3) as (y4 & E4 & R4 & A4 & C1 & C2 & C3 & C4); [intros c' Hc'; apply Hl; by right|by eapply resets_synced|]. exists y4. split; [unfold bind; rewrite E3; exact E4|]. split; [by eapply resets_trans|].
      split; [|repeat split; congruence]. intros c' [->|Hc']%elem_of_cons; [by eapply all_fresh_resets|by apply A4]. }
    destruct (Hgo (order (syncedChildren x)) y1) as (y' & E & R' & A' & B1 & B2 & B3 & B4); [intros c Hc%elem_order; by rewrite <-E2|by eapply resets_synced|].
    exists y'. split; [unfold bind, set; exact E|]. split; [by eapply resets_trans|]. split; [|done]. intros j Hj. inversion Hj as [|x1 s c ? H1 H2 H3 H4]; subst.
    + destruct F1 as (z & Hz & Hfz). destruct (R' j z Hz) as (z' & Hz' & _ & _ & _ & Hf'). exists z'. split; [done|by apply Hf'].
    + rewrite Hx0 in H1. injection H1 as <-. apply (A' c); [|done]. apply elem_order. exists s. by rewrite E2.
  - set (y1 := with_heap y (<[id := with_data x (syncedData x)]> (heap y))). exists y1. split; [done|].
    assert (R1 : resets y y1) by (apply (resets_set y id x); [done..|unfold fresh_node; cbn; by rewrite Edir]). split; [done|]. split; [|done].
    intros j Hj. inversion Hj as [|x1 s c ? H1 H2 H3 H4]; subst; [|rewrite Hx0 in H1; injection H1 as <-; congruence]. eexists. cbn. rewrite lookup_insert_eq. split; [done|]. unfold fresh_node. cbn. by rewrite Edir.
Qed.

Lemma look_fresh y0 y path : inv y0 -> same_synced y0 y -> forall id, valid y0 id -> all_fresh y0 y id -> look false y id path = look true y id path.
Proof.
  intros Hi Hs. induction path as [|s path IH]; intros id [x0 Hx0] Ha; destruct (Hs id x0 Hx0) as (x & Hx & D & E1 & E2); destruct (Ha id (bl_here y0 id)) as (x' & Hx' & Hf); rewrite Hx in Hx'; injection Hx' as <-;
    cbn [look]; rewrite Hx; unfold fresh_node in Hf.
  - unfold content_of, kids. by destruct (isDir x); rewrite Hf.
  - destruct (isDir x) eqn:Ed; [|done]. unfold kids. rewrite Hf. destruct (syncedChildren x !! s) as [c|] eqn:E; [|done]. rewrite E2 in E. apply IH; [by eapply (iv_synced y0 Hi)|].
    intros j Hj. apply Ha. by eapply bl_kid.
Qed.

(** C38: the contract of the strict file system.  Once syncs are ignored, whatever
    a process does (creating, writing, syncing, linking, renaming and removing
    files and directories, through files it had open before too), a reset
    returns and leaves at every path exactly what a reset at the moment the
    syncs stopped would have left: the directory entries and the bytes that had
    been synced. *)
Theorem crash_forgets w l rk : world_ok w -> strict (mem w) = true -> ignoreSyncs (mem w) = true -> locked (mem w) = false -> ranked (mem w) rk ->
  let r := root (mem w) in
  forall fuel, (rk r < fuel)%nat -> exists y y',
    ResetToSyncedState order fuel (mem w) = (y, Ok tt) /\ ResetToSyncedState order fuel (mem (exec_all w l)) = (y', Ok tt) /\
    forall path, look false y' r path = look true (mem w) r path /\ look false y r path = look true (mem w) r path.
Proof.
  intros Hw Hst Hig Hlk Hrk r fuel Hfu. destruct (exec_all_goes l w Hw) as (Hw' & Hk & Hl'). destruct Hw as [Hi _]. destruct (iv_root _ Hi) as (xr & Hxr & _). assert (Hv : valid (mem w) r) by (by exists xr).
  assert (Hsame : forall y1, kept (mem w) y1 -> strict y1 = true -> locked y1 = false -> exists y, ResetToSyncedState order fuel y1 = (y, Ok tt) /\ forall path, look false y r path = look true (mem w) r path).
  { intros y1 K1 S1 L1. assert (Hs1 : same_synced (mem w) (with_locked y1 true)).
    { intros id x Hx. destruct (kp_node _ _ K1 id x Hx) as (x' & Hx' & D & Hs). destruct (Hs Hig). exists x'. done. }
    destruct (reset_ok (mem w) rk Hi Hrk fuel r (with_locked y1 true) Hfu Hv Hs1) as (y2 & E2 & R2 & A2 & _). exists (with_locked y2 false). split.
    - unfold ResetToSyncedState, with_lock, bind, rootOf. rewrite S1, L1. cbn. rewrite (kp_root _ _ K1). fold r. by rewrite E2.
    - intros path. pose proof (resets_synced _ _ _ Hs1 R2) as Hs2. change (look false (with_locked y2 false) r path) with (look false (with_locked y2 false) r path).
      assert (Hs3 : same_synced (mem w) (with_locked y2 false)) by exact Hs2. rewrite (look_fresh (mem w) (with_locked y2 false)) by done. by apply look_synced_same. }
  destruct (Hsame (mem w) (kept_refl _) Hst Hlk) as (y & E & H1). destruct (Hsame (mem (exec_all w l)) Hk) as (y' & E' & H2); [by rewrite (kp_strict _ _ Hk)|by rewrite Hl'|]. exists y, y'. done.
Qed.

End Crash.

(** *** A process that loses power *)

Definition p_d : bytes := [47; 100].
Definition p_d_a : bytes := [47; 100; 47; 97].
Definition p_d_b : bytes := [47; 100; 47; 98].
Definition p_d_c : bytes := [47; 100; 47; 99].

(** The file /d/a is written and synced, with its directory and the root. *)
Definition before_crash : world :=
  let w := exec_all (mkWorld NewStrictMem []) [CMkdirAll p_d; CCreate p_d_a; CWrite 0 [] [1; 2; 3]; CSync 0; COpenDir (p_d ++ [sep]); CSync 1; COpenDir [sep]; CSync 2; CWrite 0 [] [4]] in
  run w (SetIgnoreSyncs true).

(** Then it writes on and syncs, and renames and removes files. *)
Definition last_calls : list call := [CWrite 0 [] [5; 6]; CSync 0; CRename p_d_a p_d_b; CCreate p_d_c; CSync 3; CSync 1; CClose 0; CRemove p_d_b].

Definition rank_of (id : Z) : nat := Z.to_nat (2 - id).

Lemma init_ok : world_ok (mkWorld NewStrictMem []).
Proof.
  split; [|constructor]. split.
  - intros id [x Hx]. cbn in Hx. apply lookup_singleton_Some in Hx as [<- _]. done.
  - eexists. split; [reflexivity|done].
  - intros id x s c Hx Hc. cbn in Hx. apply lookup_singleton_Some in Hx as [<- <-]. cbn in Hc. by rewrite lookup_empty in Hc.
  - intros id x s c Hx Hc. cbn in Hx. apply lookup_singleton_Some in Hx as [<- <-]. cbn in Hc. by rewrite lookup_empty in Hc.
Qed.

Lemma ignore_ok w b : world_ok w -> world_ok (run w (SetIgnoreSyncs b)).
Proof.
  intros [[I1 I2 I3 I4] Hf]. unfold run, SetIgnoreSyncs. destruct (locked (mem w)); [by split|]. by destruct (negb (strict (mem w))); (split; [split|]).
Qed.

Lemma before_ok : world_ok before_crash.
Proof. apply ignore_ok. apply (exec_all_goes _ _ init_ok). Qed.

Lemma before_ranked : ranked (mem before_crash) rank_of.
Proof.
  intros id x s c Hx Hc. assert (Hd : id ∈ (map_to_list (heap (mem before_crash))).*1) by (apply list_elem_of_fmap; exists (id, x); split; [done|by apply elem_of_map_to_list]).
  assert (Hall : Forall (fun kv => Forall (fun sc => (rank_of sc.2 < rank_of kv.1)%nat) (map_to_list (syncedChildren kv.2))) (map_to_list (heap (mem before_crash)))) by (vm_compute; repeat constructor).
  rewrite Forall_forall in Hall. specialize (Hall (id, x) ltac:(by apply elem_of_map_to_list)). cbn in Hall. rewrite Forall_forall in Hall. exact (Hall (s, c) ltac:(by apply elem_of_map_to_list)).
Qed.

Definition kids_in_order (m : gmap bytes Z) : list Z := (map_to_list m).*2.

Lemma crash_forgets_witness :
  look false (mem (exec_all before_crash last_calls)) 0 [[100]] = Some (Dir {[ [99] ]}) /\
  exists y', ResetToSyncedState kids_in_order 3 (mem (exec_all before_crash last_calls)) = (y', Ok tt) /\
    look false y' 0 [[100]] = Some (Dir {[ [97] ]}) /\ look false y' 0 [[100]; [97]] = Some (File [1; 2; 3]) /\ look false y' 0 [[100]; [99]] = None.
Proof.
  split; [vm_compute; reflexivity|].
  destruct (crash_forgets kids_in_order (fun m => reflexivity _) before_crash last_calls rank_of before_ok eq_refl eq_refl eq_refl before_ranked 3 ltac:(vm_compute; lia)) as (y & y' & _ & E & H).
  exists y'. split; [exact E|]. assert (Er : root (mem before_crash) = 0) by (vm_compute; reflexivity). rewrite Er in H. rewrite !(proj1 (H _)). split; [|split]; vm_compute; reflexivity.
Defined.

(** ** What does not hold *)

(** On a file system that is not strict [SetIgnoreSyncs] keeps the mutex: whatever
    walks a path afterwards waits for ever. *)
Lemma SetIgnoreSyncs_blocks b y {A} p f (acc : A) : strict y = false -> locked y = false ->
  exists y', SetIgnoreSyncs b y = (y', Ok tt) /\ walk p f acc y' = (y', Err ErrModelBlocked).
Proof. intros Hs Hl. unfold SetIgnoreSyncs. rewrite Hl, Hs. cbn. eexists. split; [done|]. done. Qed.

(** Renaming a file into a directory that is not there is refused, but the file is
    gone. *)
Lemma Rename_loses :
  let w := exec_all (mkWorld NewMem []) [CCreate [97]] in
  let '(y, r) := Rename [97] p_d_a (mem w) in r = Err ErrNotExist /\ look false y 0 [[97]] = None /\ look false (mem w) 0 [[97]] = Some (File []).
Proof. vm_compute. done. Qed.

(** A directory that is linked into itself and synced makes a reset run for ever. *)
Lemma reset_cycle order y id x s : (forall m, order m ≡ₚ (map_to_list m).*2) -> heap y !! id = Some x -> isDir x = true -> syncedChildren x = {[s := id]} ->
  forall fuel, (resetToSyncedState order fuel id y).2 = Err ErrModelFuel.
Proof.
  intros Ho Hx Hd Hs fuel. revert y x Hx Hd Hs. induction fuel as [|fuel IH]; intros y x Hx Hd Hs; [done|]. cbn [resetToSyncedState]. unfold bind at 1, node. rewrite Hx. cbn. rewrite Hd.
  assert (E : order (syncedChildren x) = [id]) by (apply Permutation_length_1_inv; symmetry; rewrite Ho, Hs, map_to_list_singleton; done). rewrite E. unfold bind, set. cbn.
  set (y1 := with_heap y _). specialize (IH y1 (with_children x (syncedChildren x)) ltac:(cbn; by rewrite lookup_insert_eq) Hd Hs). destruct (resetToSyncedState order fuel id y1) as [y2 r]. cbn in IH. by subst r.
Qed.

Lemma Link_cycle : exists x, heap (mem (exec_all (mkWorld NewStrictMem []) [CMkdirAll p_d; CLink p_d p_d_a; COpenDir (p_d ++ [sep]); CSync 0])) !! 1 = Some x /\ isDir x = true /\ syncedChildren x = {[ [97] := 1 ]}.
Proof. eexists. vm_compute. done. Qed.

(** ** Reading and writing *)

(** A write within the data or at its end replaces or adds just its bytes. *)
Lemma Write_spec f spare p y id x : n f = Some id -> write f = true -> heap y !! id = Some x -> isDir x = false -> 0 <= wpos f <= len (data x) ->
  Write f spare p y = (with_heap y (<[id := with_data x (take (Z.to_nat (wpos f)) (data x) ++ p ++ drop (Z.to_nat (wpos f) + length p) (data x))]> (heap y)),
    Ok (mkMemFile (n f) (fs f) (rpos f) (wpos f + len p) (read f) (write f), len p)).
Proof.
  intros Hn Hw Hx Hd Hp. unfold Write. rewrite Hw. cbn [negb]. unfold file_node. rewrite Hn. unfold bind, ret, node, set. rewrite Hx. cbn. rewrite Hd. destruct (Z.leb_spec (wpos f + len p) (len (data x))); [done|].
  pose proof (len_nonneg spare). destruct (Z.leb_spec (wpos f) (len (data x) + len spare)); [|lia]. unfold len in *. rewrite take_app_le by lia. rewrite (drop_ge (data x)) by lia. by rewrite app_nil_r.
Qed.

End MemFS.
