(* ===== verification/Base.v ===== *)
(** Package [internal/base]: the internal keys every component exchanges
    (internal/base/internal.go), the errors they return
    (internal/base/error.go) and the default comparer
    (internal/base/comparer.go). *)

From Stdlib Require Import ZArith Lia.
From stdpp Require Import base numbers option list.
From S2P Require Import Prelude.

(** ** Errors *)

(** The error values the modelled code returns or compares against.
    [ErrSys] stands for an error a system call reports. *)
Inductive error : Type :=
| ErrNotFound
| ErrTableOpenType
| ErrTableFull
| ErrCorruptedBatch
| ErrInvalidBatch
| ErrClosed
| ErrShortWrite
| ErrArenaFull
| ErrRecordExists
| ErrTableTooLarge
| ErrHeaderAlloc
| ErrBatchApplied
| ErrBatchMismatch
| ErrWALDisabled
| ErrBatchCount
| ErrBatchSeqNum
| ErrRecyclerEmpty
| ErrRecyclerInvalid
| ErrMetaInconsistent
| ErrFlushInvariant
| ErrInvalidKind
| ErrReversePrefix
| ErrSwitchDirection
| ErrOutOfBounds
| ErrEOF
| ErrUnexpectedEOF
| ErrZeroedChunk
| ErrInvalidChunk
| ErrStaleReader
| ErrSys
(** The errors of bdb (bitree/bdb/errors.go and the texts of db.go). *)
| ErrDatabaseNotOpen
| ErrDatabaseReadOnly
| ErrInvalid
| ErrVersionMismatch
| ErrChecksum
| ErrFileTooSmall
| ErrMmapTooLarge
| ErrTxClosed
| ErrTxNotWritable
| ErrBucketNotFound
| ErrBucketExists
| ErrBucketNameRequired
| ErrKeyRequired
| ErrValueTooLarge
| ErrIncompatibleValue
(** No error of the program: a loop bound of the model was exhausted. *)
| ErrModelFuel.

#[export] Instance error_eq_dec : EqDecision error.
Proof. solve_decision. Defined.

Abbreviation outcome := (result error).

(** [base.DisableErrNotFound] *)
Definition DisableErrNotFound (err : option error) : option error :=
  if decide (err = Some ErrNotFound) then None else err.

(** ** Internal keys *)

Module InternalKey.

Abbreviation Kind := Z.

Definition KindDelete : Kind := 0.
Definition KindSet : Kind := 1.
Definition KindSetBithash : Kind := 2.
Definition KindLogData : Kind := 3.
Definition KindPrefixDelete : Kind := 4.
Definition KindExpireAt : Kind := 5.
Definition KindMax : Kind := 18.
Definition KindInvalid : Kind := 255.

Definition SeqNumBatch : Z := Z.shiftl 1 55.
Definition SeqNumMax : Z := Z.shiftl 1 56 - 1.

Record t : Type := mk { UserKey : bytes; Trailer : Z }.

#[global] Instance t_eq_dec : EqDecision t.
Proof. solve_decision. Defined.

Definition EncodeTrailer (seqNum kind : Z) : Z := Z.lor (u64 (Z.shiftl seqNum 8)) kind.

Definition DecodeTrailer (trailer : Z) : Z * Kind :=
  (Z.shiftr trailer 8, Z.land trailer 255).

Definition DecodeKind (trailer : Z) : Kind := Z.land trailer 255.

Definition MakeInternalKey (userKey : bytes) (seqNum kind : Z) : t :=
  {| UserKey := userKey; Trailer := Z.lor (u64 (Z.shiftl seqNum 8)) kind |}.

Definition MakeInternalKey2 (userKey : bytes) (trailer : Z) : t :=
  {| UserKey := userKey; Trailer := trailer |}.

Definition MakeInternalSetKey (userKey : bytes) : t := MakeInternalKey userKey 1 KindSet.

Definition MakeSearchKey (userKey : bytes) : t :=
  {| UserKey := userKey; Trailer := Z.lor (u64 (Z.shiftl SeqNumMax 8)) KindMax |}.

(** The user key of a buffer shorter than a trailer is nil, printed [[]]
    here. *)
Definition DecodeInternalKey (encodedKey : bytes) : t :=
  let n := len encodedKey - 8 in
  if 0 <=? n
  then {| UserKey := take (Z.to_nat n) encodedKey;
          Trailer := le_get (drop (Z.to_nat n) encodedKey) |}
  else {| UserKey := []; Trailer := KindInvalid |}.

Definition InternalCompare (userCmp : bytes -> bytes -> Z) (a b : t) : Z :=
  let x := userCmp (UserKey a) (UserKey b) in
  if negb (x =? 0) then x
  else if Trailer b <? Trailer a then -1
  else if Trailer a <? Trailer b then 1
  else 0.

(** [Encode] into [buf]: the copied prefix, then eight trailer bytes, which
    must fit. *)
Definition Encode (k : t) (buf : bytes) : outcome bytes :=
  let i := Nat.min (length (UserKey k)) (length buf) in
  if (8 <=? length buf - i)%nat
  then Ok (take i (UserKey k) ++ le_put 8 (Trailer k) ++ drop (i + 8) buf)
  else Panic.

Definition EncodeTrailerBytes (k : t) : bytes := le_put 8 (Trailer k).

Definition Size (k : t) : Z := len (UserKey k) + 8.

Definition SetSeqNum (k : t) (seqNum : Z) : t :=
  {| UserKey := UserKey k;
     Trailer := Z.lor (u64 (Z.shiftl seqNum 8)) (Z.land (Trailer k) 255) |}.

Definition SeqNum (k : t) : Z := Z.shiftr (Trailer k) 8.

Definition Visible (k : t) (snapshot : Z) : bool :=
  (SeqNum k <=? snapshot) || negb (Z.land (SeqNum k) SeqNumBatch =? 0).

Definition SetKind (k : t) (kind : Kind) : t :=
  {| UserKey := UserKey k; Trailer := Z.lor (Z.ldiff (Trailer k) 255) kind |}.

Definition KindOf (k : t) : Kind := Z.land (Trailer k) 255.

Definition Valid (k : t) : bool := KindOf k <=? KindMax.

(** *** Trailers *)

Lemma lor_trailer seqNum kind :
  0 <= seqNum <= SeqNumMax -> 0 <= kind < 256 ->
  Z.lor (u64 (Z.shiftl seqNum 8)) kind = kind + seqNum * 256.
Proof.
  intros Hs Hk. unfold SeqNumMax in Hs. change (Z.shiftl 1 56) with 72057594037927936 in Hs.
  rewrite u64_small by (rewrite Z.shiftl_mul_pow2 by lia; change (2 ^ 8) with 256; lia).
  rewrite Z.lor_comm. by apply lor_shiftl_add.
Qed.

Lemma trailer_seq s k : 0 <= k < 256 -> Z.shiftr (k + s * 256) 8 = s.
Proof.
  intros. rewrite shiftr_8, Z.div_add by lia. rewrite Z.div_small by lia. lia.
Qed.

Lemma trailer_kind s k : 0 <= k < 256 -> Z.land (k + s * 256) 255 = k.
Proof.
  intros. rewrite land_255. unfold u8. rewrite Z.mod_add by lia. by apply Z.mod_small.
Qed.

Lemma Trailer_Make uk s k :
  0 <= s <= SeqNumMax -> 0 <= k < 256 -> Trailer (MakeInternalKey uk s k) = k + s * 256.
Proof. intros. simpl. by apply lor_trailer. Qed.

(** A sequence number of at most 56 bits and a kind of eight bits pack
    into one 64-bit trailer that gives both back: [SeqNum] and [Kind] of a
    key made by [MakeInternalKey] are the ones it was made from, and
    [DecodeTrailer] inverts [EncodeTrailer]. *)
Theorem trailer_roundtrip uk s k :
  0 <= s <= SeqNumMax -> 0 <= k < 256 ->
  SeqNum (MakeInternalKey uk s k) = s /\
  KindOf (MakeInternalKey uk s k) = k /\
  DecodeTrailer (EncodeTrailer s k) = (s, k) /\
  0 <= Trailer (MakeInternalKey uk s k) < 18446744073709551616.
Proof.
  intros Hs Hk. unfold SeqNum, KindOf, DecodeTrailer, EncodeTrailer.
  rewrite Trailer_Make, lor_trailer by done.
  rewrite trailer_seq, trailer_kind by done.
  repeat split; try lia. revert Hs. unfold SeqNumMax.
  change (Z.shiftl 1 56) with 72057594037927936. lia.
Qed.

Lemma trailer_roundtrip_witness :
  SeqNum (MakeInternalKey [107; 49] 77 KindSet) = 77.
Proof. apply (trailer_roundtrip [107; 49] 77 KindSet); by vm_compute. Defined.

Lemma SeqNum_Make uk s k :
  0 <= s <= SeqNumMax -> 0 <= k < 256 -> SeqNum (MakeInternalKey uk s k) = s.
Proof. intros. unfold SeqNum. rewrite Trailer_Make by done. by apply trailer_seq. Qed.

Lemma KindOf_Make uk s k :
  0 <= s <= SeqNumMax -> 0 <= k < 256 -> KindOf (MakeInternalKey uk s k) = k.
Proof. intros. unfold KindOf. rewrite Trailer_Make by done. by apply trailer_kind. Qed.

(** *** The encoded form *)

(** [Encode] into a buffer of the key's [Size] followed by
    [DecodeInternalKey] is the identity on keys with a 64-bit trailer;
    a shorter buffer panics in [Encode], and a string shorter than a
    trailer decodes to the invalid kind. *)
Theorem encode_decode k buf :
  0 <= Trailer k < 18446744073709551616 ->
  (len buf = Size k ->
     exists b, Encode k buf = Ok b /\ len b = Size k /\ DecodeInternalKey b = k) /\
  (len buf < Size k -> Encode k buf = Panic) /\
  (len buf < 8 -> KindOf (DecodeInternalKey buf) = KindInvalid).
Proof.
  intros Ht. destruct k as [uk tr]; unfold Size, Encode, len in *; cbn [UserKey Trailer] in *.
  split; [|split]; intros Hl.
  - rewrite Nat.min_l by lia.
    destruct (Nat.leb_spec 8 (length buf - length uk)) as [Hle|]; [|lia].
    rewrite drop_ge, app_nil_r, take_ge by lia. eexists; split; [done|].
    rewrite length_app, length_le_put. split; [lia|].
    unfold DecodeInternalKey, len. rewrite length_app, length_le_put.
    bdestruct_all; [|lia].
    replace (Z.to_nat (Z.of_nat (length uk + 8) - 8)) with (length uk) by lia.
    rewrite take_app_length, drop_app_length, le_get_put_u64, u64_small by lia. done.
  - destruct (Nat.leb_spec 8 (length buf - length uk `min` length buf)); [lia|done].
  - unfold DecodeInternalKey, len. bdestruct_all; [lia|done].
Qed.

Lemma encode_decode_witness :
  exists b, Encode (MakeInternalKey [107; 49] 77 KindSet) (replicate 10 0) = Ok b /\
            len b = 10 /\ DecodeInternalKey b = MakeInternalKey [107; 49] 77 KindSet.
Proof.
  apply (encode_decode (MakeInternalKey [107; 49] 77 KindSet) (replicate 10 0)); by vm_compute.
Defined.

(** *** The order of internal keys *)

Section Order.
Context (cmp : bytes -> bytes -> Z) `{!Comparator cmp}.

(** [a] is strictly before [b]: smaller user key, or the same user key
    and a larger trailer. *)
Lemma InternalCompare_lt a b :
  InternalCompare cmp a b < 0 <->
  cmp (UserKey a) (UserKey b) < 0 \/ (UserKey a = UserKey b /\ Trailer b < Trailer a).
Proof.
  unfold InternalCompare. destruct (Z.eqb_spec (cmp (UserKey a) (UserKey b)) 0) as [H|H]; simpl.
  - assert (UserKey a = UserKey b) by (by apply (cmp_eq (cmp := cmp))).
    bdestruct_all; split; intros; try lia; auto with lia.
  - assert (UserKey a <> UserKey b) by (by intros ?%(cmp_eq (cmp := cmp))).
    split; [auto|]. intros [?|[? ?]]; done.
Qed.

Lemma InternalCompare_eq a b : InternalCompare cmp a b = 0 <-> a = b.
Proof.
  unfold InternalCompare. destruct a as [ua ta], b as [ub tb]; simpl.
  destruct (Z.eqb_spec (cmp ua ub) 0) as [H|H]; simpl.
  - apply (cmp_eq (cmp := cmp)) in H as ->. bdestruct_all; (split; [intros|injection 1]); try lia.
    f_equal. lia.
  - split; [done|]. injection 1 as -> _. by rewrite cmp_refl in H.
Qed.

Lemma InternalCompare_gt a b : 0 < InternalCompare cmp a b <-> InternalCompare cmp b a < 0.
Proof.
  unfold InternalCompare. pose proof (cmp_gt_lt cmp (UserKey a) (UserKey b)) as Hab.
  pose proof (cmp_gt_lt cmp (UserKey b) (UserKey a)) as Hba.
  bdestruct_all; simpl; lia.
Qed.

Lemma InternalCompare_trans a b c :
  InternalCompare cmp a b < 0 -> InternalCompare cmp b c < 0 -> InternalCompare cmp a c < 0.
Proof.
  rewrite !InternalCompare_lt. intros [Hab|[Eab Tab]] [Hbc|[Ebc Tbc]].
  - left. by eapply (cmp_trans (cmp := cmp)).
  - left. by rewrite <-Ebc.
  - left. by rewrite Eab.
  - right. split; [congruence|lia].
Qed.

Lemma InternalCompare_lt_le_trans a b c :
  InternalCompare cmp a b < 0 -> InternalCompare cmp b c <= 0 -> InternalCompare cmp a c < 0.
Proof.
  intros Hab Hbc. destruct (Z.eq_dec (InternalCompare cmp b c) 0) as [E|E].
  - by apply InternalCompare_eq in E as <-.
  - eapply InternalCompare_trans; [exact Hab|lia].
Qed.

Lemma InternalCompare_le_trans a b c :
  InternalCompare cmp a b <= 0 -> InternalCompare cmp b c <= 0 -> InternalCompare cmp a c <= 0.
Proof.
  intros Hab Hbc. destruct (Z.eq_dec (InternalCompare cmp a b) 0) as [E|E].
  - by apply InternalCompare_eq in E as ->.
  - enough (InternalCompare cmp a c < 0) by lia. eapply InternalCompare_lt_le_trans; [|done]. lia.
Qed.

Lemma InternalCompare_refl a : InternalCompare cmp a a = 0.
Proof. by apply InternalCompare_eq. Qed.

(** [InternalCompare] is the three-way comparison of a total order
    that refines the user order and, on one user key, puts the newer
    entry (larger sequence number) first. *)
Theorem internal_order a b c uk s s' k k' :
  (InternalCompare cmp a b = 0 <-> a = b) /\
  (0 < InternalCompare cmp a b <-> InternalCompare cmp b a < 0) /\
  (InternalCompare cmp a b < 0 -> InternalCompare cmp b c < 0 ->
   InternalCompare cmp a c < 0) /\
  (cmp (UserKey a) (UserKey b) < 0 -> InternalCompare cmp a b < 0) /\
  (0 <= s < s' -> s' <= SeqNumMax -> 0 <= k < 256 -> 0 <= k' < 256 ->
   InternalCompare cmp (MakeInternalKey uk s' k') (MakeInternalKey uk s k) < 0).
Proof.
  split; [apply InternalCompare_eq|]. split; [apply InternalCompare_gt|].
  split; [apply InternalCompare_trans|].
  split; [intros; apply InternalCompare_lt; auto|].
  intros. apply InternalCompare_lt. right.
  rewrite !Trailer_Make by lia. split; [done|lia].
Qed.

(** The search key of a user key is at or before each of its entries. *)
Lemma search_key_first uk s k :
  0 <= s <= SeqNumMax -> 0 <= k <= KindMax ->
  InternalCompare cmp (MakeSearchKey uk) (MakeInternalKey uk s k) <= 0.
Proof.
  intros Hs Hk. unfold KindMax in Hk.
  destruct (Z.le_gt_cases (InternalCompare cmp (MakeSearchKey uk) (MakeInternalKey uk s k)) 0)
    as [|Hgt]; [done|exfalso].
  apply InternalCompare_gt, InternalCompare_lt in Hgt as [Hc|[_ Ht]].
  - cbn [UserKey MakeInternalKey MakeSearchKey] in Hc. rewrite cmp_refl in Hc by done. lia.
  - rewrite Trailer_Make in Ht by lia.
    change (Trailer (MakeSearchKey uk)) with (KindMax + SeqNumMax * 256) in Ht.
    unfold KindMax in Ht. lia.
Qed.

(** A search key stands before exactly the entries whose user key is at or past
    the one searched for. *)
Lemma search_key_le uk uk' s k :
  0 <= s <= SeqNumMax -> 0 <= k <= KindMax ->
  InternalCompare cmp (MakeSearchKey uk) (MakeInternalKey uk' s k) <= 0 <-> 0 <= cmp uk' uk.
Proof.
  intros Hs Hk. pose proof (InternalCompare_gt (MakeSearchKey uk) (MakeInternalKey uk' s k)) as Hgt.
  rewrite InternalCompare_lt in Hgt. cbn [UserKey MakeInternalKey MakeSearchKey] in Hgt.
  destruct (cmp_total cmp uk' uk) as [Hlt|[->|Hlt]].
  - split; [|lia]. lia.
  - split; [rewrite cmp_refl by done; lia|]. intros _. by apply search_key_first.
  - apply (cmp_sym (cmp := cmp)) in Hlt as Hlt'. split; [lia|]. intros _.
    enough (InternalCompare cmp (MakeSearchKey uk) (MakeInternalKey uk' s k) < 0) by lia.
    apply InternalCompare_lt. by left.
Qed.
End Order.

Lemma internal_order_witness :
  InternalCompare bytes_compare (MakeInternalKey [5] 9 KindDelete) (MakeInternalKey [5] 3 KindSet) < 0.
Proof.
  apply (internal_order bytes_compare (MakeInternalKey [5] 9 KindDelete)
           (MakeInternalKey [5] 3 KindSet) (MakeInternalKey [5] 3 KindSet) [5] 3 9
           KindSet KindDelete); by vm_compute.
Defined.

Lemma SetKind_spec k kind :
  0 <= kind < 256 -> KindOf (SetKind k kind) = kind /\ SeqNum (SetKind k kind) = SeqNum k.
Proof.
  intros Hk. unfold KindOf, SeqNum, SetKind; cbn [Trailer]. split.
  - rewrite Z.land_lor_distr_l, Z.ldiff_land, <-Z.land_assoc.
    rewrite (Z.land_comm _ 255), Z.land_lnot_diag, Z.land_0_r, Z.lor_0_l.
    rewrite land_255. by apply u8_small.
  - rewrite Z.shiftr_lor, Z.shiftr_ldiff. change (Z.shiftr 255 8) with 0.
    rewrite Z.ldiff_0_r, (Z.shiftr_div_pow2 kind) by lia.
    rewrite (Z.div_small kind) by lia. apply Z.lor_0_r.
Qed.

End InternalKey.
Abbreviation InternalKey := InternalKey.t.
