(* ===== verification/Arena.v ===== *)
(** Package [internal/arenaskl], the allocator: the bump arena
    (internal/arenaskl/arena.go) and the node blocks the skiplist takes from
    it (internal/arenaskl/node.go). *)

From Stdlib Require Import ZArith Lia.
From stdpp Require Import base numbers option list.
From S2P Require Import Prelude Base.

(** [align4] *)
Definition align4 : Z := 3.

Definition maxHeight : Z := 18.
(** [unsafe.Sizeof(links{})] and [unsafe.Sizeof(node{})]: two and, before the
    tower, four 32-bit fields. *)
Definition linksSize : Z := 8.
Definition maxNodeSize : Z := 16 + maxHeight * linksSize.

Definition MaxNodeSize (keySize valueSize : Z) : Z :=
  u32 (maxNodeSize + keySize + valueSize + align4).

(** ** The arena *)

Record Arena : Type := mkArena { arena_n : Z; arena_buf : mem; arena_len : Z }.

Definition NewArena (buf : mem) (size : Z) : Arena :=
  {| arena_n := 1; arena_buf := buf; arena_len := size |}.

Definition arenaSize (a : Arena) : Z :=
  if 4294967295 <? arena_n a then 4294967295 else u32 (arena_n a).

Definition arenaCapacity (a : Arena) : Z := u32 (arena_len a).

(** [alloc]: an atomic bump of [n]; the counter moves even when the request
    does not fit. *)
Definition arenaAlloc (a : Arena) (size align overflow : Z) : Arena * outcome (Z * Z) :=
  if arena_len a <? arena_n a then (a, Err ErrArenaFull)
  else
    let padded := u32 (size + align) in
    let newSize := arena_n a + padded in
    let a' := {| arena_n := newSize; arena_buf := arena_buf a; arena_len := arena_len a |} in
    if arena_len a <? newSize + overflow then (a', Err ErrArenaFull)
    else (a', Ok (Z.ldiff (u32 (u32 newSize - padded + align)) align, padded)).

(** [getBytes]: offset 0 is nil ([None]); otherwise a bound-checked slice. *)
Definition arenaGetBytes (a : Arena) (offset size : Z) : outcome (option bytes) :=
  if offset =? 0 then Ok None
  else if offset + size <=? arena_len a
  then Ok (Some (mem_read (arena_buf a) offset (Z.to_nat size)))
  else Panic.

(** ** Nodes *)

Record nodeHeader : Type := mkNode {
  keyOffset : Z; keySize : Z; valueSize : Z; allocSize : Z
}.

(** [newRawNode]: the block holds the header, [height] links of the tower, the
    key and the value; the links above [height] are never touched but must
    stay inside the buffer. *)
Definition newRawNode (a : Arena) (height ksz vsz : Z) : Arena * outcome (Z * nodeHeader) :=
  let unusedSize := u32 ((maxHeight - height) * linksSize) in
  let nodeSize := u32 (maxNodeSize - unusedSize) in
  match arenaAlloc a (u32 (nodeSize + ksz + vsz)) align4 unusedSize with
  | (a', Ok (nodeOffset, alloc)) =>
      (a', Ok (nodeOffset, {| keyOffset := u32 (nodeOffset + nodeSize);
                              keySize := ksz; valueSize := vsz; allocSize := alloc |}))
  | (a', Err e) => (a', Err e)
  | (a', Panic) => (a', Panic)
  end.

(** [newNode] writes the encoded key and the value behind the tower. *)
Definition newNode (a : Arena) (height : Z) (key : InternalKey) (value : bytes)
  : Arena * outcome (Z * nodeHeader) :=
  if (height <? 1) || (maxHeight <? height) then (a, Panic)
  else if 4294967295 <? InternalKey.Size key then (a, Panic)
  else if 4294967295 <? len value then (a, Panic)
  else
    match newRawNode a height (InternalKey.Size key) (len value) with
    | (a', Ok (off, nd)) =>
        let kv := InternalKey.UserKey key ++ InternalKey.EncodeTrailerBytes key ++ value in
        ({| arena_n := arena_n a';
            arena_buf := mem_write (arena_buf a') (keyOffset nd) kv;
            arena_len := arena_len a' |}, Ok (off, nd))
    | (a', Err e) => (a', Err e)
    | (a', Panic) => (a', Panic)
    end.

(** ** Properties *)

Lemma ldiff_3 x : Z.ldiff x 3 = 4 * (x / 4).
Proof.
  change 3 with (Z.ones 2). rewrite Z.ldiff_ones_r by lia.
  rewrite Z.shiftl_mul_pow2, Z.shiftr_div_pow2 by lia. change (2 ^ 2) with 4. lia.
Qed.

Definition arena_wf (a : Arena) : Prop :=
  1 <= arena_n a /\ 0 <= arena_len a < 4294967296.

(** The block an aligned allocation returns: four-byte aligned, at or past the
    old end, entirely before the new end, with room for the overflow. *)
Lemma arenaAlloc_block a size overflow a' off padded :
  arena_wf a -> 0 <= size -> size + align4 < 4294967296 -> 0 <= overflow ->
  arenaAlloc a size align4 overflow = (a', Ok (off, padded)) ->
  off mod 4 = 0 /\ arena_n a <= off /\ off + size <= arena_n a' /\
  arena_n a' + overflow <= arena_len a' /\ arena_n a' = arena_n a + padded /\
  padded = size + align4 /\ arena_len a' = arena_len a /\ arena_buf a' = arena_buf a.
Proof.
  unfold arena_wf, arenaAlloc, align4. intros Hwf Hs Hu Ho.
  rewrite (u32_small (size + 3)) by lia.
  bdestruct_all; try discriminate. injection 1 as <- <- <-. cbn [arena_n arena_len arena_buf].
  rewrite (u32_small (arena_n a + (size + 3))) by lia.
  rewrite u32_small by lia. rewrite ldiff_3.
  replace (arena_n a + (size + 3) - (size + 3) + 3) with (arena_n a + 3) by lia.
  pose proof (Z.div_mod (arena_n a + 3) 4) as Hdm.
  pose proof (Z.mod_pos_bound (arena_n a + 3) 4).
  assert (4 * ((arena_n a + 3) / 4) mod 4 = 0) by (rewrite Z.mul_comm; apply Z.mod_mul; lia).
  repeat split; lia.
Qed.

(** An allocation fits exactly when the padded request and the overflow stay
    inside the buffer. *)
Lemma arenaAlloc_fits a size overflow :
  arena_wf a -> 0 <= size -> size + align4 < 4294967296 -> 0 <= overflow ->
  arena_n a + size + align4 + overflow <= arena_len a ->
  exists off, snd (arenaAlloc a size align4 overflow) = Ok (off, size + align4).
Proof.
  unfold arena_wf, arenaAlloc, align4. intros Hwf Hs Hu Ho Hfit.
  rewrite (u32_small (size + 3)) by lia. bdestruct_all; try lia. eauto.
Qed.

(** The block of a node, with its sizes. *)
Lemma newNode_props a height key value a' off nd :
  arena_wf a -> 1 <= height <= maxHeight ->
  maxNodeSize + InternalKey.Size key + len value + align4 < 4294967296 ->
  newNode a height key value = (a', Ok (off, nd)) ->
  off mod 4 = 0 /\ arena_n a <= off /\
  keyOffset nd = off + maxNodeSize - (maxHeight - height) * linksSize /\
  keyOffset nd + keySize nd + valueSize nd <= arena_n a' /\
  off + maxNodeSize <= arena_len a' /\
  mem_read (arena_buf a') (keyOffset nd) (Z.to_nat (keySize nd + valueSize nd))
    = InternalKey.UserKey key ++ InternalKey.EncodeTrailerBytes key ++ value /\
  (forall i, i < arena_n a -> arena_buf a' i = arena_buf a i) /\
  keySize nd = InternalKey.Size key /\ valueSize nd = len value /\ arena_len a' = arena_len a /\
  arena_n a' = arena_n a + maxNodeSize - (maxHeight - height) * linksSize + InternalKey.Size key + len value + align4 /\
  arena_n a' <= arena_len a'.
Proof.
  intros Hwf Hh Hsz. pose proof (len_nonneg value).
  assert (8 <= InternalKey.Size key) by (unfold InternalKey.Size; pose proof (len_nonneg (InternalKey.UserKey key)); lia).
  unfold newNode, newRawNode. cbv zeta.
  remember (InternalKey.UserKey key ++ InternalKey.EncodeTrailerBytes key ++ value) as kv eqn:Ekv.
  unfold maxNodeSize, maxHeight, linksSize, align4 in *.
  bdestruct_all; cbn [orb]; try discriminate; try lia.
  rewrite (u32_small ((18 - height) * 8)) by lia.
  rewrite (u32_small (16 + 18 * 8 - (18 - height) * 8)) by lia.
  rewrite u32_small by lia.
  destruct (arenaAlloc a _ 3 _) as [a1 [[o al]|e|]] eqn:Ha; try discriminate.
  apply arenaAlloc_block in Ha as (Hal & Hlo & Hhi & Hov & Hn & Hpad & Hlen & Hbuf);
    unfold align4; [|done|lia..].
  unfold align4 in Hpad. unfold arena_wf in Hwf.
  injection 1 as <- <- <-. cbn [keyOffset keySize valueSize arena_n arena_len arena_buf].
  rewrite u32_small by lia.
  split; [done|]. split; [lia|]. split; [lia|]. split; [lia|]. split; [lia|]. split; [|split; [|repeat split; lia]].
  - assert (Z.to_nat (InternalKey.Size key + len value) = length kv) as ->;
      [|apply mem_read_write_same].
    rewrite Ekv. unfold InternalKey.Size, InternalKey.EncodeTrailerBytes, len.
    rewrite !length_app, length_le_put. lia.
  - intros i Hi. unfold mem_write. bdestruct_all; simpl; try lia; by rewrite Hbuf.
Qed.

(** A node that fits is allocated. *)
Lemma newNode_fits a height key value :
  arena_wf a -> 1 <= height <= maxHeight ->
  arena_n a + maxNodeSize + InternalKey.Size key + len value + align4 <= arena_len a ->
  exists a' off nd, newNode a height key value = (a', Ok (off, nd)).
Proof.
  intros Hwf Hh Hfit. pose proof (len_nonneg value). pose proof Hwf as [Hw1 Hw2].
  assert (8 <= InternalKey.Size key) by (unfold InternalKey.Size; pose proof (len_nonneg (InternalKey.UserKey key)); lia).
  unfold newNode, newRawNode. cbv zeta. unfold maxNodeSize, maxHeight, linksSize, align4 in *.
  bdestruct_all; cbn [orb]; try lia.
  rewrite (u32_small ((18 - height) * 8)) by lia.
  rewrite (u32_small (16 + 18 * 8 - (18 - height) * 8)) by lia.
  rewrite u32_small by lia.
  destruct (arenaAlloc_fits a (16 + 18 * 8 - (18 - height) * 8 + InternalKey.Size key + len value) ((18 - height) * 8))
    as [off Ho]; unfold align4; try done; try lia.
  destruct (arenaAlloc a _ 3 _) as [a1 r] eqn:E. unfold align4 in Ho. rewrite E in Ho. cbn in Ho. subst r. eauto.
Qed.

(** A node block is four-byte aligned, starts at or past the old end of
    the arena and ends at or before the new one (so blocks never overlap),
    its key and value area lies inside it, and even the unused part of the
    tower stays inside the buffer; the bytes stored are the encoded key
    followed by the value, and nothing below the old end changes. *)
Theorem newNode_block a height key value a' off nd :
  arena_wf a -> 1 <= height <= maxHeight ->
  maxNodeSize + InternalKey.Size key + len value + align4 < 4294967296 ->
  newNode a height key value = (a', Ok (off, nd)) ->
  off mod 4 = 0 /\ arena_n a <= off /\
  keyOffset nd = off + maxNodeSize - (maxHeight - height) * linksSize /\
  keyOffset nd + keySize nd + valueSize nd <= arena_n a' /\
  off + maxNodeSize <= arena_len a' /\
  mem_read (arena_buf a') (keyOffset nd) (Z.to_nat (keySize nd + valueSize nd))
    = InternalKey.UserKey key ++ InternalKey.EncodeTrailerBytes key ++ value /\
  (forall i, i < arena_n a -> arena_buf a' i = arena_buf a i).
Proof. intros H1 H2 H3 H4. destruct (newNode_props _ _ _ _ _ _ _ H1 H2 H3 H4) as (?&?&?&?&?&?&?&_). auto 10. Qed.

Lemma newNode_block_witness :
  exists a' off nd,
    newNode (NewArena mem_zero 4096) 3 (InternalKey.MakeInternalKey [1; 2] 7 1) [9; 9] = (a', Ok (off, nd)) /\
    keyOffset nd + keySize nd + valueSize nd <= arena_n a'.
Proof.
  eexists _, _, _. split; [vm_compute; reflexivity|].
  eapply (newNode_block (NewArena mem_zero 4096) 3 (InternalKey.MakeInternalKey [1; 2] 7 1) [9; 9]);
    [| | |vm_compute; reflexivity]; vm_compute; repeat split; discriminate.
Defined.
