(* ===== verification/Batch.v ===== *)
(** The write batch (batch.go, first half): the byte format a batch is built
    in, logged in and replayed from, and its reader.

    Buffers come from [rawalloc.New], which does not clear them, and grow by
    re-slicing, which exposes whatever the backing array holds; the decoder
    also peeks past its slice with [unsafe].  [junk] is that memory: it gives
    the byte found at index [i] past the end of a slice holding [d], and every
    theorem holds for all of it. *)

From Stdlib Require Import ZArith Lia.
From stdpp Require Import base numbers option list.
From S2P Require Import Prelude Base Arena.

Definition batchCountOffset : Z := 8.
Definition batchHeaderLen : Z := 12.
Definition batchInitialSize : Z := Z.shiftl 1 10.
Definition batchMaxRetainedSize : Z := Z.shiftl 1 20.
Definition invalidBatchCount : Z := Z.shiftl 1 32 - 1.
Definition maxVarintLen32 : Z := 5.

(** [memTableEntrySize] (mem_table.go): what an entry can cost in the arena. *)
Definition memTableEntrySize (keyBytes valueBytes : Z) : Z :=
  MaxNodeSize (u32 (u32 keyBytes + 8)) (u32 valueBytes).

(** The slices of a [DeferredBatchOp] alias the batch's buffer: they are kept
    as positions in it. *)
Record DeferredBatchOp : Type := mkDeferred {
  op_offset : Z; op_keyPos : Z; op_keyLen : Z; op_valuePos : Z; op_valueLen : Z
}.

Definition noDeferredOp : DeferredBatchOp := mkDeferred 0 0 0 0 0.

(** A batch: [data] and its capacity (capacity 0 is the nil slice), the size
    its entries reserve in a memtable, the number of records that take a
    sequence number, and whether it was applied.  [db] is the identity of the
    owning [DB], nil when the batch is detached. *)
Record Batch : Type := mkBatch {
  db : option nat;
  data : bytes;
  dcap : Z;
  memTableSize : Z;
  count : Z;
  deferredOp : DeferredBatchOp;
  applied : Z
}.

(** A batch newly made by the pool.  One that was used before is what [release]
    leaves of it, with the new [db]. *)
Definition newBatch (d : option nat) : Batch := mkBatch d [] 0 0 0 noDeferredOp 0.

Definition with_data (b : Batch) (d : bytes) (c : Z) : Batch :=
  mkBatch (db b) d c (memTableSize b) (count b) (deferredOp b) (applied b).

(** [n *= 2] until [n >= target]; 64 doublings exhaust an [int]. *)
Fixpoint double_until (fuel : nat) (n target : Z) : Z :=
  match fuel with
  | O => n
  | S fuel' => if n <? target then double_until fuel' (n * 2) target else n
  end.

(** The loop that writes a 32-bit varint; five bytes hold 32 bits. *)
Fixpoint put_varint32 (fuel : nat) (x : Z) : bytes :=
  match fuel with
  | O => [u8 x]
  | S fuel' =>
      if 128 <=? x then Z.lor (u8 x) 128 :: put_varint32 fuel' (Z.shiftr x 7) else [u8 x]
  end.

Definition varint32 (n : Z) : bytes := put_varint32 5 (u32 n).

Section WithMemory.
Context (junk : bytes -> nat -> Z).

Definition expose (d : bytes) (n : nat) : bytes := junk d <$> seq (length d) n.

Definition setSeqNum (b : Batch) (seqNum : Z) : Batch :=
  with_data b (le_put 8 seqNum ++ drop 8 (data b)) (dcap b).

Definition setCount (b : Batch) (v : Z) : Batch :=
  mkBatch (db b) (data b) (dcap b) (memTableSize b) (u32 v) (deferredOp b) (applied b).

(** [init]: a fresh header whose count bytes are not yet written. *)
Definition init (b : Batch) (cap : Z) : Batch :=
  let n := double_until 64 batchInitialSize cap in
  setSeqNum (setCount (with_data b (expose [] 12) n) 0) 0.

Definition grow (b : Batch) (n : Z) : Batch :=
  let newSize := len (data b) + n in
  let cap' := if dcap b <? newSize then double_until 64 (2 * dcap b) newSize else dcap b in
  with_data b (data b ++ expose (data b) (Z.to_nat n)) cap'.

(** Writing [bs] at [pos] in the buffer. *)
Definition poke (b : Batch) (pos : Z) (bs : bytes) : Batch :=
  with_data b (list_inserts (Z.to_nat pos) bs (data b)) (dcap b).

Definition prepareDeferredKeyValueRecord (b : Batch) (keyLen valueLen kind : Z) : Batch :=
  let b := if len (data b) =? 0 then init b (keyLen + valueLen + 2 * 10 + batchHeaderLen) else b in
  let b := mkBatch (db b) (data b) (dcap b)
             (u64 (memTableSize b + memTableEntrySize keyLen valueLen))
             (u64 (count b + 1)) (deferredOp b) (applied b) in
  let pos0 := len (data b) in
  let b := grow b (1 + 2 * maxVarintLen32 + keyLen + valueLen) in
  let b := poke b pos0 [u8 kind] in
  let b := poke b (pos0 + 1) (varint32 keyLen) in
  let kpos := pos0 + 1 + len (varint32 keyLen) in
  let b := poke b (kpos + keyLen) (varint32 valueLen) in
  let vpos := kpos + keyLen + len (varint32 valueLen) in
  mkBatch (db b) (take (Z.to_nat (vpos + valueLen)) (data b)) (dcap b) (memTableSize b) (count b)
    (mkDeferred (u32 pos0) kpos keyLen vpos valueLen) (applied b).

Definition prepareDeferredKeyRecord (b : Batch) (keyLen kind : Z) : Batch :=
  let b := if len (data b) =? 0 then init b (keyLen + 10 + batchHeaderLen) else b in
  let b := mkBatch (db b) (data b) (dcap b)
             (u64 (memTableSize b + memTableEntrySize keyLen 0))
             (u64 (count b + 1)) (deferredOp b) (applied b) in
  let pos0 := len (data b) in
  let b := grow b (1 + maxVarintLen32 + keyLen) in
  let b := poke b pos0 [u8 kind] in
  let b := poke b (pos0 + 1) (varint32 keyLen) in
  let kpos := pos0 + 1 + len (varint32 keyLen) in
  mkBatch (db b) (take (Z.to_nat (kpos + keyLen)) (data b)) (dcap b) (memTableSize b) (count b)
    (mkDeferred (u32 pos0) kpos keyLen 0 0) (applied b).

Definition SetDeferred (b : Batch) (keyLen valueLen : Z) : Batch :=
  prepareDeferredKeyValueRecord b keyLen valueLen InternalKey.KindSet.

Definition DeleteDeferred (b : Batch) (keyLen : Z) : Batch :=
  prepareDeferredKeyRecord b keyLen InternalKey.KindDelete.

(** [copy(deferredOp.Key, key)] and [copy(deferredOp.Value, value)]. *)
Definition copyKey (b : Batch) (key : bytes) : Batch := poke b (op_keyPos (deferredOp b)) key.
Definition copyValue (b : Batch) (value : bytes) : Batch := poke b (op_valuePos (deferredOp b)) value.

Definition Set_ (b : Batch) (key value : bytes) : Batch :=
  copyValue (copyKey (SetDeferred b (len key) (len value)) key) value.

Definition Delete (b : Batch) (key : bytes) : Batch :=
  copyKey (DeleteDeferred b (len key)) key.

Definition PrefixDeleteKeySet (b : Batch) (key : bytes) : Batch :=
  copyKey (prepareDeferredKeyRecord b (len key) InternalKey.KindPrefixDelete) key.

(** [LogData] restores the count and the size its record added. *)
Definition LogData (b : Batch) (d : bytes) : Batch :=
  let b' := copyKey (prepareDeferredKeyRecord b (len d) InternalKey.KindLogData) d in
  mkBatch (db b') (data b') (dcap b') (memTableSize b) (count b) (deferredOp b') (applied b').

Definition Empty (b : Batch) : bool := len (data b) <=? batchHeaderLen.

Definition Count (b : Batch) : Z := u32 (count b).

Definition ensure_init (b : Batch) : Batch :=
  if len (data b) =? 0 then init b batchHeaderLen else b.

(** [Repr] stores the count in the header and returns the buffer. *)
Definition Repr (b : Batch) : Batch :=
  let b := ensure_init b in
  with_data b (take 8 (data b) ++ le_put 4 (Count b) ++ drop 12 (data b)) (dcap b).

Definition SeqNum (b : Batch) : Z := le_get (take 8 (data (ensure_init b))).

Definition Reader (b : Batch) : bytes := drop 12 (data (ensure_init b)).

(** *** Decoding *)

(** An unsafe load at [i] past the start of [d]. *)
Definition peek (d : bytes) (i : nat) : Z :=
  if (i <? length d)%nat then nth i d 0 else junk d i.

(** The varint at the head of [d]: its value and the bytes it takes. *)
Definition decode_varint32 (d : bytes) : Z * nat :=
  let a := peek d 0 in
  if a <? 128 then (a, 1%nat) else
  let a := Z.land a 127 in
  let b := peek d 1 in
  if b <? 128 then (Z.lor (Z.shiftl b 7) a, 2%nat) else
  let b := Z.land b 127 in
  let c := peek d 2 in
  if c <? 128 then (Z.lor (Z.lor (Z.shiftl c 14) (Z.shiftl b 7)) a, 3%nat) else
  let c := Z.land c 127 in
  let e := peek d 3 in
  if e <? 128
  then (Z.lor (Z.lor (Z.lor (Z.shiftl e 21) (Z.shiftl c 14)) (Z.shiftl b 7)) a, 4%nat) else
  let e := Z.land e 127 in
  let f := peek d 4 in
  (Z.lor (Z.lor (Z.lor (Z.lor (u32 (Z.shiftl f 28)) (Z.shiftl e 21)) (Z.shiftl c 14))
      (Z.shiftl b 7)) a, 5%nat).

(** [batchDecodeStr]: the rest and the string, [None] when the length does
    not fit.  [&data[0]] panics on an empty slice and [data[n:]] on a cut
    varint. *)
Definition batchDecodeStr (d : bytes) : outcome (option (bytes * bytes)) :=
  if len d =? 0 then Panic else
  let '(v, n) := decode_varint32 d in
  if (length d <? n)%nat then Panic else
  let d' := drop n d in
  if u32 (len d') <? v then Ok None
  else Ok (Some (drop (Z.to_nat v) d', take (Z.to_nat v) d')).

(** A record read: kind, user key, value (nil and empty coincide). *)
Definition record : Type := (Z * bytes * bytes)%type.

(** [BatchReader.Next]: the advanced reader and the record, if any. *)
Definition Next (r : bytes) : outcome (bytes * option record) :=
  match r with
  | [] => Ok ([], None)
  | kind :: r1 =>
      if InternalKey.KindMax <? kind then Ok (r, None)
      else
        let! o := batchDecodeStr r1 in
        match o with
        | None => Ok ([], None)
        | Some (r2, ukey) =>
            if kind =? InternalKey.KindSet
            then
              let! o' := batchDecodeStr r2 in
              match o' with
              | None => Ok ([], None)
              | Some (r3, value) => Ok (r3, Some (kind, ukey, value))
              end
            else Ok (r2, Some (kind, ukey, []))
        end
  end.

Definition ReadBatch (repr : bytes) : bytes * Z :=
  if len repr <=? batchHeaderLen then ([], 0)
  else (drop 12 repr, le_get (take 4 (drop 8 repr))).

(** The loop of [refreshMemTableSize]; every record takes a byte, so the
    length of the reader bounds the rounds. *)
Fixpoint refresh_loop (fuel : nat) (r : bytes) (sz : Z) : outcome Z :=
  match fuel with
  | O => Ok sz
  | S fuel' =>
      let! (r', o) := Next r in
      match o with
      | None => Ok sz
      | Some (_, key, value) =>
          refresh_loop fuel' r' (u64 (sz + memTableEntrySize (len key) (len value)))
      end
  end.

Definition refreshMemTableSize (b : Batch) : outcome Batch :=
  let! sz := (if len (data b) <? batchHeaderLen then Ok 0
              else refresh_loop (S (length (Reader b))) (Reader b) 0) in
  Ok (mkBatch (db b) (data b) (dcap b) sz (count b) (deferredOp b) (applied b)).

(** [SetRepr d] where [d] has capacity [c]. *)
Definition SetRepr (b : Batch) (d : bytes) (c : Z) : outcome Batch :=
  if len d <? batchHeaderLen then Err ErrInvalidBatch
  else
    let b := mkBatch (db b) d c (memTableSize b) (le_get (take 4 (drop 8 d)))
               (deferredOp b) (applied b) in
    match db b with
    | Some _ => refreshMemTableSize b
    | None => Ok b
    end.

(** [Reset] keeps a small buffer, truncated to a header with sequence number
    0; re-slicing a buffer shorter than a header exposes its capacity. *)
Definition Reset (b : Batch) : Batch :=
  let b0 := mkBatch (db b) (data b) (dcap b) 0 0 noDeferredOp 0 in
  if dcap b =? 0 then b0
  else if batchMaxRetainedSize <? dcap b then with_data b0 [] 0
  else setSeqNum (with_data b0 (take 12 (data b ++ expose (data b) 12)) (dcap b)) 0.

(** [release]: back to the pool, detached. *)
Definition release (b : Batch) : Batch :=
  match db b with
  | None => b
  | Some _ =>
      Reset (mkBatch None (data b) (dcap b) (memTableSize b) (count b) (deferredOp b) (applied b))
  end.
End WithMemory.

(** ** The record format *)

(** What a caller asks of a batch, and the bytes that stand for it. *)
Inductive batchOp : Type :=
| OpSet (key value : bytes)
| OpDelete (key : bytes)
| OpPrefixDelete (key : bytes)
| OpLogData (d : bytes).

Definition run_op (junk : bytes -> nat -> Z) (b : Batch) (o : batchOp) : Batch :=
  match o with
  | OpSet k v => Set_ junk b k v
  | OpDelete k => Delete junk b k
  | OpPrefixDelete k => PrefixDeleteKeySet junk b k
  | OpLogData d => LogData junk b d
  end.

Definition run_ops (junk : bytes -> nat -> Z) (b : Batch) (ops : list batchOp) : Batch :=
  foldl (run_op junk) b ops.

Definition op_kind (o : batchOp) : Z :=
  match o with
  | OpSet _ _ => InternalKey.KindSet
  | OpDelete _ => InternalKey.KindDelete
  | OpPrefixDelete _ => InternalKey.KindPrefixDelete
  | OpLogData _ => InternalKey.KindLogData
  end.

Definition op_key (o : batchOp) : bytes :=
  match o with OpSet k _ | OpDelete k | OpPrefixDelete k | OpLogData k => k end.

Definition op_value (o : batchOp) : bytes :=
  match o with OpSet _ v => v | _ => [] end.

Definition op_record (o : batchOp) : record := (op_kind o, op_key o, op_value o).

Definition enc_op (o : batchOp) : bytes :=
  op_kind o :: varint32 (len (op_key o)) ++ op_key o ++
  match o with OpSet _ v => varint32 (len v) ++ v | _ => [] end.

Definition enc_ops (ops : list batchOp) : bytes := mjoin (enc_op <$> ops).

(** Keys and values of fewer than 2^32 bytes. *)
Definition op_ok (o : batchOp) : Prop :=
  len (op_key o) < 4294967296 /\ len (op_value o) < 4294967296.

(** Whether a record takes a sequence number, and what it adds to
    [memTableSize]. *)
Definition op_counted (o : batchOp) : bool :=
  match o with OpLogData _ => false | _ => true end.

Definition ops_count (ops : list batchOp) : Z := len (filter (fun o => op_counted o = true) ops).

Definition op_size (o : batchOp) : Z := memTableEntrySize (len (op_key o)) (len (op_value o)).

Definition ops_size (p : batchOp -> bool) (ops : list batchOp) : Z :=
  foldr (fun o n => (if p o then op_size o else 0) + n) 0 ops.

(** ** Properties of the varint *)

Lemma byte_cases (P : Z -> bool) :
  forallb P (Z.of_nat <$> seq 0 256) = true -> forall y, 0 <= y < 256 -> P y = true.
Proof.
  intros H y Hy. rewrite forallb_forall in H. apply H. rewrite <-list_elem_of_In.
  apply list_elem_of_fmap. exists (Z.to_nat y). rewrite elem_of_seq. split; lia.
Qed.

(** The continuation byte of a varint carries the low seven bits. *)
Lemma cont_byte x : Z.lor (u8 x) 128 = x mod 128 + 128.
Proof.
  assert (Hb : Z.lor (u8 x) 128 = u8 x mod 128 + 128).
  { apply Z.eqb_eq, (byte_cases (fun y => Z.lor y 128 =? y mod 128 + 128));
      [by vm_compute|apply u8_range]. }
  rewrite Hb. f_equal. unfold u8. change 256 with (128 * 2).
  rewrite Z.rem_mul_r by lia. rewrite Z.mul_comm, Z.mod_add by lia. apply Z.mod_mod. lia.
Qed.

Lemma cont_byte_strip x : Z.land (x mod 128 + 128) 127 = x mod 128.
Proof.
  change 127 with (Z.ones 7). rewrite Z.land_ones by lia. change (2 ^ 7) with 128.
  replace (x mod 128 + 128) with (x mod 128 + 1 * 128) by lia.
  rewrite Z.mod_add by lia. apply Z.mod_mod. lia.
Qed.

Lemma last_byte x : 0 <= x < 128 -> u8 x = x.
Proof. intros. apply u8_small. lia. Qed.

Lemma shiftr_7 x : Z.shiftr x 7 = x / 128.
Proof. by rewrite Z.shiftr_div_pow2. Qed.

Lemma length_put_varint32 k fuel x :
  0 <= x < 128 ^ Z.of_nat (S k) -> (k <= fuel)%nat ->
  (1 <= length (put_varint32 fuel x) <= S k)%nat.
Proof.
  revert fuel x. induction k as [|k IH]; intros fuel x Hx Hf.
  - assert (x < 128) by (change (128 ^ Z.of_nat 1) with 128 in Hx; lia).
    destruct fuel; cbn [put_varint32 length]; [lia|].
    destruct (Z.leb_spec 128 x); cbn [length]; lia.
  - destruct fuel as [|fuel]; [lia|]. cbn [put_varint32].
    destruct (Z.leb_spec 128 x); cbn [length]; [|lia]. rewrite shiftr_7.
    enough (1 <= length (put_varint32 fuel (x / 128)) <= S k)%nat by lia.
    apply IH; [|lia]. split; [apply Z.div_pos; lia|]. apply Z.div_lt_upper_bound; [lia|].
    rewrite <-Z.pow_succ_r, <-Nat2Z.inj_succ by lia. lia.
Qed.

Lemma length_varint32_bounds n : (1 <= length (varint32 n) <= 5)%nat.
Proof.
  apply length_put_varint32; [|lia]. pose proof (u32_range n).
  change (128 ^ Z.of_nat 5) with 34359738368. lia.
Qed.

Section Varint.
Context (junk : bytes -> nat -> Z).

(** Decoding reads back the length a varint was written from. *)
Lemma decode_varint32_put n rest :
  0 <= n < 4294967296 ->
  decode_varint32 junk (varint32 n ++ rest) = (n, length (varint32 n)).
Proof.
  intros Hn. unfold varint32. rewrite u32_small by done. unfold decode_varint32, peek. cbn [put_varint32]. rewrite !shiftr_7.
  pose proof (Z.div_mod n 128 ltac:(done)). pose proof (Z.mod_pos_bound n 128 ltac:(done)).
  pose proof (Z.div_mod (n / 128) 128 ltac:(done)).
  pose proof (Z.mod_pos_bound (n / 128) 128 ltac:(done)).
  pose proof (Z.div_mod (n / 128 / 128) 128 ltac:(done)).
  pose proof (Z.mod_pos_bound (n / 128 / 128) 128 ltac:(done)).
  pose proof (Z.div_mod (n / 128 / 128 / 128) 128 ltac:(done)).
  pose proof (Z.mod_pos_bound (n / 128 / 128 / 128) 128 ltac:(done)).
  set (q1 := n / 128) in *. set (q2 := q1 / 128) in *. set (q3 := q2 / 128) in *.
  set (q4 := q3 / 128) in *.
  assert (0 <= q4 < 16) by lia.
  destruct (Z.leb_spec 128 n); cbn [app length nth Nat.ltb Nat.leb].
  2: { rewrite last_byte by lia. destruct (Z.ltb_spec n 128); [done|lia]. }
  rewrite cont_byte.
  destruct (Z.ltb_spec (n mod 128 + 128) 128); [lia|]. rewrite cont_byte_strip.
  destruct (Z.leb_spec 128 q1); cbn [app length nth Nat.ltb Nat.leb].
  2: { rewrite last_byte by lia. destruct (Z.ltb_spec q1 128); [|lia].
       rewrite Z.lor_comm, lor_shiftl_add by lia. f_equal. lia. }
  rewrite cont_byte. destruct (Z.ltb_spec (q1 mod 128 + 128) 128); [lia|]. rewrite cont_byte_strip.
  destruct (Z.leb_spec 128 q2); cbn [app length nth Nat.ltb Nat.leb].
  2: { rewrite last_byte by lia. destruct (Z.ltb_spec q2 128); [|lia].
       rewrite <-Z.lor_assoc, (Z.lor_comm (Z.shiftl (q1 mod 128) 7)), lor_shiftl_add by lia.
       rewrite Z.lor_comm, lor_shiftl_add by lia. f_equal. lia. }
  rewrite cont_byte. destruct (Z.ltb_spec (q2 mod 128 + 128) 128); [lia|]. rewrite cont_byte_strip.
  destruct (Z.leb_spec 128 q3); cbn [app length nth Nat.ltb Nat.leb].
  2: { rewrite last_byte by lia. destruct (Z.ltb_spec q3 128); [|lia].
       rewrite <-!Z.lor_assoc, (Z.lor_comm (Z.shiftl (q1 mod 128) 7)), lor_shiftl_add by lia.
       rewrite (Z.lor_comm (Z.shiftl (q2 mod 128) 14)), lor_shiftl_add by lia.
       rewrite Z.lor_comm, lor_shiftl_add by lia. f_equal. lia. }
  rewrite cont_byte. destruct (Z.ltb_spec (q3 mod 128 + 128) 128); [lia|]. rewrite cont_byte_strip.
  destruct (Z.leb_spec 128 q4); [lia|]; cbn [app length nth Nat.ltb Nat.leb].
  rewrite last_byte by lia. rewrite u32_small by (rewrite Z.shiftl_mul_pow2 by lia; lia).
  rewrite <-!Z.lor_assoc, (Z.lor_comm (Z.shiftl (q1 mod 128) 7)), lor_shiftl_add by lia.
  rewrite (Z.lor_comm (Z.shiftl (q2 mod 128) 14)), lor_shiftl_add by lia.
  rewrite (Z.lor_comm (Z.shiftl (q3 mod 128) 21)), lor_shiftl_add by lia.
  rewrite Z.lor_comm, lor_shiftl_add by lia. f_equal. lia.
Qed.
End Varint.

(** ** Properties of the reader *)

Section ReaderProps.
Context (junk : bytes -> nat -> Z).

Lemma batchDecodeStr_enc s rest :
  len s < 4294967296 -> len (s ++ rest) < 4294967296 ->
  batchDecodeStr junk (varint32 (len s) ++ s ++ rest) = Ok (Some (rest, s)).
Proof.
  intros Hs Hr. pose proof (len_nonneg s). pose proof (length_varint32_bounds (len s)).
  unfold batchDecodeStr. rewrite len_app, decode_varint32_put by lia. unfold len at 1.
  destruct (Z.eqb_spec (Z.of_nat (length (varint32 (len s))) + len (s ++ rest)) 0);
    [pose proof (len_nonneg (s ++ rest)); lia|].
  destruct (Nat.ltb_spec (length (varint32 (len s) ++ s ++ rest)) (length (varint32 (len s))))
    as [Hlt|_]; [rewrite length_app in Hlt; lia|].
  rewrite drop_app_length, u32_small by (pose proof (len_nonneg (s ++ rest)); lia).
  rewrite len_app. pose proof (len_nonneg rest).
  destruct (Z.ltb_spec (len s + len rest) (len s)); [lia|].
  unfold len. rewrite Nat2Z.id, drop_app_length, take_app_length. done.
Qed.

(** [Next] reads back a record and leaves what follows it. *)
Lemma Next_enc o rest :
  op_ok o -> len (enc_op o ++ rest) < 4294967296 ->
  Next junk (enc_op o ++ rest) = Ok (rest, Some (op_record o)).
Proof.
  intros [Hk Hv] Hl. unfold enc_op in *. cbn [app] in *. rewrite len_cons, <-!app_assoc, !len_app in Hl.
  pose proof (len_nonneg (varint32 (len (op_key o)))).
  unfold Next. destruct (Z.ltb_spec InternalKey.KindMax (op_kind o)) as [Hbad|_];
    [exfalso; revert Hbad; destruct o; by vm_compute|].
  rewrite <-!app_assoc.
  rewrite batchDecodeStr_enc by (rewrite ?len_app; lia). cbn [rbind].
  destruct o as [k v|k|k|k]; cbn [op_kind op_key op_value op_record app] in *; try done.
  rewrite <-app_assoc, batchDecodeStr_enc; [done|done|].
  rewrite !len_app in *. pose proof (len_nonneg (varint32 (len v))). pose proof (len_nonneg k). lia.
Qed.

(** The records of a reader up to the first that cannot be read. *)
Fixpoint read_all (fuel : nat) (r : bytes) : outcome (list record) :=
  match fuel with
  | O => Ok []
  | S fuel' =>
      let! (r', o) := Next junk r in
      match o with
      | None => Ok []
      | Some x => let! xs := read_all fuel' r' in Ok (x :: xs)
      end
  end.

Lemma enc_op_nonempty o : (1 <= length (enc_op o))%nat.
Proof. unfold enc_op. cbn [length]. lia. Qed.

Lemma enc_ops_cons o ops : enc_ops (o :: ops) = enc_op o ++ enc_ops ops.
Proof. done. Qed.

Lemma length_enc_ops ops : (length ops <= length (enc_ops ops))%nat.
Proof.
  induction ops as [|o ops IH]; [done|]. rewrite enc_ops_cons, length_app.
  pose proof (enc_op_nonempty o). cbn [length]. lia.
Qed.

Lemma read_all_enc ops fuel :
  Forall op_ok ops -> len (enc_ops ops) < 4294967296 -> (length ops < fuel)%nat ->
  read_all fuel (enc_ops ops) = Ok (op_record <$> ops).
Proof.
  intros Hok. revert fuel. induction Hok as [|o ops Ho Hok IH]; intros fuel Hl Hf.
  - by destruct fuel.
  - destruct fuel as [|fuel]; [cbn [length] in Hf; lia|].
    rewrite enc_ops_cons in *. cbn [read_all]. rewrite Next_enc by done. cbn [rbind].
    rewrite len_app in Hl. pose proof (len_nonneg (enc_op o)).
    rewrite IH by (cbn [length] in Hf; lia). done.
Qed.

Lemma refresh_loop_enc ops fuel sz :
  Forall op_ok ops -> len (enc_ops ops) < 4294967296 -> (length ops < fuel)%nat ->
  0 <= sz < 18446744073709551616 ->
  refresh_loop junk fuel (enc_ops ops) sz = Ok (u64 (sz + ops_size (fun _ => true) ops)).
Proof.
  intros Hok. revert fuel sz. induction Hok as [|o ops Ho Hok IH]; intros fuel sz Hl Hf Hsz.
  - destruct fuel; [cbn [length] in Hf; lia|]. simpl. by rewrite Z.add_0_r, u64_small.
  - destruct fuel as [|fuel]; [cbn [length] in Hf; lia|].
    rewrite enc_ops_cons in *. cbn [refresh_loop]. rewrite Next_enc by done. cbn [rbind].
    unfold op_record. rewrite len_app in Hl. pose proof (len_nonneg (enc_op o)).
    rewrite IH by (cbn [length] in Hf; (lia || apply u64_range)). f_equal.
    cbn [ops_size foldr]. fold (ops_size (fun _ => true) ops). unfold op_size, u64.
    rewrite Zplus_mod_idemp_l. f_equal. lia.
Qed.

(** A string decode never depends on the memory past its slice: the
    unsafe loads that leave the slice are always followed by a panicking
    re-slice. *)
Lemma decode_ignores_overread (junk' : bytes -> nat -> Z) d :
  batchDecodeStr junk d = batchDecodeStr junk' d.
Proof.
  assert (Hp : forall i, (i < length d)%nat -> peek junk d i = peek junk' d i).
  { intros i Hi. unfold peek. destruct (Nat.ltb_spec i (length d)); [done|lia]. }
  unfold batchDecodeStr. destruct (Z.eqb_spec (len d) 0) as [|Hne]; [done|].
  assert (Hd : decode_varint32 junk d = decode_varint32 junk' d \/
               ((length d < snd (decode_varint32 junk d))%nat /\
                (length d < snd (decode_varint32 junk' d))%nat)).
  { unfold len in Hne. unfold decode_varint32.
    destruct (decide (5 <= length d)%nat); [left; by rewrite !Hp by lia|].
    rewrite (Hp 0%nat) by lia. destruct (peek junk' d 0 <? 128); [by left|].
    destruct (decide (length d = 1)%nat);
      [right; split; repeat case_goal; cbn [snd]; lia|].
    rewrite (Hp 1%nat) by lia. destruct (peek junk' d 1 <? 128); [by left|].
    destruct (decide (length d = 2)%nat);
      [right; split; repeat case_goal; cbn [snd]; lia|].
    rewrite (Hp 2%nat) by lia. destruct (peek junk' d 2 <? 128); [by left|].
    destruct (decide (length d = 3)%nat);
      [right; split; repeat case_goal; cbn [snd]; lia|].
    rewrite (Hp 3%nat) by lia. destruct (peek junk' d 3 <? 128); [by left|].
    right. cbn [snd]. lia. }
  destruct Hd as [->|[H1 H2]]; [done|].
  destruct (decode_varint32 junk d) as [v n], (decode_varint32 junk' d) as [v' n'].
  cbn [snd] in *.
  destruct (Nat.ltb_spec (length d) n), (Nat.ltb_spec (length d) n'); (done || lia).
Qed.
End ReaderProps.

(** ** Properties of the writer *)

Lemma list_split_len {A} (l : list A) n :
  (n <= length l)%nat -> exists a b, l = a ++ b /\ length a = n.
Proof.
  intros H. exists (take n l), (drop n l). split; [by rewrite take_drop|].
  rewrite length_take. lia.
Qed.

Lemma poke_middle b pos pre old post bs :
  data b = pre ++ old ++ post -> pos = len pre -> length bs = length old ->
  data (poke b pos bs) = pre ++ bs ++ post.
Proof.
  intros Hd -> Hl. unfold poke, len; cbn [with_data data]. rewrite Hd, Nat2Z.id.
  rewrite <-(Nat.add_0_r (length pre)), list_inserts_app_r. by rewrite list_inserts_0_r.
Qed.

Section WriterProps.
Context (junk : bytes -> nat -> Z).

(** The header of a fresh buffer: sequence number 0, count not yet written. *)
Definition fresh_header : bytes := le_put 8 0 ++ drop 8 (expose junk [] 12).

Lemma data_init b cap : data (init junk b cap) = fresh_header.
Proof. done. Qed.

Lemma len_fresh_header : len fresh_header = 12.
Proof. unfold fresh_header. rewrite len_app. unfold len. rewrite length_le_put. done. Qed.

(** The buffer an operation appends to. *)
Definition base_data (b : Batch) : bytes :=
  if len (data b) =? 0 then fresh_header else data b.

Definition base_count (b : Batch) : Z := if len (data b) =? 0 then 0 else count b.

Lemma len_base_data b : 0 < len (base_data b).
Proof.
  unfold base_data. pose proof (len_nonneg (data b)).
  destruct (Z.eqb_spec (len (data b)) 0); [rewrite len_fresh_header|]; lia.
Qed.

Lemma data_grow b n : data (grow junk b n) = data b ++ expose junk (data b) (Z.to_nat n).
Proof. done. Qed.

Lemma length_expose d n : length (expose junk d n) = n.
Proof. unfold expose. by rewrite length_fmap, length_seq. Qed.

(** A key record lands behind the buffer, whatever the memory it grows
    into held. *)
Lemma prepareKey_data b keyLen kind key :
  keyLen = len key ->
  data (copyKey (prepareDeferredKeyRecord junk b keyLen kind) key)
  = base_data b ++ u8 kind :: varint32 keyLen ++ key.
Proof.
  intros ->. unfold prepareDeferredKeyRecord.
  set (b0 := if len (data b) =? 0 then _ else b).
  assert (Hb0 : data b0 = base_data b) by (unfold b0, base_data; by destruct (_ =? 0)).
  clearbody b0. cbv zeta. cbn [data]. rewrite Hb0.
  set (b1 := grow junk _ _). pose proof (length_varint32_bounds (len key)) as Hv.
  assert (Hj : exists J, data b1 = base_data b ++ J /\ length J = (6 + length key)%nat).
  { eexists. split; [unfold b1; rewrite data_grow; done|].
    rewrite length_expose. unfold maxVarintLen32, len. lia. }
  clearbody b1. destruct Hj as (J & Hd & HJ).
  destruct (list_split_len J 1) as (j1 & J1 & -> & Hj1); [lia|]. rewrite length_app in HJ.
  destruct (list_split_len J1 (length (varint32 (len key)))) as (j2 & J2 & -> & Hj2); [lia|].
  rewrite length_app in HJ.
  destruct (list_split_len J2 (length key)) as (j3 & J3 & -> & Hj3); [lia|].
  unfold copyKey; cbn [deferredOp op_keyPos].
  erewrite poke_middle with (pre := base_data b ++ u8 kind :: varint32 (len key)) (old := j3) (post := []).
  - by rewrite app_nil_r, <-app_assoc.
  - cbn [data].
    erewrite (poke_middle _ _ (base_data b ++ [u8 kind]) j2 (j3 ++ J3)); [| |rewrite len_app; done|done].
    2: { rewrite <-app_assoc. eapply poke_middle; [exact Hd|done|done]. }
    rewrite app_nil_r, <-!app_assoc. cbn [app].
    replace (base_data b ++ u8 kind :: varint32 (len key) ++ j3 ++ J3)
      with ((base_data b ++ u8 kind :: varint32 (len key) ++ j3) ++ J3)
      by (rewrite <-!app_assoc; cbn [app]; by rewrite <-!app_assoc).
    rewrite take_app_length'; [done|].
    rewrite !length_app; cbn [length]. rewrite ?length_app. unfold len. lia.
  - rewrite len_app, len_cons. lia.
  - done.
Qed.

(** A key and value record likewise. *)
Lemma prepareKV_data b keyLen valueLen kind key value :
  keyLen = len key -> valueLen = len value ->
  data (copyValue (copyKey (prepareDeferredKeyValueRecord junk b keyLen valueLen kind) key) value)
  = base_data b ++ u8 kind :: varint32 keyLen ++ key ++ varint32 valueLen ++ value.
Proof.
  intros -> ->. unfold prepareDeferredKeyValueRecord.
  set (b0 := if len (data b) =? 0 then _ else b).
  assert (Hb0 : data b0 = base_data b) by (unfold b0, base_data; by destruct (_ =? 0)).
  clearbody b0. cbv zeta. cbn [data]. rewrite Hb0.
  set (b1 := grow junk _ _). pose proof (length_varint32_bounds (len key)) as Hv.
  pose proof (length_varint32_bounds (len value)) as Hw.
  assert (Hj : exists J, data b1 = base_data b ++ J /\ length J = (11 + length key + length value)%nat).
  { eexists. split; [unfold b1; rewrite data_grow; done|].
    rewrite length_expose. unfold maxVarintLen32, len. lia. }
  clearbody b1. destruct Hj as (J & Hd & HJ).
  destruct (list_split_len J 1) as (j1 & J1 & -> & Hj1); [lia|]. rewrite length_app in HJ.
  destruct (list_split_len J1 (length (varint32 (len key)))) as (j2 & J2 & -> & Hj2); [lia|].
  rewrite length_app in HJ.
  destruct (list_split_len J2 (length key)) as (j3 & J3 & -> & Hj3); [lia|]. rewrite length_app in HJ.
  destruct (list_split_len J3 (length (varint32 (len value)))) as (j4 & J4 & -> & Hj4); [lia|].
  rewrite length_app in HJ.
  destruct (list_split_len J4 (length value)) as (j5 & J5 & -> & Hj5); [lia|].
  unfold copyValue, copyKey; cbn [deferredOp poke with_data op_keyPos op_valuePos].
  set (H1 := base_data b ++ u8 kind :: varint32 (len key)).
  erewrite poke_middle with (pre := H1 ++ key ++ varint32 (len value)) (old := j5) (post := []).
  - unfold H1. rewrite app_nil_r, <-!app_assoc. cbn [app]. by rewrite <-?app_assoc.
  - erewrite (poke_middle _ _ H1 j3 (varint32 (len value) ++ j5)); [by rewrite app_nil_r, <-!app_assoc| | |done].
    2: { unfold H1. rewrite len_app, len_cons. lia. }
    cbn [data].
    erewrite (poke_middle _ _ (H1 ++ j3) j4 (j5 ++ J5)); [| | |done].
    2: { rewrite <-!app_assoc. unfold H1. rewrite <-app_assoc. cbn [app].
         erewrite (poke_middle _ _ (base_data b ++ [u8 kind]) j2); [|
           rewrite <-app_assoc; eapply poke_middle; [exact Hd|done|done]|rewrite len_app; done|done].
         by rewrite <-!app_assoc. }
    2: { unfold H1. rewrite !len_app, len_cons. unfold len. rewrite Hj3. lia. }
    rewrite (app_assoc (varint32 _)), (app_assoc (H1 ++ j3)), take_app_length'; [by rewrite <-!app_assoc|].
    unfold H1. rewrite !length_app; cbn [length]. unfold len. lia.
  - unfold H1. rewrite !len_app, len_cons. lia.
  - done.
Qed.

Lemma data_run_op b o : data (run_op junk b o) = base_data b ++ enc_op o.
Proof.
  destruct o; unfold run_op, Set_, Delete, PrefixDeleteKeySet, LogData, SetDeferred, DeleteDeferred;
    cbn [data]; rewrite ?prepareKV_data, ?prepareKey_data by done;
    unfold enc_op; cbn [op_kind op_key]; by rewrite ?app_nil_r.
Qed.

Lemma count_run_op b o :
  count (run_op junk b o) = if op_counted o then u64 (base_count b + 1) else count b.
Proof.
  destruct o; cbn; unfold base_count; by destruct (len (data b) =? 0).
Qed.

Lemma size_run_op b o :
  memTableSize (run_op junk b o) =
  if op_counted o then u64 (memTableSize b + op_size o) else memTableSize b.
Proof.
  destruct o; cbn [run_op op_counted]; unfold Set_, Delete, PrefixDeleteKeySet, LogData,
    SetDeferred, DeleteDeferred, prepareDeferredKeyRecord, prepareDeferredKeyValueRecord, op_size;
    cbn -[u64 memTableEntrySize]; try done; by destruct (len (data b) =? 0).
Qed.
End WriterProps.

(** ** Round trips *)

Section RoundTrip.
Context (junk : bytes -> nat -> Z).

Lemma enc_ops_snoc ops o : enc_ops (ops ++ [o]) = enc_ops ops ++ enc_op o.
Proof. unfold enc_ops. rewrite fmap_app, join_app. cbn. by rewrite app_nil_r. Qed.

Lemma ops_count_snoc ops o :
  ops_count (ops ++ [o]) = ops_count ops + (if op_counted o then 1 else 0).
Proof.
  unfold ops_count. rewrite filter_app, len_app. f_equal.
  rewrite filter_cons, filter_nil. by destruct (op_counted o).
Qed.

Lemma ops_size_app p ops ops' : ops_size p (ops ++ ops') = ops_size p ops + ops_size p ops'.
Proof. induction ops as [|o ops IH]; [done|]. simpl. rewrite IH. lia. Qed.

Lemma ops_size_split ops :
  ops_size (fun _ => true) ops = ops_size op_counted ops + ops_size (fun o => negb (op_counted o)) ops.
Proof. induction ops as [|o ops IH]; [done|]. simpl. rewrite IH. destruct (op_counted o); simpl; lia. Qed.

Lemma ops_count_range ops : 0 <= ops_count ops <= len (enc_ops ops).
Proof.
  unfold ops_count, len. pose proof (length_enc_ops ops).
  pose proof (length_filter (fun o => op_counted o = true) ops). lia.
Qed.

(** The state a fresh batch reaches after a sequence of operations. *)
Lemma run_ops_state d ops :
  let b := run_ops junk (newBatch d) ops in
  data b = (if decide (ops = []) then [] else fresh_header junk ++ enc_ops ops) /\
  count b = u64 (ops_count ops) /\
  memTableSize b = u64 (ops_size op_counted ops).
Proof.
  cbv zeta. unfold run_ops. induction ops as [|o ops IH] using rev_ind; [done|].
  rewrite foldl_app. cbn [foldl]. destruct IH as (Hd & Hc & Hs).
  set (b := foldl (run_op junk) (newBatch d) ops) in *. clearbody b.
  assert (Hbase : base_data junk b = fresh_header junk ++ enc_ops ops /\ base_count b = count b).
  { unfold base_data, base_count. rewrite Hd. case_decide as E.
    - subst ops. cbn. rewrite app_nil_r. by rewrite Hc.
    - rewrite len_app, len_fresh_header. pose proof (len_nonneg (enc_ops ops)).
      destruct (Z.eqb_spec (12 + len (enc_ops ops)) 0); [lia|done]. }
  destruct Hbase as [HB HC].
  rewrite decide_False by (by destruct ops).
  rewrite data_run_op, HB, enc_ops_snoc, <-app_assoc. split; [done|].
  rewrite count_run_op, size_run_op, HC, Hc, Hs, ops_count_snoc, ops_size_app. cbn [ops_size foldr].
  rewrite Z.add_0_r. unfold u64.
  destruct (op_counted o); rewrite ?Zplus_mod_idemp_l, ?Z.add_0_r; done.
Qed.

Lemma ensure_init_id b : len (data b) <> 0 -> ensure_init junk b = b.
Proof. intros. unfold ensure_init. by destruct (Z.eqb_spec (len (data b)) 0). Qed.

(** The header fields of a batch of at least a header, in terms of its
    buffer. *)
Lemma Repr_data b h body :
  data b = h ++ body -> len h = 12 ->
  data (Repr junk b) = take 8 h ++ le_put 4 (Count b) ++ body.
Proof.
  intros Hd Hh. unfold len in Hh. unfold Repr.
  rewrite ensure_init_id by (rewrite Hd, len_app; pose proof (len_nonneg body); unfold len in *; lia).
  cbn [with_data data]. rewrite Hd, take_app_le, drop_app_length' by lia. done.
Qed.

Lemma Reader_data b h body : data b = h ++ body -> len h = 12 -> Reader junk b = body.
Proof.
  intros Hd Hh. unfold len in Hh. unfold Reader.
  rewrite ensure_init_id by (rewrite Hd, len_app; pose proof (len_nonneg body); unfold len in *; lia).
  rewrite Hd, drop_app_length' by lia. done.
Qed.

(** C32: what a batch is built from is what its reader returns: after any
    sequence of Set, Delete, PrefixDeleteKeySet and LogData calls the
    reader of the batch, and of its [Repr], yields exactly those records in
    that order, and the header holds the number of records that take a
    sequence number. *)
Theorem batch_roundtrip d ops :
  ops <> [] -> Forall op_ok ops -> len (enc_ops ops) < 4294967295 ->
  let b := run_ops junk (newBatch d) ops in
  read_all junk (S (length (Reader junk b))) (Reader junk b) = Ok (op_record <$> ops) /\
  ReadBatch (data (Repr junk b)) = (Reader junk b, ops_count ops) /\
  Count b = ops_count ops.
Proof.
  intros Hne Hok Hl b. destruct (run_ops_state d ops) as (Hd & Hc & _).
  fold b in Hd, Hc. rewrite decide_False in Hd by done. clearbody b.
  pose proof (ops_count_range ops). pose proof (len_fresh_header junk) as Hh.
  rewrite (Reader_data b _ _ Hd Hh), (Repr_data b _ _ Hd Hh).
  assert (Hcnt : Count b = ops_count ops) by (unfold Count; rewrite Hc, u64_small, u32_small; lia).
  split; [|split; [|done]].
  - apply read_all_enc; [done|lia|]. pose proof (length_enc_ops ops). lia.
  - rewrite Hcnt. unfold ReadBatch, batchHeaderLen. unfold len in Hh.
    assert (H8 : length (take 8 (fresh_header junk)) = 8%nat) by (rewrite length_take; lia).
    unfold len. rewrite !length_app, H8, length_le_put.
    pose proof (length_enc_ops ops). destruct ops as [|o ops']; [done|]. cbn [length] in *.
    destruct (Z.leb_spec (Z.of_nat (8 + (4 + length (enc_ops (o :: ops'))))) 12); [lia|].
    rewrite (drop_app_length' _ _ 8) by done.
    rewrite take_app_length' by (by rewrite length_le_put).
    rewrite app_assoc, drop_app_length' by (rewrite length_app, H8, length_le_put; done).
    by rewrite le_get_put_u32, u32_small by lia.
Qed.

(** A logged batch is replayed with the same records, the same count and
    the memtable size it was committed with, plus the size of its LogData
    records, which [refreshMemTableSize] counts although [LogData] does
    not; a buffer shorter than a header is refused. *)
Theorem setrepr_roundtrip d id ops c short :
  ops <> [] -> Forall op_ok ops -> len (enc_ops ops) < 4294967295 ->
  len short < batchHeaderLen ->
  let b := run_ops junk (newBatch d) ops in
  (exists b', SetRepr junk (newBatch (Some id)) (data (Repr junk b)) c = Ok b' /\
     Reader junk b' = Reader junk b /\ Count b' = Count b /\ SeqNum junk b' = SeqNum junk b /\
     memTableSize b' =
       u64 (memTableSize b + ops_size (fun o => negb (op_counted o)) ops)) /\
  SetRepr junk (newBatch (Some id)) short c = Err ErrInvalidBatch.
Proof.
  intros Hne Hok Hl Hsh b. destruct (run_ops_state d ops) as (Hd & Hc & Hs).
  fold b in Hd, Hc, Hs. rewrite decide_False in Hd by done. clearbody b.
  pose proof (ops_count_range ops). pose proof (len_fresh_header junk) as Hh.
  split.
  2: { unfold SetRepr. by destruct (Z.ltb_spec (len short) batchHeaderLen); [|lia]. }
  rewrite (Reader_data b _ _ Hd Hh), (Repr_data b _ _ Hd Hh).
  assert (Hcnt : Count b = ops_count ops) by (unfold Count; rewrite Hc, u64_small, u32_small; lia).
  assert (H8 : length (take 8 (fresh_header junk)) = 8%nat)
    by (unfold len in Hh; rewrite length_take; lia).
  set (h := take 8 (fresh_header junk) ++ le_put 4 (Count b)).
  assert (Hlh : len h = 12) by (unfold h, len; rewrite length_app, H8, length_le_put; done).
  rewrite app_assoc. fold h. unfold SetRepr.
  rewrite len_app, Hlh. unfold batchHeaderLen. pose proof (len_nonneg (enc_ops ops)).
  destruct (Z.ltb_spec (12 + len (enc_ops ops)) 12); [lia|]. cbn [db newBatch].
  set (b1 := mkBatch _ _ _ _ _ _ _).
  assert (Hd1 : data b1 = h ++ enc_ops ops) by done.
  unfold refreshMemTableSize, batchHeaderLen. rewrite (Reader_data b1 _ _ Hd1 Hlh), Hd1, len_app, Hlh.
  destruct (Z.ltb_spec (12 + len (enc_ops ops)) 12); [lia|].
  rewrite refresh_loop_enc by (try done; pose proof (length_enc_ops ops); lia). cbn [rbind].
  eexists. split; [done|].
  split; [by apply (Reader_data _ h)|]. split; [|split].
  - unfold Count at 1. cbn [count b1]. unfold h.
    rewrite <-(app_assoc (take 8 _)), (drop_app_length' _ _ 8) by done.
    rewrite take_app_length' by (by rewrite length_le_put).
    rewrite le_get_put_u32, Hcnt. by rewrite !u32_small by (rewrite ?u32_small; lia).
  - unfold SeqNum. rewrite !ensure_init_id by (cbn [data b1]; rewrite ?Hd, len_app; unfold len in *; lia).
    cbn [data b1]. rewrite Hd. unfold h. unfold len in Hh.
    rewrite <-(app_assoc (take 8 _)), take_app_length' by done. by rewrite take_app_le by lia.
  - cbn [memTableSize]. rewrite Hs, ops_size_split. unfold u64. by rewrite Zplus_mod_idemp_l.
Qed.

(** Stamping a sequence number changes only the header field that
    [SeqNum] reads: the number is read back and the records, the count and
    the reserved size are untouched. *)
Lemma setSeqNum_spec b s :
  batchHeaderLen <= len (data b) -> 0 <= s < 18446744073709551616 ->
  SeqNum junk (setSeqNum b s) = s /\ Reader junk (setSeqNum b s) = Reader junk b /\
  Count (setSeqNum b s) = Count b /\ memTableSize (setSeqNum b s) = memTableSize b /\
  len (data (setSeqNum b s)) = len (data b).
Proof.
  intros Hl Hs. unfold batchHeaderLen in Hl.
  assert (Hlen : len (data (setSeqNum b s)) = len (data b)).
  { unfold setSeqNum, len in *; cbn [data with_data]. rewrite length_app, length_le_put, length_drop. lia. }
  unfold SeqNum, Reader. rewrite !ensure_init_id by lia. cbn [data setSeqNum with_data].
  rewrite take_app_length' by (by rewrite length_le_put).
  rewrite le_get_put_u64, u64_small by done. split; [done|]. split; [|done].
  rewrite drop_app_ge, length_le_put, drop_drop by (rewrite length_le_put; lia). done.
Qed.
End RoundTrip.

(** A concrete batch for the witnesses: two keys, a delete and a comment. *)
Definition demo_ops : list batchOp :=
  [OpSet [107; 49] [118; 49; 49]; OpDelete [107; 50]; OpLogData [7]; OpSet [107; 51] []].

Definition demo_junk : bytes -> nat -> Z := fun _ i => Z.of_nat i mod 251.

Lemma demo_ops_ok : Forall op_ok demo_ops.
Proof. repeat constructor. Defined.

Lemma batch_roundtrip_witness :
  let b := run_ops demo_junk (newBatch None) demo_ops in
  read_all demo_junk (S (length (Reader demo_junk b))) (Reader demo_junk b) = Ok (op_record <$> demo_ops) /\
  Count b = 3.
Proof.
  destruct (batch_roundtrip demo_junk None demo_ops) as (H1 & _ & H3);
    [done|apply demo_ops_ok|by vm_compute|]. split; [exact H1|exact H3].
Defined.

Lemma setrepr_roundtrip_witness :
  SetRepr demo_junk (newBatch (Some 0%nat)) [1; 2; 3] 3 = Err ErrInvalidBatch.
Proof.
  apply (setrepr_roundtrip demo_junk None 0%nat demo_ops 3 [1; 2; 3]);
    [done|apply demo_ops_ok|by vm_compute|by vm_compute].
Defined.

Lemma setSeqNum_spec_witness :
  SeqNum demo_junk (setSeqNum (run_ops demo_junk (newBatch None) demo_ops) 99) = 99.
Proof.
  apply (setSeqNum_spec demo_junk (run_ops demo_junk (newBatch None) demo_ops) 99); by vm_compute.
Defined.

(** A batch cut inside a record is not always reported as unreadable: when
    nothing follows the kind byte, [Next] panics instead of returning
    [ok = false]. *)
Theorem next_panics_on_bare_kind junk kind :
  0 <= kind <= InternalKey.KindMax -> Next junk [kind] = Panic.
Proof.
  intros Hk. unfold Next. destruct (Z.ltb_spec InternalKey.KindMax kind); [lia|done].
Qed.

Lemma next_panics_on_bare_kind_witness : Next demo_junk [1] = Panic.
Proof. apply (next_panics_on_bare_kind demo_junk 1); by vm_compute. Defined.
