(* ===== verification/Heap.v ===== *)
(** The binary heap under the merging iterators ([mergingIterHeap] of
    merging_iter.go; internal/iterator/merging_iter_heap.go is the same code
    for the flush path).  The items live in an array; [less] is the strict
    order of the heap. *)

From Stdlib Require Import ZArith Lia.
From stdpp Require Import base numbers option sorting list.
From S2P Require Import Prelude.

Section Heap.
Context {A : Type} (lessA : A -> A -> bool).

(** [h.less(i, j)] on indices in range. *)
Definition less (h : list A) (i j : nat) : bool :=
  match h !! i, h !! j with
  | Some a, Some b => lessA a b
  | _, _ => false
  end.

Definition swap (h : list A) (i j : nat) : list A :=
  match h !! i, h !! j with
  | Some a, Some b => <[i := b]> (<[j := a]> h)
  | _, _ => h
  end.

(** The loop of [down]: sink the item at [i] among the first [n]; each round
    at least doubles [i], so [n] rounds are enough.  Returns the heap and the
    final position. *)
Fixpoint down_loop (fuel : nat) (h : list A) (i n : nat) : list A * nat :=
  match fuel with
  | O => (h, i)
  | S fuel' =>
      let j1 := (2 * i + 1)%nat in
      if (n <=? j1)%nat then (h, i)
      else
        let j2 := S j1 in
        let j := if (j2 <? n)%nat && less h j2 j1 then j2 else j1 in
        if negb (less h j i) then (h, i)
        else down_loop fuel' (swap h i j) j n
  end.

Definition down (h : list A) (i0 n : nat) : list A * bool :=
  let '(h', i) := down_loop n h i0 n in (h', (i0 <? i)%nat).

(** [up]: the parent of 0 is 0 in Go ([(0 - 1) / 2] truncates). *)
Fixpoint up_loop (fuel : nat) (h : list A) (j : nat) : list A :=
  match fuel with
  | O => h
  | S fuel' =>
      let i := Z.to_nat (Z.quot (Z.of_nat j - 1) 2) in
      if (i =? j)%nat || negb (less h j i) then h
      else up_loop fuel' (swap h i j) i
  end.

Definition up (h : list A) (j : nat) : list A := up_loop (S j) h j.

Fixpoint init_loop (i : nat) (h : list A) (n : nat) : list A :=
  match i with
  | O => h
  | S i' => init_loop i' (fst (down h i' n)) n
  end.

Definition heap_init (h : list A) : list A := init_loop (length h / 2) h (length h).

Definition fix_ (h : list A) (i : nat) : list A :=
  let '(h', moved) := down h i (length h) in
  if moved then h' else up h' i.

(** [pop] of a non-empty heap: the item removed and the heap without it. *)
Definition pop (h : list A) : option A * list A :=
  let n := (length h - 1)%nat in
  let h1 := fst (down (swap h 0 n) 0 n) in
  (h1 !! n, take n h1).

(** ** Correctness

    [lessA] is the strict part of a total preorder. *)
Context (Hirr : forall a, lessA a a = false).
Context (Htrans : forall a b c, lessA b a = false -> lessA c b = false -> lessA c a = false).
Context (Hasym : forall a b, lessA a b = true -> lessA b a = false).

(** [a] is at or before [b]. *)
Definition leA (a b : A) : Prop := lessA b a = false.

#[local] Instance leA_refl : Reflexive leA.
Proof. intros a. apply Hirr. Qed.
#[local] Instance leA_trans : Transitive leA.
Proof. intros a b c. apply Htrans. Qed.

(** The heap condition on the nodes at or after [lo] among the first [n]. *)
Definition edge (i c : nat) : Prop := (c = 2 * i + 1 \/ c = 2 * i + 2)%nat.

Definition heap_from (lo n : nat) (h : list A) : Prop :=
  forall i c a b, (lo <= i)%nat -> (c < n)%nat -> edge i c -> h !! i = Some a -> h !! c = Some b -> leA a b.

Definition heap (h : list A) : Prop := heap_from 0 (length h) h.

(** [heap_from] except at [k], whose children are still above its parent. *)
Definition heap_hole (lo n k : nat) (h : list A) : Prop :=
  (forall i c a b, (lo <= i)%nat -> (c < n)%nat -> i <> k -> edge i c ->
     h !! i = Some a -> h !! c = Some b -> leA a b) /\
  (forall p c a b, (lo <= p)%nat -> (c < n)%nat -> edge p k -> edge k c ->
     h !! p = Some a -> h !! c = Some b -> leA a b).

Lemma length_swap h i j : length (swap h i j) = length h.
Proof. unfold swap. destruct (h !! i), (h !! j); by rewrite ?length_insert. Qed.

Lemma lookup_swap h i j k a b :
  h !! i = Some a -> h !! j = Some b ->
  swap h i j !! k = if decide (k = i) then Some b else if decide (k = j) then Some a else h !! k.
Proof.
  intros Hi Hj. unfold swap. rewrite Hi, Hj.
  pose proof (lookup_lt_Some _ _ _ Hi). pose proof (lookup_lt_Some _ _ _ Hj).
  repeat case_decide; subst.
  - by rewrite list_lookup_insert_eq by (by rewrite length_insert).
  - by rewrite list_lookup_insert_ne, list_lookup_insert_eq by done.
  - by rewrite !list_lookup_insert_ne by done.
Qed.

Lemma swap_perm h i j : swap h i j ≡ₚ h.
Proof.
  unfold swap. destruct (h !! i) as [a|] eqn:Hi; [|done]. destruct (h !! j) as [b|] eqn:Hj; [|done].
  symmetry. apply Permutation_inj. split; [by rewrite !length_insert|].
  exists (fun k => if decide (k = i) then j else if decide (k = j) then i else k).
  split.
  - intros x y. repeat case_decide; congruence.
  - intros k. pose proof (lookup_lt_Some _ _ _ Hi). pose proof (lookup_lt_Some _ _ _ Hj).
    repeat case_decide; subst.
    + destruct (decide (i = j)) as [->|Hne].
      * rewrite list_lookup_insert_eq by (by rewrite length_insert). congruence.
      * by rewrite list_lookup_insert_ne, list_lookup_insert_eq by done.
    + rewrite list_lookup_insert_eq by (by rewrite length_insert). congruence.
    + by rewrite !list_lookup_insert_ne by done.
Qed.

Lemma down_loop_perm fuel h i n : fst (down_loop fuel h i n) ≡ₚ h.
Proof.
  revert h i. induction fuel as [|fuel IH]; intros h i; [done|]. cbn [down_loop].
  set (j := if _ && _ then _ else _). destruct (n <=? 2 * i + 1)%nat; [done|].
  destruct (negb (less h j i)); [done|]. etransitivity; [apply IH|apply swap_perm].
Qed.

Lemma down_loop_outside fuel h i n k :
  (n <= length h)%nat -> (i < n)%nat -> (n <= k)%nat -> fst (down_loop fuel h i n) !! k = h !! k.
Proof.
  revert h i. induction fuel as [|fuel IH]; intros h i Hn Hi Hk; [done|]. cbn [down_loop].
  set (j := if _ && _ then _ else _).
  destruct (Nat.leb_spec n (2 * i + 1)) as [|Hj1]; [done|].
  destruct (negb (less h j i)); [done|].
  assert (j < n)%nat.
  { unfold j. destruct (Nat.ltb_spec (S (2 * i + 1)) n); cbn [andb]; [destruct (less _ _ _)|]; lia. }
  rewrite IH by (rewrite ?length_swap; lia).
  destruct (lookup_lt_is_Some_2 h i) as [a Ha]; [lia|].
  destruct (lookup_lt_is_Some_2 h j) as [b Hb]; [lia|].
  rewrite (lookup_swap h i j k a b) by done. by repeat case_decide; subst; try lia.
Qed.

Lemma leA_of_less h i j a b : less h j i = true -> h !! i = Some a -> h !! j = Some b -> leA b a.
Proof. unfold less. intros H Ha Hb. rewrite Ha, Hb in H. by apply Hasym. Qed.

Lemma leA_of_not_less h i j a b : less h j i = false -> h !! i = Some a -> h !! j = Some b -> leA a b.
Proof. unfold less. intros H Ha Hb. by rewrite Ha, Hb in H. Qed.

(** One round of [down] moves the hole to the smaller child. *)
Lemma swap_hole lo n h i j a b :
  (lo <= i)%nat -> edge i j -> (j < n)%nat -> heap_hole lo n i h ->
  h !! i = Some a -> h !! j = Some b -> leA b a ->
  (forall c x, edge i c -> (c < n)%nat -> h !! c = Some x -> leA b x) ->
  heap_hole lo n j (swap h i j).
Proof.
  intros Hlo Hij Hjn [Hheap Hpar] Ha Hb Hba Hmin.
  assert (i <> j) by (unfold edge in Hij; lia).
  split.
  - intros p c x y Hp Hc Hpj Hpc. rewrite !(lookup_swap h i j _ a b) by done.
    destruct (decide (p = i)) as [->|Hpi].
    + intros [= <-]. rewrite (decide_False (P := c = i)) by (unfold edge in Hpc; lia).
      case_decide; [intros [= <-]; done|]. intros Hy. by eapply Hmin.
    + rewrite decide_False by done. intros Hx. destruct (decide (c = i)) as [->|].
      * intros [= <-]. eapply (Hpar p j); [exact Hp|exact Hjn|exact Hpc|exact Hij|exact Hx|exact Hb].
      * rewrite decide_False by (unfold edge in *; lia). intros Hy. by eapply (Hheap p c).
  - intros p c x y Hp Hc Hpj Hjc. rewrite !(lookup_swap h i j _ a b) by done.
    assert (p = i) as -> by (unfold edge in *; lia). rewrite decide_True by done. intros [= <-].
    rewrite !decide_False by (unfold edge in *; lia). intros Hy.
    eapply (Hheap j c); [unfold edge in Hij; lia|done|done|exact Hjc|exact Hb|exact Hy].
Qed.

Lemma down_loop_heap lo fuel h i n :
  (n <= length h)%nat -> (lo <= i < n)%nat -> (n <= fuel + i)%nat ->
  heap_hole lo n i h -> heap_from lo n (fst (down_loop fuel h i n)).
Proof.
  revert h i. induction fuel as [|fuel IH]; intros h i Hn Hi Hf Hhole; [lia|]. cbn [down_loop].
  destruct (lookup_lt_is_Some_2 h i) as [a Ha]; [lia|].
  destruct (Nat.leb_spec n (2 * i + 1)) as [Hleaf|Hj1].
  { cbn [fst]. intros p c x y Hp Hc Hpc Hx Hy. destruct Hhole as [Hheap _].
    eapply (Hheap p c); try done. intros ->. unfold edge in Hpc. lia. }
  set (j := if _ && _ then _ else _).
  assert (Hj : edge i j /\ (j < n)%nat /\
    (forall b, h !! j = Some b -> forall c x, edge i c -> (c < n)%nat -> h !! c = Some x -> leA b x)).
  { unfold j, edge. destruct (Nat.ltb_spec (S (2 * i + 1)) n) as [Hj2|Hj2]; cbn [andb];
      [destruct (less h (S (2 * i + 1)) (2 * i + 1)) eqn:Hl|]; (split; [lia|]); (split; [lia|]);
      intros b Hb c x [->| ->] Hc Hx.
    - by eapply leA_of_less.
    - replace (2 * i + 2)%nat with (S (2 * i + 1)) in Hx by lia. simplify_eq. reflexivity.
    - simplify_eq. reflexivity.
    - replace (2 * i + 2)%nat with (S (2 * i + 1)) in Hx by lia. by eapply leA_of_not_less.
    - simplify_eq. reflexivity.
    - lia. }
  destruct Hj as (Hedge & Hjn & Hmin). clearbody j.
  destruct (lookup_lt_is_Some_2 h j) as [b Hb]; [lia|].
  destruct (less h j i) eqn:Hl; cbn [negb].
  - apply IH; [by rewrite length_swap|unfold edge in Hedge; lia|unfold edge in Hedge; lia|].
    eapply swap_hole; eauto with lia. by eapply leA_of_less.
  - cbn [fst]. intros p c x y Hp Hc Hpc Hx Hy. destruct Hhole as [Hheap _].
    destruct (decide (p = i)) as [->|]; [|by eapply (Hheap p c)].
    simplify_eq. transitivity b; [by eapply leA_of_not_less|]. by eapply Hmin.
Qed.

(** [down] from a node whose subtrees are heaps. *)
Lemma down_heap lo h i n :
  (n <= length h)%nat -> (lo <= i < n)%nat -> heap_hole lo n i h ->
  heap_from lo n (fst (down h i n)).
Proof.
  intros. unfold down. destruct (down_loop n h i n) as [h' k] eqn:E. cbn [fst].
  change h' with (fst (h', k)). rewrite <-E. apply down_loop_heap; (done || lia).
Qed.

Lemma down_perm h i n : fst (down h i n) ≡ₚ h.
Proof.
  unfold down. pose proof (down_loop_perm n h i n). by destruct (down_loop n h i n).
Qed.

Lemma length_down h i n : length (fst (down h i n)) = length h.
Proof. apply Permutation_length, down_perm. Qed.

Lemma heap_hole_from lo n h : heap_from (S lo) n h -> heap_hole lo n lo h.
Proof.
  intros H. split.
  - intros i c a b Hi Hc Hne He. eapply H; [lia|done|done].
  - intros p c a b Hp Hc He. unfold edge in He. lia.
Qed.

Lemma init_loop_spec i n h :
  length h = n -> (i <= n)%nat -> heap_from i n h ->
  heap_from 0 n (init_loop i h n) /\ init_loop i h n ≡ₚ h.
Proof.
  revert h. induction i as [|i IH]; intros h Hn Hi Hh; cbn [init_loop]; [done|].
  destruct (IH (fst (down h i n))) as [H1 H2].
  - by rewrite length_down.
  - lia.
  - apply down_heap; [lia|lia|]. by apply heap_hole_from.
  - split; [done|]. rewrite H2. apply down_perm.
Qed.

(** [init] turns any array into a heap of the same items. *)
Theorem heap_init_spec h : heap (heap_init h) /\ heap_init h ≡ₚ h.
Proof.
  unfold heap, heap_init.
  destruct (init_loop_spec (length h / 2) (length h) h) as [H1 H2].
  - done.
  - apply Nat.Div0.div_le_upper_bound. lia.
  - intros i c a b Hi Hc He. unfold edge in He.
    pose proof (Nat.div_mod_eq (length h) 2). pose proof (Nat.mod_upper_bound (length h) 2). lia.
  - split; [|done]. by rewrite (Permutation_length H2).
Qed.

Lemma heap_root h a : heap h -> h !! 0%nat = Some a -> forall i b, h !! i = Some b -> leA a b.
Proof.
  intros Hh Ha i. induction i as [i IH] using (well_founded_induction lt_wf). intros b Hb.
  destruct (decide (i = 0%nat)) as [->|Hne]; [simplify_eq; reflexivity|].
  pose proof (lookup_lt_Some _ _ _ Hb).
  pose proof (Nat.div_mod_eq (i - 1) 2). pose proof (Nat.mod_upper_bound (i - 1) 2).
  destruct (lookup_lt_is_Some_2 h ((i - 1) / 2)) as [p Hp]; [lia|].
  transitivity p; [by eapply (IH ((i - 1) / 2)%nat); [lia|]|].
  eapply (Hh ((i - 1) / 2)%nat i); [lia|done|unfold edge; lia|done|done].
Qed.

(** The root of a heap is a minimum. *)
Lemma heap_min a h : heap (a :: h) -> Forall (leA a) h.
Proof.
  intros Hh. apply Forall_forall. intros b [i Hi]%list_elem_of_lookup.
  by eapply (heap_root (a :: h) a Hh eq_refl (S i)).
Qed.

Lemma up_root h : up h 0 = h.
Proof. unfold up. cbn [up_loop]. change (Z.to_nat (Z.quot (Z.of_nat 0 - 1) 2)) with 0%nat. done. Qed.

(** After the root of a heap is replaced by any item, [fix(0)] restores
    the heap and keeps the items. *)
Theorem fix_root_spec a b h :
  heap (a :: h) -> heap (fix_ (b :: h) 0) /\ fix_ (b :: h) 0 ≡ₚ b :: h.
Proof.
  intros Hh. unfold fix_, heap in *.
  pose proof (down_perm (b :: h) 0 (length (b :: h))) as Hp.
  assert (Hd : heap_from 0 (length (b :: h)) (fst (down (b :: h) 0 (length (b :: h))))).
  { apply down_heap; [done|simpl; lia|]. apply heap_hole_from.
    intros i c x y Hi Hc He Hx Hy. destruct i as [|i]; [lia|].
    destruct c as [|c]; [unfold edge in He; lia|].
    eapply (Hh (S i) (S c)); [lia|exact Hc|exact He|exact Hx|exact Hy]. }
  destruct (down (b :: h) 0 (length (b :: h))) as [h' moved]. cbn [fst] in *.
  rewrite <-(Permutation_length Hp) in Hd. destruct moved; [done|]. by rewrite up_root.
Qed.

Lemma swap_ends a h b : swap (a :: h ++ [b]) 0 (S (length h)) = b :: h ++ [a].
Proof.
  assert (Hl : (a :: h ++ [b]) !! S (length h) = Some b) by (apply (list_lookup_middle h [] b); done).
  unfold swap. rewrite Hl. cbn. f_equal.
  change (<[length h := a]> (h ++ [b]) = h ++ [a]).
  rewrite insert_app_r_alt by lia. by rewrite Nat.sub_diag.
Qed.

(** [pop] of a heap returns its root, which is a minimum of the items, and
    leaves a heap of the others. *)
Theorem pop_spec a h :
  heap (a :: h) ->
  fst (pop (a :: h)) = Some a /\ heap (snd (pop (a :: h))) /\ snd (pop (a :: h)) ≡ₚ h /\
  Forall (leA a) h.
Proof.
  intros Hh. pose proof (heap_min a h Hh) as Hmin.
  unfold pop. replace (length (a :: h) - 1)%nat with (length h) by (simpl; lia).
  destruct h as [|b h _] using rev_ind.
  { cbn. repeat split; try done. }
  rewrite length_app. cbn [length]. rewrite Nat.add_1_r, swap_ends.
  pose proof (down_perm (b :: h ++ [a]) 0 (S (length h))) as Hp.
  assert (Hout : fst (down (b :: h ++ [a]) 0 (S (length h))) !! S (length h) = Some a).
  { unfold down. pose proof (down_loop_outside (S (length h)) (b :: h ++ [a]) 0 (S (length h)) (S (length h))) as Ho.
    destruct (down_loop _ _ _ _) as [h' k]. cbn [fst] in *. rewrite Ho by (simpl; rewrite ?length_app; simpl; lia).
    apply (list_lookup_middle h [] a). done. }
  assert (Hd : heap_from 0 (S (length h)) (fst (down (b :: h ++ [a]) 0 (S (length h))))).
  { apply down_heap; [simpl; rewrite length_app; simpl; lia|lia|]. apply heap_hole_from.
    intros i c x y Hi Hc He Hx Hy. destruct i as [|i]; [lia|].
    destruct c as [|c]; [unfold edge in He; lia|].
    change ((h ++ [a]) !! i = Some x) in Hx. change ((h ++ [a]) !! c = Some y) in Hy.
    rewrite lookup_app_l in Hx by (unfold edge in He; lia). rewrite lookup_app_l in Hy by lia.
    eapply (Hh (S i) (S c)); [lia|simpl; rewrite length_app; simpl; lia|exact He| |].
    - apply (lookup_app_l_Some h [b] i x Hx).
    - apply (lookup_app_l_Some h [b] c y Hy). }
  pose proof (length_down (b :: h ++ [a]) 0 (S (length h))) as Hl.
  set (h1 := fst (down (b :: h ++ [a]) 0 (S (length h)))) in *. clearbody h1.
  cbn [fst snd]. split; [done|].
  assert (Ht : h1 = take (S (length h)) h1 ++ [a]).
  { rewrite <-(take_drop (S (length h)) h1) at 1. f_equal.
    rewrite (drop_S h1 a (S (length h)) Hout). rewrite drop_ge; [done|].
    rewrite Hl. simpl. rewrite length_app. simpl. lia. }
  assert (Hlt : length (take (S (length h)) h1) = S (length h)).
  { rewrite length_take, Hl. simpl. rewrite length_app. simpl. lia. }
  split; [|split; [|done]].
  - unfold heap. rewrite Hlt. intros i c x y Hi Hc He Hx Hy.
    rewrite lookup_take_lt in Hx by (unfold edge in He; lia). rewrite lookup_take_lt in Hy by lia.
    by eapply (Hd i c).
  - rewrite Ht, (Permutation_app_comm (take _ _)) in Hp. cbn [app] in Hp.
    apply (Permutation.Permutation_cons_inv (a := a)). rewrite Hp.
    rewrite (Permutation_app_comm h [b]). cbn [app]. rewrite (Permutation_app_comm h [a]). cbn [app].
    constructor.
Qed.

End Heap.
