(* ===== verification/Iter.v ===== *)
(** The interface between iterators ([base.InternalIterator],
    internal/base/iterator.go) and what a client may assume of one.

    An iterator is a state with the interface's methods.  [ForwardLaws] is the
    contract of a forward scan: the iterator walks a fixed list of entries,
    [First] goes to its head, [Next] to the following entry, and running off
    the end gives nil without an error.  The merging and the compaction
    iterator are proved against this contract; the batch and array-table
    iterators discharge it. *)

From Stdlib Require Import ZArith Lia.
From stdpp Require Import base numbers option sorting list.
From S2P Require Import Prelude Base.

(** A key and a value; nil keys are [None] of [option entry]. *)
Abbreviation entry := (InternalKey * bytes)%type.

Record iterOps (S : Type) : Type := mkIterOps {
  itSeekGE : bytes -> S -> outcome (S * option entry);
  itSeekPrefixGE : bytes -> bytes -> bool -> S -> outcome (S * option entry);
  itSeekLT : bytes -> S -> outcome (S * option entry);
  itFirst : S -> outcome (S * option entry);
  itLast : S -> outcome (S * option entry);
  itNext : S -> outcome (S * option entry);
  itPrev : S -> outcome (S * option entry);
  itError : S -> option error;
  itSetBounds : option bytes -> option bytes -> S -> S
}.
Arguments itSeekGE {S}. Arguments itSeekPrefixGE {S}. Arguments itSeekLT {S}. Arguments itFirst {S}.
Arguments itLast {S}. Arguments itNext {S}. Arguments itPrev {S}. Arguments itError {S}.
Arguments itSetBounds {S}.

(** A value of the interface type: some state with its methods. *)
Record Iter : Type := mkIter { itS : Type; itOps : iterOps itS; itSt : itS }.

Definition call (i : Iter) (m : itS i -> outcome (itS i * option entry)) : outcome (Iter * option entry) :=
  let! (s', kv) := m (itSt i) in Ok (mkIter (itS i) (itOps i) s', kv).

Definition SeekGE (k : bytes) (i : Iter) := call i (itSeekGE (itOps i) k).
Definition SeekPrefixGE (p k : bytes) (t : bool) (i : Iter) := call i (itSeekPrefixGE (itOps i) p k t).
Definition SeekLT (k : bytes) (i : Iter) := call i (itSeekLT (itOps i) k).
Definition First (i : Iter) := call i (itFirst (itOps i)).
Definition Last (i : Iter) := call i (itLast (itOps i)).
Definition Next (i : Iter) := call i (itNext (itOps i)).
Definition Prev (i : Iter) := call i (itPrev (itOps i)).
Definition Error (i : Iter) : option error := itError (itOps i) (itSt i).
Definition SetBounds (lo up : option bytes) (i : Iter) : Iter :=
  mkIter (itS i) (itOps i) (itSetBounds (itOps i) lo up (itSt i)).

(** Indexing with Go's [int]: nil outside the list. *)
Definition lookupZ {A} (l : list A) (i : Z) : option A := if i <? 0 then None else l !! Z.to_nat i.

Lemma lookupZ_0 {A} (l : list A) : lookupZ l 0 = head l.
Proof. by destruct l. Qed.

Lemma lookupZ_nil {A} i : lookupZ (@nil A) i = None.
Proof. unfold lookupZ. by destruct (i <? 0). Qed.

Lemma lookupZ_None {A} (l : list A) i : len l <= i -> lookupZ l i = None.
Proof.
  intros H. unfold lookupZ. destruct (Z.ltb_spec i 0); [done|].
  apply lookup_ge_None. unfold len in H. lia.
Qed.

Lemma lookupZ_Some {A} (l : list A) i : 0 <= i < len l -> exists x, lookupZ l i = Some x.
Proof.
  intros H. unfold lookupZ. destruct (Z.ltb_spec i 0); [lia|].
  apply lookup_lt_is_Some_2. unfold len in H. lia.
Qed.

Lemma lookupZ_is_Some {A} (l : list A) i x : lookupZ l i = Some x -> 0 <= i < len l.
Proof.
  unfold lookupZ. destruct (Z.ltb_spec i 0); [done|]. intros Hx%lookup_lt_Some. unfold len. lia.
Qed.

Lemma lookupZ_fmap {A B} (f : A -> B) l i : lookupZ (f <$> l) i = f <$> lookupZ l i.
Proof. unfold lookupZ. destruct (i <? 0); [done|]. apply list_lookup_fmap. Qed.

Lemma Forall_lookupZ {A} (P : A -> Prop) l i x : Forall P l -> lookupZ l i = Some x -> P x.
Proof. unfold lookupZ. destruct (i <? 0); [done|]. apply Forall_lookup_1. Qed.

Lemma drop_lookupZ {A} (l : list A) i x :
  lookupZ l i = Some x -> drop (Z.to_nat i) l = x :: drop (Z.to_nat (i + 1)) l.
Proof.
  intros H. pose proof (lookupZ_is_Some _ _ _ H). unfold lookupZ in H.
  destruct (Z.ltb_spec i 0); [lia|].
  rewrite (drop_S _ _ _ H). do 2 f_equal. lia.
Qed.

Lemma drop_lookupZ_None {A} (l : list A) i :
  0 <= i -> lookupZ l i = None -> drop (Z.to_nat i) l = [].
Proof.
  intros Hi H. destruct (Z.le_gt_cases (len l) i) as [Hl|Hl].
  - apply drop_ge. unfold len in Hl. lia.
  - destruct (lookupZ_Some l i) as [x Hx]; [lia|congruence].
Qed.

(** The contract of a forward scan over [l]: [R s l p] says that the state [s]
    stands at position [p]. *)
Class ForwardLaws {S : Type} (o : iterOps S) (R : S -> list entry -> Z -> Prop) : Prop := {
  fwd_first : forall s l p, R s l p ->
    exists s', itFirst o s = Ok (s', lookupZ l 0) /\ R s' l 0;
  fwd_next : forall s l p, R s l p -> 0 <= p < len l ->
    exists s', itNext o s = Ok (s', lookupZ l (p + 1)) /\ R s' l (p + 1);
  fwd_error : forall s l p, R s l p -> itError o s = None
}.

(** [i] walks [l] and stands at [p]. *)
Definition walks (i : Iter) (l : list entry) (p : Z) : Prop :=
  exists R : itS i -> list entry -> Z -> Prop, ForwardLaws (itOps i) R /\ R (itSt i) l p.

Lemma walks_first i l p : walks i l p -> exists i', First i = Ok (i', lookupZ l 0) /\ walks i' l 0.
Proof.
  intros (R & HL & HR). destruct (fwd_first _ _ _ HR) as (s' & E & HR').
  eexists. unfold First, call. rewrite E. cbn. split; [done|]. by exists R.
Qed.

Lemma walks_next i l p :
  walks i l p -> 0 <= p < len l -> exists i', Next i = Ok (i', lookupZ l (p + 1)) /\ walks i' l (p + 1).
Proof.
  intros (R & HL & HR) Hp. destruct (fwd_next _ _ _ HR Hp) as (s' & E & HR').
  eexists. unfold Next, call. rewrite E. cbn. split; [done|]. by exists R.
Qed.

Lemma walks_error i l p : walks i l p -> Error i = None.
Proof. intros (R & HL & HR). by eapply fwd_error. Qed.

(** The entries a caller collects with [for k, v := it.First(); k != nil;
    k, v = it.Next()]. *)
Section Drain.
Context {S : Type} (next : S -> outcome (S * option entry)).

Fixpoint drain_from (fuel : nat) (s : S) (kv : option entry) : outcome (list entry) :=
  match kv with
  | None => Ok []
  | Some e =>
      match fuel with
      | O => Err ErrModelFuel
      | Datatypes.S fuel' =>
          let! (s', kv') := next s in
          let! es := drain_from fuel' s' kv' in
          Ok (e :: es)
      end
  end.

Definition drain (first : S -> outcome (S * option entry)) (fuel : nat) (s : S) : outcome (list entry) :=
  let! (s', kv) := first s in drain_from fuel s' kv.

End Drain.

(** The scan of an iterator of the interface. *)
Definition scan {S} (o : iterOps S) (fuel : nat) (s : S) : outcome (list entry) :=
  drain (itNext o) (itFirst o) fuel s.

Section DrainLaws.
Context {S : Type} (o : iterOps S) (R : S -> list entry -> Z -> Prop) `{!ForwardLaws o R}.

Lemma drain_from_walks fuel s l p :
  R s l p -> 0 <= p -> (length (drop (Z.to_nat p) l) <= fuel)%nat ->
  drain_from (itNext o) fuel s (lookupZ l p) = Ok (drop (Z.to_nat p) l).
Proof.
  revert s p. induction fuel as [|fuel IH]; intros s p Hw Hp Hf;
    destruct (lookupZ l p) as [e|] eqn:E.
  - rewrite (drop_lookupZ _ _ _ E) in Hf. simpl in Hf. lia.
  - cbn. by rewrite drop_lookupZ_None.
  - pose proof (lookupZ_is_Some _ _ _ E) as Hr. rewrite (drop_lookupZ _ _ _ E) in Hf |- *.
    cbn [drain_from]. destruct (fwd_next s l p Hw Hr) as (s' & -> & Hw'). cbn [rbind].
    rewrite IH; [done|done|lia|]. cbn [length] in Hf. lia.
  - cbn. by rewrite drop_lookupZ_None.
Qed.

(** A lawful iterator yields its list. *)
Lemma scan_walks fuel s l p : R s l p -> (length l <= fuel)%nat -> scan o fuel s = Ok l.
Proof.
  intros Hw Hf. unfold scan, drain. destruct (fwd_first s l p Hw) as (s' & -> & Hw'). cbn [rbind].
  by rewrite (drain_from_walks fuel s' l 0 Hw') by (rewrite ?drop_0; (done || lia)).
Qed.

End DrainLaws.

(** ** The reference iterator: a list and a position in it *)

Definition listState : Type := (list entry * Z)%type.

Definition list_at (l : list entry) (p : Z) : outcome (listState * option entry) :=
  let q := Z.max (-1) (Z.min p (len l)) in Ok ((l, q), lookupZ l q).

(** The first position whose user key is at or past [k]. *)
Fixpoint list_seek (cmp : bytes -> bytes -> Z) (k : bytes) (l : list entry) : Z :=
  match l with
  | [] => 0
  | e :: l' => if cmp (InternalKey.UserKey e.1) k <? 0 then 1 + list_seek cmp k l' else 0
  end.

Definition listOps (cmp : bytes -> bytes -> Z) : iterOps listState := {|
  itSeekGE k s := list_at s.1 (list_seek cmp k s.1);
  itSeekPrefixGE _ k _ s := list_at s.1 (list_seek cmp k s.1);
  itSeekLT k s := list_at s.1 (list_seek cmp k s.1 - 1);
  itFirst s := list_at s.1 0;
  itLast s := list_at s.1 (len s.1 - 1);
  itNext s := list_at s.1 (s.2 + 1);
  itPrev s := list_at s.1 (s.2 - 1);
  itError _ := None;
  itSetBounds _ _ s := s
|}.

Definition listIter (cmp : bytes -> bytes -> Z) (l : list entry) : Iter :=
  mkIter listState (listOps cmp) (l, -1).

#[export] Instance listOps_laws cmp :
  ForwardLaws (listOps cmp) (fun s l p => s.1 = l /\ s.2 = p /\ -1 <= p <= len l).
Proof.
  split.
  - intros [l' p'] l p (E1 & E2 & Hp). cbn in E1, E2. subst. eexists. cbn. unfold list_at. pose proof (len_nonneg l).
    replace (Z.max (-1) (Z.min 0 (len l))) with 0 by lia. split; [done|]. cbn. repeat split; lia.
  - intros [l' p'] l p (E1 & E2 & Hp) Hr. cbn in E1, E2. subst. eexists. cbn. unfold list_at.
    replace (Z.max (-1) (Z.min (p + 1) (len l))) with (p + 1) by lia. split; [done|]. cbn. repeat split; lia.
  - done.
Qed.

Lemma listIter_walks cmp l : walks (listIter cmp l) l (-1).
Proof.
  eexists. split; [apply listOps_laws|]. cbn. pose proof (len_nonneg l). repeat split; lia.
Qed.

(** ** Both directions *)

(** The contract of an iterator with bounds that is used in both directions:
    [l] is what lies inside the bounds.  A client seeks inside the bounds and
    steps only from an entry. *)
Class CursorLaws (cmp : bytes -> bytes -> Z) (lo up : option bytes) {S : Type} (o : iterOps S)
    (R : S -> list entry -> Z -> Prop) : Prop := {
  cur_seekGE : forall s l p k, R s l p -> (forall b, lo = Some b -> 0 <= cmp k b) ->
    exists s', itSeekGE o k s = Ok (s', lookupZ l (list_seek cmp k l)) /\ R s' l (list_seek cmp k l);
  cur_seekLT : forall s l p k, R s l p -> (forall b, up = Some b -> cmp k b <= 0) ->
    exists s', itSeekLT o k s = Ok (s', lookupZ l (list_seek cmp k l - 1)) /\ R s' l (list_seek cmp k l - 1);
  cur_first : forall s l p, R s l p -> lo = None ->
    exists s', itFirst o s = Ok (s', lookupZ l 0) /\ R s' l 0;
  cur_last : forall s l p, R s l p -> up = None ->
    exists s', itLast o s = Ok (s', lookupZ l (len l - 1)) /\ R s' l (len l - 1);
  cur_next : forall s l p, R s l p -> 0 <= p < len l ->
    exists s', itNext o s = Ok (s', lookupZ l (p + 1)) /\ R s' l (p + 1);
  cur_prev : forall s l p, R s l p -> 0 <= p < len l ->
    exists s', itPrev o s = Ok (s', lookupZ l (p - 1)) /\ R s' l (p - 1);
  cur_error : forall s l p, R s l p -> itError o s = None
}.

Lemma list_seek_range cmp k l : 0 <= list_seek cmp k l <= len l.
Proof.
  induction l as [|e l IH]; cbn [list_seek]; [done|]. rewrite len_cons. pose proof (len_nonneg l).
  destruct (cmp (InternalKey.UserKey e.1) k <? 0); lia.
Qed.

Lemma list_at_in l p : -1 <= p <= len l -> list_at l p = Ok ((l, p), lookupZ l p).
Proof. intros Hp. unfold list_at. by replace (Z.max (-1) (Z.min p (len l))) with p by lia. Qed.

#[export] Instance listOps_cursor cmp lo up :
  CursorLaws cmp lo up (listOps cmp) (fun s l p => s = (l, p)).
Proof.
  split; intros s l p.
  - intros k -> _. eexists. cbn. pose proof (list_seek_range cmp k l). by rewrite list_at_in by lia.
  - intros k -> _. eexists. cbn. pose proof (list_seek_range cmp k l). by rewrite list_at_in by lia.
  - intros -> _. eexists. cbn. pose proof (len_nonneg l). by rewrite list_at_in by lia.
  - intros -> _. eexists. cbn. pose proof (len_nonneg l). by rewrite list_at_in by lia.
  - intros -> Hp. eexists. cbn. by rewrite list_at_in by lia.
  - intros -> Hp. eexists. cbn. by rewrite list_at_in by lia.
  - done.
Qed.

(** A cursor without bounds also scans forward. *)
Lemma cursor_forward cmp {S : Type} (o : iterOps S) R : CursorLaws cmp None None o R -> ForwardLaws o R.
Proof.
  intros H. split.
  - intros s l p HR. by apply (cur_first (CursorLaws := H) s l p).
  - intros s l p HR Hp. by apply (cur_next (CursorLaws := H)).
  - intros s l p HR. by apply (cur_error (CursorLaws := H) s l p).
Qed.

(** ** The order of a scan *)

Definition entry_lt (cmp : bytes -> bytes -> Z) (a b : entry) : Prop :=
  InternalKey.InternalCompare cmp (fst a) (fst b) < 0.

Definition entry_le (cmp : bytes -> bytes -> Z) (a b : entry) : Prop :=
  InternalKey.InternalCompare cmp (fst a) (fst b) <= 0.

Lemma lookupZ_cons {A} (x : A) l i : 0 < i -> lookupZ (x :: l) i = lookupZ l (i - 1).
Proof.
  intros Hi. unfold lookupZ. destruct (Z.ltb_spec i 0), (Z.ltb_spec (i - 1) 0); try lia.
  replace (Z.to_nat i) with (Datatypes.S (Z.to_nat (i - 1))) by lia. done.
Qed.

Lemma list_seek_before cmp k l i e :
  lookupZ l i = Some e -> i < list_seek cmp k l -> cmp (InternalKey.UserKey e.1) k < 0.
Proof.
  revert i. induction l as [|x l IH]; intros i Hi Hlt; [by rewrite lookupZ_nil in Hi|].
  cbn [list_seek] in Hlt. pose proof (lookupZ_is_Some _ _ _ Hi).
  destruct (Z.ltb_spec (cmp (InternalKey.UserKey x.1) k) 0) as [|]; [|lia].
  destruct (Z.eq_dec i 0) as [->|]; [by injection Hi as <-|].
  rewrite lookupZ_cons in Hi by lia. apply (IH (i - 1)); [done|lia].
Qed.

(** On an ordered list everything from the position found on is at or past the
    key. *)
Lemma list_seek_after cmp `{!Comparator cmp} k l i e :
  StronglySorted (entry_lt cmp) l ->
  lookupZ l i = Some e -> list_seek cmp k l <= i -> 0 <= cmp (InternalKey.UserKey e.1) k.
Proof.
  intros Hs. revert i. induction Hs as [|x l Hs IH Hx]; intros i Hi Hge; [by rewrite lookupZ_nil in Hi|].
  cbn [list_seek] in Hge. pose proof (lookupZ_is_Some _ _ _ Hi). pose proof (list_seek_range cmp k l).
  destruct (Z.ltb_spec (cmp (InternalKey.UserKey x.1) k) 0) as [|Hxk].
  - rewrite lookupZ_cons in Hi by lia. apply (IH (i - 1)); [done|lia].
  - destruct (Z.eq_dec i 0) as [->|]; [by injection Hi as <-|].
    rewrite lookupZ_cons in Hi by lia. pose proof (Forall_lookupZ _ _ _ _ Hx Hi) as Hlt.
    apply InternalKey.InternalCompare_lt in Hlt; [|done].
    destruct (Z.le_gt_cases 0 (cmp (InternalKey.UserKey e.1) k)) as [|Hek]; [done|exfalso].
    enough (cmp (InternalKey.UserKey x.1) k < 0) by lia.
    destruct Hlt as [Hlt|[-> _]]; [by eapply (cmp_trans (cmp := cmp))|done].
Qed.
