(* ===== verification/MergingIter.v ===== *)
(** The merging iterator (merging_iter.go; internal/iterator/merging_iter.go
    is the same code for the sequential store's flush).

    The levels are iterators of the interface of [Iter]; the heap of [Heap]
    holds the current entry of each level that has one. *)

From Stdlib Require Import ZArith Lia.
From stdpp Require Import base numbers option sorting list.
From S2P Require Import Prelude Base Iter Heap.

Record mergingIterLevel : Type := mkLevel { lv_iter : Iter; lv_kv : option entry }.

Record mergingIterItem : Type := mkItem { mi_index : nat; mi_key : InternalKey; mi_value : bytes }.

(** [heap_items] and [heap_reverse] are the fields of [m.heap]. *)
Record mergingIter : Type := mkMerging {
  dir : Z;
  levels : list mergingIterLevel;
  heap_items : list mergingIterItem;
  heap_reverse : bool;
  err : option error;
  prefix : option bytes;
  lower : option bytes;
  upper : option bytes
}.

(** [utils.FirstError] *)
Definition FirstError (err0 err1 : option error) : option error :=
  match err0 with Some e => Some e | None => err1 end.

Definition with_levels (m : mergingIter) (ls : list mergingIterLevel) : mergingIter :=
  mkMerging (dir m) ls (heap_items m) (heap_reverse m) (err m) (prefix m) (lower m) (upper m).
Definition with_items (m : mergingIter) (h : list mergingIterItem) : mergingIter :=
  mkMerging (dir m) (levels m) h (heap_reverse m) (err m) (prefix m) (lower m) (upper m).
Definition with_err (m : mergingIter) (e : option error) : mergingIter :=
  mkMerging (dir m) (levels m) (heap_items m) (heap_reverse m) e (prefix m) (lower m) (upper m).
Definition with_prefix (m : mergingIter) (p : option bytes) : mergingIter :=
  mkMerging (dir m) (levels m) (heap_items m) (heap_reverse m) (err m) p (lower m) (upper m).
Definition with_dir (m : mergingIter) (d : Z) (rev : bool) : mergingIter :=
  mkMerging d (levels m) (heap_items m) rev (err m) (prefix m) (lower m) (upper m).

Section MergingIter.
Context (cmp : bytes -> bytes -> Z).

(** [newMergingIter] and [init]: no entry is loaded yet; the bounds come from
    the options. *)
Definition merging_init (lo up : option bytes) (iters : list Iter) : mergingIter :=
  mkMerging 0 ((fun i => mkLevel i None) <$> iters) [] false None None lo up.

(** [mergingIterHeap.less] on two items. *)
Definition item_less (reverse : bool) (a b : mergingIterItem) : bool :=
  let c := cmp (InternalKey.UserKey (mi_key a)) (InternalKey.UserKey (mi_key b)) in
  if negb (c =? 0) then (if reverse then 0 <? c else c <? 0)
  else if reverse then InternalKey.Trailer (mi_key a) <? InternalKey.Trailer (mi_key b)
  else InternalKey.Trailer (mi_key b) <? InternalKey.Trailer (mi_key a).

(** The loop of [initHeap]: an exhausted level reports its error, and the
    first error ends the loop before the heap is built. *)
Fixpoint initHeap_loop (i : nat) (ls : list mergingIterLevel) (h : list mergingIterItem)
    (e : option error) : list mergingIterItem * option error * bool :=
  match ls with
  | [] => (h, e, true)
  | l :: ls' =>
      match lv_kv l with
      | Some (k, v) => initHeap_loop (S i) ls' (h ++ [mkItem i k v]) e
      | None =>
          match FirstError e (Error (lv_iter l)) with
          | Some e' => (h, Some e', false)
          | None => initHeap_loop (S i) ls' h None
          end
      end
  end.

Definition initHeap (m : mergingIter) : mergingIter :=
  let '(h, e, built) := initHeap_loop 0 (levels m) [] (err m) in
  let h' := if built then heap_init (item_less (heap_reverse m)) h else h in
  with_err (with_items m h') e.

Definition initMinHeap (m : mergingIter) : mergingIter := initHeap (with_dir m 1 false).
Definition initMaxHeap (m : mergingIter) : mergingIter := initHeap (with_dir m (-1) true).

(** [findNextEntry] and [findPrevEntry]: the root, unless there was an error. *)
Definition findEntry (m : mergingIter) : option entry :=
  match heap_items m, err m with
  | it :: _, None => Some (mi_key it, mi_value it)
  | _, _ => None
  end.

(** Position every level with [f]. *)
Fixpoint map_levels (f : Iter -> outcome (Iter * option entry)) (ls : list mergingIterLevel)
    : outcome (list mergingIterLevel) :=
  match ls with
  | [] => Ok []
  | l :: ls' =>
      let! (i', kv) := f (lv_iter l) in
      let! rest := map_levels f ls' in
      Ok (mkLevel i' kv :: rest)
  end.

Definition seekGE (m : mergingIter) (key : bytes) (trySeekUsingNext : bool) : outcome mergingIter :=
  let! ls := map_levels (fun i => match prefix m with
                                  | Some p => SeekPrefixGE p key trySeekUsingNext i
                                  | None => SeekGE key i
                                  end) (levels m) in
  Ok (initMinHeap (with_levels m ls)).

Definition mSeekGE (m : mergingIter) (key : bytes) : outcome (mergingIter * option entry) :=
  let! m := seekGE (with_prefix (with_err m None) None) key false in
  Ok (m, findEntry m).

Definition mSeekPrefixGE (m : mergingIter) (pfx key : bytes) (trySeekUsingNext : bool)
    : outcome (mergingIter * option entry) :=
  let! m := seekGE (with_prefix (with_err m None) (Some pfx)) key trySeekUsingNext in
  Ok (m, findEntry m).

Definition seekLT (m : mergingIter) (key : bytes) : outcome mergingIter :=
  let! ls := map_levels (SeekLT key) (levels m) in
  Ok (initMaxHeap (with_levels (with_prefix m None) ls)).

Definition mSeekLT (m : mergingIter) (key : bytes) : outcome (mergingIter * option entry) :=
  let! m := seekLT (with_prefix (with_err m None) None) key in
  Ok (m, findEntry m).

Definition mFirst (m : mergingIter) : outcome (mergingIter * option entry) :=
  let m := with_items (with_prefix (with_err m None) None) [] in
  let! ls := map_levels First (levels m) in
  let m := initMinHeap (with_levels m ls) in
  Ok (m, findEntry m).

Definition mLast (m : mergingIter) : outcome (mergingIter * option entry) :=
  let m := with_prefix (with_err m None) None in
  let! ls := map_levels Last (levels m) in
  let m := initMaxHeap (with_levels m ls) in
  Ok (m, findEntry m).

(** Move a level past [key] in one direction: [step] until [stop]. *)
Fixpoint advance (fuel : nat) (step : Iter -> outcome (Iter * option entry))
    (stop : entry -> bool) (l : mergingIterLevel) : outcome mergingIterLevel :=
  match lv_kv l with
  | None => Ok l
  | Some e =>
      if stop e then Ok l
      else match fuel with
           | O => Err ErrModelFuel
           | S fuel' => let! (i', kv) := step (lv_iter l) in advance fuel' step stop (mkLevel i' kv)
           end
  end.

(** The loop over the levels other than [cur] when the direction changes:
    an exhausted level is re-positioned by [restart], then advanced. *)
Fixpoint switch_levels (fuel : nat) (restart step : Iter -> outcome (Iter * option entry))
    (stop : entry -> bool) (i cur : nat) (ls : list mergingIterLevel)
    : outcome (list mergingIterLevel) :=
  match ls with
  | [] => Ok []
  | l :: ls' =>
      let! l' :=
        (if (i =? cur)%nat then Ok l
         else
           let! l0 := (match lv_kv l with
                       | None => let! (i', kv) := restart (lv_iter l) in Ok (mkLevel i' kv)
                       | Some _ => Ok l
                       end) in
           advance fuel step stop l0) in
      let! rest := switch_levels fuel restart step stop (S i) cur ls' in
      Ok (l' :: rest)
  end.

(** Step the level [cur] itself. *)
Definition step_level (step : Iter -> outcome (Iter * option entry)) (cur : nat)
    (ls : list mergingIterLevel) : outcome (list mergingIterLevel) :=
  match ls !! cur with
  | None => Panic
  | Some l => let! (i', kv) := step (lv_iter l) in Ok (<[cur := mkLevel i' kv]> ls)
  end.

Definition switchToMinHeap (fuel : nat) (m : mergingIter) : outcome mergingIter :=
  match heap_items m with
  | [] =>
      let! (m', _) := (match lower m with Some lo => mSeekGE m lo | None => mFirst m end) in Ok m'
  | it :: _ =>
      let restart := match lower m with Some lo => SeekGE lo | None => First end in
      let stop := fun e : entry => InternalKey.InternalCompare cmp (mi_key it) (fst e) <? 0 in
      let! ls := switch_levels fuel restart Next stop 0 (mi_index it) (levels m) in
      let! ls := step_level Next (mi_index it) ls in
      Ok (initMinHeap (with_levels m ls))
  end.

Definition switchToMaxHeap (fuel : nat) (m : mergingIter) : outcome mergingIter :=
  match heap_items m with
  | [] =>
      let! (m', _) := (match upper m with Some up => mSeekLT m up | None => mLast m end) in Ok m'
  | it :: _ =>
      let restart := match upper m with Some up => SeekLT up | None => Last end in
      let stop := fun e : entry => 0 <? InternalKey.InternalCompare cmp (mi_key it) (fst e) in
      let! ls := switch_levels fuel restart Prev stop 0 (mi_index it) (levels m) in
      let! ls := step_level Prev (mi_index it) ls in
      Ok (initMaxHeap (with_levels m ls))
  end.

(** [nextEntry] ([prevEntry]) on the root [it]: step its level; the new entry
    replaces the root and sinks, an exhausted level leaves the heap. *)
Definition stepEntry (step : Iter -> outcome (Iter * option entry)) (m : mergingIter)
    (it : mergingIterItem) (rest : list mergingIterItem) : outcome mergingIter :=
  match levels m !! mi_index it with
  | None => Panic
  | Some l =>
      let! (i', kv) := step (lv_iter l) in
      let m := with_levels m (<[mi_index it := mkLevel i' kv]> (levels m)) in
      let less := item_less (heap_reverse m) in
      match kv with
      | Some (k, v) =>
          let h := mkItem (mi_index it) k v :: rest in
          Ok (with_items m (if (1 <? length h)%nat then fix_ less h 0 else h))
      | None =>
          match Error i' with
          | Some e => Ok (with_err m (Some e))
          | None => Ok (with_items (with_err m None) (snd (pop less (it :: rest))))
          end
      end
  end.

Definition nextEntry := stepEntry Next.
Definition prevEntry := stepEntry Prev.

Definition mNext (fuel : nat) (m : mergingIter) : outcome (mergingIter * option entry) :=
  match err m with
  | Some _ => Ok (m, None)
  | None =>
      if negb (dir m =? 1)
      then let! m := switchToMinHeap fuel m in Ok (m, findEntry m)
      else
        match heap_items m with
        | [] => Ok (m, None)
        | it :: rest => let! m := nextEntry m it rest in Ok (m, findEntry m)
        end
  end.

Definition mPrev (fuel : nat) (m : mergingIter) : outcome (mergingIter * option entry) :=
  match err m with
  | Some _ => Ok (m, None)
  | None =>
      if negb (dir m =? -1)
      then
        match prefix m with
        | Some _ => Ok (with_err m (Some ErrReversePrefix), None)
        | None => let! m := switchToMaxHeap fuel m in Ok (m, findEntry m)
        end
      else
        match heap_items m with
        | [] => Ok (m, None)
        | it :: rest => let! m := prevEntry m it rest in Ok (m, findEntry m)
        end
  end.

Definition mError (m : mergingIter) : option error :=
  match heap_items m, err m with
  | it :: _, None =>
      match levels m !! mi_index it with Some l => Error (lv_iter l) | None => None end
  | _, e => e
  end.

Definition mSetBounds (lo up : option bytes) (m : mergingIter) : mergingIter :=
  mkMerging (dir m) ((fun l => mkLevel (SetBounds lo up (lv_iter l)) (lv_kv l)) <$> levels m) []
    (heap_reverse m) (err m) None lo up.

(** The merging iterator as an iterator. *)
Definition mergingOps (fuel : nat) : iterOps mergingIter := {|
  itSeekGE k m := mSeekGE m k;
  itSeekPrefixGE p k t m := mSeekPrefixGE m p k t;
  itSeekLT k m := mSeekLT m k;
  itFirst := mFirst;
  itLast := mLast;
  itNext := mNext fuel;
  itPrev := mPrev fuel;
  itError := mError;
  itSetBounds := mSetBounds
|}.

(** ** The forward merge *)

Context `{!Comparator cmp}.

(** On the min-heap, [less] is the internal-key order. *)
Lemma item_less_min a b :
  item_less false a b = (InternalKey.InternalCompare cmp (mi_key a) (mi_key b) <? 0).
Proof.
  unfold item_less, InternalKey.InternalCompare.
  destruct (cmp (InternalKey.UserKey (mi_key a)) (InternalKey.UserKey (mi_key b)) =? 0); cbn; [|done].
  bdestruct_all; (done || lia).
Qed.

Lemma item_less_irrefl a : item_less false a a = false.
Proof. rewrite item_less_min, InternalKey.InternalCompare_refl; done. Qed.

Lemma item_less_asym a b : item_less false a b = true -> item_less false b a = false.
Proof.
  rewrite !item_less_min, Z.ltb_lt, Z.ltb_ge.
  pose proof (InternalKey.InternalCompare_gt cmp (mi_key b) (mi_key a)). lia.
Qed.

Lemma entry_le_trans a b c : entry_le cmp a b -> entry_le cmp b c -> entry_le cmp a c.
Proof. unfold entry_le. by apply InternalKey.InternalCompare_le_trans. Qed.

Lemma entry_le_refl a : entry_le cmp a a.
Proof. unfold entry_le. rewrite InternalKey.InternalCompare_refl; [lia|done]. Qed.

Lemma not_less_le a b : item_less false b a = false <->
  entry_le cmp (mi_key a, mi_value a) (mi_key b, mi_value b).
Proof.
  rewrite item_less_min, Z.ltb_ge. unfold entry_le; cbn.
  pose proof (InternalKey.InternalCompare_gt cmp (mi_key a) (mi_key b)).
  pose proof (InternalKey.InternalCompare_gt cmp (mi_key b) (mi_key a)). lia.
Qed.

Lemma item_less_trans a b c :
  item_less false b a = false -> item_less false c b = false -> item_less false c a = false.
Proof. rewrite !not_less_le. apply entry_le_trans. Qed.

Lemma entry_lt_le_trans a b c : entry_lt cmp a b -> entry_le cmp b c -> entry_lt cmp a c.
Proof. unfold entry_lt, entry_le. by apply InternalKey.InternalCompare_lt_le_trans. Qed.

Lemma entry_lt_irrefl a : ~ entry_lt cmp a a.
Proof. unfold entry_lt. rewrite InternalKey.InternalCompare_refl; [lia|done]. Qed.

(** Each level as the list it walks and its position. *)
Abbreviation cursors := (list (list entry * Z)).

Definition level_at (lv : mergingIterLevel) (c : list entry * Z) : Prop :=
  walks (lv_iter lv) c.1 c.2 /\ 0 <= c.2 /\ lv_kv lv = lookupZ c.1 c.2.

(** The heap items of a state: the current entry of each level. *)
Fixpoint items_of (i : nat) (cs : cursors) : list mergingIterItem :=
  match cs with
  | [] => []
  | c :: cs' =>
      match lookupZ c.1 c.2 with
      | Some e => mkItem i e.1 e.2 :: items_of (S i) cs'
      | None => items_of (S i) cs'
      end
  end.

(** The entries not yet returned. *)
Definition remaining (cs : cursors) : list entry :=
  mjoin ((fun c : list entry * Z => drop (Z.to_nat c.2) c.1) <$> cs).

Lemma items_of_app i cs cs' : items_of i (cs ++ cs') = items_of i cs ++ items_of (i + length cs) cs'.
Proof.
  revert i. induction cs as [|c cs IH]; intros i; cbn [items_of app length].
  - by rewrite Nat.add_0_r.
  - rewrite IH. replace (S i + length cs)%nat with (i + S (length cs))%nat by lia.
    by destruct (lookupZ c.1 c.2).
Qed.

Lemma remaining_app cs cs' : remaining (cs ++ cs') = remaining cs ++ remaining cs'.
Proof. unfold remaining. by rewrite fmap_app, join_app. Qed.

Lemma remaining_cons l q cs : remaining ((l, q) :: cs) = drop (Z.to_nat q) l ++ remaining cs.
Proof. done. Qed.

(** An item of the heap comes from a level standing on its entry. *)
Lemma items_of_elem i cs it :
  it ∈ items_of i cs ->
  exists pre c post, cs = pre ++ c :: post /\ mi_index it = (i + length pre)%nat /\
    lookupZ c.1 c.2 = Some (mi_key it, mi_value it).
Proof.
  revert i. induction cs as [|c cs IH]; intros i; cbn [items_of]; [by intros ?%elem_of_nil|].
  assert (Hrec : it ∈ items_of (S i) cs -> exists pre c' post, c :: cs = pre ++ c' :: post /\
    mi_index it = (i + length pre)%nat /\ lookupZ c'.1 c'.2 = Some (mi_key it, mi_value it)).
  { intros (pre & c' & post & -> & Hi & Hl)%IH. exists (c :: pre), c', post.
    cbn [length app]. split; [done|]. split; [lia|done]. }
  destruct (lookupZ c.1 c.2) as [[k v]|] eqn:E; [|done].
  intros [->|?]%elem_of_cons; [|by apply Hrec]. exists [], c, cs. cbn.
  split; [done|]. split; [lia|done].
Qed.

Definition sorted_entries (l : list entry) : Prop := StronglySorted (entry_lt cmp) l.

Lemma sorted_drop n l : sorted_entries l -> sorted_entries (drop n l).
Proof.
  intros H. revert n. induction H as [|x l Hs IH Hx]; intros [|n]; cbn [drop]; try constructor; auto.
Qed.

(** The root of the heap is a least remaining entry. *)
Lemma root_least i cs it rest e :
  Forall (fun c => sorted_entries c.1 /\ 0 <= c.2) cs ->
  it :: rest ≡ₚ items_of i cs -> heap (item_less false) (it :: rest) ->
  e ∈ remaining cs -> entry_le cmp (mi_key it, mi_value it) e.
Proof.
  intros Hs Hp Hh He.
  assert (Hcur : exists it', it' ∈ items_of i cs /\ entry_le cmp (mi_key it', mi_value it') e).
  { clear Hp Hh. revert i. induction Hs as [|[l q] cs [Hl Hq] Hs IH]; intros i.
    { by apply elem_of_nil in He. }
    rewrite remaining_cons in He. cbn [items_of fst snd] in *.
    apply elem_of_app in He as [He|He].
    - destruct (lookupZ l q) as [x|] eqn:E; [|rewrite drop_lookupZ_None in He by done; by apply elem_of_nil in He].
      exists (mkItem i x.1 x.2). split; [left|]. cbn. rewrite <-surjective_pairing.
      pose proof (sorted_drop (Z.to_nat q) l Hl) as Hd. rewrite (drop_lookupZ _ _ _ E) in Hd, He.
      apply elem_of_cons in He as [->|He].
      + apply entry_le_refl.
      + apply StronglySorted_inv in Hd as [_ Hd]. rewrite Forall_forall in Hd.
        specialize (Hd e He). unfold entry_lt, entry_le in *. lia.
    - destruct (IH He (S i)) as (it' & Hit & Hle). exists it'. split; [|done].
      destruct (lookupZ l q); [by right|done]. }
  destruct Hcur as (it' & Hin & Hle). eapply entry_le_trans; [|exact Hle].
  rewrite <-Hp in Hin. apply elem_of_cons in Hin as [->|Hin].
  - apply not_less_le, item_less_irrefl.
  - apply not_less_le. pose proof (heap_min (item_less false) item_less_irrefl item_less_trans it rest Hh) as Hm.
    rewrite Forall_forall in Hm. by apply Hm.
Qed.

(** A state of a forward scan over [out], [p] entries in. *)
Definition positioned (m : mergingIter) (cs : cursors) (out : list entry) (p : Z) : Prop :=
  0 <= p /\ dir m = 1 /\ heap_reverse m = false /\ err m = None /\
  Forall2 level_at (levels m) cs /\
  heap (item_less false) (heap_items m) /\ heap_items m ≡ₚ items_of 0 cs /\
  drop (Z.to_nat p) out ≡ₚ remaining cs.

(** The merging iterator walks [out]: its levels walk sorted lists whose
    entries are those of [out], and it is either fresh or positioned. *)
Definition merges (m : mergingIter) (out : list entry) (p : Z) : Prop :=
  sorted_entries out /\
  exists cs : cursors,
    Forall (fun c => sorted_entries c.1) cs /\ out ≡ₚ mjoin (fst <$> cs) /\
    Forall2 (fun lv c => walks (lv_iter lv) c.1 c.2) (levels m) cs /\
    ((p = -1 /\ err m = None) \/ positioned m cs out p).

Lemma map_levels_first lvs cs :
  Forall2 (fun lv c => walks (lv_iter lv) c.1 c.2) lvs cs ->
  exists lvs', map_levels First lvs = Ok lvs' /\
    Forall2 level_at lvs' ((fun c : list entry * Z => (c.1, 0)) <$> cs).
Proof.
  induction 1 as [|lv c lvs cs Hw Hws IH]; [by exists []|].
  destruct (walks_first _ _ _ Hw) as (i' & E & Hw'). destruct IH as (lvs' & E' & HF).
  eexists. cbn [map_levels]. rewrite E. cbn [rbind]. rewrite E'. cbn [rbind].
  split; [done|]. cbn. constructor; [|done]. split; [done|]. by split; [|].
Qed.

Lemma initHeap_loop_ok i lvs cs h :
  Forall2 level_at lvs cs -> initHeap_loop i lvs h None = (h ++ items_of i cs, None, true).
Proof.
  intros HF. revert i h. induction HF as [|lv c lvs cs (Hw & Hq & Hkv) HF IH]; intros i h;
    cbn [initHeap_loop items_of]; [by rewrite app_nil_r|].
  rewrite Hkv. destruct (lookupZ c.1 c.2) as [[k v]|].
  - rewrite IH. by rewrite <-app_assoc.
  - rewrite (walks_error _ _ _ Hw). cbn [FirstError]. apply IH.
Qed.

Lemma initMinHeap_ok m cs out p :
  err m = None -> Forall2 level_at (levels m) cs -> 0 <= p ->
  drop (Z.to_nat p) out ≡ₚ remaining cs -> positioned (initMinHeap m) cs out p.
Proof.
  intros He HF Hp Hd. unfold initMinHeap, initHeap. cbn [levels with_dir err]. rewrite He.
  rewrite (initHeap_loop_ok 0 _ _ [] HF). cbn.
  destruct (heap_init_spec (item_less false) item_less_irrefl item_less_trans item_less_asym (items_of 0 cs))
    as [H1 H2].
  by repeat split.
Qed.

Lemma items_of_nil i cs : Forall (fun c => 0 <= c.2) cs -> items_of i cs = [] -> remaining cs = [].
Proof.
  intros Hq. revert i. induction Hq as [|[l q] cs Hq Hqs IH]; intros i; [done|]. cbn [items_of fst snd].
  destruct (lookupZ l q) eqn:E; [done|]. intros Hn. rewrite remaining_cons, drop_lookupZ_None by done.
  by eapply IH.
Qed.

(** Two entries with the same key in a sorted list are the same entry. *)
Lemma sorted_key_unique out a b :
  sorted_entries out -> a ∈ out -> b ∈ out -> a.1 = b.1 -> a = b.
Proof.
  induction 1 as [|x out Hs IH Hx]; [by intros ?%elem_of_nil|].
  rewrite Forall_forall in Hx. intros [->|Ha]%elem_of_cons [->|Hb]%elem_of_cons Hk; [done| | |by apply IH].
  - exfalso. specialize (Hx b Hb). unfold entry_lt in Hx. rewrite Hk in Hx.
    rewrite InternalKey.InternalCompare_refl in Hx; [lia|done].
  - exfalso. specialize (Hx a Ha). unfold entry_lt in Hx. rewrite Hk in Hx.
    rewrite InternalKey.InternalCompare_refl in Hx; [lia|done].
Qed.

(** A least entry of a permutation of a sorted list is its head. *)
Lemma sorted_head_least out rem e :
  sorted_entries out -> out ≡ₚ rem -> e ∈ rem -> (forall x, x ∈ rem -> entry_le cmp e x) ->
  exists out', out = e :: out'.
Proof.
  intros Hs Hp He Hmin. destruct out as [|x out].
  { apply Permutation_nil_l in Hp. subst. by apply elem_of_nil in He. }
  exists out. f_equal. pose proof Hs as [Hs' Hx]%StronglySorted_inv. rewrite Forall_forall in Hx.
  assert (Hex : entry_le cmp e x) by (apply Hmin; rewrite <-Hp; left).
  rewrite <-Hp in He. apply elem_of_cons in He as [->|He]; [done|].
  exfalso. apply (entry_lt_irrefl x). eapply entry_lt_le_trans; [by apply Hx|done].
Qed.

Lemma levels_cursors lvs cs :
  Forall2 level_at lvs cs -> Forall (fun c => sorted_entries c.1) cs ->
  Forall (fun c => sorted_entries c.1 /\ 0 <= c.2) cs.
Proof. induction 1 as [|lv c lvs cs (_ & Hq & _) HF IH]; intros Hs; inversion Hs; constructor; auto. Qed.

(** The root stands on the next entry of the output. *)
Lemma positioned_entry m cs out p :
  sorted_entries out -> Forall (fun c => sorted_entries c.1) cs -> positioned m cs out p ->
  findEntry m = lookupZ out p.
Proof.
  intros Hs Hcs (Hp & _ & _ & He & HF & Hh & Hi & Hd). unfold findEntry. rewrite He.
  pose proof (levels_cursors _ _ HF Hcs) as Hcs'.
  destruct (heap_items m) as [|it rest] eqn:Eh.
  - apply Permutation_nil_l in Hi. rewrite (items_of_nil 0 cs) in Hd;
      [|by eapply Forall_impl; [exact Hcs'|]; intros c []|done].
    destruct (lookupZ out p) as [x|] eqn:E; [|done].
    rewrite (drop_lookupZ _ _ _ E) in Hd. by apply Permutation_nil_r in Hd.
  - destruct (items_of_elem 0 cs it) as (pre & [l q] & post & -> & Hidx & Hl);
      [rewrite <-Hi; left|]. cbn [fst snd] in Hl.
    destruct (sorted_head_least (drop (Z.to_nat p) out) (remaining (pre ++ (l, q) :: post))
      (mi_key it, mi_value it)) as [out' Hout].
    + by apply sorted_drop.
    + done.
    + rewrite remaining_app, remaining_cons, (drop_lookupZ _ _ _ Hl).
      apply elem_of_app. right. left.
    + intros x Hx. eapply root_least; [exact Hcs'|exact Hi|exact Hh|exact Hx].
    + unfold lookupZ. destruct (Z.ltb_spec p 0); [lia|].
      rewrite <-(Nat.add_0_r (Z.to_nat p)), <-lookup_drop, Hout. done.
Qed.

Lemma Forall2_insert_mid {A B} (P : A -> B -> Prop) lvs pre c post lv c' :
  Forall2 P lvs (pre ++ c :: post) -> P lv c' ->
  Forall2 P (<[length pre := lv]> lvs) (pre ++ c' :: post).
Proof.
  intros (l1 & l2 & H1 & H2 & ->)%Forall2_app_inv_r HP.
  inversion H2 as [|x y l2' cs' Hx Hl2]; subst.
  pose proof (Forall2_length _ _ _ H1) as Hlen. rewrite <-Hlen.
  rewrite <-(Nat.add_0_r (length l1)), insert_app_r. cbn.
  apply Forall2_app; [done|]. by constructor.
Qed.

(** The output moves by one when the root's level does. *)
Lemma remaining_step pre l q post e out p :
  lookupZ l q = Some e -> 0 <= p -> sorted_entries out ->
  lookupZ out p = Some e ->
  drop (Z.to_nat p) out ≡ₚ remaining (pre ++ (l, q) :: post) ->
  drop (Z.to_nat (p + 1)) out ≡ₚ remaining (pre ++ (l, q + 1) :: post).
Proof.
  intros Hl Hp Hs Ho Hd. rewrite (drop_lookupZ _ _ _ Ho) in Hd.
  rewrite remaining_app, remaining_cons, (drop_lookupZ _ _ _ Hl) in Hd.
  rewrite remaining_app, remaining_cons. apply (Permutation.Permutation_cons_inv (a := e)).
  rewrite Hd. cbn [app]. symmetry. apply Permutation_middle.
Qed.

Lemma replace_root it it' rest :
  heap (item_less false) (it :: rest) ->
  let h := if (1 <? length (it' :: rest))%nat then fix_ (item_less false) (it' :: rest) 0
           else it' :: rest in
  heap (item_less false) h /\ h ≡ₚ it' :: rest.
Proof.
  intros Hh h. unfold h. destruct (Nat.ltb_spec 1 (length (it' :: rest))).
  - by eapply fix_root_spec; eauto using item_less_irrefl, item_less_trans, item_less_asym.
  - split; [|done]. destruct rest; [|cbn in *; lia].
    intros i c x y _ Hc Hec. cbn in Hc. unfold edge in Hec. lia.
Qed.

(** [nextEntry] on a positioned state. *)
Lemma nextEntry_ok m it rest cs out p :
  sorted_entries out -> Forall (fun c => sorted_entries c.1) cs ->
  positioned m cs out p -> heap_items m = it :: rest ->
  exists m' cs', nextEntry m it rest = Ok m' /\ fst <$> cs' = fst <$> cs /\ positioned m' cs' out (p + 1).
Proof.
  intros Hs Hcs Hpos Eh. pose proof (positioned_entry m cs out p Hs Hcs Hpos) as Hent.
  destruct Hpos as (Hp & Hdir & Hrev & He & HF & Hh & Hi & Hd). rewrite Eh in Hi, Hh.
  unfold findEntry in Hent. rewrite Eh, He in Hent. symmetry in Hent.
  destruct (items_of_elem 0 cs it) as (pre & [l q] & post & -> & Hidx & Hl); [rewrite <-Hi; left|].
  cbn [fst snd] in Hl. cbn [Nat.add] in Hidx.
  assert (Hlv : exists lv, levels m !! mi_index it = Some lv /\ level_at lv (l, q)).
  { destruct (Forall2_lookup_r _ _ _ (mi_index it) (l, q) HF) as (lv & ? & ?); [|eauto].
    rewrite Hidx. by apply list_lookup_middle. }
  destruct Hlv as (lv & Elv & Hw & Hq & _). cbn [fst snd] in Hw, Hq.
  unfold nextEntry, stepEntry. rewrite Elv.
  destruct (walks_next _ l q Hw (lookupZ_is_Some _ _ _ Hl)) as (i' & -> & Hw'). cbn [rbind].
  cbn [heap_reverse with_levels]. rewrite Hrev.
  set (lv' := mkLevel i' (lookupZ l (q + 1))).
  assert (HF' : Forall2 level_at (<[mi_index it := lv']> (levels m)) (pre ++ (l, q + 1) :: post)).
  { rewrite Hidx. eapply Forall2_insert_mid; [exact HF|]. repeat split; cbn; (done || lia). }
  pose proof (remaining_step pre l q post _ out p Hl Hp Hs Hent Hd) as Hd'.
  rewrite items_of_app in Hi. cbn [items_of fst snd] in Hi. rewrite Hl in Hi. cbn [fst snd] in Hi.
  assert (Hit : mkItem (0 + length pre) (mi_key it) (mi_value it) = it)
    by (destruct it; cbn in *; by rewrite Hidx).
  rewrite Hit, <-Permutation_middle in Hi. apply Permutation.Permutation_cons_inv in Hi.
  destruct (lookupZ l (q + 1)) as [[k v]|] eqn:El.
  - eexists _, (pre ++ (l, q + 1) :: post). split; [reflexivity|].
    split; [by rewrite !fmap_app|].
    destruct (replace_root it (mkItem (mi_index it) k v) rest Hh) as [Hh' Hp'].
    set (h' := if (1 <? length _)%nat then _ else _) in *. clearbody h'.
    repeat split; cbn; try done; [lia|].
    rewrite Hp', items_of_app. cbn [items_of fst snd]. rewrite El. cbn [fst snd].
    rewrite <-Permutation_middle, <-Hi, Hidx. done.
  - rewrite (walks_error _ _ _ Hw').
    destruct (pop_spec (item_less false) item_less_irrefl item_less_trans item_less_asym it rest Hh)
      as (_ & Hh' & Hp' & _).
    eexists _, (pre ++ (l, q + 1) :: post). split; [done|].
    split; [by rewrite !fmap_app|]. repeat split; cbn; try done; [lia|].
    rewrite Hp', Hi, items_of_app. cbn [items_of fst snd]. by rewrite El.
Qed.

Lemma level_at_walks lvs cs :
  Forall2 level_at lvs cs -> Forall2 (fun lv c => walks (lv_iter lv) c.1 c.2) lvs cs.
Proof. intros H. eapply Forall2_impl; [exact H|]. by intros lv c []. Qed.

Lemma heap_items_nonempty m cs out p :
  Forall (fun c => sorted_entries c.1) cs -> sorted_entries out -> positioned m cs out p ->
  0 <= p < len out -> exists it rest, heap_items m = it :: rest.
Proof.
  intros Hcs Hs Hpos Hr. pose proof (positioned_entry _ _ _ _ Hs Hcs Hpos) as He.
  destruct (lookupZ_Some out p Hr) as [e Ee]. rewrite Ee in He. unfold findEntry in He.
  destruct (heap_items m) as [|it rest]; [done|]. eauto.
Qed.

(** The merging iterator meets the contract it relies on. *)
#[export] Instance mergingOps_laws fuel : ForwardLaws (mergingOps fuel) merges.
Proof.
  split.
  - intros m out p (Hs & cs & Hcs & Hout & HF & _).
    destruct (map_levels_first _ _ HF) as (lvs' & E & HF').
    cbn [mergingOps itFirst]. unfold mFirst. cbn [levels with_items with_prefix with_err]. rewrite E. cbn [rbind].
    set (cs' := (fun c : list entry * Z => (c.1, 0)) <$> cs) in *.
    assert (Hfst : fst <$> cs' = fst <$> cs) by (unfold cs'; by rewrite <-list_fmap_compose).
    assert (Hcs' : Forall (fun c => sorted_entries c.1) cs') by (by apply Forall_fmap).
    match goal with |- context [initMinHeap ?m0] => set (m0' := m0) end.
    assert (Hpos : positioned (initMinHeap m0') cs' out 0).
    { apply initMinHeap_ok; [done|done|lia|]. rewrite drop_0. unfold remaining, cs'.
      rewrite <-list_fmap_compose. unfold compose. cbn. by rewrite Hout. }
    eexists. split; [by rewrite (positioned_entry _ cs' out 0 Hs Hcs' Hpos)|].
    split; [done|]. exists cs'. split; [done|]. split; [by rewrite Hfst|].
    split; [|by right]. apply level_at_walks. by destruct Hpos as (_ & _ & _ & _ & ? & _).
  - intros m out p (Hs & cs & Hcs & Hout & HF & [[-> _]|Hpos]) Hr; [lia|].
    destruct (heap_items_nonempty m cs out p Hcs Hs Hpos Hr) as (it & rest & Eh).
    destruct (nextEntry_ok m it rest cs out p Hs Hcs Hpos Eh) as (m' & cs' & E & Hfst & Hpos').
    cbn [mergingOps itNext]. unfold mNext. pose proof Hpos as (_ & Hdir & _ & He & _).
    rewrite He, Hdir, Eh. cbn [negb Z.eqb Pos.eqb]. rewrite E. cbn [rbind].
    assert (Hcs' : Forall (fun c => sorted_entries c.1) cs').
    { apply Forall_fmap with (f := fst) (P := sorted_entries). rewrite Hfst. by apply Forall_fmap. }
    eexists. split; [by rewrite (positioned_entry _ cs' out (p + 1) Hs Hcs' Hpos')|].
    split; [done|]. exists cs'. split; [done|]. split; [by rewrite Hfst|].
    split; [|by right]. apply level_at_walks. by destruct Hpos' as (_ & _ & _ & _ & ? & _).
  - intros m out p (Hs & cs & Hcs & Hout & HF & Hst). cbn [mergingOps itError]. unfold mError.
    assert (He : err m = None) by (destruct Hst as [[]|(_ & _ & _ & ? & _)]; done).
    rewrite He. destruct (heap_items m) as [|it rest]; [done|].
    destruct (levels m !! mi_index it) as [lv|] eqn:E; [|done].
    destruct (Forall2_lookup_l _ _ _ _ _ HF E) as (c & _ & Hw). by eapply walks_error.
Qed.

(** Two strictly sorted lists of the same entries are equal. *)
Lemma sorted_entries_unique l l' : sorted_entries l -> sorted_entries l' -> l' ≡ₚ l -> l = l'.
Proof.
  intros Hs. revert l'. induction Hs as [|x l Hs IH Hx]; intros l' Hs' Hp.
  - by apply Permutation_nil_r in Hp.
  - destruct Hs' as [|y l' Hs' Hy]; [by apply Permutation_nil_cons in Hp|].
    rewrite Forall_forall in Hx, Hy.
    assert (x = y) as <-.
    { destruct (decide (x = y)) as [|Hne]; [done|exfalso].
      assert (y ∈ l) as Hyl.
      { assert (Hin : y ∈ x :: l) by (rewrite <-Hp; left). apply elem_of_cons in Hin as [?|?]; [congruence|done]. }
      assert (x ∈ l') as Hxl.
      { assert (Hin : x ∈ y :: l') by (rewrite Hp; left). apply elem_of_cons in Hin as [?|?]; [congruence|done]. }
      specialize (Hx y Hyl). specialize (Hy x Hxl). unfold entry_lt in *.
      pose proof (InternalKey.InternalCompare_trans cmp _ _ _ Hx Hy) as Hxx.
      rewrite InternalKey.InternalCompare_refl in Hxx by done. lia. }
    f_equal. apply IH; [done|]. by apply Permutation.Permutation_cons_inv in Hp.
Qed.

Lemma merging_init_merges lo up iters (ls : list (list entry)) out :
  Forall2 (fun i l => walks i l (-1)) iters ls ->
  Forall sorted_entries ls -> sorted_entries out -> out ≡ₚ mjoin ls ->
  merges (merging_init lo up iters) out (-1).
Proof.
  intros HF Hls Hs Hout. split; [done|]. exists ((fun l => (l, -1)) <$> ls).
  split; [by apply Forall_fmap|]. split; [by rewrite <-list_fmap_compose, list_fmap_id|].
  split; [|by left]. cbn. by apply Forall2_fmap_2.
Qed.

(** C10: merging sorted levels yields, by a forward scan, one sorted list
    holding exactly the entries of the levels: nothing is lost, duplicated or
    out of order, whatever implements the levels. *)
Theorem merging_scan lo up iters (ls : list (list entry)) out fuel :
  Forall2 (fun i l => walks i l (-1)) iters ls ->
  Forall sorted_entries ls -> sorted_entries out -> out ≡ₚ mjoin ls ->
  (length out <= fuel)%nat ->
  scan (mergingOps fuel) fuel (merging_init lo up iters) = Ok out.
Proof.
  intros HF Hls Hs Hout Hf.
  eapply scan_walks; [apply mergingOps_laws|by eapply merging_init_merges|done].
Qed.

End MergingIter.

(** Two levels with interleaved keys and one version of a key in each. *)
Definition demo_level1 : list entry :=
  [(InternalKey.MakeInternalKey [1] 9 1, [10]); (InternalKey.MakeInternalKey [3] 8 0, [])].
Definition demo_level2 : list entry :=
  [(InternalKey.MakeInternalKey [2] 1 1, [20]); (InternalKey.MakeInternalKey [3] 1 1, [30])].
Definition demo_merged : list entry :=
  [(InternalKey.MakeInternalKey [1] 9 1, [10]); (InternalKey.MakeInternalKey [2] 1 1, [20]);
   (InternalKey.MakeInternalKey [3] 8 0, []); (InternalKey.MakeInternalKey [3] 1 1, [30])].

Ltac solve_sorted := repeat constructor; by vm_compute.

Lemma merging_scan_witness :
  scan (mergingOps bytes_compare 4) 4
    (merging_init None None [listIter bytes_compare demo_level1; listIter bytes_compare demo_level2])
  = Ok demo_merged.
Proof.
  apply (merging_scan bytes_compare None None
    [listIter bytes_compare demo_level1; listIter bytes_compare demo_level2]
    [demo_level1; demo_level2] demo_merged 4).
  - repeat constructor; apply listIter_walks.
  - constructor; [solve_sorted|]. constructor; [solve_sorted|constructor].
  - solve_sorted.
  - cbn. apply Permutation_skip, Permutation_swap.
  - cbn. lia.
Defined.
