(* ===== verification/CompactionIter.v ===== *)
(** The compaction iterator (compaction_iter.go): the pass over a merged scan
    that keeps the newest entry of each user key when memtables are flushed.

    The source scan is any iterator of the interface of [Iter]. *)

From Stdlib Require Import ZArith Lia.
From stdpp Require Import base numbers option sorting list.
From S2P Require Import Prelude Base Iter.

(** [iterPos]: the two positions this iterator uses. *)
Inductive iterPos : Type := iterPosCurForward | iterPosNext.

Inductive stripeChangeType : Type := newStripe | sameStripeSkippable | sameStripeNonSkippable.

Record compactionIter (S : Type) : Type := mkCompaction {
  ci_iter : S;
  ci_err : option error;
  ci_key : InternalKey;
  ci_value : bytes;
  ci_valid : bool;
  ci_iterKV : option entry;
  ci_skip : bool;
  ci_pos : iterPos;
  ci_first : bool
}.
Arguments mkCompaction {S}. Arguments ci_iter {S}. Arguments ci_err {S}. Arguments ci_key {S}.
Arguments ci_value {S}. Arguments ci_valid {S}. Arguments ci_iterKV {S}. Arguments ci_skip {S}.
Arguments ci_pos {S}. Arguments ci_first {S}.

Section CompactionIter.
Context (cmp : bytes -> bytes -> Z) {S : Type} (o : iterOps S).

Abbreviation ci := (compactionIter S).

(** The literal [&compactionIter{cmp: .., iter: ..}] with Go's zero values. *)
Definition newCompactionIter (s : S) : ci :=
  mkCompaction s None (InternalKey.mk [] 0) [] false None false iterPosCurForward false.

Definition set_skip (c : ci) (b : bool) : ci :=
  mkCompaction (ci_iter c) (ci_err c) (ci_key c) (ci_value c) (ci_valid c) (ci_iterKV c) b
    (ci_pos c) (ci_first c).

Definition iterNext (c : ci) : outcome ci :=
  let! (s', kv) := itNext o (ci_iter c) in
  Ok (mkCompaction s' (ci_err c) (ci_key c) (ci_value c) (ci_valid c) kv (ci_skip c)
        (ci_pos c) (ci_first c)).

Definition nextInStripe (c : ci) : outcome (ci * stripeChangeType) :=
  let! c := iterNext c in
  match ci_iterKV c with
  | None => Ok (c, newStripe)
  | Some (k, _) =>
      if negb (cmp (InternalKey.UserKey (ci_key c)) (InternalKey.UserKey k) =? 0) then Ok (c, newStripe)
      else if InternalKey.KindOf k =? InternalKey.KindInvalid then Ok (c, sameStripeNonSkippable)
      else Ok (c, sameStripeSkippable)
  end.

(** The loop of [skipInStripe]. *)
Fixpoint skip_loop (fuel : nat) (c : ci) : outcome (ci * stripeChangeType) :=
  match fuel with
  | O => Err ErrModelFuel
  | Datatypes.S fuel' =>
      let! (c', change) := nextInStripe c in
      match change with
      | sameStripeSkippable => skip_loop fuel' c'
      | _ => Ok (c', change)
      end
  end.

Definition skipInStripe (fuel : nat) (c : ci) : outcome ci :=
  let! (c', change) := skip_loop fuel (set_skip c true) in
  match change with
  | newStripe => Ok (set_skip c' false)
  | _ => Ok c'
  end.

(** [saveKey] and the return of an entry. *)
Definition emit (c : ci) (k : InternalKey) (v : bytes) : ci :=
  mkCompaction (ci_iter c) (ci_err c) k v true (ci_iterKV c) true iterPosCurForward (ci_first c).

Definition cNext (fuel : nat) (c : ci) : outcome (ci * option entry) :=
  match ci_err c with
  | Some _ => Ok (c, None)
  | None =>
      let! c := (match ci_pos c with
                 | iterPosCurForward =>
                     if ci_skip c then skipInStripe fuel c
                     else let! (c', _) := nextInStripe c in Ok c'
                 | iterPosNext => Ok c
                 end) in
      let c := mkCompaction (ci_iter c) (ci_err c) (ci_key c) (ci_value c) false (ci_iterKV c)
                 (ci_skip c) iterPosCurForward (ci_first c) in
      match ci_iterKV c with
      | None => Ok (c, None)
      | Some (k, v) =>
          let kind := InternalKey.KindOf k in
          if (kind =? InternalKey.KindSet) || (kind =? InternalKey.KindDelete)
             || (kind =? InternalKey.KindPrefixDelete)
          then Ok (emit c k v, Some (k, v))
          else Ok (mkCompaction (ci_iter c) (Some ErrInvalidKind) (ci_key c) (ci_value c) false
                     (ci_iterKV c) (ci_skip c) iterPosCurForward (ci_first c), None)
      end
  end.

Definition cFirst (fuel : nat) (c : ci) : outcome (ci * option entry) :=
  match ci_err c with
  | Some _ =>
      Ok (mkCompaction (ci_iter c) (ci_err c) (ci_key c) (ci_value c) (ci_valid c) (ci_iterKV c)
            (ci_skip c) (ci_pos c) true, None)
  | None =>
      let! (s', kv) := itFirst o (ci_iter c) in
      cNext fuel (mkCompaction s' (ci_err c) (ci_key c) (ci_value c) (ci_valid c) kv (ci_skip c)
                    iterPosNext true)
  end.

(** ** What the pass keeps *)

Definition same_key (k : bytes) (e : entry) : bool := cmp k (InternalKey.UserKey e.1) =? 0.

(** The first entry of each run of a user key; [last] is the key whose run is
    being skipped. *)
Fixpoint newest_from (last : option bytes) (l : list entry) : list entry :=
  match l with
  | [] => []
  | e :: l' =>
      if match last with Some k => same_key k e | None => false end
      then newest_from last l'
      else e :: newest_from (Some (InternalKey.UserKey e.1)) l'
  end.

Definition newest (l : list entry) : list entry := newest_from None l.

(** The kinds the pass accepts. *)
Definition flushable_kind (e : entry) : Prop :=
  InternalKey.KindOf e.1 = InternalKey.KindSet \/ InternalKey.KindOf e.1 = InternalKey.KindDelete \/
  InternalKey.KindOf e.1 = InternalKey.KindPrefixDelete.

Context (R : S -> list entry -> Z -> Prop) `{!ForwardLaws o R}.

(** The iterator stands on entry [p] of the source scan and has just returned
    it. *)
Definition stands (c : ci) (l : list entry) (p : Z) : Prop :=
  R (ci_iter c) l p /\ 0 <= p /\ ci_err c = None /\ ci_iterKV c = lookupZ l p /\
  ci_pos c = iterPosCurForward.

Lemma flushable_kind_test e :
  flushable_kind e ->
  (InternalKey.KindOf e.1 =? InternalKey.KindSet) || (InternalKey.KindOf e.1 =? InternalKey.KindDelete)
  || (InternalKey.KindOf e.1 =? InternalKey.KindPrefixDelete) = true /\
  InternalKey.KindOf e.1 <> InternalKey.KindInvalid.
Proof. intros [-> |[-> | ->]]; split; done. Qed.

(** One step inside the scan. *)
Lemma nextInStripe_ok c l p :
  stands c l p -> 0 <= p < len l -> Forall flushable_kind l ->
  exists c' change, nextInStripe c = Ok (c', change) /\ stands c' l (p + 1) /\
    ci_key c' = ci_key c /\ ci_skip c' = ci_skip c /\
    change = match lookupZ l (p + 1) with
             | Some e => if same_key (InternalKey.UserKey (ci_key c)) e then sameStripeSkippable else newStripe
             | None => newStripe
             end.
Proof.
  intros (HR & Hp & He & Hkv & Hpos) Hr Hk. unfold nextInStripe, iterNext.
  destruct (fwd_next _ _ _ HR Hr) as (s' & -> & HR'). cbn [rbind ci_iterKV ci_key].
  destruct (lookupZ l (p + 1)) as [[k v]|] eqn:E.
  - pose proof (Forall_lookupZ _ _ _ _ Hk E) as Hf.
    apply flushable_kind_test in Hf as [_ Hinv]. cbn [fst] in Hinv.
    unfold same_key. cbn [fst].
    destruct (cmp (InternalKey.UserKey (ci_key c)) (InternalKey.UserKey k) =? 0); cbn [negb].
    + destruct (Z.eqb_spec (InternalKey.KindOf k) InternalKey.KindInvalid); [done|].
      eexists _, _. split; [reflexivity|]. repeat split; cbn; (done || lia).
    + eexists _, _. split; [reflexivity|]. repeat split; cbn; (done || lia).
  - eexists _, _. split; [reflexivity|]. repeat split; cbn; (done || lia).
Qed.

(** Skipping a run: it ends on the first entry with another user key. *)
Lemma skip_loop_ok fuel c l p :
  stands c l p -> 0 <= p < len l -> Forall flushable_kind l ->
  (length (drop (Z.to_nat (p + 1)) l) < fuel)%nat ->
  exists c' q, skip_loop fuel c = Ok (c', newStripe) /\ stands c' l q /\ p < q /\
    newest_from (Some (InternalKey.UserKey (ci_key c))) (drop (Z.to_nat (p + 1)) l)
    = match lookupZ l q with
      | Some e => e :: newest_from (Some (InternalKey.UserKey e.1)) (drop (Z.to_nat (q + 1)) l)
      | None => []
      end.
Proof.
  revert c p. induction fuel as [|fuel IH]; intros c p Hst Hr Hk Hf; [lia|]. cbn [skip_loop].
  destruct (nextInStripe_ok c l p Hst Hr Hk) as (c' & change & -> & Hst' & Hkey & Hskip & ->). cbn [rbind].
  destruct (lookupZ l (p + 1)) as [e|] eqn:E.
  - rewrite (drop_lookupZ _ _ _ E) in Hf |- *. cbn [newest_from].
    destruct (same_key (InternalKey.UserKey (ci_key c)) e) eqn:Es.
    + destruct (IH c' (p + 1) Hst' (lookupZ_is_Some _ _ _ E) Hk) as (c'' & q & Hl & Hq & Hpq & Hn);
        [cbn [length] in Hf; lia|].
      exists c'', q. split; [done|]. split; [done|]. split; [lia|]. rewrite Hkey in Hn. exact Hn.
    + exists c', (p + 1). split; [done|]. split; [done|]. split; [lia|]. by rewrite E.
  - rewrite (drop_lookupZ_None l (p + 1)) by (done || lia).
    exists c', (p + 1). split; [done|]. split; [done|]. split; [lia|]. by rewrite E.
Qed.

(** The tail of [Next] on a positioned iterator returns the entry it stands
    on. *)
Lemma emit_stands c l p e :
  stands c l p -> lookupZ l p = Some e -> stands (emit c e.1 e.2) l p.
Proof. intros (HR & Hp & He & Hkv & _) E. repeat split; cbn; try done. Qed.

(** A step from an entry that was returned: to the next entry of another key. *)
Lemma cNext_stands k c l p e :
  Forall flushable_kind l -> (length l < k)%nat -> stands c l p -> lookupZ l p = Some e -> ci_skip c = true -> ci_key c = e.1 ->
  exists c' q, cNext k c = Ok (c', lookupZ l q) /\ stands c' l q /\ p < q /\
    newest_from (Some (InternalKey.UserKey e.1)) (drop (Z.to_nat (p + 1)) l)
    = match lookupZ l q with
      | Some e => e :: newest_from (Some (InternalKey.UserKey e.1)) (drop (Z.to_nat (q + 1)) l)
      | None => []
      end /\
    (forall e', lookupZ l q = Some e' -> ci_skip c' = true /\ ci_key c' = e'.1).
Proof.
  intros Hk Hkf Hst E Hs Hkey. pose proof (lookupZ_is_Some _ _ _ E) as Hr.
  pose proof Hst as (HR & Hp & He & Hkv & Hpos). unfold cNext. rewrite He, Hpos, Hs. unfold skipInStripe.
  destruct (skip_loop_ok k (set_skip c true) l p) as (c' & q & -> & Hst' & Hpq & Hn); [done|done|done| |].
  { rewrite length_drop. lia. }
  cbn [ci_key set_skip] in Hn. rewrite Hkey in Hn. rewrite Hn. cbn [rbind].
  destruct Hst' as (HR' & Hq & He' & Hkv' & Hpos'). cbn [ci_iterKV set_skip]. rewrite Hkv'.
  destruct (lookupZ l q) as [[k' v']|] eqn:Eq.
  - pose proof (Forall_lookupZ _ _ _ _ Hk Eq) as Hfk.
    apply flushable_kind_test in Hfk as [Hfk _]. cbn [fst] in Hfk. rewrite Hfk.
    eexists _, q. rewrite Eq. split; [done|]. split; [repeat split; cbn; (done || lia)|]. split; [done|]. split; [done|]. by intros ? [= <-].
  - eexists _, q. rewrite Eq. split; [done|]. split; [repeat split; cbn; (done || lia)|]. done.
Qed.

(** The first entry, if there is one. *)
Lemma cFirst_stands k s l p :
  R s l p -> Forall flushable_kind l ->
  exists c, cFirst k (newCompactionIter s) = Ok (c, lookupZ l 0) /\ stands c l 0 /\
    newest l = match lookupZ l 0 with Some e => e :: newest_from (Some (InternalKey.UserKey e.1)) (drop 1 l) | None => [] end /\
    (forall e, lookupZ l 0 = Some e -> ci_skip c = true /\ ci_key c = e.1).
Proof.
  intros HR Hk. unfold cFirst, newest. cbn [ci_err newCompactionIter ci_iter].
  destruct (fwd_first _ _ _ HR) as (s' & -> & HR'). cbn [rbind]. unfold cNext. cbn [ci_err ci_pos ci_iterKV rbind].
  destruct (lookupZ l 0) as [[k' v]|] eqn:E.
  - pose proof (Forall_lookupZ _ _ _ _ Hk E) as Hfk.
    apply flushable_kind_test in Hfk as [Hfk _]. cbn [fst] in Hfk. rewrite Hfk. eexists. split; [done|].
    split; [repeat split; cbn; done|]. split; [|by intros ? [= <-]]. rewrite lookupZ_0 in E. destruct l as [|x l]; [done|]. injection E as ->. done.
  - eexists. split; [done|]. split; [repeat split; cbn; done|]. split; [|done]. rewrite lookupZ_0 in E. by destruct l.
Qed.

Lemma drain_from_stands fuel k c l p e :
  Forall flushable_kind l -> (length l < k)%nat ->
  stands c l p -> lookupZ l p = Some e -> ci_skip c = true -> ci_key c = e.1 ->
  (length (drop (Z.to_nat p) l) <= fuel)%nat ->
  drain_from (cNext k) fuel c (Some e)
  = Ok (e :: newest_from (Some (InternalKey.UserKey e.1)) (drop (Z.to_nat (p + 1)) l)).
Proof.
  intros Hk Hkf. revert c p e. induction fuel as [|fuel IH]; intros c p e Hst E Hs Hkey Hf;
    rewrite (drop_lookupZ _ _ _ E) in Hf; cbn [length] in Hf; [lia|].
  cbn [drain_from]. destruct (cNext_stands k c l p e) as (c' & q & -> & Hst' & Hpq & -> & Hc'); try done. cbn [rbind].
  pose proof (lookupZ_is_Some _ _ _ E). destruct (lookupZ l q) as [e'|] eqn:Eq; [|by destruct fuel].
  destruct (Hc' e' eq_refl) as [H1 H2]. rewrite (IH c' q e'); try done. rewrite length_drop in *. lia.
Qed.

Lemma compaction_drain fuel s l p :
  R s l p -> Forall flushable_kind l -> (length l < fuel)%nat ->
  drain (cNext fuel) (cFirst fuel) fuel (newCompactionIter s) = Ok (newest l).
Proof.
  intros HR Hk Hf. unfold drain. destruct (cFirst_stands fuel s l p HR Hk) as (c & -> & Hst & -> & Hc). cbn [rbind].
  destruct (lookupZ l 0) as [e|] eqn:E; [|by destruct fuel]. destruct (Hc e eq_refl) as [H1 H2].
  apply (drain_from_stands fuel fuel c l 0 e); try done. rewrite drop_0. lia.
Qed.

(** Over a source scan whose entries are all sets or deletes, the
    compaction iterator terminates without an error and returns exactly the
    first entry of each run of a user key, which in the internal-key order is
    its newest version. *)
Theorem compaction_scan fuel s l p :
  R s l p -> Forall flushable_kind l -> (length l < fuel)%nat ->
  drain (cNext fuel) (cFirst fuel) fuel (newCompactionIter s) = Ok (newest l).
Proof. apply compaction_drain. Qed.

(** An entry of any other kind, such as a LogData record of a large batch,
    ends the scan where it stands: it and everything after it is missing from
    the output, although the caller's loop sees an ordinary end. *)
Theorem compaction_stops_at_foreign_kind fuel s e l p :
  R s (e :: l) p -> ~ flushable_kind e ->
  drain (cNext fuel) (cFirst fuel) fuel (newCompactionIter s) = Ok [].
Proof.
  intros HR Hk. unfold drain, cFirst. cbn [ci_err newCompactionIter ci_iter].
  destruct (fwd_first _ _ _ HR) as (s' & -> & HR'). cbn [rbind].
  unfold cNext at 1. rewrite lookupZ_0. cbn [ci_err ci_pos ci_iterKV rbind head].
  destruct e as [k v]. unfold flushable_kind in Hk. cbn [fst] in Hk.
  destruct (Z.eqb_spec (InternalKey.KindOf k) InternalKey.KindSet); [tauto|].
  destruct (Z.eqb_spec (InternalKey.KindOf k) InternalKey.KindDelete); [tauto|].
  destruct (Z.eqb_spec (InternalKey.KindOf k) InternalKey.KindPrefixDelete); [tauto|]. by destruct fuel.
Qed.

End CompactionIter.

(** Two versions of a key followed by a tombstone of another. *)
Definition demo_versions : list entry :=
  [(InternalKey.MakeInternalKey [1] 9 1, [10]); (InternalKey.MakeInternalKey [1] 8 1, [11]);
   (InternalKey.MakeInternalKey [3] 7 0, [])].

Lemma compaction_scan_witness :
  drain (cNext bytes_compare (listOps bytes_compare) 4) (cFirst bytes_compare (listOps bytes_compare) 4) 4
    (newCompactionIter (demo_versions, -1))
  = Ok [(InternalKey.MakeInternalKey [1] 9 1, [10]); (InternalKey.MakeInternalKey [3] 7 0, [])].
Proof.
  apply (compaction_scan bytes_compare (listOps bytes_compare)
    (fun s l p => s.1 = l /\ s.2 = p /\ -1 <= p <= len l) 4 (demo_versions, -1) demo_versions (-1)).
  - vm_compute. repeat split; discriminate.
  - repeat constructor; vm_compute; tauto.
  - cbn. lia.
Defined.

Lemma compaction_stops_at_foreign_kind_witness :
  drain (cNext bytes_compare (listOps bytes_compare) 4) (cFirst bytes_compare (listOps bytes_compare) 4) 4
    (newCompactionIter ((InternalKey.MakeInternalKey [0] 1 3, []) :: demo_versions, -1))
  = Ok [].
Proof.
  apply (compaction_stops_at_foreign_kind bytes_compare (listOps bytes_compare)
    (fun s l p => s.1 = l /\ s.2 = p /\ -1 <= p <= len l) 4 _
    (InternalKey.MakeInternalKey [0] 1 3, []) demo_versions (-1)).
  - vm_compute. repeat split; discriminate.
  - intros [H|[H|H]]; vm_compute in H; discriminate.
Defined.
