(* ===== verification/MergeCursor.v ===== *)
(** The merging iterator in both directions: over levels that are cursors it is
    a cursor over their merged entries.

    A direction is a boolean, [true] for backwards.  What lies ahead of position
    [q] of a list in a direction is [pend]; the state of a merge is that what
    lies ahead of the levels is, together, what lies ahead of the merged list.
    A change of direction moves every level by one entry. *)

From Stdlib Require Import ZArith Lia.
From stdpp Require Import base numbers option sorting list.
From S2P Require Import Prelude Base Heap Iter MergingIter.

Section MergeCursor.
Context (cmp : bytes -> bytes -> Z) `{!Comparator cmp} (lo up : option bytes).

(** A level that is a cursor over [l], at [p]. *)
Definition cursor (i : Iter) (l : list entry) (p : Z) : Prop :=
  exists R : itS i -> list entry -> Z -> Prop, CursorLaws cmp lo up (itOps i) R /\ R (itSt i) l p.

Definition step_of (d : bool) : Z := if d then -1 else 1.

Definition pend (d : bool) (q : Z) (l : list entry) : list entry :=
  if d then reverse (take (Z.to_nat (q + 1)) l) else drop (Z.to_nat q) l.

(** The positions a scan in a direction reaches. *)
Definition reach (d : bool) (q : Z) (l : list entry) : Prop := if d then -1 <= q < len l else 0 <= q <= len l.

Definition before (d : bool) (a b : entry) : Prop := if d then entry_lt cmp b a else entry_lt cmp a b.

Definition upto (d : bool) (a b : entry) : Prop := if d then entry_le cmp b a else entry_le cmp a b.

(** ** What lies ahead *)

Lemma take_succ_lookupZ (l : list entry) q e : lookupZ l q = Some e -> take (Z.to_nat (q + 1)) l = take (Z.to_nat q) l ++ [e].
Proof.
  intros E. pose proof (lookupZ_is_Some _ _ _ E) as Hr. replace (Z.to_nat (q + 1)) with (S (Z.to_nat q)) by lia.
  unfold lookupZ in E. destruct (Z.ltb_spec q 0); [lia|]. by apply take_S_r.
Qed.

Lemma pend_some d q l e : lookupZ l q = Some e -> pend d q l = e :: pend d (q + step_of d) l.
Proof.
  intros E. unfold pend, step_of. destruct d; [|by apply drop_lookupZ].
  rewrite (take_succ_lookupZ _ _ _ E), reverse_snoc. by replace (q + -1 + 1) with q by lia.
Qed.

Lemma pend_none d q l : reach d q l -> lookupZ l q = None -> pend d q l = [].
Proof.
  intros Hr E. assert (Hq : q < 0 \/ len l <= q).
  { destruct (decide (0 <= q < len l)) as [Hin|]; [|lia]. destruct (lookupZ_Some l q Hin) as [x Hx]. congruence. }
  unfold pend, reach in *. destruct d.
  - assert (q = -1) as -> by lia. done.
  - apply drop_ge. unfold len in *. lia.
Qed.

Lemma reach_step d q l e : lookupZ l q = Some e -> reach d (q + step_of d) l.
Proof. intros E. pose proof (lookupZ_is_Some _ _ _ E). unfold reach, step_of. destruct d; lia. Qed.

Lemma pend_sorted d q l : StronglySorted (entry_lt cmp) l -> StronglySorted (before d) (pend d q l).
Proof.
  intros Hs. unfold pend, before. destruct d; [|by apply (sorted_drop cmp)].
  assert (Ht : StronglySorted (entry_lt cmp) (take (Z.to_nat (q + 1)) l)).
  { rewrite <-(take_drop (Z.to_nat (q + 1)) l) in Hs. by apply StronglySorted_app_1_l in Hs. }
  revert Ht. generalize (take (Z.to_nat (q + 1)) l). clear. intros l. induction 1 as [|x l Hs IH Hx]; [constructor|].
  rewrite reverse_cons. apply StronglySorted_app_2; [|done|by repeat constructor].
  intros a b Ha Hb%list_elem_of_singleton. subst. rewrite Forall_forall in Hx. apply Hx. by rewrite elem_of_reverse in Ha.
Qed.

Lemma upto_trans d a b c : upto d a b -> upto d b c -> upto d a c.
Proof. unfold upto. destruct d; intros; by eapply entry_le_trans. Qed.

Lemma before_upto d a b : before d a b -> upto d a b.
Proof. unfold before, upto, entry_lt, entry_le. destruct d; lia. Qed.

Lemma before_not_upto d a b : before d a b -> upto d b a -> False.
Proof.
  unfold before, upto. intros H1 H2.
  destruct d; [apply (entry_lt_irrefl cmp b)|apply (entry_lt_irrefl cmp a)]; by eapply (entry_lt_le_trans cmp).
Qed.

(** ** The heap of a direction *)

Lemma item_less_dir d a b :
  item_less cmp d b a = false <-> upto d (mi_key a, mi_value a) (mi_key b, mi_value b).
Proof.
  unfold upto, entry_le. cbn [fst]. destruct d.
  - assert (item_less cmp true b a = (0 <? InternalKey.InternalCompare cmp (mi_key b) (mi_key a))) as ->.
    { unfold item_less, InternalKey.InternalCompare.
      destruct (cmp (InternalKey.UserKey (mi_key b)) (InternalKey.UserKey (mi_key a)) =? 0); cbn; [|done]. bdestruct_all; (done || lia). }
    rewrite Z.ltb_ge. lia.
  - rewrite (item_less_min cmp), Z.ltb_ge. pose proof (InternalKey.InternalCompare_gt cmp (mi_key a) (mi_key b)).
    pose proof (InternalKey.InternalCompare_gt cmp (mi_key b) (mi_key a)). lia.
Qed.

Lemma dless_irrefl d a : item_less cmp d a a = false.
Proof. apply item_less_dir. unfold upto. destruct d; apply (entry_le_refl cmp). Qed.

Lemma dless_trans d a b c : item_less cmp d b a = false -> item_less cmp d c b = false -> item_less cmp d c a = false.
Proof. rewrite !item_less_dir. apply upto_trans. Qed.

Lemma dless_asym d a b : item_less cmp d a b = true -> item_less cmp d b a = false.
Proof.
  intros H. destruct (item_less cmp d b a) eqn:E; [|done]. exfalso.
  assert (Hn : forall x y, item_less cmp d x y = true -> ~ upto d (mi_key y, mi_value y) (mi_key x, mi_value x)).
  { intros x y Hx Hy%item_less_dir. congruence. }
  apply Hn in H, E. unfold upto, entry_le in H, E. cbn in H, E.
  pose proof (InternalKey.InternalCompare_gt cmp (mi_key a) (mi_key b)). pose proof (InternalKey.InternalCompare_gt cmp (mi_key b) (mi_key a)).
  destruct d; lia.
Qed.

(** ** A positioned merge *)

Abbreviation cursors := (list (list entry * Z)).

Definition level_ok (d : bool) (lv : mergingIterLevel) (c : list entry * Z) : Prop :=
  cursor (lv_iter lv) c.1 c.2 /\ reach d c.2 c.1 /\ lv_kv lv = lookupZ c.1 c.2.

Definition ahead (d : bool) (cs : cursors) : list entry := mjoin ((fun c : list entry * Z => pend d c.2 c.1) <$> cs).

Lemma ahead_app d cs cs' : ahead d (cs ++ cs') = ahead d cs ++ ahead d cs'.
Proof. unfold ahead. by rewrite fmap_app, join_app. Qed.

Lemma ahead_cons d l q cs : ahead d ((l, q) :: cs) = pend d q l ++ ahead d cs.
Proof. done. Qed.

Record placed (d : bool) (m : mergingIter) (cs : cursors) (out : list entry) (p : Z) : Prop := mkPlaced {
  pl_reach : reach d p out;
  pl_dir : dir m = step_of d;
  pl_rev : heap_reverse m = d;
  pl_err : err m = None;
  pl_levels : Forall2 (level_ok d) (levels m) cs;
  pl_heap : heap (item_less cmp d) (heap_items m);
  pl_items : heap_items m ≡ₚ items_of 0 cs;
  pl_ahead : pend d p out ≡ₚ ahead d cs
}.

Lemma cursor_error i l p : cursor i l p -> Error i = None.
Proof. intros (R & HL & HR). by eapply cur_error. Qed.

(** The root is first of all that lies ahead. *)
Lemma root_first d i cs it rest e :
  Forall (fun c => sorted_entries cmp c.1 /\ reach d c.2 c.1) cs ->
  it :: rest ≡ₚ items_of i cs -> heap (item_less cmp d) (it :: rest) ->
  e ∈ ahead d cs -> upto d (mi_key it, mi_value it) e.
Proof.
  intros Hs Hp Hh He.
  assert (Hcur : exists it', it' ∈ items_of i cs /\ upto d (mi_key it', mi_value it') e).
  { clear Hp Hh. revert i. induction Hs as [|[l q] cs [Hl Hq] Hs IH]; intros i; [by apply elem_of_nil in He|].
    rewrite ahead_cons in He. cbn [items_of fst snd] in *. apply elem_of_app in He as [He|He].
    - destruct (lookupZ l q) as [x|] eqn:E; [|rewrite pend_none in He by done; by apply elem_of_nil in He].
      exists (mkItem i x.1 x.2). split; [left|]. cbn. rewrite <-surjective_pairing.
      pose proof (pend_sorted d q l Hl) as Hd. rewrite (pend_some _ _ _ _ E) in Hd, He.
      apply elem_of_cons in He as [->|He]; [unfold upto; destruct d; apply (entry_le_refl cmp)|].
      apply StronglySorted_inv in Hd as [_ Hd]. rewrite Forall_forall in Hd. by apply before_upto, Hd.
    - destruct (IH He (S i)) as (it' & Hit & Hle). exists it'. split; [|done]. destruct (lookupZ l q); [by right|done]. }
  destruct Hcur as (it' & Hin & Hle). eapply upto_trans; [|exact Hle].
  rewrite <-Hp in Hin. apply elem_of_cons in Hin as [->|Hin]; apply item_less_dir; [apply dless_irrefl|].
  pose proof (heap_min (item_less cmp d) (dless_irrefl d) (dless_trans d) it rest Hh) as Hm. rewrite Forall_forall in Hm. by apply Hm.
Qed.

Lemma first_is_head d out rem e :
  StronglySorted (before d) out -> out ≡ₚ rem -> e ∈ rem -> (forall x, x ∈ rem -> upto d e x) -> exists out', out = e :: out'.
Proof.
  intros Hs Hp He Hmin. destruct out as [|x out]; [apply Permutation_nil_l in Hp; subst; by apply elem_of_nil in He|].
  exists out. f_equal. pose proof Hs as [Hs' Hx]%StronglySorted_inv. rewrite Forall_forall in Hx.
  assert (Hex : upto d e x) by (apply Hmin; rewrite <-Hp; left). rewrite <-Hp in He. apply elem_of_cons in He as [->|He]; [done|].
  exfalso. by eapply before_not_upto; [apply Hx|].
Qed.

Lemma items_of_none d i cs : Forall (fun c => reach d c.2 c.1) cs -> items_of i cs = [] -> ahead d cs = [].
Proof.
  intros Hq. revert i. induction Hq as [|[l q] cs Hq Hqs IH]; intros i; [done|]. cbn [items_of fst snd].
  destruct (lookupZ l q) eqn:E; [done|]. intros Hn. rewrite ahead_cons, pend_none by done. by eapply IH.
Qed.

Lemma levels_reach d lvs cs :
  Forall2 (level_ok d) lvs cs -> Forall (fun c => sorted_entries cmp c.1) cs -> Forall (fun c => sorted_entries cmp c.1 /\ reach d c.2 c.1) cs.
Proof. induction 1 as [|lv c lvs cs (_ & Hq & _) HF IH]; intros Hs; inversion Hs; constructor; auto. Qed.

Lemma placed_entry d m cs out p :
  sorted_entries cmp out -> Forall (fun c => sorted_entries cmp c.1) cs -> placed d m cs out p -> findEntry m = lookupZ out p.
Proof.
  intros Hs Hcs [Hp _ _ He HF Hh Hi Hd]. unfold findEntry. rewrite He. pose proof (levels_reach _ _ _ HF Hcs) as Hcs'.
  destruct (heap_items m) as [|it rest] eqn:Eh.
  - apply Permutation_nil_l in Hi. rewrite (items_of_none d 0 cs) in Hd; [|by eapply Forall_impl; [exact Hcs'|]; intros c []|done].
    destruct (lookupZ out p) as [x|] eqn:E; [|done]. rewrite (pend_some _ _ _ _ E) in Hd. by apply Permutation_nil_r in Hd.
  - destruct (items_of_elem 0 cs it) as (pre & [l q] & post & -> & Hidx & Hl); [rewrite <-Hi; left|]. cbn [fst snd] in Hl.
    destruct (first_is_head d (pend d p out) (ahead d (pre ++ (l, q) :: post)) (mi_key it, mi_value it)) as [out' Hout].
    + by apply pend_sorted.
    + done.
    + rewrite ahead_app, ahead_cons, (pend_some _ _ _ _ Hl). apply elem_of_app. right. left.
    + intros x Hx. by eapply root_first.
    + destruct (lookupZ out p) as [x|] eqn:E; [by rewrite (pend_some _ _ _ _ E) in Hout; injection Hout as -> _|].
      by rewrite (pend_none d p out Hp E) in Hout.
Qed.

(** ** Moving *)

Definition move (d : bool) : Iter -> outcome (Iter * option entry) := if d then Prev else Next.

Lemma cursor_move d i l q e :
  cursor i l q -> lookupZ l q = Some e -> exists i', move d i = Ok (i', lookupZ l (q + step_of d)) /\ cursor i' l (q + step_of d).
Proof.
  intros (R & HL & HR) E%lookupZ_is_Some. unfold move, step_of. destruct d.
  - destruct (cur_prev _ _ _ HR E) as (s' & E' & HR'). eexists. unfold Prev, call. rewrite E'. cbn. split; [done|]. by exists R.
  - destruct (cur_next _ _ _ HR E) as (s' & E' & HR'). eexists. unfold Next, call. rewrite E'. cbn. split; [done|]. by exists R.
Qed.

Lemma ahead_step d pre l q post e out p :
  lookupZ l q = Some e -> lookupZ out p = Some e -> pend d p out ≡ₚ ahead d (pre ++ (l, q) :: post) ->
  pend d (p + step_of d) out ≡ₚ ahead d (pre ++ (l, q + step_of d) :: post).
Proof.
  intros Hl Ho Hd. rewrite (pend_some _ _ _ _ Ho) in Hd. rewrite ahead_app, ahead_cons, (pend_some _ _ _ _ Hl) in Hd.
  rewrite ahead_app, ahead_cons. apply (Permutation.Permutation_cons_inv (a := e)).
  rewrite Hd. cbn [app]. symmetry. apply Permutation_middle.
Qed.

Lemma replace_top d it it' rest :
  heap (item_less cmp d) (it :: rest) ->
  let h := if (1 <? length (it' :: rest))%nat then fix_ (item_less cmp d) (it' :: rest) 0 else it' :: rest in
  heap (item_less cmp d) h /\ h ≡ₚ it' :: rest.
Proof.
  intros Hh h. unfold h. destruct (Nat.ltb_spec 1 (length (it' :: rest))).
  - by eapply fix_root_spec; eauto using dless_irrefl, dless_trans, dless_asym.
  - split; [|done]. destruct rest; [|cbn in *; lia]. intros i c x y _ Hc Hec. cbn in Hc. unfold edge in Hec. lia.
Qed.

(** The root's level: where it is among the levels. *)
Lemma root_level d m cs out p it rest :
  sorted_entries cmp out -> Forall (fun c => sorted_entries cmp c.1) cs -> placed d m cs out p -> heap_items m = it :: rest ->
  exists pre l q post lv, cs = pre ++ (l, q) :: post /\ mi_index it = length pre /\ lookupZ l q = Some (mi_key it, mi_value it) /\
    lookupZ out p = Some (mi_key it, mi_value it) /\ levels m !! mi_index it = Some lv /\ level_ok d lv (l, q).
Proof.
  intros Hs Hcs Hpos Eh. pose proof (placed_entry d m cs out p Hs Hcs Hpos) as Hent. unfold findEntry in Hent.
  rewrite Eh, (pl_err _ _ _ _ _ Hpos) in Hent. pose proof (pl_items _ _ _ _ _ Hpos) as Hi. rewrite Eh in Hi.
  destruct (items_of_elem 0 cs it) as (pre & [l q] & post & -> & Hidx & Hl); [rewrite <-Hi; left|]. cbn [fst snd Nat.add] in Hl, Hidx.
  destruct (Forall2_lookup_r _ _ _ (mi_index it) (l, q) (pl_levels _ _ _ _ _ Hpos)) as (lv & Elv & Hlv); [rewrite Hidx; by apply list_lookup_middle|].
  by exists pre, l, q, post, lv.
Qed.

(** A step in the direction of the scan. *)
Lemma stepEntry_ok d m it rest cs out p :
  sorted_entries cmp out -> Forall (fun c => sorted_entries cmp c.1) cs -> placed d m cs out p -> heap_items m = it :: rest ->
  exists m' cs', stepEntry cmp (move d) m it rest = Ok m' /\ fst <$> cs' = fst <$> cs /\ placed d m' cs' out (p + step_of d) /\
    prefix m' = prefix m /\ lower m' = lower m /\ upper m' = upper m.
Proof.
  intros Hs Hcs Hpos Eh. destruct (root_level d m cs out p it rest Hs Hcs Hpos Eh) as (pre & l & q & post & lv & -> & Hidx & Hl & Ho & Elv & Hw & Hq & _).
  destruct Hpos as [Hp Hdir Hrev He HF Hh Hi Hd]. rewrite Eh in Hi, Hh. cbn [fst snd] in Hw, Hq.
  unfold stepEntry. rewrite Elv. destruct (cursor_move d _ l q _ Hw Hl) as (i' & -> & Hw'). cbn [rbind heap_reverse with_levels]. rewrite Hrev.
  set (lv' := mkLevel i' (lookupZ l (q + step_of d))).
  assert (HF' : Forall2 (level_ok d) (<[mi_index it := lv']> (levels m)) (pre ++ (l, q + step_of d) :: post)).
  { rewrite Hidx. eapply Forall2_insert_mid; [exact HF|]. split; [done|]. split; [by eapply reach_step|done]. }
  pose proof (ahead_step d pre l q post _ out p Hl Ho Hd) as Hd'. pose proof (reach_step d p out _ Ho) as Hp'.
  rewrite items_of_app in Hi. cbn [items_of fst snd] in Hi. rewrite Hl in Hi. cbn [fst snd] in Hi.
  assert (Hit : mkItem (0 + length pre) (mi_key it) (mi_value it) = it) by (destruct it; cbn in *; by rewrite Hidx).
  rewrite Hit, <-Permutation_middle in Hi. apply Permutation.Permutation_cons_inv in Hi.
  destruct (lookupZ l (q + step_of d)) as [[k v]|] eqn:El.
  - eexists _, (pre ++ (l, q + step_of d) :: post). split; [reflexivity|]. split; [by rewrite !fmap_app|]. split; [|done].
    destruct (replace_top d it (mkItem (mi_index it) k v) rest Hh) as [Hh' Hpm].
    set (h' := if (1 <? length _)%nat then _ else _) in *. clearbody h'. split; cbn; try done.
    rewrite Hpm, items_of_app. cbn [items_of fst snd]. rewrite El. cbn [fst snd]. rewrite <-Permutation_middle, <-Hi, Hidx. done.
  - rewrite (cursor_error _ _ _ Hw'). destruct (pop_spec (item_less cmp d) (dless_irrefl d) (dless_trans d) (dless_asym d) it rest Hh) as (_ & Hh' & Hpm & _).
    eexists _, (pre ++ (l, q + step_of d) :: post). split; [done|]. split; [by rewrite !fmap_app|]. split; [|done].
    split; cbn; try done. rewrite Hpm, Hi, items_of_app. cbn [items_of fst snd]. by rewrite El.
Qed.

(** Building the heap. *)
Lemma initHeap_loop_levels d i lvs cs h : Forall2 (level_ok d) lvs cs -> initHeap_loop i lvs h None = (h ++ items_of i cs, None, true).
Proof.
  intros HF. revert i h. induction HF as [|lv c lvs cs (Hw & Hq & Hkv) HF IH]; intros i h; cbn [initHeap_loop items_of]; [by rewrite app_nil_r|].
  rewrite Hkv. destruct (lookupZ c.1 c.2) as [[k v]|]; [rewrite IH; by rewrite <-app_assoc|].
  rewrite (cursor_error _ _ _ Hw). cbn [FirstError]. apply IH.
Qed.

Lemma initHeap_placed d m cs out p :
  dir m = step_of d -> heap_reverse m = d -> err m = None -> Forall2 (level_ok d) (levels m) cs -> reach d p out ->
  pend d p out ≡ₚ ahead d cs ->
  placed d (initHeap cmp m) cs out p /\ prefix (initHeap cmp m) = prefix m /\ lower (initHeap cmp m) = lower m /\ upper (initHeap cmp m) = upper m.
Proof.
  intros Hdir Hrev He HF Hp Hd. unfold initHeap. rewrite He, (initHeap_loop_levels d 0 _ _ [] HF). cbn [app].
  destruct (heap_init_spec (item_less cmp d) (dless_irrefl d) (dless_trans d) (dless_asym d) (items_of 0 cs)) as [H1 H2].
  rewrite Hrev. split; [|done]. by split.
Qed.

(** ** Changing direction *)

Definition inside (e : entry) : Prop :=
  (forall b, lo = Some b -> 0 <= cmp (InternalKey.UserKey e.1) b) /\ (forall b, up = Some b -> cmp (InternalKey.UserKey e.1) b < 0).

Definition turn (d : bool) (cs : cursors) : cursors := (fun c : list entry * Z => (c.1, c.2 + step_of d)) <$> cs.

Lemma pend_split d q l : pend (negb d) q l ++ pend d (q + step_of d) l ≡ₚ l.
Proof.
  unfold pend, step_of. destruct d; cbn [negb].
  - replace (q + -1 + 1) with q by lia. rewrite reverse_Permutation, Permutation_app_comm. by rewrite take_drop.
  - rewrite reverse_Permutation. by rewrite take_drop.
Qed.

Lemma ahead_split d cs : ahead (negb d) cs ++ ahead d (turn d cs) ≡ₚ mjoin (fst <$> cs).
Proof.
  induction cs as [|[l q] cs IH]; [done|]. unfold turn. rewrite !fmap_cons. fold (turn d cs). rewrite !ahead_cons.
  transitivity ((pend (negb d) q l ++ pend d (q + step_of d) l) ++ (ahead (negb d) cs ++ ahead d (turn d cs))); [solve_Permutation|].
  rewrite pend_split, IH. done.
Qed.

Lemma ahead_turn d cs out p :
  out ≡ₚ mjoin (fst <$> cs) -> pend (negb d) p out ≡ₚ ahead (negb d) cs -> pend d (p + step_of d) out ≡ₚ ahead d (turn d cs).
Proof.
  intros Ho Hd. apply (Permutation_app_inv_l (pend (negb d) p out)). rewrite pend_split. rewrite Hd at 1. by rewrite ahead_split.
Qed.

(** Where a scan in a direction begins. *)
Definition home (d : bool) (l : list entry) : Z := if d then len l - 1 else 0.

Definition restart (d : bool) : Iter -> outcome (Iter * option entry) :=
  if d then match up with Some b => SeekLT b | None => Last end else match lo with Some b => SeekGE b | None => First end.

Lemma list_seek_none k l : Forall (fun e => 0 <= cmp (InternalKey.UserKey e.1) k) l -> list_seek cmp k l = 0.
Proof. destruct 1 as [|e l He _]; [done|]. cbn [list_seek]. by destruct (Z.ltb_spec (cmp (InternalKey.UserKey e.1) k) 0); [lia|]. Qed.

Lemma list_seek_below k l : Forall (fun e => cmp (InternalKey.UserKey e.1) k < 0) l -> list_seek cmp k l = len l.
Proof.
  induction 1 as [|e l He _ IH]; [done|]. cbn [list_seek]. rewrite len_cons.
  destruct (Z.ltb_spec (cmp (InternalKey.UserKey e.1) k) 0); lia.
Qed.

Lemma cursor_restart d i l q :
  cursor i l q -> Forall inside l -> exists i', restart d i = Ok (i', lookupZ l (home d l)) /\ cursor i' l (home d l).
Proof.
  intros (R & HL & HR) Hin.
  assert (Hl : lo = None \/ exists b, lo = Some b) by (destruct lo; eauto).
  assert (Hu : up = None \/ exists b, up = Some b) by (destruct up; eauto). unfold restart, home. destruct d.
  - destruct Hu as [Eu|[b Eu]]; rewrite Eu.
    + destruct (cur_last _ _ _ HR Eu) as (s' & E' & HR'). eexists. unfold Last, call. rewrite E'. cbn. split; [done|]. by exists R.
    + destruct (cur_seekLT _ _ _ b HR) as (s' & E' & HR'); [rewrite Eu; intros ? [= <-]; rewrite (cmp_refl cmp); lia|].
      rewrite list_seek_below in E', HR' by (eapply Forall_impl; [exact Hin|]; intros e [_ H]; by apply H).
      eexists. unfold SeekLT, call. rewrite E'. cbn. split; [done|]. by exists R.
  - destruct Hl as [El|[b El]]; rewrite El.
    + destruct (cur_first _ _ _ HR El) as (s' & E' & HR'). eexists. unfold First, call. rewrite E'. cbn. split; [done|]. by exists R.
    + destruct (cur_seekGE _ _ _ b HR) as (s' & E' & HR'); [rewrite El; intros ? [= <-]; rewrite (cmp_refl cmp); lia|].
      rewrite list_seek_none in E', HR' by (eapply Forall_impl; [exact Hin|]; intros e [H _]; by apply H).
      eexists. unfold SeekGE, call. rewrite E'. cbn. split; [done|]. by exists R.
Qed.

Definition stop (d : bool) (k : InternalKey) (e : entry) : bool :=
  if d then 0 <? InternalKey.InternalCompare cmp k (fst e) else InternalKey.InternalCompare cmp k (fst e) <? 0.

Lemma stop_spec d x e : stop d x.1 e = true <-> before d x e.
Proof.
  unfold stop, before, entry_lt. destruct d; rewrite Z.ltb_lt; [|done]. apply (InternalKey.InternalCompare_gt cmp).
Qed.

(** A level other than the root's moves by one entry. *)
Lemma turn_level d fuel x lv c :
  level_ok (negb d) lv c -> Forall inside c.1 ->
  (forall e, e ∈ pend (negb d) c.2 c.1 -> upto d e x) -> (forall e, e ∈ pend d (c.2 + step_of d) c.1 -> before d x e) ->
  exists lv', (let! l0 := (match lv_kv lv with
                           | None => let! (i', kv) := restart d (lv_iter lv) in Ok (mkLevel i' kv)
                           | Some _ => Ok lv
                           end) in
               advance (S fuel) (move d) (stop d x.1) l0) = Ok lv' /\ level_ok d lv' (c.1, c.2 + step_of d).
Proof.
  intros (Hw & Hr & Hkv) Hin Hb Ha. destruct c as [l q]. cbn [fst snd] in *. rewrite Hkv.
  assert (Hstop : forall lv', lv_kv lv' = lookupZ l (q + step_of d) -> advance fuel (move d) (stop d x.1) lv' = Ok lv' /\ advance (S fuel) (move d) (stop d x.1) lv' = Ok lv').
  { intros lv' E. assert (Hs : match lv_kv lv' with Some e => stop d x.1 e = true | None => True end).
    { rewrite E. destruct (lookupZ l (q + step_of d)) as [e|] eqn:El; [|done]. apply stop_spec, Ha. rewrite (pend_some _ _ _ _ El). left. }
    destruct fuel; cbn [advance]; destruct (lv_kv lv'); by rewrite ?Hs. }
  destruct (lookupZ l q) as [e|] eqn:E.
  - cbn [rbind advance]. rewrite Hkv. assert (stop d x.1 e = false) as ->.
    { destruct (stop d x.1 e) eqn:Es; [|done]. apply stop_spec in Es. exfalso. eapply before_not_upto; [exact Es|].
      apply Hb. rewrite (pend_some _ _ _ _ E). left. }
    destruct (cursor_move d _ l q e Hw E) as (i' & -> & Hw'). cbn [rbind]. exists (mkLevel i' (lookupZ l (q + step_of d))).
    split; [by apply Hstop|]. split; [done|]. split; [exact (reach_step d q l e E)|done].
  - assert (Hq : q + step_of d = home d l).
    { assert (q < 0 \/ len l <= q) by (destruct (decide (0 <= q < len l)) as [Hi|]; [destruct (lookupZ_Some l q Hi); congruence|lia]).
      unfold reach, step_of, home in *. destruct d; cbn [negb] in Hr; lia. }
    destruct (cursor_restart d _ l q Hw Hin) as (i' & -> & Hw'). cbn [rbind]. rewrite <-Hq in *. eexists. split; [by apply Hstop|].
    split; [done|]. split; [|done]. cbn [fst snd]. rewrite Hq. unfold reach, home. pose proof (len_nonneg l). destruct d; lia.
Qed.

Lemma switch_levels_ok d fuel x i cur lvs cs :
  Forall2 (level_ok (negb d)) lvs cs -> Forall (fun c => Forall inside c.1) cs ->
  (forall c e, c ∈ cs -> e ∈ pend (negb d) c.2 c.1 -> upto d e x) ->
  (forall k c e, cs !! k = Some c -> (i + k)%nat <> cur -> e ∈ pend d (c.2 + step_of d) c.1 -> before d x e) ->
  exists lvs', switch_levels (S fuel) (restart d) (move d) (stop d x.1) i cur lvs = Ok lvs' /\ length lvs' = length lvs /\
    forall k lv c, lvs' !! k = Some lv -> cs !! k = Some c ->
      if decide ((i + k)%nat = cur) then lvs !! k = Some lv else level_ok d lv (c.1, c.2 + step_of d).
Proof.
  intros HF. revert i. induction HF as [|lv c lvs cs Hlv HF IH]; intros i Hin Hb Ha.
  { exists []. split; [done|]. split; [done|]. intros k lv c E. by rewrite lookup_nil in E. }
  apply Forall_cons in Hin as [Hin0 Hin]. cbn [switch_levels].
  assert (H0 : exists lv', (if (i =? cur)%nat then Ok lv
         else let! l0 := (match lv_kv lv with None => let! (i', kv) := restart d (lv_iter lv) in Ok (mkLevel i' kv) | Some _ => Ok lv end) in
           advance (S fuel) (move d) (stop d x.1) l0) = Ok lv' /\ if decide (i = cur) then lv' = lv else level_ok d lv' (c.1, c.2 + step_of d)).
  { destruct (Nat.eqb_spec i cur) as [->|Hne]; [exists lv; split; [done|]; by destruct (decide (cur = cur))|]. destruct (decide (i = cur)); [done|].
    apply turn_level; [done|done| |].
    - intros e He. apply (Hb c); [left|done].
    - intros e He. apply (Ha 0%nat c); [done|lia|done]. }
  destruct H0 as (lv' & -> & Hlv'). cbn [rbind].
  destruct (IH (S i) Hin) as (lvs' & -> & Hlen & Hl).
  { intros c' e Hc. apply Hb. by right. }
  { intros k c' e Hc Hk. apply (Ha (S k)); [done|lia]. }
  cbn [rbind]. exists (lv' :: lvs'). split; [done|]. split; [cbn; by rewrite Hlen|]. intros [|k] l c' E1 E2.
  - cbn in E1, E2. injection E1 as <-. injection E2 as <-. rewrite Nat.add_0_r. destruct (decide (i = cur)); [by subst|done].
  - cbn in E1, E2 |- *. specialize (Hl k l c' E1 E2). replace (i + S k)%nat with (S i + k)%nat by lia. done.
Qed.

Lemma upto_negb d a b : upto (negb d) a b -> upto d b a.
Proof. by destruct d. Qed.

Definition switch (d : bool) (fuel : nat) (m : mergingIter) : outcome mergingIter :=
  if d then switchToMaxHeap cmp fuel m else switchToMinHeap cmp fuel m.

Lemma switch_root d fuel m it rest :
  heap_items m = it :: rest -> lower m = lo -> upper m = up ->
  switch d fuel m =
    (let! ls := switch_levels fuel (restart d) (move d) (stop d (mi_key it)) 0 (mi_index it) (levels m) in
     let! ls := step_level (move d) (mi_index it) ls in
     Ok (initHeap cmp (with_dir (with_levels m ls) (step_of d) d))).
Proof.
  intros E Hlo Hup. unfold switch, switchToMaxHeap, switchToMinHeap. rewrite E, Hlo, Hup. unfold restart, move, stop, step_of. by destruct d.
Qed.

Lemma switch_ok d fuel m cs out p it rest :
  sorted_entries cmp out -> Forall inside out -> Forall (fun c => sorted_entries cmp c.1) cs -> out ≡ₚ mjoin (fst <$> cs) ->
  placed (negb d) m cs out p -> heap_items m = it :: rest -> lower m = lo -> upper m = up ->
  exists m', switch d (S fuel) m = Ok m' /\ placed d m' (turn d cs) out (p + step_of d) /\
    prefix m' = prefix m /\ lower m' = lo /\ upper m' = up.
Proof.
  intros Hs Hin Hcs Hout Hpos Eh Hlo Hup. rewrite (switch_root d (S fuel) m it rest Eh Hlo Hup).
  destruct (root_level (negb d) m cs out p it rest Hs Hcs Hpos Eh) as (pre & l & q & post & lv & Ecs & Hidx & Hl & Ho & Elv & Hlv).
  pose proof (pl_levels _ _ _ _ _ Hpos) as HF. pose proof (levels_reach _ _ _ HF Hcs) as Hcr.
  pose proof (ahead_turn d cs out p Hout (pl_ahead _ _ _ _ _ Hpos)) as Hd. pose proof (pl_items _ _ _ _ _ Hpos) as Hi. pose proof (pl_heap _ _ _ _ _ Hpos) as Hh.
  rewrite Eh in Hi, Hh. set (x := (mi_key it, mi_value it)) in *.
  assert (Hlin : Forall (fun c => Forall inside c.1) cs).
  { apply Forall_forall. intros c Hc. apply Forall_forall. intros e He. rewrite Forall_forall in Hin. apply Hin. rewrite Hout.
    apply list_elem_of_join. exists c.1. split; [done|]. by apply list_elem_of_fmap_2. }
  destruct (switch_levels_ok d fuel x 0 (mi_index it) (levels m) cs HF Hlin) as (lvs & E & Hlen & Hlvs).
  { intros c e Hc He. apply upto_negb. eapply root_first; [exact Hcr|exact Hi|exact Hh|]. apply list_elem_of_join. exists (pend (negb d) c.2 c.1).
    split; [done|]. apply list_elem_of_fmap. by exists c. }
  { intros k c e Hk _ He. assert (Hp : e ∈ pend d (p + step_of d) out).
    { rewrite Hd. apply list_elem_of_join. exists (pend d (c.2 + step_of d) c.1). split; [done|]. unfold turn. rewrite <-list_fmap_compose.
      apply list_elem_of_fmap. exists c. split; [done|]. by eapply list_elem_of_lookup_2. }
    pose proof (pend_sorted d p out Hs) as Hps. rewrite (pend_some _ _ _ _ Ho) in Hps. apply StronglySorted_inv in Hps as [_ Hps].
    rewrite Forall_forall in Hps. by apply Hps. }
  cbn [fst x] in E. rewrite E. cbn [rbind]. unfold step_level.
  assert (Ec : cs !! mi_index it = Some (l, q)) by (rewrite Ecs, Hidx; by apply list_lookup_middle).
  destruct (lookup_lt_is_Some_2 lvs (mi_index it)) as [lv0 E0]; [rewrite Hlen; by eapply lookup_lt_Some|].
  pose proof (Hlvs _ _ _ E0 Ec) as H0. cbn [Nat.add] in H0. destruct (decide (mi_index it = mi_index it)); [|done]. rewrite Elv in H0. injection H0 as <-.
  rewrite E0. destruct Hlv as (Hw & _ & _). cbn [fst snd] in Hw. destruct (cursor_move d _ l q _ Hw Hl) as (i' & -> & Hw'). cbn [rbind].
  set (lv' := mkLevel i' (lookupZ l (q + step_of d))).
  assert (HF' : Forall2 (level_ok d) (<[mi_index it := lv']> lvs) (turn d cs)).
  { apply Forall2_same_length_lookup_2; [rewrite length_insert, Hlen; unfold turn; rewrite length_fmap; by eapply Forall2_length|].
    intros k lvk ck Ek Ekc. unfold turn in Ekc. rewrite list_lookup_fmap in Ekc. destruct (cs !! k) as [c|] eqn:Eck; [|done]. injection Ekc as <-.
    destruct (decide (k = mi_index it)) as [->|Hne].
    - rewrite list_lookup_insert_eq in Ek by (by eapply lookup_lt_Some). injection Ek as <-. rewrite Ec in Eck. injection Eck as <-.
      split; [done|]. split; [exact (reach_step d q l _ Hl)|done].
    - rewrite list_lookup_insert_ne in Ek by done. specialize (Hlvs k lvk c Ek Eck). cbn [Nat.add] in Hlvs. by destruct (decide (k = mi_index it)). }
  eexists. split; [reflexivity|].
  destruct (initHeap_placed d (with_dir (with_levels m (<[mi_index it := lv']> lvs)) (step_of d) d) (turn d cs) out (p + step_of d)) as (Hpl & -> & -> & ->);
    [done|done|exact (pl_err _ _ _ _ _ Hpos)|exact HF'|by eapply reach_step|exact Hd|].
  split; [done|]. split; [done|]. split; [exact Hlo|exact Hup].
Qed.

(** ** The contract *)

Record merged (m : mergingIter) (out : list entry) (p : Z) : Prop := mkMerged {
  mg_sorted : sorted_entries cmp out;
  mg_inside : Forall inside out;
  mg_err : err m = None;
  mg_prefix : prefix m = None;
  mg_lower : lower m = lo;
  mg_upper : upper m = up;
  mg_levels : exists cs : cursors, Forall (fun c => sorted_entries cmp c.1) cs /\ out ≡ₚ mjoin (fst <$> cs) /\
    Forall2 (fun lv c => cursor (lv_iter lv) c.1 c.2) (levels m) cs /\
    ((exists d, placed d m cs out p) \/ ~ 0 <= p < len out)
}.

Lemma level_ok_cursor d lvs cs : Forall2 (level_ok d) lvs cs -> Forall2 (fun lv c => cursor (lv_iter lv) c.1 c.2) lvs cs.
Proof. intros H. eapply Forall2_impl; [exact H|]. by intros lv c []. Qed.

Lemma placed_merged d m cs out p :
  sorted_entries cmp out -> Forall inside out -> Forall (fun c => sorted_entries cmp c.1) cs -> out ≡ₚ mjoin (fst <$> cs) ->
  placed d m cs out p -> prefix m = None -> lower m = lo -> upper m = up -> merged m out p /\ findEntry m = lookupZ out p.
Proof.
  intros Hs Hin Hcs Hout Hpl Hpf Hlo Hup. split; [|by eapply placed_entry]. split; try done; [apply Hpl|].
  exists cs. split; [done|]. split; [done|]. split; [eapply level_ok_cursor, Hpl|]. left. by exists d.
Qed.

(** Positioning every level by [f], which takes a list [l] to position [g l]. *)
Lemma map_levels_ok d f (g : list entry -> Z) lvs cs :
  (forall i l q, cursor i l q -> Forall inside l -> exists i', f i = Ok (i', lookupZ l (g l)) /\ cursor i' l (g l)) ->
  (forall l, reach d (g l) l) -> Forall2 (fun lv c => cursor (lv_iter lv) c.1 c.2) lvs cs -> Forall (fun c => Forall inside c.1) cs ->
  exists lvs', map_levels f lvs = Ok lvs' /\ Forall2 (level_ok d) lvs' ((fun c : list entry * Z => (c.1, g c.1)) <$> cs).
Proof.
  intros Hf Hg. induction 1 as [|lv c lvs cs Hw Hws IH]; intros Hin; [by exists []|]. apply Forall_cons in Hin as [Hi Hin].
  destruct (Hf _ _ _ Hw Hi) as (i' & E & Hw'). destruct (IH Hin) as (lvs' & E' & HF).
  eexists. cbn [map_levels]. rewrite E. cbn [rbind]. rewrite E'. cbn [rbind]. split; [done|]. rewrite fmap_cons. constructor; [|done].
  split; [done|]. split; [apply Hg|done].
Qed.

Lemma position_ok d f g m out p :
  merged m out p ->
  (forall i l q, cursor i l q -> Forall inside l -> exists i', f i = Ok (i', lookupZ l (g l)) /\ cursor i' l (g l)) ->
  (forall l, reach d (g l) l) ->
  (forall cs : cursors, Forall (fun c => sorted_entries cmp c.1) cs -> out ≡ₚ mjoin (fst <$> cs) ->
     pend d (g out) out ≡ₚ mjoin ((fun c : list entry * Z => pend d (g c.1) c.1) <$> cs)) ->
  exists lvs, map_levels f (levels m) = Ok lvs /\
    forall m0, levels m0 = lvs -> dir m0 = step_of d -> heap_reverse m0 = d -> err m0 = None -> prefix m0 = None -> lower m0 = lo -> upper m0 = up ->
      merged (initHeap cmp m0) out (g out) /\ findEntry (initHeap cmp m0) = lookupZ out (g out).
Proof.
  intros [Hs Hin _ _ Hlo Hup (cs & Hcs & Hout & HF & _)] Hf Hg Hahead.
  assert (Hlin : Forall (fun c => Forall inside c.1) cs).
  { apply Forall_forall. intros c Hc. apply Forall_forall. intros e He. rewrite Forall_forall in Hin. apply Hin. rewrite Hout.
    apply list_elem_of_join. exists c.1. split; [done|]. by apply list_elem_of_fmap_2. }
  destruct (map_levels_ok d f g (levels m) cs Hf Hg HF Hlin) as (lvs & E & HF'). exists lvs. split; [done|].
  intros m0 Hlv Hdir Hrev He Hpf Hlo0 Hup0. set (cs' := (fun c : list entry * Z => (c.1, g c.1)) <$> cs) in *.
  assert (Hfst : fst <$> cs' = fst <$> cs) by (unfold cs'; by rewrite <-list_fmap_compose).
  destruct (initHeap_placed d m0 cs' out (g out)) as (Hpl & Hp1 & Hp2 & Hp3); [done|done|done|by rewrite Hlv|apply Hg| |].
  { unfold ahead, cs'. rewrite <-list_fmap_compose. unfold compose. cbn [fst snd]. by apply Hahead. }
  apply (placed_merged d _ cs'); try done; [by apply Forall_fmap|by rewrite Hfst|congruence..].
Qed.

(** A seek splits an ordered list by its key. *)
Definition below (k : bytes) (e : entry) : Prop := cmp (InternalKey.UserKey e.1) k < 0.

#[export] Instance below_dec k e : Decision (below k e).
Proof. unfold below. apply _. Defined.

Lemma seek_filter k l :
  sorted_entries cmp l ->
  take (Z.to_nat (list_seek cmp k l)) l = filter (below k) l /\ drop (Z.to_nat (list_seek cmp k l)) l = filter (fun e => ~ below k e) l.
Proof.
  intros Hs. assert (Hge : forall e l, sorted_entries cmp (e :: l) -> ~ below k e -> Forall (fun x => ~ below k x) (e :: l)).
  { clear Hs l. intros e l Hs He. apply Forall_forall. intros x Hx Hb. apply list_elem_of_lookup in Hx as [i Hx].
    pose proof (list_seek_after cmp k (e :: l) (Z.of_nat i) x Hs) as Ha. unfold below in *. cbn [list_seek] in Ha.
    destruct (Z.ltb_spec (cmp (InternalKey.UserKey e.1) k) 0); [lia|]. specialize (Ha ltac:(unfold lookupZ; rewrite Nat2Z.id; by destruct (Z.ltb_spec (Z.of_nat i) 0); [lia|]) ltac:(lia)). lia. }
  induction l as [|e l IH]; [done|]. destruct (decide (below k e)) as [Hb|Hb].
  - apply StronglySorted_inv in Hs as [Hs _]. destruct (IH Hs) as [H1 H2]. rewrite !filter_cons. rewrite decide_True by done.
    destruct (decide (~ below k e)); [tauto|]. cbn [list_seek]. pose proof (list_seek_range cmp k l). unfold below in Hb.
    destruct (Z.ltb_spec (cmp (InternalKey.UserKey e.1) k) 0); [|lia].
    replace (Z.to_nat (1 + list_seek cmp k l)) with (S (Z.to_nat (list_seek cmp k l))) by lia. cbn [take drop]. by rewrite H1, H2.
  - specialize (Hge e l Hs Hb). cbn [list_seek]. unfold below in Hb. destruct (Z.ltb_spec (cmp (InternalKey.UserKey e.1) k) 0); [done|].
    cbn [Z.to_nat take drop]. split.
    + symmetry. clear - Hge. induction Hge as [|x y Hx _ IH]; [done|]. rewrite filter_cons. cbv beta in Hx. destruct (decide (below k x)); [tauto|]. exact IH.
    + symmetry. clear - Hge. induction Hge as [|x y Hx _ IH]; [done|]. rewrite filter_cons. cbv beta in Hx. destruct (decide (~ below k x)); [|tauto]. change (x :: filter (fun e => ~ below k e) y = x :: y). f_equal. exact IH.
Qed.

Lemma filter_join (P : entry -> Prop) `{!forall e, Decision (P e)} (ls : list (list entry)) :
  filter P (mjoin ls) = mjoin (filter P <$> ls).
Proof.
  induction ls as [|l ls IH]; [done|]. rewrite fmap_cons. change (filter P (l ++ mjoin ls) = filter P l ++ mjoin (filter P <$> ls)).
  by rewrite filter_app, IH.
Qed.

(** Levels that are each cut at the key are together cut at the key. *)
Lemma cut_join (P : entry -> Prop) `{!forall e, Decision (P e)} (f : list entry -> list entry) out (cs : cursors) :
  (forall l, sorted_entries cmp l -> f l ≡ₚ filter P l) -> sorted_entries cmp out -> Forall (fun c => sorted_entries cmp c.1) cs ->
  out ≡ₚ mjoin (fst <$> cs) -> f out ≡ₚ mjoin ((fun c : list entry * Z => f c.1) <$> cs).
Proof.
  intros Hf Hs Hcs Ho. rewrite (Hf out Hs). etransitivity; [by apply filter_Permutation|]. rewrite filter_join. clear - Hf Hcs.
  induction Hcs as [|c cs Hc _ IH]; [done|]. rewrite !fmap_cons.
  change (filter P c.1 ++ mjoin (filter P <$> (fst <$> cs)) ≡ₚ f c.1 ++ mjoin ((fun c : list entry * Z => f c.1) <$> cs)).
  by rewrite IH, (Hf c.1 Hc).
Qed.

Lemma cursor_seekGE i l q k :
  (forall b, lo = Some b -> 0 <= cmp k b) -> cursor i l q ->
  exists i', SeekGE k i = Ok (i', lookupZ l (list_seek cmp k l)) /\ cursor i' l (list_seek cmp k l).
Proof.
  intros Hk (R & HL & HR). destruct (cur_seekGE _ _ _ k HR Hk) as (s' & E' & HR'). eexists. unfold SeekGE, call. rewrite E'. cbn. split; [done|]. by exists R.
Qed.

Lemma cursor_seekLT i l q k :
  (forall b, up = Some b -> cmp k b <= 0) -> cursor i l q ->
  exists i', SeekLT k i = Ok (i', lookupZ l (list_seek cmp k l - 1)) /\ cursor i' l (list_seek cmp k l - 1).
Proof.
  intros Hk (R & HL & HR). destruct (cur_seekLT _ _ _ k HR Hk) as (s' & E' & HR'). eexists. unfold SeekLT, call. rewrite E'. cbn. split; [done|]. by exists R.
Qed.

(** A step of the merge, in either direction. *)
Lemma step_ok (d : bool) fuel m out p :
  merged m out p -> 0 <= p < len out ->
  exists m', (if d then mPrev cmp (S fuel) m else mNext cmp (S fuel) m) = Ok (m', lookupZ out (p + step_of d)) /\ merged m' out (p + step_of d).
Proof.
  intros [Hs Hin He Hpf Hlo Hup (cs & Hcs & Hout & HF & [[d' Hpl]|Hn])] Hp; [|done].
  pose proof (placed_entry d' m cs out p Hs Hcs Hpl) as Hent. destruct (lookupZ_Some out p Hp) as [x Hx]. rewrite Hx in Hent.
  assert (Eh : exists (it : mergingIterItem) (rest : list mergingIterItem), heap_items m = it :: rest).
  { unfold findEntry in Hent. destruct (heap_items m); [done|eauto]. } destruct Eh as (it & rest & Eh).
  assert (Hnext : exists m' cs', (if d then mPrev cmp (S fuel) m else mNext cmp (S fuel) m) = Ok (m', findEntry m') /\
    placed d m' cs' out (p + step_of d) /\ fst <$> cs' = fst <$> cs /\ prefix m' = None /\ lower m' = lo /\ upper m' = up).
  { destruct (decide (d' = d)) as [->|Hne].
    - destruct (stepEntry_ok d m it rest cs out p Hs Hcs Hpl Eh) as (m' & cs' & E & Hf & Hpl' & P1 & P2 & P3). exists m', cs'.
      split; [|split; [done|split; [done|]]; by rewrite P1, P2, P3].
      unfold mPrev, mNext. rewrite He, (pl_dir _ _ _ _ _ Hpl), Eh. unfold step_of. destruct d; cbn [negb Z.eqb Pos.eqb]; unfold prevEntry, nextEntry; cbn [move] in E; by rewrite E.
    - assert (d' = negb d) as -> by (destruct d, d'; done).
      destruct (switch_ok d fuel m cs out p it rest Hs Hin Hcs Hout Hpl Eh Hlo Hup) as (m' & E & Hpl' & P1 & P2 & P3). exists m', (turn d cs).
      split; [|split; [done|split; [unfold turn; by rewrite <-list_fmap_compose|]]; by rewrite P1].
      unfold mPrev, mNext. rewrite He, (pl_dir _ _ _ _ _ Hpl), Hpf. unfold step_of. destruct d; cbn [negb Z.eqb Pos.eqb]; cbn [switch] in E; by rewrite E. }
  destruct Hnext as (m' & cs' & -> & Hpl' & Hf & P1 & P2 & P3).
  destruct (placed_merged d m' cs' out (p + step_of d)) as [Hm Hfe]; try done.
  - apply Forall_fmap with (f := fst) (P := sorted_entries cmp). rewrite Hf. by apply Forall_fmap.
  - by rewrite Hf.
  - exists m'. by rewrite Hfe.
Qed.

(** Over cursors the merging iterator is a cursor. *)
#[export] Instance merging_cursor fuel : CursorLaws cmp lo up (mergingOps cmp (S fuel)) merged.
Proof.
  split.
  - intros m out p k Hm Hk. destruct (position_ok false (SeekGE k) (list_seek cmp k) m out p Hm) as (lvs & E & Hpos).
    + intros i l q Hc _. by eapply cursor_seekGE.
    + intros l. apply list_seek_range.
    + intros cs Hcs Ho. apply (cut_join (fun e => ~ below k e) (fun l => pend false (list_seek cmp k l) l)); try done; [|apply Hm].
      intros l Hl. unfold pend. by rewrite (proj2 (seek_filter k l Hl)).
    + cbn [mergingOps itSeekGE]. unfold mSeekGE, seekGE. cbn [prefix with_prefix levels with_err].
      change (fun i => SeekGE k i) with (SeekGE k). rewrite E. cbn [rbind].
      destruct (Hpos (with_dir (with_levels (with_prefix (with_err m None) None) lvs) 1 false)) as [H1 H2]; try done; [apply Hm|apply Hm|].
      eexists. split; [by rewrite <-H2|done].
  - intros m out p k Hm Hk. destruct (position_ok true (SeekLT k) (fun l => list_seek cmp k l - 1) m out p Hm) as (lvs & E & Hpos).
    + intros i l q Hc _. by eapply cursor_seekLT.
    + intros l. unfold reach. pose proof (list_seek_range cmp k l). lia.
    + intros cs Hcs Ho. apply (cut_join (below k) (fun l => pend true (list_seek cmp k l - 1) l)); try done; [|apply Hm].
      intros l Hl. unfold pend. rewrite Z.sub_add, reverse_Permutation. by rewrite (proj1 (seek_filter k l Hl)).
    + cbn [mergingOps itSeekLT]. unfold mSeekLT, seekLT. cbn [prefix with_prefix levels with_err]. rewrite E. cbn [rbind].
      destruct (Hpos (with_dir (with_levels (with_prefix (with_prefix (with_err m None) None) None) lvs) (-1) true)) as [H1 H2]; try done; [apply Hm|apply Hm|].
      eexists. split; [by rewrite <-H2|done].
  - intros m out p Hm Hlo. destruct (position_ok false First (fun _ => 0) m out p Hm) as (lvs & E & Hpos).
    + intros i l q Hc Hin. pose proof (cursor_restart false i l q Hc Hin) as H. unfold restart in H. by rewrite Hlo in H.
    + intros l. unfold reach. pose proof (len_nonneg l). lia.
    + intros cs _ Ho. unfold pend. cbn [Z.to_nat]. etransitivity; [exact Ho|]. done.
    + cbn [mergingOps itFirst]. unfold mFirst. cbn [prefix with_prefix levels with_err with_items]. rewrite E. cbn [rbind].
      destruct (Hpos (with_dir (with_levels (with_items (with_prefix (with_err m None) None) []) lvs) 1 false)) as [H1 H2]; try done; [apply Hm|apply Hm|].
      eexists. split; [by rewrite <-H2|done].
  - intros m out p Hm Hup. destruct (position_ok true Last (fun l => len l - 1) m out p Hm) as (lvs & E & Hpos).
    + intros i l q Hc Hin. pose proof (cursor_restart true i l q Hc Hin) as H. unfold restart in H. by rewrite Hup in H.
    + intros l. unfold reach. pose proof (len_nonneg l). lia.
    + intros cs Hcs Ho. assert (Hl : forall l : list entry, pend true (len l - 1) l ≡ₚ l).
      { intros l. unfold pend, len. rewrite Z.sub_add, Nat2Z.id, take_ge by lia. apply reverse_Permutation. }
      rewrite Hl, Ho. clear - Hl. induction cs as [|c cs IH]; [done|]. rewrite !fmap_cons.
      change (c.1 ++ mjoin (fst <$> cs) ≡ₚ pend true (len c.1 - 1) c.1 ++ mjoin ((fun c : list entry * Z => pend true (len c.1 - 1) c.1) <$> cs)).
      by rewrite <-IH, Hl.
    + cbn [mergingOps itLast]. unfold mLast. cbn [prefix with_prefix levels with_err]. rewrite E. cbn [rbind].
      destruct (Hpos (with_dir (with_levels (with_prefix (with_err m None) None) lvs) (-1) true)) as [H1 H2]; try done; [apply Hm|apply Hm|].
      eexists. split; [by rewrite <-H2|done].
  - intros m out p Hm Hp. apply (step_ok false fuel m out p Hm Hp).
  - intros m out p Hm Hp. apply (step_ok true fuel m out p Hm Hp).
  - intros m out p Hm. cbn [mergingOps itError]. unfold mError. rewrite (mg_err _ _ _ Hm). destruct (heap_items m) as [|it rest]; [done|].
    destruct (levels m !! mi_index it) as [lv|] eqn:E; [|done]. destruct (mg_levels _ _ _ Hm) as (cs & _ & _ & HF & _).
    destruct (Forall2_lookup_l _ _ _ _ _ HF E) as (c & _ & Hw). by eapply cursor_error.
Qed.

Lemma merging_init_merged iters (ls : list (list entry)) out :
  Forall2 (fun i l => exists p, cursor i l p) iters ls -> Forall (sorted_entries cmp) ls -> sorted_entries cmp out -> out ≡ₚ mjoin ls ->
  Forall inside out -> merged (merging_init lo up iters) out (-1).
Proof.
  intros HF Hls Hs Hout Hin.
  assert (Hcs : exists cs : cursors, fst <$> cs = ls /\ Forall2 (fun i c => cursor i c.1 c.2) iters cs).
  { clear - HF. induction HF as [|i l iters ls (p & Hc) _ (cs & E & IH)]; [by exists []|]. exists ((l, p) :: cs). cbn. rewrite <-E. split; [done|]. by constructor. }
  destruct Hcs as (cs & Ecs & HF'). split; try done. exists cs. split; [|split; [by rewrite Ecs|split; [|right; lia]]].
  - apply Forall_fmap with (f := fst) (P := sorted_entries cmp). by rewrite Ecs.
  - cbn. by apply Forall2_fmap_l.
Qed.
End MergeCursor.
