(* ===== verification/UserIter.v ===== *)
(** The iterator handed to users (iterator.go): a walk over the user keys that
    are set, in both directions and with seeks, on top of an internal iterator
    that yields every entry of every key.

    [Iterator] has the fields of the Go struct but for the statistics, the pool
    of buffers and the read state it keeps alive.  [keyBuf] is the memory of
    [key].  The seek shortcuts that the [invariants] build tag turns off are on,
    as they are without the tag. *)

From Stdlib Require Import ZArith Lia.
From stdpp Require Import base numbers option sorting list.
From S2P Require Import Prelude Base Iter CompactionIter.

Module UserIter.

Inductive iterPos : Type :=
| iterPosCurForward | iterPosNext | iterPosPrev | iterPosCurReverse | iterPosCurForwardPaused | iterPosCurReversePaused.

Inductive lastPositioningOpKind : Type :=
| unknownLastPositionOp | seekPrefixGELastPositioningOp | seekGELastPositioningOp | seekLTLastPositioningOp.

#[export] Instance iterPos_eq_dec : EqDecision iterPos.
Proof. solve_decision. Defined.
#[export] Instance lastPositioningOpKind_eq_dec : EqDecision lastPositioningOpKind.
Proof. solve_decision. Defined.

Record Iterator (S : Type) : Type := mkIterator {
  lowerBound : option bytes; upperBound : option bytes;
  iter : S; ierr : option error; key : bytes; value : bytes;
  iterKV : option entry; prefixOrFullSeekKey : bytes;
  isValid : bool; pos : iterPos; hasPrefix : bool; lastPositioningOp : lastPositioningOpKind
}.
Arguments mkIterator {S}. Arguments lowerBound {S}. Arguments upperBound {S}. Arguments iter {S}. Arguments ierr {S}.
Arguments key {S}. Arguments value {S}. Arguments iterKV {S}. Arguments prefixOrFullSeekKey {S}. Arguments isValid {S}.
Arguments pos {S}. Arguments hasPrefix {S}. Arguments lastPositioningOp {S}.

Section Iterator.
Context (cmp : bytes -> bytes -> Z) (equal : bytes -> bytes -> bool) (split : bytes -> Z).
Context {S : Type} (o : iterOps S).

Abbreviation it := (Iterator S).

(** [NewIter] after its fields are set: nothing is positioned. *)
Definition newIterator (lo up : option bytes) (s : S) : it :=
  mkIterator lo up s None [] [] None [] false iterPosCurForward false unknownLastPositionOp.

Definition set_kv (i : it) (s : S) (kv : option entry) : it :=
  mkIterator (lowerBound i) (upperBound i) s (ierr i) (key i) (value i) kv (prefixOrFullSeekKey i)
    (isValid i) (pos i) (hasPrefix i) (lastPositioningOp i).
Definition set_state (i : it) (v : bool) (p : iterPos) : it :=
  mkIterator (lowerBound i) (upperBound i) (iter i) (ierr i) (key i) (value i) (iterKV i) (prefixOrFullSeekKey i)
    v p (hasPrefix i) (lastPositioningOp i).
Definition set_key (i : it) (k v : bytes) : it :=
  mkIterator (lowerBound i) (upperBound i) (iter i) (ierr i) k v (iterKV i) (prefixOrFullSeekKey i)
    (isValid i) (pos i) (hasPrefix i) (lastPositioningOp i).
Definition set_error (i : it) (e : option error) : it :=
  mkIterator (lowerBound i) (upperBound i) (iter i) e (key i) (value i) (iterKV i) (prefixOrFullSeekKey i)
    (isValid i) (pos i) (hasPrefix i) (lastPositioningOp i).
Definition set_seek (i : it) (k : bytes) (p : bool) (op : lastPositioningOpKind) : it :=
  mkIterator (lowerBound i) (upperBound i) (iter i) (ierr i) (key i) (value i) (iterKV i) k
    (isValid i) (pos i) p op.

(** A call of a positioning method of the internal iterator. *)
Definition move (m : S -> outcome (S * option entry)) (i : it) : outcome it :=
  let! (s, kv) := m (iter i) in Ok (set_kv i s kv).

(** The loop of [nextUserKey]. *)
Fixpoint next_loop (fuel : nat) (done : bool) (i : it) : outcome it :=
  match fuel with
  | O => Err ErrModelFuel
  | Datatypes.S fuel' =>
      let! i := move (itNext o) i in
      match iterKV i with
      | None => Ok i
      | Some (k, _) =>
          if done then Ok i
          else if negb (equal (key i) (InternalKey.UserKey k)) then Ok i
          else next_loop fuel' (InternalKey.SeqNum k =? 0) i
      end
  end.

Definition nextUserKey (fuel : nat) (i : it) : outcome it :=
  match iterKV i with
  | None => Ok i
  | Some (k, _) =>
      let i := if isValid i then i else set_key i (InternalKey.UserKey k) (value i) in
      next_loop fuel (InternalKey.SeqNum k =? 0) i
  end.

Fixpoint prev_loop (fuel : nat) (i : it) : outcome it :=
  match fuel with
  | O => Err ErrModelFuel
  | Datatypes.S fuel' =>
      let! i := move (itPrev o) i in
      match iterKV i with
      | None => Ok i
      | Some (k, _) => if negb (equal (key i) (InternalKey.UserKey k)) then Ok i else prev_loop fuel' i
      end
  end.

Definition prevUserKey (fuel : nat) (i : it) : outcome it :=
  match iterKV i with
  | None => Ok i
  | Some (k, _) =>
      let i := if isValid i then i else set_key i (InternalKey.UserKey k) (value i) in
      prev_loop fuel i
  end.

(** The slice [key[:n]] of the prefix tests, with its bound check. *)
Definition prefix_of (k : bytes) : outcome bytes := slice 0 (split k) k.

Fixpoint find_next_loop (fuel : nat) (i : it) : outcome it :=
  match iterKV i with
  | None => Ok i
  | Some (k, v) =>
      match fuel with
      | O => Err ErrModelFuel
      | Datatypes.S fuel' =>
          let! outside := (if hasPrefix i
                           then let! p := prefix_of (InternalKey.UserKey k) in
                                Ok (negb (bool_decide (prefixOrFullSeekKey i = p)))
                           else Ok false) in
          if outside : bool then Ok i
          else if InternalKey.KindOf k =? InternalKey.KindSet
          then Ok (set_state (set_key i (InternalKey.UserKey k) v) true (pos i))
          else let! i := nextUserKey (Datatypes.S fuel) i in find_next_loop fuel' i
      end
  end.

Definition findNextEntry (fuel : nat) (i : it) : outcome it :=
  find_next_loop fuel (set_state i false iterPosCurForward).

(** The end of [findPrevEntry] with a key in hand. *)
Definition found_prev (i : it) : it :=
  set_state i (match ierr i with Some _ => false | None => true end) iterPosPrev.

Fixpoint find_prev_loop (fuel : nat) (i : it) : outcome it :=
  match iterKV i with
  | None => Ok (if isValid i then found_prev i else i)
  | Some (k, v) =>
      if isValid i && negb (equal (InternalKey.UserKey k) (key i)) then Ok (found_prev i)
      else
        match fuel with
        | O => Err ErrModelFuel
        | Datatypes.S fuel' =>
            if (InternalKey.KindOf k =? InternalKey.KindDelete) || (InternalKey.KindOf k =? InternalKey.KindPrefixDelete) then
              let! i := move (itPrev o) (set_state (set_key i (key i) []) false (pos i)) in find_prev_loop fuel' i
            else if InternalKey.KindOf k =? InternalKey.KindSet then
              let! i := move (itPrev o) (set_state (set_key i (InternalKey.UserKey k) v) true (pos i)) in find_prev_loop fuel' i
            else Ok (set_state (set_error i (Some ErrInvalidKind)) false (pos i))
        end
  end.

Definition findPrevEntry (fuel : nat) (i : it) : outcome it :=
  find_prev_loop fuel (set_state i false iterPosCurReverse).

Definition Error (i : it) : option error :=
  match ierr i with Some e => Some e | None => itError o (iter i) end.

(** A seek key brought into the bounds, the lower bound first. *)
Definition clamp_ge (i : it) (k : bytes) : bytes :=
  match lowerBound i with
  | Some lo => if cmp k lo <? 0 then lo else
      match upperBound i with Some up => if 0 <? cmp k up then up else k | None => k end
  | None => match upperBound i with Some up => if 0 <? cmp k up then up else k | None => k end
  end.

Definition clamp_lt (i : it) (k : bytes) : bytes :=
  match upperBound i with
  | Some up => if 0 <? cmp k up then up else
      match lowerBound i with Some lo => if cmp k lo <? 0 then lo else k | None => k end
  | None => match lowerBound i with Some lo => if cmp k lo <? 0 then lo else k | None => k end
  end.

(** [seekInternalIter] after the tests of a repeated seek; [None] when the
    iterator already stands there. *)
Definition reseek_ge (i : it) (k : bytes) : outcome (option bool) :=
  if decide (lastPositioningOp i = seekGELastPositioningOp) then
    if cmp (prefixOrFullSeekKey i) k <=? 0 then
      if negb (isValid i) || (cmp k (key i) <=? 0) then Ok None
      else if decide (pos i = iterPosCurForwardPaused) then
        match iterKV i with
        | Some (ik, _) => Ok (Some (negb (cmp k (InternalKey.UserKey ik) <=? 0)))
        | None => Panic
        end
      else Ok (Some true)
    else Ok (Some true)
  else Ok (Some true).

Definition SeekGEWithLimit (fuel : nat) (i : it) (k : bytes) : outcome it :=
  let k := clamp_ge i k in
  let! seek := reseek_ge i k in
  let i := set_seek (set_error i None) (prefixOrFullSeekKey i) false unknownLastPositionOp in
  match seek with
  | None => Ok (set_seek i (prefixOrFullSeekKey i) false seekGELastPositioningOp)
  | Some again =>
      let! i := (if again : bool then move (itSeekGE o k) i else Ok i) in
      let! i := findNextEntry fuel i in
      match Error i with
      | None => Ok (set_seek i k (hasPrefix i) seekGELastPositioningOp)
      | Some _ => Ok i
      end
  end.

(** [SeekPrefixGE]: a key outside a bound is moved to the bound when the bound
    has the same prefix, and refused otherwise. *)
Definition prefix_clamp (i : it) (pfx k : bytes) : outcome (option bytes) :=
  let bounded := fun b => let! p := prefix_of b in Ok (if bool_decide (pfx = p) then Some b else None) in
  let above := match upperBound i with
               | Some up => if 0 <? cmp k up then bounded up else Ok (Some k)
               | None => Ok (Some k)
               end in
  match lowerBound i with
  | Some lo => if cmp k lo <? 0 then bounded lo else above
  | None => above
  end.

Definition SeekPrefixGE (fuel : nat) (i : it) (k : bytes) : outcome it :=
  let! pfx := prefix_of k in
  let trySeekUsingNext :=
    bool_decide (lastPositioningOp i = seekPrefixGELastPositioningOp) && (cmp (prefixOrFullSeekKey i) pfx <? 0) in
  let i := set_seek (set_error i None) pfx true unknownLastPositionOp in
  let! k' := prefix_clamp i pfx k in
  match k' with
  | None => Ok (set_error i (Some ErrOutOfBounds))
  | Some k =>
      let! i := move (itSeekPrefixGE o pfx k trySeekUsingNext) i in
      let! i := findNextEntry fuel i in
      match Error i with
      | None => Ok (set_seek i (prefixOrFullSeekKey i) (hasPrefix i) seekPrefixGELastPositioningOp)
      | Some _ => Ok i
      end
  end.

Definition reseek_lt (i : it) (k : bytes) : outcome (option bool) :=
  if decide (lastPositioningOp i = seekLTLastPositioningOp) then
    if cmp k (prefixOrFullSeekKey i) <=? 0 then
      if negb (isValid i) || (cmp (key i) k <? 0) then Ok None
      else if decide (pos i = iterPosCurReversePaused) then
        match iterKV i with
        | Some (ik, _) => Ok (Some (negb (cmp (InternalKey.UserKey ik) k <? 0)))
        | None => Panic
        end
      else Ok (Some true)
    else Ok (Some true)
  else Ok (Some true).

Definition SeekLTWithLimit (fuel : nat) (i : it) (k : bytes) : outcome it :=
  let k := clamp_lt i k in
  let! seek := reseek_lt i k in
  let i := set_seek (set_error i None) (prefixOrFullSeekKey i) false unknownLastPositionOp in
  match seek with
  | None => Ok (set_seek i (prefixOrFullSeekKey i) false seekLTLastPositioningOp)
  | Some again =>
      let! i := (if again : bool then move (itSeekLT o k) i else Ok i) in
      let! i := findPrevEntry fuel i in
      match Error i with
      | None => Ok (set_seek i k (hasPrefix i) seekLTLastPositioningOp)
      | Some _ => Ok i
      end
  end.

(** The internal iterator at the first (last) entry inside the bounds. *)
Definition to_first (i : it) : outcome it :=
  match lowerBound i with Some lo => move (itSeekGE o lo) i | None => move (itFirst o) i end.
Definition to_last (i : it) : outcome it :=
  match upperBound i with Some up => move (itSeekLT o up) i | None => move (itLast o) i end.

Definition First (fuel : nat) (i : it) : outcome it :=
  let! i := to_first (set_seek (set_error i None) (prefixOrFullSeekKey i) false unknownLastPositionOp) in
  findNextEntry fuel i.

Definition Last (fuel : nat) (i : it) : outcome it :=
  let! i := to_last (set_seek (set_error i None) (prefixOrFullSeekKey i) false unknownLastPositionOp) in
  findPrevEntry fuel i.

Definition NextWithLimit (fuel : nat) (i : it) : outcome it :=
  match ierr i with
  | Some _ => Ok i
  | None =>
      let i := set_seek i (prefixOrFullSeekKey i) (hasPrefix i) unknownLastPositionOp in
      match pos i with
      | iterPosCurForward => let! i := nextUserKey fuel i in findNextEntry fuel i
      | iterPosCurForwardPaused | iterPosNext => findNextEntry fuel i
      | iterPosCurReverse =>
          match iterKV i with
          | Some _ => Ok (set_state (set_error i (Some ErrSwitchDirection)) false (pos i))
          | None => let! i := to_first i in findNextEntry fuel i
          end
      | iterPosCurReversePaused =>
          match iterKV i with
          | None => Ok (set_state (set_error i (Some ErrSwitchDirection)) false (pos i))
          | Some _ => let! i := nextUserKey fuel i in findNextEntry fuel i
          end
      | iterPosPrev =>
          let i := set_state i false (pos i) in
          let! i := (match iterKV i with None => to_first i | Some _ => nextUserKey fuel i end) in
          let! i := nextUserKey fuel i in
          findNextEntry fuel i
      end
  end.

Definition PrevWithLimit (fuel : nat) (i : it) : outcome it :=
  match ierr i with
  | Some _ => Ok i
  | None =>
      let i := set_seek i (prefixOrFullSeekKey i) (hasPrefix i) unknownLastPositionOp in
      if hasPrefix i then Ok (set_state (set_error i (Some ErrReversePrefix)) false (pos i))
      else
        let! i := (if decide (pos i = iterPosCurReverse) then prevUserKey fuel i else Ok i) in
        let turn := bool_decide (pos i = iterPosCurForward) || bool_decide (pos i = iterPosNext) ||
                    bool_decide (pos i = iterPosCurForwardPaused) in
        let stepAgain := bool_decide (pos i = iterPosNext) in
        let! i := (if turn then
                     let i := set_state i false (pos i) in
                     let! i := (match iterKV i with None => to_last i | Some _ => prevUserKey fuel i end) in
                     if stepAgain then prevUserKey fuel i else Ok i
                   else Ok i) in
        findPrevEntry fuel i
  end.

Definition SetBounds (lo up : option bytes) (i : it) : it :=
  mkIterator lo up (itSetBounds o lo up (iter i)) (ierr i) (key i) (value i) None (prefixOrFullSeekKey i) false
    (match pos i with
     | iterPosCurForward | iterPosNext | iterPosCurForwardPaused => iterPosCurForward
     | iterPosCurReverse | iterPosPrev | iterPosCurReversePaused => iterPosCurReverse
     end) false unknownLastPositionOp.

(** What [Valid], [Key] and [Value] say. *)
Definition current (i : it) : option (bytes * bytes) := if isValid i then Some (key i, value i) else None.

End Iterator.

(** ** What the user sees *)

Section Spec.
Context (cmp : bytes -> bytes -> Z).

Definition uk (e : entry) : bytes := InternalKey.UserKey e.1.

(** What an entry that decides its key shows. *)
Definition shows (e : entry) : list (bytes * bytes) :=
  if InternalKey.KindOf e.1 =? InternalKey.KindSet then [(uk e, e.2)] else [].

(** The keys that are set, with their newest values: entries of a key after
    its first are older.  [last] is the key just decided. *)
Definition live_after (last : option bytes) (l : list entry) : list (bytes * bytes) :=
  flat_map shows (newest_from cmp last l).
Definition live (l : list entry) : list (bytes * bytes) := live_after None l.

(** The position of the first key at or past [k]. *)
Fixpoint seek_pos (k : bytes) (L : list (bytes * bytes)) : Z :=
  match L with
  | [] => 0
  | (k', _) :: L' => if cmp k' k <? 0 then 1 + seek_pos k L' else 0
  end.

Inductive op : Type := OFirst | OLast | ONext | OPrev | OSeekGE (k : bytes) | OSeekLT (k : bytes).

(** A cursor over the list of live keys, with a position before the first and
    one after the last. *)
Definition cursor_step (L : list (bytes * bytes)) (a : Z) (x : op) : Z :=
  match x with
  | OFirst => 0
  | OLast => len L - 1
  | ONext => Z.min (a + 1) (len L)
  | OPrev => Z.max (a - 1) (-1)
  | OSeekGE k => seek_pos k L
  | OSeekLT k => seek_pos k L - 1
  end.

Fixpoint cursor_run (L : list (bytes * bytes)) (a : Z) (xs : list op) : list (option (bytes * bytes)) :=
  match xs with
  | [] => []
  | x :: xs' => let a' := cursor_step L a x in lookupZ L a' :: cursor_run L a' xs'
  end.

Section Run.
Context (equal : bytes -> bytes -> bool) (split : bytes -> Z) {S : Type} (o : iterOps S).

Definition iter_step (fuel : nat) (i : Iterator S) (x : op) : outcome (Iterator S) :=
  match x with
  | OFirst => First equal split o fuel i
  | OLast => Last equal o fuel i
  | ONext => NextWithLimit equal split o fuel i
  | OPrev => PrevWithLimit equal o fuel i
  | OSeekGE k => SeekGEWithLimit cmp equal split o fuel i k
  | OSeekLT k => SeekLTWithLimit cmp equal o fuel i k
  end.

Fixpoint iter_run (fuel : nat) (i : Iterator S) (xs : list op) : outcome (list (option (bytes * bytes))) :=
  match xs with
  | [] => Ok []
  | x :: xs' =>
      let! i' := iter_step fuel i x in
      let! rest := iter_run fuel i' xs' in Ok (current i' :: rest)
  end.
End Run.

(** *** Facts about the live keys *)

Context `{!Comparator cmp}.

Lemma live_cons x r : live (x :: r) = shows x ++ live_after (Some (uk x)) r.
Proof. done. Qed.

Lemma live_after_same k x r : uk x = k -> live_after (Some k) (x :: r) = live_after (Some k) r.
Proof.
  intros <-. unfold live_after. cbn [newest_from]. unfold same_key. fold (uk x). by rewrite cmp_refl.
Qed.

Lemma live_after_diff k x r : uk x <> k -> live_after (Some k) (x :: r) = live (x :: r).
Proof.
  intros Hk. unfold live, live_after. cbn [newest_from]. unfold same_key. fold (uk x).
  destruct (Z.eqb_spec (cmp k (uk x)) 0) as [E|_]; [|done]. apply cmp_eq in E. congruence.
Qed.

Lemma live_after_elem last l kv : kv ∈ live_after last l -> exists e, e ∈ l /\ uk e = kv.1.
Proof.
  revert last. induction l as [|x l IH]; intros last H; [by apply elem_of_nil in H|].
  unfold live_after in H. cbn [newest_from] in H. destruct (match last with Some _ => _ | None => _ end).
  - destruct (IH _ H) as (e & ? & ?). exists e. split; [by right|done].
  - cbn [flat_map] in H. apply elem_of_app in H as [H|H].
    + unfold shows in H. destruct (_ =? _); [|by apply elem_of_nil in H]. apply list_elem_of_singleton in H as ->.
      exists x. split; [left|done].
    + destruct (IH _ H) as (e & ? & ?). exists e. split; [by right|done].
Qed.

Lemma seek_pos_range k L : 0 <= seek_pos k L <= len L.
Proof.
  induction L as [|[k' v] L IH]; cbn [seek_pos]; [done|]. rewrite len_cons. pose proof (len_nonneg L). destruct (_ <? 0); lia.
Qed.

Lemma seek_pos_app k L1 L2 :
  Forall (fun kv => cmp kv.1 k < 0) L1 -> Forall (fun kv => 0 <= cmp kv.1 k) L2 -> seek_pos k (L1 ++ L2) = len L1.
Proof.
  intros H1 H2. induction H1 as [|[k' v] L1 H _ IH]; cbn [app seek_pos].
  - destruct H2 as [|[k' v] L2 H _]; [done|]. cbn [seek_pos]. by rewrite (proj2 (Z.ltb_ge _ 0)).
  - rewrite (proj2 (Z.ltb_lt _ 0)) by done. rewrite IH, len_cons. done.
Qed.

Lemma seek_pos_mono k k' L : cmp k k' <= 0 -> seek_pos k L <= seek_pos k' L.
Proof.
  intros Hk. induction L as [|[x v] L IH]; cbn [seek_pos]; [done|].
  destruct (Z.ltb_spec (cmp x k) 0) as [H|H]; [|pose proof (seek_pos_range k' L); destruct (_ <? 0); lia].
  rewrite (proj2 (Z.ltb_lt (cmp x k') 0)) by (by eapply cmp_lt_le_trans). lia.
Qed.

Lemma seek_pos_le k L a kv : lookupZ L a = Some kv -> 0 <= cmp kv.1 k -> seek_pos k L <= a.
Proof.
  revert a. induction L as [|[x v] L IH]; intros a Ha Hk; [by rewrite lookupZ_nil in Ha|].
  pose proof (lookupZ_is_Some _ _ _ Ha). cbn [seek_pos]. destruct (Z.ltb_spec (cmp x k) 0); [|lia].
  destruct (decide (a = 0)) as [->|]; [injection Ha as <-; cbn in Hk; lia|].
  rewrite lookupZ_cons in Ha by lia. specialize (IH (a - 1) Ha Hk). lia.
Qed.
End Spec.

Section Props.
Context (cmp : bytes -> bytes -> Z) `{!Comparator cmp} (equal : bytes -> bytes -> bool) (split : bytes -> Z).
Context (Hequal : forall a b, equal a b = true <-> a = b).
Context {S : Type} (o : iterOps S) (R : S -> list entry -> Z -> Prop) (lo up : option bytes) `{!CursorLaws cmp lo up o R}.
Context (l : list entry).

(** A scan without surprises: ordered, of known kinds, inside the bounds, and an
    entry numbered zero is the oldest of its key. *)
Record scannable : Prop := mkScannable {
  sc_sorted : StronglySorted (entry_lt cmp) l;
  sc_kinds : Forall (fun e : entry => InternalKey.KindOf e.1 = InternalKey.KindSet \/
    InternalKey.KindOf e.1 = InternalKey.KindDelete \/ InternalKey.KindOf e.1 = InternalKey.KindPrefixDelete) l;
  sc_zero : forall p a b, lookupZ l p = Some a -> lookupZ l (p + 1) = Some b -> uk a = uk b -> InternalKey.SeqNum a.1 <> 0;
  sc_lower : forall b, lo = Some b -> Forall (fun e => 0 <= cmp (uk e) b) l;
  sc_upper : forall b, up = Some b -> Forall (fun e => cmp (uk e) b < 0) l;
  sc_bounds : forall a b, lo = Some a -> up = Some b -> cmp a b <= 0
}.
Context (Hsc : scannable).

(** The entries before and from a position on. *)
Definition tk (p : Z) : list entry := take (Z.to_nat p) l.
Definition dp (p : Z) : list entry := drop (Z.to_nat p) l.

(** A position between the entries of two keys. *)
Definition cut (p : Z) : Prop :=
  0 <= p <= len l /\ forall a b, lookupZ l (p - 1) = Some a -> lookupZ l p = Some b -> uk a <> uk b.

Lemma cut_0 : cut 0.
Proof. split; [pose proof (len_nonneg l); lia|]. intros a b Ha. apply lookupZ_is_Some in Ha. lia. Qed.

Lemma cut_end : cut (len l).
Proof. split; [pose proof (len_nonneg l); lia|]. intros a b _ Hb. apply lookupZ_is_Some in Hb. lia. Qed.

(** Going on from the entry at [p - 1]. *)
Lemma live_after_cut p a : cut p -> lookupZ l (p - 1) = Some a -> live_after cmp (Some (uk a)) (dp p) = live cmp (dp p).
Proof.
  intros [Hp Hc] Ha. unfold dp. destruct (lookupZ l p) as [b|] eqn:Hb.
  - rewrite (drop_lookupZ _ _ _ Hb). apply live_after_diff; [done|]. intros E. by eapply Hc.
  - by rewrite drop_lookupZ_None by (done || lia).
Qed.

(** The entries of one key from [p] to [q]: the first decides. *)
Definition run (p q : Z) (e : entry) : Prop :=
  lookupZ l p = Some e /\ p < q <= len l /\ forall j b, p <= j < q -> lookupZ l j = Some b -> uk b = uk e.

Lemma live_run p q e : run p q e -> cut q -> live cmp (dp p) = shows e ++ live cmp (dp q).
Proof.
  intros (He & Hq & Hrun) Hc. unfold dp at 1. rewrite (drop_lookupZ _ _ _ He), live_cons. f_equal.
  pose proof (lookupZ_is_Some _ _ _ He) as Hp. fold (dp (p + 1)).
  assert (Hskip : forall n, p + 1 + Z.of_nat n <= q ->
    live_after cmp (Some (uk e)) (dp (p + 1)) = live_after cmp (Some (uk e)) (dp (p + 1 + Z.of_nat n))).
  { induction n as [|n IH]; intros Hn; [do 2 f_equal; lia|]. rewrite IH by lia.
    destruct (lookupZ_Some l (p + 1 + Z.of_nat n)) as [b Hb]; [lia|]. unfold dp at 1. rewrite (drop_lookupZ _ _ _ Hb).
    rewrite (live_after_same cmp) by (eapply Hrun; [|exact Hb]; lia). unfold dp. do 3 f_equal. lia. }
  rewrite (Hskip (Z.to_nat (q - p - 1))) by lia. replace (p + 1 + Z.of_nat (Z.to_nat (q - p - 1))) with q by lia.
  destruct (lookupZ_Some l (q - 1)) as [a Ha]; [lia|]. rewrite <-(Hrun (q - 1) a) by (done || lia). by apply live_after_cut.
Qed.

Lemma live_after_app last l1 l2 :
  live_after cmp last (l1 ++ l2) =
  live_after cmp last l1 ++ live_after cmp (match list.last l1 with Some e => Some (uk e) | None => last end) l2.
Proof.
  revert last. induction l1 as [|x l1 IH]; intros last; [done|]. cbn [app].
  assert (Hl : match list.last (x :: l1) with Some e => Some (uk e) | None => last end =
               match list.last l1 with Some e => Some (uk e) | None => Some (uk x) end).
  { destruct l1 as [|y l1]; [done|]. change (list.last (x :: y :: l1)) with (list.last (y :: l1)).
    destruct (list.last (y :: l1)) eqn:E; [done|]. by apply last_None in E. }
  rewrite Hl. destruct last as [k|].
  - destruct (decide (uk x = k)) as [<-|Hk].
    + rewrite !live_after_same by done. apply IH.
    + rewrite !live_after_diff, !live_cons, <-app_assoc by done. f_equal. apply IH.
  - change (live_after cmp None (x :: l1 ++ l2)) with (live cmp (x :: l1 ++ l2)).
    change (live_after cmp None (x :: l1)) with (live cmp (x :: l1)). rewrite !live_cons, <-app_assoc. f_equal. apply IH.
Qed.

Lemma last_lookupZ (m : list entry) : list.last m = lookupZ m (len m - 1).
Proof.
  rewrite last_lookup. unfold lookupZ, len. destruct m as [|x m]; [done|]. destruct (Z.ltb_spec (Z.of_nat (length (x :: m)) - 1) 0).
  - cbn [length] in *. lia.
  - f_equal. lia.
Qed.

Lemma lookupZ_take (m : list entry) n j : 0 <= j < n -> lookupZ (take (Z.to_nat n) m) j = lookupZ m j.
Proof. intros Hj. unfold lookupZ. destruct (Z.ltb_spec j 0); [done|]. apply lookup_take_lt. lia. Qed.

Lemma len_tk p : 0 <= p <= len l -> len (tk p) = p.
Proof. intros Hp. unfold tk, len in *. rewrite length_take. lia. Qed.

(** The live keys on the two sides of a cut, up to a later cut. *)
Lemma live_between p q : 0 <= p <= q -> q <= len l -> cut p -> live cmp (tk q) = live cmp (tk p) ++ live cmp (drop (Z.to_nat p) (tk q)).
Proof.
  intros Hpq Hq [Hp Hc]. assert (E : tk q = tk p ++ drop (Z.to_nat p) (tk q)).
  { unfold tk at 2. rewrite <-(take_drop (Z.to_nat p) (tk q)) at 1. f_equal. unfold tk. rewrite take_take. f_equal. lia. }
  rewrite E at 1. unfold live at 1. rewrite live_after_app. f_equal.
  rewrite last_lookupZ, len_tk by lia. destruct (decide (p = 0)) as [->|Hp0]; [done|].
  destruct (lookupZ_Some l (p - 1)) as [a Ha]; [lia|]. unfold tk at 1. rewrite lookupZ_take, Ha by lia.
  destruct (decide (p = q)) as [<-|Hne].
  { rewrite drop_ge; [done|]. unfold tk. rewrite length_take. lia. }
  destruct (lookupZ_Some l p) as [b Hb]; [lia|].
  assert (Hb' : lookupZ (tk q) p = Some b) by (unfold tk; rewrite lookupZ_take by lia; done).
  rewrite (drop_lookupZ _ _ _ Hb'). apply live_after_diff; [done|]. intros E'. by apply (Hc a b).
Qed.

Lemma tk_all : tk (len l) = l.
Proof. unfold tk. apply take_ge. unfold len. lia. Qed.

Lemma live_cut p : cut p -> live cmp l = live cmp (tk p) ++ live cmp (dp p).
Proof.
  intros Hc. pose proof (proj1 Hc). rewrite <-tk_all at 1. rewrite (live_between p (len l)) by (done || lia). by rewrite tk_all.
Qed.

(** The fields no step of the walk touches. *)
Definition frame (i i' : Iterator S) : Prop :=
  lowerBound i' = lowerBound i /\ upperBound i' = upperBound i /\ ierr i' = ierr i /\ hasPrefix i' = hasPrefix i /\
  prefixOrFullSeekKey i' = prefixOrFullSeekKey i /\ lastPositioningOp i' = lastPositioningOp i.

Lemma frame_refl i : frame i i.
Proof. done. Qed.
Lemma frame_trans i j k : frame i j -> frame j k -> frame i k.
Proof. unfold frame. intuition congruence. Qed.

(** The internal iterator stands at [p]. *)
Definition on (i : Iterator S) (p : Z) : Prop := R (iter i) l p /\ iterKV i = lookupZ l p.

Lemma next_loop_spec fuel i p e :
  on i p -> lookupZ l p = Some e -> key i = uk e -> (length (dp p) <= fuel)%nat ->
  exists i' q, next_loop equal o fuel (InternalKey.SeqNum e.1 =? 0) i = Ok i' /\ on i' q /\ run p q e /\ cut q /\
    frame i i' /\ isValid i' = isValid i /\ pos i' = pos i.
Proof.
  revert i p e. induction fuel as [|fuel IH]; intros i p e [HR Hkv] He Hk Hf.
  { unfold dp in Hf. rewrite (drop_lookupZ _ _ _ He) in Hf. cbn in Hf. lia. }
  pose proof (lookupZ_is_Some _ _ _ He) as Hp. cbn [next_loop]. unfold move.
  destruct (cur_next _ _ _ HR Hp) as (s' & -> & HR'). cbn [rbind set_kv iterKV].
  assert (Hone : forall q, p < q <= len l -> q = p + 1 -> run p q e).
  { intros q Hq ->. split; [done|]. split; [done|]. intros j b Hj Hb. assert (j = p) as -> by lia. congruence. }
  destruct (lookupZ l (p + 1)) as [[k v]|] eqn:E.
  - pose proof (lookupZ_is_Some _ _ _ E) as Hp1. cbn [key].
    assert (Hstop : uk e <> InternalKey.UserKey k -> cut (p + 1)).
    { intros Hne. split; [lia|]. replace (p + 1 - 1) with p by lia. rewrite He, E. by intros a b [= <-] [= <-]. }
    destruct (Z.eqb_spec (InternalKey.SeqNum e.1) 0) as [Hz|Hnz].
    + exists (set_kv i s' (Some (k, v))), (p + 1). split; [done|]. split; [split; [done|by rewrite E]|]. split; [apply Hone; lia|].
      split; [|done]. apply Hstop. intros Heq. by apply (sc_zero Hsc p e (k, v)).
    + change (key (set_kv i s' (Some (k, v)))) with (key i). rewrite Hk. destruct (equal (uk e) (InternalKey.UserKey k)) eqn:Eq; cbn [negb].
      * apply Hequal in Eq. destruct (IH (set_kv i s' (Some (k, v))) (p + 1) (k, v)) as (i' & q & Hl & On & (_ & Hq & Hr) & Hc & Fr & Hv & Hpos);
          [split; [done|by rewrite E]|done|change (key i = InternalKey.UserKey k); congruence| |].
        { unfold dp in Hf |- *. rewrite (drop_lookupZ _ _ _ He) in Hf. cbn in Hf. lia. }
        exists i', q. split; [done|]. split; [done|]. split; [|done]. split; [done|]. split; [lia|].
        intros j b Hj Hb. destruct (decide (j = p)) as [->|]; [congruence|]. rewrite (Hr j b) by (done || lia). done.
      * exists (set_kv i s' (Some (k, v))), (p + 1). split; [done|]. split; [split; [done|by rewrite E]|]. split; [apply Hone; lia|].
        split; [|done]. apply Hstop. intros Heq. apply Hequal in Heq. congruence.
  - assert (Hend : p + 1 = len l).
    { destruct (decide (p + 1 < len l)); [|lia]. destruct (lookupZ_Some l (p + 1)) as [x Hx]; [lia|congruence]. }
    exists (set_kv i s' None), (p + 1). split; [done|]. split; [split; [done|by rewrite E]|]. split; [apply Hone; lia|].
    split; [|done]. rewrite Hend. apply cut_end.
Qed.

(** [nextUserKey] goes to the first entry of the next key. *)
Lemma nextUserKey_spec fuel i p e :
  on i p -> lookupZ l p = Some e -> (isValid i = true -> key i = uk e) -> (length (dp p) <= fuel)%nat ->
  exists i' q, nextUserKey equal o fuel i = Ok i' /\ on i' q /\ run p q e /\ cut q /\
    frame i i' /\ isValid i' = isValid i /\ pos i' = pos i.
Proof.
  intros [HR Hkv] He Hk Hf. unfold nextUserKey. rewrite Hkv, He. destruct e as [k v].
  destruct (isValid i) eqn:Ev.
  - destruct (next_loop_spec fuel i p (k, v)) as (i' & q & H); [done|done|by apply Hk|done|]. rewrite Ev in H. exists i', q. exact H.
  - destruct (next_loop_spec fuel (set_key i (InternalKey.UserKey k) (value i)) p (k, v)) as (i' & q & H); [done..|].
    cbn [set_key isValid pos] in H. rewrite Ev in H. exists i', q. exact H.
Qed.

(** [prevUserKey] from the first entry of a key: one step back. *)
Lemma prevUserKey_spec fuel i p e :
  on i p -> cut p -> lookupZ l p = Some e -> isValid i = false -> (0 < fuel)%nat ->
  exists i', prevUserKey equal o fuel i = Ok i' /\ on i' (p - 1) /\ frame i i' /\ isValid i' = false /\ pos i' = pos i.
Proof.
  intros [HR Hkv] [Hp Hc] He Hv Hf. unfold prevUserKey. rewrite Hkv, He, Hv. destruct e as [k v]. destruct fuel as [|fuel]; [lia|].
  cbn [prev_loop]. unfold move. cbn [set_key iter].
  destruct (cur_prev _ _ _ HR (lookupZ_is_Some _ _ _ He)) as (s' & -> & HR'). cbn [rbind set_kv iterKV].
  destruct (lookupZ l (p - 1)) as [[k' v']|] eqn:E.
  - cbn [key set_kv set_key]. destruct (equal (InternalKey.UserKey k) (InternalKey.UserKey k')) eqn:Eq.
    + exfalso. apply Hequal in Eq. by apply (Hc (k', v') (k, v)).
    + eexists. split; [done|]. split; [split; [done|by rewrite E]|]. done.
  - eexists. split; [done|]. split; [split; [done|by rewrite E]|]. done.
Qed.
(** The iterator shows the entry [e]. *)
Definition showing (i : Iterator S) (e : entry) : Prop :=
  isValid i = true /\ key i = uk e /\ value i = e.2 /\ InternalKey.KindOf e.1 = InternalKey.KindSet.

Lemma shows_set e : InternalKey.KindOf e.1 = InternalKey.KindSet -> shows e = [(uk e, e.2)].
Proof. intros E. unfold shows. by rewrite E. Qed.

Lemma shows_other e : InternalKey.KindOf e.1 <> InternalKey.KindSet -> shows e = [].
Proof. intros E. unfold shows. by rewrite (proj2 (Z.eqb_neq _ _)). Qed.

Lemma same_before p q : cut p -> cut q -> live cmp (dp p) = live cmp (dp q) -> live cmp (tk p) = live cmp (tk q).
Proof. intros Hp Hq E. pose proof (live_cut p Hp) as H1. rewrite (live_cut q Hq), E in H1. by apply app_inv_tail in H1. Qed.

(** [findNextEntry] from the first entry of a key finds the first live key. *)
Lemma find_next_loop_spec fuel i p :
  on i p -> cut p -> isValid i = false -> hasPrefix i = false -> (length (dp p) <= fuel)%nat ->
  exists i' q, find_next_loop equal split o fuel i = Ok i' /\ on i' q /\ cut q /\ frame i i' /\ pos i' = pos i /\
    live cmp (tk q) = live cmp (tk p) /\
    ((q = len l /\ isValid i' = false) \/ exists e, lookupZ l q = Some e /\ showing i' e).
Proof.
  revert i p. induction fuel as [|fuel IH]; intros i p Hon Hc Hv Hpre Hf; pose proof Hon as [HR Hkv]; cbn [find_next_loop]; rewrite Hkv.
  - destruct (lookupZ l p) as [e|] eqn:E; [unfold dp in Hf; rewrite (drop_lookupZ _ _ _ E) in Hf; cbn in Hf; lia|].
    exists i, p. split; [done|]. split; [done|]. split; [done|]. split; [done|]. split; [done|]. split; [done|]. left. split; [|done].
    destruct Hc as [Hp _]. destruct (decide (p < len l)); [|lia]. destruct (lookupZ_Some l p) as [x Hx]; [lia|congruence].
  - destruct (lookupZ l p) as [[k v]|] eqn:E.
    + rewrite Hpre. cbn [rbind]. destruct (Z.eqb_spec (InternalKey.KindOf k) InternalKey.KindSet) as [Hs|Hs].
      * eexists _, p. split; [done|]. split; [done|]. split; [done|]. split; [done|]. split; [done|]. split; [done|]. right. by exists (k, v).
      * destruct (nextUserKey_spec (Datatypes.S (Datatypes.S fuel)) i p (k, v)) as (i1 & q & -> & On & Hrun & Hcq & Fr & Hv1 & Hpos1);
          [done|done|congruence|lia|]. cbn [rbind].
        assert (Hlt : p < q <= len l) by apply Hrun.
        destruct (IH i1 q) as (i2 & q2 & Hfind & On2 & Hc2 & Fr2 & Hpos2 & Hl2 & Hres);
          [done|done|congruence|destruct Fr as (_ & _ & _ & -> & _); done| |].
        { pose proof (lookupZ_is_Some _ _ _ E). unfold dp in *. rewrite length_drop in *. unfold len in *. lia. }
        exists i2, q2. split; [done|]. split; [done|]. split; [done|]. split; [by eapply frame_trans|]. split; [congruence|]. split; [|done].
        rewrite Hl2. symmetry. apply same_before; [done|done|]. by rewrite (live_run p q (k, v) Hrun Hcq), shows_other.
    + exists i, p. split; [done|]. split; [done|]. split; [done|]. split; [done|]. split; [done|]. split; [done|]. left. split; [|done].
      destruct Hc as [Hp _]. destruct (decide (p < len l)); [|lia]. destruct (lookupZ_Some l p) as [x Hx]; [lia|congruence].
Qed.

(** What follows the first entry of a key, seen from the entry before it. *)
Lemma live_back q0 j x :
  lookupZ l j = Some x -> j < q0 -> q0 <= len l ->
  (j + 1 = q0 \/ exists y, lookupZ l (j + 1) = Some y /\ j + 1 < q0 /\
    live cmp (drop (Z.to_nat (j + 1)) (tk q0)) = if decide (uk x = uk y) then shows y else []) ->
  live cmp (drop (Z.to_nat j) (tk q0)) = shows x.
Proof.
  intros Hx Hj Hq H. pose proof (lookupZ_is_Some _ _ _ Hx) as Hj0.
  assert (Hx' : lookupZ (tk q0) j = Some x) by (unfold tk; rewrite lookupZ_take by lia; done).
  rewrite (drop_lookupZ _ _ _ Hx'), live_cons. destruct H as [H|(y & Hy & Hj1 & H)].
  - rewrite drop_ge; [by rewrite app_nil_r|]. unfold tk. rewrite length_take. lia.
  - assert (Hy' : lookupZ (tk q0) (j + 1) = Some y) by (unfold tk; rewrite lookupZ_take by lia; done).
    rewrite (drop_lookupZ _ _ _ Hy') in H |- *. destruct (decide (uk x = uk y)) as [Exy|Exy].
    + rewrite live_after_same by done. rewrite live_cons in H. rewrite Exy. rewrite <-(app_nil_r (shows y)) in H at 2.
      apply app_inv_head in H. rewrite H. apply app_nil_r.
    + rewrite live_after_diff by done. rewrite H. apply app_nil_r.
Qed.

(** [findPrevEntry]: after the entries from [j] up to the cut [q0], what was
    read last decides. *)
Lemma find_prev_loop_spec fuel i j q0 :
  on i (j - 1) -> 0 <= j <= q0 -> cut q0 -> pos i = iterPosCurReverse -> ierr i = None -> (Z.to_nat j <= fuel)%nat ->
  (isValid i = false /\ live cmp (drop (Z.to_nat j) (tk q0)) = [] \/
   exists e, j < q0 /\ lookupZ l j = Some e /\ showing i e /\ live cmp (drop (Z.to_nat j) (tk q0)) = shows e) ->
  exists i', find_prev_loop equal o fuel i = Ok i' /\ frame i i' /\
    ((pos i' = iterPosCurReverse /\ isValid i' = false /\ iterKV i' = None /\ on i' (-1) /\ live cmp (tk q0) = []) \/
     (exists q e, pos i' = iterPosPrev /\ on i' (q - 1) /\ cut q /\ q < q0 /\ lookupZ l q = Some e /\ showing i' e /\
        live cmp (tk q0) = live cmp (tk q) ++ shows e)).
Proof.
  revert i j. induction fuel as [|fuel IH]; intros i j Hon Hj Hc0 Hpos He Hf Hst.
  all: pose proof Hon as [HR Hkv]; assert (Hq0 : q0 <= len l) by apply Hc0.
  all: assert (Hret : forall e, cut j -> j < q0 -> lookupZ l j = Some e -> showing i e -> live cmp (drop (Z.to_nat j) (tk q0)) = shows e ->
    exists i', Ok (E := error) (found_prev i) = Ok i' /\ frame i i' /\
    ((pos i' = iterPosCurReverse /\ isValid i' = false /\ iterKV i' = None /\ on i' (-1) /\ live cmp (tk q0) = []) \/
     (exists q e, pos i' = iterPosPrev /\ on i' (q - 1) /\ cut q /\ q < q0 /\ lookupZ l q = Some e /\ showing i' e /\
        live cmp (tk q0) = live cmp (tk q) ++ shows e))) by
    (intros e Hcj Hlt Hl Hsh Hd; eexists; split; [done|]; split; [done|]; right; exists j, e; split; [done|]; split; [done|];
     split; [done|]; split; [done|]; split; [done|]; split;
     [destruct Hsh as (? & ? & ? & ?); unfold found_prev, showing; cbn; by rewrite He|rewrite (live_between j q0) by (done || lia); by rewrite Hd]).
  all: cbn [find_prev_loop]; rewrite Hkv.
  all: destruct (lookupZ l (j - 1)) as [[k v]|] eqn:E; [pose proof (lookupZ_is_Some _ _ _ E) as Hj1; try lia|].
  all: try (assert (Hj0 : j = 0) by (destruct (decide (j = 0)); [done|]; destruct (lookupZ_Some l (j - 1)) as [x Hx]; [lia|congruence]); subst j;
    destruct Hst as [[Hv Hd]|(e & Hlt & Hl & Hsh & Hd)];
    [rewrite Hv; eexists; split; [done|]; split; [done|]; left; split; [done|]; split; [done|]; split; [done|]; split; [split; [done|by rewrite Hkv]|exact Hd]
    |rewrite (proj1 Hsh); apply (Hret e); [apply cut_0|done..]]).
  (* the entry before [j] *)
  destruct (isValid i && negb (equal (InternalKey.UserKey k) (key i))) eqn:Ediff.
  - apply andb_true_iff in Ediff as [Hv Hne]. destruct Hst as [[Hv' _]|(e & Hlt & Hl & Hsh & Hd)]; [congruence|].
    apply (Hret e); try done. split; [lia|]. rewrite E, Hl. intros a b [= <-] [= <-] Heq. apply negb_true_iff in Hne.
    assert (equal (InternalKey.UserKey k) (key i) = true) by (apply Hequal; destruct Hsh as (_ & -> & _); exact Heq). congruence.
  - assert (Hlive : live cmp (drop (Z.to_nat (j - 1)) (tk q0)) = shows (k, v)).
    { apply (live_back q0 (j - 1) (k, v) E); [lia|done|]. destruct (decide (j = q0)) as [->|Hjq]; [left; lia|right].
      destruct (lookupZ_Some l j) as [y Hy]; [lia|]. exists y. replace (j - 1 + 1) with j by lia. split; [done|]. split; [lia|].
      destruct Hst as [[Hv Hd]|(e & Hlt & Hl & Hsh & Hd)].
      - destruct (decide _) as [Exy|]; [|done]. rewrite Hd. unfold tk in Hd.
        assert (Hy' : lookupZ (tk q0) j = Some y) by (unfold tk; rewrite lookupZ_take by lia; done).
        fold (tk q0) in Hd. rewrite (drop_lookupZ _ _ _ Hy'), live_cons in Hd. by apply app_eq_nil in Hd as [-> _].
      - assert (y = e) as -> by congruence. rewrite Hd. destruct Hsh as (Hv & Hk & _). rewrite Hv in Ediff. cbn in Ediff.
        apply negb_false_iff, Hequal in Ediff. rewrite decide_True; [done|]. unfold uk at 1. cbn. congruence. }
    assert (Hmv : exists s', itPrev o (iter i) = Ok (s', lookupZ l (j - 1 - 1)) /\ R s' l (j - 1 - 1)) by (eapply cur_prev; [exact HR|lia]).
    destruct Hmv as (s' & Hmv & HR'). pose proof (Forall_lookupZ _ _ _ _ (sc_kinds Hsc) E) as Hkind. cbn in Hkind.
    destruct Hkind as [Hset|Hdel].
    + rewrite Hset. cbn [orb]. change (InternalKey.KindSet =? InternalKey.KindDelete) with false.
      change (InternalKey.KindSet =? InternalKey.KindPrefixDelete) with false. rewrite Z.eqb_refl. cbn [orb].
      unfold move. cbn [set_state set_key iter]. rewrite Hmv. cbn [rbind].
      match goal with |- context [find_prev_loop _ _ _ ?x] => set (i1 := x) end.
      destruct (IH i1 (j - 1)) as (i' & Hl' & Fr & Hres); [done|lia|done|done|done|lia| |].
      { right. exists (k, v). split; [lia|]. split; [done|]. split; [done|]. exact Hlive. }
      exists i'. split; [done|]. split; [exact Fr|]. done.
    + assert (Hns : InternalKey.KindOf k <> InternalKey.KindSet) by (destruct Hdel as [->| ->]; done).
      assert (Hd : (InternalKey.KindOf k =? InternalKey.KindDelete) || (InternalKey.KindOf k =? InternalKey.KindPrefixDelete) = true)
        by (apply orb_true_iff; destruct Hdel as [->| ->]; [left|right]; done).
      rewrite Hd. unfold move. cbn [set_state set_key iter]. rewrite Hmv. cbn [rbind].
      match goal with |- context [find_prev_loop _ _ _ ?x] => set (i1 := x) end.
      destruct (IH i1 (j - 1)) as (i' & Hl' & Fr & Hres); [done|lia|done|done|done|lia| |].
      { left. split; [done|]. rewrite Hlive. by apply shows_other. }
      exists i'. split; [done|]. split; [exact Fr|]. done.
Qed.
(** *** The simulation *)

Let L : list (bytes * bytes) := live cmp l.

(** The four kinds of states the walk rests in. *)
Inductive stands : Iterator S -> Z -> Prop :=
| at_entry i p e : pos i = iterPosCurForward -> on i p -> cut p -> lookupZ l p = Some e -> showing i e ->
    stands i (len (live cmp (tk p)))
| at_end i : pos i = iterPosCurForward -> isValid i = false -> iterKV i = None -> (exists p, R (iter i) l p) ->
    stands i (len L)
| before_entry i q e : pos i = iterPosPrev -> on i (q - 1) -> cut q -> lookupZ l q = Some e -> showing i e ->
    stands i (len (live cmp (tk q)))
| at_start i : pos i = iterPosCurReverse -> isValid i = false -> iterKV i = None -> (exists p, R (iter i) l p) ->
    stands i (-1).

(** A remembered seek: the iterator still stands where it led. *)
Definition remembers (i : Iterator S) (a : Z) : Prop :=
  match lastPositioningOp i with
  | unknownLastPositionOp => True
  | seekPrefixGELastPositioningOp => False
  | seekGELastPositioningOp => pos i = iterPosCurForward /\ a = seek_pos cmp (prefixOrFullSeekKey i) L
  | seekLTLastPositioningOp => pos i <> iterPosCurForward /\ a = seek_pos cmp (prefixOrFullSeekKey i) L - 1
  end.

Definition rep (i : Iterator S) (a : Z) : Prop :=
  stands i a /\ ierr i = None /\ hasPrefix i = false /\ lowerBound i = lo /\ upperBound i = up /\ remembers i a.

Lemma live_at p e : cut p -> lookupZ l p = Some e -> InternalKey.KindOf e.1 = InternalKey.KindSet ->
  exists L', L = live cmp (tk p) ++ (uk e, e.2) :: L'.
Proof.
  intros Hc He Hs. unfold L. rewrite (live_cut p Hc). unfold dp. rewrite (drop_lookupZ _ _ _ He), live_cons, shows_set by done.
  eexists. done.
Qed.

Lemma lookupZ_mid {A} (l1 : list A) x l2 : lookupZ (l1 ++ x :: l2) (len l1) = Some x.
Proof. unfold lookupZ, len. destruct (Z.ltb_spec (Z.of_nat (length l1)) 0); [lia|]. rewrite Nat2Z.id. by apply list_lookup_middle. Qed.

Lemma shows_at p e : cut p -> lookupZ l p = Some e -> InternalKey.KindOf e.1 = InternalKey.KindSet ->
  lookupZ L (len (live cmp (tk p))) = Some (uk e, e.2).
Proof. intros Hc He Hs. destruct (live_at p e Hc He Hs) as [L' ->]. apply lookupZ_mid. Qed.

Lemma stands_current i a : stands i a -> current i = lookupZ L a /\ -1 <= a <= len L /\ (isValid i = false -> a = -1 \/ a = len L).
Proof.
  pose proof (len_nonneg L) as HL. unfold current.
  destruct 1 as [i p e _ _ Hc He (-> & -> & -> & Hs)|i _ -> _ _|i q e _ _ Hc He (-> & -> & -> & Hs)|i _ -> _ _].
  - rewrite (shows_at p e Hc He Hs). pose proof (lookupZ_is_Some _ _ _ (shows_at p e Hc He Hs)). split; [done|]. split; [lia|done].
  - rewrite lookupZ_None by lia. split; [done|]. split; [lia|auto].
  - rewrite (shows_at q e Hc He Hs). pose proof (lookupZ_is_Some _ _ _ (shows_at q e Hc He Hs)). split; [done|]. split; [lia|done].
  - split; [done|]. split; [lia|auto].
Qed.

Lemma stands_R i a : stands i a -> exists p, R (iter i) l p.
Proof. destruct 1 as [i p e _ [HR _]|i _ _ _ H|i q e _ [HR _]|i _ _ _ H]; eauto. Qed.

(** The two searches lead to such states. *)
Lemma findNextEntry_spec fuel i p :
  on i p -> cut p -> hasPrefix i = false -> (length l <= fuel)%nat ->
  exists i', findNextEntry equal split o fuel i = Ok i' /\ frame i i' /\ pos i' = iterPosCurForward /\ stands i' (len (live cmp (tk p))).
Proof.
  intros Hon Hc Hp Hf. unfold findNextEntry.
  destruct (find_next_loop_spec fuel (set_state i false iterPosCurForward) p) as (i' & q & -> & On & Hcq & Fr & Hpos & Hl & Hres);
    [done|done|done|done|unfold dp; rewrite length_drop; lia|].
  exists i'. split; [done|]. split; [exact Fr|]. split; [done|]. rewrite <-Hl. destruct Hres as [[-> Hv]|(e & He & Hsh)].
  - rewrite tk_all. apply at_end; [done|done| |exists (len l); apply On]. destruct On as [_ ->]. by apply lookupZ_None.
  - by eapply at_entry.
Qed.

Lemma findPrevEntry_spec fuel i q :
  on i (q - 1) -> cut q -> ierr i = None -> (length l <= fuel)%nat ->
  exists i', findPrevEntry equal o fuel i = Ok i' /\ frame i i' /\ pos i' <> iterPosCurForward /\ stands i' (len (live cmp (tk q)) - 1).
Proof.
  intros Hon Hc He Hf. unfold findPrevEntry. pose proof (proj1 Hc) as Hq.
  destruct (find_prev_loop_spec fuel (set_state i false iterPosCurReverse) q q) as (i' & -> & Fr & Hres);
    [done|lia|done|done|done|unfold len in Hq; lia| |].
  { left. split; [done|]. rewrite drop_ge; [done|]. unfold tk. rewrite length_take. lia. }
  exists i'. split; [done|]. split; [exact Fr|]. destruct Hres as [(Hp & Hv & Hkv & On & ->)|(q' & e & Hp & On & Hcq & Hlt & Hl & Hsh & ->)].
  - split; [by rewrite Hp|]. apply at_start; [done|done|done|]. exists (-1). apply On.
  - split; [by rewrite Hp|]. rewrite (shows_set e) by apply Hsh. rewrite len_app. change (len [(uk e, e.2)]) with 1.
    replace (len (live cmp (tk q')) + 1 - 1) with (len (live cmp (tk q'))) by lia. by eapply before_entry.
Qed.

(** Seeks of the internal iterator are cuts. *)
Lemma seek_cut k : cut (list_seek cmp k l).
Proof.
  split; [apply list_seek_range|]. intros a b Ha Hb E. pose proof (list_seek_before cmp k l _ a Ha ltac:(lia)) as H1.
  pose proof (list_seek_after cmp k l _ b (sc_sorted Hsc) Hb ltac:(lia)) as H2. unfold uk in E. rewrite E in H1. lia.
Qed.

Lemma seek_live k : len (live cmp (tk (list_seek cmp k l))) = seek_pos cmp k L /\
  Forall (fun kv => 0 <= cmp kv.1 k) (live cmp (dp (list_seek cmp k l))).
Proof.
  set (q := list_seek cmp k l). pose proof (list_seek_range cmp k l) as Hq.
  assert (H1 : Forall (fun kv => cmp kv.1 k < 0) (live cmp (tk q))).
  { apply Forall_forall. intros kv (e & He & <-)%live_after_elem. apply list_elem_of_lookup in He as [n Hn].
    unfold tk in Hn. apply lookup_take_Some in Hn as [Hn Hlt].
    apply (list_seek_before cmp k l (Z.of_nat n) e); [|fold q; lia]. unfold lookupZ.
    destruct (Z.ltb_spec (Z.of_nat n) 0); [lia|]. by rewrite Nat2Z.id. }
  assert (H2 : Forall (fun kv => 0 <= cmp kv.1 k) (live cmp (dp q))).
  { apply Forall_forall. intros kv (e & He & <-)%live_after_elem. apply list_elem_of_lookup in He as [n Hn].
    unfold dp in Hn. rewrite lookup_drop in Hn.
    apply (list_seek_after cmp k l (Z.of_nat (Z.to_nat q + n)) e (sc_sorted Hsc)); [|fold q; lia]. unfold lookupZ.
    destruct (Z.ltb_spec (Z.of_nat (Z.to_nat q + n)) 0); [lia|]. by rewrite Nat2Z.id. }
  split; [|done]. unfold L. rewrite (live_cut q (seek_cut k)). by rewrite seek_pos_app.
Qed.

Lemma seek_pos_gt k a kv : lookupZ L a = Some kv -> cmp kv.1 k < 0 -> a < seek_pos cmp k L.
Proof.
  intros Ha Hk. destruct (seek_live k) as [<- Hge]. set (q := list_seek cmp k l) in *.
  destruct (Z.lt_ge_cases a (len (live cmp (tk q)))) as [|Hle]; [done|exfalso]. unfold L in Ha. rewrite (live_cut q (seek_cut k)) in Ha.
  unfold lookupZ in Ha. destruct (Z.ltb_spec a 0); [done|]. rewrite lookup_app_r in Ha by (unfold len in Hle; lia).
  eapply Forall_lookup_1 in Ha; [|exact Hge]. cbn in Ha. lia.
Qed.

(** All live keys are inside the bounds. *)
Lemma live_bounded P : Forall (fun e => P (uk e)) l -> Forall (fun kv => P kv.1) L.
Proof.
  rewrite !Forall_forall. intros H kv (e & He & <-)%live_after_elem. by apply H.
Qed.

Lemma seek_pos_low k : Forall (fun kv => 0 <= cmp kv.1 k) L -> seek_pos cmp k L = 0.
Proof. intros H. apply (seek_pos_app cmp k [] L); [constructor|done]. Qed.
Lemma seek_pos_high k : Forall (fun kv => cmp kv.1 k < 0) L -> seek_pos cmp k L = len L.
Proof. intros H. rewrite <-(app_nil_r L) at 1. apply seek_pos_app; [done|constructor]. Qed.

Lemma le_of_lt_le a b c : 0 <= cmp a b -> cmp c b < 0 -> 0 <= cmp a c.
Proof.
  intros Hab Hcb. destruct (Z.le_gt_cases 0 (cmp a c)) as [|Hac]; [done|]. exfalso.
  pose proof (cmp_trans (cmp := cmp) _ _ _ Hac Hcb). lia.
Qed.

Lemma seek_below b k : lo = Some b -> cmp k b < 0 -> seek_pos cmp b L = seek_pos cmp k L.
Proof.
  intros Hb Hk. pose proof (live_bounded (fun x => 0 <= cmp x b) (sc_lower Hsc b Hb)) as HF. rewrite !seek_pos_low; [done| |done].
  eapply Forall_impl; [exact HF|]. intros kv Hkv. exact (le_of_lt_le _ _ _ Hkv Hk).
Qed.

Lemma seek_above b k : up = Some b -> 0 < cmp k b -> seek_pos cmp b L = seek_pos cmp k L.
Proof.
  intros Hb Hk. pose proof (live_bounded (fun x => cmp x b < 0) (sc_upper Hsc b Hb)) as HF. rewrite !seek_pos_high; [done| |done].
  eapply Forall_impl; [exact HF|]. intros kv Hkv. cbn in *. eapply (cmp_trans (cmp := cmp)); [exact Hkv|]. by apply cmp_gt_lt.
Qed.
(** *** The operations *)

Lemma move_on m i q :
  (exists s', m (iter i) = Ok (s', lookupZ l q) /\ R s' l q) ->
  exists i', move m i = Ok i' /\ on i' q /\ frame i i' /\ isValid i' = isValid i /\ pos i' = pos i /\ key i' = key i.
Proof. intros (s' & E & HR). unfold move. rewrite E. cbn [rbind]. eexists. split; [done|]. done. Qed.

Lemma to_first_spec i p : R (iter i) l p -> lowerBound i = lo ->
  exists i', to_first o i = Ok i' /\ on i' 0 /\ frame i i' /\ isValid i' = isValid i /\ pos i' = pos i.
Proof.
  intros HR Hlo. unfold to_first. rewrite Hlo. destruct lo as [b|] eqn:Eb.
  - destruct (move_on (itSeekGE o b) i (list_seek cmp b l)) as (i' & -> & On & Fr & Hv & Hp & _).
    { eapply cur_seekGE; [exact HR|]. intros b' [= <-]. rewrite cmp_refl; [lia|done]. }
    exists i'. split; [done|]. split; [|done].
    assert (list_seek cmp b l = 0) as <-; [|done]. pose proof (sc_lower Hsc b Eb) as HF.
    destruct l as [|e l']; [done|]. cbn [list_seek]. apply Forall_inv in HF. unfold uk in HF. by rewrite (proj2 (Z.ltb_ge _ 0)).
  - destruct (move_on (itFirst o) i 0) as (i' & -> & On & Fr & Hv & Hp & _); [by eapply cur_first|].
    exists i'. done.
Qed.

Lemma list_seek_all k (m : list entry) : Forall (fun e => cmp (uk e) k < 0) m -> list_seek cmp k m = len m.
Proof.
  induction 1 as [|e m He _ IH]; [done|]. cbn [list_seek]. unfold uk in He. rewrite (proj2 (Z.ltb_lt _ 0)) by done. rewrite IH, len_cons. done.
Qed.

Lemma to_last_spec i p : R (iter i) l p -> upperBound i = up ->
  exists i', to_last o i = Ok i' /\ on i' (len l - 1) /\ frame i i' /\ isValid i' = isValid i /\ pos i' = pos i.
Proof.
  intros HR Hup. unfold to_last. rewrite Hup. destruct up as [b|] eqn:Eb.
  - destruct (move_on (itSeekLT o b) i (list_seek cmp b l - 1)) as (i' & -> & On & Fr & Hv & Hp & _).
    { eapply cur_seekLT; [exact HR|]. intros b' [= <-]. rewrite cmp_refl; [lia|done]. }
    exists i'. split; [done|]. split; [|done]. by rewrite (list_seek_all b l (sc_upper Hsc b Eb)) in On.
  - destruct (move_on (itLast o) i (len l - 1)) as (i' & -> & On & Fr & Hv & Hp & _); [by eapply cur_last|].
    exists i'. done.
Qed.

Lemma rep_frame i i' a :
  frame i i' -> ierr i = None -> hasPrefix i = false -> lowerBound i = lo -> upperBound i = up ->
  lastPositioningOp i = unknownLastPositionOp -> stands i' a -> rep i' a.
Proof.
  intros (F1 & F2 & F3 & F4 & F5 & F6) H1 H2 H3 H4 H5 Hs. split; [done|]. rewrite F1, F2, F3, F4. unfold remembers. rewrite F6, H5. done.
Qed.

(** The start of an absolute positioning. *)
Definition fresh (i : Iterator S) : Iterator S := set_seek (set_error i None) (prefixOrFullSeekKey i) false unknownLastPositionOp.

Lemma First_spec fuel i a : rep i a -> (length l <= fuel)%nat -> exists i', First equal split o fuel i = Ok i' /\ rep i' 0.
Proof.
  intros (Hs & He & Hp & Hlo & Hup & _) Hf. destruct (stands_R _ _ Hs) as [p HR]. unfold First. fold (fresh i).
  destruct (to_first_spec (fresh i) p HR Hlo) as (i1 & -> & On & Fr & _). cbn [rbind].
  destruct (findNextEntry_spec fuel i1 0 On cut_0) as (i2 & -> & Fr2 & _ & Hs2); [by destruct Fr as (_ & _ & _ & -> & _)|done|].
  exists i2. split; [done|]. by apply (rep_frame (fresh i)); [eapply frame_trans|..].
Qed.

Lemma Last_spec fuel i a : rep i a -> (length l <= fuel)%nat -> exists i', Last equal o fuel i = Ok i' /\ rep i' (len L - 1).
Proof.
  intros (Hs & He & Hp & Hlo & Hup & _) Hf. destruct (stands_R _ _ Hs) as [p HR]. unfold Last. fold (fresh i).
  destruct (to_last_spec (fresh i) p HR Hup) as (i1 & -> & On & Fr & _). cbn [rbind].
  destruct (findPrevEntry_spec fuel i1 (len l) On cut_end) as (i2 & -> & Fr2 & _ & Hs2); [by destruct Fr as (_ & _ & -> & _)|done|].
  rewrite tk_all in Hs2. exists i2. split; [done|]. by apply (rep_frame (fresh i)); [eapply frame_trans|..].
Qed.

(** The live keys up to the next key. *)
Lemma live_step p q e : cut p -> run p q e -> cut q -> InternalKey.KindOf e.1 = InternalKey.KindSet ->
  len (live cmp (tk q)) = len (live cmp (tk p)) + 1.
Proof.
  intros Hp Hr Hq Hs. pose proof (live_cut p Hp) as E. rewrite (live_cut q Hq), (live_run p q e Hr Hq), shows_set in E by done.
  apply (f_equal len) in E. rewrite !len_app in E. change (len [(uk e, e.2)]) with 1 in E. lia.
Qed.

Lemma Next_spec fuel i a : rep i a -> (length l <= fuel)%nat ->
  exists i', NextWithLimit equal split o fuel i = Ok i' /\ rep i' (Z.min (a + 1) (len L)).
Proof.
  intros (Hs & He & Hp & Hlo & Hup & _) Hf. unfold NextWithLimit. rewrite He.
  set (i0 := set_seek i (prefixOrFullSeekKey i) (hasPrefix i) unknownLastPositionOp).
  assert (Hrep : forall i' a', frame i0 i' -> stands i' a' -> rep i' a') by (intros; by apply (rep_frame i0)).
  assert (Hdp : forall p, (length (dp p) <= fuel)%nat) by (intros; unfold dp; rewrite length_drop; lia).
  destruct (stands_current i a Hs) as (_ & Ha & _).
  destruct Hs as [i p e Hpos On Hc Hl Hsh|i Hpos Hv Hkv [p HR]|i q e Hpos On Hc Hl Hsh|i Hpos Hv Hkv [p HR]];
    change (pos i0) with (pos i); rewrite Hpos.
  - destruct (nextUserKey_spec fuel i0 p e On Hl ltac:(intros _; apply Hsh) (Hdp p)) as (i1 & q & -> & On1 & Hr & Hcq & Fr & _). cbn [rbind].
    destruct (findNextEntry_spec fuel i1 q On1 Hcq) as (i2 & -> & Fr2 & _ & Hs2); [by destruct Fr as (_ & _ & _ & -> & _)|done|].
    exists i2. split; [done|]. apply Hrep; [by eapply frame_trans|]. rewrite (live_step p q e Hc Hr Hcq) in Hs2 by apply Hsh.
    rewrite Z.min_l; [done|]. destruct (stands_current _ _ Hs2) as (_ & ? & _). lia.
  - unfold nextUserKey. change (iterKV i0) with (iterKV i). rewrite Hkv. cbn [rbind]. unfold findNextEntry.
    exists (set_state i0 false iterPosCurForward). split.
    + destruct fuel; cbn [find_next_loop set_state iterKV]; change (iterKV i0) with (iterKV i); by rewrite Hkv.
    + apply Hrep; [done|]. rewrite Z.min_r by lia. apply at_end; [done|done|done|]. by exists p.
  - set (i1 := set_state i0 false iterPosPrev).
    assert (H2 : exists i2, (match iterKV i1 with None => to_first o i1 | Some _ => nextUserKey equal o fuel i1 end) = Ok i2 /\
      on i2 q /\ frame i1 i2 /\ isValid i2 = false).
    { change (iterKV i1) with (iterKV i). destruct On as [HR Hkv]. rewrite Hkv. destruct (lookupZ l (q - 1)) as [x|] eqn:Ex.
      - destruct (nextUserKey_spec fuel i1 (q - 1) x) as (i2 & q' & -> & On2 & Hr & Hcq & Fr & Hv2 & _);
          [split; [done|by rewrite Ex]|done|done|apply Hdp|].
        assert (q' = q) as ->.
        { destruct Hr as (_ & Hlt & Hr). destruct (decide (q' = q)) as [|Hne]; [done|]. exfalso.
          apply (proj2 Hc x e Ex Hl). symmetry. apply (Hr q e); [lia|done]. }
        exists i2. done.
      - assert (q = 0) as ->.
        { pose proof (proj1 Hc). destruct (decide (q = 0)); [done|]. destruct (lookupZ_Some l (q - 1)) as [y Hy]; [lia|congruence]. }
        destruct (to_first_spec i1 (0 - 1) HR Hlo) as (i2 & -> & On2 & Fr & Hv & _). by exists i2. }
    destruct H2 as (i2 & -> & On2 & Fr2 & Hv2). cbn [rbind].
    destruct (nextUserKey_spec fuel i2 q e On2 Hl ltac:(congruence) (Hdp q)) as (i3 & q' & -> & On3 & Hr & Hcq & Fr3 & _). cbn [rbind].
    destruct (findNextEntry_spec fuel i3 q' On3 Hcq) as (i4 & -> & Fr4 & _ & Hs4);
      [destruct Fr3 as (_ & _ & _ & -> & _); by destruct Fr2 as (_ & _ & _ & -> & _)|done|].
    exists i4. split; [done|]. apply Hrep; [eapply frame_trans; [|exact Fr4]; eapply frame_trans; [exact Fr2|exact Fr3]|].
    rewrite (live_step q q' e Hc Hr Hcq) in Hs4 by apply Hsh.
    rewrite Z.min_l; [done|]. destruct (stands_current _ _ Hs4) as (_ & ? & _). lia.
  - change (iterKV i0) with (iterKV i). rewrite Hkv.
    destruct (to_first_spec i0 p HR Hlo) as (i1 & -> & On & Fr & _). cbn [rbind].
    destruct (findNextEntry_spec fuel i1 0 On cut_0) as (i2 & -> & Fr2 & _ & Hs2); [by destruct Fr as (_ & _ & _ & -> & _)|done|].
    exists i2. split; [done|]. apply Hrep; [by eapply frame_trans|]. pose proof (len_nonneg L).
    replace (Z.min (-1 + 1) (len L)) with 0 by lia. exact Hs2.
Qed.
Lemma Prev_spec fuel i a : rep i a -> (length l < fuel)%nat ->
  exists i', PrevWithLimit equal o fuel i = Ok i' /\ rep i' (Z.max (a - 1) (-1)).
Proof.
  intros (Hs & He & Hp & Hlo & Hup & _) Hf. unfold PrevWithLimit. rewrite He.
  set (i0 := set_seek i (prefixOrFullSeekKey i) (hasPrefix i) unknownLastPositionOp).
  assert (Hrep : forall i' a', frame i0 i' -> stands i' a' -> rep i' a') by (intros; by apply (rep_frame i0)).
  change (hasPrefix i0) with (hasPrefix i). rewrite Hp. destruct (stands_current i a Hs) as (_ & Ha & _).
  destruct Hs as [i p e Hpos On Hc Hl Hsh|i Hpos Hv Hkv [p HR]|i q e Hpos On Hc Hl Hsh|i Hpos Hv Hkv [p HR]];
    change (pos i0) with (pos i); rewrite Hpos; cbn [decide rbind].
  - set (i1 := set_state i0 false (pos i0)). cbn [rbind]. rewrite decide_False by done. cbn [rbind].
    change (pos i0) with (pos i). rewrite Hpos. rewrite bool_decide_eq_true_2 by done. cbn [orb].
    rewrite bool_decide_eq_false_2 by done. fold i0. change (iterKV (set_state i0 false iterPosCurForward)) with (iterKV i).
    pose proof On as [HR Hkv]. rewrite Hkv, Hl.
    destruct (prevUserKey_spec fuel (set_state i0 false iterPosCurForward) p e On Hc Hl eq_refl ltac:(lia)) as (i2 & -> & On2 & Fr2 & _). cbn [rbind].
    destruct (findPrevEntry_spec fuel i2 p On2 Hc) as (i3 & -> & Fr3 & _ & Hs3); [by destruct Fr2 as (_ & _ & -> & _)|lia|].
    exists i3. split; [done|]. apply Hrep; [eapply frame_trans; [exact Fr2|exact Fr3]|]. rewrite Z.max_l; [done|].
    pose proof (len_nonneg (live cmp (tk p))). lia.
  - rewrite decide_False by done. cbn [rbind]. change (pos i0) with (pos i). rewrite Hpos, bool_decide_eq_true_2 by done. cbn [orb].
    rewrite bool_decide_eq_false_2 by done. change (iterKV (set_state i0 false iterPosCurForward)) with (iterKV i). rewrite Hkv.
    destruct (to_last_spec (set_state i0 false iterPosCurForward) p HR Hup) as (i2 & -> & On2 & Fr2 & _). cbn [rbind].
    destruct (findPrevEntry_spec fuel i2 (len l) On2 cut_end) as (i3 & -> & Fr3 & _ & Hs3); [by destruct Fr2 as (_ & _ & -> & _)|lia|].
    rewrite tk_all in Hs3. exists i3. split; [done|]. apply Hrep; [eapply frame_trans; [exact Fr2|exact Fr3]|]. rewrite Z.max_l by (pose proof (len_nonneg L); lia). exact Hs3.
  - rewrite decide_False by done. cbn [rbind]. change (pos i0) with (pos i). rewrite Hpos, !bool_decide_eq_false_2 by done. cbn [orb rbind].
    destruct (findPrevEntry_spec fuel i0 q On Hc He) as (i3 & -> & Fr3 & _ & Hs3); [lia|].
    exists i3. split; [done|]. apply Hrep; [done|]. rewrite Z.max_l; [done|]. pose proof (len_nonneg (live cmp (tk q))). lia.
  - rewrite decide_True by done. unfold prevUserKey. change (iterKV i0) with (iterKV i). rewrite Hkv. cbn [rbind].
    change (pos i0) with (pos i). rewrite Hpos, !bool_decide_eq_false_2 by done. cbn [orb rbind]. unfold findPrevEntry.
    exists (set_state i0 false iterPosCurReverse). split.
    + destruct fuel; cbn [find_prev_loop set_state iterKV isValid]; change (iterKV i0) with (iterKV i); by rewrite Hkv.
    + apply Hrep; [done|]. apply at_start; [done|done|done|]. by exists p.
Qed.

(** Seek keys in the bounds. *)
Lemma clamp_ge_spec (i : Iterator S) k : lowerBound i = lo -> upperBound i = up ->
  seek_pos cmp (clamp_ge cmp i k) L = seek_pos cmp k L /\ (forall b, lo = Some b -> 0 <= cmp (clamp_ge cmp i k) b).
Proof.
  intros Hlo Hup. unfold clamp_ge. rewrite Hlo, Hup.
  assert (Hmid : forall k', (match up with Some b => if 0 <? cmp k b then b else k | None => k end) = k' ->
    seek_pos cmp k' L = seek_pos cmp k L /\ (forall b, lo = Some b -> 0 <= cmp k b -> 0 <= cmp k' b)).
  { intros k' <-. destruct up as [b|] eqn:Eb; [|done]. destruct (Z.ltb_spec 0 (cmp k b)) as [H|]; [|done].
    split; [by apply seek_above|]. intros a Ha _. pose proof (sc_bounds Hsc a b Ha Eb). pose proof (cmp_gt_lt cmp b a). pose proof (cmp_gt_lt cmp a b). lia. }
  destruct lo as [a|] eqn:Ea.
  - destruct (Z.ltb_spec (cmp k a) 0) as [H|H].
    + split; [by apply seek_below|]. intros b [= <-]. rewrite cmp_refl; [lia|done].
    + destruct (Hmid _ eq_refl) as [H1 H2]. split; [done|]. intros b Hb. apply H2; [done|]. congruence.
  - destruct (Hmid _ eq_refl) as [H1 H2]. split; [done|]. done.
Qed.

Lemma clamp_lt_spec (i : Iterator S) k : lowerBound i = lo -> upperBound i = up ->
  seek_pos cmp (clamp_lt cmp i k) L = seek_pos cmp k L /\ (forall b, up = Some b -> cmp (clamp_lt cmp i k) b <= 0).
Proof.
  intros Hlo Hup. unfold clamp_lt. rewrite Hlo, Hup.
  assert (Hmid : forall k', (match lo with Some b => if cmp k b <? 0 then b else k | None => k end) = k' ->
    seek_pos cmp k' L = seek_pos cmp k L /\ (forall b, up = Some b -> cmp k b <= 0 -> cmp k' b <= 0)).
  { intros k' <-. destruct lo as [b|] eqn:Eb; [|done]. destruct (Z.ltb_spec (cmp k b) 0) as [H|]; [|done].
    split; [by apply seek_below|]. intros a Ha _. by apply (sc_bounds Hsc). }
  destruct up as [b|] eqn:Eb.
  - destruct (Z.ltb_spec 0 (cmp k b)) as [H|H].
    + split; [by apply seek_above|]. intros b' [= <-]. rewrite cmp_refl; [lia|done].
    + destruct (Hmid _ eq_refl) as [H1 H2]. split; [done|]. intros b' Hb. apply H2; [done|]. congruence.
  - destruct (Hmid _ eq_refl) as [H1 H2]. split; [done|]. done.
Qed.

(** A repeated seek that stays where it is. *)
Lemma reseek_ge_spec i a k : stands i a -> remembers i a ->
  reseek_ge cmp i k = Ok (Some true) \/
  (reseek_ge cmp i k = Ok None /\ lastPositioningOp i = seekGELastPositioningOp /\ a = seek_pos cmp k L).
Proof.
  intros Hs Hm. unfold reseek_ge. unfold remembers in Hm. destruct (lastPositioningOp i) eqn:Eo; try (by left). rewrite decide_True by done.
  destruct Hm as [Hpos Ha]. destruct (Z.leb_spec (cmp (prefixOrFullSeekKey i) k) 0) as [Hle|]; [|by left].
  pose proof (seek_pos_mono cmp _ _ L Hle) as Hmono. pose proof (seek_pos_range cmp k L) as Hr. pose proof (seek_pos_range cmp (prefixOrFullSeekKey i) L) as Hr0.
  destruct (stands_current i a Hs) as (Hcur & Hra & Hinv). unfold current in Hcur. destruct (isValid i) eqn:Ev; cbn [negb orb].
  - destruct (Z.leb_spec (cmp k (key i)) 0) as [Hk|Hk].
    + right. split; [done|]. split; [done|]. symmetry in Hcur. pose proof (seek_pos_le cmp k L a _ Hcur) as H. cbn in H.
      pose proof (cmp_gt_lt cmp k (key i)). pose proof (cmp_gt_lt cmp (key i) k). lia.
    + rewrite decide_False by (by rewrite Hpos). by left.
  - right. split; [done|]. split; [done|]. destruct (Hinv eq_refl); lia.
Qed.

Lemma reseek_lt_spec i a k : stands i a -> remembers i a ->
  reseek_lt cmp i k = Ok (Some true) \/
  (reseek_lt cmp i k = Ok None /\ lastPositioningOp i = seekLTLastPositioningOp /\ a = seek_pos cmp k L - 1).
Proof.
  intros Hs Hm. unfold reseek_lt. unfold remembers in Hm. destruct (lastPositioningOp i) eqn:Eo; try (by left). rewrite decide_True by done.
  destruct Hm as [Hpos Ha]. destruct (Z.leb_spec (cmp k (prefixOrFullSeekKey i)) 0) as [Hle|]; [|by left].
  pose proof (seek_pos_mono cmp _ _ L Hle) as Hmono. pose proof (seek_pos_range cmp k L) as Hr. pose proof (seek_pos_range cmp (prefixOrFullSeekKey i) L) as Hr0.
  destruct (stands_current i a Hs) as (Hcur & Hra & Hinv). unfold current in Hcur.
  assert (Hnp : pos i <> iterPosCurReversePaused) by (by destruct Hs as [? ? ? ->|? ->|? ? ? ->|? ->]).
  destruct (isValid i) eqn:Ev; cbn [negb orb].
  - destruct (Z.ltb_spec (cmp (key i) k) 0) as [Hk|Hk].
    + right. split; [done|]. split; [done|]. symmetry in Hcur. pose proof (seek_pos_gt k a _ Hcur Hk). lia.
    + rewrite decide_False by done. by left.
  - right. split; [done|]. split; [done|].
    assert (a = -1) as ->; [|lia]. destruct Hs as [? ? ? Hq|? Hq|? ? ? _ _ _ _ Hsh|]; [done|done|destruct Hsh; congruence|done].
Qed.

Lemma stands_seek i a k h x : stands i a -> stands (set_seek i k h x) a.
Proof. destruct 1; [by eapply at_entry|by eapply at_end|by eapply before_entry|by eapply at_start]. Qed.

Lemma stands_error i a e : stands i a -> stands (set_error i e) a.
Proof. destruct 1; [by eapply at_entry|by eapply at_end|by eapply before_entry|by eapply at_start]. Qed.

Lemma SeekGE_spec fuel i a k : rep i a -> (length l <= fuel)%nat ->
  exists i', SeekGEWithLimit cmp equal split o fuel i k = Ok i' /\ rep i' (seek_pos cmp k L).
Proof.
  intros (Hs & He & Hp & Hlo & Hup & Hm) Hf. unfold SeekGEWithLimit. destruct (clamp_ge_spec i k Hlo Hup) as [<- Hge].
  set (k' := clamp_ge cmp i k) in *. destruct (stands_R _ _ Hs) as [p HR].
  destruct (reseek_ge_spec i a k' Hs Hm) as [->|(-> & Ho & Ha)]; cbn [rbind]; fold (fresh i).
  - destruct (move_on (itSeekGE o k') (fresh i) (list_seek cmp k' l)) as (i1 & -> & On & Fr & _); [by eapply cur_seekGE|]. cbn [rbind].
    destruct (findNextEntry_spec fuel i1 _ On (seek_cut k')) as (i2 & -> & Fr2 & Hpos & Hs2); [by destruct Fr as (_ & _ & _ & -> & _)|done|].
    cbn [rbind]. pose proof (frame_trans _ _ _ Fr Fr2) as (F1 & F2 & F3 & F4 & _ & _).
    unfold Error. rewrite F3. cbn [fresh set_seek set_error ierr]. destruct (stands_R _ _ Hs2) as [p2 HR2]. rewrite (cur_error _ _ _ HR2).
    eexists. split; [done|]. rewrite (proj1 (seek_live k')) in Hs2. split; [by apply stands_seek|].
    cbn [set_seek ierr hasPrefix lowerBound upperBound]. by rewrite F1, F2, F3, F4.
  - eexists. split; [done|]. rewrite <-Ha. unfold remembers in Hm. rewrite Ho in Hm. split; [|done].
    apply (stands_seek (set_error i None)). by apply stands_error.
Qed.

Lemma SeekLT_spec fuel i a k : rep i a -> (length l <= fuel)%nat ->
  exists i', SeekLTWithLimit cmp equal o fuel i k = Ok i' /\ rep i' (seek_pos cmp k L - 1).
Proof.
  intros (Hs & He & Hp & Hlo & Hup & Hm) Hf. unfold SeekLTWithLimit. destruct (clamp_lt_spec i k Hlo Hup) as [<- Hge].
  set (k' := clamp_lt cmp i k) in *. destruct (stands_R _ _ Hs) as [p HR].
  destruct (reseek_lt_spec i a k' Hs Hm) as [->|(-> & Ho & Ha)]; cbn [rbind]; fold (fresh i).
  - destruct (move_on (itSeekLT o k') (fresh i) (list_seek cmp k' l - 1)) as (i1 & -> & On & Fr & _); [by eapply cur_seekLT|]. cbn [rbind].
    destruct (findPrevEntry_spec fuel i1 _ On (seek_cut k')) as (i2 & -> & Fr2 & Hpos & Hs2); [by destruct Fr as (_ & _ & -> & _)|done|].
    cbn [rbind]. pose proof (frame_trans _ _ _ Fr Fr2) as (F1 & F2 & F3 & F4 & _ & _).
    unfold Error. rewrite F3. cbn [fresh set_seek set_error ierr]. destruct (stands_R _ _ Hs2) as [p2 HR2]. rewrite (cur_error _ _ _ HR2).
    eexists. split; [done|]. rewrite (proj1 (seek_live k')) in Hs2. split; [by apply stands_seek|].
    cbn [set_seek ierr hasPrefix lowerBound upperBound]. by rewrite F1, F2, F3, F4.
  - eexists. split; [done|]. rewrite <-Ha. unfold remembers in Hm. rewrite Ho in Hm. split; [|done].
    apply (stands_seek (set_error i None)). by apply stands_error.
Qed.

Lemma iter_step_spec fuel i a x : rep i a -> (length l < fuel)%nat ->
  exists i', iter_step cmp equal split o fuel i x = Ok i' /\ rep i' (cursor_step cmp L a x).
Proof.
  intros Hr Hf. destruct x as [| | | |k|k]; cbn [iter_step cursor_step].
  - apply (First_spec fuel i a); [done|lia].
  - apply (Last_spec fuel i a); [done|lia].
  - apply (Next_spec fuel i a); [done|lia].
  - apply (Prev_spec fuel i a); [done|lia].
  - apply (SeekGE_spec fuel i a); [done|lia].
  - apply (SeekLT_spec fuel i a); [done|lia].
Qed.

Lemma newIterator_rep s p : R s l p -> rep (newIterator lo up s) (len L).
Proof. intros HR. split; [|done]. apply at_end; [done|done|done|]. by exists p. Qed.

(** C5: the iterator refines a cursor over the live keys.  Over any internal
    iterator that keeps the contract of a bounded scan, every sequence of
    [First], [Last], [Next], [Prev], [SeekGE] and [SeekLT] calls returns, and
    after each call [Valid], [Key] and [Value] are those of a cursor moved the
    same way over the list of keys whose newest entry is a [Set], with the
    values of these entries; deleted keys and older entries never show, also
    where the direction changes or a repeated seek is answered without moving
    the internal iterator. *)
Theorem iterator_refines fuel s p xs :
  R s l p -> (length l < fuel)%nat ->
  iter_run cmp equal split o fuel (newIterator lo up s) xs = Ok (cursor_run cmp (live cmp l) (len (live cmp l)) xs).
Proof.
  intros HR Hf. pose proof (newIterator_rep s p HR) as Hrep. fold L. revert Hrep.
  generalize (newIterator lo up s) (len L). induction xs as [|x xs IH]; intros i a Hrep; [done|].
  cbn [iter_run cursor_run]. destruct (iter_step_spec fuel i a x Hrep Hf) as (i' & -> & Hrep'). cbn [rbind].
  rewrite (IH i' _ Hrep'). cbn [rbind]. destruct (stands_current _ _ (proj1 Hrep')) as [-> _]. done.
Qed.
End Props.

(** Two entries of "b", a deleted "c" and "d": the walk shows "b" and "d". *)
Definition demo_entries : list entry :=
  [(InternalKey.MakeInternalKey [98] 7 InternalKey.KindSet, [1]); (InternalKey.MakeInternalKey [98] 3 InternalKey.KindSet, [2]);
   (InternalKey.MakeInternalKey [99] 5 InternalKey.KindDelete, []); (InternalKey.MakeInternalKey [100] 0 InternalKey.KindSet, [4])].

Definition demo_ops : list op := [OFirst; ONext; OPrev; OSeekGE [99]; OSeekLT [100]; OPrev; ONext].

Definition bytes_equal (a b : bytes) : bool := bool_decide (a = b).

Lemma demo_scannable : scannable bytes_compare (Some [97]) (Some [101]) demo_entries.
Proof.
  split.
  - repeat constructor; by vm_compute.
  - repeat (apply Forall_cons; split; [vm_compute; auto|]). constructor.
  - intros p a b Ha Hb E. pose proof (lookupZ_is_Some _ _ _ Hb) as Hp. change (len demo_entries) with 4 in Hp.
    pose proof (lookupZ_is_Some _ _ _ Ha). assert (p = 0 \/ p = 1 \/ p = 2) as [->|[->| ->]] by lia;
      injection Ha as <-; injection Hb as <-; vm_compute in E |- *; done.
  - intros b [= <-]. repeat constructor; by vm_compute.
  - intros b [= <-]. repeat constructor; by vm_compute.
  - intros a b [= <-] [= <-]. by vm_compute.
Qed.

Lemma iterator_refines_witness :
  iter_run bytes_compare bytes_equal (fun k => len k) (listOps bytes_compare) 9
    (newIterator (Some [97]) (Some [101]) (demo_entries, -1)) demo_ops
  = Ok [Some ([98], [1]); Some ([100], [4]); Some ([98], [1]); Some ([100], [4]); Some ([98], [1]); None; Some ([98], [1])].
Proof.
  rewrite (iterator_refines bytes_compare bytes_equal (fun k => len k) ltac:(intros; apply bool_decide_eq_true)
    (listOps bytes_compare) (fun s l p => s = (l, p)) (Some [97]) (Some [101]) demo_entries demo_scannable 9 (demo_entries, -1) (-1));
    [by vm_compute|done|cbn; lia].
Defined.

End UserIter.
