(* ===== verification/FlushableBatch.v ===== *)
(** A large batch that is queued for flushing in place of a memtable (batch.go,
    second half): the sorted index over the batch's own buffer, its lookups and
    its two iterators.

    The buffer, the reader and [junk] are those of [Batch]; the iterators
    implement the interface of [Iter]. *)

From Stdlib Require Import ZArith Lia.
From stdpp Require Import base numbers option sorting list.
From S2P Require Import Prelude Base Batch Iter.

Record flushableBatchEntry : Type := mkFE {
  fe_offset : Z; fe_index : Z; fe_keyStart : Z; fe_keyEnd : Z
}.

Record flushableBatch : Type := mkFB {
  fb_data : bytes;
  fb_cap : Z;
  fb_seqNum : Z;
  fb_offsets : list flushableBatchEntry
}.

Record flushableBatchIter : Type := mkFBI {
  fi_batch : flushableBatch;
  fi_index : Z;
  fi_key : InternalKey;
  fi_err : option error;
  fi_lower : option bytes;
  fi_upper : option bytes
}.

(** [binary.Uvarint]: the value and the number of bytes, 0 when the buffer ends
    inside the varint, negative on overflow. *)
Fixpoint uvarint_loop (i : nat) (x s : Z) (buf : bytes) : Z * Z :=
  match buf with
  | [] => (0, 0)
  | b :: buf' =>
      if (i =? 10)%nat then (0, - (Z.of_nat i + 1))
      else if b <? 128 then
        if (i =? 9)%nat && (1 <? b) then (0, - (Z.of_nat i + 1))
        else (Z.lor x (u64 (Z.shiftl b s)), Z.of_nat i + 1)
      else uvarint_loop (S i) (Z.lor x (u64 (Z.shiftl (Z.land b 127) s))) (s + 7) buf'
  end.

Definition Uvarint (buf : bytes) : Z * Z := uvarint_loop 0 0 0 buf.

Section FlushableBatch.
Context (junk : bytes -> nat -> Z) (cmp : bytes -> bytes -> Z).

(** The pointer difference between a record's key and the record: the kind
    byte and the varint of the key's length. *)
Definition key_distance (r : bytes) : Z := 1 + Z.of_nat (snd (decode_varint32 junk (tail r))).

(** The loop of [newFlushableBatch]: one entry per readable record. *)
Fixpoint index_records (fuel : nat) (d r : bytes) (index : Z) : outcome (list flushableBatchEntry) :=
  match fuel with
  | O => Ok []
  | S fuel' =>
      if len r =? 0 then Ok [] else
      let offset := len d - len r in
      let! (r', o) := Batch.Next junk r in
      match o with
      | None => Ok []
      | Some (_, key, _) =>
          let keySize := u32 (len key) in
          let e :=
            if keySize =? 0
            then mkFE (u32 offset) index (u32 (u32 offset + 2)) (u32 (u32 offset + 2))
            else
              let keyStart := u32 (offset + key_distance r) in
              mkFE (u32 offset) index keyStart (u32 (keyStart + keySize)) in
          let! es := index_records fuel' d r' (u32 (index + 1)) in
          Ok (e :: es)
      end
  end.

Definition entry_key (d : bytes) (e : flushableBatchEntry) : bytes :=
  take (Z.to_nat (fe_keyEnd e - fe_keyStart e)) (drop (Z.to_nat (fe_keyStart e)) d).

(** [Less]; the slices of the entries built above are inside the buffer. *)
Definition Less (d : bytes) (ei ej : flushableBatchEntry) : bool :=
  let c := cmp (entry_key d ei) (entry_key d ej) in
  if c <? 0 then true else if 0 <? c then false
  else fe_offset ej <? fe_offset ei.

(** [sort.Sort]: any sort by [Less]; two records of one batch never compare
    equal, so the result does not depend on the algorithm. *)
Definition not_after (d : bytes) (ei ej : flushableBatchEntry) : Prop := Less d ej ei = false.

#[local] Instance not_after_dec d : RelDecision (not_after d).
Proof. intros ei ej. unfold not_after. apply _. Defined.

Definition newFlushableBatch (b : Batch) : outcome flushableBatch :=
  let d := data b in
  let seqNum := if dcap b =? 0 then 0 else Batch.SeqNum junk b in
  let! offsets := (if batchHeaderLen <? len d
                   then index_records (S (length d)) d (drop 12 d) 0 else Ok []) in
  Ok (mkFB d (dcap b) seqNum (merge_sort (not_after d) offsets)).

Definition fb_setSeqNum (fb : flushableBatch) (seqNum : Z) : flushableBatch :=
  mkFB (fb_data fb) (fb_cap fb) seqNum (fb_offsets fb).

Definition fb_empty (fb : flushableBatch) : bool := len (fb_data fb) <=? batchHeaderLen.
Definition fb_inuseBytes (fb : flushableBatch) : Z := u64 (len (fb_data fb) - batchHeaderLen).
Definition fb_totalBytes (fb : flushableBatch) : Z := u64 (fb_cap fb).

(** *** The iterators *)

Definition with_index (i : flushableBatchIter) (n : Z) : flushableBatchIter :=
  mkFBI (fi_batch i) n (fi_key i) (fi_err i) (fi_lower i) (fi_upper i).
Definition with_key (i : flushableBatchIter) (k : InternalKey) : flushableBatchIter :=
  mkFBI (fi_batch i) (fi_index i) k (fi_err i) (fi_lower i) (fi_upper i).
Definition with_ferr (i : flushableBatchIter) (e : option error) : flushableBatchIter :=
  mkFBI (fi_batch i) (fi_index i) (fi_key i) e (fi_lower i) (fi_upper i).

Definition fb_newIter (fb : flushableBatch) (lower upper : option bytes) : flushableBatchIter :=
  mkFBI fb (-1) (InternalKey.mk [] 0) None lower upper.

Definition n_offsets (i : flushableBatchIter) : Z := len (fb_offsets (fi_batch i)).

(** [i.offsets[index]] *)
Definition offset_at (fb : flushableBatch) (index : Z) : outcome flushableBatchEntry :=
  match lookupZ (fb_offsets fb) index with Some e => Ok e | None => Panic end.

(** The key and the value (with the error its decoding records) of an entry. *)
Definition key_of (fb : flushableBatch) (e : flushableBatchEntry) : outcome InternalKey :=
  match lookupZ (fb_data fb) (fe_offset e) with
  | None => Panic
  | Some kind =>
      let! key := slice (fe_keyStart e) (fe_keyEnd e) (fb_data fb) in
      Ok (InternalKey.MakeInternalKey key (u64 (fb_seqNum fb + fe_index e)) kind)
  end.

Definition value_of (fb : flushableBatch) (e : flushableBatchEntry) : outcome (bytes * option error) :=
  let! p := slice (fe_offset e) (len (fb_data fb)) (fb_data fb) in
  match p with
  | [] => Ok ([], Some ErrCorruptedBatch)
  | kind :: _ =>
      if InternalKey.KindMax <? kind then Ok ([], Some ErrCorruptedBatch)
      else if kind =? InternalKey.KindSet then
        let! q := slice (fe_keyEnd e) (len (fb_data fb)) (fb_data fb) in
        let! o := batchDecodeStr junk q in
        match o with
        | None => Ok ([], Some ErrCorruptedBatch)
        | Some (_, value) => Ok (value, None)
        end
      else Ok ([], None)
  end.

Definition getKey (fb : flushableBatch) (index : Z) : outcome InternalKey :=
  let! e := offset_at fb index in key_of fb e.

Definition Value (fb : flushableBatch) (index : Z) : outcome (bytes * option error) :=
  let! e := offset_at fb index in value_of fb e.

(** [return &i.key, i.Value()] *)
Definition yield_value (i : flushableBatchIter) : outcome (flushableBatchIter * option entry) :=
  let! (v, e) := Value (fi_batch i) (fi_index i) in
  Ok (match e with Some _ => with_ferr i e | None => i end, Some (fi_key i, v)).

(** [i.key = i.getKey(i.index)] and the test of the upper bound. *)
Definition load_upper (i : flushableBatchIter) : outcome (flushableBatchIter * option entry) :=
  let! k := getKey (fi_batch i) (fi_index i) in
  let i := with_key i k in
  if match fi_upper i with Some u => 0 <=? cmp (InternalKey.UserKey k) u | None => false end
  then Ok (with_index i (n_offsets i), None)
  else yield_value i.

Definition load_lower (i : flushableBatchIter) : outcome (flushableBatchIter * option entry) :=
  let! k := getKey (fi_batch i) (fi_index i) in
  let i := with_key i k in
  if match fi_lower i with Some l => cmp (InternalKey.UserKey k) l <? 0 | None => false end
  then Ok (with_index i (-1), None)
  else yield_value i.

Definition search_offsets (fb : flushableBatch) (key : bytes) : outcome Z :=
  let ikey := InternalKey.MakeSearchKey key in
  search (len (fb_offsets fb)) (fun j =>
    let! k := getKey fb j in Ok (InternalKey.InternalCompare cmp ikey k <=? 0)).

Definition fSeekGE (key : bytes) (i : flushableBatchIter) : outcome (flushableBatchIter * option entry) :=
  let i := with_ferr i None in
  let! j := search_offsets (fi_batch i) key in
  let i := with_index i j in
  if n_offsets i <=? fi_index i then Ok (i, None) else load_upper i.

Definition fSeekLT (key : bytes) (i : flushableBatchIter) : outcome (flushableBatchIter * option entry) :=
  let i := with_ferr i None in
  let! j := search_offsets (fi_batch i) key in
  let i := with_index i (j - 1) in
  if fi_index i <? 0 then Ok (i, None) else load_lower i.

Definition fFirst (i : flushableBatchIter) : outcome (flushableBatchIter * option entry) :=
  let i := with_ferr i None in
  if n_offsets i =? 0 then Ok (i, None) else load_upper (with_index i 0).

Definition fLast (i : flushableBatchIter) : outcome (flushableBatchIter * option entry) :=
  let i := with_ferr i None in
  if n_offsets i =? 0 then Ok (i, None) else load_lower (with_index i (n_offsets i - 1)).

Definition fNext (i : flushableBatchIter) : outcome (flushableBatchIter * option entry) :=
  if fi_index i =? n_offsets i then Ok (i, None)
  else
    let i := with_index i (fi_index i + 1) in
    if fi_index i =? n_offsets i then Ok (i, None) else load_upper i.

Definition fPrev (i : flushableBatchIter) : outcome (flushableBatchIter * option entry) :=
  if fi_index i <? 0 then Ok (i, None)
  else
    let i := with_index i (fi_index i - 1) in
    if fi_index i <? 0 then Ok (i, None) else load_lower i.

Definition fValid (i : flushableBatchIter) : bool := (0 <=? fi_index i) && (fi_index i <? n_offsets i).

Definition fSetBounds (lower upper : option bytes) (i : flushableBatchIter) : flushableBatchIter :=
  mkFBI (fi_batch i) (fi_index i) (fi_key i) (fi_err i) lower upper.

Definition fbOps : iterOps flushableBatchIter := {|
  itSeekGE := fSeekGE;
  itSeekPrefixGE _ key _ := fSeekGE key;
  itSeekLT := fSeekLT;
  itFirst := fFirst;
  itLast := fLast;
  itNext := fNext;
  itPrev := fPrev;
  itError := fi_err;
  itSetBounds := fSetBounds
|}.

(** [get]: the value, whether the key was found and the kind. *)
Definition fb_get (fb : flushableBatch) (key : bytes) : outcome (bytes * bool * Z) :=
  let! (_, kv) := fSeekGE key (fb_newIter fb None None) in
  match kv with
  | Some (ik, v) =>
      if (cmp (InternalKey.UserKey ik) key =? 0) && (InternalKey.KindOf ik =? InternalKey.KindSet)
      then Ok (v, true, InternalKey.KindOf ik)
      else Ok ([], false, InternalKey.KindInvalid)
  | None => Ok ([], false, InternalKey.KindInvalid)
  end.

(** *** The flush iterator: the iterator and the counter it adds to *)

Definition flushState : Type := (flushableBatchIter * Z)%type.

(** The size of an entry's value with its length prefix, and the error found. *)
Definition value_size_of (fb : flushableBatch) (e : flushableBatchEntry) : outcome (Z * option error) :=
  let! p := slice (fe_offset e) (len (fb_data fb)) (fb_data fb) in
  match p with
  | [] => Ok (0, Some ErrCorruptedBatch)
  | kind :: _ =>
      if InternalKey.KindMax <? kind then Ok (0, Some ErrCorruptedBatch)
      else if kind =? InternalKey.KindSet then
        let! q := slice (fe_keyEnd e) (len (fb_data fb)) (fb_data fb) in
        let '(v, n) := Uvarint q in
        if n <=? 0 then Ok (0, Some ErrCorruptedBatch) else Ok (u64 (v + n), None)
      else Ok (0, None)
  end.

Definition valueSize (i : flushableBatchIter) : outcome (flushableBatchIter * Z) :=
  let! e := offset_at (fi_batch i) (fi_index i) in
  let! (n, err) := value_size_of (fi_batch i) e in
  Ok (match err with Some _ => with_ferr i err | None => i end, n).

Definition entryBytes (i : flushableBatchIter) : outcome Z :=
  let! e := offset_at (fi_batch i) (fi_index i) in Ok (u32 (fe_keyEnd e - fe_offset e)).

Definition ffFirst (s : flushState) : outcome (flushState * option entry) :=
  let i := with_ferr (fst s) None in
  let! (i, kv) := fFirst i in
  match kv with
  | None => Ok ((i, snd s), None)
  | Some _ =>
      let! n := entryBytes i in
      let! (i, v) := valueSize i in
      Ok ((i, u64 (snd s + u64 (n + v))), kv)
  end.

Definition ffNext (s : flushState) : outcome (flushState * option entry) :=
  let i := fst s in
  if fi_index i =? n_offsets i then Ok (s, None)
  else
    let i := with_index i (fi_index i + 1) in
    if fi_index i =? n_offsets i then Ok ((i, snd s), None)
    else
      let! k := getKey (fi_batch i) (fi_index i) in
      let i := with_key i k in
      let! n := entryBytes i in
      let! (i, v) := valueSize i in
      let! (i, kv) := yield_value i in
      Ok ((i, u64 (snd s + u64 (n + v))), kv).

Definition flushOps : iterOps flushState := {|
  itSeekGE _ s := Ok (s, None);
  itSeekPrefixGE _ _ _ s := Ok (s, None);
  itSeekLT _ s := Ok (s, None);
  itFirst := ffFirst;
  itLast s := let! (i, kv) := fLast (fst s) in Ok ((i, snd s), kv);
  itNext := ffNext;
  itPrev s := Ok (s, None);
  itError s := fi_err (fst s);
  itSetBounds lower upper s := (fSetBounds lower upper (fst s), snd s)
|}.

Definition fb_newFlushIter (fb : flushableBatch) (bytesFlushed : Z) : flushState :=
  (fb_newIter fb None None, bytesFlushed).

End FlushableBatch.

(** ** The index of a committed batch *)

(** The entry the iterators give for the [i]-th record of a batch with sequence
    number [s]. *)
Definition op_entry (s : Z) (i : nat) (o : batchOp) : entry :=
  (InternalKey.MakeInternalKey (op_key o) (s + Z.of_nat i) (op_kind o), op_value o).

(** The index entries of records laid out from [off] on. *)
Fixpoint entries_of (off idx : Z) (ops : list batchOp) : list flushableBatchEntry :=
  match ops with
  | [] => []
  | o :: ops' =>
      let ks := off + 1 + len (varint32 (len (op_key o))) in
      mkFE off idx ks (ks + len (op_key o)) :: entries_of (off + len (enc_op o)) (idx + 1) ops'
  end.

Section Index.
Context (junk : bytes -> nat -> Z).

Lemma len_varint32 n : 1 <= len (varint32 n) <= 5.
Proof. pose proof (length_varint32_bounds n). unfold len. lia. Qed.

Lemma len_enc_op o :
  1 + len (varint32 (len (op_key o))) + len (op_key o) <= len (enc_op o).
Proof. unfold enc_op. rewrite len_cons, !len_app. pose proof (len_nonneg (match o with OpSet _ v => varint32 (len v) ++ v | _ => [] end)). lia. Qed.

Lemma key_distance_enc o rest :
  op_ok o -> key_distance junk (enc_op o ++ rest) = 1 + len (varint32 (len (op_key o))).
Proof.
  intros [Hk _]. unfold key_distance, enc_op. cbn [app tail]. rewrite <-app_assoc.
  rewrite decode_varint32_put by (pose proof (len_nonneg (op_key o)); lia). done.
Qed.

Lemma index_records_enc pre ops idx fuel :
  Forall op_ok ops -> len (pre ++ enc_ops ops) < 4294967296 -> 0 <= idx -> idx + len ops < 4294967296 ->
  (length ops < fuel)%nat ->
  index_records junk fuel (pre ++ enc_ops ops) (enc_ops ops) idx = Ok (entries_of (len pre) idx ops).
Proof.
  intros Hok. revert pre idx fuel.
  induction Hok as [|o ops Ho Hok IH]; intros pre idx fuel Hl Hi Hn Hf;
    (destruct fuel as [|fuel]; [lia|]); [done|]. cbn [index_records entries_of].
  rewrite enc_ops_cons in *. rewrite len_cons in Hn.
  pose proof (len_enc_op o). pose proof (len_varint32 (len (op_key o))).
  pose proof (len_nonneg (op_key o)). pose proof (len_nonneg pre). pose proof (len_nonneg (enc_ops ops)).
  pose proof (len_nonneg ops). rewrite !len_app in Hl.
  destruct (Z.eqb_spec (len (enc_op o ++ enc_ops ops)) 0); [rewrite len_app in *; lia|].
  rewrite Next_enc by (rewrite ?len_app; (done || lia)). cbn [rbind op_record].
  replace (len (pre ++ enc_op o ++ enc_ops ops) - len (enc_op o ++ enc_ops ops)) with (len pre)
    by (rewrite !len_app; lia).
  rewrite key_distance_enc by done.
  replace (pre ++ enc_op o ++ enc_ops ops) with ((pre ++ enc_op o) ++ enc_ops ops) by (by rewrite <-app_assoc).
  rewrite (u32_small (idx + 1)), IH by (cbn [length] in Hf; rewrite ?len_app; lia).
  cbn [rbind]. rewrite len_app, (u32_small (len pre)), (u32_small (len (op_key o))) by lia.
  do 2 f_equal. destruct (Z.eqb_spec (len (op_key o)) 0) as [E|E].
  - rewrite E. change (len (varint32 0)) with 1. rewrite u32_small by lia. f_equal; lia.
  - rewrite Z.add_assoc, !u32_small by (rewrite ?u32_small; lia). done.
Qed.

(** [Uvarint] reads what the 32-bit writer wrote. *)
Lemma uvarint_put fuel (i : nat) x y s rest :
  0 <= s -> 0 <= x < 2 ^ s -> 0 <= y -> y * 2 ^ s < 18446744073709551616 ->
  y < 128 ^ Z.of_nat (S fuel) -> (i + fuel < 9)%nat ->
  uvarint_loop i x s (put_varint32 fuel y ++ rest)
  = (x + y * 2 ^ s, Z.of_nat i + len (put_varint32 fuel y)).
Proof.
  revert i x y s. induction fuel as [|fuel IH]; intros i x y s Hs Hx Hy Ho Hf Hi; cbn [put_varint32].
  - change (128 ^ Z.of_nat 1) with 128 in Hf. rewrite last_byte by lia. cbn [app uvarint_loop].
    destruct (Nat.eqb_spec i 10); [lia|]. destruct (Z.ltb_spec y 128); [|lia].
    destruct (Nat.eqb_spec i 9); [lia|]. cbn [andb].
    rewrite u64_small by (rewrite Z.shiftl_mul_pow2 by lia; nia). by rewrite lor_shiftl_add by lia.
  - destruct (Z.leb_spec 128 y) as [Hge|Hlt]; cbn [app uvarint_loop];
      (destruct (Nat.eqb_spec i 10); [lia|]).
    + rewrite cont_byte, cont_byte_strip, shiftr_7.
      pose proof (Z.mod_pos_bound y 128 ltac:(done)). pose proof (Z.div_mod y 128 ltac:(done)).
      destruct (Z.ltb_spec (y mod 128 + 128) 128); [lia|].
      assert (Hp : 2 ^ (s + 7) = 128 * 2 ^ s) by (rewrite Z.pow_add_r by lia; lia).
      assert (Hle : y mod 128 * 2 ^ s <= y * 2 ^ s) by (apply Z.mul_le_mono_nonneg_r; lia).
      assert (Hq : y * 2 ^ s = y mod 128 * 2 ^ s + y / 128 * 2 ^ (s + 7)) by (rewrite Hp, H0 at 1; ring).
      rewrite u64_small by (rewrite Z.shiftl_mul_pow2 by lia; nia).
      rewrite lor_shiftl_add by lia.
      rewrite IH; [f_equal; [lia|rewrite len_cons; lia]|lia|rewrite Hp; nia| | | |lia].
      * apply Z.div_pos; lia.
      * assert (0 <= y mod 128 * 2 ^ s) by nia. lia.
      * apply Z.div_lt_upper_bound; [lia|]. rewrite <-Z.pow_succ_r, <-Nat2Z.inj_succ by lia. done.
    + rewrite last_byte by lia. destruct (Z.ltb_spec y 128); [|lia].
      destruct (Nat.eqb_spec i 9); [lia|]. cbn [andb].
      rewrite u64_small by (rewrite Z.shiftl_mul_pow2 by lia; nia). by rewrite lor_shiftl_add by lia.
Qed.

Lemma Uvarint_varint32 n rest :
  0 <= n < 4294967296 -> Uvarint (varint32 n ++ rest) = (n, len (varint32 n)).
Proof.
  intros Hn. unfold Uvarint, varint32. rewrite u32_small by done.
  rewrite uvarint_put; [f_equal; lia|lia|lia|lia|lia| |lia].
  change (128 ^ Z.of_nat 6) with 4398046511104. lia.
Qed.

(** The record an index entry points to. *)
Definition points_to (d : bytes) (e : flushableBatchEntry) (o : batchOp) : Prop :=
  exists pre post, d = pre ++ enc_op o ++ post /\ fe_offset e = len pre /\
    fe_keyStart e = len pre + 1 + len (varint32 (len (op_key o))) /\
    fe_keyEnd e = fe_keyStart e + len (op_key o).

Lemma entries_point pre ops idx :
  Forall2 (points_to (pre ++ enc_ops ops)) (entries_of (len pre) idx ops) ops.
Proof.
  revert pre idx. induction ops as [|o ops IH]; intros pre idx; cbn [entries_of]; constructor.
  - exists pre, (enc_ops ops). repeat split; done.
  - rewrite enc_ops_cons, app_assoc, <-len_app. apply IH.
Qed.

Lemma slice_middle {E} (a b c : bytes) p q :
  p = len a -> q = len a + len b -> @slice E p q (a ++ b ++ c) = Ok b.
Proof.
  intros -> ->. unfold len. rewrite slice_Ok by (rewrite ?length_app; lia).
  rewrite Nat2Z.id, drop_app_length.
  replace (Z.to_nat _) with (length b) by lia. by rewrite take_app_length.
Qed.

Lemma slice_rest {E} (a b : bytes) p : p = len a -> @slice E p (len (a ++ b)) (a ++ b) = Ok b.
Proof.
  intros ->. rewrite <-(app_nil_r b) at 2. rewrite slice_middle by (rewrite ?len_app, ?app_nil_r; done). done.
Qed.

(** Reading through an index entry gives back its record. *)
Lemma points_key fb e o :
  points_to (fb_data fb) e o -> 
  key_of fb e = Ok (InternalKey.MakeInternalKey (op_key o) (u64 (fb_seqNum fb + fe_index e)) (op_kind o)).
Proof.
  intros (pre & post & Hd & Ho & Hs & He). unfold key_of. rewrite Hd, Ho, He, Hs.
  assert (lookupZ (pre ++ enc_op o ++ post) (len pre) = Some (op_kind o)) as ->.
  { unfold lookupZ, len. destruct (Z.ltb_spec (Z.of_nat (length pre)) 0); [lia|].
    rewrite Nat2Z.id, lookup_app_r, Nat.sub_diag by lia. done. }
  unfold enc_op. rewrite <-!app_comm_cons, cons_middle, app_assoc, <-!app_assoc, (app_assoc _ (varint32 _)), (app_assoc _ (_ ++ _)).
  rewrite slice_middle; [done|..]; rewrite ?len_app, ?len_cons, ?len_nil; lia.
Qed.

Lemma points_head fb e o :
  points_to (fb_data fb) e o ->
  exists tl, slice (fe_offset e) (len (fb_data fb)) (fb_data fb) = @Ok error _ (op_kind o :: tl) /\
    InternalKey.KindMax <? op_kind o = false.
Proof.
  intros (pre & post & Hd & Ho & _). eexists. split; [|destruct o; done].
  rewrite Hd, Ho, slice_rest by done. done.
Qed.

Lemma points_tail fb e k v :
  points_to (fb_data fb) e (OpSet k v) -> len (fb_data fb) < 4294967296 ->
  exists post, slice (fe_keyEnd e) (len (fb_data fb)) (fb_data fb) = @Ok error _ (varint32 (len v) ++ v ++ post) /\
    len (v ++ post) < 4294967296.
Proof.
  intros (pre & post & Hd & Ho & Hs & He) Hl. cbn [op_key] in *.
  set (a := pre ++ [InternalKey.KindSet] ++ varint32 (len k) ++ k).
  assert (E : fb_data fb = a ++ varint32 (len v) ++ v ++ post).
  { rewrite Hd. unfold a, enc_op. cbn. rewrite <-!app_assoc. cbn. by rewrite <-!app_assoc. }
  exists post. rewrite E in Hl |- *. rewrite !len_app in Hl.
  pose proof (len_nonneg a). pose proof (len_nonneg (varint32 (len v))).
  split; [|rewrite len_app; lia]. apply slice_rest. rewrite He, Hs. unfold a.
  rewrite !len_app, len_cons, len_nil. lia.
Qed.

Lemma points_value fb e o :
  points_to (fb_data fb) e o -> op_ok o -> len (fb_data fb) < 4294967296 ->
  value_of junk fb e = Ok (op_value o, None).
Proof.
  intros He [Hk Hv] Hl. unfold value_of.
  destruct (points_head fb e o He) as (tl & -> & Hmax). cbn [rbind]. rewrite Hmax.
  destruct o as [k v|k|k|k]; cbn [op_kind op_value] in *; try done.
  cbn [Z.eqb InternalKey.KindSet Pos.eqb].
  destruct (points_tail fb e k v He Hl) as (post & -> & Hp). cbn [rbind].
  by rewrite batchDecodeStr_enc.
Qed.

(** The flush iterator's measure of an entry is the length of its record. *)
Lemma points_size fb e o :
  points_to (fb_data fb) e o -> op_ok o -> len (fb_data fb) < 4294967296 ->
  exists n, value_size_of fb e = Ok (n, None) /\ fe_keyEnd e - fe_offset e + n = len (enc_op o).
Proof.
  intros He [Hk Hv] Hl. unfold value_size_of.
  destruct (points_head fb e o He) as (tl & -> & Hmax). cbn [rbind]. rewrite Hmax.
  pose proof He as (pre & post & Hd & Ho & Hs & Hke).
  unfold enc_op. rewrite len_cons, !len_app.
  destruct o as [k v|k|k|k]; cbn [op_kind op_value op_key] in *;
    try (exists 0; split; [reflexivity|pose proof (@len_nil Z); lia]).
  cbn [Z.eqb InternalKey.KindSet Pos.eqb].
  destruct (points_tail fb e k v He Hl) as (post' & -> & Hp). cbn [rbind].
  pose proof (len_nonneg v). pose proof (len_varint32 (len v)).
  rewrite Uvarint_varint32 by lia. destruct (Z.leb_spec (len (varint32 (len v))) 0); [lia|].
  eexists; split; [reflexivity|]. rewrite u64_small, len_app by lia. lia.
Qed.

End Index.

Section Views.
Context (junk : bytes -> nat -> Z) (cmp : bytes -> bytes -> Z) `{!Comparator cmp}.

(** What an index entry stands for, and that reading it gives just that. *)
Definition view (fb : flushableBatch) (e : flushableBatchEntry) : entry :=
  (match key_of fb e with Ok k => k | _ => InternalKey.mk [] 0 end,
   match value_of junk fb e with Ok (v, _) => v | _ => [] end).

Definition readable (fb : flushableBatch) (e : flushableBatchEntry) : Prop :=
  key_of fb e = Ok (view fb e).1 /\ value_of junk fb e = Ok ((view fb e).2, None) /\
  exists n, value_size_of fb e = Ok (n, None).

Definition views (fb : flushableBatch) : list entry := view fb <$> fb_offsets fb.

Lemma op_kind_range o : 0 <= op_kind o <= InternalKey.KindMax.
Proof. destruct o; vm_compute; split; discriminate. Qed.

Lemma SeqNumMax_val : InternalKey.SeqNumMax = 72057594037927935.
Proof. done. Qed.

Lemma view_entries fb pre ops (n : nat) :
  fb_data fb = pre ++ enc_ops ops -> len (fb_data fb) < 4294967296 -> Forall op_ok ops ->
  0 <= fb_seqNum fb -> fb_seqNum fb + Z.of_nat n + len ops <= InternalKey.SeqNumMax ->
  Forall (readable fb) (entries_of (len pre) (Z.of_nat n) ops) /\
  view fb <$> entries_of (len pre) (Z.of_nat n) ops = imap (fun i => op_entry (fb_seqNum fb) (n + i)) ops /\
  Forall (fun e => exists kind, 0 <= kind < 256 /\
    InternalKey.Trailer (view fb e).1 = kind + (fb_seqNum fb + fe_index e) * 256)
    (entries_of (len pre) (Z.of_nat n) ops).
Proof.
  intros Hd Hl Hok. revert pre n Hd.
  induction Hok as [|o ops Ho Hok IH]; intros pre n Hd Hs Hmax; [done|].
  rewrite len_cons, SeqNumMax_val in Hmax. pose proof (len_nonneg ops).
  cbn [entries_of fmap list_fmap imap].
  destruct (IH (pre ++ enc_op o) (S n)) as (IH1 & IH2 & IH3);
    [by rewrite Hd, <-app_assoc|done|rewrite SeqNumMax_val; lia|].
  rewrite len_app in IH1, IH2, IH3. replace (Z.of_nat n + 1) with (Z.of_nat (S n)) by lia. rewrite IH2.
  set (e := mkFE _ _ _ _).
  assert (He : points_to (fb_data fb) e o).
  { rewrite Hd, enc_ops_cons. exists pre, (enc_ops ops). repeat split; done. }
  pose proof (points_key fb e o He) as Hk. pose proof (points_value junk fb e o He Ho Hl) as Hv.
  assert (Hw : view fb e = op_entry (fb_seqNum fb) n o).
  { unfold view. rewrite Hk, Hv. unfold op_entry. cbn [fe_index e]. by rewrite u64_small by lia. }
  split; [|split].
  - constructor; [|done]. unfold readable, view. rewrite Hk, Hv.
    destruct (points_size fb e o He Ho Hl) as (sz & Hsz & _). eauto.
  - f_equal; [by rewrite Hw, Nat.add_0_r|]. apply imap_ext. intros i x _. cbn. by rewrite Nat.add_succ_r.
  - constructor; [|done]. exists (op_kind o). pose proof (op_kind_range o). unfold InternalKey.KindMax in *.
    rewrite Hw. split; [lia|]. unfold op_entry. cbn [fst fe_index e].
    rewrite InternalKey.Trailer_Make by (rewrite ?SeqNumMax_val; lia). done.
Qed.

(** Offsets and indices grow together. *)
Definition precedes (a b : flushableBatchEntry) : Prop :=
  fe_offset a < fe_offset b /\ fe_index a < fe_index b.

Lemma entries_of_sorted off idx ops :
  StronglySorted precedes (entries_of off idx ops) /\
  Forall (fun e => off <= fe_offset e /\ idx <= fe_index e) (entries_of off idx ops).
Proof.
  revert off idx. induction ops as [|o ops IH]; intros off idx; cbn [entries_of]; [split; constructor|].
  destruct (IH (off + len (enc_op o)) (idx + 1)) as [IH1 IH2].
  assert (Hn : 0 < len (enc_op o)) by (pose proof (enc_op_nonempty o); unfold len; lia).
  split; constructor; [done| |cbn; lia|]; eapply Forall_impl; try exact IH2;
    intros e [??]; split; cbn; lia.
Qed.

Lemma entry_key_view fb e :
  readable fb e -> entry_key (fb_data fb) e = InternalKey.UserKey (view fb e).1.
Proof.
  intros [Hk _]. revert Hk. generalize (view fb e).1. intros k Hk. unfold key_of in Hk. destruct (lookupZ _ _); [|done].
  unfold slice in Hk. destruct (_ && _); [|done]. cbn in Hk.
  by injection Hk as <-.
Qed.

Lemma not_after_spec d a b :
  not_after cmp d a b <->
  cmp (entry_key d a) (entry_key d b) < 0 \/
  (entry_key d a = entry_key d b /\ fe_offset b <= fe_offset a).
Proof.
  unfold not_after, Less. rewrite <-(cmp_eq (cmp := cmp)).
  pose proof (cmp_sym (cmp := cmp) (entry_key d a) (entry_key d b)).
  pose proof (cmp_sym (cmp := cmp) (entry_key d b) (entry_key d a)).
  bdestruct_all; split; intros; try done; lia.
Qed.

Lemma not_after_trans d : Transitive (not_after cmp d).
Proof.
  intros a b c. rewrite !not_after_spec. intros [H1|[E1 H1]] [H2|[E2 H2]].
  - left. by eapply (cmp_trans (cmp := cmp)).
  - left. by rewrite <-E2.
  - left. by rewrite E1.
  - right. split; [congruence|lia].
Qed.

Lemma not_after_total d : Total (not_after cmp d).
Proof.
  intros a b. rewrite !not_after_spec.
  destruct (cmp_total cmp (entry_key d a) (entry_key d b)) as [?|[->|?]]; auto.
  destruct (Z.le_gt_cases (fe_offset a) (fe_offset b)); [right|left]; right; split; (done || lia).
Qed.

(** The built index: every record once, readable, in internal-key order. *)
Lemma newFlushableBatch_views b h ops s :
  data b = h ++ enc_ops ops -> len h = 12 -> dcap b <> 0 -> Batch.SeqNum junk b = s ->
  Forall op_ok ops -> len (data b) < 4294967296 ->
  0 <= s -> s + len ops <= InternalKey.SeqNumMax ->
  exists fb, newFlushableBatch junk cmp b = Ok fb /\ Forall (readable fb) (fb_offsets fb) /\
    views fb ≡ₚ imap (op_entry s) ops /\ StronglySorted (entry_lt cmp) (views fb).
Proof.
  intros Hd Hh Hc Hsq Hok Hl Hs Hmax. unfold newFlushableBatch.
  destruct (Z.eqb_spec (dcap b) 0); [done|]. rewrite Hsq.
  assert (Hidx : (if batchHeaderLen <? len (data b)
          then index_records junk (S (length (data b))) (data b) (drop 12 (data b)) 0 else Ok [])
          = Ok (entries_of (len h) 0 ops)).
  { rewrite Hd. unfold len in Hh. rewrite drop_app_length' by lia. rewrite len_app. unfold len at 1. rewrite Hh.
    pose proof (length_enc_ops ops). unfold batchHeaderLen.
    destruct (Z.ltb_spec 12 (12 + len (enc_ops ops))) as [|Hz].
    - apply index_records_enc; [done|by rewrite <-Hd|lia| |rewrite length_app; lia].
      rewrite Hd, len_app in Hl. unfold len in *. lia.
    - unfold len in Hz. destruct ops; [done|cbn [length] in *; lia]. }
  rewrite Hidx. cbn [rbind]. eexists. split; [done|].
  set (fb := mkFB _ _ _ _). set (es := entries_of (len h) 0 ops).
  destruct (view_entries fb h ops 0) as (Hr & Hv & Ht); [done|done|done|done|cbn; lia|].
  change (Z.of_nat 0) with 0 in Hr, Hv, Ht. fold es in Hr, Hv, Ht.
  assert (Hp : fb_offsets fb ≡ₚ es) by (cbn; apply merge_sort_Permutation).
  assert (Hr' : Forall (readable fb) (fb_offsets fb)) by (by rewrite Hp).
  split; [done|]. split; [unfold views; by rewrite Hp, Hv|].
  pose proof (entries_of_sorted (len h) 0 ops) as [Hes _]. fold es in Hes.
  unfold views. eapply (StronglySorted_fmap (not_after cmp (data b))).
  - cbn. apply StronglySorted_merge_sort; [apply not_after_trans|apply not_after_total].
  - rewrite Hp. eapply (StronglySorted_NoDup precedes); [|done]. unfold precedes. intros a. lia.
  - intros a c Ha Hc' Hne Hac. rewrite Hp in Ha, Hc'.
    rewrite Forall_forall in Hr. pose proof (entry_key_view fb a (Hr a Ha)) as Ka.
    pose proof (entry_key_view fb c (Hr c Hc')) as Kc. cbn [fb_data fb] in Ka, Kc.
    apply not_after_spec in Hac. rewrite Ka, Kc in Hac.
    unfold entry_lt. apply InternalKey.InternalCompare_lt; [done|].
    destruct Hac as [?|[E Ho]]; [by left|right]. split; [done|].
    rewrite Forall_forall in Ht. destruct (Ht a Ha) as (ka & Hka & ->), (Ht c Hc') as (kc & Hkc & ->).
    destruct (StronglySorted_elem _ _ _ _ Hes Ha Hc') as [?|[[??]|[??]]]; (done || lia).
Qed.

(** ** The iterators walk the views *)

(** The iterator has no upper bound and stands at [p]. *)
Definition fb_at (i : flushableBatchIter) (l : list entry) (p : Z) : Prop :=
  Forall (readable (fi_batch i)) (fb_offsets (fi_batch i)) /\ l = views (fi_batch i) /\
  fi_err i = None /\ fi_upper i = None /\ (fi_index i = p \/ l = []).

Lemma lookupZ_views fb p : lookupZ (views fb) p = view fb <$> lookupZ (fb_offsets fb) p.
Proof. unfold lookupZ, views. destruct (p <? 0); [done|]. apply list_lookup_fmap. Qed.

Lemma len_views fb : len (views fb) = len (fb_offsets fb).
Proof. unfold len, views. by rewrite length_fmap. Qed.

Lemma offset_at_views fb p x :
  Forall (readable fb) (fb_offsets fb) -> lookupZ (views fb) p = Some x ->
  exists e, offset_at fb p = Ok e /\ readable fb e /\ x = view fb e.
Proof.
  intros Hr Hx. rewrite lookupZ_views in Hx. unfold offset_at.
  destruct (lookupZ (fb_offsets fb) p) as [e|] eqn:E; [|done]. injection Hx as <-.
  exists e. split; [done|]. split; [by eapply Forall_lookupZ|done].
Qed.

Lemma load_upper_ok i p x :
  Forall (readable (fi_batch i)) (fb_offsets (fi_batch i)) -> fi_upper i = None -> fi_index i = p ->
  lookupZ (views (fi_batch i)) p = Some x ->
  load_upper junk cmp i = Ok (with_key i x.1, Some x).
Proof.
  intros Hr Hu Hi Hx. destruct (offset_at_views _ _ _ Hr Hx) as (e & He & (Hk & Hv & _) & ->).
  unfold load_upper, getKey. rewrite Hi, He. cbn [rbind]. rewrite Hk. cbn [rbind fi_upper with_key]. rewrite Hu.
  unfold yield_value, Value. cbn [fi_batch fi_index with_key]. rewrite Hi, He. cbn [rbind]. rewrite Hv.
  cbn [rbind fi_key with_key]. by rewrite <-surjective_pairing.
Qed.

#[export] Instance fbOps_laws : ForwardLaws (fbOps junk cmp) fb_at.
Proof.
  split.
  - intros i l p (Hr & -> & He & Hu & _). cbn [itFirst fbOps]. unfold fFirst, n_offsets. cbn [fi_batch with_ferr].
    destruct (Z.eqb_spec (len (fb_offsets (fi_batch i))) 0) as [E|E].
    + rewrite <-len_views in E. unfold len in E. destruct (views (fi_batch i)) eqn:Ev; [|cbn in E; lia].
      eexists. split; [done|]. unfold fb_at; cbn. rewrite Ev. tauto.
    + destruct (lookupZ_Some (views (fi_batch i)) 0) as [x Hx];
        [rewrite len_views; pose proof (len_nonneg (fb_offsets (fi_batch i))); lia|].
      rewrite (load_upper_ok _ 0 x), Hx by done. eexists. split; [done|]. unfold fb_at; cbn. tauto.
  - intros i l p (Hr & -> & He & Hu & [Hp|Hp]) Hlt.
    2: { rewrite Hp in Hlt. unfold len in Hlt. cbn in Hlt. lia. }
    cbn [itNext fbOps]. unfold fNext, n_offsets. rewrite <-len_views, Hp. cbn [fi_batch with_index fi_index].
    destruct (Z.eqb_spec p (len (views (fi_batch i)))); [lia|]. rewrite <-len_views.
    destruct (Z.eqb_spec (p + 1) (len (views (fi_batch i)))) as [E|E].
    + rewrite lookupZ_None by lia. eexists. split; [done|]. unfold fb_at; cbn. tauto.
    + destruct (lookupZ_Some (views (fi_batch i)) (p + 1)) as [x Hx]; [lia|].
      rewrite (load_upper_ok _ (p + 1) x), Hx by done. eexists. split; [done|]. unfold fb_at; cbn. tauto.
  - intros i l p (_ & _ & He & _). exact He.
Qed.

(** The flush iterator walks the same entries, adding their sizes. *)
Lemma measure_ok i p x :
  Forall (readable (fi_batch i)) (fb_offsets (fi_batch i)) -> fi_index i = p ->
  lookupZ (views (fi_batch i)) p = Some x ->
  exists n m, entryBytes i = Ok n /\ valueSize i = Ok (i, m).
Proof.
  intros Hr Hi Hx. destruct (offset_at_views _ _ _ Hr Hx) as (e & He & (_ & _ & m & Hm) & ->).
  unfold entryBytes, valueSize. rewrite Hi, He. cbn [rbind]. rewrite Hm. cbn. eauto.
Qed.

#[export] Instance flushOps_laws :
  ForwardLaws (flushOps junk cmp) (fun s l p => fb_at (fst s) l p).
Proof.
  split.
  - intros [i n] l p Hat. cbn [fst] in Hat. cbn [itFirst flushOps]. unfold ffFirst. cbn [fst snd].
    assert (Hat' : fb_at (with_ferr i None) l p) by (unfold fb_at in *; cbn; tauto).
    destruct (fwd_first (o := fbOps junk cmp) _ _ _ Hat') as (i' & E & Hi'). cbn [itFirst fbOps] in E. rewrite E. cbn [rbind].
    destruct (lookupZ l 0) as [x|] eqn:Hx; [|eexists; by split].
    pose proof Hi' as (Hr & -> & _ & _ & [Hidx|Hnil]); [|by rewrite Hnil in Hx].
    destruct (measure_ok i' 0 x Hr Hidx Hx) as (a & b & -> & ->). cbn [rbind]. eexists. by split.
  - intros [i n] l p Hat Hlt. cbn [fst] in Hat. cbn [itNext flushOps]. unfold ffNext. cbn [fst snd].
    pose proof Hat as (Hr & -> & He & Hu & [Hp|Hp]); [|rewrite Hp in Hlt; unfold len in Hlt; cbn in Hlt; lia].
    unfold n_offsets. rewrite <-len_views, Hp. cbn [fi_batch with_index fi_index].
    destruct (Z.eqb_spec p (len (views (fi_batch i)))); [lia|]. rewrite <-len_views.
    destruct (Z.eqb_spec (p + 1) (len (views (fi_batch i)))) as [E|E].
    { rewrite lookupZ_None by lia. eexists. split; [done|]. unfold fb_at; cbn. tauto. }
    destruct (lookupZ_Some (views (fi_batch i)) (p + 1)) as [x Hx]; [lia|].
    destruct (measure_ok (with_key (with_index i (p + 1)) x.1) (p + 1) x Hr eq_refl Hx) as (a & b & Ha & Hb).
    destruct (offset_at_views _ _ _ Hr Hx) as (e & He' & (Hk & Hv & _) & Hxe).
    unfold getKey. rewrite He'. cbn [rbind]. rewrite Hk. cbn [rbind].
    rewrite <-Hxe. rewrite Ha. cbn [rbind]. rewrite Hb. cbn [rbind].
    unfold yield_value, Value. cbn [fi_batch fi_index with_key with_index]. rewrite He'. cbn [rbind].
    rewrite Hv, Hx. cbn [rbind fi_key with_key]. rewrite <-Hxe. eexists.
    split; [by destruct x|]. unfold fb_at; cbn. tauto.
  - intros [i n] l p (_ & _ & He & _). exact He.
Qed.

(** ** Seeking *)

(** The keys an index holds are keys of the store: a seek lands on the first
    entry at or past the key. *)
Definition valid_keys (l : list entry) : Prop :=
  Forall (fun x : entry => exists uk s k, x.1 = InternalKey.MakeInternalKey uk s k /\
    0 <= s <= InternalKey.SeqNumMax /\ 0 <= k <= InternalKey.KindMax) l.

Lemma search_offsets_ok fb key :
  Forall (readable fb) (fb_offsets fb) -> StronglySorted (entry_lt cmp) (views fb) -> valid_keys (views fb) ->
  search_offsets cmp fb key = Ok (list_seek cmp key (views fb)).
Proof.
  intros Hr Hs Hv. unfold search_offsets. rewrite <-len_views.
  assert (Hg : forall j x, lookupZ (views fb) j = Some x ->
     getKey fb j = Ok x.1 /\
     (InternalKey.InternalCompare cmp (InternalKey.MakeSearchKey key) x.1 <=? 0)
     = negb (cmp (InternalKey.UserKey x.1) key <? 0)).
  { intros j x Hx. destruct (offset_at_views _ _ _ Hr Hx) as (e & He & (Hk & _) & Hxe).
    split; [unfold getKey; rewrite He; cbn [rbind]; by rewrite Hk, Hxe|].
    destruct (Forall_lookupZ _ _ _ _ Hv Hx) as (uk & s & k & -> & Hss & Hkk).
    pose proof (InternalKey.search_key_le cmp key uk s k Hss Hkk) as Hle.
    cbn [InternalKey.UserKey InternalKey.MakeInternalKey]. bdestruct_all; cbn; (done || lia). }
  apply (search_spec _ (fun j => match lookupZ (views fb) j with
     | Some x => negb (cmp (InternalKey.UserKey x.1) key <? 0) | None => true end)).
  - apply list_seek_range.
  - intros j Hj. destruct (lookupZ_Some (views fb) j Hj) as [x Hx]. destruct (Hg j x Hx) as [Hk Hc].
    rewrite Hk, Hx. cbn [rbind]. by rewrite Hc.
  - intros j Hj. pose proof (list_seek_range cmp key (views fb)).
    destruct (lookupZ_Some (views fb) j) as [x Hx]; [lia|]. rewrite Hx.
    pose proof (list_seek_before cmp key _ _ _ Hx (proj2 Hj)). bdestruct_all; (done || lia).
  - intros j Hj. pose proof (list_seek_range cmp key (views fb)).
    destruct (lookupZ_Some (views fb) j) as [x Hx]; [lia|]. rewrite Hx.
    pose proof (list_seek_after cmp key _ _ _ Hs Hx (proj1 Hj)). bdestruct_all; (done || lia).
Qed.

Lemma fSeekGE_ok fb key :
  Forall (readable fb) (fb_offsets fb) -> StronglySorted (entry_lt cmp) (views fb) -> valid_keys (views fb) ->
  exists i, fSeekGE junk cmp key (fb_newIter fb None None)
            = Ok (i, lookupZ (views fb) (list_seek cmp key (views fb))) /\
    fb_at i (views fb) (list_seek cmp key (views fb)).
Proof.
  intros Hr Hs Hv. unfold fSeekGE. cbn [fi_batch with_ferr fb_newIter].
  rewrite search_offsets_ok by done. cbn [rbind]. set (p := list_seek cmp key (views fb)).
  pose proof (list_seek_range cmp key (views fb)) as Hp. fold p in Hp. unfold n_offsets.
  cbn [fi_batch fi_index with_index with_ferr fb_newIter]. rewrite <-len_views.
  destruct (Z.leb_spec (len (views fb)) p).
  - rewrite lookupZ_None by lia. eexists. split; [done|]. unfold fb_at; cbn. tauto.
  - destruct (lookupZ_Some (views fb) p) as [x Hx]; [lia|].
    rewrite (load_upper_ok _ p x), Hx by done. eexists. split; [done|]. unfold fb_at; cbn. tauto.
Qed.

End Views.

(** ** What a queued batch promises *)

(** The last record of a batch on [key]. *)
Fixpoint latest (key : bytes) (ops : list batchOp) : option batchOp :=
  match ops with
  | [] => None
  | o :: ops' =>
      match latest key ops' with
      | Some x => Some x
      | None => if decide (op_key o = key) then Some o else None
      end
  end.

Lemma latest_spec key ops :
  match latest key ops with
  | Some o => exists i, ops !! i = Some o /\ op_key o = key /\
      forall j o', ops !! j = Some o' -> op_key o' = key -> (j <= i)%nat
  | None => forall j o', ops !! j = Some o' -> op_key o' <> key
  end.
Proof.
  induction ops as [|o ops IH]; cbn [latest]; [done|].
  destruct (latest key ops) as [x|].
  - destruct IH as (i & Hi & Hk & Hj). exists (S i). split; [done|]. split; [done|].
    intros [|j] o' Ho' Hk'; [lia|]. apply Hj in Ho'; [lia|done].
  - case_decide as Hk.
    + exists 0%nat. split; [done|]. split; [done|]. intros [|j] o' Ho' Hk'; [lia|]. by apply IH in Ho'.
    + intros [|j] o' Ho'; cbn in Ho'; [congruence|]. by eapply IH.
Qed.

Section Contract.
Context (junk : bytes -> nat -> Z) (cmp : bytes -> bytes -> Z) `{!Comparator cmp}.

Lemma double_until_ge fuel n t : 0 <= n -> n <= double_until fuel n t.
Proof.
  revert n. induction fuel as [|fuel IH]; intros n Hn; cbn [double_until]; [lia|].
  destruct (n <? t); [|lia]. etransitivity; [|apply IH]; lia.
Qed.

Lemma dcap_run_op b o : 0 < dcap b \/ len (data b) = 0 -> 0 < dcap (run_op junk b o).
Proof.
  assert (Hgrow : forall b n, 0 < dcap b -> 0 < dcap (grow junk b n)).
  { intros b' n Hb. unfold grow. cbn [dcap with_data]. case_match; [|done].
    pose proof (double_until_ge 64 (2 * dcap b') (len (data b') + n)). lia. }
  assert (Hinit : forall c, 0 < dcap (init junk b c)).
  { intros c. cbn [init setSeqNum setCount with_data dcap].
    pose proof (double_until_ge 64 batchInitialSize c ltac:(done)).
    change batchInitialSize with 1024 in *. lia. }
  intros Hb.
  destruct o; cbn [run_op]; unfold Set_, Delete, PrefixDeleteKeySet, LogData, SetDeferred, DeleteDeferred,
    prepareDeferredKeyRecord, prepareDeferredKeyValueRecord, copyKey, copyValue, poke; cbn [dcap with_data];
    apply Hgrow; cbn [dcap]; destruct (Z.eqb_spec (len (data b)) 0); (apply Hinit || lia).
Qed.

Lemma dcap_run_ops d ops : ops <> [] -> 0 < dcap (run_ops junk (newBatch d) ops).
Proof.
  unfold run_ops. induction ops as [|o ops IH] using rev_ind; [done|]. intros _.
  rewrite foldl_app. cbn [foldl]. apply dcap_run_op.
  destruct (decide (ops = [])) as [->|Hne]; [by right|left; auto].
Qed.

(** A batch as it is committed: built by its operations and stamped with a
    sequence number. *)
Definition committed (d : option nat) (ops : list batchOp) (s : Z) : Batch :=
  setSeqNum (run_ops junk (newBatch d) ops) s.

(** Batches the store accepts: 4 GiB of records, 56-bit sequence numbers. *)
Definition committable (ops : list batchOp) (s : Z) : Prop :=
  ops <> [] /\ Forall op_ok ops /\ len (enc_ops ops) < 4294967284 /\
  0 <= s /\ s + len ops <= InternalKey.SeqNumMax.

Lemma committed_views d ops s :
  committable ops s ->
  exists fb, newFlushableBatch junk cmp (committed d ops s) = Ok fb /\
    Forall (readable junk fb) (fb_offsets fb) /\
    views junk fb ≡ₚ imap (op_entry s) ops /\ StronglySorted (entry_lt cmp) (views junk fb).
Proof.
  intros (Hne & Hok & Hl & Hs & Hmax). rewrite SeqNumMax_val in Hmax. pose proof (len_nonneg ops).
  destruct (run_ops_state junk d ops) as (Hd & _). rewrite decide_False in Hd by done.
  pose proof (len_fresh_header junk) as Hh. unfold len in Hh.
  set (h := le_put 8 s ++ drop 8 (fresh_header junk)).
  assert (Hlh : len h = 12) by (unfold h, len; rewrite length_app, length_le_put, length_drop; lia).
  assert (Hdata : data (committed d ops s) = h ++ enc_ops ops).
  { unfold committed. cbn [data setSeqNum with_data]. rewrite Hd. unfold h.
    rewrite drop_app_le by lia. by rewrite <-app_assoc. }
  apply (newFlushableBatch_views junk cmp _ h); try done.
  - unfold committed. cbn [dcap setSeqNum with_data]. pose proof (dcap_run_ops d ops Hne). lia.
  - unfold Batch.SeqNum. rewrite ensure_init_id by (rewrite Hdata, len_app; pose proof (len_nonneg (enc_ops ops)); lia).
    rewrite Hdata. unfold h. rewrite <-app_assoc, take_app_length' by (by rewrite length_le_put).
    rewrite le_get_put_u64. apply u64_small. lia.
  - rewrite Hdata, len_app. lia.
Qed.

(** C33: a large batch queued for flushing holds every record of the batch once,
    under consecutive sequence numbers, in internal-key order, and both its
    iterators walk exactly that list. *)
Theorem flushable_scan d ops s n fuel :
  committable ops s -> (length ops <= fuel)%nat ->
  exists fb out, newFlushableBatch junk cmp (committed d ops s) = Ok fb /\
    out ≡ₚ imap (op_entry s) ops /\ StronglySorted (entry_lt cmp) out /\
    scan (fbOps junk cmp) fuel (fb_newIter fb None None) = Ok out /\
    scan (flushOps junk cmp) fuel (fb_newFlushIter fb n) = Ok out.
Proof.
  intros Hc Hf. destruct (committed_views d ops s Hc) as (fb & E & Hr & Hp & Hs).
  exists fb, (views junk fb). split; [done|]. split; [done|]. split; [done|].
  assert (Hl : (length (views junk fb) <= fuel)%nat) by (rewrite Hp, length_imap; done).
  split; eapply scan_walks; try apply _; try done.
  - instantiate (1 := -1). unfold fb_at; cbn. tauto.
  - instantiate (1 := -1). unfold fb_at; cbn. tauto.
Qed.

Lemma op_entries_valid ops s l :
  committable ops s -> l ≡ₚ imap (op_entry s) ops -> valid_keys l.
Proof.
  intros (_ & _ & _ & Hs & Hmax) Hp. unfold valid_keys. rewrite Hp. apply Forall_lookup_2.
  intros i x Hx. apply list_lookup_imap_Some in Hx as (o & Ho & ->).
  apply lookup_lt_Some in Ho. unfold len in Hmax.
  eexists _, _, _. split; [reflexivity|]. split; [lia|]. apply op_kind_range.
Qed.

(** The entry a seek finds for a key of the batch is that of its last record. *)
Lemma seek_latest ops s l key :
  committable ops s -> l ≡ₚ imap (op_entry s) ops -> StronglySorted (entry_lt cmp) l ->
  match latest key ops, lookupZ l (list_seek cmp key l) with
  | Some o, Some x => exists i, x = op_entry s i o /\ op_key o = key /\ ops !! i = Some o
  | Some _, None => False
  | None, Some x => InternalKey.UserKey x.1 <> key
  | None, None => True
  end.
Proof.
  intros Hc Hp Hs. pose proof (latest_spec key ops) as Hlat.
  assert (Hin : forall x, x ∈ l -> exists j o, ops !! j = Some o /\ x = op_entry s j o).
  { intros x Hx. rewrite Hp in Hx. apply elem_of_lookup_imap_1 in Hx as (j & o & -> & Ho). eauto. }
  assert (Hof : forall q x, lookupZ l q = Some x -> x ∈ l).
  { unfold lookupZ. intros q x. destruct (q <? 0); [done|]. apply list_elem_of_lookup_2. }
  destruct (latest key ops) as [o|].
  2: { destruct (lookupZ l _) as [x|] eqn:Ex; [|done].
       destruct (Hin x (Hof _ _ Ex)) as (j & o & Ho & ->). intros Hk. by eapply Hlat. }
  destruct Hlat as (i & Hi & Hk & Hmax).
  assert (Hx : op_entry s i o ∈ l).
  { rewrite Hp. apply (list_elem_of_lookup_2 _ i). by rewrite list_lookup_imap, Hi. }
  apply list_elem_of_lookup in Hx as [q Hq].
  assert (HqZ : lookupZ l (Z.of_nat q) = Some (op_entry s i o)).
  { unfold lookupZ. destruct (Z.ltb_spec (Z.of_nat q) 0); [lia|]. by rewrite Nat2Z.id. }
  pose proof (list_seek_range cmp key l) as Hrng.
  assert (Hle : list_seek cmp key l <= Z.of_nat q).
  { destruct (Z.le_gt_cases (list_seek cmp key l) (Z.of_nat q)) as [|Hgt]; [done|].
    pose proof (list_seek_before cmp key l _ _ HqZ Hgt) as Hlt. cbn in Hlt. rewrite Hk, cmp_refl in Hlt by done. lia. }
  pose proof (lookupZ_is_Some _ _ _ HqZ).
  destruct (lookupZ_Some l (list_seek cmp key l)) as [x Ex]; [lia|]. rewrite Ex.
  destruct (Z.eq_dec (list_seek cmp key l) (Z.of_nat q)) as [Eq|Hneq].
  { rewrite Eq, HqZ in Ex. injection Ex as <-. eauto. }
  exfalso. pose proof (list_seek_after cmp key l _ _ Hs Ex ltac:(lia)) as Hge.
  assert (Hlt : entry_lt cmp x (op_entry s i o)).
  { eapply (StronglySorted_lookup _ l (Z.to_nat (list_seek cmp key l)) q); [done| |done|lia].
    unfold lookupZ in Ex. by destruct (Z.ltb_spec (list_seek cmp key l) 0); [lia|]. }
  destruct (Hin x (Hof _ _ Ex)) as (j & o' & Ho' & ->). destruct Hc as (_ & _ & _ & Hs0 & Hs1).
  apply lookup_lt_Some in Hi as Hi', Ho' as Hj'. unfold len in Hs1.
  pose proof (op_kind_range o). pose proof (op_kind_range o'). unfold InternalKey.KindMax in *.
  apply InternalKey.InternalCompare_lt in Hlt; [|done].
  destruct Hlt as [Hlt|[Ek Ht]]; [rewrite <-Hk in Hge; cbn in Hge, Hlt; lia|].
  unfold op_entry in Ht, Ek. cbn [fst] in Ht, Ek. rewrite !InternalKey.Trailer_Make in Ht by lia.
  cbn [InternalKey.UserKey InternalKey.MakeInternalKey] in Ek.
  specialize (Hmax j o' Ho' ltac:(congruence)).
  destruct (decide (j = i)) as [->|]; [|lia]. rewrite Hi in Ho'. injection Ho' as <-. lia.
Qed.

(** A lookup in a queued batch finds the value of the last record on the
    key when that record is a Set; a key whose last record deletes it is
    reported as absent, exactly as a key the batch does not mention. *)
Theorem flushable_get d ops s key :
  committable ops s ->
  exists fb, newFlushableBatch junk cmp (committed d ops s) = Ok fb /\
    fb_get junk cmp fb key =
      Ok (match latest key ops with
          | Some (OpSet _ v) => (v, true, InternalKey.KindSet)
          | _ => ([], false, InternalKey.KindInvalid)
          end).
Proof.
  intros Hc. destruct (committed_views d ops s Hc) as (fb & E & Hr & Hp & Hs).
  exists fb. split; [done|]. unfold fb_get.
  destruct (fSeekGE_ok junk cmp fb key Hr Hs (op_entries_valid ops s _ Hc Hp)) as (i & -> & _). cbn [rbind].
  pose proof (seek_latest ops s _ key Hc Hp Hs) as Hl.
  destruct (latest key ops) as [o|], (lookupZ _ _) as [[ik v]|]; try done.
  - destruct Hl as (j & Hx & Hk & Hj). injection Hx as -> ->. destruct Hc as (_ & _ & _ & Hs0 & Hs1).
    apply lookup_lt_Some in Hj. unfold len in Hs1. pose proof (op_kind_range o).
    unfold InternalKey.KindMax in *. rewrite InternalKey.KindOf_Make by lia.
    cbn [InternalKey.UserKey InternalKey.MakeInternalKey]. rewrite Hk, cmp_refl by done.
    by destruct o.
  - cbn [fst] in Hl. destruct (Z.eqb_spec (cmp (InternalKey.UserKey ik) key) 0) as [Ez|]; [|done].
    by apply (cmp_eq (cmp := cmp)) in Ez.
Qed.
End Contract.

Definition demo_rewrites : list batchOp := [OpSet [2] [20]; OpSet [1] [10]; OpDelete [2]; OpSet [1] [11]].

Lemma demo_rewrites_ok : committable demo_rewrites 7.
Proof. split; [done|]. split; [repeat constructor|]. by vm_compute. Defined.

Lemma flushable_scan_witness :
  exists fb out, newFlushableBatch demo_junk bytes_compare (committed demo_junk None demo_rewrites 7) = Ok fb /\
    out ≡ₚ imap (op_entry 7) demo_rewrites /\
    scan (flushOps demo_junk bytes_compare) 9 (fb_newFlushIter fb 0) = Ok out.
Proof.
  destruct (flushable_scan demo_junk bytes_compare None demo_rewrites 7 0 9 demo_rewrites_ok ltac:(cbn; lia))
    as (fb & out & H1 & H2 & _ & _ & H3). by exists fb, out.
Defined.

Lemma flushable_get_witness :
  exists fb, newFlushableBatch demo_junk bytes_compare (committed demo_junk None demo_rewrites 7) = Ok fb /\
    fb_get demo_junk bytes_compare fb [2] = Ok ([], false, 255).
Proof. exact (flushable_get demo_junk bytes_compare None demo_rewrites 7 [2] demo_rewrites_ok). Defined.
