(* ===== verification/Table.v ===== *)
(** The mapped file under the array tables (table.go).

    A table is a file with a bump allocator whose end is kept both in an atomic
    32-bit counter and in the first four bytes of the file.  The file is mapped
    shared, so its contents are one flat memory; the mapping has its own length
    and protection.  System calls are taken to succeed (their failures are
    returned unchanged by the code); an access outside the slice, outside the
    file or against the protection is a fault, [Panic]. *)

From Stdlib Require Import ZArith Lia.
From stdpp Require Import base numbers option list.
From S2P Require Import Prelude Base.

Definition maxMapSize : Z := 281474976710655.
Definition maxExpandStep : Z := Z.shiftl 128 20.
Definition initMmapSize : Z := Z.shiftl 10 20.

Definition tableHeaderOffset : Z := 0.
Definition tableHeaderSize : Z := 4.
Definition tableDataOffset : Z := 4.

Definition tableWriteMmap : Z := 1.
Definition tableReadMmap : Z := 2.
Definition tableWriteDisk : Z := 3.

(** [mmap.RDONLY] and [mmap.RDWR] *)
Inductive prot : Type := RDONLY | RDWR.

(** A file on disk: its bytes and its size. *)
Record file : Type := mkFile { f_mem : mem; f_size : Z }.

Definition emptyFile : file := mkFile mem_zero 0.

(** [t_data] is the mapping, its length and protection ([None] for nil);
    [datasz] and [filesz] are the fields the code keeps besides. *)
Record table : Type := mkTable {
  t_file : file;
  t_offset : Z;
  t_filesz : Z;
  t_data : option (Z * prot);
  t_datasz : Z;
  t_opened : bool;
  t_openType : Z
}.

Definition with_file (t : table) (f : file) : table :=
  mkTable f (t_offset t) (t_filesz t) (t_data t) (t_datasz t) (t_opened t) (t_openType t).
Definition with_offset (t : table) (o : Z) : table :=
  mkTable (t_file t) o (t_filesz t) (t_data t) (t_datasz t) (t_opened t) (t_openType t).
Definition with_filesz (t : table) (n : Z) : table :=
  mkTable (t_file t) (t_offset t) n (t_data t) (t_datasz t) (t_opened t) (t_openType t).
Definition with_map (t : table) (d : option (Z * prot)) (n : Z) : table :=
  mkTable (t_file t) (t_offset t) (t_filesz t) d n (t_opened t) (t_openType t).

Definition t_Size (t : table) : Z := t_offset t.
Definition t_Capacity (t : table) : Z := t_datasz t.

(** *** Access to the mapping *)

Definition dlen (t : table) : Z := match t_data t with Some (n, _) => n | None => 0 end.

(** [t.data[offset : offset+size]] with 32-bit arithmetic on the bounds. *)
Definition in_map (t : table) (offset size : Z) : bool :=
  let e := u32 (offset + size) in
  (offset <=? e) && (e <=? dlen t) && (e <=? f_size (t_file t)).

Definition getBytes (t : table) (offset size : Z) : outcome bytes :=
  if in_map t offset size
  then Ok (mem_read (f_mem (t_file t)) offset (Z.to_nat (u32 (offset + size) - offset)))
  else Panic.

(** Storing [b] through such a slice. *)
Definition writeAt (t : table) (b : bytes) (offset : Z) : outcome table :=
  match t_data t with
  | Some (_, RDWR) =>
      if in_map t offset (len b)
      then Ok (with_file t (mkFile (mem_write (f_mem (t_file t)) offset b) (f_size (t_file t))))
      else Panic
  | _ => Panic
  end.

Definition readAtUInt16 (t : table) (offset : Z) : outcome Z :=
  let! b := getBytes t offset 2 in Ok (be_get b).
Definition readAtUInt32 (t : table) (offset : Z) : outcome Z :=
  let! b := getBytes t offset 4 in Ok (be_get b).
Definition writeAtUInt16 (t : table) (val offset : Z) : outcome table :=
  writeAt t (be_put 2 val) offset.
Definition writeAtUInt32 (t : table) (val offset : Z) : outcome table :=
  writeAt t (be_put 4 val) offset.

Definition getOffset (t : table) : outcome Z := readAtUInt32 t tableHeaderOffset.
Definition setOffset (t : table) (val : Z) : outcome table := writeAtUInt32 t val tableHeaderOffset.

(** *** Sizes and mappings *)

(** The loop over the powers of two of [calcExpandSize], [n] of them left. *)
Fixpoint pow2_fit (n : nat) (i size : Z) : option Z :=
  match n with
  | O => None
  | S n' => if size <=? Z.shiftl 1 i then Some (Z.shiftl 1 i) else pow2_fit n' (i + 1) size
  end.

Definition calcExpandSize (size : Z) : outcome Z :=
  match pow2_fit 16 15 size with
  | Some n => Ok n
  | None =>
      if maxMapSize <? size then Err ErrTableTooLarge
      else
        let rem := Z.rem size maxExpandStep in
        let sz := if 0 <? rem then size + (maxExpandStep - rem) else size in
        Ok (if maxMapSize <? sz then maxMapSize else sz)
  end.

Definition fileTruncate (t : table) (size : Z) : table :=
  with_filesz (with_file t (mkFile (mem_truncate (f_mem (t_file t)) size) size)) size.

Definition munmap (t : table) : table :=
  match t_data t with None => t | Some _ => with_map t None 0 end.

(** [mmap.Map]: a length that is not positive means the whole file, and an empty
    mapping is refused; [datasz] records the length that was asked for. *)
Definition mmapFile (t : table) (p : prot) (length : Z) : outcome table :=
  let n := if length <=? 0 then f_size (t_file t) else length in
  if n =? 0 then Err ErrSys else Ok (with_map t (Some (n, p)) length).

Definition mmapWrite (t : table) (sz : Z) : outcome table :=
  let! size := calcExpandSize sz in mmapFile (munmap t) RDWR size.

Definition mmapRead (t : table) (sz : Z) : outcome table := mmapFile (munmap t) RDONLY sz.

Definition mmapReadExpand (t : table) : outcome (table * bool) :=
  if t_filesz t <=? t_datasz t then Ok (t, false)
  else let! t' := mmapRead t (t_datasz t * 2) in Ok (t', true).

Definition mmapReadTruncate (t : table) (sz : Z) : outcome table :=
  let t := if f_size (t_file t) =? sz then t else fileTruncate t sz in
  mmapRead t sz.

Definition expandFileSize (t : table) (size : Z) : outcome table :=
  if t_filesz t <? size
  then let! sz := calcExpandSize size in Ok (fileTruncate t sz)
  else Ok t.

Definition expandMmapSize (t : table) (size : Z) : outcome table :=
  if t_datasz t <? size then mmapWrite t size else Ok t.

(** *** Allocation *)

Definition checkTableFull (t : table) (size : Z) : option error :=
  if t_datasz t <? size + t_Size t then Some ErrTableFull else None.

(** [allocAlign]: the counter is advanced before the check, so it stays
    advanced when the table is full. *)
Definition allocAlign (t : table) (size align overflow : Z) : table * outcome (Z * Z) :=
  let padded := u32 (size + align) in
  let newSize := u32 (t_offset t + padded) in
  let t := with_offset t newSize in
  let sz := newSize + overflow in
  if t_datasz t <? sz then (t, Err ErrTableFull)
  else
    match (let! t := expandFileSize t sz in setOffset t newSize) with
    | Ok t' => (t', Ok (Z.ldiff (u32 (u32 (newSize - padded) + align)) align, padded))
    | Err e => (t, Err e)
    | Panic => (t, Panic)
    end.

Definition alloc (t : table) (size : Z) : outcome (table * Z) :=
  let newSize := u32 (t_offset t + size) in
  let t := with_offset t newSize in
  let! t := expandFileSize t newSize in
  let! t := expandMmapSize t newSize in
  let! t := setOffset t newSize in
  Ok (t, u32 (newSize - size)).

Definition initHeader (t : table) : outcome table :=
  if t_filesz t =? 0
  then let! (t, _) := alloc t tableHeaderSize in setOffset t tableHeaderSize
  else Ok t.

(** [openTable] on the file found at the path; the [openType] of the options is
    not stored in the table. *)
Definition openTable (f : file) (openType initSize : Z) : outcome table :=
  let t := mkTable f 0 (f_size f) None 0 true 0 in
  if openType =? tableWriteMmap then
    let sz := if initSize =? 0 then initMmapSize else initSize in
    let sz := if sz <? t_filesz t then t_filesz t else sz in
    let! t := mmapWrite t sz in
    let! t := initHeader t in
    let! o := getOffset t in
    Ok (with_offset t o)
  else if openType =? tableReadMmap then
    let! t := mmapRead t (t_filesz t) in
    let! o := getOffset t in
    Ok (with_offset t o)
  else if openType =? tableWriteDisk then
    let! t := mmapRead t initSize in
    Ok (with_offset t (u32 (t_filesz t)))
  else Err ErrTableOpenType.

Definition t_close (t : table) : table :=
  if t_opened t then
    let t := munmap t in
    mkTable (t_file t) (t_offset t) (t_filesz t) (t_data t) (t_datasz t) false (t_openType t)
  else t.

(** ** Properties *)

(** The allocator's invariant: the counter, its copy in the file, the file and
    the mapping agree. *)
Record wf (t : table) : Prop := mkWf {
  wf_offset : tableHeaderSize <= t_offset t < 4294967296;
  wf_filesz : t_filesz t = f_size (t_file t);
  wf_fits : t_offset t <= f_size (t_file t);
  wf_map : t_data t = Some (t_datasz t, RDWR);
  wf_mapped : t_offset t <= t_datasz t;
  wf_header : be_get (mem_read (f_mem (t_file t)) 0 4) = t_offset t
}.

Lemma pow2_fit_spec n i size r : pow2_fit n i size = Some r -> size <= r.
Proof.
  revert i. induction n as [|n IH]; intros i; cbn [pow2_fit]; [done|].
  destruct (Z.leb_spec size (Z.shiftl 1 i)); [by intros [= <-]|apply IH].
Qed.

Lemma calcExpandSize_ok size :
  size <= maxMapSize -> exists r, calcExpandSize size = Ok r /\ size <= r.
Proof.
  intros Hm. unfold calcExpandSize. destruct (pow2_fit 16 15 size) as [r|] eqn:E.
  - exists r. split; [done|]. by eapply pow2_fit_spec.
  - destruct (Z.ltb_spec maxMapSize size); [lia|]. eexists. split; [reflexivity|].
    set (rem := Z.rem size maxExpandStep).
    assert (Hr : rem < maxExpandStep).
    { destruct (Z.le_gt_cases 0 size).
      - unfold rem. by apply Z.rem_bound_pos.
      - pose proof (Z.rem_nonpos size maxExpandStep ltac:(done) ltac:(lia)). unfold rem.
        change maxExpandStep with 134217728 in *. lia. }
    bdestruct_all; lia.
Qed.

(** Reads of a truncated or overwritten file below the change. *)
Lemma expandFileSize_ok t size :
  size <= maxMapSize -> t_filesz t = f_size (t_file t) ->
  exists t', expandFileSize t size = Ok t' /\
    t_filesz t' = f_size (t_file t') /\ size <= f_size (t_file t') /\ f_size (t_file t) <= f_size (t_file t') /\
    t_offset t' = t_offset t /\ t_data t' = t_data t /\ t_datasz t' = t_datasz t /\
    forall o n, o + Z.of_nat n <= f_size (t_file t) ->
      mem_read (f_mem (t_file t')) o n = mem_read (f_mem (t_file t)) o n.
Proof.
  intros Hm Hf. unfold expandFileSize. rewrite Hf. destruct (Z.ltb_spec (f_size (t_file t)) size).
  - destruct (calcExpandSize_ok size Hm) as (r & -> & Hr). eexists. split; [reflexivity|]. cbn.
    repeat split; try lia. intros o n Ho. apply mem_read_truncate. lia.
  - exists t. repeat split; (done || lia).
Qed.

Lemma expandMmapSize_ok t size :
  0 < size <= maxMapSize -> t_data t = Some (t_datasz t, RDWR) ->
  exists t', expandMmapSize t size = Ok t' /\ size <= t_datasz t' /\
    t_data t' = Some (t_datasz t', RDWR) /\ t_file t' = t_file t /\ t_filesz t' = t_filesz t /\
    t_offset t' = t_offset t.
Proof.
  intros Hm Hd. unfold expandMmapSize. destruct (Z.ltb_spec (t_datasz t) size).
  - unfold mmapWrite. destruct (calcExpandSize_ok size) as (r & -> & Hr); [lia|]. cbn [rbind].
    unfold munmap. rewrite Hd. unfold mmapFile. destruct (Z.leb_spec r 0); [lia|].
    destruct (Z.eqb_spec r 0); [lia|]. eexists. split; [reflexivity|]. cbn. auto with lia.
  - exists t. repeat split; (done || lia).
Qed.

Lemma in_map_ok t o n :
  0 <= o -> 0 <= n -> o + n < 4294967296 -> o + n <= dlen t -> o + n <= f_size (t_file t) ->
  in_map t o n = true.
Proof. intros. unfold in_map. rewrite u32_small by lia. bdestruct_all; cbn; (done || lia). Qed.

Lemma getBytes_ok t o n :
  0 <= o -> 0 <= n -> o + n < 4294967296 -> o + n <= dlen t -> o + n <= f_size (t_file t) ->
  getBytes t o n = Ok (mem_read (f_mem (t_file t)) o (Z.to_nat n)).
Proof.
  intros. unfold getBytes. rewrite in_map_ok by lia. rewrite u32_small by lia.
  do 2 f_equal. lia.
Qed.

Lemma wf_dlen t : wf t -> dlen t = t_datasz t.
Proof. intros Hw. unfold dlen. by rewrite (wf_map t Hw). Qed.

(** A write inside the allocated part keeps the invariant when it leaves the
    header alone. *)
Lemma writeAt_ok t b o :
  wf t -> tableDataOffset <= o -> o + len b <= t_offset t ->
  exists t', writeAt t b o = Ok t' /\ wf t' /\ t_offset t' = t_offset t /\
    f_mem (t_file t') = mem_write (f_mem (t_file t)) o b /\ f_size (t_file t') = f_size (t_file t).
Proof.
  intros Hw Ho Hb. pose proof (len_nonneg b). unfold tableDataOffset in *. unfold writeAt.
  pose proof (wf_offset t Hw). pose proof (wf_fits t Hw). pose proof (wf_mapped t Hw).
  rewrite (wf_map t Hw), in_map_ok by (rewrite ?wf_dlen; (done || lia)).
  eexists. split; [reflexivity|]. split; [|done].
  split; cbn [with_file t_file f_mem f_size t_offset t_filesz t_data t_datasz]; try apply Hw.
  rewrite mem_read_write_disjoint by lia. apply Hw.
Qed.

Lemma setOffset_ok t v :
  t_data t = Some (t_datasz t, RDWR) -> 4 <= t_datasz t -> 4 <= f_size (t_file t) ->
  exists t', setOffset t v = Ok t' /\ be_get (mem_read (f_mem (t_file t')) 0 4) = u32 v /\
    f_size (t_file t') = f_size (t_file t) /\ t_filesz t' = t_filesz t /\ t_offset t' = t_offset t /\
    t_data t' = t_data t /\ t_datasz t' = t_datasz t /\
    forall o n, 4 <= o -> mem_read (f_mem (t_file t')) o n = mem_read (f_mem (t_file t)) o n.
Proof.
  intros Hd Hs Hf. unfold setOffset, writeAtUInt32, writeAt. rewrite Hd.
  assert (Hl : len (be_put 4 v) = 4) by (unfold len; by rewrite length_be_put).
  rewrite in_map_ok; [|done|lia|rewrite Hl; done|unfold dlen; rewrite Hd, Hl; done|rewrite Hl; done].
  eexists. split; [reflexivity|]. cbn [t_file with_file f_mem f_size t_filesz t_offset t_data t_datasz].
  split; [|repeat split; try done].
  - unfold tableHeaderOffset. rewrite <-(length_be_put 4 v) at 2. rewrite mem_read_write_same.
    apply be_get_put_u32.
  - intros o n Ho. apply mem_read_write_disjoint. right. unfold tableHeaderOffset. lia.
Qed.

(** An allocation: the block starts at the old end, the invariant holds with the
    new end, and what was allocated before is untouched. *)
Lemma alloc_ok t size :
  wf t -> 0 <= size -> t_offset t + size < 4294967296 ->
  exists t', alloc t size = Ok (t', t_offset t) /\ wf t' /\ t_offset t' = t_offset t + size /\
    forall o n, tableDataOffset <= o -> o + Z.of_nat n <= t_offset t ->
      mem_read (f_mem (t_file t')) o n = mem_read (f_mem (t_file t)) o n.
Proof.
  intros Hw Hs Hov. pose proof (wf_offset t Hw) as Ho. unfold tableHeaderSize, tableDataOffset in *.
  pose proof (wf_fits t Hw). pose proof (wf_mapped t Hw). unfold alloc. rewrite u32_small by lia.
  destruct (expandFileSize_ok (with_offset t (t_offset t + size)) (t_offset t + size))
    as (t1 & -> & F1 & F2 & F3 & F4 & F5 & F6 & F7); [unfold maxMapSize; lia|apply (wf_filesz t Hw)|].
  cbn [rbind]. cbn [with_offset t_file t_offset t_data t_datasz] in *.
  destruct (expandMmapSize_ok t1 (t_offset t + size)) as (t2 & -> & M1 & M2 & M3 & M4 & M5);
    [unfold maxMapSize; lia|rewrite F5, F6; apply (wf_map t Hw)|]. cbn [rbind].
  destruct (setOffset_ok t2 (t_offset t + size)) as (t3 & -> & S1 & S2 & S3 & S4 & S5 & S6 & S7);
    [done|lia|rewrite M3; lia|]. cbn [rbind].
  exists t3. split; [by rewrite u32_small, Z.add_simpl_r by lia|].
  split; [|split; [congruence|]].
  - split.
    + unfold tableHeaderSize. rewrite S4, M5, F4. lia.
    + rewrite S3, S2, M4, M3. done.
    + rewrite S4, M5, F4, S2, M3. done.
    + rewrite S5, S6. done.
    + rewrite S4, M5, F4, S6. done.
    + rewrite S1, S4, M5, F4, u32_small by lia. done.
  - intros o n Ho1 Hn. rewrite S7 by lia. rewrite M3. rewrite F7 by lia. done.
Qed.

(** A fresh table: only its header is allocated. *)
Lemma openTable_fresh : exists t, openTable emptyFile tableWriteMmap initMmapSize = Ok t /\ wf t /\
  t_offset t = tableDataOffset.
Proof.
  eexists. split; [vm_compute; reflexivity|]. split; [|done].
  split; cbn; try (done || lia).
Qed.
