(* ===== verification/ArrayTable.v ===== *)
(** The array table (array_table.go) and its iterators
    (array_table_iterator.go): the sorted, immutable file a flush writes.

    The file holds the allocator's counter, a header, the items (a 16-bit key
    length, the key, the value) and an index of item offsets. *)

From Stdlib Require Import ZArith Lia.
From stdpp Require Import base numbers option sorting list.
From S2P Require Import Prelude Base Iter Table.

Definition atVersionDefault : Z := 1.
Definition atHeaderSize : Z := 18.
Definition atHeaderOffset : Z := tableDataOffset.
Definition atDataOffset : Z := atHeaderOffset + atHeaderSize.
Definition itemOffsetSize : Z := 4.
Definition itemHeaderLen : Z := 2.

Record atHeader : Type := mkHeader {
  h_version : Z; h_num : Z; h_dataOffset : Z; h_intIndexOffset : Z; h_mapIndexOffset : Z
}.

(** [intIndex] is a slice of the mapping: its position and length. *)
Record arrayTable : Type := mkAT {
  at_tbl : table;
  at_header : atHeader;
  at_itemsOffset : list Z;
  at_intIndex : Z * Z;
  at_size : Z;
  at_num : Z
}.

Definition with_tbl (a : arrayTable) (t : table) : arrayTable :=
  mkAT t (at_header a) (at_itemsOffset a) (at_intIndex a) (at_size a) (at_num a).

Definition newArrayTable (f : file) : outcome arrayTable :=
  let! tbl := openTable f tableWriteMmap initMmapSize in
  let! (tbl, headerOffset) := alloc tbl atHeaderSize in
  if negb (headerOffset =? atHeaderOffset) then Err ErrHeaderAlloc
  else Ok (mkAT tbl (mkHeader atVersionDefault 0 atDataOffset 0 0) [] (0, 0) 0 0).

(** The 18 bytes of the header. *)
Definition header_bytes (h : atHeader) : bytes :=
  be_put 2 (h_version h) ++ be_put 4 (h_num h) ++ be_put 4 (h_dataOffset h) ++
  be_put 4 (h_intIndexOffset h) ++ be_put 4 (h_mapIndexOffset h).

Definition writeHeader (a : arrayTable) : outcome arrayTable :=
  let! t := writeAt (at_tbl a) (header_bytes (at_header a)) atHeaderOffset in
  Ok (with_tbl a t).

Definition readHeader (t : table) : outcome atHeader :=
  let! buf := getBytes t atHeaderOffset atHeaderSize in
  Ok (mkHeader (be_get (take 2 buf)) (be_get (take 4 (drop 2 buf))) (be_get (take 4 (drop 6 buf)))
        (be_get (take 4 (drop 10 buf))) (be_get (take 4 (drop 14 buf)))).

Definition getIntIndexSize (num : Z) : Z := u32 (num * itemOffsetSize).

Definition dataIntBuffer (t : table) (h : atHeader) (num : Z) : outcome (Z * Z) :=
  let! _ := getBytes t (h_intIndexOffset h) (getIntIndexSize num) in
  Ok (h_intIndexOffset h, getIntIndexSize num).

Definition openArrayTable (f : file) : outcome arrayTable :=
  let! tbl := openTable f tableReadMmap 0 in
  let! h := readHeader tbl in
  let! idx := dataIntBuffer tbl h (h_num h) in
  Ok (mkAT tbl h [] idx (t_Size tbl) (h_num h)).

(** [set]: the item is appended and its offset remembered; the stores go through
    a slice of [sz] bytes, so they fault when the sum wrapped. *)
Definition set (a : arrayTable) (key value : bytes) : outcome (arrayTable * Z) :=
  let keySize := u32 (len key) in
  let valueSize := u32 (len value) in
  let sz := u32 (keySize + valueSize + itemHeaderLen) in
  let! (t, offset) := alloc (at_tbl a) sz in
  let item := be_put 2 (u16 keySize) ++ key ++ value in
  if negb (sz =? len item) then Panic else
  let! t := writeAt t item offset in
  Ok (mkAT t (at_header a) (at_itemsOffset a ++ [offset]) (at_intIndex a) (at_size a) (at_num a + 1), sz).

Definition writeFinish (a : arrayTable) : outcome arrayTable :=
  let intSize := getIntIndexSize (at_num a) in
  let! (t, intIndexOffset) := alloc (at_tbl a) intSize in
  let index := mjoin (be_put 4 <$> at_itemsOffset a) in
  if intSize <? len index then Panic else
  let! t := writeAt t index intIndexOffset in
  let h := mkHeader (h_version (at_header a)) (u32 (at_num a)) (h_dataOffset (at_header a)) intIndexOffset 0 in
  let size := t_Size t in
  let! a' := writeHeader (mkAT t h [] (at_intIndex a) size (at_num a)) in
  let! t := mmapReadTruncate (at_tbl a') size in
  let! idx := dataIntBuffer t h (at_num a) in
  Ok (mkAT t h [] idx size (at_num a)).

Definition getItemOffset (a : arrayTable) (i : Z) : outcome Z :=
  if (i <? 0) || (at_num a <=? i) then Ok 0
  else
    let pos := i * itemOffsetSize in
    if snd (at_intIndex a) <? pos + itemOffsetSize then Panic
    else
      let! b := getBytes (at_tbl a) (fst (at_intIndex a) + pos) itemOffsetSize in
      Ok (be_get b).

(** A nil key is [None]; a slice of no bytes is not nil. *)
Definition getKey (a : arrayTable) (i : Z) : outcome (option bytes) :=
  let! itemOffset := getItemOffset a i in
  if itemOffset =? 0 then Ok None
  else
    let! hd := getBytes (at_tbl a) itemOffset itemHeaderLen in
    let keySize := be_get hd in
    let! key := getBytes (at_tbl a) (u32 (itemOffset + itemHeaderLen)) keySize in
    Ok (Some key).

Definition getKV (a : arrayTable) (i : Z) : outcome (option (bytes * bytes)) :=
  let! itemOffset := getItemOffset a i in
  if itemOffset =? 0 then Ok None
  else
    let! itemSize :=
      (if i =? at_num a - 1 then Ok (u32 (h_intIndexOffset (at_header a) - itemOffset))
       else let! next := getItemOffset a (i + 1) in Ok (u32 (next - itemOffset))) in
    let! hd := getBytes (at_tbl a) itemOffset itemHeaderLen in
    let keySize := be_get hd in
    let keyOffset := u32 (itemOffset + itemHeaderLen) in
    let! key := getBytes (at_tbl a) keyOffset keySize in
    let valueSize := u32 (u32 (itemSize - keySize) - itemHeaderLen) in
    let! value := getBytes (at_tbl a) (u32 (keyOffset + keySize)) valueSize in
    Ok (Some (key, value)).

Definition findKeyIndexPos (a : arrayTable) (key : bytes) : outcome Z :=
  search (at_num a) (fun i =>
    let! k := getKey a i in
    Ok (negb (bytes_compare (match k with Some b => b | None => [] end) key =? -1))).

(** [get] returns the item found without comparing its key. *)
Definition get (a : arrayTable) (key : bytes) : outcome (bytes * bool * Z) :=
  let! pos := findKeyIndexPos a key in
  let! kv := getKV a pos in
  match kv with
  | None => Ok ([], false, InternalKey.KindInvalid)
  | Some (_, v) => Ok (v, true, InternalKey.KindSet)
  end.

Definition itemCount (a : arrayTable) : Z := at_num a.
Definition totalBytes (a : arrayTable) : Z := t_Size (at_tbl a).
Definition empty (a : arrayTable) : bool := at_num a =? 0.

(** *** Iterators *)

Record arrayTableIterator : Type := mkATI {
  ai_at : arrayTable; ai_pos : Z; ai_lower : option bytes; ai_upper : option bytes
}.

Definition ai_move (i : arrayTableIterator) (p : Z) : arrayTableIterator :=
  mkATI (ai_at i) p (ai_lower i) (ai_upper i).

Definition newIter (a : arrayTable) (lower upper : option bytes) : arrayTableIterator :=
  mkATI a 0 lower upper.

Definition findItem (i : arrayTableIterator) : outcome (option entry) :=
  let! kv := getKV (ai_at i) (ai_pos i) in
  Ok (match kv with
      | None => None
      | Some (key, value) => Some (InternalKey.MakeInternalSetKey key, value)
      end).

(** The test of the upper bound reads [k.UserKey] even when [k] is nil. *)
Definition check_upper (i : arrayTableIterator) (kv : option entry) : outcome (arrayTableIterator * option entry) :=
  match ai_upper i with
  | None => Ok (i, kv)
  | Some u =>
      match kv with
      | None => Panic
      | Some (k, v) => if bytes_compare u (InternalKey.UserKey k) <=? 0 then Ok (i, None) else Ok (i, kv)
      end
  end.

Definition check_lower (i : arrayTableIterator) (kv : option entry) : outcome (arrayTableIterator * option entry) :=
  match ai_lower i with
  | None => Ok (i, kv)
  | Some l =>
      match kv with
      | None => Panic
      | Some (k, v) => if 0 <? bytes_compare l (InternalKey.UserKey k) then Ok (i, None) else Ok (i, kv)
      end
  end.

Definition aFirst (i : arrayTableIterator) : outcome (arrayTableIterator * option entry) :=
  let i := ai_move i 0 in let! kv := findItem i in check_upper i kv.

Definition aNext (i : arrayTableIterator) : outcome (arrayTableIterator * option entry) :=
  let i := ai_move i (ai_pos i + 1) in let! kv := findItem i in check_upper i kv.

Definition aPrev (i : arrayTableIterator) : outcome (arrayTableIterator * option entry) :=
  let i := ai_move i (ai_pos i - 1) in let! kv := findItem i in check_lower i kv.

Definition aLast (i : arrayTableIterator) : outcome (arrayTableIterator * option entry) :=
  let i := ai_move i (at_num (ai_at i) - 1) in let! kv := findItem i in check_lower i kv.

Definition aSeekGE (key : bytes) (i : arrayTableIterator) : outcome (arrayTableIterator * option entry) :=
  let! p := findKeyIndexPos (ai_at i) key in
  let i := ai_move i p in let! kv := findItem i in check_upper i kv.

Definition aSeekLT (key : bytes) (i : arrayTableIterator) : outcome (arrayTableIterator * option entry) :=
  let! p := findKeyIndexPos (ai_at i) key in
  let i := ai_move i p in
  let! kv := findItem i in
  match kv with
  | Some _ => aPrev i
  | None =>
      let! (i, last) := aLast i in
      match last with
      | Some (k, v) =>
          if bytes_compare (InternalKey.UserKey k) key <? 0 then check_lower i last else Ok (i, None)
      | None => Ok (i, None)
      end
  end.

Definition atOps : iterOps arrayTableIterator := {|
  itSeekGE := aSeekGE;
  itSeekPrefixGE _ key _ := aSeekGE key;
  itSeekLT := aSeekLT;
  itFirst := aFirst;
  itLast := aLast;
  itNext := aNext;
  itPrev := aPrev;
  itError _ := None;
  itSetBounds lower upper i := mkATI (ai_at i) (ai_pos i) lower upper
|}.

(** The flush iterator tests for nil first and counts the bytes it yields. *)
Definition flush_yield (i : arrayTableIterator) (n : Z) (kv : option entry)
  : (arrayTableIterator * Z) * option entry :=
  match kv with
  | None => ((i, n), None)
  | Some (k, v) =>
      if match ai_upper i with Some u => bytes_compare u (InternalKey.UserKey k) <=? 0 | None => false end
      then ((i, n), None)
      else ((i, u64 (n + (InternalKey.Size k + len v))), kv)
  end.

Definition afFirst (s : arrayTableIterator * Z) : outcome ((arrayTableIterator * Z) * option entry) :=
  let i := ai_move s.1 0 in let! kv := findItem i in Ok (flush_yield i s.2 kv).

Definition afNext (s : arrayTableIterator * Z) : outcome ((arrayTableIterator * Z) * option entry) :=
  let i := ai_move s.1 (ai_pos s.1 + 1) in let! kv := findItem i in Ok (flush_yield i s.2 kv).

(** ** The layout of a finished file *)

Definition item_bytes (kv : bytes * bytes) : bytes := be_put 2 (len kv.1) ++ kv.1 ++ kv.2.

Definition items_bytes (kvs : list (bytes * bytes)) : bytes := mjoin (item_bytes <$> kvs).

(** The offset of each item when the first stands at [off]. *)
Fixpoint offsets_of (off : Z) (kvs : list (bytes * bytes)) : list Z :=
  match kvs with
  | [] => []
  | kv :: kvs' => off :: offsets_of (off + len (item_bytes kv)) kvs'
  end.

Definition index_pos (kvs : list (bytes * bytes)) : Z := atDataOffset + len (items_bytes kvs).

Definition file_size (kvs : list (bytes * bytes)) : Z := index_pos kvs + itemOffsetSize * len kvs.

(** What a table can hold: keys of 16-bit length, 32-bit offsets. *)
Definition storable (kvs : list (bytes * bytes)) : Prop :=
  Forall (fun kv => len (fst kv) < 65536) kvs /\ file_size kvs < 4294967296.

Definition final_header (kvs : list (bytes * bytes)) : atHeader :=
  mkHeader atVersionDefault (len kvs) atDataOffset (index_pos kvs) 0.

Record layout (f : file) (kvs : list (bytes * bytes)) : Prop := mkLayout {
  ly_size : f_size f = file_size kvs;
  ly_counter : be_get (mem_read (f_mem f) 0 4) = file_size kvs;
  ly_header : mem_read (f_mem f) 4 18 = header_bytes (final_header kvs);
  ly_items : mem_read (f_mem f) 22 (length (items_bytes kvs)) = items_bytes kvs;
  ly_index : mem_read (f_mem f) (index_pos kvs) (4 * length kvs) = mjoin (be_put 4 <$> offsets_of 22 kvs)
}.

(** A table open for reading on such a file. *)
Record finished (a : arrayTable) (kvs : list (bytes * bytes)) : Prop := mkFinished {
  fin_layout : layout (t_file (at_tbl a)) kvs;
  fin_map : dlen (at_tbl a) = file_size kvs;
  fin_num : at_num a = len kvs;
  fin_index : at_intIndex a = (index_pos kvs, itemOffsetSize * len kvs);
  fin_header : at_header a = final_header kvs
}.

(** ** Building *)

Lemma len_item k v : len (item_bytes (k, v)) = 2 + len k + len v.
Proof. unfold item_bytes. rewrite !len_app. unfold len at 1. rewrite length_be_put. cbn [fst snd]. lia. Qed.

Lemma items_bytes_app l l' : items_bytes (l ++ l') = items_bytes l ++ items_bytes l'.
Proof. unfold items_bytes. by rewrite fmap_app, join_app. Qed.

Lemma items_bytes_one kv : items_bytes [kv] = item_bytes kv.
Proof. unfold items_bytes. cbn. by rewrite app_nil_r. Qed.

Lemma offsets_of_app off l l' :
  offsets_of off (l ++ l') = offsets_of off l ++ offsets_of (off + len (items_bytes l)) l'.
Proof.
  revert off. induction l as [|kv l IH]; intros off; cbn [app offsets_of].
  - unfold items_bytes. cbn. by rewrite Z.add_0_r.
  - rewrite IH. change (kv :: l) with ([kv] ++ l). rewrite items_bytes_app, items_bytes_one, len_app.
    by rewrite Z.add_assoc.
Qed.

Lemma length_offsets_of off l : length (offsets_of off l) = length l.
Proof. revert off. induction l; intros off; cbn; [done|by rewrite IHl]. Qed.

Lemma length_index_bytes (l : list Z) : length (mjoin (be_put 4 <$> l)) = (4 * length l)%nat.
Proof.
  induction l as [|x l IH]; [done|]. change (length (be_put 4 x ++ mjoin (be_put 4 <$> l)) = (4 * length (x :: l))%nat).
  rewrite length_app, IH, length_be_put.
  cbn [length]. lia.
Qed.

Lemma len_index_bytes (l : list Z) : len (mjoin (be_put 4 <$> l)) = 4 * len l.
Proof. unfold len. rewrite length_index_bytes. lia. Qed.

Lemma index_pos_snoc kvs kv : index_pos (kvs ++ [kv]) = index_pos kvs + len (item_bytes kv).
Proof. unfold index_pos. rewrite items_bytes_app, items_bytes_one, len_app. lia. Qed.

(** The state while items are being added. *)
Record building (a : arrayTable) (kvs : list (bytes * bytes)) : Prop := mkBuilding {
  bd_wf : wf (at_tbl a);
  bd_end : t_offset (at_tbl a) = index_pos kvs;
  bd_num : at_num a = len kvs;
  bd_offsets : at_itemsOffset a = offsets_of 22 kvs;
  bd_items : mem_read (f_mem (t_file (at_tbl a))) 22 (length (items_bytes kvs)) = items_bytes kvs;
  bd_version : h_version (at_header a) = atVersionDefault;
  bd_data : h_dataOffset (at_header a) = atDataOffset
}.

Lemma newArrayTable_fresh : exists a, newArrayTable emptyFile = Ok a /\ building a [].
Proof.
  unfold newArrayTable. destruct openTable_fresh as (t & -> & Hw & Ho). cbn [rbind].
  destruct (alloc_ok t atHeaderSize Hw) as (t' & -> & Hw' & Ho' & _); [done|rewrite Ho; done|].
  cbn [rbind]. rewrite Ho. cbn [negb Z.eqb tableDataOffset atHeaderOffset Pos.eqb].
  eexists. split; [reflexivity|]. split; try done; cbn [at_tbl]. by rewrite Ho', Ho.
Qed.

Lemma set_ok a kvs k v :
  building a kvs -> len k < 65536 -> index_pos (kvs ++ [(k, v)]) < 4294967296 ->
  exists a', set a k v = Ok (a', len (item_bytes (k, v))) /\ building a' (kvs ++ [(k, v)]).
Proof.
  intros [Hw He Hn Hos Hit Hver Hdat] Hk Hsz. pose proof (len_nonneg k). pose proof (len_nonneg v).
  rewrite index_pos_snoc, len_item in Hsz. unfold set.
  pose proof (wf_offset _ Hw) as Ho. unfold tableHeaderSize in Ho. pose proof (len_nonneg (items_bytes kvs)).
  rewrite (u32_small (len k)), (u32_small (len v)) by lia. unfold itemHeaderLen.
  rewrite u16_small, (u32_small (len k + len v + 2)) by lia.
  destruct (alloc_ok (at_tbl a) (len k + len v + 2) Hw) as (t & -> & Hw' & Ho' & Hr); [lia|lia|]. cbn [rbind].
  change (be_put 2 (len k) ++ k ++ v) with (item_bytes (k, v)). rewrite len_item.
  destruct (Z.eqb_spec (len k + len v + 2) (2 + len k + len v)); [cbn [negb]|lia].
  destruct (writeAt_ok t (item_bytes (k, v)) (t_offset (at_tbl a)) Hw') as (t' & -> & Hw'' & Ho'' & Hm & _);
    [unfold tableDataOffset; lia|rewrite len_item; lia|]. cbn [rbind].
  eexists. split; [do 2 f_equal; lia|]. unfold index_pos, atDataOffset, atHeaderOffset, tableDataOffset, atHeaderSize in He.
  assert (Hend : 22 + len (items_bytes kvs) = t_offset (at_tbl a)) by lia.
  split; cbn [at_tbl at_num at_itemsOffset at_header]; try done.
  - rewrite index_pos_snoc, len_item. unfold index_pos, atDataOffset, atHeaderOffset, tableDataOffset, atHeaderSize. lia.
  - rewrite len_app, Hn. done.
  - rewrite offsets_of_app, Hos, Hend. done.
  - rewrite items_bytes_app, items_bytes_one, length_app, mem_read_app, Hm. f_equal.
    + rewrite mem_read_write_disjoint by (left; unfold len in Hend; lia).
      rewrite Hr; [done|done|]. unfold len in Hend. lia.
    + replace (22 + Z.of_nat (length (items_bytes kvs))) with (t_offset (at_tbl a)) by (unfold len in Hend; lia).
      apply mem_read_write_same.
Qed.

Lemma len_header h : len (header_bytes h) = 18.
Proof. unfold header_bytes. rewrite !len_app. unfold len. by rewrite !length_be_put. Qed.

(** Reading the header back. *)
Lemma header_roundtrip kvs :
  file_size kvs < 4294967296 ->
  let buf := header_bytes (final_header kvs) in
  mkHeader (be_get (take 2 buf)) (be_get (take 4 (drop 2 buf))) (be_get (take 4 (drop 6 buf)))
    (be_get (take 4 (drop 10 buf))) (be_get (take 4 (drop 14 buf))) = final_header kvs.
Proof.
  intros Hs. unfold file_size, itemOffsetSize in Hs. pose proof (len_nonneg kvs).
  pose proof (len_nonneg (items_bytes kvs)). 
  assert (0 <= index_pos kvs) by (unfold index_pos; change atDataOffset with 22; lia).
  unfold header_bytes, final_header. cbn [h_version h_num h_dataOffset h_intIndexOffset h_mapIndexOffset].
  assert (L2 : forall v, length (be_put 2 v) = 2%nat) by (intros; apply length_be_put).
  assert (L4 : forall v, length (be_put 4 v) = 4%nat) by (intros; apply length_be_put).
  set (p1 := be_put 2 _). set (p2 := be_put 4 (len kvs)). set (p3 := be_put 4 atDataOffset).
  set (p4 := be_put 4 (index_pos kvs)). set (p5 := be_put 4 0).
  assert (D6 : drop 6 (p1 ++ p2 ++ p3 ++ p4 ++ p5) = p3 ++ p4 ++ p5)
    by (rewrite app_assoc; apply drop_app_length'; rewrite length_app; unfold p1, p2; by rewrite L2, L4).
  assert (D10 : drop 10 (p1 ++ p2 ++ p3 ++ p4 ++ p5) = p4 ++ p5).
  { rewrite !app_assoc, <-(app_assoc _ p4). apply drop_app_length'. rewrite !length_app. unfold p1, p2, p3. by rewrite L2, !L4. }
  assert (D14 : drop 14 (p1 ++ p2 ++ p3 ++ p4 ++ p5) = p5).
  { rewrite !app_assoc. apply drop_app_length'. rewrite !length_app. unfold p1, p2, p3, p4. by rewrite L2, !L4. }
  cbv zeta. rewrite D6, D10, D14.
  rewrite (drop_app_length' p1) by (unfold p1; by rewrite L2).
  rewrite (take_app_length' p1) by (unfold p1; by rewrite L2).
  rewrite (take_app_length' p2), (take_app_length' p3), (take_app_length' p4) by (unfold p2, p3, p4; by rewrite L4).
  rewrite take_ge by (unfold p5; by rewrite L4).
  unfold p1, p2, p3, p4, p5. rewrite be_get_put_u16, !be_get_put_u32.
  f_equal; rewrite ?u16_small, ?u32_small; try done; lia.
Qed.

(** Finishing truncates the file to the layout and maps it for reading. *)
Lemma writeFinish_ok a kvs :
  building a kvs -> storable kvs -> exists a', writeFinish a = Ok a' /\ finished a' kvs.
Proof.
  intros [Hw He Hn Hos Hit Hver Hdat] [_ Hsz]. unfold writeFinish, getIntIndexSize.
  pose proof (len_nonneg kvs). pose proof (len_nonneg (items_bytes kvs)).
  assert (Hip : index_pos kvs = 22 + len (items_bytes kvs)) by done.
  unfold file_size, itemOffsetSize in Hsz. unfold itemOffsetSize.
  rewrite Hn, u32_small by lia.
  destruct (alloc_ok (at_tbl a) (len kvs * 4) Hw) as (t & -> & Hw1 & Ho1 & Hr1); [lia|lia|]. cbn [rbind].
  rewrite Hos, len_index_bytes. unfold len at 2. rewrite length_offsets_of. fold (len kvs).
  destruct (Z.ltb_spec (len kvs * 4) (4 * len kvs)); [lia|].
  set (index := mjoin (be_put 4 <$> offsets_of 22 kvs)).
  assert (Hli : len index = 4 * len kvs).
  { unfold index. rewrite len_index_bytes. unfold len. by rewrite length_offsets_of. }
  destruct (writeAt_ok t index (t_offset (at_tbl a)) Hw1) as (t2 & -> & Hw2 & Ho2 & Hm2 & Hs2);
    [unfold tableDataOffset; lia|lia|]. cbn [rbind].
  unfold writeHeader. cbn [at_tbl at_header].
  rewrite Hver, Hdat, He, (u32_small (len kvs)) by lia. change (mkHeader _ _ _ _ _) with (final_header kvs).
  destruct (writeAt_ok t2 (header_bytes (final_header kvs)) atHeaderOffset Hw2)
    as (t3 & -> & Hw3 & Ho3 & Hm3 & Hs3); [done|rewrite len_header; unfold atHeaderOffset, tableDataOffset; lia|].
  cbn [rbind at_tbl with_tbl]. unfold t_Size. rewrite <-Ho3.
  assert (Hfs : t_offset t3 = file_size kvs) by (unfold file_size, itemOffsetSize; lia).
  unfold mmapReadTruncate, mmapRead. set (t4 := if _ =? _ then t3 else fileTruncate t3 _).
  assert (H4 : t_data t4 = t_data t3 /\ f_size (t_file t4) = file_size kvs /\
     (forall o n, o + Z.of_nat n <= file_size kvs ->
        mem_read (f_mem (t_file t4)) o n = mem_read (f_mem (t_file t3)) o n)).
  { unfold t4. destruct (Z.eqb_spec (f_size (t_file t3)) (t_offset t3)) as [E|E].
    - split; [done|]. split; [congruence|done].
    - split; [done|]. rewrite Hfs. split; [done|]. intros. cbn. apply mem_read_truncate. lia. }
  clearbody t4. destruct H4 as (Hd4 & Hf4 & Hr4).
  unfold munmap. rewrite Hd4, (wf_map t3 Hw3). unfold mmapFile.
  assert (0 < file_size kvs) by (unfold file_size, itemOffsetSize; lia). rewrite Hfs.
  destruct (Z.leb_spec (file_size kvs) 0); [lia|]. destruct (Z.eqb_spec (file_size kvs) 0); [lia|]. cbn [rbind].
  set (t5 := with_map _ _ _).
  assert (Hd5 : dlen t5 = file_size kvs) by done.
  assert (Hf5 : t_file t5 = t_file t4) by done.
  unfold dataIntBuffer, getIntIndexSize. rewrite u32_small by (unfold itemOffsetSize; lia).
  cbn [final_header h_intIndexOffset]. unfold itemOffsetSize.
  rewrite getBytes_ok by (rewrite ?Hd5, ?Hf5, ?Hf4; unfold file_size, itemOffsetSize; lia). cbn [rbind].
  eexists. split; [reflexivity|].
  assert (Hlh := len_header (final_header kvs)).
  split; cbn [at_tbl at_num at_intIndex at_header]; rewrite ?Hf5; try done; [|f_equal; unfold itemOffsetSize; lia].
  assert (Hidx : length index = (4 * length kvs)%nat) by (unfold len in Hli; lia).
  split; [done|..].
  - rewrite Hr4, <-Hfs by lia. apply (wf_header t3 Hw3).
  - rewrite Hr4, Hm3 by lia. unfold len in Hlh. replace 18%nat with (length (header_bytes (final_header kvs))) by lia.
    apply mem_read_write_same.
  - rewrite Hr4 by (unfold file_size, itemOffsetSize, len in *; lia).
    rewrite Hm3, mem_read_write_disjoint by (right; rewrite Hlh; done).
    rewrite Hm2, mem_read_write_disjoint by (left; unfold len in *; lia).
    rewrite Hr1; [done|done|unfold len in *; lia].
  - rewrite Hr4 by (unfold file_size, itemOffsetSize, len in *; lia).
    rewrite Hm3, mem_read_write_disjoint by (right; rewrite Hlh; unfold atHeaderOffset, tableDataOffset; lia).
    rewrite Hm2, <-Hidx, <-He. apply mem_read_write_same.
Qed.

(** ** Reading *)

Lemma layout_sizes kvs : storable kvs ->
  index_pos kvs = 22 + len (items_bytes kvs) /\ file_size kvs = index_pos kvs + 4 * len kvs /\
  file_size kvs < 4294967296 /\ 0 <= len kvs /\ 0 <= len (items_bytes kvs).
Proof. intros [_ ?]. repeat split; auto with bitalos. Qed.

Lemma openArrayTable_ok f kvs :
  layout f kvs -> storable kvs -> exists a, openArrayTable f = Ok a /\ finished a kvs.
Proof.
  intros Hly Hst. destruct (layout_sizes kvs Hst) as (Hip & Hfs & Hs & Hn & Hl).
  unfold openArrayTable, openTable. cbn [Z.eqb tableReadMmap tableWriteMmap Pos.eqb].
  unfold mmapRead, munmap, mmapFile. cbn [t_data t_filesz t_file]. rewrite (ly_size f kvs Hly).
  destruct (Z.leb_spec (file_size kvs) 0); [lia|]. destruct (Z.eqb_spec (file_size kvs) 0); [lia|].
  cbn [rbind]. unfold getOffset, readAtUInt32, tableHeaderOffset.
  set (t0 := with_map _ _ _).
  assert (Hd : forall o, dlen (with_offset t0 o) = file_size kvs) by done.
  assert (Hf : forall o, t_file (with_offset t0 o) = f) by done.
  assert (Hd0 : dlen t0 = file_size kvs) by done. assert (Hf0 : t_file t0 = f) by done.
  rewrite getBytes_ok by (rewrite ?Hd0, ?Hf0, ?(ly_size f kvs Hly); lia). cbn [rbind]. rewrite Hf0.
  change (Z.to_nat 4) with 4%nat. rewrite (ly_counter f kvs Hly).
  unfold readHeader. change atHeaderOffset with 4. change atHeaderSize with 18.
  rewrite getBytes_ok by (rewrite ?Hd, ?Hf, ?(ly_size f kvs Hly); lia). cbn [rbind]. rewrite Hf.
  change (Z.to_nat 18) with 18%nat. rewrite (ly_header f kvs Hly), header_roundtrip by done.
  unfold dataIntBuffer, getIntIndexSize. cbn [final_header h_num h_intIndexOffset].
  unfold itemOffsetSize. rewrite u32_small by lia.
  rewrite getBytes_ok by (rewrite ?Hd, ?Hf, ?(ly_size f kvs Hly); lia). cbn [rbind].
  eexists. split; [reflexivity|]. split; cbn [at_tbl at_num at_intIndex at_header]; try done.
  f_equal. unfold itemOffsetSize. lia.
Qed.

Section Finished.
Context (a : arrayTable) (kvs : list (bytes * bytes)).
Context (Hfin : finished a kvs) (Hst : storable kvs).

Lemma finished_getBytes o n :
  0 <= o -> 0 <= n -> o + n <= file_size kvs ->
  getBytes (at_tbl a) o n = Ok (mem_read (f_mem (t_file (at_tbl a))) o (Z.to_nat n)).
Proof.
  intros. destruct Hfin as [Hly Hm _ _ _]. destruct (layout_sizes kvs Hst) as (_ & _ & Hs & _).
  apply getBytes_ok; rewrite ?Hm, ?(ly_size _ _ Hly); lia.
Qed.

(** The offset the index holds for an item. *)
Lemma getItemOffset_ok pre kv post :
  kvs = pre ++ kv :: post -> getItemOffset a (len pre) = Ok (22 + len (items_bytes pre)).
Proof.
  intros E. destruct Hfin as [Hly Hm Hn Hi _].
  destruct (layout_sizes kvs Hst) as (Hip & Hfs & Hs & _).
  assert (Hlen : len kvs = len pre + 1 + len post) by (rewrite E, len_app, len_cons; lia).
  pose proof (len_nonneg pre). pose proof (len_nonneg post). pose proof (len_nonneg (items_bytes kvs)).
  pose proof (len_nonneg (items_bytes pre)).
  unfold getItemOffset. rewrite Hn, Hi. cbn [fst snd]. unfold itemOffsetSize.
  destruct (Z.ltb_spec (len pre) 0); [lia|]. destruct (Z.leb_spec (len kvs) (len pre)); [lia|]. cbn [orb].
  destruct (Z.ltb_spec (4 * len kvs) (len pre * 4 + 4)); [lia|].
  rewrite finished_getBytes by lia. cbn [rbind]. change (Z.to_nat 4) with 4%nat.
  pose proof (ly_index _ _ Hly) as Hx. rewrite E in Hx at 3. rewrite offsets_of_app, fmap_app, join_app in Hx.
  change (mjoin (be_put 4 <$> offsets_of (22 + len (items_bytes pre)) (kv :: post)))
    with (be_put 4 (22 + len (items_bytes pre)) ++
          mjoin (be_put 4 <$> offsets_of (22 + len (items_bytes pre) + len (item_bytes kv)) post)) in Hx.
  apply mem_read_mid in Hx. rewrite len_index_bytes in Hx. rewrite length_be_put in Hx.
  unfold len at 1 in Hx. rewrite length_offsets_of in Hx. fold (len pre) in Hx.
  replace (index_pos kvs + len pre * 4) with (index_pos kvs + 4 * len pre) by lia. rewrite Hx.
  rewrite be_get_put_u32, u32_small; [done|].
  assert (len (items_bytes kvs) = len (items_bytes pre) + len (items_bytes (kv :: post)))
    by (by rewrite E, items_bytes_app, len_app).
  pose proof (len_nonneg (items_bytes (kv :: post))). lia.
Qed.

(** The bytes of an item. *)
Lemma item_reads pre k v post :
  kvs = pre ++ (k, v) :: post ->
  let off := 22 + len (items_bytes pre) in
  getBytes (at_tbl a) off itemHeaderLen = Ok (be_put 2 (len k)) /\
  getBytes (at_tbl a) (off + 2) (len k) = Ok k /\
  getBytes (at_tbl a) (off + 2 + len k) (len v) = Ok v /\
  off + 2 + len k + len v <= index_pos kvs /\ len k < 65536.
Proof.
  intros E off. destruct Hfin as [Hly Hm Hn Hi _].
  destruct (layout_sizes kvs Hst) as (Hip & Hfs & Hs & _).
  pose proof (len_nonneg k). pose proof (len_nonneg v). pose proof (len_nonneg (items_bytes pre)).
  pose proof (len_nonneg (items_bytes post)). pose proof (len_nonneg kvs).
  assert (Hb : items_bytes kvs = items_bytes pre ++ be_put 2 (len k) ++ k ++ v ++ items_bytes post).
  { rewrite E, items_bytes_app. change ((k, v) :: post) with ([(k, v)] ++ post).
    rewrite items_bytes_app, items_bytes_one. unfold item_bytes. cbn [fst snd]. by rewrite <-!app_assoc. }
  assert (Hl : len (items_bytes kvs) = len (items_bytes pre) + 2 + len k + len v + len (items_bytes post)).
  { rewrite Hb, !len_app. unfold len at 2. rewrite length_be_put. lia. }
  pose proof (ly_items _ _ Hly) as Hx. rewrite Hb in Hx at 2.
  assert (Hk16 : len k < 65536).
  { destruct Hst as [HF _]. rewrite E in HF. apply Forall_app in HF as [_ HF]. by inversion HF. }
  unfold itemHeaderLen. rewrite !finished_getBytes by (unfold off; lia).
  split; [|split; [|split; [|split; [unfold off; lia|done]]]].
  - f_equal. pose proof (mem_read_mid _ _ _ _ _ _ Hx) as H'. rewrite length_be_put in H'. exact H'.
  - f_equal. rewrite app_assoc in Hx. pose proof (mem_read_mid _ _ _ _ _ _ Hx) as H'.
    rewrite len_app in H'. unfold len at 2 in H'. rewrite length_be_put in H'.
    unfold len at 1. rewrite Nat2Z.id. unfold off. rewrite <-Z.add_assoc. exact H'.
  - f_equal. rewrite app_assoc, (app_assoc _ k) in Hx. pose proof (mem_read_mid _ _ _ _ _ _ Hx) as H'.
    rewrite !len_app in H'. unfold len at 2 in H'. rewrite length_be_put in H'.
    unfold len at 2. rewrite Nat2Z.id. unfold off. rewrite <-!Z.add_assoc in *. exact H'.
Qed.

Lemma getKey_ok pre k v post :
  kvs = pre ++ (k, v) :: post -> getKey a (len pre) = Ok (Some k).
Proof.
  intros E. unfold getKey. rewrite (getItemOffset_ok pre (k, v) post E). cbn [rbind].
  destruct (item_reads pre k v post E) as (H1 & H2 & H3 & Hle & Hk). cbv zeta in *.
  pose proof (len_nonneg (items_bytes pre)). pose proof (len_nonneg k). pose proof (len_nonneg v).
  destruct (layout_sizes kvs Hst) as (Hip & Hfs & Hs & Hn & _).
  destruct (Z.eqb_spec (22 + len (items_bytes pre)) 0); [lia|]. rewrite H1. cbn [rbind].
  unfold itemHeaderLen. rewrite be_get_put_u16, u16_small, u32_small by lia. by rewrite H2.
Qed.

Lemma getKV_ok pre k v post :
  kvs = pre ++ (k, v) :: post -> getKV a (len pre) = Ok (Some (k, v)).
Proof.
  intros E. unfold getKV. rewrite (getItemOffset_ok pre (k, v) post E). cbn [rbind].
  destruct (item_reads pre k v post E) as (H1 & H2 & H3 & Hle & Hk). cbv zeta in *.
  pose proof (len_nonneg (items_bytes pre)). pose proof (len_nonneg k). pose proof (len_nonneg v).
  pose proof (len_nonneg post).
  destruct (layout_sizes kvs Hst) as (Hip & Hfs & Hs & _ & _). pose proof (len_nonneg kvs).
  destruct (Z.eqb_spec (22 + len (items_bytes pre)) 0); [lia|].
  assert (Hsize : (if len pre =? at_num a - 1
     then Ok (u32 (h_intIndexOffset (at_header a) - (22 + len (items_bytes pre))))
     else let! next := getItemOffset a (len pre + 1) in Ok (u32 (next - (22 + len (items_bytes pre)))))
     = Ok (len (item_bytes (k, v)))).
  { rewrite (fin_num a kvs Hfin), (fin_header a kvs Hfin). cbn [final_header h_intIndexOffset].
    assert (Hlen : len kvs = len pre + 1 + len post) by (rewrite E, len_app, len_cons; lia).
    rewrite len_item.
    destruct (Z.eqb_spec (len pre) (len kvs - 1)).
    - assert (post = []) as -> by (destruct post; [done|rewrite len_cons in *; pose proof (len_nonneg post); lia]).
      rewrite Hip, E, items_bytes_app, items_bytes_one, len_app, len_item, u32_small by lia. f_equal. lia.
    - destruct post as [|kv' post]; [change (len (@nil (bytes * bytes))) with 0 in *; lia|].
      assert (E' : kvs = (pre ++ [(k, v)]) ++ kv' :: post) by (rewrite <-app_assoc; done).
      pose proof (getItemOffset_ok _ _ _ E') as Ho. rewrite len_app in Ho. change (len [(k, v)]) with 1 in Ho.
      rewrite Ho. cbn [rbind]. rewrite items_bytes_app, items_bytes_one, len_app, len_item, u32_small by lia.
      f_equal. lia. }
  rewrite Hsize. cbn [rbind]. rewrite H1. cbn [rbind]. unfold itemHeaderLen.
  rewrite be_get_put_u16, u16_small, (u32_small (22 + len (items_bytes pre) + 2)) by lia. rewrite H2. cbn [rbind].
  rewrite len_item.
  rewrite (u32_small (2 + len k + len v - len k)), (u32_small (2 + len k + len v - len k - 2)) by lia.
  rewrite (u32_small (22 + len (items_bytes pre) + 2 + len k)) by lia.
  replace (2 + len k + len v - len k - 2) with (len v) by lia. by rewrite H3.
Qed.

(** The table as a list. *)
Lemma getKV_lookup i : getKV a i = Ok (lookupZ kvs i).
Proof.
  destruct (lookupZ kvs i) as [[k v]|] eqn:E.
  - pose proof (lookupZ_is_Some _ _ _ E) as Hr. unfold lookupZ in E. destruct (Z.ltb_spec i 0); [lia|].
    apply list_elem_of_split_length in E as (pre & post & E & Hi).
    replace i with (len pre) by (unfold len; lia). by apply (getKV_ok pre k v post).
  - unfold getKV, getItemOffset. rewrite (fin_num a kvs Hfin).
    destruct (Z.ltb_spec i 0); [done|]. destruct (Z.leb_spec (len kvs) i); [done|].
    destruct (lookupZ_Some kvs i) as [x Hx]; [lia|congruence].
Qed.

Lemma getKey_lookup i kv : lookupZ kvs i = Some kv -> getKey a i = Ok (Some kv.1).
Proof.
  intros E. destruct kv as [k v]. pose proof (lookupZ_is_Some _ _ _ E) as Hr. unfold lookupZ in E.
  destruct (Z.ltb_spec i 0); [lia|].
  apply list_elem_of_split_length in E as (pre & post & E & Hi).
  replace i with (len pre) by (unfold len; lia). by apply (getKey_ok pre k v post).
Qed.

End Finished.

(** ** What an array table promises *)

(** The writer's calls: a fresh table, an item per pair, the finishing call. *)
Fixpoint set_all (a : arrayTable) (kvs : list (bytes * bytes)) : outcome arrayTable :=
  match kvs with
  | [] => Ok a
  | (k, v) :: kvs' => let! (a', _) := set a k v in set_all a' kvs'
  end.

Definition write_table (kvs : list (bytes * bytes)) : outcome arrayTable :=
  let! a := newArrayTable emptyFile in
  let! a := set_all a kvs in
  writeFinish a.

Lemma index_pos_le kvs kvs' : index_pos kvs <= index_pos (kvs ++ kvs').
Proof. unfold index_pos. rewrite items_bytes_app, len_app. pose proof (len_nonneg (items_bytes kvs')). lia. Qed.

Lemma set_all_ok a kvs kvs' :
  building a kvs -> storable (kvs ++ kvs') ->
  exists a', set_all a kvs' = Ok a' /\ building a' (kvs ++ kvs').
Proof.
  revert a kvs. induction kvs' as [|[k v] kvs' IH]; intros a kvs Hb Hst.
  - exists a. by rewrite app_nil_r.
  - assert (E : kvs ++ (k, v) :: kvs' = (kvs ++ [(k, v)]) ++ kvs') by (by rewrite <-app_assoc).
    rewrite E in *. pose proof (layout_sizes _ Hst) as (_ & Hfs & Hs & Hn & _).
    pose proof (index_pos_le (kvs ++ [(k, v)]) kvs').
    destruct (set_ok a kvs k v Hb) as (a' & Ha & Hb').
    { destruct Hst as [HF _]. apply Forall_app in HF as [HF _]. apply Forall_app in HF as [_ HF]. by inversion HF. }
    { lia. }
    cbn [set_all]. rewrite Ha. cbn [rbind]. by apply IH.
Qed.

Lemma write_table_ok kvs : storable kvs -> exists a, write_table kvs = Ok a /\ finished a kvs.
Proof.
  intros Hst. unfold write_table. destruct newArrayTable_fresh as (a0 & -> & Hb). cbn [rbind].
  destruct (set_all_ok a0 [] kvs Hb Hst) as (a1 & -> & Hb1). cbn [rbind]. by apply writeFinish_ok.
Qed.

(** C29: an array table gives back what was written: every item at its position,
    nothing outside, both through the table that wrote it and after the
    finished file is opened again. *)
Theorem array_table_roundtrip kvs :
  storable kvs ->
  exists a, write_table kvs = Ok a /\ itemCount a = len kvs /\
    (forall i, getKV a i = Ok (lookupZ kvs i)) /\
    exists a', openArrayTable (t_file (at_tbl (with_tbl a (t_close (at_tbl a))))) = Ok a' /\
      itemCount a' = len kvs /\ forall i, getKV a' i = Ok (lookupZ kvs i).
Proof.
  intros Hst. destruct (write_table_ok kvs Hst) as (a & Ha & Hf). exists a. split; [done|].
  split; [apply (fin_num a kvs Hf)|]. split; [by apply getKV_lookup|].
  assert (Hc : t_file (at_tbl (with_tbl a (t_close (at_tbl a)))) = t_file (at_tbl a)).
  { cbn [with_tbl at_tbl]. unfold t_close, munmap. destruct (t_opened _); [|done]. by destruct (t_data _). }
  rewrite Hc. destruct (openArrayTable_ok _ kvs (fin_layout a kvs Hf) Hst) as (a' & Ha' & Hf').
  exists a'. split; [done|]. split; [apply (fin_num a' kvs Hf')|by apply getKV_lookup].
Qed.

(** The entries an iterator yields for the items. *)
Definition at_entry (kv : bytes * bytes) : entry := (InternalKey.MakeInternalSetKey kv.1, kv.2).

Definition sorted_items (kvs : list (bytes * bytes)) : Prop :=
  StronglySorted (fun x y => bytes_compare x.1 y.1 < 0) kvs.

Lemma sorted_entries_items kvs :
  sorted_items kvs -> StronglySorted (entry_lt bytes_compare) (at_entry <$> kvs).
Proof.
  induction 1 as [|x l Hs IH Hx]; cbn; constructor; [done|].
  apply Forall_fmap. eapply Forall_impl; [exact Hx|]. intros y Hy. cbn.
  apply InternalKey.InternalCompare_lt; [apply _|]. by left.
Qed.

Lemma bytes_compare_range x y : -1 <= bytes_compare x y <= 1.
Proof.
  revert y. induction x as [|c x IH]; intros [|d y]; cbn [bytes_compare]; try lia.
  bdestruct_all; (lia || apply IH).
Qed.

(** The position of the first item at or past a key. *)
Definition key_pos (key : bytes) (kvs : list (bytes * bytes)) : Z :=
  list_seek bytes_compare key (at_entry <$> kvs).

Lemma findKeyIndexPos_ok a kvs key :
  finished a kvs -> storable kvs -> sorted_items kvs ->
  findKeyIndexPos a key = Ok (key_pos key kvs).
Proof.
  intros Hf Hst Hs. unfold findKeyIndexPos. rewrite (fin_num a kvs Hf). unfold key_pos.
  pose proof (list_seek_range bytes_compare key (at_entry <$> kvs)) as Hr.
  assert (Hl : len (at_entry <$> kvs) = len kvs) by (unfold len; by rewrite length_fmap). rewrite Hl in Hr.
  apply (search_spec _ (fun i => match lookupZ kvs i with
     | Some kv => negb (bytes_compare kv.1 key =? -1) | None => true end)); [done|..].
  - intros i Hi. destruct (lookupZ_Some kvs i Hi) as [kv Hk]. rewrite (getKey_lookup a kvs Hf Hst i kv Hk), Hk. done.
  - intros i Hi. destruct (lookupZ_Some kvs i) as [kv Hk]; [lia|]. rewrite Hk.
    assert (Hk' : lookupZ (at_entry <$> kvs) i = Some (at_entry kv)) by (by rewrite lookupZ_fmap, Hk).
    pose proof (list_seek_before bytes_compare key _ _ _ Hk' ltac:(lia)) as Hb. cbn in Hb.
    pose proof (bytes_compare_range kv.1 key). bdestruct_all; (done || lia).
  - intros i Hi. destruct (lookupZ_Some kvs i) as [kv Hk]; [lia|]. rewrite Hk.
    assert (Hk' : lookupZ (at_entry <$> kvs) i = Some (at_entry kv)) by (by rewrite lookupZ_fmap, Hk).
    pose proof (list_seek_after bytes_compare key _ _ _ (sorted_entries_items kvs Hs) Hk' ltac:(lia)) as Hb. cbn in Hb.
    bdestruct_all; (done || lia).
Qed.

Lemma get_ok a kvs key :
  finished a kvs -> storable kvs -> sorted_items kvs ->
  get a key = Ok (match lookupZ kvs (key_pos key kvs) with
                  | Some kv => (kv.2, true, InternalKey.KindSet)
                  | None => ([], false, InternalKey.KindInvalid)
                  end).
Proof.
  intros Hf Hst Hs. unfold get. rewrite (findKeyIndexPos_ok a kvs key Hf Hst Hs). cbn [rbind].
  rewrite (getKV_lookup a kvs Hf Hst). cbn [rbind]. by destruct (lookupZ _ _) as [[k v]|].
Qed.

(** The item a position search lands on for a stored key is its own. *)
Lemma key_pos_present kvs k v :
  sorted_items kvs -> (k, v) ∈ kvs -> lookupZ kvs (key_pos k kvs) = Some (k, v).
Proof.
  unfold key_pos. induction 1 as [|x l Hs IH Hx]; intros Hin; [by apply elem_of_nil in Hin|].
  cbn [fmap list_fmap list_seek]. rewrite Forall_forall in Hx.
  apply elem_of_cons in Hin as [<-|Hin].
  - cbn [at_entry fst InternalKey.UserKey InternalKey.MakeInternalSetKey InternalKey.MakeInternalKey].
    rewrite cmp_refl by apply _. done.
  - cbn [at_entry fst InternalKey.UserKey InternalKey.MakeInternalSetKey InternalKey.MakeInternalKey].
    pose proof (Hx _ Hin) as Hlt. cbn in Hlt. destruct (Z.ltb_spec (bytes_compare x.1 k) 0); [|lia].
    pose proof (list_seek_range bytes_compare k (at_entry <$> l)).
    rewrite lookupZ_cons by lia. by rewrite Z.add_simpl_l, IH.
Qed.

(** A lookup of a key the table holds returns its value; a key past the last
    one is reported absent; but a missing key with a larger one behind it is
    reported present with the value of that larger key, since the key found is
    never compared. *)
Theorem array_table_get kvs a key k' v' :
  storable kvs -> sorted_items kvs -> write_table kvs = Ok a ->
  (forall v, (key, v) ∈ kvs -> get a key = Ok (v, true, InternalKey.KindSet)) /\
  (Forall (fun kv => bytes_compare kv.1 key < 0) kvs -> get a key = Ok ([], false, InternalKey.KindInvalid)) /\
  (lookupZ kvs (key_pos key kvs) = Some (k', v') -> get a key = Ok (v', true, InternalKey.KindSet)).
Proof.
  intros Hst Hs Ha. destruct (write_table_ok kvs Hst) as (a0 & Ha0 & Hf).
  assert (a0 = a) as -> by congruence. rewrite (get_ok a kvs key Hf Hst Hs). split; [|split].
  - intros v Hin. by rewrite (key_pos_present kvs key v Hs Hin).
  - intros HF. enough (key_pos key kvs = len kvs) as -> by (by rewrite lookupZ_None).
    unfold key_pos. clear -HF. induction HF as [|x l Hx HF IH]; [done|]. cbn [fmap list_fmap list_seek].
    rewrite len_cons. cbn [at_entry fst InternalKey.UserKey InternalKey.MakeInternalSetKey InternalKey.MakeInternalKey].
    destruct (Z.ltb_spec (bytes_compare x.1 key) 0); [by rewrite IH|lia].
  - intros ->. done.
Qed.

(** Iterators without bounds walk the items. *)
Definition at_items (i : arrayTableIterator) (l : list entry) (p : Z) : Prop :=
  exists kvs, finished (ai_at i) kvs /\ storable kvs /\ l = at_entry <$> kvs /\ ai_pos i = p /\
    ai_upper i = None.

Lemma findItem_ok i kvs :
  finished (ai_at i) kvs -> storable kvs -> findItem i = Ok (lookupZ (at_entry <$> kvs) (ai_pos i)).
Proof.
  intros Hf Hst. unfold findItem. rewrite (getKV_lookup _ kvs Hf Hst). cbn [rbind].
  rewrite lookupZ_fmap. by destruct (lookupZ kvs (ai_pos i)) as [[]|].
Qed.

#[export] Instance atOps_laws : ForwardLaws atOps at_items.
Proof.
  split; [| |done].
  - intros i l p (kvs & Hf & Hst & -> & Hp & Hu). cbn [itFirst atOps]. unfold aFirst.
    rewrite (findItem_ok _ kvs) by done. cbn [rbind ai_pos ai_move]. unfold check_upper.
    cbn [ai_upper ai_move]. rewrite Hu. eexists. split; [done|]. exists kvs. by cbn.
  - intros i l p (kvs & Hf & Hst & -> & Hp & Hu) _. cbn [itNext atOps]. unfold aNext.
    rewrite (findItem_ok _ kvs) by done. cbn [rbind ai_pos ai_move]. unfold check_upper.
    cbn [ai_upper ai_move]. rewrite Hu, Hp. eexists. split; [done|]. exists kvs. by cbn.
Qed.

(** A scan of an array table without an upper bound yields its items in
    order; with an upper bound above every key it runs off the end and panics,
    since the bound is tested on the key of a missing item. *)
Theorem array_table_scan kvs a lower u fuel :
  storable kvs -> write_table kvs = Ok a -> (length kvs <= fuel)%nat ->
  scan atOps fuel (newIter a lower None) = Ok (at_entry <$> kvs) /\
  (Forall (fun kv => 0 < bytes_compare u kv.1) kvs -> scan atOps fuel (newIter a lower (Some u)) = Panic).
Proof.
  intros Hst Ha Hl. destruct (write_table_ok kvs Hst) as (a0 & Ha0 & Hf).
  assert (a0 = a) as -> by congruence. split.
  - eapply scan_walks; [apply atOps_laws| |rewrite length_fmap; done].
    exists kvs. cbn. eauto using eq_refl.
  - intros HF. unfold scan, drain. cbn [itFirst itNext atOps].
    assert (Hstep : forall p, (let! kv := findItem (ai_move (newIter a lower (Some u)) p) in
       check_upper (ai_move (newIter a lower (Some u)) p) kv)
       = match lookupZ kvs p with
         | Some kv => Ok (ai_move (newIter a lower (Some u)) p, Some (at_entry kv))
         | None => Panic
         end).
    { intros p. rewrite (findItem_ok _ kvs) by done. cbn [rbind ai_pos ai_move newIter]. rewrite lookupZ_fmap.
      unfold check_upper. cbn [ai_upper ai_move newIter].
      destruct (lookupZ kvs p) as [kv|] eqn:E; [|done]. cbn [fmap option_fmap option_map].
      pose proof (Forall_lookupZ _ _ _ _ HF E) as Hu. cbv beta in Hu. cbn [at_entry fst InternalKey.UserKey InternalKey.MakeInternalSetKey InternalKey.MakeInternalKey].
      destruct (Z.leb_spec (bytes_compare u kv.1) 0); [lia|done]. }
    assert (Hdr : forall n p kv, 0 <= p -> lookupZ kvs p = Some kv -> (length (drop (Z.to_nat p) kvs) <= n)%nat ->
       drain_from aNext n (ai_move (newIter a lower (Some u)) p) (Some (at_entry kv)) = Panic).
    { induction n as [|n IHn]; intros p kv Hp E Hn; rewrite (drop_lookupZ _ _ _ E) in Hn; cbn [length] in Hn; [lia|].
      cbn [drain_from]. etransitivity; [apply (f_equal2 rbind (Hstep (p + 1)) eq_refl)|]. destruct (lookupZ kvs (p + 1)) as [kv'|] eqn:E'; [|done]. cbn [rbind].
      rewrite (IHn (p + 1) kv'); [done|lia|done|lia]. }
    etransitivity; [apply (f_equal2 rbind (Hstep 0) eq_refl)|]. destruct (lookupZ kvs 0) as [kv|] eqn:E; [|done]. cbn [rbind].
    apply Hdr; [lia|done|]. by rewrite drop_0.
Qed.

Definition demo_items : list (bytes * bytes) := [([1], [10; 11]); ([3], []); ([5; 0], [50])].

Lemma demo_items_ok : storable demo_items /\ sorted_items demo_items.
Proof. split; [split; [repeat constructor|]; by vm_compute|]. repeat constructor. Defined.

Lemma array_table_roundtrip_witness :
  exists a, write_table demo_items = Ok a /\ getKV a 2 = Ok (Some ([5; 0], [50])).
Proof.
  destruct (array_table_roundtrip demo_items (proj1 demo_items_ok)) as (a & Ha & _ & Hk & _).
  exists a. split; [exact Ha|]. exact (Hk 2).
Defined.

Lemma array_table_get_witness :
  exists a, write_table demo_items = Ok a /\ get a [4] = Ok ([50], true, 1) /\ get a [1] = Ok ([10; 11], true, 1).
Proof.
  destruct (write_table_ok demo_items (proj1 demo_items_ok)) as (a & Ha & _).
  exists a. split; [exact Ha|]. split.
  - apply (array_table_get demo_items a [4] [5; 0] [50] (proj1 demo_items_ok) (proj2 demo_items_ok) Ha).
    by vm_compute.
  - apply (array_table_get demo_items a [1] [5; 0] [50] (proj1 demo_items_ok) (proj2 demo_items_ok) Ha). left.
Defined.

Lemma array_table_scan_witness :
  exists a, write_table demo_items = Ok a /\ scan atOps 3 (newIter a None (Some [9])) = Panic.
Proof.
  destruct (write_table_ok demo_items (proj1 demo_items_ok)) as (a & Ha & _).
  exists a. split; [exact Ha|].
  apply (array_table_scan demo_items a None [9] 3 (proj1 demo_items_ok) Ha); [cbn; lia|].
  repeat constructor.
Defined.
