(* ===== verification/PlainFlush.v ===== *)
(** A flush of the plain store (compaction.go, plain_flush.go: [newInputIter],
    [runFlush]): the memtables, queued batches and the previous array table are
    merged, reduced to the newest entry of each key and written to a new array
    table.

    The sources are any iterators that meet the contract of [Iter]; the new
    table's path is taken to be unused, as file numbers are never reissued. *)

From Stdlib Require Import ZArith Lia.
From stdpp Require Import base numbers option sorting list.
From S2P Require Import Prelude Base Iter MergingIter CompactionIter Table ArrayTable.

Section RunFlush.
Context (cmp : bytes -> bytes -> Z).

(** The counters of [compaction]. *)
Record flushStats : Type := mkStats { bytesWritten : Z; keyWritten : Z }.

Section Loop.
Context {S : Type} (o : iterOps S).

(** The loop of [runFlush]: the table is created at the first entry, and an item
    that cannot be written is skipped. *)
Fixpoint flush_loop (fuel : nat) (step : nat) (c : compactionIter S) (kv : option entry)
    (at_ : option arrayTable) (st : flushStats) : outcome (option arrayTable * flushStats) :=
  match kv with
  | None => Ok (at_, st)
  | Some (k, v) =>
      match fuel with
      | O => Err ErrModelFuel
      | Datatypes.S fuel' =>
          let! a := (match at_ with Some a => Ok a | None => newArrayTable emptyFile end) in
          match set a (InternalKey.UserKey k) v with
          | Panic => Panic
          | Err _ =>
              let! (c', kv') := cNext cmp o step c in flush_loop fuel' step c' kv' (Some a) st
          | Ok (a', n) =>
              let! (c', kv') := cNext cmp o step c in
              flush_loop fuel' step c' kv' (Some a') (mkStats (bytesWritten st + n) (keyWritten st + 1))
          end
      end
  end.

(** [runFlush]: [None] is the nil entry returned when nothing was written. *)
Definition runFlush (fuel : nat) (s : S) : outcome (option arrayTable * flushStats) :=
  let! (c, kv) := cFirst cmp o fuel (newCompactionIter s) in
  let! (at_, st) := flush_loop fuel fuel c kv None (mkStats 0 0) in
  match at_ with
  | None => Ok (None, st)
  | Some a => let! a' := writeFinish a in Ok (Some a', st)
  end.

End Loop.

(** [newInputIter] and the flush over it: one source is read directly, several
    through a merging iterator without bounds. *)
Definition flush_sources (fuel : nat) (iters : list Iter) : outcome (option arrayTable * flushStats) :=
  match iters with
  | [i] => runFlush (itOps i) fuel (itSt i)
  | _ => runFlush (mergingOps cmp fuel) fuel (merging_init None None iters)
  end.

(** The items a list of entries becomes. *)
Definition items_of (es : list entry) : list (bytes * bytes) :=
  (fun e : entry => (InternalKey.UserKey e.1, e.2)) <$> es.

(** ** Properties *)

Section LoopLaws.
Context {S : Type} (o : iterOps S).

Lemma flush_loop_writes fuel step c kv es a done_ st :
  drain_from (cNext cmp o step) fuel c kv = Ok es ->
  building a done_ -> storable (done_ ++ items_of es) ->
  exists a' st', flush_loop o fuel step c kv (Some a) st = Ok (Some a', st') /\
    building a' (done_ ++ items_of es) /\ keyWritten st' = keyWritten st + len es.
Proof.
  revert c kv es a done_ st. induction fuel as [|fuel IH]; intros c kv es a done_ st Hd Hb Hst;
    destruct kv as [[k v]|]; cbn [drain_from] in Hd; try done.
  - injection Hd as <-. exists a, st. cbn. by rewrite app_nil_r, Z.add_0_r.
  - destruct (cNext cmp o step c) as [[c' kv']| |] eqn:Ec; try done. cbn [rbind] in Hd.
    destruct (drain_from (cNext cmp o step) fuel c' kv') as [es'| |] eqn:Ed; try done.
    injection Hd as <-. cbn [flush_loop rbind].
    set (item := (InternalKey.UserKey k, v)) in *.
    assert (E : done_ ++ items_of ((k, v) :: es') = (done_ ++ [item]) ++ items_of es')
      by (rewrite <-app_assoc; done).
    rewrite E in *. pose proof (layout_sizes _ Hst) as (_ & Hfs & Hs & Hn & _).
    pose proof (index_pos_le (done_ ++ [item]) (items_of es')).
    destruct (set_ok a done_ (InternalKey.UserKey k) v Hb) as (a1 & -> & Hb1); [|fold item; lia|].
    { destruct Hst as [HF _]. apply Forall_app in HF as [HF _]. apply Forall_app in HF as [_ HF]. by inversion HF. }
    rewrite Ec. cbn [rbind]. fold item.
    destruct (IH c' kv' es' a1 (done_ ++ [item]) (mkStats (bytesWritten st + len (item_bytes item)) (keyWritten st + 1)) Ed Hb1 Hst)
      as (a' & st' & -> & Hb' & Hk).
    exists a', st'. split; [done|]. split; [done|]. rewrite Hk, len_cons. cbn [keyWritten]. lia.
  - injection Hd as <-. exists a, st. cbn. by rewrite app_nil_r, Z.add_0_r.
Qed.

Lemma runFlush_ok fuel s es :
  drain (cNext cmp o fuel) (cFirst cmp o fuel) fuel (newCompactionIter s) = Ok es ->
  storable (items_of es) -> es <> [] ->
  exists a st, runFlush o fuel s = Ok (Some a, st) /\ finished a (items_of es) /\ keyWritten st = len es.
Proof.
  intros Hd Hst Hne. unfold drain in Hd. unfold runFlush.
  destruct (cFirst cmp o fuel (newCompactionIter s)) as [[c kv]| |]; try done. cbn [rbind] in *.
  destruct newArrayTable_fresh as (a0 & Ha0 & Hb).
  destruct (flush_loop_writes fuel fuel c kv es a0 [] (mkStats 0 0) Hd Hb Hst) as (a1 & st & Hl & Hb1 & Hk).
  assert (Hl' : flush_loop o fuel fuel c kv None (mkStats 0 0) = Ok (Some a1, st)).
  { destruct kv as [[k v]|].
    - destruct fuel; [done|]. cbn [flush_loop rbind] in *. by rewrite Ha0.
    - destruct fuel; cbn in Hd; by injection Hd as <-. }
  rewrite Hl'. cbn [rbind]. destruct (writeFinish_ok a1 _ Hb1 Hst) as (a & -> & Hf).
  exists a, st. cbn [rbind]. by rewrite Hk.
Qed.

Lemma runFlush_nothing fuel s :
  drain (cNext cmp o fuel) (cFirst cmp o fuel) fuel (newCompactionIter s) = Ok [] ->
  runFlush o fuel s = Ok (None, mkStats 0 0).
Proof.
  unfold drain, runFlush. destruct (cFirst cmp o fuel (newCompactionIter s)) as [[c [[k v]|]]| |]; try done; cbn [rbind].
  - destruct fuel; [done|]. cbn [drain_from]. destruct (cNext cmp o (Datatypes.S fuel) c) as [[c' kv']| |]; try done. cbn [rbind].
    by destruct (drain_from _ _ _ _).
  - intros _. by destruct fuel.
Qed.
End LoopLaws.

Context `{!Comparator cmp}.

(** What the compaction pass keeps has strictly increasing user keys. *)
Definition key_lt (a b : entry) : Prop := cmp (InternalKey.UserKey a.1) (InternalKey.UserKey b.1) < 0.

Lemma newest_from_sorted last l :
  sorted_entries cmp l ->
  (forall k, last = Some k -> Forall (fun e : entry => cmp k (InternalKey.UserKey e.1) <= 0) l) ->
  StronglySorted key_lt (newest_from cmp last l) /\
  (forall k, last = Some k -> Forall (fun e : entry => cmp k (InternalKey.UserKey e.1) < 0) (newest_from cmp last l)).
Proof.
  intros Hs. revert last. induction Hs as [|e l Hs IH He]; intros last Hl; cbn [newest_from].
  { split; [constructor|done]. }
  destruct (match last with Some k => same_key cmp k e | None => false end) eqn:Ek.
  - apply IH. intros k ->. specialize (Hl k eq_refl). by apply Forall_inv_tail in Hl.
  - assert (Hle : Forall (fun x : entry => cmp (InternalKey.UserKey e.1) (InternalKey.UserKey x.1) <= 0) l).
    { eapply Forall_impl; [exact He|]. intros x Hx. apply InternalKey.InternalCompare_lt in Hx; [|done].
      destruct Hx as [?|[-> _]]; [lia|]. rewrite cmp_refl by done. lia. }
    destruct (IH (Some (InternalKey.UserKey e.1))) as [IH1 IH2]; [by intros k [= <-]|].
    specialize (IH2 _ eq_refl). split; [by constructor|]. intros k ->. specialize (Hl k eq_refl).
    apply Forall_cons in Hl as [Hke _]. unfold same_key in Ek.
    assert (Hlt : cmp k (InternalKey.UserKey e.1) < 0) by (destruct (Z.eqb_spec (cmp k (InternalKey.UserKey e.1)) 0); [done|lia]).
    constructor; [done|]. eapply Forall_impl; [exact IH2|]. intros x Hx. by eapply (cmp_trans (cmp := cmp)).
Qed.

Lemma newest_sorted l : sorted_entries cmp l -> StronglySorted key_lt (newest cmp l).
Proof. intros Hs. by apply newest_from_sorted. Qed.

(** The run behind [flush_sources], whatever the number of sources. *)
Lemma flush_sources_ok iters (ls : list (list entry)) out fuel :
  Forall2 (fun i l => walks i l (-1)) iters ls -> Forall (sorted_entries cmp) ls ->
  sorted_entries cmp out -> out ≡ₚ mjoin ls ->
  Forall flushable_kind out -> storable (items_of (newest cmp out)) -> (length out < fuel)%nat ->
  match newest cmp out with
  | [] => flush_sources fuel iters = Ok (None, mkStats 0 0)
  | _ => exists a st, flush_sources fuel iters = Ok (Some a, st) /\
           keyWritten st = len (newest cmp out) /\ finished a (items_of (newest cmp out))
  end.
Proof.
  intros HF Hls Hs Hp Hk Hst Hf.
  assert (Hrun : exists (S : Type) (o : iterOps S) (s : S),
    flush_sources fuel iters = runFlush o fuel s /\
    drain (cNext cmp o fuel) (cFirst cmp o fuel) fuel (newCompactionIter s) = Ok (newest cmp out)).
  { unfold flush_sources. destruct HF as [|i l iters' ls' Hi [|i' l' iters'' ls'' Hi' HF]].
    - eexists _, _, _. split; [reflexivity|].
      apply (compaction_drain cmp _ (merges cmp) fuel _ out (-1)); [|done|done].
      apply (merging_init_merges cmp None None [] [] out); (done || constructor).
    - eexists _, _, _. split; [reflexivity|]. destruct Hi as (R & HR & Hi).
      apply (compaction_drain cmp _ R fuel _ out (-1)); [|done|done].
      replace out with l; [done|]. cbn in Hp. rewrite app_nil_r in Hp.
      apply (sorted_entries_unique cmp); [by inversion Hls|done|done].
    - eexists _, _, _. split; [reflexivity|].
      apply (compaction_drain cmp _ (merges cmp) fuel _ out (-1)); [|done|done].
      apply (merging_init_merges cmp None None _ (l :: l' :: ls'') out); [|done..]. by repeat constructor. }
  destruct Hrun as (S & o & s & -> & Hd).
  destruct (newest cmp out) as [|e es] eqn:En; [by apply runFlush_nothing|].
  destruct (runFlush_ok o fuel s (e :: es) Hd Hst ltac:(done)) as (a & st & -> & Hfin & Hkw).
  exists a, st. done.
Qed.

(** C4: a flush writes exactly the newest entry of each user key of its sources,
    in key order, to an array table that gives them back, tombstones included
    (as items with an empty value); when its sources are empty it returns no
    table. *)
Theorem flush_writes_newest iters (ls : list (list entry)) out fuel :
  Forall2 (fun i l => walks i l (-1)) iters ls -> Forall (sorted_entries cmp) ls ->
  sorted_entries cmp out -> out ≡ₚ mjoin ls ->
  Forall flushable_kind out -> storable (items_of (newest cmp out)) -> (length out < fuel)%nat ->
  match newest cmp out with
  | [] => flush_sources fuel iters = Ok (None, mkStats 0 0)
  | _ => exists a st, flush_sources fuel iters = Ok (Some a, st) /\
           keyWritten st = len (newest cmp out) /\
           forall i, getKV a i = Ok (lookupZ (items_of (newest cmp out)) i)
  end.
Proof.
  intros HF Hls Hs Hp Hk Hst Hf. pose proof (flush_sources_ok iters ls out fuel HF Hls Hs Hp Hk Hst Hf) as Hr.
  destruct (newest cmp out); [done|]. destruct Hr as (a & st & Hr & Hw & Hfin).
  exists a, st. split; [done|]. split; [done|]. by apply getKV_lookup.
Qed.
End RunFlush.

Lemma items_of_sorted es :
  StronglySorted (key_lt bytes_compare) es -> sorted_items (items_of es).
Proof.
  induction 1 as [|x l Hs IH Hx]; cbn; constructor; [done|]. by apply Forall_fmap.
Qed.

(** After a flush the table finds every key its sources mention and returns
    the value of the newest entry; that entry may be a tombstone, so a deleted
    key is reported present with an empty value. *)
Theorem flush_then_get iters (ls : list (list entry)) out fuel e :
  Forall2 (fun i l => walks i l (-1)) iters ls -> Forall (sorted_entries bytes_compare) ls ->
  sorted_entries bytes_compare out -> out ≡ₚ mjoin ls ->
  Forall flushable_kind out -> storable (items_of (newest bytes_compare out)) -> (length out < fuel)%nat ->
  e ∈ newest bytes_compare out ->
  exists a st, flush_sources bytes_compare fuel iters = Ok (Some a, st) /\
    get a (InternalKey.UserKey e.1) = Ok (e.2, true, InternalKey.KindSet).
Proof.
  intros HF Hls Hs Hp Hk Hst Hf He.
  pose proof (flush_sources_ok bytes_compare iters ls out fuel HF Hls Hs Hp Hk Hst Hf) as Hr.
  pose proof (items_of_sorted _ (newest_sorted bytes_compare out Hs)) as Hsi.
  destruct (newest bytes_compare out) as [|x es]; [by apply elem_of_nil in He|].
  destruct Hr as (a & st & Hr & _ & Hfin). exists a, st. split; [done|].
  rewrite (get_ok a _ _ Hfin Hst Hsi).
  rewrite (key_pos_present _ _ e.2 Hsi); [done|]. by apply (list_elem_of_fmap_2 (fun e : entry => (InternalKey.UserKey e.1, e.2))).
Qed.

Lemma flush_writes_newest_witness :
  exists a st, flush_sources bytes_compare 5 [listIter bytes_compare demo_level1; listIter bytes_compare demo_level2]
    = Ok (Some a, st) /\ keyWritten st = 3 /\ getKV a 2 = Ok (Some ([3], [])).
Proof.
  destruct (flush_writes_newest bytes_compare
    [listIter bytes_compare demo_level1; listIter bytes_compare demo_level2]
    [demo_level1; demo_level2] demo_merged 5) as (a & st & H1 & H2 & H3).
  - repeat constructor; apply listIter_walks.
  - constructor; [solve_sorted|]. constructor; [solve_sorted|constructor].
  - solve_sorted.
  - cbn. apply Permutation_skip, Permutation_swap.
  - repeat constructor; vm_compute; tauto.
  - split; [repeat constructor|]; by vm_compute.
  - cbn. lia.
  - exists a, st. split; [exact H1|]. split; [exact H2|]. exact (H3 2).
Defined.

Lemma flush_then_get_witness :
  exists a st, flush_sources bytes_compare 5 [listIter bytes_compare demo_level1; listIter bytes_compare demo_level2]
    = Ok (Some a, st) /\ get a [3] = Ok ([], true, 1).
Proof.
  apply (flush_then_get [listIter bytes_compare demo_level1; listIter bytes_compare demo_level2]
    [demo_level1; demo_level2] demo_merged 5 (InternalKey.MakeInternalKey [3] 8 0, [])).
  - repeat constructor; apply listIter_walks.
  - constructor; [solve_sorted|]. constructor; [solve_sorted|constructor].
  - solve_sorted.
  - cbn. apply Permutation_skip, Permutation_swap.
  - repeat constructor; vm_compute; tauto.
  - split; [repeat constructor|]; by vm_compute.
  - cbn. lia.
  - vm_compute. right. right. left.
Defined.
