(* ===== verification/Meta.v ===== *)
(** The three metadata files: the plain store's manifest (manifest.go), the
    sequential store's sequence numbers (meta.go) and the bitree's file numbers
    (bitree/manifest.go).

    Each is a fixed block of a header, little-endian 64-bit fields and a magic,
    mapped shared, so a store through the mapping is in the file.  Opening reads
    the fields back. *)

From Stdlib Require Import ZArith Lia.
From stdpp Require Import base numbers option list.
From S2P Require Import Prelude Base Table.

Definition metaHeaderOffset : Z := 0.
Definition metaFieldOffset : Z := 16.
Definition metaLen : Z := 16 + 1024 + 8.
Definition footerOffset : Z := metaLen - 8.
Definition metaMagic : bytes := [247; 207; 244; 133; 183; 65; 226; 136].
Definition metaVersion1 : Z := 1.

(** [mmap.MMap] opened with size 0 maps the whole file; the accesses slice the
    mapping. *)
Definition ReadUInt64At (f : file) (pos : Z) : outcome Z :=
  if pos + 8 <=? f_size f then Ok (le_get (mem_read (f_mem f) pos 8)) else Panic.

Definition ReadUInt16At (f : file) (pos : Z) : outcome Z :=
  if pos + 2 <=? f_size f then Ok (le_get (mem_read (f_mem f) pos 2)) else Panic.

Definition WriteUInt64At (f : file) (val pos : Z) : outcome file :=
  if pos + 8 <=? f_size f then Ok (mkFile (mem_write (f_mem f) pos (le_put 8 val)) (f_size f)) else Panic.

(** [create]: the block with a version and the magic. *)
Definition create : file :=
  mkFile (mem_write (mem_write mem_zero metaHeaderOffset (le_put 2 metaVersion1)) footerOffset metaMagic) metaLen.

Lemma read_write_same f v pos :
  0 <= v < 18446744073709551616 -> pos + 8 <= f_size f ->
  exists f', WriteUInt64At f v pos = Ok f' /\ f_size f' = f_size f /\ ReadUInt64At f' pos = Ok v /\
    forall p, (p + 8 <= pos \/ pos + 8 <= p) -> ReadUInt64At f' p = ReadUInt64At f p.
Proof.
  intros Hv Hp. unfold WriteUInt64At. destruct (Z.leb_spec (pos + 8) (f_size f)); [|lia].
  eexists. split; [reflexivity|]. split; [done|]. unfold ReadUInt64At; cbn [f_size f_mem].
  assert (Hl : len (le_put 8 v) = 8) by (unfold len; by rewrite length_le_put).
  split.
  - destruct (Z.leb_spec (pos + 8) (f_size f)); [|lia].
    pose proof (mem_read_write_same (f_mem f) pos (le_put 8 v)) as Hr. rewrite length_le_put in Hr.
    rewrite Hr, le_get_put_u64. by rewrite u64_small.
  - intros p Hd. by rewrite mem_read_write_disjoint by lia.
Qed.

Lemma create_fields p :
  16 <= p -> p + 8 <= footerOffset -> ReadUInt64At create p = Ok 0.
Proof.
  intros H1 H2. unfold ReadUInt64At, create. cbn [f_size f_mem].
  destruct (Z.leb_spec (p + 8) metaLen); [|unfold footerOffset in H2; lia].
  change (Z.of_nat 8) with 8 in *.
  rewrite mem_read_write_disjoint by (left; lia).
  rewrite mem_read_write_disjoint by (right; unfold len, metaHeaderOffset; rewrite length_le_put; lia).
  done.
Qed.

(** ** The plain store's manifest *)

Module Plain.

Definition fieldOffsetMinUnflushedLogNum : Z := metaFieldOffset.
Definition fieldOffsetNextFileNum : Z := fieldOffsetMinUnflushedLogNum + 8.
Definition fieldOffsetLastSeqNum : Z := fieldOffsetNextFileNum + 8.
Definition fieldOffsetPlainDbAtFileNum : Z := fieldOffsetLastSeqNum + 8.

Record metadata : Type := mkMeta {
  logSeqNum : Z;
  visibleSeqNum : Z;
  version : Z;
  mfile : file;
  lastSeqNum : Z;
  minUnflushedLogNum : Z;
  nextFileNum : Z;
  plainDbAtFileNum : Z
}.

Record metaSet : Type := mkSet {
  ms_minUnflushedLogNum : Z; ms_nextFileNum : Z; ms_lastSeqNum : Z; ms_plainDbAtFileNum : Z
}.

Definition markFileNumUsed (m : metadata) (fileNum : Z) : metadata :=
  if nextFileNum m <=? fileNum
  then mkMeta (logSeqNum m) (visibleSeqNum m) (version m) (mfile m) (lastSeqNum m)
         (minUnflushedLogNum m) (u64 (fileNum + 1)) (plainDbAtFileNum m)
  else m.

(** [openMetadata] on the file at the path, [None] when there is none. *)
Definition openMetadata (f : option file) : outcome metadata :=
  let f := match f with Some f => f | None => create end in
  if f_size f =? 0 then Err ErrSys else
  let! ver := ReadUInt16At f metaHeaderOffset in
  let! minLog := ReadUInt64At f fieldOffsetMinUnflushedLogNum in
  let! next := ReadUInt64At f fieldOffsetNextFileNum in
  let! last := ReadUInt64At f fieldOffsetLastSeqNum in
  let! plainAt := ReadUInt64At f fieldOffsetPlainDbAtFileNum in
  let next := if next =? 0 then 1 else next in
  let logSeq := if negb (last =? 0) then u64 (last + 1) else 1 in
  Ok (markFileNumUsed (mkMeta logSeq 0 ver f last minLog next plainAt) minLog).

(** [writeMetaEdit]: zero fields are left alone. *)
Definition writeMetaEdit (m : metadata) (me : metaSet) : outcome metadata :=
  let! m := (if negb (ms_minUnflushedLogNum me =? 0)
    then let! f := WriteUInt64At (mfile m) (ms_minUnflushedLogNum me) fieldOffsetMinUnflushedLogNum in
      Ok (mkMeta (logSeqNum m) (visibleSeqNum m) (version m) f (lastSeqNum m)
            (ms_minUnflushedLogNum me) (nextFileNum m) (plainDbAtFileNum m))
    else Ok m) in
  let! m := (if negb (ms_nextFileNum me =? 0)
    then let! f := WriteUInt64At (mfile m) (ms_nextFileNum me) fieldOffsetNextFileNum in
      Ok (mkMeta (logSeqNum m) (visibleSeqNum m) (version m) f (lastSeqNum m)
            (minUnflushedLogNum m) (ms_nextFileNum me) (plainDbAtFileNum m))
    else Ok m) in
  let! m := (if negb (ms_lastSeqNum me =? 0)
    then let! f := WriteUInt64At (mfile m) (ms_lastSeqNum me) fieldOffsetLastSeqNum in
      Ok (mkMeta (logSeqNum m) (visibleSeqNum m) (version m) f (ms_lastSeqNum me)
            (minUnflushedLogNum m) (nextFileNum m) (plainDbAtFileNum m))
    else Ok m) in
  if negb (ms_plainDbAtFileNum me =? 0)
  then let! f := WriteUInt64At (mfile m) (ms_plainDbAtFileNum me) fieldOffsetPlainDbAtFileNum in
    Ok (mkMeta (logSeqNum m) (visibleSeqNum m) (version m) f (lastSeqNum m)
          (minUnflushedLogNum m) (nextFileNum m) (ms_plainDbAtFileNum me))
  else Ok m.

Definition markLogSeqNum (m : metadata) (maxSeqNum : Z) : metadata :=
  if logSeqNum m <? maxSeqNum
  then mkMeta maxSeqNum (visibleSeqNum m) (version m) (mfile m) (lastSeqNum m)
         (minUnflushedLogNum m) (nextFileNum m) (plainDbAtFileNum m)
  else m.

Definition getNextFileNum (m : metadata) : metadata * Z :=
  (mkMeta (logSeqNum m) (visibleSeqNum m) (version m) (mfile m) (lastSeqNum m)
     (minUnflushedLogNum m) (u64 (nextFileNum m + 1)) (plainDbAtFileNum m), nextFileNum m).

(** [apply] refuses a log number that goes back or was never handed out. *)
Definition apply (m : metadata) (me : metaSet) : outcome metadata :=
  if negb (ms_minUnflushedLogNum me =? 0) &&
     ((ms_minUnflushedLogNum me <? minUnflushedLogNum m) || (nextFileNum m <=? ms_minUnflushedLogNum me))
  then Err ErrMetaInconsistent
  else writeMetaEdit m (mkSet (ms_minUnflushedLogNum me) (nextFileNum m) (u64 (logSeqNum m - 1))
                          (ms_plainDbAtFileNum me)).

(** *** Properties *)

Definition word (x : Z) : Prop := 0 <= x < 18446744073709551616.

(** The invariant of an open manifest: the fields other than [nextFileNum] and
    the sequence number agree with the file, and the counters are ahead. *)
Record wf (m : metadata) : Prop := mkWf {
  wf_size : f_size (mfile m) = metaLen;
  wf_min : ReadUInt64At (mfile m) fieldOffsetMinUnflushedLogNum = Ok (minUnflushedLogNum m);
  wf_last : ReadUInt64At (mfile m) fieldOffsetLastSeqNum = Ok (lastSeqNum m);
  wf_at : ReadUInt64At (mfile m) fieldOffsetPlainDbAtFileNum = Ok (plainDbAtFileNum m);
  wf_next : exists n, ReadUInt64At (mfile m) fieldOffsetNextFileNum = Ok n /\ word n;
  wf_words : word (minUnflushedLogNum m) /\ word (plainDbAtFileNum m);
  wf_ahead : minUnflushedLogNum m < nextFileNum m < 18446744073709551615;
  wf_seq : lastSeqNum m < logSeqNum m /\ word (lastSeqNum m) /\ word (logSeqNum m)
}.

Lemma fresh_wf : exists m, openMetadata None = Ok m /\ wf m /\ logSeqNum m = 1 /\ nextFileNum m = 1.
Proof.
  exists (mkMeta 1 0 (le_get (mem_read (f_mem create) metaHeaderOffset 2)) create 0 0 1 0).
  assert (Hz : forall p, 16 <= p -> p + 8 <= footerOffset -> ReadUInt64At create p = Ok 0) by apply create_fields.
  split; [|split; [|done]].
  - unfold openMetadata. cbn [f_size create metaLen Z.add Z.eqb Pos.add Pos.succ].
    rewrite !Hz by done. done.
  - split; cbn [mfile minUnflushedLogNum lastSeqNum plainDbAtFileNum nextFileNum logSeqNum];
      rewrite ?Hz by done; unfold word; try (done || lia). exists 0. done.
Qed.

(** One guarded store of [writeMetaEdit]. *)
Lemma store_field f v old pos :
  word v -> pos + 8 <= f_size f -> ReadUInt64At f pos = Ok old ->
  exists f', (if negb (v =? 0) then WriteUInt64At f v pos else Ok f) = Ok f' /\ f_size f' = f_size f /\
    ReadUInt64At f' pos = Ok (if v =? 0 then old else v) /\
    forall p, (p + 8 <= pos \/ pos + 8 <= p) -> ReadUInt64At f' p = ReadUInt64At f p.
Proof.
  intros Hv Hp Ho. destruct (Z.eqb_spec v 0); cbn [negb]; [by exists f|].
  by apply read_write_same.
Qed.

Lemma rbind_if {A B} (b : bool) (x : outcome A) (y : A) (k : A -> outcome B) :
  rbind (if b then x else Ok y) k = if b then rbind x k else k y.
Proof. by destruct b. Qed.

(** A successful edit leaves every field as the edit says, in memory and in the
    file. *)
Lemma apply_ok m me :
  wf m -> word (ms_minUnflushedLogNum me) -> word (ms_plainDbAtFileNum me) ->
  (ms_minUnflushedLogNum me = 0 \/ minUnflushedLogNum m <= ms_minUnflushedLogNum me < nextFileNum m) ->
  exists m', apply m me = Ok m' /\ wf m' /\
    ReadUInt64At (mfile m') fieldOffsetNextFileNum = Ok (nextFileNum m) /\
    nextFileNum m' = nextFileNum m /\ logSeqNum m' = logSeqNum m /\
    minUnflushedLogNum m' = (if ms_minUnflushedLogNum me =? 0 then minUnflushedLogNum m else ms_minUnflushedLogNum me) /\
    plainDbAtFileNum m' = (if ms_plainDbAtFileNum me =? 0 then plainDbAtFileNum m else ms_plainDbAtFileNum me) /\
    lastSeqNum m' = logSeqNum m - 1.
Proof.
  intros [Hsz Hmin Hlast Hat (n0 & Hn0 & Hn0w) [Hw1 Hw2] Hah (Hs1 & Hs2 & Hs3)] Hme1 Hme2 Hok.
  unfold word in *. unfold apply.
  assert (negb (ms_minUnflushedLogNum me =? 0) &&
     ((ms_minUnflushedLogNum me <? minUnflushedLogNum m) || (nextFileNum m <=? ms_minUnflushedLogNum me)) = false) as ->
    by (bdestruct_all; cbn; (done || lia)).
  rewrite (u64_small (logSeqNum m - 1)) by lia. unfold writeMetaEdit.
  cbn [ms_minUnflushedLogNum ms_nextFileNum ms_lastSeqNum ms_plainDbAtFileNum].
  destruct (store_field (mfile m) (ms_minUnflushedLogNum me) (minUnflushedLogNum m) fieldOffsetMinUnflushedLogNum Hme1) as (f1 & E1 & S1 & R1 & O1);
    [rewrite Hsz; done|exact Hmin|].
  destruct (store_field f1 (nextFileNum m) n0 fieldOffsetNextFileNum) as (f2 & E2 & S2 & R2 & O2);
    [unfold word; lia|rewrite S1, Hsz; done|rewrite O1; [exact Hn0|right; done]|].
  destruct (store_field f2 (logSeqNum m - 1) (lastSeqNum m) fieldOffsetLastSeqNum) as (f3 & E3 & S3 & R3 & O3);
    [unfold word; lia|rewrite S2, S1, Hsz; done|rewrite O2, O1; [exact Hlast|right; done|right; done]|].
  destruct (store_field f3 (ms_plainDbAtFileNum me) (plainDbAtFileNum m) fieldOffsetPlainDbAtFileNum) as (f4 & E4 & S4 & R4 & O4);
    [done|rewrite S3, S2, S1, Hsz; done|rewrite O3, O2, O1; [exact Hat|right; done..]|].
  set (minv := if ms_minUnflushedLogNum me =? 0 then minUnflushedLogNum m else ms_minUnflushedLogNum me) in *.
  set (lastv := if logSeqNum m - 1 =? 0 then lastSeqNum m else logSeqNum m - 1) in *.
  set (atv := if ms_plainDbAtFileNum me =? 0 then plainDbAtFileNum m else ms_plainDbAtFileNum me) in *.
  assert (Hlv : lastv = logSeqNum m - 1) by (unfold lastv; destruct (Z.eqb_spec (logSeqNum m - 1) 0); lia).
  exists (mkMeta (logSeqNum m) (visibleSeqNum m) (version m) f4 lastv minv (nextFileNum m) atv).
  split.
  { destruct (Z.eqb_spec (nextFileNum m) 0); [lia|]. cbn [negb] in *.
    unfold minv, lastv, atv.
    destruct (ms_minUnflushedLogNum me =? 0), (logSeqNum m - 1 =? 0), (ms_plainDbAtFileNum me =? 0);
      cbn [negb rbind mfile logSeqNum visibleSeqNum version lastSeqNum minUnflushedLogNum nextFileNum plainDbAtFileNum] in *;
      repeat match goal with H : Ok ?x = Ok ?y |- _ => injection H as ?; subst end;
      repeat (match goal with H : WriteUInt64At _ _ _ = Ok _ |- _ => rewrite H; clear H end;
              cbn [rbind mfile logSeqNum visibleSeqNum version lastSeqNum minUnflushedLogNum nextFileNum plainDbAtFileNum]);
      by destruct m. }
  cbn [mfile logSeqNum minUnflushedLogNum nextFileNum plainDbAtFileNum lastSeqNum].
  assert (Hnext : ReadUInt64At f4 fieldOffsetNextFileNum = Ok (nextFileNum m)).
  { rewrite O4, O3, R2 by (left; done). destruct (Z.eqb_spec (nextFileNum m) 0); [lia|done]. }
  split; [|repeat split; done].
  split; cbn [mfile logSeqNum minUnflushedLogNum nextFileNum plainDbAtFileNum lastSeqNum].
  - congruence.
  - rewrite O4, O3, O2 by (left; done). exact R1.
  - rewrite O4 by (left; done). exact R3.
  - exact R4.
  - exists (nextFileNum m). split; [done|unfold word; lia].
  - unfold word, minv, atv. bdestruct_all; lia.
  - unfold minv. bdestruct_all; lia.
  - unfold word. lia.
Qed.

(** C34: an edit the manifest accepts is durable.  The oldest needed log and the
    file number of the array table are what the edit says, or as before where
    the edit leaves them 0; reopening the file gives both back, with the next
    file number, which is past every log still needed, and the sequence number
    the next write would have taken.  An edit that moves the oldest needed log
    back, or names one never handed out, is refused. *)
Theorem apply_reopen m me :
  wf m -> word (ms_minUnflushedLogNum me) -> word (ms_plainDbAtFileNum me) ->
  (ms_minUnflushedLogNum me = 0 \/ minUnflushedLogNum m <= ms_minUnflushedLogNum me < nextFileNum m ->
   exists m' m'', apply m me = Ok m' /\ openMetadata (Some (mfile m')) = Ok m'' /\ wf m'' /\
     minUnflushedLogNum m'' = minUnflushedLogNum m' /\ nextFileNum m'' = nextFileNum m /\
     plainDbAtFileNum m'' = plainDbAtFileNum m' /\ logSeqNum m'' = logSeqNum m /\
     minUnflushedLogNum m' = (if ms_minUnflushedLogNum me =? 0 then minUnflushedLogNum m else ms_minUnflushedLogNum me) /\
     plainDbAtFileNum m' = (if ms_plainDbAtFileNum me =? 0 then plainDbAtFileNum m else ms_plainDbAtFileNum me)) /\
  (ms_minUnflushedLogNum me <> 0 ->
   ms_minUnflushedLogNum me < minUnflushedLogNum m \/ nextFileNum m <= ms_minUnflushedLogNum me ->
   apply m me = Err ErrMetaInconsistent).
Proof.
  intros Hw H1 H2. split.
  - intros Hok. destruct (apply_ok m me Hw H1 H2 Hok) as (m' & Ha & Hw' & Hn & En & Es & Em & Ep & El).
    exists m'. destruct Hw' as [Hsz Hmin Hlast Hat _ Hww Hah Hsq]. unfold word in *.
    exists (mkMeta (logSeqNum m) 0 (le_get (mem_read (f_mem (mfile m')) metaHeaderOffset 2)) (mfile m') (lastSeqNum m')
              (minUnflushedLogNum m') (nextFileNum m) (plainDbAtFileNum m')).
    split; [done|]. split; [|split; [|repeat split; done]].
    + unfold openMetadata. rewrite Hsz. cbn [metaLen Z.add Z.eqb Pos.add Pos.succ].
      assert (ReadUInt16At (mfile m') metaHeaderOffset = Ok (le_get (mem_read (f_mem (mfile m')) metaHeaderOffset 2))) as ->
        by (unfold ReadUInt16At; by rewrite Hsz).
      rewrite Hmin, Hn, Hlast, Hat. cbn [rbind].
      destruct (Z.eqb_spec (nextFileNum m) 0); [lia|]. unfold markFileNumUsed. cbn [nextFileNum].
      destruct (Z.leb_spec (nextFileNum m) (minUnflushedLogNum m')); [lia|]. do 2 f_equal.
      destruct (Z.eqb_spec (lastSeqNum m') 0); cbn [negb]; [lia|]. rewrite u64_small; lia.
    + split; cbn [mfile logSeqNum minUnflushedLogNum nextFileNum plainDbAtFileNum lastSeqNum]; try done.
      * exists (nextFileNum m). split; [done|]. unfold word. lia.
      * lia.
      * unfold word. lia.
  - intros Hz Hbad. unfold apply. destruct (Z.eqb_spec (ms_minUnflushedLogNum me) 0); [done|]. cbn [negb andb].
    bdestruct_all; cbn; (done || lia).
Qed.

Lemma apply_reopen_witness :
  exists m, openMetadata None = Ok m /\
    exists m' m'', apply (fst (getNextFileNum (fst (getNextFileNum m)))) (mkSet 2 0 0 7) = Ok m' /\
      openMetadata (Some (mfile m')) = Ok m'' /\ minUnflushedLogNum m'' = 2 /\ plainDbAtFileNum m'' = 7.
Proof.
  destruct fresh_wf as (m & Hm & Hw & Hs & Hn). exists m. split; [exact Hm|].
  set (m2 := fst (getNextFileNum (fst (getNextFileNum m)))).
  assert (Hn2 : nextFileNum m2 = 3) by (cbn; by rewrite Hn).
  assert (Hw2 : wf m2).
  { pose proof (wf_ahead m Hw). split; try apply Hw. rewrite Hn2. change (minUnflushedLogNum m2) with (minUnflushedLogNum m). lia. }
  assert (Hm2 : minUnflushedLogNum m2 = minUnflushedLogNum m) by done.
  destruct (proj1 (apply_reopen m2 (mkSet 2 0 0 7) Hw2 ltac:(done) ltac:(done))) as (m' & m'' & Ha & Ho & _ & E1 & _ & E2 & _ & E3 & E4).
  { right. destruct Hw as [_ _ _ _ _ [? _] ? _]. unfold word in *. cbn [ms_minUnflushedLogNum]. rewrite Hn2, Hm2. lia. }
  exists m', m''. split; [exact Ha|]. split; [exact Ho|]. split; [rewrite E1, E3; done|]. rewrite E2, E4. done.
Defined.
End Plain.

(** ** The sequential store's sequence numbers *)

Module Sequential.

Definition smetaFieldSeqNumOffset : Z := metaFieldOffset.
Definition smetaFieldNumberGap : Z := Z.shiftl 256 10.
Definition smetaFieldNumberGapMask : Z := Z.shiftl 256 10 - 1.

Record sequentialMeta : Type := mkSMeta { sfile : file; seqNum : Z; sversion : Z }.

Definition getSeqNum (f : file) : outcome Z := ReadUInt64At f smetaFieldSeqNumOffset.

(** [openSequentialMeta]: [create] when there is no file, then [load]. *)
Definition openSequentialMeta (f : option file) : outcome sequentialMeta :=
  let f := match f with Some f => f | None => create end in
  if f_size f =? 0 then Err ErrSys else
  let! ver := ReadUInt16At f metaHeaderOffset in
  let! n := getSeqNum f in
  Ok (mkSMeta f (u64 (n + smetaFieldNumberGap)) ver).

Definition writeUint64 (m : sequentialMeta) (n pos : Z) : outcome sequentialMeta :=
  let! f := WriteUInt64At (sfile m) (u64 (n + smetaFieldNumberGap)) pos in
  Ok (mkSMeta f (seqNum m) (sversion m)).

Definition getNextSeqNum (m : sequentialMeta) : outcome (sequentialMeta * Z) :=
  let newSeqNum := u64 (seqNum m + 1) in
  let m := mkSMeta (sfile m) newSeqNum (sversion m) in
  if Z.land newSeqNum smetaFieldNumberGapMask =? 0
  then let! m := writeUint64 m newSeqNum smetaFieldSeqNumOffset in Ok (m, newSeqNum)
  else Ok (m, newSeqNum).

(** [n] numbers in a row, in the order they are handed out. *)
Fixpoint take_seqs (n : nat) (m : sequentialMeta) : outcome (sequentialMeta * list Z) :=
  match n with
  | O => Ok (m, [])
  | S n' =>
      let! (m, x) := getNextSeqNum m in
      let! (m, xs) := take_seqs n' m in
      Ok (m, x :: xs)
  end.

(** The gap is a power of two: the mask test is divisibility. *)
Lemma mask_mod x : Z.land x smetaFieldNumberGapMask = x mod smetaFieldNumberGap.
Proof.
  change smetaFieldNumberGapMask with (Z.ones 18). rewrite Z.land_ones by lia. done.
Qed.

(** An open file: the stored number [b] is a multiple of the gap, and numbers
    are handed out past it. *)
Record wf (m : sequentialMeta) (b : Z) : Prop := mkWf {
  wf_size : f_size (sfile m) = metaLen;
  wf_stored : getSeqNum (sfile m) = Ok b;
  wf_multiple : b mod smetaFieldNumberGap = 0 /\ 0 <= b
}.

(** While no boundary is crossed the file does not change. *)
Lemma take_seqs_below n m b :
  wf m b -> 0 <= seqNum m -> seqNum m / smetaFieldNumberGap = (seqNum m + Z.of_nat n) / smetaFieldNumberGap ->
  seqNum m + Z.of_nat n < 18446744073709551616 ->
  exists m' xs, take_seqs n m = Ok (m', xs) /\ sfile m' = sfile m /\
    xs = (fun i => seqNum m + 1 + Z.of_nat i) <$> seq 0 n.
Proof.
  revert m. induction n as [|n IH]; intros m Hw Hs Hd Hov; [by exists m, []|]. cbn [take_seqs].
  unfold getNextSeqNum. rewrite u64_small by lia. rewrite mask_mod.
  change smetaFieldNumberGap with 262144 in *.
  pose proof (Z.div_mod (seqNum m) 262144 ltac:(done)). pose proof (Z.mod_pos_bound (seqNum m) 262144 ltac:(done)).
  pose proof (Z.div_mod (seqNum m + Z.of_nat (S n)) 262144 ltac:(done)).
  pose proof (Z.mod_pos_bound (seqNum m + Z.of_nat (S n)) 262144 ltac:(done)).
  assert (Hd1 : (seqNum m + 1) / 262144 = seqNum m / 262144) by (symmetry; apply Z.div_unique with (r := seqNum m mod 262144 + 1); lia).
  pose proof (Z.div_mod (seqNum m + 1) 262144 ltac:(done)).
  destruct (Z.eqb_spec ((seqNum m + 1) mod 262144) 0); [lia|]. cbn [rbind].
  destruct (IH (mkSMeta (sfile m) (seqNum m + 1) (sversion m))) as (m' & xs & -> & Hf & Hxs); cbn [sfile seqNum] in *.
  - destruct Hw. by split.
  - lia.
  - rewrite Hd1, Hd. f_equal. lia.
  - lia.
  - cbn [rbind]. eexists _, _. split; [reflexivity|]. split; [done|]. rewrite Hxs. cbn [seq fmap list_fmap].
    f_equal; [lia|]. rewrite <-fmap_S_seq, <-list_fmap_compose. apply list_fmap_ext. intros. cbn. lia.
Qed.

(** Numbers are unique only inside one run: a session that hands out fewer
    than 256K of them leaves the file as it found it, so the next session
    hands out the same numbers again. *)
Theorem seqs_reissued f b n k :
  f_size f = metaLen -> getSeqNum f = Ok b -> b mod smetaFieldNumberGap = 0 -> 0 <= b ->
  b + 3 * smetaFieldNumberGap < 18446744073709551616 ->
  (Z.of_nat n < smetaFieldNumberGap) -> (k <= n)%nat ->
  exists m m' m2 m2' xs ys, openSequentialMeta (Some f) = Ok m /\ take_seqs n m = Ok (m', xs) /\
    openSequentialMeta (Some (sfile m')) = Ok m2 /\ take_seqs k m2 = Ok (m2', ys) /\ ys = take k xs /\
    NoDup xs.
Proof.
  intros Hsz Hget Hmul Hb Hov Hn Hk.
  set (m := mkSMeta f (b + smetaFieldNumberGap) (le_get (mem_read (f_mem f) metaHeaderOffset 2))).
  assert (Hopen : openSequentialMeta (Some f) = Ok m).
  { unfold openSequentialMeta. rewrite Hsz, Hget. cbn [metaLen Z.add Z.eqb Pos.add Pos.succ].
    assert (ReadUInt16At f metaHeaderOffset = Ok (le_get (mem_read (f_mem f) metaHeaderOffset 2))) as ->
      by (unfold ReadUInt16At; by rewrite Hsz).
    cbn [rbind]. rewrite u64_small; [done|]. change smetaFieldNumberGap with 262144 in *. lia. }
  assert (Hw : wf m b) by (by split).
  change smetaFieldNumberGap with 262144 in *.
  assert (Hdiv : forall j, 0 <= j < 262144 -> (b + 262144 + j) / 262144 = b / 262144 + 1).
  { intros j Hj. pose proof (Z.div_mod b 262144 ltac:(done)). symmetry. apply Z.div_unique with (r := j); lia. }
  destruct (take_seqs_below n m b Hw) as (m' & xs & Hx & Hf & Exs); cbn [seqNum m];
    [lia|change smetaFieldNumberGap with 262144; rewrite Hdiv by lia; rewrite <-(Z.add_0_r (b + 262144)); apply Hdiv; lia|lia|].
  destruct (take_seqs_below k m b Hw) as (m2' & ys & Hy & _ & Eys); cbn [seqNum m];
    [lia|change smetaFieldNumberGap with 262144; rewrite Hdiv by lia; rewrite <-(Z.add_0_r (b + 262144)); apply Hdiv; lia|lia|].
  exists m, m', m, m2', xs, ys. split; [done|]. split; [done|]. rewrite Hf. split; [done|]. split; [done|].
  rewrite Exs, Eys. split.
  - rewrite <-fmap_take. f_equal. rewrite take_seq. f_equal. lia.
  - apply NoDup_fmap_2; [intros ?? ?; lia|apply NoDup_seq].
Qed.

Lemma seqs_reissued_witness :
  exists m m' m2 m2' xs ys, openSequentialMeta (Some create) = Ok m /\ take_seqs 3 m = Ok (m', xs) /\
    openSequentialMeta (Some (sfile m')) = Ok m2 /\ take_seqs 2 m2 = Ok (m2', ys) /\ ys = take 2 xs /\ NoDup xs.
Proof.
  apply (seqs_reissued create 0 3 2); (done || lia).
Defined.
End Sequential.

(** ** The bitree's file numbers *)

Module Bitree.

Definition fieldOffsetMinUnfCompactFileNum : Z := metaFieldOffset.
Definition fieldOffsetNextFileNum : Z := fieldOffsetMinUnfCompactFileNum + 8.

Record metadata : Type := mkMeta {
  bfile : file; bversion : Z; minUnCompactFileNum : Z; nextFileNum : Z
}.

Definition openMetadata (f : option file) : outcome metadata :=
  let f := match f with Some f => f | None => create end in
  if f_size f =? 0 then Err ErrSys else
  let! ver := ReadUInt16At f metaHeaderOffset in
  let! mn := ReadUInt64At f fieldOffsetMinUnfCompactFileNum in
  let! next := ReadUInt64At f fieldOffsetNextFileNum in
  Ok (mkMeta f ver mn (if next =? 0 then 1 else next)).

Definition getNextFileNum (m : metadata) : outcome (metadata * Z) :=
  let x := nextFileNum m in
  let next := u64 (nextFileNum m + 1) in
  let! f := WriteUInt64At (bfile m) next fieldOffsetNextFileNum in
  Ok (mkMeta f (bversion m) (minUnCompactFileNum m) next, x).

Definition getMinUnCompactFileNum (m : metadata) : Z := minUnCompactFileNum m.

Definition setMinUnCompactFileNum (m : metadata) (fn : Z) : outcome metadata :=
  let! f := WriteUInt64At (bfile m) fn fieldOffsetMinUnfCompactFileNum in
  Ok (mkMeta f (bversion m) fn (nextFileNum m)).

(** The operations between two openings. *)
Inductive op : Type := OpNext | OpSetMin (fn : Z).

Definition run_op (m : metadata) (o : op) : outcome (metadata * list Z) :=
  match o with
  | OpNext => let! (m, x) := getNextFileNum m in Ok (m, [x])
  | OpSetMin fn => let! m := setMinUnCompactFileNum m fn in Ok (m, [])
  end.

Fixpoint run (ops : list op) (m : metadata) : outcome (metadata * list Z) :=
  match ops with
  | [] => Ok (m, [])
  | o :: ops' =>
      let! (m, xs) := run_op m o in
      let! (m, ys) := run ops' m in
      Ok (m, xs ++ ys)
  end.

Record wf (m : metadata) : Prop := mkWf {
  wf_size : f_size (bfile m) = metaLen;
  wf_min : ReadUInt64At (bfile m) fieldOffsetMinUnfCompactFileNum = Ok (minUnCompactFileNum m);
  wf_next : ReadUInt64At (bfile m) fieldOffsetNextFileNum = Ok (nextFileNum m) \/
            (ReadUInt64At (bfile m) fieldOffsetNextFileNum = Ok 0 /\ nextFileNum m = 1);
  wf_pos : 0 < nextFileNum m
}.

Lemma reopen m : wf m -> exists v, openMetadata (Some (bfile m)) = Ok (mkMeta (bfile m) v (minUnCompactFileNum m) (nextFileNum m)).
Proof.
  intros [Hsz Hmin Hnext Hpos]. exists (le_get (mem_read (f_mem (bfile m)) metaHeaderOffset 2)).
  unfold openMetadata. rewrite Hsz. cbn [metaLen Z.add Z.eqb Pos.add Pos.succ].
  assert (ReadUInt16At (bfile m) metaHeaderOffset = Ok (le_get (mem_read (f_mem (bfile m)) metaHeaderOffset 2))) as ->
    by (unfold ReadUInt16At; by rewrite Hsz).
  rewrite Hmin. cbn [rbind]. destruct Hnext as [->|[-> E]]; cbn [rbind].
  - destruct (Z.eqb_spec (nextFileNum m) 0); [lia|done].
  - by rewrite E.
Qed.

Definition op_ok (o : op) : Prop := match o with OpNext => True | OpSetMin fn => 0 <= fn < 18446744073709551616 end.

Lemma run_op_ok m o :
  wf m -> op_ok o -> nextFileNum m + 1 < 18446744073709551616 ->
  exists m' xs, run_op m o = Ok (m', xs) /\ wf m' /\ nextFileNum m <= nextFileNum m' <= nextFileNum m + 1 /\
    Forall (fun x => nextFileNum m <= x < nextFileNum m') xs /\ NoDup xs.
Proof.
  intros [Hsz Hmin Hnext Hpos] Ho Hov. destruct o as [|fn]; cbn [run_op op_ok] in *.
  - unfold getNextFileNum. rewrite u64_small by lia.
    destruct (read_write_same (bfile m) (nextFileNum m + 1) fieldOffsetNextFileNum) as (f & -> & S & R & O);
      [lia|rewrite Hsz; done|]. cbn [rbind]. eexists _, _. split; [reflexivity|].
    split; [split; cbn|cbn; split; [lia|]; split; [repeat constructor; lia|apply NoDup_singleton]].
    + congruence.
    + rewrite O by (left; done). done.
    + by left.
    + lia.
  - unfold setMinUnCompactFileNum.
    destruct (read_write_same (bfile m) fn fieldOffsetMinUnfCompactFileNum) as (f & -> & S & R & O);
      [lia|rewrite Hsz; done|]. cbn [rbind]. eexists _, _. split; [reflexivity|].
    split; [split; cbn|cbn; split; [lia|]; split; constructor].
    + congruence.
    + done.
    + rewrite O by (right; done). done.
    + done.
Qed.

Lemma run_ok ops m :
  wf m -> Forall op_ok ops -> nextFileNum m + len ops < 18446744073709551616 ->
  exists m' xs, run ops m = Ok (m', xs) /\ wf m' /\ nextFileNum m <= nextFileNum m' /\
    Forall (fun x => nextFileNum m <= x < nextFileNum m') xs /\ NoDup xs.
Proof.
  intros Hw Hok. revert m Hw. induction Hok as [|o ops Ho Hok IH]; intros m Hw Hov; cbn [run].
  - exists m, []. split; [done|]. split; [done|]. split; [lia|]. split; constructor.
  - rewrite len_cons in Hov. pose proof (len_nonneg ops).
    destruct (run_op_ok m o Hw Ho) as (m1 & xs & -> & Hw1 & Hle & Hx & Hnx); [lia|]. cbn [rbind].
    destruct (IH m1 Hw1) as (m2 & ys & -> & Hw2 & Hle2 & Hy & Hny); [lia|]. cbn [rbind].
    exists m2, (xs ++ ys). split; [done|]. split; [done|]. split; [lia|]. split.
    + apply Forall_app. split; eapply Forall_impl; try eassumption; cbn; lia.
    + apply NoDup_app. split; [done|]. split; [|done]. intros x Hin Hin'.
      rewrite Forall_forall in Hx, Hy. specialize (Hx x Hin). specialize (Hy x Hin'). lia.
Qed.

(** Every file number the bitree hands out is persisted before it is
    returned: across a reopening no number is handed out twice, and the compaction
    low-water mark is read back as it was last set. *)
Theorem filenums_unique f ops ops' m :
  openMetadata f = Ok m -> wf m -> Forall op_ok ops -> Forall op_ok ops' ->
  nextFileNum m + len ops + len ops' < 18446744073709551616 ->
  exists m' m2 m2' xs ys, run ops m = Ok (m', xs) /\ openMetadata (Some (bfile m')) = Ok m2 /\
    minUnCompactFileNum m2 = minUnCompactFileNum m' /\ run ops' m2 = Ok (m2', ys) /\ NoDup (xs ++ ys).
Proof.
  intros _ Hw Hok Hok' Hov. pose proof (len_nonneg ops). pose proof (len_nonneg ops').
  destruct (run_ok ops m Hw Hok) as (m' & xs & Hr & Hw' & Hle & Hx & Hnx); [lia|].
  destruct (reopen m' Hw') as (v & Ho). set (m2 := mkMeta (bfile m') v _ _) in *.
  assert (Hw2 : wf m2) by (destruct Hw'; by split).
  assert (Hb : nextFileNum m' <= nextFileNum m + len ops).
  { clear -Hr Hw Hok Hov H0. revert m Hw Hov xs Hr.
    induction Hok as [|o ops Ho Hok IH]; intros m Hw Hov xs Hr; cbn [run] in Hr.
    - injection Hr as <- _. rewrite len_nil. lia.
    - rewrite len_cons in *. pose proof (len_nonneg ops).
      destruct (run_op_ok m o Hw Ho) as (m1 & xs1 & E & Hw1 & Hle1 & _); [lia|]. rewrite E in Hr. cbn [rbind] in Hr.
      destruct (run ops m1) as [[m3 ys]| |] eqn:E3; try done. injection Hr as <- _.
      specialize (IH m1 Hw1 ltac:(lia) ys E3). lia. }
  destruct (run_ok ops' m2 Hw2 Hok') as (m2' & ys & Hr2 & Hw2' & Hle2 & Hy & Hny); [cbn; lia|].
  exists m', m2, m2', xs, ys. split; [done|]. split; [done|]. split; [done|]. split; [done|].
  apply NoDup_app. split; [done|]. split; [|done]. intros x Hin Hin'.
  rewrite Forall_forall in Hx, Hy. specialize (Hx x Hin). specialize (Hy x Hin'). cbn in Hy. lia.
Qed.

Lemma fresh_bitree_wf : exists m, openMetadata None = Ok m /\ wf m /\ nextFileNum m = 1.
Proof.
  exists (mkMeta create (le_get (mem_read (f_mem create) metaHeaderOffset 2)) 0 1).
  assert (Hz : forall p, 16 <= p -> p + 8 <= footerOffset -> ReadUInt64At create p = Ok 0) by apply create_fields.
  split; [|split; [|done]].
  - unfold openMetadata. cbn [f_size create metaLen Z.add Z.eqb Pos.add Pos.succ]. rewrite !Hz by done. done.
  - split; cbn [bfile minUnCompactFileNum nextFileNum]; rewrite ?Hz by done; try done. by right.
Qed.

Lemma filenums_unique_witness :
  exists m m' m2 m2' xs ys, openMetadata None = Ok m /\
    run [OpNext; OpSetMin 1; OpNext] m = Ok (m', xs) /\ openMetadata (Some (bfile m')) = Ok m2 /\
    minUnCompactFileNum m2 = minUnCompactFileNum m' /\ run [OpNext] m2 = Ok (m2', ys) /\ NoDup (xs ++ ys).
Proof.
  destruct fresh_bitree_wf as (m & Hm & Hw & Hn). exists m.
  destruct (filenums_unique None [OpNext; OpSetMin 1; OpNext] [OpNext] m Hm Hw) as (m' & m2 & m2' & xs & ys & H);
    [repeat constructor; lia|repeat constructor|rewrite Hn; done|].
  exists m', m2, m2', xs, ys. split; [exact Hm|exact H].
Defined.
End Bitree.
