(* ===== verification/Commit.v ===== *)
(** The commit pipeline (commit.go): batches are queued and numbered under a
    lock, applied concurrently, and published in queue order by whichever
    committer finds the oldest batch applied.

    Each call of [Commit] is a thread; the threads interleave at their atomic
    accesses, one event each.  A batch is named by its position in the order of
    enqueueing, which is also the thread that commits it.  The WaitGroup of a
    batch counts its publication and, for a synced batch, its WAL sync: the two
    flags [b_published] and [b_synced].  The write to the WAL and the memtable
    may fail, as may the application. *)

From Stdlib Require Import ZArith Lia.
From stdpp Require Import base numbers option relations list.
From S2P Require Import Prelude Base.

(** *** The queue's packed indices *)

Definition dequeueBits : Z := 32.
Definition SyncConcurrency : Z := Z.shiftl 1 9.

Definition unpack (ptrs : Z) : Z * Z :=
  let mask := Z.shiftl 1 dequeueBits - 1 in
  (u32 (Z.land (Z.shiftr ptrs dequeueBits) mask), u32 (Z.land ptrs mask)).

Definition pack (head tail : Z) : Z :=
  let mask := Z.shiftl 1 dequeueBits - 1 in
  Z.lor (u64 (Z.shiftl head dequeueBits)) (Z.land tail mask).

Definition slot_of (i : Z) : nat := Z.to_nat (Z.land i (SyncConcurrency - 1)).

(** Where a committer stands: in [enqueue] and [prepare] ([Stored], [Queued]),
    between [prepare] and [publish] ([Written]), in the loop of [publish] and of
    [dequeue], waiting, or returned. *)
Inductive pc : Type :=
| Stored
| Queued
| Written
| Publishing
| Loaded (h t : Z)
| Checked (h t : Z) (b : nat)
| Clearing (t : Z) (b : nat)
| Visible (b : nat)
| VisLoaded (b : nat) (cur : Z)
| Waiting
| Done
| Failed.

Record batchSt : Type := mkBS {
  b_seq : Z; b_count : Z; b_applied : bool; b_published : bool; b_synced : bool; b_pc : pc
}.

Record pipeline : Type := mkP {
  headTail : Z;
  slots : list (option nat);
  locked : option nat;
  logSeqNum : Z;
  visibleSeqNum : Z;
  bs : list batchSt
}.

Definition newCommitPipeline (logSeq visible : Z) : pipeline :=
  mkP 0 (replicate (Z.to_nat SyncConcurrency) None) None logSeq visible [].

Definition with_pc (b : batchSt) (c : pc) : batchSt :=
  mkBS (b_seq b) (b_count b) (b_applied b) (b_published b) (b_synced b) c.

Definition set_b (p : pipeline) (i : nat) (b : batchSt) : pipeline :=
  mkP (headTail p) (slots p) (locked p) (logSeqNum p) (visibleSeqNum p) (<[i := b]> (bs p)).

Definition set_pc (p : pipeline) (i : nat) (b : batchSt) (c : pc) : pipeline := set_b p i (with_pc b c).

(** Committers holding a slot of the semaphore: returning gives it back, with
    or without an error. *)
Definition in_flight (b : batchSt) : bool :=
  match b_pc b with Done | Failed => false | _ => true end.

Definition active (p : pipeline) : nat := length (filter (fun b => in_flight b = true) (bs p)).

(** The test of [enqueue] that panics. *)
Definition enqueue_panics (p : pipeline) : bool :=
  let '(head, tail) := unpack (headTail p) in
  Z.land (u32 (tail + SyncConcurrency)) (Z.shiftl 1 dequeueBits - 1) =? head.

Inductive event : Type :=
| EvStart (count : Z) (sync : bool)
| EvHead (i : nat)
| EvWrite (i : nat) (ok : bool)
| EvApply (i : nat) (ok : bool)
| EvLoad (i : nat)
| EvCheck (i : nat)
| EvCas (i : nat)
| EvClear (i : nat)
| EvVisLoad (i : nat)
| EvVisCas (i : nat)
| EvSync (i : nat)
| EvFinish (i : nat).

(** [Commit] up to the store of the slot: the semaphore, the check of the count,
    the lock, the test that panics and the spin on the slot. *)
Definition start (p : pipeline) (count : Z) (sync : bool) : option pipeline :=
  if (Z.of_nat (active p) <? SyncConcurrency - 1) && negb (count =? Z.shiftl 1 32 - 1) && negb (enqueue_panics p) then
    match locked p, slots p !! slot_of (fst (unpack (headTail p))) with
    | None, Some None =>
        let i := length (bs p) in
        Some (mkP (headTail p) (<[slot_of (fst (unpack (headTail p))) := Some i]> (slots p)) (Some i)
                (logSeqNum p) (visibleSeqNum p)
                (bs p ++ [mkBS 0 count false false (negb sync) Stored]))
    | _, _ => None
    end
  else None.

(** [t.commit.Done()] at the end of a round of [publish]. *)
Definition mark_published (p : pipeline) (x : nat) : pipeline :=
  match bs p !! x with
  | Some b => set_b p x (mkBS (b_seq b) (b_count b) (b_applied b) true (b_synced b) (b_pc b))
  | None => p
  end.

(** One atomic step of the committer [i]; [None] when it is not enabled. *)
Definition exec_at (p : pipeline) (i : nat) (b : batchSt) (e : event) : option pipeline :=
  match e, b_pc b with
  | EvHead _, Stored =>
      Some (mkP (u64 (headTail p + Z.shiftl 1 dequeueBits)) (slots p) (locked p) (logSeqNum p) (visibleSeqNum p)
              (<[i := with_pc b Queued]> (bs p)))
  | EvWrite _ ok, Queued =>
      let n := b_count b in
      let seq' := u64 (logSeqNum p + n) in
      Some (mkP (headTail p) (slots p) None seq' (visibleSeqNum p)
              (<[i := mkBS (u64 (seq' - n)) n (b_applied b) (b_published b) (b_synced b)
                        (if ok then Written else Failed)]> (bs p)))
  | EvApply _ ok, Written =>
      Some (set_b p i (mkBS (b_seq b) (b_count b) ok (b_published b) (b_synced b)
                         (if ok then Publishing else Failed)))
  | EvLoad _, Publishing =>
      let '(head, tail) := unpack (headTail p) in
      Some (set_pc p i b (if tail =? head then Waiting else Loaded head tail))
  | EvCheck _, Loaded head tail =>
      match slots p !! slot_of tail with
      | Some (Some x) =>
          match bs p !! x with
          | Some bx => Some (set_pc p i b (if b_applied bx then Checked head tail x else Waiting))
          | None => None
          end
      | _ => Some (set_pc p i b Waiting)
      end
  | EvCas _, Checked head tail x =>
      if headTail p =? pack head tail
      then Some (mkP (pack head (u32 (tail + 1))) (slots p) (locked p) (logSeqNum p) (visibleSeqNum p)
                   (<[i := with_pc b (Clearing tail x)]> (bs p)))
      else Some (set_pc p i b Publishing)
  | EvClear _, Clearing tail x =>
      Some (mkP (headTail p) (<[slot_of tail := None]> (slots p)) (locked p) (logSeqNum p) (visibleSeqNum p)
              (<[i := with_pc b (Visible x)]> (bs p)))
  | EvVisLoad _, Visible x =>
      match bs p !! x with
      | Some bx =>
          if u64 (b_seq bx + b_count bx) <=? visibleSeqNum p
          then Some (mark_published (set_pc p i b Publishing) x)
          else Some (set_pc p i b (VisLoaded x (visibleSeqNum p)))
      | None => None
      end
  | EvVisCas _, VisLoaded x cur =>
      match bs p !! x with
      | Some bx =>
          if visibleSeqNum p =? cur
          then Some (mark_published (set_pc (mkP (headTail p) (slots p) (locked p) (logSeqNum p)
                       (u64 (b_seq bx + b_count bx)) (bs p)) i b Publishing) x)
          else Some (set_pc p i b (Visible x))
      | None => None
      end
  | EvFinish _, Waiting => if b_published b && b_synced b then Some (set_pc p i b Done) else None
  | _, _ => None
  end.

Definition exec (p : pipeline) (e : event) : option pipeline :=
  match e with
  | EvStart count sync => start p count sync
  | EvSync i =>
      match bs p !! i with
      | Some b => Some (set_b p i (mkBS (b_seq b) (b_count b) (b_applied b) (b_published b) true (b_pc b)))
      | None => None
      end
  | EvHead i | EvWrite i _ | EvApply i _ | EvLoad i | EvCheck i | EvCas i | EvClear i
  | EvVisLoad i | EvVisCas i | EvFinish i =>
      match bs p !! i with Some b => exec_at p i b e | None => None end
  end.

(** The states the pipeline reaches from its opening. *)
Inductive reachable (s0 v0 : Z) : pipeline -> Prop :=
| reach_init : reachable s0 v0 (newCommitPipeline s0 v0)
| reach_step p e p' : reachable s0 v0 p -> exec p e = Some p' -> reachable s0 v0 p'.

(** ** The invariant *)

Lemma pack_val h t :
  0 <= h < 4294967296 -> 0 <= t < 4294967296 -> pack h t = t + h * 4294967296.
Proof.
  intros Hh Ht. unfold pack, dequeueBits. change (Z.shiftl 1 32 - 1) with (Z.ones 32).
  rewrite Z.land_ones by lia. change (2 ^ 32) with 4294967296. rewrite Z.mod_small by lia.
  rewrite u64_small by (rewrite Z.shiftl_mul_pow2 by lia; change (2 ^ 32) with 4294967296; lia).
  rewrite Z.lor_comm. by apply lor_shiftl_add.
Qed.

Lemma unpack_pack h t :
  0 <= h < 4294967296 -> 0 <= t < 4294967296 -> unpack (t + h * 4294967296) = (h, t).
Proof.
  intros Hh Ht. unfold unpack, dequeueBits. change (Z.shiftl 1 32 - 1) with (Z.ones 32).
  rewrite !Z.land_ones, Z.shiftr_div_pow2 by lia. change (2 ^ 32) with 4294967296.
  rewrite Z.div_add, Z.div_small, Z.add_0_l by lia. rewrite Z.mod_add, !Z.mod_small by lia.
  by rewrite !u32_small by lia.
Qed.

(** The sequence number the [i]-th batch starts at. *)
Definition start_at (s0 : Z) (l : list batchSt) (i : nat) : Z :=
  s0 + foldr (fun b n => b_count b + n) 0 (take i l).

Lemma start_at_S s0 l i b :
  l !! i = Some b -> start_at s0 l (S i) = start_at s0 l i + b_count b.
Proof.
  intros H. unfold start_at. rewrite (take_S_r _ _ _ H), foldr_app. cbn [foldr].
  enough (forall k n, foldr (fun b n => b_count b + n) n k = foldr (fun b n => b_count b + n) 0 k + n) as E
    by (rewrite E; lia).
  intros k n. induction k as [|x k IH]; cbn [foldr]; lia.
Qed.

Lemma start_at_mono s0 l i j :
  Forall (fun b => 0 <= b_count b) l -> (i <= j)%nat -> start_at s0 l i <= start_at s0 l j.
Proof.
  intros HF Hij. induction Hij as [|j Hij IH]; [done|].
  destruct (l !! j) as [b|] eqn:E.
  - rewrite (start_at_S _ _ _ _ E). rewrite Forall_forall in HF. specialize (HF b (list_elem_of_lookup_2 _ _ _ E)). lia.
  - etransitivity; [exact IH|]. unfold start_at. apply lookup_ge_None in E. rewrite !take_ge by lia. done.
Qed.

(** Only the counts of the batches matter, and earlier ones keep theirs. *)
Lemma start_at_counts s0 l l' i :
  take i (b_count <$> l) = take i (b_count <$> l') -> start_at s0 l i = start_at s0 l' i.
Proof.
  rewrite <-!fmap_take. unfold start_at. intros H. f_equal. revert H. generalize (take i l) (take i l').
  intros k. induction k as [|x k IH]; intros [|y k'] H; try done. injection H as H1 H2. cbn [foldr]. rewrite (IH _ H2). lia.
Qed.

(** What is known of a committer from where it stands. *)
Definition pc_ok (s0 : Z) (p : pipeline) (h t i : nat) (published : bool) (c : pc) : Prop :=
  match c with
  | Stored | Queued => locked p = Some i
  | Loaded hh tl => 0 <= tl < hh /\ hh <= Z.of_nat h /\ tl <= Z.of_nat t
  | Checked hh tl x => 0 <= tl < hh /\ hh <= Z.of_nat h /\ tl <= Z.of_nat t /\
      (tl = Z.of_nat t -> x = t /\ exists bx, bs p !! x = Some bx /\ b_applied bx = true)
  | Clearing tl x => tl = Z.of_nat x /\ (x < t)%nat /\ slots p !! slot_of tl = Some (Some x)
  | Visible x => (x < t)%nat
  | VisLoaded x cur => (x < t)%nat /\ (x < length (bs p))%nat /\ cur < start_at s0 (bs p) (S x)
  | Done => published = true
  | _ => True
  end.

Definition thread_ok (s0 : Z) (p : pipeline) (h t i : nat) (b : batchSt) : Prop :=
  (b_pc b = Stored <-> i = h) /\
  (b_pc b <> Stored -> b_pc b <> Queued -> b_seq b = start_at s0 (bs p) i) /\
  ((i < t)%nat -> b_applied b = true) /\
  (b_applied b = true -> b_pc b <> Stored /\ b_pc b <> Queued /\ b_pc b <> Written /\ b_pc b <> Failed) /\
  (b_published b = true -> (i < t)%nat /\ start_at s0 (bs p) (S i) <= visibleSeqNum p) /\
  pc_ok s0 p h t i (b_published b) (b_pc b).

Record inv (s0 : Z) (p : pipeline) (h t : nat) : Prop := mkInv {
  i_ht : headTail p = Z.of_nat t + Z.of_nat h * 4294967296;
  i_ord : (t <= h)%nat /\ (h <= length (bs p) <= S h)%nat;
  i_slots : length (slots p) = Z.to_nat SyncConcurrency;
  i_queue : forall i, (t <= i < length (bs p))%nat -> slots p !! slot_of (Z.of_nat i) = Some (Some i);
  i_lock : match locked p with
           | None => length (bs p) = h
           | Some j => S j = length (bs p) /\ exists b, bs p !! j = Some b /\ (b_pc b = Stored \/ b_pc b = Queued)
           end;
  i_log : logSeqNum p = start_at s0 (bs p) (match locked p with None => length (bs p) | Some j => j end);
  i_vis : visibleSeqNum p <= start_at s0 (bs p) t;
  i_threads : forall i b, bs p !! i = Some b -> thread_ok s0 p h t i b;
  i_clear : forall i j b c x tl tl', bs p !! i = Some b -> bs p !! j = Some c ->
    b_pc b = Clearing tl x -> b_pc c = Clearing tl' x -> i = j
}.

(** The counters stay in their widths: fewer than 2^32 commits, sequence numbers
    below 2^64. *)
Definition bounded (s0 : Z) (p : pipeline) : Prop :=
  (Z.of_nat (length (bs p)) < 4294967295) /\ Forall (fun b => 0 <= b_count b) (bs p) /\
  0 <= s0 /\ start_at s0 (bs p) (length (bs p)) < 18446744073709551616.

(** A step keeps the counts of the batches, or adds one. *)
Lemma mark_published_counts p x : b_count <$> bs (mark_published p x) = b_count <$> bs p.
Proof.
  unfold mark_published. destruct (bs p !! x) as [b|] eqn:E; [|done]. cbn [bs set_b].
  rewrite list_fmap_insert. cbn [b_count]. apply list_insert_id. by rewrite list_lookup_fmap, E.
Qed.

Lemma insert_counts (l : list batchSt) i b b' :
  l !! i = Some b -> b_count b' = b_count b -> b_count <$> <[i := b']> l = b_count <$> l.
Proof.
  intros E H. rewrite list_fmap_insert. apply list_insert_id. by rewrite list_lookup_fmap, E, H.
Qed.

Lemma exec_counts p e p' :
  exec p e = Some p' -> b_count <$> bs p' = b_count <$> bs p \/
    exists n, b_count <$> bs p' = (b_count <$> bs p) ++ [n].
Proof.
  intros H. destruct e as [n sync|i|i ok|i ok|i|i|i|i|i|i|i|i]; cbn [exec] in H.
  1: { right. unfold start in H. repeat case_match; simplify_eq. exists n. cbn [bs]. by rewrite fmap_app. }
  all: destruct (bs p !! i) as [b|] eqn:Eb; [|done]; left; unfold exec_at in H;
    repeat case_match; simplify_eq; rewrite ?mark_published_counts; cbn [bs set_pc set_b];
    (by apply (insert_counts _ _ b)) || done.
Qed.

Lemma exec_bounded s0 p e p' : exec p e = Some p' -> bounded s0 p' -> bounded s0 p.
Proof.
  intros H (H1 & H2 & H3 & H4).
  assert (HF : forall l, Forall (fun b => 0 <= b_count b) l <-> Forall (fun n => 0 <= n) (b_count <$> l))
    by (intros; by rewrite Forall_fmap).
  assert (Hlen : forall l, length l = length (b_count <$> l)) by (intros; by rewrite length_fmap).
  rewrite HF in H2. destruct (exec_counts p e p' H) as [E|[n E]].
  - assert (Hl : length (bs p') = length (bs p)) by (rewrite (Hlen (bs p')), E, <-Hlen; done).
    rewrite E in H2. split; [lia|]. split; [by apply HF|]. split; [done|].
    rewrite (start_at_counts s0 (bs p) (bs p')) by (by rewrite E). by rewrite <-Hl.
  - assert (Hl : length (bs p') = S (length (bs p)))
      by (rewrite (Hlen (bs p')), E, length_app, <-Hlen; cbn; lia).
    pose proof H2 as H2'. rewrite E in H2. apply Forall_app in H2 as [H2 _].
    split; [lia|]. split; [by apply HF|]. split; [done|].
    rewrite (start_at_counts s0 (bs p) (bs p')).
    + eapply Z.le_lt_trans; [|exact H4]. apply start_at_mono; [by apply HF|lia].
    + rewrite E, (take_app_le _ _ _) by (rewrite length_fmap; lia). done.
Qed.

(** ** Preservation *)

Lemma slot_of_lt i : (slot_of i < Z.to_nat SyncConcurrency)%nat.
Proof.
  unfold slot_of. change (SyncConcurrency - 1) with (Z.ones 9). rewrite Z.land_ones by lia.
  change SyncConcurrency with 512. pose proof (Z.mod_pos_bound i (2 ^ 9) ltac:(done)).
  change (2 ^ 9) with 512 in *. lia.
Qed.

(** A committer that does not move keeps what is known of it while the globals
    advance. *)
Lemma thread_ok_mono s0 p p' h t h' t' j c :
  thread_ok s0 p h t j c -> (j < length (bs p))%nat -> (length (bs p) <= length (bs p'))%nat ->
  (forall k, (k <= length (bs p))%nat -> start_at s0 (bs p') k = start_at s0 (bs p) k) ->
  (h <= h')%nat -> (t <= t')%nat -> visibleSeqNum p <= visibleSeqNum p' ->
  (b_pc c = Stored <-> j = h') -> (b_pc c = Stored \/ b_pc c = Queued -> locked p' = Some j) ->
  ((j < t')%nat -> b_applied c = true) ->
  (forall tl x, b_pc c = Clearing tl x -> slots p' !! slot_of tl = Some (Some x)) ->
  (forall x bx, bs p !! x = Some bx -> b_applied bx = true ->
     exists bx', bs p' !! x = Some bx' /\ b_applied bx' = true) ->
  thread_ok s0 p' h' t' j c.
Proof.
  intros (T1 & T2 & T3 & T4 & T5 & T6) Hj Hll Hst Hh Ht Hv Hs Hl Ha Hc Hb.
  split; [done|]. split; [intros; rewrite Hst by lia; auto|]. split; [done|]. split; [done|].
  split; [intros Hp; destruct (T5 Hp); split; [lia|]; rewrite Hst by lia; lia|].
  unfold pc_ok in *. destruct (b_pc c) eqn:Epc; try done; try (by apply Hl; auto); try lia.
  - destruct T6 as (? & ? & ? & T). split; [lia|]. split; [lia|]. split; [lia|].
    intros E. assert (Et : t' = t) by lia. rewrite Et in *.
    destruct T as (-> & bx & Hx & Hxa); [lia|]. split; [done|]. by apply (Hb t bx).
  - destruct T6 as (-> & ? & _). split; [done|]. split; [lia|]. by eapply Hc.
  - destruct T6 as (? & ? & ?). rewrite Hst by lia. lia.
Qed.

(** The side conditions of [thread_ok_mono] from the committer's own clause. *)
Ltac mono_side T6 :=
  cbn [set_b headTail slots locked logSeqNum visibleSeqNum bs];
  first [ done | lia | eauto; fail | rewrite ?length_insert, ?length_app; lia
        | intros [E|E]; rewrite E in T6; exact T6
        | intros ? ? E; rewrite E in T6; cbn [pc_ok] in T6; tauto ].

Lemma inv_lookup_lt s0 p h t i b : inv s0 p h t -> bs p !! i = Some b -> (i < length (bs p))%nat.
Proof. intros _ H. by apply lookup_lt_Some in H. Qed.

(** Updating a batch without clearing its flag keeps the applied ones. *)
Lemma applied_insert (l : list batchSt) i b b' x bx :
  l !! i = Some b -> (b_applied b = true -> b_applied b' = true) ->
  l !! x = Some bx -> b_applied bx = true ->
  exists bx', <[i := b']> l !! x = Some bx' /\ b_applied bx' = true.
Proof.
  intros Eb Happ Hx Ha. destruct (decide (x = i)) as [->|Hne].
  - rewrite list_lookup_insert_eq by (by eapply lookup_lt_Some). exists b'. split; [done|]. apply Happ. congruence.
  - rewrite list_lookup_insert_ne by done. eauto.
Qed.

(** A batch of an updated list is the new one or an old one. *)
Lemma insert_cases (l : list batchSt) i b' j c :
  <[i := b']> l !! j = Some c -> (j = i /\ c = b') \/ (j <> i /\ l !! j = Some c).
Proof.
  intros H. apply list_lookup_insert_Some in H as [(-> & -> & _)|[? ?]]; [by left|right]. done.
Qed.

Definition moving (c : pc) : Prop := c <> Stored /\ c <> Queued.

(** Moving one committer past the lock. *)
Lemma thread_ok_move s0 p h t i b c :
  thread_ok s0 p h t i b -> moving (b_pc b) -> moving c ->
  (b_applied b = true -> c <> Written /\ c <> Failed) ->
  pc_ok s0 p h t i (b_published b) c -> thread_ok s0 p h t i (with_pc b c).
Proof.
  intros (T1 & T2 & T3 & T4 & T5 & T6) [M1 M2] [N1 N2] Ha Hc.
  unfold thread_ok. cbn [with_pc b_pc b_seq b_applied b_published].
  split; [split; [done|intros E; by apply T1 in E]|]. split; [auto|]. split; [done|]. split; [|done].
  intros Hb. destruct (Ha Hb). done.
Qed.

(** A step of one committer that leaves the globals alone. *)
Lemma inv_local s0 p h t i b b' :
  inv s0 p h t -> bs p !! i = Some b -> b_count b' = b_count b ->
  (b_applied b = true -> b_applied b' = true) ->
  (b_pc b' = b_pc b \/ (moving (b_pc b) /\ moving (b_pc b'))) ->
  thread_ok s0 p h t i b' ->
  (forall tl x, b_pc b' = Clearing tl x -> b_pc b = Clearing tl x) ->
  inv s0 (set_b p i b') h t.
Proof.
  intros Hi Eb Hcnt Happ Hpc Hok Hcl. destruct Hi as [I1 I2 I3 I4 I5 I6 I7 I8 I9].
  assert (Hst : forall k, start_at s0 (<[i := b']> (bs p)) k = start_at s0 (bs p) k)
    by (intros k; apply start_at_counts; by rewrite (insert_counts _ _ b)).
  assert (Hap : forall x bx, bs p !! x = Some bx -> b_applied bx = true ->
     exists bx', <[i := b']> (bs p) !! x = Some bx' /\ b_applied bx' = true).
  { intros x bx. by apply (applied_insert _ _ b). }
  split; cbn [set_b headTail slots locked logSeqNum visibleSeqNum bs]; rewrite ?length_insert, ?Hst; try done.
  - destruct (locked p) as [j|]; [|done]. destruct I5 as (H1 & b0 & H2 & H3). split; [done|].
    destruct (decide (j = i)) as [->|Hne].
    + exists b'. rewrite list_lookup_insert_eq by (by eapply lookup_lt_Some). split; [done|].
      assert (b0 = b) as -> by congruence. destruct Hpc as [->|[[]]]; tauto.
    + exists b0. by rewrite list_lookup_insert_ne.
  - intros j c Hj.
    assert (Hc : thread_ok s0 p h t j c).
    { destruct (decide (j = i)) as [->|Hne].
      - rewrite list_lookup_insert_eq in Hj by (by eapply lookup_lt_Some). by injection Hj as <-.
      - rewrite list_lookup_insert_ne in Hj by done. by apply I8. }
    pose proof Hc as (T1 & _ & T3 & _ & _ & T6). apply lookup_lt_Some in Hj. rewrite length_insert in Hj.
    eapply thread_ok_mono; [exact Hc|..]; by mono_side T6.
  - intros j k c d x tl tl' Hj Hk Ej Ek. 
    assert (Hback : forall m e tm, <[i:=b']> (bs p) !! m = Some e -> b_pc e = Clearing tm x ->
       exists e0, bs p !! m = Some e0 /\ b_pc e0 = Clearing tm x).
    { intros m e tm Hm Em. destruct (decide (m = i)) as [->|Hne].
      - rewrite list_lookup_insert_eq in Hm by (by eapply lookup_lt_Some). injection Hm as <-. exists b. split; [done|]. by apply Hcl.
      - rewrite list_lookup_insert_ne in Hm by done. by exists e. }
    destruct (Hback j c tl Hj Ej) as (c0 & Hc0 & Ec0). destruct (Hback k d tl' Hk Ek) as (d0 & Hd0 & Ed0).
    by eapply I9.
Qed.

(** Raising the visible sequence number up to the start of the oldest queued
    batch. *)
Lemma inv_vis s0 p h t v :
  inv s0 p h t -> visibleSeqNum p <= v <= start_at s0 (bs p) t ->
  inv s0 (mkP (headTail p) (slots p) (locked p) (logSeqNum p) v (bs p)) h t.
Proof.
  intros [I1 I2 I3 I4 I5 I6 I7 I8 I9] Hv. split; cbn; try done; [lia|].
  intros i b Hb. pose proof (I8 i b Hb) as Hok. pose proof Hok as (T1 & _ & T3 & _ & _ & T6).
  apply lookup_lt_Some in Hb. eapply thread_ok_mono; [exact Hok|..]; by mono_side T6.
Qed.

(** Publishing a batch whose end is visible. *)
Lemma inv_published s0 p h t x :
  inv s0 p h t -> (x < t)%nat -> start_at s0 (bs p) (S x) <= visibleSeqNum p ->
  inv s0 (mark_published p x) h t.
Proof.
  intros Hi Hx Hv. unfold mark_published. destruct (bs p !! x) as [b|] eqn:E; [|done].
  pose proof (i_threads _ _ _ _ Hi x b E) as (T1 & T2 & T3 & T4 & T5 & T6).
  apply (inv_local s0 p h t x b); try done; [by left|].
  repeat split; cbn [b_pc b_seq b_applied b_published b_synced b_count]; try tauto.
  unfold pc_ok in *. destruct (b_pc b); done.
Qed.

Section Globals.
Context (s0 : Z) (p : pipeline) (h t : nat).
Context (Hi : inv s0 p h t) (Hbd : bounded s0 p).

Lemma inv_widths : 0 <= Z.of_nat t <= Z.of_nat h /\ Z.of_nat h < 4294967295.
Proof. destruct Hi as [_ I2 _ _ _ _ _ _ _]. destruct Hbd as (H1 & _). lia. Qed.

Lemma inv_unpack : unpack (headTail p) = (Z.of_nat h, Z.of_nat t).
Proof. pose proof inv_widths. rewrite (i_ht _ _ _ _ Hi). apply unpack_pack; lia. Qed.

(** The successful compare-and-swap takes the oldest batch. *)
Lemma inv_cas i b hh tl x :
  bs p !! i = Some b -> b_pc b = Checked hh tl x -> headTail p = pack hh tl ->
  inv s0 (mkP (pack hh (u32 (tl + 1))) (slots p) (locked p) (logSeqNum p) (visibleSeqNum p)
            (<[i := with_pc b (Clearing tl x)]> (bs p))) h (S t).
Proof.
  intros Eb Epc Eht. pose proof inv_widths as Hw. destruct Hbd as (Hlen & HF & _).
  pose proof (i_threads _ _ _ _ Hi i b Eb) as (T1 & T2 & T3 & T4 & T5 & T6). rewrite Epc in T6.
  destruct T6 as (Q1 & Q2 & Q3 & Q4). destruct Hi as [I1 I2 I3 I4 I5 I6 I7 I8 I9].
  rewrite pack_val in Eht by lia. rewrite I1 in Eht.
  assert (hh = Z.of_nat h) as -> by lia. assert (tl = Z.of_nat t) as -> by lia.
  destruct (Q4 eq_refl) as (-> & bx & Ebx & Happ). assert (t < h)%nat by lia.
  assert (Hst : forall k, start_at s0 (<[i := with_pc b (Clearing (Z.of_nat t) t)]> (bs p)) k = start_at s0 (bs p) k)
    by (intros k; apply start_at_counts; by rewrite (insert_counts _ _ b)).
  assert (Hapt : forall c, bs p !! t = Some c -> b_applied c = true) by (intros c Hc; congruence).
  split; cbn [headTail slots locked logSeqNum visibleSeqNum bs]; rewrite ?length_insert, ?Hst; try done.
  - rewrite pack_val by (rewrite ?u32_small; lia). rewrite u32_small by lia. lia.
  - lia.
  - intros k Hk. apply I4. lia.
  - destruct (locked p) as [j|]; [|done]. destruct I5 as (L1 & b0 & L2 & L3). split; [done|]. exists b0.
    split; [|done]. rewrite list_lookup_insert_ne; [done|]. intros ->. assert (b0 = b) as -> by congruence.
    rewrite Epc in L3. by destruct L3.
  - etransitivity; [exact I7|]. apply start_at_mono; [done|lia].
  - intros j c Hj. destruct (decide (j = i)) as [->|Hne].
    + rewrite list_lookup_insert_eq in Hj by (by eapply lookup_lt_Some). injection Hj as <-.
      unfold thread_ok. cbn [b_pc with_pc b_seq b_applied b_published b_count bs locked slots visibleSeqNum]. rewrite !Hst.
      rewrite Epc in *. split; [split; [done|intros ->; by destruct T1 as [_ T1']; discriminate T1']|].
      split; [intros; by apply T2|]. split; [intros Hlt; destruct (decide (i = t)) as [->|]; [by apply Hapt|apply T3; lia]|].
      split; [intros; by repeat split|]. split; [intros Hp; destruct (T5 Hp); split; [lia|done]|].
      split; [done|]. split; [lia|]. apply I4. lia.
    + rewrite list_lookup_insert_ne in Hj by done. pose proof (I8 j c Hj) as Hc.
      pose proof Hc as (U1 & _ & U3 & _ & _ & U6). pose proof (lookup_lt_Some _ _ _ Hj).
      assert (Hja : (j < S t)%nat -> b_applied c = true).
      { intros Hlt. destruct (decide (j = t)) as [->|]; [by apply Hapt|apply U3; lia]. }
      eapply thread_ok_mono; [exact Hc|..]; try by mono_side U6.
      intros y by_. by apply (applied_insert _ _ b).
  - intros j k c d y tj tk Hj Hk Ej Ek.
    destruct (decide (j = i)) as [->|Hj'], (decide (k = i)) as [->|Hk']; [done|exfalso..|].
    + rewrite list_lookup_insert_eq in Hj by (by eapply lookup_lt_Some). injection Hj as <-. injection Ej as <- <-.
      rewrite list_lookup_insert_ne in Hk by done. destruct (I8 k d Hk) as (_ & _ & _ & _ & _ & U6). rewrite Ek in U6. cbn in U6. lia.
    + rewrite list_lookup_insert_eq in Hk by (by eapply lookup_lt_Some). injection Hk as <-. injection Ek as <- <-.
      rewrite list_lookup_insert_ne in Hj by done. destruct (I8 j c Hj) as (_ & _ & _ & _ & _ & U6). rewrite Ej in U6. cbn in U6. lia.
    + rewrite list_lookup_insert_ne in Hj by done. rewrite list_lookup_insert_ne in Hk by done. by eapply I9.
Qed.

(** Clearing the slot of a batch already taken. *)
Lemma inv_clear i b tl x :
  bs p !! i = Some b -> b_pc b = Clearing tl x ->
  inv s0 (mkP (headTail p) (<[slot_of tl := None]> (slots p)) (locked p) (logSeqNum p) (visibleSeqNum p)
            (<[i := with_pc b (Visible x)]> (bs p))) h t.
Proof.
  intros Eb Epc. pose proof (i_threads _ _ _ _ Hi i b Eb) as (T1 & T2 & T3 & T4 & T5 & T6).
  rewrite Epc in T6. destruct T6 as (-> & Hx & Hsl).
  pose proof (i_clear _ _ _ _ Hi) as I9. pose proof (i_threads _ _ _ _ Hi) as I8.
  assert (Hloc : inv s0 (set_b p i (with_pc b (Visible x))) h t).
  { apply (inv_local s0 p h t i b); try done.
    - right. rewrite Epc. by repeat split.
    - apply thread_ok_move; try done; [by apply I8|rewrite Epc; by split]. }
  destruct Hloc as [J1 J2 J3 J4 J5 J6 J7 J8 J9]. cbn [set_b headTail slots locked logSeqNum visibleSeqNum bs] in *.
  split; cbn [headTail slots locked logSeqNum visibleSeqNum bs]; try done.
  - by rewrite length_insert.
  - intros k Hk. specialize (J4 k Hk). rewrite list_lookup_insert_ne; [done|]. intros E. rewrite E in Hsl.
    rewrite Hsl in J4. injection J4 as ->. lia.
  - intros j c Hj. pose proof (J8 j c Hj) as Hc. pose proof Hc as (U1 & _ & U3 & _ & _ & U6).
    pose proof (lookup_lt_Some _ _ _ Hj) as Hjl.
    assert (Hcl : forall tl y, b_pc c = Clearing tl y -> <[slot_of (Z.of_nat x):=None]> (slots p) !! slot_of tl = Some (Some y)).
    { intros tl y Ey. rewrite Ey in U6. destruct U6 as (-> & Hy & Hys). cbn [set_b slots] in Hys.
      rewrite list_lookup_insert_ne; [done|]. intros E. rewrite E, Hys in Hsl. injection Hsl as ->.
      apply insert_cases in Hj as [[-> ->]|[Hne Hj]]; [done|]. apply Hne. by eapply I9. }
    eapply thread_ok_mono; [exact Hc|..]; by mono_side U6.
Qed.

(** Advancing the head over the stored slot. *)
Lemma inv_head i b :
  bs p !! i = Some b -> b_pc b = Stored ->
  inv s0 (mkP (u64 (headTail p + Z.shiftl 1 dequeueBits)) (slots p) (locked p) (logSeqNum p) (visibleSeqNum p)
            (<[i := with_pc b Queued]> (bs p))) (S h) t.
Proof.
  intros Eb Epc. pose proof inv_widths as Hw. pose proof (lookup_lt_Some _ _ _ Eb) as Hlt.
  pose proof (i_threads _ _ _ _ Hi i b Eb) as (T1 & T2 & T3 & T4 & T5 & T6).
  rewrite Epc in T1, T2, T4, T6. assert (i = h) as Eih by tauto.
  destruct Hi as [I1 I2 I3 I4 I5 I6 I7 I8 I9]. destruct Hbd as (Hlen & _).
  assert (Hst : forall k, start_at s0 (<[i := with_pc b Queued]> (bs p)) k = start_at s0 (bs p) k)
    by (intros k; apply start_at_counts; by rewrite (insert_counts _ _ b)).
  split; cbn [headTail slots locked logSeqNum visibleSeqNum bs]; rewrite ?length_insert, ?Hst; try done.
  - rewrite I1. change (Z.shiftl 1 dequeueBits) with 4294967296. rewrite u64_small; lia.
  - lia.
  - rewrite T6 in *. destruct I5 as (L1 & _). split; [done|]. exists (with_pc b Queued).
    rewrite list_lookup_insert_eq by done. split; [done|by right].
  - intros j c Hj. pose proof (lookup_lt_Some _ _ _ Hj) as Hjl. rewrite length_insert in Hjl.
    apply insert_cases in Hj as [[-> ->]|[Hne Hj]].
    + unfold thread_ok. cbn [b_pc with_pc b_seq b_applied b_published bs locked visibleSeqNum]. rewrite !Hst.
      split; [split; [done|lia]|]. split; [done|]. split; [done|]. split; [intros Ha; by apply T4 in Ha as (? & _)|]. by split.
    + pose proof (I8 j c Hj) as Hc. pose proof Hc as (U1 & _ & U3 & _ & _ & U6).
      eapply thread_ok_mono; [exact Hc|..]; try by mono_side U6.
      * split; [intros E; apply U1 in E; lia|lia].
      * intros y by_. by apply (applied_insert _ _ b).
  - intros j k c d x tj tk Hj Hk Ej Ek.
    apply insert_cases in Hj as [[-> ->]|[_ Hj]]; [done|]. apply insert_cases in Hk as [[-> ->]|[_ Hk]]; [done|].
    by eapply I9.
Qed.

(** Numbering the batch and releasing the lock. *)
Lemma inv_write i b c' :
  bs p !! i = Some b -> b_pc b = Queued -> c' = Written \/ c' = Failed ->
  inv s0 (mkP (headTail p) (slots p) None (u64 (logSeqNum p + b_count b)) (visibleSeqNum p)
            (<[i := mkBS (u64 (u64 (logSeqNum p + b_count b) - b_count b)) (b_count b) (b_applied b)
                      (b_published b) (b_synced b) c']> (bs p))) h t.
Proof.
  intros Eb Epc Hc'. pose proof (lookup_lt_Some _ _ _ Eb) as Hlt.
  pose proof (i_threads _ _ _ _ Hi i b Eb) as (T1 & T2 & T3 & T4 & T5 & T6). rewrite Epc in T1, T2, T4, T6.
  destruct Hi as [I1 I2 I3 I4 I5 I6 I7 I8 I9]. destruct Hbd as (Hlen & HF & Hs0 & Htot).
  rewrite T6 in *. destruct I5 as (L1 & _).
  assert (Hnh : i <> h) by (intros ->; by destruct T1 as [_ T1']; discriminate T1').
  assert (Hsum : logSeqNum p + b_count b = start_at s0 (bs p) (length (bs p)))
    by (rewrite I6, <-(start_at_S s0 _ _ _ Eb), L1; done).
  assert (Hnn : 0 <= start_at s0 (bs p) i).
  { pose proof (start_at_mono s0 (bs p) 0 i HF ltac:(lia)) as Hm. change (start_at s0 (bs p) 0) with (s0 + 0) in Hm. lia. }
  assert (Hcb : 0 <= b_count b) by (rewrite Forall_forall in HF; apply HF; by eapply list_elem_of_lookup_2).
  rewrite (u64_small (logSeqNum p + b_count b)) by lia. rewrite Z.add_simpl_r, u64_small by lia.
  set (b' := mkBS _ _ _ _ _ _).
  assert (Hst : forall k, start_at s0 (<[i := b']> (bs p)) k = start_at s0 (bs p) k)
    by (intros k; apply start_at_counts; by rewrite (insert_counts _ _ b)).
  split; cbn [headTail slots locked logSeqNum visibleSeqNum bs]; rewrite ?length_insert, ?Hst; try done; [lia| |].
  - intros j c Hj. apply insert_cases in Hj as [[-> ->]|[Hne Hj]].
    + unfold thread_ok, b'. cbn [b_pc b_seq b_applied b_published bs locked visibleSeqNum]. fold b'. rewrite !Hst.
      split; [destruct Hc' as [-> | ->]; done|]. split; [intros; by rewrite I6|]. split; [done|].
      split; [intros Ha; apply T4 in Ha as (_ & ? & _); done|]. split; [done|]. by destruct Hc' as [-> | ->].
    + pose proof (I8 j c Hj) as Hc. pose proof Hc as (U1 & _ & U3 & _ & _ & U6).
      pose proof (lookup_lt_Some _ _ _ Hj) as Hjl.
      eapply thread_ok_mono; [exact Hc|..]; try by mono_side U6.
      * intros [E|E]; rewrite E in U6; cbn in U6; congruence.
      * intros y by_. by apply (applied_insert _ _ b).
  - intros j k c d x tj tk Hj Hk Ej Ek.
    apply insert_cases in Hj as [[-> ->]|[_ Hj]]; [by destruct Hc' as [-> | ->]|].
    apply insert_cases in Hk as [[-> ->]|[_ Hk]]; [by destruct Hc' as [-> | ->]|]. by eapply I9.
Qed.

(** A new committer stores its batch behind the queue. *)
Lemma inv_start n sync :
  locked p = None -> slots p !! slot_of (Z.of_nat h) = Some None ->
  inv s0 (mkP (headTail p) (<[slot_of (Z.of_nat h) := Some (length (bs p))]> (slots p)) (Some (length (bs p)))
            (logSeqNum p) (visibleSeqNum p) (bs p ++ [mkBS 0 n false false (negb sync) Stored])) h t.
Proof.
  intros Hl Hs. destruct Hi as [I1 I2 I3 I4 I5 I6 I7 I8 I9]. rewrite Hl in I5, I6.
  set (b' := mkBS _ _ _ _ _ _).
  assert (Hst : forall k, (k <= length (bs p))%nat -> start_at s0 (bs p ++ [b']) k = start_at s0 (bs p) k).
  { intros k Hk. apply start_at_counts. by rewrite fmap_app, take_app_le by (by rewrite length_fmap). }
  assert (Hslot : forall k y, slots p !! k = Some (Some y) ->
     <[slot_of (Z.of_nat h) := Some (length (bs p))]> (slots p) !! k = Some (Some y)).
  { intros k y Hk. rewrite list_lookup_insert_ne; [done|]. intros <-. congruence. }
  assert (Hcases : forall j c, (bs p ++ [b']) !! j = Some c -> (j = length (bs p) /\ c = b') \/ bs p !! j = Some c).
  { intros j c Hj. apply lookup_app_Some in Hj as [Hj|[Hge Hj]]; [by right|left].
    destruct (j - length (bs p))%nat eqn:E; [|done]. injection Hj as <-. split; [lia|done]. }
  split; cbn [headTail slots locked logSeqNum visibleSeqNum bs]; rewrite ?length_app, ?Hst by lia; try done; cbn [length].
  - lia.
  - by rewrite length_insert.
  - intros k Hk. destruct (decide (k = h)) as [->|Hne].
    + rewrite list_lookup_insert_eq by (rewrite I3; apply slot_of_lt). by rewrite I5.
    + apply Hslot, I4. lia.
  - split; [lia|]. exists b'. rewrite lookup_app_r, Nat.sub_diag by lia. split; [done|by left].
  - intros j c Hj. destruct (Hcases j c Hj) as [[-> ->]|Hj'].
    + split; [done|]. split; [done|]. split; [lia|]. done.
    + pose proof (I8 j c Hj') as Hc. pose proof Hc as (U1 & _ & U3 & _ & _ & U6).
      pose proof (lookup_lt_Some _ _ _ Hj') as Hjl.
      eapply thread_ok_mono; [exact Hc|..]; try by mono_side U6.
      * intros [E|E]; rewrite E in U6; cbn in U6; congruence.
      * intros tl x E. rewrite E in U6. cbn in U6. cbn [slots]. apply Hslot. tauto.
      * intros x bx Hx Ha. exists bx. split; [|done]. cbn [bs]. by apply lookup_app_l_Some.
  - intros j k c d x tj tk Hj Hk Ej Ek.
    destruct (Hcases j c Hj) as [[-> ->]|Hj']; [done|]. destruct (Hcases k d Hk) as [[-> ->]|Hk']; [done|].
    by eapply I9.
Qed.
End Globals.

Lemma inv_init s0 v0 : v0 <= s0 -> inv s0 (newCommitPipeline s0 v0) 0 0.
Proof.
  intros Hv. split; cbn [newCommitPipeline headTail slots locked logSeqNum visibleSeqNum bs]; try done.
  - cbn. lia.
  - cbn. lia.
  - unfold start_at. cbn. lia.
  - unfold start_at. cbn. lia.
Qed.

(** A committer's move to another place. *)
Lemma inv_set_pc s0 p h t i b c :
  inv s0 p h t -> bs p !! i = Some b -> moving (b_pc b) -> moving c ->
  (b_applied b = true -> c <> Written /\ c <> Failed) -> (forall tl x, c <> Clearing tl x) ->
  pc_ok s0 p h t i (b_published b) c -> inv s0 (set_pc p i b c) h t.
Proof.
  intros Hi Eb Hm Hm' Ha Hc Hok. apply (inv_local s0 p h t i b); try done.
  - by right.
  - apply thread_ok_move; try done. by apply Hi.
  - cbn. intros tl x E. by apply Hc in E.
Qed.

Lemma start_at_published s0 p h t x bx :
  inv s0 p h t -> bounded s0 p -> (x < t)%nat -> bs p !! x = Some bx ->
  u64 (b_seq bx + b_count bx) = start_at s0 (bs p) (S x) /\ start_at s0 (bs p) (S x) <= start_at s0 (bs p) t.
Proof.
  intros Hi (_ & HF & Hs0 & Htot) Hx Ex. destruct (i_threads _ _ _ _ Hi x bx Ex) as (_ & T2 & T3 & T4 & _).
  destruct (T4 (T3 Hx)) as (N1 & N2 & _). rewrite (T2 N1 N2), <-(start_at_S s0 _ _ _ Ex).
  pose proof (lookup_lt_Some _ _ _ Ex) as Hl.
  pose proof (start_at_mono s0 (bs p) 0 (S x) HF ltac:(lia)) as H0. change (start_at s0 (bs p) 0) with (s0 + 0) in H0.
  pose proof (start_at_mono s0 (bs p) (S x) (length (bs p)) HF ltac:(lia)).
  split; [apply u64_small; lia|]. apply start_at_mono; [done|lia].
Qed.

Lemma inv_advance s0 p h t x bx :
  inv s0 p h t -> bounded s0 p -> (x < t)%nat -> bs p !! x = Some bx ->
  visibleSeqNum p <= u64 (b_seq bx + b_count bx) ->
  inv s0 (mkP (headTail p) (slots p) (locked p) (logSeqNum p) (u64 (b_seq bx + b_count bx)) (bs p)) h t.
Proof.
  intros Hi Hb Hx Ex Hv. destruct (start_at_published s0 p h t x bx Hi Hb Hx Ex) as [E Hle].
  rewrite E in *. apply inv_vis; [done|lia].
Qed.

Lemma set_pc_start_at s0 p i b c k : bs p !! i = Some b -> start_at s0 (bs (set_pc p i b c)) k = start_at s0 (bs p) k.
Proof. intros E. apply start_at_counts. cbn [set_pc set_b bs]. by rewrite (insert_counts _ _ b). Qed.

(** The steps of one committer. *)
Lemma exec_at_inv s0 p h t i b e p' :
  inv s0 p h t -> bounded s0 p -> bs p !! i = Some b -> exec_at p i b e = Some p' ->
  exists h' t', inv s0 p' h' t' /\ (t <= t')%nat.
Proof.
  intros Hi Hbd Eb He. pose proof (inv_unpack s0 p h t Hi Hbd) as Hun. pose proof (inv_widths s0 p h t Hi Hbd) as Hw.
  pose proof (i_threads _ _ _ _ Hi i b Eb) as Hok. pose proof Hok as (T1 & T2 & T3 & T4 & T5 & T6).
  unfold exec_at in He. destruct e, (b_pc b) eqn:Epc; try done; cbn [pc_ok] in T6.
  - injection He as <-. exists (S h), t. split; [by apply inv_head|lia].
  - injection He as <-. exists h, t. split; [|lia]. apply inv_write; try done. destruct ok; auto.
  - injection He as <-. exists h, t. split; [|lia].
    assert (Hna : b_applied b = false).
    { destruct (b_applied b); [|done]. by destruct (T4 eq_refl) as (_ & _ & ? & _). }
    apply (inv_local s0 p h t i b); try done; [congruence|right; rewrite Epc; destruct ok; by repeat split|..].
    + unfold thread_ok. cbn [b_pc b_seq b_applied b_published].
      split; [split; [by destruct ok|intros ->; by destruct T1 as [_ T1']; specialize (T1' eq_refl)]|].
      split; [intros; by apply T2|]. split; [intros Hlt; rewrite (T3 Hlt) in Hna; done|].
      split; [by destruct ok|]. split; [done|]. by destruct ok.
    + cbn. by destruct ok.
  - rewrite Hun in He. injection He as <-. exists h, t. split; [|lia].
    destruct (Z.eqb_spec (Z.of_nat t) (Z.of_nat h)); apply inv_set_pc; try done; rewrite ?Epc; try by split.
    cbn [pc_ok]. lia.
  - exists h, t. split; [|lia]. destruct (slots p !! slot_of t0) as [[x|]|] eqn:Es.
    + destruct (bs p !! x) as [bx|] eqn:Ex; [|done]. injection He as <-.
      destruct (b_applied bx) eqn:Ha; apply inv_set_pc; try done; rewrite ?Epc; try by split.
      cbn [pc_ok]. split; [lia|]. split; [lia|]. split; [lia|]. intros ->.
      rewrite (i_queue _ _ _ _ Hi t) in Es by (pose proof (i_ord _ _ _ _ Hi); lia). injection Es as <-. eauto.
    + injection He as <-. apply inv_set_pc; try done; rewrite ?Epc; by split.
    + injection He as <-. apply inv_set_pc; try done; rewrite ?Epc; by split.
  - destruct (Z.eqb_spec (headTail p) (pack h0 t0)); injection He as <-.
    + exists h, (S t). split; [by apply (inv_cas s0 p h t Hi Hbd i b)|lia].
    + exists h, t. split; [|lia]. apply inv_set_pc; try done; rewrite ?Epc; by split.
  - injection He as <-. exists h, t. split; [by apply inv_clear|lia].
  - exists h, t. split; [|lia]. destruct (bs p !! b0) as [bx|] eqn:Ex; [|done].
    destruct (start_at_published s0 p h t b0 bx Hi Hbd T6 Ex) as [E Hle].
    destruct (Z.leb_spec (u64 (b_seq bx + b_count bx)) (visibleSeqNum p)); injection He as <-.
    + apply inv_published; [|done|rewrite set_pc_start_at by done; cbn; lia].
      apply inv_set_pc; try done; rewrite ?Epc; by split.
    + apply inv_set_pc; try done; rewrite ?Epc; try by split. cbn [pc_ok]. split; [done|]. split; [by eapply lookup_lt_Some|lia].
  - exists h, t. split; [|lia]. destruct (bs p !! b0) as [bx|] eqn:Ex; [|done]. destruct T6 as (Hx & _ & Hcur).
    destruct (start_at_published s0 p h t b0 bx Hi Hbd Hx Ex) as [E Hle].
    destruct (Z.eqb_spec (visibleSeqNum p) cur); injection He as <-.
    + apply inv_published; [|done|rewrite set_pc_start_at by done; cbn; lia].
      apply inv_set_pc; cbn; rewrite ?Epc; try done. apply (inv_advance s0 p h t b0 bx); (done || lia).
    + apply inv_set_pc; try done; rewrite ?Epc; by split.
  - destruct (b_published b) eqn:Ep; [|done]. cbn [andb] in He. destruct (b_synced b); [|done]. injection He as <-.
    exists h, t. split; [|lia]. apply inv_set_pc; try done; rewrite ?Epc; try by split.
Qed.

Lemma exec_inv s0 p h t e p' :
  inv s0 p h t -> bounded s0 p -> exec p e = Some p' -> exists h' t', inv s0 p' h' t' /\ (t <= t')%nat.
Proof.
  intros Hi Hbd He. destruct e; cbn [exec] in He;
    try (destruct (bs p !! i) as [b|] eqn:Eb; [|done]; by eapply exec_at_inv).
  - exists h, t. split; [|lia]. unfold start in He. rewrite (inv_unpack s0 p h t Hi Hbd) in He. cbn [fst] in He.
    destruct (_ && _); [|done]. destruct (locked p) eqn:El; [done|].
    destruct (slots p !! slot_of (Z.of_nat h)) as [[|]|] eqn:Es; try done. injection He as <-.
    by apply inv_start.
  - destruct (bs p !! i) as [b|] eqn:Eb; [|done]. injection He as <-. exists h, t. split; [|lia].
    pose proof (i_threads _ _ _ _ Hi i b Eb) as Hok. apply (inv_local s0 p h t i b); try done; by left.
Qed.

Lemma reachable_inv s0 v0 p :
  v0 <= s0 -> reachable s0 v0 p -> bounded s0 p -> exists h t, inv s0 p h t.
Proof.
  intros Hv. induction 1 as [|p e p' Hr IH He]; intros Hb.
  - exists 0%nat, 0%nat. by apply inv_init.
  - pose proof (exec_bounded s0 p e p' He Hb) as Hb0. destruct (IH Hb0) as (h & t & Hi).
    destruct (exec_inv s0 p h t e p' Hi Hb0 He) as (h' & t' & Hi' & _). eauto.
Qed.

(** C2: whatever the interleaving of committers, numbered batches own consecutive
    disjoint ranges of sequence numbers in queue order; once any number of a
    batch is below the visible sequence number the batch, and every batch before
    it, has been applied, so no reader at that number sees a half-written batch;
    and when a commit returns successfully all of its numbers are visible. *)
Theorem commit_visibility s0 v0 p i b :
  v0 <= s0 -> reachable s0 v0 p -> bounded s0 p ->
  bs p !! i = Some b -> b_pc b <> Stored -> b_pc b <> Queued ->
  b_seq b = start_at s0 (bs p) i /\
  (b_seq b < visibleSeqNum p -> forall j c, (j <= i)%nat -> bs p !! j = Some c -> b_applied c = true) /\
  (b_pc b = Done -> b_seq b + b_count b <= visibleSeqNum p).
Proof.
  intros Hv Hr Hb Eb N1 N2. destruct (reachable_inv s0 v0 p Hv Hr Hb) as (h & t & Hi).
  pose proof Hb as (_ & HF & _).
  destruct (i_threads _ _ _ _ Hi i b Eb) as (_ & T2 & _ & _ & T5 & T6). rewrite (T2 N1 N2). split; [done|]. split.
  - intros Hlt j c Hj Ec. apply (i_threads _ _ _ _ Hi j c Ec). pose proof (i_vis _ _ _ _ Hi).
    destruct (decide (t <= i)%nat) as [Hge|]; [|lia]. pose proof (start_at_mono s0 (bs p) t i HF Hge). lia.
  - intros Ed. rewrite Ed in T6. destruct (T5 T6) as [_ Hend]. by rewrite (start_at_S s0 _ _ _ Eb) in Hend.
Qed.

Lemma filter_Forall_id {A} (P : A -> Prop) `{!forall x, Decision (P x)} l : Forall P l -> filter P l = l.
Proof. induction 1 as [|x l Hx Hl IH]; [done|]. by rewrite filter_cons_True, IH. Qed.

(** As long as no commit has failed, the queue never overflows: a committer
    that holds the semaphore and the lock does not hit the panic of [enqueue]. *)
Theorem commit_no_panic s0 v0 p :
  v0 <= s0 -> reachable s0 v0 p -> bounded s0 p ->
  Forall (fun b => b_pc b <> Failed) (bs p) -> locked p = None ->
  Z.of_nat (active p) < SyncConcurrency - 1 -> enqueue_panics p = false.
Proof.
  intros Hv Hr Hb Hnf Hl Ha. destruct (reachable_inv s0 v0 p Hv Hr Hb) as (h & t & Hi).
  unfold enqueue_panics. rewrite (inv_unpack s0 p h t Hi Hb).
  pose proof (inv_widths s0 p h t Hi Hb) as Hw. pose proof (i_lock _ _ _ _ Hi) as Hlen. rewrite Hl in Hlen.
  assert (Hq : (h - t <= active p)%nat).
  { unfold active. rewrite <-(take_drop t (bs p)), filter_app, length_app.
    assert (Hall : filter (fun b => in_flight b = true) (drop t (bs p)) = drop t (bs p)).
    { apply filter_Forall_id, Forall_forall. intros x Hx. apply list_elem_of_lookup in Hx as [k Hk]. rewrite lookup_drop in Hk.
      rewrite Forall_forall in Hnf. specialize (Hnf x (list_elem_of_lookup_2 _ _ _ Hk)).
      destruct (i_threads _ _ _ _ Hi _ x Hk) as (_ & _ & _ & _ & T5 & T6). unfold in_flight.
      destruct (b_pc x) eqn:Ex; try done. cbn in T6. destruct (T5 T6). lia. }
    rewrite Hall, length_drop. lia. }
  change SyncConcurrency with 512 in *. change (Z.shiftl 1 dequeueBits - 1) with (Z.ones 32).
  rewrite Z.land_ones by lia. change (2 ^ 32) with 4294967296.
  destruct (Z.eqb_spec (u32 (Z.of_nat t + 512) mod 4294967296) (Z.of_nat h)) as [E|]; [|done].
  exfalso. rewrite Z.mod_small in E by apply u32_range. revert E. unfold u32.
  destruct (Z.le_gt_cases 4294967296 (Z.of_nat t + 512)).
  - rewrite <-(Z.mod_add _ (-1)) by done. rewrite Z.mod_small by lia. lia.
  - rewrite Z.mod_small by lia. lia.
Qed.

(** A failed batch stays where it is. *)
Lemma exec_failed p e p' i b :
  exec p e = Some p' -> bs p !! i = Some b -> b_pc b = Failed ->
  exists b', bs p' !! i = Some b' /\ b_pc b' = Failed.
Proof.
  intros He Eb Ef.
  assert (Hins : forall (l : list batchSt) k c, l !! i = Some b -> (k = i -> b_pc c = Failed) ->
     exists b', <[k := c]> l !! i = Some b' /\ b_pc b' = Failed).
  { intros l k c Hl Hk. destruct (decide (k = i)) as [->|].
    - rewrite list_lookup_insert_eq by (by eapply lookup_lt_Some). eauto.
    - rewrite list_lookup_insert_ne by done. eauto. }
  assert (Hpub : forall q x, (exists b', bs q !! i = Some b' /\ b_pc b' = Failed) ->
     exists b', bs (mark_published q x) !! i = Some b' /\ b_pc b' = Failed).
  { intros q x (b' & Hb' & Hf). unfold mark_published. destruct (bs q !! x) as [bx|] eqn:Ex; [|eauto]. cbn [bs set_b].
    destruct (decide (x = i)) as [->|].
    - rewrite list_lookup_insert_eq by (by eapply lookup_lt_Some). eexists. split; [done|]. cbn. congruence.
    - rewrite list_lookup_insert_ne by done. eauto. }
  destruct e as [n sync|k|k ok|k ok|k|k|k|k|k|k|k|k]; cbn [exec] in He;
    [unfold start in He; repeat case_match; simplify_eq; cbn [bs]; exists b; split; [by apply lookup_app_l_Some|done]|..];
    (destruct (bs p !! k) as [c|] eqn:Ec; [|done]);
    unfold exec_at in He; repeat case_match; simplify_eq; cbn [bs set_pc set_b];
    try apply Hpub; cbn [bs set_pc set_b]; apply Hins; try done; intros ->; cbn [b_pc]; congruence.
Qed.

(** C35: a commit that fails after its batch was queued blocks the pipeline for
    good: the batch stays at its place in the queue unapplied, and in no later
    state has any batch behind it returned from its commit. *)
Theorem failed_commit_blocks s0 v0 p i b p' j c :
  v0 <= s0 -> reachable s0 v0 p -> bs p !! i = Some b -> b_pc b = Failed ->
  rtc (fun q q' => exists e, exec q e = Some q') p p' -> bounded s0 p' ->
  (i < j)%nat -> bs p' !! j = Some c -> b_pc c <> Done.
Proof.
  intros Hv Hr Eb Ef Hsteps. revert Hr b Eb Ef. induction Hsteps as [q|q q1 q2 [e He] Hs IH]; intros Hr b Eb Ef Hb Hij Ec.
  - destruct (reachable_inv s0 v0 q Hv Hr Hb) as (h & t & Hi). intros Ed.
    destruct (i_threads _ _ _ _ Hi j c Ec) as (_ & _ & _ & _ & T5 & T6). rewrite Ed in T6.
    destruct (T5 T6) as [Hjt _]. destruct (i_threads _ _ _ _ Hi i b Eb) as (_ & _ & U3 & U4 & _).
    destruct (U4 (U3 ltac:(lia))) as (_ & _ & _ & Hn). done.
  - destruct (exec_failed q e q1 i b He Eb Ef) as (b' & Eb' & Ef').
    eapply IH; try done. by eapply reach_step.
Qed.

(** ** Concrete runs *)

Fixpoint run_events (p : pipeline) (es : list event) : option pipeline :=
  match es with
  | [] => Some p
  | e :: es' => match exec p e with Some p' => run_events p' es' | None => None end
  end.

Lemma run_events_reachable s0 v0 es p q :
  reachable s0 v0 p -> run_events p es = Some q -> reachable s0 v0 q.
Proof.
  revert p. induction es as [|e es IH]; intros p Hp Hq; cbn in Hq; [by injection Hq as <-|].
  destruct (exec p e) as [p'|] eqn:E; [|done]. eapply IH; [by eapply reach_step|done].
Qed.

Lemma run_events_steps es p q :
  run_events p es = Some q -> rtc (fun a b => exists e, exec a e = Some b) p q.
Proof.
  revert p. induction es as [|e es IH]; intros p Hq; cbn in Hq; [injection Hq as <-; apply rtc_refl|].
  destruct (exec p e) as [p'|] eqn:E; [|done]. eapply rtc_l; [by exists e|by apply IH].
Qed.

Definition run_from (p : pipeline) (es : list event) : pipeline :=
  match run_events p es with Some q => q | None => p end.

(** Two committers; the second is applied first and both are published by the
    first. *)
Definition demo_events : list event :=
  [EvStart 2 false; EvHead 0; EvWrite 0 true; EvStart 3 false; EvHead 1; EvWrite 1 true;
   EvApply 1 true; EvLoad 1; EvCheck 1; EvApply 0 true; EvLoad 0; EvCheck 0; EvCas 0; EvClear 0; EvVisLoad 0; EvVisCas 0;
   EvLoad 0; EvCheck 0; EvCas 0; EvClear 0; EvVisLoad 0; EvVisCas 0; EvLoad 0; EvFinish 0; EvFinish 1].

Definition demo_done : pipeline := run_from (newCommitPipeline 1 1) demo_events.

Lemma demo_done_reachable : reachable 1 1 demo_done.
Proof. eapply (run_events_reachable 1 1 demo_events); [apply reach_init|by vm_compute]. Defined.

Lemma demo_done_bounded : bounded 1 demo_done.
Proof. vm_compute. repeat split; try discriminate. repeat constructor; discriminate. Defined.

Lemma commit_visibility_witness :
  exists b, bs demo_done !! 1%nat = Some b /\ b_seq b = 3 /\ b_seq b + b_count b <= visibleSeqNum demo_done.
Proof.
  eexists. split; [by vm_compute|].
  destruct (commit_visibility 1 1 demo_done 1 (mkBS 3 3 true true true Done) ltac:(done) demo_done_reachable
    demo_done_bounded ltac:(by vm_compute) ltac:(done) ltac:(done)) as (H1 & _ & H3).
  split; [reflexivity|]. by apply H3.
Defined.

Lemma commit_no_panic_witness : enqueue_panics demo_done = false.
Proof.
  apply (commit_no_panic 1 1 demo_done); [done|apply demo_done_reachable|apply demo_done_bounded| | |].
  - vm_compute. repeat constructor; discriminate.
  - by vm_compute.
  - by vm_compute.
Defined.

(** The first committer's write fails; the second is applied and waits. *)
Definition demo_failed : pipeline :=
  run_from (newCommitPipeline 1 1) [EvStart 2 false; EvHead 0; EvWrite 0 false].

Definition demo_stuck : pipeline :=
  run_from demo_failed [EvStart 3 false; EvHead 1; EvWrite 1 true; EvApply 1 true; EvLoad 1; EvCheck 1].

Lemma failed_commit_blocks_witness :
  exists c, bs demo_stuck !! 1%nat = Some c /\ b_applied c = true /\ b_pc c <> Done.
Proof.
  exists (mkBS 3 3 true false true Waiting). split; [by vm_compute|]. split; [done|].
  apply (failed_commit_blocks 1 1 demo_failed 0 (mkBS 1 2 false false true Failed) demo_stuck 1).
  - done.
  - eapply (run_events_reachable 1 1 [EvStart 2 false; EvHead 0; EvWrite 0 false]); [apply reach_init|by vm_compute].
  - by vm_compute.
  - done.
  - apply (run_events_steps [EvStart 3 false; EvHead 1; EvWrite 1 true; EvApply 1 true; EvLoad 1; EvCheck 1]).
    by vm_compute.
  - vm_compute. repeat split; try discriminate. repeat constructor; discriminate.
  - lia.
  - by vm_compute.
Defined.
