(* ===== verification/ReadState.v ===== *)
(** Who may still read a memtable or an array table (flushable.go,
    read_state.go and the users of both in plain_db.go and plain_flush.go):
    the reference counts of [flushableEntry] and [plainReadState].

    Entries and read states live in tables and are named by their index.  The
    events of [step] are the atomic actions of the goroutines: a reader takes
    the current state (the read lock covers the load and the increment), gives
    it back, or a pending decrement of an entry is carried out; a rotation or
    the end of a flush installs a new state.  The increments of
    [updateReadState] happen before the new state is visible and are part of
    the event that installs it; the decrements of [unref] are one event each.
    Reference counts stay far below 2^31 and are not wrapped. *)

From Stdlib Require Import ZArith Lia.
From stdpp Require Import base numbers option list.
From S2P Require Import Prelude Base.

(** [release] is nil once it has run; [isTable] tells the [release] of an array
    table, which deletes the file of an obsolete entry, from the others. *)
Record flushableEntry : Type := mkEntry {
  readerRefs : Z; obsolete : bool; hasRelease : bool; isTable : bool; releases : nat; deleted : bool
}.

Definition newFlushableEntry (table : bool) : flushableEntry := mkEntry 1 false true table 0 false.

Definition readerRef (e : flushableEntry) : flushableEntry :=
  mkEntry (readerRefs e + 1) (obsolete e) (hasRelease e) (isTable e) (releases e) (deleted e).

Definition readerUnref (e : flushableEntry) : flushableEntry :=
  let v := readerRefs e - 1 in
  if (v =? 0) && hasRelease e
  then mkEntry v (obsolete e) false (isTable e) (S (releases e)) (isTable e && obsolete e)
  else mkEntry v (obsolete e) (hasRelease e) (isTable e) (releases e) (deleted e).

Definition setObsolete (e : flushableEntry) : flushableEntry :=
  mkEntry (readerRefs e) true (hasRelease e) (isTable e) (releases e) (deleted e).

Record plainReadState : Type := mkRS { refcnt : Z; memtables : list nat; rs_arrtable : option nat }.

Definition rs_entries (r : plainReadState) : list nat := memtables r ++ option_list (rs_arrtable r).

(** [pending] are the entries the loops of [unref], of [flush1] and of [Close]
    still have to release; [readers] the states that readers hold. *)
Record store : Type := mkStore {
  entries : list flushableEntry; states : list plainReadState; val : nat;
  queue : list nat; arrtable : option nat; pending : list nat; readers : list nat; closed : bool
}.

Definition with_entries (s : store) (es : list flushableEntry) : store :=
  mkStore es (states s) (val s) (queue s) (arrtable s) (pending s) (readers s) (closed s).

Definition on_entries (f : flushableEntry -> flushableEntry) (ids : list nat) (es : list flushableEntry) : list flushableEntry :=
  foldl (fun es i => alter f i es) es ids.

(** [plainReadState.ref] and [unref]: the last reference sends its entries to
    be released. *)
Definition rs_ref (s : store) (i : nat) : store :=
  mkStore (entries s) (alter (fun r => mkRS (refcnt r + 1) (memtables r) (rs_arrtable r)) i (states s)) (val s)
    (queue s) (arrtable s) (pending s) (readers s) (closed s).

Definition rs_unref (s : store) (i : nat) : store :=
  match states s !! i with
  | None => s
  | Some r =>
      let n := refcnt r - 1 in
      mkStore (entries s) (<[i := mkRS n (memtables r) (rs_arrtable r)]> (states s)) (val s) (queue s) (arrtable s)
        (if negb (n =? 0) then pending s else pending s ++ rs_entries r) (readers s) (closed s)
  end.

Definition loadReadState (s : store) : store :=
  let s := rs_ref s (val s) in
  mkStore (entries s) (states s) (val s) (queue s) (arrtable s) (pending s) (readers s ++ [val s]) (closed s).

Definition updateReadState (s : store) : store :=
  let rs := mkRS 1 (queue s) (arrtable s) in
  let es := on_entries readerRef (rs_entries rs) (entries s) in
  rs_unref (mkStore es (states s ++ [rs]) (length (states s)) (queue s) (arrtable s) (pending s) (readers s) (closed s)) (val s).

(** The end of a rotation in [makeRoomForWrite]: an entry for a large batch, if
    there is one, and the new memtable join the queue. *)
Definition rotate (s : store) (largeBatch : bool) : store :=
  let k := length (entries s) in
  let n := if largeBatch then 2%nat else 1%nat in
  updateReadState
    (mkStore (entries s ++ replicate n (newFlushableEntry false)) (states s) (val s) (queue s ++ seq k n) (arrtable s)
       (pending s) (readers s) (closed s)).

(** The end of [flush1] for the first [n] entries of the queue: the new array
    table replaces them and the old one, which become obsolete. *)
Definition publish_flush (s : store) (n : nat) : store :=
  let flushing := take n (queue s) ++ option_list (arrtable s) in
  let at_ := length (entries s) in
  let s1 := updateReadState
    (mkStore (entries s ++ [newFlushableEntry true]) (states s) (val s) (drop n (queue s)) (Some at_)
       (pending s) (readers s) (closed s)) in
  mkStore (on_entries setObsolete flushing (entries s1)) (states s1) (val s1) (queue s1) (arrtable s1)
    (pending s1 ++ flushing) (readers s1) (closed s1).

(** [Close]: the state in use, then every entry of the queue and the table. *)
Definition close_store (s : store) : store :=
  let s1 := rs_unref s (val s) in
  mkStore (entries s1) (states s1) (val s1) (queue s1) (arrtable s1)
    (pending s1 ++ queue s1 ++ option_list (arrtable s1)) (readers s1) true.

Inductive event : Type :=
| EvLoad
| EvUnrefState (r : nat)
| EvUnrefEntry (j : nat)
| EvRotate (largeBatch : bool)
| EvFlush (n : nat)
| EvClose.

Definition step (s : store) (e : event) : option store :=
  match e with
  | EvLoad => if closed s then None else Some (loadReadState s)
  | EvUnrefState r =>
      match readers s !! r with
      | None => None
      | Some i =>
          let s := rs_unref s i in
          Some (mkStore (entries s) (states s) (val s) (queue s) (arrtable s) (pending s) (delete r (readers s)) (closed s))
      end
  | EvUnrefEntry j =>
      match pending s !! j with
      | None => None
      | Some i =>
          Some (mkStore (alter readerUnref i (entries s)) (states s) (val s) (queue s) (arrtable s)
                  (delete j (pending s)) (readers s) (closed s))
      end
  | EvRotate b => if closed s then None else Some (rotate s b)
  | EvFlush n => if closed s || (length (queue s) <=? n)%nat || (n =? 0)%nat then None else Some (publish_flush s n)
  | EvClose => if closed s then None else Some (close_store s)
  end.

(** The store as [Open] leaves it: one memtable, the array table of the manifest
    if it has one, and the first read state. *)
Definition opened (table : bool) : store :=
  let es := newFlushableEntry false :: (if table then [newFlushableEntry true] else []) in
  let rs := mkRS 1 [0%nat] (if table then Some 1%nat else None) in
  mkStore (readerRef <$> es) [rs] 0 [0%nat] (if table then Some 1%nat else None) [] [] false.

Inductive reachable (table : bool) : store -> Prop :=
| reach_opened : reachable table (opened table)
| reach_next s e s' : reachable table s -> step s e = Some s' -> reachable table s'.

(** ** The invariant *)

Definition cnt (k : nat) (l : list nat) : Z := Z.of_nat (count_occ Nat.eq_dec l k).

Definition one (b : bool) : Z := if b then 1 else 0.

Lemma cnt_nonneg k l : 0 <= cnt k l.
Proof. unfold cnt. lia. Qed.
Lemma cnt_nil k : cnt k [] = 0.
Proof. done. Qed.
Lemma cnt_cons k x l : cnt k (x :: l) = one (bool_decide (x = k)) + cnt k l.
Proof. unfold cnt. cbn [count_occ]. destruct (Nat.eq_dec x k); [rewrite bool_decide_true by done|rewrite bool_decide_false by done]; cbn [one]; lia. Qed.
Lemma cnt_app k l l' : cnt k (l ++ l') = cnt k l + cnt k l'.
Proof. unfold cnt. rewrite count_occ_app. lia. Qed.
Lemma cnt_elem k l : k ∈ l <-> 0 < cnt k l.
Proof. unfold cnt. rewrite list_elem_of_In, (count_occ_In Nat.eq_dec). lia. Qed.
Lemma cnt_delete k l j x : l !! j = Some x -> cnt k (delete j l) = cnt k l - one (bool_decide (x = k)).
Proof.
  intros Hj. rewrite <-(take_drop_middle l j x Hj) at 2. rewrite delete_take_drop, !cnt_app, cnt_cons. lia.
Qed.
Lemma cnt_fresh k l n : Forall (fun x => (x < n)%nat) l -> (n <= k)%nat -> cnt k l = 0.
Proof.
  intros HF Hk. pose proof (cnt_nonneg k l). destruct (Z.eq_dec (cnt k l) 0); [done|].
  assert (Hin : k ∈ l) by (apply cnt_elem; lia). rewrite Forall_forall in HF. specialize (HF k Hin). cbn in HF. lia.
Qed.
Lemma cnt_seq k a n : cnt k (seq a n) = one (bool_decide (a <= k < a + n)%nat).
Proof.
  revert a. induction n as [|n IH]; intros a; cbn [seq]; [rewrite bool_decide_false by lia; done|].
  rewrite cnt_cons, IH. repeat case_bool_decide; cbn [one]; lia.
Qed.

(** The references of the live states to an entry. *)
Definition share (k : nat) (r : plainReadState) : Z := if 0 <? refcnt r then cnt k (rs_entries r) else 0.
Definition held (k : nat) (ss : list plainReadState) : Z := foldr (fun r n => share k r + n) 0 ss.

Lemma share_nonneg k r : 0 <= share k r.
Proof. unfold share. pose proof (cnt_nonneg k (rs_entries r)). destruct (_ <? _); lia. Qed.
Lemma held_cons k r ss : held k (r :: ss) = share k r + held k ss.
Proof. done. Qed.
Lemma held_nonneg k ss : 0 <= held k ss.
Proof. induction ss as [|r ss IH]; [done|]. rewrite held_cons. pose proof (share_nonneg k r). lia. Qed.
Lemma held_app k ss ss' : held k (ss ++ ss') = held k ss + held k ss'.
Proof. induction ss as [|r ss IH]; [done|]. cbn [app]. rewrite !held_cons, IH. lia. Qed.
Lemma held_insert k ss i r r' : ss !! i = Some r -> held k (<[i := r']> ss) = held k ss - share k r + share k r'.
Proof.
  intros Hi. rewrite (insert_take_drop _ _ _ (lookup_lt_Some _ _ _ Hi)). rewrite <-(take_drop_middle ss i r Hi) at 3.
  rewrite !held_app, !held_cons. lia.
Qed.
Lemma held_elem k ss i r : ss !! i = Some r -> share k r <= held k ss.
Proof.
  intros Hi. rewrite <-(take_drop_middle ss i r Hi), held_app, held_cons.
  pose proof (held_nonneg k (take i ss)). pose proof (held_nonneg k (drop (S i) ss)). lia.
Qed.
Lemma held_fresh k n ss : Forall (fun r => Forall (fun x => (x < n)%nat) (rs_entries r)) ss -> (n <= k)%nat -> held k ss = 0.
Proof.
  intros HF Hk. induction HF as [|r ss Hr _ IH]; [done|]. rewrite held_cons, IH. unfold share.
  rewrite (cnt_fresh k _ n Hr Hk). by destruct (_ <? _).
Qed.

Lemma on_entries_lookup f ids es k :
  on_entries f ids es !! k = Nat.iter (count_occ Nat.eq_dec ids k) f <$> es !! k.
Proof.
  unfold on_entries. revert es. induction ids as [|x ids IH]; intros es; cbn [foldl count_occ]; [by destruct (es !! k)|].
  rewrite IH. destruct (Nat.eq_dec x k) as [->|Hne].
  - rewrite list_lookup_alter_eq. destruct (es !! k) as [e|]; [|done]. cbn [fmap option_fmap option_map Nat.iter]. f_equal. apply Nat.iter_swap.
  - by rewrite list_lookup_alter_ne.
Qed.

Lemma iter_readerRef n e : Nat.iter n readerRef e =
  mkEntry (readerRefs e + Z.of_nat n) (obsolete e) (hasRelease e) (isTable e) (releases e) (deleted e).
Proof.
  induction n as [|n IH]; [destruct e; cbn; f_equal; lia|].
  change (Nat.iter (S n) readerRef e) with (readerRef (Nat.iter n readerRef e)). rewrite IH. unfold readerRef. cbn [readerRefs obsolete hasRelease isTable releases deleted]. f_equal. lia.
Qed.

Lemma iter_setObsolete n e : Nat.iter n setObsolete e = if (n =? 0)%nat then e else setObsolete e.
Proof.
  destruct n as [|n]; [done|]. cbn [Nat.eqb]. induction n as [|n IH]; [done|].
  change (Nat.iter (S (S n)) setObsolete e) with (setObsolete (Nat.iter (S n) setObsolete e)). by rewrite IH.
Qed.

(** The references of the store itself. *)
Definition in_use (s : store) : list nat := queue s ++ option_list (arrtable s).
Definition own (k : nat) (s : store) : Z := if closed s then 0 else cnt k (in_use s).

(** An entry in its life: referenced, or released once. *)
Definition entry_ok (e : flushableEntry) : Prop :=
  (0 < readerRefs e /\ hasRelease e = true /\ releases e = 0%nat /\ deleted e = false) \/
  (readerRefs e = 0 /\ hasRelease e = false /\ releases e = 1%nat /\ deleted e = isTable e && obsolete e).

(** [b] tells whether the current read state is that of the queue and the
    table, as it is between two changes of these. *)
Record inv_gen (b : bool) (s : store) : Prop := mkInv {
  i_refs : forall k e, entries s !! k = Some e -> readerRefs e = held k (states s) + cnt k (pending s) + own k s;
  i_cnt : forall k r, states s !! k = Some r -> refcnt r = one (negb (closed s) && bool_decide (k = val s)) + cnt k (readers s);
  i_val : exists r, states s !! val s = Some r /\ (b = true -> closed s = false -> rs_entries r = in_use s);
  i_states : Forall (fun r => Forall (fun x => (x < length (entries s))%nat) (rs_entries r)) (states s);
  i_pending : Forall (fun x => (x < length (entries s))%nat) (pending s);
  i_use : Forall (fun x => (x < length (entries s))%nat) (in_use s);
  i_readers : Forall (fun x => (x < length (states s))%nat) (readers s);
  i_entry : forall k e, entries s !! k = Some e -> entry_ok e;
  i_nodup : NoDup (in_use s);
  i_obs : forall k e, entries s !! k = Some e -> obsolete e = true -> k ∉ in_use s;
  i_table : forall k e, entries s !! k = Some e -> isTable e = true -> obsolete e = false -> arrtable s = Some k
}.
Abbreviation inv := (inv_gen true).

Lemma entry_ok_live e : entry_ok e -> 0 < readerRefs e -> releases e = 0%nat /\ deleted e = false.
Proof. intros [(_ & _ & H1 & H2)|(H1 & _)] H; [done|lia]. Qed.

Lemma entry_ok_ref e n : entry_ok e -> 0 < readerRefs e -> entry_ok (Nat.iter n readerRef e).
Proof. intros [(H1 & H2 & H3 & H4)|(H1 & _)] H; [|lia]. rewrite iter_readerRef. left. cbn. split; [lia|done]. Qed.

Lemma entry_ok_unref e : entry_ok e -> 0 < readerRefs e -> entry_ok (readerUnref e).
Proof.
  intros [(H1 & H2 & H3 & H4)|(H1 & _)] H; [|lia]. unfold readerUnref. rewrite H2, andb_true_r.
  destruct (Z.eqb_spec (readerRefs e - 1) 0) as [E|E]; [right|left]; cbn; [rewrite H3; auto|]. split; [lia|done].
Qed.

Lemma readerUnref_fields e :
  readerRefs (readerUnref e) = readerRefs e - 1 /\ obsolete (readerUnref e) = obsolete e /\ isTable (readerUnref e) = isTable e.
Proof. unfold readerUnref. by destruct (_ && _). Qed.

(** Giving up a reference to a state keeps every count. *)
Lemma share_last k r n : refcnt r = 1 + n -> 0 <= n ->
  share k r = share k (mkRS (refcnt r - 1) (memtables r) (rs_arrtable r)) + (if negb (refcnt r - 1 =? 0) then 0 else cnt k (rs_entries r)).
Proof.
  intros Hr Hn. unfold share. cbn [refcnt]. rewrite (proj2 (Z.ltb_lt 0 (refcnt r))) by lia.
  destruct (Z.eqb_spec (refcnt r - 1) 0) as [->|E]; cbn [negb]; [done|]. rewrite (proj2 (Z.ltb_lt 0 _)) by lia. cbn. unfold rs_entries. cbn. lia.
Qed.

(** [rs_unref] on its own: the references it drops become pending ones. *)
Lemma rs_unref_spec s i r :
  states s !! i = Some r -> 0 < refcnt r ->
  let s' := rs_unref s i in
  entries s' = entries s /\ val s' = val s /\ queue s' = queue s /\ arrtable s' = arrtable s /\ readers s' = readers s /\ closed s' = closed s /\
  length (states s') = length (states s) /\
  (forall k, states s' !! k = if decide (k = i) then Some (mkRS (refcnt r - 1) (memtables r) (rs_arrtable r)) else states s !! k) /\
  (forall k, held k (states s') + cnt k (pending s') = held k (states s) + cnt k (pending s)) /\
  (forall P, Forall P (pending s) -> Forall P (rs_entries r) -> Forall P (pending s')).
Proof.
  intros Hi Hr. unfold rs_unref. rewrite Hi. cbv zeta. cbn [entries states val queue arrtable pending readers closed]. split; [done|]. split; [done|]. split; [done|]. split; [done|]. split; [done|]. split; [done|].
  split; [apply length_insert|]. split; [|split].
  - intros k. destruct (decide (k = i)) as [->|Hne]; [|by rewrite list_lookup_insert_ne].
    by rewrite list_lookup_insert_eq by (by eapply lookup_lt_Some).
  - intros k. rewrite (held_insert _ _ _ _ _ Hi). rewrite (share_last k r (refcnt r - 1)) by lia.
    destruct (negb _); rewrite ?cnt_app; lia.
  - intros P HP Hr'. destruct (negb _); [done|]. by apply Forall_app.
Qed.

Lemma inv_opened table : inv (opened table).
Proof.
  split.
  - intros k e. destruct table, k as [|[|k]]; cbn; intros [= <-]; done.
  - intros k r. destruct k; cbn; intros [= <-]. done.
  - exists (mkRS 1 [0%nat] (if table then Some 1%nat else None)). by destruct table.
  - destruct table; repeat constructor.
  - constructor.
  - destruct table; cbn; repeat constructor.
  - constructor.
  - intros k e. destruct table, k as [|[|k]]; cbn; intros [= <-]; by left.
  - destruct table; by apply (bool_decide_unpack _).
  - intros k e. destruct table, k as [|[|k]]; cbn; by intros [= <-].
  - intros k e. destruct table, k as [|[|k]]; cbn; by intros [= <-].
Qed.

Lemma inv_load s : inv s -> closed s = false -> inv (loadReadState s).
Proof.
  intros [H1 H2 (r & Hr & Hr') H4 H5 H6 H7 H8 H9 H10 H11] Hc.
  assert (Hst : states (loadReadState s) = <[val s := mkRS (refcnt r + 1) (memtables r) (rs_arrtable r)]> (states s)).
  { apply list_eq. intros k. unfold loadReadState, rs_ref. cbn [states]. destruct (decide (k = val s)) as [->|Hne].
    - rewrite list_lookup_alter_eq, list_lookup_insert_eq, Hr by (by eapply lookup_lt_Some). done.
    - by rewrite list_lookup_alter_ne, list_lookup_insert_ne by done. }
  assert (Hpos : 0 < refcnt r).
  { rewrite (H2 _ _ Hr), Hc, bool_decide_true by done. pose proof (cnt_nonneg (val s) (readers s)). cbn. lia. }
  split; try done; rewrite ?Hst.
  - intros k e Hk. rewrite (held_insert _ _ _ _ _ Hr). unfold share at 2. cbn [refcnt]. rewrite (proj2 (Z.ltb_lt 0 (refcnt r + 1))) by lia.
    unfold share. rewrite (proj2 (Z.ltb_lt 0 (refcnt r))) by lia. rewrite (H1 k e Hk). unfold own, in_use. cbn. unfold rs_entries. cbn. lia.
  - intros k r' Hk. cbn [loadReadState closed readers val]. rewrite cnt_app, cnt_cons, cnt_nil.
    destruct (decide (k = val s)) as [->|Hne].
    + rewrite list_lookup_insert_eq in Hk by (by eapply lookup_lt_Some). injection Hk as <-. cbn. rewrite (H2 _ _ Hr), Hc.
      rewrite !bool_decide_true by done. cbn. lia.
    + rewrite list_lookup_insert_ne in Hk by done. rewrite (H2 _ _ Hk). rewrite (bool_decide_false (val s = k)) by done. cbn. lia.
  - exists (mkRS (refcnt r + 1) (memtables r) (rs_arrtable r)). cbn [loadReadState val]. rewrite list_lookup_insert_eq by (by eapply lookup_lt_Some).
    split; [done|]. exact Hr'.
  - apply Forall_insert; [done|]. rewrite Forall_forall in H4. apply (H4 r). by eapply list_elem_of_lookup_2.
  - cbn [loadReadState readers rs_ref val]. rewrite length_insert. apply Forall_app. split; [done|]. constructor; [|constructor]. by eapply lookup_lt_Some.
Qed.

Lemma inv_unref_state s j i : inv s -> readers s !! j = Some i ->
  let s' := rs_unref s i in
  inv (mkStore (entries s') (states s') (val s') (queue s') (arrtable s') (pending s') (delete j (readers s')) (closed s')).
Proof.
  intros [H1 H2 (rv & Hv & Hv') H4 H5 H6 H7 H8 H9 H10 H11] Hj. cbv zeta.
  assert (Hi : (i < length (states s))%nat) by (rewrite Forall_forall in H7; apply H7; by eapply list_elem_of_lookup_2).
  apply lookup_lt_is_Some_2 in Hi as [r Hr].
  assert (Hcnt : 0 < cnt i (readers s)) by (apply cnt_elem; by eapply list_elem_of_lookup_2).
  pose proof (H2 _ _ Hr) as Hrc. assert (Hpos : 0 < refcnt r) by (destruct (_ && _); cbn in Hrc; lia).
  destruct (rs_unref_spec s i r Hr Hpos) as (E1 & E2 & E3 & E4 & E5 & E6 & E7 & E8 & E9 & E10). cbv zeta in *.
  assert (HFr : Forall (fun x => (x < length (entries s))%nat) (rs_entries r)).
  { rewrite Forall_forall in H4. apply (H4 r). by eapply list_elem_of_lookup_2. }
  split; unfold own, in_use in *; cbn [entries states val queue arrtable pending readers closed]; rewrite ?E1, ?E2, ?E3, ?E4, ?E5, ?E6, ?E7; try done.
  - intros k e Hk. rewrite E9. by apply H1.
  - intros k r' Hk. rewrite E8 in Hk. rewrite (cnt_delete _ _ _ _ Hj). destruct (decide (k = i)) as [->|Hne].
    + injection Hk as <-. cbn [refcnt]. rewrite (bool_decide_true (i = i)) by done. cbn [one]. lia.
    + rewrite (bool_decide_false (i = k)) by done. rewrite (H2 _ _ Hk). cbn [one]. lia.
  - rewrite E8. destruct (decide (val s = i)) as [<-|Hne]; [|by exists rv]. eexists. split; [done|]. assert (r = rv) as -> by congruence. exact Hv'.
  - apply Forall_lookup. intros k r' Hk. rewrite E8 in Hk. destruct (decide (k = i)); [injection Hk as <-; exact HFr|]. by eapply Forall_lookup_1 in Hk; [|exact H4].
  - by apply E10.
  - by apply Forall_delete.
Qed.

Lemma inv_unref_entry s j i : inv s -> pending s !! j = Some i ->
  inv (mkStore (alter readerUnref i (entries s)) (states s) (val s) (queue s) (arrtable s) (delete j (pending s)) (readers s) (closed s)).
Proof.
  intros [H1 H2 H3 H4 H5 H6 H7 H8 H9 H10 H11] Hj.
  assert (Hk0 : forall k e, alter readerUnref i (entries s) !! k = Some e ->
    exists e0, entries s !! k = Some e0 /\ (k = i /\ e = readerUnref e0 \/ k <> i /\ e = e0)).
  { intros k e Hk. destruct (decide (k = i)) as [->|Hne].
    - rewrite list_lookup_alter_eq in Hk. destruct (entries s !! i) as [e0|]; [|done]. injection Hk as <-. exists e0. auto.
    - rewrite list_lookup_alter_ne in Hk by done. exists e. auto. }
  assert (Hpos : forall e, entries s !! i = Some e -> 0 < readerRefs e).
  { intros e He. rewrite (H1 _ _ He). assert (0 < cnt i (pending s)) by (apply cnt_elem; by eapply list_elem_of_lookup_2).
    pose proof (held_nonneg i (states s)). unfold own. pose proof (cnt_nonneg i (in_use s)). destruct (closed s); lia. }
  split; unfold own, in_use in *; cbn [entries states val queue arrtable pending readers closed]; rewrite ?length_alter; try done.
  - intros k e (e0 & He0 & Hcase)%Hk0. rewrite (cnt_delete _ _ _ _ Hj). specialize (H1 k e0 He0). destruct Hcase as [[-> ->]|[Hne ->]].
    + rewrite bool_decide_true by done. destruct (readerUnref_fields e0) as [-> _]. cbn [one]. lia.
    + rewrite bool_decide_false by done. cbn [one]. lia.
  - by apply Forall_delete.
  - intros k e (e0 & He0 & [[-> ->]|[Hne ->]])%Hk0; [|by eapply H8]. apply entry_ok_unref; [by eapply H8|by apply Hpos].
  - intros k e (e0 & He0 & [[-> ->]|[Hne ->]])%Hk0 Ho; [|by eapply H10]. destruct (readerUnref_fields e0) as (_ & E & _). rewrite E in Ho. by eapply H10.
  - intros k e (e0 & He0 & [[-> ->]|[Hne ->]])%Hk0 Ht Ho; [|by eapply H11]. destruct (readerUnref_fields e0) as (_ & E & E'). rewrite E in Ho. rewrite E' in Ht. by eapply H11.
Qed.

Lemma on_readerRef_lookup ids es k e : on_entries readerRef ids es !! k = Some e ->
  exists e0, es !! k = Some e0 /\ e = mkEntry (readerRefs e0 + cnt k ids) (obsolete e0) (hasRelease e0) (isTable e0) (releases e0) (deleted e0).
Proof.
  rewrite on_entries_lookup. destruct (es !! k) as [e0|]; [|done]. cbn [fmap option_fmap option_map]. intros [= <-]. exists e0.
  split; [done|]. apply iter_readerRef.
Qed.

Lemma length_on_entries f ids es : length (on_entries f ids es) = length es.
Proof. unfold on_entries. revert es. induction ids as [|x ids IH]; intros es; cbn [foldl]; [done|]. by rewrite IH, length_alter. Qed.

(** Installing a new read state. *)
Lemma inv_update t : inv_gen false t -> closed t = false -> inv (updateReadState t).
Proof.
  intros [H1 H2 (r & Hr & _) H4 H5 H6 H7 H8 H9 H10 H11] Hc. unfold updateReadState.
  set (rs := mkRS 1 (queue t) (arrtable t)). change (rs_entries rs) with (in_use t).
  set (m := mkStore _ _ _ _ _ _ _ _). pose proof (lookup_lt_Some _ _ _ Hr) as Hlt.
  assert (Hpos : 0 < refcnt r).
  { rewrite (H2 _ _ Hr), Hc, bool_decide_true by done. pose proof (cnt_nonneg (val t) (readers t)). cbn [negb andb one]. lia. }
  assert (Hm : states m !! val t = Some r) by (cbn [m states]; by apply lookup_app_l_Some).
  destruct (rs_unref_spec m (val t) r Hm Hpos) as (E1 & E2 & E3 & E4 & E5 & E6 & E7 & E8 & E9 & E10). cbv zeta in *.
  assert (Hnew : cnt (length (states t)) (readers t) = 0) by (by apply (cnt_fresh _ _ (length (states t)))).
  assert (HFr : Forall (fun x => (x < length (entries t))%nat) (rs_entries r)).
  { rewrite Forall_forall in H4. apply (H4 r). by eapply list_elem_of_lookup_2. }
  split; unfold own, in_use in *; rewrite ?E1, ?E2, ?E3, ?E4, ?E5, ?E6, ?E7; cbn [m entries states val queue arrtable pending readers closed];
    rewrite ?length_on_entries; try done.
  - intros k e (e0 & He0 & ->)%on_readerRef_lookup. cbn [readerRefs]. rewrite E9. cbn [m states pending]. rewrite held_app.
    specialize (H1 k e0 He0). rewrite Hc in *. unfold held at 2. cbn [foldr]. unfold share. cbn [rs refcnt]. change (0 <? 1) with true.
    change (rs_entries rs) with (queue t ++ option_list (arrtable t)). cbn iota in *. lia.
  - intros k r' Hk. rewrite E8, Hc in *. cbn [m states negb andb] in *. destruct (decide (k = val t)) as [->|Hne].
    + injection Hk as <-. cbn [refcnt]. pose proof (H2 _ _ Hr) as Hc2. rewrite bool_decide_true in Hc2 by done.
      rewrite bool_decide_false by lia. cbn [negb andb one] in *. lia.
    + destruct (decide (k = length (states t))) as [->|Hne2].
      * rewrite list_lookup_middle in Hk by done. injection Hk as <-. rewrite bool_decide_true by done. rewrite Hnew. done.
      * rewrite bool_decide_false by done. apply lookup_app_Some in Hk as [Hk|[Hge Hk]].
        -- rewrite (H2 _ _ Hk). by rewrite bool_decide_false.
        -- apply lookup_lt_Some in Hk. cbn [length] in Hk. lia.
  - rewrite E8. rewrite decide_False by lia. exists rs. cbn [m states]. rewrite list_lookup_middle by done. done.
  - apply Forall_lookup. intros k r' Hk. rewrite E8 in Hk. destruct (decide (k = val t)); [injection Hk as <-; exact HFr|].
    cbn [m states] in Hk. refine (Forall_lookup_1 (fun r => Forall (fun x => (x < length (entries t))%nat) (rs_entries r)) _ _ _ _ Hk).
    apply Forall_app. split; [done|]. constructor; [exact H6|constructor].
  - apply E10; done.
  - rewrite length_app. eapply Forall_impl; [exact H7|]. intros x Hx. cbn in *. lia.
  - intros k e (e0 & He0 & ->)%on_readerRef_lookup. pose proof (H8 k e0 He0) as Hok. destruct (decide (cnt k (queue t ++ option_list (arrtable t)) = 0)) as [->|Hnz].
    + replace (readerRefs e0 + 0) with (readerRefs e0) by lia. by destruct e0.
    + assert (Hp : 0 < readerRefs e0).
      { rewrite (H1 k e0 He0), Hc. pose proof (held_nonneg k (states t)). pose proof (cnt_nonneg k (pending t)).
        pose proof (cnt_nonneg k (queue t ++ option_list (arrtable t))). lia. }
      pose proof (entry_ok_ref e0 (count_occ Nat.eq_dec (queue t ++ option_list (arrtable t)) k) Hok Hp) as Hok'. by rewrite iter_readerRef in Hok'.
  - intros k e (e0 & He0 & ->)%on_readerRef_lookup Ho. by eapply H10.
  - intros k e (e0 & He0 & ->)%on_readerRef_lookup Ht Ho. by eapply H11.
Qed.

Lemma lookup_fresh (es : list flushableEntry) n e0 k e :
  (es ++ replicate n e0) !! k = Some e -> es !! k = Some e \/ e = e0 /\ (length es <= k < length es + n)%nat.
Proof. intros [Hk|[Hge Hk]]%lookup_app_Some; [by left|]. apply lookup_replicate in Hk as [-> Hlt]. right. split; [done|lia]. Qed.

Lemma Forall_lt_mono l n m : Forall (fun x => (x < n)%nat) l -> (n <= m)%nat -> Forall (fun x => (x < m)%nat) l.
Proof. intros HF Hnm. eapply Forall_impl; [exact HF|]. intros x Hx. cbn in *. lia. Qed.

Lemma Forall_states_mono ss n m :
  Forall (fun r => Forall (fun x => (x < n)%nat) (rs_entries r)) ss -> (n <= m)%nat ->
  Forall (fun r => Forall (fun x => (x < m)%nat) (rs_entries r)) ss.
Proof. intros HF Hnm. eapply Forall_impl; [exact HF|]. intros r Hr. exact (Forall_lt_mono _ _ _ Hr Hnm). Qed.

Lemma inv_rotate s b : inv s -> closed s = false -> inv (rotate s b).
Proof.
  intros [H1 H2 (r & Hr & _) H4 H5 H6 H7 H8 H9 H10 H11] Hc. apply inv_update; [|done]. set (n := if b then 2%nat else 1%nat).
  set (t := mkStore _ _ _ _ _ _ _ _).
  assert (Huse : forall k, cnt k (in_use t) = cnt k (in_use s) + one (bool_decide (length (entries s) <= k < length (entries s) + n)%nat)).
  { intros k. unfold in_use. cbn [t queue arrtable]. rewrite !cnt_app, cnt_seq. lia. }
  assert (Hlen : length (entries t) = (length (entries s) + n)%nat) by (cbn [t entries]; by rewrite length_app, length_replicate).
  assert (Hel : forall k, k ∈ in_use t -> k ∈ in_use s \/ (length (entries s) <= k < length (entries s) + n)%nat).
  { intros k. rewrite !cnt_elem, Huse. case_bool_decide; cbn [one]; [auto|]. intros. left. lia. }
  split; rewrite ?Hlen; try done.
  - intros k e [Hk|[-> Hk]]%lookup_fresh; unfold own; cbn [t closed]; fold t; rewrite Hc, Huse.
    + rewrite (H1 _ _ Hk). unfold own. rewrite Hc. pose proof (lookup_lt_Some _ _ _ Hk). rewrite bool_decide_false by lia. cbn [one t states pending]. lia.
    + cbn [newFlushableEntry readerRefs]. cbn [t states pending].
      rewrite (held_fresh k (length (entries s))), (cnt_fresh k (pending s) (length (entries s))), (cnt_fresh k (in_use s) (length (entries s))) by (done || lia).
      rewrite bool_decide_true by lia. done.
  - by exists r.
  - cbn [t states]. eapply Forall_states_mono; [exact H4|lia].
  - cbn [t pending]. eapply Forall_lt_mono; [exact H5|lia].
  - apply Forall_forall. intros k [Hk|Hk]%Hel; [|lia]. rewrite Forall_forall in H6. specialize (H6 k Hk). cbn in H6. lia.
  - intros k e [Hk|[-> _]]%lookup_fresh; [by eapply H8|]. by left.
  - unfold in_use. cbn [t queue arrtable]. rewrite <-app_assoc, (Permutation_app_comm (seq _ _)), app_assoc. apply NoDup_app. split; [done|]. split; [|apply NoDup_seq].
    intros k Hk Hs. apply elem_of_seq in Hs. rewrite Forall_forall in H6. specialize (H6 k Hk). cbn in H6. lia.
  - intros k e [Hk|[-> _]]%lookup_fresh Ho; [|done]. intros [Hin|Hin]%Hel; [by eapply H10|]. apply lookup_lt_Some in Hk. lia.
  - intros k e [Hk|[-> _]]%lookup_fresh Ht Ho; [by eapply H11|done].
Qed.

Lemma cnt_perm k l l' : l ≡ₚ l' -> cnt k l = cnt k l'.
Proof. intros H. unfold cnt. f_equal. by apply (Permutation_count_occ Nat.eq_dec). Qed.

(** The order of the pending releases does not matter. *)
Lemma inv_perm s ps :
  inv s -> ps ≡ₚ pending s -> inv (mkStore (entries s) (states s) (val s) (queue s) (arrtable s) ps (readers s) (closed s)).
Proof.
  intros [H1 H2 H3 H4 H5 H6 H7 H8 H9 H10 H11] Hp. split; try done.
  - intros k e Hk. cbn [states pending]. rewrite (cnt_perm k ps _ Hp). by apply H1.
  - cbn [pending entries]. by rewrite Hp.
Qed.

Lemma obs_ref_comm ids ids' es : on_entries setObsolete ids (on_entries readerRef ids' es) = on_entries readerRef ids' (on_entries setObsolete ids es).
Proof.
  apply list_eq. intros k. rewrite !on_entries_lookup. destruct (es !! k) as [e|]; [|done]. cbn [fmap option_fmap option_map]. f_equal.
  rewrite !iter_setObsolete. destruct (_ =? 0)%nat; [done|]. by rewrite !iter_readerRef.
Qed.

Lemma setObsolete_lookup ids es k e : on_entries setObsolete ids es !! k = Some e ->
  exists e0, es !! k = Some e0 /\ readerRefs e = readerRefs e0 /\ isTable e = isTable e0 /\ hasRelease e = hasRelease e0 /\
    releases e = releases e0 /\ deleted e = deleted e0 /\ (obsolete e = true <-> obsolete e0 = true \/ k ∈ ids).
Proof.
  rewrite on_entries_lookup. destruct (es !! k) as [e0|]; [|done]. cbn [fmap option_fmap option_map]. intros [= <-]. exists e0. split; [done|].
  rewrite iter_setObsolete. destruct (Nat.eqb_spec (count_occ Nat.eq_dec ids k) 0) as [E|E].
  - repeat (split; [done|]). split; [by left|]. intros [H|H]; [done|]. apply cnt_elem in H. unfold cnt in H. lia.
  - repeat (split; [done|]). split; [|done]. intros _. right. apply cnt_elem. unfold cnt. lia.
Qed.

Lemma inv_flush s n : inv s -> closed s = false -> (n < length (queue s))%nat -> inv (publish_flush s n).
Proof.
  intros [H1 H2 (r & Hr & _) H4 H5 H6 H7 H8 H9 H10 H11] Hc Hn. set (fl := take n (queue s) ++ option_list (arrtable s)).
  set (at_ := length (entries s)).
  set (t := mkStore (on_entries setObsolete fl (entries s ++ [newFlushableEntry true])) (states s) (val s) (drop n (queue s)) (Some at_)
              (pending s ++ fl) (readers s) (closed s)).
  assert (Hlen : length (entries t) = S at_) by (cbn [t entries]; rewrite length_on_entries, length_app; cbn; unfold at_; lia).
  assert (Hsplit : in_use s ≡ₚ fl ++ drop n (queue s)).
  { unfold in_use, fl. rewrite <-(take_drop n (queue s)) at 1. rewrite <-!app_assoc. f_equiv. apply Permutation_app_comm. }
  assert (Huse : forall k, cnt k (in_use s) = cnt k fl + cnt k (drop n (queue s))) by (intros; by rewrite (cnt_perm k _ _ Hsplit), cnt_app).
  assert (Huse_t : in_use t = drop n (queue s) ++ [at_]) by done.
  assert (Hold : forall k, k ∈ drop n (queue s) -> k ∈ in_use s) by (intros k Hk; rewrite Hsplit; apply elem_of_app; by right).
  assert (Hfl : forall k, k ∈ fl -> k ∈ in_use s) by (intros k Hk; rewrite Hsplit; apply elem_of_app; by left).
  assert (Hlt : forall k, k ∈ in_use s -> (k < at_)%nat) by (intros k Hk; rewrite Forall_forall in H6; by apply H6).
  assert (Hent : forall k e, entries t !! k = Some e ->
    (exists e0, entries s !! k = Some e0 /\ (k < at_)%nat /\ readerRefs e = readerRefs e0 /\ isTable e = isTable e0 /\ hasRelease e = hasRelease e0 /\
       releases e = releases e0 /\ deleted e = deleted e0 /\ (obsolete e = true <-> obsolete e0 = true \/ k ∈ fl)) \/
    (k = at_ /\ e = newFlushableEntry true)).
  { intros k e (e0 & He0 & P)%setObsolete_lookup. apply (lookup_fresh _ 1) in He0 as [He0|[-> Hk]].
    - left. exists e0. split; [done|]. split; [by eapply lookup_lt_Some|done].
    - right. assert (k = at_) as -> by (unfold at_; lia). split; [done|]. destruct P as (P1 & P2 & P3 & P4 & P5 & P6). destruct e as [a1 a2 a3 a4 a5 a6]. cbn in *. subst.
      unfold newFlushableEntry. f_equal. destruct a2; [|done]. destruct (proj1 P6 eq_refl) as [?|Hin]; [done|]. apply Hfl, Hlt in Hin. lia. }
  assert (Hnd : NoDup (fl ++ drop n (queue s))) by (by rewrite <-Hsplit). apply NoDup_app in Hnd as (Hnd1 & Hnd2 & Hnd3).
  assert (Ht : inv_gen false t).
  { split; rewrite ?Hlen; try done.
    - intros k e [(e0 & He0 & Hk & -> & _)|[-> ->]]%Hent; cbn [t states pending]; unfold own; cbn [t closed]; fold t; rewrite Hc, Huse_t, !cnt_app, cnt_cons, cnt_nil.
      + rewrite (H1 _ _ He0). unfold own. rewrite Hc, Huse. rewrite bool_decide_false by lia. cbn [one]. lia.
      + rewrite bool_decide_true by done. rewrite (held_fresh at_ at_), (cnt_fresh at_ (pending s) at_) by done.
        assert (cnt at_ (in_use s) = 0) as Hz by (by apply (cnt_fresh at_ _ at_)). rewrite Huse in Hz.
        pose proof (cnt_nonneg at_ fl). pose proof (cnt_nonneg at_ (drop n (queue s))). cbn [newFlushableEntry readerRefs one]. lia.
    - by exists r.
    - cbn [t states]. eapply Forall_states_mono; [exact H4|unfold at_; lia].
    - cbn [t pending]. apply Forall_app. split; [eapply Forall_lt_mono; [exact H5|unfold at_; lia]|].
      apply Forall_forall. intros k Hk%Hfl%Hlt. lia.
    - rewrite Huse_t. apply Forall_app. split; [|constructor; [lia|constructor]]. apply Forall_forall. intros k Hk%Hold%Hlt. lia.
    - intros k e [(e0 & He0 & Hk & P1 & P2 & P3 & P4 & P5 & P6)|[-> ->]]%Hent; [|by left]. unfold entry_ok. rewrite P1, P2, P3, P4, P5.
      destruct (H8 k e0 He0) as [?|(R1 & R2 & R3 & R4)]; [by left|right]. repeat (split; [done|]). rewrite R4. f_equal.
      assert (Hnf : k ∉ fl).
      { intros Hin%Hfl%cnt_elem. rewrite (H1 _ _ He0) in R1. unfold own in R1. rewrite Hc in R1.
        pose proof (held_nonneg k (states s)). pose proof (cnt_nonneg k (pending s)). lia. }
      destruct (obsolete e0) eqn:E0, (obsolete e) eqn:E1; try done.
      + destruct (proj2 P6 (or_introl eq_refl)). done.
      + destruct (proj1 P6 eq_refl); done.
    - rewrite Huse_t. apply NoDup_app. split; [done|]. split; [|apply NoDup_singleton]. intros k Hk%Hold%Hlt ->%list_elem_of_singleton. lia.
    - intros k e [(e0 & He0 & Hk & P1 & P2 & P3 & P4 & P5 & P6)|[-> ->]]%Hent Ho; [|done]. rewrite Huse_t.
      intros [Hin|Hin]%elem_of_app; [|apply list_elem_of_singleton in Hin; lia]. apply P6 in Ho as [Ho|Ho]; [by eapply H10; [exact He0|exact Ho|apply Hold]|].
      by eapply Hnd2.
    - intros k e [(e0 & He0 & Hk & P1 & P2 & P3 & P4 & P5 & P6)|[-> ->]]%Hent Htb Ho; [exfalso|done].
      assert (Ho0 : obsolete e0 = false) by (destruct (obsolete e0) eqn:E0; [|done]; destruct (proj2 P6 (or_introl eq_refl)); congruence).
      assert (Ha : arrtable s = Some k) by (eapply H11; [exact He0|congruence|done]).
      assert (Hin : k ∈ fl) by (unfold fl; rewrite Ha; apply elem_of_app; right; left). pose proof (proj2 P6 (or_intror Hin)). congruence. }
  pose proof (inv_update t Ht Hc) as Hinv. unfold publish_flush. fold fl at_.
  set (rs := mkRS 1 (drop n (queue s)) (Some at_)). assert (Hl : (states s ++ [rs]) !! val s = Some r) by (by apply lookup_app_l_Some).
  unfold updateReadState, rs_unref in Hinv |- *. cbn [t entries states val queue arrtable pending readers closed] in Hinv |- *. fold rs in Hinv |- *.
  rewrite Hl in Hinv |- *. cbn [entries states val queue arrtable pending readers closed] in Hinv |- *.
  rewrite <-obs_ref_comm in Hinv. apply (inv_perm _ ((if negb (refcnt r - 1 =? 0) then pending s else pending s ++ rs_entries r) ++ fl)) in Hinv; [exact Hinv|].
  cbn [pending]. destruct (negb (refcnt r - 1 =? 0)); [reflexivity|]. rewrite <-!app_assoc. f_equiv. apply Permutation_app_comm.
Qed.

Lemma inv_close s : inv s -> closed s = false -> inv (close_store s).
Proof.
  intros [H1 H2 (r & Hr & Hr') H4 H5 H6 H7 H8 H9 H10 H11] Hc. unfold close_store.
  assert (Hpos : 0 < refcnt r).
  { rewrite (H2 _ _ Hr), Hc, bool_decide_true by done. pose proof (cnt_nonneg (val s) (readers s)). cbn [negb andb one]. lia. }
  destruct (rs_unref_spec s (val s) r Hr Hpos) as (E1 & E2 & E3 & E4 & E5 & E6 & E7 & E8 & E9 & E10). cbv zeta in *.
  assert (HFr : Forall (fun x => (x < length (entries s))%nat) (rs_entries r)).
  { rewrite Forall_forall in H4. apply (H4 r). by eapply list_elem_of_lookup_2. }
  split; unfold own, in_use in *; cbn [entries states val queue arrtable pending readers closed]; rewrite ?E1, ?E2, ?E3, ?E4, ?E5, ?E6, ?E7; try done.
  - intros k e Hk. rewrite cnt_app. pose proof (E9 k). rewrite (H1 k e Hk), Hc. lia.
  - intros k r' Hk. rewrite E8 in Hk. cbn [negb andb one]. destruct (decide (k = val s)) as [->|Hne].
    + injection Hk as <-. cbn [refcnt]. rewrite (H2 _ _ Hr), Hc, bool_decide_true by done. cbn [negb andb one]. lia.
    + rewrite (H2 _ _ Hk), bool_decide_false by done. rewrite andb_false_r. done.
  - rewrite E8. rewrite decide_True by done. eexists. split; [done|]. done.
  - apply Forall_lookup. intros k r' Hk. rewrite E8 in Hk. destruct (decide (k = val s)); [injection Hk as <-; exact HFr|].
    exact (Forall_lookup_1 _ _ _ _ H4 Hk).
  - apply Forall_app. split; [by apply E10|done].
Qed.

Lemma inv_reachable table s : reachable table s -> inv s.
Proof.
  induction 1 as [|s e s' _ IH Hs]; [apply inv_opened|]. destruct e as [|j|j|b|n|]; cbn [step] in Hs.
  - destruct (closed s) eqn:Hc; [done|]. injection Hs as <-. by apply inv_load.
  - destruct (readers s !! j) as [i|] eqn:Hj; [|done]. injection Hs as <-. by apply inv_unref_state.
  - destruct (pending s !! j) as [i|] eqn:Hj; [|done]. injection Hs as <-. by apply inv_unref_entry.
  - destruct (closed s) eqn:Hc; [done|]. injection Hs as <-. by apply inv_rotate.
  - destruct (closed s) eqn:Hc; [done|]. cbn [orb] in Hs. destruct (Nat.leb_spec (length (queue s)) n); [done|]. destruct (n =? 0)%nat; [done|].
    injection Hs as <-. by apply inv_flush.
  - destruct (closed s) eqn:Hc; [done|]. injection Hs as <-. by apply inv_close.
Qed.

(** ** What the counts guarantee *)

Lemma live_entry s k : inv s -> (k < length (entries s))%nat -> 0 < held k (states s) + cnt k (pending s) + own k s ->
  exists e, entries s !! k = Some e /\ releases e = 0%nat /\ deleted e = false.
Proof.
  intros Hi Hk Hpos. apply lookup_lt_is_Some_2 in Hk as [e He]. exists e. split; [done|].
  apply entry_ok_live; [by eapply i_entry|]. by rewrite (i_refs _ _ Hi k e He).
Qed.

(** With no reader left and nothing pending, only the store refers to entries. *)
Lemma held_quiet s k : inv s -> readers s = [] -> held k (states s) = if closed s then 0 else cnt k (in_use s).
Proof.
  intros [H1 H2 (r & Hr & Hr') _ _ _ _ _ _ _ _] Hq.
  assert (Hz : forall ss a, (forall i x, ss !! i = Some x -> refcnt x = one (negb (closed s) && bool_decide (a + i = val s)%nat)) ->
    held k ss = match ss !! (val s - a)%nat with Some x => if (a <=? val s)%nat && negb (closed s) then cnt k (rs_entries x) else 0 | None => 0 end).
  { induction ss as [|x ss IH]; intros a Ha; [done|]. rewrite held_cons, (IH (S a)).
    2: { intros i y Hy. rewrite (Ha (S i) y Hy). do 2 f_equal. apply bool_decide_ext. lia. }
    pose proof (Ha 0%nat x eq_refl) as Hx. rewrite Nat.add_0_r in Hx. unfold share. rewrite Hx.
    destruct (closed s) eqn:Hc; cbn [negb andb one].
    - rewrite !andb_false_r. change (0 <? 0) with false. by repeat case_match.
    - rewrite !andb_true_r. case_bool_decide as Hav; cbn [one].
      + rewrite Hav, Nat.sub_diag, Nat.leb_refl. change (0 <? 1) with true. cbn [lookup list_lookup].
        destruct (Nat.leb_spec (S (val s)) (val s)); [lia|]. cbn [andb]. case_match; apply Z.add_0_r.
      + change (0 <? 0) with false. destruct (Nat.leb_spec a (val s)) as [Hle|Hgt].
        * replace (val s - a)%nat with (S (val s - S a)) by lia. cbn [lookup list_lookup].
          destruct (Nat.leb_spec (S a) (val s)); [|lia]. done.
        * destruct (Nat.leb_spec (S a) (val s)); [lia|]. replace (val s - a)%nat with 0%nat by lia. cbn [lookup list_lookup]. by case_match. }
  rewrite (Hz (states s) 0%nat).
  - rewrite Nat.sub_0_r, Hr. cbn [Nat.leb andb]. destruct (closed s) eqn:Hc; [done|]. cbn [negb]. by rewrite Hr'.
  - intros i x Hx. rewrite (H2 i x Hx), Hq, cnt_nil, Z.add_0_r. done.
Qed.

(** Nobody reads released memory. *)
Definition readable (s : store) (k : nat) : Prop := exists e, entries s !! k = Some e /\ releases e = 0%nat /\ deleted e = false.

(** No entry is left behind: what is not in use has been released, the file of
    every replaced table is gone and the current table's is not. *)
Definition clean (s : store) : Prop :=
  forall k e, entries s !! k = Some e ->
    (releases e = 1%nat <-> (closed s = true \/ k ∉ in_use s)) /\
    (deleted e = true <-> isTable e = true /\ arrtable s <> Some k).

Lemma clean_quiet s : inv s -> readers s = [] -> pending s = [] -> clean s.
Proof.
  intros Hi Hr Hp k e He. pose proof (i_refs _ _ Hi k e He) as Href. rewrite (held_quiet s k Hi Hr), Hp, cnt_nil in Href. unfold own in Href.
  pose proof (cnt_nonneg k (in_use s)) as Hn. pose proof (cnt_elem k (in_use s)) as Hel.
  assert (Harr : arrtable s = Some k -> k ∈ in_use s) by (intros E; unfold in_use; rewrite E; apply elem_of_app; right; left).
  destruct (i_entry _ _ Hi k e He) as [(P1 & P2 & P3 & P4)|(P1 & P2 & P3 & P4)].
  - destruct (closed s) eqn:Hc; [lia|]. assert (Hin : k ∈ in_use s) by (apply Hel; lia). rewrite P3, P4. split; [split; [done|]; intros [?|?]; done|].
    split; [done|]. intros [Ht Ha]. exfalso. apply Ha. eapply (i_table _ _ Hi); [exact He|done|].
    destruct (obsolete e) eqn:Ho; [|done]. by destruct (i_obs _ _ Hi k e He Ho).
  - split.
    + split; [|done]. intros _. destruct (closed s) eqn:Hc; [by left|right]. rewrite Hel. lia.
    + rewrite P4, andb_true_iff. split; intros [Ht Ho]; (split; [done|]).
      * intros E. by apply (i_obs _ _ Hi k e He Ho), Harr.
      * destruct (obsolete e) eqn:Eo; [done|]. exfalso. apply Ho. by eapply (i_table _ _ Hi).
Qed.

(** C8: readers are safe and nothing leaks.  Under every interleaving of
    readers with rotations, flushes and the closing of the store, no memtable
    or table that a reader's state, or the store itself, refers to has been
    released or had its file deleted; no entry is released twice; the file of
    the current table is never deleted; and once no reader is left and the
    pending decrements are done, exactly the entries out of use have been
    released and exactly the files of replaced tables deleted. *)
Theorem read_state_safe table s :
  reachable table s ->
  (forall i r k, i ∈ readers s -> states s !! i = Some r -> k ∈ rs_entries r -> readable s k) /\
  (closed s = false -> forall k, k ∈ in_use s -> readable s k) /\
  (forall k e, entries s !! k = Some e -> (releases e <= 1)%nat /\ (deleted e = true -> obsolete e = true /\ arrtable s <> Some k)) /\
  (readers s = [] -> pending s = [] -> clean s).
Proof.
  intros Hs%inv_reachable. split; [|split; [|split]].
  - intros i r k Hi Hr Hk. apply live_entry; [done| |].
    + pose proof (Forall_lookup_1 _ _ _ _ (i_states _ _ Hs) Hr) as HF. cbn in HF. rewrite Forall_forall in HF. by apply HF.
    + assert (Hshare : share k r = cnt k (rs_entries r)).
      { unfold share. rewrite (proj2 (Z.ltb_lt 0 (refcnt r))); [done|]. rewrite (i_cnt _ _ Hs i r Hr). apply cnt_elem in Hi. destruct (_ && _); cbn [one]; lia. }
      pose proof (held_elem k _ i r Hr) as Hh. apply cnt_elem in Hk. pose proof (cnt_nonneg k (pending s)). unfold own. pose proof (cnt_nonneg k (in_use s)).
      destruct (closed s); lia.
  - intros Hc k Hk. apply live_entry; [done| |].
    + pose proof (i_use _ _ Hs) as HF. rewrite Forall_forall in HF. by apply HF.
    + apply cnt_elem in Hk. unfold own. rewrite Hc. pose proof (held_nonneg k (states s)). pose proof (cnt_nonneg k (pending s)). lia.
  - intros k e He. destruct (i_entry _ _ Hs k e He) as [(P1 & P2 & P3 & P4)|(P1 & P2 & P3 & P4)]; rewrite P3, P4; (split; [lia|]); [done|].
    intros [_ Ho]%andb_true_iff. split; [done|]. intros E. apply (i_obs _ _ Hs k e He Ho). unfold in_use. rewrite E. apply elem_of_app. right. left.
  - by apply clean_quiet.
Qed.

(** Two flushes around a reader that is done with its state. *)
Definition demo_events : list event :=
  [EvRotate false; EvFlush 1; EvUnrefEntry 0; EvUnrefEntry 0; EvLoad; EvRotate true; EvFlush 2; EvUnrefState 0].

Fixpoint run_events (s : store) (es : list event) : store :=
  match es with
  | [] => s
  | e :: es' => match step s e with Some s' => run_events s' es' | None => s end
  end.

Lemma run_reachable table es s : reachable table s -> reachable table (run_events s es).
Proof.
  revert s. induction es as [|e es IH]; intros s Hs; cbn [run_events]; [done|].
  destruct (step s e) as [s'|] eqn:E; [|done]. apply IH. by eapply reach_next.
Qed.

Lemma read_state_safe_witness :
  let s := run_events (opened false) demo_events in
  (closed s = false -> forall k, k ∈ in_use s -> readable s k) /\ pending s <> [] /\ readers s = [].
Proof.
  cbv zeta. split; [|by vm_compute].
  apply (read_state_safe false (run_events (opened false) demo_events)), run_reachable, reach_opened.
Defined.
