(* ===== verification/WalFiles.v ===== *)
(** The bookkeeping of WAL files: the recycler (log_recycler.go), the merge of
    the lists of obsolete files (compaction.go) and the split of the queue after
    a flush (plain_flush.go: [doDeleteObsoleteFiles]). *)

From Stdlib Require Import ZArith Lia.
From stdpp Require Import base numbers option sorting list.
From S2P Require Import Prelude Base.

Record fileInfo : Type := mkInfo { fileNum : Z; fileSize : Z }.

(** ** The recycler *)

Record logRecycler : Type := mkRecycler {
  limit : Z; minRecycleLogNum : Z; logs : list fileInfo; maxLogNum : Z
}.

Definition add (r : logRecycler) (logInfo : fileInfo) : logRecycler * bool :=
  if fileNum logInfo <? minRecycleLogNum r then (r, false)
  else if fileNum logInfo <=? maxLogNum r then (r, true)
  else
    let r := mkRecycler (limit r) (minRecycleLogNum r) (logs r) (fileNum logInfo) in
    if limit r <=? len (logs r) then (r, false)
    else (mkRecycler (limit r) (minRecycleLogNum r) (logs r ++ [logInfo]) (maxLogNum r), true).

Definition peek (r : logRecycler) : option fileInfo := head (logs r).

Definition stats (r : logRecycler) : Z * Z :=
  (len (logs r), foldl (fun size f => u64 (size + fileSize f)) 0 (logs r)).

Definition pop (r : logRecycler) (logNum : Z) : outcome logRecycler :=
  match logs r with
  | [] => Err ErrRecyclerEmpty
  | f :: logs' =>
      if fileNum f =? logNum then Ok (mkRecycler (limit r) (minRecycleLogNum r) logs' (maxLogNum r))
      else Err ErrRecyclerInvalid
  end.

(** What its clients do: a flush adds files, a rotation takes the one it peeked
    at. *)
Inductive rop : Type := RAdd (f : fileInfo) | RTake.

(** A step of the recycler with the files stored and taken by it. *)
Definition rstep (r : logRecycler) (o : rop) : outcome (logRecycler * list fileInfo * list fileInfo) :=
  match o with
  | RAdd f =>
      let r' := fst (add r f) in
      Ok (r', if len (logs r) <? len (logs r') then [f] else [], [])
  | RTake =>
      match peek r with
      | None => Ok (r, [], [])
      | Some f => let! r' := pop r (fileNum f) in Ok (r', [], [f])
      end
  end.

Fixpoint rrun (r : logRecycler) (os : list rop) : outcome (logRecycler * list fileInfo * list fileInfo) :=
  match os with
  | [] => Ok (r, [], [])
  | o :: os' =>
      let! (r1, s1, t1) := rstep r o in
      let! (r2, s2, t2) := rrun r1 os' in
      Ok (r2, s1 ++ s2, t1 ++ t2)
  end.

Definition num_lt (a b : fileInfo) : Prop := fileNum a < fileNum b.

Record rwf (r : logRecycler) : Prop := mkRwf {
  rw_sorted : StronglySorted num_lt (logs r);
  rw_range : Forall (fun f => minRecycleLogNum r <= fileNum f <= maxLogNum r) (logs r);
  rw_limit : len (logs r) <= limit r
}.

Lemma StronglySorted_snoc {A} (R : A -> A -> Prop) l x :
  StronglySorted R l -> Forall (fun y => R y x) l -> StronglySorted R (l ++ [x]).
Proof.
  induction 1 as [|y l Hs IH Hy]; intros HF; cbn; [repeat constructor|].
  apply Forall_cons in HF as [H1 H2]. constructor; [auto|]. apply Forall_app. split; [done|]. by constructor.
Qed.

(** One step: stored files come after every file seen before, taken files are
    the oldest. *)
Lemma rstep_ok r o :
  rwf r -> 0 <= limit r -> exists r' s t, rstep r o = Ok (r', s, t) /\ rwf r' /\ limit r' = limit r /\
    minRecycleLogNum r' = minRecycleLogNum r /\ maxLogNum r <= maxLogNum r' /\
    t ++ logs r' = logs r ++ s /\
    Forall (fun f => maxLogNum r < fileNum f <= maxLogNum r' /\ minRecycleLogNum r <= fileNum f) s /\
    StronglySorted num_lt s.
Proof.
  intros [H1 H2 H3] Hlim. destruct o as [f|]; cbn [rstep].
  - unfold add. destruct (Z.ltb_spec (fileNum f) (minRecycleLogNum r)); cbn [fst].
    { rewrite Z.ltb_irrefl. exists r, [], []. repeat split; try done; rewrite ?app_nil_r; (done || lia || constructor). }
    destruct (Z.leb_spec (fileNum f) (maxLogNum r)); cbn [fst].
    { rewrite Z.ltb_irrefl. exists r, [], []. repeat split; try done; rewrite ?app_nil_r; (done || lia || constructor). }
    cbn [limit logs minRecycleLogNum maxLogNum].
    assert (Hr : forall m, maxLogNum r <= m -> Forall (fun g => minRecycleLogNum r <= fileNum g <= m) (logs r))
      by (intros m Hm; eapply Forall_impl; [exact H2|]; cbn; lia).
    destruct (Z.leb_spec (limit r) (len (logs r))); cbn [fst logs].
    + rewrite Z.ltb_irrefl. eexists _, [], []. split; [reflexivity|]. rewrite app_nil_r. cbn.
      repeat split; try done; try lia; try (by constructor). apply Hr; cbn; lia.
    + rewrite len_app. change (len [f]) with 1. destruct (Z.ltb_spec (len (logs r)) (len (logs r) + 1)); [|lia].
      eexists _, [f], []. split; [reflexivity|]. cbn.
      assert (Hs : StronglySorted num_lt (logs r ++ [f])).
      { apply StronglySorted_snoc; [done|]. eapply Forall_impl; [exact H2|]. unfold num_lt. cbn. lia. }
      split; [split; cbn [logs minRecycleLogNum maxLogNum limit]; [done| |rewrite len_app; change (len [f]) with 1; lia]|].
      * apply Forall_app. split; [apply Hr; lia|]. constructor; [lia|constructor].
      * repeat split; try done; [lia|constructor; [lia|constructor]|repeat constructor].
  - unfold peek. destruct (logs r) as [|f l] eqn:El; cbn [head].
    + exists r, [], []. rewrite El. split; [done|]. split; [split; by rewrite El|].
      repeat split; (done || lia || constructor).
    + unfold pop. rewrite El, Z.eqb_refl. cbn [rbind]. eexists _, [], [f]. split; [reflexivity|]. cbn. rewrite app_nil_r.
      rewrite len_cons in H3. inversion H1; inversion H2; subst.
      pose proof (len_nonneg l). split; [split; cbn; (done || lia)|]. repeat split; (done || lia || constructor).
Qed.

Lemma rrun_ok r os :
  rwf r -> 0 <= limit r -> exists r' s t, rrun r os = Ok (r', s, t) /\ rwf r' /\ limit r' = limit r /\
    maxLogNum r <= maxLogNum r' /\ t ++ logs r' = logs r ++ s /\
    Forall (fun f => maxLogNum r < fileNum f <= maxLogNum r' /\ minRecycleLogNum r <= fileNum f) s /\
    StronglySorted num_lt s.
Proof.
  revert r. induction os as [|o os IH]; intros r Hw Hl; cbn [rrun].
  { exists r, [], []. rewrite app_nil_r. repeat split; try apply Hw; (done || lia || constructor). }
  destruct (rstep_ok r o Hw Hl) as (r1 & s1 & t1 & -> & Hw1 & L1 & Mn1 & Mx1 & E1 & F1 & S1). cbn [rbind].
  destruct (IH r1 Hw1 ltac:(lia)) as (r2 & s2 & t2 & -> & Hw2 & L2 & Mx2 & E2 & F2 & S2). cbn [rbind].
  exists r2, (s1 ++ s2), (t1 ++ t2). split; [done|]. split; [done|]. split; [lia|]. split; [lia|].
  split; [rewrite <-app_assoc, E2, !app_assoc, E1; done|]. split.
  - apply Forall_app. split; (eapply Forall_impl; [eassumption|]; cbn; lia).
  - clear IH E1 E2. induction S1 as [|x l Hs IHs Hx]; [done|]. cbn. apply Forall_cons in F1 as [Fx F1].
    constructor; [by apply IHs|]. apply Forall_app. split; [done|].
    eapply Forall_impl; [exact F2|]. unfold num_lt. cbn. lia.
Qed.

(** Over any sequence of additions and rotations the recycler hands files
    out in the order they were stored, each at most once, under strictly
    increasing numbers that are never below the recycling threshold, and never
    holds more than its limit. *)
Theorem recycler_fifo lim mn os :
  0 <= lim ->
  exists r stored taken, rrun (mkRecycler lim mn [] 0) os = Ok (r, stored, taken) /\
    taken ++ logs r = stored /\ StronglySorted num_lt stored /\
    Forall (fun f => mn <= fileNum f) stored /\ len (logs r) <= lim.
Proof.
  intros Hl. destruct (rrun_ok (mkRecycler lim mn [] 0) os) as (r & s & t & E & Hw & Hlim & _ & Ht & HF & Hs);
    [split; cbn; try constructor; rewrite ?len_nil; lia|done|].
  exists r, s, t. split; [done|]. split; [done|]. split; [done|]. split.
  - eapply Forall_impl; [exact HF|]. cbn. lia.
  - pose proof (rw_limit r Hw). cbn in Hlim. lia.
Qed.

Lemma recycler_fifo_witness :
  exists r stored taken,
    rrun (mkRecycler 2 3 [] 0) [RAdd (mkInfo 2 0); RAdd (mkInfo 4 9); RAdd (mkInfo 4 9); RTake; RAdd (mkInfo 5 1)]
    = Ok (r, stored, taken) /\ taken ++ logs r = stored /\ StronglySorted num_lt stored /\
    Forall (fun f => 3 <= fileNum f) stored /\ len (logs r) <= 2.
Proof. apply (recycler_fifo 2 3). lia. Defined.

(** ** Obsolete files *)

(** The split of [p.mu.log.queue]: the prefix before the first file at or past
    the oldest log still needed; the queue is left alone when there is none. *)
Fixpoint first_needed (queue : list fileInfo) (minUnflushed : Z) : option nat :=
  match queue with
  | [] => None
  | f :: queue' =>
      if minUnflushed <=? fileNum f then Some O
      else match first_needed queue' minUnflushed with Some i => Some (S i) | None => None end
  end.

Definition split_obsolete (queue : list fileInfo) (minUnflushed : Z) : list fileInfo * list fileInfo :=
  match first_needed queue minUnflushed with
  | Some i => (take i queue, drop i queue)
  | None => ([], queue)
  end.

(** The files [doDeleteObsoleteFiles] recycles or deletes. *)
Fixpoint dispose (r : logRecycler) (obsolete : list fileInfo) : logRecycler * list fileInfo :=
  match obsolete with
  | [] => (r, [])
  | f :: fs =>
      let '(r1, kept) := add r f in
      let '(r2, deleted) := dispose r1 fs in
      (r2, if kept then deleted else f :: deleted)
  end.

Lemma split_obsolete_spec queue minUnflushed :
  StronglySorted num_lt queue -> Exists (fun f => minUnflushed <= fileNum f) queue ->
  exists obsolete rest, split_obsolete queue minUnflushed = (obsolete, rest) /\ obsolete ++ rest = queue /\
    Forall (fun f => fileNum f < minUnflushed) obsolete /\ Forall (fun f => minUnflushed <= fileNum f) rest.
Proof.
  intros Hs Hex. unfold split_obsolete.
  assert (Hi : exists i, first_needed queue minUnflushed = Some i /\
     Forall (fun f => fileNum f < minUnflushed) (take i queue) /\
     Forall (fun f => minUnflushed <= fileNum f) (drop i queue)).
  { induction Hs as [|f l Hs IH Hf]; [by inversion Hex|]. cbn [first_needed].
    destruct (Z.leb_spec minUnflushed (fileNum f)) as [Hle|Hlt].
    - exists 0%nat. split; [done|]. split; [constructor|]. cbn. constructor; [done|].
      eapply Forall_impl; [exact Hf|]. unfold num_lt. cbn. lia.
    - apply Exists_cons in Hex as [?|Hex]; [lia|]. destruct (IH Hex) as (i & -> & H1 & H2).
      exists (S i). split; [done|]. split; [by constructor|done]. }
  destruct Hi as (i & -> & H1 & H2). exists (take i queue), (drop i queue). split; [done|]. split; [apply take_drop|done].
Qed.

(** Disposing of logs keeps nothing but them: what is deleted, and what the
    recycler holds afterwards, comes from the list. *)
Lemma dispose_spec r obsolete (P : fileInfo -> Prop) :
  Forall P obsolete -> Forall P (logs r) ->
  Forall P (snd (dispose r obsolete)) /\ Forall P (logs (fst (dispose r obsolete))).
Proof.
  intros HF. revert r. induction HF as [|f l Hf HF IH]; intros r Hr; cbn [dispose]; [by split; [constructor|]|].
  assert (Hadd : Forall P (logs (fst (add r f)))).
  { unfold add. repeat (case_match; cbn [fst logs]; try done). apply Forall_app. split; [done|]. by constructor. }
  destruct (add r f) as [r1 kept]. specialize (IH r1 Hadd). destruct (dispose r1 l) as [r2 d]. cbn [fst snd] in *.
  destruct IH as [IH1 IH2]. split; [|done]. destruct kept; [done|by constructor].
Qed.

(** Of an ordered queue exactly the logs below the oldest one still needed
    leave it, and only those can be recycled or deleted. *)
Theorem obsolete_split queue minUnflushed r :
  StronglySorted num_lt queue -> Exists (fun f => minUnflushed <= fileNum f) queue ->
  let '(obsolete, rest) := split_obsolete queue minUnflushed in
  obsolete ++ rest = queue /\ Forall (fun f => fileNum f < minUnflushed) obsolete /\
  Forall (fun f => minUnflushed <= fileNum f) rest /\
  Forall (fun f => fileNum f < minUnflushed) (snd (dispose r obsolete)).
Proof.
  intros Hs Hex. destruct (split_obsolete_spec queue minUnflushed Hs Hex) as (o & rest & -> & H1 & H2 & H3).
  split; [done|]. split; [done|]. split; [done|]. clear -H2. revert r.
  induction H2 as [|f l Hf HF IH]; intros r; cbn [dispose]; [constructor|].
  destruct (add r f) as [r1 kept]. specialize (IH r1). destruct (dispose r1 l) as [r2 d]. cbn [snd] in *.
  destruct kept; [done|by constructor].
Qed.

Lemma obsolete_split_witness :
  split_obsolete [mkInfo 3 0; mkInfo 5 0; mkInfo 7 0] 5 = ([mkInfo 3 0], [mkInfo 5 0; mkInfo 7 0]) /\
  Forall (fun f => 5 <= fileNum f) [mkInfo 5 0; mkInfo 7 0].
Proof.
  split; [done|].
  destruct (obsolete_split [mkInfo 3 0; mkInfo 5 0; mkInfo 7 0] 5 (mkRecycler 1 0 [] 0)) as (_ & _ & H & _); [..|exact H].
  - repeat constructor.
  - right. left. cbn. lia.
Defined.

(** [merge]: append, sort by number, drop repeated numbers in place. *)
#[export] Instance num_le_dec : RelDecision (fun a b => fileNum a <= fileNum b).
Proof. intros a b. apply _. Defined.

Fixpoint dedup (last : option Z) (l : list fileInfo) : list fileInfo :=
  match l with
  | [] => []
  | f :: l' =>
      if decide (last = Some (fileNum f)) then dedup last l' else f :: dedup (Some (fileNum f)) l'
  end.

Definition merge (a b : list fileInfo) : list fileInfo :=
  match b with
  | [] => a
  | _ => dedup None (merge_sort (fun a b => fileNum a <= fileNum b) (a ++ b))
  end.

Lemma dedup_spec last l :
  StronglySorted (fun a b => fileNum a <= fileNum b) l ->
  (forall n, last = Some n -> Forall (fun f => n <= fileNum f) l) ->
  StronglySorted num_lt (dedup last l) /\
  (forall n, last = Some n -> Forall (fun f => n < fileNum f) (dedup last l)) /\
  (forall n, n ∈ (fileNum <$> dedup last l) <-> n ∈ (fileNum <$> l) /\ last <> Some n).
Proof.
  intros Hs. revert last. induction Hs as [|f l Hs IH Hf]; intros last Hl; cbn [dedup].
  { split; [constructor|]. split; [constructor|]. intros n. cbn. rewrite elem_of_nil. tauto. }
  case_decide as Ed.
  - destruct (IH last) as (H1 & H2 & H3); [intros n E; specialize (Hl n E); by apply Forall_inv_tail in Hl|].
    split; [done|]. split; [done|]. intros n. rewrite H3. cbn. rewrite elem_of_cons.
    split; [tauto|]. intros [[->|?] ?]; [done|tauto].
  - destruct (IH (Some (fileNum f))) as (H1 & H2 & H3); [by intros n [= <-]|]. specialize (H2 _ eq_refl).
    split; [by constructor|]. split.
    + intros n E. specialize (Hl n E). apply Forall_cons in Hl as [Hn _].
      assert (n < fileNum f) by (destruct (Z.eq_dec n (fileNum f)); [congruence|lia]).
      constructor; [done|]. eapply Forall_impl; [exact H2|]. cbn. lia.
    + intros n. cbn. rewrite !elem_of_cons, H3.
      destruct (decide (n = fileNum f)) as [->|Hne]; [tauto|].
      split; [|intros [[?|Hin] ?]; [done|right; split; [done|congruence]]].
      intros [?|[Hin _]]; [done|]. split; [by right|]. intros E. specialize (Hl n E).
      apply Forall_cons in Hl as [Hn _]. apply list_elem_of_fmap in Hin as (g & -> & Hg).
      rewrite Forall_forall in Hf. specialize (Hf g Hg). cbn in Hf. lia.
Qed.

(** Merging the queue with the obsolete files found at start yields the files
    of both, once each, in the order of their numbers; an empty second list
    leaves the queue as it is. *)
Lemma merge_spec a b :
  (b = [] -> merge a b = a) /\
  (b <> [] -> StronglySorted num_lt (merge a b) /\
     forall n, n ∈ (fileNum <$> merge a b) <-> n ∈ (fileNum <$> a) \/ n ∈ (fileNum <$> b)).
Proof.
  split; [by intros ->|]. intros Hb. unfold merge. destruct b as [|x b]; [done|].
  destruct (dedup_spec None (merge_sort (fun a b => fileNum a <= fileNum b) (a ++ x :: b))) as (H1 & _ & H3); [|done|].
  { apply StronglySorted_merge_sort; [intros ???; lia|intros ??; lia]. }
  split; [done|]. intros n. rewrite H3, merge_sort_Permutation, fmap_app, elem_of_app. split; [tauto|]. intros; split; [tauto|done].
Qed.

Lemma merge_spec_witness :
  StronglySorted num_lt (merge [mkInfo 5 0; mkInfo 3 0] [mkInfo 3 1; mkInfo 4 0]).
Proof. apply (merge_spec [mkInfo 5 0; mkInfo 3 0] [mkInfo 3 1; mkInfo 4 0]). done. Defined.
