(* ===== verification/Skl.v ===== *)
(** The memtable's skiplist (internal/arenaskl/skl.go, node.go, iterator.go and
    flush_iterator.go): towers of links in arena blocks, insertion through a
    splice an [Inserter] keeps between calls, lookups and iterators.

    A pointer to a node is the arena offset of its block and nil is 0.  The
    header and the links of a node are a record of the [nodes] map, keyed by
    that offset; keys and values are bytes of the arena.  A tower has the links
    of the node's own levels: the rest of the declared array is other nodes'
    memory, and touching it is a panic here.

    Additions run one after the other: an addition finds the links as the
    previous one left them, whatever inserters the additions use.  The retry
    loop of [addInternal] is modelled and does run, when an inserter's splice
    is out of date.  The random height is an argument. *)

From Stdlib Require Import ZArith Lia.
From stdpp Require Import base numbers option gmap sorting list.
From S2P Require Import Prelude Base Arena Iter.

Record links : Type := mkLinks { nextOffset : Z; prevOffset : Z }.

Record node : Type := mkNd { hdr : nodeHeader; tower : list links }.

Record Skiplist : Type := mkSkl {
  arena : Arena; nodes : gmap Z node; sHead : Z; sTail : Z; sHeight : Z
}.

Record splice : Type := mkSplice { spPrev : Z; spNext : Z }.

Record Inserter : Type := mkIns { spl : list splice; insHeight : Z }.

Definition nil_splice : splice := mkSplice 0 0.

(** [var ins Inserter] *)
Definition zeroInserter : Inserter := mkIns (replicate (Z.to_nat maxHeight) nil_splice) 0.

(** The table [init] computes: [uint32(float64(math.MaxUint32) * e^-i)]. *)
Definition probabilities : list Z :=
  [4294967295; 1580030168; 581260615; 213833830; 78665070; 28939261; 10646159; 3916503; 1440801;
   530041; 194991; 71733; 26389; 9708; 3571; 1313; 483; 177].

Fixpoint height_loop (fuel : nat) (rnd h : Z) : Z :=
  match fuel with
  | O => h
  | S fuel' =>
      if (h <? maxHeight) && (rnd <=? default 0 (lookupZ probabilities h))
      then height_loop fuel' rnd (h + 1) else h
  end.

Definition randomHeight (rnd : Z) : Z := height_loop (Z.to_nat maxHeight) rnd 1.

(** *** Access through pointers *)

Definition node_at (s : Skiplist) (p : Z) : outcome node :=
  match nodes s !! p with Some n => Ok n | None => Panic end.

Definition links_at (s : Skiplist) (p : Z) (h : nat) : outcome links :=
  let! n := node_at s p in
  match tower n !! h with Some l => Ok l | None => Panic end.

Definition getNext (s : Skiplist) (p : Z) (h : nat) : outcome Z :=
  let! l := links_at s p h in Ok (nextOffset l).

Definition getPrev (s : Skiplist) (p : Z) (h : nat) : outcome Z :=
  let! l := links_at s p h in Ok (prevOffset l).

Definition with_nodes (s : Skiplist) (m : gmap Z node) : Skiplist :=
  mkSkl (arena s) m (sHead s) (sTail s) (sHeight s).

(** A store into [tower[h]] of the node at [p]. *)
Definition setLinks (s : Skiplist) (p : Z) (h : nat) (l : links) : outcome Skiplist :=
  let! n := node_at s p in
  if (h <? length (tower n))%nat
  then Ok (with_nodes s (<[p := mkNd (hdr n) (<[h := l]> (tower n))]> (nodes s))) else Panic.

(** The two compare-and-swaps. *)
Definition casNextOffset (s : Skiplist) (p : Z) (h : nat) (old val : Z) : outcome (Skiplist * bool) :=
  let! l := links_at s p h in
  if nextOffset l =? old
  then let! s' := setLinks s p h (mkLinks val (prevOffset l)) in Ok (s', true)
  else Ok (s, false).

Definition casPrevOffset (s : Skiplist) (p : Z) (h : nat) (old val : Z) : outcome (Skiplist * bool) :=
  let! l := links_at s p h in
  if prevOffset l =? old
  then let! s' := setLinks s p h (mkLinks (nextOffset l) val) in Ok (s', true)
  else Ok (s, false).

(** *** Construction *)

(** [Reset]: the sentinels, linked to each other at every level. *)
Definition Reset (a : Arena) : outcome Skiplist :=
  match newRawNode a maxHeight 0 0 with
  | (a1, Ok (headOffset, hh)) =>
      match newRawNode a1 maxHeight 0 0 with
      | (a2, Ok (tailOffset, th)) =>
          let fix0 n := mkNode 0 (keySize n) (valueSize n) (allocSize n) in
          let all l := replicate (Z.to_nat maxHeight) l in
          Ok (mkSkl a2
                (<[tailOffset := mkNd (fix0 th) (all (mkLinks 0 headOffset))]>
                   {[headOffset := mkNd (fix0 hh) (all (mkLinks tailOffset 0))]})
                headOffset tailOffset 1)
      | _ => Panic
      end
  | _ => Panic
  end.

(** The key of a node as the comparisons read it: [buf[offset:offset+size]] cut
    at [int32(size) - 8]. *)
Definition nodeKey (s : Skiplist) (p : Z) : outcome (bytes * Z) :=
  let! n := node_at s p in
  let offset := keyOffset (hdr n) in
  let size := keySize (hdr n) in
  if arena_len (arena s) <? u32 (offset + size) then Panic
  else if u32 (offset + size) <? offset then Panic
  else
    let n := i32 (i32 size - 8) in
    if (n <? 0) || (size <? n) then Panic
    else Ok (mem_read (arena_buf (arena s)) offset (Z.to_nat n),
             le_get (take 8 (mem_read (arena_buf (arena s)) (offset + n) (Z.to_nat (size - n))))).

(** [newNode] of the list: the block, and the list's height raised to it. *)
Definition newNode (s : Skiplist) (height : Z) (key : InternalKey) (value : bytes)
  : Skiplist * outcome Z :=
  match Arena.newNode (arena s) height key value with
  | (a', Ok (off, h)) =>
      (mkSkl a' (<[off := mkNd h (replicate (Z.to_nat height) (mkLinks 0 0))]> (nodes s))
         (sHead s) (sTail s) (Z.max (sHeight s) height), Ok off)
  | (a', Err e) => (mkSkl a' (nodes s) (sHead s) (sTail s) (sHeight s), Err e)
  | (a', Panic) => (mkSkl a' (nodes s) (sHead s) (sTail s) (sHeight s), Panic)
  end.

Section Skiplist.
Context (cmp : bytes -> bytes -> Z).

(** *** Search *)

Fixpoint splice_loop (fuel : nat) (s : Skiplist) (key : InternalKey) (level : nat) (prev : Z)
  : outcome (Z * Z * bool) :=
  match fuel with
  | O => Err ErrModelFuel
  | S fuel' =>
      let! next := getNext s prev level in
      if next =? sTail s then Ok (prev, next, false)
      else
        let! (nextUserKey, nextTrailer) := nodeKey s next in
        let c := cmp (InternalKey.UserKey key) nextUserKey in
        if c <? 0 then Ok (prev, next, false)
        else if c =? 0 then
          if InternalKey.Trailer key =? nextTrailer then Ok (prev, next, true)
          else if nextTrailer <? InternalKey.Trailer key then Ok (prev, next, false)
          else splice_loop fuel' s key level next
        else splice_loop fuel' s key level next
  end.

(** A walk visits every node at most once. *)
Definition findSpliceForLevel (s : Skiplist) (key : InternalKey) (level : nat) (start : Z)
  : outcome (Z * Z * bool) :=
  splice_loop (S (size (nodes s))) s key level start.

Definition keyIsAfterNode (s : Skiplist) (nd : Z) (key : InternalKey) : outcome bool :=
  let! (ndUserKey, ndTrailer) := nodeKey s nd in
  let c := cmp ndUserKey (InternalKey.UserKey key) in
  if c <? 0 then Ok true
  else if 0 <? c then Ok false
  else if InternalKey.Trailer key =? ndTrailer then Ok false
  else Ok (InternalKey.Trailer key <? ndTrailer).

Definition splice_at (ins : Inserter) (level : nat) : splice := default nil_splice (spl ins !! level).

Definition set_splice (ins : Inserter) (level : nat) (p n : Z) : Inserter :=
  mkIns (<[level := mkSplice p n]> (spl ins)) (insHeight ins).

(** The first loop of [findSplice]: the lowest level whose splice is still
    adjacent; where it does not bracket the key, the search starts over. *)
Fixpoint reuse_loop (fuel : nat) (s : Skiplist) (key : InternalKey) (ins : Inserter) (level : nat)
  : outcome (nat * Z) :=
  match fuel with
  | O => Ok (level, sHead s)
  | S fuel' =>
      let sp := splice_at ins level in
      let! n := getNext s (spPrev sp) level in
      if negb (n =? spNext sp) then reuse_loop fuel' s key ins (S level)
      else
        let! afterPrev := if spPrev sp =? sHead s then Ok true else keyIsAfterNode s (spPrev sp) key in
        if negb afterPrev then Ok (Z.to_nat (sHeight s), sHead s)
        else
          let! afterNext := if spNext sp =? sTail s then Ok false else keyIsAfterNode s (spNext sp) key in
          if (afterNext : bool) then Ok (Z.to_nat (sHeight s), sHead s)
          else Ok (level, spPrev sp)
  end.

(** The second loop, down to the base level. *)
Fixpoint descend (level : nat) (s : Skiplist) (key : InternalKey) (ins : Inserter) (prev : Z) (found : bool)
  : outcome (Inserter * bool) :=
  match level with
  | O => Ok (ins, found)
  | S l =>
      let! (r, found') := findSpliceForLevel s key l prev in
      let '(p, n) := r in
      descend l s key (set_splice ins l p (if n =? 0 then sTail s else n)) p found'
  end.

Definition findSplice (s : Skiplist) (key : InternalKey) (ins : Inserter) : outcome (Inserter * bool) :=
  let listHeight := sHeight s in
  if insHeight ins <? listHeight
  then descend (Z.to_nat listHeight) s key (mkIns (spl ins) listHeight) (sHead s) false
  else
    let! (level, prev) := reuse_loop (Z.to_nat listHeight) s key ins 0 in
    descend level s key ins prev false.

(** *** Insertion *)

(** The retry loop at one level.  [None] is a duplicate found on the way. *)
Fixpoint link_level (fuel : nat) (s : Skiplist) (key : InternalKey) (nd : Z) (i : nat) (prev next : Z)
  (invalidate : bool) : outcome (Skiplist * option bool) :=
  match fuel with
  | O => Err ErrModelFuel
  | S fuel' =>
      let! s1 := setLinks s nd i (mkLinks next prev) in
      let! nextPrevOffset := getPrev s1 next i in
      let! s2 :=
        (if negb (nextPrevOffset =? prev) then
           let! prevNextOffset := getNext s1 prev i in
           if prevNextOffset =? next
           then let! (s', _) := casPrevOffset s1 next i nextPrevOffset prev in Ok s'
           else Ok s1
         else Ok s1) in
      let! (s3, swapped) := casNextOffset s2 prev i next nd in
      if (swapped : bool) then
        let! (s4, _) := casPrevOffset s3 next i prev nd in
        Ok (s4, Some invalidate)
      else
        let! (r, found) := findSpliceForLevel s3 key i prev in
        let '(prev', next') := r in
        if (found : bool) then (if negb (i =? 0)%nat then Panic else Ok (s3, None))
        else link_level fuel' s3 key nd i prev' next' true
  end.

(** A second round always succeeds when nothing runs in between. *)
Definition link_fuel : nat := 2.

Fixpoint link_levels (todo : nat) (i : nat) (s : Skiplist) (key : InternalKey) (ins : Inserter) (nd : Z)
  (invalidate : bool) : outcome (Skiplist * option bool) :=
  match todo with
  | O => Ok (s, Some invalidate)
  | S todo' =>
      let sp := splice_at ins i in
      let! (prev, next) :=
        (if spPrev sp =? 0 then if negb (spNext sp =? 0) then Panic else Ok (sHead s, sTail s)
         else Ok (spPrev sp, spNext sp)) in
      let! (s', r) := link_level link_fuel s key nd i prev next invalidate in
      match r with
      | None => Ok (s', None)
      | Some invalidate' => link_levels todo' (S i) s' key ins nd invalidate'
      end
  end.

(** The last loop of [addInternal]. *)
Definition retarget (ins : Inserter) (height : nat) (nd : Z) : Inserter :=
  mkIns (imap (fun i sp => if (i <? height)%nat then mkSplice nd (spNext sp) else sp) (spl ins)) (insHeight ins).

Definition addInternal (s : Skiplist) (height : Z) (key : InternalKey) (value : bytes) (ins : Inserter)
  : outcome (Skiplist * Inserter * option error) :=
  let! (ins1, found) := findSplice s key ins in
  if (found : bool) then Ok (s, ins1, Some ErrRecordExists)
  else
    match newNode s height key value with
    | (s1, Err e) => Ok (s1, ins1, Some e)
    | (_, Panic) => Panic
    | (s1, Ok nd) =>
        let! (s2, r) := link_levels (Z.to_nat height) 0 s1 key ins1 nd false in
        match r with
        | None => Ok (s2, ins1, Some ErrRecordExists)
        | Some true => Ok (s2, mkIns (spl ins1) 0, None)
        | Some false => Ok (s2, retarget ins1 (Z.to_nat height) nd, None)
        end
    end.

Definition Add (s : Skiplist) (height : Z) (key : InternalKey) (value : bytes)
  : outcome (Skiplist * option error) :=
  let! (r, e) := addInternal s height key value zeroInserter in Ok (r.1, e).

(** *** Lookup *)

Fixpoint base_splice (level : nat) (s : Skiplist) (ikey : InternalKey) (prev : Z) : outcome (Z * Z * bool) :=
  let! (r, found) := findSpliceForLevel s ikey level prev in
  let '(p, n) := r in
  if (found : bool) then
    if negb (level =? 0)%nat then let! p' := getPrev s n 0 in Ok (p', n, true) else Ok (p, n, true)
  else match level with
       | O => Ok (p, n, false)
       | S l => base_splice l s ikey p
       end.

Definition seekForBaseSplice (s : Skiplist) (key : bytes) : outcome (Z * Z * bool) :=
  base_splice (Z.to_nat (sHeight s - 1)) s (InternalKey.MakeSearchKey key) (sHead s).

Definition getKeyBytes (s : Skiplist) (n : nodeHeader) : outcome bytes :=
  let! b := arenaGetBytes (arena s) (keyOffset n) (keySize n) in Ok (default [] b).

Definition getValue (s : Skiplist) (n : nodeHeader) : outcome bytes :=
  let! b := arenaGetBytes (arena s) (u32 (keyOffset n + keySize n)) (valueSize n) in Ok (default [] b).

Definition Get (s : Skiplist) (key : bytes) : outcome (bytes * bool * Z) :=
  let none := Ok ([], false, InternalKey.KindInvalid) in
  let! (r, _) := seekForBaseSplice s key in
  let nd := r.2 in
  if nd =? sTail s then none
  else
    let! n := node_at s nd in
    let! b := getKeyBytes s (hdr n) in
    let l := len b - 8 in
    if (l <? 0) || negb (cmp key (take (Z.to_nat l) b) =? 0) then none
    else
      let kind := Z.land (le_get (take 8 (drop (Z.to_nat l) b))) 255 in
      if kind =? InternalKey.KindSet then
        let! value := getValue s (hdr n) in Ok (value, true, kind)
      else if (kind =? InternalKey.KindDelete) || (kind =? InternalKey.KindPrefixDelete)
      then Ok ([], true, kind)
      else none.

(** *** Iterators *)

Record SIterator : Type := mkSIter {
  list_ : Skiplist; nd_ : Z; key_ : InternalKey; lower_ : option bytes; upper_ : option bytes
}.

Definition NewIter (s : Skiplist) (lower upper : option bytes) : SIterator :=
  mkSIter s (sHead s) (InternalKey.mk [] 0) lower upper.

Definition at_node (it : SIterator) (p : Z) : SIterator :=
  mkSIter (list_ it) p (key_ it) (lower_ it) (upper_ it).

Definition decodeKey (it : SIterator) : outcome SIterator :=
  let! n := node_at (list_ it) (nd_ it) in
  let! b := getKeyBytes (list_ it) (hdr n) in
  let l := len b - 8 in
  let k := if 0 <=? l
           then InternalKey.mk (take (Z.to_nat l) b) (le_get (take 8 (drop (Z.to_nat l) b)))
           else InternalKey.mk [] InternalKey.KindInvalid in
  Ok (mkSIter (list_ it) (nd_ it) k (lower_ it) (upper_ it)).

Definition ivalue (it : SIterator) : outcome bytes :=
  let! n := node_at (list_ it) (nd_ it) in getValue (list_ it) (hdr n).

(** The end of [SeekGE], [First] and [Next]: stop at the tail and at the upper
    bound. *)
Definition settle_fwd (it : SIterator) (p : Z) : outcome (SIterator * option entry) :=
  let it := at_node it p in
  if nd_ it =? sTail (list_ it) then Ok (it, None)
  else
    let! it := decodeKey it in
    let stop := match upper_ it with
                | Some u => cmp u (InternalKey.UserKey (key_ it)) <=? 0
                | None => false
                end in
    if (stop : bool) then Ok (at_node it (sTail (list_ it)), None)
    else let! v := ivalue it in Ok (it, Some (key_ it, v)).

(** The end of [SeekLT], [Last] and [Prev]. *)
Definition settle_bwd (it : SIterator) (p : Z) : outcome (SIterator * option entry) :=
  let it := at_node it p in
  if nd_ it =? sHead (list_ it) then Ok (it, None)
  else
    let! it := decodeKey it in
    let stop := match lower_ it with
                | Some lo => 0 <? cmp lo (InternalKey.UserKey (key_ it))
                | None => false
                end in
    if (stop : bool) then Ok (at_node it (sHead (list_ it)), None)
    else let! v := ivalue it in Ok (it, Some (key_ it, v)).

Definition sSeekGE (key : bytes) (it : SIterator) : outcome (SIterator * option entry) :=
  let! (r, _) := seekForBaseSplice (list_ it) key in settle_fwd it r.2.

Definition sSeekLT (key : bytes) (it : SIterator) : outcome (SIterator * option entry) :=
  let! (r, _) := seekForBaseSplice (list_ it) key in settle_bwd it r.1.

Definition sFirst (it : SIterator) : outcome (SIterator * option entry) :=
  let! p := getNext (list_ it) (sHead (list_ it)) 0 in settle_fwd it p.

Definition sLast (it : SIterator) : outcome (SIterator * option entry) :=
  let! p := getPrev (list_ it) (sTail (list_ it)) 0 in settle_bwd it p.

Definition sNext (it : SIterator) : outcome (SIterator * option entry) :=
  let! p := getNext (list_ it) (nd_ it) 0 in settle_fwd it p.

Definition sPrev (it : SIterator) : outcome (SIterator * option entry) :=
  let! p := getPrev (list_ it) (nd_ it) 0 in settle_bwd it p.

(** The up to five steps of [SeekPrefixGE]; [None] falls back to [SeekGE]. *)
Fixpoint try_nexts (n : nat) (key : bytes) (it : SIterator)
  : outcome (SIterator * option (option entry)) :=
  if negb (cmp (InternalKey.UserKey (key_ it)) key <? 0) then
    let! v := ivalue it in Ok (it, Some (Some (key_ it, v)))
  else match n with
       | O => Ok (it, None)
       | S n' =>
           let! (it', kv') := sNext it in
           match kv' with
           | None => Ok (it', Some None)
           | Some _ => try_nexts n' key it'
           end
       end.

Definition sSeekPrefixGE (prefix key : bytes) (trySeekUsingNext : bool) (it : SIterator)
  : outcome (SIterator * option entry) :=
  if trySeekUsingNext then
    if nd_ it =? sTail (list_ it) then Ok (it, None)
    else
      let! (it', r) := try_nexts 5 key it in
      match r with
      | Some kv => Ok (it', kv)
      | None => sSeekGE key it'
      end
  else sSeekGE key it.

Definition sSetBounds (lower upper : option bytes) (it : SIterator) : SIterator :=
  mkSIter (list_ it) (nd_ it) (key_ it) lower upper.

Definition sklOps : iterOps SIterator := {|
  itSeekGE := sSeekGE; itSeekPrefixGE := sSeekPrefixGE; itSeekLT := sSeekLT;
  itFirst := sFirst; itLast := sLast; itNext := sNext; itPrev := sPrev;
  itError _ := None; itSetBounds := sSetBounds
|}.

(** The flush iterator: the iterator and the bytes it has passed. *)
Definition flushIter : Type := (SIterator * Z)%type.

Definition add_alloc (it : SIterator) (n : Z) : outcome Z :=
  let! nd := node_at (list_ it) (nd_ it) in Ok (u64 (n + allocSize (hdr nd))).

Definition flFirst (f : flushIter) : outcome (flushIter * option entry) :=
  let! (it, kv) := sFirst f.1 in
  match kv with
  | None => Ok ((it, f.2), None)
  | Some e => let! n := add_alloc it f.2 in Ok ((it, n), Some e)
  end.

Definition flNext (f : flushIter) : outcome (flushIter * option entry) :=
  let! p := getNext (list_ f.1) (nd_ f.1) 0 in
  let it := at_node f.1 p in
  if nd_ it =? sTail (list_ it) then Ok ((it, f.2), None)
  else
    let! it := decodeKey it in
    let! n := add_alloc it f.2 in
    let! v := ivalue it in
    Ok ((it, n), Some (key_ it, v)).

Definition sklFlushOps : iterOps flushIter := {|
  itSeekGE _ _ := Panic; itSeekPrefixGE _ _ _ _ := Panic; itSeekLT _ _ := Panic;
  itFirst := flFirst;
  itLast f := let! (it, kv) := sLast f.1 in Ok ((it, f.2), kv);
  itNext := flNext; itPrev _ := Panic;
  itError _ := None;
  itSetBounds lo up f := (sSetBounds lo up f.1, f.2)
|}.

Definition NewFlushIter (s : Skiplist) (bytesFlushed : Z) : flushIter := (NewIter s None None, bytesFlushed).

End Skiplist.

(** ** Links *)

(** What a store into a tower leaves alone: everything but that tower. *)
Record same_shape (s s' : Skiplist) : Prop := mkShape {
  sh_arena : arena s' = arena s;
  sh_head : sHead s' = sHead s;
  sh_tail : sTail s' = sTail s;
  sh_height : sHeight s' = sHeight s;
  sh_size : size (nodes s') = size (nodes s);
  sh_nodes : forall p, (fun n => (hdr n, length (tower n))) <$> nodes s' !! p
                     = (fun n => (hdr n, length (tower n))) <$> nodes s !! p
}.

#[export] Instance same_shape_preorder : PreOrder same_shape.
Proof.
  split.
  - intros s. by split.
  - intros s1 s2 s3 [] []. split; congruence.
Qed.

Lemma setLinks_spec s p h l0 l' :
  links_at s p h = Ok l0 ->
  exists s', setLinks s p h l' = Ok s' /\ same_shape s s' /\ links_at s' p h = Ok l' /\
    forall q k, (q <> p \/ k <> h) -> links_at s' q k = links_at s q k.
Proof.
  unfold setLinks, links_at, node_at. destruct (nodes s !! p) as [n|] eqn:En; [|done]. cbn [rbind].
  destruct (tower n !! h) as [l|] eqn:El; [|done]. intros _.
  pose proof (lookup_lt_Some _ _ _ El) as Hlt. rewrite (proj2 (Nat.ltb_lt _ _) Hlt).
  eexists. split; [done|]. cbn [nodes with_nodes]. split.
  { split; cbn [arena sHead sTail sHeight nodes with_nodes]; try done.
    - rewrite !map_size_insert, En. done.
    - intros q. destruct (decide (p = q)) as [<-|Hne].
      + rewrite lookup_insert_eq, En. cbn. by rewrite length_insert.
      + by rewrite lookup_insert_ne. }
  split.
  - rewrite lookup_insert_eq. cbn. by rewrite list_lookup_insert_eq.
  - intros q k Hqk. destruct (decide (p = q)) as [<-|Hne].
    + rewrite lookup_insert_eq, En. cbn. rewrite list_lookup_insert_ne by (intros ->; destruct Hqk; done). done.
    + by rewrite lookup_insert_ne.
Qed.

Definition linked (s : Skiplist) (l : nat) (p q : Z) : Prop := getNext s p l = Ok q /\ getPrev s q l = Ok p.

Fixpoint chain (s : Skiplist) (l : nat) (xs : list Z) : Prop :=
  match xs with
  | x :: xs' => match xs' with [] => True | y :: _ => linked s l x y end /\ chain s l xs'
  | [] => True
  end.

Lemma chain_app s l xs x ys :
  chain s l (xs ++ x :: ys) <-> chain s l (xs ++ [x]) /\ chain s l (x :: ys).
Proof.
  induction xs as [|y xs IH]; cbn [app].
  - cbn [chain]. tauto.
  - destruct xs as [|z xs]; cbn [app] in *.
    + cbn [chain]. tauto.
    + change (linked s l y z /\ chain s l (z :: xs ++ x :: ys) <->
              (linked s l y z /\ chain s l (z :: xs ++ [x])) /\ chain s l (x :: ys)). tauto.
Qed.

Lemma chain_suffix s l xs ys : chain s l (xs ++ ys) -> chain s l ys.
Proof. destruct ys as [|y ys]; [done|]. by intros [_ H]%chain_app. Qed.

(** A chain only depends on the next links of all but its last node and the
    previous links of all but its first. *)
Lemma chain_frame s s' l xs x :
  (forall p, p ∈ xs -> getNext s' p l = getNext s p l) ->
  (forall p, p ∈ tail (xs ++ [x]) -> getPrev s' p l = getPrev s p l) ->
  chain s l (xs ++ [x]) -> chain s' l (xs ++ [x]).
Proof.
  induction xs as [|y xs IH]; [done|]. cbn [app tail]. intros Hn Hp [H1 H2].
  assert (chain s' l (xs ++ [x])).
  { apply IH; [|intros p Hin; apply Hp; destruct xs; cbn in Hin |- *; [inversion Hin|by right]|done].
    intros p Hin. apply Hn. by right. }
  split; [|done]. destruct (xs ++ [x]) as [|z r] eqn:E; [done|]. destruct H1 as [L1 L2]. split.
  - rewrite Hn by left. done.
  - rewrite Hp by left. done.
Qed.

Lemma getNext_links s p l q : getNext s p l = Ok q -> exists k, links_at s p l = Ok k /\ nextOffset k = q.
Proof. unfold getNext. destruct (links_at s p l) as [k| |]; try done. injection 1 as <-. eauto. Qed.

Lemma getPrev_links s p l q : getPrev s p l = Ok q -> exists k, links_at s p l = Ok k /\ prevOffset k = q.
Proof. unfold getPrev. destruct (links_at s p l) as [k| |]; try done. injection 1 as <-. eauto. Qed.

Lemma links_getNext s p l k : links_at s p l = Ok k -> getNext s p l = Ok (nextOffset k).
Proof. unfold getNext. by intros ->. Qed.

Lemma links_getPrev s p l k : links_at s p l = Ok k -> getPrev s p l = Ok (prevOffset k).
Proof. unfold getPrev. by intros ->. Qed.

Lemma getNext_same s s' p l : links_at s' p l = links_at s p l -> getNext s' p l = getNext s p l.
Proof. unfold getNext. by intros ->. Qed.

Lemma getPrev_same s s' p l : links_at s' p l = links_at s p l -> getPrev s' p l = getPrev s p l.
Proof. unfold getPrev. by intros ->. Qed.

(** The four stores of a successful round of [addInternal] at level [i]: [nd]
    goes between two adjacent nodes. *)
Lemma link_between cmp fuel s key nd i p n inval k0 :
  links_at s nd i = Ok k0 -> linked s i p n -> nd <> p -> nd <> n -> p <> n ->
  exists s', link_level cmp (S fuel) s key nd i p n inval = Ok (s', Some inval) /\ same_shape s s' /\
    linked s' i p nd /\ linked s' i nd n /\
    getPrev s' p i = getPrev s p i /\ getNext s' n i = getNext s n i /\
    (forall q k, (k <> i \/ (q <> nd /\ q <> p /\ q <> n)) -> links_at s' q k = links_at s q k).
Proof.
  intros Hnd [Hn Hp] N1 N2 N3. cbn [link_level].
  destruct (setLinks_spec s nd i k0 (mkLinks n p) Hnd) as (s1 & -> & Sh1 & L1 & F1). cbn [rbind].
  apply getNext_links in Hn as (kp & Lp & <-). apply getPrev_links in Hp as (kn & Ln & <-).
  set (n := nextOffset kp) in *. set (p := prevOffset kn) in *.
  assert (Lp1 : links_at s1 p i = Ok kp) by (rewrite F1 by (left; congruence); done).
  assert (Ln1 : links_at s1 n i = Ok kn) by (rewrite F1 by (left; congruence); done).
  rewrite (links_getPrev _ _ _ _ Ln1). cbn [rbind]. fold p. rewrite Z.eqb_refl. cbn [negb rbind].
  unfold casNextOffset at 1. rewrite Lp1. cbn [rbind]. fold n. rewrite Z.eqb_refl.
  destruct (setLinks_spec s1 p i kp (mkLinks nd (prevOffset kp)) Lp1) as (s2 & -> & Sh2 & L2 & F2). cbn [rbind].
  assert (Ln2 : links_at s2 n i = Ok kn) by (rewrite F2 by (left; congruence); done).
  unfold casPrevOffset. rewrite Ln2. cbn [rbind]. fold p. rewrite Z.eqb_refl.
  destruct (setLinks_spec s2 n i kn (mkLinks (nextOffset kn) nd) Ln2) as (s3 & -> & Sh3 & L3 & F3). cbn [rbind].
  exists s3. split; [done|]. split; [by etrans; [|etrans]|].
  assert (Lp3 : links_at s3 p i = Ok (mkLinks nd (prevOffset kp))) by (rewrite F3 by (left; congruence); done).
  assert (Ld3 : links_at s3 nd i = Ok (mkLinks n p)).
  { rewrite F3 by (left; congruence). rewrite F2 by (left; congruence). done. }
  repeat split.
  - by rewrite (links_getNext _ _ _ _ Lp3).
  - by rewrite (links_getPrev _ _ _ _ Ld3).
  - by rewrite (links_getNext _ _ _ _ Ld3).
  - by rewrite (links_getPrev _ _ _ _ L3).
  - by rewrite (links_getPrev _ _ _ _ Lp3), (links_getPrev _ _ _ _ Lp).
  - by rewrite (links_getNext _ _ _ _ L3), (links_getNext _ _ _ _ Ln).
  - intros q k Hq. rewrite F3, F2, F1; [done|..]; destruct Hq as [?|(?&?&?)]; auto.
Qed.
