(* ===== verification/SklInv.v ===== *)
(** The skiplist implements a sorted list.

    [holds s ns] says that the list [s] stores the nodes [ns], sorted by
    internal key: level [l] chains, in order and in both directions, exactly
    the nodes higher than [l], between the two sentinels.  The invariant of an
    [Inserter] ([ins_ok]) says that its splices name nodes of the list and that
    those of higher levels enclose those of lower ones; it survives additions
    made through other inserters. *)

From Stdlib Require Import ZArith Lia.
From stdpp Require Import base numbers option gmap sorting list.
From S2P Require Import Prelude Base Arena Iter Skl.

Record anode : Type := mkA { a_off : Z; a_key : InternalKey; a_val : bytes; a_h : nat }.

Definition lvl (l : nat) (ns : list anode) : list anode := filter (fun a => (l < a_h a)%nat) ns.

Definition offs (ns : list anode) : list Z := a_off <$> ns.

(** What the block of a node holds. *)
Record block_ok (ar : Arena) (h : nodeHeader) (a : anode) : Prop := mkBlock {
  b_ksz : keySize h = len (InternalKey.UserKey (a_key a)) + 8;
  b_vsz : valueSize h = len (a_val a);
  b_pos : 0 < keyOffset h;
  b_len : keyOffset h + keySize h + valueSize h <= arena_len ar;
  b_end : keyOffset h + keySize h + valueSize h <= arena_n ar;
  b_buf : mem_read (arena_buf ar) (keyOffset h) (Z.to_nat (keySize h + valueSize h))
          = InternalKey.UserKey (a_key a) ++ InternalKey.EncodeTrailerBytes (a_key a) ++ a_val a;
  b_trailer : 0 <= InternalKey.Trailer (a_key a) < 18446744073709551616;
  b_small : keySize h < 2147483648
}.

Definition node_ok (s : Skiplist) (a : anode) : Prop :=
  exists nd, nodes s !! a_off a = Some nd /\ length (tower nd) = a_h a /\ block_ok (arena s) (hdr nd) a.

Section Inv.
Context (cmp : bytes -> bytes -> Z) `{!Comparator cmp}.

Definition klt (a b : InternalKey) : Prop := InternalKey.InternalCompare cmp a b < 0.

#[local] Instance klt_dec a b : Decision (klt a b).
Proof. unfold klt. apply _. Defined.

Definition node_lt (a b : anode) : Prop := klt (a_key a) (a_key b).

Record shape (s : Skiplist) (ns : list anode) : Prop := mkShapeInv {
  i_arena : arena_wf (arena s);
  i_height : 1 <= sHeight s <= maxHeight;
  i_head : exists nd, nodes s !! sHead s = Some nd /\ length (tower nd) = Z.to_nat maxHeight;
  i_tail : exists nd, nodes s !! sTail s = Some nd /\ length (tower nd) = Z.to_nat maxHeight;
  i_nodes : Forall (node_ok s) ns;
  i_offsets : forall p nd, nodes s !! p = Some nd -> 0 < p < arena_n (arena s);
  i_size : (length ns <= size (nodes s))%nat;
  i_nodup : NoDup (sHead s :: offs ns ++ [sTail s]);
  i_sorted : StronglySorted node_lt ns;
  i_heights : Forall (fun a => 1 <= Z.of_nat (a_h a) <= sHeight s) ns
}.

Definition level_chain (s : Skiplist) (ns : list anode) (l : nat) : Prop :=
  chain s l (sHead s :: offs (lvl l ns) ++ [sTail s]).

Record holds (s : Skiplist) (ns : list anode) : Prop := mkHolds {
  h_shape : shape s ns;
  h_chain : forall l, (l < Z.to_nat maxHeight)%nat -> level_chain s ns l
}.

(** *** Keys *)

Lemma klt_irrefl a : ~ klt a a.
Proof. unfold klt. rewrite InternalKey.InternalCompare_refl by done. lia. Qed.

Lemma klt_trans a b c : klt a b -> klt b c -> klt a c.
Proof. by apply InternalKey.InternalCompare_trans. Qed.

Lemma klt_total a b : klt a b \/ a = b \/ klt b a.
Proof.
  unfold klt. rewrite <-(InternalKey.InternalCompare_gt cmp a b), <-(InternalKey.InternalCompare_eq cmp a b). lia.
Qed.

Lemma klt_not_le a b c : klt a b -> ~ klt c b -> klt a c.
Proof.
  intros H1 H2. destruct (klt_total b c) as [H|[<-|H]]; [by eapply klt_trans|done|done].
Qed.

Lemma not_klt_ne a b : ~ klt a b -> a <> b -> klt b a.
Proof. intros H1 H2. destruct (klt_total a b) as [?|[?|?]]; done. Qed.

(** *** Reading a node *)

Lemma nodeKey_ok s a :
  arena_wf (arena s) -> node_ok s a -> nodeKey s (a_off a) = Ok (InternalKey.UserKey (a_key a), InternalKey.Trailer (a_key a)).
Proof.
  intros [Hw1 Hw2] (nd & En & _ & [K1 K2 K3 K4 K4' K5 K6 K7]). unfold nodeKey, node_at. rewrite En. cbn [rbind].
  pose proof (len_nonneg (InternalKey.UserKey (a_key a))). pose proof (len_nonneg (a_val a)).
  rewrite u32_small by lia. unfold i32.
  rewrite (Z.mod_small (keySize (hdr nd) + _)) by lia.
  rewrite (Z.mod_small) by lia.
  bdestruct_all; try lia; cbn [orb]; try lia.
  assert (Hr : mem_read (arena_buf (arena s)) (keyOffset (hdr nd)) (Z.to_nat (len (InternalKey.UserKey (a_key a)))) =
               InternalKey.UserKey (a_key a)).
  { pose proof (mem_read_mid (arena_buf (arena s)) (keyOffset (hdr nd)) _ [] _ _ K5) as Hm.
    rewrite len_nil, Z.add_0_r in Hm. unfold len. rewrite Nat2Z.id. apply Hm. }
  assert (Hl : length (InternalKey.EncodeTrailerBytes (a_key a)) = 8%nat)
    by (unfold InternalKey.EncodeTrailerBytes; by rewrite length_le_put).
  pose proof (mem_read_mid (arena_buf (arena s)) (keyOffset (hdr nd)) _ _ _ _ K5) as Hm. rewrite Hl in Hm.
  replace (keySize (hdr nd) + 2147483648 - 2147483648 - 8 + 2147483648 - 2147483648) with
    (len (InternalKey.UserKey (a_key a))) by lia.
  replace (keySize (hdr nd) - len (InternalKey.UserKey (a_key a))) with 8 by lia.
  change (Z.to_nat 8) with 8%nat. rewrite Hr, Hm, take_ge by lia.
  unfold InternalKey.EncodeTrailerBytes. by rewrite le_get_put_u64, u64_small.
Qed.

Lemma keyIsAfterNode_ok s a k :
  arena_wf (arena s) -> node_ok s a -> keyIsAfterNode cmp s (a_off a) k = Ok (bool_decide (klt (a_key a) k)).
Proof.
  intros Hw Ha. unfold keyIsAfterNode. rewrite (nodeKey_ok s a Hw Ha). cbn [rbind].
  pose proof (InternalKey.InternalCompare_lt cmp (a_key a) k) as Hi. fold (klt (a_key a) k) in Hi.
  destruct (cmp_total cmp (InternalKey.UserKey (a_key a)) (InternalKey.UserKey k)) as [H|[H|H]].
  - rewrite bool_decide_true by (apply Hi; by left). by rewrite (proj2 (Z.ltb_lt _ _) H).
  - rewrite H, (cmp_refl cmp). cbn [Z.ltb Z.compare]. rewrite H, (cmp_refl cmp) in Hi.
    destruct (Z.eqb_spec (InternalKey.Trailer k) (InternalKey.Trailer (a_key a))).
    + rewrite bool_decide_false; [done|]. intros [?|[_ ?]]%Hi; lia.
    + f_equal. destruct (Z.ltb_spec (InternalKey.Trailer k) (InternalKey.Trailer (a_key a))).
      * rewrite bool_decide_true; [done|]. apply Hi. by right.
      * rewrite bool_decide_false; [done|]. intros [?|[_ ?]]%Hi; lia.
  - apply (cmp_sym (cmp := cmp)) in H. rewrite bool_decide_false; [bdestruct_all; (done || lia)|].
    intros [?|[E _]]%Hi; [lia|]. rewrite E, (cmp_refl cmp) in H. lia.
Qed.

(** *** The nodes around a key *)

Definition pred (s : Skiplist) (l : nat) (B : list anode) : Z := default (sHead s) (last (offs (lvl l B))).
Definition succ (s : Skiplist) (l : nat) (A : list anode) : Z := default (sTail s) (head (offs (lvl l A))).
Definition hit (k : InternalKey) (l : nat) (A : list anode) : bool :=
  match head (lvl l A) with
  | Some a => (InternalKey.InternalCompare cmp (a_key a) k =? 0)
  | None => false
  end.

(** [ns] split at [k]. *)
Record split_at (k : InternalKey) (ns B A : list anode) : Prop := mkSplit {
  s_app : ns = B ++ A;
  s_below : Forall (fun a => klt (a_key a) k) B;
  s_above : Forall (fun a => ~ klt (a_key a) k) A
}.

Lemma split_exists k ns : StronglySorted node_lt ns -> exists B A, split_at k ns B A.
Proof.
  induction 1 as [|a ns Hs IH Ha].
  - exists [], []. split; (done || constructor).
  - destruct (decide (klt (a_key a) k)) as [Hk|Hk].
    + destruct IH as (B & A & [-> HB HA]). exists (a :: B), A. split; [done|by constructor|done].
    + exists [], (a :: ns). split; [done|constructor|]. constructor; [done|].
      eapply Forall_impl; [exact Ha|]. intros b Hab Hbk. apply Hk. by eapply klt_trans.
Qed.

Lemma lvl_app l A B : lvl l (A ++ B) = lvl l A ++ lvl l B.
Proof. apply filter_app. Qed.

Lemma offs_app A B : offs (A ++ B) = offs A ++ offs B.
Proof. apply fmap_app. Qed.

Lemma Forall_lvl (P : anode -> Prop) l ns : Forall P ns -> Forall P (lvl l ns).
Proof. intros H. rewrite Forall_forall in *. intros x [_ Hx]%list_elem_of_filter. auto. Qed.

Lemma length_lvl l ns : (length (lvl l ns) <= length ns)%nat.
Proof. apply length_filter. Qed.

Lemma elem_lvl a l ns : a ∈ lvl l ns <-> (l < a_h a)%nat /\ a ∈ ns.
Proof. unfold lvl. by rewrite list_elem_of_filter. Qed.

(** *** The walk at one level *)

Lemma splice_loop_spec s l k M R p fuel :
  arena_wf (arena s) -> Forall (node_ok s) (M ++ R) -> sTail s ∉ offs (M ++ R) ->
  Forall (fun a => klt (a_key a) k) M -> Forall (fun a => ~ klt (a_key a) k) R ->
  chain s l (p :: offs (M ++ R) ++ [sTail s]) -> (length M < fuel)%nat ->
  splice_loop cmp fuel s k l p =
  Ok (default p (last (offs M)), default (sTail s) (head (offs R)),
      match head R with Some a => InternalKey.InternalCompare cmp (a_key a) k =? 0 | None => false end).
Proof.
  intros Hw Hok Ht HM HR. revert p fuel. induction M as [|m M IH]; intros p fuel Hc Hf;
    (destruct fuel as [|fuel]; [cbn in Hf; lia|]); cbn [splice_loop].
  - destruct R as [|r R]; cbn in Hc.
    + destruct Hc as [[-> _] _]. cbn. by rewrite Z.eqb_refl.
    + destruct Hc as [[-> _] _]. cbn [rbind]. destruct (Z.eqb_spec (a_off r) (sTail s)) as [E|_].
      { exfalso. apply Ht. cbn. rewrite <-E. left. }
      inversion_clear Hok as [|? ? Hr _]. rewrite (nodeKey_ok s r Hw Hr). cbn [rbind].
      inversion_clear HR as [|? ? Hk _]. cbn [offs fmap list_fmap last head default from_option id].
      assert (Hge : 0 <= InternalKey.InternalCompare cmp (a_key r) k) by (unfold klt in Hk; lia).
      pose proof (InternalKey.InternalCompare_gt cmp (a_key r) k) as Hg.
      rewrite (InternalKey.InternalCompare_lt cmp k (a_key r)) in Hg.
      destruct (Z.ltb_spec (cmp (InternalKey.UserKey k) (InternalKey.UserKey (a_key r))) 0) as [Hlt|Hnl].
      { destruct (Z.eqb_spec (InternalKey.InternalCompare cmp (a_key r) k) 0); [lia|done]. }
      assert (Hc0 : InternalKey.UserKey k = InternalKey.UserKey (a_key r)).
      { destruct (cmp_total cmp (InternalKey.UserKey k) (InternalKey.UserKey (a_key r))) as [?|[?|?]]; [lia|done|].
        exfalso. apply Hk, (InternalKey.InternalCompare_lt cmp). by left. }
      rewrite Hc0, (cmp_refl cmp). cbn [Z.eqb].
      destruct (Z.eqb_spec (InternalKey.InternalCompare cmp (a_key r) k) 0) as [E|E].
      * apply (InternalKey.InternalCompare_eq cmp) in E as <-. by rewrite Z.eqb_refl.
      * destruct Hg as [Hg _]. destruct (Hg ltac:(lia)) as [?|[_ Hlt]]; [lia|].
        bdestruct_all; try lia; done.
  - cbn [app offs fmap list_fmap] in Hc. destruct Hc as [[-> _] Hc]. cbn [rbind].
    inversion_clear Hok as [|? ? Hm Hok']. inversion_clear HM as [|? ? Hk HM'].
    destruct (Z.eqb_spec (a_off m) (sTail s)) as [E|_].
    { exfalso. apply Ht. cbn. rewrite <-E. left. }
    rewrite (nodeKey_ok s m Hw Hm). cbn [rbind].
    assert (Hstep : splice_loop cmp fuel s k l (a_off m) = Ok (default p (last (offs (m :: M))),
      default (sTail s) (head (offs R)),
      match head R with Some a => InternalKey.InternalCompare cmp (a_key a) k =? 0 | None => false end)).
    { rewrite IH; [|done|intros Hin; apply Ht; by right|done|exact Hc|cbn in Hf; lia].
      do 3 f_equal. cbn [offs fmap list_fmap]. destruct M as [|m' M']; [done|].
      cbn [offs fmap list_fmap]. rewrite last_cons_cons.
      destruct (last (a_off m' :: (a_off <$> M'))) eqn:El; [done|]. by apply last_None in El. }
    unfold klt in Hk. apply (InternalKey.InternalCompare_lt cmp) in Hk as [Hlt|[Eu Htr]].
    + apply (cmp_sym (cmp := cmp)) in Hlt. bdestruct_all; try lia; done.
    + rewrite Eu, (cmp_refl cmp). bdestruct_all; try lia; done.
Qed.
(** What the walks need of the list; it also holds half-way through an
    insertion. *)
Record walkable (s : Skiplist) (ns : list anode) : Prop := mkWalkable {
  w_arena : arena_wf (arena s);
  w_nodes : Forall (node_ok s) ns;
  w_nodup : NoDup (sHead s :: offs ns ++ [sTail s]);
  w_size : (length ns <= size (nodes s))%nat
}.

Lemma shape_walkable s ns : shape s ns -> walkable s ns.
Proof. intros []. by split. Qed.

Lemma lvl_offs_sub l ns : offs (lvl l ns) ⊆ offs ns.
Proof. intros p (a & -> & [_ Ha]%elem_lvl)%list_elem_of_fmap. by apply list_elem_of_fmap_2. Qed.

Lemma tail_not_in s ns : NoDup (sHead s :: offs ns ++ [sTail s]) -> sTail s ∉ offs ns.
Proof. intros [_ (_ & H & _)%NoDup_app]%NoDup_cons Hin. apply (H _ Hin). left. Qed.

Lemma head_not_in s ns : NoDup (sHead s :: offs ns ++ [sTail s]) -> sHead s ∉ offs ns /\ sHead s <> sTail s.
Proof.
  intros [H _]%NoDup_cons. split; intros Hin; apply H, elem_of_app; [by left|]. right. rewrite Hin. left.
Qed.

Lemma last_app_default {T} (d : T) xs x ys : default d (last (xs ++ x :: ys)) = default x (last ys).
Proof.
  rewrite last_app. cbn [last]. destruct ys as [|y ys]; [done|].
  rewrite last_cons_cons. destruct (last (y :: ys)) eqn:E; [done|]. by apply last_None in E.
Qed.

Lemma find_level s ns l k B A p :
  walkable s ns -> split_at k ns B A -> level_chain s ns l -> p ∈ sHead s :: offs (lvl l B) ->
  findSpliceForLevel cmp s k l p = Ok (pred s l B, succ s l A, hit k l A).
Proof.
  intros [Hw Hok Hnd Hsz] [-> HB HA] Hc Hp. unfold findSpliceForLevel, level_chain in *. rewrite lvl_app in Hc.
  pose proof (Forall_lvl _ l _ HB) as HB'. pose proof (Forall_lvl _ l _ HA) as HA'.
  pose proof (Forall_lvl _ l _ Hok) as Hok'. rewrite lvl_app in Hok'.
  assert (Ht : sTail s ∉ offs (lvl l B ++ lvl l A)).
  { rewrite <-lvl_app. intros Hin%lvl_offs_sub. by apply (tail_not_in s _ Hnd). }
  pose proof (length_lvl l B) as HlB. rewrite length_app in Hsz.
  apply elem_of_cons in Hp as [->|(a & -> & Ha)%list_elem_of_fmap].
  - by rewrite (splice_loop_spec s l k (lvl l B) (lvl l A)) by (done || lia).
  - apply list_elem_of_split in Ha as (M1 & M2 & E). rewrite E in *.
    rewrite (splice_loop_spec s l k M2 (lvl l A)); try done.
    + unfold pred. rewrite E, offs_app. cbn [offs fmap list_fmap]. fold (offs M2).
      by rewrite last_app_default.
    + rewrite <-app_assoc in Hok'. by apply Forall_app in Hok' as [_ [_ ?]%Forall_cons].
    + intros Hin. apply Ht. rewrite <-app_assoc, offs_app. apply elem_of_app. right. by right.
    + by apply Forall_app in HB' as [_ [_ ?]%Forall_cons].
    + rewrite <-app_assoc, offs_app, <-app_assoc in Hc. cbn [offs fmap list_fmap app] in Hc.
      apply (chain_suffix s l (sHead s :: offs M1)) in Hc. exact Hc.
    + rewrite length_app in HlB. cbn in HlB. lia.
Qed.

(** *** The splices [findSplice] leaves *)

Lemma pred_in s l B : pred s l B ∈ sHead s :: offs (lvl l B).
Proof.
  unfold pred. destruct (last (offs (lvl l B))) eqn:E; [|left]. right.
  apply last_Some in E as [xs ->]. apply elem_of_app. right. left.
Qed.

Lemma succ_in s l A : succ s l A ∈ offs (lvl l A) ++ [sTail s].
Proof.
  unfold succ. destruct (offs (lvl l A)) as [|x xs]; [left|]. cbn. left.
Qed.

Lemma lvl_S_sub l ns : lvl (S l) ns ⊆ lvl l ns.
Proof. intros a [H1 H2]%elem_lvl. apply elem_lvl. split; [lia|done]. Qed.

Lemma offs_mono A B : A ⊆ B -> offs A ⊆ offs B.
Proof. intros H p (a & -> & Ha)%list_elem_of_fmap. apply list_elem_of_fmap_2. auto. Qed.

Lemma offset_pos s ns p : shape s ns -> p ∈ offs ns ++ [sTail s] -> p <> 0.
Proof.
  intros Hs [(a & -> & Ha)%list_elem_of_fmap|Ht]%elem_of_app.
  - pose proof (i_nodes _ _ Hs) as HF. rewrite Forall_forall in HF. destruct (HF a Ha) as (nd & En & _).
    pose proof (i_offsets _ _ Hs _ _ En). lia.
  - apply list_elem_of_singleton in Ht as ->. destruct (i_tail _ _ Hs) as (nd & En & _).
    pose proof (i_offsets _ _ Hs _ _ En). lia.
Qed.

Lemma descend_spec s ns k B A L ins p found :
  holds s ns -> split_at k ns B A -> (L <= Z.to_nat maxHeight)%nat -> length (spl ins) = Z.to_nat maxHeight ->
  (forall l, S l = L -> p ∈ sHead s :: offs (lvl l B)) ->
  exists ins', descend cmp L s k ins p found = Ok (ins', match L with O => found | _ => hit k 0 A end) /\
    length (spl ins') = Z.to_nat maxHeight /\ insHeight ins' = insHeight ins /\
    (forall l, (l < L)%nat -> splice_at ins' l = mkSplice (pred s l B) (succ s l A)) /\
    (forall l, (L <= l)%nat -> splice_at ins' l = splice_at ins l).
Proof.
  intros Hh Hs. revert ins p found. induction L as [|L IH]; intros ins p found HL Hlen Hp; cbn [descend].
  - exists ins. repeat split; (done || lia).
  - pose proof (h_shape _ _ Hh) as Hsh. rewrite (find_level s ns L k B A p); [|by apply shape_walkable|done|apply Hh; lia|by apply Hp].
    cbn [rbind]. destruct (Z.eqb_spec (succ s L A) 0) as [E|_].
    { exfalso. eapply (offset_pos s ns); [done| |exact E]. pose proof (succ_in s L A) as Hin.
      apply elem_of_app in Hin as [Hin|Hin]; apply elem_of_app; [left|by right].
      rewrite (s_app _ _ _ _ Hs), offs_app. apply elem_of_app. right. by apply lvl_offs_sub in Hin. }
    destruct (IH (set_splice ins L (pred s L B) (succ s L A)) (pred s L B) (hit k L A)) as (ins' & -> & I1 & I2 & I3 & I4).
    + lia.
    + cbn. by rewrite length_insert.
    + intros l <-. pose proof (pred_in s (S l) B) as Hin. apply elem_of_cons in Hin as [->|Hin]; [left|]. right.
      apply (offs_mono _ _ (lvl_S_sub l B)), Hin.
    + exists ins'. split; [by destruct L|]. split; [done|]. split; [done|]. split.
      * intros l Hl. destruct (decide (l = L)) as [->|]; [|apply I3; lia]. rewrite I4 by lia.
        unfold splice_at, set_splice. cbn [spl]. by rewrite list_lookup_insert_eq by lia.
      * intros l Hl. rewrite I4 by lia. unfold splice_at, set_splice. cbn [spl]. by rewrite list_lookup_insert_ne by lia.
Qed.
(** *** Inserters *)

(** The node [p] of level [l] stands before [k]; [n] does not. *)
Definition before (s : Skiplist) (ns : list anode) (l : nat) (p : Z) (k : InternalKey) : Prop :=
  p = sHead s \/ exists a, a ∈ lvl l ns /\ p = a_off a /\ klt (a_key a) k.
Definition after (s : Skiplist) (ns : list anode) (l : nat) (n : Z) (k : InternalKey) : Prop :=
  n = sTail s \/ exists a, a ∈ lvl l ns /\ n = a_off a /\ ~ klt (a_key a) k.

Record ins_ok (s : Skiplist) (ns : list anode) (ins : Inserter) : Prop := mkInsOk {
  o_len : length (spl ins) = Z.to_nat maxHeight;
  o_height : 0 <= insHeight ins <= sHeight s;
  o_prev : forall l, (l < Z.to_nat (insHeight ins))%nat -> spPrev (splice_at ins l) ∈ sHead s :: offs (lvl l ns);
  o_next : forall l, (l < Z.to_nat (insHeight ins))%nat -> spNext (splice_at ins l) ∈ offs (lvl l ns) ++ [sTail s];
  o_nest_prev : forall l k, (S l < Z.to_nat (insHeight ins))%nat ->
    before s ns l (spPrev (splice_at ins l)) k -> before s ns (S l) (spPrev (splice_at ins (S l))) k;
  o_nest_next : forall l k, (S l < Z.to_nat (insHeight ins))%nat ->
    after s ns l (spNext (splice_at ins l)) k -> after s ns (S l) (spNext (splice_at ins (S l))) k;
  o_nil : forall l, (Z.to_nat (sHeight s) <= l)%nat -> splice_at ins l = nil_splice
}.

Lemma zeroInserter_ok s ns : 1 <= sHeight s -> ins_ok s ns zeroInserter.
Proof.
  intros H. split; cbn [zeroInserter insHeight spl]; try (intros; lia).
  - by rewrite length_replicate.
  - intros l _. unfold splice_at, zeroInserter. cbn [spl].
    destruct (replicate (Z.to_nat maxHeight) nil_splice !! l) eqn:E; [|done]. by apply lookup_replicate in E as [-> _].
Qed.

Lemma offs_inj ns a b : NoDup (offs ns) -> a ∈ ns -> b ∈ ns -> a_off a = a_off b -> a = b.
Proof.
  intros Hnd [i Ha]%list_elem_of_lookup [j Hb]%list_elem_of_lookup E.
  assert (i = j) as ->; [|congruence].
  apply (NoDup_lookup (offs ns) i j (a_off a) Hnd); unfold offs; rewrite list_lookup_fmap, ?Ha, ?Hb; cbn; congruence.
Qed.

Lemma sorted_lvl l ns : StronglySorted node_lt ns -> StronglySorted node_lt (lvl l ns).
Proof.
  unfold lvl. induction 1 as [|a ns Hs IH Ha]; [constructor|]. rewrite filter_cons. destruct (decide _); [|done].
  constructor; [done|]. by apply (Forall_lvl _ l).
Qed.

Lemma nodup_offs s ns : NoDup (sHead s :: offs ns ++ [sTail s]) -> NoDup (offs ns).
Proof. by intros [_ (H & _ & _)%NoDup_app]%NoDup_cons. Qed.

Section Split.
Context (s : Skiplist) (ns : list anode) (k : InternalKey) (B A : list anode).
Context (Hsh : shape s ns) (Hs : split_at k ns B A).

Lemma in_ns_l l a : a ∈ lvl l B -> a ∈ lvl l ns /\ klt (a_key a) k.
Proof.
  intros Ha. rewrite (s_app _ _ _ _ Hs), lvl_app, elem_of_app. split; [by left|].
  apply elem_lvl in Ha as [_ Ha]. pose proof (s_below _ _ _ _ Hs) as HF. rewrite Forall_forall in HF. by apply HF.
Qed.

Lemma in_ns_r l a : a ∈ lvl l A -> a ∈ lvl l ns /\ ~ klt (a_key a) k.
Proof.
  intros Ha. rewrite (s_app _ _ _ _ Hs), lvl_app, elem_of_app. split; [by right|].
  apply elem_lvl in Ha as [_ Ha]. pose proof (s_above _ _ _ _ Hs) as HF. rewrite Forall_forall in HF. by apply HF.
Qed.

Lemma before_iff l p : before s ns l p k <-> p ∈ sHead s :: offs (lvl l B).
Proof.
  rewrite elem_of_cons. unfold before, offs. rewrite list_elem_of_fmap. split; intros [?|H]; try (by left); right.
  - destruct H as (a & Ha & -> & Hk). exists a. split; [done|].
    rewrite (s_app _ _ _ _ Hs), lvl_app in Ha. apply elem_of_app in Ha as [?|Ha%in_ns_r]; [done|]. by destruct Ha.
  - destruct H as (a & -> & Ha). apply in_ns_l in Ha as [? ?]. eauto.
Qed.

Lemma after_iff l n : after s ns l n k <-> n ∈ offs (lvl l A) ++ [sTail s].
Proof.
  rewrite elem_of_app, list_elem_of_singleton. unfold after, offs. rewrite list_elem_of_fmap.
  split; intros [H|H]; try (by (left + right)).
  - left. destruct H as (a & Ha & -> & Hk). exists a. split; [done|].
    rewrite (s_app _ _ _ _ Hs), lvl_app in Ha. apply elem_of_app in Ha as [Ha%in_ns_l|?]; [|done]. by destruct Ha.
  - right. destruct H as (a & -> & Ha). apply in_ns_r in Ha as [? ?]. eauto.
Qed.

(** Of the nodes of level [l] before [k], the last one encloses less than any
    node of the level above. *)
Lemma pred_nested l p k' :
  p ∈ sHead s :: offs (lvl (S l) B) -> before s ns l (pred s l B) k' -> before s ns (S l) p k'.
Proof.
  intros [->|(a & -> & Ha)%list_elem_of_fmap]%elem_of_cons Hb; [by left|]. right. exists a.
  split; [by apply in_ns_l|]. split; [done|].
  pose proof (lvl_S_sub l B a Ha) as Ha'. apply list_elem_of_split in Ha' as (M1 & M2 & E).
  pose proof (i_nodup _ _ Hsh) as Hnd.
  destruct (last M2) as [c|] eqn:El.
  - apply last_Some in El as [M3 ->].
    assert (Hc : c ∈ lvl l B) by (rewrite E; set_solver).
    assert (Hp : pred s l B = a_off c).
    { unfold pred. rewrite E, offs_app. cbn [offs fmap list_fmap]. rewrite last_app_default. fold (offs (M3 ++ [c])).
      rewrite offs_app. apply (last_app_default _ (offs M3) (a_off c) []). }
    assert (Hac : node_lt a c).
    { pose proof (i_sorted _ _ Hsh) as Hso. rewrite (s_app _ _ _ _ Hs) in Hso.
      assert (HsB : StronglySorted node_lt (lvl l B)).
      { apply sorted_lvl. by apply StronglySorted_app_1_l in Hso. }
      rewrite E in HsB. apply StronglySorted_app_1_r in HsB. apply StronglySorted_inv in HsB as [_ HF].
      rewrite Forall_forall in HF. apply HF. set_solver. }
    rewrite Hp in Hb. destruct Hb as [Eh|(c' & Hc' & Eo & Hk)].
    + exfalso. destruct (head_not_in _ _ Hnd) as [Hnh _]. apply Hnh. rewrite <-Eh. apply list_elem_of_fmap_2.
      apply in_ns_l in Hc as [[_ ?]%elem_lvl _]. done.
    + assert (c' = c) as ->.
      { apply (offs_inj ns); [by eapply nodup_offs|by apply elem_lvl in Hc' as [_ ?]| |done].
        by apply in_ns_l in Hc as [[_ ?]%elem_lvl _]. }
      by eapply klt_trans.
  - apply last_None in El as ->.
    assert (Hp : pred s l B = a_off a).
    { unfold pred. rewrite E, offs_app. cbn [offs fmap list_fmap]. by rewrite last_app_default. }
    rewrite Hp in Hb. destruct Hb as [Eh|(c' & Hc' & Eo & Hk)].
    + exfalso. destruct (head_not_in _ _ Hnd) as [Hnh _]. apply Hnh. rewrite <-Eh. apply list_elem_of_fmap_2.
      apply in_ns_l in Ha as [[_ ?]%elem_lvl _]. done.
    + assert (c' = a) as ->; [|done].
      apply (offs_inj ns); [by eapply nodup_offs|by apply elem_lvl in Hc' as [_ ?]| |done].
      by apply in_ns_l in Ha as [[_ ?]%elem_lvl _].
Qed.

Lemma succ_nested l n k' :
  n ∈ offs (lvl (S l) A) ++ [sTail s] -> after s ns l (succ s l A) k' -> after s ns (S l) n k'.
Proof.
  intros [(a & -> & Ha)%list_elem_of_fmap|Ht]%elem_of_app Hb; [|left; by apply list_elem_of_singleton in Ht].
  right. exists a. split; [by apply in_ns_r|]. split; [done|].
  pose proof (lvl_S_sub l A a Ha) as Ha'. pose proof (i_nodup _ _ Hsh) as Hnd.
  destruct (lvl l A) as [|c M] eqn:E; [by apply not_elem_of_nil in Ha'|].
  assert (Hc : c ∈ lvl l ns) by (apply in_ns_r; rewrite E; left).
  assert (Hp : succ s l A = a_off c) by (unfold succ; by rewrite E).
  assert (Hca : a = c \/ node_lt c a).
  { apply elem_of_cons in Ha' as [->|Hin]; [by left|]. right.
    pose proof (i_sorted _ _ Hsh) as Hso. rewrite (s_app _ _ _ _ Hs) in Hso.
    assert (HsA : StronglySorted node_lt (lvl l A)).
    { apply sorted_lvl. by apply StronglySorted_app_1_r in Hso. }
    rewrite E in HsA. apply StronglySorted_inv in HsA as [_ HF]. rewrite Forall_forall in HF. by apply HF. }
  rewrite Hp in Hb. destruct Hb as [Eh|(c' & Hc' & Eo & Hk)].
  - exfalso. apply (tail_not_in _ _ Hnd). rewrite <-Eh. apply list_elem_of_fmap_2. by apply elem_lvl in Hc as [_ ?].
  - assert (c' = c) as ->.
    { apply (offs_inj ns); [by eapply nodup_offs|by apply elem_lvl in Hc' as [_ ?]| |done]. by apply elem_lvl in Hc as [_ ?]. }
    destruct Hca as [->|Hca]; [done|]. intros Hak. apply Hk. by eapply klt_trans.
Qed.

End Split.
Lemma chain_next s l xs x p : chain s l (xs ++ [x]) -> p ∈ xs -> exists q, linked s l p q.
Proof.
  intros Hc (ys & zs & ->)%list_elem_of_split. rewrite <-app_assoc in Hc. apply chain_suffix in Hc.
  destruct zs as [|z zs]; destruct Hc as [H _]; cbn in H; eauto.
Qed.

Lemma level_next s ns l p :
  level_chain s ns l -> p ∈ sHead s :: offs (lvl l ns) -> exists q, linked s l p q.
Proof. intros Hc Hp. by eapply (chain_next s l (sHead s :: offs (lvl l ns))). Qed.

Lemma member_ok s ns l p :
  shape s ns -> p ∈ offs (lvl l ns) -> exists a, a ∈ lvl l ns /\ p = a_off a /\ node_ok s a.
Proof.
  intros Hsh (a & -> & Ha)%list_elem_of_fmap. exists a. split; [done|]. split; [done|].
  pose proof (i_nodes _ _ Hsh) as HF. rewrite Forall_forall in HF. apply HF. by apply elem_lvl in Ha as [_ ?].
Qed.

(** Where the first loop of [findSplice] stops the splice encloses the key, and
    with it the splices of all higher levels. *)
Lemma reuse_loop_spec s ns k ins fuel level :
  holds s ns -> ins_ok s ns ins -> insHeight ins = sHeight s -> (level + fuel)%nat = Z.to_nat (sHeight s) ->
  exists L p, reuse_loop cmp fuel s k ins level = Ok (L, p) /\
    ((L = Z.to_nat (sHeight s) /\ p = sHead s) \/
     ((L < Z.to_nat (sHeight s))%nat /\ p = spPrev (splice_at ins L) /\
      before s ns L (spPrev (splice_at ins L)) k /\ after s ns L (spNext (splice_at ins L)) k)).
Proof.
  intros Hh Hi Hht. pose proof (h_shape _ _ Hh) as Hsh. pose proof (i_arena _ _ Hsh) as Har.
  pose proof (i_height _ _ Hsh) as Hmax.
  revert level. induction fuel as [|fuel IH]; intros level Hl; cbn [reuse_loop].
  - exists level, (sHead s). split; [done|]. left. split; [lia|done].
  - pose proof (o_prev _ _ _ Hi level ltac:(lia)) as Hp. pose proof (o_next _ _ _ Hi level ltac:(lia)) as Hn.
    destruct (level_next s ns level _ (h_chain _ _ Hh level ltac:(lia)) Hp) as (q & -> & _). cbn [rbind].
    destruct (Z.eqb_spec q (spNext (splice_at ins level))) as [_|_]; cbn [negb]; [|apply IH; lia].
    assert (Hb : exists b, (if spPrev (splice_at ins level) =? sHead s then Ok true
               else keyIsAfterNode cmp s (spPrev (splice_at ins level)) k) = Ok b /\
               (b = true -> before s ns level (spPrev (splice_at ins level)) k)).
    { destruct (Z.eqb_spec (spPrev (splice_at ins level)) (sHead s)) as [E|E]; [exists true; split; [done|by left]|].
      apply elem_of_cons in Hp as [?|Hp]; [done|]. apply (member_ok s ns) in Hp as (a & Ha & -> & Hok); [|done].
      rewrite (keyIsAfterNode_ok s a k Har Hok). eexists. split; [done|]. intros Hk%bool_decide_eq_true. right. eauto. }
    destruct Hb as (b & -> & Hb). cbn [rbind]. destruct b; cbn [negb]; [|by eauto 10].
    assert (Hc : exists c, (if spNext (splice_at ins level) =? sTail s then Ok false
               else keyIsAfterNode cmp s (spNext (splice_at ins level)) k) = Ok c /\
               (c = false -> after s ns level (spNext (splice_at ins level)) k)).
    { destruct (Z.eqb_spec (spNext (splice_at ins level)) (sTail s)) as [E|E]; [exists false; split; [done|by left]|].
      apply elem_of_app in Hn as [Hn|?%list_elem_of_singleton]; [|done].
      apply (member_ok s ns) in Hn as (a & Ha & -> & Hok); [|done].
      rewrite (keyIsAfterNode_ok s a k Har Hok). eexists. split; [done|]. intros Hk%bool_decide_eq_false. right. eauto. }
    destruct Hc as (c & -> & Hc). cbn [rbind]. destruct c; [by eauto 10|].
    eexists _, _. split; [done|]. right. split; [lia|]. auto.
Qed.

Lemma nested_up (P : nat -> Prop) H L :
  (forall l, (S l < H)%nat -> P l -> P (S l)) -> P L -> forall l, (L <= l < H)%nat -> P l.
Proof.
  intros Hs HL l. induction l as [|l IH]; intros Hl.
  - by replace 0%nat with L by lia.
  - destruct (decide (L = S l)) as [<-|]; [done|]. apply Hs; [lia|]. apply IH. lia.
Qed.

(** The splices a search leaves: exact below the level [L] it restarted from,
    enclosing above. *)
Lemma mixed_splices s ns k B A ins ins' L :
  holds s ns -> split_at k ns B A -> length (spl ins') = Z.to_nat maxHeight ->
  insHeight ins' = sHeight s -> (L <= Z.to_nat (sHeight s))%nat ->
  (forall l, (l < L)%nat -> splice_at ins' l = mkSplice (pred s l B) (succ s l A)) ->
  (forall l, (L <= l)%nat -> splice_at ins' l = splice_at ins l) ->
  (forall l, (L <= l < Z.to_nat (sHeight s))%nat ->
     before s ns l (spPrev (splice_at ins l)) k /\ after s ns l (spNext (splice_at ins l)) k) ->
  (forall l k', (L <= l)%nat -> (S l < Z.to_nat (sHeight s))%nat ->
     (before s ns l (spPrev (splice_at ins l)) k' -> before s ns (S l) (spPrev (splice_at ins (S l))) k') /\
     (after s ns l (spNext (splice_at ins l)) k' -> after s ns (S l) (spNext (splice_at ins (S l))) k')) ->
  (forall l, (Z.to_nat (sHeight s) <= l)%nat -> splice_at ins l = nil_splice) ->
  ins_ok s ns ins' /\
  forall l, (l < Z.to_nat (sHeight s))%nat ->
    before s ns l (spPrev (splice_at ins' l)) k /\ after s ns l (spNext (splice_at ins' l)) k.
Proof.
  intros Hh Hs Hlen Hht HL Hlo Hup Hbr Hnest Hnil. pose proof (h_shape _ _ Hh) as Hsh.
  pose proof (i_height _ _ Hsh) as Hmax.
  assert (Hall : forall l, (l < Z.to_nat (sHeight s))%nat ->
    before s ns l (spPrev (splice_at ins' l)) k /\ after s ns l (spNext (splice_at ins' l)) k).
  { intros l Hl. destruct (decide (l < L)%nat) as [Hlt|Hge].
    - rewrite (Hlo l Hlt). cbn [spPrev spNext]. rewrite (before_iff _ _ _ _ _ Hs), (after_iff _ _ _ _ _ Hs).
      split; [apply pred_in|apply succ_in].
    - rewrite Hup by lia. apply Hbr. lia. }
  split; [|done]. split.
  - done.
  - lia.
  - intros l Hl. rewrite Hht in Hl. destruct (Hall l Hl) as [[E|(a & Ha & E & _)] _]; rewrite E; [left|right].
    by apply list_elem_of_fmap_2.
  - intros l Hl. rewrite Hht in Hl. destruct (Hall l Hl) as [_ [E|(a & Ha & E & _)]]; rewrite E; apply elem_of_app; [right; left|left].
    by apply list_elem_of_fmap_2.
  - intros l k' Hl Hb. rewrite Hht in Hl. destruct (decide (l < L)%nat) as [Hlt|Hge].
    + rewrite (Hlo l Hlt) in Hb. eapply pred_nested; [done|done| |exact Hb].
      destruct (Hall (S l) ltac:(lia)) as [Hb' _]. by apply (before_iff _ _ _ _ _ Hs) in Hb'.
    + rewrite !Hup in * by lia. by apply Hnest; [lia|lia|].
  - intros l k' Hl Hb. rewrite Hht in Hl. destruct (decide (l < L)%nat) as [Hlt|Hge].
    + rewrite (Hlo l Hlt) in Hb. eapply succ_nested; [done|done| |exact Hb].
      destruct (Hall (S l) ltac:(lia)) as [_ Hb']. by apply (after_iff _ _ _ _ _ Hs) in Hb'.
    + rewrite !Hup in * by lia. by apply Hnest; [lia|lia|].
  - intros l Hl. rewrite Hup by lia. by apply Hnil.
Qed.

Lemma findSplice_spec s ns k B A ins :
  holds s ns -> split_at k ns B A -> ins_ok s ns ins ->
  exists ins' found, findSplice cmp s k ins = Ok (ins', found) /\
    ins_ok s ns ins' /\ insHeight ins' = sHeight s /\
    (forall l, (l < Z.to_nat (sHeight s))%nat ->
      before s ns l (spPrev (splice_at ins' l)) k /\ after s ns l (spNext (splice_at ins' l)) k) /\
    (found = true -> hit k 0 A = true) /\ (insHeight ins < sHeight s -> found = hit k 0 A).
Proof.
  intros Hh Hs Hi. pose proof (h_shape _ _ Hh) as Hsh. pose proof (i_height _ _ Hsh) as Hmax.
  pose proof (o_height _ _ _ Hi) as Hih. unfold findSplice.
  destruct (Z.ltb_spec (insHeight ins) (sHeight s)) as [Hlt|Hge].
  - destruct (descend_spec s ns k B A (Z.to_nat (sHeight s)) (mkIns (spl ins) (sHeight s)) (sHead s) false)
      as (ins' & -> & I1 & I2 & I3 & I4); [done|done|lia|apply Hi|intros; left|].
    destruct (mixed_splices s ns k B A (mkIns (spl ins) (sHeight s)) ins' (Z.to_nat (sHeight s))) as [J1 J2];
      try done; try (intros; lia).
    { intros l Hl. apply (o_nil _ _ _ Hi l Hl). }
    exists ins', (hit k 0 A). split; [by destruct (Z.to_nat (sHeight s)) eqn:E; [lia|]|]. auto.
  - assert (E : insHeight ins = sHeight s) by lia.
    destruct (reuse_loop_spec s ns k ins (Z.to_nat (sHeight s)) 0) as (L & p & -> & HLp); [done|done|done|lia|].
    cbn [rbind].
    assert (HL : (L <= Z.to_nat (sHeight s))%nat) by (destruct HLp as [[-> _]|[? _]]; lia).
    assert (Hbr : forall l, (L <= l < Z.to_nat (sHeight s))%nat ->
      before s ns l (spPrev (splice_at ins l)) k /\ after s ns l (spNext (splice_at ins l)) k).
    { destruct HLp as [[-> _]|(Hlt & _ & Hb & Ha)]; [intros; lia|]. intros l Hl. split.
      - eapply (nested_up (fun l => before s ns l (spPrev (splice_at ins l)) k)); [|exact Hb|done].
        intros l' Hl'. apply (o_nest_prev _ _ _ Hi). by rewrite E.
      - eapply (nested_up (fun l => after s ns l (spNext (splice_at ins l)) k)); [|exact Ha|done].
        intros l' Hl'. apply (o_nest_next _ _ _ Hi). by rewrite E. }
    destruct (descend_spec s ns k B A L ins p false) as (ins' & -> & I1 & I2 & I3 & I4);
      [done|done|lia|apply Hi| |].
    { intros l <-. destruct HLp as [[_ ->]|(Hlt & -> & Hb & _)]; [left|].
      apply (before_iff _ _ _ _ _ Hs) in Hb. apply elem_of_cons in Hb as [->|Hb]; [left|right].
      by apply (offs_mono _ _ (lvl_S_sub l B)). }
    destruct (mixed_splices s ns k B A ins ins' L) as [J1 J2]; try done.
    { by rewrite I2. }
    { intros l k' Hl Hl'. split; [apply (o_nest_prev _ _ _ Hi)|apply (o_nest_next _ _ _ Hi)]; by rewrite E. }
    { apply Hi. }
    eexists ins', _. split; [done|]. split; [done|]. split; [by rewrite I2|]. split; [done|]. split; [|lia].
    by destruct L.
Qed.

(** *** Linking a node in *)

Lemma chain_insert s s' l X p n Y z :
  NoDup (X ++ p :: n :: Y) -> z ∉ X ++ p :: n :: Y -> chain s l (X ++ p :: n :: Y) ->
  linked s' l p z -> linked s' l z n ->
  getPrev s' p l = getPrev s p l -> getNext s' n l = getNext s n l ->
  (forall q, q <> z -> q <> p -> q <> n -> links_at s' q l = links_at s q l) ->
  chain s' l (X ++ p :: z :: n :: Y).
Proof.
  intros Hnd Hz Hc L1 L2 Hp Hn Hf. apply NoDup_app in Hnd as (Hx & Hxy & Hy).
  apply NoDup_cons in Hy as [Hpn Hy]. apply NoDup_cons in Hy as [HnY HY].
  apply chain_app in Hc as [Hc1 [_ Hc2]].
  assert (Hin : forall q, q ∈ X -> links_at s' q l = links_at s q l).
  { intros q Hq. apply Hf; intros ->; [apply Hz; set_solver|..]; apply (Hxy _ Hq); set_solver. }
  assert (HinY : forall q, q ∈ Y -> links_at s' q l = links_at s q l).
  { intros q Hq. apply Hf; intros ->; [apply Hz|apply Hpn|apply HnY]; set_solver. }
  apply chain_app. split.
  - eapply (chain_frame s); [| |done]; intros q Hq.
    + by apply getNext_same, Hin.
    + destruct (decide (q = p)) as [->|Hne]; [done|]. apply getPrev_same, Hin.
      destruct X as [|x X]; [by apply not_elem_of_nil in Hq|]. cbn in Hq. apply elem_of_app in Hq. set_solver.
  - split; [done|]. split; [done|]. destruct Y as [|y Y] using rev_ind; [done|].
    apply (chain_frame s s' l (n :: Y)); [| |done]; intros q Hq.
    + apply elem_of_cons in Hq as [->|Hq]; [done|]. apply getNext_same, HinY. set_solver.
    + cbn in Hq. by apply getPrev_same, HinY.
Qed.

Lemma pred_split s l B : exists X, sHead s :: offs (lvl l B) = X ++ [pred s l B].
Proof.
  unfold pred. destruct (offs (lvl l B)) as [|x xs _] using rev_ind; [by exists []|].
  exists (sHead s :: xs). by rewrite last_snoc.
Qed.

Lemma succ_split s l A : exists Y, offs (lvl l A) ++ [sTail s] = succ s l A :: Y.
Proof. unfold succ. destruct (offs (lvl l A)) as [|x xs]; cbn; eauto. Qed.

Lemma NoDup_offs_lvl l ns : NoDup (offs ns) -> NoDup (offs (lvl l ns)).
Proof.
  unfold lvl. induction ns as [|a ns IH]; [done|]. intros [H1 H2]%NoDup_cons. rewrite filter_cons.
  destruct (decide _); [|by apply IH]. apply NoDup_cons. split; [|by apply IH].
  intros Hin. apply H1. by apply (lvl_offs_sub l).
Qed.

Lemma NoDup_level s ns l : NoDup (sHead s :: offs ns ++ [sTail s]) -> NoDup (sHead s :: offs (lvl l ns) ++ [sTail s]).
Proof.
  intros [H1 (H2 & H3 & H4)%NoDup_app]%NoDup_cons. apply NoDup_cons. split.
  - intros [Hin|Hin]%elem_of_app; apply H1, elem_of_app; [left; by apply lvl_offs_sub in Hin|by right].
  - apply NoDup_app. split; [|split; [|done]].
    + by apply NoDup_offs_lvl.
    + intros x Hx. apply H3. by apply lvl_offs_sub in Hx.
Qed.

(** Adjacent nodes around the key are the two the search gives. *)
Lemma adjacent_exact s l B A p n :
  NoDup (sHead s :: offs (lvl l (B ++ A)) ++ [sTail s]) -> level_chain s (B ++ A) l ->
  p ∈ sHead s :: offs (lvl l B) -> n ∈ offs (lvl l A) ++ [sTail s] -> getNext s p l = Ok n ->
  p = pred s l B /\ n = succ s l A.
Proof.
  intros Hnd Hc Hp Hn Hpn. unfold level_chain in Hc. rewrite lvl_app, offs_app, <-app_assoc, app_comm_cons in Hnd, Hc.
  destruct (pred_split s l B) as [X EX]. destruct (succ_split s l A) as [Y EY]. rewrite EX, EY in *.
  rewrite <-app_assoc in Hnd, Hc. cbn [app] in Hnd, Hc. apply elem_of_app in Hp as [Hp|Hp%list_elem_of_singleton].
  - exfalso. apply list_elem_of_split in Hp as (X1 & X2 & ->). rewrite <-app_assoc in Hc, Hnd. cbn [app] in Hc, Hnd.
    apply chain_suffix in Hc. apply NoDup_app in Hnd as (_ & _ & [_ Hnd]%NoDup_cons).
    destruct X2 as [|x X2]; cbn [app] in Hc, Hnd; destruct Hc as [[Hx _] _]; rewrite Hpn in Hx; injection Hx as ->.
    + apply NoDup_cons in Hnd as [Hnd _]. done.
    + apply NoDup_cons in Hnd as [Hnd _]. apply Hnd, elem_of_app. right. by right.
  - subst p. split; [done|]. apply chain_suffix in Hc. destruct Hc as [[Hx _] _]. congruence.
Qed.

Lemma level_linked s l B A : level_chain s (B ++ A) l -> linked s l (pred s l B) (succ s l A).
Proof.
  unfold level_chain. rewrite lvl_app, offs_app, <-app_assoc, app_comm_cons.
  destruct (pred_split s l B) as [X ->]. destruct (succ_split s l A) as [Y ->]. rewrite <-app_assoc. cbn [app].
  by intros [H _]%chain_suffix.
Qed.

Section Link.
Context (k : InternalKey) (B A : list anode) (z : anode).

Lemma link_exact fuel s i inval k0 :
  NoDup (sHead s :: offs (B ++ z :: A) ++ [sTail s]) -> level_chain s (B ++ A) i -> (i < a_h z)%nat ->
  links_at s (a_off z) i = Ok k0 ->
  exists s', link_level cmp (S fuel) s k (a_off z) i (pred s i B) (succ s i A) inval = Ok (s', Some inval) /\
    same_shape s s' /\ level_chain s' (B ++ z :: A) i /\
    (forall q l, l <> i -> links_at s' q l = links_at s q l).
Proof.
  intros Hnd Hc Hz Hl. apply (NoDup_level s _ i) in Hnd. pose proof (level_linked s i B A Hc) as Hlk.
  unfold level_chain in *. rewrite lvl_app, offs_app, <-app_assoc, app_comm_cons in Hc.
  rewrite lvl_app in Hnd |- *. assert (Ez : lvl i (z :: A) = z :: lvl i A) by (unfold lvl; by rewrite filter_cons_True).
  rewrite Ez, offs_app in Hnd |- *. cbn [offs fmap list_fmap] in Hnd |- *. fold (offs (lvl i A)) in Hnd |- *.
  destruct (pred_split s i B) as [X EX]. destruct (succ_split s i A) as [Y EY].
  rewrite <-app_assoc, app_comm_cons in Hnd. rewrite EX, EY in Hc. rewrite EX in Hnd. cbn [app] in Hnd. rewrite EY in Hnd.
  rewrite <-app_assoc in Hnd, Hc. cbn [app] in Hnd, Hc.
  assert (Hp : NoDup (a_off z :: X ++ pred s i B :: succ s i A :: Y)).
  { eapply NoDup_Permutation_proper; [|exact Hnd]. solve_Permutation. }
  apply NoDup_cons in Hp as [Hnz HndX].
  destruct (link_between cmp fuel s k (a_off z) i (pred s i B) (succ s i A) inval k0) as (s' & -> & Sh & L1 & L2 & L3 & L4 & L5).
  { done. } { done. }
  { intros E. apply Hnz. rewrite E. set_solver. }
  { intros E. apply Hnz. rewrite E. set_solver. }
  { intros E. apply NoDup_app in HndX as (_ & _ & [HX _]%NoDup_cons). apply HX. rewrite E. left. }
  exists s'. split; [done|]. split; [done|]. split; [|intros q l Hne; apply L5; auto].
  rewrite (sh_head _ _ Sh), (sh_tail _ _ Sh), <-app_assoc, app_comm_cons. rewrite EX. cbn [app]. rewrite EY, <-app_assoc. cbn [app].
  eapply (chain_insert s); try done. intros q Q1 Q2 Q3. apply L5. auto.
Qed.

(** One level, with a splice that encloses the key: at most one retry. *)
Lemma link_level_spec s i p n inval k0 :
  walkable s (B ++ A) -> split_at k (B ++ A) B A ->
  NoDup (sHead s :: offs (B ++ z :: A) ++ [sTail s]) -> level_chain s (B ++ A) i -> (i < a_h z)%nat ->
  links_at s (a_off z) i = Ok k0 -> hit k i A = false ->
  p ∈ sHead s :: offs (lvl i B) -> n ∈ offs (lvl i A) ++ [sTail s] ->
  exists s' inval', link_level cmp link_fuel s k (a_off z) i p n inval = Ok (s', Some inval') /\
    same_shape s s' /\ level_chain s' (B ++ z :: A) i /\
    (forall q l, l <> i -> links_at s' q l = links_at s q l).
Proof.
  intros Hw Hs Hnd Hc Hz Hl Hhit Hp Hn. unfold link_fuel.
  pose proof (NoDup_level s _ i (w_nodup _ _ Hw)) as HndL.
  destruct (level_next s (B ++ A) i p Hc) as (q & Hq & _).
  { apply elem_of_cons in Hp as [->|Hp]; [left|right]. rewrite lvl_app, offs_app. apply elem_of_app. by left. }
  destruct (decide (q = n)) as [->|Hne].
  - destruct (adjacent_exact s i B A p n HndL Hc Hp Hn Hq) as [-> ->].
    destruct (link_exact 1 s i inval k0) as (s' & E & ?); [done..|]. exists s', inval. split; [done|]. done.
  - assert (Hz' : a_off z ∉ sHead s :: offs (lvl i (B ++ A)) ++ [sTail s]).
    { assert (Hpm : NoDup (a_off z :: sHead s :: offs (B ++ A) ++ [sTail s])).
      { eapply NoDup_Permutation_proper; [|exact Hnd]. rewrite !offs_app. cbn [offs fmap list_fmap]. solve_Permutation. }
      apply NoDup_cons in Hpm as [Hpm _]. intros Hin. apply Hpm. apply elem_of_cons in Hin as [->|Hin]; [left|right].
      apply elem_of_app in Hin as [Hin|Hin]; apply elem_of_app; [left; by apply lvl_offs_sub in Hin|by right]. }
    assert (Hnm : n ∈ offs (lvl i (B ++ A)) ++ [sTail s]).
    { rewrite lvl_app, offs_app, <-app_assoc. apply elem_of_app. by right. }
    assert (Hpm : p ∈ sHead s :: offs (lvl i (B ++ A))).
    { rewrite lvl_app, offs_app. set_solver. }
    destruct (setLinks_spec s (a_off z) i k0 (mkLinks n p) Hl) as (s1 & E1 & Sh1 & L1 & F1).
    assert (Fz : forall q l, q <> a_off z -> links_at s1 q l = links_at s q l) by (intros; apply F1; auto).
    assert (Nz : forall q, q ∈ sHead s :: offs (lvl i (B ++ A)) ++ [sTail s] -> q <> a_off z).
    { intros q' Hq' ->. done. }
    assert (Hc1 : level_chain s1 (B ++ A) i).
    { unfold level_chain. rewrite (sh_head _ _ Sh1), (sh_tail _ _ Sh1).
      eapply (chain_frame s s1 i (sHead s :: _)); [| |exact Hc]; intros q' Hq'.
      - apply getNext_same, Fz, Nz. rewrite app_comm_cons. apply elem_of_app. by left.
      - apply getPrev_same, Fz, Nz. by right. }
    assert (Hq1 : getNext s1 p i = Ok q).
    { rewrite (getNext_same s); [done|]. apply Fz, Nz. rewrite app_comm_cons. apply elem_of_app. by left. }
    assert (exists pn, getPrev s1 n i = Ok pn) as [pn Hpn].
    { unfold level_chain in Hc1. rewrite (sh_head _ _ Sh1), (sh_tail _ _ Sh1) in Hc1.
      apply list_elem_of_split in Hnm as (Y1 & Y2 & EY). rewrite EY in Hc1.
      destruct Y1 as [|y Y1 _] using rev_ind.
      - destruct Hc1 as [[_ ?] _]. eauto.
      - rewrite <-app_assoc in Hc1. apply (chain_suffix s1 i (sHead s :: Y1)) in Hc1. destruct Hc1 as [[_ ?] _]. eauto. }
    cbn [link_level]. rewrite E1. cbn [rbind]. rewrite Hpn. cbn [rbind]. rewrite Hq1. cbn [rbind].
    rewrite (proj2 (Z.eqb_neq q n) Hne).
    assert (E2 : (if negb (pn =? p) then Ok s1 else Ok s1 : outcome Skiplist) = Ok s1) by (by destruct (negb _)).
    rewrite E2. cbn [rbind]. destruct (getNext_links _ _ _ _ Hq1) as (kp & Lp & <-).
    unfold casNextOffset. rewrite Lp. cbn [rbind]. rewrite (proj2 (Z.eqb_neq _ n) Hne). cbn [rbind].
    assert (Hw1 : walkable s1 (B ++ A)).
    { destruct Hw as [W1 W2 W3 W4]. split.
      - by rewrite (sh_arena _ _ Sh1).
      - eapply Forall_impl; [exact W2|]. intros a (nd & En & Ht & Hb). pose proof (sh_nodes _ _ Sh1 (a_off a)) as Hn1.
        rewrite En in Hn1. cbn in Hn1. destruct (nodes s1 !! a_off a) as [nd1|] eqn:En1; [|done]. cbn in Hn1.
        injection Hn1 as Eh El. exists nd1. split; [done|]. split; [congruence|]. by rewrite (sh_arena _ _ Sh1), Eh.
      - by rewrite (sh_head _ _ Sh1), (sh_tail _ _ Sh1).
      - by rewrite (sh_size _ _ Sh1). }
    rewrite (find_level s1 (B ++ A) i k B A p); [|done|done|done|by rewrite (sh_head _ _ Sh1)].
    cbn [rbind]. rewrite Hhit.
    destruct (link_exact 0 s1 i true (mkLinks n p)) as (s' & E & Sh & Hch & Hfr);
      [by rewrite (sh_head _ _ Sh1), (sh_tail _ _ Sh1)|done..|].
    exists s', true. split; [exact E|]. split; [by etrans|]. split; [done|].
    intros q' l Hl'. rewrite Hfr by done. apply F1. by right.
Qed.

End Link.
(** *** An addition *)

Lemma node_ok_same s s' a : same_shape s s' -> node_ok s a -> node_ok s' a.
Proof.
  intros Sh (nd & En & Ht & Hb). pose proof (sh_nodes _ _ Sh (a_off a)) as Hn. rewrite En in Hn. cbn in Hn.
  destruct (nodes s' !! a_off a) as [nd'|] eqn:En'; [|done]. cbn in Hn. injection Hn as Eh El.
  exists nd'. split; [done|]. split; [congruence|]. by rewrite (sh_arena _ _ Sh), Eh.
Qed.

Lemma shape_same s s' ns : same_shape s s' -> shape s ns -> shape s' ns.
Proof.
  intros Sh [H1 H2 H3 H4 H5 H6 H7 H8 H9 H10]. pose proof Sh as [S1 S2 S3 S4 S5 S6].
  assert (Hlk : forall p, (exists nd, nodes s !! p = Some nd /\ length (tower nd) = Z.to_nat maxHeight) ->
    exists nd, nodes s' !! p = Some nd /\ length (tower nd) = Z.to_nat maxHeight).
  { intros p (nd & En & Ht). specialize (S6 p). rewrite En in S6. cbn in S6.
    destruct (nodes s' !! p) as [nd'|]; [|done]. cbn in S6. injection S6 as _ El. exists nd'. split; congruence. }
  split; rewrite ?S1, ?S2, ?S3, ?S4, ?S5; try done.
  - by apply Hlk.
  - by apply Hlk.
  - eapply Forall_impl; [exact H5|]. intros a. by apply node_ok_same.
  - intros p nd' En'. specialize (S6 p). rewrite En' in S6. destruct (nodes s !! p) as [nd|] eqn:En; [|done]. by eapply H6.
Qed.

Lemma level_chain_frame s s' ns l :
  same_shape s s' -> (forall q, links_at s' q l = links_at s q l) -> level_chain s ns l -> level_chain s' ns l.
Proof.
  intros Sh Hf Hc. unfold level_chain. rewrite (sh_head _ _ Sh), (sh_tail _ _ Sh).
  eapply (chain_frame s s' l (sHead s :: _)); [| |exact Hc]; intros q _; [apply getNext_same|apply getPrev_same]; apply Hf.
Qed.

Lemma link_levels_spec k B A z ins todo s i inval :
  (todo + i)%nat = a_h z -> (a_h z <= Z.to_nat maxHeight)%nat ->
  shape s (B ++ z :: A) -> split_at k (B ++ A) B A -> (forall l, hit k l A = false) ->
  (forall l, (l < i)%nat -> level_chain s (B ++ z :: A) l) ->
  (forall l, (i <= l < Z.to_nat maxHeight)%nat -> level_chain s (B ++ A) l) ->
  (forall l, (l < a_h z)%nat ->
     (splice_at ins l = nil_splice) \/
     (spPrev (splice_at ins l) ∈ sHead s :: offs (lvl l B) /\ spNext (splice_at ins l) ∈ offs (lvl l A) ++ [sTail s])) ->
  exists s' inval', link_levels cmp todo i s k ins (a_off z) inval = Ok (s', Some inval') /\ same_shape s s' /\
    forall l, (l < Z.to_nat maxHeight)%nat -> level_chain s' (B ++ z :: A) l.
Proof.
  revert s i inval. induction todo as [|todo IH]; intros s i inval Hi Hz Hsh Hs Hhit Hlo Hup Hsp; cbn [link_levels].
  - exists s, inval. split; [done|]. split; [done|]. intros l Hl. destruct (decide (l < i)%nat); [by apply Hlo|].
    pose proof (Hup l ltac:(lia)) as Hc. unfold level_chain in *. rewrite lvl_app in *.
    assert (lvl l (z :: A) = lvl l A) as -> by (unfold lvl; rewrite filter_cons_False; [done|lia]). done.
  - pose proof (i_nodup _ _ Hsh) as Hnd.
    assert (Hw : walkable s (B ++ A)).
    { destruct (shape_walkable _ _ Hsh) as [W1 W2 W3 W4]. split; [done|..].
      - apply Forall_app in W2 as [? [_ ?]%Forall_cons]. by apply Forall_app.
      - assert (Hpm : NoDup (a_off z :: sHead s :: offs (B ++ A) ++ [sTail s])).
        { eapply NoDup_Permutation_proper; [|exact W3]. rewrite !offs_app. cbn [offs fmap list_fmap]. solve_Permutation. }
        by apply NoDup_cons in Hpm as [_ ?].
      - rewrite length_app in *. cbn in W4. lia. }
    pose proof (Hup i ltac:(lia)) as Hci.
    assert (exists k0, links_at s (a_off z) i = Ok k0) as [k0 Hk0].
    { pose proof (i_nodes _ _ Hsh) as HF. apply Forall_app in HF as [_ [(nd & En & Ht & _) _]%Forall_cons].
      unfold links_at, node_at. rewrite En. cbn [rbind].
      destruct (tower nd !! i) eqn:E; [eauto|]. apply lookup_ge_None in E. lia. }
    set (sel := if spPrev (splice_at ins i) =? 0 then
        if negb (spNext (splice_at ins i) =? 0) then Panic else Ok (sHead s, sTail s)
        else Ok (spPrev (splice_at ins i), spNext (splice_at ins i)) : outcome (Z * Z)).
    assert (exists p n, sel = Ok (p, n) /\ p ∈ sHead s :: offs (lvl i B) /\ n ∈ offs (lvl i A) ++ [sTail s]) as (p & n & -> & Hp & Hn).
    { unfold sel. destruct (Hsp i ltac:(lia)) as [->|[Hp Hn]].
      - cbn. eexists _, _. split; [done|]. split; [left|]. apply elem_of_app. right. left.
      - destruct (Z.eqb_spec (spPrev (splice_at ins i)) 0) as [E|E]; [|eauto].
        exfalso. rewrite E in Hp. apply elem_of_cons in Hp as [Hp|Hp].
        + destruct (i_head _ _ Hsh) as (nd & En & _). pose proof (i_offsets _ _ Hsh _ _ En). lia.
        + eapply (offset_pos s _ 0); [exact Hsh| |done]. apply elem_of_app. left. rewrite offs_app. apply elem_of_app.
          left. by apply lvl_offs_sub in Hp. }
    cbn [rbind].
    destruct (link_level_spec k B A z s i p n inval k0) as (s' & inval' & -> & Sh & Hch & Hfr); try done; [lia|].
    cbn [rbind]. destruct (IH s' (S i) inval') as (s'' & inv'' & -> & Sh' & Hall); try done; try lia.
    + by eapply shape_same.
    + intros l Hl. destruct (decide (l = i)) as [->|]; [done|]. eapply level_chain_frame; [done| |apply Hlo; lia].
      intros q. by apply Hfr.
    + intros l Hl. eapply level_chain_frame; [done| |apply Hup; lia]. intros q. apply Hfr. lia.
    + intros l Hl. rewrite (sh_head _ _ Sh), (sh_tail _ _ Sh). by apply Hsp.
    + exists s'', inv''. split; [done|]. split; [by etrans|done].
Qed.
(** The room [newNode] needs, whatever the height. *)
Definition fits (a : Arena) (k : InternalKey) (v : bytes) : Prop :=
  arena_n a + maxNodeSize + InternalKey.Size k + len v + align4 <= arena_len a.

Record key_ok (k : InternalKey) : Prop := mkKeyOk {
  k_trailer : 0 <= InternalKey.Trailer k < 18446744073709551616;
  k_small : InternalKey.Size k < 2147483648
}.

Lemma sorted_insert k B A z :
  StronglySorted node_lt (B ++ A) -> split_at k (B ++ A) B A -> a_key z = k ->
  Forall (fun a => a_key a <> k) (B ++ A) -> StronglySorted node_lt (B ++ z :: A).
Proof.
  intros Hso [_ HB HA] Ez Hk. apply Forall_app in Hk as [_ HkA].
  apply StronglySorted_app in Hso as (H1 & H2 & H3). apply StronglySorted_app_2.
  - intros x y Hx Hy. apply elem_of_cons in Hy as [->|Hy]; [|by apply H1].
    rewrite Forall_forall in HB. unfold node_lt. rewrite Ez. by apply HB.
  - done.
  - constructor; [done|]. rewrite Forall_forall in *. intros a Ha. unfold node_lt. rewrite Ez.
    apply not_klt_ne; [by apply HA|by apply HkA].
Qed.

Lemma pointer_ok s ns p :
  shape s ns -> p ∈ sHead s :: offs ns ++ [sTail s] -> exists nd, nodes s !! p = Some nd.
Proof.
  intros Hsh [->|[(a & -> & Ha)%list_elem_of_fmap|Hin]%elem_of_app]%elem_of_cons.
  - destruct (i_head _ _ Hsh) as (nd & ? & _). eauto.
  - pose proof (i_nodes _ _ Hsh) as HF. rewrite Forall_forall in HF. destruct (HF a Ha) as (nd & ? & _). eauto.
  - apply list_elem_of_singleton in Hin as ->. destruct (i_tail _ _ Hsh) as (nd & ? & _). eauto.
Qed.

Lemma newNode_shape s ns k v height B A a' off h :
  holds s ns -> split_at k ns B A -> Forall (fun a => a_key a <> k) ns -> 1 <= height <= maxHeight ->
  maxNodeSize + InternalKey.Size k + len v + align4 < 4294967296 -> key_ok k ->
  Arena.newNode (arena s) height k v = (a', Ok (off, h)) ->
  exists s1 z, newNode s height k v = (s1, Ok (a_off z)) /\ a_key z = k /\ a_val z = v /\ a_h z = Z.to_nat height /\
    shape s1 (B ++ z :: A) /\ (forall l, (l < Z.to_nat maxHeight)%nat -> level_chain s1 (B ++ A) l) /\
    sHead s1 = sHead s /\ sTail s1 = sTail s /\ sHeight s1 = Z.max (sHeight s) height /\
    arena_len (arena s1) = arena_len (arena s) /\
    arena_n (arena s) < arena_n (arena s1) <= arena_n (arena s) + maxNodeSize + InternalKey.Size k + len v + align4.
Proof.
  intros [Hsh Hch] Hs Hk Hh Hfit [Kt Ks] E. pose proof (i_arena _ _ Hsh) as Hw. pose proof Hw as [Hw1 Hw2].
  pose proof (len_nonneg (InternalKey.UserKey k)) as Huk. pose proof (len_nonneg v) as Hv.
  pose proof E as Hp. apply newNode_props in Hp as (P1 & P2 & P3 & P4 & P5 & P6 & P7 & P8 & P9 & P10 & P11 & P12); [|done|done|lia].
  unfold newNode. rewrite E. unfold maxNodeSize, linksSize, maxHeight, align4, InternalKey.Size in *.
  set (z := mkA off k v (Z.to_nat height)).
  eexists _, z. split; [done|]. do 3 (split; [done|]).
  assert (Hfresh : nodes s !! off = None).
  { destruct (nodes s !! off) eqn:En; [|done]. pose proof (i_offsets _ _ Hsh _ _ En). lia. }
  assert (Hold : forall p nd, nodes s !! p = Some nd -> p <> off).
  { intros p nd En ->. congruence. }
  destruct (i_head _ _ Hsh) as (hd & Ehd & Thd). destruct (i_tail _ _ Hsh) as (tl & Etl & Ttl).
  pose proof (s_app _ _ _ _ Hs) as Ens. rewrite Ens in *.
  assert (Hpm : B ++ z :: A ≡ₚ z :: B ++ A) by (symmetry; apply Permutation_middle).
  cbn [sHead sTail sHeight arena]. split; [|split; [|do 4 (split; [done|]); lia]].
  - split; cbn [arena nodes sHead sTail sHeight].
    + split; lia.
    + unfold maxHeight. pose proof (i_height _ _ Hsh). unfold maxHeight in *. lia.
    + exists hd. by rewrite lookup_insert_ne by (intros Eo; rewrite <-Eo in *; congruence).
    + exists tl. by rewrite lookup_insert_ne by (intros Eo; rewrite <-Eo in *; congruence).
    + rewrite Hpm. constructor.
      * eexists. cbn [nodes a_off z]. rewrite lookup_insert_eq. split; [done|]. cbn [tower hdr a_h].
        split; [by rewrite length_replicate|]. cbn [arena]. split; cbn [a_key a_val]; try done; lia.
      * eapply Forall_impl; [exact (i_nodes _ _ Hsh)|]. intros a (nd & En & Ht & [K1 K2 K3 K4 K4' K5 K6 K7]).
        exists nd. cbn [nodes]. rewrite lookup_insert_ne by (intros Eo; rewrite <-Eo in *; congruence). split; [done|]. split; [done|].
        cbn [arena]. split; try done; try lia. rewrite <-K5. apply mem_read_ext. intros i Hi. symmetry. symmetry. apply P7. lia.
    + intros p nd. destruct (decide (off = p)) as [<-|].
      * intros _. lia.
      * rewrite lookup_insert_ne by done. intros En. pose proof (i_offsets _ _ Hsh _ _ En). lia.
    + rewrite map_size_insert_None by done. pose proof (i_size _ _ Hsh). rewrite length_app in *. cbn. lia.
    + assert (Hp2 : sHead s :: offs (B ++ z :: A) ++ [sTail s] ≡ₚ off :: sHead s :: offs (B ++ A) ++ [sTail s]).
      { unfold offs. rewrite Hpm. cbn. solve_Permutation. }
      rewrite Hp2. apply NoDup_cons. split; [|apply Hsh]. intros Hin.
      destruct (pointer_ok s _ _ Hsh Hin) as [nd En]. by eapply Hold.
    + eapply sorted_insert; [apply Hsh|done|done|done].
    + rewrite Hpm. constructor; [cbn; lia|]. eapply Forall_impl; [exact (i_heights _ _ Hsh)|]. cbn. lia.
  - intros l Hl. unfold level_chain. cbn [sHead sTail]. apply (chain_frame s _ l (sHead s :: offs (lvl l (B ++ A)))); [| |by apply Hch].
    all: intros q Hq; assert (Hq' : q ∈ sHead s :: offs (B ++ A) ++ [sTail s]) by
      (pose proof (lvl_offs_sub l (B ++ A)); cbn in Hq; set_solver);
      destruct (pointer_ok s _ _ Hsh Hq') as [nd En]; (apply getNext_same || apply getPrev_same);
      unfold links_at, node_at; cbn [nodes]; by rewrite lookup_insert_ne by (intros Eo; rewrite <-Eo in *; congruence).
Qed.
(** A failed allocation only moves the arena's counter. *)
Lemma newNode_full s ns k v height :
  holds s ns -> 1 <= height <= maxHeight -> maxNodeSize + InternalKey.Size k + len v + align4 < 4294967296 ->
  ~ fits (arena s) k v ->
  exists s1, newNode s height k v = (s1, Err ErrArenaFull) /\ holds s1 ns /\
    (forall ins, ins_ok s ns ins -> ins_ok s1 ns ins) /\ arena_len (arena s1) = arena_len (arena s).
Proof.
  intros [Hsh Hch] Hh Hsz Hnf. pose proof (i_arena _ _ Hsh) as [Hw1 Hw2]. pose proof (len_nonneg v).
  assert (8 <= InternalKey.Size k) by (unfold InternalKey.Size; pose proof (len_nonneg (InternalKey.UserKey k)); lia).
  assert (exists n, Arena.newNode (arena s) height k v =
            (mkArena n (arena_buf (arena s)) (arena_len (arena s)), Err ErrArenaFull) /\ arena_n (arena s) <= n) as (n & E & Hn).
  { unfold fits, Arena.newNode, newRawNode, arenaAlloc, maxNodeSize, maxHeight, linksSize, align4 in *. cbv zeta.
    rewrite (u32_small ((18 - height) * 8)) by lia.
    rewrite (u32_small (16 + 18 * 8 - (18 - height) * 8)) by lia.
    rewrite (u32_small (_ + len v)) by lia. rewrite (u32_small (_ + len v + 3)) by lia.
    bdestruct_all; cbn [orb]; try lia.
    - exists (arena_n (arena s)). destruct (arena s); cbn in *. split; [done|lia].
    - eexists. split; [done|]. lia. }
  unfold newNode. rewrite E. eexists. split; [done|]. split.
  - split; [|intros l Hl; apply (chain_frame s _ l (sHead s :: offs (lvl l ns))); [done|done|by apply Hch]].
    destruct Hsh as [H1 H2 H3 H4 H5 H6 H7 H8 H9 H10]. split; cbn [arena nodes sHead sTail sHeight]; try done.
    + split; cbn; lia.
    + eapply Forall_impl; [exact H5|]. intros a (nd & En & Ht & []). exists nd. split; [done|]. split; [done|].
      split; cbn [arena arena_n arena_len arena_buf]; (done || lia).
    + intros p nd En. specialize (H6 p nd En). cbn. lia.
  - split; [|done]. intros ins []. by split.
Qed.

Lemma hit_absent k l A : Forall (fun a => a_key a <> k) A -> hit k l A = false.
Proof.
  intros H. unfold hit. destruct (head (lvl l A)) as [a|] eqn:E; [|done]. apply Z.eqb_neq.
  intros Ec%(InternalKey.InternalCompare_eq cmp). rewrite Forall_forall in H. apply (H a); [|done].
  assert (Ha : a ∈ lvl l A) by (destruct (lvl l A); [done|]; injection E as ->; left). by apply elem_lvl in Ha as [_ ?].
Qed.

(** What stays of a splice when the list grows. *)
Lemma before_grow s s' ns ns' l p k :
  sHead s' = sHead s -> ns ⊆ ns' -> before s ns l p k -> before s' ns' l p k.
Proof.
  intros Eh Hsub [->|(a & Ha & -> & Hk)]; [by left|]. right. exists a. split; [|done].
  apply elem_lvl in Ha as [? ?]. apply elem_lvl. auto.
Qed.

Lemma after_grow s s' ns ns' l p k :
  sTail s' = sTail s -> ns ⊆ ns' -> after s ns l p k -> after s' ns' l p k.
Proof.
  intros Eh Hsub [->|(a & Ha & -> & Hk)]; [by left|]. right. exists a. split; [|done].
  apply elem_lvl in Ha as [? ?]. apply elem_lvl. auto.
Qed.

Lemma before_shrink s s' ns ns' l p k :
  sHead s' = sHead s -> ns ⊆ ns' -> NoDup (offs ns') -> p ∈ sHead s :: offs (lvl l ns) ->
  before s' ns' l p k -> before s ns l p k.
Proof.
  intros Eh Hsub Hnd [->|(a & -> & Ha)%list_elem_of_fmap]%elem_of_cons Hb; [by left|].
  destruct Hb as [Hb|(c & Hc & Eo & Hk)]; [left; congruence|]. right. exists a. split; [done|]. split; [done|].
  replace a with c; [done|]. apply elem_lvl in Hc as [_ Hc]. apply elem_lvl in Ha as [_ Ha].
  apply (offs_inj ns'); auto.
Qed.

Lemma after_shrink s s' ns ns' l p k :
  sTail s' = sTail s -> ns ⊆ ns' -> NoDup (offs ns') -> p ∈ offs (lvl l ns) ++ [sTail s] ->
  after s' ns' l p k -> after s ns l p k.
Proof.
  intros Eh Hsub Hnd [(a & -> & Ha)%list_elem_of_fmap|Ht]%elem_of_app Hb;
    [|left; by apply list_elem_of_singleton in Ht].
  destruct Hb as [Hb|(c & Hc & Eo & Hk)]; [left; congruence|]. right. exists a. split; [done|]. split; [done|].
  replace a with c; [done|]. apply elem_lvl in Hc as [_ Hc]. apply elem_lvl in Ha as [_ Ha].
  apply (offs_inj ns'); auto.
Qed.

Lemma in_grow l ns ns' : ns ⊆ ns' -> offs (lvl l ns) ⊆ offs (lvl l ns').
Proof. intros H. apply offs_mono. intros a [? ?]%elem_lvl. apply elem_lvl. auto. Qed.

(** Additions through other inserters keep an inserter valid. *)
Lemma ins_ok_grow s s' ns ns' ins :
  sHead s' = sHead s -> sTail s' = sTail s -> sHeight s <= sHeight s' -> ns ⊆ ns' -> NoDup (offs ns') ->
  ins_ok s ns ins -> ins_ok s' ns' ins.
Proof.
  intros Eh Et Hh Hsub Hnd [O1 O2 O3 O4 O5 O6 O7]. split; rewrite ?Eh, ?Et; try done; try lia.
  - intros l Hl. pose proof (in_grow l _ _ Hsub). specialize (O3 l Hl). set_solver.
  - intros l Hl. pose proof (in_grow l _ _ Hsub). specialize (O4 l Hl). set_solver.
  - intros l k Hl Hb. eapply before_grow; [done|done|]. apply O5; [done|]. eapply before_shrink; try done. apply O3. lia.
  - intros l k Hl Hb. eapply after_grow; [done|done|]. apply O6; [done|]. eapply after_shrink; try done. apply O4. lia.
  - intros l Hl. apply O7. lia.
Qed.
Lemma splice_at_retarget ins h z l :
  length (spl ins) = Z.to_nat maxHeight ->
  splice_at (retarget ins h z) l =
  if (l <? h)%nat && (l <? Z.to_nat maxHeight)%nat then mkSplice z (spNext (splice_at ins l)) else splice_at ins l.
Proof.
  intros Hlen. unfold splice_at, retarget. cbn [spl]. rewrite list_lookup_imap.
  destruct (spl ins !! l) as [sp|] eqn:E; cbn [fmap option_fmap option_map default from_option compose id].
  - pose proof (lookup_lt_Some _ _ _ E) as Hl. rewrite (proj2 (Nat.ltb_lt l (Z.to_nat maxHeight))) by lia.
    by destruct (l <? h)%nat.
  - apply lookup_ge_None in E. rewrite (proj2 (Nat.ltb_ge l (Z.to_nat maxHeight))) by lia. by rewrite andb_false_r.
Qed.

(** The inserter after its own addition. *)
Lemma retarget_ok s s' ns ns' k ins z :
  sHead s' = sHead s -> sTail s' = sTail s -> sHeight s <= sHeight s' -> Z.of_nat (a_h z) <= sHeight s' ->
  ns ⊆ ns' -> z ∈ ns' -> NoDup (offs ns') -> a_key z = k ->
  sHead s ∉ offs ns' ->
  ins_ok s ns ins -> insHeight ins = sHeight s -> sHeight s' <= maxHeight ->
  (forall l, (l < Z.to_nat (sHeight s))%nat -> before s ns l (spPrev (splice_at ins l)) k) ->
  ins_ok s' ns' (retarget ins (a_h z) (a_off z)).
Proof.
  intros Eh Et Hh Hz Hsub Hin Hnd Ek Hhd Hi Hht Hmax Hbr. pose proof Hi as [O1 O2 O3 O4 O5 O6 O7].
  pose proof (ins_ok_grow s s' ns ns' ins Eh Et Hh Hsub Hnd Hi) as [G1 G2 G3 G4 G5 G6 G7].
  assert (HzB : forall l k', (l < a_h z)%nat -> before s' ns' l (a_off z) k' -> klt k k').
  { intros l k' Hl [E|(c & Hc & Eo & Hk)].
    - exfalso. apply Hhd. rewrite <-Eh, <-E. by apply list_elem_of_fmap_2.
    - apply elem_lvl in Hc as [_ Hc]. rewrite (offs_inj ns' z c Hnd Hin Hc Eo) in Ek. by rewrite <-Ek. }
  split; try done.
  - unfold retarget. cbn [spl]. by rewrite length_imap.
  - intros l Hl. rewrite splice_at_retarget by done. destruct (_ && _) eqn:E; [|by apply G3].
    cbn [spPrev]. apply andb_prop in E as [E _]. apply Nat.ltb_lt in E. right. apply list_elem_of_fmap_2, elem_lvl. auto.
  - intros l Hl. rewrite splice_at_retarget by done. destruct (_ && _); by apply G4.
  - intros l k' Hl Hb. rewrite splice_at_retarget in Hb |- * by done.
    cbn [insHeight retarget] in Hl.
    rewrite (proj2 (Nat.ltb_lt (S l) (Z.to_nat maxHeight))), andb_true_r by lia.
    rewrite (proj2 (Nat.ltb_lt l (Z.to_nat maxHeight))), andb_true_r in Hb by lia.
    destruct (Nat.ltb_spec l (a_h z)) as [Hlh|Hlh], (Nat.ltb_spec (S l) (a_h z)) as [HSh|HSh]; cbn [spPrev] in Hb |- *; try lia.
    + right. exists z. split; [apply elem_lvl; auto|]. split; [done|]. rewrite Ek. exact (HzB l k' Hlh Hb).
    + pose proof (HzB l k' Hlh Hb) as Hk. eapply before_grow; [exact Eh|exact Hsub|].
      destruct (Hbr (S l) ltac:(lia)) as [E|(a & Ha & E & Hak)]; [by left|]. right. exists a. split; [done|].
      split; [done|]. by eapply klt_trans.
    + by apply G5.
  - intros l k' Hl Hb. rewrite splice_at_retarget in Hb |- * by done.
    assert (Hsel : forall m, spNext (if (m <? a_h z)%nat && (m <? Z.to_nat maxHeight)%nat
      then mkSplice (a_off z) (spNext (splice_at ins m)) else splice_at ins m) = spNext (splice_at ins m))
      by (intros m; by destruct ((m <? a_h z)%nat && (m <? Z.to_nat maxHeight)%nat)).
    rewrite !Hsel in *. by apply G6.
  - intros l Hl. rewrite splice_at_retarget by done. rewrite (proj2 (Nat.ltb_ge l (a_h z))) by lia. by apply G7.
Qed.

(** An addition of an absent key through a valid inserter. *)
Lemma addInternal_absent s ns ins k v height :
  holds s ns -> ins_ok s ns ins -> Forall (fun a => a_key a <> k) ns -> 1 <= height <= maxHeight ->
  maxNodeSize + InternalKey.Size k + len v + align4 < 4294967296 -> key_ok k ->
  exists s' ins' e, addInternal cmp s height k v ins = Ok (s', ins', e) /\
    sHead s' = sHead s /\ sTail s' = sTail s /\ sHeight s <= sHeight s' /\ arena_len (arena s') = arena_len (arena s) /\
    (fits (arena s) k v -> e = None /\ exists B A z, split_at k ns B A /\ a_key z = k /\ a_val z = v /\
       holds s' (B ++ z :: A) /\ ins_ok s' (B ++ z :: A) ins' /\
       arena_n (arena s) < arena_n (arena s') <= arena_n (arena s) + maxNodeSize + InternalKey.Size k + len v + align4) /\
    (~ fits (arena s) k v -> e = Some ErrArenaFull /\ holds s' ns /\ ins_ok s' ns ins').
Proof.
  intros Hh Hi Hk Hht Hsz Hko. pose proof (h_shape _ _ Hh) as Hsh. pose proof (i_height _ _ Hsh) as Hmax.
  destruct (split_exists k ns (i_sorted _ _ Hsh)) as (B & A & Hs).
  destruct (findSplice_spec s ns k B A ins Hh Hs Hi) as (ins1 & found & E1 & Hi1 & Hih & Hbr & Hf & _).
  assert (HkA : Forall (fun a => a_key a <> k) A).
  { rewrite (s_app _ _ _ _ Hs) in Hk. by apply Forall_app in Hk as [_ ?]. }
  assert (found = false) as ->.
  { destruct found; [|done]. rewrite hit_absent in Hf by done. by specialize (Hf eq_refl). }
  unfold addInternal. rewrite E1. cbn [rbind].
  destruct (decide (arena_n (arena s) + maxNodeSize + InternalKey.Size k + len v + align4 <= arena_len (arena s))) as [Hfit|Hfit].
  2: { destruct (newNode_full s ns k v height Hh Hht Hsz Hfit) as (s1 & E & Hh1 & Hins & Hlen).
    assert (Hsame : sHead s1 = sHead s /\ sTail s1 = sTail s /\ sHeight s1 = sHeight s).
    { unfold newNode in E. destruct (Arena.newNode (arena s) height k v) as [a' [[? ?]|?|]]; try done.
      by injection E as <- _. }
    rewrite E. eexists _, _, _. split; [done|]. destruct Hsame as (?&?&?). do 4 (split; [done || lia|]). split; [done|]. auto. }
  destruct (newNode_fits (arena s) height k v (i_arena _ _ Hsh) Hht Hfit) as (a' & off & h & Ea).
  destruct (newNode_shape s ns k v height B A a' off h Hh Hs Hk Hht Hsz Hko Ea)
    as (s1 & z & -> & Zk & Zv & Zh & Hsh1 & Hc1 & P1 & P2 & P3 & P4 & P5).
  pose proof (s_app _ _ _ _ Hs) as Ens.
  destruct (link_levels_spec k B A z ins1 (Z.to_nat height) s1 0 false) as (s2 & inval & E2 & Sh2 & Hc2).
  { lia. } { rewrite Zh. lia. } { done. } { by rewrite Ens in Hs. } { intros l. by apply hit_absent. }
  { intros; lia. } { intros l Hl. apply Hc1. lia. }
  { intros l Hl. destruct (decide (l < Z.to_nat (sHeight s))%nat) as [Hlt|Hge].
    - right. rewrite P1, P2. destruct (Hbr l Hlt) as [Hb Ha]. apply (before_iff _ _ _ _ _ Hs) in Hb.
      by apply (after_iff _ _ _ _ _ Hs) in Ha.
    - left. apply Hi1. lia. }
  rewrite E2. cbn [rbind].
  assert (Hsh2 : shape s2 (B ++ z :: A)) by (by eapply shape_same).
  assert (Hin : ns ⊆ B ++ z :: A) by (rewrite Ens; set_solver).
  pose proof (nodup_offs _ _ (i_nodup _ _ Hsh2)) as Hnd2.
  assert (Hh2 : sHead s2 = sHead s) by (rewrite (sh_head _ _ Sh2); done).
  assert (Ht2 : sTail s2 = sTail s) by (rewrite (sh_tail _ _ Sh2); done).
  assert (Hht2 : sHeight s2 = Z.max (sHeight s) height) by (rewrite (sh_height _ _ Sh2); done).
  set (ins2 := if inval then mkIns (spl ins1) 0 else retarget ins1 (Z.to_nat height) (a_off z)).
  assert (Hins2 : ins_ok s2 (B ++ z :: A) ins2).
  { unfold ins2. destruct inval.
    - pose proof (ins_ok_grow s s2 ns (B ++ z :: A) ins1 Hh2 Ht2 ltac:(lia) Hin Hnd2 Hi1) as [O1 O2 O3 O4 O5 O6 O7].
      split; cbn [insHeight spl]; try done; try (intros; lia).
    - rewrite <-Zh. eapply (retarget_ok s s2 ns _ k); try done; try lia.
      + set_solver.
      + rewrite <-Hh2. apply head_not_in. apply Hsh2.
      + intros l Hl. by apply Hbr. }
  exists s2, ins2, None. split; [by destruct inval|]. do 3 (split; [done || lia|]).
  split; [by rewrite (sh_arena _ _ Sh2)|]. split; [|done]. intros _. split; [done|]. exists B, A, z.
  split; [done|]. split; [done|]. split; [done|]. split; [by split|]. split; [done|]. rewrite (sh_arena _ _ Sh2). lia.
Qed.
(** ** Reading *)

Definition entry_of (a : anode) : entry := (a_key a, a_val a).

Lemma lvl_0 s ns : shape s ns -> lvl 0 ns = ns.
Proof.
  intros Hsh. pose proof (i_heights _ _ Hsh) as HF. clear Hsh. unfold lvl. induction HF as [|a ns' Ha HF IH]; [done|].
  rewrite filter_cons_True by lia. by rewrite IH.
Qed.

Lemma base_chain s ns : holds s ns -> chain s 0 (sHead s :: offs ns ++ [sTail s]).
Proof.
  intros Hh. pose proof (h_chain _ _ Hh 0 ltac:(unfold maxHeight; lia)) as Hc. unfold level_chain in Hc.
  by rewrite (lvl_0 s ns (h_shape _ _ Hh)) in Hc.
Qed.

Lemma length_trailer k : length (InternalKey.EncodeTrailerBytes k) = 8%nat.
Proof. unfold InternalKey.EncodeTrailerBytes. apply length_le_put. Qed.

(** The bytes of a node's key and value. *)
Lemma node_bytes s a :
  arena_wf (arena s) -> node_ok s a ->
  exists nd, node_at s (a_off a) = Ok nd /\
    getKeyBytes s (hdr nd) = Ok (InternalKey.UserKey (a_key a) ++ InternalKey.EncodeTrailerBytes (a_key a)) /\
    getValue s (hdr nd) = Ok (a_val a).
Proof.
  intros [Hw1 Hw2] (nd & En & _ & [K1 K2 K3 K4 K4' K5 K6 K7]). exists nd. unfold node_at. rewrite En. split; [done|].
  pose proof (len_nonneg (InternalKey.UserKey (a_key a))). pose proof (len_nonneg (a_val a)).
  unfold getKeyBytes, getValue, arenaGetBytes. rewrite u32_small by lia.
  bdestruct_all; try lia. cbn [rbind default]. split.
  - rewrite app_assoc in K5. pose proof (mem_read_mid _ _ _ [] _ _ K5) as Hm. rewrite len_nil, Z.add_0_r in Hm.
    unfold len in K1. rewrite K1. rewrite length_app, length_trailer in Hm.
    replace (Z.to_nat (Z.of_nat (length (InternalKey.UserKey (a_key a))) + 8)) with
      (length (InternalKey.UserKey (a_key a)) + 8)%nat by lia. by rewrite Hm.
  - rewrite app_assoc in K5. rewrite <-(app_nil_r (a_val a)) in K5.
    pose proof (mem_read_mid _ _ _ _ _ _ K5) as Hm. rewrite len_app in Hm. unfold len in Hm at 2. rewrite length_trailer in Hm.
    unfold len in K2. rewrite K1, K2, Nat2Z.id. unfold len in Hm |- *. change (Z.of_nat 8) with 8 in Hm. by rewrite Hm.
Qed.

Lemma decodeKey_ok it a :
  arena_wf (arena (list_ it)) -> node_ok (list_ it) a -> nd_ it = a_off a ->
  decodeKey it = Ok (mkSIter (list_ it) (nd_ it) (a_key a) (lower_ it) (upper_ it)).
Proof.
  intros Hw Ha E. destruct (node_bytes (list_ it) a Hw Ha) as (nd & E1 & E2 & _). unfold decodeKey.
  rewrite E, E1. cbn [rbind]. rewrite E2. cbn [rbind]. cbv zeta. rewrite len_app.
  assert (len (InternalKey.EncodeTrailerBytes (a_key a)) = 8) as -> by (unfold len; by rewrite length_trailer).
  pose proof (len_nonneg (InternalKey.UserKey (a_key a))) as Hl.
  destruct (Z.leb_spec 0 (len (InternalKey.UserKey (a_key a)) + 8 - 8)); [|lia].
  replace (Z.to_nat (len (InternalKey.UserKey (a_key a)) + 8 - 8)) with (length (InternalKey.UserKey (a_key a)))
    by (unfold len; lia).
  rewrite take_app_length, drop_app_length, take_ge by (rewrite length_trailer; lia).
  unfold InternalKey.EncodeTrailerBytes. rewrite le_get_put_u64.
  destruct Ha as (nd' & _ & _ & Hb). rewrite u64_small by apply (b_trailer _ _ _ Hb).
  by destruct (a_key a).
Qed.

Lemma ivalue_ok it a :
  arena_wf (arena (list_ it)) -> node_ok (list_ it) a -> nd_ it = a_off a -> ivalue it = Ok (a_val a).
Proof.
  intros Hw Ha E. destruct (node_bytes (list_ it) a Hw Ha) as (nd & E1 & _ & E2). unfold ivalue. by rewrite E, E1.
Qed.

(** The iterator stands at position [p] of the list. *)
Definition stands (it : SIterator) (ns : list anode) (p : Z) : Prop :=
  holds (list_ it) ns /\ upper_ it = None /\ -1 <= p <= len ns /\
  lookupZ (sHead (list_ it) :: offs ns ++ [sTail (list_ it)]) (p + 1) = Some (nd_ it).

Lemma lookupZ_offs s ns p a :
  lookupZ ns p = Some a -> lookupZ (sHead s :: offs ns ++ [sTail s]) (p + 1) = Some (a_off a).
Proof.
  intros H. pose proof (lookupZ_is_Some _ _ _ H) as Hr. rewrite lookupZ_cons by lia.
  replace (p + 1 - 1) with p by lia. unfold lookupZ in *. destruct (Z.ltb_spec p 0); [lia|].
  apply lookup_app_l_Some. unfold offs. by rewrite list_lookup_fmap, H.
Qed.

Lemma lookupZ_tail s ns p : p = len ns -> lookupZ (sHead s :: offs ns ++ [sTail s]) (p + 1) = Some (sTail s).
Proof.
  intros ->. pose proof (len_nonneg ns). rewrite lookupZ_cons by lia. unfold lookupZ. bdestruct_all; [lia|].
  replace (Z.to_nat (len ns + 1 - 1)) with (length (offs ns)) by (unfold offs, len; rewrite length_fmap; lia).
  by rewrite lookup_app_r, Nat.sub_diag by done.
Qed.

Lemma settle_fwd_spec it ns p q :
  holds (list_ it) ns -> upper_ it = None -> 0 <= p <= len ns ->
  lookupZ (sHead (list_ it) :: offs ns ++ [sTail (list_ it)]) (p + 1) = Some q ->
  exists it', settle_fwd cmp it q = Ok (it', lookupZ (entry_of <$> ns) p) /\ stands it' ns p /\ list_ it' = list_ it.
Proof.
  intros Hh Hu Hp Hq. pose proof (h_shape _ _ Hh) as Hsh. unfold settle_fwd. cbn [nd_ at_node list_].
  destruct (lookupZ ns p) as [a|] eqn:Ea.
  - rewrite (lookupZ_offs _ _ _ _ Ea) in Hq. injection Hq as <-.
    assert (Ha : a ∈ ns).
    { unfold lookupZ in Ea. destruct (p <? 0); [done|]. by eapply list_elem_of_lookup_2. }
    pose proof (i_nodes _ _ Hsh) as HF. rewrite Forall_forall in HF. specialize (HF a Ha).
    destruct (Z.eqb_spec (a_off a) (sTail (list_ it))) as [E|_].
    { exfalso. apply (tail_not_in _ _ (i_nodup _ _ Hsh)). rewrite <-E. by apply list_elem_of_fmap_2. }
    rewrite (decodeKey_ok _ a) by (cbn; try done; apply Hsh). cbn [rbind upper_ at_node]. rewrite Hu.
    rewrite (ivalue_ok _ a) by (cbn; try done; apply Hsh). cbn [rbind key_ nd_ list_ lower_].
    eexists. split; [by rewrite lookupZ_fmap, Ea|]. split; [|done].
    split; [done|]. split; [done|]. split; [lia|]. by apply lookupZ_offs.
  - assert (p = len ns) as Hpe.
    { destruct (decide (p = len ns)); [done|]. destruct (lookupZ_Some ns p) as [x Hx]; [lia|congruence]. }
    rewrite (lookupZ_tail _ _ _ Hpe) in Hq. injection Hq as <-. rewrite Z.eqb_refl.
    eexists. split; [by rewrite lookupZ_fmap, Ea|]. split; [|done].
    split; [done|]. split; [done|]. split; [lia|]. by apply lookupZ_tail.
Qed.

Lemma chain_lookup s l xs p x :
  chain s l xs -> 0 <= p -> p + 1 < len xs -> lookupZ xs p = Some x ->
  exists y, getNext s x l = Ok y /\ lookupZ xs (p + 1) = Some y.
Proof.
  intros Hc Hp Hlen Hx. destruct (lookupZ_Some xs (p + 1)) as [y Hy]; [lia|]. exists y. split; [|done].
  pose proof (drop_lookupZ _ _ _ Hx) as D1. pose proof (drop_lookupZ _ _ _ Hy) as D2.
  rewrite <-(take_drop (Z.to_nat p) xs), D1, D2 in Hc. apply chain_suffix in Hc. by destruct Hc as [[? _] _].
Qed.

Lemma sNext_stands it ns p :
  stands it ns p -> -1 <= p < len ns ->
  exists it', sNext cmp it = Ok (it', lookupZ (entry_of <$> ns) (p + 1)) /\ stands it' ns (p + 1) /\ list_ it' = list_ it.
Proof.
  intros (Hh & Hu & Hr & Hl) Hp. unfold sNext.
  destruct (chain_lookup (list_ it) 0 _ (p + 1) (nd_ it) (base_chain _ _ Hh)) as (y & -> & Hy); [lia| |done|].
  { unfold offs. rewrite len_cons, len_app. unfold len at 1. rewrite length_fmap. fold (len ns). unfold len at 2. cbn. lia. }
  cbn [rbind]. by apply settle_fwd_spec; [|..|lia|].
Qed.

Lemma sFirst_stands it ns p :
  stands it ns p ->
  exists it', sFirst cmp it = Ok (it', lookupZ (entry_of <$> ns) 0) /\ stands it' ns 0 /\ list_ it' = list_ it.
Proof.
  intros (Hh & Hu & Hr & Hl). unfold sFirst. pose proof (len_nonneg ns).
  destruct (chain_lookup (list_ it) 0 _ 0 (sHead (list_ it)) (base_chain _ _ Hh)) as (y & -> & Hy); [lia| |done|].
  { unfold offs. rewrite len_cons, len_app. unfold len at 1. rewrite length_fmap. fold (len ns). unfold len at 2. cbn. lia. }
  cbn [rbind]. by apply settle_fwd_spec; [|..|lia|].
Qed.

#[export] Instance sklOps_laws :
  ForwardLaws (sklOps cmp) (fun it l p => exists ns, l = entry_of <$> ns /\ stands it ns p).
Proof.
  split.
  - intros it l p (ns & -> & Hs). destruct (sFirst_stands it ns p Hs) as (it' & E & Hs' & _). exists it'. eauto.
  - intros it l p (ns & -> & Hs) Hp. unfold len in Hp. rewrite length_fmap in Hp.
    destruct (sNext_stands it ns p Hs) as (it' & E & Hs' & _); [unfold len; lia|]. exists it'. eauto.
  - done.
Qed.

Lemma NewIter_stands s ns lo : holds s ns -> stands (NewIter s lo None) ns (-1).
Proof. intros Hh. split; [done|]. split; [done|]. pose proof (len_nonneg ns). split; [lia|done]. Qed.
(** *** Lookup *)

Lemma sorted_split k ns B A : StronglySorted node_lt ns -> split_at k ns B A -> StronglySorted node_lt A.
Proof. intros H Hs. rewrite (s_app _ _ _ _ Hs) in H. by apply StronglySorted_app_1_r in H. Qed.

Lemma lvl_0_above s ns k B A : shape s ns -> split_at k ns B A -> lvl 0 A = A.
Proof.
  intros Hsh Hs. pose proof (lvl_0 s ns Hsh) as H0. pose proof (i_heights _ _ Hsh) as HF.
  rewrite (s_app _ _ _ _ Hs) in HF. apply Forall_app in HF as [_ HF]. clear - HF.
  unfold lvl. induction HF as [|x A' Hx HF IH]; [done|]. rewrite filter_cons_True by lia. by rewrite IH.
Qed.

(** A node that equals the key is the first one not before it, on every level
    it has. *)
Lemma hit_succ s ns k B A l : shape s ns -> split_at k ns B A -> hit k l A = true -> succ s l A = succ s 0 A.
Proof.
  intros Hsh Hs. unfold hit, succ. destruct (head (lvl l A)) as [a|] eqn:E; [|done].
  intros Hc%Z.eqb_eq%(InternalKey.InternalCompare_eq cmp).
  assert (E' : head (offs (lvl l A)) = Some (a_off a)) by (destruct (lvl l A); [done|]; by injection E as ->).
  assert (Ha : a ∈ lvl l A) by (destruct (lvl l A); [done|]; injection E as ->; left).
  pose proof (lvl_0_above s ns k B A Hsh Hs) as E0.
  rewrite E', E0. apply elem_lvl in Ha as [_ Ha].
  pose proof (sorted_split k ns B A (i_sorted _ _ Hsh) Hs) as HsA. pose proof (s_above _ _ _ _ Hs) as HA.
  destruct A as [|a0 A']; [by apply not_elem_of_nil in Ha|]. cbn.
  apply elem_of_cons in Ha as [->|Ha]; [done|]. exfalso.
  apply StronglySorted_inv in HsA as [_ HF]. rewrite Forall_forall in HF. specialize (HF a Ha).
  apply Forall_cons in HA as [HA _]. apply HA. rewrite <-Hc. exact HF.
Qed.

Lemma base_splice_spec s ns k B A level p :
  holds s ns -> split_at k ns B A -> (level < Z.to_nat maxHeight)%nat -> p ∈ sHead s :: offs (lvl level B) ->
  exists found, base_splice cmp level s k p = Ok (pred s 0 B, succ s 0 A, found).
Proof.
  intros Hh Hs. pose proof (h_shape _ _ Hh) as Hsh. revert p.
  assert (H0 : getPrev s (succ s 0 A) 0 = Ok (pred s 0 B)).
  { apply level_linked. rewrite <-(s_app _ _ _ _ Hs). apply Hh. unfold maxHeight. lia. }
  induction level as [|level IH]; intros p Hl Hp; cbn [base_splice];
    (rewrite (find_level s ns _ k B A p); [|by apply shape_walkable|done|by apply Hh|done]); cbn [rbind];
    destruct (hit k _ A) eqn:Eh.
  - cbn. eauto.
  - eauto.
  - rewrite (hit_succ s ns k B A (S level) Hsh Hs Eh). cbn [Nat.eqb negb]. rewrite H0. cbn. eauto.
  - apply IH; [lia|]. pose proof (pred_in s (S level) B) as Hin. apply elem_of_cons in Hin as [->|Hin]; [left|right].
    by apply (offs_mono _ _ (lvl_S_sub level B)).
Qed.

Lemma seek_spec s ns key B A :
  holds s ns -> split_at (InternalKey.MakeSearchKey key) ns B A ->
  exists found, seekForBaseSplice cmp s key = Ok (pred s 0 B, succ s 0 A, found).
Proof.
  intros Hh Hs. pose proof (i_height _ _ (h_shape _ _ Hh)). unfold seekForBaseSplice.
  apply (base_splice_spec s ns); [done|done|lia|left].
Qed.

(** The newest node of a user key, and what a lookup makes of it. *)
Definition newest (key : bytes) (es : list entry) : option entry :=
  head (filter (fun e => InternalKey.UserKey e.1 = key) es).

Definition answer (o : option entry) : bytes * bool * Z :=
  match o with
  | Some (k, v) =>
      let kind := InternalKey.KindOf k in
      if kind =? InternalKey.KindSet then (v, true, kind)
      else if (kind =? InternalKey.KindDelete) || (kind =? InternalKey.KindPrefixDelete) then ([], true, kind)
      else ([], false, InternalKey.KindInvalid)
  | None => ([], false, InternalKey.KindInvalid)
  end.

(** Keys as the store makes them: a search key of the same user key is not
    after them. *)
Definition searchable (k : InternalKey) : Prop :=
  InternalKey.Trailer k <= InternalKey.Trailer (InternalKey.MakeSearchKey (InternalKey.UserKey k)).

Lemma newest_split ns key B A :
  StronglySorted node_lt ns -> Forall (fun a => searchable (a_key a)) ns ->
  split_at (InternalKey.MakeSearchKey key) ns B A ->
  newest key (entry_of <$> ns) =
  match A with
  | a :: _ => if decide (InternalKey.UserKey (a_key a) = key) then Some (entry_of a) else None
  | [] => None
  end.
Proof.
  intros Hso Hse Hs. unfold newest. pose proof (s_app _ _ _ _ Hs) as E. rewrite E in Hso, Hse. rewrite E, fmap_app, filter_app.
  apply Forall_app in Hse as [HseB HseA].
  assert (filter (fun e : entry => InternalKey.UserKey e.1 = key) (entry_of <$> B) = []) as ->.
  { pose proof (s_below _ _ _ _ Hs) as HB. clear - HB HseB Comparator0. induction HB as [|b B Hb HB IH]; [done|].
    apply Forall_cons in HseB as [Hsb HseB]. cbn [fmap list_fmap]. rewrite filter_cons_False; [by apply IH|].
    cbn. intros Ek. unfold klt in Hb. apply (InternalKey.InternalCompare_lt cmp) in Hb as [Hb|[_ Ht]].
    - cbn [InternalKey.MakeSearchKey InternalKey.UserKey] in Hb. rewrite Ek, (cmp_refl cmp) in Hb. lia.
    - unfold searchable in Hsb. rewrite Ek in Hsb. lia. }
  cbn [app]. destruct A as [|a A]; [done|]. cbn [fmap list_fmap]. rewrite filter_cons.
  destruct (decide _) as [Ek|Ek]; cbn [entry_of fst] in Ek; [done|].
  assert (Hgt : cmp key (InternalKey.UserKey (a_key a)) < 0).
  { pose proof (s_above _ _ _ _ Hs) as HA. apply Forall_cons in HA as [HA _].
    destruct (cmp_total cmp key (InternalKey.UserKey (a_key a))) as [?|[?|H]]; [done|congruence|].
    exfalso. apply HA. apply (InternalKey.InternalCompare_lt cmp). by left. }
  apply StronglySorted_app_1_r, StronglySorted_inv in Hso as [_ HF]. clear - HF Hgt Comparator0.
  induction HF as [|c A Hc HF IH]; [done|]. cbn [fmap list_fmap]. rewrite filter_cons_False; [done|]. cbn.
  intros Ek. unfold node_lt, klt in Hc. apply (InternalKey.InternalCompare_lt cmp) in Hc as [Hc|[Ec _]].
  - rewrite Ek in Hc. pose proof (cmp_trans (cmp := cmp) _ _ _ Hgt Hc) as Hr. rewrite (cmp_refl cmp) in Hr. lia.
  - rewrite Ec, Ek, (cmp_refl cmp) in Hgt. lia.
Qed.

Lemma Get_spec s ns key :
  holds s ns -> Forall (fun a => searchable (a_key a)) ns ->
  Get cmp s key = Ok (answer (newest key (entry_of <$> ns))).
Proof.
  intros Hh Hse. pose proof (h_shape _ _ Hh) as Hsh.
  destruct (split_exists (InternalKey.MakeSearchKey key) ns (i_sorted _ _ Hsh)) as (B & A & Hs).
  rewrite (newest_split ns key B A (i_sorted _ _ Hsh) Hse Hs). unfold Get.
  destruct (seek_spec s ns key B A Hh Hs) as [found ->]. cbn [rbind snd].
  pose proof (lvl_0_above s ns _ B A Hsh Hs) as E0.
  unfold succ. rewrite E0. destruct A as [|a A]; cbn [offs fmap list_fmap head default from_option id].
  { by rewrite Z.eqb_refl. }
  assert (Ha : a ∈ ns) by (rewrite (s_app _ _ _ _ Hs); set_solver).
  destruct (Z.eqb_spec (a_off a) (sTail s)) as [E|_].
  { exfalso. apply (tail_not_in _ _ (i_nodup _ _ Hsh)). rewrite <-E. by apply list_elem_of_fmap_2. }
  pose proof (i_nodes _ _ Hsh) as HF. rewrite Forall_forall in HF. specialize (HF a Ha).
  destruct (node_bytes s a (i_arena _ _ Hsh) HF) as (nd & -> & E2 & E3). cbn [rbind]. rewrite E2. cbn [rbind]. cbv zeta.
  rewrite len_app. assert (len (InternalKey.EncodeTrailerBytes (a_key a)) = 8) as -> by (unfold len; by rewrite length_trailer).
  replace (len (InternalKey.UserKey (a_key a)) + 8 - 8) with (len (InternalKey.UserKey (a_key a))) by lia.
  pose proof (len_nonneg (InternalKey.UserKey (a_key a))) as Hl. rewrite (proj2 (Z.ltb_ge _ 0) Hl). cbn [orb].
  unfold len. rewrite Nat2Z.id, take_app_length, drop_app_length, take_ge by (rewrite length_trailer; lia).
  destruct (decide (InternalKey.UserKey (a_key a) = key)) as [Ek|Ek].
  - rewrite Ek, (cmp_refl cmp). cbn [Z.eqb negb].
    unfold InternalKey.EncodeTrailerBytes. rewrite le_get_put_u64.
    destruct HF as (nd' & _ & _ & Hb). rewrite u64_small by apply (b_trailer _ _ _ Hb).
    unfold answer, entry_of, InternalKey.KindOf. rewrite E3. cbn [rbind].
    destruct (_ =? InternalKey.KindSet); [done|]. by destruct (_ || _).
  - destruct (Z.eqb_spec (cmp key (InternalKey.UserKey (a_key a))) 0) as [E|_]; [|done].
    exfalso. apply Ek. symmetry. by apply (cmp_eq (cmp := cmp)).
Qed.
(** *** The flush iterator *)

Lemma lookupZ_elem {T} (l : list T) i x : lookupZ l i = Some x -> x ∈ l.
Proof. unfold lookupZ. destruct (i <? 0); [done|]. apply list_elem_of_lookup_2. Qed.

Lemma add_alloc_ok it ns p n :
  stands it ns p -> 0 <= p < len ns -> exists n', add_alloc it n = Ok n'.
Proof.
  intros (Hh & _ & _ & Hl) Hp. destruct (lookupZ_Some ns p Hp) as [a Ea].
  rewrite (lookupZ_offs _ _ _ _ Ea) in Hl. injection Hl as Hl. unfold add_alloc. rewrite <-Hl.
  pose proof (i_nodes _ _ (h_shape _ _ Hh)) as HF. rewrite Forall_forall in HF.
  destruct (HF a (lookupZ_elem _ _ _ Ea)) as (nd & En & _). unfold node_at. rewrite En. cbn. eauto.
Qed.

Lemma flNext_stands f ns p :
  stands f.1 ns p -> -1 <= p < len ns ->
  exists f', flNext f = Ok (f', lookupZ (entry_of <$> ns) (p + 1)) /\ stands f'.1 ns (p + 1).
Proof.
  intros (Hh & Hu & Hr & Hl) Hp. pose proof (h_shape _ _ Hh) as Hsh. unfold flNext.
  destruct (chain_lookup (list_ f.1) 0 _ (p + 1) (nd_ f.1) (base_chain _ _ Hh)) as (y & -> & Hy); [lia| |done|].
  { unfold offs. rewrite len_cons, len_app. unfold len at 1. rewrite length_fmap. fold (len ns). unfold len at 2. cbn. lia. }
  cbn [rbind]. cbv zeta. cbn [nd_ at_node list_]. rewrite lookupZ_fmap.
  destruct (lookupZ ns (p + 1)) as [a|] eqn:Ea.
  - rewrite (lookupZ_offs _ _ _ _ Ea) in Hy. injection Hy as <-. pose proof (lookupZ_elem _ _ _ Ea) as Ha.
    pose proof (i_nodes _ _ Hsh) as HF. rewrite Forall_forall in HF. specialize (HF a Ha).
    destruct (Z.eqb_spec (a_off a) (sTail (list_ f.1))) as [E|_].
    { exfalso. apply (tail_not_in _ _ (i_nodup _ _ Hsh)). rewrite <-E. by apply list_elem_of_fmap_2. }
    rewrite (decodeKey_ok _ a) by (cbn; try done; apply Hsh). cbn [rbind].
    set (it := mkSIter _ _ _ _ _).
    assert (Hst : stands it ns (p + 1)) by (split; [done|]; split; [done|]; split; [lia|]; by apply lookupZ_offs).
    destruct (add_alloc_ok it ns (p + 1) f.2 Hst) as [n ->]; [pose proof (lookupZ_is_Some _ _ _ Ea); lia|].
    cbn [rbind]. rewrite (ivalue_ok it a) by (cbn; try done; apply Hsh). cbn [rbind]. exists (it, n). done.
  - assert (p + 1 = len ns) as Hpe.
    { destruct (decide (p + 1 = len ns)); [done|]. destruct (lookupZ_Some ns (p + 1)) as [x Hx]; [lia|congruence]. }
    rewrite (lookupZ_tail _ _ _ Hpe) in Hy. injection Hy as <-. rewrite Z.eqb_refl.
    eexists (_, _). split; [done|]. split; [done|]. split; [done|]. split; [lia|]. by apply lookupZ_tail.
Qed.

#[export] Instance sklFlushOps_laws :
  ForwardLaws (sklFlushOps cmp) (fun f l p => exists ns, l = entry_of <$> ns /\ stands f.1 ns p).
Proof.
  split.
  - intros f l p (ns & -> & Hs). destruct (sFirst_stands f.1 ns p Hs) as (it' & E & Hs' & _).
    cbn [itFirst sklFlushOps]. unfold flFirst. rewrite E. cbn [rbind]. rewrite lookupZ_fmap.
    destruct (lookupZ ns 0) as [a|] eqn:Ea; cbn [fmap option_fmap option_map].
    + destruct (add_alloc_ok it' ns 0 f.2 Hs') as [n ->]; [pose proof (lookupZ_is_Some _ _ _ Ea); lia|].
      exists (it', n). cbn [rbind]. split; [done|]. by exists ns.
    + exists (it', f.2). split; [done|]. by exists ns.
  - intros f l p (ns & -> & Hs) Hp. unfold len in Hp. rewrite length_fmap in Hp.
    destruct (flNext_stands f ns p Hs) as (f' & E & Hs'); [unfold len; lia|]. exists f'. eauto.
  - done.
Qed.

(** ** A new list *)

(** The size of an arena that holds the two sentinels ([memTableEmptySize]). *)
Definition emptySize : Z := 327.

Lemma Reset_holds buf size :
  emptySize <= size < 4294967296 ->
  exists s, Reset (NewArena buf size) = Ok s /\ holds s [] /\ sHeight s = 1 /\
    arena_n (arena s) = emptySize /\ arena_len (arena s) = size.
Proof.
  unfold emptySize. intros Hsz.
  assert (E1 : newRawNode (NewArena buf size) maxHeight 0 0 = (mkArena 164 buf size, Ok (4, mkNode 164 0 0 163))).
  { unfold newRawNode, arenaAlloc, NewArena. cbn [arena_n arena_len arena_buf].
    change (u32 (u32 (maxNodeSize - u32 ((maxHeight - maxHeight) * linksSize)) + 0 + 0)) with 160.
    change (u32 ((maxHeight - maxHeight) * linksSize)) with 0. change (u32 (160 + align4)) with 163.
    rewrite (proj2 (Z.ltb_ge size 1)) by lia. rewrite (proj2 (Z.ltb_ge size (1 + 163 + 0))) by lia. done. }
  assert (E2 : newRawNode (mkArena 164 buf size) maxHeight 0 0 = (mkArena 327 buf size, Ok (164, mkNode 324 0 0 163))).
  { unfold newRawNode, arenaAlloc. cbn [arena_n arena_len arena_buf].
    change (u32 (u32 (maxNodeSize - u32 ((maxHeight - maxHeight) * linksSize)) + 0 + 0)) with 160.
    change (u32 ((maxHeight - maxHeight) * linksSize)) with 0. change (u32 (160 + align4)) with 163.
    rewrite (proj2 (Z.ltb_ge size 164)) by lia. rewrite (proj2 (Z.ltb_ge size (164 + 163 + 0))) by lia. done. }
  unfold Reset. rewrite E1, E2. eexists. split; [done|]. split; [|done]. split.
  - split; cbn [arena nodes sHead sTail sHeight].
    + split; cbn; lia.
    + unfold maxHeight. lia.
    + eexists. rewrite lookup_insert_ne by done. rewrite lookup_singleton_eq. split; [done|]. cbn [tower]. by rewrite length_replicate.
    + eexists. rewrite lookup_insert_eq. split; [done|]. cbn [tower]. by rewrite length_replicate.
    + constructor.
    + intros p nd Hl. cbn. apply lookup_insert_Some in Hl as [[<- _]|[_ [<- _]%lookup_singleton_Some]]; lia.
    + cbn. lia.
    + cbn. apply NoDup_cons. split; [intros Hin%list_elem_of_singleton; done|apply NoDup_singleton].
    + constructor.
    + constructor.
  - intros l Hl. split; [|done]. cbn [sHead sTail lvl filter list_filter offs fmap list_fmap app].
    unfold linked, getNext, getPrev, links_at, node_at. cbn [nodes].
    rewrite lookup_insert_eq, lookup_insert_ne, lookup_singleton_eq by done. cbn [rbind tower].
    by rewrite !lookup_replicate_2 by done.
Qed.

Lemma randomHeight_range rnd : 1 <= randomHeight rnd <= maxHeight.
Proof.
  unfold randomHeight. assert (H : forall fuel h, 1 <= h <= maxHeight -> 1 <= height_loop fuel rnd h <= maxHeight).
  { induction fuel as [|fuel IH]; intros h Hh; [done|]. cbn [height_loop].
    destruct (Z.ltb_spec h maxHeight); cbn [andb]; [|done]. destruct (_ <=? _); [apply IH; lia|done]. }
  apply H. unfold maxHeight. lia.
Qed.
(** ** Sequences of additions *)

(** An addition: through which inserter, with which random number, and what. *)
Record addOp : Type := mkAdd { ad_ins : nat; ad_rnd : Z; ad_key : InternalKey; ad_val : bytes }.

Definition ad_entry (o : addOp) : entry := (ad_key o, ad_val o).

Fixpoint add_all (s : Skiplist) (inss : list Inserter) (ops : list addOp) : outcome (Skiplist * list Inserter) :=
  match ops with
  | [] => Ok (s, inss)
  | o :: ops' =>
      match inss !! ad_ins o with
      | None => Panic
      | Some ins =>
          let! (r, e) := addInternal cmp s (randomHeight (ad_rnd o)) (ad_key o) (ad_val o) ins in
          match e with
          | Some e => Err e
          | None => add_all r.1 (<[ad_ins o := r.2]> inss) ops'
          end
      end
  end.

Definition add_room (o : addOp) : Z := maxNodeSize + InternalKey.Size (ad_key o) + len (ad_val o) + align4.

Definition adds_room (ops : list addOp) : Z := foldr (fun o n => add_room o + n) 0 ops.

Definition addOp_ok (o : addOp) : Prop := key_ok (ad_key o) /\ searchable (ad_key o).

Lemma add_room_pos o : 0 < add_room o.
Proof.
  unfold add_room, InternalKey.Size, maxNodeSize, maxHeight, linksSize, align4.
  pose proof (len_nonneg (InternalKey.UserKey (ad_key o))). pose proof (len_nonneg (ad_val o)). lia.
Qed.

Lemma adds_room_nonneg ops : 0 <= adds_room ops.
Proof. induction ops as [|o ops IH]; cbn; [lia|]. pose proof (add_room_pos o). fold (adds_room ops). lia. Qed.

Lemma add_all_spec ops s ns inss :
  holds s ns -> Forall (ins_ok s ns) inss -> Forall (fun o => (ad_ins o < length inss)%nat) ops ->
  Forall addOp_ok ops -> NoDup (ad_key <$> ops) -> (forall o a, o ∈ ops -> a ∈ ns -> a_key a <> ad_key o) ->
  arena_n (arena s) + adds_room ops <= arena_len (arena s) ->
  exists s' inss' ns', add_all s inss ops = Ok (s', inss') /\ holds s' ns' /\ Forall (ins_ok s' ns') inss' /\
    length inss' = length inss /\ (entry_of <$> ns') ≡ₚ (entry_of <$> ns) ++ (ad_entry <$> ops) /\
    arena_n (arena s') <= arena_n (arena s) + adds_room ops /\ arena_len (arena s') = arena_len (arena s).
Proof.
  revert s ns inss. induction ops as [|o ops IH]; intros s ns inss Hh Hi Hin Hok Hnd Hdis Hroom; cbn [add_all].
  - exists s, inss, ns. rewrite app_nil_r. cbn. do 5 (split; [done|]). split; [lia|done].
  - apply Forall_cons in Hin as [Hino Hin]. apply Forall_cons in Hok as [[Hko Hse] Hok].
    apply NoDup_cons in Hnd as [Hno Hnd]. cbn [adds_room foldr] in Hroom. fold (adds_room ops) in Hroom.
    pose proof (adds_room_nonneg ops) as Hr0. pose proof (add_room_pos o) as Hr1.
    pose proof (i_arena _ _ (h_shape _ _ Hh)) as [Hw1 Hw2].
    destruct (lookup_lt_is_Some_2 inss (ad_ins o) Hino) as [ins Eins]. rewrite Eins.
    pose proof (Forall_lookup_1 _ _ _ _ Hi Eins) as Hins.
    destruct (addInternal_absent s ns ins (ad_key o) (ad_val o) (randomHeight (ad_rnd o)))
      as (s' & ins' & e & -> & Eh & Et & Hht & Elen & Hfit & _); try done.
    { rewrite Forall_forall. intros a Ha. apply Hdis; [left|done]. }
    { apply randomHeight_range. }
    { unfold add_room in *. lia. }
    destruct Hfit as (-> & B & A & z & Hs & Zk & Zv & Hh' & Hi' & Hn'); [unfold fits, add_room in *; lia|].
    cbn [rbind fst snd].
    assert (Hsub : ns ⊆ B ++ z :: A) by (rewrite (s_app _ _ _ _ Hs); set_solver).
    destruct (IH s' (B ++ z :: A) (<[ad_ins o := ins']> inss)) as (s'' & inss'' & ns'' & -> & R1 & R2 & R3 & R4 & R5 & R6); try done.
    + apply Forall_insert; [|done]. eapply Forall_impl; [exact Hi|]. intros i. apply ins_ok_grow; try done.
      by eapply nodup_offs, Hh'.
    + by rewrite length_insert.
    + intros o' a Ho' Ha. apply elem_of_app in Ha as [Ha|[->|Ha]%elem_of_cons].
      * apply Hdis; [by right|]. rewrite (s_app _ _ _ _ Hs). set_solver.
      * rewrite Zk. intros E. apply Hno. rewrite E. by apply list_elem_of_fmap_2.
      * apply Hdis; [by right|]. rewrite (s_app _ _ _ _ Hs). set_solver.
    + rewrite Elen. unfold add_room in *. lia.
    + exists s'', inss'', ns''. split; [done|]. split; [done|]. split; [done|]. split; [by rewrite R3, length_insert|].
      split; [|unfold add_room in *; cbn [adds_room foldr]; fold (adds_room ops); unfold add_room; split; [lia|congruence]].
      rewrite R4, (s_app _ _ _ _ Hs), !fmap_app. cbn [fmap list_fmap].
      assert (entry_of z = ad_entry o) as -> by (unfold entry_of, ad_entry; by rewrite Zk, Zv). solve_Permutation.
Qed.

Lemma entries_sorted ns : StronglySorted node_lt ns -> StronglySorted (entry_lt cmp) (entry_of <$> ns).
Proof.
  intros H. apply (StronglySorted_fmap node_lt); [done| |by intros].
  apply (StronglySorted_NoDup node_lt); [|done]. intros a. apply klt_irrefl.
Qed.

Lemma scan_holds s ns fuel :
  holds s ns -> (length ns <= fuel)%nat -> scan (sklOps cmp) fuel (NewIter s None None) = Ok (entry_of <$> ns).
Proof.
  intros Hh Hf. eapply (scan_walks (sklOps cmp) _); [|by rewrite length_fmap].
  exists ns. split; [done|]. by apply NewIter_stands.
Qed.

(** C9: the skiplist is a sorted map.  Additions of distinct keys, with any
    random heights and interleaved through any number of inserters whose
    remembered splices may be out of date, all succeed while the arena has room
    for them; a scan then yields exactly the added entries in the order of
    their internal keys, and a lookup answers from the newest entry of the
    key. *)
Theorem skl_sorted_map buf size n ops :
  size < 4294967296 -> Forall (fun o => (ad_ins o < n)%nat) ops -> Forall addOp_ok ops ->
  NoDup (ad_key <$> ops) -> emptySize + adds_room ops <= size ->
  exists s0 s inss es, Reset (NewArena buf size) = Ok s0 /\
    add_all s0 (replicate n zeroInserter) ops = Ok (s, inss) /\
    scan (sklOps cmp) (length ops) (NewIter s None None) = Ok es /\
    StronglySorted (entry_lt cmp) es /\ es ≡ₚ ad_entry <$> ops /\
    forall key, Get cmp s key = Ok (answer (newest key es)).
Proof.
  intros Hsz Hin Hok Hnd Hroom. pose proof (adds_room_nonneg ops).
  destruct (Reset_holds buf size) as (s0 & E0 & Hh & Hht & Hn & Hl); [lia|].
  destruct (add_all_spec ops s0 [] (replicate n zeroInserter)) as (s & inss & ns & E & R1 & R2 & R3 & R4 & _); try done.
  - apply Forall_replicate, zeroInserter_ok. lia.
  - eapply Forall_impl; [exact Hin|]. intros o. by rewrite length_replicate.
  - by intros o a _ ?%not_elem_of_nil.
  - rewrite Hn, Hl. lia.
  - exists s0, s, inss, (entry_of <$> ns). split; [done|]. split; [done|].
    pose proof (Permutation_length R4) as HL. cbn in HL. rewrite !length_fmap in HL.
    split; [apply scan_holds; [done|lia]|]. split; [apply entries_sorted, R1|]. split; [done|].
    intros key. apply Get_spec; [done|]. rewrite Forall_forall. intros a Ha.
    assert (Hin' : entry_of a ∈ ad_entry <$> ops).
    { cbn in R4. rewrite <-R4. by apply list_elem_of_fmap_2. }
    apply list_elem_of_fmap in Hin' as (o & E' & Ho). rewrite Forall_forall in Hok. destruct (Hok o Ho) as [_ Hs].
    injection E' as -> _. done.
Qed.

(** An addition of an absent key through any valid inserter puts it at its
    place in the order when its block fits; when it does not, the addition
    reports a full arena and leaves the stored list and the inserter as valid
    as they were. *)
Theorem skl_add s ns ins k v height :
  holds s ns -> ins_ok s ns ins -> Forall (fun a => a_key a <> k) ns -> 1 <= height <= maxHeight ->
  maxNodeSize + InternalKey.Size k + len v + align4 < 4294967296 -> key_ok k ->
  exists s' ins' e, addInternal cmp s height k v ins = Ok (s', ins', e) /\
    (fits (arena s) k v -> e = None /\ exists B A z, ns = B ++ A /\ entry_of z = (k, v) /\
       Forall (fun a => klt (a_key a) k) B /\ Forall (fun a => klt k (a_key a)) A /\
       holds s' (B ++ z :: A) /\ ins_ok s' (B ++ z :: A) ins') /\
    (~ fits (arena s) k v -> e = Some ErrArenaFull /\ holds s' ns /\ ins_ok s' ns ins').
Proof.
  intros Hh Hi Hk Hht Hsz Hko.
  destruct (addInternal_absent s ns ins k v height Hh Hi Hk Hht Hsz Hko)
    as (s' & ins' & e & E & _ & _ & _ & _ & Hfit & Hfull).
  exists s', ins', e. split; [done|]. split; [|done]. intros Hf.
  destruct (Hfit Hf) as (-> & B & A & z & Hs & Zk & Zv & Hh' & Hi' & _). split; [done|].
  pose proof Hs as [Ens HB HA]. exists B, A, z. split; [done|]. split; [unfold entry_of; by rewrite Zk, Zv|].
  split; [done|]. split; [|done]. rewrite Forall_forall in *. intros a Ha.
  apply not_klt_ne; [by apply HA|]. apply Hk. rewrite Ens. set_solver.
Qed.

(** A fresh inserter finds a key that is present. *)
Lemma Add_existing s ns k v height a :
  holds s ns -> a ∈ ns -> a_key a = k -> Add cmp s height k v = Ok (s, Some ErrRecordExists).
Proof.
  intros Hh Ha Ek. pose proof (h_shape _ _ Hh) as Hsh. pose proof (i_height _ _ Hsh) as Hht.
  destruct (split_exists k ns (i_sorted _ _ Hsh)) as (B & A & Hs).
  destruct (findSplice_spec s ns k B A zeroInserter Hh Hs) as (ins1 & found & E1 & _ & _ & _ & _ & Hf).
  { apply zeroInserter_ok. lia. }
  unfold Add, addInternal. rewrite E1. cbn [rbind]. rewrite Hf by (cbn; lia).
  assert (hit k 0 A = true) as ->; [|done]. unfold hit. rewrite (lvl_0_above s ns k B A Hsh Hs).
  rewrite (s_app _ _ _ _ Hs) in Ha. pose proof Hs as [_ HB HA]. rewrite Forall_forall in HB. apply elem_of_app in Ha as [Ha|Ha].
  { exfalso. apply HB in Ha. rewrite Ek in Ha. by apply klt_irrefl in Ha. }
  pose proof (sorted_split k ns B A (i_sorted _ _ Hsh) Hs) as HsA.
  destruct A as [|a0 A']; [by apply not_elem_of_nil in Ha|]. cbn. apply Z.eqb_eq, (InternalKey.InternalCompare_eq cmp).
  apply elem_of_cons in Ha as [->|Ha]; [done|]. exfalso.
  apply StronglySorted_inv in HsA as [_ HF]. rewrite Forall_forall in HF. specialize (HF a Ha).
  apply Forall_cons in HA as [HA _]. apply HA. rewrite <-Ek. exact HF.
Qed.
End Inv.

(** ** Concrete lists *)

#[local] Instance InternalKey_eq_dec : EqDecision InternalKey.
Proof. solve_decision. Defined.

Definition demo_key (k : Z) (s : Z) : InternalKey := InternalKey.MakeInternalKey [k] s InternalKey.KindSet.

(** Two writers; the splice of the first is out of date at its second
    addition. *)
Definition demo_adds : list addOp :=
  [mkAdd 0 600000000 (demo_key 5 1) [50]; mkAdd 1 100000000 (demo_key 7 2) [70]; mkAdd 0 4000000000 (demo_key 6 3) [60];
   mkAdd 1 9000000 (demo_key 5 4) [51]].

Lemma demo_key_ok k s : 0 <= s < 1000 -> key_ok (demo_key k s) /\ searchable (demo_key k s).
Proof.
  intros Hs. assert (Ht : InternalKey.Trailer (demo_key k s) = InternalKey.KindSet + s * 256).
  { unfold demo_key. apply InternalKey.Trailer_Make; [|done]. unfold InternalKey.SeqNumMax.
    change (Z.shiftl 1 56) with 72057594037927936. lia. }
  split; [split|].
  - rewrite Ht. unfold InternalKey.KindSet. lia.
  - by vm_compute.
  - unfold searchable. rewrite Ht. unfold InternalKey.KindSet.
    change (InternalKey.Trailer (InternalKey.MakeSearchKey (InternalKey.UserKey (demo_key k s)))) with 18446744073709551378. lia.
Qed.

Lemma skl_sorted_map_witness :
  exists s0 s inss es, Reset (NewArena mem_zero 4096) = Ok s0 /\
    add_all bytes_compare s0 (replicate 2 zeroInserter) demo_adds = Ok (s, inss) /\
    scan (sklOps bytes_compare) 4 (NewIter s None None) = Ok es /\ es ≡ₚ ad_entry <$> demo_adds.
Proof.
  destruct (skl_sorted_map bytes_compare mem_zero 4096 2 demo_adds) as (s0 & s & inss & es & H1 & H2 & H3 & _ & H5 & _).
  - done.
  - repeat constructor; cbn; lia.
  - repeat constructor; cbn [ad_key]; apply demo_key_ok; lia.
  - apply (bool_decide_unpack _). vm_compute. done.
  - vm_compute. discriminate.
  - exists s0, s, inss, es. auto.
Defined.

Lemma skl_add_witness :
  exists s s' ins', Reset (NewArena mem_zero 4096) = Ok s /\
    addInternal bytes_compare s 3 (demo_key 5 1) [7] zeroInserter = Ok (s', ins', None).
Proof.
  destruct (Reset_holds bytes_compare mem_zero 4096) as (s & E & Hh & Hht & Hn & Hl); [done|].
  destruct (skl_add bytes_compare s [] zeroInserter (demo_key 5 1) [7] 3) as (s' & ins' & e & Ea & Hfit & _).
  - done.
  - apply zeroInserter_ok. lia.
  - constructor.
  - vm_compute. split; discriminate.
  - vm_compute. done.
  - apply demo_key_ok. lia.
  - destruct Hfit as [-> _]; [unfold fits; rewrite Hn, Hl; vm_compute; discriminate|]. exists s, s', ins'. auto.
Defined.

Definition dup_adds : list addOp :=
  [mkAdd 0 4000000000 (demo_key 6 2) [60]; mkAdd 0 4000000000 (demo_key 5 1) [50]; mkAdd 0 4000000000 (demo_key 6 2) [61]].

(** The entries after [dup_adds]. *)
Definition dup_scan : outcome (list entry) :=
  let! s0 := Reset (NewArena mem_zero 4096) in
  let! (s, _) := add_all bytes_compare s0 [zeroInserter] dup_adds in
  scan (sklOps bytes_compare) 3 (NewIter s None None).

(** A key that is already stored is refused by an addition with a search of
    its own.  An addition that reuses the splice of an earlier one is not
    protected: it stores the key a second time when the splice ends at it. *)
Theorem skl_duplicate cmp `{!Comparator cmp} s ns k v height a :
  holds cmp s ns -> a ∈ ns -> a_key a = k ->
  Add cmp s height k v = Ok (s, Some ErrRecordExists) /\
  dup_scan = Ok [(demo_key 5 1, [50]); (demo_key 6 2, [61]); (demo_key 6 2, [60])].
Proof.
  intros Hh Ha Ek. split; [by eapply Add_existing|]. vm_compute. reflexivity.
Qed.

Lemma skl_duplicate_witness :
  exists s0 s, Reset (NewArena mem_zero 4096) = Ok s0 /\
    Add bytes_compare s0 2 (demo_key 6 2) [60] = Ok (s, None) /\
    Add bytes_compare s 1 (demo_key 6 2) [61] = Ok (s, Some ErrRecordExists).
Proof.
  destruct (Reset_holds bytes_compare mem_zero 4096) as (s & E & Hh & Hht & Hn & Hl); [done|].
  destruct (addInternal_absent bytes_compare s [] zeroInserter (demo_key 6 2) [60] 2)
    as (s' & ins' & e & Ea & _ & _ & _ & _ & Hfit & _).
  - done.
  - apply zeroInserter_ok. lia.
  - constructor.
  - vm_compute. split; discriminate.
  - vm_compute. done.
  - apply demo_key_ok. lia.
  - destruct Hfit as (-> & B & A & z & Hs & Zk & _ & Hh' & _); [unfold fits; rewrite Hn, Hl; vm_compute; discriminate|].
    exists s, s'. split; [done|]. split; [unfold Add; by rewrite Ea|].
    apply (skl_duplicate bytes_compare s' (B ++ z :: A) (demo_key 6 2) [61] 1 z); [done|set_solver|done].
Defined.
