(* ===== verification/SklCursor.v ===== *)
(** The skiplist's iterator with bounds, in both directions: it is a cursor over
    the entries within the bounds (internal/arenaskl/iterator.go). *)

From Stdlib Require Import ZArith Lia.
From stdpp Require Import base numbers option sorting list.
From S2P Require Import Prelude Base Arena Iter Skl SklInv MergingIter MergeCursor.

Section SklCursor.
Context (cmp : bytes -> bytes -> Z) `{!Comparator cmp} (lo up : option bytes).

Abbreviation ukey a := (InternalKey.UserKey (a_key a)) (only parsing).

(** The nodes before the bounds, within them and after them. *)
Record parts (ns A M C : list anode) : Prop := mkParts {
  pt_app : ns = A ++ M ++ C;
  pt_before : Forall (fun a => exists b, lo = Some b /\ cmp (ukey a) b < 0) A;
  pt_inside : Forall (fun a => inside cmp lo up (entry_of a)) M;
  pt_after : Forall (fun a => exists b, up = Some b /\ 0 <= cmp (ukey a) b) C
}.

(** The links of the lowest level, sentinels included. *)
Definition links (it : SIterator) (ns : list anode) : list Z := sHead (list_ it) :: offs ns ++ [sTail (list_ it)].

Record skl_at (it : SIterator) (l : list entry) (p : Z) : Prop := mkSklAt {
  sa_lower : lower_ it = lo;
  sa_upper : upper_ it = up;
  sa_list : exists ns A M C, holds cmp (list_ it) ns /\ Forall (fun a => searchable (a_key a)) ns /\ parts ns A M C /\ l = entry_of <$> M /\
    (0 <= p < len l -> lookupZ (links it ns) (len A + p + 1) = Some (nd_ it))
}.

Lemma len_links it ns : len (links it ns) = len ns + 2.
Proof. unfold links, offs. rewrite len_cons, len_app. unfold len. rewrite length_fmap. cbn. lia. Qed.

Lemma chain_back s l xs p y :
  chain s l xs -> 0 < p -> p < len xs -> lookupZ xs p = Some y ->
  exists x, getPrev s y l = Ok x /\ lookupZ xs (p - 1) = Some x.
Proof.
  intros Hc Hp Hlen Hy. destruct (lookupZ_Some xs (p - 1)) as [x Hx]; [lia|]. exists x. split; [|done].
  pose proof (drop_lookupZ _ _ _ Hx) as D1. rewrite Z.sub_add in D1. pose proof (drop_lookupZ _ _ _ Hy) as D2.
  rewrite <-(take_drop (Z.to_nat (p - 1)) xs), D1, D2 in Hc. apply chain_suffix in Hc. by destruct Hc as [[_ ?] _].
Qed.

Lemma lookupZ_app_r {T} (a b : list T) i : len a <= i -> lookupZ (a ++ b) i = lookupZ b (i - len a).
Proof.
  intros H. pose proof (len_nonneg a). unfold lookupZ. bdestruct_all; try lia. rewrite lookup_app_r by (unfold len in *; lia). f_equal. unfold len. lia.
Qed.

Lemma lookupZ_app_l {T} (a b : list T) i : i < len a -> lookupZ (a ++ b) i = lookupZ a i.
Proof. intros H. unfold lookupZ. bdestruct_all; [done|]. rewrite lookup_app_l by (unfold len in *; lia). done. Qed.

(** What a node of the list is to the iterator. *)
Lemma at_node_ok it ns a :
  holds cmp (list_ it) ns -> a ∈ ns ->
  a_off a <> sTail (list_ it) /\ a_off a <> sHead (list_ it) /\
  decodeKey (at_node it (a_off a)) = Ok (mkSIter (list_ it) (a_off a) (a_key a) (lower_ it) (upper_ it)) /\
  ivalue (mkSIter (list_ it) (a_off a) (a_key a) (lower_ it) (upper_ it)) = Ok (a_val a).
Proof.
  intros Hh Ha. pose proof (h_shape _ _ _ Hh) as Hsh. pose proof (i_nodes _ _ _ Hsh) as HF. rewrite Forall_forall in HF. specialize (HF a Ha).
  pose proof (i_nodup _ _ _ Hsh) as Hnd. split; [|split; [|split]].
  - intros E. apply (tail_not_in _ _ Hnd). rewrite <-E. by apply list_elem_of_fmap_2.
  - intros E. inversion Hnd as [|? ? Hn _]; subst. apply Hn. rewrite <-E. apply elem_of_app. left. by apply list_elem_of_fmap_2.
  - rewrite (decodeKey_ok _ a) by (cbn; try done; apply Hsh). done.
  - rewrite (ivalue_ok _ a) by (cbn; try done; apply Hsh). done.
Qed.

(** The node at index [g] of the list, relative to the bounds. *)
Lemma parts_lookup ns A M C g a :
  parts ns A M C -> lookupZ ns g = Some a ->
  (g < len A /\ exists b, lo = Some b /\ cmp (ukey a) b < 0) \/
  (len A <= g < len A + len M /\ lookupZ M (g - len A) = Some a /\ inside cmp lo up (entry_of a)) \/
  (len A + len M <= g /\ exists b, up = Some b /\ 0 <= cmp (ukey a) b).
Proof.
  intros [-> HA HM HC] Hg. destruct (Z.lt_ge_cases g (len A)) as [H1|H1].
  - left. split; [done|]. rewrite lookupZ_app_l in Hg by done. by apply (Forall_lookupZ _ _ _ _ HA Hg).
  - right. rewrite lookupZ_app_r in Hg by done. destruct (Z.lt_ge_cases (g - len A) (len M)) as [H2|H2].
    + left. rewrite lookupZ_app_l in Hg by done. split; [lia|]. split; [done|]. apply (Forall_lookupZ _ _ _ _ HM Hg).
    + right. rewrite lookupZ_app_r in Hg by done. split; [lia|]. apply (Forall_lookupZ _ _ _ _ HC Hg).
Qed.

Lemma len_parts ns A M C : parts ns A M C -> len ns = len A + len M + len C.
Proof. intros [-> _ _ _]. rewrite !len_app. lia. Qed.

Lemma links_node it ns g a : lookupZ ns g = Some a -> lookupZ (links it ns) (g + 1) = Some (a_off a).
Proof. apply lookupZ_offs. Qed.

Lemma fwd_at it ns A M C g q :
  lower_ it = lo -> upper_ it = up -> holds cmp (list_ it) ns -> Forall (fun a => searchable (a_key a)) ns -> parts ns A M C ->
  len A <= g <= len ns -> lookupZ (links it ns) (g + 1) = Some q ->
  exists it', settle_fwd cmp it q = Ok (it', lookupZ (entry_of <$> M) (g - len A)) /\
    forall p, p = g - len A \/ (len M <= p /\ len M <= g - len A) -> skl_at it' (entry_of <$> M) p.
Proof.
  intros Hlo Hup Hh Hse Hpt Hg Hq. unfold settle_fwd. cbn [nd_ at_node list_ upper_].
  assert (Hlen : len (entry_of <$> M) = len M) by (unfold len; by rewrite length_fmap).
  assert (Hend : forall it' p, list_ it' = list_ it -> lower_ it' = lo -> upper_ it' = up -> len M <= p -> skl_at it' (entry_of <$> M) p).
  { intros it' p E1 E2 E3 Hp. split; [done|done|]. exists ns, A, M, C. rewrite E1. split; [done|]. split; [done|]. split; [done|]. split; [done|]. lia. }
  destruct (lookupZ ns g) as [a|] eqn:Ea.
  - rewrite (links_node it ns g a Ea) in Hq. injection Hq as <-. destruct (at_node_ok it ns a Hh (lookupZ_elem _ _ _ Ea)) as (H1 & _ & H3 & H4).
    destruct (Z.eqb_spec (a_off a) (sTail (list_ it))); [done|]. rewrite H3. cbn [rbind upper_ key_ list_ lower_]. rewrite Hup.
    destruct (parts_lookup ns A M C g a Hpt Ea) as [[? _]|[(Hr & Hm & _ & Hi)|(Hr & b & Eb & Hb)]]; [lia| |].
    + assert ((match up with Some u => cmp u (ukey a) <=? 0 | None => false end) = false) as ->.
      { destruct up as [u|] eqn:Eu; [|done]. apply Z.leb_gt. specialize (Hi u eq_refl). cbn in Hi. by apply (cmp_gt_lt cmp). }
      rewrite Hup in H4. rewrite H4. cbn [rbind]. rewrite lookupZ_fmap, Hm. eexists. split; [done|]. intros p [->|?]; [|lia].
      split; [exact Hlo|done|]. exists ns, A, M, C. cbn [list_ nd_ links]. split; [done|]. split; [done|]. split; [done|]. split; [done|].
      intros _. replace (len A + (g - len A) + 1) with (g + 1) by lia. by apply (links_node it).
    + rewrite Eb. assert ((cmp b (ukey a) <=? 0) = true) as ->.
      { apply Z.leb_le. destruct (Z.le_gt_cases (cmp b (ukey a)) 0) as [|Hgt]; [done|]. apply (cmp_gt_lt cmp) in Hgt. lia. }
      eexists. split; [by rewrite (lookupZ_None (entry_of <$> M)) by lia|]. intros p Hp. rewrite <-Eb. apply Hend; [done|exact Hlo|done|lia].
  - assert (g = len ns) as Hge.
    { destruct (decide (g = len ns)); [done|]. pose proof (len_nonneg A). destruct (lookupZ_Some ns g) as [x Hx]; [lia|congruence]. }
    unfold links in Hq. rewrite (lookupZ_tail _ _ _ Hge) in Hq. injection Hq as <-. rewrite Z.eqb_refl.
    pose proof (len_parts _ _ _ _ Hpt) as Hlp. pose proof (len_nonneg C).
    eexists. split; [by rewrite (lookupZ_None (entry_of <$> M)) by lia|]. intros p Hp. apply Hend; [done|done|done|lia].
Qed.

Lemma bwd_at it ns A M C g q :
  lower_ it = lo -> upper_ it = up -> holds cmp (list_ it) ns -> Forall (fun a => searchable (a_key a)) ns -> parts ns A M C ->
  -1 <= g < len A + len M -> lookupZ (links it ns) (g + 1) = Some q ->
  exists it', settle_bwd cmp it q = Ok (it', lookupZ (entry_of <$> M) (g - len A)) /\
    forall p, p = g - len A \/ (p < 0 /\ g - len A < 0) -> skl_at it' (entry_of <$> M) p.
Proof.
  intros Hlo Hup Hh Hse Hpt Hg Hq. unfold settle_bwd. cbn [nd_ at_node list_ lower_].
  assert (Hend : forall it' p, list_ it' = list_ it -> lower_ it' = lo -> upper_ it' = up -> p < 0 -> skl_at it' (entry_of <$> M) p).
  { intros it' p E1 E2 E3 Hp. split; [done|done|]. exists ns, A, M, C. rewrite E1. split; [done|]. split; [done|]. split; [done|]. split; [done|]. lia. }
  assert (Hneg : forall i, i < 0 -> lookupZ (entry_of <$> M) i = None) by (intros i Hi; unfold lookupZ; by destruct (Z.ltb_spec i 0); [|lia]).
  destruct (lookupZ ns g) as [a|] eqn:Ea.
  - rewrite (links_node it ns g a Ea) in Hq. injection Hq as <-. destruct (at_node_ok it ns a Hh (lookupZ_elem _ _ _ Ea)) as (_ & H2 & H3 & H4).
    destruct (Z.eqb_spec (a_off a) (sHead (list_ it))); [done|]. rewrite H3. cbn [rbind upper_ key_ list_ lower_]. rewrite Hlo.
    destruct (parts_lookup ns A M C g a Hpt Ea) as [(Hr & b & Eb & Hb)|[(Hr & Hm & Hi & _)|[? _]]]; [| |lia].
    + rewrite Eb. assert ((0 <? cmp b (ukey a)) = true) as -> by (apply Z.ltb_lt; by apply (cmp_gt_lt cmp)).
      eexists. split; [by rewrite Hneg by lia|]. intros p Hp. rewrite <-Eb. apply Hend; [done|done|exact Hup|lia].
    + assert ((match lo with Some b => 0 <? cmp b (ukey a) | None => false end) = false) as ->.
      { destruct lo as [b|] eqn:El; [|done]. apply Z.ltb_ge. specialize (Hi b eq_refl). cbn in Hi.
        destruct (Z.le_gt_cases (cmp b (ukey a)) 0) as [|Hgt]; [done|]. apply (cmp_gt_lt cmp) in Hgt. lia. }
      rewrite Hlo in H4. rewrite H4. cbn [rbind]. rewrite lookupZ_fmap, Hm. eexists. split; [done|]. intros p [->|?]; [|lia].
      split; [done|exact Hup|]. exists ns, A, M, C. cbn [list_ nd_ links]. split; [done|]. split; [done|]. split; [done|]. split; [done|].
      intros _. replace (len A + (g - len A) + 1) with (g + 1) by lia. by apply (links_node it).
  - pose proof (len_parts _ _ _ _ Hpt) as Hlp. pose proof (len_nonneg C). pose proof (len_nonneg A).
    assert (g = -1) as -> by (destruct (decide (g = -1)); [done|]; destruct (lookupZ_Some ns g) as [x Hx]; [lia|congruence]).
    unfold links in Hq. cbn in Hq. injection Hq as <-. rewrite Z.eqb_refl.
    eexists. split; [by rewrite Hneg by lia|]. intros p Hp. apply Hend; [done|done|done|lia].
Qed.

(** ** Seeks *)

Definition nbelow (k : bytes) (a : anode) : Prop := cmp (ukey a) k < 0.

#[local] Instance nbelow_dec k a : Decision (nbelow k a).
Proof. unfold nbelow. apply _. Defined.

(** A search splits the nodes by their user key. *)
Lemma search_split k ns B A' :
  Forall (fun a => searchable (a_key a)) ns -> split_at cmp (InternalKey.MakeSearchKey k) ns B A' -> B = filter (nbelow k) ns.
Proof.
  intros Hse Hs. pose proof (s_app _ _ _ _ _ Hs) as E. rewrite E, filter_app. rewrite E in Hse. apply Forall_app in Hse as [HseB _].
  assert (filter (nbelow k) B = B) as ->.
  { pose proof (s_below _ _ _ _ _ Hs) as HB. clear - HB HseB Comparator0. induction HB as [|b B Hb HB IH]; [done|].
    apply Forall_cons in HseB as [Hsb HseB]. rewrite filter_cons_True; [by rewrite IH|]. unfold klt in Hb.
    apply (InternalKey.InternalCompare_lt cmp) in Hb as [Hb|[Ek Ht]]; [done|]. unfold searchable in Hsb. cbn in Ek. rewrite Ek in Hsb. lia. }
  assert (filter (nbelow k) A' = []) as ->; [|by rewrite app_nil_r].
  pose proof (s_above _ _ _ _ _ Hs) as HA. clear - HA Comparator0. induction HA as [|a A Ha HA IH]; [done|].
  rewrite filter_cons_False; [done|]. intros Hb. apply Ha. apply (InternalKey.InternalCompare_lt cmp). by left.
Qed.

Lemma list_seek_filter k M : StronglySorted (entry_lt cmp) (entry_of <$> M) -> list_seek cmp k (entry_of <$> M) = len (filter (nbelow k) M).
Proof.
  intros Hs. destruct (seek_filter cmp k (entry_of <$> M) Hs) as [E _]. pose proof (list_seek_range cmp k (entry_of <$> M)) as Hr.
  apply (f_equal length) in E. rewrite length_take_le in E by (unfold len in *; lia).
  assert (Hf : length (filter (below cmp k) (entry_of <$> M)) = length (filter (nbelow k) M)).
  { clear. induction M as [|a M IH]; [done|]. rewrite fmap_cons, !filter_cons. unfold below, nbelow in *. cbn [entry_of fst].
    destruct (decide (cmp (ukey a) k < 0)); cbn; by rewrite IH. }
  rewrite Hf in E. unfold len. lia.
Qed.

Lemma filter_full (k : bytes) (A : list anode) : Forall (nbelow k) A -> filter (nbelow k) A = A.
Proof. induction 1 as [|a A Ha _ IH]; [done|]. rewrite filter_cons_True by done. by rewrite IH. Qed.

Lemma filter_void (k : bytes) (A : list anode) : Forall (fun a => ~ nbelow k a) A -> filter (nbelow k) A = [].
Proof. induction 1 as [|a A Ha _ IH]; [done|]. by rewrite filter_cons_False. Qed.

Lemma cmp_lt_ge_trans a b c : cmp a b < 0 -> 0 <= cmp c b -> cmp a c < 0.
Proof.
  intros H1 H2. destruct (cmp_total cmp b c) as [H|[<-|H]]; [by eapply (cmp_trans (cmp := cmp))|done|lia].
Qed.

(** Where a forward search ends, relative to the bounds. *)
Lemma seekGE_place k ns A M C :
  parts ns A M C -> (forall b, lo = Some b -> 0 <= cmp k b) -> StronglySorted (entry_lt cmp) (entry_of <$> M) ->
  let j := list_seek cmp k (entry_of <$> M) in let g := len (filter (nbelow k) ns) in
  g = len A + j \/ (j = len M /\ len A + len M <= g).
Proof.
  intros Hpt Hk Hs j g. unfold j, g. rewrite (list_seek_filter k M Hs). destruct Hpt as [-> HA HM HC]. rewrite !filter_app, !len_app.
  rewrite (filter_full k A).
  2: { eapply Forall_impl; [exact HA|]. intros a (b & Eb & Hb). unfold nbelow. eapply cmp_lt_ge_trans; [exact Hb|by apply Hk]. }
  destruct (filter (nbelow k) C) as [|c C'] eqn:EC; [left; rewrite len_nil; lia|]. right.
  assert (Hc : c ∈ filter (nbelow k) C) by (rewrite EC; left). apply list_elem_of_filter in Hc as [Hck Hc].
  rewrite Forall_forall in HC. destruct (HC c Hc) as (b & Eb & Hb). rewrite (filter_full k M).
  - pose proof (len_nonneg (c :: C')). lia.
  - eapply Forall_impl; [exact HM|]. intros a [_ Hu]. unfold nbelow in *. specialize (Hu b Eb). cbn in Hu.
    eapply (cmp_trans (cmp := cmp)); [eapply cmp_lt_ge_trans; [exact Hu|exact Hb]|exact Hck].
Qed.

Lemma seekLT_place k ns A M C :
  parts ns A M C -> (forall b, up = Some b -> cmp k b <= 0) -> StronglySorted (entry_lt cmp) (entry_of <$> M) ->
  let j := list_seek cmp k (entry_of <$> M) in let g := len (filter (nbelow k) ns) in
  g <= len A + len M /\ (g = len A + j \/ (j = 0 /\ g < len A)).
Proof.
  intros Hpt Hk Hs j g. unfold j, g. rewrite (list_seek_filter k M Hs). destruct Hpt as [-> HA HM HC]. rewrite !filter_app, !len_app.
  rewrite (filter_void k C), len_nil.
  2: { eapply Forall_impl; [exact HC|]. intros a (b & Eb & Hb) Ha. unfold nbelow in Ha. specialize (Hk b Eb).
       destruct (cmp_total cmp (ukey a) b) as [H|[H|H]]; [lia| |].
       - rewrite H in Ha. apply (cmp_gt_lt cmp) in Ha. lia.
       - pose proof (cmp_trans (cmp := cmp) _ _ _ H Ha) as Hbk. apply (cmp_gt_lt cmp) in Hbk. lia. }
  pose proof (length_filter (nbelow k) A) as L1. pose proof (length_filter (nbelow k) M) as L2.
  split; [unfold len; lia|]. destruct (decide (Forall (nbelow k) A)) as [Ha|Ha]; [left; rewrite (filter_full k A Ha); lia|].
  right. apply not_Forall_Exists in Ha; [|apply _]. apply Exists_exists in Ha as (a & Ha & Hn).
  rewrite Forall_forall in HA. destruct (HA a Ha) as (b & Eb & Hb).
  assert (Hkb : cmp k b < 0) by (unfold nbelow in Hn; destruct (cmp_total cmp (ukey a) k) as [H|[<-|H]]; [done|done|by eapply (cmp_trans (cmp := cmp))]).
  rewrite (filter_void k M), len_nil.
  2: { eapply Forall_impl; [exact HM|]. intros x [Hl _] Hx. specialize (Hl b Eb). cbn in Hl. unfold nbelow in Hx.
       pose proof (cmp_trans (cmp := cmp) _ _ _ Hx Hkb). lia. }
  split; [done|]. assert (length (filter (nbelow k) A) < length A)%nat; [|unfold len; lia].
  clear - Ha Hn. induction A as [|x A IH]; [by apply not_elem_of_nil in Ha|]. rewrite filter_cons. pose proof (length_filter (nbelow k) A).
  apply elem_of_cons in Ha as [->|Ha].
  - destruct (decide (nbelow k x)); [done|]. cbn. lia.
  - specialize (IH Ha). destruct (decide (nbelow k x)); cbn; lia.
Qed.

Lemma pred_links it ns k B A' :
  holds cmp (list_ it) ns -> split_at cmp k ns B A' ->
  lookupZ (links it ns) (len B) = Some (pred (list_ it) 0 B) /\ lookupZ (links it ns) (len B + 1) = Some (succ (list_ it) 0 A').
Proof.
  intros Hh Hs. pose proof (h_shape _ _ _ Hh) as Hsh. pose proof (s_app _ _ _ _ _ Hs) as E. unfold pred, succ.
  rewrite (lvl_0_above cmp (list_ it) ns k B A' Hsh Hs).
  assert (EB : lvl 0 B = B).
  { pose proof (i_heights _ _ _ Hsh) as HF. rewrite E in HF. apply Forall_app in HF as [HF _]. clear - HF. unfold lvl.
    induction HF as [|x A Hx HF IH]; [done|]. rewrite filter_cons_True by lia. by rewrite IH. }
  rewrite EB. pose proof (len_nonneg B). split.
  - destruct B as [|b B] using rev_ind; [done|]. clear IHB. unfold offs. rewrite fmap_app. change (a_off <$> [b]) with [a_off b]. rewrite last_snoc. cbn [default from_option id].
    rewrite len_app. change (len [b]) with 1. apply (links_node it ns (len B) b). rewrite E, <-app_assoc, lookupZ_app_r, Z.sub_diag by lia. done.
  - destruct A' as [|a A'].
    + cbn. unfold links. rewrite (lookupZ_tail (list_ it) ns (len B)); [done|]. by rewrite E, app_nil_r.
    + cbn. apply (links_node it ns (len B) a). rewrite E, lookupZ_app_r, Z.sub_diag by lia. done.
Qed.

Lemma inside_sorted ns A M C s : holds cmp s ns -> parts ns A M C -> StronglySorted (entry_lt cmp) (entry_of <$> M).
Proof.
  intros Hh [-> _ _ _]. pose proof (entries_sorted cmp _ (i_sorted _ _ _ (h_shape _ _ _ Hh))) as Hs. rewrite !fmap_app in Hs.
  by apply StronglySorted_app_1_r, StronglySorted_app_1_l in Hs.
Qed.

#[export] Instance sklOps_cursor : CursorLaws cmp lo up (sklOps cmp) skl_at.
Proof.
  split.
  - intros it l p k [Hlo Hup (ns & A & M & C & Hh & Hse & Hpt & -> & _)] Hk. cbn [sklOps itSeekGE]. unfold sSeekGE.
    pose proof (inside_sorted _ _ _ _ _ Hh Hpt) as Hs. destruct (split_exists cmp (InternalKey.MakeSearchKey k) ns (i_sorted _ _ _ (h_shape _ _ _ Hh))) as (B & A' & Hsp).
    destruct (seek_spec cmp (list_ it) ns k B A' Hh Hsp) as [found ->]. cbn [rbind snd].
    destruct (pred_links it ns _ B A' Hh Hsp) as [_ Hl]. pose proof (seekGE_place k ns A M C Hpt Hk Hs) as Hpl. cbv zeta in Hpl.
    rewrite <-(search_split k ns B A' Hse Hsp) in Hpl. pose proof (list_seek_range cmp k (entry_of <$> M)) as Hr.
    assert (Hlen : len (entry_of <$> M) = len M) by (unfold len; by rewrite length_fmap). pose proof (len_nonneg M).
    assert (HB : len B <= len ns) by (rewrite (s_app _ _ _ _ _ Hsp), len_app; pose proof (len_nonneg A'); lia).
    destruct (fwd_at it ns A M C (len B) (succ (list_ it) 0 A') Hlo Hup Hh Hse Hpt) as (it' & E & Hat); [lia|done|].
    exists it'. split; [|apply Hat; lia]. rewrite E. do 2 f_equal. destruct Hpl as [-> |[Ej Hg]]; [f_equal; lia|].
    rewrite !lookupZ_None by lia. done.
  - intros it l p k [Hlo Hup (ns & A & M & C & Hh & Hse & Hpt & -> & _)] Hk. cbn [sklOps itSeekLT]. unfold sSeekLT.
    pose proof (inside_sorted _ _ _ _ _ Hh Hpt) as Hs. destruct (split_exists cmp (InternalKey.MakeSearchKey k) ns (i_sorted _ _ _ (h_shape _ _ _ Hh))) as (B & A' & Hsp).
    destruct (seek_spec cmp (list_ it) ns k B A' Hh Hsp) as [found ->]. cbn [rbind fst].
    destruct (pred_links it ns _ B A' Hh Hsp) as [Hl _]. pose proof (seekLT_place k ns A M C Hpt Hk Hs) as Hpl. cbv zeta in Hpl.
    rewrite <-(search_split k ns B A' Hse Hsp) in Hpl. pose proof (list_seek_range cmp k (entry_of <$> M)) as Hr. pose proof (len_nonneg B).
    destruct (bwd_at it ns A M C (len B - 1) (pred (list_ it) 0 B) Hlo Hup Hh Hse Hpt) as (it' & E & Hat); [lia|by rewrite Z.sub_add|].
    exists it'. split; [|apply Hat; lia]. rewrite E. do 2 f_equal. destruct Hpl as [_ [-> |[Ej Hg]]]; [f_equal; lia|].
    unfold lookupZ. destruct (Z.ltb_spec (len B - 1 - len A) 0), (Z.ltb_spec (list_seek cmp k (entry_of <$> M) - 1) 0); (done || lia).
  - intros it l p [Hlo Hup (ns & A & M & C & Hh & Hse & Hpt & -> & _)] Hn. cbn [sklOps itFirst]. unfold sFirst.
    assert (A = []) as -> by (destruct A as [|a A]; [done|]; pose proof (pt_before _ _ _ _ Hpt) as HA; apply Forall_inv in HA as (b & Eb & _); congruence).
    pose proof (len_nonneg ns). destruct (chain_lookup (list_ it) 0 (links it ns) 0 (sHead (list_ it)) (base_chain cmp _ _ Hh)) as (y & -> & Hy); [lia|rewrite len_links; lia|done|].
    cbn [rbind]. destruct (fwd_at it ns [] M C 0 y Hlo Hup Hh Hse Hpt) as (it' & E & Hat); [change (len (@nil anode)) with 0; lia|done|].
    exists it'. split; [exact E|]. apply Hat. by left.
  - intros it l p [Hlo Hup (ns & A & M & C & Hh & Hse & Hpt & -> & _)] Hn. cbn [sklOps itLast]. unfold sLast.
    assert (C = []) as -> by (destruct C as [|a C]; [done|]; pose proof (pt_after _ _ _ _ Hpt) as HA; apply Forall_inv in HA as (b & Eb & _); congruence).
    pose proof (len_nonneg ns). pose proof (len_parts _ _ _ _ Hpt) as Hlp. change (len (@nil anode)) with 0 in Hlp.
    destruct (chain_back (list_ it) 0 (links it ns) (len ns + 1) (sTail (list_ it)) (base_chain cmp _ _ Hh)) as (y & -> & Hy);
      [lia|rewrite len_links; lia|by apply lookupZ_tail|].
    cbn [rbind]. destruct (bwd_at it ns A M [] (len ns - 1) y Hlo Hup Hh Hse Hpt) as (it' & E & Hat); [lia|by replace (len ns - 1 + 1) with (len ns + 1 - 1) by lia|].
    assert (Hlen : len (entry_of <$> M) = len M) by (unfold len; by rewrite length_fmap).
    exists it'. replace (len ns - 1 - len A) with (len (entry_of <$> M) - 1) in * by lia. split; [exact E|]. apply Hat. by left.
  - intros it l p [Hlo Hup (ns & A & M & C & Hh & Hse & Hpt & -> & Hnd)] Hp. specialize (Hnd Hp). cbn [sklOps itNext]. unfold sNext.
    assert (Hlen : len (entry_of <$> M) = len M) by (unfold len; by rewrite length_fmap). pose proof (len_parts _ _ _ _ Hpt) as Hlp.
    pose proof (len_nonneg A). pose proof (len_nonneg C).
    destruct (chain_lookup (list_ it) 0 (links it ns) (len A + p + 1) (nd_ it) (base_chain cmp _ _ Hh)) as (y & -> & Hy); [lia|rewrite len_links; lia|done|].
    cbn [rbind]. destruct (fwd_at it ns A M C (len A + p + 1) y Hlo Hup Hh Hse Hpt) as (it' & E & Hat); [lia|done|].
    exists it'. replace (len A + p + 1 - len A) with (p + 1) in * by lia. split; [exact E|]. apply Hat. by left.
  - intros it l p [Hlo Hup (ns & A & M & C & Hh & Hse & Hpt & -> & Hnd)] Hp. specialize (Hnd Hp). cbn [sklOps itPrev]. unfold sPrev.
    assert (Hlen : len (entry_of <$> M) = len M) by (unfold len; by rewrite length_fmap). pose proof (len_parts _ _ _ _ Hpt) as Hlp.
    pose proof (len_nonneg A). pose proof (len_nonneg C).
    destruct (chain_back (list_ it) 0 (links it ns) (len A + p + 1) (nd_ it) (base_chain cmp _ _ Hh)) as (y & -> & Hy); [lia|rewrite len_links; lia|done|].
    cbn [rbind]. destruct (bwd_at it ns A M C (len A + p - 1) y Hlo Hup Hh Hse Hpt) as (it' & E & Hat); [lia|by replace (len A + p - 1 + 1) with (len A + p + 1 - 1) by lia|].
    exists it'. replace (len A + p - 1 - len A) with (p - 1) in * by lia. split; [exact E|]. apply Hat. by left.
  - done.
Qed.

Lemma key_split b ns :
  StronglySorted (node_lt cmp) ns -> Forall (fun a => searchable (a_key a)) ns ->
  exists B A, ns = B ++ A /\ Forall (nbelow b) B /\ Forall (fun a => ~ nbelow b a) A.
Proof.
  intros Hs Hse. destruct (split_exists cmp (InternalKey.MakeSearchKey b) ns Hs) as (B & A & Hsp). exists B, A. pose proof (s_app _ _ _ _ _ Hsp) as E.
  split; [done|]. pose proof (search_split b ns B A Hse Hsp) as EB. split.
  - rewrite EB. apply Forall_forall. by intros a [? _]%list_elem_of_filter.
  - eapply Forall_impl; [exact (s_above _ _ _ _ _ Hsp)|]. intros a Ha Hb. apply Ha. apply (InternalKey.InternalCompare_lt cmp). by left.
Qed.

Lemma parts_exist ns :
  StronglySorted (node_lt cmp) ns -> Forall (fun a => searchable (a_key a)) ns -> exists A M C, parts ns A M C.
Proof.
  intros Hs Hse. assert (exists A r, ns = A ++ r /\ Forall (fun a => exists b, lo = Some b /\ cmp (ukey a) b < 0) A /\
    Forall (fun a => forall b, lo = Some b -> 0 <= cmp (ukey a) b) r) as (A & r & E1 & HA & Hr).
  { assert (lo = None \/ exists b, lo = Some b) as [El|[b El]] by (destruct lo; eauto).
    - exists [], ns. split; [done|]. split; [constructor|]. apply Forall_forall. intros a _ b. congruence.
    - destruct (key_split b ns Hs Hse) as (A & r & E & HA & Hr). exists A, r. split; [done|]. split; (eapply Forall_impl; [eassumption|]); cbv beta; unfold nbelow.
      + intros a Ha. by exists b.
      + intros a Ha b' Eb. rewrite El in Eb. injection Eb as <-. lia. }
  rewrite E1 in Hs, Hse. apply StronglySorted_app_1_r in Hs. apply Forall_app in Hse as [_ Hse].
  assert (exists M C, r = M ++ C /\ Forall (fun a => forall b, up = Some b -> cmp (ukey a) b < 0) M /\
    Forall (fun a => exists b, up = Some b /\ 0 <= cmp (ukey a) b) C) as (M & C & E2 & HM & HC).
  { assert (up = None \/ exists b, up = Some b) as [El|[b El]] by (destruct up; eauto).
    - exists r, []. split; [by rewrite app_nil_r|]. split; [|constructor]. apply Forall_forall. intros a _ b. congruence.
    - destruct (key_split b r Hs Hse) as (M & C & E & HM & HC). exists M, C. split; [done|]. split; (eapply Forall_impl; [eassumption|]); cbv beta; unfold nbelow.
      + intros a Ha b' Eb. rewrite El in Eb. by injection Eb as <-.
      + intros a Ha. exists b. split; [done|lia]. }
  exists A, M, C. split; [by rewrite E1, E2|done| |done]. rewrite E2 in Hr. apply Forall_app in Hr as [Hr _].
  rewrite Forall_forall in Hr, HM. apply Forall_forall. intros a Ha. split; [by apply Hr|by apply HM].
Qed.

Lemma inside_filter ns A M C P `{!forall e : entry, Decision (P e)} :
  (forall e, P e <-> inside cmp lo up e) -> parts ns A M C -> filter P (entry_of <$> ns) = entry_of <$> M.
Proof.
  intros HP [-> HA HM HC]. rewrite !fmap_app, !filter_app.
  assert (Hno : forall l, Forall (fun a => ~ inside cmp lo up (entry_of a)) l -> filter P (entry_of <$> l) = []).
  { induction 1 as [|a l Ha _ IH]; [done|]. rewrite fmap_cons, filter_cons_False; [done|]. by rewrite HP. }
  rewrite (Hno A), (Hno C), app_nil_r.
  - cbn [app]. clear - HM HP. induction HM as [|a l Ha _ IH]; [done|]. rewrite fmap_cons, filter_cons_True by (by rewrite HP). by rewrite IH.
  - eapply Forall_impl; [exact HC|]. intros a (b & Eb & Hb) [_ Hu]. specialize (Hu b Eb). cbn in Hu. lia.
  - eapply Forall_impl; [exact HA|]. intros a (b & Eb & Hb) [Hl _]. specialize (Hl b Eb). cbn in Hl. lia.
Qed.

(** A new iterator is a cursor over the entries within its bounds. *)
Lemma sNewIter_at s ns P `{!forall e : entry, Decision (P e)} :
  holds cmp s ns -> Forall (fun a => searchable (a_key a)) ns -> (forall e, P e <-> inside cmp lo up e) ->
  skl_at (NewIter s lo up) (filter P (entry_of <$> ns)) (-1).
Proof.
  intros Hh Hse HP. destruct (parts_exist ns (i_sorted _ _ _ (h_shape _ _ _ Hh)) Hse) as (A & M & C & Hpt).
  rewrite (inside_filter ns A M C P HP Hpt). split; [done|done|]. exists ns, A, M, C. do 4 (split; [done|]). lia.
Qed.
End SklCursor.
