(* ===== verification/MemTable.v ===== *)
(** The memtable (mem_table.go): a skiplist in an arena of fixed size, the
    reservation of arena space by [prepare], the application of batches and the
    count of writers that decides when the table may be flushed.

    A call of [apply] is a sequence of iterations of its loop ([apply_iter]);
    several run at once.  [mstep] interleaves the iterations of the writers with
    [prepare], the release of writers and the rotation that seals the table.
    The random numbers of the skiplist are arguments. *)

From Stdlib Require Import ZArith Lia.
From stdpp Require Import base numbers option gmap sorting list.
From S2P Require Import Prelude Base Arena Batch Iter Skl SklInv.

Record memTable : Type := mkMem {
  skl : Skiplist; reserved : Z; writerRefs : Z; logSeqNum : Z; msize : Z; isFull : bool
}.

Definition with_skl (m : memTable) (s : Skiplist) : memTable :=
  mkMem s (reserved m) (writerRefs m) (logSeqNum m) (msize m) (isFull m).

Definition with_reserved (m : memTable) (r : Z) : memTable :=
  mkMem (skl m) r (writerRefs m) (logSeqNum m) (msize m) (isFull m).

(** [memTableEmptySize]: what the sentinels of a list take of a 16 KiB arena. *)
Definition memTableEmptySize : Z :=
  match Reset (NewArena mem_zero (Z.shiftl 16 10)) with Ok s => arenaSize (arena s) | _ => 0 end.

Definition newMemTable (size logSeq : Z) : outcome memTable :=
  let! s := Reset (NewArena mem_zero size) in Ok (mkMem s 0 1 logSeq size false).

Definition writerRef (m : memTable) : memTable :=
  mkMem (skl m) (reserved m) (i32 (writerRefs m + 1)) (logSeqNum m) (msize m) (isFull m).

Definition writerUnref (m : memTable) : memTable * bool :=
  let v := i32 (writerRefs m - 1) in
  (mkMem (skl m) (reserved m) v (logSeqNum m) (msize m) (isFull m), v =? 0).

Definition readyForFlush (m : memTable) : bool := writerRefs m =? 0.

Definition setWriteFull (m : memTable) : memTable :=
  mkMem (skl m) (reserved m) (writerRefs m) (logSeqNum m) (msize m) true.

Definition isWriteFull (m : memTable) : bool := isFull m.

(** [availBytes]: with no writer but the table's own reference the reservation
    is what the arena really uses. *)
Definition availBytes (m : memTable) : memTable * Z :=
  let a := arena (skl m) in
  let m' := if writerRefs m =? 1 then with_reserved m (arenaSize a) else m in
  (m', u32 (arenaCapacity a - reserved m')).

Definition inuseBytes (m : memTable) : Z := u32 (arenaSize (arena (skl m)) - memTableEmptySize).

Definition totalBytes (m : memTable) : Z := arenaCapacity (arena (skl m)).

Definition mempty (m : memTable) : bool := arenaSize (arena (skl m)) <=? memTableEmptySize.

Definition prepare (m : memTable) (batch : Batch) : memTable * option error :=
  let '(m', avail) := availBytes m in
  if avail <? memTableSize batch then (m', Some ErrTableFull)
  else (writerRef (with_reserved m' (u32 (reserved m' + u32 (memTableSize batch)))), None).

Definition prepareBySize (m : memTable) (newSize : Z) : memTable * option error :=
  let '(m', avail) := availBytes m in
  if avail <? newSize then (m', Some ErrTableFull)
  else (writerRef (with_reserved m' (u32 (reserved m' + newSize))), None).

Section Apply.
Context (junk : bytes -> nat -> Z) (cmp : bytes -> bytes -> Z).

Definition mget (m : memTable) (key : bytes) : outcome (bytes * bool * Z) := Get cmp (skl m) key.

Definition madd (m : memTable) (rnd : Z) (key : InternalKey) (value : bytes) : outcome (memTable * option error) :=
  let! (s, e) := Add cmp (skl m) (randomHeight rnd) key value in Ok (with_skl m s, e).

(** The variables of the loop of [apply]. *)
Record applier : Type := mkApp { ap_r : bytes; ap_seq : Z; ap_ins : Inserter }.

(** One iteration: [None] when the loop goes on, otherwise the error it was
    left with, if any. *)
Definition apply_iter (m : memTable) (a : applier) (rnd : Z)
  : outcome (memTable * applier * option (option error)) :=
  let! (r', o) := Batch.Next junk (ap_r a) in
  match o with
  | None => Ok (m, mkApp r' (ap_seq a) (ap_ins a), Some None)
  | Some (kind, ukey, value) =>
      if kind =? InternalKey.KindLogData
      then Ok (m, mkApp r' (u64 (u64 (ap_seq a - 1) + 1)) (ap_ins a), None)
      else
        let ikey := InternalKey.MakeInternalKey ukey (ap_seq a) kind in
        let! (p, e) := addInternal cmp (skl m) (randomHeight rnd) ikey value (ap_ins a) in
        match e with
        | Some e => Ok (with_skl m p.1, mkApp r' (ap_seq a) p.2, Some (Some e))
        | None => Ok (with_skl m p.1, mkApp r' (u64 (ap_seq a + 1)) p.2, None)
        end
  end.

Fixpoint apply_loop (fuel : nat) (m : memTable) (a : applier) (rnds : nat -> Z)
  : outcome (memTable * applier * option error) :=
  match fuel with
  | O => Err ErrModelFuel
  | S fuel' =>
      let! (p, res) := apply_iter m a (rnds fuel) in
      match res with
      | Some e => Ok (p.1, p.2, e)
      | None => apply_loop fuel' p.1 p.2 rnds
      end
  end.

Definition apply_start (batch : Batch) (seqNum : Z) : applier := mkApp (Reader junk batch) seqNum zeroInserter.

(** Every iteration but the last reads at least one byte. *)
Definition apply (m : memTable) (batch : Batch) (seqNum : Z) (rnds : nat -> Z) : outcome (memTable * option error) :=
  if seqNum <? logSeqNum m then Ok (m, Some ErrBatchSeqNum)
  else
    let a := apply_start batch seqNum in
    let! (p, e) := apply_loop (S (length (ap_r a))) m a rnds in
    match e with
    | Some e => Ok (p.1, Some e)
    | None =>
        if negb (ap_seq p.2 =? u64 (seqNum + Count batch)) then Ok (p.1, Some ErrBatchCount)
        else Ok (p.1, None)
    end.

(** ** Writers *)

(** A writer between its [prepare] and its [writerUnref]; [w_left] is how its
    loop ended, [w_gone] that it was released. *)
Record writer : Type := mkW { w_batch : Batch; w_app : applier; w_left : option (option error); w_gone : bool }.

Record mstate : Type := mkMS { ms_mem : memTable; ms_ws : list writer; ms_sealed : bool }.

Inductive mevent : Type :=
| MPrepare (b : Batch) (seqNum : Z)
| MIter (i : nat) (rnd : Z)
| MUnref (i : nat)
| MSeal.

(** [MSeal] is the rotation of the table: it gives up the table's own
    reference, and nothing is prepared on the table after it. *)
Definition mstep (s : mstate) (e : mevent) : outcome mstate :=
  match e with
  | MPrepare b seqNum =>
      if ms_sealed s then Panic
      else match prepare (ms_mem s) b with
           | (m', Some e) => Ok (mkMS m' (ms_ws s) false)
           | (m', None) => Ok (mkMS m' (ms_ws s ++ [mkW b (apply_start b seqNum) None false]) false)
           end
  | MIter i rnd =>
      match ms_ws s !! i with
      | Some (mkW b a None false) =>
          let! (p, res) := apply_iter (ms_mem s) a rnd in
          Ok (mkMS p.1 (<[i := mkW b p.2 res false]> (ms_ws s)) (ms_sealed s))
      | _ => Panic
      end
  | MUnref i =>
      match ms_ws s !! i with
      | Some (mkW b a (Some e) false) =>
          Ok (mkMS (writerUnref (ms_mem s)).1 (<[i := mkW b a (Some e) true]> (ms_ws s)) (ms_sealed s))
      | _ => Panic
      end
  | MSeal => if ms_sealed s then Panic else Ok (mkMS (writerUnref (ms_mem s)).1 (ms_ws s) true)
  end.

End Apply.

(** ** Properties *)

(** The entries a batch at [s] puts into the memtable: records of log data take
    no sequence number. *)
Fixpoint mem_entries (s : Z) (ops : list batchOp) : list entry :=
  match ops with
  | [] => []
  | o :: ops' =>
      if op_counted o
      then (InternalKey.MakeInternalKey (op_key o) s (op_kind o), op_value o) :: mem_entries (s + 1) ops'
      else mem_entries s ops'
  end.

Definition entry_room (e : entry) : Z := maxNodeSize + InternalKey.Size e.1 + len e.2 + align4.

Definition room (es : list entry) : Z := foldr (fun e n => entry_room e + n) 0 es.

Lemma room_app es es' : room (es ++ es') = room es + room es'.
Proof. unfold room. induction es as [|e es IH]; [done|]. cbn [app foldr]. rewrite IH. lia. Qed.

Lemma entry_room_pos e : 0 < entry_room e.
Proof.
  unfold entry_room, InternalKey.Size, maxNodeSize, maxHeight, linksSize, align4.
  pose proof (len_nonneg (InternalKey.UserKey e.1)). pose proof (len_nonneg e.2). lia.
Qed.

Lemma room_nonneg es : 0 <= room es.
Proof. unfold room. induction es as [|e es IH]; cbn [foldr]; [lia|]. pose proof (entry_room_pos e). lia. Qed.

#[export] Instance room_proper : Proper (Permutation ==> eq) room.
Proof. unfold room. induction 1; cbn [foldr]; lia. Qed.

(** Records the table can take: no 32-bit length wraps. *)
Definition rec_ok (o : batchOp) : Prop := op_ok o /\ len (op_key o) + 8 < 2147483648.

Definition recs_ok (s : Z) (ops : list batchOp) : Prop :=
  Forall rec_ok ops /\ len (enc_ops ops) < 4294967000 /\ 0 <= s /\ s + ops_count ops <= InternalKey.SeqNumMax.

Lemma ops_count_cons o ops : ops_count (o :: ops) = (if op_counted o then 1 else 0) + ops_count ops.
Proof.
  unfold ops_count. rewrite filter_cons. destruct (op_counted o); cbn [decide decide_rel]; [|done].
  rewrite decide_True by done. by rewrite len_cons.
Qed.

Lemma len_enc_op_ge o : len (op_key o) + len (op_value o) <= len (enc_op o).
Proof.
  unfold enc_op. rewrite len_cons, !len_app. pose proof (len_nonneg (varint32 (len (op_key o)))).
  destruct o as [k v|k|k|k]; cbn [op_key op_value] in *; rewrite ?len_app, ?len_nil;
    try pose proof (len_nonneg (varint32 (len v))); lia.
Qed.

Lemma recs_ok_cons s o ops :
  recs_ok s (o :: ops) ->
  rec_ok o /\ recs_ok (if op_counted o then s + 1 else s) ops /\
  0 <= s < InternalKey.SeqNumMax + (if op_counted o then 0 else 1) /\
  len (op_key o) + len (op_value o) < 4294967000 /\ len (enc_op o ++ enc_ops ops) < 4294967000.
Proof.
  intros ([Ho HF]%Forall_cons & Hl & H0 & Hs). rewrite enc_ops_cons in Hl. rewrite ops_count_cons in Hs.
  pose proof (len_enc_op_ge o). rewrite len_app in *. pose proof (len_nonneg (enc_ops ops)). pose proof (ops_count_range ops).
  pose proof (len_nonneg (enc_op o)).
  split; [done|]. split; [|split; [destruct (op_counted o); lia|split; lia]].
  split; [done|]. split; [lia|]. destruct (op_counted o); split; lia.
Qed.

Lemma mem_entry_key s o :
  rec_ok o -> 0 <= s <= InternalKey.SeqNumMax ->
  key_ok (InternalKey.MakeInternalKey (op_key o) s (op_kind o)) /\
  searchable (InternalKey.MakeInternalKey (op_key o) s (op_kind o)).
Proof.
  intros [_ Hk] Hs. assert (Hkind : 0 <= op_kind o <= InternalKey.KindMax) by (destruct o; by vm_compute).
  unfold InternalKey.KindMax in Hkind.
  pose proof (InternalKey.Trailer_Make (op_key o) s (op_kind o) Hs ltac:(lia)) as Ht.
  unfold InternalKey.SeqNumMax in Hs. change (Z.shiftl 1 56) with 72057594037927936 in Hs.
  split; [split|].
  - rewrite Ht. lia.
  - unfold InternalKey.Size. cbn [InternalKey.UserKey InternalKey.MakeInternalKey]. done.
  - unfold searchable. rewrite Ht. cbn [InternalKey.UserKey InternalKey.MakeInternalKey].
    change (InternalKey.Trailer (InternalKey.MakeSearchKey (op_key o))) with 18446744073709551378. lia.
Qed.

Section MemProps.
Context (junk : bytes -> nat -> Z) (cmp : bytes -> bytes -> Z) `{!Comparator cmp}.

(** One iteration of a writer that has room for the records it still has to
    apply: it never fails, and what it stores leaves its pending records. *)
Lemma apply_iter_spec m a rnd ns rem :
  holds cmp (skl m) ns -> ins_ok cmp (skl m) ns (ap_ins a) -> ap_r a = enc_ops rem -> recs_ok (ap_seq a) rem ->
  (forall e b, e ∈ mem_entries (ap_seq a) rem -> b ∈ ns -> a_key b <> e.1) ->
  arena_n (arena (skl m)) + room (mem_entries (ap_seq a) rem) <= arena_len (arena (skl m)) ->
  exists m' a' ns', apply_iter junk cmp m a rnd = Ok (m', a', match rem with [] => Some None | _ => None end) /\
    m' = with_skl m (skl m') /\ ap_r a' = enc_ops (tail rem) /\ recs_ok (ap_seq a') (tail rem) /\
    ap_seq a' + ops_count (tail rem) = ap_seq a + ops_count rem /\
    holds cmp (skl m') ns' /\ ins_ok cmp (skl m') ns' (ap_ins a') /\
    (forall ins, ins_ok cmp (skl m) ns ins -> ins_ok cmp (skl m') ns' ins) /\
    (entry_of <$> ns') ++ mem_entries (ap_seq a') (tail rem) ≡ₚ (entry_of <$> ns) ++ mem_entries (ap_seq a) rem /\
    arena_n (arena (skl m')) + room (mem_entries (ap_seq a') (tail rem)) <=
      arena_n (arena (skl m)) + room (mem_entries (ap_seq a) rem) /\
    arena_len (arena (skl m')) = arena_len (arena (skl m)).
Proof.
  intros Hh Hi Hr Hok Hfr Hroom. assert (Hid : m = with_skl m (skl m)) by (by destruct m). unfold apply_iter. rewrite Hr.
  destruct rem as [|o rem].
  - cbn [enc_ops fmap list_fmap mjoin list_join Batch.Next rbind]. exists m, (mkApp [] (ap_seq a) (ap_ins a)), ns.
    cbn [ap_r ap_seq ap_ins tail]. split; [done|]. do 9 (split; [done|]). done.
  - apply recs_ok_cons in Hok as (Ho & Hok & Hs & Hlen & Henc).
    rewrite enc_ops_cons, Next_enc by (lia || apply Ho). cbn [rbind op_record].
    rewrite ops_count_cons. cbn [mem_entries] in *.
    assert (Hkind : (op_kind o =? InternalKey.KindLogData) = negb (op_counted o)) by (by destruct o).
    rewrite Hkind. destruct (op_counted o) eqn:Ec; cbn [negb tail].
    + set (k := InternalKey.MakeInternalKey (op_key o) (ap_seq a) (op_kind o)) in *.
      destruct (mem_entry_key (ap_seq a) o Ho ltac:(lia)) as [Hko _]. fold k in Hko.
      cbn [room foldr] in Hroom. fold (room (mem_entries (ap_seq a + 1) rem)) in Hroom.
      pose proof (room_nonneg (mem_entries (ap_seq a + 1) rem)) as Hr0. unfold entry_room in Hroom. cbn [fst snd] in Hroom.
      pose proof (i_arena _ _ _ (h_shape _ _ _ Hh)) as [Hw1 Hw2].
      destruct (addInternal_absent cmp (skl m) ns (ap_ins a) k (op_value o) (randomHeight rnd))
        as (s' & ins' & e & -> & Eh & Et & Hht & Elen & Hfit & _); try done.
      { rewrite Forall_forall. intros b Hb. apply (Hfr (k, op_value o)); [left|done]. }
      { apply randomHeight_range. } { lia. }
      destruct Hfit as (-> & B & A & z & Hsp & Zk & Zv & Hh' & Hi' & Hn'); [unfold fits; lia|].
      cbn [rbind fst snd]. exists (with_skl m s'), (mkApp (enc_ops rem) (u64 (ap_seq a + 1)) ins'), (B ++ z :: A).
      cbn [skl with_skl ap_r ap_seq ap_ins].
      unfold InternalKey.SeqNumMax in Hs. change (Z.shiftl 1 56) with 72057594037927936 in Hs. rewrite u64_small by lia.
      split; [done|]. split; [done|]. split; [done|]. split; [done|]. split; [lia|]. split; [done|]. split; [done|].
      split; [|split; [|split; [|done]]].
      * intros ins. apply ins_ok_grow; try done; [rewrite (s_app _ _ _ _ _ Hsp); set_solver|]. eapply nodup_offs, Hh'.
      * rewrite (s_app _ _ _ _ _ Hsp), !fmap_app. cbn [fmap list_fmap].
        assert (entry_of z = (k, op_value o)) as -> by (unfold entry_of; by rewrite Zk, Zv). solve_Permutation.
      * cbn [room foldr]. fold (room (mem_entries (ap_seq a + 1) rem)). unfold entry_room. cbn [fst snd]. lia.
    + exists m, (mkApp (enc_ops rem) (ap_seq a) (ap_ins a)), ns.
      unfold InternalKey.SeqNumMax in Hs. change (Z.shiftl 1 56) with 72057594037927936 in Hs.
      assert (u64 (u64 (ap_seq a - 1) + 1) = ap_seq a) as ->.
      { unfold u64. rewrite Zplus_mod_idemp_l. rewrite Z.mod_small by lia. lia. }
      cbn [ap_r ap_seq ap_ins]. do 9 (split; [done|]). done.
Qed.

(** The number of writers that still hold the table. *)
Definition inflight (ws : list writer) : Z := len (filter (fun w => w_gone w = false) ws).

Lemma inflight_insert ws i w w' :
  ws !! i = Some w -> inflight (<[i := w']> ws) =
  inflight ws - (if w_gone w then 0 else 1) + (if w_gone w' then 0 else 1).
Proof.
  intros Hi. unfold inflight. pose proof (lookup_lt_Some _ _ _ Hi). rewrite insert_take_drop by done.
  pose proof (f_equal inflight (take_drop_middle ws i w Hi)) as Hf. unfold inflight in Hf.
  rewrite filter_app, len_app, filter_cons in Hf. rewrite filter_app, len_app, filter_cons.
  destruct (w_gone w) eqn:E, (w_gone w') eqn:E'; repeat case_decide; try done; rewrite ?len_cons in *; lia.
Qed.

Definition writer_ok (s : Skiplist) (ns : list anode) (w : writer) (ps : list entry) : Prop :=
  exists rem, ap_r (w_app w) = enc_ops rem /\ recs_ok (ap_seq (w_app w)) rem /\ ps = mem_entries (ap_seq (w_app w)) rem /\
    ins_ok cmp s ns (ap_ins (w_app w)) /\
    (w_left w <> None -> w_left w = Some None /\ rem = []) /\ (w_gone w = true -> w_left w <> None).

(** What holds between events: [ps] are the entries each writer still has to
    store, [all] those of every batch accepted so far. *)
Record minv (st : mstate) (all : list entry) (ns : list anode) (ps : list (list entry)) : Prop := mkMinv {
  v_holds : holds cmp (skl (ms_mem st)) ns;
  v_writers : Forall2 (writer_ok (skl (ms_mem st)) ns) (ms_ws st) ps;
  v_perm : (entry_of <$> ns) ++ concat ps ≡ₚ all;
  v_nodup : NoDup (fst <$> all);
  v_search : Forall (fun e => searchable e.1) all;
  v_fits : arena_n (arena (skl (ms_mem st))) <= arena_len (arena (skl (ms_mem st)));
  v_reserved : 0 < inflight (ms_ws st) ->
    arena_n (arena (skl (ms_mem st))) + room (concat ps) <= reserved (ms_mem st) <= arena_len (arena (skl (ms_mem st)));
  v_refs : writerRefs (ms_mem st) = (if ms_sealed st then 0 else 1) + inflight (ms_ws st);
  v_few : inflight (ms_ws st) < 2147483647
}.

Lemma concat_insert (ps : list (list entry)) i p p' :
  ps !! i = Some p -> exists q, concat ps ≡ₚ p ++ q /\ concat (<[i := p']> ps) ≡ₚ p' ++ q.
Proof.
  intros Hi. pose proof (lookup_lt_Some _ _ _ Hi). exists (concat (take i ps) ++ concat (drop (S i) ps)).
  rewrite insert_take_drop by done. pose proof (f_equal (@concat entry) (take_drop_middle ps i p Hi)) as Hf.
  rewrite concat_app in Hf. rewrite <-Hf, concat_app. cbn. split; solve_Permutation.
Qed.

Lemma writer_ok_grow s s' ns ns' w p :
  (forall ins, ins_ok cmp s ns ins -> ins_ok cmp s' ns' ins) -> writer_ok s ns w p -> writer_ok s' ns' w p.
Proof. intros H (rem & ?&?&?&?&?). exists rem. auto 10. Qed.

Lemma gone_empty s ns w p : writer_ok s ns w p -> w_left w <> None -> p = [].
Proof. intros (rem & _ & _ & -> & _ & Hl & _) H. by destruct (Hl H) as [_ ->]. Qed.

Lemma idle_concat st all ns ps : minv st all ns ps -> inflight (ms_ws st) = 0 -> concat ps = [].
Proof.
  intros Hv H0. pose proof (v_writers _ _ _ _ Hv) as HF. unfold inflight, len in H0.
  assert (Hall : Forall (fun w => w_gone w = true) (ms_ws st)).
  { apply Forall_forall. intros w Hw. destruct (w_gone w) eqn:E; [done|]. exfalso.
    assert (Hin : w ∈ filter (fun w => w_gone w = false) (ms_ws st)) by (by apply list_elem_of_filter).
    destruct (filter _ _); [by apply not_elem_of_nil in Hin|]. cbn in H0. lia. }
  clear - HF Hall. induction HF as [|w p ws ps Hw HF IH]; [done|]. apply Forall_cons in Hall as [Hg Hall]. cbn.
  rewrite (gone_empty _ _ _ _ Hw); [by apply IH|]. destruct Hw as (rem & _ & _ & _ & _ & _ & H). by apply H.
Qed.

Lemma inflight_nonneg ws : 0 <= inflight ws.
Proof. apply len_nonneg. Qed.

Lemma filter_elem_inflight ws i w : ws !! i = Some w -> w_gone w = false -> 0 < inflight ws.
Proof.
  intros Hi Hg. unfold inflight, len. assert (Hin : w ∈ filter (fun w => w_gone w = false) ws).
  { apply list_elem_of_filter. split; [done|]. by eapply list_elem_of_lookup_2. }
  destruct (filter _ _); [by apply not_elem_of_nil in Hin|]. cbn. lia.
Qed.

(** An iteration never meets a full arena, and keeps the invariant. *)
Lemma minv_iter st all ns ps i b a rnd :
  minv st all ns ps -> ms_ws st !! i = Some (mkW b a None false) ->
  exists m' a' res, apply_iter junk cmp (ms_mem st) a rnd = Ok (m', a', res) /\ (res = None \/ res = Some None) /\
    exists ns' ps', minv (mkMS m' (<[i := mkW b a' res false]> (ms_ws st)) (ms_sealed st)) all ns' ps'.
Proof.
  intros Hv Hi. pose proof (filter_elem_inflight _ _ _ Hi eq_refl) as Hin.
  destruct (Forall2_lookup_l _ _ _ _ _ (v_writers _ _ _ _ Hv) Hi) as (p & Hp & (rem & R1 & R2 & -> & R4 & R5 & R6)).
  cbn [w_app w_left w_gone] in *. destruct (v_reserved _ _ _ _ Hv Hin) as [Hres Hcap].
  destruct (concat_insert ps i _ (mem_entries (ap_seq a) (tail rem)) Hp) as (q & Q1 & _).
  assert (Hroom : room (concat ps) = room (mem_entries (ap_seq a) rem) + room q) by (rewrite Q1; apply room_app).
  pose proof (room_nonneg q) as Hq0.
  destruct (apply_iter_spec (ms_mem st) a rnd ns rem) as (m' & a' & ns' & E & Em & A1 & A2 & A3 & A4 & A5 & A6 & A7 & A8 & A9).
  - apply Hv.
  - done.
  - done.
  - done.
  - intros e n He Hn Ek. pose proof (v_nodup _ _ _ _ Hv) as Hnd. rewrite <-(v_perm _ _ _ _ Hv), Q1, !fmap_app in Hnd.
    apply NoDup_app in Hnd as (_ & Hnd & _). apply (Hnd (a_key n)).
    + apply list_elem_of_fmap. exists (entry_of n). split; [done|]. by apply list_elem_of_fmap_2.
    + apply elem_of_app. left. apply list_elem_of_fmap. exists e. by split.
  - lia.
  - eexists m', a', _. split; [exact E|]. split; [destruct rem; auto|].
    destruct (concat_insert ps i _ (mem_entries (ap_seq a') (tail rem)) Hp) as (q' & Q1' & Q2').
    assert (Hroom' : room (concat (<[i := mem_entries (ap_seq a') (tail rem)]> ps)) =
      room (mem_entries (ap_seq a') (tail rem)) + room q') by (rewrite Q2'; apply room_app).
    assert (Hq : room q' = room q) by (pose proof (room_proper _ _ Q1') as Hpp; rewrite room_app in Hpp; lia).
    exists ns', (<[i := mem_entries (ap_seq a') (tail rem)]> ps).
    assert (Hmem : reserved m' = reserved (ms_mem st) /\ writerRefs m' = writerRefs (ms_mem st)) by (by rewrite Em).
    destruct Hmem as [Hr1 Hr2].
    assert (Hfl : inflight (<[i := mkW b a' (match rem with [] => Some None | _ => None end) false]> (ms_ws st)) = inflight (ms_ws st)).
    { rewrite (inflight_insert _ _ _ _ Hi). cbn. lia. }
    split; cbn [ms_mem ms_ws ms_sealed]; rewrite ?Hfl, ?Hr1, ?Hr2; try apply Hv; try done.
    + apply Forall2_insert.
      * eapply Forall2_impl; [apply Hv|]. intros w p. by apply writer_ok_grow.
      * exists (tail rem). cbn [w_app w_left w_gone]. do 4 (split; [done|]). split; [|done].
        destruct rem; [by split|done].
    + rewrite <-(v_perm _ _ _ _ Hv), Q1', Q2'. rewrite !app_assoc. by rewrite A7.
    + pose proof (v_fits _ _ _ _ Hv). pose proof (room_nonneg (mem_entries (ap_seq a') (tail rem))). lia.
    + intros _. lia.
Qed.
(** *** Reservations *)

(** A batch that holds the records [ops]. *)
Definition batch_of (b : Batch) (ops : list batchOp) : Prop :=
  (exists h, data b = h ++ enc_ops ops /\ len h = 12) /\ Count b = ops_count ops /\
  memTableSize b = u64 (ops_size op_counted ops).

Lemma op_size_room s o :
  rec_ok o -> len (op_key o) + len (op_value o) < 4294967000 ->
  op_size o = entry_room (InternalKey.MakeInternalKey (op_key o) s (op_kind o), op_value o).
Proof.
  intros _ Hl. pose proof (len_nonneg (op_key o)). pose proof (len_nonneg (op_value o)).
  unfold op_size, memTableEntrySize, entry_room, MaxNodeSize, InternalKey.Size, maxNodeSize, maxHeight, linksSize, align4.
  cbn [fst snd InternalKey.UserKey InternalKey.MakeInternalKey].
  rewrite (u32_small (len (op_key o))), (u32_small (len (op_value o))) by lia.
  rewrite (u32_small (len (op_key o) + 8)) by lia. rewrite u32_small by lia. lia.
Qed.

Lemma ops_size_room s ops : recs_ok s ops -> ops_size op_counted ops = room (mem_entries s ops).
Proof.
  revert s. induction ops as [|o ops IH]; intros s Hok; [done|].
  apply recs_ok_cons in Hok as (Ho & Hok & _ & Hl & _). cbn [ops_size foldr mem_entries]. fold (ops_size op_counted ops).
  rewrite (IH _ Hok). destruct (op_counted o); [|done]. cbn [room foldr]. by rewrite (op_size_room s o Ho Hl).
Qed.

Lemma room_bound s ops : recs_ok s ops -> room (mem_entries s ops) <= 172 * len (enc_ops ops).
Proof.
  revert s. induction ops as [|o ops IH]; intros s Hok; [done|].
  apply recs_ok_cons in Hok as (Ho & Hok & _ & Hl & _). specialize (IH _ Hok). rewrite enc_ops_cons, len_app.
  pose proof (len_enc_op_ge o). pose proof (enc_op_nonempty o) as Hne. cbn [mem_entries].
  assert (1 <= len (enc_op o)) by (unfold len; lia).
  destruct (op_counted o); [|lia]. cbn [room foldr]. fold (room (mem_entries (s + 1) ops)).
  unfold entry_room, InternalKey.Size, maxNodeSize, maxHeight, linksSize, align4.
  cbn [fst snd InternalKey.UserKey InternalKey.MakeInternalKey]. lia.
Qed.

Lemma mem_entries_searchable s ops : recs_ok s ops -> Forall (fun e => searchable e.1) (mem_entries s ops).
Proof.
  revert s. induction ops as [|o ops IH]; intros s Hok; [constructor|].
  apply recs_ok_cons in Hok as (Ho & Hok & Hs & _). cbn [mem_entries]. specialize (IH _ Hok).
  destruct (op_counted o); [|done]. constructor; [|done]. cbn [fst]. apply mem_entry_key; [done|lia].
Qed.

Lemma availBytes_spec st all ns ps :
  minv st all ns ps -> ms_sealed st = false ->
  exists r, availBytes (ms_mem st) = (with_reserved (ms_mem st) r, arena_len (arena (skl (ms_mem st))) - r) /\
    arena_n (arena (skl (ms_mem st))) + room (concat ps) <= r <= arena_len (arena (skl (ms_mem st))).
Proof.
  intros Hv Hs. pose proof (v_refs _ _ _ _ Hv) as Hr. rewrite Hs in Hr. pose proof (inflight_nonneg (ms_ws st)) as H0.
  pose proof (i_arena _ _ _ (h_shape _ _ _ (v_holds _ _ _ _ Hv))) as [Hw1 Hw2]. pose proof (v_fits _ _ _ _ Hv) as Hf.
  unfold availBytes. cbv zeta. unfold arenaCapacity. rewrite (u32_small (arena_len _)) by lia.
  destruct (Z.eqb_spec (writerRefs (ms_mem st)) 1) as [E|E].
  - assert (Hi0 : inflight (ms_ws st) = 0) by lia. rewrite (idle_concat _ _ _ _ Hv Hi0).
    assert (Ha : arenaSize (arena (skl (ms_mem st))) = arena_n (arena (skl (ms_mem st)))).
    { unfold arenaSize. destruct (Z.ltb_spec 4294967295 (arena_n (arena (skl (ms_mem st))))); [lia|]. apply u32_small. lia. }
    rewrite Ha. eexists. split; [|split; [|exact Hf]].
    + cbn [reserved with_reserved]. by rewrite u32_small by lia.
    + cbn. lia.
  - destruct (v_reserved _ _ _ _ Hv ltac:(lia)) as [R1 R2]. pose proof (room_nonneg (concat ps)).
    exists (reserved (ms_mem st)). rewrite u32_small by lia. split; [by destruct (ms_mem st)|]. lia.
Qed.

Lemma minv_reject st all ns ps r :
  minv st all ns ps ->
  arena_n (arena (skl (ms_mem st))) + room (concat ps) <= r <= arena_len (arena (skl (ms_mem st))) ->
  minv (mkMS (with_reserved (ms_mem st) r) (ms_ws st) (ms_sealed st)) all ns ps.
Proof. intros [] Hr. by split. Qed.

Lemma minv_accept st all ns ps b s ops m' :
  minv st all ns ps -> ms_sealed st = false -> batch_of b ops -> recs_ok s ops ->
  NoDup (fst <$> all ++ mem_entries s ops) -> inflight (ms_ws st) < 2147483646 ->
  prepare (ms_mem st) b = (m', None) ->
  minv (mkMS m' (ms_ws st ++ [mkW b (apply_start junk b s) None false]) false)
    (all ++ mem_entries s ops) ns (ps ++ [mem_entries s ops]).
Proof.
  intros Hv Hs (( h & Hd & Hh) & Hc & Hsz) Hok Hnd Hfew. unfold prepare.
  destruct (availBytes_spec st all ns ps Hv Hs) as (r & -> & Hr1 & Hr2).
  pose proof (i_arena _ _ _ (h_shape _ _ _ (v_holds _ _ _ _ Hv))) as [Hw1 Hw2].
  rewrite Hsz, (ops_size_room s ops Hok). pose proof (room_bound s ops Hok) as Hb. pose proof Hok as (_ & Hl & _).
  pose proof (room_nonneg (mem_entries s ops)) as H0. pose proof (room_nonneg (concat ps)) as H1.
  rewrite (u64_small (room _)) by lia. destruct (Z.ltb_spec (arena_len (arena (skl (ms_mem st))) - r) (room (mem_entries s ops))); [done|].
  cbn [reserved with_reserved]. rewrite (u32_small (room _)) by lia. rewrite u32_small by lia. injection 1 as <-.
  assert (Hfl : inflight (ms_ws st ++ [mkW b (apply_start junk b s) None false]) = inflight (ms_ws st) + 1).
  { unfold inflight. by rewrite filter_app, len_app. }
  pose proof (inflight_nonneg (ms_ws st)) as H2. pose proof (v_refs _ _ _ _ Hv) as Hrf. rewrite Hs in Hrf.
  split; cbn [ms_mem ms_ws ms_sealed skl writerRef with_reserved reserved writerRefs]; rewrite ?Hfl.
  - apply Hv.
  - apply Forall2_app; [apply Hv|]. constructor; [|constructor]. exists ops. cbn [w_app apply_start ap_r ap_seq ap_ins w_left w_gone].
    split; [by apply (Reader_data junk b h)|]. split; [done|]. split; [done|]. split; [|done].
    apply zeroInserter_ok. apply (i_height _ _ _ (h_shape _ _ _ (v_holds _ _ _ _ Hv))).
  - rewrite concat_app. cbn [concat]. rewrite app_nil_r, app_assoc. by rewrite (v_perm _ _ _ _ Hv).
  - done.
  - apply Forall_app. split; [apply Hv|]. by apply mem_entries_searchable.
  - apply Hv.
  - intros _. rewrite concat_app, room_app. cbn [concat]. rewrite app_nil_r. lia.
  - unfold i32. rewrite Z.mod_small by lia. lia.
  - lia.
Qed.

Lemma minv_unref st all ns ps i b a e :
  minv st all ns ps -> ms_ws st !! i = Some (mkW b a (Some e) false) ->
  minv (mkMS (writerUnref (ms_mem st)).1 (<[i := mkW b a (Some e) true]> (ms_ws st)) (ms_sealed st)) all ns ps.
Proof.
  intros Hv Hi. pose proof (filter_elem_inflight _ _ _ Hi eq_refl) as Hin.
  assert (Hfl : inflight (<[i := mkW b a (Some e) true]> (ms_ws st)) = inflight (ms_ws st) - 1).
  { rewrite (inflight_insert _ _ _ _ Hi). cbn. lia. }
  pose proof (v_refs _ _ _ _ Hv) as Hrf. pose proof (v_few _ _ _ _ Hv) as Hfew.
  split; cbn [ms_mem ms_ws ms_sealed skl writerUnref fst reserved writerRefs]; rewrite ?Hfl; try apply Hv.
  - destruct (Forall2_lookup_l _ _ _ _ _ (v_writers _ _ _ _ Hv) Hi) as (p & Hp & (rem & R1 & R2 & R3 & R4 & R5 & R6)).
    rewrite <-(list_insert_id ps i p Hp). apply Forall2_insert; [apply Hv|]. exists rem. by do 5 (split; [done|]).
  - intros _. by apply (v_reserved _ _ _ _ Hv).
  - unfold i32. rewrite Z.mod_small by (destruct (ms_sealed st); lia). lia.
  - lia.
Qed.

Lemma minv_seal st all ns ps :
  minv st all ns ps -> ms_sealed st = false -> minv (mkMS (writerUnref (ms_mem st)).1 (ms_ws st) true) all ns ps.
Proof.
  intros Hv Hs. pose proof (v_refs _ _ _ _ Hv) as Hrf. rewrite Hs in Hrf. pose proof (v_few _ _ _ _ Hv) as Hfew.
  pose proof (inflight_nonneg (ms_ws st)) as H2.
  split; cbn [ms_mem ms_ws ms_sealed skl writerUnref fst reserved writerRefs]; try apply Hv.
  unfold i32. rewrite Z.mod_small by lia. lia.
Qed.

(** The states of a table of [size] bytes and the entries of the batches it
    accepted.  The store's part of the contract: a batch comes with sequence
    numbers of its own, and no more writers are in flight than a counter of 31
    bits counts. *)
Inductive mreach (size logSeq : Z) : mstate -> list entry -> Prop :=
| mr_init m : newMemTable size logSeq = Ok m -> mreach size logSeq (mkMS m [] false) []
| mr_prepare st all b s ops st' :
    mreach size logSeq st all -> batch_of b ops -> recs_ok s ops ->
    NoDup (fst <$> all ++ mem_entries s ops) -> inflight (ms_ws st) < 2147483646 ->
    mstep junk cmp st (MPrepare b s) = Ok st' ->
    mreach size logSeq st' (match snd (prepare (ms_mem st) b) with None => all ++ mem_entries s ops | Some _ => all end)
| mr_step st all e st' :
    mreach size logSeq st all -> (forall b s, e <> MPrepare b s) -> mstep junk cmp st e = Ok st' ->
    mreach size logSeq st' all.

Lemma mreach_inv size logSeq st all :
  emptySize <= size < 4294967296 -> mreach size logSeq st all -> exists ns ps, minv st all ns ps.
Proof.
  intros Hsz. induction 1 as [m Hm|st all b s ops st' Hr (ns & ps & IH) Hb Hok Hnd Hfew Hst|st all e st' Hr (ns & ps & IH) Hne Hst].
  - destruct (Reset_holds cmp mem_zero size Hsz) as (s0 & E & Hh & _ & Hn & Hl). unfold newMemTable in Hm. rewrite E in Hm.
    injection Hm as <-. exists [], []. split; cbn [ms_mem ms_ws ms_sealed skl reserved writerRefs]; try done; try constructor.
    + rewrite Hn, Hl. lia.
  - cbn [mstep] in Hst. destruct (ms_sealed st) eqn:Es; [done|].
    destruct (availBytes_spec st all ns ps IH Es) as (r & Er & Hr1).
    destruct (prepare (ms_mem st) b) as [m' [e|]] eqn:Ep; injection Hst as <-; cbn [snd].
    + exists ns, ps. unfold prepare in Ep. rewrite Er in Ep. destruct (_ <? _); [|done]. injection Ep as <- _.
      pose proof (minv_reject st all ns ps r IH Hr1) as Hv. by rewrite Es in Hv.
    + eexists ns, _. by eapply minv_accept.
  - destruct e as [b s|i rnd|i|]; cbn [mstep] in Hst.
    + by destruct (Hne b s).
    + destruct (ms_ws st !! i) as [[b a [l|] []]|] eqn:Ei; try done.
      destruct (minv_iter st all ns ps i b a rnd IH Ei) as (m' & a' & res & E & _ & ns' & ps' & Hv).
      rewrite E in Hst. cbn [rbind fst snd] in Hst. injection Hst as <-. eauto.
    + destruct (ms_ws st !! i) as [[b a [l|] []]|] eqn:Ei; try done. injection Hst as <-.
      exists ns, ps. by eapply minv_unref.
    + destruct (ms_sealed st) eqn:Es; [done|]. injection Hst as <-. exists ns, ps. by apply minv_seal.
Qed.

(** C7: the reservations made by [prepare] are enough.  Whatever the
    interleaving of preparations, insertions by several writers, releases and
    the sealing of the table, an iteration of a writer's loop never fails: no
    accepted batch meets a full arena half-way. *)
Theorem reserved_adds_fit size logSeq st all i b a rnd :
  emptySize <= size < 4294967296 -> mreach size logSeq st all ->
  ms_ws st !! i = Some (mkW b a None false) ->
  exists m' a' res, apply_iter junk cmp (ms_mem st) a rnd = Ok (m', a', res) /\ (res = None \/ res = Some None).
Proof.
  intros Hsz Hr Hi. destruct (mreach_inv size logSeq st all Hsz Hr) as (ns & ps & Hv).
  destruct (minv_iter st all ns ps i b a rnd Hv Hi) as (m' & a' & res & E & Hres & _). eauto 10.
Qed.

(** C30: the table loses nothing and is flushed complete.  In every reachable
    state a scan of the table yields, in the order of internal keys, entries
    of accepted batches only; and once the table reports that it is ready for
    flushing no writer is left and the scan yields every entry of every
    accepted batch, a lookup answering from the newest entry of its key. *)
Theorem memtable_contents size logSeq st all :
  emptySize <= size < 4294967296 -> mreach size logSeq st all ->
  exists es rest, (forall fuel, (length es <= fuel)%nat -> scan (sklOps cmp) fuel (NewIter (skl (ms_mem st)) None None) = Ok es) /\
    StronglySorted (entry_lt cmp) es /\ es ++ rest ≡ₚ all /\
    (forall key, mget cmp (ms_mem st) key = Ok (answer (newest key es))) /\
    (readyForFlush (ms_mem st) = true -> inflight (ms_ws st) = 0 /\ es ≡ₚ all).
Proof.
  intros Hsz Hr. destruct (mreach_inv size logSeq st all Hsz Hr) as (ns & ps & Hv).
  pose proof (v_holds _ _ _ _ Hv) as Hh. exists (entry_of <$> ns), (concat ps).
  split; [intros fuel Hf; apply scan_holds; [done|]; by rewrite length_fmap in Hf|].
  split; [apply entries_sorted; [done|]; apply (h_shape _ _ _ Hh)|]. split; [apply Hv|]. split.
  - intros key. apply Get_spec; [done|done|]. pose proof (v_search _ _ _ _ Hv) as HF.
    rewrite <-(v_perm _ _ _ _ Hv) in HF. apply Forall_app in HF as [HF _]. rewrite Forall_forall in HF. apply Forall_forall.
    intros a Ha. apply (HF (entry_of a)). by apply list_elem_of_fmap_2.
  - unfold readyForFlush. rewrite (v_refs _ _ _ _ Hv). intros E%Z.eqb_eq. pose proof (inflight_nonneg (ms_ws st)).
    assert (H0 : inflight (ms_ws st) = 0) by (destruct (ms_sealed st); lia). split; [done|].
    rewrite <-(v_perm _ _ _ _ Hv), (idle_concat _ _ _ _ Hv H0). by rewrite app_nil_r.
Qed.
(** *** A whole application *)

Lemma apply_loop_spec rnds fuel m a ns rem :
  holds cmp (skl m) ns -> ins_ok cmp (skl m) ns (ap_ins a) -> ap_r a = enc_ops rem -> recs_ok (ap_seq a) rem ->
  NoDup (fst <$> (entry_of <$> ns) ++ mem_entries (ap_seq a) rem) ->
  arena_n (arena (skl m)) + room (mem_entries (ap_seq a) rem) <= arena_len (arena (skl m)) ->
  (length rem < fuel)%nat ->
  exists m' a' ns', apply_loop junk cmp fuel m a rnds = Ok (m', a', None) /\ m' = with_skl m (skl m') /\
    ap_seq a' = ap_seq a + ops_count rem /\ holds cmp (skl m') ns' /\
    (entry_of <$> ns') ≡ₚ (entry_of <$> ns) ++ mem_entries (ap_seq a) rem /\
    arena_n (arena (skl m')) <= arena_n (arena (skl m)) + room (mem_entries (ap_seq a) rem) /\
    arena_len (arena (skl m')) = arena_len (arena (skl m)).
Proof.
  revert fuel m a ns. induction rem as [|o rem IH]; intros fuel m a ns Hh Hi Hr Hok Hnd Hroom Hf;
    (destruct fuel as [|fuel]; [cbn in Hf; lia|]); cbn [apply_loop];
    destruct (apply_iter_spec m a (rnds (S fuel)) ns _ Hh Hi Hr Hok) as
      (m' & a' & ns' & E & Em & A1 & A2 & A3 & A4 & A5 & A6 & A7 & A8 & A9); try done;
    try (intros e b He Hb Ek; rewrite fmap_app in Hnd; apply NoDup_app in Hnd as (_ & Hnd & _);
         apply (Hnd (a_key b)); [apply list_elem_of_fmap; exists (entry_of b); split; [done|by apply list_elem_of_fmap_2]|];
         apply list_elem_of_fmap; by exists e).
  - rewrite E. cbn [rbind fst snd]. exists m', a', ns'. cbn [tail] in *. change (ops_count []) with 0 in *.
    split; [done|]. split; [done|]. split; [lia|]. split; [done|].
    cbn [mem_entries] in A7, A8 |- *. rewrite !app_nil_r in A7. rewrite app_nil_r. split; [done|]. split; [|done].
    change (room []) with 0 in *. lia.
  - rewrite E. cbn [rbind fst snd tail] in *. destruct (IH fuel m' a' ns') as (m'' & a'' & ns'' & E2 & Em2 & B1 & B2 & B3 & B4 & B5); try done.
    + by rewrite A7.
    + rewrite A9. lia.
    + cbn in Hf. lia.
    + exists m'', a'', ns''. split; [done|]. split; [rewrite Em2, Em; by destruct m|]. split; [lia|]. split; [done|].
      split; [by rewrite B3, A7|]. split; [lia|congruence].
Qed.

Lemma apply_stores_ok m b s ops ns rnds :
  holds cmp (skl m) ns -> Reader junk b = enc_ops ops -> Count b = ops_count ops -> recs_ok s ops ->
  NoDup (fst <$> (entry_of <$> ns) ++ mem_entries s ops) ->
  arena_n (arena (skl m)) + room (mem_entries s ops) <= arena_len (arena (skl m)) -> logSeqNum m <= s ->
  exists m' ns', apply junk cmp m b s rnds = Ok (m', None) /\ m' = with_skl m (skl m') /\ holds cmp (skl m') ns' /\
    (entry_of <$> ns') ≡ₚ (entry_of <$> ns) ++ mem_entries s ops /\
    arena_n (arena (skl m')) <= arena_n (arena (skl m)) + room (mem_entries s ops) /\
    arena_len (arena (skl m')) = arena_len (arena (skl m)).
Proof.
  intros Hh HR Hc Hok Hnd Hroom Hseq. unfold apply. destruct (Z.ltb_spec s (logSeqNum m)); [lia|].
  cbv zeta. unfold apply_start at 1. cbn [ap_r]. rewrite HR.
  destruct (apply_loop_spec rnds (S (length (enc_ops ops))) m (apply_start junk b s) ns ops) as (m' & a' & ns' & E & Em & A1 & A2 & A3 & A4 & A5);
    try done.
  - cbn [apply_start ap_ins]. apply zeroInserter_ok. apply (i_height _ _ _ (h_shape _ _ _ Hh)).
  - pose proof (length_enc_ops ops). lia.
  - rewrite E. cbn [rbind fst snd]. rewrite A1. cbn [apply_start ap_seq]. pose proof Hok as (_ & _ & Hs0 & Hs).
    pose proof (ops_count_range ops).
    unfold InternalKey.SeqNumMax in Hs. change (Z.shiftl 1 56) with 72057594037927936 in Hs.
    rewrite Hc, u64_small, Z.eqb_refl by lia. cbn [negb]. exists m', ns'. done.
Qed.

(** [apply] stores a whole batch: with sequence numbers at or past those
    the table was created for, and with room for its records, it succeeds, its
    count check included, and adds exactly the batch's records under
    consecutive sequence numbers, log data taking none; a batch with an older
    sequence number is refused untouched. *)
Theorem apply_stores m b s ops ns rnds :
  holds cmp (skl m) ns -> batch_of b ops -> recs_ok s ops ->
  NoDup (fst <$> (entry_of <$> ns) ++ mem_entries s ops) ->
  arena_n (arena (skl m)) + room (mem_entries s ops) <= arena_len (arena (skl m)) ->
  (logSeqNum m <= s -> exists m' ns', apply junk cmp m b s rnds = Ok (m', None) /\ holds cmp (skl m') ns' /\
     (entry_of <$> ns') ≡ₚ (entry_of <$> ns) ++ mem_entries s ops) /\
  (s < logSeqNum m -> apply junk cmp m b s rnds = Ok (m, Some ErrBatchSeqNum)).
Proof.
  intros Hh ((h & Hd & Hh12) & Hc & _) Hok Hnd Hroom. split.
  - intros Hle. destruct (apply_stores_ok m b s ops ns rnds) as (m' & ns' & E & _ & A1 & A2 & _); try done; [by apply (Reader_data junk b h)|].
    by exists m', ns'.
  - intros Hlt. unfold apply. by destruct (Z.ltb_spec s (logSeqNum m)); [|lia].
Qed.
End MemProps.

(** ** Concrete runs *)

Definition demo_writes : list batchOp := [OpSet [5] [50]; OpLogData [9; 9]; OpDelete [6]].
Definition demo_writes' : list batchOp := [OpSet [4] [40]; OpSet [6] [60]].

Definition demo_batch (ops : list batchOp) : Batch := run_ops demo_junk (newBatch None) ops.

Lemma demo_batch_of : batch_of (demo_batch demo_writes) demo_writes /\ batch_of (demo_batch demo_writes') demo_writes'.
Proof.
  split; (split; [|split; vm_compute; reflexivity]).
  - exists (take 12 (data (demo_batch demo_writes))). split; vm_compute; reflexivity.
  - exists (take 12 (data (demo_batch demo_writes'))). split; vm_compute; reflexivity.
Qed.

Lemma demo_recs_ok s : 0 <= s < 1000 -> recs_ok s demo_writes /\ recs_ok s demo_writes'.
Proof.
  intros Hs. assert (InternalKey.SeqNumMax = 72057594037927935) by done.
  split; (split; [repeat constructor|]; split; [by vm_compute|]; split; [lia|]).
  - change (ops_count demo_writes) with 2. lia.
  - change (ops_count demo_writes') with 2. lia.
Qed.

Definition demo_mem : memTable :=
  match newMemTable 2048 1 with Ok m => m | _ => mkMem (mkSkl (NewArena mem_zero 0) ∅ 0 0 0) 0 0 0 0 false end.

Definition run_mem (st : mstate) (es : list mevent) : mstate :=
  foldl (fun st e => match mstep demo_junk bytes_compare st e with Ok st' => st' | _ => st end) st es.

(** Two writers prepared, the second half applied. *)
Definition demo_one : mstate := run_mem (mkMS demo_mem [] false) [MPrepare (demo_batch demo_writes) 1].
Definition demo_two : mstate := run_mem demo_one [MPrepare (demo_batch demo_writes') 3].
Definition demo_busy : mstate := run_mem demo_two [MIter 1 4000000000].

#[local] Instance InternalKey_eq_dec : EqDecision InternalKey.
Proof. solve_decision. Defined.

Definition demo_all : list entry := mem_entries 1 demo_writes ++ mem_entries 3 demo_writes'.

Lemma demo_nodup : NoDup (fst <$> mem_entries 1 demo_writes) /\ NoDup (fst <$> demo_all).
Proof. split; apply (bool_decide_unpack _); vm_compute; done. Qed.

Definition is_ok {A} (r : outcome A) : bool := match r with Ok _ => true | _ => false end.

Lemma run_mem_one st e :
  is_ok (mstep demo_junk bytes_compare st e) = true -> mstep demo_junk bytes_compare st e = Ok (run_mem st [e]).
Proof. cbn. by destruct (mstep demo_junk bytes_compare st e). Qed.

Lemma reach_prepare st all b s ops :
  mreach demo_junk bytes_compare 2048 1 st all -> batch_of b ops -> recs_ok s ops ->
  NoDup (fst <$> all ++ mem_entries s ops) -> inflight (ms_ws st) < 2147483646 ->
  is_ok (mstep demo_junk bytes_compare st (MPrepare b s)) = true -> snd (prepare (ms_mem st) b) = None ->
  mreach demo_junk bytes_compare 2048 1 (run_mem st [MPrepare b s]) (all ++ mem_entries s ops).
Proof.
  intros Hr Hb Hok Hnd Hf He%run_mem_one Hp.
  pose proof (mr_prepare demo_junk bytes_compare 2048 1 st all b s ops _ Hr Hb Hok Hnd Hf He) as H. by rewrite Hp in H.
Qed.

Lemma demo_busy_reach : mreach demo_junk bytes_compare 2048 1 demo_busy demo_all.
Proof.
  destruct demo_batch_of as [B1 B2]. destruct demo_nodup as [N1 N2].
  assert (R0 : mreach demo_junk bytes_compare 2048 1 (mkMS demo_mem [] false) []) by (apply mr_init; reflexivity).
  assert (R1 : mreach demo_junk bytes_compare 2048 1 demo_one (mem_entries 1 demo_writes)).
  { apply (reach_prepare _ [] _ 1 demo_writes R0 B1); [apply demo_recs_ok; lia|exact N1|..]; vm_compute; reflexivity. }
  assert (R2 : mreach demo_junk bytes_compare 2048 1 demo_two demo_all).
  { apply (reach_prepare _ _ _ 3 demo_writes' R1 B2); [apply demo_recs_ok; lia|exact N2|..]; vm_compute; reflexivity. }
  apply (mr_step _ _ 2048 1 demo_two _ (MIter 1 4000000000) demo_busy R2); [done|].
  apply (run_mem_one demo_two (MIter 1 4000000000)). vm_compute. reflexivity.
Qed.

Lemma reserved_adds_fit_witness :
  exists b a m' a' res, ms_ws demo_busy !! 0%nat = Some (mkW b a None false) /\
    apply_iter demo_junk bytes_compare (ms_mem demo_busy) a 7 = Ok (m', a', res).
Proof.
  pose (b := demo_batch demo_writes). pose (a := apply_start demo_junk b 1).
  destruct (reserved_adds_fit demo_junk bytes_compare 2048 1 demo_busy demo_all 0 b a 7) as (m' & a' & res & E & _).
  - vm_compute. split; [discriminate|reflexivity].
  - apply demo_busy_reach.
  - vm_compute. reflexivity.
  - exists b, a, m', a', res. split; [vm_compute; reflexivity|exact E].
Defined.

Lemma memtable_contents_witness :
  exists es rest, scan (sklOps bytes_compare) 9 (NewIter (skl (ms_mem demo_busy)) None None) = Ok es /\ es ++ rest ≡ₚ demo_all.
Proof.
  destruct (memtable_contents demo_junk bytes_compare 2048 1 demo_busy demo_all) as (es & rest & H1 & _ & H3 & _).
  - vm_compute. split; [discriminate|reflexivity].
  - apply demo_busy_reach.
  - exists es, rest. split; [|exact H3]. apply H1. apply Permutation_length in H3. rewrite length_app in H3.
    change (length demo_all) with 4%nat in H3. lia.
Defined.

Lemma apply_stores_witness :
  exists m m' es, newMemTable 2048 1 = Ok m /\
    apply demo_junk bytes_compare m (demo_batch demo_writes) 5 (fun _ => 7) = Ok (m', None) /\
    es ≡ₚ mem_entries 5 demo_writes.
Proof.
  destruct (Reset_holds bytes_compare mem_zero 2048) as (s & E & Hh & _ & Hn & Hl); [vm_compute; split; [discriminate|reflexivity]|].
  destruct (apply_stores demo_junk bytes_compare (mkMem s 0 1 1 2048 false) (demo_batch demo_writes) 5 demo_writes [] (fun _ => 7))
    as [Hok _].
  - exact Hh.
  - apply demo_batch_of.
  - apply demo_recs_ok. lia.
  - apply (bool_decide_unpack _). vm_compute. done.
  - cbn [skl]. rewrite Hn, Hl. vm_compute. discriminate.
  - destruct Hok as (m' & ns' & Ha & _ & Hp); [cbn; lia|]. exists (mkMem s 0 1 1 2048 false), m', (entry_of <$> ns').
    split; [unfold newMemTable; rewrite E; reflexivity|]. split; [exact Ha|exact Hp].
Defined.
