(* ===== verification/Record.v ===== *)
(** The write-ahead log (internal/record): records cut into chunks that never
    cross a block, written by [LogWriter] (log_writer.go) through a queue of
    blocks and read back by [Reader] (record.go).

    The underlying file is the list of bytes written to it; writes and syncs
    succeed.  One turn of the flush loop is [flush_iter]; a writer that waits
    for a free block waits for such a turn.  Checksums are CRC-32C as
    [hash/crc32] computes it. *)

From Stdlib Require Import ZArith Lia.
From stdpp Require Import base numbers option list.
From S2P Require Import Prelude Base.

Definition fullChunkType : Z := 1.
Definition firstChunkType : Z := 2.
Definition middleChunkType : Z := 3.
Definition lastChunkType : Z := 4.
Definition recyclableFullChunkType : Z := 5.
Definition recyclableFirstChunkType : Z := 6.
Definition recyclableMiddleChunkType : Z := 7.
Definition recyclableLastChunkType : Z := 8.

Definition blockSize : Z := 32 * 1024.
Definition legacyHeaderSize : Z := 7.
Definition recyclableHeaderSize : Z := legacyHeaderSize + 4.

(** [crc32.Update] with the Castagnoli table, a bit at a time. *)
Fixpoint crc_bits (n : nat) (c : Z) : Z :=
  match n with
  | O => c
  | S n' => crc_bits n' (if Z.odd c then Z.lxor (Z.shiftr c 1) 2197175160 else Z.shiftr c 1)
  end.

Definition crc_byte (c b : Z) : Z := crc_bits 8 (Z.lxor c b).

Definition crc_update (c : Z) (b : bytes) : Z := Z.lxor (foldl crc_byte (Z.lxor c 4294967295) b) 4294967295.

(** [crc.New(b).Value()] *)
Definition crc_value (b : bytes) : Z :=
  let c := crc_update 0 b in
  u32 (Z.lor (Z.shiftr c 15) (u32 (Z.shiftl c 17)) + 2726488792).

(** ** Reading *)

(** [buf] has the [n] valid bytes of the block; [input] is what the underlying
    reader has not delivered yet. *)
Record Reader : Type := mkReader {
  input : bytes; logNum : Z; blockNum : Z; rseq : Z; begin_ : Z; end_ : Z;
  recovering : bool; last_ : bool; rerr : option error; buf : bytes
}.

Definition NewReader (f : bytes) (logNum : Z) : Reader :=
  mkReader f (u32 logNum) (-1) 0 0 0 false false None [].

Definition set_range (r : Reader) (b e : Z) : Reader :=
  mkReader (input r) (logNum r) (blockNum r) (rseq r) b e (recovering r) (last_ r) (rerr r) (buf r).

Definition set_err (r : Reader) (e : option error) : Reader :=
  mkReader (input r) (logNum r) (blockNum r) (rseq r) (begin_ r) (end_ r) (recovering r) (last_ r) e (buf r).

Definition recover (r : Reader) : Reader :=
  match rerr r with
  | None => r
  | Some _ =>
      mkReader (input r) (logNum r) (blockNum r) (rseq r + 1) (len (buf r)) (len (buf r)) true false None (buf r)
  end.

(** The bytes of the buffer from [a] to [b]. *)
Definition bytes_at (r : Reader) (a b : Z) : bytes := take (Z.to_nat (b - a)) (drop (Z.to_nat a) (buf r)).

(** [nextChunk]; the second component is the error returned. *)
Fixpoint nextChunk (fuel : nat) (wantFirst : bool) (r : Reader) : outcome (Reader * option error) :=
  match fuel with
  | O => Err ErrModelFuel
  | S fuel' =>
      let n := len (buf r) in
      if end_ r + legacyHeaderSize <=? n then
        let checksum := le_get (bytes_at r (end_ r) (end_ r + 4)) in
        let length := le_get (bytes_at r (end_ r + 4) (end_ r + 6)) in
        let chunkType := le_get (bytes_at r (end_ r + 6) (end_ r + 7)) in
        if (checksum =? 0) && (length =? 0) && (chunkType =? 0) then
          if n <? end_ r + recyclableHeaderSize then nextChunk fuel' wantFirst (set_range r (begin_ r) n)
          else if recovering r then nextChunk fuel' wantFirst (recover (set_err r (Some ErrZeroedChunk)))
          else Ok (r, Some ErrZeroedChunk)
        else
          let recyclable := (recyclableFullChunkType <=? chunkType) && (chunkType <=? recyclableLastChunkType) in
          let headerSize := if recyclable then recyclableHeaderSize else legacyHeaderSize in
          if recyclable && (n <? end_ r + headerSize) then Ok (r, Some ErrInvalidChunk)
          else if recyclable && negb (le_get (bytes_at r (end_ r + 7) (end_ r + 11)) =? logNum r) then
            Ok (r, Some (if wantFirst then ErrEOF else ErrInvalidChunk))
          else
            let chunkType := if recyclable then chunkType - (recyclableFullChunkType - 1) else chunkType in
            let b := end_ r + headerSize in
            let r := set_range r b (b + length) in
            if n <? end_ r then
              if recovering r then nextChunk fuel' wantFirst (recover r) else Ok (r, Some ErrInvalidChunk)
            else if negb (checksum =? crc_value (bytes_at r (begin_ r - headerSize + 6) (end_ r))) then
              if recovering r then nextChunk fuel' wantFirst (recover r) else Ok (r, Some ErrInvalidChunk)
            else if wantFirst && negb (chunkType =? fullChunkType) && negb (chunkType =? firstChunkType)
            then nextChunk fuel' wantFirst r
            else
              Ok (mkReader (input r) (logNum r) (blockNum r) (rseq r) (begin_ r) (end_ r) false
                    ((chunkType =? fullChunkType) || (chunkType =? lastChunkType)) (rerr r) (buf r), None)
      else if (n <? blockSize) && (0 <=? blockNum r) then
        if negb wantFirst || negb (end_ r =? n) then Ok (r, Some ErrInvalidChunk) else Ok (r, Some ErrEOF)
      else
        (* io.ReadFull *)
        match input r with
        | [] => Ok (r, Some (if wantFirst then ErrEOF else ErrUnexpectedEOF))
        | _ =>
            nextChunk fuel' wantFirst
              (mkReader (drop (Z.to_nat blockSize) (input r)) (logNum r) (blockNum r + 1) (rseq r) 0 0
                 (recovering r) (last_ r) (rerr r) (take (Z.to_nat blockSize) (input r)))
        end
  end.

(** Every turn of the loop moves forward in the file. *)
Definition chunk_fuel (r : Reader) : nat := S (S (S (2 * (length (buf r) + length (input r)) - Z.to_nat (end_ r)))).

Definition Next (r : Reader) : outcome (Reader * option error) :=
  let r := mkReader (input r) (logNum r) (blockNum r) (rseq r + 1) (begin_ r) (end_ r) (recovering r) (last_ r) (rerr r) (buf r) in
  match rerr r with
  | Some e => Ok (r, Some e)
  | None =>
      let r := set_range r (end_ r) (end_ r) in
      let! (r, e) := nextChunk (chunk_fuel r) true r in
      Ok (set_err r e, e)
  end.

(** The loop of [singleReader.Read] that skips to a chunk with unread bytes. *)
Fixpoint fill (fuel : nat) (r : Reader) : outcome (Reader * option error) :=
  match fuel with
  | O => Err ErrModelFuel
  | S fuel' =>
      if begin_ r =? end_ r then
        if last_ r then Ok (r, Some ErrEOF)
        else
          let! (r, e) := nextChunk (chunk_fuel r) false r in
          match e with
          | Some e => Ok (set_err r (Some e), Some e)
          | None => fill fuel' (set_err r None)
          end
      else Ok (r, None)
  end.

(** [singleReader.Read] into a buffer of [size] bytes. *)
Definition Read (seq : Z) (r : Reader) (size : Z) : outcome (Reader * bytes * option error) :=
  if negb (rseq r =? seq) then Ok (r, [], Some ErrStaleReader)
  else match rerr r with
       | Some e => Ok (r, [], Some e)
       | None =>
           let! (r, e) := fill (chunk_fuel r) r in
           match e with
           | Some e => Ok (r, [], Some e)
           | None =>
               let p := take (Z.to_nat size) (bytes_at r (begin_ r) (end_ r)) in
               Ok (set_range r (begin_ r + len p) (end_ r), p, None)
           end
       end.

(** [io.Copy] of a record: reads of [size] bytes up to the end of the record;
    an error other than the end is returned. *)
Fixpoint read_record (fuel : nat) (seq : Z) (r : Reader) (size : Z) (acc : bytes) : outcome (Reader * bytes * option error) :=
  match fuel with
  | O => Err ErrModelFuel
  | S fuel' =>
      let! (q, e) := Read seq r size in
      let '(r, p) := q in
      match e with
      | Some ErrEOF => Ok (r, acc ++ p, None)
      | Some e => Ok (r, acc ++ p, Some e)
      | None => read_record fuel' seq r size (acc ++ p)
      end
  end.

(** The loop of a replay: the records up to the first error, and that error. *)
Fixpoint read_log (fuel : nat) (size : Z) (r : Reader) : outcome (list bytes * error) :=
  match fuel with
  | O => Err ErrModelFuel
  | S fuel' =>
      let! (r, e) := Next r in
      match e with
      | Some e => Ok ([], e)
      | None =>
          let! (q, e) := read_record (S (length (buf r) + length (input r))) (rseq r) r size [] in
          let '(r, p) := q in
          match e with
          | Some e => Ok ([], e)
          | None => let! (ps, e) := read_log fuel' size r in Ok (p :: ps, e)
          end
      end
  end.

Definition IsInvalidRecord (e : error) : bool :=
  bool_decide (e = ErrZeroedChunk) || bool_decide (e = ErrInvalidChunk) || bool_decide (e = ErrUnexpectedEOF).

(** ** Writing *)

Record block : Type := mkBlk { bmem : mem; written : Z; flushed : Z }.

(** [sink] is the underlying file; [free] and [allocated] are the pool. *)
Record LogWriter : Type := mkLW {
  sink : bytes; wlogNum : Z; wblockNum : Z; blk : block;
  free : list block; allocated : Z; pending : list block
}.

Definition new_block : block := mkBlk mem_zero 0 0.

Definition NewLogWriter (logNum : Z) : LogWriter := mkLW [] (u32 logNum) 0 new_block [] 1 [].

(** The capacity of the pool of free blocks. *)
Definition maxBlocks : Z := 16.

Definition flushBlock (w : LogWriter) (b : block) : LogWriter :=
  mkLW (sink w ++ mem_read (bmem b) (flushed b) (Z.to_nat (blockSize - flushed b))) (wlogNum w) (wblockNum w) (blk w)
    (free w ++ [mkBlk (bmem b) 0 0]) (allocated w) (pending w).

(** A turn of [flushLoop] with [flushPending]: the queued blocks, then the new
    part of the current one. *)
Definition flush_iter (w : LogWriter) : LogWriter :=
  let b := blk w in
  let data := mem_read (bmem b) (flushed b) (Z.to_nat (written b - flushed b)) in
  let w1 := mkLW (sink w) (wlogNum w) (wblockNum w) (mkBlk (bmem b) (written b) (written b)) (free w) (allocated w) [] in
  let w2 := foldl flushBlock w1 (pending w) in
  mkLW (sink w2 ++ data) (wlogNum w2) (wblockNum w2) (blk w2) (free w2) (allocated w2) (pending w2).

(** The pool after the allocation of [queueBlock]: a free block is on top. *)
Definition take_block (w : LogWriter) : LogWriter :=
  match free w with
  | [] =>
      if allocated w <? maxBlocks
      then mkLW (sink w) (wlogNum w) (wblockNum w) (blk w) [new_block] (allocated w + 1) (pending w)
      else flush_iter w
  | _ => w
  end.

Definition queueBlock (w : LogWriter) : outcome LogWriter :=
  let w := take_block w in
  match last (free w) with
  | None => Panic
  | Some nextBlock =>
      Ok (mkLW (sink w) (wlogNum w) (wblockNum w + 1) nextBlock (removelast (free w)) (allocated w) (pending w ++ [blk w]))
  end.

Definition with_blk (w : LogWriter) (b : block) : LogWriter :=
  mkLW (sink w) (wlogNum w) (wblockNum w) b (free w) (allocated w) (pending w).

Definition chunk_type (first last : bool) : Z :=
  if last then (if first then recyclableFullChunkType else recyclableLastChunkType)
  else (if first then recyclableFirstChunkType else recyclableMiddleChunkType).

Definition emitFragment (w : LogWriter) (n : nat) (p : bytes) : outcome (LogWriter * bytes) :=
  let b := blk w in
  let i := written b in
  let first := (n =? 0)%nat in
  let last := i32 (len p) <=? blockSize - i - recyclableHeaderSize in
  let m1 := mem_write (bmem b) (i + 6) [chunk_type first last] in
  let m2 := mem_write m1 (i + 7) (le_put 4 (wlogNum w)) in
  let copied := take (Z.to_nat (blockSize - i - recyclableHeaderSize)) p in
  let m3 := mem_write m2 (i + recyclableHeaderSize) copied in
  let r := len copied in
  let j := i + recyclableHeaderSize + r in
  let m4 := mem_write m3 i (le_put 4 (crc_value (mem_read m3 (i + 6) (Z.to_nat (j - (i + 6)))))) in
  let m5 := mem_write m4 (i + 4) (le_put 2 r) in
  let rest := drop (length copied) p in
  if blockSize - j <? recyclableHeaderSize then
    let m6 := mem_write m5 j (replicate (Z.to_nat (blockSize - j)) 0) in
    let! w' := queueBlock (with_blk w (mkBlk m6 j (flushed b))) in Ok (w', rest)
  else Ok (with_blk w (mkBlk m5 j (flushed b)), rest).

Fixpoint emit_loop (fuel n : nat) (w : LogWriter) (p : bytes) : outcome LogWriter :=
  match fuel with
  | O => Err ErrModelFuel
  | S fuel' =>
      if (n =? 0)%nat || (0 <? len p) then
        let! (w', p') := emitFragment w n p in emit_loop fuel' (S n) w' p'
      else Ok w
  end.

Definition WSize (w : LogWriter) : Z := wblockNum w * blockSize + written (blk w).

(** [SyncRecord] without a waiter, as [WriteRecord] calls it. *)
Definition WriteRecord (w : LogWriter) (p : bytes) : outcome (LogWriter * Z) :=
  let! w' := emit_loop (S (S (length p))) 0 w p in Ok (w', WSize w').

Definition emitEOFTrailer (w : LogWriter) : LogWriter :=
  let b := blk w in
  let i := written b in
  let m1 := mem_write (bmem b) i (le_put 4 0) in
  let m2 := mem_write m1 (i + 4) (le_put 2 0) in
  let m3 := mem_write m2 (i + 6) [recyclableFullChunkType] in
  let m4 := mem_write m3 (i + 7) (le_put 4 (u32 (wlogNum w + 1))) in
  with_blk w (mkBlk m4 (i + recyclableHeaderSize) (flushed b)).

(** [Close]: the trailer, and the last turn of the flush loop. *)
Definition Close (w : LogWriter) : LogWriter := flush_iter (emitEOFTrailer w).
