(* ===== verification/RecordSpec.v ===== *)
(** What the write-ahead log guarantees: the bytes a [LogWriter] produces are
    the chunk encoding of its records whatever the flush loop does in between,
    and a [Reader] gives the records back, also from a file that ends early or
    continues with the remains of an older log. *)

From Stdlib Require Import ZArith Lia.
From stdpp Require Import base numbers option list.
From S2P Require Import Prelude Base Record.

(** ** The encoding *)

Definition chunk (ln ty : Z) (p : bytes) : bytes :=
  le_put 4 (crc_value ([ty] ++ le_put 4 ln ++ p)) ++ le_put 2 (len p) ++ [ty] ++ le_put 4 ln ++ p.

(** The zeros after a chunk that ends at [j] of a block. *)
Definition pad (j : Z) : bytes :=
  if blockSize - j <? recyclableHeaderSize then replicate (Z.to_nat (blockSize - j)) 0 else [].

(** A record written at [i] of a block. *)
Fixpoint enc_frags (fuel : nat) (ln : Z) (first : bool) (i : Z) (p : bytes) : bytes :=
  let room := blockSize - i - recyclableHeaderSize in
  match fuel with
  | O => []
  | S fuel' =>
      if len p <=? room then chunk ln (chunk_type first true) p ++ pad (i + recyclableHeaderSize + len p)
      else chunk ln (chunk_type first false) (take (Z.to_nat room) p) ++ enc_frags fuel' ln false 0 (drop (Z.to_nat room) p)
  end.

Definition enc_record (ln i : Z) (p : bytes) : bytes := enc_frags (S (length p)) ln true i p.

Fixpoint enc_log (ln i : Z) (ps : list bytes) : bytes :=
  match ps with
  | [] => []
  | p :: ps' => let e := enc_record ln i p in e ++ enc_log ln ((i + len e) mod blockSize) ps'
  end.

Definition trailer (ln : Z) : bytes :=
  le_put 4 0 ++ le_put 2 0 ++ [recyclableFullChunkType] ++ le_put 4 (u32 (ln + 1)).

Lemma len_chunk ln ty p : len (chunk ln ty p) = 11 + len p.
Proof. unfold chunk, len. rewrite !length_app, !length_le_put. cbn [length]. lia. Qed.

Lemma blockSize_val : blockSize = 32768.
Proof. done. Qed.

(** ** The writer's stream *)

Section Writer.

(** The bytes written so far: those in the file, in the queued blocks and in
    the current block. *)
Definition unflushed (b : block) : bytes := mem_read (bmem b) (flushed b) (Z.to_nat (blockSize - flushed b)).

Definition stream (w : LogWriter) : bytes :=
  sink w ++ concat (unflushed <$> pending w) ++
  mem_read (bmem (blk w)) (flushed (blk w)) (Z.to_nat (written (blk w) - flushed (blk w))).

Record lw_ok (w : LogWriter) : Prop := mkLwOk {
  lw_block : 0 <= flushed (blk w) <= written (blk w);
  lw_free : Forall (fun b => written b = 0 /\ flushed b = 0) (free w);
  lw_pool : allocated w = 1 + len (free w) + len (pending w);
  lw_log : 0 <= wlogNum w < 4294967296
}.

Definition lw_room (w : LogWriter) : Prop := written (blk w) + recyclableHeaderSize <= blockSize.

Lemma foldl_flushBlock bs w :
  let w' := foldl flushBlock w bs in
  sink w' = sink w ++ concat (unflushed <$> bs) /\ wlogNum w' = wlogNum w /\ wblockNum w' = wblockNum w /\
  blk w' = blk w /\ free w' = free w ++ ((fun b => mkBlk (bmem b) 0 0) <$> bs) /\ allocated w' = allocated w /\
  pending w' = pending w.
Proof.
  cbv zeta. revert w. induction bs as [|b bs IH]; intros w; cbn [foldl fmap list_fmap concat].
  - by rewrite !app_nil_r.
  - destruct (IH (flushBlock w b)) as (-> & -> & -> & -> & -> & -> & ->). cbn [flushBlock sink free wlogNum wblockNum blk allocated pending].
    unfold unflushed at 2. by rewrite <-!app_assoc.
Qed.

(** A turn of the flush loop writes everything and changes nothing. *)
Lemma flush_iter_spec w :
  lw_ok w -> lw_ok (flush_iter w) /\ stream (flush_iter w) = stream w /\ sink (flush_iter w) = stream w /\
    written (blk (flush_iter w)) = written (blk w) /\ wlogNum (flush_iter w) = wlogNum w /\
    wblockNum (flush_iter w) = wblockNum w /\ pending (flush_iter w) = [] /\
    free (flush_iter w) = free w ++ ((fun b => mkBlk (bmem b) 0 0) <$> pending w) /\
    bmem (blk (flush_iter w)) = bmem (blk w).
Proof.
  intros [H1 H2 H3 H4]. unfold flush_iter.
  set (w1 := mkLW _ _ _ _ _ _ []). destruct (foldl_flushBlock (pending w) w1) as (E1 & E2 & E3 & E4 & E5 & E6 & E7).
  cbv zeta in *. unfold stream. cbn [sink wlogNum wblockNum blk free allocated pending].
  rewrite E1, E2, E3, E4, E5, E6, E7. cbn [w1 sink wlogNum wblockNum blk free allocated pending bmem written flushed].
  rewrite Z.sub_diag. cbn [Z.to_nat mem_read fmap list_fmap concat]. rewrite !app_nil_r, <-!app_assoc. split; [|done].
  split; cbn [blk free allocated pending wlogNum flushed written].
  - lia.
  - apply Forall_app. split; [done|]. apply Forall_fmap, Forall_forall. by intros.
  - unfold len in *. rewrite length_app, length_fmap. cbn. lia.
  - done.
Qed.

Lemma take_block_spec w :
  lw_ok w -> lw_ok (take_block w) /\ stream (take_block w) = stream w /\ free (take_block w) <> [] /\
    written (blk (take_block w)) = written (blk w) /\ bmem (blk (take_block w)) = bmem (blk w) /\
    wlogNum (take_block w) = wlogNum w /\ wblockNum (take_block w) = wblockNum w.
Proof.
  intros Hw. unfold take_block. destruct (free w) as [|b bs] eqn:Ef; [|by rewrite Ef].
  destruct (Z.ltb_spec (allocated w) maxBlocks) as [Ha|Ha].
  - destruct Hw as [H1 H2 H3 H4]. split; [|done]. split; cbn; try done.
    + repeat constructor.
    + rewrite Ef in H3. unfold len in *. cbn in *. lia.
  - destruct (flush_iter_spec w Hw) as (F1 & F2 & F3 & F4 & F5 & F6 & F7 & F8 & F9).
    split; [done|]. split; [done|]. split; [|done]. rewrite F8, Ef. cbn. destruct (pending w) eqn:Ep; [|done].
    exfalso. pose proof (lw_pool _ Hw) as H3. rewrite Ef, Ep in H3. unfold maxBlocks, len in *. cbn in *. lia.
Qed.

(** Queueing the full current block adds its unused tail to the stream. *)
Lemma queueBlock_spec w :
  lw_ok w -> written (blk w) <= blockSize ->
  exists w', queueBlock w = Ok w' /\ lw_ok w' /\ written (blk w') = 0 /\ wlogNum w' = wlogNum w /\
    wblockNum w' = wblockNum w + 1 /\
    stream w' = stream w ++ mem_read (bmem (blk w)) (written (blk w)) (Z.to_nat (blockSize - written (blk w))).
Proof.
  intros Hw Hle. destruct (take_block_spec w Hw) as (T1 & T2 & T3 & T4 & T5 & T6 & T7). unfold queueBlock.
  set (t := take_block w) in *. destruct (last (free t)) as [nb|] eqn:El; [|by apply last_None in El].
  apply last_Some in El as [fs Ef]. pose proof T1 as [H1 H2 H3 H4]. rewrite Ef in H2.
  apply Forall_app in H2 as [H2 [[N1 N2] _]%Forall_cons].
  assert (Hrl : removelast (free t) = fs) by (rewrite Ef; apply removelast_last). rewrite Hrl.
  eexists. split; [done|]. split; [|split; [done|split; [done|split; [cbn; congruence|]]]].
  - split; cbn [blk free allocated pending wlogNum].
    + lia.
    + done.
    + rewrite Ef in H3. rewrite !len_app in *. unfold len in *. cbn in *. lia.
    + done.
  - rewrite <-T2. unfold stream. cbn [sink pending blk]. rewrite N1, N2. cbn [Z.sub Z.to_nat mem_read].
    rewrite app_nil_r, fmap_app, concat_app. cbn [fmap list_fmap concat]. rewrite app_nil_r, <-!app_assoc. do 2 f_equal.
    unfold unflushed. rewrite T4 in H1.
    replace (Z.to_nat (blockSize - flushed (blk t))) with
      (Z.to_nat (written (blk t) - flushed (blk t)) + Z.to_nat (blockSize - written (blk w)))%nat by lia.
    rewrite mem_read_app, T4, T5. do 2 f_equal. lia.
Qed.

Lemma le_put_4_len v : len (le_put 4 v) = 4.
Proof. unfold len. by rewrite length_le_put. Qed.
Lemma le_put_2_len v : len (le_put 2 v) = 2.
Proof. unfold len. by rewrite length_le_put. Qed.

(** The five stores of a fragment leave a chunk behind, and nothing else. *)
Lemma fragment_bytes m i ty ln q :
  let m3 := mem_write (mem_write (mem_write m (i + 6) [ty]) (i + 7) (le_put 4 ln)) (i + recyclableHeaderSize) q in
  let j := i + recyclableHeaderSize + len q in
  let m5 := mem_write (mem_write m3 i (le_put 4 (crc_value (mem_read m3 (i + 6) (Z.to_nat (j - (i + 6)))))))
              (i + 4) (le_put 2 (len q)) in
  mem_read m5 i (Z.to_nat (j - i)) = chunk ln ty q /\ (forall o n, o + Z.of_nat n <= i -> mem_read m5 o n = mem_read m o n).
Proof.
  cbv zeta. unfold recyclableHeaderSize, legacyHeaderSize. change (7 + 4) with 11. pose proof (len_nonneg q) as Hq.
  set (m3 := mem_write (mem_write (mem_write m (i + 6) [ty]) (i + 7) (le_put 4 ln)) (i + 11) q).
  assert (E3 : mem_read m3 (i + 6) (1 + (4 + length q)) = [ty] ++ le_put 4 ln ++ q).
  { rewrite (mem_read_app m3 _ 1), (mem_read_app m3 _ 4). unfold m3.
    rewrite mem_read_write_disjoint, mem_read_write_disjoint by lia.
    rewrite (mem_read_write_same _ (i + 6) [ty] : mem_read _ _ 1 = _).
    change (Z.of_nat 1) with 1. change (Z.of_nat 4) with 4. replace (i + 6 + 1) with (i + 7) by lia. replace (i + 7 + 4) with (i + 11) by lia.
    rewrite mem_read_write_disjoint by lia.
    pose proof (mem_read_write_same (mem_write m (i + 6) [ty]) (i + 7) (le_put 4 ln)) as H4. rewrite length_le_put in H4.
    rewrite H4. by rewrite mem_read_write_same. }
  replace (Z.to_nat (i + 11 + len q - (i + 6))) with (1 + (4 + length q))%nat by (unfold len; lia).
  rewrite E3. set (c := crc_value _). set (m5 := mem_write (mem_write m3 i (le_put 4 c)) (i + 4) (le_put 2 (len q))). split.
  - replace (Z.to_nat (i + 11 + len q - i)) with (4 + (2 + (1 + (4 + length q))))%nat by (unfold len; lia).
    rewrite (mem_read_app m5 _ 4), (mem_read_app m5 _ 2). unfold chunk. fold c. change (Z.of_nat 4) with 4. change (Z.of_nat 2) with 2.
    replace (i + 4 + 2) with (i + 6) by lia. unfold m5.
    rewrite (mem_read_write_disjoint _ (i + 4) _ i) by lia.
    pose proof (mem_read_write_same m3 i (le_put 4 c)) as H4. rewrite length_le_put in H4. rewrite H4.
    pose proof (mem_read_write_same (mem_write m3 i (le_put 4 c)) (i + 4) (le_put 2 (len q))) as H2. rewrite length_le_put in H2. rewrite H2.
    rewrite mem_read_write_disjoint by (rewrite le_put_2_len; lia).
    rewrite mem_read_write_disjoint by (rewrite le_put_4_len; lia). by rewrite E3.
  - intros o n Ho. unfold m5, m3. rewrite !mem_read_write_disjoint by lia. done.
Qed.

(** A record short enough for its length to be an [int32]. *)
Definition short (p : bytes) : Prop := len p < 2147483648.

(** One fragment: a chunk with as much of the record as fits, and padding. *)
Lemma emitFragment_spec w n p :
  lw_ok w -> lw_room w -> short p ->
  let i := written (blk w) in
  let room := blockSize - i - recyclableHeaderSize in
  let q := take (Z.to_nat room) p in
  exists w', emitFragment w n p = Ok (w', drop (length q) p) /\ lw_ok w' /\ lw_room w' /\ wlogNum w' = wlogNum w /\
    stream w' = stream w ++ chunk (wlogNum w) (chunk_type (n =? 0)%nat (len p <=? room)) q ++ pad (i + recyclableHeaderSize + len q) /\
    WSize w' = WSize w + recyclableHeaderSize + len q + len (pad (i + recyclableHeaderSize + len q)) /\
    written (blk w') = (i + recyclableHeaderSize + len q + len (pad (i + recyclableHeaderSize + len q))) mod blockSize.
Proof.
  intros Hw Hr Hsh i room q. unfold lw_room in Hr. pose proof Hw as [H1 H2 H3 H4].
  assert (Hq : 0 <= len q <= room).
  { split; [apply len_nonneg|]. unfold q, len. rewrite length_take. unfold room, i, recyclableHeaderSize, legacyHeaderSize in *. lia. }
  unfold emitFragment. rewrite (i32_small (len p)) by (split; [apply len_nonneg|exact Hsh]). fold i. cbv zeta. fold room q.
  set (ty := chunk_type (n =? 0)%nat (len p <=? room)).
  destruct (fragment_bytes (bmem (blk w)) i ty (wlogNum w) q) as [B1 B2]. cbv zeta in B1, B2.
  set (m5 := mem_write (mem_write _ i _) (i + 4) _) in *. set (j := i + recyclableHeaderSize + len q) in *.
  assert (Hj : i < j /\ j <= blockSize).
  { unfold j, room, recyclableHeaderSize, legacyHeaderSize in *. lia. }
  assert (Hs : forall m, (forall o k, o + Z.of_nat k <= j -> mem_read m o k = mem_read m5 o k) ->
    stream (with_blk w (mkBlk m j (flushed (blk w)))) = stream w ++ chunk (wlogNum w) ty q).
  { intros m Hm. unfold stream. cbn [with_blk sink pending blk bmem flushed written]. rewrite <-!app_assoc. do 2 f_equal.
    replace (Z.to_nat (j - flushed (blk w))) with (Z.to_nat (i - flushed (blk w)) + Z.to_nat (j - i))%nat by lia.
    rewrite mem_read_app. fold i in H1. rewrite !Hm by lia. f_equal.
    - apply B2. lia.
    - rewrite <-B1. f_equal. lia. }
  assert (Hok : forall m, lw_ok (with_blk w (mkBlk m j (flushed (blk w))))).
  { intros m. split; cbn [with_blk blk free allocated pending wlogNum flushed written]; try done. lia. }
  unfold pad. fold j. destruct (Z.ltb_spec (blockSize - j) recyclableHeaderSize) as [Hp|Hp].
  - set (m6 := mem_write m5 j (replicate (Z.to_nat (blockSize - j)) 0)).
    destruct (queueBlock_spec (with_blk w (mkBlk m6 j (flushed (blk w)))) (Hok m6)) as (w' & -> & Q1 & Q2 & Q3 & Q4 & Q5);
      [cbn; lia|]. cbn [rbind]. exists w'. split; [done|]. split; [done|]. split; [unfold lw_room; rewrite Q2; by vm_compute|].
    cbn [with_blk wlogNum wblockNum blk bmem written] in *. split; [done|].
    assert (Hl : len (replicate (Z.to_nat (blockSize - j)) 0) = blockSize - j).
    { unfold len. rewrite length_replicate. lia. }
    split; [|split].
    + rewrite Q5, (Hs m6). 2: { intros o k Hk. unfold m6. apply mem_read_write_disjoint. lia. }
      rewrite <-app_assoc. do 2 f_equal. unfold m6.
      pose proof (mem_read_write_same m5 j (replicate (Z.to_nat (blockSize - j)) 0)) as Hm. by rewrite length_replicate in Hm.
    + unfold WSize. rewrite Q2, Q4, Hl. fold i. lia.
    + rewrite Q2, Hl. replace (j + (blockSize - j)) with blockSize by lia. done.
  - exists (with_blk w (mkBlk m5 j (flushed (blk w)))). split; [done|]. split; [apply Hok|].
    split; [unfold lw_room; cbn; lia|]. split; [done|]. rewrite app_nil_r, len_nil, Z.add_0_r. split; [by apply Hs|].
    split; [unfold WSize; cbn [with_blk wblockNum blk written]; fold i; lia|].
    cbn [with_blk blk written]. rewrite Z.add_0_r, Z.mod_small; [done|]. unfold recyclableHeaderSize, legacyHeaderSize in *. lia.
Qed.

Lemma pad_full : pad blockSize = [].
Proof. done. Qed.

(** The fragments of a record, from the [n]-th on. *)
Lemma emit_loop_spec fuel n w p :
  lw_ok w -> lw_room w -> short p -> (n = 0%nat \/ p <> []) ->
  (length p + (if (n =? 0)%nat then 2 else 1) <= fuel)%nat -> ((0 < n)%nat -> written (blk w) = 0) ->
  exists w', emit_loop fuel n w p = Ok w' /\ lw_ok w' /\ lw_room w' /\ wlogNum w' = wlogNum w /\
    stream w' = stream w ++ enc_frags (pred fuel) (wlogNum w) (n =? 0)%nat (written (blk w)) p /\
    WSize w' = WSize w + len (enc_frags (pred fuel) (wlogNum w) (n =? 0)%nat (written (blk w)) p) /\
    written (blk w') = (written (blk w) + len (enc_frags (pred fuel) (wlogNum w) (n =? 0)%nat (written (blk w)) p)) mod blockSize.
Proof.
  revert n w p. induction fuel as [|fuel IH]; intros n w p Hw Hr Hsh Hp Hf Hn; [destruct (n =? 0)%nat; lia|].
  cbn [emit_loop Nat.pred].
  assert (((n =? 0)%nat || (0 <? len p)) = true) as ->.
  { destruct Hp as [->|Hp]; [done|]. apply orb_true_intro. right. apply Z.ltb_lt. destruct p; [done|]. rewrite len_cons. pose proof (len_nonneg p). lia. }
  destruct (emitFragment_spec w n p Hw Hr Hsh) as (w1 & -> & W1 & W2 & W3 & W4 & W5 & W6). cbn [rbind]. cbv zeta in *.
  set (i := written (blk w)) in *. set (room := blockSize - i - recyclableHeaderSize) in *.
  set (q := take (Z.to_nat room) p) in *.
  destruct fuel as [|fuel].
  { destruct Hp as [->|Hp]; [cbn in Hf; lia|]. destruct p; [done|]. cbn in Hf. destruct (n =? 0)%nat; lia. }
  cbn [enc_frags]. fold room. fold q.
  assert (Hroom : 0 <= room) by (unfold lw_room in Hr; unfold room; fold i in Hr; lia).
  destruct (Z.leb_spec (len p) room) as [Hle|Hgt].
  - assert (Eq : q = p) by (unfold q; apply take_ge; unfold len in Hle; lia). rewrite Eq in *.
    rewrite drop_ge by lia. cbn [emit_loop]. cbn [Nat.eqb orb]. change (0 <? len []) with false. cbn iota.
    exists w1. split; [done|]. split; [done|]. split; [done|]. split; [done|]. split; [done|].
    rewrite len_app, len_chunk. unfold recyclableHeaderSize, legacyHeaderSize in *. split; [lia|].
    rewrite W6. f_equal. lia.
  - assert (Lq : len q = room) by (unfold q, len in *; rewrite length_take; lia).
    assert (Ej : i + recyclableHeaderSize + len q = blockSize) by (unfold room in *; lia).
    rewrite Ej, pad_full in *. rewrite app_nil_r in W4. rewrite len_nil in *.
    assert (Ed : drop (length q) p = drop (Z.to_nat room) p) by (f_equal; unfold len in Lq; lia). rewrite Ed.
    assert (Hz : written (blk w1) = 0) by (rewrite W6; done).
    assert (Hlen : (length (drop (Z.to_nat room) p) + Z.to_nat room = length p)%nat).
    { rewrite length_drop. unfold len in Hgt. lia. }
    assert (Hpos : (0 < Z.to_nat room)%nat \/ n = 0%nat).
    { destruct n; [by right|left]. assert (i = 0) by (apply Hn; lia).
      unfold room, blockSize, recyclableHeaderSize, legacyHeaderSize in *. lia. }
    destruct (IH (S n) w1 (drop (Z.to_nat room) p)) as (w' & -> & I1 & I2 & I3 & I4 & I5 & I6); try done.
    + unfold short, len in *. lia.
    + right. intros E. rewrite E in Hlen. unfold len in Hgt. cbn in Hlen. lia.
    + cbn [Nat.eqb]. destruct (Nat.eqb_spec n 0); lia.
    + exists w'. cbn [Nat.eqb Nat.pred] in I4, I5, I6. rewrite Hz, W3 in *. split; [done|]. split; [done|]. split; [done|]. split; [congruence|].
      rewrite len_app, len_chunk, Lq. split; [by rewrite I4, W4, <-app_assoc|].
      unfold recyclableHeaderSize, legacyHeaderSize in *. split; [lia|].
      rewrite I6. set (e := len (enc_frags _ _ _ _ _)). replace (i + (11 + room + e)) with (0 + e + 1 * blockSize) by lia.
      by rewrite Z.mod_add by done.
Qed.

Lemma WriteRecord_spec w p :
  lw_ok w -> lw_room w -> short p ->
  exists w', WriteRecord w p = Ok (w', WSize w') /\ lw_ok w' /\ lw_room w' /\ wlogNum w' = wlogNum w /\
    stream w' = stream w ++ enc_record (wlogNum w) (written (blk w)) p /\
    WSize w' = WSize w + len (enc_record (wlogNum w) (written (blk w)) p) /\
    written (blk w') = (written (blk w) + len (enc_record (wlogNum w) (written (blk w)) p)) mod blockSize.
Proof.
  intros Hw Hr Hsh. unfold WriteRecord, enc_record.
  destruct (emit_loop_spec (S (S (length p))) 0 w p) as (w' & -> & H); try done; [by left|cbn; lia|lia|].
  cbn [rbind]. exists w'. done.
Qed.

(** A writer's life: records and turns of the flush loop in any order. *)
Inductive wop : Type := WRec (p : bytes) | WFlush.

Fixpoint write_all (w : LogWriter) (os : list wop) : outcome LogWriter :=
  match os with
  | [] => Ok w
  | WFlush :: os' => write_all (flush_iter w) os'
  | WRec p :: os' => let! (w', _) := WriteRecord w p in write_all w' os'
  end.

Definition recs (os : list wop) : list bytes := omap (fun o => match o with WRec p => Some p | WFlush => None end) os.

Lemma write_all_spec os w :
  lw_ok w -> lw_room w -> Forall short (recs os) ->
  exists w', write_all w os = Ok w' /\ lw_ok w' /\ lw_room w' /\ wlogNum w' = wlogNum w /\
    stream w' = stream w ++ enc_log (wlogNum w) (written (blk w)) (recs os) /\
    WSize w' = WSize w + len (enc_log (wlogNum w) (written (blk w)) (recs os)).
Proof.
  revert w. induction os as [|[p|] os IH]; intros w Hw Hr Hsh; cbn [write_all].
  - exists w. cbn. rewrite app_nil_r, Z.add_0_r. done.
  - destruct (WriteRecord_spec w p Hw Hr (Forall_inv Hsh)) as (w1 & -> & W1 & W2 & W3 & W4 & W5 & W6). cbn [rbind].
    destruct (IH w1 W1 W2 (Forall_inv_tail Hsh)) as (w' & -> & I1 & I2 & I3 & I4 & I5). exists w'. cbn [recs omap list_omap enc_log]. fold (recs os).
    rewrite W3, W6 in *. split; [done|]. split; [done|]. split; [done|]. split; [congruence|].
    rewrite len_app. split; [by rewrite I4, W4, <-app_assoc|lia].
  - destruct (flush_iter_spec w Hw) as (F1 & F2 & F3 & F4 & F5 & F6 & _).
    destruct (IH (flush_iter w) F1) as (w' & -> & I1 & I2 & I3 & I4 & I5); [unfold lw_room in *; by rewrite F4|exact Hsh|].
    exists w'. cbn [recs omap list_omap]. fold (recs os). rewrite F2, F4, F5 in *. split; [done|]. split; [done|].
    split; [done|]. split; [done|]. split; [done|]. rewrite I5. unfold WSize. by rewrite F4, F6.
Qed.

Lemma Close_spec w :
  lw_ok w -> lw_room w -> sink (Close w) = stream w ++ trailer (wlogNum w).
Proof.
  intros [H1 H2 H3 H4] Hr. unfold Close. set (t := emitEOFTrailer w).
  assert (Hok : lw_ok t).
  { split; cbn; try done. unfold recyclableHeaderSize, legacyHeaderSize. lia. }
  destruct (flush_iter_spec t Hok) as (_ & _ & -> & _). unfold stream, t, emitEOFTrailer.
  cbn [with_blk sink pending blk bmem flushed written]. rewrite <-!app_assoc. do 2 f_equal.
  set (i := written (blk w)) in *.
  replace (Z.to_nat (i + recyclableHeaderSize - flushed (blk w))) with
    (Z.to_nat (i - flushed (blk w)) + (4 + (2 + (1 + 4))))%nat by (unfold recyclableHeaderSize, legacyHeaderSize; lia).
  rewrite !mem_read_app. unfold trailer. change (Z.of_nat 4) with 4. change (Z.of_nat 2) with 2. change (Z.of_nat 1) with 1.
  replace (flushed (blk w) + Z.of_nat (Z.to_nat (i - flushed (blk w)))) with i by lia.
  replace (i + 4 + 2) with (i + 6) by lia. replace (i + 6 + 1) with (i + 7) by lia.
  set (m1 := mem_write (bmem (blk w)) i (le_put 4 0)). set (m2 := mem_write m1 (i + 4) (le_put 2 0)).
  set (m3 := mem_write m2 (i + 6) [recyclableFullChunkType]). set (ln := u32 (wlogNum w + 1)).
  pose proof (mem_read_write_same (bmem (blk w)) i (le_put 4 0)) as E1. pose proof (mem_read_write_same m1 (i + 4) (le_put 2 0)) as E2.
  pose proof (mem_read_write_same m2 (i + 6) [recyclableFullChunkType]) as E3. pose proof (mem_read_write_same m3 (i + 7) (le_put 4 ln)) as E4.
  rewrite length_le_put in *. cbn [length] in E3. rewrite E4.
  rewrite !(mem_read_write_disjoint m3 (i + 7)) by (rewrite ?le_put_4_len; lia). fold m3 in E3. rewrite E3. unfold m3.
  rewrite !(mem_read_write_disjoint m2 (i + 6)) by lia. fold m2 in E2. rewrite E2. unfold m2.
  rewrite !(mem_read_write_disjoint m1 (i + 4)) by lia. fold m1 in E1. rewrite E1. unfold m1.
  rewrite mem_read_write_disjoint by lia. done.
Qed.
End Writer.

(** ** The reader *)

Section ReaderProps.
Context (ln : Z) (Hln : 0 <= ln < 4294967296).

(** [D] is what is left of the block in the reader's buffer. *)
Definition view (r : Reader) (D : bytes) : Prop :=
  0 <= end_ r <= len (buf r) /\ drop (Z.to_nat (end_ r)) (buf r) = D.

Definition steady (r : Reader) : Prop := recovering r = false /\ rerr r = None /\ logNum r = ln.

Lemma bytes_at_view r D a b :
  view r D -> 0 <= a -> bytes_at r (end_ r + a) (end_ r + b) = take (Z.to_nat (b - a)) (drop (Z.to_nat a) D).
Proof.
  intros [Hr <-] Ha. unfold bytes_at. rewrite drop_drop. f_equal; [f_equal; lia|]. f_equal. lia.
Qed.

Lemma len_view r D : view r D -> len (buf r) = end_ r + len D.
Proof. intros [Hr <-]. unfold len in *. rewrite length_drop. lia. Qed.

Lemma pieces_at {A} (l1 l2 l3 : list A) n k : n = length l1 -> k = length l2 -> take k (drop n (l1 ++ l2 ++ l3)) = l2.
Proof. intros -> ->. by rewrite drop_app_length, take_app_length. Qed.

Definition chunk_ty (ty : Z) : Prop := 5 <= ty <= 8.

Lemma chunk_header ty p X :
  chunk_ty ty -> len p < 65536 ->
  let D := chunk ln ty p ++ X in
  le_get (take (Z.to_nat (4 - 0)) (drop (Z.to_nat 0) D)) = crc_value ([ty] ++ le_put 4 ln ++ p) /\
  le_get (take (Z.to_nat (6 - 4)) (drop (Z.to_nat 4) D)) = len p /\
  le_get (take (Z.to_nat (7 - 6)) (drop (Z.to_nat 6) D)) = ty /\
  le_get (take (Z.to_nat (11 - 7)) (drop (Z.to_nat 7) D)) = ln /\
  take (Z.to_nat (11 + len p - 6)) (drop (Z.to_nat 6) D) = [ty] ++ le_put 4 ln ++ p /\
  take (Z.to_nat (11 + len p - 11)) (drop (Z.to_nat 11) D) = p.
Proof.
  intros Hty Hp. cbv zeta. unfold chunk. set (c := crc_value _). pose proof (len_nonneg p) as H0.
  rewrite <-!app_assoc. unfold chunk_ty in Hty.
  assert (Hc : 0 <= c < 4294967296) by apply u32_range.
  split; [|split; [|split; [|split; [|split]]]].
  - change (Z.to_nat 0) with 0%nat. rewrite drop_0, take_app_length' by (by rewrite length_le_put). rewrite le_get_put_u32. by apply u32_small.
  - rewrite (pieces_at (le_put 4 c) (le_put 2 (len p))) by (by rewrite length_le_put). rewrite le_get_put_u16. by apply u16_small.
  - rewrite (app_assoc (le_put 4 c)). rewrite (pieces_at _ [ty]) by (rewrite ?length_app, ?length_le_put; done).
    change (le_get [ty]) with (Z.lor ty (Z.shiftl 0 8)). by rewrite Z.lor_0_r.
  - rewrite (app_assoc (le_put 4 c)), (app_assoc _ [ty]).
    rewrite (pieces_at _ (le_put 4 ln)) by (rewrite ?length_app, ?length_le_put; done).
    rewrite le_get_put_u32. by apply u32_small.
  - rewrite (app_assoc (le_put 4 c)). change ([ty] ++ le_put 4 ln ++ p ++ X) with (([ty] ++ le_put 4 ln) ++ p ++ X).
    rewrite (app_assoc ([ty] ++ le_put 4 ln) p X). rewrite (pieces_at _ (([ty] ++ le_put 4 ln) ++ p)); [by rewrite <-app_assoc|..].
    + by rewrite !length_app, !length_le_put.
    + rewrite !length_app, length_le_put. cbn [length]. unfold len. lia.
  - rewrite (app_assoc (le_put 4 c)), (app_assoc _ [ty]), (app_assoc _ (le_put 4 ln)).
    rewrite (pieces_at _ p); [done|..].
    + by rewrite !length_app, !length_le_put.
    + unfold len. lia.
Qed.

(** The reader after a chunk: the same block, past the chunk. *)
Definition past (r : Reader) (ty : Z) (p : bytes) : Reader :=
  mkReader (input r) (logNum r) (blockNum r) (rseq r) (end_ r + 11) (end_ r + 11 + len p) false
    ((ty =? 5) || (ty =? 8)) (rerr r) (buf r).

(** A chunk that is in the buffer is found. *)
Lemma nextChunk_here fuel wf r ty p X :
  steady r -> view r (chunk ln ty p ++ X) -> chunk_ty ty -> len p < 65536 ->
  (wf = true -> ty = 5 \/ ty = 6) ->
  nextChunk (S fuel) wf r = Ok (past r ty p, None).
Proof.
  intros (S1 & S2 & S3) Hv Hty Hp Hwf. cbn [nextChunk].
  pose proof (len_view _ _ Hv) as Hn. rewrite len_app, len_chunk in Hn.
  pose proof (len_nonneg p). pose proof (len_nonneg X). unfold chunk_ty in Hty.
  destruct (chunk_header ty p X Hty Hp) as (C1 & C2 & C3 & C4 & C5 & C6). cbv zeta in C1, C2, C3, C4, C5, C6.
  set (D := chunk ln ty p ++ X) in *.
  assert (E1 : bytes_at r (end_ r) (end_ r + 4) = take (Z.to_nat (4 - 0)) (drop (Z.to_nat 0) D)).
  { rewrite <-(bytes_at_view r D 0 4 Hv) by lia. f_equal. lia. }
  rewrite E1, C1, (bytes_at_view r D 4 6 Hv), C2, (bytes_at_view r D 6 7 Hv), C3 by lia.
  rewrite (proj2 (Z.eqb_neq ty 0)), andb_false_r by lia. unfold legacyHeaderSize, recyclableFullChunkType, recyclableLastChunkType.
  rewrite (proj2 (Z.leb_le (end_ r + 7) _)) by lia.
  rewrite (proj2 (Z.leb_le 5 ty)), (proj2 (Z.leb_le ty 8)) by lia. cbn [andb].
  change recyclableHeaderSize with 11. rewrite (proj2 (Z.ltb_ge _ (end_ r + 11))) by lia.
  rewrite (bytes_at_view r D 7 11 Hv), C4, S3, Z.eqb_refl by lia. cbn [negb].
  cbn [set_range end_ begin_ recovering input logNum blockNum rseq last_ rerr buf].
  rewrite (proj2 (Z.ltb_ge _ (end_ r + 11 + len p))) by lia.
  assert (E5 : bytes_at (set_range r (end_ r + 11) (end_ r + 11 + len p)) (end_ r + 11 - 11 + 6) (end_ r + 11 + len p) = [ty] ++ le_put 4 ln ++ p).
  { rewrite <-C5. change (bytes_at (set_range r (end_ r + 11) (end_ r + 11 + len p))) with (bytes_at r).
    replace (end_ r + 11 - 11 + 6) with (end_ r + 6) by lia. replace (end_ r + 11 + len p) with (end_ r + (11 + len p)) by lia.
    apply bytes_at_view; [done|lia]. }
  rewrite E5, Z.eqb_refl. cbn [negb]. unfold fullChunkType, firstChunkType, lastChunkType.
  assert (Hf : (wf && negb (ty - (5 - 1) =? 1) && negb (ty - (5 - 1) =? 2)) = false).
  { destruct wf; [|done]. destruct (Hwf eq_refl) as [->| ->]; done. }
  rewrite Hf. unfold past. do 3 f_equal. destruct (Z.eqb_spec ty 5), (Z.eqb_spec ty 8), (Z.eqb_spec (ty - (5 - 1)) 1), (Z.eqb_spec (ty - (5 - 1)) 4); lia || done.
Qed.

(** An error that ends a replay; the end of the file is only reported between
    records. *)
Definition stops (wf : bool) (e : error) : Prop := IsInvalidRecord e = true \/ wf = true /\ e = ErrEOF.

Lemma stops_cases wf (b : bool) : stops wf (if negb wf || b then ErrInvalidChunk else ErrEOF).
Proof. destruct wf, b; (by left) || (by right). Qed.

(** The size of the chunk that [D], the rest of a block, starts with, if the
    reader accepts one there: a whole header, of this log if the type carries a
    log number, all the bytes, and the right checksum. *)
Definition slice (D : bytes) (a b : Z) : bytes := take (Z.to_nat (b - a)) (drop (Z.to_nat a) D).

Definition accepts (D : bytes) : option Z :=
  let checksum := le_get (slice D 0 4) in
  let length := le_get (slice D 4 6) in
  let chunkType := le_get (slice D 6 7) in
  let recyclable := (5 <=? chunkType) && (chunkType <=? 8) in
  let h := if recyclable then 11 else 7 in
  if (7 <=? len D) && negb ((checksum =? 0) && (length =? 0) && (chunkType =? 0)) &&
     negb (recyclable && ((len D <? 11) || negb (le_get (slice D 7 11) =? ln))) &&
     (h + length <=? len D) && (checksum =? crc_value (slice D 6 (h + length)))
  then Some (h + length) else None.

(** Without a chunk at its position the reader fails, unless it stands at the
    zeroed end of a block. *)
Lemma nextChunk_none wf r D :
  steady r -> view r D -> accepts D = None -> 7 <= len D ->
  (len D < 11 /\ forall fuel, nextChunk (S fuel) wf r = nextChunk fuel wf (set_range r (begin_ r) (len (buf r)))) \/
  exists r' e, (forall fuel, nextChunk (S fuel) wf r = Ok (r', Some e)) /\ stops wf e.
Proof.
  intros (S1 & S2 & S3) Hv Ha H7. pose proof (len_view _ _ Hv) as Hn. unfold accepts in Ha. cbv zeta in Ha.
  assert (E1 : bytes_at r (end_ r) (end_ r + 4) = slice D 0 4).
  { unfold slice. rewrite <-(bytes_at_view r D 0 4 Hv) by lia. f_equal. lia. }
  pose proof (bytes_at_view r D 4 6 Hv ltac:(lia)) as E2. pose proof (bytes_at_view r D 6 7 Hv ltac:(lia)) as E3.
  pose proof (bytes_at_view r D 7 11 Hv ltac:(lia)) as E4. fold (slice D 4 6) in E2. fold (slice D 6 7) in E3. fold (slice D 7 11) in E4.
  cbn [nextChunk]. rewrite E1, E2, E3, E4, S3. change legacyHeaderSize with 7. change recyclableHeaderSize with 11.
  change recyclableFullChunkType with 5. change recyclableLastChunkType with 8.
  rewrite (proj2 (Z.leb_le (end_ r + 7) _)) by lia. rewrite (proj2 (Z.leb_le 7 _)) in Ha by lia. cbn [andb] in Ha.
  set (ck := le_get (slice D 0 4)) in *. set (l := le_get (slice D 4 6)) in *. set (ty := le_get (slice D 6 7)) in *.
  destruct ((ck =? 0) && (l =? 0) && (ty =? 0)); cbn [negb andb] in Ha.
  { destruct (Z.ltb_spec (len (buf r)) (end_ r + 11)); [left; split; [lia|done]|]. rewrite S1. right. eexists _, _. split; [done|by left]. }
  right. set (rc := (5 <=? ty) && (ty <=? 8)) in *. set (h := if rc then 11 else 7) in *.
  assert (Hlt : (len (buf r) <? end_ r + h) = (len D <? h)) by (destruct (Z.ltb_spec (len (buf r)) (end_ r + h)), (Z.ltb_spec (len D) h); lia || done).
  assert (Hck : bytes_at (set_range r (end_ r + h) (end_ r + h + l)) (end_ r + h - h + 6) (end_ r + h + l) = slice D 6 (h + l)).
  { change (bytes_at (set_range r (end_ r + h) (end_ r + h + l))) with (bytes_at r). unfold slice. rewrite <-(bytes_at_view r D 6 (h + l) Hv) by lia. f_equal; lia. }
  assert (Hend : (len (buf r) <? end_ r + h + l) = negb (h + l <=? len D)).
  { destruct (Z.ltb_spec (len (buf r)) (end_ r + h + l)), (Z.leb_spec (h + l) (len D)); lia || done. }
  cbn [set_range end_ begin_ recovering]. rewrite Hlt, Hck, Hend, S1.
  assert (Hrc : negb (rc && ((len D <? 11) || negb (le_get (slice D 7 11) =? ln))) = false \/
    (h + l <=? len D) && (ck =? crc_value (slice D 6 (h + l))) = false).
  { destruct (negb (rc && _)), (h + l <=? len D), (ck =? _); auto. done. }
  destruct Hrc as [Hrc|Hbad].
  - apply negb_false_iff, andb_true_iff in Hrc as [Hrc Ho]. assert (h = 11) as -> by (unfold h; by rewrite Hrc). rewrite Hrc. cbn [andb].
    destruct (len D <? 11); [eexists _, _; split; [done|by left]|]. cbn [orb] in Ho. rewrite Ho.
    exists r, (if wf then ErrEOF else ErrInvalidChunk). split; [done|]. destruct wf; [by right|by left].
  - destruct (rc && (len D <? h)); [eexists _, _; split; [done|by left]|].
    destruct (rc && negb (le_get (slice D 7 11) =? ln)).
    { exists r, (if wf then ErrEOF else ErrInvalidChunk). split; [done|]. destruct wf; [by right|by left]. }
    destruct (h + l <=? len D); cbn [negb andb] in Hbad |- *; [|eexists _, _; split; [done|by left]].
    rewrite Hbad. cbn [negb]. eexists _, _. split; [done|by left].
Qed.

(** *** Positions in a file *)

(** The reader stands at [o] of the file [F]: before the first block, or past
    the start of the block in its buffer. *)
Definition in_block (F : bytes) (b o : Z) (r : Reader) : Prop :=
  0 <= b /\ blockNum r = b /\ buf r = take (Z.to_nat blockSize) (drop (Z.to_nat (b * blockSize)) F) /\
  input r = drop (Z.to_nat ((b + 1) * blockSize)) F /\ end_ r = o - b * blockSize /\ 0 <= end_ r <= len (buf r).

Definition phys (F : bytes) (o : Z) (r : Reader) : Prop :=
  steady r /\
  ((blockNum r = -1 /\ buf r = [] /\ end_ r = 0 /\ input r = F /\ o = 0) \/
   (exists b, in_block F b o r /\ 0 < end_ r)).

(** The same, up to padding the reader has not skipped yet. *)
Definition at_ (F : bytes) (o : Z) (r : Reader) : Prop :=
  exists k, 0 <= k < 11 /\ (0 < k -> o mod blockSize = 0) /\ phys F (o - k) r /\ 0 <= o /\
    take (Z.to_nat k) (drop (Z.to_nat (o - k)) F) = replicate (Z.to_nat k) 0.

Lemma phys_at F o r : 0 <= o -> phys F o r -> at_ F o r.
Proof. intros Ho Hp. exists 0. rewrite Z.sub_0_r. split; [lia|]. split; [lia|]. by split. Qed.

Lemma in_block_view F b o r :
  in_block F b o r -> view r (take (Z.to_nat ((b + 1) * blockSize - o)) (drop (Z.to_nat o) F)).
Proof.
  intros (Hb & _ & Eb & _ & Ee & He). split; [done|]. rewrite Eb, skipn_firstn_comm, drop_drop.
  pose proof blockSize_val as HBS. f_equal; [lia|]. f_equal. lia.
Qed.

Lemma len_block {A} (F : list A) n m : 0 <= n -> 0 <= m ->
  len (take (Z.to_nat n) (drop (Z.to_nat m) F)) = Z.min n (Z.max 0 (len F - m)).
Proof. intros. unfold len. rewrite length_take, length_drop. lia. Qed.

Lemma len_take_le {A} (l : list A) n : 0 <= n <= len l -> len (take (Z.to_nat n) l) = n.
Proof. unfold len. rewrite length_take. lia. Qed.

Lemma block_pos : 0 < blockSize.
Proof. done. Qed.

Lemma phys_bounds F o r : phys F o r -> 0 <= o <= len F.
Proof.
  intros [_ [(_ & _ & _ & _ & ->)|(b & (Hb & _ & Eb & _ & Ee & He) & Hpos)]]; [pose proof (len_nonneg F); lia|].
  pose proof block_pos. rewrite Eb, len_block in He by nia. lia.
Qed.

(** The next block, when it has any bytes. *)
Definition load (r : Reader) : Reader :=
  mkReader (drop (Z.to_nat blockSize) (input r)) (logNum r) (blockNum r + 1) (rseq r) 0 0
    (recovering r) (last_ r) (rerr r) (take (Z.to_nat blockSize) (input r)).

(** The end of a block: what is left is too short for a header. *)
Lemma nextChunk_load fuel wf r :
  len (buf r) < end_ r + 7 -> (len (buf r) = blockSize \/ blockNum r = -1) ->
  nextChunk (S fuel) wf r =
  if decide (input r = []) then Ok (r, Some (if wf then ErrEOF else ErrUnexpectedEOF)) else nextChunk fuel wf (load r).
Proof.
  intros Hn Hfull. cbn [nextChunk]. unfold legacyHeaderSize. rewrite (proj2 (Z.leb_gt (end_ r + 7) _)) by lia.
  assert (((len (buf r) <? blockSize) && (0 <=? blockNum r)) = false) as ->.
  { destruct Hfull as [->| ->]; [by rewrite Z.ltb_irrefl|by rewrite andb_false_r]. }
  destruct (input r) eqn:E; [done|]. rewrite decide_False by done. unfold load. by rewrite E.
Qed.

(** Zeros of a padding are skipped. *)
Lemma nextChunk_zeros fuel wf r k :
  view r (replicate (Z.to_nat k) 0) -> 7 <= k < 11 ->
  nextChunk (S fuel) wf r = nextChunk fuel wf (set_range r (begin_ r) (len (buf r))).
Proof.
  intros Hv Hk. pose proof (len_view _ _ Hv) as Hn. unfold len at 2 in Hn. rewrite length_replicate in Hn.
  cbn [nextChunk]. unfold legacyHeaderSize. rewrite (proj2 (Z.leb_le (end_ r + 7) _)) by lia.
  assert (Hz : forall a b, 0 <= a -> le_get (bytes_at r (end_ r + a) (end_ r + b)) = 0).
  { intros a b Ha. rewrite (bytes_at_view r _ a b Hv Ha), drop_replicate, take_replicate.
    generalize ((Z.to_nat (b - a) `min` (Z.to_nat k - Z.to_nat a))%nat). intros n. induction n as [|n IH]; [done|].
    change (le_get (replicate (S n) 0)) with (Z.lor 0 (Z.shiftl (le_get (replicate n 0)) 8)). by rewrite IH. }
  replace (bytes_at r (end_ r) (end_ r + 4)) with (bytes_at r (end_ r + 0) (end_ r + 4)) by (f_equal; lia).
  rewrite !Hz by lia. cbn [Z.eqb andb]. change recyclableHeaderSize with 11.
  by rewrite (proj2 (Z.ltb_lt (len (buf r)) _)) by lia.
Qed.

(** Getting to the bytes at [o]: at most two turns of the loop skip a padding
    and load the block. *)
Lemma arrive F o r :
  at_ F o r -> o mod blockSize + 11 <= blockSize -> drop (Z.to_nat o) F <> [] ->
  exists c r1, (c <= 2)%nat /\ (forall fuel wf, nextChunk (c + fuel) wf r = nextChunk fuel wf r1) /\
    steady r1 /\ in_block F (o / blockSize) o r1 /\ rseq r1 = rseq r.
Proof.
  intros (k & Hk & Hk0 & Hp & Ho & Hz) Hroom Hne. pose proof (Z.div_mod o blockSize ltac:(done)) as Hdm.
  pose proof (Z.mod_pos_bound o blockSize ltac:(done)) as Hm.
  assert (Hlen : o < len F).
  { unfold len. destruct (decide (Z.to_nat o < length F)%nat); [lia|]. by rewrite drop_ge in Hne by lia. }
  (* a reader before the block of [o] *)
  assert (Hload : forall r', steady r' -> o mod blockSize = 0 -> rseq r' = rseq r ->
    (end_ r' = len (buf r') \/ len (buf r') < end_ r' + 7) -> (len (buf r') = blockSize \/ blockNum r' = -1) ->
    blockNum r' = o / blockSize - 1 -> input r' = drop (Z.to_nat o) F ->
    exists r1, (forall fuel wf, nextChunk (S fuel) wf r' = nextChunk fuel wf r1) /\ steady r1 /\ in_block F (o / blockSize) o r1 /\ rseq r1 = rseq r).
  { intros r' Hs Hm0 Hq Hend Hfull Hbn Hin. exists (load r'). split; [|split; [done|split; [|done]]].
    - intros fuel wf. rewrite nextChunk_load; [|lia|done]. rewrite decide_False by (by rewrite Hin). done.
    - unfold load. assert (Eo : o / blockSize * blockSize = o) by lia.
      split; [apply Z.div_pos; [lia|done]|]. cbn [blockNum buf input end_]. rewrite Hbn, Hin. split; [lia|].
      rewrite Eo. split; [done|]. rewrite drop_drop. split; [f_equal; pose proof blockSize_val; lia|].
      split; [lia|]. pose proof (len_nonneg (take (Z.to_nat blockSize) (drop (Z.to_nat o) F))). lia. }
  destruct Hp as [Hs [(Hb & Ebuf & Ee & Ein & Eo)|(b & Hib & He)]].
  - assert (k = 0) as ->.
    { destruct (decide (0 < k)) as [Hpos|]; [|lia]. specialize (Hk0 Hpos).
      rewrite Z.mod_small in Hk0 by (pose proof blockSize_val; lia). lia. }
    assert (o = 0) as -> by lia.
    destruct (Hload r Hs) as (r1 & H1 & H2);
      [done|done|left; by rewrite Ebuf, Ee|by right|by rewrite Hb|by rewrite Ein|].
    exists 1%nat, r1. split; [lia|]. by split.
  - pose proof Hib as (Hb & Hbn & Ebuf & Ein & Ee & Her).
    assert (Hbl : len (buf r) <= blockSize).
    { pose proof block_pos. rewrite Ebuf, len_block by nia. lia. }
    destruct (decide (o mod blockSize = 0)) as [Hm0|Hm0].
    + (* the block before is complete *)
      assert (Hbo : b = o / blockSize - 1).
      { pose proof blockSize_val as HBS. nia. }
      assert (Hfull : len (buf r) = blockSize).
      { pose proof block_pos. rewrite Ebuf, len_block by nia. nia. }
      assert (Hin : input r = drop (Z.to_nat o) F).
      { rewrite Ein. f_equal. pose proof blockSize_val as HBS. lia. }
      destruct (decide (7 <= k)) as [H7|H7].
      * pose proof (in_block_view _ _ _ _ Hib) as Hv.
        replace (Z.to_nat ((b + 1) * blockSize - (o - k))) with (Z.to_nat k) in Hv by (pose proof blockSize_val; lia).
        rewrite Hz in Hv.
        destruct (Hload (set_range r (begin_ r) (len (buf r))) Hs) as (r1 & H1 & H2);
          cbn [set_range end_ buf blockNum input rseq]; [done|done|by left|by left|lia|done|].
        exists 2%nat, r1. split; [lia|]. split; [|done]. intros fuel wf. cbn [Nat.add].
        rewrite (nextChunk_zeros _ wf r k Hv) by lia. apply H1.
      * assert (Heb : (b + 1) * blockSize = o) by nia.
        destruct (Hload r Hs) as (r1 & H1 & H2); [done|done|right; lia|by left|lia|done|].
        exists 1%nat, r1. split; [lia|]. by split.
    + assert (k = 0) as -> by lia. rewrite Z.sub_0_r in *.
      assert (b = o / blockSize) as ->.
      { pose proof blockSize_val as HBS. nia. }
      exists 0%nat, r. split; [lia|]. done.
Qed.
Definition unread (r : Reader) (u : bytes) : Prop :=
  0 <= begin_ r <= end_ r /\ end_ r - begin_ r = len u /\ bytes_at r (begin_ r) (end_ r) = u.

(** The bytes at [o] start with a chunk: it is found. *)
Lemma chunk_read F o r wf ty p post :
  at_ F o r -> drop (Z.to_nat o) F = chunk ln ty p ++ post -> o mod blockSize + 11 + len p <= blockSize ->
  chunk_ty ty -> (wf = true -> ty = 5 \/ ty = 6) ->
  exists r', (forall fuel, (3 <= fuel)%nat -> nextChunk fuel wf r = Ok (r', None)) /\
    phys F (o + 11 + len p) r' /\ unread r' p /\ last_ r' = ((ty =? 5) || (ty =? 8)) /\ rseq r' = rseq r.
Proof.
  intros Hat HF Hfit Hty Hwf. pose proof (len_nonneg p) as Hp0. pose proof blockSize_val as HBS.
  pose proof (Z.div_mod o blockSize ltac:(done)) as Hdm. pose proof (Z.mod_pos_bound o blockSize ltac:(done)) as Hm.
  assert (Hne : drop (Z.to_nat o) F <> []).
  { rewrite HF. unfold chunk. by destruct (le_put 4 _) eqn:E; [apply (f_equal length) in E; rewrite length_le_put in E|]. }
  destruct (arrive F o r Hat ltac:(lia) Hne) as (c & r1 & Hc & Hgo & Hs & Hib & Hq).
  pose proof Hib as (Hb0 & Hbn & Ebuf & Ein & Ee & Her). pose proof (in_block_view _ _ _ _ Hib) as Hv.
  assert (Hlo : len (chunk ln ty p) <= (o / blockSize + 1) * blockSize - o) by (rewrite len_chunk; nia).
  rewrite HF, take_app_ge in Hv by (unfold len in Hlo; lia).
  assert (Hp16 : len p < 65536) by lia.
  exists (past r1 ty p). split; [|split; [|split; [|done]]].
  - intros fuel Hf. replace fuel with (c + S (fuel - c - 1))%nat by lia. rewrite Hgo. by eapply nextChunk_here.
  - split; [split; [done|apply Hs]|]. right. exists (o / blockSize). pose proof (len_view _ _ Hv) as Hlen.
    rewrite len_app, len_chunk in Hlen. pose proof (len_nonneg (take (Z.to_nat ((o / blockSize + 1) * blockSize - o) - length (chunk ln ty p)) post)).
    unfold in_block, past. cbn [blockNum buf input end_]. split; [|lia]. split; [done|]. split; [done|]. split; [done|].
    split; [done|]. split; lia.
  - destruct (chunk_header ty p _ Hty Hp16 : let D := chunk ln ty p ++ take (Z.to_nat ((o / blockSize + 1) * blockSize - o) - length (chunk ln ty p)) post in _)
      as (_ & _ & _ & _ & _ & C6). cbv zeta in C6.
    unfold unread, past. cbn [begin_ end_]. split; [lia|]. split; [lia|].
    transitivity (bytes_at r1 (end_ r1 + 11) (end_ r1 + (11 + len p))); [unfold bytes_at; cbn [buf]; do 2 f_equal; lia|].
    rewrite (bytes_at_view r1 _ 11 (11 + len p) Hv) by lia. exact C6.
Qed.

(** *** Where the log ends *)

(** The end of the chunk that the reader accepts at [o] of a file. *)
Definition chunk_end (G : bytes) (o : Z) : option Z :=
  Z.add o <$> accepts (take (Z.to_nat ((o / blockSize + 1) * blockSize - o)) (drop (Z.to_nat o) G)).

(** No chunk reaches behind [m]: what a reader accepts at a position it can
    come to has its header and its payload before [m].  (A reader that has read
    up to [m] skips less than a header's worth of padding, and stops at the
    first place without a chunk.) *)
Definition quiet (G : bytes) (m : Z) : Prop :=
  forall o e, 0 <= o < m + 11 -> chunk_end G o = Some e -> o + 7 <= m /\ e <= m.

Lemma accepts_spec D n :
  accepts D = Some n -> 7 <= len D /\ n <= len D /\
    n = (if (5 <=? le_get (slice D 6 7)) && (le_get (slice D 6 7) <=? 8) then 11 else 7) + le_get (slice D 4 6) /\
    ~ (le_get (slice D 0 4) = 0 /\ le_get (slice D 4 6) = 0 /\ le_get (slice D 6 7) = 0).
Proof.
  unfold accepts. cbv zeta. case_match eqn:E; [|done]. intros [= <-]. apply andb_true_iff in E as [E _].
  apply andb_true_iff in E as [E H1%Z.leb_le]. apply andb_true_iff in E as [E _]. apply andb_true_iff in E as [H2%Z.leb_le H3%negb_true_iff].
  split; [done|]. split; [done|]. split; [done|]. intros (Z1 & Z2 & Z3). by rewrite Z1, Z2, Z3 in H3.
Qed.

Lemma chunk_end_spec G o e :
  0 <= o -> chunk_end G o = Some e ->
  exists D, D = take (Z.to_nat ((o / blockSize + 1) * blockSize - o)) (drop (Z.to_nat o) G) /\ accepts D = Some (e - o) /\ o + len D <= len G.
Proof.
  intros Ho H. unfold chunk_end in H. apply fmap_Some in H as (n & Hn & ->). eexists. split; [done|]. replace (o + n - o) with n by lia.
  split; [done|]. apply accepts_spec in Hn as [H7 _]. unfold len in *. rewrite length_take, length_drop in *. lia.
Qed.

Lemma quiet_end G : quiet G (len G).
Proof. intros o e Ho (D & _ & (H7 & Hn & _)%accepts_spec & HD)%chunk_end_spec; [lia|lia]. Qed.

Lemma slice_zeros z a b : slice (replicate z 0) a b = replicate (Nat.min (Z.to_nat (b - a)) (z - Z.to_nat a)) 0.
Proof. unfold slice. by rewrite drop_replicate, take_replicate. Qed.

Lemma le_get_zeros n : le_get (replicate n 0) = 0.
Proof. induction n as [|n IH]; [done|]. change (le_get (replicate (S n) 0)) with (Z.lor 0 (Z.shiftl (le_get (replicate n 0)) 8)). by rewrite IH. Qed.

(** No chunk starts with seven zeros. *)
Lemma accepts_zeros D z : take 7 D = replicate z 0 -> accepts D = None.
Proof.
  intros Hz. destruct (accepts D) as [n|] eqn:E; [|done]. exfalso. apply accepts_spec in E as (_ & _ & _ & []).
  assert (Hs : forall a b, 0 <= a -> b <= 7 -> slice D a b = slice (take 7 D) a b).
  { intros a b Ha Hb. unfold slice. rewrite skipn_firstn_comm, take_take. f_equal. lia. }
  rewrite !(Hs _ _) by lia. by rewrite Hz, !slice_zeros, !le_get_zeros.
Qed.

(** A reader that stands at [o], or before less than a header's worth of bytes
    up to the start of a block at [o] in which there is no chunk. *)
Definition stand (G : bytes) (o : Z) (r : Reader) : Prop :=
  exists j, phys G j r /\ j <= o < j + 11 /\ (j < o -> o mod blockSize = 0 /\ chunk_end G j = None).

(** The rest of the last block is too short for a header. *)
Lemma nextChunk_short wf r :
  len (buf r) < end_ r + 7 -> len (buf r) < blockSize -> 0 <= blockNum r ->
  exists e, (forall fuel, nextChunk (S fuel) wf r = Ok (r, Some e)) /\ stops wf e.
Proof.
  intros H1 H2 H3. exists (if negb wf || negb (end_ r =? len (buf r)) then ErrInvalidChunk else ErrEOF). split; [|apply stops_cases].
  intros fuel. cbn [nextChunk]. unfold legacyHeaderSize. rewrite (proj2 (Z.leb_gt (end_ r + 7) _)) by lia.
  rewrite (proj2 (Z.ltb_lt (len (buf r)) blockSize)), (proj2 (Z.leb_le 0 (blockNum r))) by lia. cbn [andb]. by destruct (_ || _).
Qed.

(** At the end of a block the reader fails or moves on to the next one. *)
Lemma nextChunk_late G b o r wf :
  steady r -> in_block G b o r -> len (buf r) < end_ r + 7 ->
  (exists r' e, (forall fuel, nextChunk (S fuel) wf r = Ok (r', Some e)) /\ stops wf e) \/
  (len (buf r) = blockSize /\ exists r1, (forall fuel, nextChunk (S fuel) wf r = nextChunk fuel wf r1) /\ steady r1 /\
     in_block G (b + 1) ((b + 1) * blockSize) r1).
Proof.
  intros Hs (Hb & Hbn & Ebuf & Ein & Ee & He) H7. pose proof blockSize_val as HBS.
  assert (Hle : len (buf r) <= blockSize) by (rewrite Ebuf, len_block by nia; lia).
  destruct (decide (len (buf r) = blockSize)) as [Hf|Hf].
  - destruct (decide (input r = [])) as [E|E].
    + left. exists r, (if wf then ErrEOF else ErrUnexpectedEOF). split; [|destruct wf; [by right|by left]].
      intros fuel. rewrite nextChunk_load by auto. by rewrite decide_True.
    + right. split; [done|]. exists (load r). split; [intros fuel; rewrite nextChunk_load by auto; by rewrite decide_False|]. split; [done|].
      unfold load. split; [lia|]. cbn [blockNum buf input end_]. rewrite Ein, drop_drop. split; [lia|]. split; [done|].
      split; [f_equal; lia|]. split; [lia|]. pose proof (len_nonneg (take (Z.to_nat blockSize) (drop (Z.to_nat ((b + 1) * blockSize)) G))). lia.
  - left. destruct (nextChunk_short wf r) as (e & H & Hst); [lia|lia|lia|]. by exists r, e.
Qed.

(** Where there is no chunk the reader fails, or the block ends. *)
Lemma nextChunk_stuck G b o r wf :
  steady r -> in_block G b o r -> accepts (take (Z.to_nat ((b + 1) * blockSize - o)) (drop (Z.to_nat o) G)) = None ->
  (exists r' e, (forall fuel, nextChunk (2 + fuel) wf r = Ok (r', Some e)) /\ stops wf e) \/
  ((b + 1) * blockSize - o < 11 /\ exists c r1, (c <= 2)%nat /\ (forall fuel, nextChunk (c + fuel) wf r = nextChunk fuel wf r1) /\
     steady r1 /\ in_block G (b + 1) ((b + 1) * blockSize) r1).
Proof.
  intros Hs Hib Ha. pose proof (in_block_view _ _ _ _ Hib) as Hv. set (D := take _ _) in *. pose proof (len_view _ _ Hv) as Hn.
  pose proof Hib as (_ & _ & _ & _ & Ee & He). pose proof blockSize_val as HBS.
  destruct (decide (7 <= len D)) as [H7|H7].
  - destruct (nextChunk_none wf r D Hs Hv Ha H7) as [(H11 & Hz)|(r' & e & Hr & Hst)]; [|left; exists r', e; split; [intros; apply Hr|done]].
    destruct (nextChunk_late G b (len (buf r) + b * blockSize) (set_range r (begin_ r) (len (buf r))) wf) as [(r' & e & Hr & Hst)|(Hf & r1 & Hr & Hs1 & Hb1)].
    + done.
    + destruct Hib as (? & ? & ? & ? & _ & _). unfold in_block. cbn [set_range blockNum buf input end_]. pose proof (len_nonneg (buf r)). repeat split; done || lia.
    + cbn. lia.
    + left. exists r', e. split; [|done]. intros fuel. cbn [Nat.add]. rewrite Hz. apply Hr.
    + right. cbn [set_range buf] in Hf. split; [lia|]. exists 2%nat, r1. split; [lia|]. split; [|done]. intros fuel. cbn [Nat.add]. rewrite Hz. apply Hr.
  - destruct (nextChunk_late G b o r wf Hs Hib ltac:(lia)) as [(r' & e & Hr & Hst)|(Hf & r1 & Hr & Hs1 & Hb1)].
    + left. exists r', e. split; [intros; apply Hr|done].
    + right. split; [lia|]. exists 1%nat, r1. split; [lia|]. split; [exact Hr|done].
Qed.

(** The log ends where the reader stands: there is no chunk. *)
Definition ended (G : bytes) (r : Reader) : Prop :=
  exists o, stand G o r /\ o mod blockSize + 11 <= blockSize /\ chunk_end G o = None.

Lemma stuck G r wf :
  ended G r -> exists r' e, nextChunk (chunk_fuel r) wf r = Ok (r', Some e) /\ stops wf e.
Proof.
  intros (o & (j & [Hs Hp] & Hj & Hjo) & Hroom & Hc). pose proof blockSize_val as HBS. pose proof (Z.div_mod o blockSize ltac:(done)) as Hdm.
  pose proof (Z.mod_pos_bound o blockSize ltac:(done)) as Hm.
  assert (Hnone : forall q, chunk_end G q = None -> accepts (take (Z.to_nat ((q / blockSize + 1) * blockSize - q)) (drop (Z.to_nat q) G)) = None).
  { intros q Hq. unfold chunk_end in Hq. by destruct (accepts _). }
  destruct Hp as [(Hb & Ebuf & Ee & Ein & ->)|(b & Hib & He)].
  - assert (o = 0) as ->.
    { destruct (decide (0 < o)) as [H0|]; [|lia]. destruct (Hjo H0) as [E _]. rewrite Z.mod_small in E by lia. lia. }
    unfold chunk_fuel. rewrite nextChunk_load; [|by rewrite Ebuf, Ee|by right]. destruct (decide (input r = [])).
    { exists r, (if wf then ErrEOF else ErrUnexpectedEOF). split; [done|]. destruct wf; [by right|by left]. }
    destruct (nextChunk_stuck G 0 0 (load r) wf) as [(r' & e & Hr & Hst)|[? _]]; [done| |by apply (Hnone 0)| |lia].
    + unfold load. split; [lia|]. cbn [blockNum buf input end_]. rewrite Hb, Ein. do 4 (split; [done|]).
      pose proof (len_nonneg (take (Z.to_nat blockSize) G)). lia.
    + exists r', e. split; [apply Hr|done].
  - pose proof Hib as (Hb0 & Hbn & Ebuf & Ein & Ee & Her). pose proof Her as Hbs. rewrite Ebuf, len_block in Hbs by nia.
    assert (H4 : (4 <= chunk_fuel r)%nat) by (unfold chunk_fuel, len in *; lia).
    assert (Haj : accepts (take (Z.to_nat ((b + 1) * blockSize - j)) (drop (Z.to_nat j) G)) = None).
    { destruct (decide (j = (b + 1) * blockSize)) as [->|Hne]; [by rewrite Z.sub_diag|].
      assert (b = j / blockSize) as -> by (apply (Z.div_unique j blockSize b (j - b * blockSize)); lia). apply Hnone. destruct (decide (j < o)) as [Hlt|]; [by apply Hjo|]. by assert (j = o) as -> by lia. }
    destruct (nextChunk_stuck G b j r wf Hs Hib Haj) as [(r' & e & Hr & Hst)|(H11 & c & r1 & Hc2 & Hr & Hs1 & Hb1)].
    { exists r', e. split; [|done]. replace (chunk_fuel r) with (2 + (chunk_fuel r - 2))%nat by lia. apply Hr. }
    assert (Ho : o = (b + 1) * blockSize).
    { destruct (decide (j < o)) as [Hlt|]; [destruct (Hjo Hlt) as [E _]|assert (j = o) as -> by lia]; nia. }
    destruct (nextChunk_stuck G (b + 1) ((b + 1) * blockSize) r1 wf Hs1 Hb1) as [(r' & e & Hr1 & Hst)|[? _]]; [|exists r', e; split; [|done]|lia].
    + replace (b + 1) with (o / blockSize) at 1 by (rewrite Ho; by apply Z.div_mul). rewrite <-Ho. by apply Hnone.
    + replace (chunk_fuel r) with (c + (2 + (chunk_fuel r - c - 2)))%nat by lia. rewrite Hr. apply Hr1.
Qed.

Lemma stand_at G o r : at_ G o r -> stand G o r.
Proof.
  intros (k & Hk & Hk0 & Hp & Ho & Hz). pose proof (phys_bounds _ _ _ Hp). exists (o - k). split; [done|]. split; [lia|]. intros Hlt.
  specialize (Hk0 ltac:(lia)). split; [done|]. unfold chunk_end. pose proof blockSize_val as HBS.
  assert (Hdiv : ((o - k) / blockSize + 1) * blockSize = o).
  { apply Z.mod_divide in Hk0 as [c ->]; [|done]. rewrite <-(Z.div_unique (c * blockSize - k) blockSize (c - 1) (blockSize - k)) by lia. lia. }
  rewrite Hdiv. replace (o - (o - k)) with k by lia. rewrite Hz, (accepts_zeros _ (7 `min` Z.to_nat k)); [done|]. by rewrite take_replicate.
Qed.

(** *** Reading records *)

(** The reader after a whole chunk and its padding. *)
Lemma after_pad F o r j post :
  phys F o r -> drop (Z.to_nat o) F = pad j ++ post -> (o - j) mod blockSize = 0 -> j <= blockSize ->
  at_ F (o + len (pad j)) r.
Proof.
  intros Hp HF Hj Hjb. pose proof (phys_bounds _ _ _ Hp) as Ho. pose proof (len_nonneg (pad j)) as Hl.
  exists (len (pad j)). replace (o + len (pad j) - len (pad j)) with o by lia. rewrite HF.
  assert (Hn : Z.to_nat (len (pad j)) = length (pad j)) by (unfold len; lia). rewrite Hn, take_app_length.
  clear HF Hn. unfold pad in *. destruct (Z.ltb_spec (blockSize - j) recyclableHeaderSize) as [Hlt|Hge].
  - unfold len in *. rewrite length_replicate in *. rewrite Z2Nat.id in * by lia.
    split; [change recyclableHeaderSize with 11 in Hlt; lia|]. split; [|split; [done|split; [lia|done]]].
    intros _. apply Z.mod_divide in Hj as [c Hc]; [|done]. replace (o + (blockSize - j)) with ((c + 1) * blockSize) by lia.
    by apply Z.mod_mul.
  - change (len (@nil Z)) with 0. split; [lia|]. split; [lia|]. split; [done|]. split; [lia|done].
Qed.

(** A trailer of the next log's number ends the log, whatever follows it. *)
Lemma trailer_eof F o r post :
  at_ F o r -> drop (Z.to_nat o) F = trailer ln ++ post -> o mod blockSize + 11 <= blockSize ->
  exists r', (forall fuel, (3 <= fuel)%nat -> nextChunk fuel true r = Ok (r', Some ErrEOF)).
Proof.
  intros Hat HF Hfit. pose proof (Z.div_mod o blockSize ltac:(done)) as Hdm. pose proof blockSize_val as HBS.
  destruct (arrive F o r Hat ltac:(lia)) as (c & r1 & Hc & Hgo & Hs & Hib & Hq); [by rewrite HF|].
  pose proof Hib as (Hb0 & Hbn & Ebuf & Ein & Ee & Her). pose proof (in_block_view _ _ _ _ Hib) as Hv.
  set (D := take _ _) in Hv.
  assert (HD : exists X, D = trailer ln ++ X).
  { eexists. unfold D. rewrite HF. apply take_app_ge. unfold trailer. rewrite !length_app, !length_le_put. cbn [length]. nia. }
  destruct HD as [X HD]. clearbody D. pose proof (len_view _ _ Hv) as Hn. rewrite HD, len_app in Hn.
  assert (Ht : len (trailer ln) = 11) by done. pose proof (len_nonneg X).
  exists r1. intros fuel Hf. replace fuel with (c + S (fuel - c - 1))%nat by lia. rewrite Hgo. cbn [nextChunk].
  unfold legacyHeaderSize. rewrite (proj2 (Z.leb_le (end_ r1 + 7) _)) by lia.
  assert (E6 : take (Z.to_nat (7 - 6)) (drop (Z.to_nat 6) (trailer ln ++ X)) = [recyclableFullChunkType]).
  { unfold trailer. rewrite <-!app_assoc, (app_assoc (le_put 4 0)). by apply pieces_at. }
  assert (E7 : take (Z.to_nat (11 - 7)) (drop (Z.to_nat 7) (trailer ln ++ X)) = le_put 4 (u32 (ln + 1))).
  { unfold trailer. rewrite <-!app_assoc, (app_assoc (le_put 4 0)), (app_assoc _ [_]). by apply pieces_at. }
  rewrite (bytes_at_view r1 D 6 7 Hv), (bytes_at_view r1 D 7 11 Hv), HD, E6, E7 by lia.
  change (le_get [recyclableFullChunkType]) with 5. rewrite andb_false_r. cbn [Z.leb andb].
  change recyclableHeaderSize with 11. change (5 <=? 5) with true. change (5 <=? 8) with true. cbn [andb].
  rewrite (proj2 (Z.ltb_ge _ (end_ r1 + 11))) by lia. rewrite le_get_put_u32.
  destruct Hs as (_ & _ & ->). rewrite (proj2 (Z.eqb_neq _ ln)); [done|].
  unfold u32. rewrite Z.mod_mod by lia. destruct (decide (ln + 1 = 4294967296)) as [E|].
  - rewrite E. change (4294967296 mod 4294967296) with 0. lia.
  - rewrite Z.mod_small by lia. lia.
Qed.

(** Reads of at least one byte use up the unread bytes of a chunk. *)
Lemma consume F o r u size :
  1 <= size -> phys F o r -> unread r u ->
  exists c r', (c <= length u)%nat /\ phys F o r' /\ unread r' [] /\ last_ r' = last_ r /\ rseq r' = rseq r /\
    (forall fuel acc, read_record (c + fuel) (rseq r) r size acc = read_record fuel (rseq r) r' size (acc ++ u)).
Proof.
  intros Hsz. remember (length u) as n eqn:En. revert r u En. induction n as [n IH] using lt_wf_ind. intros r u En Hp Hu.
  destruct u as [|x u0] eqn:Eu.
  { exists 0%nat, r. split; [lia|]. split; [done|]. split; [done|]. split; [done|]. split; [done|]. intros. by rewrite app_nil_r. }
  rewrite <-Eu in *. assert (Hpos : (0 < length u)%nat) by (rewrite Eu; cbn; lia).
  pose proof Hu as (Hb & Hl & HB). pose proof Hp as [(S1 & S2 & S3) Hp2].
  set (q := take (Z.to_nat size) u). set (r1 := set_range r (begin_ r + len q) (end_ r)).
  assert (Hq : (0 < length q <= length u)%nat) by (unfold q; rewrite length_take; lia).
  assert (Hread : Read (rseq r) r size = Ok (r1, q, None)).
  { unfold Read. rewrite Z.eqb_refl. cbn [negb]. rewrite S2. unfold chunk_fuel. cbn [fill].
    rewrite (proj2 (Z.eqb_neq (begin_ r) (end_ r))) by (unfold len in Hl; lia). cbn [rbind]. by rewrite HB. }
  assert (Hu1 : unread r1 (drop (length q) u)).
  { unfold unread, r1. cbn [set_range begin_ end_]. unfold len in *. rewrite length_drop. split; [lia|]. split; [lia|].
    rewrite <-HB. unfold bytes_at. cbn [set_range buf]. rewrite skipn_firstn_comm, drop_drop. f_equal; [lia|]. f_equal. lia. }
  destruct (IH (length (drop (length q) u))) with (r := r1) (u := drop (length q) u) as (c & r' & Hc & P' & U' & L' & Q' & Hgo); [rewrite length_drop; lia|done|done|done|].
  exists (S c), r'. rewrite length_drop in Hc. split; [lia|]. split; [done|]. split; [done|]. split; [done|]. split; [done|].
  intros fuel acc. cbn [Nat.add read_record]. rewrite Hread. cbn [rbind]. change (rseq r1) with (rseq r) in Hgo. rewrite Hgo. f_equal.
  rewrite <-app_assoc. f_equal. unfold q. rewrite length_take.
  destruct (decide (Z.to_nat size <= length u)%nat); [by rewrite Nat.min_l, take_drop by lia|].
  by rewrite Nat.min_r, take_ge, drop_ge, app_nil_r by lia.
Qed.

(** The end of a chunk that is not the last: the next chunk is fetched, or the
    error is final. *)
Lemma hop r size r' :
  steady r -> unread r [] -> last_ r = false ->
  (forall fuel, (3 <= fuel)%nat -> nextChunk fuel false r = Ok (r', None)) ->
  begin_ r' <> end_ r' -> rseq r' = rseq r -> rerr r' = None ->
  Read (rseq r) r size = Read (rseq r) r' size.
Proof.
  intros (S1 & S2 & S3) (Hb & Hl & _) HL Hn Hne Hq He. rewrite len_nil in Hl. unfold Read. rewrite Hq, Z.eqb_refl, S2, He. cbn [negb].
  unfold chunk_fuel at 1. cbn [fill]. rewrite (proj2 (Z.eqb_eq (begin_ r) (end_ r))) by lia. rewrite HL.
  rewrite Hn by (unfold chunk_fuel; lia). cbn [rbind].
  assert (set_err r' None = r') as -> by (destruct r'; cbn in *; by rewrite He).
  unfold chunk_fuel. cbn [fill]. by rewrite (proj2 (Z.eqb_neq _ _)).
Qed.

Lemma hop_torn r size r' e :
  steady r -> unread r [] -> last_ r = false -> stops false e ->
  nextChunk (chunk_fuel r) false r = Ok (r', Some e) ->
  forall fuel acc, read_record (S fuel) (rseq r) r size acc = Ok (set_err r' (Some e), acc, Some e).
Proof.
  intros (S1 & S2 & S3) (Hb & Hl & _) HL Hst Hn fuel acc. rewrite len_nil in Hl. cbn [read_record]. unfold Read.
  rewrite Z.eqb_refl, S2. cbn [negb]. unfold chunk_fuel at 1. cbn [fill]. rewrite (proj2 (Z.eqb_eq (begin_ r) (end_ r))) by lia. rewrite HL, Hn. cbn [rbind]. rewrite app_nil_r.
  destruct Hst as [Hst|[? _]]; [|done]. by destruct e.
Qed.

(** The end of the last chunk is the end of the record. *)
Lemma record_end r size fuel acc :
  steady r -> unread r [] -> last_ r = true -> read_record (S fuel) (rseq r) r size acc = Ok (r, acc, None).
Proof.
  intros (S1 & S2 & S3) (Hb & Hl & _) HL. rewrite len_nil in Hl. cbn [read_record]. unfold Read. rewrite Z.eqb_refl, S2. cbn [negb].
  unfold chunk_fuel. cbn [fill]. rewrite (proj2 (Z.eqb_eq (begin_ r) (end_ r))) by lia. rewrite HL. cbn [rbind]. by rewrite app_nil_r.
Qed.
Lemma chunk_type_facts first last :
  chunk_ty (chunk_type first last) /\ ((chunk_type first last =? 5) || (chunk_type first last =? 8)) = last /\
  (first = true -> chunk_type first last = 5 \/ chunk_type first last = 6).
Proof. by destruct first, last; (split; [done|]; split; [done|]; auto). Qed.

Lemma drop_past (F : bytes) o ty q rest :
  0 <= o -> drop (Z.to_nat o) F = chunk ln ty q ++ rest ->
  drop (Z.to_nat (o + 11 + len q)) F = rest /\ (length (drop (Z.to_nat o) F) = 11 + length q + length rest)%nat.
Proof.
  intros Ho HF. pose proof (len_chunk ln ty q) as Hl. unfold len in Hl. split.
  - replace (Z.to_nat (o + 11 + len q)) with (Z.to_nat o + length (chunk ln ty q))%nat by (unfold len; lia).
    rewrite <-drop_drop, HF. apply drop_app_length.
  - rewrite HF, length_app. lia.
Qed.

(** The chunk after the one just used up is read by the same call. *)
Lemma fetch F o r ty q rest size :
  phys F o r -> unread r [] -> last_ r = false -> drop (Z.to_nat o) F = chunk ln ty q ++ rest ->
  o mod blockSize + 11 + len q <= blockSize -> chunk_ty ty -> q <> [] ->
  exists r1, phys F (o + 11 + len q) r1 /\ unread r1 q /\ last_ r1 = ((ty =? 5) || (ty =? 8)) /\ rseq r1 = rseq r /\
    (forall fuel acc, read_record (S fuel) (rseq r) r size acc = read_record (S fuel) (rseq r) r1 size acc).
Proof.
  intros Hp Hu HL HF Hfit Hty Hq. pose proof (phys_bounds _ _ _ Hp) as Ho.
  destruct (chunk_read F o r false ty q rest (phys_at F o r ltac:(lia) Hp) HF Hfit Hty ltac:(done)) as (r1 & Hn & P1 & U1 & L1 & Q1).
  exists r1. split; [done|]. split; [done|]. split; [done|]. split; [done|].
  intros fuel acc. cbn [read_record]. rewrite (hop r size r1); [done|apply Hp|done..| |done|apply P1].
  destruct U1 as (_ & U & _). destruct q; [done|]. rewrite len_cons in U. pose proof (len_nonneg q). lia.
Qed.

(** The rest of a record whose chunks are all there. *)
Lemma read_rest F size fuel o r u p acc post :
  1 <= size -> phys F o r -> unread r u -> last_ r = false -> o mod blockSize = 0 -> p <> [] -> (length p <= fuel)%nat ->
  drop (Z.to_nat o) F = enc_frags fuel ln false 0 p ++ post ->
  exists r', at_ F (o + len (enc_frags fuel ln false 0 p)) r' /\
    (forall rf, (length u + length (drop (Z.to_nat o) F) < rf)%nat -> read_record rf (rseq r) r size acc = Ok (r', acc ++ u ++ p, None)).
Proof.
  intros Hsz. revert o r u p acc. induction fuel as [|fuel IH]; intros o r u p acc Hp Hu HL Ho Hne Hf HF; [by destruct p; cbn in Hf; [|lia]|].
  pose proof (phys_bounds _ _ _ Hp) as HoF. pose proof blockSize_val as HBS. pose proof (len_nonneg p).
  destruct (consume F o r u size Hsz Hp Hu) as (c & r0 & Hc & P0 & U0 & L0 & Q0 & G0). rewrite HL in L0.
  cbn [enc_frags] in *. change recyclableHeaderSize with 11 in *. rewrite Z.sub_0_r in *.
  destruct (Z.leb_spec (len p) (blockSize - 11)) as [Hle|Hgt].
  - destruct (chunk_type_facts false true) as (T1 & T2 & T3). set (ty := chunk_type false true) in *. rewrite <-app_assoc in HF.
    destruct (fetch F o r0 ty p _ size P0 U0 L0 HF ltac:(lia) T1 Hne) as (r1 & P1 & U1 & L1 & Q1 & G1). rewrite T2 in L1.
    destruct (drop_past F o ty p _ ltac:(lia) HF) as [HF' Hlen].
    destruct (consume F _ r1 p size Hsz P1 U1) as (c2 & r2 & Hc2 & P2 & U2 & L2 & Q2 & G2).
    exists r2. split.
    + rewrite len_app, len_chunk. replace (o + (11 + len p + _)) with (o + 11 + len p + len (pad (0 + 11 + len p))) by lia.
      apply (after_pad F _ _ _ post P2 HF'); [|lia]. replace (o + 11 + len p - (0 + 11 + len p)) with o by lia. done.
    + intros rf Hrf. replace rf with (c + S (rf - c - 1))%nat by lia. rewrite G0. rewrite <-Q0, G1, <-Q1.
      replace (S (rf - c - 1)) with (c2 + S (rf - c - c2 - 1))%nat by lia. rewrite G2, <-Q2, record_end; [by rewrite <-app_assoc|apply P2|done|congruence].
  - destruct (chunk_type_facts false false) as (T1 & T2 & T3). set (ty := chunk_type false false) in *. rewrite <-app_assoc in HF.
    set (q := take (Z.to_nat (blockSize - 11)) p) in *. set (p' := drop (Z.to_nat (blockSize - 11)) p) in *.
    assert (Lq : len q = blockSize - 11) by (unfold q, len in *; rewrite length_take; lia).
    assert (Lp : (length p' + length q = length p)%nat) by (unfold p', q; rewrite length_drop, length_take; lia).
    assert (Hq : q <> []) by (intros ->; rewrite len_nil in Lq; lia).
    destruct (fetch F o r0 ty q _ size P0 U0 L0 HF ltac:(lia) T1 Hq) as (r1 & P1 & U1 & L1 & Q1 & G1). rewrite T2 in L1.
    destruct (drop_past F o ty q _ ltac:(lia) HF) as [HF' Hlen].
    destruct (IH (o + 11 + len q) r1 q p' (acc ++ u)) as (r' & A' & G'); [done|done|done| | | |exact HF'|].
    + rewrite Lq. replace (o + 11 + (blockSize - 11)) with (o + 1 * blockSize) by lia. by rewrite Z.mod_add by lia.
    + intros E. rewrite E in Lp. unfold len in *. cbn in Lp. lia.
    + destruct q; [done|]. cbn in Lp. lia.
    + exists r'. split.
      * rewrite len_app, len_chunk. replace (o + (11 + len q + _)) with (o + 11 + len q + len (enc_frags fuel ln false 0 p')) by lia. done.
      * intros rf Hrf. replace rf with (c + S (rf - c - 1))%nat by lia. rewrite G0, <-Q0, G1, <-Q1, G' by (rewrite HF'; lia).
        unfold q, p'. by rewrite take_drop, <-app_assoc.
Qed.
Lemma at_bounds F o r : at_ F o r -> 0 <= o <= len F.
Proof.
  intros (k & Hk & _ & Hp & Ho & Hz). apply phys_bounds in Hp. split; [done|]. apply (f_equal length) in Hz.
  rewrite length_take, length_drop, length_replicate in Hz. unfold len in *. lia.
Qed.

(** Two ways to split a list that starts with a chunk. *)
Lemma split_chunk {A} (D Y c rest : list A) :
  D ++ Y = c ++ rest -> (exists Y', Y' <> [] /\ D ++ Y' = c) \/ (exists D', D = c ++ D' /\ D' ++ Y = rest).
Proof.
  intros H. apply app_eq_inv in H as [(k & E1 & E2)|(k & E1 & E2)].
  - right. by exists k.
  - destruct k as [|x k]; [|left; by exists (x :: k)]. right. exists []. rewrite app_nil_r in *. by split.
Qed.

Lemma buffered F o r : phys F o r -> len (buf r) + len (input r) = len F - o + end_ r.
Proof.
  intros [_ [(_ & -> & -> & -> & ->)|(b & (Hb & _ & Eb & Ein & Ee & He) & Hpos)]]; [rewrite len_nil; lia|].
  pose proof block_pos. rewrite Eb, len_block in He by nia. rewrite Eb, Ein, len_block by nia. unfold len in *. rewrite length_drop. nia.
Qed.

Lemma chunk_fuel_3 r : (3 <= chunk_fuel r)%nat.
Proof. unfold chunk_fuel. lia. Qed.

(** The reader as [Next] leaves it when it found a chunk. *)
Definition started (r : Reader) (e : option error) (r1 : Reader) : Prop := Next r = Ok (set_err r1 e, e).

Lemma Next_nextChunk F o r :
  at_ F o r -> exists r0, at_ F o r0 /\ forall r1 e, nextChunk (chunk_fuel r0) true r0 = Ok (r1, e) -> started r e r1.
Proof.
  intros Hat. eexists. split; [|intros r1 e Hn; unfold started, Next; cbn [rerr]].
  2: { destruct Hat as (k & _ & _ & [(S1 & S2 & S3) _] & _). rewrite S2. by rewrite Hn. }
  destruct Hat as (k & Hk & Hk0 & Hp & Ho & Hz). exists k. split; [done|]. split; [done|]. split; [|done].
  destruct Hp as [(S1 & S2 & S3) Hp]. split; [done|]. exact Hp.
Qed.

Lemma Next_stuck G r : ended G r -> exists r1 e, Next r = Ok (r1, Some e) /\ stops true e.
Proof.
  intros (o & (j & Hp & Hj) & Ho). pose proof Hp as [(S1 & S2 & S3) Hp']. unfold Next. cbn [rerr]. rewrite S2.
  match goal with |- context [nextChunk _ true ?q] => set (r0 := q) end.
  destruct (stuck G r0 true) as (r1 & e & Hn & Hst); [exists o; split; [exists j; split; [split; [done|exact Hp']|done]|done]|].
  rewrite Hn. by exists (set_err r1 (Some e)), e.
Qed.

Lemma set_err_phys F o r : phys F o r -> set_err r None = r.
Proof. intros [(_ & H & _) _]. destruct r; cbn in *. by rewrite H. Qed.

(** The fuel of a record: no more reads than bytes. *)
Lemma record_fuel F o r u : phys F o r -> unread r u -> (length u + length (drop (Z.to_nat o) F) < S (length (buf r) + length (input r)))%nat.
Proof.
  intros Hp (Hb & Hl & _). pose proof (buffered _ _ _ Hp) as H. pose proof (phys_bounds _ _ _ Hp). unfold len in *. rewrite length_drop. lia.
Qed.

Lemma split_fuel c f : (c < f)%nat -> f = (c + S (f - c - 1))%nat.
Proof. lia. Qed.

(** A whole record at the reader's position. *)
Lemma read_one F o r p size post :
  1 <= size -> at_ F o r -> o mod blockSize + 11 <= blockSize ->
  drop (Z.to_nat o) F = enc_record ln (o mod blockSize) p ++ post ->
  exists r1 r', Next r = Ok (r1, None) /\ at_ F (o + len (enc_record ln (o mod blockSize) p)) r' /\
    read_record (S (length (buf r1) + length (input r1))) (rseq r1) r1 size [] = Ok (r', p, None).
Proof.
  intros Hsz Hat Hroom HF. destruct (Next_nextChunk F o r Hat) as (r0 & Hat0 & Hstart).
  pose proof blockSize_val as HBS. pose proof (Z.div_mod o blockSize ltac:(done)) as Hdm. pose proof (Z.mod_pos_bound o blockSize ltac:(done)) as Hm.
  destruct (at_bounds _ _ _ Hat) as [Ho _]. pose proof (len_nonneg p). set (i := o mod blockSize) in *. unfold enc_record in *. cbn [enc_frags] in *.
  change recyclableHeaderSize with 11 in *. set (room := blockSize - i - 11) in *.
  destruct (Z.leb_spec (len p) room) as [Hle|Hgt]; rewrite <-app_assoc in HF.
  - destruct (chunk_type_facts true true) as (T1 & T2 & T3). set (ty := chunk_type true true) in *.
    destruct (chunk_read F o r0 true ty p _ Hat0 HF ltac:(lia) T1 T3) as (r1 & Hn & P1 & U1 & L1 & Q1). rewrite T2 in L1.
    destruct (drop_past F o ty p _ Ho HF) as [HF' Hlen].
    destruct (consume F _ r1 p size Hsz P1 U1) as (c2 & r2 & Hc2 & P2 & U2 & L2 & Q2 & G2).
    exists r1, r2. specialize (Hn _ (chunk_fuel_3 r0)). apply Hstart in Hn. unfold started in Hn. rewrite (set_err_phys _ _ _ P1) in Hn. split; [done|]. split.
    + rewrite len_app, len_chunk. replace (o + (11 + len p + _)) with (o + 11 + len p + len (pad (i + 11 + len p))) by lia.
      apply (after_pad F _ _ _ post P2 HF'); [|lia]. replace (o + 11 + len p - (i + 11 + len p)) with (o / blockSize * blockSize) by lia. by apply Z.mod_mul.
    + pose proof (record_fuel F _ _ _ P1 U1) as Hf. rewrite (split_fuel c2 (S (length (buf r1) + length (input r1)))) by lia.
      rewrite G2, <-Q2, record_end; [done|apply P2|done|congruence].
  - destruct (chunk_type_facts true false) as (T1 & T2 & T3). set (ty := chunk_type true false) in *.
    set (q := take (Z.to_nat room) p) in *. set (p' := drop (Z.to_nat room) p) in *.
    assert (Lq : len q = room) by (unfold q, len in *; rewrite length_take; lia).
    assert (Lp : (length p' + length q = length p)%nat) by (unfold p', q; rewrite length_drop, length_take; lia).
    destruct (chunk_read F o r0 true ty q _ Hat0 HF ltac:(lia) T1 T3) as (r1 & Hn & P1 & U1 & L1 & Q1). rewrite T2 in L1.
    destruct (drop_past F o ty q _ Ho HF) as [HF' Hlen].
    destruct (read_rest F size (length p) (o + 11 + len q) r1 q p' [] post Hsz P1 U1 L1) as (r' & A' & G'); [| | |done|].
    + replace (o + 11 + len q) with ((o / blockSize + 1) * blockSize) by lia. by apply Z.mod_mul.
    + intros E. rewrite E in Lp. unfold len in *. cbn in Lp. lia.
    + lia.
    + exists r1, r'. specialize (Hn _ (chunk_fuel_3 r0)). apply Hstart in Hn. unfold started in Hn. rewrite (set_err_phys _ _ _ P1) in Hn. split; [done|]. split.
      * rewrite len_app, len_chunk. replace (o + (11 + len q + _)) with (o + 11 + len q + len (enc_frags (length p) ln false 0 p')) by lia. done.
      * rewrite G' by (by apply (record_fuel F)). unfold q, p'. by rewrite take_drop.
Qed.

(** Where a record ends there is room for the next header. *)
Lemma frags_room fuel first i p :
  0 <= i -> i + 11 <= blockSize -> (length p < fuel)%nat \/ i = 0 /\ (0 < length p <= fuel)%nat ->
  (i + len (enc_frags fuel ln first i p)) mod blockSize + 11 <= blockSize.
Proof.
  pose proof blockSize_val as HBS. revert first i p. induction fuel as [|fuel IH]; intros first i p Hi Hroom Hf; [lia|].
  cbn [enc_frags]. change recyclableHeaderSize with 11. pose proof (len_nonneg p). destruct (Z.leb_spec (len p) (blockSize - i - 11)).
  - rewrite len_app, len_chunk. unfold pad. change recyclableHeaderSize with 11. destruct (Z.ltb_spec (blockSize - (i + 11 + len p)) 11).
    + unfold len at 2. rewrite length_replicate, Z2Nat.id by lia. replace (i + (11 + len p + _)) with (1 * blockSize) by lia.
      rewrite Z.mod_mul by lia. lia.
    + rewrite len_nil, Z.mod_small by lia. lia.
  - rewrite len_app, len_chunk, len_take_le by lia. set (e := enc_frags _ _ _ _ _).
    replace (i + (11 + (blockSize - i - 11) + len e)) with (0 + len e + 1 * blockSize) by lia. rewrite Z.mod_add by lia.
    apply IH; [lia|lia|]. rewrite length_drop. unfold len in *. lia.
Qed.

Lemma record_room i p :
  0 <= i -> i + 11 <= blockSize -> (i + len (enc_record ln i p)) mod blockSize + 11 <= blockSize.
Proof. intros. apply frags_room; [done|done|]. left. lia. Qed.

Lemma record_size i p : 11 <= len (enc_record ln i p).
Proof.
  unfold enc_record. cbn [enc_frags]. destruct (_ <=? _); rewrite len_app, len_chunk; pose proof (len_nonneg p).
  - pose proof (len_nonneg (pad (i + recyclableHeaderSize + len p))). lia.
  - set (q := take _ p). pose proof (len_nonneg q). pose proof (len_nonneg (enc_frags (length p) ln false 0 (drop (Z.to_nat (blockSize - i - recyclableHeaderSize)) p))). lia.
Qed.

Lemma next_position (F : bytes) o i (e rest : bytes) :
  0 <= o -> i = o mod blockSize -> drop (Z.to_nat o) F = e ++ rest ->
  drop (Z.to_nat (o + len e)) F = rest /\ (i + len e) mod blockSize = (o + len e) mod blockSize.
Proof.
  intros Ho -> HF. split.
  - pose proof (len_nonneg e). replace (Z.to_nat (o + len e)) with (Z.to_nat o + length e)%nat by (unfold len; lia).
    rewrite <-drop_drop, HF. apply drop_app_length.
  - by rewrite Zplus_mod_idemp_l.
Qed.

(** Reading the records that are all there; [tail] decides how the log ends. *)
Lemma read_prefix F size ps :
  1 <= size -> forall o r tail, at_ F o r -> o mod blockSize + 11 <= blockSize ->
  drop (Z.to_nat o) F = enc_log ln (o mod blockSize) ps ++ tail ->
  exists o' r', at_ F o' r' /\ o' mod blockSize + 11 <= blockSize /\ drop (Z.to_nat o') F = tail /\
    o' = o + len (enc_log ln (o mod blockSize) ps) /\
    forall fuel, read_log (length ps + fuel) size r = let! (qs, e) := read_log fuel size r' in Ok (ps ++ qs, e).
Proof.
  intros Hsz. induction ps as [|p ps IH]; intros o r tail Hat Hroom HF.
  { exists o, r. cbn [enc_log] in *. rewrite len_nil, Z.add_0_r. split; [done|]. split; [done|]. split; [done|]. split; [done|].
    intros fuel. cbn [length Nat.add app]. by destruct (read_log fuel size r) as [[qs e]| |]. }
  cbn [enc_log] in HF |- *. set (e := enc_record ln (o mod blockSize) p) in *. rewrite <-app_assoc in HF.
  destruct (at_bounds _ _ _ Hat) as [Ho _]. pose proof (Z.mod_pos_bound o blockSize ltac:(done)) as Hm.
  destruct (read_one F o r p size _ Hsz Hat Hroom HF) as (r1 & r' & Hn & Hat' & Hrd). fold e in Hat'.
  destruct (next_position F o _ e _ Ho eq_refl HF) as [HF' Hmod]. rewrite Hmod in *.
  destruct (IH (o + len e) r' tail) as (o' & r2 & A2 & R2 & D2 & E2 & G2); [done| |done|].
  { rewrite <-Hmod. apply record_room; lia. }
  exists o', r2. split; [done|]. split; [done|]. split; [done|]. split; [rewrite len_app; lia|].
  intros fuel. cbn [length Nat.add read_log]. rewrite Hn. cbn [rbind]. rewrite Hrd. cbn [rbind]. rewrite G2.
  by destruct (read_log fuel size r2) as [[qs e']| |].
Qed.

Lemma NewReader_at F : at_ F 0 (NewReader F ln).
Proof.
  apply phys_at; [lia|]. split; [|by left]. split; [done|]. split; [done|]. by apply u32_small.
Qed.

(** *** A log that is cut short *)

Lemma slice_take D K a b : 0 <= a <= b -> b <= K -> slice (take (Z.to_nat K) D) a b = slice D a b.
Proof. intros Ha Hb. unfold slice. rewrite skipn_firstn_comm, take_take. f_equal. lia. Qed.

Lemma slice_app X Y a b : 0 <= a <= b -> b <= len X -> slice (X ++ Y) a b = slice X a b.
Proof.
  intros Ha Hb. unfold slice, len in *. rewrite drop_app_le by lia. rewrite take_app_le; [done|]. rewrite length_drop. lia.
Qed.

Section Cut.
(** The file holds the part [F] of the log and then any bytes [g]. *)
Context (F g : bytes) (Hquiet : quiet (F ++ g) (len F)).

Notation G := (F ++ g).

Lemma drop_G o : 0 <= o <= len F -> drop (Z.to_nat o) G = drop (Z.to_nat o) F ++ g.
Proof. intros Ho. apply drop_app_le. unfold len in Ho. lia. Qed.

(** There is no chunk where the log was cut in a chunk, *)
Lemma torn_none o ty p Y :
  0 <= o <= len F -> drop (Z.to_nat o) F ++ Y = chunk ln ty p -> Y <> [] -> chunk_ty ty -> o mod blockSize + 11 + len p <= blockSize ->
  chunk_end G o = None.
Proof.
  intros Ho HF HY Hty Hfit. destruct (chunk_end G o) as [e|] eqn:E; [|done]. exfalso. pose proof blockSize_val as HBS.
  pose proof (Z.div_mod o blockSize ltac:(done)) as Hdm. pose proof (Z.mod_pos_bound o blockSize ltac:(done)). pose proof (len_nonneg p).
  assert (HlF : len (drop (Z.to_nat o) F) < 11 + len p).
  { rewrite <-(len_chunk ln ty p), <-HF, len_app. destruct Y; [done|]. rewrite len_cons. pose proof (len_nonneg Y). lia. }
  destruct (Hquiet o e ltac:(lia) E) as [H7 He]. apply chunk_end_spec in E as (D & ED & (_ & _ & En & _)%accepts_spec & _); [|lia].
  assert (Hl : len (drop (Z.to_nat o) F) = len F - o) by (unfold len; rewrite length_drop; unfold len in *; lia).
  assert (Hs : forall a b, 0 <= a <= b -> b <= 7 -> slice D a b = slice (chunk ln ty p) a b).
  { intros a b Ha Hb. rewrite ED, drop_G, slice_take, slice_app, <-HF, slice_app by lia. done. }
  destruct (chunk_header ty p [] Hty ltac:(lia)) as (_ & C2 & C3 & _). cbv zeta in C2, C3. rewrite app_nil_r in C2, C3.
  fold (slice (chunk ln ty p) 4 6) in C2. fold (slice (chunk ln ty p) 6 7) in C3. rewrite !Hs, C2, C3 in En by lia.
  unfold chunk_ty in Hty. rewrite (proj2 (Z.leb_le 5 ty)), (proj2 (Z.leb_le ty 8)) in En by lia. cbn [andb] in En. lia.
Qed.

(** in the zeros of a padding, *)
Lemma pad_none o D Y j : 0 <= o <= len F -> drop (Z.to_nat o) F = D -> D ++ Y = pad j -> chunk_end G o = None.
Proof.
  intros Ho HF HY. destruct (chunk_end G o) as [e|] eqn:E; [|done]. exfalso. destruct (Hquiet o e ltac:(lia) E) as [H7 He].
  apply chunk_end_spec in E as (X & EX & Ha & _); [|lia]. rewrite drop_G, HF in EX by done.
  assert (Hz : D = replicate (length D) 0).
  { unfold pad in HY. destruct (_ <? _); [|by destruct D, Y]. apply (f_equal (take (length D))) in HY.
    rewrite take_app_length, take_replicate in HY. rewrite HY at 1. f_equal. apply (f_equal length) in HY. rewrite length_replicate in HY. lia. }
  rewrite (accepts_zeros X (7 `min` Z.to_nat ((o / blockSize + 1) * blockSize - o) `min` length D)) in Ha; [done|].
  apply (f_equal length) in HF. rewrite length_drop in HF. unfold len in *.
  rewrite EX, take_take, take_app_le, Hz, take_replicate by lia. by rewrite length_replicate.
Qed.

(** and behind the cut. *)
Lemma behind_none o : len F <= o < len F + 11 -> chunk_end G o = None.
Proof.
  intros Ho. destruct (chunk_end G o) as [e|] eqn:E; [|done]. pose proof (len_nonneg F). destruct (Hquiet o e ltac:(lia) E). lia.
Qed.

(** The reader after the last chunk of a record whose padding is cut short. *)
Lemma cut_pad o r j D' Y :
  phys G o r -> 0 <= o <= len F -> drop (Z.to_nat o) F = D' -> D' ++ Y = pad j -> Y <> [] -> (o - j) mod blockSize = 0 -> 0 < j <= blockSize ->
  ended G r.
Proof.
  intros Hp Ho HF HY HYne Hj Hjb. exists (o + len (pad j)). pose proof blockSize_val as HBS. pose proof (pad_none o D' Y j Ho HF HY) as Hn.
  pose proof (f_equal len HY) as Hl. rewrite len_app, <-HF in Hl.
  assert (len (drop (Z.to_nat o) F) = len F - o) by (unfold len; rewrite length_drop; unfold len in *; lia).
  assert (0 < len Y) by (destruct Y; [done|rewrite len_cons; pose proof (len_nonneg Y); lia]).
  assert (Hpad : len (pad j) = blockSize - j /\ blockSize - j < 11).
  { unfold pad in *. change recyclableHeaderSize with 11 in *. destruct (Z.ltb_spec (blockSize - j) 11); [|by destruct D', Y].
    unfold len. rewrite length_replicate. lia. }
  destruct Hpad as [Ep Hpad]. rewrite Ep in *.
  assert (Hm : (o + (blockSize - j)) mod blockSize = 0).
  { replace (o + (blockSize - j)) with (o - j + 1 * blockSize) by lia. by rewrite Z.mod_add by lia. }
  split; [exists o; split; [done|]; split; [lia|done]|]. split; [lia|]. apply behind_none. lia.
Qed.

(** A chunk that is all there. *)
Lemma whole o ty q D' :
  0 <= o <= len F -> drop (Z.to_nat o) F = chunk ln ty q ++ D' ->
  drop (Z.to_nat o) G = chunk ln ty q ++ D' ++ g /\ drop (Z.to_nat (o + 11 + len q)) F = D' /\
  drop (Z.to_nat (o + 11 + len q)) G = D' ++ g /\
  (length (drop (Z.to_nat o) G) = 11 + length q + length (D' ++ g))%nat /\ o + 11 + len q <= len F.
Proof.
  intros Ho HF. assert (HG : drop (Z.to_nat o) G = chunk ln ty q ++ D' ++ g) by (rewrite drop_G, HF, <-app_assoc by done; done).
  split; [done|]. destruct (drop_past F o ty q D' ltac:(lia) HF) as [HF' HlF]. split; [done|].
  destruct (drop_past G o ty q _ ltac:(lia) HG) as [HG' HlG]. split; [done|]. split; [done|].
  rewrite length_drop in HlF. unfold len in *. lia.
Qed.

(** The rest of a record whose chunks are cut short. *)
Lemma read_rest_torn size fuel o r u p acc Y :
  1 <= size -> phys G o r -> o <= len F -> unread r u -> last_ r = false -> o mod blockSize = 0 -> p <> [] -> (length p <= fuel)%nat ->
  drop (Z.to_nat o) F ++ Y = enc_frags fuel ln false 0 p -> Y <> [] ->
  exists r', 
    (exists b e, stops false e /\ forall rf, (length u + length (drop (Z.to_nat o) G) < rf)%nat -> read_record rf (rseq r) r size acc = Ok (r', b, Some e)) \/
    (ended G r' /\ forall rf, (length u + length (drop (Z.to_nat o) G) < rf)%nat -> read_record rf (rseq r) r size acc = Ok (r', acc ++ u ++ p, None)).
Proof.
  intros Hsz. revert o r u p acc. induction fuel as [|fuel IH]; intros o r u p acc Hp HoF Hu HL Ho Hne Hf HF HY; [by destruct p; cbn in Hf; [|lia]|].
  pose proof (phys_bounds _ _ _ Hp) as [Ho0 _]. pose proof blockSize_val as HBS. pose proof (len_nonneg p).
  destruct (consume G o r u size Hsz Hp Hu) as (c & r0 & Hc & P0 & U0 & L0 & Q0 & G0). rewrite HL in L0.
  cbn [enc_frags] in *. change recyclableHeaderSize with 11 in *. rewrite Z.sub_0_r in *.
  assert (Htorn : forall ty q Y', chunk_ty ty -> drop (Z.to_nat o) F ++ Y' = chunk ln ty q -> Y' <> [] -> len q <= blockSize - 11 ->
    exists r' b e, stops false e /\ forall rf, (length u + length (drop (Z.to_nat o) G) < rf)%nat -> read_record rf (rseq r) r size acc = Ok (r', b, Some e)).
  { intros ty q Y' Hty HFq HY' Hq. destruct (stuck G r0 false) as (r1 & e & Hn & Hst).
    { exists o. split; [apply stand_at, phys_at; done|]. split; [lia|]. apply (torn_none o ty q Y'); try done; lia. }
    exists (set_err r1 (Some e)), (acc ++ u), e. split; [done|]. intros rf Hrf. replace rf with (c + S (rf - c - 1))%nat by lia.
    rewrite G0, <-Q0. apply hop_torn; (apply P0 || done). }
  destruct (Z.leb_spec (len p) (blockSize - 11)) as [Hle|Hgt].
  - destruct (chunk_type_facts false true) as (T1 & T2 & T3). set (ty := chunk_type false true) in *.
    apply split_chunk in HF as [(Y' & HY' & HF)|(D' & HF & HD')].
    { destruct (Htorn ty p Y' T1 HF HY' Hle) as (r' & b & e & He). exists r'. left. by exists b, e. }
    destruct (whole o ty p D' ltac:(lia) HF) as (HG & HF' & HG' & Hlen & HoF').
    destruct (fetch G o r0 ty p _ size P0 U0 L0 HG ltac:(lia) T1 Hne) as (r1 & P1 & U1 & L1 & Q1 & G1). rewrite T2 in L1.
    destruct (consume G _ r1 p size Hsz P1 U1) as (c2 & r2 & Hc2 & P2 & U2 & L2 & Q2 & G2).
    exists r2. right. split.
    + apply (cut_pad _ _ (0 + 11 + len p) D' Y P2); try done; try lia.
      replace (o + 11 + len p - (0 + 11 + len p)) with o by lia. done.
    + intros rf Hrf. replace rf with (c + S (rf - c - 1))%nat by lia. rewrite G0. rewrite <-Q0, G1, <-Q1.
      replace (S (rf - c - 1)) with (c2 + S (rf - c - c2 - 1))%nat by lia. rewrite G2, <-Q2, record_end; [by rewrite <-app_assoc|apply P2|done|congruence].
  - destruct (chunk_type_facts false false) as (T1 & T2 & T3). set (ty := chunk_type false false) in *.
    set (q := take (Z.to_nat (blockSize - 11)) p) in *. set (p' := drop (Z.to_nat (blockSize - 11)) p) in *.
    assert (Lq : len q = blockSize - 11) by (unfold q, len in *; rewrite length_take; lia).
    assert (Lp : (length p' + length q = length p)%nat) by (unfold p', q; rewrite length_drop, length_take; lia).
    assert (Hq : q <> []) by (intros ->; rewrite len_nil in Lq; lia).
    apply split_chunk in HF as [(Y' & HY' & HF)|(D' & HF & HD')].
    { destruct (Htorn ty q Y' T1 HF HY' ltac:(lia)) as (r' & b & e & He). exists r'. left. by exists b, e. }
    destruct (whole o ty q D' ltac:(lia) HF) as (HG & HF' & HG' & Hlen & HoF').
    destruct (fetch G o r0 ty q _ size P0 U0 L0 HG ltac:(lia) T1 Hq) as (r1 & P1 & U1 & L1 & Q1 & G1). rewrite T2 in L1.
    destruct (IH (o + 11 + len q) r1 q p' (acc ++ u)) as (r' & H'); [done|done|done|done| | | |by rewrite HF'|done|].
    + rewrite Lq. replace (o + 11 + (blockSize - 11)) with (o + 1 * blockSize) by lia. by rewrite Z.mod_add by lia.
    + intros E. rewrite E in Lp. unfold len in *. cbn in Lp. lia.
    + destruct q; [done|]. cbn in Lp. lia.
    + exists r'. destruct H' as [(b & e & Hst & G')|[Hpad G']]; [left; exists b, e; split; [done|]|right; split; [done|]].
      all: intros rf Hrf; replace rf with (c + S (rf - c - 1))%nat by lia; rewrite G0, <-Q0, G1, <-Q1, G' by (rewrite HG'; lia).
      * done.
      * unfold q, p'. by rewrite take_drop, <-app_assoc.
Qed.

(** A record that is cut short: its first chunk is not found, a later one is
    not found, or only padding is missing. *)
Lemma read_one_torn o r p size Y :
  1 <= size -> at_ G o r -> o <= len F -> o mod blockSize + 11 <= blockSize ->
  drop (Z.to_nat o) F ++ Y = enc_record ln (o mod blockSize) p -> Y <> [] ->
  exists r1 e, Next r = Ok (r1, e) /\
    match e with
    | Some e => stops true e
    | None =>
        exists r' b e, read_record (S (length (buf r1) + length (input r1))) (rseq r1) r1 size [] = Ok (r', b, e) /\
          match e with Some e => stops false e | None => b = p /\ ended G r' end
    end.
Proof.
  intros Hsz Hat HoF Hroom HF HY. destruct (Next_nextChunk G o r Hat) as (r0 & Hat0 & Hstart).
  pose proof blockSize_val as HBS. pose proof (Z.div_mod o blockSize ltac:(done)) as Hdm. pose proof (Z.mod_pos_bound o blockSize ltac:(done)) as Hm.
  destruct (at_bounds _ _ _ Hat) as [Ho _]. pose proof (len_nonneg p). set (i := o mod blockSize) in *. unfold enc_record in *. cbn [enc_frags] in *.
  change recyclableHeaderSize with 11 in *. set (room := blockSize - i - 11) in *.
  assert (Htorn : forall ty q Y', chunk_ty ty -> drop (Z.to_nat o) F ++ Y' = chunk ln ty q -> Y' <> [] -> len q <= room ->
    exists r1 e, Next r = Ok (r1, Some e) /\ stops true e).
  { intros ty q Y' Hty HFq HY' Hq. apply (Next_stuck G). exists o. split; [by apply stand_at|]. split; [done|].
    apply (torn_none o ty q Y'); try done; fold i; lia. }
  destruct (Z.leb_spec (len p) room) as [Hle|Hgt].
  - destruct (chunk_type_facts true true) as (T1 & T2 & T3). set (ty := chunk_type true true) in *.
    apply split_chunk in HF as [(Y' & HY' & HF)|(D' & HF & HD')].
    { destruct (Htorn ty p Y' T1 HF HY' Hle) as (r1 & e & He & Hst). by exists r1, (Some e). }
    destruct (whole o ty p D' ltac:(lia) HF) as (HG & HF' & HG' & Hlen & HoF').
    destruct (chunk_read G o r0 true ty p _ Hat0 HG ltac:(lia) T1 T3) as (r1 & Hn & P1 & U1 & L1 & Q1). rewrite T2 in L1.
    destruct (consume G _ r1 p size Hsz P1 U1) as (c2 & r2 & Hc2 & P2 & U2 & L2 & Q2 & G2).
    exists r1, None. specialize (Hn _ (chunk_fuel_3 r0)). apply Hstart in Hn. unfold started in Hn. rewrite (set_err_phys _ _ _ P1) in Hn. split; [done|].
    exists r2, p, None. split; [|split; [done|]].
    + pose proof (record_fuel G _ _ _ P1 U1) as Hf. rewrite (split_fuel c2 (S (length (buf r1) + length (input r1)))) by lia.
      rewrite G2, <-Q2, record_end; [done|apply P2|done|congruence].
    + apply (cut_pad _ _ (i + 11 + len p) D' Y P2); try done; try lia.
      replace (o + 11 + len p - (i + 11 + len p)) with (o / blockSize * blockSize) by lia. by apply Z.mod_mul.
  - destruct (chunk_type_facts true false) as (T1 & T2 & T3). set (ty := chunk_type true false) in *.
    set (q := take (Z.to_nat room) p) in *. set (p' := drop (Z.to_nat room) p) in *.
    assert (Lq : len q = room) by (unfold q, len in *; rewrite length_take; lia).
    assert (Lp : (length p' + length q = length p)%nat) by (unfold p', q; rewrite length_drop, length_take; lia).
    apply split_chunk in HF as [(Y' & HY' & HF)|(D' & HF & HD')].
    { destruct (Htorn ty q Y' T1 HF HY' ltac:(lia)) as (r1 & e & He & Hst). by exists r1, (Some e). }
    destruct (whole o ty q D' ltac:(lia) HF) as (HG & HF' & HG' & Hlen & HoF').
    destruct (chunk_read G o r0 true ty q _ Hat0 HG ltac:(lia) T1 T3) as (r1 & Hn & P1 & U1 & L1 & Q1). rewrite T2 in L1.
    exists r1, None. specialize (Hn _ (chunk_fuel_3 r0)). apply Hstart in Hn. unfold started in Hn. rewrite (set_err_phys _ _ _ P1) in Hn. split; [done|].
    destruct (read_rest_torn size (length p) (o + 11 + len q) r1 q p' [] Y Hsz P1 HoF' U1 L1) as (r' & H'); [| |lia|by rewrite HF'|done|].
    + replace (o + 11 + len q) with ((o / blockSize + 1) * blockSize) by lia. by apply Z.mod_mul.
    + intros E. rewrite E in Lp. unfold len in *. cbn in Lp. lia.
    + exists r'. destruct H' as [(b & e & Hst & G')|[Hpad G']]; eexists _, _; (split; [apply G'; by apply (record_fuel G)|]); [done|].
      split; [|done]. unfold q, p'. by rewrite take_drop.
Qed.

(** A log whose last record is cut short. *)
Lemma read_cut o r p size Y fuel :
  1 <= size -> at_ G o r -> o <= len F -> o mod blockSize + 11 <= blockSize ->
  drop (Z.to_nat o) F ++ Y = enc_record ln (o mod blockSize) p -> Y <> [] -> (2 <= fuel)%nat ->
  exists qs e, read_log fuel size r = Ok (qs, e) /\ stops true e /\ (qs = [] \/ qs = [p]).
Proof.
  intros Hsz Hat HoF Hroom HF HY Hf. destruct fuel as [|[|fuel]]; [lia..|].
  destruct (read_one_torn o r p size Y Hsz Hat HoF Hroom HF HY) as (r1 & e & Hn & He). cbn [read_log]. rewrite Hn. cbn [rbind].
  destruct e as [e|]; [exists [], e; auto|]. destruct He as (r' & b & e & Hrd & He). rewrite Hrd. cbn [rbind].
  destruct e as [e|].
  { exists [], e. split; [done|]. split; [|by left]. destruct He as [He|[? _]]; [by left|done]. }
  destruct He as [-> Hend]. destruct (Next_stuck G r' Hend) as (r2 & e & -> & Hst). cbn [rbind]. exists [p], e. auto.
Qed.

(** The log ends between two records. *)
Lemma read_end o r size fuel :
  at_ G o r -> o mod blockSize + 11 <= blockSize -> o = len F ->
  exists e, read_log (S fuel) size r = Ok ([], e) /\ stops true e.
Proof.
  intros Hat Hroom Ho. destruct (Next_stuck G r) as (r1 & e & Hn & Hst).
  { exists o. split; [by apply stand_at|]. split; [done|]. apply behind_none. lia. }
  exists e. cbn [read_log]. by rewrite Hn.
Qed.

(** Any prefix of a log: the records that are whole, and possibly the one
    that misses only its padding. *)
Lemma read_any size ps :
  1 <= size -> forall o r Y n fuel, at_ G o r -> o <= len F -> o mod blockSize + 11 <= blockSize ->
  drop (Z.to_nat o) F ++ Y = enc_log ln (o mod blockSize) ps ->
  len (enc_log ln (o mod blockSize) (take n ps)) <= len (drop (Z.to_nat o) F) -> (n <= length ps)%nat ->
  (length (drop (Z.to_nat o) F) + 2 <= fuel)%nat ->
  exists m e, (n <= m)%nat /\ read_log fuel size r = Ok (take m ps, e) /\ stops true e.
Proof.
  intros Hsz. induction ps as [|p ps IH]; intros o r Y n fuel Hat HoF Hroom HF Hlen Hn Hf.
  { destruct fuel as [|fuel]; [lia|]. apply app_eq_nil in HF as [HF ->]. destruct (read_end o r size fuel Hat Hroom) as (e & He & Hst).
    - apply (f_equal length) in HF. rewrite length_drop in HF. cbn in HF. destruct (at_bounds _ _ _ Hat). unfold len in *. lia.
    - exists 0%nat, e. by cbn in *. }
  cbn [enc_log] in HF. set (c := enc_record ln (o mod blockSize) p) in *. pose proof (record_size (o mod blockSize) p) as Hc. fold c in Hc.
  destruct (at_bounds _ _ _ Hat) as [Ho _]. pose proof (Z.mod_pos_bound o blockSize ltac:(done)) as Hm.
  apply split_chunk in HF as [(Y' & HY' & HF)|(D' & HF & HD')].
  - destruct (read_cut o r p size Y' fuel Hsz Hat HoF Hroom HF HY' ltac:(lia)) as (qs & e & Hrd & Hst & Hqs).
    assert (n = 0%nat) as ->.
    { destruct n as [|n]; [done|]. cbn [take enc_log] in Hlen. fold c in Hlen. rewrite <-HF, !len_app in Hlen.
      destruct Y'; [done|]. rewrite len_cons in Hlen. pose proof (len_nonneg Y').
      pose proof (len_nonneg (enc_log ln ((o mod blockSize + (len (drop (Z.to_nat o) F) + (1 + len Y'))) mod blockSize) (take n ps))). lia. }
    destruct Hqs as [->| ->]; [exists 0%nat, e|exists 1%nat, e; cbn [take]; rewrite take_0]; (split; [lia|done]).
  - assert (HG : drop (Z.to_nat o) G = c ++ D' ++ g) by (rewrite drop_G, HF, <-app_assoc by lia; done).
    destruct (read_one G o r p size _ Hsz Hat Hroom HG) as (r1 & r' & Hnx & Hat' & Hrd). fold c in Hat'.
    destruct (next_position F o _ c _ Ho eq_refl HF) as [HF' Hmod]. rewrite Hmod in *.
    pose proof (f_equal length HF) as Hl. rewrite length_app, length_drop in Hl. unfold len in Hc.
    destruct fuel as [|fuel]; [lia|].
    destruct (IH (o + len c) r' Y (pred n) fuel) as (m & e & Hmn & Hrec & Hst); [done|unfold len in *; lia| |by rewrite HF'| |cbn in Hn; lia|rewrite HF'; rewrite length_drop in Hf; lia|].
    { rewrite <-Hmod. apply record_room; lia. }
    { rewrite HF'. destruct n as [|n]; [rewrite take_0; apply len_nonneg|]. cbn [take enc_log Nat.pred] in *. fold c in Hlen.
      rewrite HF, !len_app, Hmod in Hlen. lia. }
    exists (S m), e. split; [lia|]. split; [|done]. cbn [read_log]. rewrite Hnx. cbn [rbind]. rewrite Hrd. cbn [rbind]. by rewrite Hrec.
Qed.
End Cut.
End ReaderProps.

(** ** The guarantees of the log *)

Lemma NewLogWriter_ok logNum : lw_ok (NewLogWriter logNum) /\ lw_room (NewLogWriter logNum).
Proof. split; [|done]. split; cbn; [lia|constructor|done|apply u32_range]. Qed.

Lemma NewReader_u32 F logNum : NewReader F (u32 logNum) = NewReader F logNum.
Proof. unfold NewReader. rewrite (u32_small (u32 logNum)); [done|apply u32_range]. Qed.

Lemma writes_spec logNum os :
  Forall short (recs os) -> exists w, write_all (NewLogWriter logNum) os = Ok w /\ lw_ok w /\ lw_room w /\ wlogNum w = u32 logNum /\
    stream w = enc_log (u32 logNum) 0 (recs os) /\ WSize w = len (stream w).
Proof.
  intros Hsh. destruct (NewLogWriter_ok logNum) as [H1 H2].
  destruct (write_all_spec os _ H1 H2 Hsh) as (w & Hw & W1 & W2 & W3 & W4 & W5).
  exists w. split; [done|]. split; [done|]. split; [done|]. split; [done|]. split; [exact W4|]. rewrite W5, W4. cbn. done.
Qed.

Lemma enc_log_length ln i ps : (length ps <= length (enc_log ln i ps))%nat.
Proof.
  revert i. induction ps as [|p ps IH]; intros i; cbn [enc_log length]; [lia|]. rewrite length_app.
  pose proof (record_size ln i p) as H. unfold len in H. specialize (IH ((i + len (enc_record ln i p)) mod blockSize)). lia.
Qed.

Lemma write_all_app w os1 os2 : write_all w (os1 ++ os2) = let! w' := write_all w os1 in write_all w' os2.
Proof.
  revert w. induction os1 as [|[p|] os1 IH]; intros w; cbn [app write_all]; [done| |apply IH].
  destruct (WriteRecord w p) as [[w' s]| |]; cbn [rbind]; [apply IH|done..].
Qed.

Lemma recs_app os1 os2 : recs (os1 ++ os2) = recs os1 ++ recs os2.
Proof. apply omap_app. Qed.

(** A closed log, with anything behind its trailer. *)
Lemma read_closed logNum os w size garbage fuel :
  1 <= size -> Forall short (recs os) -> write_all (NewLogWriter logNum) os = Ok w ->
  let F := sink (Close w) ++ garbage in (length F < fuel)%nat ->
  read_log fuel size (NewReader F logNum) = Ok (recs os, ErrEOF).
Proof.
  intros Hsz Hsh Hw0. destruct (writes_spec logNum os Hsh) as (w' & Hw & W1 & W2 & W3 & W4 & _).
  assert (w' = w) as -> by congruence. cbv zeta.
  rewrite (Close_spec w W1 W2), W3, W4, <-app_assoc, <-NewReader_u32. set (ln := u32 logNum).
  assert (Hln : 0 <= ln < 4294967296) by apply u32_range. set (F := enc_log ln 0 (recs os) ++ trailer ln ++ garbage). intros Hf.
  destruct (read_prefix ln Hln F size (recs os) Hsz 0 (NewReader F ln) (trailer ln ++ garbage)) as (o & r & Hat & Hroom & HF & _ & Hgo);
    [by apply NewReader_at|done|done|].
  destruct (Next_nextChunk ln F o r Hat) as (r0 & Hat0 & Hstart).
  destruct (trailer_eof ln Hln F o r0 garbage Hat0 HF Hroom) as (r1 & Hn). specialize (Hn _ (chunk_fuel_3 r0)). apply Hstart in Hn. unfold started in Hn.
  assert (Hlen : (length (recs os) <= length (enc_log ln 0 (recs os)))%nat) by apply enc_log_length.
  replace fuel with (length (recs os) + S (fuel - S (length (recs os))))%nat by (unfold F in Hf; rewrite length_app in Hf; lia).
  rewrite Hgo. cbn [read_log]. rewrite Hn. cbn [rbind]. by rewrite app_nil_r.
Qed.

(** A log cut short, with anything behind it that is not taken for a chunk: at
    least the [n] records whose encoding is there. *)
Lemma read_over logNum os w size F g n fuel :
  1 <= size -> Forall short (recs os) -> write_all (NewLogWriter logNum) os = Ok w -> F `prefix_of` stream w ->
  quiet (u32 logNum) (F ++ g) (len F) ->
  (n <= length (recs os))%nat -> len (enc_log (u32 logNum) 0 (take n (recs os))) <= len F -> (length F + 2 <= fuel)%nat ->
  exists m e, (n <= m)%nat /\ read_log fuel size (NewReader (F ++ g) logNum) = Ok (take m (recs os), e) /\
    (e = ErrEOF \/ IsInvalidRecord e = true).
Proof.
  intros Hsz Hs Hw0 [Y HF] Hq Hn Hsize Hf. destruct (writes_spec logNum os Hs) as (w' & Hw & _ & _ & _ & V4 & _).
  assert (w' = w) as -> by congruence. rewrite V4 in HF.
  set (ln := u32 logNum) in *. assert (Hln : 0 <= ln < 4294967296) by apply u32_range. rewrite <-NewReader_u32. fold ln.
  destruct (read_any ln Hln F g Hq size (recs os) Hsz 0 (NewReader (F ++ g) ln) Y n fuel) as (m & e & Hm & Hrd & Hst); try done.
  - by apply NewReader_at.
  - apply len_nonneg.
  - exists m, e. split; [done|]. split; [done|]. destruct Hst as [?|[_ ?]]; auto.
Qed.

(** In particular, with nothing behind it. *)
Lemma read_torn logNum os w size F n :
  1 <= size -> Forall short (recs os) -> write_all (NewLogWriter logNum) os = Ok w -> F `prefix_of` stream w ->
  (n <= length (recs os))%nat -> len (enc_log (u32 logNum) 0 (take n (recs os))) <= len F ->
  exists m e, (n <= m)%nat /\ read_log (length F + 2) size (NewReader F logNum) = Ok (take m (recs os), e) /\
    (e = ErrEOF \/ IsInvalidRecord e = true).
Proof.
  intros. pose proof (read_over logNum os w size F [] n (length F + 2)) as Hr. rewrite app_nil_r in Hr. apply Hr; try done. apply quiet_end.
Qed.

(** C3: a log that was closed is read back exactly.  Whatever records of
    less than 2 GiB are written, in any interleaving with the turns of the
    flush loop, no write fails, and a replay of the file returns the records
    in order and then the end of the file -- also when the file is a recycled
    one in which arbitrary bytes of an older log follow the trailer. *)
Theorem record_roundtrip logNum os size garbage :
  1 <= size -> Forall short (recs os) ->
  exists w, write_all (NewLogWriter logNum) os = Ok w /\
    let F := sink (Close w) ++ garbage in
    read_log (S (length F)) size (NewReader F logNum) = Ok (recs os, ErrEOF).
Proof.
  intros Hsz Hsh. destruct (writes_spec logNum os Hsh) as (w & Hw & _). exists w. split; [done|]. cbv zeta.
  apply (read_closed logNum os w); try done. lia.
Qed.

(** C12: a crash loses only the tail.  Let [w1] be the writer after some
    operations and [w2] after more.  Whatever prefix of the bytes of [w2]
    the file holds, if it reaches the size the log had at [w1], a replay
    returns all records written up to [w1] and then a prefix of the later
    ones, unchanged, and stops with the end of the file or with one of the
    errors that a replay takes as the end of the log. *)
Theorem record_torn_tail logNum os1 os2 size :
  1 <= size -> Forall short (recs os1) -> Forall short (recs os2) ->
  exists w1 w2, write_all (NewLogWriter logNum) os1 = Ok w1 /\ write_all w1 os2 = Ok w2 /\
    forall F, F `prefix_of` stream w2 -> WSize w1 <= len F ->
    exists n e, read_log (length F + 2) size (NewReader F logNum) = Ok (recs os1 ++ take n (recs os2), e) /\
      (e = ErrEOF \/ IsInvalidRecord e = true).
Proof.
  intros Hsz Hs1 Hs2. destruct (writes_spec logNum os1 Hs1) as (w1 & Hw1 & W1 & W2 & W3 & W4 & W5).
  destruct (write_all_spec os2 w1 W1 W2 Hs2) as (w2 & Hw2 & _). exists w1, w2. split; [done|]. split; [done|]. intros F HF Hsize.
  destruct (read_torn logNum (os1 ++ os2) w2 size F (length (recs os1)) Hsz) as (m & e & Hm & Hrd & Hst); rewrite ?recs_app; try done.
  - by apply Forall_app.
  - by rewrite write_all_app, Hw1.
  - rewrite length_app. lia.
  - rewrite take_app_length. by rewrite <-W4, <-W5.
  - exists (m - length (recs os1))%nat, e. rewrite Hrd, recs_app, take_app_ge by lia. done.
Qed.

Definition demo_ops : list wop := [WRec [1; 2; 3]; WFlush; WRec []; WRec [7]].

Lemma record_roundtrip_witness :
  exists w, write_all (NewLogWriter 9) demo_ops = Ok w /\
    let F := sink (Close w) ++ [5; 5; 5] in
    read_log (S (length F)) 2 (NewReader F 9) = Ok ([[1; 2; 3]; []; [7]], ErrEOF).
Proof. apply (record_roundtrip 9 demo_ops 2 [5; 5; 5]); [lia|repeat constructor]. Defined.

Lemma record_torn_tail_witness :
  exists w1 w2, write_all (NewLogWriter 9) [WRec [1; 2; 3]] = Ok w1 /\ write_all w1 [WRec [4; 5]; WFlush] = Ok w2 /\
    forall F, F `prefix_of` stream w2 -> WSize w1 <= len F ->
    exists n e, read_log (length F + 2) 512 (NewReader F 9) = Ok ([[1; 2; 3]] ++ take n [[4; 5]], e) /\
      (e = ErrEOF \/ IsInvalidRecord e = true).
Proof. apply (record_torn_tail 9 [WRec [1; 2; 3]] [WRec [4; 5]; WFlush] 512); [lia|repeat constructor..]. Defined.
