(* ===== verification/PlainDB.v ===== *)
(** The plain store (plain_db.go, plain_flush.go, open.go): the queue of
    memtables, the write-ahead logs behind it, the rotation of both, flushes
    and the replay of logs.

    The state [plainDB] is what [p.mu] guards, with the WAL directory.  The
    mutable memtable is the last entry of the queue; an entry keeps the number
    that names it ([fe_id], the pointer in the code) and, as a history
    variable no operation reads, the batches logged for it ([fe_hist]).
    [event]s are the sections between two releases of [p.mu]: an iteration of
    [makeRoomForWrite] up to the switch of logs, the switch, the parts of
    [commitWrite] before and after it, [commitApply], and the sections of
    [flush1].  [commit.mu] admits one writer at a time to these, the [phase]
    of the state.  What the file system answers is an argument of the event.
    [logSize] is never read by the code and is left out; reference counts are
    in ReadState. *)

From Stdlib Require Import ZArith Lia.
From stdpp Require Import base numbers option gmap sorting list.
From S2P Require Import Prelude Base Arena Batch Iter MergingIter CompactionIter UserIter FlushableBatch Table ArrayTable PlainFlush Meta WalFiles Skl MemTable Record.

Module PlainDB.

(** ** The interface [flushable] and its implementations *)

Inductive flushable : Type :=
| FMem (m : memTable)
| FBatch (fb : flushableBatch)
| FTable (a : arrayTable).

Section Flushable.
Context (junk : bytes -> nat -> Z) (cmp : bytes -> bytes -> Z).

Definition f_get (f : flushable) (key : bytes) : outcome (bytes * bool * Z) :=
  match f with FMem m => mget cmp m key | FBatch fb => fb_get junk cmp fb key | FTable a => ArrayTable.get a key end.

Definition f_totalBytes (f : flushable) : Z :=
  match f with FMem m => MemTable.totalBytes m | FBatch fb => fb_totalBytes fb | FTable a => ArrayTable.totalBytes a end.

Definition f_empty (f : flushable) : bool :=
  match f with FMem m => mempty m | FBatch fb => fb_empty fb | FTable a => ArrayTable.empty a end.

Definition f_readyForFlush (f : flushable) : bool :=
  match f with FMem m => readyForFlush m | FBatch _ | FTable _ => true end.

Definition f_newIter (lo up : option bytes) (f : flushable) : Iter :=
  match f with
  | FMem m => mkIter SIterator (sklOps cmp) (NewIter (skl m) lo up)
  | FBatch fb => mkIter flushableBatchIter (fbOps junk cmp) (fb_newIter fb lo up)
  | FTable a => mkIter arrayTableIterator atOps (ArrayTable.newIter a lo up)
  end.

(** The flush iterator of an array table overrides [First] and [Next]; the rest
    is inherited from the iterator it embeds. *)
Definition atFlushOps : iterOps (arrayTableIterator * Z) := {|
  itSeekGE k s := let! (i, kv) := aSeekGE k s.1 in Ok ((i, s.2), kv);
  itSeekPrefixGE p k t s := let! (i, kv) := itSeekPrefixGE atOps p k t s.1 in Ok ((i, s.2), kv);
  itSeekLT k s := let! (i, kv) := aSeekLT k s.1 in Ok ((i, s.2), kv);
  itFirst := afFirst;
  itLast s := let! (i, kv) := aLast s.1 in Ok ((i, s.2), kv);
  itNext := afNext;
  itPrev s := let! (i, kv) := aPrev s.1 in Ok ((i, s.2), kv);
  itError s := itError atOps s.1;
  itSetBounds lo up s := (itSetBounds atOps lo up s.1, s.2)
|}.

Definition f_newFlushIter (f : flushable) : Iter :=
  match f with
  | FMem m => mkIter flushIter (sklFlushOps cmp) (NewFlushIter (skl m) 0)
  | FBatch fb => mkIter flushState (flushOps junk cmp) (fb_newFlushIter fb 0)
  | FTable a => mkIter (arrayTableIterator * Z) atFlushOps (ArrayTable.newIter a None None, 0)
  end.

End Flushable.

Record fentry : Type := mkEntry {
  fe_fl : flushable; fe_id : nat; fe_logNum : Z; fe_logSeqNum : Z; fe_forced : bool; fe_hist : list bytes
}.

Definition with_fl (e : fentry) (f : flushable) : fentry :=
  mkEntry f (fe_id e) (fe_logNum e) (fe_logSeqNum e) (fe_forced e) (fe_hist e).

(** ** The write-ahead logs *)

(** [log_queue], the current log and its writer, the recycler and the files of
    the directory.  [log_dead]: the writer has been closed, or closing it
    failed; [log] then is the writer as it was before. *)
Record walState : Type := mkWal {
  log_queue : list fileInfo; log_num : Z; log : LogWriter; log_dead : bool; recycler : logRecycler; disk : gmap Z bytes
}.

Definition with_log (w : walState) (l : LogWriter) : walState :=
  mkWal (log_queue w) (log_num w) l (log_dead w) (recycler w) (disk w).

Definition with_recycler (w : walState) (r : logRecycler) : walState :=
  mkWal (log_queue w) (log_num w) (log w) (log_dead w) r (disk w).

(** Answers of the file system during a switch: closing the old log, creating
    or renaming the new one, [Stat], syncing the directory. *)
Record ioResults : Type := mkIO { io_close : option error; io_create : option error; io_stat : option error; io_sync : option error }.

Definition FirstError (err0 err1 : option error) : option error := match err0 with Some _ => err0 | None => err1 end.

Definition file_of (w : walState) (n : Z) : bytes := default [] (disk w !! n).

(** What a file holds when [d] is written from its start. *)
Definition overlay (d old : bytes) : bytes := d ++ drop (length d) old.

Definition close_log (w : walState) (ioerr : option error) : walState * option error :=
  if log_dead w then (w, Some ErrSys)
  else match ioerr with
       | Some e => (mkWal (log_queue w) (log_num w) (log w) true (recycler w) (disk w), Some e)
       | None =>
           (mkWal (log_queue w) (log_num w) (log w) true (recycler w)
              (<[log_num w := overlay (sink (Close (log w))) (file_of w (log_num w))]> (disk w)), None)
       end.

(** [ReuseForWrite] renames the recycled file and keeps its contents; [Create]
    makes an empty one. *)
Definition place_file (w : walState) (recycle : option fileInfo) (newLogNum : Z) : walState :=
  mkWal (log_queue w) (log_num w) (log w) (log_dead w) (recycler w)
    (match recycle with
     | Some f => <[newLogNum := file_of w (fileNum f)]> (delete (fileNum f) (disk w))
     | None => <[newLogNum := []]> (disk w)
     end).

(** The part of [makeRoomForWrite] that runs without [p.mu]: the size of the
    new file and the error, if any. *)
Definition switch_log (w : walState) (newLogNum : Z) (io : ioResults) : walState * Z * option error :=
  let '(w, err) := close_log w (io_close io) in
  let recycle := match err with None => WalFiles.peek (recycler w) | Some _ => None end in
  let '(w, err) :=
    match err with
    | Some _ => (w, err)
    | None => match io_create io with Some e => (w, Some e) | None => (place_file w recycle newLogNum, None) end
    end in
  let '(size, err) :=
    match err, recycle with
    | None, Some _ => match io_stat io with Some e => (0, Some e) | None => (len (file_of w newLogNum), None) end
    | _, _ => (0, err)
    end in
  let err := match err with None => io_sync io | Some _ => err end in
  match recycle with
  | None => (w, size, err)
  | Some f =>
      match WalFiles.pop (recycler w) (fileNum f) with
      | Ok r => (with_recycler w r, size, err)
      | Err e => (w, size, FirstError err (Some e))
      | Panic => (w, size, err)
      end
  end.

(** The new log joins the queue and gets a writer. *)
Definition append_log (w : walState) (newLogNum newLogSize : Z) : walState :=
  mkWal (log_queue w ++ [mkInfo newLogNum newLogSize]) newLogNum (NewLogWriter newLogNum) false (recycler w) (disk w).

(** The size of the current log is noted before the switch. *)
Definition note_size (w : walState) (prevLogSize : Z) : walState :=
  mkWal (match last (log_queue w) with
         | Some f => if fileSize f <? prevLogSize then removelast (log_queue w) ++ [mkInfo (fileNum f) prevLogSize] else log_queue w
         | None => log_queue w
         end) (log_num w) (log w) (log_dead w) (recycler w) (disk w).

(** [SyncRecord] as the store calls it: refused by a closed writer. *)
Definition log_record (w : walState) (repr : bytes) : outcome walState :=
  if log_dead w then Err ErrClosed
  else let! (l, _) := WriteRecord (log w) repr in Ok (with_log w l).

(** [doDeleteObsoleteFiles] *)
Definition doDeleteObsoleteFiles (w : walState) (minUnflushedLogNum : Z) : walState :=
  let '(obsolete, rest) := split_obsolete (log_queue w) minUnflushedLogNum in
  let '(r, deleted) := dispose (recycler w) obsolete in
  mkWal rest (log_num w) (log w) (log_dead w) r (foldl (fun d f => delete (fileNum f) d) (disk w) deleted).

(** [scanObsoleteFiles], on the listed logs with their sizes. *)
Definition scanObsoleteFiles (w : walState) (minUnflushedLogNum : Z) (flushing : bool) (list_ : list fileInfo) : walState :=
  if flushing then w
  else mkWal (WalFiles.merge (log_queue w) (filter (fun f => fileNum f < minUnflushedLogNum) list_)) (log_num w) (log w) (log_dead w)
         (recycler w) (disk w).

(** ** The store *)

Record config : Type := mkConfig {
  PlainMemTableSize : Z; PlainMemTableStopWritesThreshold : Z; PlainDisableWAL : bool
}.

(** A call of [makeRoomForWrite]: for a batch that goes into the memtable, for
    one that is queued itself, or for a manual flush ([b == nil]). *)
Inductive request : Type :=
| ReqSmall (b : Batch)
| ReqLarge (b : Batch) (fb : flushableBatch)
| ReqForce.

(** Where the holder of [commit.mu] stands: before an iteration of the loop
    with its [force], between the two halves of a switch of logs, or between
    [makeRoomForWrite] and the logging of its batch. *)
Inductive phase : Type :=
| Idle
| InRoom (r : request) (force : bool)
| InSwitch (r : request) (newLogNum : Z)
| Granted (b : Batch) (mem : nat).

(** A running [flush1]: the number of entries, the oldest log needed after it
    and the number of the new table once it is taken. *)
Record flushRun : Type := mkRun { run_n : nat; run_min : Z; run_table : option Z }.

Record plainDB : Type := mkDB {
  meta : Plain.metadata; arrtable : option fentry; wal : walState; queue : list fentry; next_id : nat;
  writer : phase; flushing : bool; flush_run : option flushRun
}.

Definition with_meta (p : plainDB) (m : Plain.metadata) : plainDB :=
  mkDB m (arrtable p) (wal p) (queue p) (next_id p) (writer p) (flushing p) (flush_run p).
Definition with_wal (p : plainDB) (w : walState) : plainDB :=
  mkDB (meta p) (arrtable p) w (queue p) (next_id p) (writer p) (flushing p) (flush_run p).
Definition with_queue (p : plainDB) (q : list fentry) : plainDB :=
  mkDB (meta p) (arrtable p) (wal p) q (next_id p) (writer p) (flushing p) (flush_run p).
Definition with_writer (p : plainDB) (ph : phase) : plainDB :=
  mkDB (meta p) (arrtable p) (wal p) (queue p) (next_id p) ph (flushing p) (flush_run p).
Definition with_flush (p : plainDB) (b : bool) (r : option flushRun) : plainDB :=
  mkDB (meta p) (arrtable p) (wal p) (queue p) (next_id p) (writer p) b r.

Definition on_mem (q : list fentry) (i : nat) (m : memTable) : list fentry := alter (fun e => with_fl e (FMem m)) i q.

Section Store.
Context (junk : bytes -> nat -> Z) (cmp : bytes -> bytes -> Z) (c : config).

Definition memTableStopWritesThreshold : Z := u64 (PlainMemTableStopWritesThreshold c * PlainMemTableSize c).
Definition largeBatchThreshold : Z := u64 (Z.quot (PlainMemTableSize c - memTableEmptySize) 2).

(** *** Reading *)

Fixpoint get_loop (mems : list fentry) (key : bytes) : outcome (option (option bytes)) :=
  match mems with
  | [] => Ok None
  | e :: mems' =>
      let! (q, kind) := f_get junk cmp (fe_fl e) key in
      let '(value, found) := q in
      if found : bool then
        if (kind =? InternalKey.KindSet) || (kind =? InternalKey.KindPrefixDelete) then Ok (Some (Some value))
        else if kind =? InternalKey.KindDelete then Ok (Some None)
        else get_loop mems' key
      else get_loop mems' key
  end.

(** [Get]: the memtables from the newest to the oldest, then the array table. *)
Definition Get (p : plainDB) (key : bytes) : outcome bytes :=
  let! r := get_loop (reverse (queue p)) key in
  match r with
  | Some (Some value) => Ok value
  | Some None => Err ErrNotFound
  | None =>
      match arrtable p with
      | None => Err ErrNotFound
      | Some e =>
          let! (q, _) := f_get junk cmp (fe_fl e) key in
          if q.2 : bool then Ok q.1 else Err ErrNotFound
      end
  end.

(** [NewIter]: the entries opened before the visible sequence number, newest
    first, then the table, under one merging iterator. *)
Definition iter_levels (p : plainDB) (lo up : option bytes) : list Iter :=
  (f_newIter junk cmp lo up <$> (fe_fl <$> filter (fun e => fe_logSeqNum e < Plain.visibleSeqNum (meta p)) (reverse (queue p)))) ++
  option_list (f_newIter junk cmp lo up <$> (fe_fl <$> arrtable p)).

Definition NewIter (p : plainDB) (lo up : option bytes) : UserIter.Iterator mergingIter :=
  UserIter.newIterator lo up (merging_init lo up (iter_levels p lo up)).

(** *** Flush scheduling *)

(** The number of entries at the head of the queue that can be flushed. *)
Fixpoint ready_prefix (q : list fentry) : nat :=
  match q with
  | [] | [_] => O
  | e :: q' => if f_readyForFlush (fe_fl e) then S (ready_prefix q') else O
  end.

Definition passedFlushThreshold (p : plainDB) : bool :=
  let n := ready_prefix (queue p) in
  let size := foldl (fun size e => u64 (size + (if fe_forced e then u64 (PlainMemTableSize c) else f_totalBytes (fe_fl e)))) 0
                (take n (queue p)) in
  if (n =? 0)%nat then false else u64 (PlainMemTableSize c) / 2 <=? size.

Definition maybeScheduleFlush (p : plainDB) : plainDB :=
  if flushing p || (length (queue p) <=? 1)%nat then p
  else if negb (passedFlushThreshold p) then p
  else with_flush p true None.

(** *** Writing *)

Definition bump_seq (m : Plain.metadata) (n : Z) : Plain.metadata :=
  Plain.mkMeta (u64 (Plain.logSeqNum m + n)) (Plain.visibleSeqNum m) (Plain.version m) (Plain.mfile m) (Plain.lastSeqNum m)
    (Plain.minUnflushedLogNum m) (Plain.nextFileNum m) (Plain.plainDbAtFileNum m).

(** [DB.Apply] and [commitPipeline.prepare] up to [commitWrite], and the start
    of [commitWrite]: a batch past the threshold becomes a flushable of its own
    and is logged before room is made. *)
Definition start_write (p : plainDB) (b : Batch) : outcome plainDB :=
  let seq := Plain.logSeqNum (meta p) in
  let p := with_meta p (bump_seq (meta p) (Count b)) in
  if largeBatchThreshold <=? memTableSize b then
    let! fb := newFlushableBatch junk cmp b in
    let b := Batch.Repr junk (setSeqNum b seq) in
    let fb := fb_setSeqNum fb (Batch.SeqNum junk b) in
    let! w := (if PlainDisableWAL c then Ok (wal p) else log_record (wal p) (data b)) in
    Ok (with_writer (with_wal p w) (InRoom (ReqLarge b fb) true))
  else Ok (with_writer p (InRoom (ReqSmall (Batch.Repr junk (setSeqNum b seq))) false)).

(** [manualAsyncFlush] *)
Definition start_flush (p : plainDB) : plainDB :=
  if forallb (fun e => f_empty (fe_fl e)) (queue p) then p else with_writer p (InRoom ReqForce true).

(** The rotation of the memtable, once its new log is there. *)
Definition rotate (p : plainDB) (r : request) (newLogNum : Z) : outcome plainDB :=
  match last (queue p) with
  | Some (mkEntry (FMem m) id logNum logSeq forced hist) =>
      let forced := forced || (match r with ReqForce => true | _ => false end) in
      let immLogNum := match r with ReqLarge _ _ => 0 | _ => logNum end in
      let large := match r with
                   | ReqLarge b fb => [mkEntry (FBatch fb) (next_id p) logNum (Batch.SeqNum junk b) false [data b]]
                   | _ => []
                   end in
      let logSeqNum := match r with
                       | ReqSmall b => Batch.SeqNum junk b
                       | ReqLarge b _ => u64 (Batch.SeqNum junk b + Count b)
                       | ReqForce => Plain.logSeqNum (meta p)
                       end in
      let! mem := newMemTable (PlainMemTableSize c) logSeqNum in
      let '(m', zero) := writerUnref m in
      let imm := mkEntry (FMem m') id immLogNum logSeq forced hist in
      let id' := (next_id p + length large)%nat in
      let q := removelast (queue p) ++ [imm] ++ large ++ [mkEntry (FMem mem) id' newLogNum logSeqNum false []] in
      let p := mkDB (meta p) (arrtable p) (wal p) q (S id') (InRoom r false) (flushing p) (flush_run p) in
      Ok (if zero then maybeScheduleFlush p else p)
  | _ => Panic
  end.

(** What an iteration of the loop up to the switch of logs ends with. *)
Inductive roomOut : Type := RoomReturn (err : option error) | RoomStalled | RoomGoOn.

(** The iteration up to [p.mu.Unlock()]; without a WAL, all of it. *)
Definition room_top (p : plainDB) (r : request) (force : bool) : outcome (plainDB * roomOut) :=
  let n := pred (length (queue p)) in
  let! (p, ret) :=
    match r with
    | ReqSmall b =>
        match queue p !! n with
        | Some (mkEntry (FMem m) id _ _ _ _) =>
            let '(m', err) := prepare m b in
            let p := with_queue p (on_mem (queue p) n m') in
            match err with
            | Some ErrTableFull => Ok (p, None)
            | Some e => Ok (with_writer p Idle, Some (Some e))
            | None => Ok (with_writer p (Granted b id), Some None)
            end
        | _ => Panic
        end
    | _ => Ok (if force then (p, None) else (with_writer p Idle, Some None))
    end in
  match ret with
  | Some err => Ok (p, RoomReturn err)
  | None =>
      let size := foldl (fun size e => u64 (size + f_totalBytes (fe_fl e))) 0 (queue p) in
      if memTableStopWritesThreshold <=? size then Ok (p, RoomStalled)
      else if PlainDisableWAL c then let! p := rotate p r 0 in Ok (p, RoomGoOn)
      else
        let '(m, newLogNum) := Plain.getNextFileNum (meta p) in
        let p := with_wal (with_meta p m) (note_size (wal p) (WSize (log (wal p)))) in
        Ok (with_writer p (InSwitch r newLogNum), RoomGoOn)
  end.

(** The rest of the iteration: the switch of logs and the rotation. *)
Definition room_switch (p : plainDB) (r : request) (newLogNum : Z) (io : ioResults) : outcome (plainDB * roomOut) :=
  let '(w, newLogSize, err) := switch_log (wal p) newLogNum io in
  match err with
  | Some e => Ok (with_writer (with_wal p w) Idle, RoomReturn (Some e))
  | None => let! p := rotate (with_wal p (append_log w newLogNum newLogSize)) r newLogNum in Ok (p, RoomGoOn)
  end.

(** The end of [commitWrite] for a batch in the memtable. *)
Definition note_batch (q : list fentry) (repr : bytes) : list fentry :=
  alter (fun e => mkEntry (fe_fl e) (fe_id e) (fe_logNum e) (fe_logSeqNum e) (fe_forced e) (fe_hist e ++ [repr]))
    (pred (length q)) q.

Definition finish_write (p : plainDB) (b : Batch) : outcome plainDB :=
  let! w := (if PlainDisableWAL c then Ok (wal p) else log_record (wal p) (data b)) in
  Ok (with_writer (with_wal (with_queue p (note_batch (queue p) (data b))) w) Idle).

(** [commitApply] of a batch in the memtable [mem]. *)
Definition commitApply (p : plainDB) (b : Batch) (mem : nat) (rnds : nat -> Z) : outcome (plainDB * option error) :=
  match list_find (fun e => fe_id e = mem) (queue p) with
  | Some (i, mkEntry (FMem m) _ _ _ _ _) =>
      let! (m, err) := MemTable.apply junk cmp m b (Batch.SeqNum junk b) rnds in
      match err with
      | Some e => Ok (with_queue p (on_mem (queue p) i m), Some e)
      | None =>
          let '(m, zero) := writerUnref m in
          let p := with_queue p (on_mem (queue p) i m) in
          Ok (if zero then maybeScheduleFlush p else p, None)
      end
  | _ => Panic
  end.

(** *** Flushing *)

(** The deferred end of [flush]. *)
Definition flush_end (p : plainDB) : plainDB := maybeScheduleFlush (with_flush p false None).

(** [flush1] up to [runFlush]: what to flush and the oldest log needed after
    it. *)
Definition flush_pick (p : plainDB) : plainDB * option error :=
  let n := ready_prefix (queue p) in
  if (n =? 0)%nat then (flush_end p, None)
  else match queue p !! n with
       | None => (flush_end p, None)
       | Some e =>
           let minUnflushedLogNum := fe_logNum e in
           if negb (PlainDisableWAL c) && existsb (fun e => minUnflushedLogNum <=? fe_logNum e) (take n (queue p))
           then (flush_end p, Some ErrFlushInvariant)
           else (with_flush p true (Some (mkRun n minUnflushedLogNum None)), None)
       end.

(** [runFlush] takes the number of its table when it writes the first item. *)
Definition flush_number (p : plainDB) (r : flushRun) : plainDB :=
  let '(m, n) := Plain.getNextFileNum (meta p) in
  with_flush (with_meta p m) true (Some (mkRun (run_n r) (run_min r) (Some n))).

Definition flush_inputs (p : plainDB) (n : nat) : list Iter :=
  f_newFlushIter junk cmp <$> (fe_fl <$> take n (queue p) ++ option_list (arrtable p)).

(** The rest of [flush1] for the table [runFlush] returned: [None] is its nil
    entry, whose use is a panic that [flush] recovers from. *)
Definition flush_done (p : plainDB) (r : flushRun) (res : outcome (option arrayTable)) : plainDB :=
  match res, run_table r with
  | Ok (Some a), Some atNum =>
      match Plain.apply (meta p) (Plain.mkSet (run_min r) 0 0 atNum) with
      | Ok m =>
          let q := drop (run_n r) (queue p) in
          let table := mkEntry (FTable a) (next_id p) atNum 0 false [] in
          let w := doDeleteObsoleteFiles (wal p) (Plain.minUnflushedLogNum m) in
          flush_end (mkDB m (Some table) w q (S (next_id p)) (writer p) (flushing p) (flush_run p))
      | Err _ => flush_end (with_wal p (doDeleteObsoleteFiles (wal p) (Plain.minUnflushedLogNum (meta p))))
      | Panic => flush_end p
      end
  | Err _, _ => flush_end (with_wal p (doDeleteObsoleteFiles (wal p) (Plain.minUnflushedLogNum (meta p))))
  | _, _ => flush_end p
  end.

(** *** Replay *)

(** The variables of the loop of [replayWAL]: the memtable being filled and
    what is to be flushed, oldest first.  [rnds i] are the random numbers for
    the [i]-th record. *)
Record replayState : Type := mkReplay { rp_mem : option memTable; rp_flush : list flushable; rp_max : Z }.

Definition flushMem (s : replayState) : replayState :=
  match rp_mem s with None => s | Some m => mkReplay None (rp_flush s ++ [FMem m]) (rp_max s) end.

Definition ensureMem (s : replayState) (seqNum : Z) : outcome (replayState * memTable) :=
  match rp_mem s with
  | Some m => Ok (s, m)
  | None => let! m := newMemTable (PlainMemTableSize c) seqNum in Ok (mkReplay (Some m) (rp_flush s) (rp_max s), m)
  end.

(** The retries are for [arenaskl.ErrArenaFull]. *)
Fixpoint prepare_loop (fuel : nat) (s : replayState) (b : Batch) (seqNum : Z) : outcome (replayState * memTable) :=
  let! (s, m) := ensureMem s seqNum in
  match prepare m b with
  | (m, None) => Ok (s, m)
  | (m, Some ErrArenaFull) =>
      match fuel with
      | O => Err ErrModelFuel
      | S fuel' => prepare_loop fuel' (flushMem (mkReplay (Some m) (rp_flush s) (rp_max s))) b seqNum
      end
  | (m, Some e) => Err e
  end.

Definition replay_record (s : replayState) (repr : bytes) (rnds : nat -> Z) : outcome replayState :=
  if len repr <? batchHeaderLen then Err ErrInvalidBatch
  else
    let! b := SetRepr junk (newBatch (Some 0%nat)) repr (len repr) in
    let seqNum := Batch.SeqNum junk b in
    let s := mkReplay (rp_mem s) (rp_flush s) (u64 (seqNum + Count b)) in
    if largeBatchThreshold <=? memTableSize b then
      let s := flushMem s in
      let! fb := newFlushableBatch junk cmp b in
      Ok (mkReplay (rp_mem s) (rp_flush s ++ [FBatch fb]) (rp_max s))
    else
      let! (s, m) := prepare_loop 1 s b seqNum in
      let! (m, err) := MemTable.apply junk cmp m b seqNum rnds in
      match err with
      | Some e => Err e
      | None => Ok (mkReplay (Some (writerUnref m).1) (rp_flush s) (rp_max s))
      end.

Fixpoint replay_records (s : replayState) (recs : list bytes) (rnds : nat -> nat -> Z) (i : nat) : outcome replayState :=
  match recs with
  | [] => Ok s
  | repr :: recs' => let! s := replay_record s repr (rnds i) in replay_records s recs' rnds (S i)
  end.

(** The errors a replay takes as the end of the log. *)
Definition log_end (e : error) : bool := bool_decide (e = ErrEOF) || IsInvalidRecord e.

(** [replayWAL] of a file read in pieces of [size] bytes: the flush at its end
    replaces the array table. *)
Definition replayWAL (p : plainDB) (logNum : Z) (f : bytes) (size : Z) (rnds : nat -> nat -> Z) (fuel : nat)
  : outcome (plainDB * Z) :=
  let! (recs, e) := read_log (length f + 2) size (NewReader f logNum) in
  let! s := replay_records (mkReplay None [] 0) recs rnds 0 in
  if negb (log_end e) then Err e
  else
    let s := flushMem s in
    match rp_flush s with
    | [] => Ok (p, rp_max s)
    | fls =>
        let! (t, _) := flush_sources cmp fuel (f_newFlushIter junk cmp <$> fls ++ option_list (fe_fl <$> arrtable p)) in
        match t with
        | None => Ok (mkDB (meta p) None (wal p) (queue p) (next_id p) (writer p) (flushing p) (flush_run p), rp_max s)
        | Some a =>
            let '(m, n) := Plain.getNextFileNum (meta p) in
            Ok (mkDB m (Some (mkEntry (FTable a) (next_id p) n 0 false [])) (wal p) (queue p) (S (next_id p)) (writer p)
                  (flushing p) (flush_run p), rp_max s)
        end
    end.

(** *** Opening *)

Inductive fileType : Type := fileTypeLog | FileTypeArrayTable.

(** What the loop over the listing collects: the manifest, the logs to replay,
    the recycler and the table. *)
Definition list_file (tables : gmap Z file) (s : Plain.metadata * list Z * logRecycler * option fentry) (f : fileType * Z)
  : outcome (Plain.metadata * list Z * logRecycler * option fentry) :=
  let '(m, logs_, r, t) := s in
  let '(ft, fn) := f in
  let m := Plain.markFileNumUsed m fn in
  match ft with
  | fileTypeLog =>
      let logs_ := if Plain.minUnflushedLogNum m <=? fn then logs_ ++ [fn] else logs_ in
      let r := if minRecycleLogNum r <=? fn then mkRecycler (limit r) (u64 (fn + 1)) (logs r) (maxLogNum r) else r in
      Ok (m, logs_, r, t)
  | FileTypeArrayTable =>
      if fn =? Plain.plainDbAtFileNum m then
        let! a := (match tables !! fn with Some f => openArrayTable f | None => Err ErrSys end) in
        Ok (m, logs_, r, Some (mkEntry (FTable a) 0 fn 0 false []))
      else Ok (m, logs_, r, t)
  end.

Fixpoint list_files (tables : gmap Z file) (s : Plain.metadata * list Z * logRecycler * option fentry) (ls : list (fileType * Z))
  : outcome (Plain.metadata * list Z * logRecycler * option fentry) :=
  match ls with
  | [] => Ok s
  | f :: ls' => let! s := list_file tables s f in list_files tables s ls'
  end.

Fixpoint replay_all (p : plainDB) (nums : list Z) (size : Z) (rnds : nat -> nat -> Z) (fuel : nat) : outcome plainDB :=
  match nums with
  | [] => Ok p
  | n :: nums' =>
      let! (p, maxSeqNum) := replayWAL p n (file_of (wal p) n) size rnds fuel in
      replay_all (with_meta p (Plain.markLogSeqNum (Plain.markFileNumUsed (meta p) n) maxSeqNum)) nums' size rnds fuel
  end.

Definition set_visible (m : Plain.metadata) : Plain.metadata :=
  Plain.mkMeta (Plain.logSeqNum m) (Plain.logSeqNum m) (Plain.version m) (Plain.mfile m) (Plain.lastSeqNum m)
    (Plain.minUnflushedLogNum m) (Plain.nextFileNum m) (Plain.plainDbAtFileNum m).

(** The logs of a listing. *)
Definition listed_logs (ls : list (fileType * Z)) : list Z :=
  omap (fun f : fileType * Z => match f.1 with fileTypeLog => Some f.2 | _ => None end) ls.

(** [newPlainDB] on a directory with the manifest [mf], the listing [ls], the
    logs [wals] and the tables [tables]; the file system does not fail.  The
    sizes of obsolete logs are only statistics of the recycler. *)
Definition newPlainDB (mf : option file) (ls : list (fileType * Z)) (wals : gmap Z bytes) (tables : gmap Z file)
    (size : Z) (rnds : nat -> nat -> Z) (fuel : nat) : outcome plainDB :=
  let! m := Plain.openMetadata mf in
  let! mem := newMemTable (PlainMemTableSize c) (Plain.logSeqNum m) in
  let r0 := mkRecycler (PlainMemTableStopWritesThreshold c + 1) 0 [] 0 in
  let! (q, t) := list_files tables (m, [], r0, None) ls in
  let '(m, logFiles, r) := q in
  let w := mkWal [] 0 (NewLogWriter 0) false r wals in
  let p := mkDB m t w [mkEntry (FMem mem) 1 0 (MemTable.logSeqNum mem) false []] 2 Idle false None in
  let! p := replay_all p (merge_sort Z.le logFiles) size rnds fuel in
  let '(m, newLogNum) := Plain.getNextFileNum (meta p) in
  let! m := Plain.apply m (Plain.mkSet newLogNum 0 0 0) in
  let w := wal p in
  let w := if PlainDisableWAL c then w
           else append_log (place_file w None newLogNum) newLogNum 0 in
  let q := if PlainDisableWAL c then queue p
           else [mkEntry (FMem mem) 1 newLogNum (MemTable.logSeqNum mem) false []] in
  let obsolete := (fun n => mkInfo n (len (file_of w n))) <$> listed_logs ls in
  let w := scanObsoleteFiles w (Plain.minUnflushedLogNum m) false obsolete in
  let w := doDeleteObsoleteFiles w (Plain.minUnflushedLogNum m) in
  Ok (mkDB (set_visible m) (arrtable p) w q (next_id p) Idle false None).

(** *** The events *)

Inductive event : Type :=
| EvWrite (b : Batch)
| EvForce
| EvRoom
| EvSwitch (io : ioResults)
| EvLog
| EvLogLoop
| EvApply (b : Batch) (mem : nat) (rnds : nat -> Z)
| EvPick
| EvNumber
| EvFlushed (fuel : nat).

Definition ok_of {A} (r : outcome A) : option A := match r with Ok x => Some x | _ => None end.

(** One event; [None] when it is not enabled or panics.  A failed write leaves
    the store as the failing call does. *)
Definition step (p : plainDB) (e : event) : option plainDB :=
  match e, writer p, flush_run p with
  | EvWrite b, Idle, _ =>
      if Empty b then None
      else match start_write p b with
           | Ok p' => Some p'
           | Err _ => Some (with_meta p (bump_seq (meta p) (Count b)))
           | Panic => None
           end
  | EvForce, Idle, _ => Some (start_flush p)
  | EvRoom, InRoom r force, _ => fst <$> ok_of (room_top p r force)
  | EvSwitch io, InSwitch r n, _ => fst <$> ok_of (room_switch p r n io)
  | EvLog, Granted b mem, _ =>
      match finish_write p b with Ok p' => Some p' | Err _ => Some (with_writer p Idle) | Panic => None end
  | EvLogLoop, _, _ => if log_dead (wal p) then None else Some (with_wal p (with_log (wal p) (flush_iter (log (wal p)))))
  | EvApply b mem rnds, _, _ => fst <$> ok_of (commitApply p b mem rnds)
  | EvPick, _, None => if flushing p then Some (fst (flush_pick p)) else None
  | EvNumber, _, Some r => match run_table r with None => Some (flush_number p r) | Some _ => None end
  | EvFlushed fuel, _, Some r =>
      match flush_sources cmp fuel (flush_inputs p (run_n r)) with
      | Err ErrModelFuel => None
      | res => Some (flush_done p r (let! x := res in Ok x.1))
      end
  | _, _, _ => None
  end.

End Store.
End PlainDB.
