(* ===== verification/PlainWal.v ===== *)
(** What the write-ahead logs of the plain store guarantee: whatever the
    interleaving of writers, rotations, log switches and flushes, the logs the
    manifest still asks for hold exactly the batches of the entries that have
    not been flushed, in order, so that a crash loses none of them. *)

From Stdlib Require Import ZArith Lia.
From stdpp Require Import base numbers option gmap sorting list.
From S2P Require Import Prelude Base Batch Iter FlushableBatch Table ArrayTable PlainFlush Meta WalFiles MemTable Record RecordSpec PlainDB.
Import PlainDB.

Definition is_mem (f : flushable) : bool := match f with FMem _ => true | _ => false end.

(** ** Logs and entries *)

(** Every log belongs to one memtable, or to a memtable sealed by a large batch
    (whose number was reset) and that batch; [rss] are the records of the
    logs. *)
Inductive aligned : list Z -> list fentry -> list (list bytes) -> Prop :=
| al_nil : aligned [] [] []
| al_mem e ls q rss :
    is_mem (fe_fl e) = true -> 0 < fe_logNum e -> aligned ls q rss ->
    aligned (fe_logNum e :: ls) (e :: q) (fe_hist e :: rss)
| al_pair e b ls q rss :
    fe_logNum e = 0 -> is_mem (fe_fl b) = false -> 0 < fe_logNum b -> aligned ls q rss ->
    aligned (fe_logNum b :: ls) (e :: b :: q) ((fe_hist e ++ fe_hist b) :: rss).

#[export] Hint Constructors aligned : bitalos.

Lemma aligned_app ls q rss ls' q' rss' :
  aligned ls q rss -> aligned ls' q' rss' -> aligned (ls ++ ls') (q ++ q') (rss ++ rss').
Proof. induction 1; cbn [app]; auto with bitalos. Qed.

Lemma aligned_hist ls q rss : aligned ls q rss -> concat rss = concat (fe_hist <$> q).
Proof. induction 1 as [|e ls q rss _ _ _ IH|e b ls q rss _ _ _ _ IH]; cbn; rewrite ?IH, ?app_assoc; done. Qed.

(** The queue can be cut before any memtable that still has its number. *)
Lemma aligned_split ls q1 e q2 rss :
  aligned ls (q1 ++ e :: q2) rss -> is_mem (fe_fl e) = true -> fe_logNum e <> 0 ->
  exists l1 l2 r1 r2, ls = l1 ++ fe_logNum e :: l2 /\ rss = r1 ++ r2 /\ aligned l1 q1 r1 /\
    aligned (fe_logNum e :: l2) (e :: q2) r2.
Proof.
  intros Ha Hm Hz. remember (q1 ++ e :: q2) as q eqn:Eq. revert q1 Eq.
  induction Ha as [|x ls q rss Hx Hn Ha IH|x b ls q rss Hx Hb Hn Ha IH]; intros q1 Eq; destruct q1 as [|y q1]; cbn in Eq; try done.
  - injection Eq as <- <-. exists [], ls, [], (fe_hist x :: rss). auto with bitalos.
  - injection Eq as <- ->. destruct (IH q1 eq_refl) as (l1 & l2 & r1 & r2 & -> & -> & A1 & A2).
    exists (fe_logNum x :: l1), l2, (fe_hist x :: r1), r2. auto with bitalos.
  - injection Eq as <- <-. congruence.
  - injection Eq as <- Eq. destruct q1 as [|z q1]; cbn in Eq; [injection Eq as <- <-; congruence|]. injection Eq as <- ->.
    destruct (IH q1 eq_refl) as (l1 & l2 & r1 & r2 & -> & -> & A1 & A2).
    exists (fe_logNum b :: l1), l2, ((fe_hist x ++ fe_hist b) :: r1), r2. auto with bitalos.
Qed.

(** Entries that differ in their contents only. *)
Definition same_log (e e' : fentry) : Prop :=
  fe_logNum e' = fe_logNum e /\ fe_hist e' = fe_hist e /\ is_mem (fe_fl e') = is_mem (fe_fl e).

#[export] Instance same_log_refl : Reflexive same_log.
Proof. done. Qed.

Lemma aligned_same ls q rss q' : aligned ls q rss -> Forall2 same_log q q' -> aligned ls q' rss.
Proof.
  intros Ha. revert q'. induction Ha as [|e ls q rss Hm Hn Ha IH|e b ls q rss Hn Hb Hp Ha IH]; intros q' HF.
  - inversion HF. constructor.
  - inversion HF as [|? e' ? q'' (E1 & E2 & E3) HF']; subst. rewrite <-E1, <-E2 in *. apply al_mem; [congruence|lia|auto].
  - inversion HF as [|? e' ? q'' (E1 & E2 & E3) HF']; subst. inversion HF' as [|? b' ? q3 (B1 & B2 & B3) HF'']; subst.
    rewrite <-E2, <-B1, <-B2 in *. apply al_pair; [congruence|congruence|lia|auto].
Qed.

(** ** The invariant *)

(** A closed log that is intact on disk. *)
Definition closed_log (w : walState) (n : Z) (rs : list bytes) : Prop :=
  exists os l g, write_all (NewLogWriter n) os = Ok l /\ Forall short (recs os) /\ recs os = rs /\
    disk w !! n = Some (sink (Close l) ++ g).

(** The batch of a writer that is in the log but not yet in the queue. *)
Definition extra (ph : phase) : list bytes :=
  match ph with
  | InRoom (ReqLarge b _) true | InSwitch (ReqLarge b _) _ => [data b]
  | _ => []
  end.

(** The batch a writer still has to log. *)
Definition unlogged (ph : phase) : list bytes :=
  match ph with
  | InRoom (ReqSmall b) _ | InSwitch (ReqSmall b) _ | Granted b _ => [data b]
  | _ => []
  end.

(** [q1] is what a running flush takes, [q2] the rest of the queue up to the
    mutable memtable [mem]; [l1], [l2] are their logs and [r1], [r2] the
    records in these; [os] is the life of the current writer and [x] what it
    holds beyond the batches of [mem]. *)
Record winv (p : plainDB) (q1 q2 : list fentry) (mem : fentry) (l1 l2 : list Z) (r1 r2 : list (list bytes))
    (os : list wop) (x : list bytes) : Prop := mkWinv {
  wi_queue : queue p = q1 ++ q2 ++ [mem];
  wi_mem : is_mem (fe_fl mem) = true /\ fe_logNum mem = log_num (wal p);
  wi_al1 : aligned l1 q1 r1;
  wi_al2 : aligned l2 q2 r2;
  wi_nums : fileNum <$> log_queue (wal p) = l1 ++ l2 ++ [log_num (wal p)];
  wi_sorted : StronglySorted Z.lt (l1 ++ l2 ++ [log_num (wal p)]);
  wi_low : 0 < Plain.minUnflushedLogNum (meta p) /\
    Forall (Z.le (Plain.minUnflushedLogNum (meta p))) (l1 ++ l2 ++ [log_num (wal p)]);
  wi_next : log_num (wal p) < Plain.nextFileNum (meta p) /\
    forall r n, writer p = InSwitch r n -> log_num (wal p) < n < Plain.nextFileNum (meta p);
  wi_logs : Forall2 (closed_log (wal p)) (l1 ++ l2) (r1 ++ r2);
  wi_cur : write_all (NewLogWriter (log_num (wal p))) os = Ok (log (wal p)) /\ Forall short (recs os) /\
    recs os = fe_hist mem ++ x;
  wi_extra : log_dead (wal p) = false -> x = extra (writer p);
  wi_short : Forall short (unlogged (writer p)) /\ Forall short (extra (writer p));
  wi_rec : Forall (fun f => fileNum f < Plain.minUnflushedLogNum (meta p)) (logs (recycler (wal p)));
  wi_disk : log_dead (wal p) = false -> forall n, is_Some (disk (wal p) !! n) -> Plain.minUnflushedLogNum (meta p) <= n ->
    n ∈ l1 ++ l2 ++ [log_num (wal p)];
  wi_here : is_Some (disk (wal p) !! log_num (wal p));
  wi_run : match flush_run p with
           | Some r => flushing p = true /\ run_n r = length q1 /\ head (l2 ++ [log_num (wal p)]) = Some (run_min r)
           | None => q1 = [] /\ l1 = [] /\ r1 = []
           end
}.

Definition inv (p : plainDB) : Prop := exists q1 q2 mem l1 l2 r1 r2 os x, winv p q1 q2 mem l1 l2 r1 r2 os x.

(** An event that keeps the logs and changes entries in their contents only. *)
Lemma inv_same p p' :
  inv p -> wal p' = wal p -> Forall2 same_log (queue p) (queue p') ->
  Plain.minUnflushedLogNum (meta p') = Plain.minUnflushedLogNum (meta p) ->
  Plain.nextFileNum (meta p) <= Plain.nextFileNum (meta p') ->
  flush_run p' = flush_run p -> (flushing p = true -> flushing p' = true) ->
  extra (writer p') = extra (writer p) -> Forall short (unlogged (writer p')) ->
  (forall r n, writer p' = InSwitch r n -> log_num (wal p) < n < Plain.nextFileNum (meta p')) ->
  inv p'.
Proof.
  intros (q1 & q2 & mem & l1 & l2 & r1 & r2 & os & x & Hi) Hw Hq Hm Hn Hr Hf Hx Hu Hs. destruct Hi.
  rewrite wi_queue0 in Hq. apply Forall2_app_inv_l in Hq as (q1' & qr & F1 & Hq & Eq).
  apply Forall2_app_inv_l in Hq as (q2' & qm & F2 & Hq & ->).
  inversion Hq as [|? mem' ? ? (M1 & M2 & M3) Hnil Ea Eb]; subst. inversion Hnil; subst.
  exists q1', q2', mem', l1, l2, r1, r2, os, x. split; rewrite ?Hw, ?Hm, ?Hx; try done.
  - by rewrite M1, M3.
  - by eapply aligned_same.
  - by eapply aligned_same.
  - split; [lia|exact Hs].
  - by rewrite M2.
  - by destruct wi_short0.
  - rewrite Hr. destruct (flush_run p).
    + destruct wi_run0 as (? & ? & ?). split; [auto|]. by rewrite <-(Forall2_length _ _ _ F1).
    + destruct wi_run0 as (-> & -> & ->). by inversion F1.
Qed.

(** ** Helpers *)

Lemma same_all q : Forall2 same_log q q.
Proof. induction q; by constructor. Qed.

Lemma on_mem_same q i e m : q !! i = Some e -> is_mem (fe_fl e) = true -> Forall2 same_log q (on_mem q i m).
Proof.
  revert i. induction q as [|y q IH]; intros [|i] Hi Hm; cbn in Hi |- *; try done.
  - injection Hi as ->. constructor; [by split; [|split]|apply same_all].
  - constructor; [done|]. by apply (IH i).
Qed.

(** What a switch of logs does to the directory; [used] are the files it must
    not touch. *)
Lemma switch_log_spec w n io w' size err :
  switch_log w n io = (w', size, err) -> n <> log_num w -> Forall (fun f => fileNum f <> log_num w) (logs (recycler w)) ->
  log_queue w' = log_queue w /\ log_num w' = log_num w /\ log w' = log w /\ log_dead w' = true /\
  (forall P, Forall P (logs (recycler w)) -> Forall P (logs (recycler w'))) /\
  (forall k, k <> n -> k <> log_num w -> Forall (fun f => fileNum f <> k) (logs (recycler w)) -> disk w' !! k = disk w !! k) /\
  (is_Some (disk w !! log_num w) -> is_Some (disk w' !! log_num w)) /\
  (err = None -> log_dead w = false /\ is_Some (disk w' !! n) /\
     disk w' !! log_num w = Some (overlay (sink (Close (log w))) (file_of w (log_num w))) /\
     forall k, is_Some (disk w' !! k) -> is_Some (disk w !! k) \/ k = n \/ k = log_num w).
Proof.
  unfold switch_log, close_log. set (C := overlay (sink (Close (log w))) (file_of w (log_num w))). clearbody C.
  intros Hs Hn Hrec. destruct (log_dead w) eqn:Ed.
  { injection Hs as <- <- <-. rewrite Ed. by repeat split. }
  destruct (io_close io) as [e|].
  { injection Hs as <- <- <-. by repeat split. }
  cbn [recycler WalFiles.peek] in Hs. unfold WalFiles.peek in Hs.
  destruct (logs (recycler w)) as [|f fs] eqn:Er; cbn [head] in Hs; (destruct (io_create io) as [e|];
    [|cbn [place_file log_queue log_num log log_dead recycler disk] in Hs]).
  - injection Hs as <- <- <-. cbn [place_file log_queue log_num log log_dead recycler disk]. rewrite ?Er. repeat split; try done.
    + intros k _ Hk _. by rewrite lookup_insert_ne.
    + intros _. rewrite lookup_insert_eq. eauto.
  - injection Hs as <- <- <-. cbn [place_file log_queue log_num log log_dead recycler disk]. rewrite ?Er. repeat split; try done.
    + intros k Hk Hk' _. by rewrite !lookup_insert_ne.
    + intros _. rewrite lookup_insert_ne, lookup_insert_eq by done. eauto.
    + rewrite lookup_insert_eq. eauto.
    + by rewrite lookup_insert_ne, lookup_insert_eq by done.
    + intros k. rewrite !lookup_insert_is_Some. naive_solver.
  - unfold WalFiles.pop in Hs. cbn [recycler] in Hs. rewrite Er, Z.eqb_refl in Hs. injection Hs as <- <- <-.
    cbn [with_recycler log_queue log_num log log_dead recycler disk logs]. repeat split; try done.
    + intros P HP. by apply Forall_inv_tail in HP.
    + intros k _ Hk _. by rewrite lookup_insert_ne.
    + intros _. rewrite lookup_insert_eq. eauto.
  - unfold WalFiles.pop in Hs. cbn [recycler] in Hs. rewrite Er, Z.eqb_refl in Hs.
    pose proof (Forall_inv Hrec) as Hf. cbn in Hf.
    assert (Hw : w' = with_recycler (place_file (mkWal (log_queue w) (log_num w) (log w) true (recycler w)
        (<[log_num w := C]> (disk w))) (Some f) n)
        (mkRecycler (limit (recycler w)) (minRecycleLogNum (recycler w)) fs (maxLogNum (recycler w)))).
    { by destruct (io_stat io); injection Hs as <- _ _. }
    subst w'. clear Hs. cbn [with_recycler place_file log_queue log_num log log_dead recycler disk logs]. repeat split; try done.
    + intros P HP. by apply Forall_inv_tail in HP.
    + intros k Hk Hk' HF. pose proof (Forall_inv HF) as Hfk. cbn in Hfk. by rewrite lookup_insert_ne, lookup_delete_ne, lookup_insert_ne.
    + intros _. rewrite lookup_insert_ne, lookup_delete_ne, lookup_insert_eq by done. eauto.
    + rewrite lookup_insert_eq. eauto.
    + by rewrite lookup_insert_ne, lookup_delete_ne, lookup_insert_eq by done.
    + intros k. rewrite lookup_insert_is_Some, lookup_delete_is_Some, lookup_insert_is_Some. naive_solver.
Qed.

Lemma closed_log_disk w w' n rs : disk w' !! n = disk w !! n -> closed_log w n rs -> closed_log w' n rs.
Proof. intros E (os & l & g & H). exists os, l, g. by rewrite E. Qed.

Lemma sorted_last ls n k : StronglySorted Z.lt (ls ++ [n]) -> k ∈ ls -> k < n.
Proof.
  intros Hs Hk. apply StronglySorted_app in Hs as (H & _ & _). apply H; [done|]. set_solver.
Qed.

Section Events.
Context (junk : bytes -> nat -> Z) (cmp : bytes -> bytes -> Z) (c : config) (Hwal : PlainDisableWAL c = false).

Lemma inv_schedule p : inv p -> inv (maybeScheduleFlush c p).
Proof.
  intros Hi. unfold maybeScheduleFlush. destruct (flushing p) eqn:Ef; cbn [orb]; [done|]. repeat (case_match; try done).
  pose proof Hi as (q1 & q2 & mem & l1 & l2 & r1 & r2 & os & x & Hv).
  assert (Hr : flush_run p = None).
  { destruct (flush_run p) eqn:E; [|done]. pose proof (wi_run _ _ _ _ _ _ _ _ _ _ Hv) as Hr. rewrite E in Hr. destruct Hr. congruence. }
  eapply inv_same; try done; cbn; [apply Hv|]. intros r n E. by apply Hv in E.
Qed.

(** The end of a run that changed nothing. *)
Lemma inv_flush_end p : inv p -> inv (flush_end c p).
Proof.
  intros (q1 & q2 & mem & l1 & l2 & r1 & r2 & os & x & []). apply inv_schedule.
  exists [], (q1 ++ q2), mem, [], (l1 ++ l2), [], (r1 ++ r2), os, x. split; cbn [with_flush queue wal meta writer flush_run app]; try done.
  - by rewrite <-app_assoc.
  - constructor.
  - by apply aligned_app.
  - by rewrite <-app_assoc.
  - by rewrite <-app_assoc.
  - by rewrite <-app_assoc.
  - by rewrite <-app_assoc.
Qed.

(** The logs behind the queue survive a switch. *)
Lemma switch_keeps p q1 q2 mem l1 l2 r1 r2 os x n io w' size err :
  winv p q1 q2 mem l1 l2 r1 r2 os x -> log_num (wal p) < n -> switch_log (wal p) n io = (w', size, err) ->
  Forall2 (closed_log w') (l1 ++ l2) (r1 ++ r2).
Proof.
  intros Hv Hn Hs. pose proof (wi_low _ _ _ _ _ _ _ _ _ _ Hv) as [_ Hlow]. pose proof (wi_rec _ _ _ _ _ _ _ _ _ _ Hv) as Hrec.
  assert (Hout : forall k, Plain.minUnflushedLogNum (meta p) <= k -> Forall (fun f => fileNum f <> k) (logs (recycler (wal p)))).
  { intros k Hk. eapply Forall_impl; [exact Hrec|]. cbn. lia. }
  rewrite Forall_forall in Hlow.
  destruct (switch_log_spec _ _ _ _ _ _ Hs) as (_ & _ & _ & _ & _ & Hd & _); [lia|apply Hout, Hlow; set_solver|].
  pose proof (wi_logs _ _ _ _ _ _ _ _ _ _ Hv) as HF. pose proof (wi_sorted _ _ _ _ _ _ _ _ _ _ Hv) as Hso. rewrite app_assoc in Hso.
  apply Forall2_same_length_lookup_2; [by eapply Forall2_length|].
  intros i k rs Hk Hr. pose proof (Forall2_lookup_lr _ _ _ _ _ _ HF Hk Hr) as Hc.
  eapply closed_log_disk; [|exact Hc]. pose proof (list_elem_of_lookup_2 _ _ _ Hk) as Hin.
  pose proof (sorted_last _ _ _ Hso Hin). apply Hd; [lia|lia|]. apply Hout, Hlow. set_solver.
Qed.

(** A failed switch leaves the queue as it was. *)
Lemma inv_switch_failed p r n io w' size e :
  inv p -> writer p = InSwitch r n -> switch_log (wal p) n io = (w', size, Some e) -> inv (with_writer (with_wal p w') Idle).
Proof.
  intros (q1 & q2 & mem & l1 & l2 & r1 & r2 & os & x & Hv) Hp Hs.
  destruct (proj2 (wi_next _ _ _ _ _ _ _ _ _ _ Hv) r n Hp) as [Hn _].
  pose proof (switch_keeps _ _ _ _ _ _ _ _ _ _ _ _ _ _ _ Hv Hn Hs) as HF.
  destruct Hv. destruct wi_low0 as [Hpos Hlow].
  destruct (switch_log_spec _ _ _ _ _ _ Hs) as (E1 & E2 & E3 & E4 & E5 & E6 & E7 & _); [lia| |].
  { eapply Forall_impl; [exact wi_rec0|]. rewrite Forall_forall in Hlow. specialize (Hlow (log_num (wal p)) ltac:(set_solver)). cbn. lia. }
  exists q1, q2, mem, l1, l2, r1, r2, os, x.
  split; cbn [with_writer with_wal queue wal meta writer flush_run flushing]; rewrite ?E1, ?E2, ?E3; try done.
  - split; [apply wi_next0|done].
  - by rewrite E4.
  - auto.
  - by rewrite E4.
  - auto.
Qed.

Lemma last_entry p q1 q2 mem l1 l2 r1 r2 os x :
  winv p q1 q2 mem l1 l2 r1 r2 os x -> last (queue p) = Some mem /\ removelast (queue p) = q1 ++ q2 /\
  queue p !! pred (length (queue p)) = Some mem.
Proof.
  intros Hv. rewrite (wi_queue _ _ _ _ _ _ _ _ _ _ Hv), app_assoc. split; [apply last_snoc|]. split; [apply removelast_last|].
  rewrite length_app. cbn [length]. rewrite Nat.add_1_r. cbn [Nat.pred]. by apply list_lookup_middle.
Qed.

(** A successful switch and the rotation: the old log is closed with the
    batches of the sealed memtable and of the large batch, if there is one. *)
Lemma inv_rotated p r n io w' size p' :
  inv p -> writer p = InSwitch r n -> switch_log (wal p) n io = (w', size, None) ->
  rotate junk c (with_wal p (append_log w' n size)) r n = Ok p' -> inv p'.
Proof.
  intros (q1 & q2 & mem & l1 & l2 & r1 & r2 & os & x & Hv) Hp Hs Hrot.
  destruct (proj2 (wi_next _ _ _ _ _ _ _ _ _ _ Hv) r n Hp) as [Hn Hnx].
  pose proof (switch_keeps _ _ _ _ _ _ _ _ _ _ _ _ _ _ _ Hv Hn Hs) as HF.
  destruct (last_entry _ _ _ _ _ _ _ _ _ _ Hv) as (HL & HR & _). destruct Hv. destruct wi_low0 as [Hpos Hlow].
  pose proof Hlow as Hlow'. rewrite Forall_forall in Hlow'. specialize (Hlow' (log_num (wal p)) ltac:(set_solver)).
  destruct (switch_log_spec _ _ _ _ _ _ Hs) as (E1 & E2 & E3 & E4 & E5 & E6 & E7 & E8); [lia| |].
  { eapply Forall_impl; [exact wi_rec0|]. cbn. lia. }
  destruct (E8 eq_refl) as (Ed & Enew & Eold & Edom). specialize (wi_extra0 Ed). destruct wi_cur0 as (C1 & C2 & C3).
  destruct wi_mem0 as [M1 M2]. destruct mem as [[m|?|?] id ln lseq fo hist]; cbn in M1, M2; try done. subst ln.
  unfold rotate in Hrot. cbn [with_wal queue] in Hrot. rewrite HL, HR in Hrot.
  destruct (newMemTable (PlainMemTableSize c) _) as [mt| |]; try done. cbn [rbind] in Hrot.
  destruct (writerUnref m) as [m' zero].
  set (large := match r with ReqLarge b fb => [_] | _ => [] end) in Hrot. set (imm := mkEntry (FMem m') _ _ _ _ _) in Hrot.
  set (new := mkEntry (FMem mt) _ _ _ _ _) in Hrot. set (p1 := mkDB _ _ _ _ _ _ _ _) in Hrot.
  assert (Hal : aligned [log_num (wal p)] ([imm] ++ large) [recs os]).
  { rewrite C3, wi_extra0, Hp. cbn [extra fe_hist]. unfold imm, large. destruct r as [b|b fb|]; cbn [app]; rewrite ?app_nil_r.
    - apply (al_mem (mkEntry (FMem m') id (log_num (wal p)) lseq _ hist) [] [] []); [done|cbn; lia|constructor].
    - apply (al_pair (mkEntry (FMem m') id 0 lseq _ hist)
        (mkEntry (FBatch fb) _ (log_num (wal p)) _ _ [data b]) [] [] []); [done|done|cbn; lia|constructor].
    - apply (al_mem (mkEntry (FMem m') id (log_num (wal p)) lseq _ hist) [] [] []); [done|cbn; lia|constructor]. }
  assert (Hnums : l1 ++ l2 ++ [log_num (wal p)] ++ [n] = (l1 ++ l2 ++ [log_num (wal p)]) ++ [n]) by (by rewrite <-!app_assoc).
  enough (Hp1 : inv p1).
  { injection Hrot as <-. destruct zero; [by apply inv_schedule|done]. }
  exists q1, (q2 ++ [imm] ++ large), new, l1, (l2 ++ [log_num (wal p)]), r1, (r2 ++ [recs os]), [], [].
  split; unfold p1; cbn [queue wal meta writer flush_run flushing with_wal append_log log_queue log_num log log_dead recycler disk];
    rewrite ?E1, ?E2, ?E3, <-?app_assoc.
  - done.
  - done.
  - done.
  - apply aligned_app; [done|exact Hal].
  - rewrite fmap_app, wi_nums0, <-!app_assoc. done.
  - rewrite Hnums. apply StronglySorted_snoc; [done|]. apply Forall_forall. intros k Hk. rewrite app_assoc in wi_sorted0, Hk.
    apply elem_of_app in Hk as [Hk|Hk]; [pose proof (sorted_last _ _ _ wi_sorted0 Hk); lia|apply list_elem_of_singleton in Hk; lia].
  - split; [done|]. rewrite Hnums. apply Forall_app. split; [done|]. constructor; [lia|constructor].
  - split; [lia|done].
  - rewrite !app_assoc. apply Forall2_app; [exact HF|]. constructor; [|constructor].
    exists os, (log (wal p)), (drop (length (sink (Close (log (wal p))))) (file_of (wal p) (log_num (wal p)))).
    split; [done|]. split; [done|]. split; [done|]. cbn [disk append_log]. rewrite Eold. done.
  - split; [done|]. split; [constructor|]. done.
  - intros _. by destruct r.
  - rewrite Hp in wi_short0. destruct r; cbn in wi_short0 |- *; intuition constructor.
  - auto.
  - intros _ k Hk Hle. destruct (Edom k Hk) as [Hk'|[->| ->]]; [|set_solver..].
    specialize (wi_disk0 Ed k Hk' Hle). set_solver.
  - done.
  - destruct (flush_run p); [|done]. destruct wi_run0 as (? & ? & Hh). split; [done|]. split; [done|]. by destruct l2.
Qed.

Lemma log_record_spec w d w' n os :
  log_record w d = Ok w' -> write_all (NewLogWriter n) os = Ok (log w) ->
  log_dead w = false /\ exists l, w' = with_log w l /\ write_all (NewLogWriter n) (os ++ [WRec d]) = Ok l.
Proof.
  unfold log_record. destruct (log_dead w); [done|]. destruct (WriteRecord (log w) d) as [[l s]| |] eqn:E; try done.
  cbn [rbind]. intros [= <-] Hw. split; [done|]. exists l. split; [done|]. rewrite write_all_app, Hw. cbn [rbind write_all]. by rewrite E.
Qed.

Lemma repr_short b s : Empty b = false -> short (data b) -> short (data (Batch.Repr junk (setSeqNum b s))).
Proof.
  unfold Empty, short, batchHeaderLen. intros He Hs. destruct (Z.leb_spec (len (data b)) 12) as [|Hl]; [done|].
  enough (len (data (Batch.Repr junk (setSeqNum b s))) = len (data b)) by lia.
  assert (Hl1 : len (data (setSeqNum b s)) = len (data b)).
  { unfold len in *. cbn [setSeqNum with_data data]. rewrite length_app, length_le_put, length_drop. lia. }
  unfold Batch.Repr, ensure_init. destruct (Z.eqb_spec (len (data (setSeqNum b s))) 0); [lia|].
  rewrite <-Hl1 in Hl |- *. generalize (data (setSeqNum b s)) as d, Hl. clear. intros d Hl. cbn [with_data data].
  unfold len in *. rewrite !length_app, length_take, length_drop, length_le_put. lia.
Qed.

Lemma inv_start_write p b p' :
  inv p -> writer p = Idle -> Empty b = false -> short (data b) -> start_write junk cmp c p b = Ok p' -> inv p'.
Proof.
  intros Hi Hp He Hs. pose proof (repr_short b (Plain.logSeqNum (meta p)) He Hs) as Hs'. unfold start_write. rewrite Hwal.
  set (b' := Batch.Repr junk _) in *. case_match; [|].
  - destruct (newFlushableBatch junk cmp b) as [fb| |]; try done. cbn [rbind].
    destruct (log_record _ (data b')) as [w'| |] eqn:El; try done. cbn [rbind]. intros [= <-]. cbn [with_meta wal] in El.
    destruct Hi as (q1 & q2 & mem & l1 & l2 & r1 & r2 & os & x & []). destruct wi_cur0 as (C1 & C2 & C3).
    destruct (log_record_spec _ _ _ _ _ El C1) as (Ed & l & -> & Hl). specialize (wi_extra0 Ed). rewrite Hp in *. cbn [extra] in wi_extra0. subst x.
    exists q1, q2, mem, l1, l2, r1, r2, (os ++ [WRec (data b')]), [data b'].
    split; cbn [with_writer with_wal with_meta with_log queue wal meta writer flush_run flushing log_queue log_num log log_dead recycler disk]; try done.
    + split; [by apply wi_next0|done].
    + split; [done|]. rewrite recs_app. split; [apply Forall_app; split; [done|by repeat constructor]|].
      cbn. by rewrite C3, app_nil_r.
    + cbn. split; repeat constructor. done.
  - intros [= <-]. eapply inv_same; try done; cbn [with_writer with_meta writer bump_seq Plain.minUnflushedLogNum Plain.nextFileNum meta]; try done.
    + by rewrite Hp.
    + by repeat constructor.
Qed.

Lemma inv_seq p n : inv p -> inv (with_meta p (bump_seq (meta p) n)).
Proof.
  intros Hi. pose proof Hi as (q1 & q2 & mem & l1 & l2 & r1 & r2 & os & x & Hv).
  eapply inv_same; try done; cbn; [apply Hv|]. intros r k E. by apply Hv in E.
Qed.

Lemma inv_start_flush p : inv p -> writer p = Idle -> inv (start_flush p).
Proof.
  intros Hi Hp. unfold start_flush. case_match; [done|]. eapply inv_same; try done; cbn; by rewrite Hp.
Qed.

Lemma inv_finish p b mem0 p' : inv p -> writer p = Granted b mem0 -> finish_write c p b = Ok p' -> inv p'.
Proof.
  intros (q1 & q2 & mem & l1 & l2 & r1 & r2 & os & x & Hv) Hp. destruct (last_entry _ _ _ _ _ _ _ _ _ _ Hv) as (_ & _ & HL).
  destruct Hv. unfold finish_write. rewrite Hwal. destruct (log_record (wal p) (data b)) as [w'| |] eqn:El; try done. cbn [rbind].
  intros [= <-]. destruct wi_cur0 as (C1 & C2 & C3).
  destruct (log_record_spec _ _ _ _ _ El C1) as (Ed & l & -> & Hl). specialize (wi_extra0 Ed). rewrite Hp in *. cbn [extra] in wi_extra0. subst x.
  exists q1, q2, (mkEntry (fe_fl mem) (fe_id mem) (fe_logNum mem) (fe_logSeqNum mem) (fe_forced mem) (fe_hist mem ++ [data b])),
    l1, l2, r1, r2, (os ++ [WRec (data b)]), [].
  split; cbn [with_writer with_wal with_queue with_log queue wal meta writer flush_run flushing log_queue log_num log log_dead recycler disk];
    try done.
  - unfold note_batch. rewrite wi_queue0, app_assoc. replace (pred (length ((q1 ++ q2) ++ [mem]))) with (length (q1 ++ q2) + 0)%nat
      by (rewrite (length_app _ [mem]); cbn; lia).
    rewrite alter_app_r. by rewrite <-app_assoc.
  - split; [apply wi_next0|done].
  - split; [done|]. rewrite recs_app. split; [|cbn; by rewrite C3, !app_nil_r].
    apply Forall_app. split; [done|]. constructor; [|constructor]. destruct wi_short0 as [Hs _]. by inversion Hs.
Qed.

Lemma inv_loop p : inv p -> inv (with_wal p (with_log (wal p) (flush_iter (log (wal p))))).
Proof.
  intros (q1 & q2 & mem & l1 & l2 & r1 & r2 & os & x & []). exists q1, q2, mem, l1, l2, r1, r2, (os ++ [WFlush]), x.
  split; cbn [with_wal with_log queue wal meta writer flush_run flushing log_queue log_num log log_dead recycler disk]; try done.
  destruct wi_cur0 as (C1 & C2 & C3). rewrite write_all_app, C1, recs_app. cbn. by rewrite app_nil_r.
Qed.

Lemma note_size_nums w s : fileNum <$> log_queue (note_size w s) = fileNum <$> log_queue w.
Proof.
  unfold note_size. cbn [log_queue]. destruct (last (log_queue w)) as [f|] eqn:El; [|done]. case_match; [|done].
  apply last_Some in El as [l ->]. by rewrite removelast_last, !fmap_app.
Qed.

Definition few_files (p : plainDB) : Prop := 0 <= Plain.nextFileNum (meta p) < 18446744073709551615.

(** The iteration goes on to a switch of logs. *)
Lemma inv_to_switch p r force :
  inv p -> few_files p -> writer p = InRoom r force -> extra (InRoom r force) = extra (InSwitch r 0) ->
  inv (with_writer (with_wal (with_meta p (Plain.getNextFileNum (meta p)).1) (note_size (wal p) (WSize (log (wal p)))))
         (InSwitch r (Plain.getNextFileNum (meta p)).2)).
Proof.
  intros (q1 & q2 & mem & l1 & l2 & r1 & r2 & os & x & []) Hb Hp Hx. exists q1, q2, mem, l1, l2, r1, r2, os, x.
  unfold few_files in Hb.
  split; cbn [with_writer with_wal with_meta Plain.getNextFileNum fst snd Plain.minUnflushedLogNum Plain.nextFileNum
    queue wal meta writer flush_run flushing log_num log log_dead recycler disk note_size]; rewrite ?u64_small by lia; try done.
  - fold (note_size (wal p) (WSize (log (wal p)))). by rewrite note_size_nums.
  - split; [lia|]. intros r' n [= <- <-]. lia.
  - intros Hd. rewrite (wi_extra0 Hd), Hp. done.
  - rewrite Hp in wi_short0. destruct wi_short0 as [S1 S2]. rewrite Hx in S2. split; [|exact S2]. by destruct r.
Qed.

Lemma inv_room p r force p' out :
  inv p -> few_files p -> writer p = InRoom r force -> room_top junk c p r force = Ok (p', out) -> inv p'.
Proof.
  intros Hi Hb Hp. pose proof Hi as (q1 & q2 & mem & l1 & l2 & r1 & r2 & os & x & Hv).
  destruct (last_entry _ _ _ _ _ _ _ _ _ _ Hv) as (_ & _ & HL). pose proof (wi_mem _ _ _ _ _ _ _ _ _ _ Hv) as [Hm _].
  pose proof (proj1 (wi_short _ _ _ _ _ _ _ _ _ _ Hv)) as Hsh. rewrite Hp in Hsh. unfold room_top. rewrite HL.
  assert (Hgo : forall p1, inv p1 -> few_files p1 -> writer p1 = InRoom r force -> extra (InRoom r force) = extra (InSwitch r 0) ->
    (if memTableStopWritesThreshold c <=? foldl (fun size e => u64 (size + f_totalBytes (fe_fl e))) 0 (queue p1) then Ok (p1, RoomStalled)
     else if PlainDisableWAL c then let! p := rotate junk c p1 r 0 in Ok (p, RoomGoOn)
     else let '(m, newLogNum) := Plain.getNextFileNum (meta p1) in
       Ok (with_writer (with_wal (with_meta p1 m) (note_size (wal p1) (WSize (log (wal p1))))) (InSwitch r newLogNum), RoomGoOn)) = Ok (p', out) ->
    inv p').
  { intros p1 Hi1 Hb1 Hp1 Hx. rewrite Hwal. case_match; intros [= <- _]; [done|]. by eapply inv_to_switch. }
  destruct r as [b|b fb|].
  - destruct mem as [[m|?|?] id ln ls fo hi]; cbn in Hm; try done. destruct (prepare m b) as [m' err].
    set (p1 := with_queue p _). assert (Hq : Forall2 same_log (queue p) (queue p1)) by (by eapply on_mem_same).
    assert (Hsame : forall ph, extra ph = [] -> Forall short (unlogged ph) -> (forall r n, ph <> InSwitch r n) -> inv (with_writer p1 ph)).
    { intros ph E1 E2 E3. eapply inv_same; try done; cbn; [by rewrite E1, Hp|]. intros r n E. by apply E3 in E. }
    assert (Hi1 : inv p1).
    { eapply inv_same; try done; cbn; [by rewrite Hp|]. by rewrite Hp. }
    destruct err as [e|]; [|cbn [rbind]; intros [= <- _]; by apply Hsame].
    destruct (decide (e = ErrTableFull)) as [->|Hne]; [cbn [rbind]; by apply (Hgo p1)|].
    intros H. assert (p' = with_writer p1 Idle) as ->.
    { clear -H Hne. destruct e; cbn [rbind] in H; try done; by injection H as <- _. }
    apply Hsame; [done|constructor|done].
  - destruct force; cbn [rbind]; [by apply Hgo|]. intros [= <- _]. eapply inv_same; try done; cbn; by rewrite Hp.
  - destruct force; cbn [rbind]; [by apply Hgo|]. intros [= <- _]. eapply inv_same; try done; cbn; by rewrite Hp.
Qed.

Lemma inv_apply p b mem rnds p' e : inv p -> commitApply junk cmp c p b mem rnds = Ok (p', e) -> inv p'.
Proof.
  intros Hi. pose proof Hi as (q1 & q2 & me & l1 & l2 & r1 & r2 & os & x & Hv). unfold commitApply.
  destruct (list_find _ (queue p)) as [[i [[m|?|?] id ln ls fo hi]]|] eqn:Ef; try done.
  apply list_find_Some in Ef as (Hl & _ & _).
  assert (Hsame : forall m', inv (with_queue p (on_mem (queue p) i m'))).
  { intros m'. eapply inv_same; try done; cbn; [by eapply on_mem_same|apply Hv|]. intros r n E. by apply Hv in E. }
  destruct (MemTable.apply junk cmp m b _ rnds) as [[m1 [err|]]| |]; try done; cbn [rbind].
  - by intros [= <- _].
  - destruct (writerUnref m1) as [m2 zero]. intros [= <- _]. destruct zero; [by apply inv_schedule|done].
Qed.

(** ** Flushes *)

Lemma ready_prefix_spec q e :
  q !! ready_prefix q = Some e -> (S (ready_prefix q) = length q \/ f_readyForFlush (fe_fl e) = false) /\ (ready_prefix q < length q)%nat.
Proof.
  induction q as [|y q IH]; [done|]. destruct q as [|z q]; [cbn; intros; split; [by left|lia]|].
  change (ready_prefix (y :: z :: q)) with (if f_readyForFlush (fe_fl y) then S (ready_prefix (z :: q)) else O).
  destruct (f_readyForFlush (fe_fl y)) eqn:Er.
  - intros H. apply IH in H as [H1 H2]. split; [|cbn in *; lia]. destruct H1 as [H1|H1]; [left; cbn in *; lia|by right].
  - intros [= ->]. split; [by right|cbn; lia].
Qed.

Lemma aligned_nonneg ls q rss e : aligned ls q rss -> e ∈ q -> 0 <= fe_logNum e.
Proof.
  induction 1 as [|x ls q rss Hx Hn Ha IH|x b ls q rss Hx Hb Hn Ha IH]; rewrite ?elem_of_cons; [by intros ?%elem_of_nil| |].
  - intros [->|?]; [lia|auto].
  - intros [->|[->|?]]; [lia|lia|auto].
Qed.

(** A run starts at a boundary of logs. *)
Lemma inv_pick p : inv p -> flush_run p = None -> flushing p = true -> inv (flush_pick c p).1.
Proof.
  intros Hi Hr Hf. unfold flush_pick. destruct (Nat.eqb_spec (ready_prefix (queue p)) 0) as [|Hn]; [by apply inv_flush_end|].
  destruct (queue p !! ready_prefix (queue p)) as [e|] eqn:He; [|by apply inv_flush_end].
  rewrite Hwal. cbn [negb andb]. destruct (existsb _ _) eqn:Ex; [by apply inv_flush_end|].
  destruct (ready_prefix_spec _ _ He) as [Hre Hlt]. set (n := ready_prefix (queue p)) in *.
  destruct Hi as (q1 & q2 & mem & l1 & l2 & r1 & r2 & os & x & []). rewrite Hr in wi_run0. destruct wi_run0 as (-> & -> & ->).
  cbn [app] in *.
  assert (Hcut : exists qa qb la lb ra rb, q2 = qa ++ qb /\ l2 = la ++ lb /\ r2 = ra ++ rb /\ aligned la qa ra /\ aligned lb qb rb /\
    length qa = n /\ head (lb ++ [log_num (wal p)]) = Some (fe_logNum e)).
  { rewrite wi_queue0 in He, Hre, Hlt. rewrite length_app in Hre, Hlt. cbn in Hre, Hlt.
    destruct (decide (n = length q2)) as [E|E].
    - exists q2, [], l2, [], r2, []. rewrite !app_nil_r. do 3 (split; [done|]). split; [done|]. split; [constructor|]. split; [done|].
      rewrite E, list_lookup_middle in He by done. injection He as <-. cbn. by rewrite (proj2 wi_mem0).
    - rewrite lookup_app_l in He by lia. destruct Hre as [?|Hre]; [lia|].
      apply list_elem_of_split_length in He as (qa & qb & -> & Hl).
      assert (Hem : is_mem (fe_fl e) = true) by (by destruct (fe_fl e)).
      assert (Hez : fe_logNum e <> 0).
      { destruct qa as [|y qa]; [cbn in Hl; lia|]. rewrite <-not_true_iff_false in Ex. intros E0. apply Ex, existsb_exists.
        exists y. rewrite E0. split; [|apply Z.leb_le; eapply aligned_nonneg; [done|set_solver]].
        rewrite wi_queue0, Hl. cbn. by left. }
      destruct (aligned_split _ _ _ _ _ wi_al4 Hem Hez) as (la & lb & ra & rb & -> & -> & A1 & A2).
      exists qa, (e :: qb), la, (fe_logNum e :: lb), ra, rb. by cbn. }
  destruct Hcut as (qa & qb & la & lb & ra & rb & -> & -> & -> & A1 & A2 & Hl & Hh).
  exists qa, qb, mem, la, lb, ra, rb, os, x. rewrite <-!app_assoc in *.
  split; cbn [fst with_flush queue wal meta writer flush_run flushing run_n run_min]; done.
Qed.

Lemma inv_number p r : inv p -> few_files p -> flush_run p = Some r -> inv (flush_number p r).
Proof.
  intros (q1 & q2 & mem & l1 & l2 & r1 & r2 & os & x & []) Hb Hr. unfold few_files in Hb.
  exists q1, q2, mem, l1, l2, r1, r2, os, x. rewrite Hr in wi_run0.
  split; cbn [flush_number Plain.getNextFileNum with_flush with_meta queue wal meta writer flush_run flushing run_n run_min
    Plain.minUnflushedLogNum Plain.nextFileNum]; rewrite ?u64_small by lia; try done.
  - split; [lia|]. intros r' n E. apply wi_next0 in E. lia.
  - by destruct wi_run0.
Qed.

Lemma apply_fields m me m' :
  Plain.apply m me = Ok m' -> Plain.ms_minUnflushedLogNum me <> 0 ->
  Plain.minUnflushedLogNum m' = Plain.ms_minUnflushedLogNum me /\ Plain.nextFileNum m' = Plain.nextFileNum m.
Proof.
  unfold Plain.apply. intros H Hz. case_match; [done|]. unfold Plain.writeMetaEdit in H.
  cbn [Plain.ms_minUnflushedLogNum Plain.ms_nextFileNum Plain.ms_lastSeqNum Plain.ms_plainDbAtFileNum] in H.
  destruct (Z.eqb_spec (Plain.ms_minUnflushedLogNum me) 0); [done|]. cbn [negb] in H.
  repeat (apply rbind_Ok in H as (? & ? & H)); repeat (case_match; try done);
    repeat match goal with
    | H : rbind _ _ = Ok _ |- _ => apply rbind_Ok in H as (? & ? & H)
    | H : Ok _ = Ok _ |- _ => injection H as <-
    end; done.
Qed.

Lemma cut_unique k (a b a' b' : list Z) :
  a ++ b = a' ++ b' -> Forall (fun n => n < k) a -> Forall (Z.le k) b -> Forall (fun n => n < k) a' -> Forall (Z.le k) b' -> a = a' /\ b = b'.
Proof.
  revert a'. induction a as [|y a IH]; intros [|z a'] E Ha Hb Ha' Hb'; cbn in E; try done.
  - subst b. inversion Ha'; inversion Hb; subst; lia.
  - subst b'. inversion Ha; inversion Hb'; subst; lia.
  - injection E as <- E. inversion Ha; inversion Ha'; subst. destruct (IH a' E) as [-> ->]; auto.
Qed.

Lemma sorted_head ls k : StronglySorted Z.lt ls -> head ls = Some k -> Forall (Z.le k) ls.
Proof.
  destruct ls as [|y ls]; [done|]. intros Hs [= ->]. apply StronglySorted_inv in Hs as [_ Hs].
  constructor; [lia|]. eapply Forall_impl; [exact Hs|]. cbn. lia.
Qed.

Lemma sorted_infos q : StronglySorted Z.lt (fileNum <$> q) -> StronglySorted num_lt q.
Proof.
  induction q as [|f q IH]; cbn; [constructor|]. intros [Hs HF]%StronglySorted_inv. constructor; [auto|]. by rewrite (Forall_fmap fileNum) in HF.
Qed.

Lemma split_all_needed queue k : Forall (fun f => k <= fileNum f) queue -> split_obsolete queue k = ([], queue).
Proof.
  intros HF. unfold split_obsolete. destruct queue as [|f q]; [done|]. cbn [first_needed].
  rewrite (proj2 (Z.leb_le _ _)) by apply (Forall_inv HF). by rewrite take_0, drop_0.
Qed.

Lemma nothing_obsolete p : inv p -> doDeleteObsoleteFiles (wal p) (Plain.minUnflushedLogNum (meta p)) = wal p.
Proof.
  intros (q1 & q2 & mem & l1 & l2 & r1 & r2 & os & x & []). unfold doDeleteObsoleteFiles.
  rewrite split_all_needed; [by destruct (wal p)|]. destruct wi_low0 as [_ Hl]. rewrite <-wi_nums0 in Hl. by rewrite (Forall_fmap fileNum) in Hl.
Qed.

Lemma deleted_lookup (d : gmap Z bytes) fs k :
  foldl (fun d f => delete (fileNum f) d) d fs !! k = if decide (k ∈ fileNum <$> fs) then None else d !! k.
Proof.
  revert d. induction fs as [|f fs IH]; intros d; cbn [foldl fmap list_fmap]; [done|]. rewrite IH.
  destruct (decide (k ∈ fileNum <$> fs)); [rewrite decide_True by (by right); done|].
  destruct (decide (k = fileNum f)) as [->|Hk].
  - rewrite lookup_delete_eq, decide_True by left. done.
  - rewrite lookup_delete_ne by done. rewrite decide_False; [done|]. by intros [?|?]%elem_of_cons.
Qed.

(** The end of a successful run: exactly the logs of the flushed entries leave
    the queue. *)
Lemma inv_flushed p r a atNum m :
  inv p -> flush_run p = Some r -> Plain.apply (meta p) (Plain.mkSet (run_min r) 0 0 atNum) = Ok m ->
  inv (mkDB m a (doDeleteObsoleteFiles (wal p) (Plain.minUnflushedLogNum m)) (drop (run_n r) (queue p)) (S (next_id p)) (writer p) false None).
Proof.
  intros (q1 & q2 & mem & l1 & l2 & r1 & r2 & os & x & []) Hr Ha. rewrite Hr in wi_run0. destruct wi_run0 as (_ & Hn & Hh).
  destruct wi_low0 as [Hpos Hlow]. pose proof wi_sorted0 as Hso. apply StronglySorted_app in Hso as (Hlt & _ & Hs2).
  pose proof (sorted_head _ _ Hs2 Hh) as Hge. apply head_Some_elem_of in Hh.
  assert (Hmin : Plain.minUnflushedLogNum (meta p) <= run_min r) by (rewrite Forall_forall in Hlow; apply Hlow; set_solver).
  destruct (apply_fields _ _ _ Ha) as [Em En]; cbn [Plain.ms_minUnflushedLogNum] in *; [lia|].
  assert (Hl1 : Forall (fun k => k < run_min r) l1) by (apply Forall_forall; intros k Hk; by apply Hlt).
  assert (Hqs : StronglySorted num_lt (log_queue (wal p))) by (apply sorted_infos; rewrite wi_nums0; exact wi_sorted0).
  destruct (split_obsolete_spec (log_queue (wal p)) (run_min r) Hqs) as (ob & rest & Hsp & Happ & Fo & Fr).
  { apply Exists_exists. assert (Hin : run_min r ∈ fileNum <$> log_queue (wal p)) by (rewrite wi_nums0; set_solver).
    apply list_elem_of_fmap in Hin as (f & Ef & Hf). exists f. split; [done|lia]. }
  assert (Hcut : fileNum <$> ob = l1 /\ fileNum <$> rest = l2 ++ [log_num (wal p)]).
  { apply (cut_unique (run_min r)); [by rewrite <-fmap_app, Happ|by rewrite (Forall_fmap fileNum)|by rewrite (Forall_fmap fileNum)|done|done]. }
  destruct Hcut as [E1 E2]. rewrite Em. unfold doDeleteObsoleteFiles. rewrite Hsp.
  destruct (dispose_spec (recycler (wal p)) ob (fun f => fileNum f < run_min r) Fo) as [Hdel Hrec].
  { eapply Forall_impl; [exact wi_rec0|]. cbn. lia. }
  destruct (dispose (recycler (wal p)) ob) as [rc del]. cbn [fst snd] in Hdel, Hrec.
  assert (Hkeep : forall k, run_min r <= k -> foldl (fun d f => delete (fileNum f) d) (disk (wal p)) del !! k = disk (wal p) !! k).
  { intros k Hk. rewrite deleted_lookup, decide_False; [done|]. intros (f & -> & Hf)%list_elem_of_fmap.
    rewrite Forall_forall in Hdel. specialize (Hdel f Hf). cbn in Hdel. lia. }
  rewrite Forall_forall in Hge.
  exists [], q2, mem, [], l2, [], r2, os, x.
  split; cbn [queue wal meta writer flush_run flushing log_queue log_num log log_dead recycler disk app]; rewrite ?Em, ?En; try done.
  - rewrite wi_queue0, Hn. by rewrite drop_app_length.
  - constructor.
  - split; [lia|]. by apply Forall_forall.
  - apply Forall2_app_inv in wi_logs0 as [_ HF]; [|].
    + apply Forall2_same_length_lookup_2; [by eapply Forall2_length|]. intros i k rs Hk Hrs.
      eapply closed_log_disk; [|exact (Forall2_lookup_lr _ _ _ _ _ _ HF Hk Hrs)]. apply Hkeep, Hge.
      apply list_elem_of_lookup_2 in Hk. set_solver.
    + clear -wi_al3. induction wi_al3; cbn; auto.
  - intros Hd k Hk Hle. rewrite Hkeep in Hk by done. specialize (wi_disk0 Hd k Hk ltac:(lia)).
    apply elem_of_app in wi_disk0 as [Hin|?]; [|done]. rewrite Forall_forall in Hl1. specialize (Hl1 k Hin). cbn in Hl1. lia.
  - rewrite Hkeep; [done|]. apply Hge. set_solver.
Qed.

Lemma inv_done p r res : inv p -> flush_run p = Some r -> inv (flush_done c p r res).
Proof.
  intros Hi Hr. unfold flush_done. rewrite (nothing_obsolete p Hi).
  assert (Hid : with_wal p (wal p) = p) by (by destruct p). rewrite Hid.
  destruct res as [[a|]|e|], (run_table r) as [t|]; try (by apply inv_flush_end).
  destruct (Plain.apply (meta p) _) as [m|e|] eqn:Ea; [|by apply inv_flush_end|by apply inv_flush_end].
  apply inv_schedule. exact (inv_flushed p r _ t m Hi Hr Ea).
Qed.

(** Batches come in below the limit of 2 GiB. *)
Definition ev_ok (e : event) : Prop := match e with EvWrite b => short (data b) | _ => True end.

Lemma inv_step p e p' : inv p -> few_files p -> ev_ok e -> step junk cmp c p e = Some p' -> inv p'.
Proof.
  intros Hi Hb He. destruct e as [b| | |io| | |b mem rnds| | |fuel]; cbn [step].
  - destruct (writer p) eqn:Ew; try done. destruct (Empty b) eqn:Ee; [done|].
    destruct (start_write junk cmp c p b) as [p1|e|] eqn:Es; [|intros [= <-]; by apply inv_seq|done].
    intros [= <-]. by eapply inv_start_write.
  - destruct (writer p) eqn:Ew; try done. intros [= <-]. by apply inv_start_flush.
  - destruct (writer p) as [|r f| |] eqn:Ew; try done. destruct (room_top junk c p r f) as [[p1 o]| |] eqn:Er; try done.
    intros [= <-]. by eapply inv_room.
  - destruct (writer p) as [| |r n|] eqn:Ew; try done. destruct (room_switch junk c p r n io) as [[p1 o]| |] eqn:Er; try done.
    intros [= <-]. unfold room_switch in Er. destruct (switch_log (wal p) n io) as [[w s] [err|]] eqn:Es.
    + injection Er as <- _. by eapply inv_switch_failed.
    + apply rbind_Ok in Er as (p2 & Hrot & [= <- _]). by eapply inv_rotated.
  - destruct (writer p) as [| | |b mem] eqn:Ew; try done. destruct (finish_write c p b) as [p1|e|] eqn:Ef; [| |done].
    + intros [= <-]. by eapply inv_finish.
    + intros [= <-]. eapply inv_same; try done; cbn; by rewrite Ew.
  - assert (H : (if log_dead (wal p) then None else Some (with_wal p (with_log (wal p) (flush_iter (log (wal p)))))) = Some p' -> inv p').
    { case_match; [done|]. intros [= <-]. by apply inv_loop. }
    by destruct (writer p), (flush_run p).
  - assert (H : fst <$> ok_of (commitApply junk cmp c p b mem rnds) = Some p' -> inv p').
    { destruct (commitApply junk cmp c p b mem rnds) as [[p1 o]| |] eqn:Ea; try done. intros [= <-]. by eapply inv_apply. }
    by destruct (writer p), (flush_run p).
  - destruct (flush_run p) eqn:Er; [by destruct (writer p)|].
    assert (H : (if flushing p then Some (flush_pick c p).1 else None) = Some p' -> inv p').
    { destruct (flushing p) eqn:Ef; [|done]. intros [= <-]. by apply inv_pick. }
    by destruct (writer p).
  - destruct (flush_run p) as [r|] eqn:Er; [|by destruct (writer p)].
    assert (H : match run_table r with None => Some (flush_number p r) | Some _ => None end = Some p' -> inv p').
    { case_match; [done|]. intros [= <-]. by apply inv_number. }
    by destruct (writer p).
  - destruct (flush_run p) as [r|] eqn:Er; [|by destruct (writer p)].
    assert (H : forall res, Some (flush_done c p r res) = Some p' -> inv p') by (intros res [= <-]; by apply inv_done).
    destruct (flush_sources cmp fuel _) as [x|e|]; [by destruct (writer p); apply H| |by destruct (writer p); apply H].
    by destruct (writer p), e; try done; apply H.
Qed.

(** ** Opening *)

Abbreviation room := 4611686018427387904.

Abbreviation next m := (Plain.nextFileNum m).

Lemma mark_next m fn :
  1 <= next m < room -> 0 <= fn < room - 1 ->
  next m <= next (Plain.markFileNumUsed m fn) < room /\ fn < next (Plain.markFileNumUsed m fn) /\
  Plain.minUnflushedLogNum (Plain.markFileNumUsed m fn) = Plain.minUnflushedLogNum m.
Proof.
  intros Hm Hf. unfold Plain.markFileNumUsed. destruct (Z.leb_spec (next m) fn); cbn [Plain.nextFileNum Plain.minUnflushedLogNum];
    [rewrite u64_small by lia|]; lia.
Qed.

Lemma list_files_spec tables ls m ns r t m' ns' r' t' :
  list_files tables (m, ns, r, t) ls = Ok (m', ns', r', t') -> 1 <= next m < room -> Forall (fun f => 0 <= f.2 < room - 1) ls ->
  Forall (fun n => n < next m) ns ->
  next m <= next m' < room /\ Forall (fun f => f.2 < next m') ls /\ Forall (fun n => n < next m') ns' /\ logs r' = logs r /\
  (length ns' <= length ns + length ls)%nat.
Proof.
  revert m ns r t. induction ls as [|[ft fn] ls IH]; intros m ns r t H Hm HF Hns; cbn [list_files] in H.
  { injection H as <- <- <- <-. cbn [length]. split; [lia|]. split; [constructor|]. split; [done|]. split; [done|lia]. }
  apply Forall_cons in HF as [Hf HF]. cbn [snd] in Hf. apply rbind_Ok in H as ([[[m1 ns1] r1] t1] & Hl & H).
  destruct (mark_next m fn Hm Hf) as (N1 & N2 & _).
  assert (Hs : m1 = Plain.markFileNumUsed m fn /\ logs r1 = logs r /\ (ns1 = ns \/ ns1 = ns ++ [fn])).
  { unfold list_file in Hl. destruct ft.
    - injection Hl as <- <- <- _. split; [done|]. split; [by destruct (minRecycleLogNum r <=? fn)|]. case_match; auto.
    - case_match; [apply rbind_Ok in Hl as (a & _ & Hl)|]; injection Hl as <- <- <- _; auto. }
  destruct Hs as (-> & Er & El).
  assert (Hmono : Forall (fun n => n < next (Plain.markFileNumUsed m fn)) ns).
  { eapply Forall_impl; [exact Hns|]. intros k Hk. cbn beta in *. lia. }
  assert (Hlen : (length ns1 <= S (length ns))%nat /\ Forall (fun n => n < next (Plain.markFileNumUsed m fn)) ns1).
  { destruct El as [->| ->]; [split; [lia|done]|]. rewrite length_app, Forall_app. cbn [length]. split; [lia|]. split; [done|].
    constructor; [lia|constructor]. }
  destruct Hlen as [Hlen Hns1]. destruct (IH _ _ _ _ H ltac:(lia) HF Hns1) as (I1 & I2 & I3 & I4 & I5).
  split; [lia|]. split; [constructor; [cbn; lia|done]|]. split; [done|]. split; [congruence|cbn; lia].
Qed.

(** A replay changes only the manifest's counters and the table. *)
Lemma replay_all_spec nums p size rnds fuel p' :
  replay_all junk cmp c p nums size rnds fuel = Ok p' -> 1 <= next (meta p) -> next (meta p) + Z.of_nat (length nums) < 2 * room ->
  Forall (fun n => n < next (meta p)) nums ->
  next (meta p) <= next (meta p') <= next (meta p) + Z.of_nat (length nums) /\ wal p' = wal p.
Proof.
  revert p. induction nums as [|n nums IH]; intros p H Hm Hb HF; cbn [replay_all] in H.
  { injection H as <-. cbn. split; [lia|done]. }
  apply rbind_Ok in H as ([p1 ms] & Hr & H). apply Forall_cons in HF as [Hn HF]. cbn beta in Hn. cbn [length] in Hb.
  assert (Hs : next (meta p) <= next (meta p1) <= next (meta p) + 1 /\ wal p1 = wal p).
  { unfold replayWAL in Hr. apply rbind_Ok in Hr as ([rs e] & _ & Hr). apply rbind_Ok in Hr as (s & _ & Hr). case_match; [done|].
    destruct (rp_flush _); [injection Hr as <- _; split; [lia|done]|]. apply rbind_Ok in Hr as ([[a|] st] & _ & Hr); injection Hr as <- _; cbn.
    - rewrite u64_small by lia. split; [lia|done].
    - split; [lia|done]. }
  destruct Hs as [Hs Ew]. set (p2 := with_meta p1 _) in H.
  assert (E2 : next (meta p2) = next (meta p1)).
  { unfold p2. cbn [with_meta meta]. unfold Plain.markLogSeqNum, Plain.markFileNumUsed.
    destruct (Z.leb_spec (next (meta p1)) n); [lia|]. by case_match. }
  destruct (IH p2 H) as [I1 I2]; [lia|lia|eapply Forall_impl; [exact HF|]; intros k Hk; cbn beta in *; lia|].
  cbn [length]. split; [lia|]. rewrite I2. exact Ew.
Qed.

Lemma merge_new n obsolete :
  Forall (fun f => fileNum f < n) obsolete ->
  StronglySorted num_lt (WalFiles.merge [mkInfo n 0] obsolete) /\
  (forall k, k ∈ fileNum <$> WalFiles.merge [mkInfo n 0] obsolete <-> k = n \/ k ∈ fileNum <$> obsolete).
Proof.
  intros HF. unfold WalFiles.merge. destruct obsolete as [|f fs]; [split; [repeat constructor|set_solver]|].
  destruct (dedup_spec None (merge_sort (fun a b => fileNum a <= fileNum b) ([mkInfo n 0] ++ f :: fs))) as (H1 & _ & H3); [|done|].
  { apply StronglySorted_merge_sort; [intros ???; lia|intros ??; lia]. }
  split; [done|]. intros k. rewrite H3, merge_sort_Permutation. set_solver.
Qed.

(** A directory: the listing names every log, and far fewer than 2^62 files
    have been numbered. *)
Record dir_ok (mf : option file) (ls : list (fileType * Z)) (wals : gmap Z bytes) : Prop := mkDirOk {
  do_listed : forall n, is_Some (wals !! n) -> n ∈ listed_logs ls;
  do_nums : Forall (fun f => 0 <= f.2 < room - 1) ls;
  do_few : Z.of_nat (length ls) < room - 1;
  do_meta : forall m, Plain.openMetadata mf = Ok m -> 1 <= next m < room
}.

Lemma listed_num ls n : n ∈ listed_logs ls -> exists ft, (ft, n) ∈ ls.
Proof.
  intros ([ft k] & Hin & E)%list_elem_of_omap. exists ft. destruct ft; cbn in E; [injection E as <-|]; done.
Qed.

Lemma listed_bound ls k : Forall (fun f : fileType * Z => f.2 < k) ls -> Forall (fun n => n < k) (listed_logs ls).
Proof. intros HF. apply Forall_forall. intros n (ft & Hin)%listed_num. rewrite Forall_forall in HF. by apply HF in Hin. Qed.

Lemma filter_every fs n : Forall (fun f => fileNum f < n) fs -> filter (fun f => fileNum f < n) fs = fs.
Proof. induction 1 as [|f fs Hf HF IH]; [done|]. by rewrite filter_cons, decide_True, IH. Qed.

(** The logs of a store just opened: the new one only. *)
Lemma open_wal n r wals obsolete :
  Forall (fun f => fileNum f < n) obsolete -> (forall k, is_Some (wals !! k) -> k < n) -> logs r = [] ->
  let w := doDeleteObsoleteFiles
             (scanObsoleteFiles (append_log (place_file (mkWal [] 0 (NewLogWriter 0) false r wals) None n) n 0) n false obsolete) n in
  fileNum <$> log_queue w = [n] /\ log_num w = n /\ log w = NewLogWriter n /\ log_dead w = false /\
  Forall (fun f => fileNum f < n) (logs (recycler w)) /\ is_Some (disk w !! n) /\ (forall k, is_Some (disk w !! k) -> n <= k -> k = n).
Proof.
  intros HF Hw Hr. cbv zeta. unfold scanObsoleteFiles. cbn [append_log place_file log_queue log_num log log_dead recycler disk app].
  rewrite (filter_every obsolete n HF). destruct (merge_new n obsolete HF) as [Hs Hin].
  unfold doDeleteObsoleteFiles. cbn [log_queue log_num log log_dead recycler disk].
  destruct (split_obsolete_spec _ n Hs) as (ob & rest & -> & Happ & Fo & Fr).
  { apply Exists_exists. assert (Hn : n ∈ fileNum <$> WalFiles.merge [mkInfo n 0] obsolete) by (apply Hin; by left).
    apply list_elem_of_fmap in Hn as (f & -> & Hf). by exists f. }
  destruct (dispose_spec r ob (fun f => fileNum f < n) Fo) as [Hdel Hrec]; [by rewrite Hr|].
  destruct (dispose r ob) as [rc del]. cbn [fst snd log_queue log_num log log_dead recycler disk] in *.
  assert (Hkeep : forall k, n <= k -> foldl (fun d f => delete (fileNum f) d) (<[n := []]> wals) del !! k = <[n := []]> wals !! k).
  { intros k Hk. rewrite deleted_lookup, decide_False; [done|]. intros (f & -> & Hf)%list_elem_of_fmap.
    rewrite Forall_forall in Hdel. specialize (Hdel f Hf). cbn in Hdel. lia. }
  split.
  { assert (Hall : Forall (fun f => fileNum f = n) rest).
    { apply Forall_forall. intros f Hf. rewrite Forall_forall in Fr, HF. specialize (Fr f Hf). cbn in Fr.
      assert (Hk : fileNum f ∈ fileNum <$> WalFiles.merge [mkInfo n 0] obsolete) by (rewrite <-Happ; apply list_elem_of_fmap_2; set_solver).
      apply Hin in Hk as [?|(g & E & Hg)%list_elem_of_fmap]; [done|]. specialize (HF g Hg). cbn in HF. lia. }
    assert (Hn : n ∈ fileNum <$> rest).
    { assert (Hn : n ∈ fileNum <$> ob ++ rest) by (rewrite Happ; apply Hin; by left). rewrite fmap_app in Hn.
      apply elem_of_app in Hn as [(g & E & Hg)%list_elem_of_fmap|?]; [|done]. rewrite Forall_forall in Fo. specialize (Fo g Hg). cbn in Fo. lia. }
    rewrite <-Happ in Hs. apply StronglySorted_app in Hs as (_ & _ & Hs). destruct rest as [|f [|g fs]]; [by apply elem_of_nil in Hn| |].
    - apply Forall_inv in Hall. cbn. by rewrite Hall.
    - apply StronglySorted_inv in Hs as [_ Hs]. apply Forall_inv in Hs. unfold num_lt in Hs.
      pose proof (Forall_inv Hall) as E1. pose proof (Forall_inv (Forall_inv_tail Hall)) as E2. cbn in E1, E2. lia. }
  do 3 (split; [done|]). split; [done|]. split; [rewrite Hkeep by lia; rewrite lookup_insert_eq; eauto|].
  intros k Hk Hle. rewrite Hkeep in Hk by done. apply lookup_insert_is_Some in Hk as [?|[_ Hk]]; [done|]. specialize (Hw k Hk). lia.
Qed.

Lemma inv_open mf ls wals tables size rnds fuel p :
  dir_ok mf ls wals -> newPlainDB junk cmp c mf ls wals tables size rnds fuel = Ok p -> inv p.
Proof.
  intros [Hli Hnu Hfe Hme] H. unfold newPlainDB in H. rewrite Hwal in H.
  apply rbind_Ok in H as (m & Hm & H). specialize (Hme m Hm). apply rbind_Ok in H as (mem & _ & H).
  apply rbind_Ok in H as ([[[m1 ns] r] t] & Hl & H). destruct (list_files_spec _ _ _ _ _ _ _ _ _ _ Hl Hme Hnu) as (N1 & N2 & N4 & Er & El); [constructor|].
  cbn [length Nat.add logs] in Er, El. apply rbind_Ok in H as (p1 & Hr & H).
  assert (Hlen : length (merge_sort Z.le ns) = length ns) by (by rewrite merge_sort_Permutation).
  apply replay_all_spec in Hr as [N3 Ew]; cbn [meta wal] in *; rewrite ?Hlen in *; [|lia|lia|by rewrite merge_sort_Permutation].
  rewrite Ew in H. cbn [Plain.getNextFileNum] in H. apply rbind_Ok in H as (m2 & Ha & H).
  destruct (apply_fields _ _ _ Ha) as [A1 A2]; cbn [Plain.ms_minUnflushedLogNum Plain.nextFileNum] in *; [lia|].
  rewrite u64_small in A2 by lia. set (n := next (meta p1)) in *. rewrite A1 in H.
  set (obsolete := _ <$> listed_logs ls) in H.
  assert (Hob : Forall (fun f => fileNum f < n) obsolete).
  { apply Forall_fmap. pose proof (listed_bound ls _ N2) as HF. eapply Forall_impl; [exact HF|]. cbn. lia. }
  destruct (open_wal n r wals obsolete Hob) as (W1 & W2 & W3 & W4 & W5 & W6 & W7); [|done|].
  { intros k Hk%Hli. pose proof (listed_bound ls _ N2) as HF. rewrite Forall_forall in HF. specialize (HF k Hk). cbn in HF. lia. }
  set (w := doDeleteObsoleteFiles _ n) in *. injection H as <-.
  exists [], [], (mkEntry (FMem mem) 1 n (MemTable.logSeqNum mem) false []), [], [], [], [], [], [].
  split; cbn [queue wal meta writer flush_run flushing set_visible Plain.minUnflushedLogNum Plain.nextFileNum app]; rewrite ?W2, ?A1, ?A2; try done.
  - constructor.
  - constructor.
  - repeat constructor.
  - split; [lia|]. constructor; [lia|constructor].
  - split; [lia|done].
  - rewrite W3. by repeat constructor.
  - intros _ k Hk Hle. apply list_elem_of_singleton. by apply W7.
Qed.

(** ** Recovery *)

Inductive reachable : plainDB -> Prop :=
| reach_open mf ls wals tables size rnds fuel p :
    dir_ok mf ls wals -> newPlainDB junk cmp c mf ls wals tables size rnds fuel = Ok p -> reachable p
| reach_step p e p' : reachable p -> few_files p -> ev_ok e -> step junk cmp c p e = Some p' -> reachable p'.

Lemma reachable_winv p : reachable p -> inv p.
Proof. induction 1; [by eapply inv_open|by eapply inv_step]. Qed.

(** The directory after a crash.  The current log holds some prefix [F] of what
    was written and then any bytes [g]: the file may be a recycled one, in which
    the remains of an older log follow, or a preallocated one, or sectors may
    have reached the disk out of order.  Every other file is as it was. *)
Record crash_image (w : walState) (d : gmap Z bytes) (F g : bytes) : Prop := mkCrash {
  ci_cur : d !! log_num w = Some (F ++ g);
  ci_torn : F `prefix_of` stream (log w);
  ci_rest : forall n, n <> log_num w -> d !! n = disk w !! n
}.

(** The bytes behind the prefix are not taken for a chunk of this log: no chunk
    with this log's number (or of the old format, without a number) and a right
    checksum starts at a place the reader can come to and ends in [g]. *)
Definition remains_quiet (w : walState) (F g : bytes) : Prop := quiet (u32 (log_num w)) (F ++ g) (len F).

(** The logs the next [newPlainDB] replays, and what it reads from them. *)
Definition logs_to_replay (minUnflushedLogNum : Z) (d : gmap Z bytes) : list Z :=
  merge_sort Z.le (filter (Z.le minUnflushedLogNum) (elements (dom d))).

Fixpoint read_logs (size : Z) (d : gmap Z bytes) (nums : list Z) : outcome (list bytes) :=
  match nums with
  | [] => Ok []
  | n :: nums' =>
      let f := default [] (d !! n) in
      let! (rs, e) := read_log (length f + 2) size (NewReader f n) in
      if log_end e then let! rs' := read_logs size d nums' in Ok (rs ++ rs') else Err e
  end.

Lemma read_logs_closed size d w nums rss rest :
  1 <= size -> Forall2 (closed_log w) nums rss -> (forall n, n ∈ nums -> d !! n = disk w !! n) ->
  read_logs size d (nums ++ rest) = let! rs := read_logs size d rest in Ok (concat rss ++ rs).
Proof.
  intros Hsz. induction 1 as [|n rs nums rss Hc HF IH]; intros Hd; cbn [app read_logs concat].
  - by destruct (read_logs size d rest).
  - destruct Hc as (os & l & g & Hw & Hs & <- & Hdisk). rewrite (Hd n) by left. rewrite Hdisk. change (default [] (Some (sink (Close l) ++ g))) with (sink (Close l) ++ g).
    rewrite (read_closed n os l size g _ Hsz Hs Hw) by (cbv zeta; lia). cbn [rbind log_end]. rewrite IH by (intros; apply Hd; by right).
    change (log_end ErrEOF) with true. cbn [rbind]. destruct (read_logs size d rest); cbn [rbind]; [|done..].
    by rewrite app_assoc.
Qed.

(** Sorted lists without repetitions and with the same elements are equal. *)
Lemma sorted_same (l l' : list Z) :
  StronglySorted Z.lt l -> StronglySorted Z.le l' -> NoDup l' -> (forall n, n ∈ l <-> n ∈ l') -> l' = l.
Proof.
  intros Hs Hs' Hn Hin. apply (StronglySorted_unique Z.le); [done| |].
  - clear -Hs. induction Hs as [|x l Hs IH HF]; constructor; [done|]. eapply Forall_impl; [exact HF|]. cbn. lia.
  - apply NoDup_Permutation; [done| |intros n; by rewrite Hin].
    clear -Hs. induction Hs as [|x l Hs IH HF]; constructor; [|done]. intros Hx. rewrite Forall_forall in HF. specialize (HF x Hx). lia.
Qed.

(** C1: no acknowledged batch is lost in a crash.  From any directory and under
    every interleaving of writers, manual flushes, rotations with recycled
    logs, the flush loop of the log and background flushes that succeed or
    fail, as long as no log switch has failed ([log_dead] is false): let a
    crash leave any prefix of what was written to the current log, followed by
    any bytes, such as the remains of the older log in a recycled file, of which
    none happen to form a chunk of this log with a right checksum where the
    reader looks for one.  Then the logs the next opening replays are exactly
    those in the queue, they all read back without error, and their records
    are the batches of all sealed unflushed entries followed by a prefix of
    those of the mutable memtable which contains every batch whose bytes had
    reached the file. *)
Theorem wal_recovers p d F g size k :
  reachable p -> log_dead (wal p) = false -> crash_image (wal p) d F g -> remains_quiet (wal p) F g -> 1 <= size ->
  let R := default [] (fe_hist <$> last (queue p)) ++ extra (writer p) in
  (k <= length R)%nat -> len (enc_log (u32 (log_num (wal p))) 0 (take k R)) <= len F ->
  let nums := logs_to_replay (Plain.minUnflushedLogNum (meta p)) d in
  nums = fileNum <$> log_queue (wal p) /\
  exists j, (k <= j)%nat /\ read_logs size d nums = Ok (concat (fe_hist <$> removelast (queue p)) ++ take j R).
Proof.
  intros (q1 & q2 & mem & l1 & l2 & r1 & r2 & os & x & Hv)%reachable_winv Hd [Hcur Htorn Hrest] Hquiet Hsz R Hk Hlen nums.
  destruct (last_entry _ _ _ _ _ _ _ _ _ _ Hv) as (HL & HR & _). destruct Hv.
  destruct wi_cur0 as (C1 & C2 & C3). destruct wi_low0 as [_ Hlow].
  assert (ER : R = recs os) by (unfold R; by rewrite HL, <-(wi_extra0 Hd), C3). rewrite ER, HR in *. clearbody R. clear R ER HL HR.
  assert (Hdom : forall n, is_Some (d !! n) <-> is_Some (disk (wal p) !! n)).
  { intros n. destruct (decide (n = log_num (wal p))) as [->|Hn]; [|by rewrite Hrest]. rewrite Hcur. split; [done|eauto]. }
  assert (Hnums : nums = fileNum <$> log_queue (wal p)).
  { rewrite wi_nums0. unfold nums, logs_to_replay. apply sorted_same; [done| | |].
    - apply StronglySorted_merge_sort; [intros ???; lia|intros ??; lia].
    - rewrite merge_sort_Permutation. apply NoDup_filter, NoDup_elements.
    - intros n. rewrite merge_sort_Permutation, list_elem_of_filter, elem_of_elements, elem_of_dom, Hdom. split.
      + intros Hn. rewrite Forall_forall in Hlow. split; [by apply Hlow|]. rewrite app_assoc in Hn.
        apply elem_of_app in Hn as [Hn| ->%list_elem_of_singleton]; [|done].
        apply list_elem_of_lookup in Hn as (i & Hi). destruct (Forall2_lookup_l _ _ _ _ _ wi_logs0 Hi) as (rs & _ & (? & ? & ? & _ & _ & _ & ->)). eauto.
      + intros [Hle Hn]. by apply wi_disk0. }
  split; [done|]. destruct (read_over (log_num (wal p)) os (log (wal p)) size F g k (length (F ++ g) + 2) Hsz C2 C1 Htorn Hquiet Hk Hlen) as (j & e & Hj & Hrd & He); [rewrite length_app; lia|].
  exists j. split; [done|]. rewrite Hnums, wi_nums0, app_assoc. rewrite app_assoc in wi_sorted0.
  rewrite (read_logs_closed size d (wal p) (l1 ++ l2) (r1 ++ r2) [log_num (wal p)]) by
    (try done; intros n Hn; apply Hrest; pose proof (sorted_last _ _ _ wi_sorted0 Hn); lia).
  cbn [read_logs]. rewrite Hcur. change (default [] (Some (F ++ g))) with (F ++ g). rewrite Hrd. cbn [rbind].
  assert (log_end e = true) as -> by (unfold log_end; destruct He as [->| ->]; [done|by rewrite orb_true_r]). cbn [rbind].
  by rewrite app_nil_r, (aligned_hist _ _ _ (aligned_app _ _ _ _ _ _ wi_al3 wi_al4)).
Qed.

End Events.

(** ** A run with a recycled log *)

Definition demo_config : config := mkConfig 65536 4 false.

Definition demo_batch1 : Batch := MemTable.demo_batch [OpSet [5] [50]; OpDelete [6]].
Definition demo_batch2 : Batch := MemTable.demo_batch [OpSet [7] [70; 71]].

Definition allowed (p : plainDB) (e : event) : bool :=
  (0 <=? Plain.nextFileNum (meta p)) && (Plain.nextFileNum (meta p) <? 18446744073709551615) &&
  match e with EvWrite b => len (data b) <? 2147483648 | _ => true end.

Fixpoint run_events (c : config) (p : plainDB) (es : list event) : option plainDB :=
  match es with
  | [] => Some p
  | e :: es' =>
      if allowed p e then
        match step demo_junk bytes_compare c p e with Some p' => run_events c p' es' | None => None end
      else None
  end.

Lemma run_reachable_db c p es p' :
  reachable demo_junk bytes_compare c p -> run_events c p es = Some p' -> reachable demo_junk bytes_compare c p'.
Proof.
  revert p. induction es as [|e es IH]; intros p Hp H; cbn [run_events] in H; [by injection H as <-|].
  destruct (allowed p e) eqn:Ea; [|done]. destruct (step _ _ _ p e) as [p1|] eqn:Es; [|done]. apply (IH p1); [|done].
  apply andb_true_iff in Ea as [[H1%Z.leb_le H2%Z.ltb_lt]%andb_true_iff H3].
  eapply reach_step; [done|done| |done]. destruct e; try done. by apply Z.ltb_lt in H3.
Qed.

Definition opened (c : config) : plainDB :=
  match newPlainDB demo_junk bytes_compare c None [] ∅ ∅ 512 (fun _ _ => 0) 10 with
  | Ok p => p
  | _ => mkDB (Plain.mkMeta 0 0 0 create 0 0 0 0) None (mkWal [] 0 (NewLogWriter 0) false (mkRecycler 0 0 [] 0) ∅) [] 0 Idle false None
  end.

Definition demo_opened : plainDB := opened demo_config.

Definition demo_io : ioResults := mkIO None None None None.

(** The first memtable is flushed, its log recycled for the third memtable. *)
Definition demo_run : list event :=
  [EvWrite demo_batch1; EvRoom; EvLog; EvApply (Batch.Repr demo_junk (setSeqNum demo_batch1 1)) 1 (fun _ => 0); EvForce; EvRoom;
   EvSwitch demo_io; EvRoom; EvPick; EvNumber; EvFlushed 100; EvWrite demo_batch2; EvRoom; EvLog;
   EvApply (Batch.Repr demo_junk (setSeqNum demo_batch2 3)) 2 (fun _ => 0); EvForce; EvRoom; EvSwitch demo_io; EvRoom;
   EvWrite demo_batch2; EvRoom; EvLog; EvLogLoop].

Definition demo_db : plainDB := default demo_opened (run_events demo_config demo_opened demo_run).

Lemma empty_dir_ok : dir_ok None [] ∅.
Proof.
  split; [intros n Hn; rewrite lookup_empty in Hn; by destruct Hn|constructor|by vm_compute|].
  intros m Hm. destruct Plain.fresh_wf as (m' & Hm' & _ & _ & Hn). assert (m' = m) as -> by congruence. rewrite Hn. lia.
Qed.

Lemma opened_reachable c :
  match newPlainDB demo_junk bytes_compare c None [] ∅ ∅ 512 (fun _ _ => 0) 10 with Ok _ => true | _ => false end = true ->
  reachable demo_junk bytes_compare c (opened c).
Proof.
  unfold opened. destruct (newPlainDB _ _ _ _ _ _ _ _ _ _) as [p| |] eqn:E; try done. intros _. by eapply reach_open; [apply empty_dir_ok|].
Qed.

Lemma demo_db_reachable : reachable demo_junk bytes_compare demo_config demo_db.
Proof.
  unfold demo_db. destruct (run_events demo_config demo_opened demo_run) as [p|] eqn:E; [|exfalso; vm_compute in E; discriminate].
  cbn [default]. apply (run_reachable_db demo_config demo_opened demo_run); [|done]. apply opened_reachable. by vm_compute.
Qed.

(** The current log is the file of an older one: its bytes stay behind what was
    written since. *)
Definition demo_prefix : bytes := stream (log (wal demo_db)).
Definition demo_remains : bytes := drop (length demo_prefix) (file_of (wal demo_db) (log_num (wal demo_db))).
Definition demo_crash : gmap Z bytes := <[log_num (wal demo_db) := demo_prefix ++ demo_remains]> (disk (wal demo_db)).

Definition quietb (ln : Z) (G : bytes) (m : Z) : bool :=
  forallb (fun i => match chunk_end ln G (Z.of_nat i) with Some e => (Z.of_nat i + 7 <=? m) && (e <=? m) | None => true end)
    (seq 0 (Z.to_nat (m + 11))).

Lemma quietb_quiet ln G m : quietb ln G m = true -> quiet ln G m.
Proof.
  unfold quietb. rewrite forallb_forall. intros H o e Ho He. specialize (H (Z.to_nat o)). rewrite Z2Nat.id, He in H by lia.
  destruct (andb_prop _ _ (H ltac:(apply in_seq; lia))) as [H1%Z.leb_le H2%Z.leb_le]. done.
Qed.

Lemma wal_recovers_witness :
  demo_remains <> [] /\ logs_to_replay (Plain.minUnflushedLogNum (meta demo_db)) demo_crash = [2; 4] /\
  exists j, (1 <= j)%nat /\ read_logs 512 demo_crash (logs_to_replay (Plain.minUnflushedLogNum (meta demo_db)) demo_crash) =
    Ok (concat (fe_hist <$> removelast (queue demo_db)) ++ take j (default [] (fe_hist <$> last (queue demo_db)) ++ extra (writer demo_db))).
Proof.
  split; [by vm_compute|]. split; [by vm_compute|].
  apply (wal_recovers demo_junk bytes_compare demo_config eq_refl demo_db demo_crash demo_prefix demo_remains 512 1).
  - exact demo_db_reachable.
  - by vm_compute.
  - split; [apply lookup_insert_eq|done|]. intros n Hn. by apply lookup_insert_ne.
  - apply quietb_quiet. by vm_compute.
  - lia.
  - by vm_compute.
  - by vm_compute.
Defined.
