(* ===== verification/PlainRead.v ===== *)
(** Reads of the plain store: [plainDB.Get] against the entries its memtables
    and queued batches hold. *)

From Stdlib Require Import ZArith Lia.
From stdpp Require Import base numbers option gmap sorting list.
From S2P Require Import Prelude Base Batch Iter FlushableBatch Skl SklInv MemTable PlainDB PlainWal.
Import PlainDB.

Section Reads.
Context (junk : bytes -> nat -> Z) (cmp : bytes -> bytes -> Z) `{!Comparator cmp}.

(** What an entry of the queue holds, in the order of internal keys. *)
Definition contents (f : flushable) (es : list entry) : Prop :=
  match f with
  | FMem m => exists ns, holds cmp (skl m) ns /\ Forall (fun a => searchable (a_key a)) ns /\ es = entry_of <$> ns
  | FBatch fb =>
      Forall (FlushableBatch.readable junk fb) (fb_offsets fb) /\ es = views junk fb /\ StronglySorted (entry_lt cmp) es /\ valid_keys es
  | FTable _ => False
  end.

Lemma contents_sorted f es : contents f es -> StronglySorted (entry_lt cmp) es.
Proof.
  destruct f as [m|fb|a]; cbn [contents]; [|tauto|done]. intros (ns & Hh & _ & ->). apply entries_sorted; [done|]. apply (h_shape _ _ _ Hh).
Qed.

(** The newest entry of a key comes first. *)
Lemma newest_top key es :
  StronglySorted (entry_lt cmp) es ->
  match newest key es with
  | Some x => x ∈ es /\ InternalKey.UserKey x.1 = key /\
      forall e, e ∈ es -> InternalKey.UserKey e.1 = key -> e = x \/ InternalKey.Trailer e.1 < InternalKey.Trailer x.1
  | None => forall e, e ∈ es -> InternalKey.UserKey e.1 <> key
  end.
Proof.
  unfold newest. induction 1 as [|y es Hs IH HF]; [cbn; intros e He; by apply elem_of_nil in He|]. rewrite filter_cons. case_decide as Hk.
  - cbn [head]. split; [left|]. split; [done|]. intros e He Hek. apply elem_of_cons in He as [->|He]; [by left|right].
    rewrite Forall_forall in HF. specialize (HF e He). apply InternalKey.InternalCompare_lt in HF; [|done].
    destruct HF as [Hlt|[_ Ht]]; [|lia]. rewrite Hk, Hek, (cmp_refl cmp) in Hlt. lia.
  - destruct (head _) as [x|].
    + destruct IH as (I1 & I2 & I3). split; [by right|]. split; [done|]. intros e He Hek. apply elem_of_cons in He as [->|He]; [done|auto].
    + intros e He. apply elem_of_cons in He as [->|He]; [done|auto].
Qed.

Lemma filter_none {A} (P : A -> Prop) {HD : forall x, Decision (P x)} (l : list A) : (forall x, x ∈ l -> ~ P x) -> filter P l = [].
Proof.
  induction l as [|x l IH]; intros H; [done|]. rewrite filter_cons, decide_False by (apply H; left). apply IH. intros y Hy. apply H. by right.
Qed.

(** A seek to a key finds its newest entry. *)
Lemma seek_newest key es :
  StronglySorted (entry_lt cmp) es ->
  newest key es = match lookupZ es (list_seek cmp key es) with
                  | Some x => if cmp (InternalKey.UserKey x.1) key =? 0 then Some x else None
                  | None => None
                  end.
Proof.
  unfold newest. induction 1 as [|y es Hs IH HF]; [done|]. rewrite filter_cons. cbn [list_seek].
  destruct (Z.ltb_spec (cmp (InternalKey.UserKey y.1) key) 0) as [Hlt|Hge].
  - rewrite decide_False by (intros E; rewrite E, (cmp_refl cmp) in Hlt; lia). rewrite IH.
    pose proof (list_seek_range cmp key es). rewrite lookupZ_cons by lia. by rewrite Z.add_simpl_l.
  - change (lookupZ (y :: es) 0) with (Some y). cbv iota beta.
    destruct (cmp (InternalKey.UserKey y.1) key =? 0) eqn:Ec; [apply Z.eqb_eq in Ec|apply Z.eqb_neq in Ec].
    + apply (cmp_eq (cmp := cmp)) in Ec. by rewrite decide_True.
    + rewrite decide_False by (intros E; rewrite E, (cmp_refl cmp) in Ec; lia).
      enough (filter (fun e : entry => InternalKey.UserKey e.1 = key) es = []) as -> by done.
      apply filter_none. intros x Hx E. rewrite Forall_forall in HF. specialize (HF x Hx).
      apply InternalKey.InternalCompare_lt in HF; [|done]. rewrite E in HF. destruct HF as [?|[E' _]]; [lia|].
      rewrite E', (cmp_refl cmp) in Ec. lia.
Qed.

(** What a single lookup answers: a memtable with its newest entry, a queued
    batch only when that entry is a Set. *)
Lemma f_get_spec f es key :
  contents f es ->
  f_get junk cmp f key =
    Ok (match f, newest key es with
        | FBatch _, Some (k, v) => if InternalKey.KindOf k =? InternalKey.KindSet then (v, true, InternalKey.KindOf k) else answer None
        | _, o => answer o
        end).
Proof.
  intros Hc. pose proof (contents_sorted f es Hc) as Hs. destruct f as [m|fb|a]; cbn [contents f_get] in *; [| |done].
  - destruct Hc as (ns & Hh & Hse & ->). by apply Get_spec.
  - destruct Hc as (Hr & -> & _ & Hv). unfold fb_get. destruct (fSeekGE_ok junk cmp fb key Hr Hs Hv) as (i & -> & _). cbn [rbind].
    rewrite (seek_newest key _ Hs). destruct (lookupZ _ _) as [[k v]|]; [|done]. cbn [fst].
    destruct (cmp (InternalKey.UserKey k) key =? 0); cbn [andb]; [|done]. by case_match.
Qed.

(** [e] is the newest entry of [key]. *)
Definition top (key : bytes) (es : list entry) (e : entry) : Prop :=
  e ∈ es /\ InternalKey.UserKey e.1 = key /\
  forall e', e' ∈ es -> InternalKey.UserKey e'.1 = key -> InternalKey.Trailer e'.1 <= InternalKey.Trailer e.1.

(** The entries of the queue are filled one after the other. *)
Definition older (es es' : list entry) : Prop :=
  forall e e', e ∈ es -> e' ∈ es' -> InternalKey.Trailer e.1 < InternalKey.Trailer e'.1.

(** What an entry stands for. *)
Definition verdict (e : entry) : outcome bytes :=
  if InternalKey.KindOf e.1 =? InternalKey.KindSet then Ok e.2
  else if InternalKey.KindOf e.1 =? InternalKey.KindPrefixDelete then Ok [] else Err ErrNotFound.

Definition table_answer (p : plainDB) (key : bytes) : outcome bytes :=
  match arrtable p with
  | None => Err ErrNotFound
  | Some e => let! (q, _) := f_get junk cmp (fe_fl e) key in if q.2 : bool then Ok q.1 else Err ErrNotFound
  end.

Lemma get_loop_skip q ess rest key :
  Forall2 (fun e es => contents (fe_fl e) es) q ess -> (forall es e, es ∈ ess -> e ∈ es -> InternalKey.UserKey e.1 <> key) ->
  get_loop junk cmp (q ++ rest) key = get_loop junk cmp rest key.
Proof.
  induction 1 as [|e es q ess Hc HF IH]; intros Hk; [done|]. cbn [app get_loop]. rewrite (f_get_spec _ _ key Hc).
  pose proof (newest_top key es (contents_sorted _ _ Hc)) as Hn. destruct (newest key es) as [x|].
  { destruct Hn as (Hx & Hxk & _). exfalso. eapply Hk; [left|exact Hx|done]. }
  assert (match fe_fl e with FBatch _ | _ => answer None end = answer None) as -> by (by destruct (fe_fl e)).
  cbn [answer rbind]. apply IH. intros es' e' Hes. apply Hk. by right.
Qed.

Lemma older_app ea es eb : StronglySorted older (ea ++ es :: eb) -> forall es', es' ∈ eb -> older es es'.
Proof.
  intros (_ & _ & Hs)%StronglySorted_app es' Hin. apply StronglySorted_inv in Hs as [_ HF]. rewrite Forall_forall in HF. auto.
Qed.

(** The lookup of the entry that holds the newest entry of the key. *)
Lemma f_get_top f es key e :
  contents f es -> e ∈ es -> InternalKey.UserKey e.1 = key ->
  (forall e', e' ∈ es -> InternalKey.UserKey e'.1 = key -> InternalKey.Trailer e'.1 <= InternalKey.Trailer e.1) ->
  newest key es = Some e.
Proof.
  intros Hc He Hk Hmax. pose proof (newest_top key es (contents_sorted _ _ Hc)) as Hn. destruct (newest key es) as [x|].
  - destruct Hn as (Hx & Hxk & Hall). destruct (Hall e He Hk) as [->|Hlt]; [done|]. specialize (Hmax x Hx Hxk). lia.
  - by destruct (Hn e He).
Qed.

(** C6: a read returns the newest version.  When every memtable and queued
    batch holds entries newer than those before it, [Get] answers with the
    entry of the key with the greatest sequence number: its value for a Set,
    not-found for a tombstone in a memtable.  A tombstone in a queued large
    batch is overlooked: the answer is that of the store before the batch.
    With no entry of the key in memory the array table answers. *)
Theorem get_newest p ess key :
  Forall2 (fun e es => contents (fe_fl e) es) (queue p) ess -> StronglySorted older ess ->
  (forall i fe es e, queue p !! i = Some fe -> ess !! i = Some es -> e ∈ es -> top key (mjoin ess) e ->
     InternalKey.KindOf e.1 ∈ [InternalKey.KindSet; InternalKey.KindDelete; InternalKey.KindPrefixDelete] ->
     Get junk cmp p key =
       match fe_fl fe with
       | FBatch _ => if InternalKey.KindOf e.1 =? InternalKey.KindSet then Ok e.2 else Get junk cmp (with_queue p (take i (queue p))) key
       | _ => verdict e
       end) /\
  ((forall e, e ∈ mjoin ess -> InternalKey.UserKey e.1 <> key) -> Get junk cmp p key = table_answer p key).
Proof.
  intros HF Hold. split.
  - intros i fe es e Hq Hes He (_ & Hk & Hmax) Hkind.
    assert (Hin : forall es' e', es' ∈ ess -> e' ∈ es' -> e' ∈ mjoin ess) by (intros es' e' H1 H2; apply list_elem_of_join; eauto).
    pose proof (take_drop_middle _ _ _ Hq) as Eq. pose proof (take_drop_middle _ _ _ Hes) as Ees.
    set (qa := take i (queue p)) in *. set (qb := drop (S i) (queue p)) in *. set (ea := take i ess) in *. set (eb := drop (S i) ess) in *.
    assert (Hb : Forall2 (fun e es => contents (fe_fl e) es) qb eb) by (by apply Forall2_drop).
    pose proof (Forall2_lookup_lr _ _ _ _ _ _ HF Hq Hes) as Hc.
    assert (Hsees : forall rest, get_loop junk cmp (reverse qb ++ rest) key = get_loop junk cmp rest key).
    { intros rest. apply (get_loop_skip _ (reverse eb)); [by apply Forall2_reverse|]. intros es' e' Hes' He' Hk'. rewrite elem_of_reverse in Hes'.
      assert (Hes2 : es' ∈ ess) by (rewrite <-Ees; set_solver). specialize (Hmax e' (Hin es' e' Hes2 He') Hk').
      rewrite <-Ees in Hold. pose proof (older_app _ _ _ Hold es' Hes' e e' He He'). lia. }
    assert (Hloop : get_loop junk cmp (reverse (queue p)) key = get_loop junk cmp (fe :: reverse qa) key).
    { rewrite <-Eq, reverse_app, reverse_cons, <-app_assoc. by rewrite Hsees. }
    assert (Hn : newest key es = Some e).
    { eapply (f_get_top (fe_fl fe)); [exact Hc|done|done|]. intros e' He' Hk'. apply Hmax; [|done]. eapply Hin; [|done]. by eapply list_elem_of_lookup_2. }
    unfold Get at 1. rewrite Hloop. cbn [get_loop]. rewrite (f_get_spec _ _ key Hc), Hn. destruct e as [k v]. cbn [fst snd] in *.
    rewrite !elem_of_cons, elem_of_nil in Hkind.
    destruct (fe_fl fe) as [m|fb|a]; [| |done]; cbn [answer]; unfold verdict; cbn [fst snd].
    + destruct Hkind as [->|[->|[->|[]]]]; done.
    + destruct (Z.eqb_spec (InternalKey.KindOf k) InternalKey.KindSet) as [Ek|Ek]; [by rewrite Ek|]. cbn [rbind].
      unfold Get. cbn [with_queue queue arrtable]. done.
  - intros Hnone. unfold Get. rewrite <-(app_nil_r (reverse (queue p))), (get_loop_skip _ (reverse ess)); [done|by apply Forall2_reverse|].
    intros es e Hes He. rewrite elem_of_reverse in Hes. apply Hnone, list_elem_of_join. eauto.
Qed.
End Reads.

(** A memtable with two keys, then a large batch that deletes one of them. *)
Lemma get_newest_witness :
  exists m fb, newFlushableBatch demo_junk bytes_compare (committed demo_junk None demo_rewrites 7) = Ok fb /\
    let p := with_queue demo_opened [mkEntry (FMem m) 1 1 1 false []; mkEntry (FBatch fb) 2 1 7 false []] in
    Get demo_junk bytes_compare p [1] = Ok [11] /\ Get demo_junk bytes_compare p [9] = Err ErrNotFound.
Proof.
  destruct (Reset_holds bytes_compare mem_zero 2048) as (s & _ & Hh & _ & Hn & Hl); [vm_compute; split; [discriminate|reflexivity]|].
  destruct (apply_stores_ok demo_junk bytes_compare (mkMem s 0 1 1 2048 false) (demo_batch demo_writes) 1 demo_writes [] (fun _ => 7))
    as (m & ns & _ & _ & Hm & Hp & _).
  { exact Hh. } { by vm_compute. } { by vm_compute. } { apply demo_recs_ok. lia. } { apply demo_nodup. }
  { cbn [skl]. rewrite Hn, Hl. vm_compute. discriminate. } { cbn. lia. }
  destruct (committed_views demo_junk bytes_compare None demo_rewrites 7 demo_rewrites_ok) as (fb & Hfb & Hr & Hpv & Hsv).
  assert (Hlow : Forall (fun e : entry => InternalKey.Trailer e.1 < 1000 /\ InternalKey.UserKey e.1 <> [9]) (entry_of <$> ns)).
  { rewrite Hp. apply (bool_decide_unpack _). vm_compute. exact I. }
  assert (Hhigh : Forall (fun e : entry => 1000 < InternalKey.Trailer e.1 <= 2561 /\ InternalKey.UserKey e.1 <> [9]) (views demo_junk fb)).
  { rewrite Hpv. apply (bool_decide_unpack _). vm_compute. exact I. }
  rewrite Forall_forall in Hlow, Hhigh.
  assert (Hold : StronglySorted older [entry_of <$> ns; views demo_junk fb]).
  { repeat constructor. intros e e' He He'. pose proof (Hlow e He). pose proof (Hhigh e' He'). lia. }
  assert (Hall : forall e, e ∈ mjoin [entry_of <$> ns; views demo_junk fb] -> InternalKey.Trailer e.1 <= 2561 /\ InternalKey.UserKey e.1 <> [9]).
  { intros e (l & Hel & Hin)%list_elem_of_join. rewrite !elem_of_cons in Hin.
    destruct Hin as [->|[->|Hin]]; [|destruct (Hhigh e Hel) as [[_ Hle] Hk]; exact (conj Hle Hk)|exfalso; revert Hin; apply not_elem_of_nil].
    destruct (Hlow e Hel) as [Hlt Hk]. split; [lia|exact Hk]. }
  exists m, fb. split; [exact Hfb|]. cbv zeta. set (p := with_queue demo_opened [_; _]).
  assert (Hc : Forall2 (fun e es => contents demo_junk bytes_compare (fe_fl e) es) (queue p) [entry_of <$> ns; views demo_junk fb]).
  { constructor; [|constructor; [|constructor]].
    - exists ns. split; [exact Hm|]. split; [|reflexivity]. apply Forall_forall. intros a Ha.
      assert (HF : Forall (fun e : entry => searchable e.1) (entry_of <$> ns)).
      { rewrite Hp. apply (mem_entries_searchable 1 demo_writes), demo_recs_ok. lia. }
      rewrite Forall_forall in HF. apply (HF (entry_of a)). by apply list_elem_of_fmap_2.
    - split; [exact Hr|]. split; [reflexivity|]. split; [exact Hsv|]. exact (op_entries_valid demo_rewrites 7 _ demo_rewrites_ok Hpv). }
  split.
  - destruct (get_newest demo_junk bytes_compare p [entry_of <$> ns; views demo_junk fb] [1] Hc Hold) as [H1 _].
    set (e := (InternalKey.MakeInternalKey [1] 10 InternalKey.KindSet, [11]) : entry).
    assert (He : e ∈ views demo_junk fb) by (rewrite Hpv; apply (list_elem_of_lookup_2 _ 3); reflexivity).
    rewrite (H1 1%nat _ (views demo_junk fb) e eq_refl eq_refl He); [reflexivity| |left].
    split; [|split; [reflexivity|]].
    + apply list_elem_of_join. exists (views demo_junk fb). split; [exact He|right; left].
    + intros e' He' _. apply (Hall e' He').
  - destruct (get_newest demo_junk bytes_compare p [entry_of <$> ns; views demo_junk fb] [9] Hc Hold) as [_ H2].
    rewrite H2; [vm_compute; reflexivity|]. intros e He. apply (Hall e He).
Defined.
