(* ===== verification/PlainReplay.v ===== *)
(** The replay of a log ([replayWAL], [newPlainDB]): a log whose batches fit
    into a memtable is rebuilt exactly; and what happens when it is not. *)

From Stdlib Require Import ZArith Lia.
From stdpp Require Import base numbers option gmap sorting list.
From S2P Require Import Prelude Base Arena Batch Iter FlushableBatch Table ArrayTable Meta Skl SklInv MemTable Record RecordSpec WalFiles PlainDB PlainWal.
Import PlainDB.

(** What [commitWrite] logs for a batch of [ops] at sequence number [s]. *)
Definition wal_record (s : Z) (ops : list batchOp) : bytes := le_put 8 s ++ le_put 4 (ops_count ops) ++ enc_ops ops.

(** The records of batches committed one after the other. *)
Fixpoint wal_records (s : Z) (bss : list (list batchOp)) : list bytes :=
  match bss with [] => [] | ops :: bss' => wal_record s ops :: wal_records (s + ops_count ops) bss' end.

Fixpoint all_entries (s : Z) (bss : list (list batchOp)) : list entry :=
  match bss with [] => [] | ops :: bss' => mem_entries s ops ++ all_entries (s + ops_count ops) bss' end.

Fixpoint next_seq (s : Z) (bss : list (list batchOp)) : Z :=
  match bss with [] => s | ops :: bss' => next_seq (s + ops_count ops) bss' end.

Definition cost (ops : list batchOp) : Z := ops_size (fun _ => true) ops.

Definition costs (bss : list (list batchOp)) : Z := foldr (fun ops n => cost ops + n) 0 bss.

Lemma ops_size_nonneg p ops : 0 <= ops_size p ops.
Proof.
  induction ops as [|o ops IH]; [done|]. cbn [ops_size foldr]. fold (ops_size p ops).
  assert (0 <= op_size o) by (unfold op_size, memTableEntrySize, MaxNodeSize; apply u32_range). destruct (p o); lia.
Qed.

Section Replay.
Context (junk : bytes -> nat -> Z) (cmp : bytes -> bytes -> Z) `{!Comparator cmp} (c : config).

(** The record of a batch built by its operations. *)
Lemma committed_record d ops s :
  ops <> [] -> len (enc_ops ops) < 4294967295 -> 0 <= s ->
  data (Batch.Repr junk (setSeqNum (run_ops junk (newBatch d) ops) s)) = wal_record s ops.
Proof.
  intros Hne Hl Hs. destruct (run_ops_state junk d ops) as (Hd & Hc & _). rewrite decide_False in Hd by done.
  pose proof (len_fresh_header junk) as Hh. unfold len in Hh. set (b := run_ops junk (newBatch d) ops) in *. clearbody b.
  assert (Hd1 : data (setSeqNum b s) = (le_put 8 s ++ drop 8 (fresh_header junk)) ++ enc_ops ops).
  { cbn [setSeqNum with_data data]. rewrite Hd, drop_app_le by lia. by rewrite <-app_assoc. }
  rewrite (Repr_data junk (setSeqNum b s) _ _ Hd1) by (unfold len; rewrite length_app, length_le_put, length_drop; lia).
  unfold wal_record. rewrite take_app_length' by (by rewrite length_le_put). do 3 f_equal.
  unfold Count. cbn [setSeqNum with_data count]. rewrite Hc. pose proof (ops_count_range ops). rewrite u64_small, u32_small by lia. done.
Qed.

(** [SetRepr] gives the batch back. *)
Lemma SetRepr_record s ops :
  Forall op_ok ops -> len (enc_ops ops) < 4294967295 -> 0 <= s < 18446744073709551616 -> cost ops < 18446744073709551616 ->
  exists b, SetRepr junk (newBatch (Some 0%nat)) (wal_record s ops) (len (wal_record s ops)) = Ok b /\
    Batch.Reader junk b = enc_ops ops /\ Count b = ops_count ops /\ Batch.SeqNum junk b = s /\ memTableSize b = cost ops.
Proof.
  intros Hok Hl Hs Hc. unfold SetRepr. set (h := le_put 8 s ++ le_put 4 (ops_count ops)).
  assert (Hr : wal_record s ops = h ++ enc_ops ops) by (unfold wal_record, h; by rewrite <-app_assoc).
  assert (Hlh : len h = 12) by (unfold h, len; rewrite length_app, !length_le_put; done).
  rewrite Hr. set (C := len (h ++ enc_ops ops)). assert (HC : 12 <= C) by (unfold C; rewrite len_app; pose proof (len_nonneg (enc_ops ops)); lia).
  clearbody C. unfold batchHeaderLen. pose proof (len_nonneg (enc_ops ops)).
  destruct (Z.ltb_spec C 12); [lia|]. cbn [db newBatch]. set (b1 := mkBatch _ _ _ _ _ _ _).
  assert (Hd1 : data b1 = h ++ enc_ops ops) by done.
  unfold refreshMemTableSize, batchHeaderLen. rewrite (Reader_data junk b1 _ _ Hd1 Hlh), Hd1, len_app, Hlh.
  destruct (Z.ltb_spec (12 + len (enc_ops ops)) 12); [lia|].
  rewrite refresh_loop_enc by (try done; pose proof (length_enc_ops ops); lia). cbn [rbind]. eexists. split; [done|].
  assert (Hcnt : 0 <= ops_count ops < 4294967295) by (pose proof (ops_count_range ops); lia).
  split; [by apply (Reader_data junk _ h)|]. split; [|split].
  - unfold Count. cbn [count b1]. unfold h. rewrite <-app_assoc, (drop_app_length' _ _ 8) by (by rewrite length_le_put).
    rewrite take_app_length' by (by rewrite length_le_put). rewrite le_get_put_u32. by rewrite !u32_small by (rewrite ?u32_small; lia).
  - unfold Batch.SeqNum. rewrite ensure_init_id by (cbn [data b1]; rewrite len_app; lia). cbn [data b1]. unfold h.
    rewrite <-app_assoc, take_app_length' by (by rewrite length_le_put). rewrite le_get_put_u64. by apply u64_small.
  - cbn [memTableSize]. change (ops_size (fun _ => true) ops) with (cost ops). rewrite Z.add_0_l. apply u64_small.
    split; [apply ops_size_nonneg|done].
Qed.

(** The sequence numbers a batch takes. *)
Lemma mem_entries_trailer s ops e :
  recs_ok s ops -> e ∈ mem_entries s ops -> s * 256 <= InternalKey.Trailer e.1 < (s + ops_count ops) * 256.
Proof.
  revert s. induction ops as [|o ops IH]; intros s Hok He; cbn [mem_entries] in He; [by apply elem_of_nil in He|].
  apply recs_ok_cons in Hok as (Ho & Hok & Hs & _). rewrite ops_count_cons. pose proof (ops_count_range ops).
  destruct (op_counted o) eqn:Ec; [apply elem_of_cons in He as [->|He]|].
  - assert (Hk : 0 <= op_kind o < 256) by (by destruct o). cbn [fst]. rewrite InternalKey.Trailer_Make by lia. lia.
  - specialize (IH _ Hok He). lia.
  - specialize (IH _ Hok He). lia.
Qed.

Lemma mem_entries_nodup s ops : recs_ok s ops -> NoDup (fst <$> mem_entries s ops).
Proof.
  revert s. induction ops as [|o ops IH]; intros s Hok; cbn [mem_entries]; [constructor|].
  apply recs_ok_cons in Hok as (Ho & Hok & Hs & _). destruct (op_counted o) eqn:Ec; [|by apply IH]. cbn. constructor; [|by apply IH].
  intros (e & E & He)%list_elem_of_fmap. pose proof (mem_entries_trailer _ _ _ Hok He) as Ht. rewrite <-E in Ht.
  assert (Hk : 0 <= op_kind o < 256) by (by destruct o). rewrite InternalKey.Trailer_Make in Ht by lia. lia.
Qed.

(** What the loop has built: one memtable with the entries [all], all of them
    older than the next sequence number. *)
Record rebuilt (m : memTable) (all : list entry) (start next used : Z) : Prop := mkRebuilt {
  rb_holds : exists ns, holds cmp (skl m) ns /\ (entry_of <$> ns) ≡ₚ all;
  rb_nodup : NoDup (fst <$> all);
  rb_old : Forall (fun e => InternalKey.Trailer e.1 < next * 256) all;
  rb_refs : writerRefs m = 1;
  rb_start : logSeqNum m = start /\ start <= next;
  rb_len : arena_len (arena (skl m)) = PlainMemTableSize c;
  rb_used : arena_n (arena (skl m)) <= used
}.

Lemma fresh_rebuilt s :
  emptySize <= PlainMemTableSize c < 4294967296 ->
  exists m, newMemTable (PlainMemTableSize c) s = Ok m /\ rebuilt m [] s s emptySize.
Proof.
  intros Hsz. destruct (Reset_holds cmp mem_zero (PlainMemTableSize c) Hsz) as (sk & E & Hh & _ & Hn & Hl).
  exists (mkMem sk 0 1 s (PlainMemTableSize c) false). unfold newMemTable. rewrite E. split; [done|].
  split; cbn [skl writerRefs logSeqNum]; try done; [by exists []|apply NoDup_nil_2|lia].
Qed.

Lemma prepare_fits m all start next used b :
  rebuilt m all start next used -> 0 <= memTableSize b -> used + memTableSize b <= PlainMemTableSize c < 4294967296 ->
  1 <= arena_n (arena (skl m)) ->
  exists r, prepare m b = (mkMem (skl m) r 2 (logSeqNum m) (msize m) (isFull m), None).
Proof.
  intros [_ _ _ Hr _ Hl Hu] H0 Hf Hn. unfold prepare, availBytes. rewrite Hr. cbn [Z.eqb Pos.eqb].
  unfold arenaSize, arenaCapacity. destruct (Z.ltb_spec 4294967295 (arena_n (arena (skl m)))); [lia|].
  cbn [with_reserved reserved skl]. rewrite Hl. rewrite (u32_small (arena_n _)), (u32_small (PlainMemTableSize c)) by lia.
  rewrite (u32_small (PlainMemTableSize c - arena_n (arena (skl m)))) by lia.
  destruct (Z.ltb_spec (PlainMemTableSize c - arena_n (arena (skl m))) (memTableSize b)); [lia|].
  eexists. unfold writerRef. cbn [skl reserved writerRefs logSeqNum msize isFull with_reserved]. rewrite Hr. done.
Qed.

(** A replayed batch that fits. *)
Lemma replay_record_fits s m all start used ops rnds mx :
  rebuilt m all start s used -> recs_ok s ops -> cost ops < largeBatchThreshold c -> used + cost ops <= PlainMemTableSize c < 4294967296 ->
  exists m', replay_record junk cmp c (mkReplay (Some m) [] mx) (wal_record s ops) rnds =
      Ok (mkReplay (Some m') [] (s + ops_count ops)) /\
    rebuilt m' (all ++ mem_entries s ops) start (s + ops_count ops) (used + cost ops).
Proof.
  intros Hrb Hok Hlarge Hfit. pose proof Hok as (Hrec & Hlen & Hs0 & Hs1). pose proof (ops_count_range ops) as Hcnt.
  pose proof (ops_size_nonneg (fun _ => true) ops) as Hc0. fold (cost ops) in Hc0.
  unfold InternalKey.SeqNumMax in Hs1. change (Z.shiftl 1 56) with 72057594037927936 in Hs1.
  destruct (SetRepr_record s ops) as (b & E & B1 & B2 & B3 & B4); [eapply Forall_impl; [exact Hrec|]; by intros o [? _]|lia|lia| |].
  { pose proof (u64_range (Z.quot (PlainMemTableSize c - memTableEmptySize) 2)). fold (largeBatchThreshold c) in *. lia. }
  unfold replay_record, batchHeaderLen. destruct (Z.ltb_spec (len (wal_record s ops)) 12) as [Hsh|_].
  { unfold wal_record in Hsh. rewrite !len_app in Hsh. unfold len in Hsh at 1 2. rewrite !length_le_put in Hsh. pose proof (len_nonneg (enc_ops ops)). lia. }
  rewrite E. cbn [rbind]. rewrite B2, B3, B4, u64_small by lia. destruct (Z.leb_spec (largeBatchThreshold c) (cost ops)); [lia|].
  cbn [prepare_loop ensureMem rp_mem rp_flush rp_max rbind].
  assert (Hn1 : 1 <= arena_n (arena (skl m))).
  { destruct (rb_holds _ _ _ _ _ Hrb) as (ns & Hh & _). by destruct (i_arena _ _ _ (h_shape _ _ _ Hh)). }
  destruct (prepare_fits m all start s used b Hrb) as (r & ->); [lia|lia|done|]. cbn [rbind].
  destruct Hrb as [(ns & Hh & Hp) Hnd Hold Hr [Hst1 Hst2] Hl Hu].
  assert (Hroom : room (mem_entries s ops) <= cost ops).
  { rewrite <-(ops_size_room s ops Hok). unfold cost. rewrite ops_size_split. pose proof (ops_size_nonneg (fun o => negb (op_counted o)) ops). lia. }
  assert (Hnd' : NoDup (fst <$> all ++ mem_entries s ops)).
  { rewrite fmap_app. apply NoDup_app. split; [done|]. split; [|by apply mem_entries_nodup].
    intros k (e & -> & He)%list_elem_of_fmap (e' & E' & He')%list_elem_of_fmap. rewrite Forall_forall in Hold.
    pose proof (Hold e He) as Ho. pose proof (mem_entries_trailer _ _ _ Hok He') as Ht. cbn in Ho. rewrite E' in Ho. lia. }
  destruct (apply_stores_ok junk cmp (mkMem (skl m) r 2 (logSeqNum m) (msize m) (isFull m)) b s ops ns rnds)
    as (m' & ns' & -> & Em & A1 & A2 & A3 & A4); cbn [skl logSeqNum] in *; try done; [by rewrite Hp|lia|lia|]. cbn [rbind].
  eexists. split; [done|]. rewrite Em. cbn [writerUnref fst with_skl skl writerRefs logSeqNum reserved msize isFull].
  split; cbn [skl writerRefs logSeqNum]; try done.
  - exists ns'. split; [done|]. by rewrite A2, Hp.
  - apply Forall_app. split.
    + eapply Forall_impl; [exact Hold|]. intros e He. cbn beta in *. lia.
    + apply Forall_forall. intros e He. by apply (mem_entries_trailer s ops e Hok).
  - split; [done|lia].
  - congruence.
  - lia.
Qed.

(** Every batch can be taken on its own. *)
Fixpoint batches_ok (s : Z) (bss : list (list batchOp)) : Prop :=
  match bss with
  | [] => True
  | ops :: bss' => recs_ok s ops /\ cost ops < largeBatchThreshold c /\ batches_ok (s + ops_count ops) bss'
  end.

Lemma costs_nonneg bss : 0 <= costs bss.
Proof.
  unfold costs, cost. induction bss as [|x l IH]; [done|]. cbn [foldr]. pose proof (ops_size_nonneg (fun _ => true) x). lia.
Qed.

Lemma replay_records_fit bss : forall s m all start used rnds i mx,
  rebuilt m all start s used -> batches_ok s bss -> used + costs bss <= PlainMemTableSize c < 4294967296 ->
  exists m', replay_records junk cmp c (mkReplay (Some m) [] mx) (wal_records s bss) rnds i =
      Ok (mkReplay (Some m') [] (if decide (bss = []) then mx else next_seq s bss)) /\
    rebuilt m' (all ++ all_entries s bss) start (next_seq s bss) (used + costs bss).
Proof.
  induction bss as [|ops bss IH]; intros s m all start used rnds i mx Hrb Hok Hfit; cbn [wal_records replay_records all_entries next_seq].
  { exists m. rewrite app_nil_r, decide_True by done. cbn [costs foldr]. rewrite Z.add_0_r. done. }
  cbn [costs foldr] in Hfit |- *. fold (costs bss) in *. destruct Hok as (H1 & H2 & H3). pose proof (costs_nonneg bss).
  destruct (replay_record_fits s m all start used ops (rnds i) mx Hrb H1 H2) as (m1 & -> & Hrb1); [lia|]. cbn [rbind].
  destruct (IH (s + ops_count ops) m1 _ start (used + cost ops) rnds (S i) (s + ops_count ops) Hrb1 H3) as (m2 & -> & Hrb2); [lia|].
  exists m2. rewrite (decide_False (P := ops :: bss = [])) by done. split; [|by rewrite app_assoc, Z.add_assoc].
  do 2 f_equal. case_decide as E; [by subst|done].
Qed.

(** The first batch opens a memtable at its own sequence number. *)
Lemma replay_first s ops m0 rnds mx :
  newMemTable (PlainMemTableSize c) s = Ok m0 -> recs_ok s ops -> cost ops < largeBatchThreshold c ->
  replay_record junk cmp c (mkReplay None [] mx) (wal_record s ops) rnds = replay_record junk cmp c (mkReplay (Some m0) [] mx) (wal_record s ops) rnds.
Proof.
  intros E0 (Hrec & Hlen & Hs0 & Hs1) Hlarge. pose proof (ops_count_range ops).
  unfold InternalKey.SeqNumMax in Hs1. change (Z.shiftl 1 56) with 72057594037927936 in Hs1.
  destruct (SetRepr_record s ops) as (b & E & _ & _ & B3 & B4); [eapply Forall_impl; [exact Hrec|]; by intros o [? _]|lia|lia| |].
  { pose proof (u64_range (Z.quot (PlainMemTableSize c - memTableEmptySize) 2)). fold (largeBatchThreshold c) in *. lia. }
  unfold replay_record. case_match; [done|]. rewrite E. cbn [rbind]. rewrite B3, B4.
  destruct (Z.leb_spec (largeBatchThreshold c) (cost ops)); [lia|].
  cbn [prepare_loop ensureMem rp_mem rp_flush rp_max rbind]. by rewrite E0.
Qed.

(** C11: a log is replayed to exactly what was written.  For batches committed
    under consecutive sequence numbers that fit together into one memtable,
    the replay of their log records succeeds and leaves one memtable with
    exactly their entries under their original sequence numbers, and the
    sequence number after the last one.  A batch that does not fit into what
    is left of the memtable ends the replay with an error: a new memtable is
    never started, since the loop waits for an error that [prepare] does not
    return. *)
Theorem replay_rebuilds s bss rnds :
  bss <> [] -> 0 <= s -> batches_ok s bss -> emptySize <= PlainMemTableSize c < 4294967296 ->
  (emptySize + costs bss <= PlainMemTableSize c ->
   exists m ns, replay_records junk cmp c (mkReplay None [] 0) (wal_records s bss) rnds 0 = Ok (mkReplay (Some m) [] (next_seq s bss)) /\
     holds cmp (skl m) ns /\ (entry_of <$> ns) ≡ₚ all_entries s bss /\ logSeqNum m = s) /\
  (forall m fls mx r b rn,
     SetRepr junk (newBatch (Some 0%nat)) r (len r) = Ok b -> memTableSize b < largeBatchThreshold c ->
     (availBytes m).2 < memTableSize b ->
     replay_record junk cmp c (mkReplay (Some m) fls mx) r rn = Err ErrTableFull).
Proof.
  intros Hne Hs Hok Hsz. split.
  - intros Hfit. destruct bss as [|ops bss]; [done|]. cbn [wal_records replay_records].
    destruct (fresh_rebuilt s Hsz) as (m0 & E0 & Hrb).
    pose proof (replay_records_fit (ops :: bss) s m0 [] s emptySize rnds 0 0 Hrb Hok) as (m & E & Hrb'); [lia|].
    destruct Hrb' as [(ns & Hh & Hp) _ _ _ [Hst _] _ _]. exists m, ns. rewrite decide_False in E by done. split; [|by rewrite Hp].
    cbn [wal_records replay_records] in E. destruct Hok as (H1 & H2 & _). by rewrite (replay_first s ops m0).
  - intros m fls mx r b rn E Hsmall Hfull. unfold replay_record.
    destruct (Z.ltb_spec (len r) batchHeaderLen) as [Hlt|_]; [unfold SetRepr in E; by rewrite (proj2 (Z.ltb_lt _ _) Hlt) in E|]. rewrite E. cbn [rbind].
    destruct (Z.leb_spec (largeBatchThreshold c) (memTableSize b)); [lia|]. cbn [prepare_loop ensureMem rp_mem rp_flush rp_max rbind].
    unfold prepare. destruct (availBytes m) as [m' avail]. cbn [snd] in Hfull. by destruct (Z.ltb_spec avail (memTableSize b)); [|lia].
Qed.
End Replay.

(** ** Two stores that do not survive a restart *)

Definition tiny : config := mkConfig 1024 4 false.

(** A Set of the key and value [i] at sequence number [i], stored in a tower
    of height 1. *)
Definition set_events (i : Z) : list event :=
  let b := MemTable.demo_batch [OpSet [i] [i]] in
  [EvWrite b; EvRoom; EvLog; EvApply (Batch.Repr demo_junk (setSeqNum b i)) 1 (fun _ => 4294967295)].

Definition filled : plainDB :=
  default (opened tiny) (run_events tiny (opened tiny) (set_events 1 ++ set_events 2 ++ set_events 3 ++ set_events 4 ++ set_events 5)).

Lemma filled_reachable : reachable demo_junk bytes_compare tiny filled.
Proof.
  unfold filled. destruct (run_events tiny (opened tiny) _) as [p|] eqn:E;
    [|exfalso; apply (f_equal (fun o => match o with Some _ => true | None => false end)) in E; vm_compute in E; discriminate].
  cbn [default]. eapply run_reachable_db; [|exact E]. apply opened_reachable. by vm_compute.
Qed.

(** The logs a crash leaves when all of the current one was synced. *)
Definition synced (p : plainDB) : gmap Z bytes := <[log_num (wal p) := stream (log (wal p))]> (disk (wal p)).

Lemma synced_crash p : crash_image (wal p) (synced p) (stream (log (wal p))) [].
Proof. split; [rewrite app_nil_r; apply lookup_insert_eq|done|]. intros n Hn. by apply lookup_insert_ne. Qed.

(** A restart: the manifest, the log and the table of [p]; [rnd] decides the
    heights of the towers. *)
Definition restart (p : plainDB) (rnd : Z) : outcome plainDB :=
  newPlainDB demo_junk bytes_compare tiny (Some (Plain.mfile (meta p)))
    ((fileTypeLog, log_num (wal p)) :: match arrtable p with Some e => [(FileTypeArrayTable, fe_logNum e)] | None => [] end)
    (synced p)
    (match arrtable p with Some (mkEntry (FTable a) _ n _ _ _) => {[n := t_file (t_close (at_tbl a))]} | _ => ∅ end)
    512 (fun _ _ => rnd) 100.

(** The height of towers decides whether a store opens.  Five small batches
    acknowledged by a store with one memtable, a crash that loses nothing: a
    replay that draws tall towers runs out of the arena that held the same
    batches before, and opening fails; with the towers of the first run it
    succeeds. *)
Theorem reopen_may_fail :
  reachable demo_junk bytes_compare tiny filled /\ length (queue filled) = 1%nat /\ log_dead (wal filled) = false /\
  crash_image (wal filled) (synced filled) (stream (log (wal filled))) [] /\
  restart filled 0 = Err ErrTableFull /\ exists p, restart filled 4294967295 = Ok p.
Proof.
  split; [exact filled_reachable|]. split; [by vm_compute|]. split; [by vm_compute|]. split; [apply synced_crash|].
  split; [by vm_compute|].
  assert (H : MemTable.is_ok (restart filled 4294967295) = true) by (by vm_compute). destruct (restart filled 4294967295) as [p| |]; [by exists p|done..].
Qed.

(** A table built by a replay is not recorded.  After a crash and a restart
    a committed key is found; after a second restart with nothing written in
    between it is gone: opening advanced the oldest needed log past the
    replayed one but left the manifest's table number as it was, so the new
    table is taken for an obsolete file. *)
Theorem reopen_forgets :
  exists p1 p2, restart filled 4294967295 = Ok p1 /\ Get demo_junk bytes_compare p1 [3] = Ok [3] /\
    restart p1 4294967295 = Ok p2 /\ Get demo_junk bytes_compare p2 [3] = Err ErrNotFound.
Proof.
  assert (H1 : (match restart filled 4294967295 with Ok p => Get demo_junk bytes_compare p [3] | _ => Panic end) = Ok [3]) by (by vm_compute).
  assert (H2 : (match restart filled 4294967295 with
                | Ok p => match restart p 4294967295 with Ok q => Get demo_junk bytes_compare q [3] | _ => Panic end
                | _ => Panic end) = Err ErrNotFound) by (by vm_compute).
  destruct (restart filled 4294967295) as [p1| |]; [|discriminate H1|discriminate H1].
  exists p1. destruct (restart p1 4294967295) as [p2| |]; [|discriminate H2|discriminate H2]. exists p2. split; [reflexivity|]. split; [exact H1|]. split; [reflexivity|exact H2].
Qed.

Definition demo_log : list (list batchOp) := [[OpSet [1] [10]; OpLogData [9]]; [OpDelete [1]; OpSet [2] [20]]].

Lemma demo_log_ok : batches_ok demo_config 1 demo_log.
Proof.
  assert (InternalKey.SeqNumMax = 72057594037927935) by done.
  cbn [batches_ok demo_log]. split; [|split; [by vm_compute|split; [|split; [by vm_compute|done]]]];
    (split; [repeat constructor|split; [by vm_compute|split; [by vm_compute|]]]).
  - change (1 + 1 <= InternalKey.SeqNumMax). lia.
  - change (2 + 2 <= InternalKey.SeqNumMax). lia.
Qed.

Lemma replay_rebuilds_witness :
  exists m ns, replay_records demo_junk bytes_compare demo_config (mkReplay None [] 0) (wal_records 1 demo_log) (fun _ _ => 7) 0
      = Ok (mkReplay (Some m) [] 4) /\
    holds bytes_compare (skl m) ns /\ (entry_of <$> ns) ≡ₚ all_entries 1 demo_log /\ logSeqNum m = 1.
Proof.
  apply (replay_rebuilds demo_junk bytes_compare demo_config 1 demo_log (fun _ _ => 7)).
  - done.
  - lia.
  - exact demo_log_ok.
  - by vm_compute.
  - by vm_compute.
Defined.
