(* ===== verification/BytePools.v ===== *)
(** Buffers for values (internal/bytepools/bytepools.go): thirteen [sync.Pool]s
    of buffers of fixed sizes.

    A buffer is an identity with a length; its bytes are in a store shared by all
    holders, since a buffer that is put back may still be seen through an old
    slice.  A [sync.Pool] is a set of buffers: [Get] takes any of them, or makes
    a new one, and the collector may drop some at any time.  Which one it takes
    is an argument. *)

From Stdlib Require Import ZArith Lia.
From stdpp Require Import base numbers option list gmap.
From S2P Require Import Prelude Base.

Module BytePools.

Definition poolsNum : Z := 13.
Definition maxPoolBufSize : Z := Z.shiftl 36 10.

(** A buffer: its identity. *)
Abbreviation buf := nat.

Record BytePools : Type := mkPools {
  pools : list (list buf);          (* buffers in each pool *)
  mem : gmap buf bytes;             (* every buffer ever made, with its bytes *)
  fresh : nat
}.

(** The size [New] of pool [i] allocates. *)
Definition pool_size (i : Z) : Z := if i =? poolsNum - 1 then maxPoolBufSize else 16 * Z.shiftl 1 i.

Definition NewBytePools : BytePools := mkPools (replicate (Z.to_nat poolsNum) []) ∅ 0.

Definition getIndex (size : Z) : Z :=
  if size <=? 128 then
    if size <=? 16 then 0 else if size <=? 32 then 1 else if size <=? 64 then 2 else 3
  else if size <=? 2048 then
    if size <=? 256 then 4 else if size <=? 512 then 5 else if size <=? 1024 then 6 else 7
  else
    if size <=? 4096 then 8 else if size <=? 8192 then 9 else if size <=? 16384 then 10
    else if size <=? 32768 then 11 else if size <=? maxPoolBufSize then 12 else -1.

(** [make([]byte, size)] *)
Definition make (p : BytePools) (size : Z) : BytePools * buf :=
  (mkPools (pools p) (<[fresh p := replicate (Z.to_nat size) 0]> (mem p)) (S (fresh p)), fresh p).

(** [sync.Pool.Get]: the [j]-th buffer of the pool, or a new one. *)
Definition poolGet (p : BytePools) (i : Z) (j : nat) : outcome (BytePools * buf) :=
  match pools p !! Z.to_nat i with
  | None => Panic
  | Some q =>
      match q !! j with
      | Some b => Ok (mkPools (<[Z.to_nat i := delete j q]> (pools p)) (mem p) (fresh p), b)
      | None => Ok (make p (pool_size i))
      end
  end.

Definition poolPut (p : BytePools) (i : Z) (b : buf) : outcome BytePools :=
  match pools p !! Z.to_nat i with
  | None => Panic
  | Some q => Ok (mkPools (<[Z.to_nat i := q ++ [b]]> (pools p)) (mem p) (fresh p))
  end.

Definition Get (p : BytePools) (size : Z) (j : nat) : outcome (BytePools * buf) :=
  let index := getIndex size in
  if index =? -1 then Ok (make p size) else poolGet p index j.

Definition blen (p : BytePools) (b : buf) : Z := len (default [] (mem p !! b)).

Definition Put (p : BytePools) (b : buf) : outcome BytePools :=
  let index := getIndex (blen p b) in
  if 0 <=? index then poolPut p index b else Ok p.

Definition PutBytePool (p : BytePools) (b : buf) : outcome BytePools :=
  if maxPoolBufSize <? blen p b then Ok p else Put p b.

(** What a caller holds: a slice of a buffer, and the closer that gives the
    buffer back. *)
Inductive closer : Type := PutBack (b : buf) | PutMax (b : buf).

Record handle : Type := mkHandle { h_buf : buf; h_len : Z; h_closer : closer }.

Definition close (p : BytePools) (c : closer) : outcome BytePools :=
  match c with PutBack b => PutBytePool p b | PutMax b => poolPut p (poolsNum - 1) b end.

Definition GetBytePool (p : BytePools) (size : Z) (j : nat) : outcome (BytePools * handle) :=
  let! (p, b) := Get p size j in Ok (p, mkHandle b (blen p b) (PutBack b)).

Definition GetMaxBytePool (p : BytePools) (j : nat) : outcome (BytePools * handle) :=
  let! (p, b) := poolGet p (poolsNum - 1) j in Ok (p, mkHandle b (blen p b) (PutMax b)).

(** [copy(pool[:size], v)]: the slice expression panics beyond the buffer. *)
Definition MakeValue (p : BytePools) (v : bytes) (j : nat) : outcome (BytePools * handle) :=
  let size := len v in
  let! (p, b) := Get p size j in
  if blen p b <? size then Panic
  else
    let m := default [] (mem p !! b) in
    Ok (mkPools (pools p) (<[b := v ++ drop (Z.to_nat size) m]> (mem p)) (fresh p), mkHandle b size (PutBack b)).

(** What the holder of a handle reads. *)
Definition bytes_of (p : BytePools) (h : handle) : bytes := take (Z.to_nat (h_len h)) (default [] (mem p !! h_buf h)).

(** ** Users *)

(** The pools and the handles that are out; a handle is closed once. *)
Record pstate : Type := mkPS { ps_pools : BytePools; ps_out : list handle }.

Inductive pevent : Type :=
| EGet (size : Z) (j : nat)
| EMax (j : nat)
| EMake (v : bytes) (j : nat)
| EWrite (i : nat) (v : bytes)            (* the holder writes its buffer *)
| EClose (i : nat)
| EDrop (i : Z) (j : nat).                (* the collector empties a pool *)

Definition pstep (s : pstate) (e : pevent) : outcome pstate :=
  match e with
  | EGet size j => let! (p, h) := GetBytePool (ps_pools s) size j in Ok (mkPS p (ps_out s ++ [h]))
  | EMax j => let! (p, h) := GetMaxBytePool (ps_pools s) j in Ok (mkPS p (ps_out s ++ [h]))
  | EMake v j => let! (p, h) := MakeValue (ps_pools s) v j in Ok (mkPS p (ps_out s ++ [h]))
  | EWrite i v =>
      match ps_out s !! i with
      | None => Panic
      | Some h =>
          let p := ps_pools s in
          let m := default [] (mem p !! h_buf h) in
          if h_len h <? len v then Panic
          else Ok (mkPS (mkPools (pools p) (<[h_buf h := v ++ drop (length v) m]> (mem p)) (fresh p)) (ps_out s))
      end
  | EClose i =>
      match ps_out s !! i with
      | None => Panic
      | Some h => let! p := close (ps_pools s) (h_closer h) in Ok (mkPS p (delete i (ps_out s)))
      end
  | EDrop i j =>
      let p := ps_pools s in
      match pools p !! Z.to_nat i with
      | None => Ok s
      | Some q => if decide (q !! j = None) then Ok s else Ok (mkPS (mkPools (<[Z.to_nat i := delete j q]> (pools p)) (mem p) (fresh p)) (ps_out s))
      end
  end.

(** ** Properties *)

Definition index_ok (i : Z) : Prop := 0 <= i < poolsNum.

Lemma index_cases (P : Z -> Prop) :
  P 0 -> P 1 -> P 2 -> P 3 -> P 4 -> P 5 -> P 6 -> P 7 -> P 8 -> P 9 -> P 10 -> P 11 -> P 12 -> forall i, index_ok i -> P i.
Proof.
  intros H0 H1 H2 H3 H4 H5 H6 H7 H8 H9 H10 H11 H12 i [Hl Hu]. unfold poolsNum in Hu.
  assert (i = 0 \/ i = 1 \/ i = 2 \/ i = 3 \/ i = 4 \/ i = 5 \/ i = 6 \/ i = 7 \/ i = 8 \/ i = 9 \/ i = 10 \/ i = 11 \/ i = 12) as Hi by lia.
  repeat (destruct Hi as [-> |Hi]; [assumption|]). by subst.
Qed.

Ltac pool_values :=
  repeat match goal with |- context [pool_size ?i] => let v := eval vm_compute in (pool_size i) in change (pool_size i) with v end.

(** The classes: a request goes to the smallest pool whose buffers hold it. *)
Lemma getIndex_spec size :
  (getIndex size = -1 /\ maxPoolBufSize < size) \/
  (index_ok (getIndex size) /\ size <= pool_size (getIndex size) /\ forall i, index_ok i -> i < getIndex size -> pool_size i < size).
Proof.
  unfold getIndex, maxPoolBufSize. change (Z.shiftl 36 10) with 36864.
  repeat match goal with |- context [?a <=? ?b] => destruct (Z.leb_spec a b) end; try (left; split; [done|lia]); right;
    (split; [unfold index_ok, poolsNum; lia|split; [pool_values; lia|]]); refine (index_cases (fun i => i < _ -> pool_size i < size) _ _ _ _ _ _ _ _ _ _ _ _ _); pool_values; lia.
Qed.

Lemma getIndex_size : forall i, index_ok i -> getIndex (pool_size i) = i.
Proof. by apply (index_cases (fun i => getIndex (pool_size i) = i)). Qed.

Lemma pool_size_max : forall i, index_ok i -> 0 <= pool_size i <= maxPoolBufSize.
Proof. apply (index_cases (fun i => 0 <= pool_size i <= maxPoolBufSize)); by vm_compute. Qed.

(** A buffer some pool makes, or one too large for them all. *)
Definition sized (n : Z) : Prop := (exists i, index_ok i /\ n = pool_size i) \/ maxPoolBufSize < n.

Definition handle_ok (p : BytePools) (h : handle) : Prop :=
  exists m, mem p !! h_buf h = Some m /\ h_len h <= len m /\
    match h_closer h with PutBack b => b = h_buf h /\ sized (len m) | PutMax b => b = h_buf h /\ len m = maxPoolBufSize end.

(** Pool [i] holds buffers of its size only, and every buffer has one owner: a
    pool or a holder. *)
Record pinv (s : pstate) : Prop := mkPinv {
  pi_pools : length (pools (ps_pools s)) = Z.to_nat poolsNum;
  pi_typed : forall (i : nat) q b, pools (ps_pools s) !! i = Some q -> b ∈ q -> exists m, mem (ps_pools s) !! b = Some m /\ len m = pool_size (Z.of_nat i);
  pi_out : Forall (handle_ok (ps_pools s)) (ps_out s);
  pi_owner : NoDup (concat (pools (ps_pools s)) ++ (h_buf <$> ps_out s));
  pi_fresh : forall b, (fresh (ps_pools s) <= b)%nat -> mem (ps_pools s) !! b = None
}.
(** Buffer [b] of [n] bytes was taken from the pools of [s]. *)
Record acquired (s : pstate) (p : BytePools) (b : buf) (n : Z) : Prop := mkAcquired {
  aq_buf : exists m, mem p !! b = Some m /\ len m = n;
  aq_inv : forall h, h_buf h = b -> handle_ok p h -> pinv (mkPS p (ps_out s ++ [h]));
  aq_same : forall h, h ∈ ps_out s -> mem p !! h_buf h = mem (ps_pools s) !! h_buf h;
  aq_new : b ∉ h_buf <$> ps_out s
}.

Lemma concat_delete (ps : list (list buf)) i q j b :
  ps !! i = Some q -> q !! j = Some b -> concat ps ≡ₚ b :: concat (<[i := delete j q]> ps).
Proof.
  intros Hi Hj. pose proof (lookup_lt_Some _ _ _ Hi). rewrite insert_take_drop by done.
  rewrite <-(take_drop_middle ps i q Hi) at 1. rewrite !concat_app. cbn [concat].
  rewrite (delete_Permutation q j b Hj) at 1. solve_Permutation.
Qed.

Lemma concat_snoc (ps : list (list buf)) i q b :
  ps !! i = Some q -> concat (<[i := q ++ [b]]> ps) ≡ₚ b :: concat ps.
Proof.
  intros Hi. pose proof (lookup_lt_Some _ _ _ Hi). rewrite insert_take_drop by done.
  rewrite <-(take_drop_middle ps i q Hi) at 3. rewrite !concat_app. cbn [concat]. solve_Permutation.
Qed.

Lemma make_acquired s n : pinv s -> 0 <= n -> acquired s (make (ps_pools s) n).1 (make (ps_pools s) n).2 n.
Proof.
  intros [H1 H2 H3 H4 H5] Hn. set (p := ps_pools s) in *. unfold make. cbn [fst snd].
  assert (Hnew : forall b, is_Some (mem p !! b) -> b <> fresh p) by (intros b [m Hm] ->; by rewrite H5 in Hm).
  assert (Hout : forall h, h ∈ ps_out s -> h_buf h <> fresh p).
  { intros h Hh. rewrite Forall_forall in H3. destruct (H3 h Hh) as (m & Hm & _). apply Hnew. eauto. }
  split; cbn [mem].
  - eexists. rewrite lookup_insert_eq. split; [done|]. unfold len. rewrite length_replicate. lia.
  - intros h Eb Hh. split; cbn [ps_pools ps_out pools mem fresh]; [done| | | |].
    + intros i q b Hq Hb. destruct (H2 i q b Hq Hb) as (m & Hm & Hl). exists m. split; [|done].
      rewrite lookup_insert_ne; [done|]. intros <-. by eapply Hnew.
    + apply Forall_app. split; [|by constructor]. rewrite Forall_forall in H3 |- *. intros h' Hh'. destruct (H3 h' Hh') as (m & Hm & Hr).
      exists m. cbn [mem]. rewrite lookup_insert_ne; [done|]. intros E. by apply (Hout h').
    + rewrite fmap_app, app_assoc. apply NoDup_app. split; [done|]. split; [|by repeat constructor; apply not_elem_of_nil].
      intros b Hb [Eb'|[]%not_elem_of_nil]%elem_of_cons. subst b. rewrite Eb in Hb. apply elem_of_app in Hb as [Hb|Hb].
      * apply list_elem_of_In in Hb. apply in_concat in Hb as (q & Hq & Hb). apply list_elem_of_In in Hq, Hb.
        apply list_elem_of_lookup in Hq as [i Hq]. destruct (H2 i q _ Hq Hb) as (m & Hm & _). by eapply Hnew.
      * apply list_elem_of_fmap in Hb as (h' & E & Hb). by apply (Hout h').
    + intros b Hb. rewrite lookup_insert_ne by lia. apply H5. lia.
  - intros h Hh. rewrite lookup_insert_ne; [done|]. intros E. by apply (Hout h).
  - intros (h & E & Hh)%list_elem_of_fmap. by apply (Hout h).
Qed.

Lemma poolGet_acquired s i j :
  pinv s -> index_ok i -> exists p b, poolGet (ps_pools s) i j = Ok (p, b) /\ acquired s p b (pool_size i).
Proof.
  intros Hi [Hl Hu]. pose proof Hi as [H1 H2 H3 H4 H5]. unfold poolGet.
  destruct (lookup_lt_is_Some_2 (pools (ps_pools s)) (Z.to_nat i)) as [q Hq]; [rewrite H1; unfold poolsNum in *; lia|]. rewrite Hq.
  destruct (q !! j) as [b|] eqn:Hj.
  2: { eexists _, _. split; [reflexivity|]. apply make_acquired; [done|]. by apply pool_size_max. }
  eexists _, b. split; [done|]. assert (Hb : b ∈ q) by (by eapply list_elem_of_lookup_2).
  destruct (H2 _ q b Hq Hb) as (m & Hm & Hml). rewrite Z2Nat.id in Hml by done.
  pose proof H4 as Hown. rewrite (concat_delete _ _ _ _ _ Hq Hj) in Hown. cbn [app] in Hown. apply NoDup_cons in Hown as [Hn Hown].
  split; cbn [mem]; [eauto| |done|].
  - intros h Eb Hh. split; cbn [ps_pools ps_out pools mem fresh]; [by rewrite length_insert| |by apply Forall_app; split; [|constructor]| |done].
    + intros i' q' b' Hq' Hb'. destruct (decide (Z.to_nat i = i')) as [<-|Hne].
      * rewrite list_lookup_insert_eq in Hq' by (by eapply lookup_lt_Some). injection Hq' as <-. apply (H2 _ q b' Hq).
        rewrite (delete_Permutation q j b Hj). by right.
      * rewrite list_lookup_insert_ne in Hq' by done. by apply (H2 i' q').
    + rewrite fmap_app, app_assoc. rewrite (Permutation_app_comm _ (h_buf <$> [h])). cbn. rewrite Eb. by constructor.
  - intros Hin. apply Hn, elem_of_app. by right.
Qed.

Lemma Get_acquired s size j :
  pinv s -> exists p b n, Get (ps_pools s) size j = Ok (p, b) /\ acquired s p b n /\ size <= n /\ sized n.
Proof.
  intros Hi. unfold Get. destruct (getIndex_spec size) as [[-> Hs]|(Hx & Hle & _)].
  - eexists _, _, size. split; [reflexivity|]. unfold maxPoolBufSize in Hs. change (Z.shiftl 36 10) with 36864 in Hs.
    split; [apply make_acquired; [done|lia]|]. split; [lia|by right].
  - destruct (Z.eqb_spec (getIndex size) (-1)) as [E|_]; [destruct Hx; lia|].
    destruct (poolGet_acquired s (getIndex size) j Hi Hx) as (p & b & E & Ha). exists p, b, (pool_size (getIndex size)).
    split; [done|]. split; [done|]. split; [done|]. left. eauto.
Qed.
Lemma MakeValue_ok s v j :
  pinv s -> exists p h, MakeValue (ps_pools s) v j = Ok (p, h) /\ pinv (mkPS p (ps_out s ++ [h])) /\ bytes_of p h = v /\
    (forall h', h' ∈ ps_out s -> bytes_of p h' = bytes_of (ps_pools s) h') /\ h_buf h ∉ h_buf <$> ps_out s.
Proof.
  intros Hi. unfold MakeValue. destruct (Get_acquired s (len v) j Hi) as (p & b & n & -> & [(m & Hm & Hl) Hinv Hsame Hnew] & Hle & Hsz).
  cbn [rbind]. unfold blen. rewrite Hm. cbn [from_option id]. destruct (Z.ltb_spec (len m) (len v)); [lia|].
  set (h := mkHandle b (len v) (PutBack b)). set (m' := v ++ drop (Z.to_nat (len v)) m). eexists _, h. split; [done|].
  assert (Hm' : len m' = n).
  { unfold m'. unfold len in *. rewrite length_app, length_drop. lia. }
  assert (Hp : pinv (mkPS p (ps_out s ++ [h]))).
  { apply Hinv; [done|]. exists m. split; [done|]. cbn. rewrite Hl. done. }
  split; [|split; [|split; [|done]]].
  - destruct Hp as [P1 P2 P3 P4 P5]. cbn [ps_pools ps_out] in *. split; cbn [ps_pools ps_out pools mem fresh]; [done| | |done|].
    + intros i q b' Hq Hb. destruct (decide (b' = b)) as [->|Hne]; [|by rewrite lookup_insert_ne by done; apply (P2 i q)].
      destruct (P2 i q b Hq Hb) as (x & Hx & Hxl). rewrite Hm in Hx. injection Hx as <-. exists m'. rewrite lookup_insert_eq. split; [done|lia].
    + eapply Forall_impl; [exact P3|]. intros h' (x & Hx & Hr). destruct (decide (h_buf h' = b)) as [E|Hne].
      * rewrite E, Hm in Hx. injection Hx as <-. exists m'. cbn [mem]. rewrite E, lookup_insert_eq. split; [done|]. rewrite Hm', <-Hl. by rewrite E in Hr.
      * exists x. cbn [mem]. by rewrite lookup_insert_ne.
    + intros b' Hb. rewrite lookup_insert_ne; [by apply P5|]. intros <-. by rewrite P5 in Hm.
  - unfold bytes_of, h. cbn [h_len h_buf mem]. rewrite lookup_insert_eq. cbn [from_option id]. unfold m', len. rewrite Nat2Z.id. by rewrite take_app_length.
  - intros h' Hh'. unfold bytes_of. cbn [mem]. rewrite lookup_insert_ne; [by rewrite Hsame|]. intros E. apply Hnew. rewrite E. by apply list_elem_of_fmap_2.
Qed.

Lemma poolPut_ok s i h idx m :
  pinv s -> ps_out s !! i = Some h -> mem (ps_pools s) !! h_buf h = Some m -> index_ok idx -> len m = pool_size idx ->
  exists p, poolPut (ps_pools s) idx (h_buf h) = Ok p /\ pinv (mkPS p (delete i (ps_out s))).
Proof.
  intros [H1 H2 H3 H4 H5] Hi Hm [Hl Hu] Hlen. unfold poolPut.
  destruct (lookup_lt_is_Some_2 (pools (ps_pools s)) (Z.to_nat idx)) as [q Hq]; [rewrite H1; unfold poolsNum in *; lia|]. rewrite Hq.
  eexists. split; [done|]. split; cbn [ps_pools ps_out pools mem fresh]; [by rewrite length_insert| |by apply Forall_delete| |done].
  - intros i' q' b' Hq' Hb'. destruct (decide (Z.to_nat idx = i')) as [<-|Hne].
    + rewrite list_lookup_insert_eq in Hq' by (by eapply lookup_lt_Some). injection Hq' as <-.
      apply elem_of_app in Hb' as [Hb'|Hb'%list_elem_of_singleton]; [by apply (H2 _ q)|]. subst b'. exists m. rewrite Z2Nat.id by done. done.
    + rewrite list_lookup_insert_ne in Hq' by done. by apply (H2 i' q').
  - rewrite (concat_snoc _ _ _ _ Hq). rewrite (delete_Permutation _ _ _ Hi), fmap_cons in H4. rewrite <-app_comm_cons. by rewrite Permutation_middle.
Qed.

Lemma close_ok s i h :
  pinv s -> ps_out s !! i = Some h -> exists p, close (ps_pools s) (h_closer h) = Ok p /\ pinv (mkPS p (delete i (ps_out s))).
Proof.
  intros Hi Ho. pose proof (pi_out _ Hi) as HF. rewrite Forall_forall in HF. pose proof (list_elem_of_lookup_2 _ _ _ Ho) as Hin.
  destruct (HF h Hin) as (m & Hm & _ & Hc). unfold close. destruct (h_closer h) as [b|b]; destruct Hc as [-> Hc].
  - unfold PutBytePool, Put, blen. rewrite Hm. cbn [from_option id]. destruct Hc as [(idx & Hx & El)|Hbig].
    + rewrite El, getIndex_size by done. pose proof (pool_size_max idx Hx).
      destruct (Z.ltb_spec maxPoolBufSize (pool_size idx)); [lia|]. destruct (Z.leb_spec 0 idx); [|destruct Hx; lia]. by eapply poolPut_ok.
    + destruct (Z.ltb_spec maxPoolBufSize (len m)); [|lia]. eexists. split; [done|]. destruct Hi as [H1 H2 H3 H4 H5].
      split; cbn [ps_pools ps_out]; try done; [by apply Forall_delete|].
      rewrite (delete_Permutation _ _ _ Ho), fmap_cons, <-Permutation_middle in H4. by apply NoDup_cons in H4 as [_ H4].
  - by eapply (poolPut_ok s i h (poolsNum - 1) m).
Qed.

Lemma pstep_inv s e s' : pinv s -> pstep s e = Ok s' -> pinv s'.
Proof.
  intros Hi Hs. destruct e as [size j|j|v j|i v|i|i j]; cbn [pstep] in Hs.
  - unfold GetBytePool in Hs. destruct (Get_acquired s size j Hi) as (p & b & n & E & [(m & Hm & Hl) Hinv _ _] & Hle & Hsz). rewrite E in Hs.
    cbn [rbind] in Hs. injection Hs as <-. apply Hinv; [done|]. exists m. unfold blen. cbn [h_buf h_len h_closer]. rewrite Hm. cbn [from_option id]. rewrite Hl. done.
  - unfold GetMaxBytePool in Hs. destruct (poolGet_acquired s (poolsNum - 1) j Hi) as (p & b & E & [(m & Hm & Hl) Hinv _ _]); [done|]. rewrite E in Hs.
    cbn [rbind] in Hs. injection Hs as <-. apply Hinv; [done|]. exists m. unfold blen. cbn [h_buf h_len h_closer]. rewrite Hm. cbn [from_option id]. by rewrite Hl.
  - destruct (MakeValue_ok s v j Hi) as (p & h & E & Hp & _). rewrite E in Hs. by injection Hs as <-.
  - destruct (ps_out s !! i) as [h|] eqn:Ho; [|done]. destruct (Z.ltb_spec (h_len h) (len v)); [done|]. injection Hs as <-.
    destruct Hi as [P1 P2 P3 P4 P5]. pose proof P3 as HF. rewrite Forall_forall in HF. destruct (HF h (list_elem_of_lookup_2 _ _ _ Ho)) as (m & Hm & Hl & _).
    rewrite Hm. cbn [from_option id]. set (m' := v ++ drop (length v) m). assert (Hm' : len m' = len m) by (unfold m', len in *; rewrite length_app, length_drop; lia).
    split; cbn [ps_pools ps_out pools mem fresh]; [done| | |done|].
    + intros k q b' Hq Hb. destruct (P2 k q b' Hq Hb) as (x & Hx & Hxl). destruct (decide (b' = h_buf h)) as [->|Hne].
      * rewrite Hm in Hx. injection Hx as <-. exists m'. rewrite lookup_insert_eq. split; [done|lia].
      * exists x. by rewrite lookup_insert_ne.
    + eapply Forall_impl; [exact P3|]. intros h' (x & Hx & Hr). destruct (decide (h_buf h' = h_buf h)) as [E|Hne].
      * rewrite E, Hm in Hx. injection Hx as <-. exists m'. cbn [mem]. rewrite E, lookup_insert_eq. split; [done|]. rewrite Hm'. by rewrite E in Hr.
      * exists x. cbn [mem]. by rewrite lookup_insert_ne.
    + intros b' Hb. rewrite lookup_insert_ne; [by apply P5|]. intros <-. by rewrite P5 in Hm.
  - destruct (ps_out s !! i) as [h|] eqn:Ho; [|done]. destruct (close_ok s i h Hi Ho) as (p & E & Hp). rewrite E in Hs. by injection Hs as <-.
  - destruct (pools (ps_pools s) !! Z.to_nat i) as [q|] eqn:Hq; [|by injection Hs as <-].
    destruct (q !! j) as [b|] eqn:Hj; [rewrite decide_False in Hs by done; injection Hs as <-|rewrite decide_True in Hs by done; by injection Hs as <-].
    destruct Hi as [P1 P2 P3 P4 P5]. split; cbn [ps_pools ps_out pools mem fresh]; [by rewrite length_insert| |done| |done].
    + intros i' q' b' Hq' Hb'. destruct (decide (Z.to_nat i = i')) as [<-|Hne].
      * rewrite list_lookup_insert_eq in Hq' by (by eapply lookup_lt_Some). injection Hq' as <-. apply (P2 _ q b' Hq).
        rewrite (delete_Permutation q j b Hj). by right.
      * rewrite list_lookup_insert_ne in Hq' by done. by apply (P2 i' q').
    + rewrite (concat_delete _ _ _ _ _ Hq Hj) in P4. cbn [app] in P4. by apply NoDup_cons in P4 as [_ P4].
Qed.

Fixpoint prun (s : pstate) (es : list pevent) : outcome pstate :=
  match es with [] => Ok s | e :: es' => let! s := pstep s e in prun s es' end.

Lemma pinv_new : pinv (mkPS NewBytePools []).
Proof.
  split; cbn [ps_pools ps_out NewBytePools pools mem fresh]; try done; [|change (NoDup (@nil buf)); constructor].
  intros i q b Hq Hb. apply (list_elem_of_lookup_2 _ _ _) in Hq. apply elem_of_replicate in Hq as [-> _]. by apply not_elem_of_nil in Hb.
Qed.

Lemma prun_inv es s s' : pinv s -> prun s es = Ok s' -> pinv s'.
Proof.
  revert s. induction es as [|e es IH]; intros s Hi; cbn [prun]; [by intros [= <-]|]. intros (s1 & E & Hr)%rbind_Ok. eapply IH; [|done]. by eapply pstep_inv.
Qed.

(** C31: the pools are well typed.  Whatever is taken, written, given back and
    collected, a pool holds only buffers of its size and no buffer has two
    owners: a request is answered with a buffer that is large enough and that
    no one else holds, [MakeValue] gives the value without touching the bytes of
    any other holder, and giving a buffer back never fails. *)
Theorem pools_typed es s :
  prun (mkPS NewBytePools []) es = Ok s ->
  (forall size j, exists p h, GetBytePool (ps_pools s) size j = Ok (p, h) /\ size <= h_len h /\ h_buf h ∉ h_buf <$> ps_out s) /\
  (forall v j, exists p h, MakeValue (ps_pools s) v j = Ok (p, h) /\ bytes_of p h = v /\
     forall h', h' ∈ ps_out s -> bytes_of p h' = bytes_of (ps_pools s) h') /\
  (forall i h, ps_out s !! i = Some h -> exists p, close (ps_pools s) (h_closer h) = Ok p) /\
  (forall (i : nat) q b, pools (ps_pools s) !! i = Some q -> b ∈ q -> blen (ps_pools s) b = pool_size (Z.of_nat i)).
Proof.
  intros Hr. pose proof (prun_inv _ _ _ pinv_new Hr) as Hi. split; [|split; [|split]].
  - intros size j. unfold GetBytePool. destruct (Get_acquired s size j Hi) as (p & b & n & -> & [(m & Hm & Hl) _ _ Hn] & Hle & _). cbn [rbind].
    eexists _, _. split; [done|]. cbn [h_len h_buf]. unfold blen. rewrite Hm. cbn [from_option id]. split; [lia|done].
  - intros v j. destruct (MakeValue_ok s v j Hi) as (p & h & E & _ & Hb & Hs & _). eauto.
  - intros i h Ho. destruct (close_ok s i h Hi Ho) as (p & E & _). eauto.
  - intros i q b Hq Hb. destruct (pi_typed _ Hi i q b Hq Hb) as (m & Hm & Hl). unfold blen. by rewrite Hm.
Qed.

Lemma pools_typed_witness :
  exists s p h, prun (mkPS NewBytePools []) [EGet 20 0; EMake [1; 2; 3] 0; EClose 0; EGet 30 0] = Ok s /\
    MakeValue (ps_pools s) [7; 8] 0 = Ok (p, h) /\ bytes_of p h = [7; 8].
Proof.
  eexists _. destruct (pools_typed [EGet 20 0; EMake [1; 2; 3] 0; EClose 0; EGet 30 0] _ eq_refl) as (_ & Hm & _).
  destruct (Hm [7; 8] 0%nat) as (p & h & E & Hb & _). exists p, h. split; [reflexivity|]. split; [exact E|exact Hb].
Defined.
End BytePools.
