(* ===== verification/SuperTable.v ===== *)
(** Super tables (bitree/super_table.go, bitree/super_table_iterator.go): the
    append-only pair of files, keys with value offsets and sized values, in
    which the sequential store keeps what it has flushed.

    [stable] is one file with its [bufio.Writer]: [content] is what the
    operating system holds, [wbuf] what is still buffered; the system calls
    succeed.  [superTable] is the pair, [superTableIterator] its iterator.  The
    closers of value buffers are the subject of BytePools. *)

From Stdlib Require Import ZArith Lia.
From stdpp Require Import base numbers option sorting list.
From S2P Require Import Prelude Base Iter.

Module SuperTable.

(** ** The file and its buffered writer *)

Definition BufioWriterBufSize : Z := Z.shiftl 256 10.

(** [write(2)] at a position: a hole before it is filled with zeroes. *)
Definition file_write (c : bytes) (pos : Z) (p : bytes) : bytes :=
  take (Z.to_nat pos) c ++ replicate (Z.to_nat pos - length c) 0 ++ p ++ drop (Z.to_nat pos + length p) c.

(** [os.File.ReadAt] of [n] bytes; [None] is an error, which a short read
    also gives. *)
Definition ReadAt (c : bytes) (n off : Z) : option bytes :=
  if off <? 0 then None
  else if n =? 0 then Some []
  else if off + n <=? len c then Some (take (Z.to_nat n) (drop (Z.to_nat off) c))
  else None.

Record stable : Type := mkStable {
  content : bytes;   (* the file *)
  fpos : Z;          (* its position *)
  filesz : Z;
  wbuf : bytes;      (* bufio.Writer: the buffered bytes *)
  offset : Z;
  readOnly : bool    (* no writer when set *)
}.

Definition newStable (disk : bytes) : stable := mkStable disk 0 0 [] 0 false.

Definition openStable (disk : bytes) (ro : bool) : stable :=
  let filesz := len disk in
  mkStable disk (if ro then 0 else filesz) filesz [] (u32 filesz) ro.

(** One [write(2)] of the buffered writer. *)
Definition fwrite (t : stable) (p : bytes) : stable :=
  mkStable (file_write (content t) (fpos t) p) (fpos t + len p) (filesz t) (wbuf t) (offset t) (readOnly t).

Definition set_wbuf (t : stable) (b : bytes) : stable :=
  mkStable (content t) (fpos t) (filesz t) b (offset t) (readOnly t).

Definition bufFlush (t : stable) : stable := set_wbuf (fwrite t (wbuf t)) [].

(** [bufio.Writer.Write]: bytes that do not fit go out with a full buffer, and
    directly when the buffer is empty; after one flush the rest goes
    one of these ways. *)
Definition bufWrite (t : stable) (p : bytes) : stable :=
  let avail := BufioWriterBufSize - len (wbuf t) in
  if avail <? len p then
    if len (wbuf t) =? 0 then fwrite t p
    else
      let t := bufFlush (set_wbuf t (wbuf t ++ take (Z.to_nat avail) p)) in
      let p := drop (Z.to_nat avail) p in
      if BufioWriterBufSize <? len p then fwrite t p else set_wbuf t p
  else set_wbuf t (wbuf t ++ p).

(** [write] calls the writer, which a read-only table does not have. *)
Definition write (t : stable) (p : bytes) : outcome stable :=
  if readOnly t then Panic else Ok (bufWrite t p).

Definition addOffset (t : stable) (n : Z) : stable :=
  mkStable (content t) (fpos t) (filesz t) (wbuf t) (u32 (offset t + n)) (readOnly t).

Definition st_inuseBytes (t : stable) : Z := offset t.

Definition fdatasync (t : stable) : stable := if readOnly t then t else bufFlush t.

(** Closing leaves the file as it is on disk. *)
Definition st_close (t : stable) : bytes := content (fdatasync t).

(** ** The pair of files *)

Definition keyFileVersion : Z := 1.
Definition keyFileHeaderSize : Z := 8.
Definition keyFileHeaderKeyNum : Z := 4.
Definition valueOffsetSize : Z := 4.

Record superTable : Type := mkST {
  keyTbl : stable; valueTbl : stable; fn : Z; version : Z;
  keyReadable : Z; keyFlushed : Z; keyLength : Z; keyStep : Z
}.

Definition with_tbls (s : superTable) (k v : stable) : superTable :=
  mkST k v (fn s) (version s) (keyReadable s) (keyFlushed s) (keyLength s) (keyStep s).

Definition with_counts (s : superTable) (r f : Z) : superTable :=
  mkST (keyTbl s) (valueTbl s) (fn s) (version s) r f (keyLength s) (keyStep s).

Definition writeKeyFileHeader (s : superTable) : outcome superTable :=
  let header := be_put 4 (version s) ++ be_put 4 0 in
  let! k := write (keyTbl s) header in
  let k := addOffset (fdatasync k) keyFileHeaderSize in
  Ok (mkST k (valueTbl s) (fn s) (version s) 0 (keyFlushed s) (keyLength s) (keyStep s)).

Definition newSuperTable (fn keyLength : Z) (kdisk vdisk : bytes) : outcome superTable :=
  writeKeyFileHeader (mkST (newStable kdisk) (newStable vdisk) fn keyFileVersion 0 0 keyLength (keyLength + valueOffsetSize)).

(** [writeKeyNum]: [WriteAt] leaves the position alone, [Seek] then puts it at
    the table's offset. *)
Definition writeKeyNum (s : superTable) (num : Z) : superTable :=
  let k := keyTbl s in
  with_tbls s (mkStable (file_write (content k) keyFileHeaderKeyNum (be_put 4 num)) (offset k)
                 (filesz k) (wbuf k) (offset k) (readOnly k)) (valueTbl s).

(** The loop of [readKeyFileHeader] that counts the entries whose value is
    complete; [continue] on an empty value does not advance. *)
Fixpoint rebuild_loop (fuel : nat) (s : superTable) (keyPos actKeyNum : Z) : outcome Z :=
  match fuel with
  | O => Err ErrModelFuel
  | S fuel' =>
      if keyPos + keyStep s <=? filesz (keyTbl s) then
        match ReadAt (content (keyTbl s)) 4 (keyPos + keyLength s) with
        | None => Ok actKeyNum
        | Some szBuf =>
            let voff := be_get szBuf in
            if filesz (valueTbl s) <=? voff + 4 then Ok actKeyNum
            else
              match ReadAt (content (valueTbl s)) 4 voff with
              | None => Ok actKeyNum
              | Some szBuf =>
                  let valueSize := be_get szBuf in
                  if valueSize =? 0 then rebuild_loop fuel' s keyPos actKeyNum
                  else
                    match ReadAt (content (valueTbl s)) valueSize (voff + 4) with
                    | None => Ok actKeyNum
                    | Some _ => rebuild_loop fuel' s (keyPos + keyStep s) (u32 (actKeyNum + 1))
                    end
              end
        end
      else Ok actKeyNum
  end.

Definition readKeyFileHeader (fuel : nat) (s : superTable) : outcome superTable :=
  match ReadAt (content (keyTbl s)) keyFileHeaderSize 0 with
  | None => Err ErrEOF
  | Some header =>
      let s := mkST (keyTbl s) (valueTbl s) (fn s) (be_get (take 4 header)) (keyReadable s) (keyFlushed s)
                 (keyLength s) (keyStep s) in
      let expKeyNum := be_get (drop 4 header) in
      let expKeyFilesz := keyFileHeaderSize + expKeyNum * keyStep s in
      if expKeyFilesz =? filesz (keyTbl s) then Ok (with_counts s expKeyNum (keyFlushed s))
      else
        let! actKeyNum := rebuild_loop fuel s keyFileHeaderSize 0 in
        let s := with_counts s actKeyNum (keyFlushed s) in
        Ok (if negb (actKeyNum =? expKeyNum) then writeKeyNum s actKeyNum else s)
  end.

Definition openSuperTable (fuel : nat) (fn keyLength : Z) (ro : bool) (kdisk vdisk : bytes) : outcome superTable :=
  readKeyFileHeader fuel
    (mkST (openStable kdisk ro) (openStable vdisk ro) fn 0 0 0 keyLength (keyLength + 4)).

Definition readKeyNum (s : superTable) : Z :=
  be_get (default [0; 0; 0; 0] (ReadAt (content (keyTbl s)) 4 keyFileHeaderKeyNum)).

Definition getKeyPosOffset (s : superTable) (pos : Z) : Z := keyFileHeaderSize + pos * keyStep s.

Definition readKeyByPos (s : superTable) (pos : Z) : option bytes :=
  ReadAt (content (keyTbl s)) (keyLength s) (getKeyPosOffset s pos).

Definition readValueOffsetByPos (s : superTable) (pos : Z) : Z :=
  match ReadAt (content (keyTbl s)) valueOffsetSize (getKeyPosOffset s pos + keyLength s) with
  | None => -1
  | Some buf => be_get buf
  end.

(** [key[s.keyLength:s.keyStep]] slices past the length of [key], into the rest
    of the buffer. *)
Definition readKVByPos (s : superTable) (pos : Z) : option (bytes * Z) :=
  match ReadAt (content (keyTbl s)) (keyStep s) (getKeyPosOffset s pos) with
  | None => None
  | Some buf => Some (take (Z.to_nat (keyLength s)) buf, be_get (drop (Z.to_nat (keyLength s)) buf))
  end.

(** A nil key compares as an empty one. *)
Definition key_cmp (s : superTable) (key : bytes) (i : Z) : Z :=
  bytes_compare (default [] (readKeyByPos s i)) key.

(** [sort.Find]: the loop of [sort.Search] for the first [i] with
    [cmp i <= 0], then the test that it is found there. *)
Definition sort_find (n : Z) (cmp : Z -> Z) : outcome (Z * bool) :=
  let! i := search n (fun h => Ok (cmp h <=? 0)) in
  Ok (i, (i <? n) && (cmp i =? 0)).

Definition getValue (s : superTable) (voff : Z) : option bytes :=
  match ReadAt (content (valueTbl s)) 4 voff with
  | None => None
  | Some szBuf =>
      let valueSize := be_get szBuf in
      if valueSize =? 0 then None
      else ReadAt (content (valueTbl s)) valueSize (u32 (voff + 4))
  end.

Definition get (s : superTable) (key : bytes) : outcome (option bytes) :=
  let! (pos, found) := sort_find (keyReadable s) (fun i => - key_cmp s key i) in
  if negb found then Ok None
  else
    let valueOffset := readValueOffsetByPos s pos in
    if valueOffset <? 0 then Ok None else Ok (getValue s (u32 valueOffset)).

Definition getMaxKey (s : superTable) : option bytes :=
  ReadAt (content (keyTbl s)) (keyLength s) (getKeyPosOffset s (u32 (keyReadable s - 1))).

Definition set (s : superTable) (key value : bytes) : outcome superTable :=
  let valueSize := u32 (len value) in
  let! v := write (valueTbl s) (be_put 4 valueSize) in
  let! v := write v value in
  let valueOffset := offset v in
  let v := addOffset v (u32 (valueSize + 4)) in
  let! k := write (keyTbl s) key in
  let! k := write k (be_put 4 valueOffset) in
  let k := addOffset k (u32 (len key + 4)) in
  Ok (with_counts (with_tbls s k v) (keyReadable s) (keyFlushed s + 1)).

Definition inuseBytes (s : superTable) : Z := u64 (st_inuseBytes (keyTbl s) + st_inuseBytes (valueTbl s)).

Definition flushFinish (s : superTable) : superTable :=
  let s := with_tbls s (fdatasync (keyTbl s)) (fdatasync (valueTbl s)) in
  let keyNum := u32 (keyReadable s + u32 (keyFlushed s)) in
  with_counts (writeKeyNum s keyNum) keyNum 0.

(** What closing leaves on disk. *)
Definition close (s : superTable) : bytes * bytes := (st_close (keyTbl s), st_close (valueTbl s)).

(** ** The iterator *)

Record superTableIterator : Type := mkStIter {
  keyNum : Z; keyPos : Z; lower : option bytes; upper : option bytes
}.

Definition newIter (s : superTable) (lo up : option bytes) : superTableIterator :=
  mkStIter (keyReadable s) 0 lo up.

Definition with_pos (i : superTableIterator) (p : Z) : superTableIterator :=
  mkStIter (keyNum i) p (lower i) (upper i).

Definition findKeyIndexPos (s : superTable) (i : superTableIterator) (key : bytes) : outcome Z :=
  if keyNum i =? 0 then Ok (-1)
  else search (keyNum i) (fun p => Ok (0 <=? key_cmp s key p)).

(** A value that cannot be read, or is empty, is nil. *)
Definition findItem (s : superTable) (i : superTableIterator) : option entry :=
  if (keyPos i <? 0) || (keyNum i <=? keyPos i) then None
  else
    match readKVByPos s (keyPos i) with
    | None => None
    | Some (key, voff) => Some (InternalKey.MakeInternalSetKey key, default [] (getValue s voff))
    end.

(** The iterator and the table it points to. *)
Abbreviation cursor := (superTable * superTableIterator)%type.

Definition at_pos (c : cursor) (p : Z) : outcome (cursor * option entry) :=
  let i := with_pos c.2 p in Ok ((c.1, i), findItem c.1 i).

Definition siFirst (c : cursor) := at_pos c 0.
Definition siNext (c : cursor) := at_pos c (keyPos c.2 + 1).
Definition siPrev (c : cursor) := at_pos c (keyPos c.2 - 1).
Definition siLast (c : cursor) := at_pos c (keyNum c.2 - 1).

Definition siSeekGE (key : bytes) (c : cursor) : outcome (cursor * option entry) :=
  let! p := findKeyIndexPos c.1 c.2 key in at_pos c p.

Definition siSeekLT (key : bytes) (c : cursor) : outcome (cursor * option entry) :=
  let! p := findKeyIndexPos c.1 c.2 key in
  let! (c, poskey) := at_pos c p in
  match poskey with
  | Some _ => siPrev c
  | None => siLast c
  end.

Definition siSeekPrefixGE (prefix key : bytes) (trySeekUsingNext : bool) (c : cursor) := siSeekGE key c.

Definition siSetBounds (lo up : option bytes) (c : cursor) : cursor :=
  (c.1, mkStIter (keyNum c.2) (keyPos c.2) lo up).

Definition stOps : iterOps cursor := {|
  itSeekGE := siSeekGE; itSeekPrefixGE := siSeekPrefixGE; itSeekLT := siSeekLT;
  itFirst := siFirst; itLast := siLast; itNext := siNext; itPrev := siPrev;
  itError _ := None; itSetBounds := siSetBounds
|}.

(** ** The files *)

Lemma file_write_end c p : file_write c (len c) p = c ++ p.
Proof.
  unfold file_write, len. rewrite Nat2Z.id, take_ge, Nat.sub_diag, drop_ge by lia. cbn. by rewrite app_nil_r.
Qed.

Lemma ReadAt_mid c pre b post n off :
  c = pre ++ b ++ post -> off = len pre -> n = len b -> ReadAt c n off = Some b.
Proof.
  intros -> -> ->. unfold ReadAt. rewrite !len_app.
  pose proof (len_nonneg pre). pose proof (len_nonneg b). pose proof (len_nonneg post).
  bdestruct_all; try lia; unfold len in *.
  - destruct b; [done|]. cbn [length] in *. lia.
  - rewrite !Nat2Z.id, drop_app_length, take_app_length. done.
Qed.

(** A read inside a prefix of a file reads the file. *)
Lemma ReadAt_prefix c d n off :
  c `prefix_of` d -> off + n <= len c -> ReadAt c n off = ReadAt d n off.
Proof.
  intros [k ->] H. unfold ReadAt. rewrite len_app. pose proof (len_nonneg k).
  destruct (Z.ltb_spec off 0); [done|]. destruct (Z.eqb_spec n 0); [done|].
  destruct (Z.leb_spec (off + n) (len c)); [|lia]. destruct (Z.leb_spec (off + n) (len c + len k)); [|lia].
  f_equal. unfold len in *. destruct (Z.le_gt_cases n 0) as [Hn|Hn].
  { by replace (Z.to_nat n) with 0%nat by lia. }
  rewrite drop_app_le by lia. rewrite take_app_le; [done|]. rewrite length_drop. lia.
Qed.

Lemma ReadAt_range c n off b : ReadAt c n off = Some b -> 0 <= n -> 0 <= off /\ (n = 0 \/ off + n <= len c).
Proof. unfold ReadAt. bdestruct_all; intros; try done; lia. Qed.

(** The bytes given to the file so far, the buffered ones included. *)
Definition logical (t : stable) : bytes := content t ++ wbuf t.

(** A writable file whose position is its end. *)
Record good (t : stable) : Prop := mkGood {
  good_pos : fpos t = len (content t);
  good_buf : len (wbuf t) <= BufioWriterBufSize;
  good_rw : readOnly t = false
}.

Lemma bufFlush_spec t : good t ->
  good (bufFlush t) /\ content (bufFlush t) = logical t /\ wbuf (bufFlush t) = [] /\
  offset (bufFlush t) = offset t /\ filesz (bufFlush t) = filesz t.
Proof.
  intros [Hp Hb Hr]. unfold bufFlush, fwrite, set_wbuf, logical. cbn. rewrite Hp, file_write_end.
  split; [|done]. split; cbn; [by rewrite len_app|done|done].
Qed.

Lemma fwrite_spec t p : good t -> wbuf t = [] ->
  good (fwrite t p) /\ content (fwrite t p) = content t ++ p /\ wbuf (fwrite t p) = [] /\
  offset (fwrite t p) = offset t /\ filesz (fwrite t p) = filesz t.
Proof.
  intros [Hp Hb Hr] Hw. unfold fwrite. cbn. rewrite Hp, file_write_end.
  split; [|done]. split; cbn; [by rewrite len_app|done|done].
Qed.

(** The buffered writer appends. *)
Lemma bufWrite_spec t p : good t ->
  good (bufWrite t p) /\ logical (bufWrite t p) = logical t ++ p /\ content t `prefix_of` content (bufWrite t p) /\
  offset (bufWrite t p) = offset t /\ filesz (bufWrite t p) = filesz t.
Proof.
  intros Hg. pose proof Hg as [Hp Hb Hr]. unfold bufWrite.
  destruct (Z.ltb_spec (BufioWriterBufSize - len (wbuf t)) (len p)) as [Hbig|Hfit].
  - destruct (Z.eqb_spec (len (wbuf t)) 0) as [H0|H0].
    + assert (Hw : wbuf t = []) by (destruct (wbuf t); [done|rewrite len_cons in H0; pose proof (len_nonneg l); lia]).
      destruct (fwrite_spec t p Hg Hw) as (G & C & W & O & F). unfold logical. rewrite C, W, Hw, !app_nil_r.
      split; [done|]. split; [done|]. split; [by eexists|done].
    + set (n := Z.to_nat _). set (t1 := set_wbuf t (wbuf t ++ take n p)).
      assert (Hn : (n <= length p)%nat) by (unfold len in *; lia).
      assert (G1 : good t1).
      { split; [done| |done]. cbn. rewrite len_app. unfold len in *. rewrite length_take. lia. }
      destruct (bufFlush_spec t1 G1) as (G2 & C2 & W2 & O2 & F2).
      assert (HC2 : content (bufFlush t1) = logical t ++ take n p).
      { rewrite C2. unfold logical, t1. cbn. by rewrite app_assoc. }
      assert (Hpre : content t `prefix_of` content (bufFlush t1)).
      { rewrite HC2. unfold logical. rewrite <-app_assoc. by eexists. }
      destruct (Z.ltb_spec BufioWriterBufSize (len (drop n p))) as [Hd|Hd].
      * destruct (fwrite_spec (bufFlush t1) (drop n p) G2 W2) as (G3 & C3 & W3 & O3 & F3).
        split; [done|]. split; [|split; [|split; [by rewrite O3, O2|by rewrite F3, F2]]].
        -- unfold logical at 1. rewrite C3, W3, HC2, app_nil_r, <-app_assoc. by rewrite take_drop.
        -- rewrite C3. etransitivity; [done|]. by eexists.
      * split; [|split; [|split; [done|split; [exact O2|exact F2]]]].
        -- destruct G2. by split.
        -- unfold logical at 1. cbn [set_wbuf content wbuf]. rewrite HC2, <-app_assoc. by rewrite take_drop.
  - split; [|split; [|done]].
    + split; [done| |done]. cbn. rewrite len_app. lia.
    + unfold logical. cbn. by rewrite app_assoc.
Qed.

Lemma write_spec t p : good t ->
  exists t', write t p = Ok t' /\ good t' /\ logical t' = logical t ++ p /\ content t `prefix_of` content t' /\
    offset t' = offset t.
Proof.
  intros Hg. unfold write. rewrite (good_rw _ Hg). eexists. split; [done|].
  destruct (bufWrite_spec t p Hg) as (? & ? & ? & ? & ?). done.
Qed.

Lemma fdatasync_spec t : good t ->
  good (fdatasync t) /\ content (fdatasync t) = logical t /\ wbuf (fdatasync t) = [] /\ offset (fdatasync t) = offset t.
Proof. intros Hg. unfold fdatasync. rewrite (good_rw _ Hg). by destruct (bufFlush_spec t Hg) as (? & ? & ? & ? & ?). Qed.

(** ** What the files hold *)

(** An entry: its key, the offset of its value and the value. *)
Record ent : Type := mkEnt { ek : bytes; eo : Z; ev : bytes }.

Definition kbytes (es : list ent) : bytes := concat ((fun e => ek e ++ be_put 4 (eo e)) <$> es).

(** [vc] holds the value of [e] at its offset. *)
Definition in_vals (vc : bytes) (e : ent) : Prop :=
  exists pre post, vc = pre ++ (be_put 4 (len (ev e)) ++ ev e) ++ post /\ len pre = eo e /\
    eo e + 4 + len (ev e) < 4294967296.

Lemma in_vals_app vc x e : in_vals vc e -> in_vals (vc ++ x) e.
Proof.
  intros (pre & post & -> & Hp & Hs). exists pre, (post ++ x). split; [|done]. by rewrite <-!app_assoc.
Qed.

Lemma in_vals_prefix vc vd e : vc `prefix_of` vd -> in_vals vc e -> in_vals vd e.
Proof. intros [x ->]. apply in_vals_app. Qed.

Lemma in_vals_end vc e : in_vals vc e -> eo e + 4 + len (ev e) <= len vc.
Proof.
  intros (pre & post & -> & Hp & Hs). rewrite !len_app. unfold len at 3. rewrite length_be_put.
  pose proof (len_nonneg post). lia.
Qed.

(** A shorter file that still reaches the end of the value. *)
Lemma in_vals_cut vc vd e :
  vc `prefix_of` vd -> in_vals vd e -> eo e + 4 + len (ev e) <= len vc -> in_vals vc e.
Proof.
  intros [x Hx] (pre & post & E & Hp & Hs) Hl. rewrite E in Hx.
  assert (Hb : len (be_put 4 (len (ev e)) ++ ev e) = 4 + len (ev e)).
  { rewrite len_app. unfold len at 1. by rewrite length_be_put. }
  set (b := be_put 4 (len (ev e)) ++ ev e) in *. exists pre, (drop (length pre + length b) vc).
  split; [|done]. fold b. rewrite app_assoc in Hx |- *.
  assert (Hpre : take (length (pre ++ b)) vc = pre ++ b).
  { apply (f_equal (take (length (pre ++ b)))) in Hx. rewrite take_app_length in Hx.
    rewrite take_app_le in Hx; [done|]. rewrite length_app. unfold len in *. lia. }
  rewrite <-Hpre at 1. rewrite length_app. by rewrite take_drop.
Qed.

(** The key file lists [es] after its header, and the value file their values. *)
Definition stores (kl : Z) (kc vc : bytes) (es : list ent) : Prop :=
  Forall (fun e => len (ek e) = kl) es /\ Forall (in_vals vc) es /\
  exists h post, length h = 8%nat /\ kc = h ++ kbytes es ++ post.

Lemma kbytes_app es es' : kbytes (es ++ es') = kbytes es ++ kbytes es'.
Proof. unfold kbytes. by rewrite fmap_app, concat_app. Qed.

Lemma len_kbytes kl es : Forall (fun e => len (ek e) = kl) es -> len (kbytes es) = len es * (kl + 4).
Proof.
  induction 1 as [|e es He Hes IH]; [done|]. change (kbytes (e :: es)) with ((ek e ++ be_put 4 (eo e)) ++ kbytes es).
  rewrite !len_app, IH, len_cons, He. unfold len at 1. rewrite length_be_put. lia.
Qed.

Lemma kbytes_split es i e :
  es !! i = Some e -> kbytes es = kbytes (take i es) ++ (ek e ++ be_put 4 (eo e)) ++ kbytes (drop (S i) es).
Proof.
  intros Hi. rewrite <-(take_drop_middle es i e Hi) at 1. by rewrite kbytes_app.
Qed.

(** The entry at position [i] of the key file, as a block of it. *)
Lemma stores_block kl kc vc es i e : 0 <= kl ->
  stores kl kc vc es -> es !! i = Some e ->
  exists pre post, kc = pre ++ (ek e ++ be_put 4 (eo e)) ++ post /\ len pre = keyFileHeaderSize + Z.of_nat i * (kl + 4).
Proof.
  intros Hkl (Hk & _ & h & post & Hh & ->) Hi. rewrite (kbytes_split _ _ _ Hi).
  exists (h ++ kbytes (take i es)), (kbytes (drop (S i) es) ++ post). split; [by rewrite <-!app_assoc|].
  rewrite len_app, (len_kbytes kl) by (by apply Forall_take). unfold len. rewrite Hh, length_take.
  apply lookup_lt_Some in Hi. unfold keyFileHeaderSize. lia.
Qed.

(** The table reads [es] at its positions. *)
Definition reads (s : superTable) (es : list ent) : Prop :=
  0 <= keyLength s /\ keyStep s = keyLength s + 4 /\ stores (keyLength s) (content (keyTbl s)) (content (valueTbl s)) es.

Lemma be_get_put_small v : 0 <= v < 4294967296 -> be_get (be_put 4 v) = v.
Proof. intros Hv. rewrite be_get_put_u32. by apply u32_small. Qed.

Lemma len_be4 v : len (be_put 4 v) = 4.
Proof. unfold len. by rewrite length_be_put. Qed.

Section Reads.
Context (s : superTable) (es : list ent) (Hr : reads s es).

Lemma reads_bounds i e : es !! i = Some e -> 0 <= eo e /\ eo e + 4 + len (ev e) < 4294967296.
Proof.
  intros Hi. destruct Hr as (Hkl & Hst & Hk & Hv & _). destruct (Forall_lookup_1 _ _ _ _ Hv Hi) as (pre & post & _ & Hp & Hs).
  pose proof (len_nonneg pre). lia.
Qed.

Lemma readKeyByPos_spec i e : es !! i = Some e -> readKeyByPos s (Z.of_nat i) = Some (ek e).
Proof.
  intros Hi. destruct Hr as (Hkl & Hst & Hs). destruct (stores_block _ _ _ _ _ _ Hkl Hs Hi) as (pre & post & E & Hp).
  unfold readKeyByPos, getKeyPosOffset. rewrite Hst. destruct Hs as (Hk & _).
  eapply ReadAt_mid; [rewrite E, <-app_assoc; reflexivity|by rewrite Hp|].
  symmetry. apply (Forall_lookup_1 _ _ _ _ Hk Hi).
Qed.

Lemma readValueOffsetByPos_spec i e : es !! i = Some e -> readValueOffsetByPos s (Z.of_nat i) = eo e.
Proof.
  intros Hi. pose proof (reads_bounds _ _ Hi). pose proof (len_nonneg (ev e)).
  destruct Hr as (Hkl & Hst & Hs). destruct (stores_block _ _ _ _ _ _ Hkl Hs Hi) as (pre & post & E & Hp).
  unfold readValueOffsetByPos, getKeyPosOffset. rewrite Hst. destruct Hs as (Hk & _).
  pose proof (Forall_lookup_1 _ _ _ _ Hk Hi) as Hl. cbv beta in Hl.
  rewrite (ReadAt_mid _ (pre ++ ek e) (be_put 4 (eo e)) post).
  - apply be_get_put_small. lia.
  - rewrite E. by rewrite <-!app_assoc.
  - rewrite len_app, Hl. lia.
  - by rewrite len_be4.
Qed.

Lemma readKVByPos_spec i e : es !! i = Some e -> readKVByPos s (Z.of_nat i) = Some (ek e, eo e).
Proof.
  intros Hi. pose proof (reads_bounds _ _ Hi). pose proof (len_nonneg (ev e)).
  destruct Hr as (Hkl & Hst & Hs). destruct (stores_block _ _ _ _ _ _ Hkl Hs Hi) as (pre & post & E & Hp).
  unfold readKVByPos, getKeyPosOffset. rewrite Hst. destruct Hs as (Hk & _).
  pose proof (Forall_lookup_1 _ _ _ _ Hk Hi) as Hl. cbv beta in Hl.
  rewrite (ReadAt_mid _ pre (ek e ++ be_put 4 (eo e)) post); [|done|lia|by rewrite len_app, len_be4, Hl].
  assert (Hn : Z.to_nat (keyLength s) = length (ek e)) by (unfold len in Hl; lia).
  rewrite Hn, take_app_length, drop_app_length. rewrite be_get_put_small; [done|lia].
Qed.

Lemma getValue_spec i e :
  es !! i = Some e -> getValue s (eo e) = if decide (ev e = []) then None else Some (ev e).
Proof.
  intros Hi. pose proof (reads_bounds _ _ Hi). pose proof (len_nonneg (ev e)).
  destruct Hr as (Hkl & Hst & Hk & Hv & _). destruct (Forall_lookup_1 _ _ _ _ Hv Hi) as (pre & post & E & Hp & Hs).
  unfold getValue. rewrite (ReadAt_mid _ pre (be_put 4 (len (ev e))) (ev e ++ post));
    [|rewrite E; by rewrite <-!app_assoc|done|by rewrite len_be4].
  rewrite be_get_put_small by lia. destruct (decide (ev e = [])) as [->|Hne]; [done|].
  destruct (Z.eqb_spec (len (ev e)) 0) as [E0|_]; [destruct (ev e); [done|rewrite len_cons in E0; pose proof (len_nonneg l); lia]|].
  rewrite u32_small by lia.
  apply (ReadAt_mid _ (pre ++ be_put 4 (len (ev e))) (ev e) post); [rewrite E; by rewrite <-!app_assoc|rewrite len_app, len_be4; lia|done].
Qed.

End Reads.

(** ** Lookups *)

Definition sorted (es : list ent) : Prop := StronglySorted (fun a b => bytes_compare (ek a) (ek b) < 0) es.

(** What the iterator shows of an entry. *)
Definition item (e : ent) : entry := (InternalKey.MakeInternalSetKey (ek e), ev e).

(** The specification of a lookup: an empty value is not found. *)
Fixpoint es_get (es : list ent) (k : bytes) : option bytes :=
  match es with
  | [] => None
  | e :: es' => if decide (ek e = k) then (if decide (ev e = []) then None else Some (ev e)) else es_get es' k
  end.

Lemma sorted_items es : sorted es -> StronglySorted (entry_lt bytes_compare) (item <$> es).
Proof.
  induction 1 as [|e es Hs IH He]; [constructor|]. rewrite fmap_cons. constructor; [done|].
  apply Forall_fmap. eapply Forall_impl; [done|]. intros e' He'. unfold entry_lt, item, compose, InternalKey.InternalCompare. cbn in *.
  destruct (Z.eqb_spec (bytes_compare (ek e) (ek e')) 0); cbn; lia.
Qed.

Lemma es_get_lookup es i e :
  sorted es -> es !! i = Some e -> es_get es (ek e) = if decide (ev e = []) then None else Some (ev e).
Proof.
  intros Hs. revert i. induction Hs as [|x es Hs IH Hx]; intros i Hi; [done|]. cbn [es_get].
  destruct i as [|i]; cbn in Hi; [injection Hi as ->; by rewrite decide_True|].
  rewrite decide_False; [by eapply IH|]. intros E. pose proof (Forall_lookup_1 _ _ _ _ Hx Hi) as Hlt. cbv beta in Hlt.
  rewrite E, (proj2 (cmp_eq (cmp := bytes_compare) _ _) eq_refl) in Hlt. lia.
Qed.

Lemma es_get_None es k : Forall (fun e => ek e <> k) es -> es_get es k = None.
Proof. induction 1; cbn [es_get]; [done|]. by rewrite decide_False. Qed.

Section Seek.
Context (s : superTable) (es : list ent) (Hr : reads s es) (Hs : sorted es).

Lemma key_cmp_spec k i e : es !! i = Some e -> key_cmp s k (Z.of_nat i) = bytes_compare (ek e) k.
Proof. intros Hi. unfold key_cmp. by rewrite (readKeyByPos_spec s es Hr _ _ Hi). Qed.

Lemma seek_before k i e : es !! i = Some e -> Z.of_nat i < list_seek bytes_compare k (item <$> es) -> bytes_compare (ek e) k < 0.
Proof.
  intros Hi Hlt. apply (list_seek_before bytes_compare k (item <$> es) (Z.of_nat i) (item e)); [|done].
  rewrite lookupZ_fmap. unfold lookupZ. destruct (Z.ltb_spec (Z.of_nat i) 0); [lia|]. by rewrite Nat2Z.id, Hi.
Qed.

Lemma seek_after k i e : es !! i = Some e -> list_seek bytes_compare k (item <$> es) <= Z.of_nat i -> 0 <= bytes_compare (ek e) k.
Proof.
  intros Hi Hge. apply (list_seek_after bytes_compare k (item <$> es) (Z.of_nat i) (item e)); [by apply sorted_items| |done].
  rewrite lookupZ_fmap. unfold lookupZ. destruct (Z.ltb_spec (Z.of_nat i) 0); [lia|]. by rewrite Nat2Z.id, Hi.
Qed.

Lemma seek_range k : 0 <= list_seek bytes_compare k (item <$> es) <= len es.
Proof. pose proof (list_seek_range bytes_compare k (item <$> es)). unfold len in *. rewrite length_fmap in *. done. Qed.

Lemma pos_lookup p : 0 <= p < len es -> exists e, es !! Z.to_nat p = Some e /\ p = Z.of_nat (Z.to_nat p).
Proof. intros Hp. unfold len in Hp. destruct (lookup_lt_is_Some_2 es (Z.to_nat p)) as [e He]; [lia|]. exists e. split; [done|lia]. Qed.

(** The binary searches stop at the first key at or past [k]. *)
Lemma search_ge k : search (E := error) (len es) (fun p => Ok (0 <=? key_cmp s k p)) = Ok (list_seek bytes_compare k (item <$> es)).
Proof.
  apply (search_spec _ (fun p => 0 <=? key_cmp s k p)); [apply seek_range|done|..]; intros p Hp; pose proof (seek_range k);
    destruct (pos_lookup p) as (e & He & Ep); try lia; rewrite Ep, (key_cmp_spec k _ e He).
  - apply Z.leb_gt, (seek_before k _ e He). lia.
  - apply Z.leb_le, (seek_after k _ e He). lia.
Qed.

Lemma get_spec k : keyReadable s = len es -> get s k = Ok (es_get es k).
Proof.
  intros Hn. unfold get, sort_find. rewrite Hn.
  assert (E : search (E := error) (len es) (fun h => Ok (- key_cmp s k h <=? 0)) = Ok (list_seek bytes_compare k (item <$> es))).
  { rewrite <-(search_ge k). apply search_ext. intros h. f_equal.
    destruct (Z.leb_spec 0 (key_cmp s k h)), (Z.leb_spec (- key_cmp s k h) 0); (done || lia). }
  rewrite E. cbn [rbind]. clear E. set (p := list_seek _ _ _). pose proof (seek_range k) as Hp. fold p in Hp.
  destruct (Z.ltb_spec p (len es)) as [Hlt|Hge]; cbn [andb].
  - destruct (pos_lookup p) as (e & He & Ep); [lia|]. rewrite Ep, (key_cmp_spec k _ e He).
    destruct (Z.eqb_spec (- bytes_compare (ek e) k) 0) as [E0|E0]; cbn [negb].
    + assert (Hk : ek e = k) by (apply (cmp_eq (cmp := bytes_compare)); lia). subst k.
      rewrite (readValueOffsetByPos_spec s es Hr _ e He). pose proof (reads_bounds s es Hr _ e He). pose proof (len_nonneg (ev e)).
      destruct (Z.ltb_spec (eo e) 0); [lia|]. rewrite u32_small by lia.
      by rewrite (getValue_spec s es Hr _ e He), (es_get_lookup es _ e Hs He).
    + rewrite es_get_None; [done|]. apply Forall_lookup. intros i x Hx E. subst k.
      destruct (Z.lt_ge_cases (Z.of_nat i) p) as [Hi|Hi].
      * pose proof (seek_before (ek x) _ x Hx Hi) as Hc. rewrite (proj2 (cmp_eq (cmp := bytes_compare) _ _) eq_refl) in Hc. lia.
      * destruct (Z.eq_dec (Z.of_nat i) p) as [Ei|Ei].
        { assert (x = e) as -> by (rewrite <-Ei, Nat2Z.id in He; congruence).
          rewrite (proj2 (cmp_eq (cmp := bytes_compare) _ _) eq_refl) in E0. lia. }
        pose proof (StronglySorted_lookup _ _ _ _ _ _ Hs He Hx ltac:(lia)) as Hc. cbv beta in Hc.
        pose proof (seek_after (ek x) _ e He ltac:(fold p; lia)). lia.
  - cbn [negb]. rewrite es_get_None; [done|]. apply Forall_lookup. intros i x Hx E. subst k.
    pose proof (lookup_lt_Some _ _ _ Hx). pose proof (seek_before (ek x) _ x Hx ltac:(fold p; unfold len in *; lia)) as Hc.
    rewrite (proj2 (cmp_eq (cmp := bytes_compare) _ _) eq_refl) in Hc. lia.
Qed.

End Seek.

(** ** The invariant of a writable table

    [es] are the entries a reader sees, [pend] those set since the last
    [flushFinish]. *)

Definition header (s : superTable) (n : Z) : bytes := be_put 4 (version s) ++ be_put 4 n.

Record inv (s : superTable) (es pend : list ent) : Prop := mkInv {
  inv_kl : 0 <= keyLength s;
  inv_step : keyStep s = keyLength s + 4;
  inv_k : good (keyTbl s);
  inv_v : good (valueTbl s);
  inv_keys : logical (keyTbl s) = header s (len es) ++ kbytes (es ++ pend);
  inv_klen : Forall (fun e => len (ek e) = keyLength s) (es ++ pend);
  inv_vals : Forall (in_vals (logical (valueTbl s))) (es ++ pend);
  inv_koff : offset (keyTbl s) = len (logical (keyTbl s)) /\ len (logical (keyTbl s)) < 4294967296;
  inv_voff : offset (valueTbl s) = len (logical (valueTbl s)) /\ len (logical (valueTbl s)) < 4294967296;
  inv_kdisk : keyFileHeaderSize + len es * keyStep s <= len (content (keyTbl s));
  inv_vdisk : Forall (in_vals (content (valueTbl s))) es;
  inv_readable : keyReadable s = len es;
  inv_flushed : keyFlushed s = len pend
}.

Lemma length_header s n : length (header s n) = 8%nat.
Proof. unfold header. by rewrite length_app, !length_be_put. Qed.

Lemma inv_len s es pend : inv s es pend ->
  len (logical (keyTbl s)) = keyFileHeaderSize + (len es + len pend) * keyStep s.
Proof.
  intros H. rewrite (inv_keys _ _ _ H), len_app, (len_kbytes (keyLength s)) by apply H.
  unfold len at 1. rewrite length_header, (inv_step _ _ _ H), len_app. unfold keyFileHeaderSize. lia.
Qed.

(** A prefix of a file that reaches past the header and the entries. *)
Lemma prefix_stores kl kc vc h es rest :
  0 <= kl -> length h = 8%nat -> Forall (fun e => len (ek e) = kl) es -> Forall (in_vals vc) es ->
  kc `prefix_of` h ++ kbytes es ++ rest -> keyFileHeaderSize + len es * (kl + 4) <= len kc -> stores kl kc vc es.
Proof.
  intros Hkl Hh Hk Hv [x Hx] Hl. split; [done|]. split; [done|]. exists h, (drop (length (h ++ kbytes es)) kc).
  split; [done|]. rewrite app_assoc in Hx |- *.
  assert (Hn : (length (h ++ kbytes es) <= length kc)%nat).
  { pose proof (len_kbytes kl es Hk) as Hb. unfold len, keyFileHeaderSize in *. rewrite length_app, Hh. lia. }
  apply (f_equal (take (length (h ++ kbytes es)))) in Hx. rewrite take_app_length, take_app_le in Hx by done.
  rewrite Hx at 1. by rewrite take_drop.
Qed.

Lemma inv_reads s es pend : inv s es pend -> reads s es.
Proof.
  intros H. pose proof H as []. split; [done|]. split; [done|]. pose proof inv_klen0 as [Hk _]%Forall_app.
  eapply (prefix_stores _ _ _ (header s (len es)) es (kbytes pend)); [done|apply length_header|done|done| |by rewrite <-inv_step0].
  rewrite kbytes_app in inv_keys0. rewrite <-inv_keys0. by eexists.
Qed.

Lemma fresh_inv fn kl : 0 <= kl ->
  exists s, newSuperTable fn kl [] [] = Ok s /\ inv s [] [] /\ keyLength s = kl.
Proof.
  intros Hkl. unfold newSuperTable, writeKeyFileHeader. cbn [keyTbl version].
  assert (G0 : good (newStable [])) by (by split).
  destruct (write_spec (newStable []) (be_put 4 keyFileVersion ++ be_put 4 0) G0) as (k & -> & G & L & _ & O). cbn [rbind].
  destruct (fdatasync_spec k G) as (G2 & C & W & O2). rewrite L in C. cbn [logical newStable content wbuf app] in C.
  eexists. split; [done|]. split; [|done].
  assert (Hlog : logical (addOffset (fdatasync k) keyFileHeaderSize) = be_put 4 keyFileVersion ++ be_put 4 0).
  { unfold logical. cbn [addOffset content wbuf]. by rewrite W, C, app_nil_r. }
  split; cbn [keyLength keyStep keyTbl valueTbl keyReadable keyFlushed version]; try done.
  - destruct G2. by split.
  - rewrite Hlog, len_app, !len_be4. cbn [addOffset offset]. rewrite O2, O. done.
  - cbn [addOffset content]. rewrite C, len_app, !len_be4. done.
Qed.

Lemma set_inv s es pend key value :
  inv s es pend -> len key = keyLength s ->
  offset (keyTbl s) + keyStep s < 4294967296 -> offset (valueTbl s) + 4 + len value < 4294967296 ->
  exists s', set s key value = Ok s' /\ inv s' es (pend ++ [mkEnt key (offset (valueTbl s)) value]) /\
    offset (keyTbl s') = offset (keyTbl s) + keyStep s /\ offset (valueTbl s') = offset (valueTbl s) + 4 + len value /\
    keyLength s' = keyLength s /\ keyStep s' = keyStep s /\ version s' = version s.
Proof.
  intros H Hkey Hko Hvo. pose proof H as [Hkl Hst Gk Gv Hkeys Hklen Hvals [Ok1 Ok2] [Ov1 Ov2] Hkd Hvd Hr Hf].
  pose proof (len_nonneg value). pose proof (len_nonneg (logical (valueTbl s))). pose proof (len_nonneg (logical (keyTbl s))).
  unfold set. rewrite (u32_small (len value)) by lia.
  destruct (write_spec _ (be_put 4 (len value)) Gv) as (v1 & -> & Gv1 & Lv1 & Pv1 & Ofv1). cbn [rbind].
  destruct (write_spec v1 value Gv1) as (v2 & -> & Gv2 & Lv2 & Pv2 & Ofv2). cbn [rbind].
  destruct (write_spec _ key Gk) as (k1 & -> & Gk1 & Lk1 & Pk1 & Ofk1). cbn [rbind].
  destruct (write_spec k1 (be_put 4 (offset v2)) Gk1) as (k2 & -> & Gk2 & Lk2 & Pk2 & Ofk2). cbn [rbind].
  set (e := mkEnt key (offset (valueTbl s)) value).
  assert (Hlv : logical v2 = logical (valueTbl s) ++ be_put 4 (len value) ++ value) by (rewrite Lv2, Lv1; by rewrite app_assoc).
  assert (Hlk : logical k2 = header s (len es) ++ kbytes (es ++ pend ++ [e])).
  { rewrite Lk2, Lk1, Hkeys, Ofv2, Ofv1. rewrite (app_assoc es pend [e]), (kbytes_app _ [e]). change (kbytes [e]) with ((key ++ be_put 4 (offset (valueTbl s))) ++ []).
    by rewrite app_nil_r, <-!app_assoc. }
  assert (Hlenv : len (logical v2) = offset (valueTbl s) + 4 + len value) by (rewrite Hlv, !len_app, len_be4; lia).
  assert (Hlenk : len (logical k2) = offset (keyTbl s) + keyStep s) by (rewrite Lk2, Lk1, !len_app, len_be4; lia).
  eexists. split; [done|]. cbn [with_counts with_tbls keyTbl valueTbl keyLength keyStep version].
  split; [|split; [|split; [|done]]].
  - split; cbn [with_counts with_tbls keyTbl valueTbl keyLength keyStep version keyReadable keyFlushed]; try done.
    + destruct Gk2. by split.
    + destruct Gv2. by split.
    + rewrite (app_assoc es pend [e]). apply Forall_app. split; [done|]. by constructor.
    + rewrite (app_assoc es pend [e]). apply Forall_app. split.
      * eapply Forall_impl; [done|]. intros x Hx. change (logical (addOffset v2 _)) with (logical v2). rewrite Hlv. by apply in_vals_app.
      * constructor; [|constructor]. change (logical (addOffset v2 _)) with (logical v2). rewrite Hlv.
        exists (logical (valueTbl s)), []. cbn [eo ev e]. rewrite app_nil_r. split; [done|]. lia.
    + change (logical (addOffset k2 _)) with (logical k2). cbn [addOffset offset]. rewrite Ofk2, Ofk1, Hkey, (u32_small (keyLength s + 4)), u32_small by lia. lia.
    + change (logical (addOffset v2 _)) with (logical v2). cbn [addOffset offset]. rewrite Ofv2, Ofv1, (u32_small (len value + 4)), u32_small by lia. lia.
    + cbn [addOffset content]. etransitivity; [done|]. assert (Hp : content (keyTbl s) `prefix_of` content k2) by (by etransitivity).
      apply prefix_length in Hp. unfold len. lia.
    + cbn [addOffset content]. eapply Forall_impl; [done|]. intros x Hx. eapply in_vals_prefix; [|done]. by etransitivity.
    + rewrite len_app, Hf. done.
  - cbn [addOffset offset]. rewrite Ofk2, Ofk1, Hkey, (u32_small (keyLength s + 4)), u32_small by lia. lia.
  - cbn [addOffset offset]. rewrite Ofv2, Ofv1, (u32_small (len value + 4)), u32_small by lia. lia.
Qed.

Lemma file_write_header s n m rest :
  file_write (header s n ++ rest) keyFileHeaderKeyNum (be_put 4 m) = header s m ++ rest.
Proof.
  unfold file_write, header, keyFileHeaderKeyNum. rewrite length_be_put. change (Z.to_nat 4) with 4%nat.
  rewrite !length_app, !length_be_put. cbn [Nat.add Nat.sub replicate]. rewrite <-!app_assoc.
  rewrite take_app_le, take_ge by (rewrite length_be_put; lia). rewrite drop_app_ge by (rewrite length_be_put; lia).
  rewrite length_be_put. cbn [Nat.sub]. rewrite drop_app_ge by (rewrite length_be_put; lia). rewrite length_be_put.
  change (8 - 4 - 4)%nat with 0%nat. done.
Qed.

Lemma flushFinish_inv s es pend : inv s es pend ->
  inv (flushFinish s) (es ++ pend) [] /\ offset (keyTbl (flushFinish s)) = offset (keyTbl s) /\
  offset (valueTbl (flushFinish s)) = offset (valueTbl s) /\ keyLength (flushFinish s) = keyLength s /\
  keyStep (flushFinish s) = keyStep s /\ version (flushFinish s) = version s /\
  wbuf (keyTbl (flushFinish s)) = [] /\ wbuf (valueTbl (flushFinish s)) = [].
Proof.
  intros H. pose proof (inv_len _ _ _ H) as Hlen.
  pose proof H as [Hkl Hst Gk Gv Hkeys Hklen Hvals [Ok1 Ok2] [Ov1 Ov2] Hkd Hvd Hr Hf].
  destruct (fdatasync_spec _ Gk) as (Gk2 & Ck & Wk & Ok). destruct (fdatasync_spec _ Gv) as (Gv2 & Cv & Wv & Ov).
  pose proof (len_nonneg es). pose proof (len_nonneg pend).
  assert (Hb : len es + len pend < 4294967296) by (rewrite Hlen in Ok2; unfold keyFileHeaderSize in Ok2; nia).
  assert (Hn : u32 (keyReadable s + u32 (keyFlushed s)) = len (es ++ pend)).
  { rewrite Hr, Hf, len_app, (u32_small (len pend)), u32_small by lia. done. }
  unfold flushFinish. cbn [with_counts with_tbls writeKeyNum keyTbl valueTbl keyLength keyStep version keyReadable keyFlushed content offset wbuf].
  rewrite Hn. split; [|rewrite Ok; done].
  set (h2 := header s (len (es ++ pend)) ++ kbytes (es ++ pend)).
  assert (Hc : file_write (content (fdatasync (keyTbl s))) keyFileHeaderKeyNum (be_put 4 (len (es ++ pend))) = h2)
    by (by rewrite Ck, Hkeys, file_write_header).
  assert (Hlk : len h2 = len (logical (keyTbl s))).
  { unfold h2. rewrite Hkeys, !len_app. unfold len at 1 4. by rewrite !length_header. }
  split; cbn [with_counts with_tbls writeKeyNum keyTbl valueTbl keyLength keyStep version keyReadable keyFlushed content offset wbuf];
    unfold logical; cbn [content wbuf]; rewrite ?app_nil_r, ?Hc, ?Wk, ?Wv, ?Cv, ?app_nil_r, ?Hlk; try done.
  - split; cbn [fpos content wbuf readOnly]; [by rewrite Ok, Hlk|done|apply Gk2].
  - rewrite Ok. done.
  - rewrite Ov. done.
  - rewrite Hlen, len_app. lia.
Qed.

(** ** A table as a list of pairs *)

Abbreviation kv := (bytes * bytes)%type.

Inductive op : Type := OpSet (k v : bytes) | OpFinish.

Definition step (s : superTable) (o : op) : outcome superTable :=
  match o with
  | OpSet k v => set s k v
  | OpFinish => Ok (flushFinish s)
  end.

Fixpoint run (ops : list op) (s : superTable) : outcome superTable :=
  match ops with
  | [] => Ok s
  | o :: ops' => let! s := step s o in run ops' s
  end.

(** The pairs a reader sees and those set since the last [flushFinish]. *)
Definition abs_step (a : list kv * list kv) (o : op) : list kv * list kv :=
  match o with
  | OpSet k v => (a.1, a.2 ++ [(k, v)])
  | OpFinish => (a.1 ++ a.2, [])
  end.

Definition abs (ops : list op) : list kv * list kv := foldl abs_step ([], []) ops.

Definition sets (ops : list op) : list kv := (abs ops).1 ++ (abs ops).2.

Fixpoint kv_get (kvs : list kv) (k : bytes) : option bytes :=
  match kvs with
  | [] => None
  | x :: kvs' => if decide (x.1 = k) then (if decide (x.2 = []) then None else Some x.2) else kv_get kvs' k
  end.

Definition kv_sorted (kvs : list kv) : Prop := StronglySorted (fun a b => bytes_compare a.1 b.1 < 0) kvs.

Fixpoint vsize (kvs : list kv) : Z :=
  match kvs with
  | [] => 0
  | x :: kvs' => 4 + len x.2 + vsize kvs'
  end.

(** Keys of the table's length, and files below 4 GiB. *)
Record fits (kl : Z) (kvs : list kv) : Prop := mkFits {
  fits_keys : Forall (fun x => len x.1 = kl) kvs;
  fits_k : keyFileHeaderSize + len kvs * (kl + 4) < 4294967296;
  fits_v : vsize kvs < 4294967296
}.

(** The entries of pairs written one after the other from offset [o] on. *)
Fixpoint ents (o : Z) (kvs : list kv) : list ent :=
  match kvs with
  | [] => []
  | x :: kvs' => mkEnt x.1 o x.2 :: ents (o + 4 + len x.2) kvs'
  end.

Lemma vsize_app a b : vsize (a ++ b) = vsize a + vsize b.
Proof. induction a; cbn [app vsize]; [done|]. rewrite IHa. lia. Qed.

Lemma vsize_nonneg a : 0 <= vsize a.
Proof. induction a as [|x a IH]; cbn [vsize]; [done|]. pose proof (len_nonneg x.2). lia. Qed.

Lemma ents_app o a b : ents o (a ++ b) = ents o a ++ ents (o + vsize a) b.
Proof.
  revert o. induction a as [|x a IH]; intros o; cbn [app ents vsize]; [by rewrite Z.add_0_r|].
  rewrite IH. do 2 f_equal. f_equal. lia.
Qed.

Lemma length_ents o kvs : length (ents o kvs) = length kvs.
Proof. revert o. induction kvs; intros; cbn [ents length]; [done|]. by rewrite IHkvs. Qed.

Lemma es_get_ents o kvs k : es_get (ents o kvs) k = kv_get kvs k.
Proof. revert o. induction kvs; intros; cbn [ents es_get kv_get ek ev]; [done|]. by rewrite IHkvs. Qed.

Lemma ents_keys P o kvs : Forall (fun x => P x.1) kvs -> Forall (fun e => P (ek e)) (ents o kvs).
Proof. intros H. revert o. induction H; intros; cbn [ents]; by constructor. Qed.

Lemma ents_sorted o kvs : kv_sorted kvs -> sorted (ents o kvs).
Proof.
  intros H. revert o. induction H as [|x kvs Hs IH Hx]; intros o; cbn [ents]; constructor; [apply IH|].
  cbn [ek]. by apply (ents_keys (fun k => bytes_compare x.1 k < 0)).
Qed.

Lemma kv_sorted_take n kvs : kv_sorted kvs -> kv_sorted (take n kvs).
Proof.
  intros H. revert n. induction H as [|x kvs Hs IH Hx]; intros [|n]; cbn; constructor; [apply IH|by apply Forall_take].
Qed.

Lemma fits_app_l kl a b : 0 <= kl -> fits kl (a ++ b) -> fits kl a.
Proof.
  intros Hkl [H1 H2 H3]. apply Forall_app in H1 as [H1 _]. rewrite len_app in H2. rewrite vsize_app in H3.
  pose proof (len_nonneg b). pose proof (vsize_nonneg b). split; [done|nia|lia].
Qed.

Lemma abs_snoc ops o : abs (ops ++ [o]) = abs_step (abs ops) o.
Proof. unfold abs. by rewrite foldl_app. Qed.

Lemma run_snoc ops o s s' : run ops s = Ok s' -> run (ops ++ [o]) s = step s' o.
Proof.
  revert s. induction ops as [|x ops IH]; intros s; cbn [run app].
  - intros [= ->]. by destruct (step s' o).
  - destruct (step s x); cbn [rbind]; [|discriminate..]. apply IH.
Qed.

(** The run of a fresh table keeps the invariant with the entries of its pairs
    laid out one after the other. *)
Lemma run_spec fn kl ops s0 :
  0 <= kl -> newSuperTable fn kl [] [] = Ok s0 -> fits kl (sets ops) ->
  exists s es pend, run ops s0 = Ok s /\ inv s es pend /\ es ++ pend = ents 0 (sets ops) /\
    len es = len (abs ops).1 /\ keyLength s = kl /\ len (logical (valueTbl s)) = vsize (sets ops) /\ version s = keyFileVersion.
Proof.
  intros Hkl H0. destruct (fresh_inv fn kl Hkl) as (s0' & E0 & Hi0 & Hl0). rewrite E0 in H0. injection H0 as ->.
  assert (Hv0 : version s0 = keyFileVersion /\ offset (valueTbl s0) = 0).
  { unfold newSuperTable, writeKeyFileHeader in E0. apply rbind_Ok in E0 as (k & _ & [= <-]). done. }
  destruct Hv0 as [Hv0 Ho0].
  induction ops as [|o ops IH] using rev_ind; intros Hf.
  { exists s0, [], []. split; [done|]. split; [done|]. split; [done|]. split; [done|]. split; [done|]. split; [|done].
    by rewrite <-(proj1 (inv_voff _ _ _ Hi0)). }
  assert (Hf' : fits kl (sets ops)).
  { unfold sets in *. rewrite abs_snoc in Hf. destruct o; cbn [abs_step fst snd] in Hf.
    - rewrite app_assoc in Hf. by eapply fits_app_l.
    - by rewrite app_nil_r in Hf. }
  destruct (IH Hf') as (s & es & pend & Hr & Hi & He & Hl & Hkls & Hvl & Hver).
  pose proof (inv_len _ _ _ Hi) as Hlen. pose proof (inv_voff _ _ _ Hi) as [Ov _]. pose proof (inv_koff _ _ _ Hi) as [Okk _].
  rewrite (run_snoc _ _ _ _ Hr). unfold sets in *. rewrite abs_snoc in Hf |- *. destruct o as [k v|]; cbn [abs_step fst snd step] in *.
  - rewrite app_assoc in Hf. destruct Hf as [Hfk Hfl Hfv]. apply Forall_app in Hfk as [_ Hk]. apply Forall_inv in Hk. cbn in Hk.
    rewrite vsize_app in Hfv. cbn in Hfv. rewrite len_app in Hfl. change (len [(k, v)]) with 1 in Hfl.
    assert (Hle : len es + len pend = len ((abs ops).1 ++ (abs ops).2)).
    { rewrite <-len_app, He. unfold len. by rewrite length_ents. }
    destruct (set_inv s es pend k v Hi) as (s' & Es & Hi' & O1 & O2 & K1 & K2 & K3).
    + congruence.
    + rewrite Okk, Hlen, Hle. rewrite (inv_step _ _ _ Hi), Hkls. lia.
    + rewrite Ov, Hvl. lia.
    + exists s', es, (pend ++ [mkEnt k (offset (valueTbl s)) v]). split; [done|]. split; [done|].
      rewrite !app_assoc. rewrite He, (ents_app 0 _ [(k, v)]). cbn [ents]. rewrite Z.add_0_l, Ov, Hvl.
      split; [done|]. split; [done|]. split; [congruence|]. split; [|congruence].
      rewrite <-(proj1 (inv_voff _ _ _ Hi')), O2, Ov, Hvl, (vsize_app _ [_]). cbn. lia.
  - destruct (flushFinish_inv s es pend Hi) as (Hi' & O1 & O2 & K1 & K2 & K3 & W1 & W2).
    exists (flushFinish s), (es ++ pend), []. rewrite !app_nil_r. split; [done|]. split; [done|]. split; [done|].
    split; [rewrite He; unfold len; by rewrite length_ents|]. split; [congruence|].
    split; [|congruence]. rewrite <-(proj1 (inv_voff _ _ _ Hi')), O2, Ov. done.
Qed.

(** ** Opening what is on disk *)

(** A key file and a value file cut anywhere behind the key file's header. *)
Record cut (kl : Z) (kd vd : bytes) (ver num : Z) (es : list ent) (vlog : bytes) : Prop := mkCut {
  cut_kl : 0 <= kl;
  cut_keys : Forall (fun e => len (ek e) = kl) es;
  cut_vals : Forall (in_vals vlog) es;
  cut_k : kd `prefix_of` (be_put 4 ver ++ be_put 4 num) ++ kbytes es;
  cut_h : keyFileHeaderSize <= len kd;
  cut_v : vd `prefix_of` vlog;
  cut_num : 0 <= num < 4294967296
}.

Definition opened (fn kl : Z) (ro : bool) (kd vd : bytes) (ver readable : Z) : superTable :=
  mkST (openStable kd ro) (openStable vd ro) fn ver readable 0 kl (kl + 4).

Section Opening.
Context (fn kl : Z) (ro : bool) (kd vd : bytes) (ver num : Z) (es : list ent) (vlog : bytes) (Hc : cut kl kd vd ver num es vlog).

Lemma open_header fuel :
  openSuperTable fuel fn kl ro kd vd =
    let s := opened fn kl ro kd vd (u32 ver) 0 in
    if keyFileHeaderSize + num * (kl + 4) =? len kd then Ok (opened fn kl ro kd vd (u32 ver) num)
    else
      let! act := rebuild_loop fuel s keyFileHeaderSize 0 in
      let s := opened fn kl ro kd vd (u32 ver) act in
      Ok (if negb (act =? num) then writeKeyNum s act else s).
Proof.
  destruct Hc as [Hkl Hk Hv Hpk Hh Hpv Hn]. unfold openSuperTable, readKeyFileHeader. cbn [keyTbl openStable content].
  rewrite (ReadAt_prefix _ _ _ _ Hpk) by lia. rewrite (ReadAt_mid _ [] (be_put 4 ver ++ be_put 4 num) (kbytes es)) by
    (try done; by rewrite len_app, !len_be4).
  rewrite take_app_le, take_ge, drop_app_ge, !length_be_put, Nat.sub_diag, drop_0 by (rewrite length_be_put; lia).
  rewrite (be_get_put_small num), be_get_put_u32 by lia. done.
Qed.

(** One turn of the loop at the entry [e]. *)
Lemma rebuild_entry i e fuel v r act : es !! i = Some e ->
  let s := opened fn kl ro kd vd v r in
  let pos := keyFileHeaderSize + Z.of_nat i * (kl + 4) in
  rebuild_loop (S fuel) s pos act =
    if pos + (kl + 4) <=? len kd then
      if len vd <=? eo e + 4 then Ok act
      else if len (ev e) =? 0 then rebuild_loop fuel s pos act
      else if eo e + 4 + len (ev e) <=? len vd then rebuild_loop fuel s (pos + (kl + 4)) (u32 (act + 1)) else Ok act
    else Ok act.
Proof.
  intros Hi s pos. destruct Hc as [Hkl Hk Hv Hpk Hh Hpv Hn]. cbn [rebuild_loop].
  change (keyStep s) with (kl + 4). change (filesz (keyTbl s)) with (len kd). change (filesz (valueTbl s)) with (len vd).
  change (content (keyTbl s)) with kd. change (content (valueTbl s)) with vd. change (keyLength s) with kl.
  destruct (Z.leb_spec (pos + (kl + 4)) (len kd)) as [Hle|]; [|done].
  pose proof (Forall_lookup_1 _ _ _ _ Hk Hi) as Hek. cbv beta in Hek.
  destruct (Forall_lookup_1 _ _ _ _ Hv Hi) as (pre & post & Evl & Hpre & Hsz).
  pose proof (len_nonneg (ev e)). pose proof (len_nonneg pre).
  rewrite (ReadAt_prefix _ _ _ _ Hpk) by lia.
  rewrite (ReadAt_mid _ ((be_put 4 ver ++ be_put 4 num) ++ kbytes (take i es) ++ ek e) (be_put 4 (eo e)) (kbytes (drop (S i) es))).
  2: { rewrite (kbytes_split _ _ _ Hi). by rewrite <-!app_assoc. }
  2: { rewrite !len_app, !len_be4, (len_kbytes kl) by (by apply Forall_take). unfold len in *. rewrite length_take.
       apply lookup_lt_Some in Hi. unfold pos, keyFileHeaderSize. lia. }
  2: { by rewrite len_be4. }
  rewrite be_get_put_small by lia. destruct (Z.leb_spec (len vd) (eo e + 4)) as [|Hvd]; [done|].
  rewrite (ReadAt_prefix _ _ _ _ Hpv) by lia.
  rewrite (ReadAt_mid _ pre (be_put 4 (len (ev e))) (ev e ++ post)) by (rewrite ?len_be4; try done; rewrite Evl; by rewrite <-!app_assoc).
  rewrite be_get_put_small by lia. destruct (Z.eqb_spec (len (ev e)) 0) as [|Hne]; [done|].
  destruct (Z.leb_spec (eo e + 4 + len (ev e)) (len vd)) as [Hin|Hout].
  - rewrite (ReadAt_prefix _ _ _ _ Hpv) by lia.
    by rewrite (ReadAt_mid _ (pre ++ be_put 4 (len (ev e))) (ev e) post) by
      (rewrite ?len_app, ?len_be4; try done; try lia; rewrite Evl; by rewrite <-!app_assoc).
  - unfold ReadAt. destruct (Z.ltb_spec (eo e + 4) 0); [lia|]. destruct (Z.eqb_spec (len (ev e)) 0); [lia|].
    destruct (Z.leb_spec (eo e + 4 + len (ev e)) (len vd)); [lia|done].
Qed.

(** Behind the last entry there is nothing to count. *)
Lemma rebuild_end fuel v r act :
  rebuild_loop (S fuel) (opened fn kl ro kd vd v r) (keyFileHeaderSize + len es * (kl + 4)) act = Ok act.
Proof.
  destruct Hc as [Hkl Hk Hv Hpk Hh Hpv Hn]. cbn [rebuild_loop]. set (s := opened _ _ _ _ _ _ _).
  change (keyStep s) with (kl + 4). change (filesz (keyTbl s)) with (len kd). apply prefix_length in Hpk.
  rewrite !length_app, !length_be_put in Hpk. pose proof (len_kbytes kl es Hk) as Hb. unfold len, keyFileHeaderSize in *.
  destruct (Z.leb_spec (8 + Z.of_nat (length es) * (kl + 4) + (kl + 4)) (Z.of_nat (length kd))); [lia|done].
Qed.

(** The entries from position [i] on whose key and value are both complete, up
    to the first that is not. *)
Fixpoint survivors (i : nat) (es : list ent) : nat :=
  match es with
  | [] => 0
  | e :: es' =>
      if (keyFileHeaderSize + Z.of_nat (S i) * (kl + 4) <=? len kd) && (eo e + 4 + len (ev e) <=? len vd)
      then S (survivors (S i) es') else 0
  end.

Lemma rebuild_spec dn rest fuel v r :
  es = dn ++ rest -> Forall (fun e => ev e <> []) rest -> (length rest < fuel)%nat -> len es < 4294967296 ->
  rebuild_loop fuel (opened fn kl ro kd vd v r) (keyFileHeaderSize + len dn * (kl + 4)) (len dn) =
    Ok (len dn + Z.of_nat (survivors (length dn) rest)).
Proof.
  intros E Hne. revert dn fuel E. induction Hne as [|e rest He Hne IH]; intros dn fuel E Hf Hb; (destruct fuel as [|fuel]; [cbn [length] in *; lia|]).
  - rewrite app_nil_r in E. rewrite <-E. cbn [survivors]. rewrite Z.add_0_r. apply rebuild_end.
  - assert (Hi : es !! length dn = Some e) by (rewrite E, lookup_app_r, Nat.sub_diag by lia; done).
    assert (Hv0 : len (ev e) <> 0) by (destruct (ev e); [done|rewrite len_cons; pose proof (len_nonneg l); lia]).
    pose proof (len_nonneg (ev e)).
    change (len dn) with (Z.of_nat (length dn)) at 1. rewrite (rebuild_entry _ _ _ _ _ _ Hi). cbn [survivors].
    replace (keyFileHeaderSize + Z.of_nat (S (length dn)) * (kl + 4)) with
      (keyFileHeaderSize + Z.of_nat (length dn) * (kl + 4) + (kl + 4)) by lia.
    destruct (Z.leb_spec (keyFileHeaderSize + Z.of_nat (length dn) * (kl + 4) + (kl + 4)) (len kd)) as [Hk1|Hk1]; cbn [andb];
      [|by rewrite Z.add_0_r].
    destruct (Z.leb_spec (eo e + 4 + len (ev e)) (len vd)) as [Hv1|Hv1].
    + destruct (Z.leb_spec (len vd) (eo e + 4)); [lia|]. destruct (Z.eqb_spec (len (ev e)) 0); [lia|].
      specialize (IH (dn ++ [e]) fuel ltac:(by rewrite <-app_assoc) ltac:(cbn [length] in Hf; lia) Hb).
      rewrite len_app, length_app in IH. change (len [e]) with 1 in IH. cbn [length] in IH. rewrite Nat.add_1_r in IH.
      rewrite u32_small by (rewrite E, len_app, len_cons in Hb; pose proof (len_nonneg dn); pose proof (len_nonneg rest); lia).
      replace (keyFileHeaderSize + Z.of_nat (length dn) * (kl + 4) + (kl + 4)) with (keyFileHeaderSize + (len dn + 1) * (kl + 4)) by (unfold len; lia).
      rewrite IH. f_equal. lia.
    + destruct (Z.leb_spec (len vd) (eo e + 4)); [by rewrite Z.add_0_r|]. destruct (Z.eqb_spec (len (ev e)) 0); [lia|by rewrite Z.add_0_r].
Qed.

Lemma rebuild_diverges i e fuel v r act :
  es !! i = Some e -> ev e = [] -> keyFileHeaderSize + Z.of_nat (S i) * (kl + 4) <= len kd -> eo e + 4 < len vd ->
  rebuild_loop fuel (opened fn kl ro kd vd v r) (keyFileHeaderSize + Z.of_nat i * (kl + 4)) act = Err ErrModelFuel.
Proof.
  intros Hi He Hk Hv. induction fuel as [|fuel IH]; [done|]. rewrite (rebuild_entry _ _ _ _ _ _ Hi).
  destruct (Z.leb_spec (keyFileHeaderSize + Z.of_nat i * (kl + 4) + (kl + 4)) (len kd)); [|lia].
  destruct (Z.leb_spec (len vd) (eo e + 4)); [lia|]. by rewrite He.
Qed.

Lemma survivors_le i l : (survivors i l <= length l)%nat.
Proof. revert i. induction l as [|e l IH]; intros i; cbn [survivors length]; [lia|]. destruct (_ && _); [|lia]. specialize (IH (S i)). lia. Qed.

(** The survivors are stored. *)
Lemma survivors_stores i l :
  (forall e, e ∈ l -> in_vals vlog e) -> Forall (in_vals vd) (take (survivors i l) l) /\
  (survivors i l = 0%nat \/ keyFileHeaderSize + (Z.of_nat (i + survivors i l)) * (kl + 4) <= len kd).
Proof.
  revert i. induction l as [|e l IH]; intros i Hl; cbn [survivors]; [by split; [constructor|left]|].
  destruct (Z.leb_spec (keyFileHeaderSize + Z.of_nat (S i) * (kl + 4)) (len kd)) as [Hk|Hk]; cbn [andb]; [|by split; [constructor|left]].
  destruct (Z.leb_spec (eo e + 4 + len (ev e)) (len vd)) as [Hv|Hv]; [|by split; [constructor|left]].
  destruct (IH (S i)) as [Hf Hn]; [intros; apply Hl; by right|]. split.
  - cbn [take]. constructor; [|done]. eapply in_vals_cut; [apply Hc|apply Hl; left|done].
  - right. destruct Hn as [Hn|Hn]; [rewrite Hn, Nat.add_1_r; lia|].
    replace (Z.of_nat (i + S (survivors (S i) l))) with (Z.of_nat (S i + survivors (S i) l)) by lia. lia.
Qed.

End Opening.

End SuperTable.
