(* ===== verification/SuperTableSpec.v ===== *)
(** What a super table promises: it refines a list of pairs, also across a
    reopening and a crash, and its iterator is a cursor over the entries that
    were readable when it was made.  Two defects of the reopening are stated as
    theorems: it does not end on an empty value behind a torn flush, and what is
    set after a torn entry cannot be read. *)

From Stdlib Require Import ZArith Lia.
From stdpp Require Import base numbers option sorting list.
From S2P Require Import Prelude Base Iter SuperTable.
Import SuperTable.

(** ** Tables read back from disk *)

Section Reopened.
Context (fn kl : Z) (ro : bool) (kd vd : bytes) (num : Z) (es : list ent) (vlog : bytes).
Context (Hc : cut kl kd vd keyFileVersion num es vlog).

Lemma cut_rest : exists rest, kd = (be_put 4 keyFileVersion ++ be_put 4 num) ++ rest /\ rest `prefix_of` kbytes es.
Proof.
  destruct Hc as [Hkl Hk Hv [x Hx] Hh Hpv Hn]. set (h := be_put 4 keyFileVersion ++ be_put 4 num) in *.
  assert (Hl : length h = 8%nat) by (unfold h; by rewrite length_app, !length_be_put).
  assert (Hkd : (8 <= length kd)%nat) by (unfold len, keyFileHeaderSize in Hh; lia).
  exists (drop 8 kd). assert (E : take 8 kd = h).
  { apply (f_equal (take 8)) in Hx. rewrite take_app_length' in Hx by done. by rewrite take_app_le in Hx by done. }
  split; [rewrite <-E; by rewrite take_drop|]. exists x.
  apply (f_equal (drop 8)) in Hx. rewrite drop_app_length' in Hx by done. by rewrite drop_app_le in Hx by done.
Qed.

(** The table the opening leaves, its header rewritten or not. *)
Definition reopened (act : Z) : superTable :=
  let s := opened fn kl ro kd vd keyFileVersion act in if negb (act =? num) then writeKeyNum s act else s.

Lemma reopened_content act : 0 <= act < 4294967296 ->
  exists rest, rest `prefix_of` kbytes es /\ len kd = 8 + len rest /\
    content (keyTbl (reopened act)) = (be_put 4 keyFileVersion ++ be_put 4 act) ++ rest /\
    content (valueTbl (reopened act)) = vd /\ wbuf (keyTbl (reopened act)) = [].
Proof.
  intros Ha. destruct cut_rest as (rest & E & Hp). exists rest. split; [done|].
  split; [by rewrite E, !len_app, !len_be4|]. unfold reopened. destruct (Z.eqb_spec act num) as [->|Hne]; cbn [negb]; [done|].
  split; [|done]. unfold writeKeyNum. cbn [with_tbls keyTbl content opened openStable]. rewrite E.
  exact (file_write_header (opened fn kl ro kd vd keyFileVersion act) num act rest).
Qed.

Lemma reopened_reads n act :
  0 <= act < 4294967296 -> Forall (in_vals vd) (take n es) -> (n <= length es)%nat ->
  keyFileHeaderSize + Z.of_nat n * (kl + 4) <= len kd -> reads (reopened act) (take n es).
Proof.
  intros Ha Hv Hn Hl. destruct (reopened_content act Ha) as (rest & Hp & Hlen & Ek & Ev & _).
  assert (Hf : keyLength (reopened act) = kl /\ keyStep (reopened act) = kl + 4) by (unfold reopened; by destruct (negb _)).
  destruct Hf as [Hkl Hst]. unfold reads. rewrite Hst, Hkl. split; [apply Hc|]. split; [done|]. rewrite Ek, Ev.
  apply (prefix_stores kl _ vd (be_put 4 keyFileVersion ++ be_put 4 act) (take n es) (kbytes (drop n es))).
  - apply Hc.
  - by rewrite length_app, !length_be_put.
  - apply Forall_take, Hc.
  - done.
  - rewrite <-kbytes_app, take_drop. by apply prefix_app.
  - rewrite !len_app, !len_be4. unfold len at 1. rewrite length_take_le by done. unfold keyFileHeaderSize in *. lia.
Qed.

(** A table whose key file ends with an entry can be written on. *)
Lemma reopened_inv n :
  ro = false -> Forall (in_vals vd) (take n es) -> (n <= length es)%nat ->
  len kd = keyFileHeaderSize + Z.of_nat n * (kl + 4) -> len kd < 4294967296 -> len vd < 4294967296 ->
  inv (reopened (Z.of_nat n)) (take n es) [].
Proof.
  intros Hro Hv Hn Hl Hk4 Hv4. pose proof (cut_kl _ _ _ _ _ _ _ Hc) as Hkl. pose proof (len_nonneg kd). pose proof (len_nonneg vd).
  assert (Ha : 0 <= Z.of_nat n < 4294967296) by (unfold keyFileHeaderSize in Hl; nia).
  destruct (reopened_content _ Ha) as (rest & Hp & Hlen & Ek & Ev & Ew).
  pose proof (len_kbytes kl (take n es) ltac:(apply Forall_take, Hc)) as Hb. unfold len in Hb at 2. rewrite length_take_le in Hb by done.
  assert (Hrest : rest = kbytes (take n es)).
  { destruct Hp as [x Hx]. rewrite <-(take_drop n es), kbytes_app in Hx.
    apply (app_inj_1 (kbytes (take n es)) rest) in Hx as [? _]; [done|]. unfold len, keyFileHeaderSize in *. lia. }
  subst rest. assert (Hm : Z.of_nat n = len (take n es)) by (unfold len; by rewrite length_take_le).
  assert (Hfld : keyLength (reopened (Z.of_nat n)) = kl /\ keyStep (reopened (Z.of_nat n)) = kl + 4 /\
    keyReadable (reopened (Z.of_nat n)) = Z.of_nat n /\ keyFlushed (reopened (Z.of_nat n)) = 0 /\
    version (reopened (Z.of_nat n)) = keyFileVersion /\ valueTbl (reopened (Z.of_nat n)) = openStable vd false /\
    readOnly (keyTbl (reopened (Z.of_nat n))) = false /\ fpos (keyTbl (reopened (Z.of_nat n))) = len kd /\
    offset (keyTbl (reopened (Z.of_nat n))) = len kd).
  { unfold reopened. destruct (negb _); unfold writeKeyNum, with_tbls, opened, openStable;
      cbn [keyLength keyStep keyReadable keyFlushed version valueTbl keyTbl readOnly fpos offset]; rewrite ?(u32_small (len kd)), Hro by lia; done. }
  destruct Hfld as (F1 & F2 & F3 & F4 & F5 & F6 & F7 & F8 & F9).
  assert (Hlk : len ((be_put 4 keyFileVersion ++ be_put 4 (Z.of_nat n)) ++ kbytes (take n es)) = len kd)
    by (rewrite !len_app, !len_be4; lia).
  split; rewrite ?F1, ?F2, ?F3, ?F4, ?F6, ?app_nil_r; unfold logical, header; rewrite ?Ek, ?Ew, ?F5, ?F9, ?app_nil_r, ?Hlk, <-?Hm; try done.
  - split; [by rewrite F8, Ek, Hlk|by rewrite Ew|done].
  - apply Forall_take, Hc.
  - cbn [content wbuf openStable offset]. rewrite u32_small by lia. done.
  - lia.
Qed.

End Reopened.

(** ** The table refines a list of pairs *)

Lemma shown_ents ops es pend :
  es ++ pend = ents 0 (sets ops) -> len es = len (abs ops).1 -> es = ents 0 (abs ops).1 /\ pend = ents (vsize (abs ops).1) (abs ops).2.
Proof.
  intros He Hl. unfold sets in He. rewrite ents_app in He. apply app_inj_1 in He; [done|]. rewrite length_ents. unfold len in Hl. lia.
Qed.

Lemma kv_sorted_app_l a b : kv_sorted (a ++ b) -> kv_sorted a.
Proof. intros H. rewrite <-(take_app_length a b). by apply kv_sorted_take. Qed.

(** C16: a super table under any sequence of [set] and [flushFinish] calls with
    keys in increasing order shows a reader exactly the pairs set before the last
    [flushFinish], where an empty value counts as absent; finished, closed and
    opened again, read-only or not, it shows all of them. *)
Theorem super_table_refines fn kl ops s0 :
  0 <= kl -> newSuperTable fn kl [] [] = Ok s0 -> fits kl (sets ops) -> kv_sorted (sets ops) ->
  exists s, run ops s0 = Ok s /\ (forall k, get s k = Ok (kv_get (abs ops).1 k)) /\
    forall fuel ro, exists s2,
      openSuperTable fuel fn kl ro (close (flushFinish s)).1 (close (flushFinish s)).2 = Ok s2 /\
      forall k, get s2 k = Ok (kv_get (sets ops) k).
Proof.
  intros Hkl H0 Hf Hs. destruct (run_spec fn kl ops s0 Hkl H0 Hf) as (s & es & pend & Hr & Hi & He & Hl & Ekl & Hvl & Hver).
  exists s. split; [done|]. destruct (shown_ents _ _ _ He Hl) as [-> ->]. split.
  { intros k. rewrite <-(es_get_ents 0). apply get_spec; [by eapply inv_reads| |apply Hi].
    apply ents_sorted. by eapply kv_sorted_app_l. }
  destruct (flushFinish_inv _ _ _ Hi) as (Hi' & _ & _ & K1 & K2 & K3 & W1 & W2). rewrite He in Hi'.
  set (f := flushFinish s) in *. pose proof (inv_keys _ _ _ Hi') as Hk. rewrite app_nil_r in Hk. unfold logical in Hk. rewrite W1, app_nil_r in Hk.
  destruct (fdatasync_spec _ (inv_k _ _ _ Hi')) as (_ & Ck & _ & _). destruct (fdatasync_spec _ (inv_v _ _ _ Hi')) as (_ & Cv & _ & _).
  unfold logical in Ck, Cv. rewrite W1, app_nil_r in Ck. rewrite W2, app_nil_r in Cv.
  assert (Ecl : close f = (content (keyTbl f), content (valueTbl f))) by (unfold close, st_close; by rewrite Ck, Cv).
  rewrite Ecl. cbn [fst snd]. set (E := ents 0 (sets ops)) in *.
  pose proof (inv_len _ _ _ Hi') as Hlen. unfold logical in Hlen. rewrite W1, app_nil_r, len_nil, Z.add_0_r in Hlen.
  pose proof (inv_klen _ _ _ Hi') as HkE. pose proof (inv_vals _ _ _ Hi') as HvE. rewrite app_nil_r in HkE, HvE.
  unfold logical in HvE. rewrite W2, app_nil_r in HvE. rewrite (inv_step _ _ _ Hi'), K1, Ekl in Hlen. rewrite K1, Ekl in HkE.
  pose proof (len_nonneg E). pose proof (inv_koff _ _ _ Hi') as [_ Hb]. unfold logical in Hb. rewrite W1, app_nil_r in Hb.
  assert (Hc : cut kl (content (keyTbl f)) (content (valueTbl f)) keyFileVersion (len E) E (content (valueTbl f))).
  { split; try done.
    - rewrite Hk. unfold header. by rewrite K3, Hver.
    - rewrite Hlen. nia.
    - unfold keyFileHeaderSize in *. nia. }
  intros fuel ro. rewrite (open_header fn kl ro _ _ _ _ _ _ Hc). change (u32 keyFileVersion) with keyFileVersion. cbn zeta.
  rewrite Hlen, Z.eqb_refl. eexists. split; [done|]. intros k.
  pose proof (reopened_reads fn kl ro _ _ _ _ _ Hc (length E) (len E) ltac:(apply Hc)) as Hrd.
  rewrite take_ge in Hrd by lia. unfold reopened in Hrd. rewrite Z.eqb_refl in Hrd. cbn [negb] in Hrd.
  specialize (Hrd HvE ltac:(lia) ltac:(change (Z.of_nat (length E)) with (len E); lia)).
  rewrite <-(es_get_ents 0). by apply get_spec; [|apply ents_sorted|].
Qed.

Definition demo_ops : list op :=
  [OpSet [0; 1] [10; 11]; OpSet [0; 2] []; OpFinish; OpSet [0; 3] [12]].

Lemma demo_fits : fits 2 (sets demo_ops) /\ kv_sorted (sets demo_ops).
Proof. split; [split; [repeat constructor|done|done]|]. repeat constructor. Qed.

Lemma super_table_refines_witness :
  exists s0 s, newSuperTable 1 2 [] [] = Ok s0 /\ run demo_ops s0 = Ok s /\
    get s [0; 1] = Ok (Some [10; 11]) /\ get s [0; 2] = Ok None /\ get s [0; 3] = Ok None /\
    exists s2, openSuperTable 0 1 2 false (close (flushFinish s)).1 (close (flushFinish s)).2 = Ok s2 /\
      get s2 [0; 3] = Ok (Some [12]).
Proof.
  destruct (newSuperTable 1 2 [] []) as [s0| |] eqn:E0; [|vm_compute in E0; discriminate E0..]. exists s0.
  destruct demo_fits as [Hf Hs].
  destruct (super_table_refines 1 2 demo_ops s0 ltac:(done) E0 Hf Hs) as (s & Hr & Hg & Ho). exists s.
  split; [done|]. split; [done|]. rewrite !Hg. do 3 (split; [done|]).
  destruct (Ho 0%nat false) as (s2 & Es & Hg2). exists s2. split; [done|]. by rewrite Hg2.
Defined.

(** ** Crashes *)

Lemma survivors_length kl kd vd i a b :
  (forall e, e ∈ a -> eo e + 4 + len (ev e) <= len vd) -> 0 <= kl ->
  (a = [] \/ keyFileHeaderSize + Z.of_nat (i + length a) * (kl + 4) <= len kd) ->
  survivors kl kd vd i (a ++ b) = (length a + survivors kl kd vd (i + length a) b)%nat.
Proof.
  intros Ha Hkl Hk. revert i Hk. induction a as [|e a IH]; intros i Hk; cbn [app survivors length]; [by rewrite Nat.add_0_r|].
  destruct Hk as [?|Hk]; [done|]. cbn [length] in Hk.
  destruct (Z.leb_spec (keyFileHeaderSize + Z.of_nat (S i) * (kl + 4)) (len kd)); [|nia].
  destruct (Z.leb_spec (eo e + 4 + len (ev e)) (len vd)) as [|Hv]; [|specialize (Ha e ltac:(left)); lia]. cbn [andb].
  rewrite IH; [by rewrite Nat.add_succ_r|intros; apply Ha; by right|].
  right. by rewrite Nat.add_succ_r in Hk.
Qed.

Lemma ents_end o kvs e : e ∈ ents o kvs -> eo e + 4 + len (ev e) <= o + vsize kvs.
Proof.
  revert o. induction kvs as [|x kvs IH]; intros o; cbn [ents vsize]; [by intros ?%elem_of_nil|].
  intros [->|Hin]%elem_of_cons; cbn [eo ev].
  - pose proof (vsize_nonneg kvs). lia.
  - specialize (IH _ Hin). lia.
Qed.

(** The image of a table's files after a crash: what the last [flushFinish]
    synced is there, of the rest any prefix. *)
Record crash_image (kl : Z) (ops : list op) (s : superTable) (kd vd : bytes) : Prop := mkCrash {
  crash_k : kd `prefix_of` logical (keyTbl s);
  crash_v : vd `prefix_of` logical (valueTbl s);
  crash_kmin : keyFileHeaderSize + len (abs ops).1 * (kl + 4) <= len kd;
  crash_vmin : vsize (abs ops).1 <= len vd
}.

Lemma crash_cut fn kl ops s0 s kd vd :
  0 <= kl -> newSuperTable fn kl [] [] = Ok s0 -> fits kl (sets ops) -> run ops s0 = Ok s -> crash_image kl ops s kd vd ->
  cut kl kd vd keyFileVersion (len (abs ops).1) (ents 0 (sets ops)) (logical (valueTbl s)) /\
  len kd < 4294967296 /\ len vd < 4294967296.
Proof.
  intros Hkl H0 Hf Hr [Hk Hv Hkm Hvm]. destruct (run_spec fn kl ops s0 Hkl H0 Hf) as (s' & es & pend & Hr' & Hi & He & Hl & Ekl & Hvl & Hver).
  rewrite Hr in Hr'. injection Hr' as <-. pose proof (len_nonneg (abs ops).1).
  pose proof (prefix_length _ _ Hk). pose proof (prefix_length _ _ Hv).
  pose proof (inv_koff _ _ _ Hi) as [_ Hb]. pose proof (inv_voff _ _ _ Hi) as [_ Hb']. unfold len in *.
  split; [|lia]. split; try done.
  - rewrite <-Ekl, <-He. apply Hi.
  - rewrite <-He. apply Hi.
  - pose proof (inv_keys _ _ _ Hi) as Hkk. unfold header, len in Hkk. rewrite Hver, Hl, He in Hkk. by rewrite <-Hkk.
  - unfold len, keyFileHeaderSize in *. nia.
  - unfold keyFileHeaderSize in *. nia.
Qed.

Lemma sets_length ops : (length (abs ops).1 <= length (sets ops))%nat.
Proof. unfold sets. rewrite length_app. lia. Qed.

Lemma fits_count kl kvs : 0 <= kl -> fits kl kvs -> len kvs < 4294967296.
Proof. intros Hkl [_ H _]. pose proof (len_nonneg kvs). unfold keyFileHeaderSize in H. nia. Qed.

(** C17: after a crash that keeps what was synced and any part of the rest, a
    table without empty values opens, within one turn per pair, to exactly the
    longest run of pairs whose key and value both survived, all finished ones
    among them; if the key file ends with an entry the table can be written
    on. *)
Theorem super_table_recovers fn kl ops s0 s kd vd ro :
  0 <= kl -> newSuperTable fn kl [] [] = Ok s0 -> fits kl (sets ops) -> kv_sorted (sets ops) ->
  Forall (fun x => x.2 <> []) (sets ops) -> run ops s0 = Ok s -> crash_image kl ops s kd vd ->
  let j := survivors kl kd vd 0 (ents 0 (sets ops)) in
  (length (abs ops).1 <= j)%nat /\
  exists s2, openSuperTable (S (length (sets ops))) fn kl ro kd vd = Ok s2 /\ keyReadable s2 = Z.of_nat j /\
    (forall k, get s2 k = Ok (kv_get (take j (sets ops)) k)) /\
    (ro = false -> len kd = keyFileHeaderSize + Z.of_nat j * (kl + 4) -> inv s2 (take j (ents 0 (sets ops))) []).
Proof.
  intros Hkl H0 Hf Hs Hne Hr Hci j. destruct (crash_cut _ _ _ _ _ _ _ Hkl H0 Hf Hr Hci) as (Hc & Hk4 & Hv4).
  destruct Hci as [Hk Hv Hkm Hvm]. set (E := ents 0 (sets ops)) in *. set (n0 := length (abs ops).1).
  assert (HlE : length E = length (sets ops)) by apply length_ents. pose proof (sets_length ops) as Hsl.
  assert (HE : E = ents 0 (abs ops).1 ++ ents (vsize (abs ops).1) (abs ops).2) by (unfold E, sets; by rewrite ents_app).
  assert (Hj0 : (n0 <= j)%nat).
  { unfold j. rewrite HE, survivors_length; [rewrite length_ents; unfold n0; lia| |done|].
    - intros e He%ents_end. lia.
    - right. rewrite length_ents, Nat.add_0_l. exact Hkm. }
  split; [done|]. assert (Hjl : (j <= length E)%nat) by apply survivors_le.
  pose proof (fits_count _ _ Hkl Hf) as Hcnt. unfold len in Hcnt.
  destruct (survivors_stores kl kd vd _ _ E _ Hc 0 E) as [HvE Hkj].
  { intros e He. pose proof (cut_vals _ _ _ _ _ _ _ Hc) as HF. rewrite Forall_forall in HF. by apply HF. }
  fold j in HvE, Hkj. rewrite Nat.add_0_l in Hkj.
  assert (Hkj' : keyFileHeaderSize + Z.of_nat j * (kl + 4) <= len kd).
  { destruct Hkj as [->|]; [|done]. pose proof (cut_h _ _ _ _ _ _ _ Hc). lia. }
  assert (Hopen : openSuperTable (S (length (sets ops))) fn kl ro kd vd = Ok (reopened fn kl ro kd vd (len (abs ops).1) (Z.of_nat j))).
  { rewrite (open_header fn kl ro _ _ _ _ _ _ Hc). change (u32 keyFileVersion) with keyFileVersion. cbn zeta.
    unfold reopened. destruct (Z.eqb_spec (keyFileHeaderSize + len (abs ops).1 * (kl + 4)) (len kd)) as [Heq|Hneq].
    - assert (Ej : Z.of_nat j = len (abs ops).1) by (unfold len, n0 in *; nia). by rewrite Ej, Z.eqb_refl.
    - pose proof (rebuild_spec fn kl ro kd vd _ _ E _ Hc [] E (S (length (sets ops))) keyFileVersion 0 eq_refl) as Hrb.
      cbn [length] in Hrb. change (len (@nil ent)) with 0 in Hrb. rewrite Z.add_0_l in Hrb. change (keyFileHeaderSize + 0 * (kl + 4)) with keyFileHeaderSize in Hrb. fold j in Hrb.
      rewrite Hrb; [done| |lia|unfold len; lia].
      clear -Hne. unfold E. generalize 0 as o. induction Hne; intros o; cbn [ents]; by constructor. }
  eexists. split; [exact Hopen|]. split; [unfold reopened; by destruct (negb _)|].
  assert (HtE : take j E = ents 0 (take j (sets ops))).
  { unfold E. rewrite <-(take_drop j (sets ops)) at 1. rewrite ents_app, take_app_length'; [done|]. rewrite length_ents, length_take. lia. }
  split.
  - intros k. rewrite <-(es_get_ents 0), <-HtE. apply get_spec.
    + apply (reopened_reads fn kl ro kd vd _ E _ Hc); (done || lia).
    + rewrite HtE. by apply ents_sorted, kv_sorted_take.
    + unfold len. rewrite length_take_le by done. unfold reopened. by destruct (negb _).
  - intros Hro Hal. by apply (reopened_inv fn kl ro kd vd _ E _ Hc).
Qed.

(** Two finished pairs and one that is not; the crash cuts the value of the
    last. *)
Definition crash_ops : list op :=
  [OpSet [0; 1] [10; 11]; OpSet [0; 2] [13]; OpFinish; OpSet [0; 3] [12; 14]; OpSet [0; 4] [15]].

Definition demo_state (ops : list op) : superTable :=
  match (let! s0 := newSuperTable 1 2 [] [] in run ops s0) with Ok s => s | _ => opened 0 0 false [] [] 0 0 end.

Definition cut_files (ops : list op) (n m : nat) : bytes * bytes :=
  (take n (logical (keyTbl (demo_state ops))), take m (logical (valueTbl (demo_state ops)))).

Lemma super_table_recovers_witness :
  exists s2, openSuperTable 5 1 2 true (cut_files crash_ops 28 17).1 (cut_files crash_ops 28 17).2 = Ok s2 /\ keyReadable s2 = 3 /\
    get s2 [0; 3] = Ok (Some [12; 14]) /\ get s2 [0; 4] = Ok None.
Proof.
  destruct (newSuperTable 1 2 [] []) as [s0| |] eqn:E0; [|vm_compute in E0; discriminate E0..].
  assert (Hr : run crash_ops s0 = Ok (demo_state crash_ops)).
  { unfold demo_state. rewrite E0. cbn [rbind]. vm_compute in E0. injection E0 as <-. by vm_compute. }
  destruct (super_table_recovers 1 2 crash_ops s0 (demo_state crash_ops) (cut_files crash_ops 28 17).1 (cut_files crash_ops 28 17).2 true)
    as (_ & s2 & Ho & Hn & Hg & _).
  - lia.
  - exact E0.
  - split; [repeat constructor|done|done].
  - repeat constructor.
  - repeat constructor; discriminate.
  - exact Hr.
  - split; [apply prefix_take|apply prefix_take|vm_compute; discriminate|vm_compute; discriminate].
  - change (S (length (sets crash_ops))) with 5%nat in Ho. exists s2. split; [exact Ho|].
    split; [rewrite Hn; by vm_compute|]. rewrite !Hg. by vm_compute.
Defined.

(** ** Two defects of the reopening *)

Lemma rebuild_stuck fn kl ro kd vd ver num E vlog dn rest i e fuel v r :
  cut kl kd vd ver num E vlog -> E = dn ++ rest -> rest !! i = Some e -> ev e = [] ->
  survivors kl kd vd (length dn) (take i rest) = i -> Forall (fun e => ev e <> []) (take i rest) ->
  keyFileHeaderSize + Z.of_nat (S (length dn + i)) * (kl + 4) <= len kd -> eo e + 4 < len vd ->
  rebuild_loop fuel (opened fn kl ro kd vd v r) (keyFileHeaderSize + len dn * (kl + 4)) (u32 (len dn)) = Err ErrModelFuel.
Proof.
  intros Hc HE Hi He Hsv Hne Hk Hv. revert dn rest i HE Hi Hsv Hne Hk. induction fuel as [|fuel IH]; intros dn rest i HE Hi Hsv Hne Hk; [done|].
  destruct rest as [|x rest]; [done|]. destruct i as [|i].
  - cbn in Hi. injection Hi as ->. change (len dn) with (Z.of_nat (length dn)) at 1.
    apply (rebuild_diverges fn kl ro kd vd ver num E vlog Hc (length dn) e); [|done|by rewrite Nat.add_0_r in Hk|done].
    by rewrite HE, lookup_app_r, Nat.sub_diag by lia.
  - cbn [take survivors] in Hsv, Hne. apply Forall_cons in Hne as [Hx Hne]. cbn in Hi.
    assert (Hx0 : len (ev x) <> 0) by (destruct (ev x); [done|rewrite len_cons; pose proof (len_nonneg l); lia]).
    pose proof (len_nonneg (ev x)).
    destruct (Z.leb_spec (keyFileHeaderSize + Z.of_nat (S (length dn)) * (kl + 4)) (len kd)) as [Hk1|]; [|done]. cbn [andb] in Hsv.
    destruct (Z.leb_spec (eo x + 4 + len (ev x)) (len vd)) as [Hv1|]; [|done]. injection Hsv as Hsv.
    change (len dn) with (Z.of_nat (length dn)) at 1. rewrite (rebuild_entry fn kl ro kd vd ver num E vlog Hc (length dn) x)
      by (by rewrite HE, lookup_app_r, Nat.sub_diag by lia).
    destruct (Z.leb_spec (keyFileHeaderSize + Z.of_nat (length dn) * (kl + 4) + (kl + 4)) (len kd)); [|lia].
    destruct (Z.leb_spec (len vd) (eo x + 4)); [lia|]. destruct (Z.eqb_spec (len (ev x)) 0); [lia|].
    destruct (Z.leb_spec (eo x + 4 + len (ev x)) (len vd)); [|lia].
    assert (Hlen : len (dn ++ [x]) = len dn + 1) by (by rewrite len_app).
    specialize (IH (dn ++ [x]) rest i ltac:(by rewrite <-app_assoc) Hi).
    rewrite length_app, Hlen in IH. cbn [length] in IH. rewrite !Nat.add_1_r in IH.
    replace (u32 (u32 (len dn) + 1)) with (u32 (len dn + 1)) by (unfold u32; by rewrite Zplus_mod_idemp_l).
    replace (keyFileHeaderSize + Z.of_nat (length dn) * (kl + 4) + (kl + 4)) with (keyFileHeaderSize + (len dn + 1) * (kl + 4)) by (unfold len; lia).
    apply IH; [done|done|]. by rewrite Nat.add_succ_r in Hk.
Qed.

(** C36: opening may run for ever after a crash between the flush of an entry with
    an empty value, which is how a deleted key is stored, and the rewriting of
    the header.  Take any table written by sets and flushes and any cut of its
    two files such that the key file does not have the size its header says, so
    that the entries are counted again.  Let entry [i] be the first with an empty
    value; let all entries before it be whole in both files, its own key entry be
    whole, and at least one byte of a later entry follow its four bytes in the
    value file (without such a byte the loop is left and opening returns).  Then
    opening uses up any number of turns of the rebuild loop. *)
Theorem open_never_returns fn kl ops s0 s kd vd ro i k :
  0 <= kl -> newSuperTable fn kl [] [] = Ok s0 -> fits kl (sets ops) -> run ops s0 = Ok s -> crash_image kl ops s kd vd ->
  len kd <> keyFileHeaderSize + len (abs ops).1 * (kl + 4) ->
  sets ops !! i = Some (k, []) -> survivors kl kd vd 0 (ents 0 (take i (sets ops))) = i ->
  Forall (fun x => x.2 <> []) (take i (sets ops)) ->
  keyFileHeaderSize + Z.of_nat (S i) * (kl + 4) <= len kd -> vsize (take i (sets ops)) + 4 < len vd ->
  forall fuel, openSuperTable fuel fn kl ro kd vd = Err ErrModelFuel.
Proof.
  intros Hkl H0 Hf Hr Hci Hne Hi Hsv Hnz Hk Hv fuel. destruct (crash_cut _ _ _ _ _ _ _ Hkl H0 Hf Hr Hci) as (Hc & Hk4 & Hv4).
  rewrite (open_header fn kl ro _ _ _ _ _ _ Hc). change (u32 keyFileVersion) with keyFileVersion. cbn zeta.
  destruct (Z.eqb_spec (keyFileHeaderSize + len (abs ops).1 * (kl + 4)) (len kd)); [lia|].
  set (E := ents 0 (sets ops)) in *.
  assert (HE : E = ents 0 (take i (sets ops)) ++ mkEnt k (vsize (take i (sets ops))) [] :: ents (vsize (take i (sets ops)) + 4) (drop (S i) (sets ops))).
  { unfold E. rewrite <-(take_drop_middle _ _ _ Hi) at 1. rewrite ents_app. cbn [ents fst snd]. change (len (@nil Z)) with 0. by rewrite !Z.add_0_l, Z.add_0_r. }
  assert (Hil : length (take i (sets ops)) = i) by (apply length_take_le; apply lookup_lt_Some in Hi; lia).
  assert (Htk : take i E = ents 0 (take i (sets ops))) by (rewrite HE, take_app_length'; [done|by rewrite length_ents]).
  pose proof (rebuild_stuck fn kl ro kd vd keyFileVersion _ E _ [] E i (mkEnt k (vsize (take i (sets ops))) []) fuel keyFileVersion 0 Hc eq_refl) as Hst.
  change (len (@nil ent)) with 0 in Hst. change (keyFileHeaderSize + 0 * (kl + 4)) with keyFileHeaderSize in Hst. change (u32 0) with 0 in Hst.
  rewrite Hst; [done| |done|by rewrite Htk| |done|done].
  - rewrite HE, lookup_app_r by (rewrite length_ents; lia). by rewrite length_ents, Hil, Nat.sub_diag.
  - rewrite Htk. clear -Hnz. generalize 0 as o. induction Hnz; intros o; cbn [ents]; by constructor.
Qed.

Definition delete_ops : list op := [OpSet [0; 1] [10; 11]; OpFinish; OpSet [0; 2] []; OpSet [0; 3] [7]].

Lemma open_never_returns_witness :
  openSuperTable 1000 1 2 false (cut_files delete_ops 26 15).1 (cut_files delete_ops 26 15).2 = Err ErrModelFuel.
Proof.
  destruct (newSuperTable 1 2 [] []) as [s0| |] eqn:E0; [|vm_compute in E0; discriminate E0..].
  assert (Hr : run delete_ops s0 = Ok (demo_state delete_ops)).
  { unfold demo_state. rewrite E0. cbn [rbind]. vm_compute in E0. injection E0 as <-. by vm_compute. }
  refine (open_never_returns 1 2 delete_ops s0 (demo_state delete_ops) _ _ false 1 [0; 2] _ _ _ _ _ _ _ _ _ _ _ 1000%nat).
  - lia.
  - exact E0.
  - split; [repeat constructor|done|done].
  - exact Hr.
  - split; [apply prefix_take|apply prefix_take|vm_compute; discriminate|vm_compute; discriminate].
  - vm_compute. discriminate.
  - reflexivity.
  - vm_compute. reflexivity.
  - repeat constructor; discriminate.
  - vm_compute. discriminate.
  - vm_compute. reflexivity.
Defined.

(** A table opened after a crash in the middle of a key entry appends behind
    the torn bytes without removing them: a pair set and finished then is not
    found, although the header counts it. *)
Theorem torn_append_lost :
  let (kd, vd) := cut_files crash_ops 23 17 in
  (let! s2 := openSuperTable 5 1 2 false kd vd in
   let! s3 := run [OpSet [0; 5] [9]; OpFinish] s2 in
   let! old := get s3 [0; 2] in
   let! new := get s3 [0; 5] in
   Ok (keyReadable s2, old, keyReadable s3, new)) = Ok (2, Some [13], 3, None).
Proof. vm_compute. reflexivity. Qed.

(** ** The iterator *)

(** The iterator at position [p] of the first entries [l] of its table. *)
Definition st_at (c : cursor) (l : list entry) (p : Z) : Prop :=
  exists es, reads c.1 es /\ sorted es /\ l = item <$> es /\ keyNum c.2 = len es /\ (0 <= p < len l -> keyPos c.2 = p).

Lemma findItem_spec s i es p :
  reads s es -> keyNum i = len es -> findItem s (with_pos i p) = lookupZ (item <$> es) p.
Proof.
  intros Hr Hn. unfold findItem. cbn [with_pos keyPos keyNum]. rewrite Hn, lookupZ_fmap. unfold lookupZ.
  destruct (Z.ltb_spec p 0) as [|H0]; cbn [orb]; [done|]. destruct (Z.leb_spec (len es) p) as [Hge|Hlt].
  - rewrite lookup_ge_None_2; [done|]. unfold len in Hge. lia.
  - destruct (pos_lookup es p) as (e & He & Ep); [lia|]. rewrite He. cbn [fmap option_fmap option_map].
    rewrite Ep, (readKVByPos_spec s es Hr _ _ He). unfold item. do 2 f_equal.
    rewrite (getValue_spec s es Hr _ _ He). by destruct (decide (ev e = [])) as [->|].
Qed.

Lemma at_pos_spec c es p :
  reads c.1 es -> sorted es -> keyNum c.2 = len es ->
  exists c', at_pos c p = Ok (c', lookupZ (item <$> es) p) /\ st_at c' (item <$> es) p /\ keyPos c'.2 = p /\ c'.1 = c.1 /\ keyNum c'.2 = len es.
Proof.
  intros Hr Hs Hn. unfold at_pos. rewrite (findItem_spec _ _ es p Hr Hn). eexists. split; [done|].
  split; [|done]. by exists es.
Qed.

Lemma len_items es : len (item <$> es) = len es.
Proof. unfold len. by rewrite length_fmap. Qed.

Lemma findKeyIndexPos_spec s i es k :
  reads s es -> sorted es -> keyNum i = len es ->
  findKeyIndexPos s i k = Ok (if len es =? 0 then -1 else list_seek bytes_compare k (item <$> es)).
Proof.
  intros Hr Hs Hn. unfold findKeyIndexPos. rewrite Hn. destruct (len es =? 0); [done|]. by apply search_ge.
Qed.

#[export] Instance stOps_cursor : CursorLaws bytes_compare None None stOps st_at.
Proof.
  split; intros c l p.
  - intros k (es & Hr & Hs & -> & Hn & Hp) _. cbn. unfold siSeekGE. rewrite (findKeyIndexPos_spec _ _ es k Hr Hs Hn). cbn [rbind].
    destruct (Z.eqb_spec (len es) 0) as [E|_].
    + assert (es = []) as -> by (destruct es; [done|rewrite len_cons in E; pose proof (len_nonneg es); lia]).
      destruct (at_pos_spec c [] (-1) Hr Hs Hn) as (c' & -> & Hc & _ & E1 & E2). exists c'. split; [done|].
      exists []. rewrite E1. split; [done|]. split; [done|]. split; [done|]. split; [done|]. intros [_ Hl]. vm_compute in Hl. discriminate Hl.
    + destruct (at_pos_spec c es (list_seek bytes_compare k (item <$> es)) Hr Hs Hn) as (c' & -> & Hc & _). by exists c'.
  - intros k (es & Hr & Hs & -> & Hn & Hp) _. cbn. unfold siSeekLT. rewrite (findKeyIndexPos_spec _ _ es k Hr Hs Hn). cbn [rbind].
    pose proof (seek_range es k) as Hsr. destruct (Z.eqb_spec (len es) 0) as [E|_].
    + destruct (at_pos_spec c es (-1) Hr Hs Hn) as (c' & -> & Hc & _ & E1 & E2). cbn [rbind]. unfold siLast. rewrite E2.
      rewrite <-E1 in Hr. destruct (at_pos_spec c' es (len es - 1) Hr Hs E2) as (c2 & E3 & Hc2 & _). change (lookupZ _ (-1)) with (@None entry). cbn [rbind].
      rewrite E3. exists c2. by replace (list_seek bytes_compare k (item <$> es) - 1) with (len es - 1) by lia.
    + set (q := list_seek bytes_compare k (item <$> es)) in *.
      destruct (at_pos_spec c es q Hr Hs Hn) as (c' & -> & Hc & Eq & E1 & E2). cbn [rbind]. rewrite <-E1 in Hr.
      destruct (lookupZ (item <$> es) q) eqn:El.
      * unfold siPrev. rewrite Eq. destruct (at_pos_spec c' es (q - 1) Hr Hs E2) as (c2 & -> & Hc2 & _). by exists c2.
      * unfold siLast. rewrite E2. destruct (at_pos_spec c' es (len es - 1) Hr Hs E2) as (c2 & -> & Hc2 & _).
        exists c2. assert (q = len es) as ->; [|done].
        destruct (Z.eq_dec q (len es)); [done|]. destruct (lookupZ_Some (item <$> es) q) as [x Hx]; [rewrite len_items; lia|congruence].
  - intros (es & Hr & Hs & -> & Hn & Hp) _. cbn. unfold siFirst. destruct (at_pos_spec c es 0 Hr Hs Hn) as (c' & -> & Hc & _). by exists c'.
  - intros (es & Hr & Hs & -> & Hn & Hp) _. cbn. unfold siLast. rewrite Hn, len_items.
    destruct (at_pos_spec c es (len es - 1) Hr Hs Hn) as (c' & -> & Hc & _). by exists c'.
  - intros (es & Hr & Hs & -> & Hn & Hp) Hin. cbn. unfold siNext. rewrite (Hp Hin).
    destruct (at_pos_spec c es (p + 1) Hr Hs Hn) as (c' & -> & Hc & _). by exists c'.
  - intros (es & Hr & Hs & -> & Hn & Hp) Hin. cbn. unfold siPrev. rewrite (Hp Hin).
    destruct (at_pos_spec c es (p - 1) Hr Hs Hn) as (c' & -> & Hc & _). by exists c'.
  - done.
Qed.

Lemma reads_take s es n : reads s es -> reads s (take n es).
Proof.
  intros (Hkl & Hst & Hk & Hv & h & post & Hh & E). split; [done|]. split; [done|].
  split; [by apply Forall_take|]. split; [by apply Forall_take|]. exists h, (kbytes (drop n es) ++ post).
  split; [done|]. rewrite E, <-(take_drop n es) at 1. by rewrite kbytes_app, <-app_assoc.
Qed.

Lemma abs_grows ops ops' : (abs ops).1 `prefix_of` (abs (ops ++ ops')).1.
Proof.
  unfold abs. rewrite foldl_app. generalize (foldl abs_step ([], []) ops) as a. induction ops' as [|o ops' IH]; intros a; [done|].
  cbn [foldl]. etransitivity; [|apply IH]. destruct o; cbn; [done|]. by eexists.
Qed.

Lemma run_app ops ops' s s1 s2 : run ops s = Ok s1 -> run ops' s1 = Ok s2 -> run (ops ++ ops') s = Ok s2.
Proof.
  revert s. induction ops as [|o ops IH]; intros s; cbn [run app]; [by intros [= ->]|].
  destruct (step s o); cbn [rbind]; [|discriminate..]. apply IH.
Qed.

Definition kv_item (x : kv) : entry := (InternalKey.MakeInternalSetKey x.1, x.2).

Lemma items_ents o kvs : item <$> ents o kvs = kv_item <$> kvs.
Proof. revert o. induction kvs; intros o; [done|]. cbn [ents]. rewrite !fmap_cons. by rewrite IHkvs. Qed.

(** An iterator made on a table keeps to the pairs that were readable then,
    whatever is set and finished in the table afterwards: a scan yields exactly
    these in order, a seek finds the first at or past its key, and a seek
    backwards the last before it. *)
Theorem st_iter_snapshot fn kl ops ops' s0 s s' lo up k :
  0 <= kl -> newSuperTable fn kl [] [] = Ok s0 -> fits kl (sets (ops ++ ops')) -> kv_sorted (sets (ops ++ ops')) ->
  run ops s0 = Ok s -> run ops' s = Ok s' ->
  let l := kv_item <$> (abs ops).1 in
  let c := (s', newIter s lo up) in
  scan stOps (length l) c = Ok l /\
  (exists c', siSeekGE k c = Ok (c', lookupZ l (list_seek bytes_compare k l))) /\
  (exists c', siSeekLT k c = Ok (c', lookupZ l (list_seek bytes_compare k l - 1))).
Proof.
  intros Hkl H0 Hf Hs Hr Hr' l c. pose proof (run_app _ _ _ _ _ Hr Hr') as Hrr.
  destruct (run_spec fn kl _ s0 Hkl H0 Hf) as (s1 & es & pend & Hr1 & Hi & He & Hl & _). rewrite Hrr in Hr1. injection Hr1 as <-.
  destruct (shown_ents _ _ _ He Hl) as [-> _]. pose proof (inv_reads _ _ _ Hi) as Hrd.
  destruct (abs_grows ops ops') as [more Hm].
  apply (reads_take _ _ (length (abs ops).1)) in Hrd. rewrite Hm, ents_app, take_app_length' in Hrd by (by rewrite length_ents).
  assert (Hsrt : kv_sorted (abs ops).1) by (unfold sets in Hs; rewrite Hm, <-app_assoc in Hs; by eapply kv_sorted_app_l).
  assert (Hn : keyNum (newIter s lo up) = len (ents 0 (abs ops).1)).
  { assert (Hf' : fits kl (sets ops)).
    { assert (Hpre : sets ops `prefix_of` sets (ops ++ ops')).
      { clear. unfold sets, abs. rewrite foldl_app. generalize (foldl abs_step ([], []) ops) as a.
        induction ops' as [|o ops' IH]; intros a; [done|]. cbn [foldl]. etransitivity; [|apply IH].
        destruct o; cbn; [rewrite app_assoc; by eexists|by rewrite app_nil_r]. }
      destruct Hpre as [x Hx]. rewrite Hx in Hf. by eapply fits_app_l. }
    destruct (run_spec fn kl ops s0 Hkl H0 Hf') as (s2 & es2 & pend2 & Hr2 & Hi2 & He2 & Hl2 & _). rewrite Hr in Hr2. injection Hr2 as <-.
    cbn [newIter keyNum]. rewrite (inv_readable _ _ _ Hi2), Hl2. unfold len. by rewrite length_ents. }
  assert (Hat : st_at c l 0).
  { exists (ents 0 (abs ops).1). split; [done|]. split; [by apply ents_sorted|]. split; [by rewrite items_ents|]. split; [done|done]. }
  split; [|split].
  - pose proof (cursor_forward _ _ _ stOps_cursor). by eapply (scan_walks stOps st_at).
  - destruct (cur_seekGE (CursorLaws := stOps_cursor) c l 0 k Hat) as (c' & E & _); [done|by exists c'].
  - destruct (cur_seekLT (CursorLaws := stOps_cursor) c l 0 k Hat) as (c' & E & _); [done|by exists c'].
Qed.

Lemma st_iter_snapshot_witness :
  exists s0 s s', newSuperTable 1 2 [] [] = Ok s0 /\ run crash_ops s0 = Ok s /\ run [OpFinish] s = Ok s' /\
    scan stOps 2 (s', newIter s None None) = Ok (kv_item <$> [([0; 1], [10; 11]); ([0; 2], [13])]).
Proof.
  destruct (newSuperTable 1 2 [] []) as [s0| |] eqn:E0; [|vm_compute in E0; discriminate E0..].
  assert (Hr : run crash_ops s0 = Ok (demo_state crash_ops)).
  { unfold demo_state. rewrite E0. cbn [rbind]. vm_compute in E0. injection E0 as <-. by vm_compute. }
  exists s0, (demo_state crash_ops), (flushFinish (demo_state crash_ops)).
  split; [reflexivity|]. split; [exact Hr|]. split; [reflexivity|].
  destruct (st_iter_snapshot 1 2 crash_ops [OpFinish] s0 (demo_state crash_ops) (flushFinish (demo_state crash_ops)) None None [])
    as (Hsc & _).
  - lia.
  - exact E0.
  - split; [repeat constructor|done|done].
  - repeat constructor.
  - exact Hr.
  - reflexivity.
  - exact Hsc.
Defined.
