(* ===== verification/Bitree.v ===== *)
(** The bitree (bitree/bitree.go, bitree/bdb.go, bitree/flusher.go): an index
    from the greatest key of each super table to the table's file number, and the
    super tables themselves, of which the last is written to.

    The index is reached through the interface [Index]: what a committed
    transaction of the embedded database bdb leaves.  [IndexLaws] is the contract
    the bitree relies on, and [listIndex] an index that satisfies it.  Readers
    use the transaction pool's snapshot ([pool]).  A [superTable] object is shared
    by [stMap], [stMutable] and iterators, so they hold file numbers and the
    objects are in [tables].  When bdb releases pages it calls back with the file
    numbers found on them; which ones is an argument ([freed]) of every operation
    that begins a write transaction. *)

From Stdlib Require Import ZArith Lia.
From stdpp Require Import base numbers option sorting list gmap.
From S2P Require Import Prelude Base Iter Table Meta SuperTable.
Import SuperTable.

Module Bitree.

(** [base.EncodeFileNum], [base.DecodeFileNum]: 32 bits, big-endian; decoding a
    shorter value panics. *)
Definition EncodeFileNum (fn : Z) : bytes := be_put 4 (u32 fn).

Definition DecodeFileNum (b : bytes) : outcome Z := if len b <? 4 then Panic else Ok (be_get (take 4 b)).

Definition BdbMaxKey : bytes := [255; 255; 255; 255].

(** ** The index *)

Class Index (B : Type) : Type := {
  ix_list : B -> list kv;                       (* the committed pairs, in key order *)
  ix_put : list kv -> B -> outcome B;           (* one transaction of Put calls *)
  ix_del : list bytes -> B -> outcome B         (* one transaction of Delete calls *)
}.

Definition key_lt (a b : kv) : Prop := bytes_compare a.1 b.1 < 0.

(** A pair put into an ordered list. *)
Fixpoint list_put (x : kv) (l : list kv) : list kv :=
  match l with
  | [] => [x]
  | y :: l' =>
      if bytes_compare x.1 y.1 <? 0 then x :: l
      else if bytes_compare x.1 y.1 =? 0 then x :: l'
      else y :: list_put x l'
  end.

Definition list_del (k : bytes) (l : list kv) : list kv := filter (fun y => y.1 <> k) l.

(** What [bucket.Put] accepts: a key that is neither empty nor too long. *)
Definition putable (k : bytes) : Prop := 0 < len k <= 32768.

Class IndexLaws {B : Type} (I : Index B) (wf : B -> Prop) : Prop := {
  ix_sorted : forall b, wf b -> StronglySorted key_lt (ix_list b);
  ix_put_spec : forall kvs b, wf b -> Forall (fun x => putable x.1) kvs ->
    exists b', ix_put kvs b = Ok b' /\ wf b' /\ ix_list b' = foldl (fun l x => list_put x l) (ix_list b) kvs;
  ix_del_spec : forall ks b, wf b ->
    exists b', ix_del ks b = Ok b' /\ wf b' /\ ix_list b' = foldl (fun l k => list_del k l) (ix_list b) ks
}.

(** [Cursor.Seek]: the first pair at or past [k]. *)
Fixpoint ix_seek (k : bytes) (l : list kv) : option kv :=
  match l with
  | [] => None
  | x :: l' => if bytes_compare x.1 k <? 0 then ix_seek k l' else Some x
  end.

Section WithIndex.
Context {B : Type} `{!Index B}.

(** ** The bitree *)

Record bitree : Type := mkBT {
  meta : Meta.Bitree.metadata;
  bdb : B;
  pool : list kv;
  tables : gmap Z superTable;
  stMap : gset Z;
  stMutable : option Z;
  maxStSize : Z;
  stKeyLength : Z
}.

Definition with_meta (t : bitree) m :=
  mkBT m (bdb t) (pool t) (tables t) (stMap t) (stMutable t) (maxStSize t) (stKeyLength t).
Definition with_bdb (t : bitree) b :=
  mkBT (meta t) b (pool t) (tables t) (stMap t) (stMutable t) (maxStSize t) (stKeyLength t).
Definition with_pool (t : bitree) l :=
  mkBT (meta t) (bdb t) l (tables t) (stMap t) (stMutable t) (maxStSize t) (stKeyLength t).
Definition with_tables (t : bitree) ts :=
  mkBT (meta t) (bdb t) (pool t) ts (stMap t) (stMutable t) (maxStSize t) (stKeyLength t).
Definition with_stMap (t : bitree) m :=
  mkBT (meta t) (bdb t) (pool t) (tables t) m (stMutable t) (maxStSize t) (stKeyLength t).
Definition with_mutable (t : bitree) f :=
  mkBT (meta t) (bdb t) (pool t) (tables t) (stMap t) f (maxStSize t) (stKeyLength t).

Definition getStMap (t : bitree) (f : Z) : option superTable := if decide (f ∈ stMap t) then tables t !! f else None.

(** A table enters with its object. *)
Definition setStMap (t : bitree) (st : superTable) : bitree :=
  with_stMap (with_tables t (<[fn st := st]> (tables t))) ({[fn st]} ∪ stMap t).

Definition delStMap (t : bitree) (f : Z) : bitree := with_stMap t (stMap t ∖ {[f]}).

Definition checkStFreed (t : bitree) (f : Z) : bool := f <=? Meta.Bitree.getMinUnCompactFileNum (meta t).

(** A closed file answers every read with an error. *)
Definition closed_table (st : superTable) : superTable :=
  with_tbls st (mkStable [] 0 0 [] 0 true) (mkStable [] 0 0 [] 0 true).

Definition freeSuperTable (t : bitree) (f : Z) : bitree :=
  match getStMap t f with
  | None => t
  | Some st => with_tables (delStMap t f) (<[f := closed_table st]> (tables t))
  end.

Definition doStFreed (t : bitree) (fns : list Z) : bitree := foldl freeSuperTable t fns.

(** [db.Begin(true)]: the released pages are searched for tables to free. *)
Definition beginRW (t : bitree) (freed : list Z) : bitree := doStFreed t (filter (fun f => checkStFreed t f = true) freed).

(** [t.bdb.Update] with a body of [Put] or [Delete] calls. *)
Definition updatePut (t : bitree) (freed : list Z) (kvs : list kv) : outcome bitree :=
  let t := beginRW t freed in let! b := ix_put kvs (bdb t) in Ok (with_bdb t b).

Definition updateDelete (t : bitree) (freed : list Z) (ks : list bytes) : outcome bitree :=
  let t := beginRW t freed in let! b := ix_del ks (bdb t) in Ok (with_bdb t b).

Definition bdbSet (t : bitree) (freed : list Z) (key value : bytes) : outcome bitree := updatePut t freed [(key, value)].

Definition bdbDelete (t : bitree) (freed : list Z) (key : bytes) : outcome bitree := updateDelete t freed [key].

(** An empty transaction, then the pool's reader moves to what is committed. *)
Definition bdbUpdate (t : bitree) (freed : list Z) : bitree :=
  let t := beginRW t freed in with_pool t (ix_list (bdb t)).

Definition findBdbKey (key : bytes) (l : list kv) : outcome (option bytes * Z) :=
  match ix_seek key l with
  | None => Ok (None, 0)
  | Some (sk, v) => let! f := DecodeFileNum v in Ok (Some sk, f)
  end.

Definition findKeyFileNum (t : bitree) (key : bytes) : outcome (option bytes * Z) := findBdbKey key (pool t).

(** [None] is not found. *)
Definition Get (t : bitree) (key : bytes) : outcome (option bytes) :=
  let! (_, f) := findKeyFileNum t key in
  if f =? 0 then Ok None
  else
    match getStMap t f with
    | None => Ok None
    | Some st => SuperTable.get st key
    end.

(** A write to a table object. *)
Definition table_set (t : bitree) (f : Z) (key value : bytes) : outcome bitree :=
  match tables t !! f with
  | None => Panic
  | Some st => let! st := SuperTable.set st key value in Ok (with_tables t (<[f := st]> (tables t)))
  end.

Definition Set_ (t : bitree) (key value : bytes) : outcome bitree :=
  match stMutable t with
  | None => Panic
  | Some f => table_set t f key value
  end.

Definition newTable (t : bitree) : outcome (bitree * superTable) :=
  let! (m, newFn) := Meta.Bitree.getNextFileNum (meta t) in
  let t := with_meta t m in
  let! st := newSuperTable newFn (stKeyLength t) [] [] in
  Ok (t, st).

Definition switchBdbKey (t : bitree) (f1 f2 : list Z) (oldKey : bytes) (oldFn newFn : Z) : outcome bitree :=
  let! t := updatePut t f1 [(oldKey, EncodeFileNum oldFn); (BdbMaxKey, EncodeFileNum newFn)] in
  Ok (bdbUpdate t f2).

Definition isBdbMaxKey (key : bytes) : bool := bool_decide (key = BdbMaxKey).

Definition setBdbMaxKey (t : bitree) (f1 f2 : list Z) (fn : Z) : outcome bitree :=
  let! t := updatePut t f1 [(BdbMaxKey, EncodeFileNum fn)] in
  Ok (bdbUpdate t f2).

Definition deleteBdbKeys (t : bitree) (f1 f2 : list Z) (keys : list bytes) : outcome bitree :=
  let! t := updateDelete t f1 keys in
  Ok (bdbUpdate t f2).

Definition makeRoomForWrite (t : bitree) (f1 f2 : list Z) (maxKey : bytes) : outcome bitree :=
  let! (t, st) := newTable t in
  match stMutable t with
  | None => Panic
  | Some oldFn =>
      let! t := switchBdbKey t f1 f2 maxKey oldFn (fn st) in
      Ok (with_mutable (setStMap t st) (Some (fn st)))
  end.

(** ** The flusher *)

Record Flusher : Type := mkFlusher { fst_ : option Z; lastKey : option bytes }.

Definition NewFlusher (t : bitree) : Flusher := mkFlusher (stMutable t) None.

Definition flusherSet (t : bitree) (f : Flusher) (key value : bytes) : outcome (bitree * Flusher) :=
  match fst_ f with
  | None => Panic
  | Some g => let! t := table_set t g key value in Ok (t, mkFlusher (fst_ f) (Some key))
  end.

Definition Finish (t : bitree) (f1 f2 : list Z) (f : Flusher) : outcome (bitree * Flusher) :=
  match fst_ f with
  | None => Panic
  | Some g =>
      match tables t !! g with
      | None => Panic
      | Some st =>
          let st := flushFinish st in
          let t := with_tables t (<[g := st]> (tables t)) in
          if inuseBytes st <? maxStSize t then Ok (t, f)
          else
            let! t := makeRoomForWrite t f1 f2 (default [] (lastKey f)) in
            Ok (t, mkFlusher None None)
      end
  end.

(** The calls of a flush: [NewFlusher], a [Set] per pair, [Finish]. *)
Fixpoint flush_sets (t : bitree) (f : Flusher) (kvs : list kv) : outcome (bitree * Flusher) :=
  match kvs with
  | [] => Ok (t, f)
  | x :: kvs' => let! (t, f) := flusherSet t f x.1 x.2 in flush_sets t f kvs'
  end.

Definition flush (t : bitree) (f1 f2 : list Z) (kvs : list kv) : outcome bitree :=
  let! (t, f) := flush_sets t (NewFlusher t) kvs in
  let! (t, _) := Finish t f1 f2 f in
  Ok t.

(** ** Opening *)

Inductive stFileType : Type := FileTypeSuperTable | FileTypeSuperTableIndex.

(** The directory: the key and the value files by number. *)
Record dir : Type := mkDir { kfiles : gmap Z bytes; vfiles : gmap Z bytes }.

Definition dir_has (d : dir) (f : Z) : bool := bool_decide (is_Some (kfiles d !! f)) || bool_decide (is_Some (vfiles d !! f)).

(** The loop over the index: tables below the mark and tables without a file
    are collected for deletion, the others opened; the one under the greatest
    key is writable. *)
Fixpoint open_loop (fuel : nat) (t : bitree) (d : dir) (l : list kv) (dels : list bytes) : outcome (bitree * list bytes) :=
  match l with
  | [] => Ok (t, dels)
  | (ik, iv) :: l' =>
      let! f := DecodeFileNum iv in
      if dir_has d f && checkStFreed t f then open_loop fuel t d l' (dels ++ [ik])
      else if negb (dir_has d f) then open_loop fuel t d l' (dels ++ [ik])
      else
        let ro := negb (isBdbMaxKey ik) in
        let! st := openSuperTable fuel f (stKeyLength t) ro (default [] (kfiles d !! f)) (default [] (vfiles d !! f)) in
        let t := setStMap t st in
        let t := if ro then t else with_mutable t (Some f) in
        open_loop fuel t d l' dels
  end.

Definition openSuperTables (fuel : nat) (t : bitree) (f1 f2 f3 f4 : list Z) (d : dir) : outcome bitree :=
  let! (t, deleteKeys) := open_loop fuel t d (pool t) [] in
  let! t := (match deleteKeys with [] => Ok t | _ => deleteBdbKeys t f1 f2 deleteKeys end) in
  match stMutable t with
  | Some _ => Ok t
  | None =>
      let! (t, st) := newTable t in
      let t := setStMap t st in
      let! t := setBdbMaxKey t f3 f4 (fn st) in
      Ok (with_mutable t (Some (fn st)))
  end.

Definition OpenBitree (fuel : nat) (mf : option Table.file) (b : B) (f1 f2 f3 f4 : list Z) (d : dir)
    (maxSt keyLen : Z) : outcome bitree :=
  let! m := Meta.Bitree.openMetadata mf in
  openSuperTables fuel (mkBT m b (ix_list b) ∅ ∅ None maxSt keyLen) f1 f2 f3 f4 d.

(** ** Compaction: dropping whole tables *)

(** The pairs before [upperKey], and the greatest file number among them. *)
Fixpoint compact_loop (l : list kv) (upperKey : bytes) (dels : list bytes) (to : Z) : outcome (list bytes * Z) :=
  match l with
  | [] => Ok (dels, to)
  | (ik, iv) :: l' =>
      if 0 <=? bytes_compare ik upperKey then Ok (dels, to)
      else let! f := DecodeFileNum iv in compact_loop l' upperKey (dels ++ [ik]) (Z.max to f)
  end.

(** An error of the last transaction is only logged. *)
Definition CompactTo (t : bitree) (f1 f2 : list Z) (key : bytes) : outcome bitree :=
  match ix_seek key (pool t) with
  | None => Ok t
  | Some (upperKey, _) =>
      let! (deleteKeys, compactToFn) := compact_loop (pool t) upperKey [] 0 in
      match deleteKeys with
      | [] => Ok t
      | _ =>
          let! m := Meta.Bitree.setMinUnCompactFileNum (meta t) compactToFn in
          let t := with_meta t m in
          match deleteBdbKeys t f1 f2 deleteKeys with
          | Err _ => Ok (beginRW t f1)
          | r => r
          end
      end
  end.

End WithIndex.

(** ** An index *)

#[export] Instance listIndex : Index (list kv) := {
  ix_list l := l;
  ix_put kvs l := if forallb (fun x => (0 <? len x.1) && (len x.1 <=? 32768)) kvs then Ok (foldl (fun l x => list_put x l) l kvs) else Err ErrSys;
  ix_del ks l := Ok (foldl (fun l k => list_del k l) l ks)
}.

Lemma list_put_lower k x l : bytes_compare k x.1 < 0 -> Forall (fun y => bytes_compare k y.1 < 0) l ->
  Forall (fun y => bytes_compare k y.1 < 0) (list_put x l).
Proof.
  intros Hx. induction 1 as [|y l Hy Hl IH]; cbn [list_put]; [by repeat constructor|].
  destruct (_ <? 0); [by repeat constructor|]. destruct (_ =? 0); by repeat constructor.
Qed.

Lemma list_put_sorted x l : StronglySorted key_lt l -> StronglySorted key_lt (list_put x l).
Proof.
  induction 1 as [|y l Hs IH Hy]; cbn [list_put]; [repeat constructor|].
  destruct (Z.ltb_spec (bytes_compare x.1 y.1) 0) as [Hlt|Hge].
  - constructor; [by constructor|]. constructor; [done|]. eapply Forall_impl; [done|]. intros z Hz. unfold key_lt in *.
    by eapply (cmp_trans (cmp := bytes_compare)).
  - destruct (Z.eqb_spec (bytes_compare x.1 y.1) 0) as [E|Hne].
    + apply (cmp_eq (cmp := bytes_compare)) in E. constructor; [done|]. unfold key_lt in *. by rewrite E.
    + constructor; [done|]. apply list_put_lower; [|done]. apply (cmp_gt_lt bytes_compare). lia.
Qed.

Lemma list_del_sorted k l : StronglySorted key_lt l -> StronglySorted key_lt (list_del k l).
Proof.
  unfold list_del. induction 1 as [|y l Hs IH Hy]; [constructor|]. rewrite filter_cons. destruct (decide (y.1 <> k)); [|done].
  constructor; [done|]. rewrite Forall_forall in Hy |- *. intros z [_ Hz]%list_elem_of_filter. by apply Hy.
Qed.

#[export] Instance listIndex_laws : IndexLaws listIndex (StronglySorted key_lt).
Proof.
  split.
  - done.
  - intros kvs b Hb Hp. cbn. assert (forallb (fun x : kv => (0 <? len x.1) && (len x.1 <=? 32768)) kvs = true) as ->.
    { apply forallb_forall. intros x Hx%list_elem_of_In. rewrite Forall_forall in Hp. destruct (Hp x Hx).
      bdestruct_all; (done || lia). }
    eexists. split; [done|]. split; [|done]. clear Hp. revert b Hb.
    induction kvs as [|x kvs IH]; intros b Hb; [done|]. cbn [foldl]. apply IH. by apply list_put_sorted.
  - intros ks b Hb. eexists. split; [done|]. split; [|done]. revert b Hb.
    induction ks as [|x ks IH]; intros b Hb; [done|]. cbn [foldl]. apply IH. by apply list_del_sorted.
Qed.

End Bitree.
