(* ===== verification/BitreeSpec.v ===== *)
(** What the bitree promises: under any sequence of flushes, compactions and
    reopenings it answers for every pair flushed to it, except that a compaction
    may drop tables all of whose keys are before its key. *)

From Stdlib Require Import ZArith Lia.
From stdpp Require Import base numbers option sorting list gmap.
From S2P Require Import Prelude Base Iter Table Meta SuperTable SuperTableSpec Bitree.
Import SuperTable Bitree.

(** ** Finished tables *)

(** A table all of whose entries are finished and on disk. *)
Record sealed (kl : Z) (st : superTable) (es : list ent) : Prop := mkSealed {
  sl_kl : keyLength st = kl;
  sl_kl0 : 0 <= kl;
  sl_step : keyStep st = kl + 4;
  sl_readable : keyReadable st = len es;
  sl_keys : content (keyTbl st) = (be_put 4 keyFileVersion ++ be_put 4 (len es)) ++ kbytes es;
  sl_klen : Forall (fun e => len (ek e) = kl) es;
  sl_vals : Forall (in_vals (content (valueTbl st))) es;
  sl_close : close st = (content (keyTbl st), content (valueTbl st));
  sl_count : len es < 4294967296
}.

Lemma sealed_reads kl st es : sealed kl st es -> reads st es.
Proof.
  intros [Hkl H0 Hst Hr Hk Hl Hv Hc Hn]. unfold reads. rewrite Hkl. split; [done|]. split; [done|]. split; [done|]. split; [done|].
  eexists _, []. rewrite app_nil_r. split; [|exact Hk]. by rewrite length_app, !length_be_put.
Qed.

Lemma sealed_get kl st es k : sealed kl st es -> sorted es -> SuperTable.get st k = Ok (es_get es k).
Proof. intros H Hs. apply get_spec; [by eapply sealed_reads|done|apply H]. Qed.

(** A writable table without unfinished entries. *)
Record writable (kl : Z) (st : superTable) (es : list ent) : Prop := mkWritable {
  wr_inv : inv st es [];
  wr_kl : keyLength st = kl;
  wr_ver : version st = keyFileVersion;
  wr_kbuf : wbuf (keyTbl st) = [];
  wr_vbuf : wbuf (valueTbl st) = []
}.

Lemma sealed_reopen kl st es fuel f ro :
  sealed kl st es ->
  exists st', openSuperTable fuel f kl ro (content (keyTbl st)) (content (valueTbl st)) = Ok st' /\
    sealed kl st' es /\ fn st' = f /\ content (keyTbl st') = content (keyTbl st) /\ content (valueTbl st') = content (valueTbl st) /\
    (ro = false -> len (content (keyTbl st)) < 4294967296 -> len (content (valueTbl st)) < 4294967296 -> writable kl st' es).
Proof.
  intros [Hkl H0 Hst Hr Hk Hl Hv Hc Hn]. pose proof (len_kbytes kl es Hl) as Hb. pose proof (len_nonneg es).
  assert (Hlen : len (content (keyTbl st)) = keyFileHeaderSize + len es * (kl + 4)).
  { rewrite Hk, !len_app, !len_be4, Hb. unfold keyFileHeaderSize. lia. }
  assert (Hcut : cut kl (content (keyTbl st)) (content (valueTbl st)) keyFileVersion (len es) es (content (valueTbl st))).
  { split; try done; [by rewrite Hk|rewrite Hlen; nia]. }
  rewrite (open_header f kl ro _ _ _ _ _ _ Hcut). change (u32 keyFileVersion) with keyFileVersion. cbn zeta.
  rewrite <-Hlen, Z.eqb_refl. eexists. split; [done|].
  assert (Hre : opened f kl ro (content (keyTbl st)) (content (valueTbl st)) keyFileVersion (len es) =
    reopened f kl ro (content (keyTbl st)) (content (valueTbl st)) (len es) (len es)) by (unfold reopened; by rewrite Z.eqb_refl).
  split; [split; try done|].
  { destruct ro; [done|]. unfold close, st_close, fdatasync. cbn. unfold bufFlush, fwrite, set_wbuf. cbn [content fpos wbuf].
    by rewrite !file_write_end, !app_nil_r. }
  split; [done|]. split; [done|]. split; [done|]. intros -> Hb1 Hb2. split; [|done|done|done|done].
  pose proof (reopened_inv f kl false _ _ _ es _ Hcut (length es) eq_refl) as Hx. rewrite take_ge in Hx by lia.
  rewrite Hre. by apply Hx.
Qed.

Lemma writable_sealed kl st es : writable kl st es -> sealed kl st es.
Proof.
  intros [Hi Hkl Hv Hkb Hvb]. pose proof Hi as [I1 I2 I3 I4 I5 I6 I7 I8 I9 I10 I11 I12 I13]. rewrite app_nil_r in *.
  unfold logical in *. rewrite Hkb, app_nil_r in *. rewrite Hvb, app_nil_r in *.
  split; try done; [by rewrite <-Hkl|by rewrite <-Hkl|unfold header in I5; by rewrite Hv in I5|by rewrite <-Hkl| |].
  - unfold close, st_close. destruct (fdatasync_spec _ I3) as (_ & -> & _). destruct (fdatasync_spec _ I4) as (_ & -> & _).
    unfold logical. by rewrite Hkb, Hvb, !app_nil_r.
  - pose proof (inv_len _ _ _ Hi) as Hlen. unfold logical in Hlen. rewrite Hkb, app_nil_r, len_nil in Hlen.
    pose proof (len_nonneg es). unfold keyFileHeaderSize in Hlen. nia.
Qed.

(** ** Ordered lists of entries *)

Lemma sorted_app_1 a b : sorted (a ++ b) -> sorted a.
Proof. unfold sorted. intros H. by apply StronglySorted_app_1_l in H. Qed.

Lemma es_get_app a b k : es_get (a ++ b) k = if decide (k ∈ ek <$> a) then es_get a k else es_get b k.
Proof.
  induction a as [|e a IH]; cbn [app es_get]; [done|]. rewrite fmap_cons. destruct (decide (ek e = k)) as [->|Hne].
  - destruct (decide (k ∈ k :: (ek <$> a))) as [|Hn]; [done|]. destruct Hn. left.
  - rewrite IH. destruct (decide (k ∈ ek <$> a)) as [Hin|Hnin]; [rewrite decide_True; [done|by right]|].
    rewrite decide_False; [done|]. intros [?|?]%elem_of_cons; congruence.
Qed.

(** ** The invariant *)

(** A finished table in the index: its greatest key, its number, its entries. *)
Record group : Type := mkGroup { gkey : bytes; gfn : Z; ges : list ent }.

Definition ix_of (gs : list group) (fm : Z) : list kv :=
  ((fun g => (gkey g, EncodeFileNum (gfn g))) <$> gs) ++ [(BdbMaxKey, EncodeFileNum fm)].

Definition entries (gs : list group) : list ent := concat (ges <$> gs).

Definition kvof (e : ent) : kv := (ek e, ev e).

Section Invariant.
Context {B : Type} {I : Index B} {ixwf : B -> Prop} `{!IndexLaws I ixwf}.
Implicit Types t : bitree (B := B).

Definition table_at t (f : Z) (st : superTable) : Prop := f ∈ stMap t /\ tables t !! f = Some st /\ fn st = f.

Definition minFn t : Z := Meta.Bitree.minUnCompactFileNum (meta t).

Record binv t (gs : list group) (fm : Z) (es : list ent) : Prop := mkBinv {
  bi_meta : Meta.Bitree.wf (meta t);
  bi_ix : ixwf (bdb t);
  bi_list : ix_list (bdb t) = ix_of gs fm;
  bi_pool : pool t = ix_of gs fm;
  bi_mut : stMutable t = Some fm;
  bi_kl : 0 < stKeyLength t <= 32768;
  bi_tbl : Forall (fun g => exists st, table_at t (gfn g) st /\ sealed (stKeyLength t) st (ges g)) gs;
  bi_mtbl : exists st, table_at t fm st /\ writable (stKeyLength t) st es /\ offset (valueTbl st) = vsize (kvof <$> es);
  bi_sorted : sorted (entries gs ++ es);
  bi_last : Forall (fun g => exists e, last (ges g) = Some e /\ ek e = gkey g) gs;
  bi_below : Forall (fun e => bytes_compare (ek e) BdbMaxKey < 0) (entries gs ++ es);
  bi_fns : StronglySorted Z.lt (minFn t :: (gfn <$> gs) ++ [fm]);
  bi_next : fm < Meta.Bitree.nextFileNum (meta t) <= 4294967296;
  bi_min : 0 <= minFn t;
  bi_max : 8 < maxStSize t
}.

(** The writable table is below the size at which it is switched. *)
Definition roomy t (fm : Z) : Prop := exists st, tables t !! fm = Some st /\ inuseBytes st < maxStSize t.

Lemma entries_cons g gs : entries (g :: gs) = ges g ++ entries gs.
Proof. done. Qed.

Lemma entries_app gs gs' : entries (gs ++ gs') = entries gs ++ entries gs'.
Proof. unfold entries. by rewrite fmap_app, concat_app. Qed.

(** The last key of an ordered list is its greatest. *)
Lemma es_sorted_last l e x : sorted l -> last l = Some e -> x ∈ l -> bytes_compare (ek x) (ek e) <= 0.
Proof.
  intros Hs Hl Hx. apply last_Some in Hl as [l' ->]. apply elem_of_app in Hx as [Hx|Hx%list_elem_of_singleton].
  - pose proof (StronglySorted_app_1_elem_of _ _ _ x e Hs Hx ltac:(left)) as Hlt. cbv beta in Hlt. lia.
  - subst. by rewrite (cmp_refl bytes_compare).
Qed.

Lemma es_get_absent l k : (forall e, e ∈ l -> ek e <> k) -> es_get l k = None.
Proof. intros H. apply es_get_None, Forall_forall, H. Qed.

Lemma group_fm gs fm f0 : StronglySorted Z.lt (f0 :: (gfn <$> gs) ++ [fm]) -> f0 < fm /\ Forall (fun g => f0 < gfn g < fm) gs.
Proof.
  intros H. apply StronglySorted_inv in H as [Hs Hf]. apply Forall_app in Hf as [Hf Hm]. apply Forall_inv in Hm.
  split; [done|]. apply Forall_forall. intros g Hg.
  assert (Hg' : gfn g ∈ gfn <$> gs) by (by apply list_elem_of_fmap_2).
  rewrite Forall_forall in Hf. split; [by apply Hf|]. by apply (StronglySorted_app_1_elem_of _ _ _ _ fm Hs Hg'); left.
Qed.

Lemma DecodeEncode f : 0 <= f < 4294967296 -> DecodeFileNum (EncodeFileNum f) = Ok f.
Proof.
  intros Hf. unfold DecodeFileNum, EncodeFileNum. rewrite len_be4. cbn [Z.ltb Z.compare Pos.compare Pos.compare_cont].
  rewrite take_ge by (by rewrite length_be_put). rewrite be_get_put_small, u32_small; [done|done|]. rewrite u32_small; lia.
Qed.

(** The index leads to the only table that may hold the key. *)
Lemma seek_groups k gs fm es :
  sorted (entries gs ++ es) -> Forall (fun g => exists e, last (ges g) = Some e /\ ek e = gkey g) gs ->
  bytes_compare k BdbMaxKey <= 0 ->
  (exists gs1 g gs2, gs = gs1 ++ g :: gs2 /\ ix_seek k (ix_of gs fm) = Some (gkey g, EncodeFileNum (gfn g)) /\
     es_get (entries gs ++ es) k = es_get (ges g) k /\ Forall (fun g => bytes_compare (gkey g) k < 0) gs1 /\ 0 <= bytes_compare (gkey g) k) \/
  (ix_seek k (ix_of gs fm) = Some (BdbMaxKey, EncodeFileNum fm) /\ es_get (entries gs ++ es) k = es_get es k /\
     Forall (fun g => bytes_compare (gkey g) k < 0) gs).
Proof.
  intros Hs Hl Hk. induction Hl as [|g gs (e & He & Hek) Hl IH].
  - right. unfold ix_of. cbn [fmap list_fmap app ix_seek fst].
    destruct (Z.ltb_spec (bytes_compare BdbMaxKey k) 0) as [Hlt|]; [apply (cmp_sym (cmp := bytes_compare)) in Hlt; lia|].
    split; [done|]. split; [done|constructor].
  - rewrite entries_cons, <-app_assoc in *. unfold ix_of in *. rewrite fmap_cons. cbn [app ix_seek fst].
    pose proof (StronglySorted_app_1_l _ _ _ Hs) as Hsg. pose proof (StronglySorted_app_1_r _ _ _ Hs) as Hsr.
    rewrite es_get_app. destruct (Z.ltb_spec (bytes_compare (gkey g) k) 0) as [Hlt|Hge].
    + rewrite decide_False.
      2: { intros (x & -> & Hx)%list_elem_of_fmap_1. pose proof (es_sorted_last _ _ _ Hsg He Hx). rewrite Hek in *.
           apply (cmp_gt_lt bytes_compare) in Hlt. lia. }
      destruct (IH Hsr) as [(gs1 & g' & gs2 & -> & E1 & E2 & E3 & E4)|(E1 & E2 & E3)].
      * left. exists (g :: gs1), g', gs2. split; [done|]. split; [done|]. split; [done|]. split; [by constructor|done].
      * right. split; [done|]. split; [done|]. by constructor.
    + left. exists [], g, gs. split; [done|]. split; [done|]. split; [|split; [constructor|done]].
      destruct (decide (k ∈ ek <$> ges g)) as [|Hnin]; [done|].
      rewrite (es_get_absent (ges g)) by (intros x Hx <-; by apply Hnin, list_elem_of_fmap_2).
      apply es_get_absent. intros x Hx <-.
      assert (Heg : e ∈ ges g) by (apply last_Some in He as [l' ->]; apply elem_of_app; right; by left).
      pose proof (StronglySorted_app_1_elem_of _ _ _ e x Hs Heg Hx) as Hc. cbv beta in Hc. rewrite Hek in Hc. lia.
Qed.

Lemma table_get t f st : table_at t f st -> getStMap t f = Some st.
Proof. intros (H1 & H2 & _). unfold getStMap. by rewrite decide_True. Qed.

Lemma bt_Get_spec t gs fm es k :
  binv t gs fm es -> bytes_compare k BdbMaxKey <= 0 -> Get t k = Ok (es_get (entries gs ++ es) k).
Proof.
  intros H Hk. pose proof (group_fm _ _ _ (bi_fns _ _ _ _ H)) as [Hm Hfs]. pose proof (bi_next _ _ _ _ H) as Hn. pose proof (bi_min _ _ _ _ H).
  unfold Get, findKeyFileNum, findBdbKey. rewrite (bi_pool _ _ _ _ H).
  destruct (seek_groups k gs fm es (bi_sorted _ _ _ _ H) (bi_last _ _ _ _ H) Hk) as [(gs1 & g & gs2 & E & -> & -> & _)|(-> & -> & _)].
  - assert (Hg : g ∈ gs) by (rewrite E; apply elem_of_app; right; by left).
    rewrite Forall_forall in Hfs. specialize (Hfs g Hg). rewrite DecodeEncode by lia. cbn [rbind].
    destruct (Z.eqb_spec (gfn g) 0); [lia|]. pose proof (bi_tbl _ _ _ _ H) as Ht. rewrite Forall_forall in Ht.
    destruct (Ht g Hg) as (st & Hat & Hsl). rewrite (table_get _ _ _ Hat). apply (sealed_get (stKeyLength t)); [done|].
    pose proof (bi_sorted _ _ _ _ H) as Hs. rewrite E, entries_app, entries_cons, <-!app_assoc in Hs.
    by apply StronglySorted_app_1_r, StronglySorted_app_1_l in Hs.
  - rewrite DecodeEncode by lia. cbn [rbind]. destruct (Z.eqb_spec fm 0); [lia|].
    destruct (bi_mtbl _ _ _ _ H) as (st & Hat & Hw & _). rewrite (table_get _ _ _ Hat).
    apply (sealed_get (stKeyLength t)); [by apply writable_sealed|]. by eapply StronglySorted_app_1_r, bi_sorted.
Qed.

(** ** Freed tables are not in use *)

Lemma freeSuperTable_other t f f' st : f' <> f -> table_at t f' st -> table_at (freeSuperTable t f) f' st.
Proof.
  intros Hne (H1 & H2 & H3). unfold freeSuperTable. destruct (getStMap t f); [|done].
  split; [cbn; set_solver|]. split; [|done]. cbn. by rewrite lookup_insert_ne.
Qed.

Definition same_but_tables t t' : Prop :=
  meta t' = meta t /\ bdb t' = bdb t /\ pool t' = pool t /\ stMutable t' = stMutable t /\
  maxStSize t' = maxStSize t /\ stKeyLength t' = stKeyLength t.

Lemma doStFreed_spec t fns :
  same_but_tables t (doStFreed t fns) /\
  forall f st, f ∉ fns -> table_at t f st -> table_at (doStFreed t fns) f st.
Proof.
  revert t. induction fns as [|f fns IH]; intros t; cbn [doStFreed foldl]; [split; [repeat split|done]|].
  destruct (IH (freeSuperTable t f)) as [Hs Ht].
  assert (Hs1 : same_but_tables t (freeSuperTable t f)) by (unfold freeSuperTable; destruct (getStMap t f); repeat split).
  split.
  - destruct Hs as (A1 & A2 & A3 & A4 & A5 & A6), Hs1 as (B1 & B2 & B3 & B4 & B5 & B6). repeat split; etransitivity; eassumption.
  - intros f' st Hn Hat. apply not_elem_of_cons in Hn as [Hne Hn]. apply Ht; [done|]. by apply freeSuperTable_other.
Qed.

Lemma beginRW_spec t freed :
  same_but_tables t (beginRW t freed) /\ forall f st, minFn t < f -> table_at t f st -> table_at (beginRW t freed) f st.
Proof.
  unfold beginRW. destruct (doStFreed_spec t (filter (fun f => checkStFreed t f = true) freed)) as [Hs Ht]. split; [done|].
  intros f st Hlt Hat. apply Ht; [|done]. intros [Hc _]%list_elem_of_filter. unfold checkStFreed, Meta.Bitree.getMinUnCompactFileNum in Hc.
  apply Z.leb_le in Hc. unfold minFn in Hlt. lia.
Qed.

(** The tables of an invariant survive whatever is freed. *)
Lemma tables_kept t t' gs fm es :
  minFn t = minFn t' -> stKeyLength t' = stKeyLength t ->
  (forall f st, minFn t < f -> table_at t f st -> table_at t' f st) -> binv t gs fm es ->
  Forall (fun g => exists st, table_at t' (gfn g) st /\ sealed (stKeyLength t') st (ges g)) gs /\
  (exists st, table_at t' fm st /\ writable (stKeyLength t') st es /\ offset (valueTbl st) = vsize (kvof <$> es)).
Proof.
  intros Hm Hk Hat H. pose proof (group_fm _ _ _ (bi_fns _ _ _ _ H)) as [Hfm Hfs]. rewrite Hk. split.
  - pose proof (bi_tbl _ _ _ _ H) as Ht. rewrite Forall_forall in Ht, Hfs |- *. intros g Hg. destruct (Ht g Hg) as (st & Ha & Hs).
    exists st. split; [|done]. apply Hat; [by apply Hfs|done].
  - destruct (bi_mtbl _ _ _ _ H) as (st & Ha & Hs). exists st. split; [|done]. by apply Hat.
Qed.

(** ** Flushes *)

Lemma set_fn st k v st' : SuperTable.set st k v = Ok st' -> fn st' = fn st.
Proof.
  unfold SuperTable.set. intros (v1 & _ & H)%rbind_Ok. apply rbind_Ok in H as (v2 & _ & H). apply rbind_Ok in H as (k1 & _ & H).
  apply rbind_Ok in H as (k2 & _ & [= <-]). done.
Qed.

(** The sets of a flush write to one table. *)
Lemma flush_sets_spec t f st es pend lk kvs :
  tables t !! f = Some st -> inv st es pend -> Forall (fun x => len x.1 = keyLength st) kvs ->
  offset (keyTbl st) + len kvs * keyStep st < 4294967296 -> offset (valueTbl st) + vsize kvs < 4294967296 ->
  exists st', flush_sets t (mkFlusher (Some f) lk) kvs =
      Ok (with_tables t (if kvs is [] then tables t else <[f := st']> (tables t)),
          mkFlusher (Some f) (if last kvs is Some x then Some x.1 else lk)) /\ (kvs = [] -> st' = st) /\
    inv st' es (pend ++ ents (offset (valueTbl st)) kvs) /\ keyLength st' = keyLength st /\ version st' = version st /\ fn st' = fn st /\
    offset (valueTbl st') = offset (valueTbl st) + vsize kvs.
Proof.
  revert t st pend lk. induction kvs as [|x kvs IH]; intros t st pend lk Ht Hi Hk Hko Hvo; cbn [flush_sets].
  { exists st. rewrite app_nil_r. cbn [vsize]. rewrite Z.add_0_r. split; [by destruct t|done]. }
  apply Forall_cons in Hk as [Hx Hk]. rewrite len_cons in Hko. cbn [vsize] in Hvo. pose proof (vsize_nonneg kvs). pose proof (len_nonneg kvs).
  pose proof (inv_kl _ _ _ Hi). pose proof (inv_step _ _ _ Hi).
  destruct (set_inv st es pend x.1 x.2 Hi Hx) as (st1 & Es & Hi1 & O1 & O2 & K1 & K2 & K3); [nia|lia|].
  unfold flusherSet, table_set. cbn [fst_]. rewrite Ht, Es. cbn [rbind].
  destruct (IH (with_tables t (<[f:=st1]> (tables t))) st1 (pend ++ [mkEnt x.1 (offset (valueTbl st)) x.2]) (Some x.1))
    as (st2 & E2 & Hst & Hi2 & A1 & A2 & A3 & A4); [cbn; by rewrite lookup_insert_eq|done|by rewrite K1|rewrite O1, K2; lia|lia|].
  exists st2. rewrite E2. split; [|split; [done|]].
  - f_equal. f_equal.
    + destruct kvs; [by rewrite Hst|]. unfold with_tables. cbn. by rewrite insert_insert_eq.
    + f_equal. destruct kvs as [|y kvs]; [done|]. rewrite !last_cons_cons. by destruct (last (y :: kvs)) eqn:E; [|by apply last_None in E].
  - cbn [ents vsize]. rewrite O2, <-app_assoc in Hi2. split; [exact Hi2|]. rewrite A1, A2, A3, A4, K1, K3, O2, (set_fn _ _ _ _ Es).
    split; [done|]. split; [done|]. split; [done|lia].
Qed.

Lemma flushFinish_writable st es pend kl :
  inv st es pend -> keyLength st = kl -> version st = keyFileVersion -> writable kl (flushFinish st) (es ++ pend) /\
    inuseBytes (flushFinish st) = inuseBytes st /\ fn (flushFinish st) = fn st /\ offset (valueTbl (flushFinish st)) = offset (valueTbl st).
Proof.
  intros Hi Hk Hv. destruct (flushFinish_inv _ _ _ Hi) as (Hi' & O1 & O2 & K1 & K2 & K3 & W1 & W2).
  split; [split; [done|congruence|congruence|done|done]|]. split; [unfold inuseBytes, st_inuseBytes; by rewrite O1, O2|]. done.
Qed.

(** A new table of the bitree. *)
Lemma newTable_spec t :
  Meta.Bitree.wf (meta t) -> 0 <= stKeyLength t -> Meta.Bitree.nextFileNum (meta t) + 1 < 18446744073709551616 ->
  exists m st, newTable t = Ok (with_meta t m, st) /\ Meta.Bitree.wf m /\
    Meta.Bitree.nextFileNum m = Meta.Bitree.nextFileNum (meta t) + 1 /\
    Meta.Bitree.minUnCompactFileNum m = minFn t /\ fn st = Meta.Bitree.nextFileNum (meta t) /\
    writable (stKeyLength t) st [] /\ inuseBytes st = 8 /\ offset (valueTbl st) = 0.
Proof.
  intros Hw Hkl Hov. unfold newTable, Meta.Bitree.getNextFileNum.
  assert (Hg : exists m, Meta.Bitree.getNextFileNum (meta t) = Ok (m, Meta.Bitree.nextFileNum (meta t)) /\ Meta.Bitree.wf m /\
    Meta.Bitree.nextFileNum m = Meta.Bitree.nextFileNum (meta t) + 1 /\ Meta.Bitree.minUnCompactFileNum m = minFn t).
  { destruct Hw as [Hsz Hmin Hnext Hpos]. unfold Meta.Bitree.getNextFileNum. rewrite u64_small by lia.
    destruct (read_write_same (Meta.Bitree.bfile (meta t)) (Meta.Bitree.nextFileNum (meta t) + 1) Meta.Bitree.fieldOffsetNextFileNum)
      as (f & -> & S & R & O); [lia|rewrite Hsz; done|]. cbn [rbind]. eexists. split; [done|]. split; [|done].
    split; cbn; [congruence|rewrite O by (left; done); done|by left|lia]. }
  destruct Hg as (m & Eg & Hwm & Hn & Hmin). unfold Meta.Bitree.getNextFileNum in Eg. rewrite Eg. cbn [rbind with_meta stKeyLength].
  destruct (fresh_inv (Meta.Bitree.nextFileNum (meta t)) (stKeyLength t) Hkl) as (st & Es & Hi & Hk). rewrite Es. cbn [rbind].
  exists m, st. split; [done|]. split; [done|]. split; [done|]. split; [done|].
  unfold newSuperTable, writeKeyFileHeader in Es. apply rbind_Ok in Es as (k & Ek & [= <-]). split; [done|].
  assert (Hb : wbuf (fdatasync k) = [] /\ offset k = 0 /\ readOnly k = false).
  { assert (G0 : good (newStable [])) by (by split). destruct (write_spec (newStable []) (be_put 4 keyFileVersion ++ be_put 4 0) G0) as (k' & Ek' & G & _ & _ & O).
    unfold keyTbl in Ek. cbn [version] in Ek. rewrite Ek' in Ek. injection Ek as <-. destruct (fdatasync_spec k' G) as (_ & _ & W & O2).
    split; [done|]. split; [by rewrite O|apply G]. }
  destruct Hb as (Hb & Ho & Hro). split; [split; [done|done|done|done|done]|]. split; [|done].
  unfold inuseBytes, st_inuseBytes. cbn [keyTbl valueTbl newStable offset addOffset].
  assert (offset (fdatasync k) = 0) as ->; [|done]. unfold fdatasync. by rewrite Hro.
Qed.

Lemma list_put_last x l : Forall (fun y => bytes_compare y.1 x.1 < 0) l -> forall r, list_put x (l ++ r) = l ++ list_put x r.
Proof.
  induction 1 as [|y l Hy Hl IH]; intros r; [done|]. cbn [app list_put]. apply (cmp_sym (cmp := bytes_compare)) in Hy.
  destruct (Z.ltb_spec (bytes_compare x.1 y.1) 0); [lia|]. destruct (Z.eqb_spec (bytes_compare x.1 y.1) 0); [lia|]. by rewrite IH.
Qed.

Lemma switch_list gs fm fm' k :
  Forall (fun g => bytes_compare (gkey g) k < 0) gs -> bytes_compare k BdbMaxKey < 0 ->
  Forall (fun g => bytes_compare (gkey g) BdbMaxKey < 0) gs ->
  foldl (fun l x => list_put x l) (ix_of gs fm) [(k, EncodeFileNum fm); (BdbMaxKey, EncodeFileNum fm')] =
  ((fun g => (gkey g, EncodeFileNum (gfn g))) <$> gs) ++ [(k, EncodeFileNum fm); (BdbMaxKey, EncodeFileNum fm')].
Proof.
  intros Hg Hk Hm. cbn [foldl]. unfold ix_of. set (l := (fun g => (gkey g, EncodeFileNum (gfn g))) <$> gs).
  assert (H1 : Forall (fun y : kv => bytes_compare y.1 k < 0) l) by (by apply Forall_fmap).
  assert (H2 : Forall (fun y : kv => bytes_compare y.1 BdbMaxKey < 0) l) by (by apply Forall_fmap).
  rewrite (list_put_last (k, _) l H1). cbn [list_put fst]. destruct (Z.ltb_spec (bytes_compare k BdbMaxKey) 0); [|lia].
  rewrite (list_put_last (BdbMaxKey, _) l H2). cbn [list_put fst].
  apply (cmp_sym (cmp := bytes_compare)) in Hk. destruct (Z.ltb_spec (bytes_compare BdbMaxKey k) 0); [lia|].
  destruct (Z.eqb_spec (bytes_compare BdbMaxKey k) 0); [lia|]. cbn [list_put fst].
  by rewrite (cmp_refl bytes_compare).
Qed.

Lemma putable_max : putable BdbMaxKey.
Proof. done. Qed.

(** A transaction of puts, then the readers move on. *)
Lemma put_update t f1 f2 kvs :
  ixwf (bdb t) -> Forall (fun x => putable x.1) kvs ->
  exists t', (let! t := updatePut t f1 kvs in Ok (bdbUpdate t f2)) = Ok t' /\ meta t' = meta t /\ ixwf (bdb t') /\
    ix_list (bdb t') = foldl (fun l x => list_put x l) (ix_list (bdb t)) kvs /\ pool t' = ix_list (bdb t') /\
    stMutable t' = stMutable t /\ maxStSize t' = maxStSize t /\ stKeyLength t' = stKeyLength t /\
    forall f st, minFn t < f -> table_at t f st -> table_at t' f st.
Proof.
  intros Hb Hp. unfold updatePut. destruct (beginRW_spec t f1) as [(A1 & A2 & A3 & A4 & A5 & A6) Ht1]. rewrite A2.
  destruct (ix_put_spec kvs (bdb t) Hb Hp) as (b' & -> & Hb' & Hl). cbn [rbind]. eexists. split; [done|].
  unfold bdbUpdate. set (t1 := with_bdb (beginRW t f1) b').
  destruct (beginRW_spec t1 f2) as [(B1 & B2 & B3 & B4 & B5 & B6) Ht2].
  cbn [with_pool meta bdb pool stMutable maxStSize stKeyLength]. rewrite B1, B2, B4, B5, B6.
  cbn [t1 with_bdb meta bdb stMutable maxStSize stKeyLength]. do 7 (split; [done|]).
  intros f st Hlt Hat. specialize (Ht1 f st Hlt Hat). specialize (Ht2 f st). apply Ht2; [|done].
  unfold minFn in *. cbn [t1 with_bdb meta]. by rewrite A1.
Qed.

Lemma del_update t f1 f2 ks :
  ixwf (bdb t) ->
  exists t', deleteBdbKeys t f1 f2 ks = Ok t' /\ meta t' = meta t /\ ixwf (bdb t') /\
    ix_list (bdb t') = foldl (fun l k => list_del k l) (ix_list (bdb t)) ks /\ pool t' = ix_list (bdb t') /\
    stMutable t' = stMutable t /\ maxStSize t' = maxStSize t /\ stKeyLength t' = stKeyLength t /\
    forall f st, minFn t < f -> table_at t f st -> table_at t' f st.
Proof.
  intros Hb. unfold deleteBdbKeys, updateDelete. destruct (beginRW_spec t f1) as [(A1 & A2 & A3 & A4 & A5 & A6) Ht1]. rewrite A2.
  destruct (ix_del_spec ks (bdb t) Hb) as (b' & -> & Hb' & Hl). cbn [rbind]. eexists. split; [done|].
  unfold bdbUpdate. set (t1 := with_bdb (beginRW t f1) b').
  destruct (beginRW_spec t1 f2) as [(B1 & B2 & B3 & B4 & B5 & B6) Ht2].
  cbn [with_pool meta bdb pool stMutable maxStSize stKeyLength]. rewrite B1, B2, B4, B5, B6.
  cbn [t1 with_bdb meta bdb stMutable maxStSize stKeyLength]. do 7 (split; [done|]).
  intros f st Hlt Hat. specialize (Ht1 f st Hlt Hat). specialize (Ht2 f st). apply Ht2; [|done].
  unfold minFn in *. cbn [t1 with_bdb meta]. by rewrite A1.
Qed.

Lemma kvof_ents o kvs : kvof <$> ents o kvs = kvs.
Proof. revert o. induction kvs as [|[] kvs IH]; intros o; [done|]. cbn [ents]. rewrite fmap_cons. by rewrite IH. Qed.

Lemma gkeys_below t gs fm es : binv t gs fm es -> Forall (fun g => exists e, e ∈ ges g /\ ek e = gkey g /\ e ∈ entries gs) gs.
Proof.
  intros H. pose proof (bi_last _ _ _ _ H) as Hl. rewrite Forall_forall in Hl |- *. intros g Hg. destruct (Hl g Hg) as (e & He & Hk).
  exists e. assert (e ∈ ges g) by (apply last_Some in He as [l' ->]; apply elem_of_app; right; by left).
  split; [done|]. split; [done|]. unfold entries. apply list_elem_of_In, in_concat. exists (ges g).
  split; apply list_elem_of_In; [by apply list_elem_of_fmap_2|done].
Qed.

(** The table of an invariant exchanged for another state of it. *)
Lemma table_at_insert t f g st st' : table_at t g st -> fn st' = f -> f ∈ stMap t ->
  table_at (with_tables t (<[f := st']> (tables t))) g (if decide (g = f) then st' else st).
Proof.
  intros (H1 & H2 & H3) Hf Hin. destruct (decide (g = f)) as [->|Hne]; (split; [done|]; split; [|congruence]); cbn.
  - by rewrite lookup_insert_eq.
  - by rewrite lookup_insert_ne.
Qed.

Lemma sealed_groups_insert t gs fm st f0 :
  StronglySorted Z.lt (f0 :: (gfn <$> gs) ++ [fm]) ->
  Forall (fun g => exists st, table_at t (gfn g) st /\ sealed (stKeyLength t) st (ges g)) gs -> fn st = fm -> fm ∈ stMap t ->
  Forall (fun g => exists st', table_at (with_tables t (<[fm := st]> (tables t))) (gfn g) st' /\ sealed (stKeyLength t) st' (ges g)) gs.
Proof.
  intros Hf Ht Hfn Hin. destruct (group_fm _ _ _ Hf) as [_ Hfs]. rewrite Forall_forall in Ht, Hfs |- *. intros g Hg.
  destruct (Ht g Hg) as (st' & Hat & Hsl). exists st'. split; [|done].
  pose proof (table_at_insert t fm (gfn g) st' st Hat Hfn Hin) as Hx. rewrite decide_False in Hx; [done|]. specialize (Hfs g Hg). lia.
Qed.

Lemma entries_snoc gs k f es : entries (gs ++ [mkGroup k f es]) ++ [] = entries gs ++ es.
Proof. rewrite entries_app, app_nil_r. unfold entries at 2. cbn. by rewrite app_nil_r. Qed.

Lemma fns_snoc f0 gs k fm es fm' :
  StronglySorted Z.lt (f0 :: (gfn <$> gs) ++ [fm]) -> fm < fm' ->
  StronglySorted Z.lt (f0 :: (gfn <$> gs ++ [mkGroup k fm es]) ++ [fm']).
Proof.
  intros H Hlt. destruct (group_fm _ _ _ H) as [Hfm Hfs]. rewrite fmap_app. cbn [fmap list_fmap gfn].
  rewrite app_comm_cons. apply StronglySorted_app. split; [|split; [exact H|repeat constructor]].
  intros a b Ha Hb%list_elem_of_singleton. subst b. apply elem_of_cons in Ha as [->|Ha]; [lia|].
  apply elem_of_app in Ha as [Ha|Ha%list_elem_of_singleton]; [|subst; lia].
  apply list_elem_of_fmap_1 in Ha as (g & -> & Hg). rewrite Forall_forall in Hfs. specialize (Hfs g Hg). lia.
Qed.

(** The greatest keys of the tables are before any key behind them. *)
Lemma gkeys_before t gs fm es e :
  binv t gs fm es -> e ∈ es -> Forall (fun g => bytes_compare (gkey g) (ek e) < 0) gs /\ bytes_compare (ek e) BdbMaxKey < 0.
Proof.
  intros H He. split.
  - pose proof (gkeys_below _ _ _ _ H) as Hg. rewrite Forall_forall in Hg |- *. intros g Hgi. destruct (Hg g Hgi) as (e' & _ & <- & Hin').
    exact (StronglySorted_app_1_elem_of _ _ _ e' e (bi_sorted _ _ _ _ H) Hin' He).
  - pose proof (bi_below _ _ _ _ H) as Hb. rewrite Forall_forall in Hb. apply Hb. apply elem_of_app. by right.
Qed.

(** Switching to a new table. *)
Lemma makeRoom_spec t gs fm es f1 f2 e :
  binv t gs fm es -> last es = Some e -> Meta.Bitree.nextFileNum (meta t) < 4294967296 ->
  exists t' fm', makeRoomForWrite t f1 f2 (ek e) = Ok t' /\ binv t' (gs ++ [mkGroup (ek e) fm es]) fm' [] /\ roomy t' fm' /\
    minFn t' = minFn t /\ stKeyLength t' = stKeyLength t /\ Meta.Bitree.nextFileNum (meta t') = Meta.Bitree.nextFileNum (meta t) + 1.
Proof.
  intros H He Hnx. pose proof (bi_kl _ _ _ _ H) as Hkl. pose proof (bi_next _ _ _ _ H) as Hn.
  assert (Hein : e ∈ es) by (apply last_Some in He as [l' ->]; apply elem_of_app; right; by left).
  destruct (gkeys_before _ _ _ _ e H Hein) as [Hgk Hxb].
  assert (Hgb : Forall (fun g => bytes_compare (gkey g) BdbMaxKey < 0) gs).
  { eapply Forall_impl; [exact Hgk|]. cbn. intros g Hg. by eapply (cmp_trans (cmp := bytes_compare)). }
  pose proof (group_fm _ _ _ (bi_fns _ _ _ _ H)) as [Hfm Hfs].
  unfold makeRoomForWrite. destruct (newTable_spec t (bi_meta _ _ _ _ H)) as (m & st & -> & Hwm & Hnm & Hmm & Hf & Hw & Hu & Ho); [lia|lia|].
  cbn [rbind with_meta stMutable]. rewrite (bi_mut _ _ _ _ H).
  destruct (put_update (with_meta t m) f1 f2 [(ek e, EncodeFileNum fm); (BdbMaxKey, EncodeFileNum (fn st))])
    as (t4 & E4 & M4 & I4 & L4 & P4 & U4 & X4 & S4 & T4); [apply H| |].
  { destruct (bi_mtbl _ _ _ _ H) as (sm & _ & Hwr & _). pose proof (inv_klen _ _ _ (wr_inv _ _ _ Hwr)) as Hlen. rewrite app_nil_r in Hlen.
    rewrite Forall_forall in Hlen. specialize (Hlen e Hein). rewrite (wr_kl _ _ _ Hwr) in Hlen.
    repeat constructor; unfold putable; cbn [fst]; try done; lia. }
  unfold switchBdbKey. rewrite E4. cbn [rbind]. set (t5 := with_mutable (setStMap t4 st) (Some (fn st))). exists t5, (fn st). split; [done|].
  assert (Hix : ix_list (bdb t4) = ix_of (gs ++ [mkGroup (ek e) fm es]) (fn st)).
  { rewrite L4. cbn [with_meta bdb]. rewrite (bi_list _ _ _ _ H), (switch_list gs fm (fn st) (ek e) Hgk Hxb Hgb).
    unfold ix_of. by rewrite fmap_app, <-app_assoc. }
  cbn [with_meta maxStSize stKeyLength] in X4, S4.
  assert (Hmin : minFn t5 = minFn t) by (unfold minFn at 1; cbn [t5 with_mutable setStMap with_stMap with_tables meta]; by rewrite M4).
  assert (Hat : table_at t5 (fn st) st) by (split; [cbn; set_solver|]; split; [cbn; by rewrite lookup_insert_eq|done]).
  assert (Hset : forall f st', minFn t < f -> f <> fn st -> table_at t f st' -> table_at t5 f st').
  { intros f st' Hlt Hne Ha. destruct (T4 f st') as (A1 & A2 & A3); [unfold minFn; cbn [with_meta meta]; by rewrite Hmm|exact Ha|].
    split; [cbn; set_solver|]. split; [cbn; by rewrite lookup_insert_ne|done]. }
  split; [|split; [exists st; split; [apply Hat|]; rewrite Hu; cbn; rewrite X4; apply H|split; [done|]]].
  2: { split; [exact S4|]. cbn. rewrite M4. exact Hnm. }
  split; cbn [t5 with_mutable setStMap with_stMap with_tables meta bdb pool stMutable maxStSize stKeyLength];
    rewrite ?M4, ?S4, ?X4, ?Hmin, ?entries_snoc, ?P4; try done; try apply H.
  - apply Forall_app. split.
    + pose proof (bi_tbl _ _ _ _ H) as Ht. rewrite Forall_forall in Ht, Hfs |- *. intros g Hg. destruct (Ht g Hg) as (st' & Ha & Hsl).
      exists st'. split; [|done]. specialize (Hfs g Hg). apply Hset; [lia|lia|done].
    + constructor; [|constructor]. destruct (bi_mtbl _ _ _ _ H) as (sm & Ha & Hwr & _). exists sm.
      split; [|by apply writable_sealed]. apply Hset; cbn [gfn]; [lia|lia|done].
  - exists st. split; [done|]. split; [done|]. by rewrite Ho.
  - apply Forall_app. split; [apply H|]. constructor; [|constructor]. by exists e.
  - apply fns_snoc; [apply H|lia].
  - cbn [with_meta meta]. rewrite Hnm, Hf. lia.
Qed.

(** The writable table exchanged for one with more entries. *)
Lemma binv_more t gs fm es st new :
  binv t gs fm es -> writable (stKeyLength t) st (es ++ new) -> fn st = fm -> offset (valueTbl st) = vsize (kvof <$> es ++ new) ->
  sorted (entries gs ++ es ++ new) -> Forall (fun e => bytes_compare (ek e) BdbMaxKey < 0) new ->
  binv (with_tables t (<[fm := st]> (tables t))) gs fm (es ++ new).
Proof.
  intros H Hw Hf Ho Hs Hb. destruct (bi_mtbl _ _ _ _ H) as (st0 & Hat & _). pose proof Hat as (Hin & _).
  pose proof (table_at_insert t fm fm st0 st Hat Hf Hin) as Hat2. rewrite decide_True in Hat2 by done.
  pose proof (sealed_groups_insert t gs fm st _ (bi_fns _ _ _ _ H) (bi_tbl _ _ _ _ H) Hf Hin) as Hgs.
  pose proof (bi_below _ _ _ _ H) as Hbl. destruct H. split; try done.
  - by exists st.
  - rewrite app_assoc. apply Forall_app. done.
Qed.

(** A flush of pairs behind all others, with whatever is freed meanwhile. *)
Lemma flush_spec t gs fm es f1 f2 kvs :
  binv t gs fm es -> roomy t fm -> Forall (fun x => len x.1 = stKeyLength t) kvs -> Meta.Bitree.nextFileNum (meta t) < 4294967296 ->
  8 + (len es + len kvs) * (stKeyLength t + 4) < 4294967296 -> vsize (kvof <$> es) + vsize kvs < 4294967296 ->
  let new := ents (vsize (kvof <$> es)) kvs in
  sorted (entries gs ++ es ++ new) -> Forall (fun e => bytes_compare (ek e) BdbMaxKey < 0) new ->
  exists t' gs' fm' es', flush t f1 f2 kvs = Ok t' /\ binv t' gs' fm' es' /\ roomy t' fm' /\ entries gs' ++ es' = entries gs ++ es ++ new /\
    minFn t' = minFn t /\ stKeyLength t' = stKeyLength t /\ Meta.Bitree.nextFileNum (meta t') <= Meta.Bitree.nextFileNum (meta t) + 1.
Proof.
  intros H (st & Htb & Hu) Hk Hnx Hks Hvs new Hs Hb. destruct (bi_mtbl _ _ _ _ H) as (st' & Hat & Hw & Ho).
  pose proof Hat as (Hin & Htb' & Hfn). rewrite Htb in Htb'. injection Htb' as <-.
  pose proof (wr_inv _ _ _ Hw) as Hi. pose proof (inv_len _ _ _ Hi) as Hlen.
  pose proof (inv_koff _ _ _ Hi) as [Hko _]. rewrite len_nil, Z.add_0_r in Hlen. rewrite Hlen in Hko.
  pose proof (wr_kl _ _ _ Hw) as Hkl. pose proof (inv_step _ _ _ Hi) as Hst. rewrite Hkl in Hst.
  destruct (flush_sets_spec t fm st es [] None kvs Htb Hi) as (st1 & E1 & Hnil & Hi1 & K1 & K2 & K3 & O1).
  { by rewrite Hkl. } { rewrite Hko, Hst. unfold keyFileHeaderSize. lia. } { rewrite Ho. lia. }
  unfold flush, NewFlusher. rewrite (bi_mut _ _ _ _ H), E1. cbn [rbind]. rewrite Ho in Hi1. cbn [app] in Hi1. fold new in Hi1.
  set (t1 := with_tables t _). assert (Ht1 : tables t1 !! fm = Some st1).
  { cbn. destruct kvs; [by rewrite (Hnil eq_refl)|]. by rewrite lookup_insert_eq. }
  unfold Finish. cbn [fst_ lastKey]. rewrite Ht1.
  destruct (flushFinish_writable st1 es new (stKeyLength t) Hi1) as (Hw2 & Hu2 & Hfn2 & Ho2); [congruence|rewrite K2; apply Hw|].
  set (st2 := flushFinish st1) in *. assert (Hf2 : fn st2 = fm) by (by rewrite Hfn2, K3).
  assert (Et2 : with_tables t1 (<[fm:=st2]> (tables t1)) = with_tables t (<[fm:=st2]> (tables t))).
  { unfold t1, with_tables. cbn. destruct kvs; [done|]. by rewrite insert_insert_eq. }
  assert (Ho3 : offset (valueTbl st2) = vsize (kvof <$> es ++ new)).
  { rewrite Ho2, O1, Ho, fmap_app, vsize_app. unfold new. by rewrite kvof_ents. }
  pose proof (binv_more t gs fm es st2 new H Hw2 Hf2 Ho3 Hs Hb) as H2.
  rewrite Et2. set (t2 := with_tables t (<[fm:=st2]> (tables t))) in *. change (maxStSize t2) with (maxStSize t).
  destruct (Z.ltb_spec (inuseBytes st2) (maxStSize t)) as [Hfit|Hfull].
  { exists t2, gs, fm, (es ++ new). cbn [rbind]. do 2 (split; [done|]).
    split; [exists st2; split; [cbn; by rewrite lookup_insert_eq|done]|]. do 3 (split; [done|]). cbn. lia. }
  destruct (last kvs) as [x|] eqn:Hx; [|apply last_None in Hx as ->; rewrite (Hnil eq_refl) in Hu2; lia].
  assert (He : last (es ++ new) = Some (mkEnt x.1 (eo (default (mkEnt [] 0 []) (last new))) x.2)).
  { unfold new. apply last_Some in Hx as [l' ->]. rewrite ents_app, app_assoc. cbn [ents]. by rewrite !last_snoc. }
  destruct (makeRoom_spec t2 gs fm (es ++ new) f1 f2 _ H2 He Hnx) as (t' & fm' & E3 & H3 & Hr3 & A1 & A2 & A3).
  cbn [ek from_option id] in *. rewrite E3. cbn [rbind]. eexists _, _, _, _. split; [done|]. split; [exact H3|]. split; [done|].
  split; [apply entries_snoc|]. split; [by rewrite A1|]. split; [by rewrite A2|]. rewrite A3. cbn. lia.
Qed.

(** ** Compaction *)

Lemma compact_loop_spec gs1 rest upper dels to :
  Forall (fun g => bytes_compare (gkey g) upper < 0) gs1 -> Forall (fun g => 0 <= gfn g < 4294967296) gs1 ->
  (forall x, head rest = Some x -> 0 <= bytes_compare x.1 upper) ->
  exists to', compact_loop (((fun g => (gkey g, EncodeFileNum (gfn g))) <$> gs1) ++ rest) upper dels to = Ok (dels ++ (gkey <$> gs1), to') /\
    (to' = to \/ exists g, g ∈ gs1 /\ to' = gfn g) /\ to <= to' /\ Forall (fun g => gfn g <= to') gs1.
Proof.
  intros Hk Hf Hr. revert dels to. induction gs1 as [|g gs1 IH]; intros dels to.
  - exists to. cbn [fmap list_fmap app]. rewrite app_nil_r. split; [|split; [by left|split; [lia|constructor]]].
    destruct rest as [|[k v] rest]; [done|]. cbn [compact_loop]. specialize (Hr (k, v) eq_refl). cbn [fst] in Hr.
    destruct (Z.leb_spec 0 (bytes_compare k upper)); [done|lia].
  - apply Forall_cons in Hk as [Hg Hk], Hf as [Hfg Hf]. rewrite !fmap_cons. cbn [app compact_loop].
    destruct (Z.leb_spec 0 (bytes_compare (gkey g) upper)); [lia|]. rewrite DecodeEncode by lia. cbn [rbind].
    destruct (IH Hk Hf (dels ++ [gkey g]) (Z.max to (gfn g))) as (to' & -> & Hor & Hle & Hall). exists to'.
    rewrite <-app_assoc. split; [done|]. split; [|split; [lia|constructor; [lia|done]]].
    destruct Hor as [->|(g' & Hg' & ->)].
    + destruct (Z.max_spec to (gfn g)) as [[_ ->]|[_ ->]]; [right; exists g; split; [left|done]|by left].
    + right. exists g'. split; [by right|done].
Qed.

Lemma list_del_absent k (l : list kv) : (forall x, x ∈ l -> x.1 <> k) -> list_del k l = l.
Proof.
  unfold list_del. induction l as [|x l IH]; intros H; [done|]. rewrite filter_cons, decide_True by (apply H; left).
  by rewrite IH by (intros; apply H; by right).
Qed.

Lemma del_prefix gs1 (rest : list kv) :
  StronglySorted key_lt (((fun g => (gkey g, EncodeFileNum (gfn g))) <$> gs1) ++ rest) ->
  foldl (fun l k => list_del k l) (((fun g => (gkey g, EncodeFileNum (gfn g))) <$> gs1) ++ rest) (gkey <$> gs1) = rest.
Proof.
  induction gs1 as [|g gs1 IH]; intros Hs; [done|]. rewrite fmap_cons in Hs |- *. cbn [app foldl fmap list_fmap] in *.
  apply StronglySorted_inv in Hs as [Hs Hf]. rewrite <-(IH Hs) at 2. f_equal.
  etransitivity; [|apply (list_del_absent (gkey g))]; [unfold list_del; by rewrite filter_cons, decide_False by (intros Hn; by apply Hn)|].
  intros x Hx. rewrite Forall_forall in Hf. specialize (Hf x Hx). unfold key_lt in Hf. cbn [fst] in Hf. intros E. rewrite E, (cmp_refl bytes_compare) in Hf. lia.
Qed.

(** The tables of the invariant split at the key of a compaction. *)
Lemma split_at k gs fm es t :
  binv t gs fm es -> bytes_compare k BdbMaxKey <= 0 ->
  exists gs1 gs2 upper v, gs = gs1 ++ gs2 /\ ix_seek k (ix_of gs fm) = Some (upper, v) /\ head (ix_of gs2 fm) = Some (upper, v) /\
    Forall (fun g => bytes_compare (gkey g) k < 0) gs1 /\ 0 <= bytes_compare upper k.
Proof.
  intros H Hk. destruct (seek_groups k gs fm es (bi_sorted _ _ _ _ H) (bi_last _ _ _ _ H) Hk) as [(gs1 & g & gs2 & E & Hs & _ & Hb & Hge)|(Hs & _ & Hb)].
  - exists gs1, (g :: gs2), (gkey g), (EncodeFileNum (gfn g)). done.
  - exists gs, [], BdbMaxKey, (EncodeFileNum fm). rewrite app_nil_r. split_and!; try done.
    destruct (Z.le_gt_cases 0 (bytes_compare BdbMaxKey k)) as [|Hlt]; [done|]. apply (cmp_sym (cmp := bytes_compare)) in Hlt. lia.
Qed.

Lemma set_min m f : Meta.Bitree.wf m -> 0 <= f < 18446744073709551616 ->
  exists m', Meta.Bitree.setMinUnCompactFileNum m f = Ok m' /\ Meta.Bitree.wf m' /\ Meta.Bitree.minUnCompactFileNum m' = f /\
    Meta.Bitree.nextFileNum m' = Meta.Bitree.nextFileNum m.
Proof.
  intros [Hsz Hmin Hnext Hpos] Hf. unfold Meta.Bitree.setMinUnCompactFileNum.
  destruct (read_write_same (Meta.Bitree.bfile m) f Meta.Bitree.fieldOffsetMinUnfCompactFileNum) as (f' & -> & S & R & O); [lia|rewrite Hsz; done|].
  cbn [rbind]. eexists. split; [done|]. split; [|done]. split; cbn; [congruence|done|rewrite O by (right; done); done|done].
Qed.

(** The entries of tables whose greatest key is before [k] are before it. *)
Lemma dropped_before t gs1 gs2 fm es k :
  binv t (gs1 ++ gs2) fm es -> Forall (fun g => bytes_compare (gkey g) k < 0) gs1 ->
  Forall (fun e => bytes_compare (ek e) k < 0) (entries gs1).
Proof.
  intros H Hb1. rewrite Forall_forall. intros e He. unfold entries in He. apply list_elem_of_In, in_concat in He as (l & Hl & He).
  apply list_elem_of_In, list_elem_of_fmap_1 in Hl as (g & -> & Hg). apply list_elem_of_In in He.
  pose proof (bi_last _ _ _ _ H) as Hl. rewrite Forall_forall in Hl, Hb1. destruct (Hl g) as (e' & He' & Hk'); [apply elem_of_app; by left|].
  eapply (cmp_le_lt_trans bytes_compare); [|by apply Hb1]. rewrite <-Hk'. eapply (es_sorted_last (ges g)); [|done|done].
  pose proof (bi_sorted _ _ _ _ H) as Hs. apply list_elem_of_split in Hg as (ga & gb & Eg). rewrite Eg, !entries_app, entries_cons, <-!app_assoc in Hs.
  by apply StronglySorted_app_1_r, StronglySorted_app_1_l in Hs.
Qed.

Lemma seek_beyond t gs fm es k : binv t gs fm es -> 0 < bytes_compare k BdbMaxKey -> ix_seek k (ix_of gs fm) = None.
Proof.
  intros H Hk. assert (Hall : Forall (fun x : kv => bytes_compare x.1 k < 0) (ix_of gs fm)).
  { unfold ix_of. apply Forall_app. apply (cmp_gt_lt bytes_compare) in Hk. split; [|by repeat constructor]. apply Forall_fmap.
    pose proof (gkeys_below _ _ _ _ H) as Hg. pose proof (bi_below _ _ _ _ H) as Hb. rewrite Forall_forall in Hg. rewrite Forall_forall in Hb. rewrite Forall_forall. intros g Hgi.
    unfold compose. cbn [fst]. destruct (Hg g Hgi) as (e & _ & <- & He). eapply (cmp_trans (cmp := bytes_compare)); [|exact Hk].
    apply Hb, elem_of_app. by left. }
  clear -Hall. induction Hall as [|x l Hx Hl IH]; [done|]. cbn [ix_seek]. by destruct (Z.ltb_spec (bytes_compare x.1 k) 0); [|lia].
Qed.

(** The state behind a compaction that drops [gs1]. *)
Lemma binv_dropped t t' gs1 gs2 fm es g :
  binv t (gs1 ++ gs2) fm es -> g ∈ gs1 -> minFn t' = gfn g ->
  Meta.Bitree.wf (meta t') -> Meta.Bitree.nextFileNum (meta t') = Meta.Bitree.nextFileNum (meta t) ->
  ixwf (bdb t') -> ix_list (bdb t') = ix_of gs2 fm -> pool t' = ix_list (bdb t') -> stMutable t' = stMutable t ->
  maxStSize t' = maxStSize t -> stKeyLength t' = stKeyLength t ->
  (forall f st, gfn g < f -> table_at t f st -> table_at t' f st) -> binv t' gs2 fm es.
Proof.
  intros H Hg Hmin Hwm Hnx Iw L P U X S Hat.
  assert (Hfns : StronglySorted Z.lt (gfn g :: (gfn <$> gs2) ++ [fm])).
  { pose proof (bi_fns _ _ _ _ H) as Hff. rewrite fmap_app, <-app_assoc in Hff. apply StronglySorted_inv in Hff as [Hff _].
    constructor; [by eapply StronglySorted_app_1_r|]. rewrite Forall_forall. intros x Hx.
    apply (StronglySorted_app_1_elem_of _ _ _ (gfn g) x Hff); [by apply list_elem_of_fmap_2|done]. }
  pose proof (group_fm _ _ _ Hfns) as [Hgf Hfs2]. pose proof (group_fm _ _ _ (bi_fns _ _ _ _ H)) as [_ Hfs].
  pose proof H as [I1 I2 I3 I4 I5 I6 I7 I8 I9 I10 I11 I12 I13 I14 I15].
  rewrite entries_app, <-app_assoc in I9, I11. apply Forall_app in I7 as [_ I7]. apply Forall_app in I10 as [_ I10].
  split; rewrite ?S, ?X, ?U, ?P, ?Hmin, ?Hnx; try done.
  - rewrite Forall_forall in I7, Hfs2 |- *. intros g' Hg'. destruct (I7 g' Hg') as (st & Ha & Hs). exists st. split; [|done]. apply Hat; [by apply Hfs2|done].
  - destruct I8 as (st & Ha & Hs). exists st. split; [|done]. by apply Hat.
  - by apply StronglySorted_app_1_r in I9.
  - by apply Forall_app in I11 as [_ I11].
  - rewrite Forall_forall in Hfs. specialize (Hfs g ltac:(apply elem_of_app; by left)). lia.
Qed.

(** Compaction drops exactly the tables whose greatest key is before [k]. *)
Lemma CompactTo_spec t gs fm es f1 f2 k :
  binv t gs fm es -> roomy t fm ->
  exists t' gs1 gs2, CompactTo t f1 f2 k = Ok t' /\ gs = gs1 ++ gs2 /\ binv t' gs2 fm es /\ roomy t' fm /\
    Forall (fun e => bytes_compare (ek e) k < 0) (entries gs1) /\ stKeyLength t' = stKeyLength t /\
    Meta.Bitree.nextFileNum (meta t') = Meta.Bitree.nextFileNum (meta t).
Proof.
  intros H Hroom. pose proof (group_fm _ _ _ (bi_fns _ _ _ _ H)) as [Hfm Hfs]. pose proof (bi_next _ _ _ _ H) as Hn. pose proof (bi_min _ _ _ _ H) as Hm0.
  unfold CompactTo. rewrite (bi_pool _ _ _ _ H).
  destruct (Z.le_gt_cases (bytes_compare k BdbMaxKey) 0) as [Hk|Hk].
  2: { rewrite (seek_beyond _ _ _ _ _ H Hk). exists t, [], gs. split_and!; (done || constructor). }
  destruct (split_at k gs fm es t H Hk) as (gs1 & gs2 & upper & v & -> & -> & Hhd & Hb1 & Hup).
  pose proof (dropped_before _ _ _ _ _ _ H Hb1) as Hold.
  assert (Eix : ix_of (gs1 ++ gs2) fm = ((fun g => (gkey g, EncodeFileNum (gfn g))) <$> gs1) ++ ix_of gs2 fm).
  { unfold ix_of. by rewrite fmap_app, <-app_assoc. }
  rewrite Eix. destruct (compact_loop_spec gs1 (ix_of gs2 fm) upper [] 0) as (to & -> & Hor & Hle & Hall).
  { eapply Forall_impl; [exact Hb1|]. cbn. intros g Hg. eapply (cmp_lt_le_trans bytes_compare); [done|].
    destruct (Z.eq_dec (bytes_compare upper k) 0) as [->%(cmp_eq (cmp := bytes_compare))|]; [by rewrite (cmp_refl bytes_compare)|].
    assert (bytes_compare k upper < 0); [|lia]. apply (cmp_sym (cmp := bytes_compare)). lia. }
  { apply Forall_app in Hfs as [Hfs _]. eapply Forall_impl; [exact Hfs|]. cbn. lia. }
  { intros x Hx. rewrite Hhd in Hx. injection Hx as <-. cbn [fst]. by rewrite (cmp_refl bytes_compare). }
  cbn [rbind app]. destruct gs1 as [|g0 gs1'] eqn:Eg1; [exists t, [], gs2; split_and!; (done || constructor)|].
  rewrite <-Eg1 in *. assert (Hto : exists g, g ∈ gs1 /\ to = gfn g).
  { destruct Hor as [->|]; [|done]. exfalso. rewrite Forall_forall in Hall, Hfs. assert (Hg0 : g0 ∈ gs1) by (rewrite Eg1; left).
    specialize (Hall g0 Hg0). specialize (Hfs g0 ltac:(apply elem_of_app; by left)). lia. }
  destruct (gkey <$> gs1) as [|k0 ks] eqn:Eks; [by rewrite Eg1 in Eks|]. rewrite <-Eks. clear Eks k0 ks.
  destruct Hto as (g & Hg & ->). assert (Hgtf : minFn t < gfn g < fm).
  { rewrite Forall_forall in Hfs. apply Hfs. apply elem_of_app. by left. }
  destruct (set_min (meta t) (gfn g) (bi_meta _ _ _ _ H)) as (m & -> & Hwm & Hmm & Hmn); [lia|]. cbn [rbind].
  destruct (del_update (with_meta t m) f1 f2 (gkey <$> gs1) (bi_ix _ _ _ _ H)) as (t' & Ed & M & Iw & L & P & U & X & S & T).
  rewrite Ed. exists t', gs1, gs2. split; [done|]. split; [done|]. cbn [with_meta maxStSize stKeyLength stMutable bdb meta] in X, S, U, M, L.
  rewrite (bi_list _ _ _ _ H), Eix, del_prefix in L by (rewrite <-Eix, <-(bi_list _ _ _ _ H); apply ix_sorted, H).
  assert (Hat : forall f st, gfn g < f -> table_at t f st -> table_at t' f st).
  { intros f st Hlt Ha. apply T; [|exact Ha]. unfold minFn. cbn [with_meta meta]. by rewrite Hmm. }
  split; [|split; [|split; [done|split; [done|by rewrite M]]]].
  - apply (binv_dropped t t' gs1 gs2 fm es g H Hg); try done; [unfold minFn|..]; by rewrite M.
  - destruct Hroom as (st & Ht & Hu). destruct (bi_mtbl _ _ _ _ H) as (st' & Ha & _). pose proof Ha as (_ & Ht' & _). rewrite Ht in Ht'. injection Ht' as <-.
    exists st. rewrite X. split; [|done]. destruct (Hat fm st) as (_ & ? & _); [lia|done|done].
Qed.

(** ** Reopening *)

(** The files of the tables; [Close] does not touch them. *)
Definition dir_of t : dir :=
  let m := filter (fun p => p.1 ∈ stMap t) (tables t) in
  mkDir ((fun st => content (keyTbl st)) <$> m) ((fun st => content (valueTbl st)) <$> m).

Definition reopen (fuel : nat) t (f1 f2 f3 f4 : list Z) : outcome bitree :=
  OpenBitree fuel (Some (Meta.Bitree.bfile (meta t))) (bdb t) f1 f2 f3 f4 (dir_of t) (maxStSize t) (stKeyLength t).

Lemma dir_of_at t f st : table_at t f st ->
  kfiles (dir_of t) !! f = Some (content (keyTbl st)) /\ vfiles (dir_of t) !! f = Some (content (valueTbl st)).
Proof.
  intros (H1 & H2 & H3). cbn. rewrite !lookup_fmap.
  assert (filter (fun p => p.1 ∈ stMap t) (tables t) !! f = Some st) as -> by (by apply map_lookup_filter_Some). done.
Qed.

(** One turn of the opening loop. *)
Lemma open_one told t f k st es fuel l dels :
  table_at told f st -> sealed (stKeyLength t) st es -> 0 <= f < 4294967296 -> minFn t < f ->
  exists st', open_loop fuel t (dir_of told) ((k, EncodeFileNum f) :: l) dels =
      open_loop fuel (let t := setStMap t st' in if isBdbMaxKey k then with_mutable t (Some f) else t) (dir_of told) l dels /\
    sealed (stKeyLength t) st' es /\ fn st' = f /\
    content (keyTbl st') = content (keyTbl st) /\ content (valueTbl st') = content (valueTbl st) /\
    (isBdbMaxKey k = true -> len (content (keyTbl st)) < 4294967296 -> len (content (valueTbl st)) < 4294967296 ->
       writable (stKeyLength t) st' es).
Proof.
  intros Hat Hsl Hf Hmin. cbn [open_loop]. rewrite DecodeEncode by done. cbn [rbind].
  destruct (dir_of_at _ _ _ Hat) as [Hk Hv]. assert (dir_has (dir_of told) f = true) as ->.
  { unfold dir_has. rewrite Hk. by rewrite bool_decide_true by by eexists. }
  assert (checkStFreed t f = false) as -> by (apply Z.leb_gt; exact Hmin). cbn [andb negb]. rewrite Hk, Hv. cbn [from_option id].
  destruct (sealed_reopen (stKeyLength t) st es fuel f (negb (isBdbMaxKey k)) Hsl) as (st' & -> & Hsl' & Hfn & C1 & C2 & Hinv). cbn [rbind].
  exists st'. split; [by destruct (isBdbMaxKey k)|]. do 4 (split; [done|]). intros E. apply Hinv. by rewrite E.
Qed.

Lemma isBdbMaxKey_below k : bytes_compare k BdbMaxKey < 0 -> isBdbMaxKey k = false.
Proof. intros H. unfold isBdbMaxKey. apply bool_decide_false. intros ->. rewrite (cmp_refl bytes_compare) in H. lia. Qed.

Lemma table_at_setStMap t st f st' : f <> fn st -> table_at t f st' -> table_at (setStMap t st) f st'.
Proof. intros Hne (H1 & H2 & H3). split; [cbn; set_solver|]. split; [cbn; by rewrite lookup_insert_ne|done]. Qed.

(** The opening loop over the tables of an invariant. *)
Lemma open_groups told fuel gs t l dels f0 :
  Forall (fun g => exists st, table_at told (gfn g) st /\ sealed (stKeyLength t) st (ges g)) gs ->
  Forall (fun g => bytes_compare (gkey g) BdbMaxKey < 0) gs ->
  StronglySorted Z.lt (f0 :: (gfn <$> gs)) -> minFn t <= f0 -> 0 <= f0 -> Forall (fun g => gfn g < 4294967296) gs ->
  exists t', open_loop fuel t (dir_of told) (((fun g => (gkey g, EncodeFileNum (gfn g))) <$> gs) ++ l) dels =
      open_loop fuel t' (dir_of told) l dels /\
    meta t' = meta t /\ bdb t' = bdb t /\ pool t' = pool t /\ stMutable t' = stMutable t /\ maxStSize t' = maxStSize t /\ stKeyLength t' = stKeyLength t /\
    Forall (fun g => exists st, table_at t' (gfn g) st /\ sealed (stKeyLength t) st (ges g)) gs /\
    (forall f st, f <= f0 -> table_at t f st -> table_at t' f st).
Proof.
  revert t f0. induction gs as [|g gs IH]; intros t f0 Ht Hb Hs Hm H0 Hlt.
  { exists t. split; [done|]. do 6 (split; [done|]). split; [constructor|done]. }
  apply Forall_cons in Ht as [(st & Hat & Hsl) Ht], Hb as [Hgb Hb], Hlt as [Hgl Hlt]. rewrite fmap_cons in Hs.
  apply StronglySorted_inv in Hs as [Hs Hf]. apply Forall_cons in Hf as [Hf _].
  destruct (open_one told t (gfn g) (gkey g) st (ges g) fuel (((fun g => (gkey g, EncodeFileNum (gfn g))) <$> gs) ++ l) dels Hat Hsl ltac:(lia) ltac:(lia))
    as (st' & E & Hsl' & Hfn & _). rewrite (isBdbMaxKey_below _ Hgb) in E. cbn zeta in E.
  rewrite fmap_cons. cbn [app]. rewrite E.
  destruct (IH (setStMap t st') (gfn g)) as (t' & -> & A1 & A2 & A3 & A4 & A5 & A6 & A7 & A8); try done; [unfold minFn in *; cbn in *; lia|lia|].
  exists t'. split; [done|]. do 6 (split; [done|]). split.
  - constructor; [|exact A7]. exists st'. split; [|done]. apply A8; [lia|]. split; [cbn; set_solver|]. split; [cbn; rewrite <-Hfn; by rewrite lookup_insert_eq|done].
  - intros f sf Hfle Ha. apply A8; [lia|]. apply table_at_setStMap; [lia|done].
Qed.

Lemma reopen_spec t gs fm es fuel f1 f2 f3 f4 :
  binv t gs fm es -> roomy t fm ->
  exists t', reopen fuel t f1 f2 f3 f4 = Ok t' /\ binv t' gs fm es /\ roomy t' fm /\
    stKeyLength t' = stKeyLength t /\ Meta.Bitree.nextFileNum (meta t') = Meta.Bitree.nextFileNum (meta t).
Proof.
  intros H (str & Htr & Hu). pose proof (group_fm _ _ _ (bi_fns _ _ _ _ H)) as [Hfm Hfs]. pose proof (bi_next _ _ _ _ H) as Hn. pose proof (bi_min _ _ _ _ H) as Hm0.
  destruct (bi_mtbl _ _ _ _ H) as (st & Hat & Hw & Ho). pose proof Hat as (_ & Htb & Hfn). rewrite Htr in Htb. injection Htb as ->.
  pose proof (writable_sealed _ _ _ Hw) as Hsl. pose proof (wr_inv _ _ _ Hw) as Hi.
  pose proof (inv_koff _ _ _ Hi) as [Hko Hkb]. pose proof (inv_voff _ _ _ Hi) as [Hvo Hvb].
  unfold logical in Hko, Hkb, Hvo, Hvb. rewrite (wr_kbuf _ _ _ Hw), app_nil_r in Hko, Hkb. rewrite (wr_vbuf _ _ _ Hw), app_nil_r in Hvo, Hvb.
  unfold reopen, OpenBitree. destruct (Meta.Bitree.reopen _ (bi_meta _ _ _ _ H)) as (v & ->). cbn [rbind]. unfold openSuperTables. cbn [pool].
  rewrite (bi_list _ _ _ _ H). unfold ix_of at 2. set (m := Meta.Bitree.mkMeta _ _ _ _). set (t0 := mkBT m _ _ _ _ _ _ _).
  destruct (open_groups t fuel gs t0 [(BdbMaxKey, EncodeFileNum fm)] [] (minFn t)) as (t1 & -> & A1 & A2 & A3 & A4 & A5 & A6 & A7 & A8).
  { apply H. } { eapply Forall_impl; [exact (gkeys_below _ _ _ _ H)|]. intros g (e & _ & <- & He). pose proof (bi_below _ _ _ _ H) as Hb.
    rewrite Forall_forall in Hb. apply Hb, elem_of_app. by left. }
  { pose proof (bi_fns _ _ _ _ H) as Hs. rewrite app_comm_cons in Hs. by apply StronglySorted_app_1_l in Hs. }
  { done. } { done. } { eapply Forall_impl; [exact Hfs|]. cbn. lia. }
  assert (Hm1 : minFn t1 = minFn t) by (unfold minFn; rewrite A1; done).
  destruct (open_one t t1 fm BdbMaxKey st es fuel [] [] Hat) as (st' & -> & Hsl' & Hfn' & C1 & C2 & Hinv); [by rewrite A6|lia|lia|].
  change (isBdbMaxKey BdbMaxKey) with true in *. specialize (Hinv eq_refl Hkb Hvb). rewrite A6 in Hinv. cbn [t0 stKeyLength] in Hinv.
  cbn [open_loop rbind]. cbn [with_mutable stMutable]. set (t2 := with_mutable (setStMap t1 st') (Some fm)). exists t2. split; [done|].
  assert (Hat2 : table_at t2 fm st') by (split; [cbn; set_solver|]; split; [cbn; rewrite <-Hfn'; by rewrite lookup_insert_eq|done]).
  pose proof (wr_inv _ _ _ Hinv) as Hi'. pose proof (inv_koff _ _ _ Hi') as [Hko' _]. pose proof (inv_voff _ _ _ Hi') as [Hvo' _].
  unfold logical in Hko', Hvo'. rewrite (wr_kbuf _ _ _ Hinv), C1, app_nil_r in Hko'. rewrite (wr_vbuf _ _ _ Hinv), C2, app_nil_r in Hvo'.
  assert (Hu' : inuseBytes st' = inuseBytes st) by (unfold inuseBytes, st_inuseBytes; congruence).
  split; [|split; [|split; [exact A6|cbn; by rewrite A1]]].
  2: { exists st'. split; [apply Hat2|]. rewrite Hu'. cbn. by rewrite A5. }
  pose proof H as [I1 I2 I3 I4 I5 I6 I7 I8 I9 I10 I11 I12 I13 I14 I15].
  split; cbn [t2 with_mutable setStMap with_stMap with_tables meta bdb pool stMutable maxStSize stKeyLength];
    rewrite ?A1, ?A2, ?A3, ?A5, ?A6; try done.
  - destruct I1. by split.
  - rewrite Forall_forall in A7. rewrite Forall_forall in Hfs. rewrite Forall_forall. intros g Hg. destruct (A7 g Hg) as (sg & Ha & Hs).
    exists sg. split; [|exact Hs]. specialize (Hfs g Hg). exact (table_at_setStMap t1 st' (gfn g) sg ltac:(lia) Ha).
  - exists st'. split; [done|]. split; [exact Hinv|]. congruence.
  - unfold minFn at 1. cbn. rewrite A1. exact I12.
  - unfold minFn. cbn. by rewrite A1.
Qed.

(** ** A new bitree *)

Lemma open_fresh fuel b0 f1 f2 f3 f4 maxSt kl :
  ixwf b0 -> ix_list b0 = [] -> 0 < kl <= 32768 -> 8 < maxSt ->
  exists t, OpenBitree fuel None b0 f1 f2 f3 f4 (mkDir ∅ ∅) maxSt kl = Ok t /\ binv t [] 1 [] /\ roomy t 1 /\
    stKeyLength t = kl /\ Meta.Bitree.nextFileNum (meta t) = 2.
Proof.
  intros Hb Hl Hkl Hmax. unfold OpenBitree. destruct Meta.Bitree.fresh_bitree_wf as (m & Em & Hm & Hn).
  assert (Hmin : Meta.Bitree.minUnCompactFileNum m = 0).
  { pose proof Em as E. unfold Meta.Bitree.openMetadata in E. destruct (_ =? 0); [done|]. apply rbind_Ok in E as (ver & _ & E).
    apply rbind_Ok in E as (mn & Emn & E). apply rbind_Ok in E as (nx & _ & [= <-]). cbn.
    rewrite create_fields in Emn by done. by injection Emn. }
  rewrite Em. cbn [rbind]. unfold openSuperTables. cbn [pool]. rewrite Hl. cbn [open_loop rbind stMutable]. set (t0 := mkBT m b0 _ _ _ _ _ _).
  destruct (newTable_spec t0) as (m' & st & -> & Hw & Hn' & Hmn' & Hf & Hwr & Hu & Ho); [done|cbn; lia|cbn; rewrite Hn; lia|]. cbn [rbind].
  cbn [t0 meta] in Hn', Hf. rewrite Hn in Hn', Hf. set (t1 := setStMap (with_meta t0 m') st).
  assert (Hat : table_at t1 1 st) by (split; [cbn; rewrite Hf; set_solver|]; split; [cbn; rewrite Hf; by rewrite lookup_insert_eq|done]).
  assert (Hm1 : minFn t1 = 0) by (unfold minFn; cbn; rewrite Hmn'; exact Hmin).
  unfold setBdbMaxKey. destruct (put_update t1 f3 f4 [(BdbMaxKey, EncodeFileNum (fn st))]) as (t2 & -> & M & Iw & L & P & U & X & S & T);
    [done|by repeat constructor|]. cbn [rbind]. eexists. split; [done|].
  cbn [t1 setStMap with_stMap with_tables with_meta t0 bdb maxStSize stKeyLength] in L, X, S. rewrite Hl in L. cbn in L. rewrite Hf in *.
  assert (Hmin2 : minFn t2 = 0) by (unfold minFn; by rewrite M).
  assert (Hat2 : table_at t2 1 st) by (apply T; [lia|done]).
  split; [|split; [|split; [exact S|cbn; rewrite M; cbn; lia]]].
  2: { exists st. split; [apply Hat2|]. rewrite Hu. cbn. by rewrite X. }
  split; cbn [with_mutable meta bdb pool stMutable maxStSize stKeyLength]; rewrite ?M, ?S, ?X, ?P, ?L; try done; try constructor.
  - exists st. split; [exact Hat2|]. split; [exact Hwr|]. by rewrite Ho.
  - repeat constructor.
  - unfold minFn. cbn. rewrite M. cbn. unfold minFn in Hmin2. rewrite M in Hmin2. cbn in Hmin2. repeat constructor. lia.
  - cbn. lia.
  - cbn. lia.
  - unfold minFn in *. cbn. by rewrite Hmin2.
Qed.

(** ** Runs *)

Inductive bop : Type :=
| BFlush (f1 f2 : list Z) (kvs : list kv)
| BCompact (f1 f2 : list Z) (key : bytes)
| BReopen (fuel : nat) (f1 f2 f3 f4 : list Z).

Definition bstep t (o : bop) : outcome bitree :=
  match o with
  | BFlush f1 f2 kvs => flush t f1 f2 kvs
  | BCompact f1 f2 key => CompactTo t f1 f2 key
  | BReopen fuel f1 f2 f3 f4 => reopen fuel t f1 f2 f3 f4
  end.

Fixpoint brun (ops : list bop) t : outcome bitree :=
  match ops with
  | [] => Ok t
  | o :: ops' => let! t := bstep t o in brun ops' t
  end.

Definition flushed (ops : list bop) : list kv := concat ((fun o => if o is BFlush _ _ kvs then kvs else []) <$> ops).
Definition compacted (ops : list bop) : list bytes := concat ((fun o => if o is BCompact _ _ k then [k] else []) <$> ops).

Lemma sorted_kvof es : kv_sorted (kvof <$> es) <-> sorted es.
Proof.
  unfold kv_sorted, sorted. induction es as [|e es IH]; [split; constructor|]. rewrite fmap_cons. split; intros H; inversion H; subst.
  - constructor; [by apply IH|]. by rewrite Forall_fmap in *.
  - constructor; [by apply IH|]. by apply Forall_fmap.
Qed.

Lemma es_get_kvof es k : es_get es k = kv_get (kvof <$> es) k.
Proof. induction es as [|e es IH]; [done|]. rewrite fmap_cons. cbn [es_get kv_get kvof fst snd]. by rewrite IH. Qed.

Lemma vsize_sub a b : vsize b <= vsize (a ++ b).
Proof. rewrite vsize_app. pose proof (vsize_nonneg a). lia. Qed.

(** What holds between the operations: [dropped] went with compactions to the
    keys [cs], and [kvs] is all that was flushed. *)
Record rinv kl t (dropped : list ent) (gs : list group) (fm : Z) (es : list ent) (kvs : list kv) (cs : list bytes) : Prop := mkRinv {
  ri_binv : binv t gs fm es;
  ri_room : roomy t fm;
  ri_kl : stKeyLength t = kl;
  ri_kvs : kvof <$> (dropped ++ entries gs ++ es) = kvs;
  ri_dropped : Forall (fun e => exists c, c ∈ cs /\ bytes_compare (ek e) c < 0) dropped
}.

Lemma bstep_spec kl t dropped gs fm es kvs cs o :
  rinv kl t dropped gs fm es kvs cs -> fits kl (kvs ++ flushed [o]) -> kv_sorted (kvs ++ flushed [o]) ->
  Forall (fun x => bytes_compare x.1 BdbMaxKey < 0) (flushed [o]) -> Meta.Bitree.nextFileNum (meta t) < 4294967296 ->
  exists t' dropped' gs' fm' es', bstep t o = Ok t' /\ rinv kl t' dropped' gs' fm' es' (kvs ++ flushed [o]) (cs ++ compacted [o]) /\
    Meta.Bitree.nextFileNum (meta t') <= Meta.Bitree.nextFileNum (meta t) + 1.
Proof.
  intros [Hi Hr Hkl Hkvs Hd] Hfit Hs Hb Hn. destruct o as [f1 f2 new|f1 f2 key|fuel f1 f2 f3 f4]; unfold flushed, compacted in *;
    cbn [fmap list_fmap concat app bstep] in *; rewrite ?app_nil_r in *.
  - destruct Hfit as [Hfk Hfl Hfv]. apply Forall_app in Hfk as [_ Hfk].
    assert (Hlen : len es <= len kvs) by (rewrite <-Hkvs; unfold len; rewrite length_fmap, !length_app; lia).
    assert (Hvs : vsize (kvof <$> es) <= vsize kvs) by (rewrite <-Hkvs, app_assoc, fmap_app; apply vsize_sub).
    rewrite len_app in Hfl. rewrite vsize_app in Hfv. pose proof (bi_kl _ _ _ _ Hi) as Hklr. unfold keyFileHeaderSize in Hfl.
    assert (Hall : kvof <$> (dropped ++ entries gs ++ es ++ ents (vsize (kvof <$> es)) new) = kvs ++ new).
    { rewrite <-Hkvs, !fmap_app, kvof_ents. by rewrite <-!app_assoc. }
    rewrite <-Hall in Hs. apply sorted_kvof in Hs.
    destruct (flush_spec t gs fm es f1 f2 new Hi Hr) as (t' & gs' & fm' & es' & E & Hi' & Hr' & Ees & A1 & A2 & A3); [by rewrite Hkl|done|nia|lia| | |].
    { by apply StronglySorted_app_1_r in Hs. }
    { by apply (ents_keys (fun k => bytes_compare k BdbMaxKey < 0)). }
    exists t', dropped, gs', fm', es'. split; [done|]. split; [|done]. split; try done; [congruence|]. by rewrite Ees.
  - destruct (CompactTo_spec t gs fm es f1 f2 key Hi Hr) as (t' & gs1 & gs2 & E & -> & Hi' & Hr' & Ho & A1 & A2).
    exists t', (dropped ++ entries gs1), gs2, fm, es. split; [done|]. split; [|lia]. split; try done; [congruence| |].
    + rewrite <-Hkvs, entries_app, <-!app_assoc. done.
    + apply Forall_app. split.
      * eapply Forall_impl; [exact Hd|]. intros e (c & Hc & Hlt). exists c. split; [apply elem_of_app; by left|done].
      * eapply Forall_impl; [exact Ho|]. intros e He. exists key. split; [apply elem_of_app; right; by left|done].
  - destruct (reopen_spec t gs fm es fuel f1 f2 f3 f4 Hi Hr) as (t' & E & Hi' & Hr' & A1 & A2).
    exists t', dropped, gs, fm, es. split; [done|]. split; [|lia]. split; try done. congruence.
Qed.

Lemma brun_spec kl ops t dropped gs fm es kvs cs :
  rinv kl t dropped gs fm es kvs cs -> fits kl (kvs ++ flushed ops) -> kv_sorted (kvs ++ flushed ops) -> 0 <= kl ->
  Forall (fun x => bytes_compare x.1 BdbMaxKey < 0) (flushed ops) -> Meta.Bitree.nextFileNum (meta t) + len ops <= 4294967296 ->
  exists t' dropped' gs' fm' es', brun ops t = Ok t' /\ rinv kl t' dropped' gs' fm' es' (kvs ++ flushed ops) (cs ++ compacted ops).
Proof.
  revert t dropped gs fm es kvs cs. induction ops as [|o ops IH]; intros t dropped gs fm es kvs cs Hr Hf Hs Hkl Hb Hn.
  { exists t, dropped, gs, fm, es. unfold flushed, compacted. cbn. rewrite !app_nil_r. done. }
  assert (E1 : flushed (o :: ops) = flushed [o] ++ flushed ops) by (unfold flushed; cbn; by rewrite app_nil_r).
  assert (E2 : compacted (o :: ops) = compacted [o] ++ compacted ops) by (unfold compacted; cbn; by rewrite app_nil_r).
  rewrite E1 in Hf, Hs, Hb |- *. rewrite E2. rewrite !app_assoc in Hf, Hs |- *. apply Forall_app in Hb as [Hb1 Hb2].
  rewrite len_cons in Hn. pose proof (len_nonneg ops).
  destruct (bstep_spec kl t dropped gs fm es kvs cs o Hr) as (t' & d' & gs' & fm' & es' & E & Hr' & Hn');
    [by eapply fits_app_l|by eapply kv_sorted_app_l|done|lia|].
  cbn [brun]. rewrite E. cbn [rbind]. rewrite (app_assoc cs). apply (IH t' d' gs' fm' es'); try done. lia.
Qed.

(** A lookup between operations. *)
Lemma rinv_get kl t d gs fm es kvs cs k :
  rinv kl t d gs fm es kvs cs -> kv_sorted kvs -> bytes_compare k BdbMaxKey <= 0 ->
  Get t k = Ok (kv_get kvs k) \/ (Get t k = Ok None /\ exists c, c ∈ cs /\ bytes_compare k c < 0).
Proof.
  intros [Hi _ _ Hkvs Hd] Hs Hkb. rewrite (bt_Get_spec t gs fm es k Hi Hkb).
  rewrite <-Hkvs, <-es_get_kvof, (es_get_app d). destruct (decide (k ∈ ek <$> d)) as [Hin|]; [|by left]. right.
  apply list_elem_of_fmap_1 in Hin as (e & -> & He). rewrite Forall_forall in Hd. destruct (Hd e He) as (c & Hc & Hlt).
  split; [|by exists c]. f_equal. apply es_get_absent. intros x Hx Ex.
  rewrite <-Hkvs in Hs. apply sorted_kvof in Hs. pose proof (StronglySorted_app_1_elem_of _ _ _ e x Hs He Hx) as Hc'. cbv beta in Hc'.
  rewrite Ex, (cmp_refl bytes_compare) in Hc'. lia.
Qed.

(** C15: under any sequence of flushes with increasing keys of the fixed length,
    all below ff ff ff ff and with less than 4 GiB of pairs over the whole run,
    compactions and reopenings, and whatever tables the index reports as freed
    meanwhile, every operation succeeds, and the bitree answers a lookup of a
    key up to ff ff ff ff with the value flushed under the key, where an empty
    value counts as none ([kv_get], as [superTable.get] has it); only for keys
    before the key of some compaction it may answer that there is none. *)
Theorem bitree_refines fuel b0 f1 f2 f3 f4 maxSt kl ops :
  ixwf b0 -> ix_list b0 = [] -> 0 < kl <= 32768 -> 8 < maxSt -> fits kl (flushed ops) -> kv_sorted (flushed ops) ->
  Forall (fun x => bytes_compare x.1 BdbMaxKey < 0) (flushed ops) -> len ops < 4294967294 ->
  exists t0 t, OpenBitree fuel None b0 f1 f2 f3 f4 (mkDir ∅ ∅) maxSt kl = Ok t0 /\ brun ops t0 = Ok t /\
    forall k, bytes_compare k BdbMaxKey <= 0 ->
      Get t k = Ok (kv_get (flushed ops) k) \/
      (Get t k = Ok None /\ exists c, c ∈ compacted ops /\ bytes_compare k c < 0).
Proof.
  intros Hb Hl Hkl Hmax Hfit Hs Hbl Hn. destruct (open_fresh fuel b0 f1 f2 f3 f4 maxSt kl Hb Hl Hkl Hmax) as (t0 & E0 & Hi & Hr & Hk & Hnx).
  destruct (brun_spec kl ops t0 [] [] 1 [] [] []) as (t & d & gs & fm & es & E & Hri); [by split|done|done|lia|done|lia|].
  exists t0, t. split; [done|]. split; [done|]. intros k Hkb. by apply (rinv_get kl t d gs fm es).
Qed.
End Invariant.

Definition demo_bops : list bop :=
  [BFlush [] [] [([0; 1], [5]); ([0; 2], [6; 7])]; BFlush [] [] [([0; 3], [8])]; BReopen 0 [] [] [] []; BFlush [] [] [([0; 4], [9])];
   BCompact [1] [] [0; 3]].

Lemma bitree_refines_witness :
  exists t0 t, OpenBitree 0 None ([] : list kv) [] [] [] [] (mkDir ∅ ∅) 20 2 = Ok t0 /\ brun demo_bops t0 = Ok t /\
    Get t [0; 4] = Ok (Some [9]).
Proof.
  destruct (bitree_refines (I := listIndex) (ixwf := StronglySorted key_lt) 0 [] [] [] [] [] 20 2 demo_bops) as (t0 & t & E0 & E & Hg).
  - constructor.
  - reflexivity.
  - lia.
  - lia.
  - split; [repeat constructor|done|done].
  - repeat constructor.
  - repeat constructor.
  - done.
  - exists t0, t. split; [exact E0|]. split; [exact E|]. destruct (Hg [0; 4]) as [->|(_ & c & Hc & Hlt)]; [done|reflexivity|].
    exfalso. unfold compacted in Hc. cbn in Hc. apply list_elem_of_singleton in Hc as ->. vm_compute in Hlt. discriminate Hlt.
Defined.
