(* ===== verification/BitreeIter.v ===== *)
(** The iterator of the bitree (bitree/bitree_iterator.go): the index iterator
    picks the table, the table's iterator the entry, and the bounds are tested on
    what comes out.

    It is modelled over any index iterator that satisfies [IndexIterLaws], the
    contract of bitree/bdb/iterator.go without the two operations that are stubs
    there, and proved to be a cursor over the entries within the bounds. *)

From Stdlib Require Import ZArith Lia.
From stdpp Require Import base numbers option sorting list gmap.
From S2P Require Import Prelude Base Iter Table Meta SuperTable SuperTableSpec Bitree BitreeSpec.
Import SuperTable Bitree.

Module BitreeIter.

(** ** The index iterator *)

Class IndexIterLaws {S : Type} (o : iterOps S) (R : S -> list entry -> Z -> Prop) : Prop := {
  ixi_first : forall s l p, R s l p -> exists s', itFirst o s = Ok (s', lookupZ l 0) /\ R s' l 0;
  ixi_last : forall s l p, R s l p -> exists s', itLast o s = Ok (s', lookupZ l (len l - 1)) /\ R s' l (len l - 1);
  ixi_next : forall s l p, R s l p -> 0 <= p < len l -> exists s', itNext o s = Ok (s', lookupZ l (p + 1)) /\ R s' l (p + 1);
  ixi_prev : forall s l p, R s l p -> 0 <= p < len l -> exists s', itPrev o s = Ok (s', lookupZ l (p - 1)) /\ R s' l (p - 1);
  ixi_seekGE : forall s l p k, R s l p ->
    exists s', itSeekGE o k s = Ok (s', lookupZ l (list_seek bytes_compare k l)) /\ R s' l (list_seek bytes_compare k l)
}.

(** The reference iterator over a list is one. *)
#[export] Instance listOps_index : IndexIterLaws (listOps bytes_compare) (fun s l p => s = (l, p)).
Proof.
  pose proof (listOps_cursor bytes_compare None None) as H. split.
  - intros s l p Hr. by apply (cur_first (CursorLaws := H) s l p).
  - intros s l p Hr. by apply (cur_last (CursorLaws := H) s l p).
  - intros s l p Hr Hp. by apply (cur_next (CursorLaws := H) s l p).
  - intros s l p Hr Hp. by apply (cur_prev (CursorLaws := H) s l p).
  - intros s l p k Hr. by apply (cur_seekGE (CursorLaws := H) s l p k).
Qed.

(** ** The iterator *)

Section Iterator.
Context {B : Type} `{!Index B} (cmp : bytes -> bytes -> Z) {S : Type} (o : iterOps S).

Record BitreeIterator : Type := mkBI {
  btree : bitree (B := B);
  bdbIter : S;
  stIter : option Z;                    (* the current table's iterator, by number *)
  stIters : gmap Z superTableIterator;
  iterKey : option entry;               (* key and value, [None] when the key is nil *)
  lower : option bytes;
  upper : option bytes
}.

Definition with_bdbIter (i : BitreeIterator) s := mkBI (btree i) s (stIter i) (stIters i) (iterKey i) (lower i) (upper i).
Definition with_key (i : BitreeIterator) e := mkBI (btree i) (bdbIter i) (stIter i) (stIters i) e (lower i) (upper i).

(** [Bitree.NewIter] *)
Definition NewIter (t : bitree) (s : S) (lo up : option bytes) : BitreeIterator := mkBI t s None ∅ None lo up.

Definition setStMapIter (i : BitreeIterator) (v : bytes) : outcome (BitreeIterator * bool) :=
  let! f := DecodeFileNum v in
  match stIters i !! f with
  | Some _ => Ok (mkBI (btree i) (bdbIter i) (Some f) (stIters i) (iterKey i) (lower i) (upper i), true)
  | None =>
      match getStMap (btree i) f with
      | None => Ok (i, false)
      | Some st =>
          Ok (mkBI (btree i) (bdbIter i) (Some f) (<[f := newIter st (lower i) (upper i)]> (stIters i)) (iterKey i) (lower i) (upper i), true)
      end
  end.

(** The five [findBdb...] functions: a step of the index iterator, then its
    table. *)
Definition findBdb (m : S -> outcome (S * option entry)) (i : BitreeIterator) : outcome (BitreeIterator * bool) :=
  let! (s, kv) := m (bdbIter i) in
  let i := with_bdbIter i s in
  match kv with
  | None => Ok (i, false)
  | Some e => setStMapIter i e.2
  end.

Definition findBdbFirst := findBdb (itFirst o).
Definition findBdbLast := findBdb (itLast o).
Definition findBdbNext := findBdb (itNext o).
Definition findBdbPrev := findBdb (itPrev o).
Definition findBdbSeekGE (key : bytes) := findBdb (itSeekGE o key).

(** A call on the current table's iterator, whose answer becomes [iterKey]. *)
Definition stCall (m : cursor -> outcome (cursor * option entry)) (i : BitreeIterator) : outcome BitreeIterator :=
  match stIter i with
  | None => Panic
  | Some f =>
      match tables (btree i) !! f, stIters i !! f with
      | Some st, Some it =>
          let! (c, kv) := m (st, it) in
          Ok (mkBI (btree i) (bdbIter i) (stIter i) (<[f := c.2]> (stIters i)) kv (lower i) (upper i))
      | _, _ => Panic
      end
  end.

(** The loops [for i.iterKey == nil]: move the index, ask the table there;
    [false] when the index is exhausted. *)
Fixpoint skip_loop (fuel : nat) (move : BitreeIterator -> outcome (BitreeIterator * bool))
    (m : cursor -> outcome (cursor * option entry)) (i : BitreeIterator) : outcome (BitreeIterator * bool) :=
  match iterKey i with
  | Some _ => Ok (i, true)
  | None =>
      match fuel with
      | O => Err ErrModelFuel
      | Datatypes.S fuel' =>
          let! (i, ok) := move i in
          if negb ok then Ok (i, false)
          else let! i := stCall m i in skip_loop fuel' move m i
      end
  end.

Definition getKV (i : BitreeIterator) : option entry := iterKey i.

Definition check_upper (i : BitreeIterator) : option entry :=
  match iterKey i, upper i with
  | Some e, Some u => if cmp u (InternalKey.UserKey e.1) <=? 0 then None else getKV i
  | _, _ => getKV i
  end.

Definition check_lower (i : BitreeIterator) : option entry :=
  match iterKey i, lower i with
  | Some e, Some b => if 0 <? cmp b (InternalKey.UserKey e.1) then None else getKV i
  | _, _ => getKV i
  end.

(** Each turn of a loop moves the index iterator by one. *)
Definition fuel_of (i : BitreeIterator) : nat := Datatypes.S (length (pool (btree i))).

Definition position (find move : BitreeIterator -> outcome (BitreeIterator * bool))
    (m m' : cursor -> outcome (cursor * option entry)) (check : BitreeIterator -> option entry) (i : BitreeIterator)
    : outcome (BitreeIterator * option entry) :=
  let! (i, ok) := find i in
  if negb ok then Ok (i, None)
  else
    let! i := stCall m i in
    let! (i, ok) := skip_loop (fuel_of i) move m' i in
    if negb ok then Ok (i, None) else Ok (i, check i).

Definition biFirst := position findBdbFirst findBdbNext siFirst siFirst check_upper.
Definition biLast := position findBdbLast findBdbPrev siLast siLast check_lower.
Definition biSeekGE (key : bytes) := position (findBdbSeekGE key) findBdbNext (siSeekGE key) (siSeekGE key) check_upper.
Definition biSeekLT (key : bytes) := position (findBdbSeekGE key) findBdbPrev (siSeekLT key) (siSeekLT key) check_lower.
Definition biSeekPrefixGE (prefix key : bytes) (trySeekUsingNext : bool) := biSeekGE key.

(** A step from the current entry. *)
Definition advance (move : BitreeIterator -> outcome (BitreeIterator * bool))
    (m m' : cursor -> outcome (cursor * option entry)) (check : BitreeIterator -> option entry) (i : BitreeIterator)
    : outcome (BitreeIterator * option entry) :=
  match iterKey i with
  | None => Ok (i, None)
  | Some _ =>
      let! i := stCall m i in
      let! (i, ok) := skip_loop (fuel_of i) move m' i in
      if negb ok then Ok (i, None) else Ok (i, check i)
  end.

Definition biNext := advance findBdbNext siNext siFirst check_upper.
Definition biPrev := advance findBdbPrev siPrev siLast check_lower.

Definition biSetBounds (lo up : option bytes) (i : BitreeIterator) : BitreeIterator :=
  mkBI (btree i) (bdbIter i) (stIter i) (stIters i) (iterKey i) lo up.

Definition biOps : iterOps BitreeIterator := {|
  itSeekGE := biSeekGE; itSeekPrefixGE := biSeekPrefixGE; itSeekLT := biSeekLT;
  itFirst := biFirst; itLast := biLast; itNext := biNext; itPrev := biPrev;
  itError _ := None; itSetBounds := biSetBounds
|}.

End Iterator.

(** ** The tables as one list *)

Abbreviation UserKey e := (InternalKey.UserKey (fst e)).

(** What the iterator relies on: every table of the index is there, and their
    entries follow one another. *)
Record tabs_ok {B : Type} `{!Index B} (t : bitree (B := B)) (G : list group) : Prop := mkTabs {
  to_at : Forall (fun g => exists st, table_at t (gfn g) st /\ reads st (ges g) /\ keyReadable st = len (ges g)) G;
  to_fn : Forall (fun g => 0 <= gfn g < 4294967296) G;
  to_nodup : NoDup (gfn <$> G);
  to_sorted : sorted (entries G);
  to_keys : forall g e, g ∈ G -> e ∈ ges g -> bytes_compare (ek e) (gkey g) <= 0;
  to_between : forall i j g g' e, G !! i = Some g -> G !! j = Some g' -> (i < j)%nat -> e ∈ ges g' -> bytes_compare (gkey g) (ek e) < 0;
  to_pool : pool t = (fun g => (gkey g, EncodeFileNum (gfn g))) <$> G
}.

(** The entries before table [j]. *)
Definition off (G : list group) (j : nat) : Z := len (entries (take j G)).

Lemma off_S G j g : G !! j = Some g -> off G (S j) = off G j + len (ges g).
Proof.
  intros Hj. unfold off. rewrite (take_S_r _ _ _ Hj), entries_app, len_app. unfold entries at 2. cbn. by rewrite app_nil_r.
Qed.

Lemma entries_at G j g : G !! j = Some g -> entries G = entries (take j G) ++ ges g ++ entries (drop (S j) G).
Proof. intros Hj. rewrite <-(take_drop_middle G j g Hj) at 1. by rewrite entries_app, entries_cons. Qed.

Lemma lookupZ_app_mid {A} (a b c : list A) i : 0 <= i < len b -> lookupZ (a ++ b ++ c) (len a + i) = lookupZ b i.
Proof.
  intros Hi. pose proof (len_nonneg a). unfold lookupZ. destruct (Z.ltb_spec (len a + i) 0), (Z.ltb_spec i 0); try lia.
  rewrite lookup_app_r by (unfold len; lia). replace (Z.to_nat (len a + i) - length a)%nat with (Z.to_nat i) by (unfold len; lia).
  rewrite lookup_app_l; [done|]. unfold len in *. lia.
Qed.

Definition all_items (G : list group) : list entry := item <$> entries G.

Lemma lookup_table G j g p : G !! j = Some g -> 0 <= p < len (ges g) -> lookupZ (all_items G) (off G j + p) = lookupZ (item <$> ges g) p.
Proof.
  intros Hj Hp. unfold all_items. rewrite (entries_at _ _ _ Hj), !lookupZ_fmap. f_equal. by apply lookupZ_app_mid.
Qed.

Lemma off_end G : off G (length G) = len (all_items G).
Proof. unfold off, all_items. rewrite take_ge by done. by rewrite len_items. Qed.

Lemma cmp_ge cmp `{!Comparator cmp} a b : 0 <= cmp a b <-> cmp b a <= 0.
Proof. pose proof (cmp_sym (cmp := cmp) a b). lia. Qed.

(** Seeking in a list made of parts. *)
Lemma list_seek_app_lt cmp k a b :
  Forall (fun e => cmp (UserKey e) k < 0) a -> list_seek cmp k (a ++ b) = len a + list_seek cmp k b.
Proof.
  induction 1 as [|e a He Ha IH]; [done|]. cbn [app list_seek]. rewrite IH, len_cons. destruct (Z.ltb_spec (cmp (UserKey e) k) 0); lia.
Qed.

Lemma list_seek_app_ge cmp k a b :
  Forall (fun e => 0 <= cmp (UserKey e) k) b -> list_seek cmp k (a ++ b) = list_seek cmp k a.
Proof.
  intros Hb. induction a as [|e a IH]; cbn [app list_seek]; [|by rewrite IH].
  destruct Hb as [|e b He Hb]; cbn [list_seek]; [done|]. destruct (Z.ltb_spec (cmp (UserKey e) k) 0); lia.
Qed.

Lemma list_seek_lt_all cmp k a : Forall (fun e => cmp (UserKey e) k < 0) a -> list_seek cmp k a = len a.
Proof. intros Ha. rewrite <-(app_nil_r a) at 1. rewrite list_seek_app_lt by done. cbn. lia. Qed.

Lemma list_seek_zero cmp k a : Forall (fun e => 0 <= cmp (UserKey e) k) a -> list_seek cmp k a = 0.
Proof. intros Ha. by apply (list_seek_app_ge cmp k [] a). Qed.

Lemma list_seek_hit cmp k l e : lookupZ l (list_seek cmp k l) = Some e -> 0 <= cmp (UserKey e) k.
Proof.
  induction l as [|x l IH]; cbn [list_seek]; [by rewrite lookupZ_nil|]. pose proof (list_seek_range cmp k l).
  destruct (Z.ltb_spec (cmp (UserKey x) k) 0) as [|Hge].
  - rewrite lookupZ_cons by lia. replace (1 + list_seek cmp k l - 1) with (list_seek cmp k l) by lia. done.
  - by intros [= <-].
Qed.

Lemma list_seek_app cmp k a b :
  list_seek cmp k (a ++ b) = list_seek cmp k a \/ (list_seek cmp k a = len a /\ len a <= list_seek cmp k (a ++ b)).
Proof.
  induction a as [|e a IH]; cbn [app list_seek].
  - right. split; [done|apply list_seek_range].
  - rewrite len_cons. destruct (cmp (UserKey e) k <? 0); [|by left]. destruct IH as [->|[-> H]]; [by left|right; lia].
Qed.

(** ** Bounds *)

Definition below (lo : option bytes) (e : entry) : Prop := exists b, lo = Some b /\ bytes_compare (UserKey e) b < 0.
Definition above (up : option bytes) (e : entry) : Prop := exists b, up = Some b /\ 0 <= bytes_compare (UserKey e) b.

Definition in_bounds (lo up : option bytes) (e : entry) : bool :=
  match lo with None => true | Some b => 0 <=? bytes_compare (UserKey e) b end &&
  match up with None => true | Some b => bytes_compare (UserKey e) b <? 0 end.

Definition within (lo up : option bytes) (l : list entry) : list entry := filter (fun e => in_bounds lo up e) l.

Lemma filter_mid {A} (P : A -> Prop) `{!forall x, Decision (P x)} a b c :
  Forall (fun x => ~ P x) a -> Forall P b -> Forall (fun x => ~ P x) c -> filter P (a ++ b ++ c) = b.
Proof.
  intros Ha Hb Hc. rewrite !filter_app.
  assert (forall l, Forall (fun x => ~ P x) l -> filter P l = []) as Hn by (induction 1; [done|by rewrite filter_cons_False]).
  rewrite (Hn a Ha), (Hn c Hc), app_nil_r. cbn. clear Ha Hc Hn. induction Hb; [done|]. rewrite filter_cons_True by done. by f_equal.
Qed.

Lemma seek_split k (l : list entry) :
  StronglySorted (fun a b => bytes_compare (UserKey a) (UserKey b) < 0) l ->
  exists a b, l = a ++ b /\ Forall (fun e => bytes_compare (UserKey e) k < 0) a /\ Forall (fun e => 0 <= bytes_compare (UserKey e) k) b.
Proof.
  induction 1 as [|e l Hs IH He]; [by exists [], []|]. destruct (Z.lt_ge_cases (bytes_compare (UserKey e) k) 0) as [Hlt|Hge].
  - destruct IH as (a & b & -> & Ha & Hb). exists (e :: a), b. split; [done|]. split; [by constructor|done].
  - exists [], (e :: l). split; [done|]. split; [constructor|]. constructor; [done|]. eapply Forall_impl; [exact He|]. intros x Hx. cbn in *.
    apply (cmp_ge bytes_compare) in Hge. apply (cmp_ge bytes_compare (UserKey x)), Z.lt_le_incl. by eapply (cmp_le_lt_trans bytes_compare).
Qed.

(** A sorted list is what is below the bounds, within them and above them. *)
Lemma bounds_split lo up l :
  StronglySorted (fun a b => bytes_compare (UserKey a) (UserKey b) < 0) l ->
  exists a c, l = a ++ within lo up l ++ c /\ Forall (below lo) a /\ Forall (above up) c /\ Forall (fun e => in_bounds lo up e) (within lo up l).
Proof.
  intros Hs.
  assert (exists a r, l = a ++ r /\ Forall (below lo) a /\ Forall (fun e => ~ below lo e) r) as (a & r & E1 & Ha & Hr).
  { destruct lo as [b|].
    - destruct (seek_split b l Hs) as (a & r & -> & Ha & Hr). exists a, r. split; [done|]. split; [|];
        (eapply Forall_impl; [eassumption|]); cbn; intros e He; [by exists b|]. intros (b' & [= <-] & Hlt). lia.
    - exists [], l. split; [done|]. split; [constructor|]. apply Forall_forall. intros e _ (b & [=] & _). }
  assert (Hs' : StronglySorted (fun a b => bytes_compare (UserKey a) (UserKey b) < 0) r) by (rewrite E1 in Hs; by apply StronglySorted_app_1_r in Hs).
  assert (exists m c, r = m ++ c /\ Forall (fun e => ~ above up e) m /\ Forall (above up) c) as (m & c & E2 & Hm & Hc).
  { destruct up as [b|].
    - destruct (seek_split b r Hs') as (m & c & -> & Hm & Hc). exists m, c. split; [done|]. split;
        (eapply Forall_impl; [eassumption|]); cbn; intros e He; [|by exists b]. intros (b' & [= <-] & Hlt). lia.
    - exists r, []. rewrite app_nil_r. split; [done|]. split; [|constructor]. apply Forall_forall. intros e _ (b & [=] & _). }
  subst r. apply Forall_app in Hr as [Hr _].
  assert (Hin : Forall (fun e => in_bounds lo up e) m).
  { rewrite Forall_forall in Hm, Hr |- *. intros e He. specialize (Hm e He). specialize (Hr e He). unfold in_bounds. apply andb_True. split.
    - destruct lo as [b|]; [|done]. apply Is_true_true, Z.leb_le. destruct (Z.le_gt_cases 0 (bytes_compare (UserKey e) b)); [done|]. destruct Hr. by exists b.
    - destruct up as [b|]; [|done]. apply Is_true_true, Z.ltb_lt. destruct (Z.lt_ge_cases (bytes_compare (UserKey e) b) 0); [done|]. destruct Hm. by exists b. }
  assert (Ew : within lo up l = m).
  { rewrite E1. apply filter_mid; [|done|].
    - eapply Forall_impl; [exact Ha|]. cbn. intros e (b & -> & Hlt) [H _]%andb_True. apply Is_true_true, Z.leb_le in H. lia.
    - eapply Forall_impl; [exact Hc|]. cbn. intros e (b & -> & Hlt) [_ H]%andb_True. apply Is_true_true, Z.ltb_lt in H. lia. }
  exists a, c. rewrite Ew. done.
Qed.

(** The contract of the bitree's iterator: that of a cursor over the entries
    within the bounds, except that a seek backwards needs a key the index has a
    table for. *)
Class BoundedCursor (lo up : option bytes) {S : Type} (o : iterOps S) (R : S -> list entry -> Z -> Prop) : Prop := {
  bc_seekGE : forall s l p k, R s l p -> (forall b, lo = Some b -> 0 <= bytes_compare k b) ->
    exists s', itSeekGE o k s = Ok (s', lookupZ l (list_seek bytes_compare k l)) /\ R s' l (list_seek bytes_compare k l);
  bc_seekLT : forall s l p k, R s l p -> (forall b, up = Some b -> bytes_compare k b <= 0) -> bytes_compare k BdbMaxKey <= 0 ->
    exists s', itSeekLT o k s = Ok (s', lookupZ l (list_seek bytes_compare k l - 1)) /\ R s' l (list_seek bytes_compare k l - 1);
  bc_first : forall s l p, R s l p -> lo = None -> exists s', itFirst o s = Ok (s', lookupZ l 0) /\ R s' l 0;
  bc_last : forall s l p, R s l p -> up = None -> exists s', itLast o s = Ok (s', lookupZ l (len l - 1)) /\ R s' l (len l - 1);
  bc_next : forall s l p, R s l p -> 0 <= p < len l -> exists s', itNext o s = Ok (s', lookupZ l (p + 1)) /\ R s' l (p + 1);
  bc_prev : forall s l p, R s l p -> 0 <= p < len l -> exists s', itPrev o s = Ok (s', lookupZ l (p - 1)) /\ R s' l (p - 1)
}.

Section Cursor.
Context {B : Type} {I : Index B} {S : Type} (o : iterOps S) (R : S -> list entry -> Z -> Prop) `{!IndexIterLaws o R}.
Context (t : bitree (B := B)) (G : list group) (HG : tabs_ok t G) (lo up : option bytes).
Implicit Types i : BitreeIterator (B := B) (S := S).

Definition ixl : list entry := kv_item <$> pool t.

Lemma len_ixl : len ixl = Z.of_nat (length G).
Proof. unfold ixl, len. rewrite length_fmap, (to_pool _ _ HG), length_fmap. done. Qed.

Lemma ixl_lookup j g : G !! j = Some g -> lookupZ ixl (Z.of_nat j) = Some (InternalKey.MakeInternalSetKey (gkey g), EncodeFileNum (gfn g)).
Proof.
  intros Hj. unfold ixl. rewrite (to_pool _ _ HG), lookupZ_fmap. unfold lookupZ. destruct (Z.ltb_spec (Z.of_nat j) 0); [lia|].
  rewrite Nat2Z.id, list_lookup_fmap, Hj. done.
Qed.

(** The part of the state that holds everywhere. *)
Record ok i : Prop := mkOk {
  ok_tree : btree i = t;
  ok_lo : lower i = lo;
  ok_up : upper i = up;
  ok_bdb : exists q, R (bdbIter i) ixl q;
  ok_iters : forall f it, stIters i !! f = Some it -> exists g, g ∈ G /\ gfn g = f /\ keyNum it = len (ges g)
}.

(** The index iterator and the current table are those of [g], number [j]. *)
Record cur i (j : nat) (g : group) : Prop := mkCur {
  cur_ok : ok i;
  cur_g : G !! j = Some g;
  cur_bdb : R (bdbIter i) ixl (Z.of_nat j);
  cur_st : stIter i = Some (gfn g);
  cur_it : exists it, stIters i !! gfn g = Some it /\ keyNum it = len (ges g)
}.

(** And the table's iterator is at [p]. *)
Definition at_ i (j : nat) (g : group) (p : Z) : Prop :=
  cur i j g /\ iterKey i = lookupZ (item <$> ges g) p /\
  (0 <= p < len (ges g) -> exists it, stIters i !! gfn g = Some it /\ keyPos it = p).

Lemma findBdb_spec i m s' z :
  ok i -> m (bdbIter i) = Ok (s', lookupZ ixl z) -> R s' ixl z ->
  exists i' b, findBdb m i = Ok (i', b) /\ ok i' /\ iterKey i' = iterKey i /\ R (bdbIter i') ixl z /\
    match lookupZ ixl z with
    | None => b = false
    | Some _ => b = true /\ exists g, G !! Z.to_nat z = Some g /\ cur i' (Z.to_nat z) g
    end.
Proof.
  intros Hok Hm HR. pose proof Hok as [Ht Hl Hu _ Hit]. unfold findBdb. rewrite Hm. cbn [rbind].
  destruct (lookupZ ixl z) as [e|] eqn:Ez.
  2: { eexists _, _. split; [done|]. split; [|done]. split; try done. by exists z. }
  pose proof (lookupZ_is_Some _ _ _ Ez) as Hz. rewrite len_ixl in Hz.
  destruct (lookup_lt_is_Some_2 G (Z.to_nat z)) as [g Hg]; [lia|]. pose proof (ixl_lookup _ _ Hg) as Hx. rewrite Z2Nat.id in Hx by lia.
  rewrite Ez in Hx. injection Hx as ->. cbn [snd]. unfold setStMapIter. pose proof (list_elem_of_lookup_2 _ _ _ Hg) as Hin.
  pose proof (to_fn _ _ HG) as Hfn. rewrite Forall_forall in Hfn. rewrite DecodeEncode by (by apply Hfn). cbn [rbind with_bdbIter stIters btree].
  assert (HRz : R s' ixl (Z.of_nat (Z.to_nat z))) by (by rewrite Z2Nat.id by lia).
  destruct (stIters i !! gfn g) as [it|] eqn:Eit.
  - eexists _, _. split; [done|]. assert (Hok' : ok (mkBI (btree i) s' (Some (gfn g)) (stIters i) (iterKey i) (lower i) (upper i))) by (split; try done; by exists z).
    split; [done|]. split; [done|]. split; [done|]. split; [done|]. exists g. split; [done|]. split; try done.
    destruct (Hit _ _ Eit) as (g' & Hg' & Ef & Hn). exists it. split; [done|]. rewrite Hn. do 2 f_equal.
    apply list_elem_of_lookup_1 in Hg' as [j' Hg']. assert (j' = Z.to_nat z) as ->; [|congruence].
    apply (NoDup_lookup _ j' (Z.to_nat z) (gfn g) (to_nodup _ _ HG)); rewrite list_lookup_fmap; [rewrite Hg'; cbn; congruence|by rewrite Hg].
  - pose proof (to_at _ _ HG) as Hat. rewrite Forall_forall in Hat. destruct (Hat g Hin) as (st & Ha & Hrd & Hn).
    rewrite Ht, (table_get _ _ _ Ha). eexists _, _. split; [done|].
    assert (Hok' : ok (mkBI t s' (Some (gfn g)) (<[gfn g:=newIter st (lower i) (upper i)]> (stIters i)) (iterKey i) (lower i) (upper i))).
    { split; try done; [by exists z|]. cbn [stIters]. intros f it. destruct (decide (f = gfn g)) as [->|Hne].
      - rewrite lookup_insert_eq. intros [= <-]. exists g. split; [done|]. split; [done|]. exact Hn.
      - rewrite lookup_insert_ne by done. apply Hit. }
    split; [done|]. split; [done|]. split; [done|]. split; [done|]. exists g. split; [done|]. split; try done.
    exists (newIter st (lower i) (upper i)). cbn [stIters]. by rewrite lookup_insert_eq.
Qed.

(** An operation of a table's iterator that moves it to [q]. *)
Definition moves (m : cursor -> outcome (cursor * option entry)) (l : list entry) (p q : Z) : Prop :=
  forall c, st_at c l p -> exists c', m c = Ok (c', lookupZ l q) /\ st_at c' l q /\ c'.1 = c.1 /\ keyNum c'.2 = keyNum c.2.

Lemma stCall_spec i j g p q m :
  cur i j g -> (0 <= p < len (ges g) -> exists it, stIters i !! gfn g = Some it /\ keyPos it = p) -> moves m (item <$> ges g) p q ->
  exists i', stCall m i = Ok i' /\ at_ i' j g q.
Proof.
  intros Hc Hp Hm. pose proof Hc as [Hok Hg HR Hst (it & Hit & Hn)]. pose proof Hok as [Ht Hl Hu Hb Hits]. unfold stCall.
  pose proof (list_elem_of_lookup_2 _ _ _ Hg) as Hin. pose proof (to_at _ _ HG) as Hat. rewrite Forall_forall in Hat.
  destruct (Hat g Hin) as (st & Ha & Hrd & _). pose proof Ha as (_ & Htb & _). rewrite Hst, Ht, Htb, Hit.
  destruct (Hm (st, it)) as (c' & E & Hat' & E1 & E2).
  { exists (ges g). split; [done|]. split; [|split; [done|split; [done|]]].
    - pose proof (to_sorted _ _ HG) as Hs. rewrite (entries_at _ _ _ Hg) in Hs. by apply StronglySorted_app_1_r, StronglySorted_app_1_l in Hs.
    - rewrite len_items. intros Hr. destruct (Hp Hr) as (it' & Hit' & Hk). cbn [snd]. congruence. }
  rewrite E. cbn [rbind]. eexists. split; [done|]. split; [|split; [done|]].
  - split; try done.
    + split; try done. cbn [stIters]. intros f it'. destruct (decide (f = gfn g)) as [->|Hne].
      * rewrite lookup_insert_eq. intros [= <-]. exists g. split; [done|]. split; [done|]. by rewrite E2.
      * rewrite lookup_insert_ne by done. apply Hits.
    + exists c'.2. cbn [stIters]. rewrite lookup_insert_eq. split; [done|]. by rewrite E2.
  - intros Hr. exists c'.2. cbn [stIters]. rewrite lookup_insert_eq. split; [done|].
    destruct Hat' as (es & _ & _ & El & _ & Hpos). apply Hpos. by rewrite len_items.
Qed.

Lemma at_pos_keeps c q c' kv : at_pos c q = Ok (c', kv) -> c'.1 = c.1 /\ keyNum c'.2 = keyNum c.2.
Proof. intros [= <- _]. done. Qed.

(** Every operation of the table iterator stays on its table. *)
Lemma moves_law m l p q :
  (forall c, st_at c l p -> exists c', m c = Ok (c', lookupZ l q) /\ st_at c' l q) ->
  (forall c c' kv, m c = Ok (c', kv) -> c'.1 = c.1 /\ keyNum c'.2 = keyNum c.2) -> moves m l p q.
Proof. intros H1 H2 c Hc. destruct (H1 c Hc) as (c' & E & Hat). exists c'. destruct (H2 _ _ _ E). done. Qed.

Lemma moves_first l p : moves siFirst l p 0.
Proof. apply moves_law; [|intros *; apply at_pos_keeps]. intros c Hc. by apply (Iter.cur_first (CursorLaws := stOps_cursor) c l p). Qed.

Lemma moves_last l p : moves siLast l p (len l - 1).
Proof. apply moves_law; [|intros *; apply at_pos_keeps]. intros c Hc. by apply (Iter.cur_last (CursorLaws := stOps_cursor) c l p). Qed.

Lemma moves_next l p : 0 <= p < len l -> moves siNext l p (p + 1).
Proof. intros Hp. apply moves_law; [|intros *; apply at_pos_keeps]. intros c Hc. by apply (Iter.cur_next (CursorLaws := stOps_cursor) c l p). Qed.

Lemma moves_prev l p : 0 <= p < len l -> moves siPrev l p (p - 1).
Proof. intros Hp. apply moves_law; [|intros *; apply at_pos_keeps]. intros c Hc. by apply (Iter.cur_prev (CursorLaws := stOps_cursor) c l p). Qed.

Lemma moves_seekGE k l p : moves (siSeekGE k) l p (list_seek bytes_compare k l).
Proof.
  apply moves_law.
  - intros c Hc. by apply (Iter.cur_seekGE (CursorLaws := stOps_cursor) c l p k).
  - unfold siSeekGE. intros c c' kv (q & _ & E)%rbind_Ok. by eapply at_pos_keeps.
Qed.

Lemma moves_seekLT k l p : moves (siSeekLT k) l p (list_seek bytes_compare k l - 1).
Proof.
  apply moves_law.
  - intros c Hc. by apply (Iter.cur_seekLT (CursorLaws := stOps_cursor) c l p k).
  - unfold siSeekLT. intros c c' kv (q & _ & E)%rbind_Ok. apply rbind_Ok in E as ([c1 kv1] & E1 & E).
    apply at_pos_keeps in E1 as [A1 A2]. destruct kv1; apply at_pos_keeps in E as [B1 B2]; cbn [fst snd] in *; split; congruence.
Qed.

Lemma at_cur i j g p : at_ i j g p -> cur i j g.
Proof. by intros (? & _). Qed.

Lemma at_next_room i j g p : at_ i j g p -> iterKey i = None -> ~ (0 <= p < len (ges g)).
Proof. intros (_ & E & _) En Hp. rewrite En in E. destruct (lookupZ_Some (item <$> ges g) p) as [x Hx]; [by rewrite len_items|congruence]. Qed.

(** What a positioning operation leaves: at entry [q] of all entries, or behind
    them. *)
Definition full i (q : Z) : Prop := exists j g p, at_ i j g p /\ 0 <= p < len (ges g) /\ off G j + p = q.

Definition lands (r : outcome (BitreeIterator (B := B) (S := S) * bool)) (q : Z) : Prop :=
  exists i b, r = Ok (i, b) /\ ok i /\
    match lookupZ (all_items G) q with
    | Some e => b = true /\ full i q /\ iterKey i = Some e
    | None => b = false
    end.

Lemma at_lands i j g p : at_ i j g p -> 0 <= p < len (ges g) -> lands (Ok (i, true)) (off G j + p).
Proof.
  intros Hat Hp. pose proof Hat as (Hc & Ek & _). exists i, true. split; [done|]. split; [apply Hc|].
  rewrite (lookup_table _ _ _ _ (cur_g _ _ _ Hc) Hp), <-Ek. destruct (iterKey i) eqn:E.
  - split; [done|]. split; [|done]. by exists j, g, p.
  - by destruct (at_next_room _ _ _ _ Hat E).
Qed.

Lemma skip_some fuel move m i e : iterKey i = Some e -> skip_loop fuel move m i = Ok (i, true).
Proof. intros E. destruct fuel; cbn [skip_loop]; by rewrite E. Qed.

(** Forwards: an exhausted table is followed by the first entry behind it. *)
Lemma skip_forward m fuel i j g p :
  at_ i j g p -> 0 <= p <= len (ges g) -> (length G - j < fuel)%nat ->
  (forall j' g', (j < j')%nat -> G !! j' = Some g' -> exists p', moves m (item <$> ges g') p' 0 /\ ~ (0 <= p' < len (ges g'))) ->
  lands (skip_loop fuel (findBdbNext o) m i) (off G j + p).
Proof.
  revert i j g p. induction fuel as [|fuel IH]; intros i j g p Hat Hp Hf Hm; [lia|].
  destruct (iterKey i) as [e|] eqn:Ek.
  - rewrite (skip_some _ _ _ _ _ Ek). apply (at_lands _ _ _ _ Hat). destruct (Z.eq_dec p (len (ges g))) as [->|]; [|lia].
    pose proof Hat as (_ & E & _). rewrite Ek, lookupZ_None in E by (rewrite len_items; lia). done.
  - cbn [skip_loop]. rewrite Ek. pose proof (at_next_room _ _ _ _ Hat Ek) as Hn. assert (p = len (ges g)) as -> by lia. clear Hp Hn.
    destruct Hat as (Hc & _ & _). pose proof Hc as [Hok Hg HR _ _]. pose proof (lookup_lt_Some _ _ _ Hg).
    rewrite <-(off_S _ _ _ Hg).
    destruct (ixi_next _ _ _ HR) as (s' & E & HR'); [rewrite len_ixl; lia|].
    destruct (findBdb_spec i (itNext o) s' (Z.of_nat j + 1) Hok E HR') as (i' & b & E' & Hok' & Ek' & HR2 & Hm').
    unfold findBdbNext at 1. rewrite E'. cbn [rbind]. replace (Z.of_nat j + 1) with (Z.of_nat (Datatypes.S j)) in * by lia.
    destruct (G !! Datatypes.S j) as [g'|] eqn:Eg'.
    + rewrite (ixl_lookup _ _ Eg') in Hm'. destruct Hm' as (-> & g2 & Hg2 & Hc2). rewrite Nat2Z.id in Hg2, Hc2. assert (g2 = g') as -> by congruence. cbn [negb].
      destruct (Hm (Datatypes.S j) g' ltac:(lia) Eg') as (p' & Hmv & Hout).
      destruct (stCall_spec i' _ g' p' 0 m Hc2 ltac:(intros; by destruct Hout) Hmv) as (i2 & -> & Hat2). cbn [rbind].
      rewrite <-(Z.add_0_r (off G (Datatypes.S j))). apply (IH i2 _ g' 0 Hat2); [pose proof (len_nonneg (ges g')); lia|lia|].
      intros j' g3 Hj' Hg3. apply (Hm j'); [lia|done].
    + rewrite lookupZ_None in Hm' by (rewrite len_ixl; apply lookup_ge_None in Eg'; lia). subst b. cbn [negb].
      exists i', false. split; [done|]. split; [done|]. apply lookup_ge_None in Eg'.
      assert (Datatypes.S j = length G) as -> by lia. rewrite off_end, lookupZ_None by lia. done.
Qed.

(** Backwards. *)
Lemma skip_backward m fuel i j g p :
  at_ i j g p -> -1 <= p < Z.max 1 (len (ges g)) -> (p = -1 \/ p < len (ges g)) -> (j < fuel)%nat ->
  (forall j' g', (j' < j)%nat -> G !! j' = Some g' -> exists p', moves m (item <$> ges g') p' (len (ges g') - 1) /\ ~ (0 <= p' < len (ges g'))) ->
  lands (skip_loop fuel (findBdbPrev o) m i) (off G j + p).
Proof.
  revert i j g p. induction fuel as [|fuel IH]; intros i j g p Hat Hp Hp1 Hf Hm; [lia|].
  destruct (iterKey i) as [e|] eqn:Ek.
  - rewrite (skip_some _ _ _ _ _ Ek). apply (at_lands _ _ _ _ Hat). pose proof Hat as (_ & E & _). rewrite Ek in E. symmetry in E.
    apply lookupZ_is_Some in E. by rewrite len_items in E.
  - cbn [skip_loop]. rewrite Ek. pose proof (at_next_room _ _ _ _ Hat Ek) as Hn. assert (p = -1) as -> by lia. clear Hp Hp1 Hn.
    destruct Hat as (Hc & _ & _). pose proof Hc as [Hok Hg HR _ _]. pose proof (lookup_lt_Some _ _ _ Hg).
    destruct (ixi_prev _ _ _ HR) as (s' & E & HR'); [rewrite len_ixl; lia|].
    destruct (findBdb_spec i (itPrev o) s' (Z.of_nat j - 1) Hok E HR') as (i' & b & E' & Hok' & Ek' & HR2 & Hm').
    unfold findBdbPrev at 1. rewrite E'. cbn [rbind]. destruct j as [|j].
    + assert (b = false) as -> by exact Hm'. cbn [negb]. exists i', false. split; [done|]. split; [done|]. done.
    + replace (Z.of_nat (Datatypes.S j) - 1) with (Z.of_nat j) in * by lia.
      destruct (lookup_lt_is_Some_2 G j) as [g' Eg']; [lia|].
      rewrite (ixl_lookup _ _ Eg') in Hm'. destruct Hm' as (-> & g2 & Hg2 & Hc2). rewrite Nat2Z.id in Hg2, Hc2. assert (g2 = g') as -> by congruence. cbn [negb].
      destruct (Hm j g' ltac:(lia) Eg') as (p' & Hmv & Hout).
      destruct (stCall_spec i' _ g' p' _ m Hc2 ltac:(intros; by destruct Hout) Hmv) as (i2 & -> & Hat2). cbn [rbind].
      replace (off G (Datatypes.S j) + -1) with (off G j + (len (ges g') - 1)) by (rewrite (off_S _ _ _ Eg'); lia).
      pose proof (len_nonneg (ges g')). apply (IH i2 _ g' _ Hat2); [lia|lia|lia|]. intros j' g3 Hj' Hg3. apply (Hm j'); [lia|done].
Qed.

Lemma fuel_G i : ok i -> fuel_of i = Datatypes.S (length G).
Proof. intros [Ht _ _ _ _]. unfold fuel_of. by rewrite Ht, (to_pool _ _ HG), length_fmap. Qed.

(** The answer of a whole operation that goes for entry [q]. *)
Definition answers (r : outcome (BitreeIterator (B := B) (S := S) * option entry)) (check : BitreeIterator -> option entry) (q : Z) : Prop :=
  exists i kv, r = Ok (i, kv) /\ ok i /\
    match lookupZ (all_items G) q with
    | Some e => full i q /\ iterKey i = Some e /\ kv = check i
    | None => kv = None
    end.

Lemma lands_answers (r : outcome (BitreeIterator (B := B) (S := S) * bool)) check q :
  lands r q -> answers (let! (i, b) := r in if negb b then Ok (i, None) else Ok (i, check i)) check q.
Proof.
  intros (i & b & -> & Hok & Hq). cbn [rbind]. destruct (lookupZ (all_items G) q) as [e|] eqn:Eq.
  - destruct Hq as (-> & Hf & Hk). exists i, (check i). rewrite Eq. done.
  - subst b. exists i, None. rewrite Eq. done.
Qed.

Lemma position_spec mf move m m' check i z q s' :
  ok i -> mf (bdbIter i) = Ok (s', lookupZ ixl z) -> R s' ixl z ->
  (lookupZ ixl z = None -> lookupZ (all_items G) q = None) ->
  (forall g, 0 <= z -> G !! Z.to_nat z = Some g -> exists p, moves m (item <$> ges g) (-1) p /\
    forall i', at_ i' (Z.to_nat z) g p -> lands (skip_loop (Datatypes.S (length G)) move m' i') q) ->
  answers (position (findBdb mf) move m m' check i) check q.
Proof.
  intros Hok Em HR Hno Hyes. unfold position. destruct (findBdb_spec i mf s' z Hok Em HR) as (i1 & b & -> & Hok1 & Ek & HR1 & Hz). cbn [rbind].
  destruct (lookupZ ixl z) as [e|] eqn:Ez.
  - destruct Hz as (-> & g & Hg & Hc). cbn [negb]. apply lookupZ_is_Some in Ez. destruct (Hyes g ltac:(lia) Hg) as (p & Hm & Hl).
    destruct (stCall_spec i1 _ g (-1) p m Hc ltac:(lia) Hm) as (i2 & -> & Hat). cbn [rbind].
    rewrite (fuel_G i2) by apply Hat. apply lands_answers, (Hl _ Hat).
  - subst b. cbn [negb]. exists i1, None. rewrite (Hno eq_refl). done.
Qed.

Lemma first_spec i : ok i -> answers (biFirst bytes_compare o i) (check_upper bytes_compare) 0.
Proof.
  intros Hok. pose proof Hok as [_ _ _ [q0 HR] _]. destruct (ixi_first _ _ _ HR) as (s' & E & HR').
  apply (position_spec (itFirst o) _ _ _ _ i 0 0 s'); [done|done|done| |].
  - intros En. destruct (lookupZ ixl 0) eqn:E0; [done|]. unfold all_items. destruct (decide (length G = 0%nat)) as [E1|].
    + apply length_zero_iff_nil in E1. by rewrite E1.
    + destruct (lookupZ_Some ixl 0) as [x Hx]; [|congruence]. rewrite len_ixl. lia.
  - intros g _ Hg. exists 0. split; [apply moves_first|]. intros i' Hat.
    replace 0 with (off G 0 + 0) by done. apply (skip_forward siFirst _ _ _ g 0 Hat); [pose proof (len_nonneg (ges g)); lia|lia|].
    intros j' g' _ _. exists (-1). split; [apply moves_first|lia].
Qed.

Lemma last_spec i : ok i -> answers (biLast bytes_compare o i) (check_lower bytes_compare) (len (all_items G) - 1).
Proof.
  intros Hok. pose proof Hok as [_ _ _ [q0 HR] _]. destruct (ixi_last _ _ _ HR) as (s' & E & HR').
  apply (position_spec (itLast o) _ _ _ _ i (len ixl - 1) _ s'); [done|done|done| |].
  - intros En. pose proof (len_nonneg ixl). destruct (Z.eq_dec (len ixl) 0) as [E0|].
    + rewrite len_ixl in E0. assert (G = []) as EG by (apply length_zero_iff_nil; lia). unfold all_items. by rewrite EG.
    + destruct (lookupZ_Some ixl (len ixl - 1)) as [x Hx]; [lia|congruence].
  - intros g Hz Hg. rewrite len_ixl in *. replace (Z.to_nat (Z.of_nat (length G) - 1)) with (length G - 1)%nat in * by lia.
    pose proof (len_nonneg (ges g)). exists (len (ges g) - 1). split; [rewrite <-(len_items (ges g)); apply moves_last|]. intros i' Hat.
    replace (len (all_items G) - 1) with (off G (length G - 1) + (len (ges g) - 1)).
    2: { rewrite <-off_end. replace (length G) with (Datatypes.S (length G - 1)) at 2 by lia. rewrite (off_S _ _ _ Hg). lia. }
    apply (skip_backward siLast _ _ _ g _ Hat); [lia|lia|lia|].
    intros j' g' _ _. exists (-1). split; [rewrite <-(len_items (ges g')); apply moves_last|lia].
Qed.

(** Steps. *)
Lemma full_at i q : full i q -> exists e, iterKey i = Some e.
Proof.
  intros (j & g & p & (_ & Ek & _) & Hp & _). rewrite Ek. apply lookupZ_Some. by rewrite len_items.
Qed.

Lemma next_spec i q : full i q -> answers (biNext bytes_compare o i) (check_upper bytes_compare) (q + 1).
Proof.
  intros Hf. destruct (full_at _ _ Hf) as [e Ek]. destruct Hf as (j & g & p & (Hc & _ & Hp) & Hr & <-).
  unfold biNext, advance. rewrite Ek.
  destruct (stCall_spec i j g p (p + 1) siNext Hc Hp ltac:(apply moves_next; by rewrite len_items)) as (i2 & -> & Hat). cbn [rbind].
  rewrite (fuel_G i2) by apply Hat. apply lands_answers. rewrite <-Z.add_assoc.
  apply (skip_forward siFirst _ _ _ g _ Hat); [lia|lia|]. intros j' g' _ _. exists (-1). split; [apply moves_first|lia].
Qed.

Lemma prev_spec i q : full i q -> answers (biPrev bytes_compare o i) (check_lower bytes_compare) (q - 1).
Proof.
  intros Hf. destruct (full_at _ _ Hf) as [e Ek]. destruct Hf as (j & g & p & (Hc & _ & Hp) & Hr & <-).
  unfold biPrev, advance. rewrite Ek.
  destruct (stCall_spec i j g p (p - 1) siPrev Hc Hp ltac:(apply moves_prev; by rewrite len_items)) as (i2 & -> & Hat). cbn [rbind].
  rewrite (fuel_G i2) by apply Hat. apply lands_answers. replace (off G j + p - 1) with (off G j + (p - 1)) by lia.
  pose proof (lookup_lt_Some _ _ _ (cur_g _ _ _ Hc)). apply (skip_backward siLast _ _ _ g _ Hat); [lia|lia|lia|].
  intros j' g' _ _. exists (-1). split; [rewrite <-(len_items (ges g')); apply moves_last|lia].
Qed.

(** Seeks: where the index points decides the table. *)
Lemma seek_groups_before k j g e :
  Z.of_nat j < list_seek bytes_compare k ixl -> G !! j = Some g -> e ∈ ges g -> bytes_compare (ek e) k < 0.
Proof.
  intros Hj Hg He. pose proof (list_seek_before bytes_compare k _ _ _ (ixl_lookup _ _ Hg) Hj) as Hk. cbn in Hk.
  pose proof (to_keys _ _ HG g e (list_elem_of_lookup_2 _ _ _ Hg) He). by eapply (cmp_le_lt_trans bytes_compare).
Qed.

Lemma seek_groups_after k j j' g g' e :
  Z.of_nat j = list_seek bytes_compare k ixl -> G !! j = Some g -> (j < j')%nat -> G !! j' = Some g' -> e ∈ ges g' ->
  0 <= bytes_compare (ek e) k.
Proof.
  intros Hj Hg Hlt Hg' He. pose proof (ixl_lookup _ _ Hg) as Hx. rewrite Hj in Hx. apply list_seek_hit in Hx. cbn in Hx.
  pose proof (to_between _ _ HG j j' g g' e Hg Hg' Hlt He) as Hb. apply (cmp_ge bytes_compare) in Hx. apply (cmp_ge bytes_compare (ek e) k).
  apply Z.lt_le_incl. by eapply (cmp_le_lt_trans bytes_compare).
Qed.

Lemma items_Forall (P : entry -> Prop) gs : (forall g e, g ∈ gs -> e ∈ ges g -> P (item e)) -> Forall P (item <$> entries gs).
Proof.
  intros H. apply Forall_fmap. unfold entries. induction gs as [|g gs IH]; cbn; [constructor|]. apply Forall_app. split.
  - apply Forall_forall. intros e He. apply (H g); [by left|done].
  - apply IH. intros g' e Hg'. apply H. by right.
Qed.

Lemma seek_pos k j g :
  Z.of_nat j = list_seek bytes_compare k ixl -> G !! j = Some g ->
  list_seek bytes_compare k (all_items G) = off G j + list_seek bytes_compare k (item <$> ges g).
Proof.
  intros Hj Hg. unfold all_items, off. rewrite (entries_at _ _ _ Hg), !fmap_app, <-len_items.
  rewrite list_seek_app_lt, list_seek_app_ge; [done| |]; apply items_Forall; intros g' e Hg' He.
  - apply list_elem_of_lookup_1 in Hg' as [n Hn]. rewrite lookup_drop in Hn. cbn. by apply (seek_groups_after k j (Datatypes.S j + n) g g'); [| |lia| |].
  - apply list_elem_of_lookup_1 in Hg' as [n Hn]. apply lookup_take_Some in Hn as [Hn Hlt]. cbn. apply (seek_groups_before k n g'); [lia|done|done].
Qed.

Lemma seek_none k : lookupZ ixl (list_seek bytes_compare k ixl) = None -> list_seek bytes_compare k (all_items G) = len (all_items G).
Proof.
  intros E. apply list_seek_lt_all, items_Forall. intros g e Hg He. apply list_elem_of_lookup_1 in Hg as [n Hn]. cbn.
  apply (seek_groups_before k n g); [|done|done]. pose proof (list_seek_range bytes_compare k ixl). apply lookup_lt_Some in Hn.
  destruct (Z.eq_dec (list_seek bytes_compare k ixl) (len ixl)) as [->|]; [rewrite len_ixl; lia|].
  destruct (lookupZ_Some ixl (list_seek bytes_compare k ixl)) as [x Hx]; [lia|congruence].
Qed.

Lemma seekGE_spec i k : ok i -> answers (biSeekGE bytes_compare o k i) (check_upper bytes_compare) (list_seek bytes_compare k (all_items G)).
Proof.
  intros Hok. pose proof Hok as [_ _ _ [q0 HR] _]. destruct (ixi_seekGE _ _ _ k HR) as (s' & E & HR').
  apply (position_spec (itSeekGE o k) _ _ _ _ i _ _ s' Hok E HR').
  - intros En. rewrite (seek_none k En). by apply lookupZ_None.
  - intros g Hz Hg. set (z := list_seek bytes_compare k ixl) in *. eexists. split; [apply moves_seekGE|]. intros i' Hat.
    rewrite (seek_pos k (Z.to_nat z) g) by (done || lia). pose proof (list_seek_range bytes_compare k (item <$> ges g)) as Hrg. rewrite len_items in Hrg.
    apply (skip_forward (siSeekGE k) _ _ _ g _ Hat); [lia|lia|]. intros j' g' Hj' Hg'. exists (-1). split; [|lia].
    rewrite <-(list_seek_zero bytes_compare k (item <$> ges g')); [apply moves_seekGE|].
    apply Forall_fmap, Forall_forall. intros e He. cbn. apply (seek_groups_after k (Z.to_nat z) j' g g'); [lia|done|done|done|done].
Qed.

(** A seek for the entry before a key needs a table at or behind the key. *)
Lemma seekLT_spec i k :
  ok i -> is_Some (lookupZ ixl (list_seek bytes_compare k ixl)) ->
  answers (biSeekLT bytes_compare o k i) (check_lower bytes_compare) (list_seek bytes_compare k (all_items G) - 1).
Proof.
  intros Hok [x Hx]. pose proof Hok as [_ _ _ [q0 HR] _]. destruct (ixi_seekGE _ _ _ k HR) as (s' & E & HR').
  apply (position_spec (itSeekGE o k) _ _ _ _ i _ _ s' Hok E HR'); [congruence|].
  intros g Hz Hg. set (z := list_seek bytes_compare k ixl) in *. eexists. split; [apply moves_seekLT|]. intros i' Hat.
  rewrite (seek_pos k (Z.to_nat z) g) by (done || lia). pose proof (list_seek_range bytes_compare k (item <$> ges g)) as Hrg. rewrite len_items in Hrg.
  rewrite <-Z.add_sub_assoc. pose proof (lookup_lt_Some _ _ _ Hg).
  apply (skip_backward (siSeekLT k) _ _ _ g _ Hat); [lia|lia|lia|]. intros j' g' Hj' Hg'. exists (-1). split; [|lia].
  rewrite <-(len_items (ges g')), <-(list_seek_lt_all bytes_compare k (item <$> ges g')); [apply moves_seekLT|].
  apply Forall_fmap, Forall_forall. intros e He. cbn. apply (seek_groups_before k j' g'); [lia|done|done].
Qed.

(** ** Within the bounds *)

(** The cursor at position [p] of the entries within the bounds. *)
Definition bi_at i (l : list entry) (p : Z) : Prop :=
  ok i /\ exists a c, all_items G = a ++ l ++ c /\ Forall (below lo) a /\ Forall (above up) c /\ Forall (fun e => in_bounds lo up e) l /\
    (0 <= p < len l -> full i (len a + p)).

Lemma check_upper_in i e : ok i -> iterKey i = Some e -> in_bounds lo up e -> check_upper bytes_compare i = Some e.
Proof.
  intros [_ _ Hu _ _] Ek [_ H]%andb_True. unfold check_upper, getKV. rewrite Ek, Hu. destruct up as [b|]; [|done].
  apply Is_true_true, Z.ltb_lt, (cmp_sym (cmp := bytes_compare)) in H. destruct (Z.leb_spec (bytes_compare b (UserKey e)) 0); [lia|done].
Qed.

Lemma check_lower_in i e : ok i -> iterKey i = Some e -> in_bounds lo up e -> check_lower bytes_compare i = Some e.
Proof.
  intros [_ Hl _ _ _] Ek [H _]%andb_True. unfold check_lower, getKV. rewrite Ek, Hl. destruct lo as [b|]; [|done].
  apply Is_true_true, Z.leb_le, (cmp_ge bytes_compare) in H. destruct (Z.ltb_spec 0 (bytes_compare b (UserKey e))); [lia|done].
Qed.

Lemma check_upper_out i e : ok i -> iterKey i = Some e -> above up e -> check_upper bytes_compare i = None.
Proof.
  intros [_ _ Hu _ _] Ek (b & Eb & H). unfold check_upper. rewrite Ek, Hu, Eb.
  apply (cmp_ge bytes_compare) in H. destruct (Z.leb_spec (bytes_compare b (UserKey e)) 0); [done|lia].
Qed.

Lemma check_lower_out i e : ok i -> iterKey i = Some e -> below lo e -> check_lower bytes_compare i = None.
Proof.
  intros [_ Hl _ _ _] Ek (b & Eb & H). unfold check_lower. rewrite Ek, Hl, Eb.
  apply (cmp_sym (cmp := bytes_compare)) in H. destruct (Z.ltb_spec 0 (bytes_compare b (UserKey e))); [done|lia].
Qed.

Section Answers.
Context (a l c : list entry) (HL : all_items G = a ++ l ++ c) (Ha : Forall (below lo) a) (Hc : Forall (above up) c)
  (Hl : Forall (fun e => in_bounds lo up e) l).

Lemma bi_at_intro i p : ok i -> (0 <= p < len l -> full i (len a + p)) -> bi_at i l p.
Proof. intros Hok Hf. split; [done|]. exists a, c. done. Qed.

Lemma answers_inside r check q :
  answers r check q -> (forall i e, ok i -> iterKey i = Some e -> in_bounds lo up e -> check i = Some e) -> 0 <= q - len a < len l ->
  exists i', r = Ok (i', lookupZ l (q - len a)) /\ bi_at i' l (q - len a).
Proof.
  intros (i & kv & -> & Hok & Hq) Hck Hr. destruct (lookupZ_Some l (q - len a) Hr) as [e He].
  pose proof (lookupZ_app_mid a l c (q - len a) Hr) as Hm. rewrite <-HL, He in Hm. replace (len a + (q - len a)) with q in Hm by lia. rewrite Hm in Hq.
  destruct Hq as (Hf & Ek & ->). exists i. rewrite He, (Hck i e Hok Ek) by (by eapply Forall_lookupZ in He; [|exact Hl]).
  split; [done|]. apply bi_at_intro; [done|]. intros _. by replace (len a + (q - len a)) with q by lia.
Qed.

Lemma answers_up r q p :
  answers r (check_upper bytes_compare) q -> len a <= q -> (p = q - len a \/ (len l <= p /\ len l <= q - len a)) ->
  exists i', r = Ok (i', lookupZ l p) /\ bi_at i' l p.
Proof.
  intros Hans Hq Hp. destruct (Z.lt_ge_cases (q - len a) (len l)) as [Hin|Hout].
  - assert (p = q - len a) as -> by lia. apply (answers_inside r _ q Hans); [apply check_upper_in|lia].
  - rewrite lookupZ_None by lia. destruct Hans as (i & kv & -> & Hok & Hk). exists i. split; [|apply bi_at_intro; [done|lia]].
    do 2 f_equal. destruct (lookupZ (all_items G) q) as [e|] eqn:E; [|done]. destruct Hk as (_ & Ek & ->).
    apply (check_upper_out i e Hok Ek). pose proof (lookupZ_is_Some _ _ _ E) as Hr. rewrite HL, !len_app in Hr. pose proof (len_nonneg l).
    pose proof (lookupZ_app_mid (a ++ l) c [] (q - len a - len l) ltac:(lia)) as Hm.
    rewrite app_nil_r, <-app_assoc, <-HL, len_app in Hm. replace (len a + len l + (q - len a - len l)) with q in Hm by lia.
    rewrite E in Hm. eapply Forall_lookupZ; [exact Hc|by symmetry].
Qed.

Lemma answers_down r q p :
  answers r (check_lower bytes_compare) q -> q < len a + len l -> (p = q - len a \/ (p < 0 /\ q < len a)) ->
  exists i', r = Ok (i', lookupZ l p) /\ bi_at i' l p.
Proof.
  intros Hans Hq Hp. destruct (Z.lt_ge_cases q (len a)) as [Hout|Hin].
  - replace (lookupZ l p) with (@None entry) by (unfold lookupZ; destruct (Z.ltb_spec p 0); [done|lia]).
    destruct Hans as (i & kv & -> & Hok & Hk). exists i. split; [|apply bi_at_intro; [done|lia]].
    do 2 f_equal. destruct (lookupZ (all_items G) q) as [e|] eqn:E; [|done]. destruct Hk as (_ & Ek & ->).
    apply (check_lower_out i e Hok Ek). pose proof (lookupZ_is_Some _ _ _ E) as Hr.
    eapply Forall_lookupZ; [exact Ha|]. rewrite HL in E. rewrite <-E. symmetry. apply (lookupZ_app_mid [] a). lia.
  - assert (p = q - len a) as -> by lia. apply (answers_inside r _ q Hans); [apply check_lower_in|lia].
Qed.

Lemma seekGE_within k : (forall b, lo = Some b -> 0 <= bytes_compare k b) ->
  let q := list_seek bytes_compare k (all_items G) in let p := list_seek bytes_compare k l in
  len a <= q /\ (p = q - len a \/ (len l <= p /\ len l <= q - len a)).
Proof.
  intros Hk. cbn zeta. rewrite HL, list_seek_app_lt.
  - pose proof (list_seek_range bytes_compare k (l ++ c)). destruct (list_seek_app bytes_compare k l c) as [E|[E H2]]; lia.
  - eapply Forall_impl; [exact Ha|]. cbn. intros e (b & Eb & He). eapply (cmp_lt_le_trans bytes_compare); [exact He|].
    by apply (cmp_ge bytes_compare), Hk.
Qed.

Lemma seekLT_within k : (forall b, up = Some b -> bytes_compare k b <= 0) ->
  let q := list_seek bytes_compare k (all_items G) - 1 in let p := list_seek bytes_compare k l - 1 in
  q < len a + len l /\ (p = q - len a \/ (p < 0 /\ q < len a)).
Proof.
  intros Hk. cbn zeta. rewrite HL, app_assoc, list_seek_app_ge.
  2: { eapply Forall_impl; [exact Hc|]. cbn. intros e (b & Eb & He). apply (cmp_ge bytes_compare) in He. apply (cmp_ge bytes_compare (UserKey e)).
    eapply (cmp_le_trans bytes_compare); [by apply Hk|exact He]. }
  pose proof (list_seek_range bytes_compare k (a ++ l)) as H1. rewrite len_app in H1. split; [lia|].
  destruct (Z.lt_ge_cases (list_seek bytes_compare k a) (len a)) as [Hlt|Hge].
  - right. destruct (list_seek_app bytes_compare k a l) as [->|]; [|lia]. split; [|lia].
    rewrite list_seek_zero; [lia|]. destruct (lookupZ_Some a (list_seek bytes_compare k a)) as [x Hx]; [pose proof (list_seek_range bytes_compare k a); lia|].
    destruct (Forall_lookupZ _ _ _ _ Ha Hx) as (b & Eb & Hb). apply list_seek_hit in Hx. eapply Forall_impl; [exact Hl|]. cbn.
    intros e [He _]%andb_True. rewrite Eb in He. apply Is_true_true, Z.leb_le, (cmp_ge bytes_compare) in He. apply (cmp_ge bytes_compare) in Hx.
    apply (cmp_ge bytes_compare (UserKey e)). eapply (cmp_le_trans bytes_compare); [exact Hx|]. apply Z.lt_le_incl.
    by eapply (cmp_lt_le_trans bytes_compare).
  - left. rewrite list_seek_app_lt; [lia|]. pose proof (list_seek_range bytes_compare k a). apply Forall_forall. intros e He.
    apply list_elem_of_lookup_1 in He as [n Hn]. apply (list_seek_before bytes_compare k a (Z.of_nat n)).
    + unfold lookupZ. destruct (Z.ltb_spec (Z.of_nat n) 0); [lia|]. by rewrite Nat2Z.id.
    + apply lookup_lt_Some in Hn. unfold len in *. lia.
Qed.
End Answers.

Context (Hmax : exists g, last G = Some g /\ gkey g = BdbMaxKey).

Lemma seek_has_table k : bytes_compare k BdbMaxKey <= 0 -> is_Some (lookupZ ixl (list_seek bytes_compare k ixl)).
Proof.
  intros Hk. destruct Hmax as (g & Hg & Eg). rewrite last_lookup in Hg. pose proof (lookup_lt_Some _ _ _ Hg) as Hlt.
  pose proof (list_seek_range bytes_compare k ixl) as Hr. apply lookupZ_Some. split; [lia|].
  destruct (Z.eq_dec (list_seek bytes_compare k ixl) (len ixl)) as [E|]; [|lia]. exfalso.
  pose proof (list_seek_before bytes_compare k _ _ _ (ixl_lookup _ _ Hg)) as Hb. cbn in Hb. rewrite Eg, E, len_ixl in Hb.
  specialize (Hb ltac:(lia)). apply (cmp_sym (cmp := bytes_compare)) in Hb. lia.
Qed.

#[export] Instance biOps_cursor : BoundedCursor lo up (biOps bytes_compare o) bi_at.
Proof.
  split; intros i l p.
  - intros k (Hok & a & c & HL & Ha & Hc & Hl & Hf) Hk. destruct (seekGE_within a l c HL Ha k Hk) as [H1 H2].
    by apply (answers_up a l c HL Ha Hc Hl _ _ _ (seekGE_spec i k Hok)).
  - intros k (Hok & a & c & HL & Ha & Hc & Hl & Hf) Hk Hm. destruct (seekLT_within a l c HL Ha Hc Hl k Hk) as [H1 H2].
    by apply (answers_down a l c HL Ha Hc Hl _ _ _ (seekLT_spec i k Hok (seek_has_table k Hm))).
  - intros (Hok & a & c & HL & Ha & Hc & Hl & Hf) El. assert (a = []) as ->.
    { destruct a as [|x a]; [done|]. apply Forall_cons in Ha as [(b & Eb & _) _]. congruence. }
    apply (answers_up [] l c HL Ha Hc Hl _ _ _ (first_spec i Hok)); [done|by left].
  - intros (Hok & a & c & HL & Ha & Hc & Hl & Hf) Eu. assert (c = []) as ->.
    { destruct c as [|x c]; [done|]. apply Forall_cons in Hc as [(b & Eb & _) _]. congruence. }
    pose proof (last_spec i Hok) as Hans. rewrite app_nil_r in HL. rewrite <-(app_nil_r l) in HL.
    assert (EL : len (all_items G) = len a + len l) by (rewrite HL, app_nil_r, len_app; lia). rewrite EL in Hans.
    apply (answers_down a l [] HL Ha Hc Hl _ _ _ Hans); [lia|left; lia].
  - intros (Hok & a & c & HL & Ha & Hc & Hl & Hf) Hp.
    apply (answers_up a l c HL Ha Hc Hl _ _ _ (next_spec i _ (Hf Hp))); [lia|left; lia].
  - intros (Hok & a & c & HL & Ha & Hc & Hl & Hf) Hp.
    apply (answers_down a l c HL Ha Hc Hl _ _ _ (prev_spec i _ (Hf Hp))); [lia|left; lia].
Qed.

Lemma items_sorted es : sorted es -> StronglySorted (fun a b => bytes_compare (UserKey a) (UserKey b) < 0) (item <$> es).
Proof. induction 1 as [|e es Hs IH He]; [constructor|]. rewrite fmap_cons. constructor; [done|]. by apply Forall_fmap. Qed.

Lemma NewIter_at s q : R s ixl q -> bi_at (NewIter t s lo up) (within lo up (all_items G)) (-1).
Proof.
  intros HR. split.
  - split; try done. by exists q.
  - destruct (bounds_split lo up (all_items G)) as (a & c & E & Ha & Hc & Hl); [apply items_sorted, HG|]. exists a, c.
    split; [done|]. split; [done|]. split; [done|]. split; [done|]. lia.
Qed.
End Cursor.

(** ** The bitree's tables *)

Section Tree.
Context {B : Type} {I : Index B} {ixwf : B -> Prop} `{!IndexLaws I ixwf}.
Implicit Types t : bitree (B := B).

(** All tables, the one that is written last. *)
Definition groups (gs : list group) (fm : Z) (es : list ent) : list group := gs ++ [mkGroup BdbMaxKey fm es].

Lemma entries_groups gs fm es : entries (groups gs fm es) = entries gs ++ es.
Proof. unfold groups. rewrite entries_app. unfold entries at 2. cbn. by rewrite app_nil_r. Qed.

Lemma binv_tabs t gs fm es : binv (ixwf := ixwf) t gs fm es -> tabs_ok t (groups gs fm es).
Proof.
  intros H. destruct (group_fm _ _ _ (bi_fns _ _ _ _ H)) as [Hf1 Hf2]. pose proof (bi_next _ _ _ _ H). pose proof (bi_min _ _ _ _ H).
  pose proof (bi_sorted _ _ _ _ H) as Hs. pose proof (bi_below _ _ _ _ H) as Hb. pose proof (bi_last _ _ _ _ H) as Hl.
  assert (Hle : forall g e, g ∈ gs -> e ∈ ges g -> bytes_compare (ek e) (gkey g) <= 0).
  { intros g e Hg He. rewrite Forall_forall in Hl. destruct (Hl g Hg) as (x & Hx & <-). apply (es_sorted_last (ges g)); [|done|done].
    apply list_elem_of_lookup_1 in Hg as [n Hn]. apply StronglySorted_app_1_l in Hs. rewrite (entries_at _ _ _ Hn) in Hs.
    by apply StronglySorted_app_1_r, StronglySorted_app_1_l in Hs. }
  split.
  - apply Forall_app. split.
    + eapply Forall_impl; [exact (bi_tbl _ _ _ _ H)|]. intros g (st & Ha & Hse). exists st. split; [done|]. split; [by eapply sealed_reads|apply Hse].
    + constructor; [|constructor]. destruct (bi_mtbl _ _ _ _ H) as (st & Ha & Hw & _). exists st. apply writable_sealed in Hw.
      split; [done|]. split; [by eapply sealed_reads|apply Hw].
  - apply Forall_app. split; [|constructor; [cbn; lia|constructor]]. eapply Forall_impl; [exact Hf2|]. cbn. lia.
  - unfold groups. rewrite fmap_app. apply (StronglySorted_NoDup Z.lt); [lia|]. pose proof (bi_fns _ _ _ _ H) as Hf. by inversion Hf.
  - by rewrite entries_groups.
  - intros g e [Hg|Hg]%elem_of_app He; [by apply Hle|]. apply list_elem_of_singleton in Hg as ->. cbn in *.
    rewrite Forall_forall in Hb. apply Z.lt_le_incl, Hb, elem_of_app. by right.
  - intros i j g g' e Hg Hg' Hij He. assert (Hi : gs !! i = Some g).
    { apply lookup_app_Some in Hg as [|[Hge Hg]]; [done|]. apply lookup_lt_Some in Hg'. unfold groups in Hg'. rewrite length_app in Hg'. cbn in Hg'. lia. }
    rewrite Forall_forall in Hl. destruct (Hl g (list_elem_of_lookup_2 _ _ _ Hi)) as (x & Hx & <-).
    rewrite <-(entries_groups gs fm es), (entries_at (groups gs fm es) j g' Hg') in Hs.
    apply (StronglySorted_app_1_elem_of (fun a b => bytes_compare (ek a) (ek b) < 0) _ _ x e Hs).
    + rewrite (entries_at (take j (groups gs fm es)) i g) by (by rewrite lookup_take_lt).
      apply elem_of_app. right. apply elem_of_app. left. by apply last_Some_elem_of.
    + apply elem_of_app. by left.
  - rewrite (bi_pool _ _ _ _ H). unfold ix_of, groups. by rewrite fmap_app.
Qed.

Lemma groups_last gs fm es : exists g, last (groups gs fm es) = Some g /\ gkey g = BdbMaxKey.
Proof. exists (mkGroup BdbMaxKey fm es). unfold groups. by rewrite last_snoc. Qed.

Lemma items_kvof (es : list ent) : item <$> es = kv_item <$> (kvof <$> es).
Proof. by rewrite <-list_fmap_compose. Qed.

(** C18: after any sequence of flushes with increasing keys, compactions and
    reopenings, an iterator of the bitree is a cursor, in both directions and
    with every kind of seek, over exactly the flushed pairs within its bounds,
    in key order, less a prefix that compactions dropped. *)
Theorem bitree_iterates fuel b0 f1 f2 f3 f4 maxSt kl ops :
  ixwf b0 -> ix_list b0 = [] -> 0 < kl <= 32768 -> 8 < maxSt -> fits kl (flushed ops) -> kv_sorted (flushed ops) ->
  Forall (fun x => bytes_compare x.1 BdbMaxKey < 0) (flushed ops) -> len ops < 4294967294 ->
  exists t0 t dropped live, OpenBitree fuel None b0 f1 f2 f3 f4 (mkDir ∅ ∅) maxSt kl = Ok t0 /\ brun ops t0 = Ok t /\
    flushed ops = dropped ++ live /\ Forall (fun x => exists c, c ∈ compacted ops /\ bytes_compare x.1 c < 0) dropped /\
    forall (S : Type) (o : iterOps S) R, IndexIterLaws o R -> forall s q lo up, R s (kv_item <$> pool t) q ->
      exists Q, BoundedCursor lo up (biOps bytes_compare o) Q /\ Q (NewIter t s lo up) (within lo up (kv_item <$> live)) (-1).
Proof.
  intros Hb Hl Hkl Hmax Hfit Hs Hbl Hn. destruct (open_fresh fuel b0 f1 f2 f3 f4 maxSt kl Hb Hl Hkl Hmax) as (t0 & E0 & Hi & Hr & Hk & Hnx).
  destruct (brun_spec kl ops t0 [] [] 1 [] [] []) as (t & d & gs & fm & es & E & [Hi' Hr' Hk' Hkvs Hd]); [by split|done|done|lia|done|lia|].
  cbn [app] in Hkvs, Hd. exists t0, t, (kvof <$> d), (kvof <$> (entries gs ++ es)). split; [done|]. split; [done|]. split; [by rewrite <-fmap_app|].
  split; [by apply Forall_fmap|]. intros S o R HO s q lo up HR. pose proof (binv_tabs _ _ _ _ Hi') as HG.
  eexists. split; [by apply (biOps_cursor o R t _ HG lo up (groups_last gs fm es))|].
  rewrite <-items_kvof, <-(entries_groups gs fm es). by apply (NewIter_at R t _ HG lo up s q).
Qed.
End Tree.

(** The reference iterator over an index. *)
Definition index_iter (t : bitree (B := list kv)) : listState := (kv_item <$> pool t, -1).

(** Two tables, the older one dropped: a bounded scan from a seek. *)
Lemma bitree_iterates_witness :
  exists t0 t live, OpenBitree 0 None ([] : list kv) [] [] [] [] (mkDir ∅ ∅) 20 2 = Ok t0 /\ brun demo_bops t0 = Ok t /\
    (let! (_, e) := biSeekGE bytes_compare (listOps bytes_compare) [0; 3]
       (NewIter t (index_iter t) (Some [0; 3]) (Some [0; 4])) in Ok e) =
    Ok (lookupZ (within (Some [0; 3]) (Some [0; 4]) (kv_item <$> live))
          (list_seek bytes_compare [0; 3] (within (Some [0; 3]) (Some [0; 4]) (kv_item <$> live)))).
Proof.
  destruct (bitree_iterates (I := listIndex) (ixwf := StronglySorted key_lt) 0 [] [] [] [] [] 20 2 demo_bops) as (t0 & t & d & live & E0 & E & _ & _ & Hit).
  - constructor.
  - reflexivity.
  - lia.
  - lia.
  - split; [repeat constructor|done|done].
  - repeat constructor.
  - repeat constructor.
  - done.
  - exists t0, t, live. split; [exact E0|]. split; [exact E|].
    destruct (Hit _ _ _ listOps_index (index_iter t) (-1) (Some [0; 3]) (Some [0; 4]) eq_refl) as (Q & HQ & H0).
    destruct (bc_seekGE _ _ _ [0; 3] H0) as (s' & Es & _); [intros b [= <-]; done|]. cbn [biOps itSeekGE] in Es.
    exact (f_equal (fun r => let! (_, e) := r in Ok e) Es).
Defined.
End BitreeIter.
