(* ===== verification/Freelist.v ===== *)
(** The free pages of the embedded database bdb (bitree/bdb/freelist.go,
    freelist_hmap.go, freelist_bitmap.go, the page lists of page.go and
    [freePages] of db.go).

    A [freelist] keeps the free pages in one of two stores, chosen by its type
    through function fields: a sorted array, or maps of spans.  [FreeStore] is
    that interface; what both stores promise is [FreeStoreLaws] in FreelistSpec.
    Pages a transaction has freed are pending until no reader can see them.

    Page numbers are far below 2^64 and are not wrapped.  The
    order in which Go visits a map is an argument: [order] lists the keys of
    [pending], [pick] gives the element a loop over a set meets first. *)

From Stdlib Require Import ZArith Lia.
From stdpp Require Import base numbers option sorting list gmap.
From S2P Require Import Prelude Base.

Module Freelist.

(** ** Lists of page numbers (page.go) *)

Abbreviation pgids := (list Z).

(** [sort.Sort] on page numbers. *)
Definition sort_ids (l : pgids) : pgids := merge_sort Z.le l.

Definition first_id (l : pgids) : outcome Z := match l with [] => Panic | x :: _ => Ok x end.

(** The loop of [mergepgids]: the leading list gives everything up to the head
    of the other one, then they change places. *)
Fixpoint merge_loop (fuel : nat) (lead follow merged : pgids) : outcome pgids :=
  match fuel with
  | O => Err ErrModelFuel
  | S fuel' =>
      if len lead =? 0 then Ok (merged ++ follow)
      else
        let! n := search (len lead) (fun i =>
          let! f := first_id follow in
          match lead !! Z.to_nat i with None => Panic | Some x => Ok (f <? x) end) in
        let merged := merged ++ take (Z.to_nat n) lead in
        if len lead <=? n then Ok (merged ++ follow)
        else merge_loop fuel' follow (drop (Z.to_nat n) lead) merged
  end.

(** [dst] has room for [room] numbers; what is behind the merged ones stays. *)
Definition mergepgids (room : Z) (a b : pgids) : outcome pgids :=
  if room <? len a + len b then Panic
  else
    match a, b with
    | [], _ => Ok b
    | _, [] => Ok a
    | x :: _, y :: _ =>
        let fuel := S (length a + length b) in
        if y <? x then merge_loop fuel b a [] else merge_loop fuel a b []
    end.

Definition pgids_merge (a b : pgids) : outcome pgids :=
  match a, b with
  | [], _ => Ok b
  | _, [] => Ok a
  | _, _ => mergepgids (len a + len b) a b
  end.

(** ** The stores of free pages *)

Class FreeStore (S : Type) : Type := {
  fs_new : S;                      (* what [newFreelist] starts with *)
  fs_allocate : (gset Z -> option Z) -> S -> Z -> outcome (S * Z);
  fs_free_count : S -> Z;
  fs_mergeSpans : pgids -> S -> outcome S;
  fs_getFreePageIDs : S -> pgids;
  fs_readIDs : pgids -> S -> S;
  fs_nilIDs : S -> S;              (* [f.ids = nil] of [read] *)
  fs_bitmapIDs : S -> pgids        (* what [convertBitmap] adds for it *)
}.

(** *** The array *)

(** The loop of [arrayAllocate]: the index of the last page of the first run of
    [n] pages, and its first page. *)
Fixpoint array_scan (ids : pgids) (i initial previd n : Z) : outcome (option (Z * Z)) :=
  match ids with
  | [] => Ok None
  | id :: ids' =>
      if id <=? 1 then Panic
      else
        let initial := if (previd =? 0) || negb (id - previd =? 1) then id else initial in
        if id - initial + 1 =? n then Ok (Some (i, initial))
        else array_scan ids' (i + 1) initial id n
  end.

Definition arrayAllocate (pick : gset Z -> option Z) (ids : pgids) (n : Z) : outcome (pgids * Z) :=
  let! r := array_scan ids 0 0 0 n in
  match r with
  | None => Ok (ids, 0)
  | Some (i, initial) =>
      if i + 1 =? n then Ok (drop (Z.to_nat (i + 1)) ids, initial)
      else Ok (take (Z.to_nat (i - n + 1)) ids ++ drop (Z.to_nat (i + 1)) ids, initial)
  end.

Definition arrayFreeCount (ids : pgids) : Z := len ids.

Definition arrayMergeSpans (new ids : pgids) : outcome pgids := pgids_merge ids (sort_ids new).

Definition arrayGetFreePageIDs (ids : pgids) : pgids := ids.

Definition arrayReadIDs (new ids : pgids) : pgids := new.

#[export] Instance arrayStore : FreeStore pgids := {
  fs_new := [];
  fs_allocate := arrayAllocate; fs_free_count := arrayFreeCount; fs_mergeSpans := arrayMergeSpans;
  fs_getFreePageIDs := arrayGetFreePageIDs; fs_readIDs := arrayReadIDs; fs_nilIDs _ := []; fs_bitmapIDs ids := ids
}.

(** *** The maps of spans *)

Record spans : Type := mkSpans {
  freemaps : gmap Z (gset Z);      (* size to the first pages of the spans of it *)
  forwardMap : gmap Z Z;           (* first page to size *)
  backwardMap : gmap Z Z           (* last page to size *)
}.

Definition addSpan (f : spans) (start size : Z) : spans :=
  mkSpans (<[size := {[start]} ∪ default ∅ (freemaps f !! size)]> (freemaps f))
    (<[start := size]> (forwardMap f)) (<[start - 1 + size := size]> (backwardMap f)).

Definition delSpan (f : spans) (start size : Z) : spans :=
  let s := default ∅ (freemaps f !! size) ∖ {[start]} in
  mkSpans (if decide (s = ∅) then delete size (freemaps f) else <[size := s]> (freemaps f))
    (delete start (forwardMap f)) (delete (start + (size - 1)) (backwardMap f)).

Definition mergeWithExistingSpan (f : spans) (pid : Z) : spans :=
  let prev := pid - 1 in
  let next := pid + 1 in
  let preSize := backwardMap f !! prev in
  let nextSize := forwardMap f !! next in
  let '(f, newStart, newSize) :=
    match preSize with
    | Some z => (delSpan f (prev + 1 - z) z, pid - z, 1 + z)
    | None => (f, pid, 1)
    end in
  let '(f, newSize) :=
    match nextSize with
    | Some z => (delSpan f next z, newSize + z)
    | None => (f, newSize)
    end in
  addSpan f newStart newSize.

Definition hashmapMergeSpans (ids : pgids) (f : spans) : outcome spans := Ok (foldl mergeWithExistingSpan f ids).

Definition hashmapAllocate (pick : gset Z -> option Z) (f : spans) (n : Z) : outcome (spans * Z) :=
  if n =? 0 then Ok (f, 0)
  else
    match freemaps f !! n ≫= pick with
    | Some pid => Ok (delSpan f pid n, pid)
    | None =>
        (* the sizes a loop stops at: large enough, with a span *)
        let sizes := filter (fun z => n <= z /\ default ∅ (freemaps f !! z) <> ∅) (dom (freemaps f)) in
        match pick sizes with
        | None => Ok (f, 0)
        | Some size =>
            match pick (default ∅ (freemaps f !! size)) with
            | None => Ok (f, 0)
            | Some pid => Ok (addSpan (delSpan f pid size) (pid + n) (size - n), pid)
            end
        end
    end.

Definition span_ids (x : Z * Z) : pgids := seqZ x.1 x.2.

Definition hashmapFreeCount (f : spans) : Z := foldr (fun x c => x.2 + c) 0 (map_to_list (forwardMap f)).

Definition hashmapGetFreePageIDs (f : spans) : pgids :=
  if hashmapFreeCount f =? 0 then [] else sort_ids (mjoin (span_ids <$> map_to_list (forwardMap f))).

Definition hashmapBitmapIDs (f : spans) : pgids := mjoin (span_ids <$> map_to_list (forwardMap f)).

Fixpoint init_loop (l : pgids) (prev start size : Z) (f : spans) : spans * Z * Z :=
  match l with
  | [] => (f, start, size)
  | x :: l' =>
      if x =? prev + 1 then init_loop l' x start (size + 1) f
      else init_loop l' x x 1 (addSpan f start size)
  end.

(** The first page is read before the list is sorted; an empty list changes
    nothing. *)
Definition hinit (pids : pgids) (f : spans) : spans :=
  match pids with
  | [] => f
  | start :: _ =>
      match sort_ids pids with
      | [] => f
      | x :: l =>
          let '(f, start, size) := init_loop l x start 1 (mkSpans ∅ ∅ ∅) in
          if negb (size =? 0) && negb (start =? 0) then addSpan f start size else f
      end
  end.

Definition hashmapReadIDs (pids : pgids) (f : spans) : spans := hinit pids f.

#[export] Instance hashStore : FreeStore spans := {
  fs_new := mkSpans ∅ ∅ ∅;
  fs_allocate := hashmapAllocate; fs_free_count := hashmapFreeCount; fs_mergeSpans := hashmapMergeSpans;
  fs_getFreePageIDs := hashmapGetFreePageIDs; fs_readIDs := hashmapReadIDs; fs_nilIDs f := f; fs_bitmapIDs := hashmapBitmapIDs
}.

(** ** The free list *)

Definition freelistPageFlag : Z := 16.
Definition pageHeaderSize : Z := 16.

(** A page: its header and the bytes behind it. *)
Record page : Type := mkPage { p_id : Z; p_flags : Z; p_count : Z; p_overflow : Z; p_data : bytes }.

Record txPending : Type := mkPend { ids : pgids; alloctx : list Z; lastReleaseBegin : Z }.

Record freelist {S : Type} : Type := mkFL {
  store : S;
  allocs : gmap Z Z;
  pending : gmap Z txPending;
  cache : gset Z
}.
Arguments freelist : clear implicits.
Arguments mkFL {S}.

(** A write into a page; outside of it is a fault. *)
Definition poke_data (d : bytes) (off : Z) (bs : bytes) : outcome bytes :=
  if (off <? 0) || (len d <? off + len bs) then Panic
  else Ok (take (Z.to_nat off) d ++ bs ++ drop (Z.to_nat (off + len bs)) d).

Definition peek_data (d : bytes) (off n : Z) : outcome bytes :=
  if (off <? 0) || (n <? 0) || (len d <? off + n) then Panic
  else Ok (take (Z.to_nat n) (drop (Z.to_nat off) d)).

Section WithStore.
Context {S : Type} `{!FreeStore S}.
Implicit Types f : freelist S.

Definition pending_count f : Z := foldr (fun x c => len (ids x.2) + c) 0 (map_to_list (pending f)).

Definition free_count f : Z := fs_free_count (store f).

Definition count f : Z := free_count f + pending_count f.

Definition size f : Z :=
  let n := count f in pageHeaderSize + 8 * (if 65535 <=? n then n + 1 else n).

Definition pending_ids (order : list Z) (p : gmap Z txPending) : pgids :=
  mjoin ((fun tid => match p !! tid with Some txp => ids txp | None => [] end) <$> order).

Definition copyall f (order : list Z) (room : Z) : outcome pgids :=
  mergepgids room (fs_getFreePageIDs (store f)) (sort_ids (pending_ids order (pending f))).

Definition allocate (pick : gset Z -> option Z) f (txid n : Z) : outcome (freelist S * Z) :=
  let! (s, p) := fs_allocate pick (store f) n in
  if p =? 0 then Ok (mkFL s (allocs f) (pending f) (cache f), 0)
  else Ok (mkFL s (<[p := txid]> (allocs f)) (pending f) (cache f ∖ list_to_set (seqZ p n)), p).

Fixpoint free_loop (n : nat) (id atx : Z) (txp : txPending) (c : gset Z) : outcome (txPending * gset Z) :=
  match n with
  | O => Ok (txp, c)
  | Datatypes.S n' =>
      if bool_decide (id ∈ c) then Panic
      else free_loop n' (id + 1) atx (mkPend (ids txp ++ [id]) (alloctx txp ++ [atx]) (lastReleaseBegin txp)) ({[id]} ∪ c)
  end.

Definition free f (txid : Z) (p : page) : outcome (freelist S) :=
  if p_id p <=? 1 then Panic
  else
    let txp := default (mkPend [] [] 0) (pending f !! txid) in
    let '(al, allocTxid) :=
      match allocs f !! p_id p with
      | Some a => (delete (p_id p) (allocs f), a)
      | None => (allocs f, if negb (Z.land (p_flags p) freelistPageFlag =? 0) then txid - 1 else 0)
      end in
    let! (txp, c) := free_loop (Z.to_nat (p_overflow p + 1)) (p_id p) allocTxid txp (cache f) in
    Ok (mkFL (store f) al (<[txid := txp]> (pending f)) c).

Definition mergeSpans f (m : pgids) : outcome (freelist S) :=
  let! s := fs_mergeSpans m (store f) in Ok (mkFL s (allocs f) (pending f) (cache f)).

Fixpoint release_loop (order : list Z) (txid : Z) (p : gmap Z txPending) (m : pgids) : gmap Z txPending * pgids :=
  match order with
  | [] => (p, m)
  | tid :: order' =>
      match p !! tid with
      | Some txp => if tid <=? txid then release_loop order' txid (delete tid p) (m ++ ids txp) else release_loop order' txid p m
      | None => release_loop order' txid p m
      end
  end.

Definition release f (order : list Z) (txid : Z) : outcome (freelist S * pgids) :=
  let '(p, m) := release_loop order txid (pending f) [] in
  let! f := mergeSpans (mkFL (store f) (allocs f) p (cache f)) m in
  Ok (f, m).

(** The last element takes the place of the removed one. *)
Definition swap_out {A} (i : nat) (l : list A) : list A :=
  match last l with
  | None => l
  | Some x => take (length l - 1) (<[i := x]> l)
  end.

Fixpoint range_loop (fuel : nat) (i : nat) (begin_ end_ : Z) (txp : txPending) (m : pgids) : outcome (txPending * pgids) :=
  match ids txp !! i with
  | None => Ok (txp, m)
  | Some id =>
      match fuel with
      | O => Err ErrModelFuel
      | Datatypes.S fuel' =>
          match alloctx txp !! i with
          | None => Panic
          | Some atx =>
              if (atx <? begin_) || (end_ <? atx) then range_loop fuel' (i + 1) begin_ end_ txp m
              else range_loop fuel' i begin_ end_ (mkPend (swap_out i (ids txp)) (swap_out i (alloctx txp)) (lastReleaseBegin txp)) (m ++ [id])
          end
      end
  end.

Fixpoint releaseRange_loop (order : list Z) (begin_ end_ : Z) (p : gmap Z txPending) (m : pgids)
    : outcome (gmap Z txPending * pgids) :=
  match order with
  | [] => Ok (p, m)
  | tid :: order' =>
      match p !! tid with
      | None => releaseRange_loop order' begin_ end_ p m
      | Some txp =>
          if (tid <? begin_) || (end_ <? tid) then releaseRange_loop order' begin_ end_ p m
          else if lastReleaseBegin txp =? begin_ then releaseRange_loop order' begin_ end_ p m
          else
            let! (txp, m) := range_loop (length (ids txp)) 0 begin_ end_ txp m in
            let p := match ids txp with
                     | [] => delete tid p
                     | _ => <[tid := mkPend (ids txp) (alloctx txp) begin_]> p
                     end in
            releaseRange_loop order' begin_ end_ p m
      end
  end.

Definition releaseRange f (order : list Z) (begin_ end_ : Z) : outcome (freelist S * pgids) :=
  if end_ <? begin_ then Ok (f, [])
  else
    let! (p, m) := releaseRange_loop order begin_ end_ (pending f) [] in
    let! f := mergeSpans (mkFL (store f) (allocs f) p (cache f)) m in
    Ok (f, m).

Fixpoint rollback_loop (l : list (Z * Z)) (txid : Z) (al : gmap Z Z) (c : gset Z) (m : pgids) : gmap Z Z * gset Z * pgids :=
  match l with
  | [] => (al, c, m)
  | (pid, tx) :: l' =>
      let c := c ∖ {[pid]} in
      if tx =? 0 then rollback_loop l' txid al c m
      else if negb (tx =? txid) then rollback_loop l' txid (<[pid := tx]> al) c m
      else rollback_loop l' txid al c (m ++ [pid])
  end.

Definition rollback f (txid : Z) : outcome (freelist S) :=
  match pending f !! txid with
  | None => Ok f
  | Some txp =>
      if len (alloctx txp) <? len (ids txp) then Panic
      else
        let '(al, c, m) := rollback_loop (zip (ids txp) (alloctx txp)) txid (allocs f) (cache f) [] in
        mergeSpans (mkFL (store f) al (delete txid (pending f)) c) m
  end.

Definition freed f (pid : Z) : bool := bool_decide (pid ∈ cache f).

(** The page numbers of all transactions that are pending. *)
Definition pending_set (p : gmap Z txPending) : gset Z := list_to_set (mjoin ((fun x => ids x.2) <$> map_to_list p)).

Definition reindex f : freelist S :=
  mkFL (store f) (allocs f) (pending f) (list_to_set (fs_getFreePageIDs (store f)) ∪ pending_set (pending f)).

Definition readIDs f (l : pgids) : freelist S := reindex (mkFL (fs_readIDs l (store f)) (allocs f) (pending f) (cache f)).

Definition without_pending f (l : pgids) : pgids := filter (fun id => id ∉ pending_set (pending f)) l.

Definition noSyncReload f (l : pgids) : freelist S := readIDs f (without_pending f l).

(** *** The page format *)

Definition put_ids (l : pgids) : bytes := mjoin (le_put 8 <$> l).

Fixpoint get_ids (n : nat) (d : bytes) : pgids :=
  match n with
  | O => []
  | Datatypes.S n' => le_get (take 8 d) :: get_ids n' (drop 8 d)
  end.

(** The number of pages, and the offset of what follows it. *)
Definition page_count (p : page) : outcome (Z * Z) :=
  if p_count p =? 65535 then let! b := peek_data (p_data p) 0 8 in
    let c := le_get b in if 9223372036854775808 <=? c then Panic else Ok (c, 8)
  else Ok (p_count p, 0).

Definition read f (p : page) : outcome (freelist S) :=
  if Z.land (p_flags p) freelistPageFlag =? 0 then Panic
  else
    let! (n, off) := page_count p in
    if n =? 0 then Ok (mkFL (fs_nilIDs (store f)) (allocs f) (pending f) (cache f))
    else
      let! d := peek_data (p_data p) off (8 * n) in
      Ok (readIDs f (sort_ids (get_ids (Z.to_nat n) d))).

Definition write f (order : list Z) (p : page) : outcome page :=
  let flags := Z.lor (p_flags p) freelistPageFlag in
  let l := count f in
  if l =? 0 then Ok (mkPage (p_id p) flags (u16 l) (p_overflow p) (p_data p))
  else if l <? 65535 then
    let! all := copyall f order l in
    let! d := poke_data (p_data p) 0 (put_ids all) in
    Ok (mkPage (p_id p) flags (u16 l) (p_overflow p) d)
  else
    let! all := copyall f order l in
    let! d := poke_data (p_data p) 0 (put_ids (l :: all)) in
    Ok (mkPage (p_id p) flags 65535 (p_overflow p) d).

(** *** The bitmap format *)

(** The bitmap library: bytes of a set of numbers, and the sorted numbers of such
    bytes, [None] for an error. *)
Context (ToBytes : gset Z -> bytes) (FromBytes : bytes -> option pgids).

Definition convertBitmap f (order : list Z) : gset Z * Z :=
  let l := pending_ids order (pending f) ++ fs_bitmapIDs (store f) in (list_to_set l, len l).

Definition copyallBitmap (d : bytes) (off : Z) (rb : gset Z) (rbLen : Z) : outcome bytes :=
  let! d := poke_data d off (le_put 8 rbLen) in
  poke_data d (off + 8) (take (Z.to_nat rbLen) (ToBytes rb)).

Definition writeBitmap (p : page) (rb : gset Z) (rbLen freeCount : Z) : outcome page :=
  let flags := Z.lor (p_flags p) freelistPageFlag in
  let l := freeCount in
  if l =? 0 then Ok (mkPage (p_id p) flags (u16 l) (p_overflow p) (p_data p))
  else if l <? 65535 then
    let! d := copyallBitmap (p_data p) 0 rb rbLen in Ok (mkPage (p_id p) flags (u16 l) (p_overflow p) d)
  else
    let! d := poke_data (p_data p) 0 (le_put 8 l) in
    let! d := copyallBitmap d 8 rb rbLen in
    Ok (mkPage (p_id p) flags 65535 (p_overflow p) d).

Definition readFromBitmap f (p : page) : outcome (freelist S) :=
  if Z.land (p_flags p) freelistPageFlag =? 0 then Panic
  else
    let! (n, off) := page_count p in
    if n =? 0 then Ok (mkFL (fs_nilIDs (store f)) (allocs f) (pending f) (cache f))
    else
      let! lb := peek_data (p_data p) off 8 in
      let! d := peek_data (p_data p) (off + 8) (le_get lb) in
      match FromBytes d with
      | None => Panic
      | Some a => if negb (len a =? n) then Panic else Ok (readIDs f a)
      end.

Definition reload f (p : page) (bitmap : bool) : outcome (freelist S) :=
  let! f := (if bitmap then readFromBitmap f p else read f p) in
  Ok (readIDs f (without_pending f (fs_getFreePageIDs (store f)))).

(** *** [DB.freePages] *)

(** Before a write transaction: what no open reader ([txs], their transaction
    numbers) can see is released.  The pages handed to the search for freed
    tables are those of the first, the last range but one and the last. *)
Fixpoint freePages_loop f (orders : list (list Z)) (txs : list Z) (minid : Z) (m2 : pgids) : outcome (freelist S * Z * pgids) :=
  match txs with
  | [] => Ok (f, minid, m2)
  | t :: txs' =>
      let! (f, m2) := releaseRange f (default [] (head orders)) minid (u64 (t - 1)) in
      freePages_loop f (tail orders) txs' (u64 (t + 1)) m2
  end.

Definition maxTxid : Z := 18446744073709551615.

Definition freePages f (o1 : list Z) (orders : list (list Z)) (o3 : list Z) (txs : list Z) : outcome (freelist S * pgids) :=
  let txs := sort_ids txs in
  let minid := default maxTxid (head txs) in
  let! (f, m1) := (if 0 <? minid then release f o1 (minid - 1) else Ok (f, [])) in
  let! (f, minid, m2) := freePages_loop f orders txs minid [] in
  let! (f, m3) := releaseRange f o3 minid maxTxid in
  Ok (f, remove_dups (m1 ++ m2 ++ m3)).

End WithStore.

Definition newFreelist {S : Type} (s : S) : freelist S := mkFL s ∅ ∅ ∅.

End Freelist.
