(* ===== verification/FreelistSpec.v ===== *)
(** What the free list of bdb promises, for both of its stores: pages are never
    free and pending at once, an allocation takes a run of free pages whenever
    there is one, a page is released only when no open reader can see it, and the
    list survives its page formats. *)

From Stdlib Require Import ZArith Lia.
From stdpp Require Import base numbers option sorting list gmap.
From S2P Require Import Prelude Base Freelist.
Import Freelist.

(** ** Sorted lists of page numbers *)

Abbreviation ssorted := (StronglySorted Z.lt).

Lemma ssorted_unique (a b : pgids) : ssorted a -> ssorted b -> (forall x, x ∈ a <-> x ∈ b) -> a = b.
Proof.
  intros Ha. revert b. induction Ha as [|x a Ha IH Hx]; intros b Hb E.
  - destruct b as [|y b]; [done|]. exfalso. apply (not_elem_of_nil y), E. by left.
  - destruct Hb as [|y b Hb Hy]; [exfalso; apply (not_elem_of_nil x), E; by left|].
    rewrite Forall_forall in Hx, Hy.
    assert (x = y) as ->.
    { assert (H1 : x ∈ y :: b) by (apply E; by left). assert (H2 : y ∈ x :: a) by (apply E; by left).
      apply elem_of_cons in H1 as [|H1], H2 as [|H2]; try done. apply Hy in H1. apply Hx in H2. lia. }
    f_equal. apply IH; [done|]. intros z. split; intros Hz.
    + assert (H : z ∈ y :: b) by (apply E; by right). apply elem_of_cons in H as [->|]; [|done]. apply Hx in Hz. lia.
    + assert (H : z ∈ y :: a) by (apply E; by right). apply elem_of_cons in H as [->|]; [|done]. apply Hy in Hz. lia.
Qed.

Lemma ssorted_NoDup (l : pgids) : ssorted l -> NoDup l.
Proof. apply StronglySorted_NoDup. lia. Qed.

Lemma sort_ids_sorted l : NoDup l -> ssorted (sort_ids l).
Proof.
  intros Hnd. pose proof (StronglySorted_merge_sort Z.le l) as Hs. rewrite <-(merge_sort_Permutation Z.le l) in Hnd. unfold sort_ids.
  induction Hs as [|x s Hs IH Hx]; [constructor|]. apply NoDup_cons in Hnd as [Hn Hnd]. constructor; [by apply IH|].
  rewrite Forall_forall in Hx |- *. intros y Hy. specialize (Hx y Hy). assert (x <> y) by congruence. lia.
Qed.

Lemma elem_sort_ids l x : x ∈ sort_ids l <-> x ∈ l.
Proof. unfold sort_ids. by rewrite (merge_sort_Permutation Z.le l). Qed.

Lemma length_sort_ids l : length (sort_ids l) = length l.
Proof. apply Permutation_length, merge_sort_Permutation. Qed.

Lemma sort_ids_id l : ssorted l -> sort_ids l = l.
Proof. intros H. apply ssorted_unique; [by apply sort_ids_sorted, ssorted_NoDup|done|]. intros x. apply elem_sort_ids. Qed.

Lemma ssorted_app (a b : pgids) : ssorted a -> ssorted b -> (forall x y, x ∈ a -> y ∈ b -> x < y) -> ssorted (a ++ b).
Proof.
  induction 1 as [|x a Ha IH Hx]; intros Hb Hab; [done|]. cbn. constructor.
  - apply IH; [done|]. intros. apply Hab; [by right|done].
  - apply Forall_app. split; [done|]. apply Forall_forall. intros y Hy. apply Hab; [by left|done].
Qed.

(** The merge of two sorted lists without a common page. *)
Lemma merge_loop_spec fuel lead follow merged x y l f :
  lead = x :: l -> follow = y :: f -> x < y -> ssorted lead -> ssorted follow -> ssorted merged ->
  (forall a, a ∈ merged -> a < x) -> (forall a, a ∈ lead -> a ∉ follow) -> (length lead + length follow < fuel)%nat ->
  exists r, merge_loop fuel lead follow merged = Ok r /\ ssorted r /\ r ≡ₚ merged ++ lead ++ follow.
Proof.
  revert lead follow merged x y l f. induction fuel as [|fuel IH]; intros lead follow merged x y l f El Ef Hxy Hl Hf Hm Hb Hd Hfu; [lia|].
  cbn [merge_loop]. assert (Hn0 : len lead =? 0 = false) by (rewrite El, len_cons; pose proof (len_nonneg l); lia). rewrite Hn0.
  assert (Hsplit : exists a b, lead = a ++ b /\ Forall (fun z => z < y) a /\ Forall (fun z => y < z) b).
  { clear -Hl Hd Ef. assert (Hy : forall a, a ∈ lead -> a <> y) by (intros a Ha ->; apply (Hd y Ha); rewrite Ef; by left). clear Hd.
    induction Hl as [|a lead Hl IH Ha]; [by exists [], []|]. destruct (Z.lt_ge_cases a y) as [Hlt|Hge].
    - destruct IH as (p & q & -> & Hp & Hq); [intros; apply Hy; by right|]. exists (a :: p), q. split; [done|]. split; [by constructor|done].
    - exists [], (a :: lead). split; [done|]. split; [constructor|]. assert (a <> y) by (apply Hy; by left). constructor; [lia|].
      eapply Forall_impl; [exact Ha|]. cbn. lia. }
  destruct Hsplit as (a & b & E & Ha & Hb').
  match goal with |- context [search ?m ?g] => assert (Hsearch : search m g = Ok (len a)) end.
  { apply (search_spec _ (fun i => len a <=? i)).
    - rewrite E, len_app. pose proof (len_nonneg a). pose proof (len_nonneg b). lia.
    - intros k Hk. rewrite Ef. cbn [first_id rbind]. rewrite E. rewrite E, len_app in Hk. destruct (Z.leb_spec (len a) k).
      + rewrite lookup_app_r by (unfold len in *; lia). destruct (lookup_lt_is_Some_2 b (Z.to_nat k - length a)) as [z Hz]; [unfold len in *; lia|].
        rewrite Hz. rewrite Forall_forall in Hb'. f_equal. apply Z.ltb_lt, Hb'. by eapply list_elem_of_lookup_2.
      + destruct (lookup_lt_is_Some_2 a (Z.to_nat k)) as [z Hz]; [unfold len in *; lia|]. rewrite (lookup_app_l_Some _ _ _ _ Hz).
        rewrite Forall_forall in Ha. f_equal. apply Z.ltb_ge, Z.lt_le_incl, Ha. by eapply list_elem_of_lookup_2.
    - intros k Hk. apply Z.leb_gt. lia.
    - intros k Hk. apply Z.leb_le. lia. }
  rewrite Hsearch. cbn [rbind]. assert (Et : take (Z.to_nat (len a)) lead = a) by (rewrite E; unfold len; rewrite Nat2Z.id; apply take_app_length).
  assert (Ed : drop (Z.to_nat (len a)) lead = b) by (rewrite E; unfold len; rewrite Nat2Z.id; apply drop_app_length).
  rewrite Et, Ed. assert (Hlt : forall z, z ∈ merged -> forall w, w ∈ lead -> z < w).
  { intros z Hz w Hw. apply Hb in Hz. rewrite El in Hw, Hl. inversion Hl as [|? ? ? Hx]; subst. rewrite Forall_forall in Hx.
    apply elem_of_cons in Hw as [->|Hw]; [done|]. specialize (Hx w Hw). lia. }
  assert (Hma : ssorted (merged ++ a)).
  { apply ssorted_app; [done|rewrite E in Hl; by apply StronglySorted_app_1_l in Hl|]. intros z w Hz Hw. apply Hlt; [done|]. rewrite E. apply elem_of_app. by left. }
  assert (Hmy : forall z, z ∈ merged ++ a -> z < y).
  { intros z [Hz|Hz]%elem_of_app; [specialize (Hb z Hz); lia|]. rewrite Forall_forall in Ha. by apply Ha. }
  assert (El' : len lead = len a + len b) by (rewrite E; apply len_app). rewrite El'. destruct b as [|b0 b].
  - destruct (Z.leb_spec (len a + len (@nil Z)) (len a)) as [_|H]; [|rewrite len_nil in H; lia]. eexists. split; [done|]. split.
    + apply ssorted_app; [done|done|]. intros z w Hz Hw. specialize (Hmy z Hz). rewrite Ef in Hw, Hf. inversion Hf as [|? ? ? Hy']; subst.
      rewrite Forall_forall in Hy'. apply elem_of_cons in Hw as [->|Hw]; [done|]. specialize (Hy' w Hw). lia.
    + rewrite E, app_nil_r. by rewrite app_assoc.
  - destruct (Z.leb_spec (len a + len (b0 :: b)) (len a)) as [H|_]; [rewrite len_cons in H; pose proof (len_nonneg b); lia|].
    destruct (IH follow (b0 :: b) (merged ++ a) y b0 f b Ef eq_refl) as (r & Hr & Hs & Hp); try done.
    + by apply Forall_cons in Hb' as [? _].
    + rewrite E in Hl. by apply StronglySorted_app_1_r in Hl.
    + intros z Hz Hin. apply (Hd z); [|done]. rewrite E. apply elem_of_app. by right.
    + assert (a <> []) as Hne.
      { intros ->. cbn in E. rewrite El in E. injection E as -> ->. apply Forall_cons in Hb' as [? _]. lia. }
      assert (length lead = length a + length (b0 :: b))%nat by (rewrite E, length_app; done). destruct a; [done|]. cbn in *. lia.
    + exists r. split; [done|]. split; [done|]. rewrite Hp, E. rewrite <-!app_assoc. f_equiv. f_equiv. apply Permutation_app_comm.
Qed.

Lemma mergepgids_spec room a b :
  ssorted a -> ssorted b -> (forall x, x ∈ a -> x ∉ b) -> len a + len b <= room ->
  exists r, mergepgids room a b = Ok r /\ ssorted r /\ r ≡ₚ a ++ b.
Proof.
  intros Ha Hb Hd Hr. unfold mergepgids. destruct (Z.ltb_spec room (len a + len b)); [lia|].
  destruct a as [|x a]; [by exists b|]. destruct b as [|y b]; [exists (x :: a); rewrite app_nil_r; done|].
  assert (x <> y) by (intros ->; apply (Hd y); by left).
  destruct (Z.ltb_spec y x) as [Hlt|Hge].
  - destruct (merge_loop_spec (S (length (x :: a) + length (y :: b))) (y :: b) (x :: a) [] y x b a) as (r & E & Hs & Hp); try done.
    + constructor.
    + by intros z Hz%elem_of_nil.
    + intros z Hz Hin. by apply (Hd z).
    + lia.
    + exists r. split; [done|]. split; [done|]. etrans; [exact Hp|]. apply (Permutation_app_comm (y :: b) (x :: a)).
  - destruct (merge_loop_spec (S (length (x :: a) + length (y :: b))) (x :: a) (y :: b) [] x y a b) as (r & E & Hs & Hp); try done.
    + lia.
    + constructor.
    + by intros z Hz%elem_of_nil.
    + lia.
    + by exists r.
Qed.

Lemma pgids_merge_spec a b :
  ssorted a -> ssorted b -> (forall x, x ∈ a -> x ∉ b) -> exists r, pgids_merge a b = Ok r /\ ssorted r /\ r ≡ₚ a ++ b.
Proof.
  intros Ha Hb Hd. unfold pgids_merge. destruct a as [|x a]; [by exists b|]. destruct b as [|y b]; [exists (x :: a); by rewrite app_nil_r|].
  apply mergepgids_spec; [done..|lia].
Qed.

(** ** The contract of a store *)

(** Pages [p] to [p + n - 1] are all in [F]. *)
Definition run (F : gset Z) (p n : Z) : Prop := forall i, p <= i < p + n -> i ∈ F.

Definition run_set (p n : Z) : gset Z := list_to_set (seqZ p n).

Lemma elem_run_set x p n : x ∈ run_set p n <-> p <= x < p + n.
Proof. unfold run_set. rewrite elem_of_list_to_set, elem_of_seqZ. lia. Qed.

(** An order of visiting: it meets an element unless the set is empty. *)
Definition picks (pick : gset Z -> option Z) : Prop :=
  forall s, match pick s with Some x => x ∈ s | None => s = ∅ end.

Class FreeStoreLaws {S : Type} (I : FreeStore S) (R : S -> gset Z -> Prop) : Prop := {
  fl_pages : forall s F, R s F -> forall x, x ∈ F -> 2 <= x;
  fl_alloc : forall pick s F n, picks pick -> R s F -> 1 <= n ->
    exists s' p, fs_allocate pick s n = Ok (s', p) /\
      ((p = 0 /\ s' = s /\ forall q, ~ run F q n) \/ (2 <= p /\ run F p n /\ R s' (F ∖ run_set p n)));
  fl_merge : forall s F m, R s F -> NoDup m -> (forall x, x ∈ m -> 2 <= x /\ x ∉ F) ->
    exists s', fs_mergeSpans m s = Ok s' /\ R s' (F ∪ list_to_set m);
  fl_ids : forall s F, R s F -> ssorted (fs_getFreePageIDs s) /\ forall x, x ∈ fs_getFreePageIDs s <-> x ∈ F;
  fl_count : forall s F, R s F -> fs_free_count s = Z.of_nat (base.size F);
  fl_read : forall s l, ssorted l -> l <> [] -> (forall x, x ∈ l -> 2 <= x) -> R (fs_readIDs l s) (list_to_set l);
  fl_new : R fs_new ∅;
  fl_read_none : forall s, R s ∅ -> R (fs_readIDs [] s) ∅;
  fl_bitmap : forall s F, R s F -> NoDup (fs_bitmapIDs s) /\ forall x, x ∈ fs_bitmapIDs s <-> x ∈ F
}.

(** ** The array *)

Definition array_rep (l : pgids) (F : gset Z) : Prop := ssorted l /\ F = list_to_set l /\ forall x, x ∈ l -> 2 <= x.

(** The scan has passed [pre], which ends with the run from [initial] to
    [previd] and holds no run of [n] pages. *)
Record scanned (pre : pgids) (initial previd n : Z) : Prop := mkScanned {
  sc_none : forall q, ~ run (list_to_set pre) q n;
  sc_last : pre = [] /\ previd = 0 \/
    exists l, pre = l ++ seqZ initial (previd - initial + 1) /\ initial <= previd /\ initial - 1 ∉ l /\ previd - initial + 1 < n
}.

Lemma seqZ_snoc m n : 0 <= n -> seqZ m (n + 1) = seqZ m n ++ [m + n].
Proof. intros Hn. rewrite seqZ_app by lia. f_equal. Qed.

Lemma scanned_step pre id rest initial previd n :
  ssorted (pre ++ id :: rest) -> 2 <= id -> 1 <= n -> scanned pre initial previd n ->
  let initial' := if (previd =? 0) || negb (id - previd =? 1) then id else initial in
  exists l, pre ++ [id] = l ++ seqZ initial' (id - initial' + 1) /\ initial' <= id /\ initial' - 1 ∉ l /\
    (id - initial' + 1 = n \/ (id - initial' + 1 < n /\ scanned (pre ++ [id]) initial' id n)).
Proof.
  intros Hs Hid Hn [Hno Hl] initial'.
  assert (Hpre : forall x, x ∈ pre -> x < id).
  { intros x Hx. apply (StronglySorted_app_1_elem_of _ _ _ x id Hs Hx). by left. }
  assert (H : exists l, pre ++ [id] = l ++ seqZ initial' (id - initial' + 1) /\ initial' <= id /\ initial' - 1 ∉ l /\ (id - initial' + 1 <= n)).
  { assert (Hone : seqZ id (id - id + 1) = [id]) by (replace (id - id + 1) with 1 by lia; done).
    destruct Hl as [[-> ->]|(l & El & Hle & Hni & Hlt)].
    - exists []. subst initial'. cbn [Z.eqb orb]. rewrite Hone. split; [done|]. split; [lia|]. split; [apply not_elem_of_nil|lia].
    - assert (Hprev : previd ∈ pre) by (rewrite El; apply elem_of_app; right; apply elem_of_seqZ; lia).
      pose proof (Hpre _ Hprev) as Hp. subst initial'. destruct (Z.eqb_spec previd 0) as [E0|Hne]; cbn [orb].
      { exists pre. rewrite Hone. split; [done|]. split; [lia|]. split; [|lia]. intros Hin. specialize (Hpre _ Hin).
        assert (Hs' : ssorted pre) by (by apply StronglySorted_app_1_l in Hs).
        rewrite El in Hs', Hin. destruct (elem_of_app l (seqZ initial (previd - initial + 1)) (id - 1)) as [Hi _].
        destruct (Hi Hin) as [Hi'|Hi'].
        - assert (id - 1 < previd) by (apply (StronglySorted_app_1_elem_of _ _ _ (id - 1) previd Hs' Hi'); apply elem_of_seqZ; lia). lia.
        - apply elem_of_seqZ in Hi'. lia. }
      destruct (Z.eqb_spec (id - previd) 1) as [E1|Hne1]; cbn [negb].
      + exists l. replace (id - initial + 1) with (previd - initial + 1 + 1) by lia. rewrite seqZ_snoc by lia.
        rewrite app_assoc, <-El. replace (initial + (previd - initial + 1)) with id by lia. split; [done|]. split; [lia|]. split; [done|lia].
      + exists pre. rewrite Hone. split; [done|]. split; [lia|]. split; [|lia]. intros Hin.
        assert (Hs' : ssorted pre) by (by apply StronglySorted_app_1_l in Hs).
        rewrite El in Hs', Hin. apply elem_of_app in Hin as [Hi'|Hi'].
        * assert (id - 1 < previd) by (apply (StronglySorted_app_1_elem_of _ _ _ (id - 1) previd Hs' Hi'); apply elem_of_seqZ; lia). lia.
        * apply elem_of_seqZ in Hi'. lia. }
  destruct H as (l & E & Hle & Hni & Hlt). exists l. split; [done|]. split; [done|]. split; [done|].
  destruct (Z.eq_dec (id - initial' + 1) n) as [->|Hne]; [by left|]. right. split; [lia|]. split.
  - intros q Hq. assert (Hin : forall i, q <= i < q + n -> i ∈ pre ++ [id]) by (intros i Hi; specialize (Hq i Hi); by apply elem_of_list_to_set in Hq).
    destruct (Z.lt_ge_cases (q + n - 1) id) as [Hb|Hb].
    + apply (Hno q). intros i Hi. apply elem_of_list_to_set. specialize (Hin i Hi). apply elem_of_app in Hin as [|Hin]; [done|].
      apply list_elem_of_singleton in Hin. lia.
    + assert (q + n - 1 = id).
      { specialize (Hin (q + n - 1) ltac:(lia)). apply elem_of_app in Hin as [Hin|Hin]; [specialize (Hpre _ Hin); lia|by apply list_elem_of_singleton in Hin]. }
      assert (Hi1 : initial' - 1 ∈ pre ++ [id]) by (apply Hin; lia). rewrite E in Hi1. apply elem_of_app in Hi1 as [|Hi1]; [done|].
      apply elem_of_seqZ in Hi1. lia.
  - right. exists l. split; [done|]. split; [done|]. split; [done|lia].
Qed.

Lemma array_scan_spec rest pre initial previd n :
  ssorted (pre ++ rest) -> (forall x, x ∈ pre ++ rest -> 2 <= x) -> 1 <= n -> scanned pre initial previd n ->
  match array_scan rest (len pre) initial previd n with
  | Ok (Some (i, p)) => exists a b, pre ++ rest = a ++ seqZ p n ++ b /\ i + 1 = len a + n
  | Ok None => forall q, ~ run (list_to_set (pre ++ rest)) q n
  | _ => False
  end.
Proof.
  revert pre initial previd. induction rest as [|id rest IH]; intros pre initial previd Hs H2 Hn Hsc; cbn [array_scan].
  - rewrite app_nil_r. apply Hsc.
  - assert (2 <= id) by (apply H2, elem_of_app; right; by left). destruct (Z.leb_spec id 1); [lia|].
    destruct (scanned_step _ _ _ _ _ _ Hs ltac:(lia) Hn Hsc) as (l & E & Hle & Hni & Hd). cbv zeta in E, Hle, Hni, Hd |- *.
    set (initial' := if (previd =? 0) || negb (id - previd =? 1) then id else initial) in *.
    destruct (Z.eqb_spec (id - initial' + 1) n) as [En|Hne].
    + exists l, rest. rewrite <-En, app_assoc, <-E, <-app_assoc. split; [done|].
      assert (Hl : len (pre ++ [id]) = len l + n).
      { rewrite E, len_app. unfold len at 2. rewrite length_seqZ. lia. }
      rewrite len_app, len_cons, len_nil in Hl. lia.
    + destruct Hd as [|[Hlt Hsc']]; [lia|]. replace (len pre + 1) with (len (pre ++ [id])) by (rewrite len_app; done).
      replace (pre ++ id :: rest) with ((pre ++ [id]) ++ rest) in * by (by rewrite <-app_assoc). by apply IH.
Qed.

Lemma elem_sub_run (l : pgids) a p n b : l = a ++ seqZ p n ++ b -> ssorted l ->
  (list_to_set l ∖ run_set p n : gset Z) = list_to_set (a ++ b).
Proof.
  intros -> Hs%ssorted_NoDup. apply NoDup_app in Hs as (_ & Ha & Hs). apply NoDup_app in Hs as (_ & Hb & _).
  apply set_eq. intros x. rewrite elem_of_difference, !elem_of_list_to_set, !elem_of_app, elem_run_set, elem_of_seqZ. split.
  - naive_solver lia.
  - intros [Hx|Hx].
    + split; [by left|]. intros Hr. apply (Ha x Hx). apply elem_of_app. left. apply elem_of_seqZ. lia.
    + split; [by right; right|]. intros Hr. apply (Hb x); [apply elem_of_seqZ; lia|done].
Qed.

Lemma ssorted_remove a (m b : pgids) : ssorted (a ++ m ++ b) -> ssorted (a ++ b).
Proof.
  intros Hs. apply ssorted_app.
  - by apply StronglySorted_app_1_l in Hs.
  - by apply StronglySorted_app_1_r, StronglySorted_app_1_r in Hs.
  - intros x y Hx Hy. apply (StronglySorted_app_1_elem_of _ _ _ x y Hs Hx). apply elem_of_app. by right.
Qed.

#[export] Instance arrayStore_laws : FreeStoreLaws arrayStore array_rep.
Proof.
  split.
  - intros s F (_ & -> & H) x Hx%elem_of_list_to_set. by apply H.
  - intros pick s F n _ (Hs & -> & H2) Hn. cbn. unfold arrayAllocate.
    pose proof (array_scan_spec s [] 0 0 n Hs H2 Hn) as Hsc. cbn [app] in Hsc. change (len []) with 0 in Hsc.
    destruct (array_scan s 0 0 0 n) as [[[i p]|]| |].
    + destruct Hsc as (a & b & E & Ei).
      { split; [|by left]. intros q Hq. specialize (Hq q ltac:(lia)). by apply elem_of_list_to_set, elem_of_nil in Hq. }
      assert (Hlen : length (a ++ seqZ p n) = Z.to_nat (i + 1)) by (rewrite length_app, length_seqZ; unfold len in Ei; lia).
      assert (Ed : drop (Z.to_nat (i + 1)) s = b) by (rewrite E, app_assoc, <-Hlen; apply drop_app_length).
      assert (Et : take (Z.to_nat (i - n + 1)) s = a).
      { rewrite E. replace (Z.to_nat (i - n + 1)) with (length a) by (unfold len in Ei; lia). apply take_app_length. }
      cbn [rbind]. exists (a ++ b), p. split.
      { destruct (Z.eqb_spec (i + 1) n) as [En|]; rewrite Ed; [|by rewrite Et]. assert (a = []) as ->; [|done].
        apply nil_length_inv. unfold len in Ei. lia. }
      right. split; [apply H2; rewrite E; apply elem_of_app; right; apply elem_of_app; left; apply elem_of_seqZ; lia|].
      split; [intros j Hj; apply elem_of_list_to_set; rewrite E; apply elem_of_app; right; apply elem_of_app; left; apply elem_of_seqZ; lia|].
      split; [rewrite E in Hs; by apply ssorted_remove in Hs|]. split; [by apply elem_sub_run|].
      intros x [Hx|Hx]%elem_of_app; apply H2; rewrite E; rewrite !elem_of_app; auto.
    + cbn [rbind]. exists s, 0. split; [done|]. left. split; [done|]. split; [done|]. apply Hsc.
      split; [|by left]. intros q Hq. specialize (Hq q ltac:(lia)). by apply elem_of_list_to_set, elem_of_nil in Hq.
    + destruct Hsc. split; [|by left]. intros q Hq. specialize (Hq q ltac:(lia)). by apply elem_of_list_to_set, elem_of_nil in Hq.
    + destruct Hsc. split; [|by left]. intros q Hq. specialize (Hq q ltac:(lia)). by apply elem_of_list_to_set, elem_of_nil in Hq.
  - intros s F m (Hs & -> & H2) Hnd Hm. cbn. unfold arrayMergeSpans.
    destruct (pgids_merge_spec s (sort_ids m)) as (r & E & Hr & Hp); [done|by apply sort_ids_sorted| |].
    { intros x Hx Hin. rewrite elem_sort_ids in Hin. apply Hm in Hin as [_ Hin]. apply Hin. by apply elem_of_list_to_set. }
    exists r. split; [done|]. split; [done|]. split.
    + apply set_eq. intros x. rewrite elem_of_union, !elem_of_list_to_set, Hp, elem_of_app, elem_sort_ids. done.
    + intros x Hx. rewrite Hp, elem_of_app, elem_sort_ids in Hx. destruct Hx as [Hx|Hx]; [by apply H2|by apply Hm].
  - intros s F (Hs & -> & H2). split; [done|]. intros x. by rewrite elem_of_list_to_set.
  - intros s F (Hs & -> & H2). cbn. unfold arrayFreeCount, len. rewrite size_list_to_set; [done|by apply ssorted_NoDup].
  - intros s l Hl _ H2. done.
  - split; [constructor|]. split; [done|]. intros x Hx. by apply elem_of_nil in Hx.
  - intros s _. split; [constructor|]. split; [done|]. intros x Hx. by apply elem_of_nil in Hx.
  - intros s F (Hs & -> & H2). split; [by apply ssorted_NoDup|]. intros x. by rewrite elem_of_list_to_set.
Qed.

(** ** Spans *)

(** A maximal run. *)
Definition is_span (F : gset Z) (s z : Z) : Prop := 1 <= z /\ run F s z /\ s - 1 ∉ F /\ s + z ∉ F.

Lemma span_overlap F s z s' z' i :
  is_span F s z -> is_span F s' z' -> s <= i < s + z -> s' <= i < s' + z' -> s = s' /\ z = z'.
Proof.
  intros (H1 & H2 & H3 & H4) (G1 & G2 & G3 & G4) Hi Hi'.
  assert (s = s') as ->.
  { destruct (Z.lt_trichotomy s s') as [Hlt|[|Hlt]]; [|done|].
    - destruct G3. apply H2. lia.
    - destruct H3. apply G2. lia. }
  split; [done|]. destruct (Z.lt_trichotomy z z') as [Hlt|[|Hlt]]; [|done|].
  - destruct H4. apply G2. lia.
  - destruct G4. apply H2. lia.
Qed.

Lemma span_start F s z z' : is_span F s z -> is_span F s z' -> z = z'.
Proof. intros H H'. destruct (span_overlap F s z s z' s H H'); [destruct H; lia|destruct H'; lia|done]. Qed.

Lemma set_bounds (F : gset Z) : exists a b, forall x, x ∈ F -> a < x < b.
Proof.
  induction F as [|x F Hx (a & b & H)] using set_ind_L.
  - exists 0, 0. intros x Hx. by apply elem_of_empty in Hx.
  - exists (Z.min a (x - 1)), (Z.max b (x + 1)). intros y Hy. apply elem_of_union in Hy as [Hy|Hy].
    + apply elem_of_singleton in Hy. lia.
    + specialize (H y Hy). lia.
Qed.

(** Every free page lies in a span. *)
Lemma span_exists F i : i ∈ F -> exists s z, is_span F s z /\ s <= i < s + z.
Proof.
  intros Hi. destruct (set_bounds F) as (a & b & Hab).
  assert (Hdown : forall d, (exists s, s <= i /\ (forall j, s <= j <= i -> j ∈ F) /\ s - 1 ∉ F) \/ (forall j, i - Z.of_nat d <= j <= i -> j ∈ F)).
  { induction d as [|d [IH|IH]]; [right; intros j Hj; by replace j with i by lia|by left|].
    destruct (decide (i - Z.of_nat d - 1 ∈ F)) as [Hin|Hout].
    - right. intros j Hj. destruct (Z.eq_dec j (i - Z.of_nat d - 1)) as [->|]; [done|]. apply IH. lia.
    - left. exists (i - Z.of_nat d). split; [lia|]. split; [done|done]. }
  assert (Hup : forall d, (exists e, i < e /\ (forall j, i <= j < e -> j ∈ F) /\ e ∉ F) \/ (forall j, i <= j <= i + Z.of_nat d -> j ∈ F)).
  { induction d as [|d [IH|IH]]; [right; intros j Hj; by replace j with i by lia|by left|].
    destruct (decide (i + Z.of_nat d + 1 ∈ F)) as [Hin|Hout].
    - right. intros j Hj. destruct (Z.eq_dec j (i + Z.of_nat d + 1)) as [->|]; [done|]. apply IH. lia.
    - left. exists (i + Z.of_nat d + 1). split; [lia|]. split; [intros j Hj; apply IH; lia|done]. }
  pose proof (Hab i Hi). destruct (Hdown (Z.to_nat (i - a))) as [(s & Hs & Hr & Hn)|Hbad].
  2: { specialize (Hbad a ltac:(lia)). apply Hab in Hbad. lia. }
  destruct (Hup (Z.to_nat (b - i))) as [(e & He & Hr' & Hn')|Hbad].
  2: { specialize (Hbad b ltac:(lia)). apply Hab in Hbad. lia. }
  exists s, (e - s). split; [|lia]. split; [lia|]. split; [|split; [done|by replace (s + (e - s)) with e by lia]].
  intros j Hj. destruct (Z.le_gt_cases j i); [apply Hr; lia|apply Hr'; lia].
Qed.

(** The page [pid] joins the span of [pz] pages before it and the one of [nz]
    pages behind it; 0 stands for none. *)
Lemma span_insert F pid pz nz :
  pid ∉ F -> (pz = 0 /\ pid - 1 ∉ F \/ is_span F (pid - pz) pz) -> (nz = 0 /\ pid + 1 ∉ F \/ is_span F (pid + 1) nz) ->
  forall a b, is_span (F ∪ {[pid]}) a b <->
    (is_span F a b /\ ~ (a = pid - pz /\ b = pz) /\ ~ (a = pid + 1 /\ b = nz)) \/ (a = pid - pz /\ b = 1 + pz + nz).
Proof.
  intros Hpid Hp Hn.
  assert (Hin : forall i, i ∈ F ∪ {[pid]} <-> i ∈ F \/ i = pid) by (intros i; rewrite elem_of_union, elem_of_singleton; done).
  assert (Hpz : 0 <= pz /\ run F (pid - pz) pz /\ pid - pz - 1 ∉ F).
  { destruct Hp as [[-> Hp]|(? & ? & ? & _)]; [|by split; [lia|]]. split; [done|]. split; [intros i; lia|]. by replace (pid - 0 - 1) with (pid - 1) by lia. }
  assert (Hnz : 0 <= nz /\ run F (pid + 1) nz /\ pid + 1 + nz ∉ F).
  { destruct Hn as [[-> Hn]|(? & ? & ? & ?)]; [|by split; [lia|]]. split; [done|]. split; [intros i; lia|]. by replace (pid + 1 + 0) with (pid + 1) by lia. }
  destruct Hpz as (P1 & P2 & P3), Hnz as (N1 & N2 & N3).
  assert (Hnew : is_span (F ∪ {[pid]}) (pid - pz) (1 + pz + nz)).
  { split; [lia|]. split; [|split].
    - intros i Hi. apply Hin. destruct (Z.lt_trichotomy i pid) as [|[|]]; [left; apply P2; lia|by right|left; apply N2; lia].
    - rewrite Hin. intros [H|H]; [done|lia].
    - rewrite Hin. replace (pid - pz + (1 + pz + nz)) with (pid + 1 + nz) by lia. intros [H|H]; [done|lia]. }
  intros a b. split.
  - intros H. destruct (decide (a <= pid < a + b)) as [Hov|Hno].
    + right. apply (span_overlap _ a b (pid - pz) (1 + pz + nz) pid H Hnew); lia.
    + left. destruct H as (H1 & H2 & H3 & H4). rewrite Hin in H3, H4.
      assert (a - 1 <> pid) by tauto. assert (a + b <> pid) by tauto. split; [split; [done|]; split; [|tauto]|].
      * intros i Hi. specialize (H2 i Hi). apply Hin in H2 as [| ->]; [done|lia].
      * split; [|lia]. intros [-> ->]. lia.
  - intros [((H1 & H2 & H3 & H4) & Hne1 & Hne2)|[-> ->]]; [|done].
    assert (a - 1 <> pid).
    { intros E. assert (a = pid + 1) as -> by lia. destruct Hn as [[_ Hn]|Hn]; [apply Hn, H2; lia|].
      apply Hne2. split; [done|]. by apply (span_start F (pid + 1)). }
    assert (a + b <> pid).
    { intros E. assert (Hpm : pid - 1 ∈ F) by (apply H2; lia). destruct Hp as [[_ Hp]|Hp]; [done|].
      destruct (span_overlap F a b (pid - pz) pz (pid - 1)) as [Ea Eb]; [done|done|lia|destruct Hp; lia|]. by apply Hne1. }
    split; [done|]. split; [intros i Hi; apply Hin; left; by apply H2|]. rewrite !Hin. split; intros [|]; done.
Qed.

(** Taking the first [n] pages of a span. *)
Lemma span_take F p z n : is_span F p z -> 1 <= n <= z ->
  forall a b, is_span (F ∖ run_set p n) a b <-> (is_span F a b /\ ~ (a = p /\ b = z)) \/ (n < z /\ a = p + n /\ b = z - n).
Proof.
  intros Hp Hn. pose proof Hp as (P1 & P2 & P3 & P4).
  assert (Hin : forall i, i ∈ F ∖ run_set p n <-> i ∈ F /\ ~ (p <= i < p + n)) by (intros i; rewrite elem_of_difference, elem_run_set; done).
  assert (Hrest : n < z -> is_span (F ∖ run_set p n) (p + n) (z - n)).
  { intros Hlt. split; [lia|]. rewrite !Hin. split; [intros i Hi; apply Hin; split; [apply P2; lia|lia]|]. split; [lia|].
    replace (p + n + (z - n)) with (p + z) by lia. tauto. }
  intros a b. split.
  - intros H. pose proof (proj1 H) as Hb. destruct (decide (a < p + z /\ p < a + b)) as [Hov|Hno].
    + right. set (i := Z.max a p). assert (Hi1 : a <= i < a + b) by lia. assert (n < z).
      { destruct H as (_ & H2 & _). specialize (H2 i Hi1). apply Hin in H2. lia. }
      assert (Hi3 : p + n <= i) by (destruct H as (_ & H2 & _); specialize (H2 i Hi1); apply Hin in H2; lia).
      destruct (span_overlap _ a b (p + n) (z - n) i H (Hrest ltac:(done))); [lia|lia|]. done.
    + left. destruct H as (H1 & H2 & H3 & H4). rewrite Hin in H3, H4.
      assert (Hd : a + b <= p \/ p + z <= a) by lia.
      split; [|lia]. split; [done|]. split; [intros i Hi; by apply Hin, H2|]. split.
      * intros Hx. destruct H3. split; [done|]. intros Hr. destruct Hd; [lia|]. assert (a = p + z) by lia. subst a. apply P4. specialize (H2 (p + z) ltac:(lia)). by apply Hin in H2 as [H2 _].
      * intros Hx. destruct H4. split; [done|]. intros Hr. destruct Hd; [|lia]. assert (a + b = p) by lia.
        apply P3. specialize (H2 (p - 1) ltac:(lia)). by apply Hin in H2 as [H2 _].
  - intros [[Hab Hne]|(Hlt & -> & ->)]; [|by apply Hrest]. pose proof Hab as (H1 & H2 & H3 & H4).
    assert (Hd : a + b <= p \/ p + z <= a).
    { destruct (decide (a + b <= p)); [by left|]. right. destruct (decide (p + z <= a)); [done|]. destruct Hne.
      apply (span_overlap F a b p z (Z.max a p)); [done|done|lia|lia]. }
    split; [done|]. rewrite !Hin. split; [intros i Hi; apply Hin; split; [by apply H2|lia]|]. tauto.
Qed.

(** ** The maps of spans *)

(** The three maps hold exactly the spans [P]. *)
Record reps (f : spans) (P : Z -> Z -> Prop) : Prop := mkReps {
  rp_fw : forall s z, forwardMap f !! s = Some z <-> P s z;
  rp_bw : forall e z, backwardMap f !! e = Some z <-> P (e - z + 1) z;
  rp_fm : forall z s, s ∈ default ∅ (freemaps f !! z) <-> P s z;
  rp_ne : forall z, freemaps f !! z <> Some ∅
}.

Lemma reps_ext f P Q : reps f P -> (forall a b, P a b <-> Q a b) -> reps f Q.
Proof. intros [H1 H2 H3 H4] E. split; [|..|done]; intros; rewrite <-E; auto. Qed.

Lemma reps_end f P s z s' z' : reps f P -> P s z -> P s' z' -> s + z = s' + z' -> z = z'.
Proof.
  intros H Hs Hs' E. replace s with (s - 1 + z - z + 1) in Hs by lia. replace s' with (s - 1 + z - z' + 1) in Hs' by lia.
  apply (rp_bw _ _ H) in Hs, Hs'. congruence.
Qed.

Lemma reps_add f P s z :
  reps f P -> (forall z', ~ P s z') -> (forall s' z', P s' z' -> s' + z' <> s + z) ->
  reps (addSpan f s z) (fun a b => P a b \/ (a = s /\ b = z)).
Proof.
  intros H Hs He. split; cbn.
  - intros a b. destruct (decide (a = s)) as [->|Hne].
    + rewrite lookup_insert_eq. specialize (Hs b). split; [intros [= ->]; by right|intros [?|[_ ->]]; done].
    + rewrite lookup_insert_ne by done. rewrite (rp_fw _ _ H). tauto.
  - intros e b. destruct (decide (e = s - 1 + z)) as [->|Hne].
    + rewrite lookup_insert_eq. split; [intros [= ->]; right; lia|]. intros [Hp|[_ ->]]; [|done]. apply He in Hp. lia.
    + rewrite lookup_insert_ne by done. rewrite (rp_bw _ _ H). split; [tauto|]. intros [|[? ->]]; [done|lia].
  - intros b a. destruct (decide (b = z)) as [->|Hne].
    + rewrite lookup_insert_eq. cbn. rewrite elem_of_union, elem_of_singleton, (rp_fm _ _ H). tauto.
    + rewrite lookup_insert_ne by done. rewrite (rp_fm _ _ H). tauto.
  - intros b. destruct (decide (b = z)) as [->|Hne].
    + rewrite lookup_insert_eq. intros [= E]. assert (s ∈ (∅ : gset Z)) as Hin by (rewrite <-E; apply elem_of_union; left; by apply elem_of_singleton). by apply elem_of_empty in Hin.
    + rewrite lookup_insert_ne by done. apply (rp_ne _ _ H).
Qed.

Lemma reps_del f P s z : reps f P -> P s z -> reps (delSpan f s z) (fun a b => P a b /\ ~ (a = s /\ b = z)).
Proof.
  intros H Hs. unfold delSpan. set (S' := default ∅ (freemaps f !! z) ∖ {[s]}).
  assert (Hfm : forall b a, a ∈ default ∅ ((if decide (S' = ∅) then delete z (freemaps f) else <[z := S']> (freemaps f)) !! b) <-> P a b /\ ~ (a = s /\ b = z)).
  { intros b a. destruct (decide (b = z)) as [->|Hne].
    - assert (Hin : a ∈ S' <-> P a z /\ a <> s) by (unfold S'; rewrite elem_of_difference, elem_of_singleton, (rp_fm _ _ H); done).
      destruct (decide (S' = ∅)) as [E|_]; [rewrite lookup_delete_eq, <-E|rewrite lookup_insert_eq]; cbn; rewrite Hin; naive_solver.
    - rewrite <-(rp_fm _ _ H). assert (((if decide (S' = ∅) then delete z (freemaps f) else <[z := S']> (freemaps f)) !! b) = freemaps f !! b) as ->.
      { destruct (decide (S' = ∅)); [by rewrite lookup_delete_ne|by rewrite lookup_insert_ne]. } naive_solver. }
  split; cbn; [| |exact Hfm|].
  - intros a b. destruct (decide (a = s)) as [->|Hne].
    + rewrite lookup_delete_eq. split; [done|]. intros [Hp Hn]. destruct Hn. split; [done|].
      apply (rp_fw _ _ H) in Hp, Hs. congruence.
    + rewrite lookup_delete_ne by done. rewrite (rp_fw _ _ H). naive_solver.
  - intros e b. destruct (decide (e = s + (z - 1))) as [->|Hne].
    + rewrite lookup_delete_eq. split; [done|]. intros [Hp Hn]. destruct Hn.
      assert (b = z) as -> by (by apply (reps_end f P _ b s z H Hp Hs); lia). lia.
    + rewrite lookup_delete_ne by done. rewrite (rp_bw _ _ H). split; [|tauto]. intros Hp. split; [done|]. intros [? ->]. lia.
  - intros b. destruct (decide (S' = ∅)) as [E|E].
    + destruct (decide (b = z)) as [->|]; [by rewrite lookup_delete_eq|]. rewrite lookup_delete_ne by done. apply (rp_ne _ _ H).
    + destruct (decide (b = z)) as [->|]; [rewrite lookup_insert_eq; congruence|]. rewrite lookup_insert_ne by done. apply (rp_ne _ _ H).
Qed.

Definition hash_rep (f : spans) (F : gset Z) : Prop := reps f (is_span F) /\ forall x, x ∈ F -> 2 <= x.

Lemma fw_span f F s : reps f (is_span F) ->
  match forwardMap f !! s with Some z => is_span F s z | None => s - 1 ∉ F -> s ∉ F end.
Proof.
  intros H. destruct (forwardMap f !! s) as [z|] eqn:E; [by apply (rp_fw _ _ H)|]. intros Hn Hin.
  destruct (span_exists F s Hin) as (a & b & Hab & Hr). assert (a = s) as ->.
  { destruct (Z.eq_dec a s); [done|]. destruct Hn. apply Hab. lia. }
  apply (rp_fw _ _ H) in Hab. congruence.
Qed.

Lemma bw_span f F e : reps f (is_span F) ->
  match backwardMap f !! e with Some z => is_span F (e - z + 1) z | None => e + 1 ∉ F -> e ∉ F end.
Proof.
  intros H. destruct (backwardMap f !! e) as [z|] eqn:E; [by apply (rp_bw _ _ H)|]. intros Hn Hin.
  destruct (span_exists F e Hin) as (a & b & Hab & Hr). assert (a = e - b + 1) as ->.
  { destruct (Z.eq_dec (a + b) (e + 1)); [lia|]. destruct Hn. apply Hab. lia. }
  apply (rp_bw _ _ H) in Hab. congruence.
Qed.

Lemma mergeWithExistingSpan_spec f F pid : hash_rep f F -> pid ∉ F -> 2 <= pid -> hash_rep (mergeWithExistingSpan f pid) (F ∪ {[pid]}).
Proof.
  intros [H H2] Hpid Hp2. split; [|intros x [Hx|Hx]%elem_of_union; [by apply H2|apply elem_of_singleton in Hx; lia]].
  unfold mergeWithExistingSpan. pose proof (bw_span f F (pid - 1) H) as Hb. pose proof (fw_span f F (pid + 1) H) as Hf.
  replace (pid - 1 + 1) with pid in Hb by lia. replace (pid + 1 - 1) with pid in Hf by lia.
  set (pz := default 0 (backwardMap f !! (pid - 1))). set (nz := default 0 (forwardMap f !! (pid + 1))).
  assert (Hpz : pz = 0 /\ pid - 1 ∉ F \/ is_span F (pid - pz) pz).
  { unfold pz. destruct (backwardMap f !! (pid - 1)) as [z|]; cbn; [right; by replace (pid - z) with (pid - 1 - z + 1) by lia|left; auto]. }
  assert (Hnz : nz = 0 /\ pid + 1 ∉ F \/ is_span F (pid + 1) nz).
  { unfold nz. destruct (forwardMap f !! (pid + 1)) as [z|]; cbn; [by right|left; auto]. }
  assert (H1 : exists f1, (match backwardMap f !! (pid - 1) with
      | Some z => (delSpan f (pid - 1 + 1 - z) z, pid - z, 1 + z) | None => (f, pid, 1) end) = (f1, pid - pz, 1 + pz) /\
      reps f1 (fun a b => is_span F a b /\ ~ (a = pid - pz /\ b = pz))).
  { unfold pz. destruct (backwardMap f !! (pid - 1)) as [z|]; cbn.
    - eexists. split; [done|]. replace (pid - 1 + 1 - z) with (pid - z) by lia. apply reps_del; [done|]. by replace (pid - z) with (pid - 1 - z + 1) by lia.
    - exists f. split; [by rewrite Z.sub_0_r|]. eapply reps_ext; [exact H|]. intros a b. split; [|tauto]. intros Hab. split; [done|]. intros [_ ->]. destruct Hab; lia. }
  destruct H1 as (f1 & -> & Hr1).
  assert (H3 : exists f2, (match forwardMap f !! (pid + 1) with
      | Some z => (delSpan f1 (pid + 1) z, 1 + pz + z) | None => (f1, 1 + pz) end) = (f2, 1 + pz + nz) /\
      reps f2 (fun a b => (is_span F a b /\ ~ (a = pid - pz /\ b = pz)) /\ ~ (a = pid + 1 /\ b = nz))).
  { unfold nz. destruct (forwardMap f !! (pid + 1)) as [z|]; cbn.
    - eexists. split; [done|]. apply reps_del; [done|]. split; [done|]. intros [E _]. assert (0 <= pz) by (destruct Hpz as [[-> _]|[? _]]; lia). lia.
    - exists f1. split; [f_equal; lia|]. eapply reps_ext; [exact Hr1|]. intros a b. cbn. split; [|tauto]. intros Hab. split; [done|]. intros [_ ->]. destruct Hab as [[? _] _]; lia. }
  destruct H3 as (f2 & -> & Hr2). eapply reps_ext.
  - apply reps_add; [exact Hr2| |].
    + intros z' [[Hz Hne] _]. pose proof Hz as (Z1 & Z2 & _). destruct Hpz as [[E _]|Hp].
      * apply Hpid. replace pid with (pid - pz) by lia. apply Z2. lia.
      * apply Hne. split; [done|]. by apply (span_start F (pid - pz)).
    + intros s' z' [[Hz _] Hne] E. pose proof Hz as (Z1 & Z2 & Z3 & Z4). destruct Hnz as [[E0 _]|Hn].
      * apply Hpid. replace pid with (s' + z' - 1) by lia. apply Z2. lia.
      * apply Hne. pose proof Hn as (N1 & N2 & N3 & N4). apply (span_overlap F s' z' (pid + 1) nz (pid + nz)); [done|done|lia|lia].
  - intros a b. cbn. rewrite (span_insert F pid pz nz Hpid Hpz Hnz a b). tauto.
Qed.

Lemma hashmapMergeSpans_spec m f F :
  hash_rep f F -> NoDup m -> (forall x, x ∈ m -> 2 <= x /\ x ∉ F) -> hash_rep (foldl mergeWithExistingSpan f m) (F ∪ list_to_set m).
Proof.
  revert f F. induction m as [|pid m IH]; intros f F Hf Hnd Hm; cbn [foldl list_to_set].
  - by rewrite union_empty_r_L.
  - apply NoDup_cons in Hnd as [Hn Hnd]. rewrite union_assoc_L. destruct (Hm pid) as [H1 H2]; [by left|]. apply IH; [by apply mergeWithExistingSpan_spec|done|].
    intros x Hx. destruct (Hm x) as [H3 H4]; [by right|]. split; [done|]. intros [|E%elem_of_singleton]%elem_of_union; [done|congruence].
Qed.

(** Reading a sorted list: all spans but the last are in the maps. *)
Lemma fl_init_loop_spec l prev start size f (G : gset Z) :
  reps f (fun a b => is_span G a b /\ ~ (a = start /\ b = size)) -> is_span G start size -> prev = start + size - 1 ->
  (forall x, x ∈ G -> x <= prev) -> ssorted (prev :: l) ->
  let '(f', start', size') := init_loop l prev start size f in
  let G' := G ∪ list_to_set l in
  reps f' (fun a b => is_span G' a b /\ ~ (a = start' /\ b = size')) /\ is_span G' start' size' /\ start <= start'.
Proof.
  revert prev start size f G. induction l as [|x l IH]; intros prev start size f G Hr Hsp Hp Hmax Hs; cbn [init_loop list_to_set].
  - cbv zeta. rewrite !union_empty_r_L. split; [done|]. split; [done|lia].
  - apply StronglySorted_inv in Hs as [Hs Hx]. apply Forall_cons in Hx as [Hx _].
    assert (HxG : x ∉ G) by (intros Hin%Hmax; lia). assert (Hx1 : x + 1 ∉ G) by (intros Hin%Hmax; lia).
    assert (Hmax' : forall y, y ∈ G ∪ {[x]} -> y <= x) by (intros y [Hy%Hmax|Hy%elem_of_singleton]%elem_of_union; lia).
    pose proof Hsp as (Z1 & Z2 & Z3 & Z4). rewrite union_assoc_L. destruct (Z.eqb_spec x (prev + 1)) as [Ex|Hne].
    + assert (Hpz : size = 0 /\ x - 1 ∉ G \/ is_span G (x - size) size) by (right; by replace (x - size) with start by lia).
      pose proof (span_insert G x size 0 HxG Hpz (or_introl (conj eq_refl Hx1))) as Hins. apply IH; [|apply Hins; right; lia|lia|done|done].
      eapply reps_ext; [exact Hr|]. intros a b. cbn. rewrite (Hins a b). split.
      * intros [Hab Hn]. pose proof (proj1 Hab). split; [left; split; [done|]; split; [lia|lia]|]. intros [-> ->].
        assert (size + 1 = size) by (by apply (span_start G start)). lia.
      * intros [[[Hab [H1 H2]]|[-> ->]] Hn]; [|lia]. split; [done|]. intros [-> ->]. lia.
    + assert (Hx2 : x - 1 ∉ G) by (intros Hin%Hmax; lia).
      pose proof (span_insert G x 0 0 HxG (or_introl (conj eq_refl Hx2)) (or_introl (conj eq_refl Hx1))) as Hins.
      assert (Hadd : reps (addSpan f start size) (is_span G)).
      { eapply reps_ext; [apply reps_add; [exact Hr| |]|].
        - intros z' [Hz Hn]. apply Hn. split; [done|]. by apply (span_start G start).
        - intros s' z' [Hz Hn] E. apply Hn. pose proof (proj1 Hz). apply (span_overlap G s' z' start size (start + size - 1)); [done|done|lia|lia].
        - intros a b. cbn. split; [intros [[]|[-> ->]]; done|]. intros Hab. destruct (decide (a = start /\ b = size)); [by right|by left]. }
      specialize (IH x x 1 (addSpan f start size) (G ∪ {[x]})). destruct (init_loop l x x 1 (addSpan f start size)) as [[f' start'] size'].
      destruct IH as (I1 & I2 & I3); [|apply Hins; right; lia|lia|done|done|].
      { eapply reps_ext; [exact Hadd|]. intros a b. cbn. rewrite (Hins a b). split.
        - intros Hab. pose proof Hab as (A1 & A2 & A3 & A4). split; [left; split; [done|]; lia|]. intros [-> _]. apply HxG, A2. lia.
        - intros [[[Hab _]|[-> ->]] Hn]; [done|lia]. }
      split; [done|]. split; [done|]. pose proof (Hmax start ltac:(apply Z2; lia)). lia.
Qed.

Lemma hinit_spec f l : ssorted l -> l <> [] -> (forall x, x ∈ l -> 2 <= x) -> hash_rep (hinit l f) (list_to_set l).
Proof.
  intros Hs Hne H2. split; [|intros x Hx%elem_of_list_to_set; by apply H2]. destruct l as [|x l]; [done|]. cbn [hinit]. rewrite (sort_ids_id (x :: l) Hs).
  assert (Hx : 2 <= x) by (apply H2; by left).
  assert (Hone : forall a b, is_span {[x]} a b <-> a = x /\ b = 1).
  { intros a b. split.
    - intros (A1 & A2 & A3 & A4). assert (Ha : a ∈ ({[x]} : gset Z)) by (apply A2; lia). apply elem_of_singleton in Ha as ->. split; [done|].
      destruct (Z.eq_dec b 1); [done|]. assert (Hb : x + 1 ∈ ({[x]} : gset Z)) by (apply A2; lia). apply elem_of_singleton in Hb. lia.
    - intros [-> ->]. split; [lia|]. split; [intros i Hi; apply elem_of_singleton; lia|]. rewrite !elem_of_singleton. lia. }
  pose proof (fl_init_loop_spec l x x 1 (mkSpans ∅ ∅ ∅) {[x]}) as Hi.
  destruct (init_loop l x x 1 (mkSpans ∅ ∅ ∅)) as [[f' start'] size'].
  destruct Hi as (I1 & I2 & I3); [|by apply Hone|lia|intros y Hy%elem_of_singleton; lia|done|].
  { split; cbn; try done; intros; rewrite ?lookup_empty, ?Hone; cbn; try (split; [done|tauto]). }
  pose proof (proj1 I2). destruct (Z.eqb_spec size' 0); [lia|]. destruct (Z.eqb_spec start' 0); [lia|]. cbn [negb andb].
  eapply reps_ext; [apply reps_add; [exact I1| |]|].
  - intros z' [Hz Hn]. apply Hn. split; [done|]. exact (span_start _ _ _ _ Hz I2).
  - intros s' z' [Hz Hn] E. apply Hn. pose proof (proj1 Hz). apply (span_overlap _ s' z' start' size' (start' + size' - 1) Hz I2); lia.
  - intros a b. cbn. split; [intros [[]|[-> ->]]; done|]. intros Hab. destruct (decide (a = start' /\ b = size')); [by right|by left].
Qed.

Lemma hashmapAllocate_spec pick f F n : picks pick -> hash_rep f F -> 1 <= n ->
  exists f' p, hashmapAllocate pick f n = Ok (f', p) /\
    ((p = 0 /\ f' = f /\ forall q, ~ run F q n) \/ (2 <= p /\ run F p n /\ hash_rep f' (F ∖ run_set p n))).
Proof.
  intros Hpick [H H2] Hn. unfold hashmapAllocate. destruct (Z.eqb_spec n 0); [lia|].
  assert (Hsub : forall p m, forall x, x ∈ F ∖ run_set p m -> 2 <= x) by (intros p m x [Hx _]%elem_of_difference; by apply H2).
  destruct (freemaps f !! n ≫= pick) as [pid|] eqn:E1.
  - apply bind_Some in E1 as (S1 & ES & Ep). pose proof (Hpick S1) as Hp. rewrite Ep in Hp.
    assert (Hsp : is_span F pid n) by (apply (rp_fm _ _ H); by rewrite ES). pose proof Hsp as (P1 & P2 & _).
    eexists _, pid. split; [done|]. right. split; [apply H2, P2; lia|]. split; [done|]. split; [|apply Hsub].
    eapply reps_ext; [by apply reps_del|]. intros a b. rewrite (span_take F pid n n Hsp) by lia. naive_solver lia.
  - set (sizes := filter (fun z => n <= z /\ default ∅ (freemaps f !! z) <> ∅) (dom (freemaps f))).
    pose proof (Hpick sizes) as Hps. destruct (pick sizes) as [size|].
    + unfold sizes in Hps. apply elem_of_filter in Hps as [[Hle Hne] _]. pose proof (Hpick (default ∅ (freemaps f !! size))) as Hp.
      destruct (pick (default ∅ (freemaps f !! size))) as [pid|]; [|done]. apply (rp_fm _ _ H) in Hp as Hsp. pose proof Hsp as (P1 & P2 & P3 & P4).
      assert (n <> size).
      { intros ->. destruct (freemaps f !! size) as [S1|] eqn:ES; [|done]. cbn in E1, Hp. pose proof (Hpick S1) as Hp1. rewrite E1 in Hp1.
        rewrite Hp1 in Hp. by apply elem_of_empty in Hp. }
      eexists _, pid. split; [done|]. right. split; [apply H2, P2; lia|]. split; [intros i Hi; apply P2; lia|]. split; [|apply Hsub].
      eapply reps_ext; [apply reps_add; [by apply reps_del| |]|].
      * intros z' [(Q1 & Q2 & Q3 & Q4) _]. apply Q3, P2. lia.
      * intros s' z' [Hz Hn'] E. apply Hn'. pose proof (proj1 Hz). apply (span_overlap F s' z' pid size (pid + size - 1)); [done|done|lia|lia].
      * intros a b. cbn. rewrite (span_take F pid size n Hsp) by lia. naive_solver lia.
    + eexists _, 0. split; [done|]. left. split; [done|]. split; [done|]. intros q Hq.
      destruct (span_exists F q) as (s & z & Hsp & Hr); [apply Hq; lia|]. pose proof Hsp as (P1 & P2 & P3 & P4).
      assert (n <= z).
      { destruct (Z.le_gt_cases n z); [done|]. destruct P4. apply Hq. lia. }
      assert (Hin : s ∈ default ∅ (freemaps f !! z)) by (by apply (rp_fm _ _ H)).
      assert (z ∈ (∅ : gset Z)) as Hbad; [|by apply elem_of_empty in Hbad]. rewrite <-Hps. unfold sizes. apply elem_of_filter. split.
      * split; [lia|]. intros E. rewrite E in Hin. by apply elem_of_empty in Hin.
      * apply elem_of_dom. destruct (freemaps f !! z); [done|]. by apply elem_of_empty in Hin.
Qed.

Lemma elem_span_ids f F x : reps f (is_span F) -> x ∈ mjoin (span_ids <$> map_to_list (forwardMap f)) <-> x ∈ F.
Proof.
  intros H. rewrite list_elem_of_join. split.
  - intros (l & Hx & Hl). apply list_elem_of_fmap in Hl as ([s z] & -> & Hsz). apply elem_of_map_to_list, (rp_fw _ _ H) in Hsz as (_ & Hr & _).
    apply elem_of_seqZ in Hx. apply Hr. cbn in Hx. lia.
  - intros Hx. destruct (span_exists F x Hx) as (s & z & Hsp & Hr). exists (span_ids (s, z)). split; [apply elem_of_seqZ; cbn; lia|].
    apply list_elem_of_fmap. exists (s, z). split; [done|]. by apply elem_of_map_to_list, (rp_fw _ _ H).
Qed.

Lemma NoDup_span_ids f F : reps f (is_span F) -> NoDup (mjoin (span_ids <$> map_to_list (forwardMap f))).
Proof.
  intros H. assert (Hsp : forall x, x ∈ map_to_list (forwardMap f) -> is_span F x.1 x.2) by (intros [s z] Hx; by apply elem_of_map_to_list, (rp_fw _ _ H) in Hx).
  pose proof (NoDup_map_to_list (forwardMap f)) as Hnd. induction Hnd as [|[s z] l Hn Hnd IH]; cbn; [constructor|].
  apply NoDup_app. split; [apply NoDup_seqZ|]. split; [|apply IH; intros; apply Hsp; by right].
  intros x Hx Hin. apply list_elem_of_join in Hin as (l' & Hx' & Hl'). apply list_elem_of_fmap in Hl' as ([s' z'] & -> & Hin).
  apply elem_of_seqZ in Hx, Hx'. cbn in Hx, Hx'. assert (s = s' /\ z = z') as [-> ->]; [|done].
  apply (span_overlap F s z s' z' x); [apply (Hsp (s, z)); by left|apply (Hsp (s', z')); by right|lia|lia].
Qed.

Lemma hashmapFreeCount_spec f F : reps f (is_span F) -> hashmapFreeCount f = len (mjoin (span_ids <$> map_to_list (forwardMap f))).
Proof.
  intros H. assert (Hsp : forall x, x ∈ map_to_list (forwardMap f) -> 1 <= x.2) by (intros [s z] Hx; apply elem_of_map_to_list, (rp_fw _ _ H) in Hx; apply Hx).
  unfold hashmapFreeCount. induction (map_to_list (forwardMap f)) as [|[s z] l IH]; [done|]. cbn [foldr fmap list_fmap mjoin list_join]. rewrite len_app, IH by (intros; apply Hsp; by right).
  specialize (Hsp (s, z) ltac:(by left)). cbn in Hsp.
  assert (len (span_ids (s, z)) = z) as -> by (unfold span_ids, len; rewrite length_seqZ; cbn; lia). done.
Qed.

Lemma size_of_NoDup (l : pgids) (F : gset Z) : NoDup l -> (forall x, x ∈ l <-> x ∈ F) -> len l = Z.of_nat (base.size F).
Proof.
  intros Hnd H. unfold len. f_equal. rewrite <-(size_list_to_set (C := gset Z) l Hnd). f_equal. apply set_eq. intros x.
  rewrite elem_of_list_to_set. apply H.
Qed.

(** Without pages there are no spans. *)
Lemma no_spans_rep : hash_rep (mkSpans ∅ ∅ ∅) ∅.
Proof.
  assert (Hno : forall s z, ~ is_span ∅ s z) by (intros s z (Hz & Hr & _); specialize (Hr s ltac:(lia)); by apply elem_of_empty in Hr).
  split; [|intros x Hx; by apply elem_of_empty in Hx].
  split; cbn [forwardMap backwardMap freemaps]; intros; rewrite ?lookup_empty; cbn [default]; [..|done];
    (split; [intros H; first [done|by apply elem_of_empty in H]|intros H; by destruct (Hno _ _ H)]).
Qed.

#[export] Instance hashStore_laws : FreeStoreLaws hashStore hash_rep.
Proof.
  split.
  - intros s F [_ H]. exact H.
  - intros. by apply hashmapAllocate_spec.
  - intros s F m H Hnd Hm. eexists. split; [done|]. by apply hashmapMergeSpans_spec.
  - intros s F [H H2]. cbn. unfold hashmapGetFreePageIDs. destruct (Z.eqb_spec (hashmapFreeCount s) 0) as [E|_].
    + rewrite (hashmapFreeCount_spec _ _ H) in E. apply (f_equal Z.to_nat) in E. unfold len in E. rewrite Nat2Z.id in E. apply nil_length_inv in E.
      split; [constructor|]. intros x. rewrite <-(elem_span_ids s F x H), E. done.
    + split; [apply sort_ids_sorted; by eapply NoDup_span_ids|]. intros x. rewrite elem_sort_ids. by apply elem_span_ids.
  - intros s F [H H2]. cbn. rewrite (hashmapFreeCount_spec _ _ H). apply size_of_NoDup; [by eapply NoDup_span_ids|]. intros x. by apply elem_span_ids.
  - intros s l Hl Hne H2. by apply hinit_spec.
  - apply no_spans_rep.
  - done.
  - intros s F [H H2]. split; [by eapply NoDup_span_ids|]. intros x. by apply elem_span_ids.
Qed.
