(* ===== verification/FreelistSafe.v ===== *)
(** The free list over either store: the invariant that keeps free, pending and
    used pages apart, the release of pages before a write transaction, and the
    two page formats. *)

From Stdlib Require Import ZArith Lia.
From stdpp Require Import base numbers option sorting list gmap.
From S2P Require Import Prelude Base Freelist FreelistSpec.
Import Freelist.

(** ** Pending pages *)

Definition pairs (txp : txPending) : list (Z * Z) := zip (ids txp) (alloctx txp).

(** Page [id] was freed by transaction [b] and allocated by [a], 0 if unknown. *)
Definition freed_by (p : gmap Z txPending) (id b a : Z) : Prop := exists txp, p !! b = Some txp /\ (id, a) ∈ pairs txp.

Record pend_ok (p : gmap Z txPending) : Prop := mkPendOk {
  po_len : forall b txp, p !! b = Some txp -> length (alloctx txp) = length (ids txp);
  po_nodup : forall b txp, p !! b = Some txp -> NoDup (ids txp);
  po_once : forall id b a b' a', freed_by p id b a -> freed_by p id b' a' -> b = b';
  po_pages : forall id b a, freed_by p id b a -> 2 <= id
}.

Lemma pairs_ids txp : length (alloctx txp) = length (ids txp) -> (pairs txp).*1 = ids txp.
Proof. intros E. apply fst_zip. lia. Qed.

Lemma elem_pairs txp id : length (alloctx txp) = length (ids txp) -> id ∈ ids txp <-> exists a, (id, a) ∈ pairs txp.
Proof.
  intros E. rewrite <-(pairs_ids txp E) at 1. rewrite list_elem_of_fmap. split.
  - intros ([i a] & -> & H). by exists a.
  - intros (a & H). by exists (id, a).
Qed.

Lemma pending_set_spec p id : pend_ok p -> id ∈ pending_set p <-> exists b a, freed_by p id b a.
Proof.
  intros Hp. unfold pending_set. rewrite elem_of_list_to_set, list_elem_of_join. split.
  - intros (l & Hid & Hl). apply list_elem_of_fmap in Hl as ([b txp] & -> & Hb). apply elem_of_map_to_list in Hb. cbn in Hid.
    apply (elem_pairs txp id (po_len _ Hp _ _ Hb)) in Hid as (a & Ha). by exists b, a, txp.
  - intros (b & a & txp & Hb & Ha). exists (ids txp). split; [apply (elem_pairs txp id (po_len _ Hp _ _ Hb)); by exists a|].
    apply list_elem_of_fmap. exists (b, txp). split; [done|]. by apply elem_of_map_to_list.
Qed.

(** ** Taking pages out of the pending ones *)

(** [m] leaves [p] for [p']; what leaves satisfies [Q] on the transactions that
    freed and allocated it. *)
Record moved (Q : Z -> Z -> Prop) (p p' : gmap Z txPending) (m : pgids) : Prop := mkMoved {
  mv_ok : pend_ok p';
  mv_sub : forall id b a, freed_by p' id b a -> freed_by p id b a;
  mv_out : forall id, id ∈ m -> exists b a, freed_by p id b a /\ Q b a;
  mv_gone : forall id b a, id ∈ m -> ~ freed_by p' id b a;
  mv_all : forall id b a, freed_by p id b a -> freed_by p' id b a \/ id ∈ m;
  mv_nodup : NoDup m
}.

Lemma moved_refl Q p : pend_ok p -> moved Q p p [].
Proof.
  intros H. split; try done; [by intros id Hid%elem_of_nil|by intros id b a Hid%elem_of_nil| |constructor]. intros; by left.
Qed.

Lemma moved_trans Q p1 p2 p3 m1 m2 : moved Q p1 p2 m1 -> moved Q p2 p3 m2 -> moved Q p1 p3 (m1 ++ m2).
Proof.
  intros H1 H2. split.
  - apply H2.
  - intros. by apply (mv_sub _ _ _ _ H1), (mv_sub _ _ _ _ H2).
  - intros id [Hid|Hid]%elem_of_app; [by apply (mv_out _ _ _ _ H1)|].
    destruct (mv_out _ _ _ _ H2 id Hid) as (b & a & Hf & HQ). exists b, a. split; [by apply (mv_sub _ _ _ _ H1)|done].
  - intros id b a [Hid|Hid]%elem_of_app Hf; [|by apply (mv_gone _ _ _ _ H2 id b a)].
    apply (mv_gone _ _ _ _ H1 id b a Hid). by apply (mv_sub _ _ _ _ H2).
  - intros id b a Hf. rewrite elem_of_app. destruct (mv_all _ _ _ _ H1 id b a Hf) as [Hf2|]; [|tauto].
    destruct (mv_all _ _ _ _ H2 id b a Hf2); tauto.
  - apply NoDup_app. split; [apply H1|]. split; [|apply H2]. intros id Hid1 Hid2.
    destruct (mv_out _ _ _ _ H2 id Hid2) as (b & a & Hf & _). by apply (mv_gone _ _ _ _ H1 id b a Hid1).
Qed.

Lemma moved_impl (Q Q' : Z -> Z -> Prop) p p' m : moved Q p p' m -> (forall b a, Q b a -> Q' b a) -> moved Q' p p' m.
Proof. intros H HQ. split; try apply H. intros id Hid. destruct (mv_out _ _ _ _ H id Hid) as (b & a & Hf & Hq). exists b, a. auto. Qed.

(** One transaction gives up some of its pages. *)
Lemma moved_one (Q : Z -> Z -> Prop) p b txp txp' m am :
  pend_ok p -> p !! b = Some txp -> length (alloctx txp') = length (ids txp') -> length am = length m ->
  pairs txp ≡ₚ zip m am ++ pairs txp' -> Forall (Q b) am ->
  moved Q p (match ids txp' with [] => delete b p | _ => <[b := txp']> p end) m.
Proof.
  intros Hp Hb El Em Hperm HQ. set (p' := match ids txp' with [] => delete b p | _ => <[b := txp']> p end).
  assert (Hids : ids txp ≡ₚ m ++ ids txp').
  { rewrite <-(pairs_ids txp (po_len _ Hp _ _ Hb)), Hperm, fmap_app, (pairs_ids txp' El), (fst_zip m am); [done|lia]. }
  pose proof (po_nodup _ Hp _ _ Hb) as Hnd. rewrite Hids in Hnd. apply NoDup_app in Hnd as (Hnm & Hdis & Hnd').
  assert (Hlook : forall b' t, p' !! b' = Some t -> (b' = b /\ t = txp') \/ (b' <> b /\ p !! b' = Some t)).
  { intros b' t. unfold p'. destruct (ids txp').
    - intros [Hne Ht]%lookup_delete_Some. right. done.
    - destruct (decide (b' = b)) as [->|Hne]; [rewrite lookup_insert_eq; intros [= <-]; by left|]. rewrite lookup_insert_ne by done. by right. }
  assert (Hfb : forall id c a, freed_by p' id c a <-> (c = b /\ (id, a) ∈ pairs txp') \/ (c <> b /\ freed_by p id c a)).
  { intros id c a. split.
    - intros (t & Ht & Hin). destruct (Hlook _ _ Ht) as [[-> ->]|[Hne Ht']]; [by left|]. right. split; [done|]. by exists t.
    - intros [[-> Hin]|[Hne (t & Ht & Hin)]].
      + exists txp'. split; [|done]. pose proof (elem_of_zip_l _ _ _ _ Hin) as Hx. unfold p'. destruct (ids txp'); [|by rewrite lookup_insert_eq].
        by apply elem_of_nil in Hx.
      + exists t. split; [|done]. unfold p'. destruct (ids txp'); [by rewrite lookup_delete_ne|by rewrite lookup_insert_ne]. }
  assert (Hsub : forall id c a, freed_by p' id c a -> freed_by p id c a).
  { intros id c a [[-> Hin]|[_ Hf]]%Hfb; [|done]. exists txp. split; [done|]. rewrite Hperm. apply elem_of_app. by right. }
  split.
  - split.
    + intros c t Ht. destruct (Hlook _ _ Ht) as [[-> ->]|[_ Ht']]; [done|by eapply po_len].
    + intros c t Ht. destruct (Hlook _ _ Ht) as [[-> ->]|[_ Ht']]; [done|by eapply po_nodup].
    + intros id c a c' a' H1 H2. by eapply (po_once _ Hp id); apply Hsub.
    + intros id c a H1. by eapply po_pages, Hsub.
  - exact Hsub.
  - intros id Hid. rewrite <-(fst_zip m am) in Hid by lia. apply list_elem_of_fmap in Hid as ([i a] & -> & Hin). exists b, a. cbn. split.
    + exists txp. split; [done|]. rewrite Hperm. apply elem_of_app. by left.
    + apply elem_of_zip_r in Hin. rewrite Forall_forall in HQ. by apply HQ.
  - intros id c a Hid [[-> Hin]|[Hne Hf]]%Hfb.
    + apply (Hdis id Hid), elem_pairs; [lia|by exists a].
    + assert (Hx : id ∈ ids txp) by (rewrite Hids; apply elem_of_app; by left). apply (elem_pairs txp id (po_len _ Hp _ _ Hb)) in Hx as (a' & Hx).
      apply Hne. apply (po_once _ Hp id c a b a' Hf). by exists txp.
  - intros id c a Hf. destruct (decide (c = b)) as [->|Hne]; [|left; apply Hfb; by right].
    destruct Hf as (t & Ht & Hin). assert (t = txp) as -> by congruence. rewrite Hperm in Hin. apply elem_of_app in Hin as [Hin|Hin].
    + right. by apply elem_of_zip_l in Hin.
    + left. apply Hfb. by left.
  - done.
Qed.

Lemma release_loop_spec order txid p m0 :
  pend_ok p ->
  exists p' m, release_loop order txid p m0 = (p', m0 ++ m) /\ moved (fun b _ => b <= txid) p p' m /\
    forall id b a, freed_by p' id b a -> b ∈ order -> txid < b.
Proof.
  revert p m0. induction order as [|b order IH]; intros p m0 Hp; cbn [release_loop].
  { exists p, []. rewrite app_nil_r. split; [done|]. split; [by apply moved_refl|]. intros id b a _ Hb. by apply elem_of_nil in Hb. }
  destruct (p !! b) as [txp|] eqn:Eb; [destruct (Z.leb_spec b txid) as [Hle|Hgt]|].
  - pose proof (moved_one (fun b _ => b <= txid) p b txp (mkPend [] [] 0) (ids txp) (alloctx txp) Hp Eb) as Hm. cbn in Hm. rewrite app_nil_r in Hm.
    specialize (Hm eq_refl (po_len _ Hp _ _ Eb) (reflexivity _)). destruct (IH (delete b p) (m0 ++ ids txp)) as (p' & m & -> & Hm' & Hall).
    { apply Hm. apply Forall_forall. intros; lia. }
    exists p', (ids txp ++ m). rewrite app_assoc. split; [done|]. split; [eapply moved_trans; [|done]; apply Hm, Forall_forall; intros; lia|].
    intros id c a Hf [->|Hc]%elem_of_cons; [|by eapply Hall]. apply (mv_sub _ _ _ _ Hm') in Hf as (t & Ht & _). by rewrite lookup_delete_eq in Ht.
  - destruct (IH p m0 Hp) as (p' & m & -> & Hm & Hall). exists p', m. split; [done|]. split; [done|].
    intros id c a Hf [->|Hc]%elem_of_cons; [done|by eapply Hall].
  - destruct (IH p m0 Hp) as (p' & m & -> & Hm & Hall). exists p', m. split; [done|]. split; [done|].
    intros id c a Hf [->|Hc]%elem_of_cons; [|by eapply Hall]. apply (mv_sub _ _ _ _ Hm) in Hf as (t & Ht & _). congruence.
Qed.

(** *** The release of a range *)

Lemma swap_out_fmap {A B} (g : A -> B) i l : swap_out i (g <$> l) = g <$> swap_out i l.
Proof.
  unfold swap_out. rewrite fmap_last, length_fmap. destruct (last l) as [x|]; cbn; [|done]. by rewrite fmap_take, list_fmap_insert.
Qed.

Lemma swap_out_snoc {A} i (l : list A) y : swap_out i (l ++ [y]) = <[i := y]> l.
Proof.
  unfold swap_out. rewrite last_snoc, length_app. cbn. replace (length l + 1 - 1)%nat with (length l) by lia.
  destruct (decide (i < length l)%nat).
  - rewrite insert_app_l by done. apply take_app_length'. by rewrite length_insert.
  - rewrite (list_insert_ge l) by lia. rewrite insert_app_r_alt by lia. apply take_app_length.
Qed.

Lemma swap_out_perm {A} i (l : list A) x : l !! i = Some x -> l ≡ₚ x :: swap_out i l.
Proof.
  destruct (decide (l = [])) as [->|Hne]; [done|]. apply exists_last in Hne as (l' & y & ->). rewrite swap_out_snoc. intros Hi.
  apply lookup_app_Some in Hi as [Hi|[Hge Hi]].
  - rewrite (Permutation_app_comm l'). cbn. rewrite <-(list_insert_id l' i x Hi) at 1. rewrite !insert_take_drop by (by eapply lookup_lt_Some).
    rewrite <-!Permutation_middle. apply perm_swap.
  - rewrite list_insert_ge by lia. assert (i - length l' = 0)%nat as E by (destruct (i - length l')%nat; [done|]; done). rewrite E in Hi. injection Hi as ->.
    by rewrite Permutation_app_comm.
Qed.

Lemma swap_out_take {A} i (l : list A) : (i < length l)%nat -> take i (swap_out i l) = take i l.
Proof.
  intros Hi. destruct (decide (l = [])) as [->|Hne]; [done|]. apply exists_last in Hne as (l' & y & ->). rewrite swap_out_snoc. rewrite length_app in Hi. cbn in Hi.
  rewrite take_insert_ge by lia. rewrite take_app_le by lia. done.
Qed.

Lemma length_swap_out {A} i (l : list A) : l <> [] -> length (swap_out i l) = (length l - 1)%nat.
Proof. intros Hne. apply exists_last in Hne as (l' & y & ->). rewrite swap_out_snoc, length_insert, length_app. cbn. lia. Qed.

(** The allocating transaction is in the range. *)
Definition in_range (begin_ end_ a : Z) : Prop := begin_ <= a <= end_.

#[global] Instance in_range_dec b e a : Decision (in_range b e a).
Proof. unfold in_range. apply _. Defined.

Lemma range_loop_spec fuel i begin_ end_ txp (ps : list (Z * Z)) m0 :
  ids txp = ps.*1 -> alloctx txp = ps.*2 -> (length ps - i <= fuel)%nat -> Forall (fun x => ~ in_range begin_ end_ x.2) (take i ps) ->
  exists txp' out, range_loop fuel i begin_ end_ txp m0 = Ok (txp', m0 ++ out.*1) /\
    (exists ps', ids txp' = ps'.*1 /\ alloctx txp' = ps'.*2 /\ ps ≡ₚ out ++ ps' /\ Forall (fun x => ~ in_range begin_ end_ x.2) ps') /\
    Forall (fun x => in_range begin_ end_ x.2) out.
Proof.
  revert i txp ps m0. induction fuel as [|fuel IH]; intros i txp ps m0 E1 E2 Hf Hpre; cbn [range_loop]; rewrite E1, list_lookup_fmap.
  - destruct (ps !! i) as [[id a]|] eqn:Ei; cbn; [apply lookup_lt_Some in Ei; lia|]. exists txp, []. cbn. rewrite app_nil_r. split; [done|].
    split; [|constructor]. exists ps. split; [done|]. split; [done|]. split; [done|]. apply lookup_ge_None in Ei. by rewrite take_ge in Hpre.
  - destruct (ps !! i) as [[id a]|] eqn:Ei; cbn.
    2: { exists txp, []. cbn. rewrite app_nil_r. split; [done|]. split; [|constructor]. exists ps. split; [done|]. split; [done|]. split; [done|].
      apply lookup_ge_None in Ei. by rewrite take_ge in Hpre. }
    rewrite E2, list_lookup_fmap, Ei. cbn. pose proof (lookup_lt_Some _ _ _ Ei) as Hlt.
    destruct ((a <? begin_) || (end_ <? a)) eqn:Eo.
    + apply IH; [done|done|lia|]. replace (i + 1)%nat with (S i) by lia. rewrite (take_S_r _ _ _ Ei). apply Forall_app. split; [done|].
      constructor; [|constructor]. unfold in_range. cbn. apply orb_true_iff in Eo. bdestruct_all; lia.
    + destruct (IH i (mkPend (swap_out i (ps.*1)) (swap_out i (ps.*2)) (lastReleaseBegin txp)) (swap_out i ps) (m0 ++ [id])) as (txp' & out & -> & (ps' & A1 & A2 & A3 & A4) & A5).
      * cbn. apply swap_out_fmap.
      * cbn. apply swap_out_fmap.
      * rewrite length_swap_out by (intros ->; done). lia.
      * by rewrite swap_out_take.
      * exists txp', ((id, a) :: out). cbn. rewrite <-app_assoc. split; [done|]. split.
        -- exists ps'. split; [done|]. split; [done|]. split; [|done]. rewrite (swap_out_perm i ps (id, a) Ei). by rewrite A3.
        -- constructor; [|done]. unfold in_range. cbn. apply orb_false_iff in Eo. bdestruct_all; lia.
Qed.

Lemma zip_pairs (ps : list (Z * Z)) : zip (ps.*1) (ps.*2) = ps.
Proof. induction ps as [|[x y] ps IH]; [done|]. cbn. by rewrite IH. Qed.

Lemma releaseRange_loop_spec order begin_ end_ p m0 :
  pend_ok p ->
  exists p' m, releaseRange_loop order begin_ end_ p m0 = Ok (p', m0 ++ m) /\
    moved (fun b a => in_range begin_ end_ b /\ in_range begin_ end_ a) p p' m.
Proof.
  revert p m0. induction order as [|b order IH]; intros p m0 Hp; cbn [releaseRange_loop].
  { exists p, []. rewrite app_nil_r. split; [done|]. by apply moved_refl. }
  destruct (p !! b) as [txp|] eqn:Eb; [|by apply IH]. destruct ((b <? begin_) || (end_ <? b)) eqn:Eo; [by apply IH|].
  destruct (lastReleaseBegin txp =? begin_); [by apply IH|].
  pose proof (po_len _ Hp _ _ Eb) as El.
  destruct (range_loop_spec (length (ids txp)) 0 begin_ end_ txp (pairs txp) m0) as (txp' & out & -> & (ps' & A1 & A2 & A3 & A4) & A5).
  - by rewrite pairs_ids.
  - unfold pairs. rewrite snd_zip; [done|lia].
  - unfold pairs. rewrite length_zip. lia.
  - constructor.
  - cbn [rbind]. set (p1 := match ids txp' with [] => delete b p | _ => <[b := mkPend (ids txp') (alloctx txp') begin_]> p end).
    assert (Hm : moved (fun b a => in_range begin_ end_ b /\ in_range begin_ end_ a) p p1 (out.*1)).
    { apply (moved_one _ p b txp (mkPend (ids txp') (alloctx txp') begin_) (out.*1) (out.*2) Hp Eb); cbn.
      - by rewrite A1, A2, !length_fmap.
      - by rewrite !length_fmap.
      - unfold pairs in *. cbn. rewrite A1, A2, !zip_pairs. done.
      - apply Forall_fmap. eapply Forall_impl; [exact A5|]. cbn. intros x Hx. split; [|done]. apply orb_false_iff in Eo. unfold in_range. bdestruct_all; lia. }
    destruct (IH p1 (m0 ++ out.*1)) as (p' & m & E & Hm'); [apply Hm|].
    exists p', (out.*1 ++ m). rewrite app_assoc. split; [exact E|]. by eapply moved_trans.
Qed.

(** ** The invariant *)

Section Safe.
Context {S : Type} {I : FreeStore S} {R : S -> gset Z -> Prop} `{!FreeStoreLaws I R}.
Implicit Types f : freelist S.

Record finv f (F : gset Z) : Prop := mkFinv {
  fi_store : R (store f) F;
  fi_pend : pend_ok (pending f);
  fi_apart : forall id b a, freed_by (pending f) id b a -> id ∉ F;
  fi_cached : forall id b a, freed_by (pending f) id b a -> id ∈ cache f;
  fi_cache : forall id, id ∈ cache f -> id ∈ F \/ exists b a, freed_by (pending f) id b a
}.

Lemma finv_free f F : finv f F -> list_to_set (fs_getFreePageIDs (store f)) = F.
Proof.
  intros H. apply set_eq. intros x. rewrite elem_of_list_to_set. apply (fl_ids (store f) F (fi_store _ _ H)).
Qed.

Lemma allocate_spec pick f F txid n : picks pick -> finv f F -> 1 <= n ->
  exists f' p, allocate pick f txid n = Ok (f', p) /\
    ((p = 0 /\ f' = f /\ forall q, ~ run F q n) \/ (2 <= p /\ run F p n /\ finv f' (F ∖ run_set p n) /\ pending f' = pending f)).
Proof.
  intros Hp H Hn. destruct (fl_alloc pick (store f) F n Hp (fi_store _ _ H) Hn) as (s' & p & E & Hd). unfold allocate. rewrite E. cbn [rbind].
  destruct Hd as [(-> & -> & Hno)|(H2 & Hr & Hs)].
  - eexists f, 0. split; [by destruct f|]. by left.
  - destruct (Z.eqb_spec p 0); [lia|]. eexists _, p. split; [done|]. right. split; [done|]. split; [done|]. split; [|done].
    assert (Hout : forall id b a, freed_by (pending f) id b a -> id ∉ run_set p n).
    { intros id b a Hf Hin. apply (fi_apart _ _ H id b a Hf), Hr. by apply elem_run_set in Hin. }
    split; cbn.
    + done.
    + apply H.
    + intros id b a Hf [Hin _]%elem_of_difference. by apply (fi_apart _ _ H id b a).
    + intros id b a Hf. apply elem_of_difference. split; [by eapply fi_cached|by eapply Hout].
    + intros id [Hin Hn']%elem_of_difference. destruct (fi_cache _ _ H id Hin); [left|by right]. by apply elem_of_difference.
Qed.

(** A page that is in use, with its overflow. *)
Definition in_use f (F : gset Z) (p : page) : Prop :=
  2 <= p_id p /\ 0 <= p_overflow p /\
  forall id, p_id p <= id <= p_id p + p_overflow p -> id ∉ F /\ forall b a, ~ freed_by (pending f) id b a.

Lemma free_loop_spec n id atx txp c :
  (forall i, id <= i < id + Z.of_nat n -> i ∉ c) ->
  free_loop n id atx txp c = Ok (mkPend (ids txp ++ seqZ id (Z.of_nat n)) (alloctx txp ++ replicate n atx) (lastReleaseBegin txp),
    run_set id (Z.of_nat n) ∪ c).
Proof.
  revert id txp c. induction n as [|n IH]; intros id txp c Hc; cbn [free_loop].
  - destruct txp. cbn. rewrite !app_nil_r. do 2 f_equal. apply set_eq. intros x. rewrite elem_of_union, elem_run_set. naive_solver lia.
  - rewrite bool_decide_eq_false_2 by (apply Hc; lia). rewrite IH.
    + cbn [ids alloctx lastReleaseBegin]. rewrite <-!app_assoc. rewrite (seqZ_cons id) by lia. replace (Z.pred (Z.of_nat (Datatypes.S n))) with (Z.of_nat n) by lia.
      do 2 f_equal. apply set_eq. intros x. rewrite !elem_of_union, elem_of_singleton, !elem_run_set. naive_solver lia.
    + intros i Hi. rewrite elem_of_union, elem_of_singleton. intros [->|Hin]; [lia|]. apply (Hc i); [lia|done].
Qed.

Lemma free_spec f F txid p : finv f F -> in_use f F p ->
  exists f', free f txid p = Ok f' /\ finv f' F /\
    (forall id, (exists b a, freed_by (pending f') id b a) <-> (exists b a, freed_by (pending f) id b a) \/ p_id p <= id <= p_id p + p_overflow p).
Proof.
  intros H (H2 & Ho & Hu). unfold free. destruct (Z.leb_spec (p_id p) 1); [lia|].
  set (r := match allocs f !! p_id p with
      | Some a => (delete (p_id p) (allocs f), a)
      | None => (allocs f, if negb (Z.land (p_flags p) freelistPageFlag =? 0) then txid - 1 else 0) end).
  destruct r as [al atx]. set (txp := default (mkPend [] [] 0) (pending f !! txid)). set (n := Z.to_nat (p_overflow p + 1)).
  rewrite free_loop_spec.
  2: { intros i Hi Hc. destruct (Hu i) as [U1 U2]; [lia|]. destruct (fi_cache _ _ H i Hc) as [|(b & a & Hf)]; [done|by apply (U2 b a)]. }
  cbn [rbind]. eexists. split; [done|].
  assert (Htl : length (alloctx txp) = length (ids txp)).
  { unfold txp. destruct (pending f !! txid) as [t|] eqn:E; cbn; [|done]. by eapply (po_len _ (fi_pend _ _ H)). }
  set (txp' := mkPend (ids txp ++ seqZ (p_id p) (Z.of_nat n)) (alloctx txp ++ replicate n atx) (lastReleaseBegin txp)).
  assert (Hpairs : pairs txp' = pairs txp ++ zip (seqZ (p_id p) (Z.of_nat n)) (replicate n atx)) by (unfold pairs, txp'; cbn; by apply zip_with_app).
  assert (Hold : forall id a, (id, a) ∈ pairs txp -> freed_by (pending f) id txid a).
  { intros id a. unfold txp. destruct (pending f !! txid) as [t|] eqn:E; cbn; [|by intros Hx%elem_of_nil]. intros Hx. by exists t. }
  assert (Hnew : forall id a, (id, a) ∈ zip (seqZ (p_id p) (Z.of_nat n)) (replicate n atx) -> p_id p <= id <= p_id p + p_overflow p).
  { intros id a Hx%elem_of_zip_l. apply elem_of_seqZ in Hx. lia. }
  assert (Hfb : forall id b a, freed_by (<[txid := txp']> (pending f)) id b a ->
    freed_by (pending f) id b a \/ (b = txid /\ p_id p <= id <= p_id p + p_overflow p)).
  { intros id b a (t & Ht & Hin). destruct (decide (b = txid)) as [->|Hne].
    - rewrite lookup_insert_eq in Ht. injection Ht as <-. rewrite Hpairs in Hin. apply elem_of_app in Hin as [Hin|Hin]; [left; by apply Hold|right; by eauto].
    - rewrite lookup_insert_ne in Ht by done. left. by exists t. }
  assert (Hkeep : forall id b a, freed_by (pending f) id b a -> freed_by (<[txid := txp']> (pending f)) id b a).
  { intros id b a (t & Ht & Hin). destruct (decide (b = txid)) as [->|Hne].
    - exists txp'. rewrite lookup_insert_eq. split; [done|]. rewrite Hpairs. apply elem_of_app. left. unfold txp. by rewrite Ht.
    - exists t. by rewrite lookup_insert_ne. }
  assert (Hadd : forall id, p_id p <= id <= p_id p + p_overflow p -> freed_by (<[txid := txp']> (pending f)) id txid atx).
  { intros id Hid. exists txp'. rewrite lookup_insert_eq. split; [done|]. rewrite Hpairs. apply elem_of_app. right.
    apply list_elem_of_lookup. exists (Z.to_nat (id - p_id p)). apply lookup_zip_with_Some. exists id, atx. split; [done|]. split.
    - apply lookup_seqZ. lia.
    - apply lookup_replicate. split; [done|lia]. }
  split.
  - split; cbn.
    + apply H.
    + split.
      * intros b t Ht. destruct (decide (b = txid)) as [->|Hne]; [rewrite lookup_insert_eq in Ht; injection Ht as <-; cbn; rewrite !length_app, length_seqZ, length_replicate; lia|].
        rewrite lookup_insert_ne in Ht by done. by eapply (po_len _ (fi_pend _ _ H)).
      * intros b t Ht. destruct (decide (b = txid)) as [->|Hne].
        -- rewrite lookup_insert_eq in Ht. injection Ht as <-. cbn. apply NoDup_app. split.
           { unfold txp. destruct (pending f !! txid) as [t|] eqn:E; cbn; [by eapply (po_nodup _ (fi_pend _ _ H))|constructor]. }
           split; [|apply NoDup_seqZ]. intros id Hid Hs%elem_of_seqZ. apply (elem_pairs txp id Htl) in Hid as (a & Ha).
           destruct (Hu id) as [_ U2]; [lia|]. apply (U2 txid a). by apply Hold.
        -- rewrite lookup_insert_ne in Ht by done. by eapply (po_nodup _ (fi_pend _ _ H)).
      * intros id b a b' a' H1 H1'. destruct (Hfb _ _ _ H1) as [F1|[-> F1]], (Hfb _ _ _ H1') as [F2|[-> F2]]; try done.
        -- by eapply (po_once _ (fi_pend _ _ H)).
        -- destruct (Hu id F2) as [_ U2]. by destruct (U2 b a).
        -- destruct (Hu id F1) as [_ U2]. by destruct (U2 b' a').
      * intros id b a H1. destruct (Hfb _ _ _ H1) as [F1|[-> F1]]; [by eapply (po_pages _ (fi_pend _ _ H))|lia].
    + intros id b a H1. destruct (Hfb _ _ _ H1) as [F1|[-> F1]]; [by eapply fi_apart|]. by apply Hu.
    + intros id b a H1. apply elem_of_union. destruct (Hfb _ _ _ H1) as [F1|[-> F1]]; [right; by eapply fi_cached|left; apply elem_run_set; lia].
    + intros id [Hin|Hin]%elem_of_union.
      * right. exists txid, atx. apply Hadd. apply elem_run_set in Hin. lia.
      * destruct (fi_cache _ _ H id Hin) as [|(b & a & Hf)]; [by left|right]. exists b, a. by apply Hkeep.
  - intros id. cbn. split.
    + intros (b & a & H1). destruct (Hfb _ _ _ H1) as [F1|[_ F1]]; [left; by exists b, a|by right].
    + intros [(b & a & H1)|H1]; [exists b, a; by apply Hkeep|exists txid, atx; by apply Hadd].
Qed.

(** Pages leave the pending ones for the free ones. *)
Lemma moved_merge Q f F p' m : finv f F -> moved Q (pending f) p' m ->
  exists f', mergeSpans (mkFL (store f) (allocs f) p' (cache f)) m = Ok f' /\ finv f' (F ∪ list_to_set m) /\ pending f' = p'.
Proof.
  intros H Hm. destruct (fl_merge (store f) F m (fi_store _ _ H) (mv_nodup _ _ _ _ Hm)) as (s' & E & Hs).
  { intros x Hx. destruct (mv_out _ _ _ _ Hm x Hx) as (b & a & Hf & _). split; [by eapply (po_pages _ (fi_pend _ _ H))|by eapply fi_apart]. }
  unfold mergeSpans. cbn [store allocs pending cache]. rewrite E. cbn [rbind]. eexists. split; [done|]. split; [|done]. split; cbn.
  - done.
  - apply Hm.
  - intros id b a Hf [Hin|Hin]%elem_of_union; [by apply (fi_apart _ _ H id b a); [apply (mv_sub _ _ _ _ Hm)|]|].
    apply elem_of_list_to_set in Hin. by apply (mv_gone _ _ _ _ Hm id b a).
  - intros id b a Hf. eapply fi_cached; [done|]. by apply (mv_sub _ _ _ _ Hm).
  - intros id Hin. rewrite elem_of_union, elem_of_list_to_set. destruct (fi_cache _ _ H id Hin) as [|(b & a & Hf)]; [tauto|].
    destruct (mv_all _ _ _ _ Hm id b a Hf) as [Hf'|]; [right; by exists b, a|tauto].
Qed.

Lemma release_spec f F order txid : finv f F ->
  exists f' m, release f order txid = Ok (f', m) /\ finv f' (F ∪ list_to_set m) /\ moved (fun b _ => b <= txid) (pending f) (pending f') m /\
    forall id b a, freed_by (pending f') id b a -> b ∈ order -> txid < b.
Proof.
  intros H. destruct (release_loop_spec order txid (pending f) [] (fi_pend _ _ H)) as (p' & m & E & Hm & Hall).
  unfold release. rewrite E. destruct (moved_merge _ f F p' m H Hm) as (f' & E' & Hi & Ep). cbn [app]. rewrite E'. cbn [rbind].
  exists f', m. rewrite Ep. done.
Qed.

Lemma releaseRange_spec f F order begin_ end_ : finv f F ->
  exists f' m, releaseRange f order begin_ end_ = Ok (f', m) /\ finv f' (F ∪ list_to_set m) /\
    moved (fun b a => in_range begin_ end_ b /\ in_range begin_ end_ a) (pending f) (pending f') m.
Proof.
  intros H. unfold releaseRange. destruct (end_ <? begin_).
  - exists f, []. split; [done|]. cbn. rewrite union_empty_r_L. split; [done|]. apply moved_refl, H.
  - destruct (releaseRange_loop_spec order begin_ end_ (pending f) [] (fi_pend _ _ H)) as (p' & m & -> & Hm). cbn [rbind app].
    destruct (moved_merge _ f F p' m H Hm) as (f' & -> & Hi & Ep). cbn [rbind]. exists f', m. by rewrite Ep.
Qed.

(** *** Rollback *)

Lemma rollback_loop_spec ps txid al c m0 :
  exists al', rollback_loop ps txid al c m0 =
    (al', c ∖ list_to_set (ps.*1), m0 ++ (filter (fun x => x.2 <> 0 /\ x.2 = txid) ps).*1).
Proof.
  revert al c m0. induction ps as [|[pid tx] ps IH]; intros al c m0; cbn [rollback_loop].
  - exists al. cbn. rewrite app_nil_r, difference_empty_L. done.
  - rewrite filter_cons. cbn [fmap list_fmap fst snd list_to_set].
    assert (Ec : c ∖ {[pid]} ∖ list_to_set (ps.*1) = c ∖ ({[pid]} ∪ list_to_set (ps.*1))) by (by rewrite difference_difference_l_L).
    destruct (Z.eqb_spec tx 0) as [->|Hz]; [|destruct (Z.eqb_spec tx txid) as [->|Hne]]; cbn [negb].
    + destruct (IH al (c ∖ {[pid]}) m0) as (al' & ->). exists al'. rewrite Ec. rewrite decide_False by naive_solver. done.
    + destruct (IH al (c ∖ {[pid]}) (m0 ++ [pid])) as (al' & ->). exists al'. rewrite Ec, decide_True by done. cbn. by rewrite <-app_assoc.
    + destruct (IH (<[pid:=tx]> al) (c ∖ {[pid]}) m0) as (al' & ->). exists al'. rewrite Ec, decide_False by naive_solver. done.
Qed.

(** What the transaction had freed is in use again; what it had allocated
    itself is free. *)
Lemma rollback_spec f F txid : finv f F ->
  exists f' F', rollback f txid = Ok f' /\ finv f' F' /\
    (forall id, id ∈ F' <-> id ∈ F \/ (txid <> 0 /\ freed_by (pending f) id txid txid)) /\
    (forall id b a, freed_by (pending f') id b a <-> b <> txid /\ freed_by (pending f) id b a).
Proof.
  intros H. unfold rollback. destruct (pending f !! txid) as [txp|] eqn:Et.
  2: { exists f, F. split; [done|]. split; [done|]. split; intros id.
    - split; [tauto|]. intros [|(_ & t & Ht & _)]; [done|congruence].
    - intros b a. split; [|tauto]. intros Hf. split; [|done]. intros ->. destruct Hf as (t & Ht & _). congruence. }
  pose proof (po_len _ (fi_pend _ _ H) _ _ Et) as El. destruct (Z.ltb_spec (len (alloctx txp)) (len (ids txp))); [unfold len in *; lia|].
  destruct (rollback_loop_spec (pairs txp) txid (allocs f) (cache f) []) as (al' & E). unfold pairs in E at 1. rewrite E. cbn [app].
  set (m := (filter (fun x => x.2 <> 0 /\ x.2 = txid) (pairs txp)).*1).
  assert (Hm : forall id, id ∈ m <-> txid <> 0 /\ freed_by (pending f) id txid txid).
  { intros id. unfold m. rewrite list_elem_of_fmap. split.
    - intros ([i a] & -> & Hx). apply list_elem_of_filter in Hx as [[Hz Ea] Hin]. cbn in *. subst a. split; [done|]. by exists txp.
    - intros (Hz & t & Ht & Hin). assert (t = txp) as -> by congruence. exists (id, txid). split; [done|]. by apply list_elem_of_filter. }
  assert (Hnd : NoDup m).
  { unfold m. eapply sublist_NoDup; [|apply fmap_sublist, sublist_filter]. rewrite pairs_ids by done. by eapply (po_nodup _ (fi_pend _ _ H)). }
  destruct (fl_merge (store f) F m (fi_store _ _ H) Hnd) as (s' & Es & Hs).
  { intros x (_ & Hf)%Hm. split; [by eapply (po_pages _ (fi_pend _ _ H))|by eapply fi_apart]. }
  unfold mergeSpans. cbn [store allocs pending cache]. rewrite Es. cbn [rbind]. eexists _, (F ∪ list_to_set m). split; [done|].
  assert (Hfb : forall id b a, freed_by (delete txid (pending f)) id b a <-> b <> txid /\ freed_by (pending f) id b a).
  { intros id b a. split.
    - intros (t & [Hne Ht]%lookup_delete_Some & Hin). split; [congruence|]. by exists t.
    - intros (Hne & t & Ht & Hin). exists t. split; [|done]. by rewrite lookup_delete_ne. }
  assert (Hids : forall id b a, b <> txid -> freed_by (pending f) id b a -> id ∉ ids txp).
  { intros id b a Hne Hf Hin. apply (elem_pairs txp id El) in Hin as (a' & Ha). apply Hne.
    apply (po_once _ (fi_pend _ _ H) id b a txid a' Hf). by exists txp. }
  split; [|split; [|exact Hfb]].
  - split; cbn.
    + done.
    + split.
      * intros b t [_ Ht]%lookup_delete_Some. by eapply (po_len _ (fi_pend _ _ H)).
      * intros b t [_ Ht]%lookup_delete_Some. by eapply (po_nodup _ (fi_pend _ _ H)).
      * intros id b a b' a' [_ H1]%Hfb [_ H2]%Hfb. by eapply (po_once _ (fi_pend _ _ H)).
      * intros id b a [_ H1]%Hfb. by eapply (po_pages _ (fi_pend _ _ H)).
    + intros id b a [Hne Hf]%Hfb [Hin|Hin]%elem_of_union; [by eapply fi_apart|]. apply elem_of_list_to_set in Hin. apply Hm in Hin as [_ Hf'].
      apply Hne. by eapply (po_once _ (fi_pend _ _ H) id).
    + intros id b a [Hne Hf]%Hfb. apply elem_of_difference. split; [by eapply fi_cached|]. rewrite elem_of_list_to_set, pairs_ids by done. by eapply Hids.
    + intros id [Hin Hn]%elem_of_difference. rewrite elem_of_list_to_set, pairs_ids in Hn by done.
      destruct (fi_cache _ _ H id Hin) as [|(b & a & Hf)]; [left; apply elem_of_union; by left|]. right. exists b, a. apply Hfb. split; [|done].
      intros ->. destruct Hf as (t & Ht & Hp). assert (t = txp) as -> by congruence. apply Hn. apply (elem_pairs txp id El). by exists a.
  - intros id. rewrite elem_of_union, elem_of_list_to_set, Hm. done.
Qed.

(** *** Before a write transaction *)

(** Transaction [r] does not see a page allocated by [a] and freed by [b]. *)
Definition unseen (txs : list Z) (b a : Z) : Prop := forall r, r ∈ txs -> ~ (a <= r < b).

Lemma freePages_loop_spec f F orders txs minid m0 (all : list Z) :
  finv f F -> StronglySorted Z.le txs -> (forall r, r ∈ all -> r < minid \/ r ∈ txs) -> (forall t, t ∈ txs -> minid <= t + 1) ->
  (forall t, t ∈ txs -> 1 <= t < maxTxid) ->
  exists f' minid' m2 M, freePages_loop f orders txs minid m0 = Ok (f', minid', m2) /\ finv f' (F ∪ list_to_set M) /\
    moved (unseen all) (pending f) (pending f') M /\ (forall r, r ∈ all -> r < minid') /\ (forall x, x ∈ m2 -> x ∈ m0 \/ x ∈ M).
Proof.
  revert f F orders minid m0. induction txs as [|t txs IH]; intros f F orders minid m0 H Hs Hall Hmin Hrng; cbn [freePages_loop].
  - exists f, minid, m0, []. split; [done|]. cbn. rewrite union_empty_r_L. split; [done|]. split; [apply moved_refl, H|]. split; [|tauto].
    intros r Hr. destruct (Hall r Hr) as [|Hr']; [done|]. by apply elem_of_nil in Hr'.
  - destruct (Hrng t) as [Ht1 Ht2]; [by left|]. unfold maxTxid in Ht2. rewrite !u64_small by lia.
    destruct (releaseRange_spec f F (default [] (head orders)) minid (t - 1) H) as (f1 & m & -> & H1 & Hm1). cbn [rbind].
    apply StronglySorted_inv in Hs as [Hs Ht]. rewrite Forall_forall in Ht. pose proof (Hmin t ltac:(by left)) as Hmt.
    destruct (IH f1 (F ∪ list_to_set m) (tail orders) (t + 1) m) as (f2 & minid' & m2 & M & -> & H2 & Hm2 & Hr2 & Hx2); [done|done| | |intros; apply Hrng; by right|].
    { intros r Hr. destruct (Hall r Hr) as [Hlt|[->|Hin]%elem_of_cons]; [left; lia|left; lia|by right]. }
    { intros t' Ht'. specialize (Ht t' Ht'). lia. }
    exists f2, minid', m2, (m ++ M). split; [done|]. rewrite list_to_set_app_L, union_assoc_L. split; [done|]. split; [|split; [done|]].
    + eapply moved_trans; [|exact Hm2]. eapply moved_impl; [exact Hm1|]. unfold in_range. intros b a [Hb Ha] r Hr Hbad.
      destruct (Hall r Hr) as [Hlt|[->|Hin]%elem_of_cons]; [lia|lia|]. specialize (Ht r Hin). lia.
    + intros x Hx. rewrite elem_of_app. destruct (Hx2 x Hx); tauto.
Qed.

Lemma freePages_spec f F o1 orders o3 txs :
  finv f F -> (forall r, r ∈ txs -> 1 <= r < maxTxid) ->
  exists f' m M, freePages f o1 orders o3 txs = Ok (f', m) /\ finv f' (F ∪ list_to_set M) /\
    moved (unseen txs) (pending f) (pending f') M /\ (forall x, x ∈ m -> x ∈ M) /\
    (forall id b a, freed_by (pending f') id b a -> b ∈ o1 -> 0 <= b -> maxTxid <= b \/ exists r, r ∈ txs /\ r <= b).
Proof.
  intros H Hmax. unfold freePages. set (ts := sort_ids txs). assert (Hts : forall r, r ∈ ts <-> r ∈ txs) by (intros r; apply elem_sort_ids).
  assert (Hs : StronglySorted Z.le ts) by (apply (StronglySorted_merge_sort Z.le)).
  set (minid := default maxTxid (head ts)).
  assert (Hmin : forall r, r ∈ txs -> minid <= r).
  { intros r Hr%Hts. unfold minid. destruct ts as [|t ts']; [by apply elem_of_nil in Hr|]. cbn. apply StronglySorted_inv in Hs as [_ Ht].
    rewrite Forall_forall in Ht. apply elem_of_cons in Hr as [->|Hr]; [lia|by apply Ht]. }
  assert (Hat : minid = maxTxid \/ minid ∈ txs).
  { unfold minid. destruct ts as [|t ts']; [by left|]. right. apply Hts. by left. }
  assert (H1 : exists f1 m1, (if 0 <? minid then release f o1 (minid - 1) else Ok (f, [])) = Ok (f1, m1) /\ finv f1 (F ∪ list_to_set m1) /\
    moved (unseen txs) (pending f) (pending f1) m1 /\ forall id b a, freed_by (pending f1) id b a -> b ∈ o1 -> minid <= b \/ minid <= 0).
  { destruct (Z.ltb_spec 0 minid) as [Hpos|Hneg].
    - destruct (release_spec f F o1 (minid - 1) H) as (f1 & m1 & E & Hi & Hm & Hall). exists f1, m1. split; [done|]. split; [done|]. split.
      + eapply moved_impl; [exact Hm|]. cbn. intros b a Hb r Hr Hbad. specialize (Hmin r Hr). lia.
      + intros id b a Hf Hb. specialize (Hall id b a Hf Hb). lia.
    - exists f, []. split; [done|]. cbn. rewrite union_empty_r_L. split; [done|]. split; [apply moved_refl, H|]. intros; by right. }
  destruct H1 as (f1 & m1 & -> & Hi1 & Hm1 & Hall1). cbn [rbind].
  destruct (freePages_loop_spec f1 (F ∪ list_to_set m1) orders ts minid [] txs Hi1 Hs) as (f2 & minid' & m2 & M2 & -> & Hi2 & Hm2 & Hr2 & Hx2).
  { intros r Hr. right. by apply Hts. }
  { intros t Ht%Hts. specialize (Hmin t Ht). lia. }
  { intros t Ht%Hts. by apply Hmax. }
  cbn [rbind]. destruct (releaseRange_spec f2 _ o3 minid' maxTxid Hi2) as (f3 & m3 & -> & Hi3 & Hm3). cbn [rbind].
  eexists f3, _, (m1 ++ M2 ++ m3). split; [done|]. rewrite !list_to_set_app_L, !union_assoc_L. split; [done|].
  assert (Hm : moved (unseen txs) (pending f) (pending f3) (m1 ++ M2 ++ m3)).
  { eapply moved_trans; [exact Hm1|]. eapply moved_trans; [exact Hm2|]. eapply moved_impl; [exact Hm3|]. unfold in_range.
    intros b a [_ Ha] r Hr Hbad. specialize (Hr2 r Hr). lia. }
  split; [done|]. split.
  - intros x Hx. rewrite elem_of_remove_dups, !elem_of_app in Hx. rewrite !elem_of_app. destruct Hx as [|[Hx|]]; [tauto| |tauto].
    destruct (Hx2 x Hx) as [Hx'|]; [by apply elem_of_nil in Hx'|tauto].
  - intros id b a Hf Hb Hb0. assert (Hle : minid <= b).
    { destruct (Hall1 id b a) as [|]; [by apply (mv_sub _ _ _ _ Hm2), (mv_sub _ _ _ _ Hm3)|done|done|lia]. }
    destruct Hat as [E|Hin]; [left; lia|right; by exists minid].
Qed.

(** ** Reachable lists *)

(** The free pages, as the list reports them. *)
Definition free_pages f : gset Z := list_to_set (fs_getFreePageIDs (store f)).

(** The states of a free list that is new, or read from a page when the database
    is opened, and then used by transactions, which free only pages in use.  A
    transaction that fails rolls its pending pages back and reloads the list:
    from the pages found in the file ([noSyncReload]), or from the free list page
    of the last commit ([reload]), in both cases without the pages that are
    pending.  A reload counts only where pages remain, or none was free: on the
    span maps an empty reload leaves the old spans in place, see
    [hash_reload_overlap]. *)
Inductive freach : freelist S -> Prop :=
| fr_new : freach (newFreelist fs_new)
| fr_read s l : ssorted l -> l <> [] -> (forall x, x ∈ l -> 2 <= x) -> freach (readIDs (newFreelist s) l)
| fr_alloc pick f txid n f' p : freach f -> picks pick -> 1 <= n -> allocate pick f txid n = Ok (f', p) -> freach f'
| fr_free f txid p f' : freach f -> in_use f (free_pages f) p -> free f txid p = Ok f' -> freach f'
| fr_pages f o1 orders o3 txs f' m : freach f -> (forall r, r ∈ txs -> 1 <= r < maxTxid) -> freePages f o1 orders o3 txs = Ok (f', m) -> freach f'
| fr_rollback f txid f' : freach f -> rollback f txid = Ok f' -> freach f'
| fr_noSyncReload f l :
    freach f -> ssorted l -> (forall x, x ∈ l -> 2 <= x) -> without_pending f l <> [] \/ free_pages f = ∅ ->
    freach (noSyncReload f l)
| fr_reload FromBytes f p (bitmap : bool) f1 f' :
    freach f -> (if bitmap then readFromBitmap FromBytes f p else read f p) = Ok f1 ->
    ssorted (fs_getFreePageIDs (store f1)) -> (forall x, x ∈ fs_getFreePageIDs (store f1) -> 2 <= x) ->
    without_pending f1 (fs_getFreePageIDs (store f1)) <> [] ->
    reload FromBytes f p bitmap = Ok f' -> freach f'.

Lemma finv_pages f F : finv f F -> free_pages f = F.
Proof. apply finv_free. Qed.

Lemma read_finv s l : ssorted l -> l <> [] -> (forall x, x ∈ l -> 2 <= x) -> finv (readIDs (newFreelist s) l) (list_to_set l).
Proof.
  intros Hl Hne H2. pose proof (fl_read s l Hl Hne H2) as Hr.
  assert (Hno : forall id b a, ~ freed_by ∅ id b a) by (intros id b a (t & Ht & _); by rewrite lookup_empty in Ht).
  split; cbn.
  - done.
  - split; try (intros b t Ht; by rewrite lookup_empty in Ht).
    + intros id b a b' a' Hf. by destruct (Hno id b a).
    + intros id b a Hf. by destruct (Hno id b a).
  - intros id b a Hf. by destruct (Hno id b a).
  - intros id b a Hf. by destruct (Hno id b a).
  - intros id [Hin|Hin]%elem_of_union; left; [|by apply elem_of_empty in Hin].
    apply elem_of_list_to_set in Hin. by apply (fl_ids _ _ Hr).
Qed.

Lemma new_finv : finv (newFreelist fs_new) ∅.
Proof.
  assert (Hno : forall id b a, ~ freed_by ∅ id b a) by (intros id b a (t & Ht & _); by rewrite lookup_empty in Ht).
  split; cbn; [apply fl_new| | | |].
  - split; try (intros b t Ht; by rewrite lookup_empty in Ht).
    + intros id b a b' a' Hf. by destruct (Hno id b a).
    + intros id b a Hf. by destruct (Hno id b a).
  - intros id b a Hf. by destruct (Hno id b a).
  - intros id b a Hf. by destruct (Hno id b a).
  - intros id Hin. by apply elem_of_empty in Hin.
Qed.

(** Reading a page leaves the pending pages alone. *)
Lemma read_pending FromBytes f p (bitmap : bool) f1 :
  (if bitmap then readFromBitmap FromBytes f p else read f p) = Ok f1 -> pending f1 = pending f.
Proof.
  unfold readFromBitmap, read. intros E. destruct bitmap; (destruct (_ =? 0); [done|]; apply rbind_Ok in E as ([n off] & _ & E); destruct (n =? 0); [by injection E as <-|]).
  - apply rbind_Ok in E as (lb & _ & E). apply rbind_Ok in E as (d & _ & E). destruct (FromBytes d) as [a|]; [|done].
    destruct (negb _); [done|]. by injection E as <-.
  - apply rbind_Ok in E as (d & _ & E). by injection E as <-.
Qed.

(** The list without the pages that are pending. *)
Lemma reload_finv f l F :
  pend_ok (pending f) -> R (fs_readIDs (without_pending f l) (store f)) F -> (forall x, x ∈ F -> x ∈ without_pending f l) ->
  finv (noSyncReload f l) F.
Proof.
  intros Hp Hr HF. destruct (fl_ids _ _ Hr) as [_ Hids]. split; cbn [noSyncReload readIDs reindex store pending cache]; [done|done| | |].
  - intros id b a Hf Hin%HF. apply list_elem_of_filter in Hin as [Hn _]. apply Hn, (pending_set_spec _ id Hp). by exists b, a.
  - intros id b a Hf. apply elem_of_union. right. apply (pending_set_spec _ id Hp). by exists b, a.
  - intros id [Hin|Hin]%elem_of_union; [left; apply elem_of_list_to_set in Hin; by apply Hids|right; by apply (pending_set_spec _ id Hp) in Hin].
Qed.

Lemma without_pending_sorted f l : ssorted l -> ssorted (without_pending f l).
Proof.
  unfold without_pending. induction 1 as [|x l Hs IH Hx]; [constructor|]. rewrite filter_cons. case_decide; [|done]. constructor; [done|].
  apply Forall_forall. intros y [_ Hy]%list_elem_of_filter. by apply (proj1 (Forall_forall _ _) Hx).
Qed.

Lemma reload_some f l :
  pend_ok (pending f) -> ssorted l -> (forall x, x ∈ l -> 2 <= x) -> without_pending f l <> [] ->
  finv (noSyncReload f l) (list_to_set (without_pending f l)).
Proof.
  intros Hp Hl H2 Hne. apply reload_finv; [done| |intros x Hx; by apply elem_of_list_to_set in Hx].
  apply fl_read; [by apply without_pending_sorted|done|]. intros x [_ Hx]%list_elem_of_filter. by apply H2.
Qed.

Lemma freach_inv f : freach f -> finv f (free_pages f).
Proof.
  intros Hf. assert (Hex : exists F, finv f F).
  { induction Hf as [|s l Hl Hne H2|pick f txid n f' p _ [F IH] Hp Hn E|f txid p f' _ [F IH] Hu E|f o1 orders o3 txs f' m _ [F IH] Ht E|f txid f' _ [F IH] E
      |f l _ [F IH] Hl H2 Hne|FromBytes f p bitmap f1 f' _ [F IH] E1 Hl H2 Hne E].
    - eexists. apply new_finv.
    - eexists. by apply read_finv.
    - destruct (allocate_spec pick f F txid n Hp IH Hn) as (f2 & p2 & E2 & Hd). rewrite E in E2. injection E2 as <- <-.
      destruct Hd as [(_ & -> & _)|(_ & _ & Hi & _)]; by eexists.
    - rewrite (finv_pages _ _ IH) in Hu. destruct (free_spec f F txid p IH Hu) as (f2 & E2 & Hi & _). rewrite E in E2. injection E2 as <-. by eexists.
    - destruct (freePages_spec f F o1 orders o3 txs IH Ht) as (f2 & m2 & M & E2 & Hi & _). rewrite E in E2. injection E2 as <- <-. by eexists.
    - destruct (rollback_spec f F txid IH) as (f2 & F2 & E2 & Hi & _). rewrite E in E2. injection E2 as <-. by eexists.
    - pose proof (fi_pend _ _ IH) as Hp. destruct (decide (without_pending f l = [])) as [Ew|Hw]; [|eexists; by apply reload_some].
      destruct Hne as [|Hno]; [done|]. rewrite (finv_pages _ _ IH) in Hno. subst F. exists ∅. apply reload_finv; [done| |set_solver].
      rewrite Ew. apply fl_read_none, IH.
    - unfold reload in E. rewrite E1 in E. injection E as <-. eexists. apply (reload_some f1); try done.
      rewrite (read_pending _ _ _ _ _ E1). apply IH. }
  destruct Hex as [F HF]. by rewrite (finv_pages _ _ HF).
Qed.


(** C26: before a write transaction, a page that earlier transactions freed becomes
    free again only if no open reader can see it: a reader sees a page that was
    allocated at or before its transaction and freed after it.  Every page freed
    before the oldest reader is released. *)
Theorem freePages_safe f o1 orders o3 txs :
  freach f -> (forall r, r ∈ txs -> 1 <= r < maxTxid) ->
  exists f' m, freePages f o1 orders o3 txs = Ok (f', m) /\
    (forall id, id ∈ free_pages f -> id ∈ free_pages f') /\
    (forall id, id ∈ free_pages f' -> id ∉ free_pages f ->
       exists b a, freed_by (pending f) id b a /\ forall r, r ∈ txs -> ~ (a <= r < b)) /\
    (forall id b a, freed_by (pending f) id b a -> b ∈ o1 -> 0 <= b < maxTxid -> (forall r, r ∈ txs -> b < r) -> id ∈ free_pages f') /\
    (forall id, id ∈ m -> id ∈ free_pages f').
Proof.
  intros Hf Ht. pose proof (freach_inv f Hf) as Hi.
  destruct (freePages_spec f _ o1 orders o3 txs Hi Ht) as (f' & m & M & E & Hi' & Hm & Hx & Hall). exists f', m. split; [done|].
  rewrite (finv_pages _ _ Hi'). split; [|split; [|split]].
  - intros id Hid. apply elem_of_union. by left.
  - intros id [|Hid]%elem_of_union Hn; [done|]. apply elem_of_list_to_set in Hid. apply (mv_out _ _ _ _ Hm id Hid).
  - intros id b a Hb Ho Hb0 Hr. rewrite elem_of_union, elem_of_list_to_set. destruct (mv_all _ _ _ _ Hm id b a Hb) as [Hb'|]; [|by right].
    destruct (Hall id b a Hb' Ho) as [|(r & Hr1 & Hr2)]; [lia|lia|]. specialize (Hr r Hr1). lia.
  - intros id Hid. rewrite elem_of_union, elem_of_list_to_set. right. by apply Hx.
Qed.

(** ** The page formats *)

(** The order in which a loop visits the pending transactions. *)
Definition visits (order : list Z) (p : gmap Z txPending) : Prop := order ≡ₚ (map_to_list p).*1.

Lemma pending_ids_perm order p : visits order p -> pending_ids order p ≡ₚ mjoin ((fun x => ids x.2) <$> map_to_list p).
Proof.
  intros Hv. unfold pending_ids. rewrite Hv. apply reflexive_eq. f_equal. rewrite <-list_fmap_compose. apply list_fmap_ext.
  intros i [b t] Hb. cbn. apply list_elem_of_lookup_2, elem_of_map_to_list in Hb. by rewrite Hb.
Qed.

Lemma len_pending_ids order f : visits order (pending f) -> len (pending_ids order (pending f)) = pending_count f.
Proof.
  intros Hv. unfold len. rewrite (Permutation_length (pending_ids_perm _ _ Hv)). unfold pending_count.
  induction (map_to_list (pending f)) as [|[b t] l IH]; [done|]. cbn [fmap list_fmap mjoin list_join foldr]. rewrite length_app. unfold len in *. cbn [snd] in *.
  rewrite Nat2Z.inj_add. f_equal. exact IH.
Qed.

Lemma NoDup_pending_ids order p : pend_ok p -> visits order p -> NoDup (pending_ids order p).
Proof.
  intros Hp Hv. rewrite (pending_ids_perm _ _ Hv).
  assert (Hall : forall x, x ∈ map_to_list p -> p !! x.1 = Some x.2) by (intros [b t] Hx; by apply elem_of_map_to_list in Hx).
  pose proof (NoDup_fst_map_to_list p) as Hnd. induction (map_to_list p) as [|[b t] l IH]; cbn; [constructor|].
  cbn in Hnd. apply NoDup_cons in Hnd as [Hn Hnd]. apply NoDup_app. specialize (Hall (b, t)) as Hb. cbn in Hb. specialize (Hb ltac:(by left)).
  split; [by eapply (po_nodup _ Hp)|]. split; [|apply IH; [intros; apply Hall; by right|done]].
  intros id Hid Hin. apply list_elem_of_join in Hin as (l' & Hid' & Hl'). apply list_elem_of_fmap in Hl' as ([b' t'] & -> & Hx). cbn in Hid'.
  pose proof (Hall (b', t') ltac:(by right)) as Hb'. cbn in Hb'. apply (elem_pairs t id (po_len _ Hp _ _ Hb)) in Hid as (a & Ha).
  apply (elem_pairs t' id (po_len _ Hp _ _ Hb')) in Hid' as (a' & Ha').
  assert (b = b') as <- by (apply (po_once _ Hp id b a b' a'); [by exists t|by exists t']). apply Hn. apply list_elem_of_fmap. by exists (b, t').
Qed.

Lemma elem_pending_ids order p id : pend_ok p -> visits order p -> id ∈ pending_ids order p <-> id ∈ pending_set p.
Proof. intros Hp Hv. unfold pending_set. rewrite elem_of_list_to_set. by rewrite (pending_ids_perm _ _ Hv). Qed.

(** All pages that are free or pending. *)
Definition all_pages f : gset Z := free_pages f ∪ pending_set (pending f).

Lemma copyall_spec f F order room : finv f F -> visits order (pending f) -> count f <= room ->
  exists l, copyall f order room = Ok l /\ ssorted l /\ (forall x, x ∈ l <-> x ∈ all_pages f) /\ len l = count f.
Proof.
  intros H Hv Hr. destruct (fl_ids _ _ (fi_store _ _ H)) as [Hs Hids].
  pose proof (NoDup_pending_ids _ _ (fi_pend _ _ H) Hv) as Hnd.
  assert (Hc : len (fs_getFreePageIDs (store f)) = free_count f).
  { unfold free_count. rewrite (fl_count _ _ (fi_store _ _ H)). apply size_of_NoDup; [by apply ssorted_NoDup|done]. }
  assert (Hpc : len (sort_ids (pending_ids order (pending f))) = pending_count f).
  { unfold len. rewrite length_sort_ids. by apply len_pending_ids. }
  destruct (mergepgids_spec room (fs_getFreePageIDs (store f)) (sort_ids (pending_ids order (pending f)))) as (l & E & Hl & Hp).
  - done.
  - by apply sort_ids_sorted.
  - intros x Hx Hin. rewrite elem_sort_ids, (elem_pending_ids _ _ _ (fi_pend _ _ H) Hv), (pending_set_spec _ x (fi_pend _ _ H)) in Hin. destruct Hin as (b & a & Hf).
    apply (fi_apart _ _ H x b a Hf). by apply Hids.
  - unfold count in Hr. lia.
  - exists l. split; [done|]. split; [done|]. split.
    + intros x. unfold all_pages, free_pages. rewrite Hp, elem_of_app, elem_sort_ids, (elem_pending_ids _ _ _ (fi_pend _ _ H) Hv), elem_of_union, elem_of_list_to_set. done.
    + unfold len at 1. rewrite (Permutation_length Hp), length_app. unfold count, len in *. lia.
Qed.

Lemma put_ids_cons x l : put_ids (x :: l) = le_put 8 x ++ put_ids l.
Proof. done. Qed.

Lemma len_put_ids l : len (put_ids l) = 8 * len l.
Proof. induction l as [|x l IH]; [done|]. rewrite put_ids_cons, len_app, len_cons, IH. unfold len at 1. rewrite length_le_put. lia. Qed.

Lemma get_put_ids l : (forall x, x ∈ l -> 0 <= x < 18446744073709551616) -> get_ids (length l) (put_ids l) = l.
Proof.
  induction l as [|x l IH]; intros Hl; [done|]. rewrite put_ids_cons. cbn [length get_ids].
  rewrite take_app_length' by (by rewrite length_le_put). rewrite drop_app_length' by (by rewrite length_le_put). rewrite le_get_put_u64, u64_small by (apply Hl; by left).
  f_equal. apply IH. intros; apply Hl; by right.
Qed.

Lemma poke_data_ok d off bs : 0 <= off -> off + len bs <= len d ->
  exists d', poke_data d off bs = Ok d' /\ len d' = len d /\ take (Z.to_nat off) d' = take (Z.to_nat off) d /\ peek_data d' off (len bs) = Ok bs.
Proof.
  intros Ho Hl. unfold poke_data. pose proof (len_nonneg bs). destruct (Z.ltb_spec off 0); [lia|]. destruct (Z.ltb_spec (len d) (off + len bs)); [lia|]. cbn [orb].
  eexists. split; [done|]. assert (Ht : length (take (Z.to_nat off) d) = Z.to_nat off) by (rewrite length_take; unfold len in *; lia).
  assert (Hlen : len (take (Z.to_nat off) d ++ bs ++ drop (Z.to_nat (off + len bs)) d) = len d).
  { unfold len in *. rewrite !length_app, Ht, length_drop. lia. }
  split; [done|]. split; [by apply take_app_length'|]. unfold peek_data. rewrite Hlen.
  destruct (Z.ltb_spec off 0); [lia|]. destruct (Z.ltb_spec (len bs) 0); [lia|]. destruct (Z.ltb_spec (len d) (off + len bs)); [lia|]. cbn [orb].
  rewrite drop_app_length' by done. f_equal. apply take_app_length'. unfold len. lia.
Qed.

Lemma peek_app d off a b : peek_data d off (len (a ++ b)) = Ok (a ++ b) -> peek_data d off (len a) = Ok a /\ peek_data d (off + len a) (len b) = Ok b.
Proof.
  unfold peek_data. pose proof (len_nonneg a). pose proof (len_nonneg b). rewrite len_app.
  destruct (Z.ltb_spec off 0); [done|]. destruct (Z.ltb_spec (len a + len b) 0); [lia|]. destruct (Z.ltb_spec (len d) (off + (len a + len b))); [done|]. cbn [orb].
  intros [= E]. destruct (Z.ltb_spec (len a) 0); [lia|]. destruct (Z.ltb_spec (len d) (off + len a)); [lia|].
  destruct (Z.ltb_spec (off + len a) 0); [lia|]. destruct (Z.ltb_spec (len b) 0); [lia|]. destruct (Z.ltb_spec (len d) (off + len a + len b)); [lia|]. cbn [orb].
  replace (Z.to_nat (len a + len b)) with (length a + length b)%nat in E by (unfold len; lia). rewrite <-take_take_drop in E.
  assert (Hl : length (take (length a) (drop (Z.to_nat off) d)) = length a) by (rewrite length_take, length_drop; unfold len in *; lia).
  apply app_inj_1 in E as [E1 E2]; [|done]. unfold len. rewrite !Nat2Z.id. split; [by rewrite E1|].
  replace (Z.to_nat (off + Z.of_nat (length a))) with (Z.to_nat off + length a)%nat by lia. by rewrite <-drop_drop, E2.
Qed.

Lemma flag_set fl : Z.land (Z.lor fl freelistPageFlag) freelistPageFlag =? 0 = false.
Proof. apply Z.eqb_neq. rewrite Z.land_lor_distr_l. intros E%Z.lor_eq_0_iff. by destruct E. Qed.

(** A page with room for the list and its count. *)
Definition roomy_page (n : Z) (p : page) : Prop := 8 * (n + 1) <= len (p_data p).

Lemma all_pages_u64 f F : finv f F -> (forall id, id ∈ all_pages f -> id < 18446744073709551616) ->
  forall x, x ∈ all_pages f -> 0 <= x < 18446744073709551616.
Proof.
  intros H Hid x Hx. split; [|by apply Hid]. apply elem_of_union in Hx as [Hx|Hx].
  - rewrite (finv_pages _ _ H) in Hx. pose proof (fl_pages _ _ (fi_store _ _ H) x Hx). lia.
  - apply (pending_set_spec _ x (fi_pend _ _ H)) in Hx as (b & a & Hf). pose proof (po_pages _ (fi_pend _ _ H) x b a Hf). lia.
Qed.

Lemma write_read f F order p g :
  finv f F -> visits order (pending f) -> 0 < count f < 9223372036854775808 -> roomy_page (count f) p ->
  (forall id, id ∈ all_pages f -> id < 18446744073709551616) ->
  exists p' l, write f order p = Ok p' /\ read g p' = Ok (readIDs g l) /\ ssorted l /\ (forall x, x ∈ l <-> x ∈ all_pages f).
Proof.
  intros H Hv Hc Hroom Hid. destruct (copyall_spec f F order (count f) H Hv) as (l & E & Hl & Hel & Hlen); [lia|].
  assert (H64 : forall x, x ∈ l -> 0 <= x < 18446744073709551616).
  { intros x Hx%Hel. by apply (all_pages_u64 f F). }
  assert (Hget : get_ids (Z.to_nat (count f)) (put_ids l) = l).
  { replace (Z.to_nat (count f)) with (length l) by (unfold len in Hlen; lia). by apply get_put_ids. }
  unfold write, roomy_page in *. destruct (Z.eqb_spec (count f) 0); [lia|]. rewrite E. cbn [rbind]. destruct (Z.ltb_spec (count f) 65535) as [Hlt|Hge].
  - destruct (poke_data_ok (p_data p) 0 (put_ids l)) as (d' & -> & Hd & _ & Hpeek); [lia|rewrite len_put_ids; lia|]. cbn [rbind].
    eexists _, l. split; [done|]. split; [|done]. unfold read, page_count. cbn [p_flags p_count p_data]. rewrite flag_set.
    assert (Eu : u16 (count f) = count f) by (apply u16_small; lia). rewrite Eu. destruct (Z.eqb_spec (count f) 65535); [lia|]. cbn [rbind].
    destruct (Z.eqb_spec (count f) 0); [lia|]. rewrite len_put_ids, Hlen in Hpeek. rewrite Hpeek. cbn [rbind]. by rewrite Hget, sort_ids_id.
  - destruct (poke_data_ok (p_data p) 0 (put_ids (count f :: l))) as (d' & -> & Hd & _ & Hpeek); [lia|rewrite len_put_ids, len_cons; lia|]. cbn [rbind].
    eexists _, l. split; [done|]. split; [|done]. unfold read, page_count. cbn [p_flags p_count p_data]. rewrite flag_set. cbn [Z.eqb Pos.eqb].
    rewrite put_ids_cons in Hpeek. apply peek_app in Hpeek as [P1 P2]. assert (E8 : len (le_put 8 (count f)) = 8) by (unfold len; by rewrite length_le_put).
    rewrite E8 in P1, P2. rewrite P1. cbn [rbind]. rewrite le_get_put_u64, u64_small by lia. destruct (Z.leb_spec 9223372036854775808 (count f)); [lia|]. cbn [rbind].
    destruct (Z.eqb_spec (count f) 0); [lia|]. rewrite len_put_ids, Hlen in P2. change (0 + 8) with 8 in P2. rewrite P2. cbn [rbind]. by rewrite Hget, sort_ids_id.
Qed.

(** *** The bitmap *)

Lemma convertBitmap_spec f F order : finv f F -> visits order (pending f) -> convertBitmap f order = (all_pages f, count f).
Proof.
  intros H Hv. destruct (fl_bitmap _ _ (fi_store _ _ H)) as [Hnd Hb]. unfold convertBitmap. f_equal.
  - apply set_eq. intros x. unfold all_pages. rewrite (finv_pages _ _ H), elem_of_list_to_set, elem_of_app, elem_of_union, (elem_pending_ids _ _ _ (fi_pend _ _ H) Hv), Hb. tauto.
  - rewrite len_app, (len_pending_ids _ _ Hv). unfold count, free_count. rewrite (fl_count _ _ (fi_store _ _ H)), <-(size_of_NoDup _ _ Hnd Hb). lia.
Qed.

Lemma size_all_pages f F : finv f F -> Z.of_nat (base.size (all_pages f)) = count f.
Proof.
  intros H. destruct (copyall_spec f F ((map_to_list (pending f)).*1) (count f) H) as (l & _ & Hl & Hel & Hlen); [by unfold visits|lia|].
  rewrite <-Hlen. symmetry. apply size_of_NoDup; [by apply ssorted_NoDup|done].
Qed.

Lemma elem_elements_sort (s : gset Z) x : x ∈ sort_ids (elements s) <-> x ∈ s.
Proof. by rewrite elem_sort_ids, elem_of_elements. Qed.

Section Bitmap.
Context (ToBytes : gset Z -> bytes) (FromBytes : bytes -> option pgids).
Hypothesis bitmap_codec : forall s, (forall x, x ∈ s -> 0 <= x < 18446744073709551616) -> FromBytes (ToBytes s) = Some (sort_ids (elements s)).

Lemma copyallBitmap_spec d off rb : 0 <= off -> off + 8 + len (ToBytes rb) <= len d -> len (ToBytes rb) < 18446744073709551616 ->
  exists d', copyallBitmap ToBytes d off rb (len (ToBytes rb)) = Ok d' /\ take (Z.to_nat off) d' = take (Z.to_nat off) d /\ len d' = len d /\
    (let! lb := peek_data d' off 8 in peek_data d' (off + 8) (le_get lb)) = Ok (ToBytes rb).
Proof.
  intros Ho Hd Hl. unfold copyallBitmap. assert (E8 : forall v, len (le_put 8 v) = 8) by (intros v; unfold len; by rewrite length_le_put).
  pose proof (len_nonneg (ToBytes rb)). destruct (poke_data_ok d off (le_put 8 (len (ToBytes rb)))) as (d1 & -> & L1 & T1 & P1); [lia|rewrite E8; lia|]. cbn [rbind].
  rewrite take_ge by (unfold len; lia). destruct (poke_data_ok d1 (off + 8) (ToBytes rb)) as (d2 & -> & L2 & T2 & P2); [lia|lia|].
  exists d2. split; [done|]. split; [|split; [lia|]].
  - apply (f_equal (take (Z.to_nat off))) in T2. rewrite !take_take in T2. replace (Z.to_nat off `min` Z.to_nat (off + 8))%nat with (Z.to_nat off) in T2 by lia. congruence.
  - assert (P8 : peek_data d2 off 8 = Ok (le_put 8 (len (ToBytes rb)))).
    { rewrite E8 in P1. unfold peek_data in *. destruct (Z.ltb_spec off 0); [lia|]. cbn [orb Z.ltb] in *. change (8 <? 0) with false in *. cbn [orb] in *.
      destruct (Z.ltb_spec (len d1) (off + 8)); [lia|]. destruct (Z.ltb_spec (len d2) (off + 8)); [lia|]. rewrite <-P1. f_equal.
      rewrite !take_drop_commute. replace (Z.to_nat off + Z.to_nat 8)%nat with (Z.to_nat (off + 8)) by lia. by rewrite T2. }
    rewrite P8. cbn [rbind]. by rewrite le_get_put_u64, u64_small by lia.
Qed.

Lemma bitmap_write_read f F order p g :
  finv f F -> visits order (pending f) -> 0 < count f < 9223372036854775808 -> len (ToBytes (all_pages f)) < 18446744073709551616 ->
  16 + len (ToBytes (all_pages f)) <= len (p_data p) -> (forall id, id ∈ all_pages f -> id < 18446744073709551616) ->
  exists p' l, (let '(rb, n) := convertBitmap f order in writeBitmap ToBytes p rb (len (ToBytes rb)) n) = Ok p' /\
    readFromBitmap FromBytes g p' = Ok (readIDs g l) /\ ssorted l /\ (forall x, x ∈ l <-> x ∈ all_pages f).
Proof.
  intros H Hv Hc H64 Hroom Hid. pose proof (bitmap_codec _ (all_pages_u64 f F H Hid)) as Hcodec. rewrite (convertBitmap_spec f F order H Hv). unfold writeBitmap. set (rb := all_pages f) in *.
  destruct (Z.eqb_spec (count f) 0); [lia|]. pose proof (len_nonneg (ToBytes rb)).
  assert (Hl : ssorted (sort_ids (elements rb))) by apply sort_ids_sorted, NoDup_elements.
  assert (Hlen : len (sort_ids (elements rb)) = count f).
  { rewrite <-(size_all_pages f F H). apply size_of_NoDup; [by apply ssorted_NoDup|]. intros x. apply elem_elements_sort. }
  destruct (Z.ltb_spec (count f) 65535) as [Hlt|Hge].
  - destruct (copyallBitmap_spec (p_data p) 0 rb) as (d' & -> & _ & _ & Hpeek); [lia|lia|lia|]. cbn [rbind].
    eexists _, (sort_ids (elements rb)). split; [done|]. split; [|split; [done|apply elem_elements_sort]].
    unfold readFromBitmap, page_count. cbn [p_flags p_count p_data]. rewrite flag_set.
    assert (Eu : u16 (count f) = count f) by (apply u16_small; lia). rewrite Eu. destruct (Z.eqb_spec (count f) 65535); [lia|]. cbn [rbind].
    destruct (Z.eqb_spec (count f) 0); [lia|]. apply rbind_Ok in Hpeek as (lb & -> & Hpeek). cbn [rbind]. rewrite Hpeek. cbn [rbind].
    rewrite Hcodec, Hlen, Z.eqb_refl. done.
  - assert (E8 : len (le_put 8 (count f)) = 8) by (unfold len; by rewrite length_le_put).
    destruct (poke_data_ok (p_data p) 0 (le_put 8 (count f))) as (d1 & -> & L1 & _ & P1); [lia|lia|]. cbn [rbind].
    destruct (copyallBitmap_spec d1 8 rb) as (d' & -> & T2 & L2 & Hpeek); [lia|lia|lia|]. cbn [rbind].
    eexists _, (sort_ids (elements rb)). split; [done|]. split; [|split; [done|apply elem_elements_sort]].
    unfold readFromBitmap, page_count. cbn [p_flags p_count p_data]. rewrite flag_set. cbn [Z.eqb Pos.eqb].
    assert (P8 : peek_data d' 0 8 = Ok (le_put 8 (count f))).
    { rewrite E8 in P1. unfold peek_data in *. cbn [orb Z.ltb Z.compare] in *. destruct (Z.ltb_spec (len d1) (0 + 8)); [lia|].
      destruct (Z.ltb_spec (len d') (0 + 8)); [lia|]. rewrite <-P1. f_equal. cbn [Z.to_nat]. rewrite !drop_0. exact T2. }
    rewrite P8. cbn [rbind]. rewrite le_get_put_u64, u64_small by lia. destruct (Z.leb_spec 9223372036854775808 (count f)); [lia|]. cbn [rbind].
    destruct (Z.eqb_spec (count f) 0); [lia|]. apply rbind_Ok in Hpeek as (lb & -> & Hpeek). cbn [rbind]. rewrite Hpeek. cbn [rbind].
    rewrite Hcodec, Hlen, Z.eqb_refl. done.
Qed.

(** C28: a free list with at least one page, written to a page with room for it
    in either format, the list of numbers or the bitmap, also when it is too long for the 16-bit count, and read back at
    the next opening gives a list whose free pages are exactly those that were
    free or pending. *)
Theorem freelist_page_roundtrip f order p s :
  freach f -> visits order (pending f) -> 0 < count f < 9223372036854775808 ->
  (forall id, id ∈ all_pages f -> id < 18446744073709551616) -> roomy_page (count f) p ->
  len (ToBytes (all_pages f)) < 18446744073709551616 -> 16 + len (ToBytes (all_pages f)) <= len (p_data p) ->
  (exists p' g, write f order p = Ok p' /\ read (newFreelist s) p' = Ok g /\ freach g /\ free_pages g = all_pages f /\ pending g = ∅) /\
  (exists p' g, (let '(rb, n) := convertBitmap f order in writeBitmap ToBytes p rb (len (ToBytes rb)) n) = Ok p' /\
     readFromBitmap FromBytes (newFreelist s) p' = Ok g /\ freach g /\ free_pages g = all_pages f /\ pending g = ∅).
Proof.
  intros Hf Hv Hc Hid Hroom H64 Hroom2. pose proof (freach_inv f Hf) as Hi.
  assert (Hread : forall l, ssorted l -> (forall x, x ∈ l <-> x ∈ all_pages f) ->
    freach (readIDs (newFreelist s) l) /\ free_pages (readIDs (newFreelist s) l) = all_pages f /\ pending (readIDs (newFreelist s) l) = ∅).
  { intros l Hl Hel. assert (Hne : l <> []).
    { intros ->. assert (Hz : base.size (all_pages f) = 0%nat) by (apply size_empty_iff; apply set_equiv; intros x; rewrite <-Hel; set_solver).
      pose proof (size_all_pages f _ Hi). lia. }
    assert (H2 : forall x, x ∈ l -> 2 <= x).
    { intros x [Hx|Hx]%Hel%elem_of_union; [by apply (fl_pages _ _ (fi_store _ _ Hi))|].
      apply (pending_set_spec _ x (fi_pend _ _ Hi)) in Hx as (b & a & Hx). by eapply (po_pages _ (fi_pend _ _ Hi)). }
    split; [by constructor|]. split; [|done]. rewrite (finv_pages _ _ (read_finv s l Hl Hne H2)). apply set_eq. intros x. by rewrite elem_of_list_to_set. }
  split.
  - destruct (write_read f _ order p (newFreelist s) Hi Hv Hc Hroom Hid) as (p' & l & E1 & E2 & Hl & Hel). exists p', (readIDs (newFreelist s) l). split; [done|]. split; [done|]. by apply Hread.
  - destruct (bitmap_write_read f _ order p (newFreelist s) Hi Hv Hc H64 Hroom2 Hid) as (p' & l & E1 & E2 & Hl & Hel). exists p', (readIDs (newFreelist s) l). split; [done|]. split; [done|]. by apply Hread.
Qed.
End Bitmap.
End Safe.

Arguments finv {S} R f F.

(** ** The two stores are interchangeable *)

(** Two lists that hold the same pages. *)
Record same_list (f : freelist pgids) (g : freelist spans) : Prop := mkSame {
  sm_ids : fs_getFreePageIDs (store f) = fs_getFreePageIDs (store g);
  sm_allocs : allocs f = allocs g;
  sm_pending : pending f = pending g;
  sm_cache : cache f = cache g
}.

(** One result for both, up to the store. *)
Definition both {A} (rf : outcome (freelist pgids * A)) (rg : outcome (freelist spans * A)) : Prop :=
  exists f g a, rf = Ok (f, a) /\ rg = Ok (g, a) /\ same_list f g.

Definition plain {S} (r : outcome (freelist S)) : outcome (freelist S * unit) := let! f := r in Ok (f, tt).

Lemma same_merge F l h m al p c :
  array_rep l F -> hash_rep h F -> NoDup m -> (forall x, x ∈ m -> 2 <= x /\ x ∉ F) ->
  exists f g, mergeSpans (mkFL l al p c) m = Ok f /\ mergeSpans (mkFL h al p c) m = Ok g /\ same_list f g.
Proof.
  intros Hl Hh Hnd Hm. destruct (fl_merge (FreeStoreLaws := arrayStore_laws) l F m Hl Hnd Hm) as (l' & E1 & Hl').
  destruct (fl_merge (FreeStoreLaws := hashStore_laws) h F m Hh Hnd Hm) as (h' & E2 & Hh').
  unfold mergeSpans. cbn [store allocs pending cache]. rewrite E1, E2. cbn [rbind]. eexists _, _. split; [done|]. split; [done|]. split; try done. cbn [store].
  destruct (fl_ids (FreeStoreLaws := arrayStore_laws) _ _ Hl') as [S1 I1]. destruct (fl_ids (FreeStoreLaws := hashStore_laws) _ _ Hh') as [S2 I2].
  apply ssorted_unique; [done|done|]. intros x. by rewrite I1, I2.
Qed.

(** C27: the array and the span maps are interchangeable: lists that hold the same
    pages have the same page image and size, accept the same frees, release and
    roll back the same pages in the same order and then hold the same pages
    again; and one finds room for [n] pages exactly when the other does. *)
Theorem stores_equivalent f g :
  freach f -> freach g -> same_list f g ->
  size f = size g /\
  (forall order room, copyall f order room = copyall g order room) /\
  (forall order txid, both (release f order txid) (release g order txid)) /\
  (forall order b e, both (releaseRange f order b e) (releaseRange g order b e)) /\
  (forall txid, both (plain (rollback f txid)) (plain (rollback g txid))) /\
  (forall txid p, in_use f (free_pages f) p -> both (plain (free f txid p)) (plain (free g txid p))) /\
  (forall pick txid n, picks pick -> 1 <= n ->
     exists f' p g' q, allocate pick f txid n = Ok (f', p) /\ allocate pick g txid n = Ok (g', q) /\ (p = 0 <-> q = 0)).
Proof.
  intros Hf Hg [Ei Ea Ep Ec]. pose proof (freach_inv (R := array_rep) f Hf) as If. pose proof (freach_inv (R := hash_rep) g Hg) as Ig.
  assert (EF : free_pages g = free_pages f) by (unfold free_pages; by rewrite Ei). rewrite EF in Ig.
  destruct f as [l al p c], g as [h al' p' c']. cbn in Ei, Ea, Ep, Ec. subst al' p' c'. set (F := free_pages (mkFL l al p c)) in *. clear EF.
  pose proof (fi_store _ _ If) as Rl. pose proof (fi_store _ _ Ig) as Rh. cbn [store] in Rl, Rh.
  split; [|split; [|split; [|split; [|split; [|split]]]]].
  - unfold size, count, free_count. cbn [store]. rewrite (fl_count (FreeStoreLaws := arrayStore_laws) _ _ Rl), (fl_count (FreeStoreLaws := hashStore_laws) _ _ Rh). done.
  - intros order room. unfold copyall. cbn [store pending]. by rewrite Ei.
  - intros order txid. unfold release. cbn [store allocs pending cache].
    destruct (release_loop_spec order txid p [] (fi_pend _ _ If)) as (p1 & m & -> & Hm & _). cbn [app].
    destruct (same_merge F l h m al p1 c Rl Rh (mv_nodup _ _ _ _ Hm)) as (f1 & g1 & -> & -> & Hs); [|cbn [rbind]; by exists f1, g1, m].
    intros x Hx. destruct (mv_out _ _ _ _ Hm x Hx) as (b & a & Hb & _). split; [by eapply (po_pages _ (fi_pend _ _ If))|by eapply (fi_apart _ _ If)].
  - intros order b e. unfold releaseRange. cbn [store allocs pending cache]. destruct (e <? b); [by eexists _, _, []|].
    destruct (releaseRange_loop_spec order b e p [] (fi_pend _ _ If)) as (p1 & m & -> & Hm). cbn [rbind app].
    destruct (same_merge F l h m al p1 c Rl Rh (mv_nodup _ _ _ _ Hm)) as (f1 & g1 & -> & -> & Hs); [|cbn [rbind]; by exists f1, g1, m].
    intros x Hx. destruct (mv_out _ _ _ _ Hm x Hx) as (b' & a & Hb & _). split; [by eapply (po_pages _ (fi_pend _ _ If))|by eapply (fi_apart _ _ If)].
  - intros txid. unfold rollback. cbn [store allocs pending cache]. destruct (p !! txid) as [txp|] eqn:Et; [|by eexists _, _, tt].
    pose proof (po_len _ (fi_pend _ _ If) _ _ Et) as El. destruct (Z.ltb_spec (len (alloctx txp)) (len (ids txp))); [unfold len in *; lia|].
    destruct (rollback_loop_spec (pairs txp) txid al c []) as (al1 & E). unfold pairs in E at 1. rewrite E. cbn [app].
    set (m := (filter (fun x => x.2 <> 0 /\ x.2 = txid) (pairs txp)).*1).
    assert (Hmp : m `sublist_of` ids txp) by (rewrite <-(pairs_ids txp El); apply fmap_sublist, sublist_filter).
    destruct (same_merge F l h m al1 (delete txid p) (c ∖ list_to_set (pairs txp).*1) Rl Rh) as (f1 & g1 & -> & -> & Hs); [| |by exists f1, g1, tt].
    + eapply sublist_NoDup; [|exact Hmp]. by eapply (po_nodup _ (fi_pend _ _ If)).
    + intros x Hx. eapply elem_of_sublist in Hx; [|exact Hmp]. apply (elem_pairs txp x El) in Hx as (a & Ha).
      assert (Hfb : freed_by p x txid a) by (by exists txp). split; [by eapply (po_pages _ (fi_pend _ _ If))|by eapply (fi_apart _ _ If)].
  - intros txid pg Hu. destruct (free_spec _ _ txid pg If Hu) as (f1 & E & _). unfold free in *. cbn [store allocs pending cache] in *.
    destruct (p_id pg <=? 1); [done|]. destruct (match al !! p_id pg with Some a => _ | None => _ end) as [al1 atx].
    destruct (free_loop _ _ _ _ _) as [[t1 c1]| |]; [|done|done]. cbn [rbind plain]. by eexists _, _, tt.
  - intros pick txid n Hp Hn. destruct (allocate_spec pick _ _ txid n Hp If Hn) as (f1 & q1 & E1 & D1). destruct (allocate_spec pick _ _ txid n Hp Ig Hn) as (g1 & q2 & E2 & D2).
    exists f1, q1, g1, q2. split; [done|]. split; [done|].
    destruct D1 as [(-> & _ & N1)|(H1 & R1 & _)], D2 as [(-> & _ & N2)|(H2 & R2 & _)]; [done|by destruct (N1 q2)|by destruct (N2 q1)|lia].
Qed.

(** ** Reloading *)

(** When a failed transaction reloads the list from a page all of whose
    entries are still pending, the span maps keep them as free pages, because
    reading an empty list changes nothing: every page of the list is then free and
    pending at once, and can be handed out while readers still see it. *)
Theorem hash_reload_overlap FromBytes (f : freelist spans) p f1 :
  read f p = Ok f1 -> free_pages f1 <> ∅ -> (forall id, id ∈ free_pages f1 -> id ∈ pending_set (pending f)) ->
  exists g, reload FromBytes f p false = Ok g /\ free_pages g = free_pages f1 /\ pending g = pending f /\
    forall id, id ∈ free_pages g -> id ∈ pending_set (pending g).
Proof.
  intros E Hne Hall. unfold reload. rewrite E. cbn [rbind]. eexists. split; [done|].
  pose proof (read_pending FromBytes f p false f1 E) as Ep.
  assert (Ew : without_pending f1 (fs_getFreePageIDs (store f1)) = []).
  { unfold without_pending. rewrite Ep. assert (H : forall id, id ∈ fs_getFreePageIDs (store f1) -> id ∈ pending_set (pending f)).
    { intros id Hid. apply Hall. unfold free_pages. by apply elem_of_list_to_set. }
    induction (fs_getFreePageIDs (store f1)) as [|x l IH]; [done|]. rewrite filter_cons_False by (intros Hx; apply Hx, H; by left). apply IH. intros; apply H; by right. }
  rewrite Ew. split; [done|]. split; [exact Ep|]. cbn. rewrite Ep. exact Hall.
Qed.

(** ** Examples *)

Definition pick_least (s : gset Z) : option Z := head (elements s).

Lemma pick_least_picks : picks pick_least.
Proof.
  intros s. unfold pick_least. destruct (elements s) as [|x l] eqn:E; cbn.
  - by apply elements_empty_inv, leibniz_equiv in E.
  - apply elem_of_elements. rewrite E. by left.
Qed.

Definition no_spans : spans := mkSpans ∅ ∅ ∅.
Definition demo_ids : pgids := [3; 4; 7].
Definition demo_list : freelist spans := readIDs (newFreelist no_spans) demo_ids.
Definition demo_array : freelist pgids := readIDs (newFreelist []) demo_ids.

Lemma demo_ids_ok : ssorted demo_ids /\ demo_ids <> [] /\ forall x, x ∈ demo_ids -> 2 <= x.
Proof. split; [repeat constructor; lia|]. split; [done|]. apply Forall_forall. repeat constructor; lia. Qed.

Lemma demo_reach : freach demo_list.
Proof. destruct demo_ids_ok as (H1 & H2 & H3). by constructor. Qed.

Lemma demo_array_reach : freach demo_array.
Proof. destruct demo_ids_ok as (H1 & H2 & H3). by constructor. Qed.

(** The page [id] is freed by transaction 4. *)
Definition demo_page (id : Z) : page := mkPage id 2 0 0 (replicate 200 0).

Lemma demo_in_use {S} `{!FreeStore S} (f : freelist S) id :
  2 <= id -> pending f = ∅ -> id ∉ free_pages f -> in_use f (free_pages f) (demo_page id).
Proof.
  intros H2 Ep Hn. split; [done|]. split; [done|]. cbn. intros x Hx. replace x with id by lia. split; [done|]. intros b a (t & Ht & _).
  by rewrite Ep, lookup_empty in Ht.
Qed.

Definition demo_freed : outcome (freelist spans) := free demo_list 4 (demo_page 9).


Lemma freePages_safe_witness :
  exists f f' m, demo_freed = Ok f /\ freePages f [4] [] [] [5] = Ok (f', m) /\ 9 ∈ free_pages f'.
Proof.
  destruct demo_freed as [f| |] eqn:E; [|vm_compute in E; discriminate E|vm_compute in E; discriminate E].
  assert (Hr : freach f).
  { apply (fr_free demo_list 4 (demo_page 9) f demo_reach); [|exact E]. apply demo_in_use; [lia|reflexivity|].
    apply (bool_decide_unpack (9 ∉ free_pages demo_list)). vm_compute. exact Logic.I. }
  destruct (freePages_safe (R := hash_rep) f [4] [] [] [5] Hr) as (f' & m & E' & _ & _ & Hall & _); [intros r Hr'; apply list_elem_of_singleton in Hr' as ->; done|].
  exists f, f', m. split; [done|]. split; [exact E'|]. apply (Hall 9 4 0); [|by left|done|intros r Hr'; apply list_elem_of_singleton in Hr'; lia].
  unfold demo_freed in E. vm_compute in E. injection E as <-. exists (mkPend [9] [0] 0). split; [reflexivity|by left].
Defined.

Definition demo_to_bytes (s : gset Z) : bytes := put_ids (sort_ids (elements s)).
Definition demo_from_bytes (b : bytes) : option pgids := Some (get_ids (Nat.div (length b) 8) b).

Lemma demo_codec s : (forall x, x ∈ s -> 0 <= x < 18446744073709551616) -> demo_from_bytes (demo_to_bytes s) = Some (sort_ids (elements s)).
Proof.
  intros Hs. unfold demo_from_bytes, demo_to_bytes. f_equal. set (l := sort_ids (elements s)).
  assert (length (put_ids l) = length l * 8)%nat as ->. { pose proof (len_put_ids l) as E. unfold len in E. lia. }
  rewrite Nat.div_mul by lia. apply get_put_ids. intros x Hx. apply Hs. by apply elem_elements_sort.
Qed.

Lemma freelist_page_roundtrip_witness :
  exists p' g, write demo_list [] (demo_page 9) = Ok p' /\ read (newFreelist no_spans) p' = Ok g /\ free_pages g = all_pages demo_list.
Proof.
  destruct (freelist_page_roundtrip (R := hash_rep) demo_to_bytes demo_from_bytes demo_codec demo_list [] (demo_page 9) no_spans) as [(p' & g & E1 & E2 & _ & E3 & _) _].
  - exact demo_reach.
  - unfold visits. vm_compute. constructor.
  - vm_compute. split; reflexivity.
  - intros id Hid. assert (all_pages demo_list = list_to_set demo_ids) as E by (apply (bool_decide_unpack _); vm_compute; exact Logic.I).
    rewrite E in Hid. apply elem_of_list_to_set in Hid. revert id Hid. apply Forall_forall. repeat constructor; lia.
  - vm_compute. discriminate.
  - vm_compute. reflexivity.
  - vm_compute. discriminate.
  - exists p', g. split; [exact E1|]. split; [exact E2|exact E3].
Defined.

Lemma stores_equivalent_witness : size demo_array = size demo_list /\ both (release demo_array [] 3) (release demo_list [] 3).
Proof.
  destruct (stores_equivalent demo_array demo_list demo_array_reach demo_reach) as (H1 & _ & H2 & _).
  - split; reflexivity.
  - split; [exact H1|]. apply H2.
Defined.

(** Pages 3, 4 and 7 are handed out, page 9 is freed while a reader may see it,
    the transaction is committed and a later one fails: its reload makes page 9
    free, and the next allocation takes it. *)
Definition demo_commit : outcome (freelist spans * page) :=
  let! (f, _) := allocate pick_least demo_list 4 2 in
  let! (f, _) := allocate pick_least f 4 1 in
  let! f := free f 4 (demo_page 9) in
  let! p := write f [4] (demo_page 12) in
  Ok (f, p).

Definition demo_state : freelist spans * page := match demo_commit with Ok x => x | _ => (demo_list, demo_page 0) end.

Definition demo_read : freelist spans := match read demo_state.1 demo_state.2 with Ok g => g | _ => demo_list end.

Lemma hash_reload_overlap_witness :
  exists g g', reload (fun _ => None) demo_state.1 demo_state.2 false = Ok g /\ 9 ∈ pending_set (pending g) /\
    allocate pick_least g 6 1 = Ok (g', 9).
Proof.
  assert (E : free_pages demo_read = {[9]}) by (apply (bool_decide_unpack _); vm_compute; exact Logic.I).
  destruct (hash_reload_overlap (fun _ => None) demo_state.1 demo_state.2 demo_read) as (g & Eg & Ef & _ & Hall).
  - vm_compute. reflexivity.
  - rewrite E. intros H. assert (9 ∈ (∅ : gset Z)) as Hbad by (rewrite <-H; by apply elem_of_singleton). by apply elem_of_empty in Hbad.
  - intros id Hid. rewrite E in Hid. apply elem_of_singleton in Hid as ->. apply (bool_decide_unpack _). vm_compute. exact Logic.I.
  - exists g. assert (H9 : 9 ∈ pending_set (pending g)) by (apply Hall; rewrite Ef, E; by apply elem_of_singleton).
    vm_compute in Eg. injection Eg as <-. eexists. split; [vm_compute; reflexivity|]. split; [exact H9|]. vm_compute. reflexivity.
Defined.
