(* ===== verification/SeqDB.v ===== *)
(** The sequential store (sequential_db.go, sequential_flush.go): memtables in
    front of the bitree, without a log.

    Operations run one after the other: a call of [Set] with its
    [makeRoomForWrite], a run of the flush goroutine, a manual flush, a
    compaction, closing and opening.  [flushing] says that a flush is scheduled;
    a writer that waits for room waits for that flush.  The queue holds the
    memtables, the last is the mutable one; the reference counts of the read
    states are those of ReadState. *)

From Stdlib Require Import ZArith Lia.
From stdpp Require Import base numbers option sorting list gmap.
From S2P Require Import Prelude Base Arena Batch Iter MergingIter CompactionIter UserIter Table Meta Skl SklInv MemTable SuperTable SuperTableSpec Bitree BitreeSpec BitreeIter.
Import SuperTable Bitree.

Module SeqDB.

Section Store.
Context (cmp : bytes -> bytes -> Z) {B : Type} `{!Index B}.

Record sequentialDB : Type := mkSeq {
  smeta : Meta.Sequential.sequentialMeta;
  queue : list memTable;
  flushing : bool;
  btree : bitree (B := B);
  memTableSize : Z;
  stopWrites : Z                  (* SequentialMemTableStopWritesThreshold *)
}.

Definition with_smeta s m := mkSeq m (queue s) (flushing s) (btree s) (memTableSize s) (stopWrites s).
Definition with_queue s q := mkSeq (smeta s) q (flushing s) (btree s) (memTableSize s) (stopWrites s).
Definition with_flushing s b := mkSeq (smeta s) (queue s) b (btree s) (memTableSize s) (stopWrites s).
Definition with_btree s t := mkSeq (smeta s) (queue s) (flushing s) t (memTableSize s) (stopWrites s).

(** ** Reads *)

(** The loop of [Get] over the memtables, newest first; [None] when none of
    them answers. *)
Fixpoint get_mems (ms : list memTable) (key : bytes) : outcome (option (outcome bytes)) :=
  match ms with
  | [] => Ok None
  | m :: ms' =>
      let! (a, kind) := mget cmp m key in
      let '(value, found) := a in
      if (found : bool) then
        if (kind =? InternalKey.KindSet) || (kind =? InternalKey.KindPrefixDelete) then Ok (Some (Ok value))
        else if kind =? InternalKey.KindDelete then Ok (Some (Err ErrNotFound))
        else get_mems ms' key
      else get_mems ms' key
  end.

Definition Get (s : sequentialDB) (key : bytes) : outcome bytes :=
  let! r := get_mems (reverse (queue s)) key in
  match r with
  | Some a => a
  | None => let! v := Bitree.Get (btree s) key in match v with Some v => Ok v | None => Err ErrNotFound end
  end.

(** [NewIter]: the memtables, newest first, then the bitree, under one merging
    iterator; [o] and [ix] are the iterator of the index. *)
Definition newIter (lo up : option bytes) (m : memTable) : Iter := mkIter SIterator (sklOps cmp) (Skl.NewIter (skl m) lo up).

Definition NewIter {S : Type} (o : iterOps S) (ix : S) (s : sequentialDB) (lo up : option bytes) : UserIter.Iterator mergingIter :=
  UserIter.newIterator lo up (merging_init lo up
    ((newIter lo up <$> reverse (queue s)) ++ [mkIter (BitreeIter.BitreeIterator (B := B)) (BitreeIter.biOps cmp o) (BitreeIter.NewIter (btree s) ix lo up)])).

(** ** Flushing *)

Definition maybeScheduleFlush (s : sequentialDB) : sequentialDB :=
  if flushing s || (len (queue s) <=? 1) then s else with_flushing s true.

(** The loop of [runFlush]: a pair the flusher refuses is only counted. *)
Fixpoint write_loop {S : Type} (o : iterOps S) (fuel step : nat) (c : compactionIter S) (kv : option entry)
    (t : bitree (B := B)) (f : Flusher) : outcome (compactionIter S * bitree (B := B) * Flusher) :=
  match kv with
  | None => Ok (c, t, f)
  | Some (k, v) =>
      match fuel with
      | O => Err ErrModelFuel
      | Datatypes.S fuel' =>
          let! (t, f) := (match flusherSet t f (InternalKey.UserKey k) v with Err _ => Ok (t, f) | r => r end) in
          let! (c, kv) := cNext cmp o step c in
          write_loop o fuel' step c kv t f
      end
  end.

(** What a [Finish] that fails has done: the pairs are in the table. *)
Definition finished (t : bitree (B := B)) (f : Flusher) : bitree (B := B) :=
  match fst_ f with
  | Some g => match tables t !! g with Some st => with_tables t (<[g := flushFinish st]> (tables t)) | None => t end
  | None => t
  end.

(** The body of [runFlush] behind its iterator: the error is that of [Finish],
    then that of the compaction iterator. *)
Definition write_all {S : Type} (o : iterOps S) (fuel : nat) (s : S) (t : bitree (B := B)) (f1 f2 : list Z)
    : outcome (bitree (B := B) * option error) :=
  let! (c, kv) := cFirst cmp o fuel (newCompactionIter s) in
  let! (ct, f) := write_loop o fuel fuel c kv t (NewFlusher t) in
  let '(c, t) := ct in
  match Finish t f1 f2 f with
  | Ok (t, _) => Ok (t, ci_err c)
  | Err e => Ok (finished t f, Some e)
  | Panic => Panic
  end.

Definition newFlushIter (m : memTable) : Iter := mkIter flushIter (sklFlushOps cmp) (NewFlushIter (skl m) 0).

Definition runFlush (fuel : nat) (flushing : list memTable) (t : bitree (B := B)) (f1 f2 : list Z)
    : outcome (bitree (B := B) * option error) :=
  match flushing with
  | [m] => if mempty m then Ok (t, None) else write_all (itOps (newFlushIter m)) fuel (itSt (newFlushIter m)) t f1 f2
  | _ =>
      match filter (fun m => mempty m = false) flushing with
      | [] => Ok (t, None)
      | ms => write_all (mergingOps cmp fuel) fuel (merging_init None None (newFlushIter <$> ms)) t f1 f2
      end
  end.

(** The memtables before the last that are ready, up to the first that is not. *)
Fixpoint ready (q : list memTable) : nat :=
  match q with
  | m :: ((_ :: _) as q') => if readyForFlush m then Datatypes.S (ready q') else O
  | _ => O
  end.

(** The flush goroutine: an error leaves the queue as it is. *)
Definition flush (fuel : nat) (s : sequentialDB) (f1 f2 : list Z) : outcome sequentialDB :=
  let n := ready (queue s) in
  let! s :=
    (match n with
     | O => Ok s
     | _ =>
         let! (t, err) := runFlush fuel (take n (queue s)) (btree s) f1 f2 in
         let s := with_btree s t in
         Ok (match err with None => with_queue s (drop n (queue s)) | Some _ => s end)
     end) in
  Ok (maybeScheduleFlush (with_flushing s false)).

(** ** Writes *)

Definition set_last (q : list memTable) (m : memTable) : list memTable := take (length q - 1) q ++ [m].

Definition queued_bytes (q : list memTable) : Z := foldr (fun m n => totalBytes m + n) 0 q.

(** The first lines of a turn of [makeRoomForWrite]: whether it returns here. *)
Definition attempt (m : memTable) (newSize : Z) (force : bool) : memTable * option error :=
  if 0 <? newSize then prepareBySize m newSize else (m, if force then Some ErrTableFull else None).

(** The loop of [makeRoomForWrite]; [fuel] bounds its turns.  While a write is
    stalled the scheduled flush runs; without one the wait never ends. *)
Fixpoint makeRoomForWrite (fuel : nat) (ffuel : nat) (s : sequentialDB) (newSize : Z) (force : bool) (f1 f2 : list Z) : outcome sequentialDB :=
  match fuel with
  | O => Err ErrModelFuel
  | Datatypes.S fuel' =>
      match last (queue s) with
      | None => Panic
      | Some m =>
          let '(m, err) := attempt m newSize force in
          let s := with_queue s (set_last (queue s) m) in
          match err with
          | None => Ok s
          | Some _ =>
              if stopWrites s * memTableSize s <=? queued_bytes (queue s) then
                if flushing s then let! s := flush ffuel s f1 f2 in makeRoomForWrite fuel' ffuel s newSize force f1 f2
                else Err ErrModelFuel
              else
                let! new := newMemTable (memTableSize s) 0 in
                let '(imm, zero) := writerUnref m in
                let s := with_queue s (set_last (queue s) imm ++ [new]) in
                let s := if zero : bool then maybeScheduleFlush s else s in
                makeRoomForWrite fuel' ffuel s newSize false f1 f2
          end
      end
  end.

(** [Set]: the result of the addition is returned. *)
Definition Set_ (fuel ffuel : nat) (s : sequentialDB) (key value : bytes) (kind rnd : Z) (f1 f2 : list Z)
    : outcome (sequentialDB * option error) :=
  let newSize := u32 (memTableEntrySize (len key) (len value)) in
  let! (m, seqNum) := Meta.Sequential.getNextSeqNum (smeta s) in
  let s := with_smeta s m in
  let ikey := InternalKey.MakeInternalKey key seqNum kind in
  let! s := makeRoomForWrite fuel ffuel s newSize (newSize =? 0) f1 f2 in
  match last (queue s) with
  | None => Panic
  | Some mem =>
      let! (mem, err) := madd cmp mem rnd ikey value in
      let '(mem, zero) := writerUnref mem in
      let s := with_queue s (set_last (queue s) mem) in
      Ok (if zero : bool then maybeScheduleFlush s else s, err)
  end.

(** [manualAsyncFlush]: the result says whether there is a flush to wait for. *)
Definition manualAsyncFlush (fuel ffuel : nat) (s : sequentialDB) (f1 f2 : list Z) : outcome (sequentialDB * bool) :=
  if forallb mempty (queue s) then Ok (s, false)
  else let! s := makeRoomForWrite fuel ffuel s 0 true f1 f2 in Ok (s, true).

(** [manualFlush] waits until the memtable it sealed is flushed. *)
Definition manualFlush (fuel ffuel : nat) (s : sequentialDB) (f1 f2 g1 g2 : list Z) : outcome sequentialDB :=
  let! (s, wait) := manualAsyncFlush fuel ffuel s f1 f2 in
  if (wait : bool) && flushing s then flush ffuel s g1 g2 else Ok s.

Definition Compact (s : sequentialDB) (key : bytes) (f1 f2 : list Z) : outcome sequentialDB :=
  let! t := CompactTo (btree s) f1 f2 key in Ok (with_btree s t).

(** ** Opening and closing *)

Definition newSequentialDB (mf : option file) (t : bitree (B := B)) (size stop : Z) : outcome sequentialDB :=
  let! m := Meta.Sequential.openSequentialMeta mf in
  let! mem := newMemTable size 0 in
  Ok (mkSeq m [mem] false t size stop).

(** [Close], after the database was marked closed: a scheduled flush ends and no
    further one is scheduled; then every memtable is flushed. *)
Definition Close (ffuel : nat) (s : sequentialDB) (f1 f2 g1 g2 : list Z) : outcome (sequentialDB * option error) :=
  let! s := (if flushing s then let! s := flush ffuel s f1 f2 in Ok (with_flushing s false) else Ok s) in
  let! (t, err) := runFlush ffuel (queue s) (btree s) g1 g2 in
  Ok (with_btree s t, err).

End Store.
End SeqDB.
