(* ===== verification/SeqSpec.v ===== *)
(** What the sequential store promises: while keys arrive in increasing order
    it answers every lookup with the value set, whatever is in memtables and
    whatever was flushed, and only a compaction to a greater key may take a pair
    away.  The second part states what breaks this: entries that no memtable can
    hold, and deletions of keys that were flushed. *)

From Stdlib Require Import ZArith Lia.
From stdpp Require Import base numbers option sorting list gmap.
From S2P Require Import Prelude Base Arena Batch Iter MergingIter CompactionIter Table Meta Skl SklInv MemTable SuperTable SuperTableSpec Bitree BitreeSpec SeqDB.
Import SuperTable Bitree SeqDB.

Abbreviation cmp := bytes_compare (only parsing).

Definition set_entry (n : Z) (x : kv) : entry := (InternalKey.MakeInternalKey x.1 n InternalKey.KindSet, x.2).

Definition kv_of (e : entry) : kv := (InternalKey.UserKey e.1, e.2).

(** Entries the store makes in [Set]. *)
Record seq_entry (e : entry) : Prop := mkSE {
  se_kind : InternalKey.KindOf e.1 = InternalKey.KindSet;
  se_search : searchable e.1;
  se_value : e.2 <> []
}.

(** ** Memtables *)

Record smem (size : Z) (sealed : bool) (m : memTable) (es : list entry) : Prop := mkSmem {
  sm_holds : exists ns, holds cmp (skl m) ns /\ es = entry_of <$> ns;
  sm_len : arena_len (arena (skl m)) = size;
  sm_size : emptySize <= arena_n (arena (skl m)) <= size;
  sm_empty : es = [] <-> arena_n (arena (skl m)) = emptySize;
  sm_refs : writerRefs m = if sealed then 0 else 1
}.

Lemma smem_arena size b m es : smem size b m es -> 0 < size < 4294967296 /\ arenaSize (arena (skl m)) = arena_n (arena (skl m)).
Proof.
  intros [(ns & Hh & _) Hl Hs _ _]. pose proof (i_arena _ _ _ (h_shape _ _ _ Hh)) as [H1 H2]. unfold emptySize in Hs.
  split; [lia|]. unfold arenaSize. destruct (Z.ltb_spec 4294967295 (arena_n (arena (skl m)))); [lia|]. apply u32_small. lia.
Qed.

Lemma smem_mempty size b m es : smem size b m es -> mempty m = bool_decide (es = []).
Proof.
  intros H. destruct (smem_arena _ _ _ _ H) as [_ E]. unfold mempty. rewrite E. change memTableEmptySize with emptySize.
  pose proof (sm_size _ _ _ _ H). pose proof (sm_empty _ _ _ _ H) as He. case_bool_decide as Hb; [apply Z.leb_le; apply He in Hb; lia|].
  apply Z.leb_gt. destruct (decide (arena_n (arena (skl m)) = emptySize)) as [Heq|]; [by apply He in Heq|lia].
Qed.

Lemma smem_total size b m es : smem size b m es -> totalBytes m = size.
Proof.
  intros H. destruct (smem_arena _ _ _ _ H) as [Hs _]. unfold totalBytes, arenaCapacity. rewrite (sm_len _ _ _ _ H). apply u32_small. lia.
Qed.

Lemma smem_reserved size b m es r : smem size b m es -> smem size b (with_reserved m r) es.
Proof. intros []. by split. Qed.

Lemma smem_seal size m es : smem size false m es -> smem size true (writerUnref m).1 es /\ (writerUnref m).2 = true.
Proof. intros []. unfold writerUnref. cbn [fst snd]. rewrite sm_refs0. split; [|done]. split; try done. Qed.

Lemma newMemTable_smem size : emptySize <= size < 4294967296 -> exists m, newMemTable size 0 = Ok m /\ smem size false m [].
Proof.
  intros Hs. destruct (Reset_holds cmp mem_zero size Hs) as (s & E & Hh & _ & Hn & Hl). unfold newMemTable. rewrite E. cbn [rbind].
  eexists. split; [done|]. split; cbn [skl writerRefs]; try done; [by exists []|lia].
Qed.

Lemma prepare_spec size m es n :
  smem size false m es -> 0 < n < 4294967296 ->
  exists r, if decide (arena_n (arena (skl m)) + n <= size) then prepareBySize m n = (writerRef (with_reserved m r), None)
            else prepareBySize m n = (with_reserved m r, Some ErrTableFull).
Proof.
  intros H Hn. destruct (smem_arena _ _ _ _ H) as [Hs Ea]. pose proof (sm_size _ _ _ _ H) as Hsz. unfold emptySize in Hsz.
  unfold prepareBySize, availBytes. rewrite (sm_refs _ _ _ _ H). cbn [Z.eqb Pos.eqb]. cbv zeta. rewrite Ea. cbn [with_reserved reserved].
  fold (totalBytes m). rewrite (smem_total _ _ _ _ H), (u32_small (size - _)) by lia. case_decide as Hd.
  - eexists. destruct (Z.ltb_spec (size - arena_n (arena (skl m))) n); [lia|done].
  - eexists. destruct (Z.ltb_spec (size - arena_n (arena (skl m))) n); [done|lia].
Qed.

Lemma klt_user a b : cmp (InternalKey.UserKey a) (InternalKey.UserKey b) < 0 -> klt cmp a b.
Proof. unfold klt, InternalKey.InternalCompare. intros H. destruct (Z.eqb_spec (cmp (InternalKey.UserKey a) (InternalKey.UserKey b)) 0); [lia|done]. Qed.

Definition room_of (x : kv) : Z := maxNodeSize + InternalKey.Size (InternalKey.MakeInternalKey x.1 0 InternalKey.KindSet) + len x.2 + align4.

Lemma madd_spec size b m es n x rnd :
  smem size b m es -> arena_n (arena (skl m)) + room_of x <= size -> 0 <= n <= InternalKey.SeqNumMax -> len x.1 + 8 < 2147483648 ->
  Forall (fun e => cmp (InternalKey.UserKey e.1) x.1 < 0) es ->
  exists m', madd cmp m rnd (set_entry n x).1 x.2 = Ok (m', None) /\ m' = with_skl m (skl m') /\ smem size b m' (es ++ [set_entry n x]).
Proof.
  intros H Hr Hn Hk Hlt. destruct (sm_holds _ _ _ _ H) as (ns & Hh & Ees). destruct (smem_arena _ _ _ _ H) as [Hs _].
  pose proof (sm_size _ _ _ _ H) as Hsz. pose proof (sm_len _ _ _ _ H) as Hl. unfold emptySize in Hsz.
  set (k := (set_entry n x).1). assert (Hkl : Forall (fun a => klt cmp (a_key a) k) ns).
  { rewrite Ees, Forall_fmap in Hlt. eapply Forall_impl; [exact Hlt|]. intros a Ha. by apply klt_user. }
  assert (Hsize : InternalKey.Size k = InternalKey.Size (InternalKey.MakeInternalKey x.1 0 InternalKey.KindSet)) by done.
  unfold room_of in Hr. pose proof (len_nonneg x.2).
  destruct (mem_entry_key n (Batch.OpSet x.1 x.2)) as [Hko _]; [|done|].
  { split; [|done]. unfold maxNodeSize, align4, InternalKey.Size in Hr. cbn [InternalKey.UserKey InternalKey.MakeInternalKey] in Hr.
    unfold maxHeight, linksSize in Hr. pose proof (len_nonneg x.1). unfold op_ok. cbn [op_key op_value]. lia. }
  destruct (addInternal_absent cmp (skl m) ns zeroInserter k x.2 (randomHeight rnd)) as (s' & ins' & e & E & _ & _ & _ & Hl' & Hfit & _); try done.
  { apply zeroInserter_ok. apply (i_height _ _ _ (h_shape _ _ _ Hh)). }
  { eapply Forall_impl; [exact Hkl|]. intros a Ha Ea. cbv beta in Ha.
    rewrite Ea in Ha. by apply (klt_irrefl cmp) in Ha. }
  { apply randomHeight_range. } { rewrite Hsize. lia. }
  destruct Hfit as (-> & B & A & z & Hsp & Zk & Zv & Hh' & _ & Hn'); [unfold SklInv.fits; rewrite Hsize; lia|].
  assert (A = []) as ->.
  { destruct A as [|a A]; [done|]. exfalso. pose proof (s_above _ _ _ _ _ Hsp) as Ha. apply Forall_inv in Ha. apply Ha.
    rewrite Forall_forall in Hkl. apply Hkl. rewrite (s_app _ _ _ _ _ Hsp). apply elem_of_app. right. left. }
  pose proof (s_app _ _ _ _ _ Hsp) as EB. rewrite app_nil_r in EB. subst B.
  unfold madd, Add. rewrite E. cbn [rbind fst]. exists (with_skl m s'). split; [done|]. split; [done|].
  split; cbn [skl with_skl writerRefs].
  - exists (ns ++ [z]). split; [done|]. rewrite fmap_app, Ees. f_equal. cbn. unfold entry_of. by rewrite Zk, Zv.
  - congruence.
  - rewrite Hsize in Hn'. unfold emptySize. lia.
  - split; [intros Hx; by destruct es|]. unfold emptySize. lia.
  - apply H.
Qed.

(** ** Lookups in memtables *)

Lemma kv_get_app a b k : kv_get (a ++ b) k = if decide (k ∈ a.*1) then kv_get a k else kv_get b k.
Proof.
  induction a as [|x a IH]; cbn [app kv_get]; [done|]. rewrite fmap_cons. destruct (decide (x.1 = k)) as [<-|Hne].
  - destruct (decide (x.1 ∈ x.1 :: a.*1)) as [|Hn]; [done|]. destruct Hn. left.
  - rewrite IH. destruct (decide (k ∈ a.*1)) as [Hin|Hnin]; [rewrite decide_True; [done|by right]|].
    rewrite decide_False; [done|]. intros [?|?]%elem_of_cons; congruence.
Qed.

Lemma kv_get_absent a k : k ∉ a.*1 -> kv_get a k = None.
Proof.
  induction a as [|x a IH]; [done|]. rewrite fmap_cons. intros [Hne Hn]%not_elem_of_cons. cbn [kv_get].
  destruct (decide (x.1 = k)); [congruence|]. by apply IH.
Qed.

(** Of two parts of an ordered list at most one holds a key. *)
Lemma kv_sorted_disjoint a b k : kv_sorted (a ++ b) -> k ∈ a.*1 -> k ∉ b.*1.
Proof.
  intros Hs (x & -> & Hx)%list_elem_of_fmap_1 (y & E & Hy)%list_elem_of_fmap_1.
  pose proof (StronglySorted_app_1_elem_of _ _ _ x y Hs Hx Hy) as Hlt. cbv beta in Hlt. rewrite E, (cmp_refl cmp) in Hlt. lia.
Qed.

Lemma mget_spec size b m es k :
  smem size b m es -> Forall seq_entry es -> kv_sorted (kv_of <$> es) ->
  mget cmp m k = Ok (match kv_get (kv_of <$> es) k with Some v => (v, true, InternalKey.KindSet) | None => ([], false, InternalKey.KindInvalid) end).
Proof.
  intros H He Hs. destruct (sm_holds _ _ _ _ H) as (ns & Hh & ->). unfold mget. rewrite (Get_spec cmp (skl m) ns k Hh).
  2: { rewrite Forall_fmap in He. eapply Forall_impl; [exact He|]. intros a Ha. apply (se_search _ Ha). }
  f_equal. unfold newest. clear H Hh. set (es := entry_of <$> ns) in *. clearbody es. clear Hs.
  induction He as [|e es [Hk _ Hv] He IH]; [done|]. rewrite fmap_cons, filter_cons. cbn [kv_get kv_of fst snd].
  destruct (decide (InternalKey.UserKey e.1 = k)) as [<-|Hne]; [|done]. cbn [head]. destruct e as [ik v]. cbn [answer fst snd] in *.
  rewrite Hk. cbn. by rewrite decide_False.
Qed.

Lemma get_mems_spec size ms ess k :
  Forall2 (fun m es => exists b, smem size b m es) ms ess -> Forall seq_entry (concat ess) -> kv_sorted (kv_of <$> concat ess) ->
  get_mems cmp (reverse ms) k = Ok (Ok <$> kv_get (kv_of <$> concat ess) k).
Proof.
  revert ess. induction ms as [|m ms IH] using rev_ind; intros ess H He Hs.
  { apply Forall2_nil_inv_l in H as ->. done. }
  apply Forall2_app_inv_l in H as (ess' & ess2 & H & Hm & ->). apply Forall2_cons_inv_l in Hm as (es & ess3 & (b & Hm) & ->%Forall2_nil_inv_l & ->).
  rewrite concat_app in *. cbn [concat] in *. rewrite app_nil_r, fmap_app in *. apply Forall_app in He as [He1 He2].
  rewrite reverse_app. cbn [reverse rev_append app get_mems].
  rewrite (mget_spec size b m es k Hm He2) by (by eapply StronglySorted_app_1_r). cbn [rbind]. rewrite kv_get_app.
  destruct (decide (k ∈ (kv_of <$> concat ess').*1)) as [Hin|Hnin].
  - rewrite (kv_get_absent (kv_of <$> es)) by (by eapply kv_sorted_disjoint). apply IH; [done|done|]. by eapply StronglySorted_app_1_l.
  - destruct (kv_get (kv_of <$> es) k) as [v|]; [done|]. rewrite (IH ess' H He1) by (by eapply StronglySorted_app_1_l).
    by rewrite kv_get_absent.
Qed.

(** ** Flushing memtables *)

Lemma newest_from_id last l :
  kv_sorted (kv_of <$> l) -> (forall k, last = Some k -> Forall (fun e => cmp k (InternalKey.UserKey e.1) < 0) l) ->
  newest_from cmp last l = l.
Proof.
  revert last. induction l as [|e l IH]; intros last Hs Hl; [done|]. rewrite fmap_cons in Hs. apply StronglySorted_inv in Hs as [Hs Hf].
  rewrite Forall_fmap in Hf. cbn [newest_from].
  destruct last as [k|].
  - specialize (Hl k eq_refl). apply Forall_inv in Hl. unfold same_key. destruct (Z.eqb_spec (cmp k (InternalKey.UserKey e.1)) 0); [lia|].
    f_equal. apply IH; [done|]. by intros ? [= <-].
  - f_equal. apply IH; [done|]. by intros ? [= <-].
Qed.

Section Flush.
Context {B : Type} {I : Index B} {ixwf : B -> Prop} `{!IndexLaws I ixwf}.
Implicit Types (t : bitree (B := B)) (s : sequentialDB (B := B)).

(** The loop writes what the compaction iterator yields. *)
Lemma write_loop_spec {S} (o : iterOps S) R `{!ForwardLaws o R} step fuel (c : compactionIter S) l p e t f t' f' :
  Forall flushable_kind l -> (length l < step)%nat -> CompactionIter.stands R c l p -> lookupZ l p = Some e ->
  ci_skip c = true -> ci_key c = e.1 -> (length (drop (Z.to_nat p) l) <= fuel)%nat ->
  flush_sets t f (kv_of <$> e :: newest_from cmp (Some (InternalKey.UserKey e.1)) (drop (Z.to_nat (p + 1)) l)) = Ok (t', f') ->
  exists c', write_loop cmp o fuel step c (Some e) t f = Ok (c', t', f') /\ ci_err c' = None.
Proof.
  intros Hk Hstep. revert c p e t f. induction fuel as [|fuel IH]; intros c p e t f Hst E Hs Hkey Hf Hfl;
    rewrite (drop_lookupZ _ _ _ E) in Hf; cbn [length] in Hf; [lia|]. cbn [write_loop]. destruct e as [k v].
  rewrite fmap_cons in Hfl. cbn [flush_sets kv_of fst snd] in Hfl. apply rbind_Ok in Hfl as ([t1 f1] & E1 & Hfl). rewrite E1. cbn [rbind].
  destruct (cNext_stands cmp o R step c l p (k, v)) as (c' & q & -> & Hst' & Hpq & En & Hc'); try done. cbn [rbind].
  cbn [fst] in En. rewrite En in Hfl. pose proof (lookupZ_is_Some _ _ _ E). destruct (lookupZ l q) as [e'|] eqn:Eq.
  - destruct (Hc' e' eq_refl) as [H1 H2]. apply (IH c' q e'); try done. rewrite length_drop in *. lia.
  - cbn in Hfl. injection Hfl as <- <-. destruct fuel; cbn [write_loop]; exists c'; (split; [done|]); apply Hst'.
Qed.

(** A flush of a source with distinct keys hands all of them to the bitree. *)
Lemma source_flush_spec {S} (o : iterOps S) R `{!ForwardLaws o R} fuel st l p t f1 f2 t' :
  R st l p -> Forall seq_entry l -> kv_sorted (kv_of <$> l) -> (length l < fuel)%nat -> Bitree.flush t f1 f2 (kv_of <$> l) = Ok t' ->
  write_all cmp o fuel st t f1 f2 = Ok (t', None).
Proof.
  intros HR He Hs Hf Hfl. assert (Hk : Forall flushable_kind l) by (eapply Forall_impl; [exact He|]; intros e He'; left; apply He').
  unfold write_all. destruct (cFirst_stands cmp o R fuel st l p HR Hk) as (c & -> & Hst & En & Hc). cbn [rbind].
  unfold CompactionIter.newest in En. rewrite (newest_from_id None l Hs) in En by done. unfold Bitree.flush in Hfl. apply rbind_Ok in Hfl as ([t1 g] & E1 & Hfl).
  apply rbind_Ok in Hfl as ([t2 g2] & E2 & [= ->]). rewrite En in E1. destruct (lookupZ l 0) as [e|] eqn:E.
  - destruct (Hc e eq_refl) as [H1 H2].
    destruct (write_loop_spec o R fuel fuel c l 0 e t (NewFlusher t) t1 g Hk Hf Hst E H1 H2) as (c' & -> & Herr); [rewrite drop_0; lia|done|].
    cbn [rbind]. by rewrite E2, Herr.
  - cbn in E1. injection E1 as <- <-. destruct fuel; [lia|]. cbn [write_loop rbind]. rewrite E2. f_equal. f_equal. apply Hst.
Qed.

Lemma newFlushIter_walks size b m es : smem size b m es -> walks (newFlushIter cmp m) es (-1).
Proof.
  intros H. destruct (sm_holds _ _ _ _ H) as (ns & Hh & ->). eexists. split; [apply sklFlushOps_laws|]. exists ns. split; [done|].
  by apply (NewIter_stands cmp).
Qed.

Lemma join_concat {A} (ls : list (list A)) : mjoin ls = concat ls.
Proof. induction ls as [|l ls IH]; [done|]. cbn. by rewrite <-IH. Qed.

Lemma nonempty_walks size ms ess :
  Forall2 (fun m es => exists b, smem size b m es) ms ess ->
  Forall2 (fun i l => walks i l (-1)) (newFlushIter cmp <$> filter (fun m => mempty m = false) ms) (filter (fun es => es <> []) ess) /\
  concat (filter (fun es : list entry => es <> []) ess) = concat ess.
Proof.
  induction 1 as [|m es ms ess (b & Hm) _ [IH1 IH2]]; [split; [constructor|done]|].
  rewrite !filter_cons. rewrite (smem_mempty _ _ _ _ Hm). case_bool_decide as He.
  - subst es. rewrite decide_False by done. destruct (decide ([] <> [])) as [Hx|]; [by destruct Hx|]. by split.
  - rewrite decide_True by done. destruct (decide (es <> [])); [|tauto]. rewrite fmap_cons. cbn [concat]. rewrite IH2. split; [|done].
    constructor; [by eapply newFlushIter_walks|done].
Qed.

Lemma entries_sorted_kv l : kv_sorted (kv_of <$> l) -> sorted_entries cmp l.
Proof.
  unfold kv_sorted, sorted_entries. induction l as [|e l IH]; intros H; [constructor|]. rewrite fmap_cons in H.
  apply StronglySorted_inv in H as [Hs Hf]. rewrite Forall_fmap in Hf. constructor; [by apply IH|].
  eapply Forall_impl; [exact Hf|]. intros x Hx. by apply klt_user.
Qed.

Lemma sorted_parts ess : kv_sorted (kv_of <$> concat ess) -> Forall (sorted_entries cmp) ess.
Proof.
  induction ess as [|es ess IH]; intros H; [constructor|]. cbn [concat] in H. rewrite fmap_app in H. constructor.
  - apply entries_sorted_kv. by eapply StronglySorted_app_1_l.
  - apply IH. by eapply StronglySorted_app_1_r.
Qed.

(** A flush of memtables hands all their pairs to the bitree. *)
Lemma runFlush_writes size fuel ms ess t f1 f2 t' :
  Forall2 (fun m es => exists b, smem size b m es) ms ess -> Forall seq_entry (concat ess) -> kv_sorted (kv_of <$> concat ess) ->
  (length (concat ess) < fuel)%nat -> concat ess <> [] -> Bitree.flush t f1 f2 (kv_of <$> concat ess) = Ok t' ->
  runFlush cmp fuel ms t f1 f2 = Ok (t', None).
Proof.
  intros HF He Hs Hf Hne Hfl. destruct (nonempty_walks size ms ess HF) as [Hw Hc].
  assert (Hmerge : runFlush cmp fuel ms t f1 f2 =
    write_all cmp (mergingOps cmp fuel) fuel (merging_init None None (newFlushIter cmp <$> filter (fun m => mempty m = false) ms)) t f1 f2 ->
    runFlush cmp fuel ms t f1 f2 = Ok (t', None)).
  { intros ->. apply (source_flush_spec _ (merges cmp) fuel _ (concat ess) (-1)); try done.
    apply (merging_init_merges cmp None None _ (filter (fun es => es <> []) ess)); try done.
    - apply sorted_parts. by rewrite Hc.
    - by apply entries_sorted_kv.
    - by rewrite join_concat, Hc. }
  assert (Hsome : filter (fun m => mempty m = false) ms <> []).
  { intros E. rewrite E in Hw. apply Forall2_nil_inv_l in Hw. rewrite Hw in Hc. by rewrite <-Hc in Hne. }
  destruct HF as [|m es ms1 ess1 (b & Hm) [|m' es' ms2 ess2 Hm' HF]].
  - done.
  - cbn [concat] in *. rewrite app_nil_r in *. cbn [runFlush]. rewrite (smem_mempty _ _ _ _ Hm), bool_decide_false by done.
    destruct (newFlushIter_walks _ _ _ _ Hm) as (R & HR & Hst). by apply (source_flush_spec _ R fuel _ es (-1)).
  - apply Hmerge. cbn [runFlush]. by destruct (filter _ _).
Qed.

Lemma runFlush_spec size kl fuel ms ess t dropped gs fm es fk cs f1 f2 :
  Forall2 (fun m es => exists b, smem size b m es) ms ess -> Forall seq_entry (concat ess) ->
  kv_sorted (fk ++ (kv_of <$> concat ess)) -> (length (concat ess) < fuel)%nat ->
  rinv (ixwf := ixwf) kl t dropped gs fm es fk cs -> SuperTable.fits kl (fk ++ (kv_of <$> concat ess)) ->
  Forall (fun x => bytes_compare x.1 BdbMaxKey < 0) (kv_of <$> concat ess) -> Meta.Bitree.nextFileNum (Bitree.meta t) < 4294967296 ->
  exists t' dropped' gs' fm' es', runFlush cmp fuel ms t f1 f2 = Ok (t', None) /\
    rinv (ixwf := ixwf) kl t' dropped' gs' fm' es' (fk ++ (kv_of <$> concat ess)) cs /\
    Meta.Bitree.nextFileNum (Bitree.meta t') <= Meta.Bitree.nextFileNum (Bitree.meta t) + Z.min 1 (len (concat ess)).
Proof.
  intros HF He Hs Hf Hr Hfit Hb Hn. destruct (decide (concat ess = [])) as [E|Hne].
  - rewrite E. cbn [fmap list_fmap]. rewrite app_nil_r. exists t, dropped, gs, fm, es. split; [|split; [done|change (len (@nil entry)) with 0; lia]].
    destruct (nonempty_walks size ms ess HF) as [Hw Hc]. rewrite E in Hc.
    assert (Hm : filter (fun m => mempty m = false) ms = []).
    { destruct (filter (fun m => mempty m = false) ms) eqn:Em; [done|]. rewrite fmap_cons in Hw.
      destruct (filter (fun es => es <> []) ess) as [|x l'] eqn:Ex; [by inversion Hw|]. exfalso.
      assert (Hx : x ∈ filter (fun es => es <> []) ess) by (rewrite Ex; left).
      apply list_elem_of_filter in Hx as [Hx _]. cbn in Hc. by destruct x. }
    destruct ms as [|m [|m' ms]]; cbn [runFlush]; rewrite ?Hm; try done.
    rewrite filter_cons in Hm. destruct (mempty m); [done|]. by rewrite decide_True in Hm.
  - destruct (bstep_spec kl t dropped gs fm es fk cs (BFlush f1 f2 (kv_of <$> concat ess)) Hr) as (t' & d' & gs' & fm' & es' & E & Hr' & Hn');
      unfold flushed, compacted in *; cbn [fmap list_fmap concat app] in *; rewrite ?app_nil_r in *; try done.
    assert (1 <= len (concat ess)) by (destruct (concat ess) as [|x l]; [done|]; rewrite len_cons; pose proof (len_nonneg l); lia).
    exists t', d', gs', fm', es'. split; [|split; [done|lia]]. eapply (runFlush_writes size); try done. by eapply StronglySorted_app_1_r.
Qed.

(** ** Sequence numbers *)

(** The stored number is at most one gap ahead of those handed out. *)
Record seqmeta_ok (m : Meta.Sequential.sequentialMeta) : Prop := mkSM {
  sq_file : f_size (Meta.Sequential.sfile m) = Meta.metaLen;
  sq_num : 0 <= Meta.Sequential.seqNum m;
  sq_stored : exists b, Meta.Sequential.getSeqNum (Meta.Sequential.sfile m) = Ok b /\ 0 <= b <= Meta.Sequential.seqNum m + 262144
}.

Lemma getNextSeqNum_ok m :
  seqmeta_ok m -> Meta.Sequential.seqNum m < 18446744073708000000 ->
  exists m', Meta.Sequential.getNextSeqNum m = Ok (m', Meta.Sequential.seqNum m + 1) /\ seqmeta_ok m' /\
    Meta.Sequential.seqNum m' = Meta.Sequential.seqNum m + 1.
Proof.
  intros [Hf Hs (b & Hb & Hbr)] Hlt. unfold Meta.Sequential.getNextSeqNum. rewrite u64_small by lia. case_match.
  - unfold Meta.Sequential.writeUint64. cbn [Meta.Sequential.sfile]. change Meta.Sequential.smetaFieldNumberGap with 262144. rewrite u64_small by lia.
    destruct (Meta.read_write_same (Meta.Sequential.sfile m) (Meta.Sequential.seqNum m + 1 + 262144) Meta.Sequential.smetaFieldSeqNumOffset)
      as (f & -> & Hf' & Hr & _); [lia|by rewrite Hf|]. cbn [rbind]. eexists. split; [reflexivity|]. split; [|done].
    split; cbn [Meta.Sequential.sfile Meta.Sequential.seqNum]; [congruence|lia|]. eexists. split; [exact Hr|lia].
  - eexists. split; [done|]. split; [|done]. split; cbn [Meta.Sequential.sfile Meta.Sequential.seqNum]; [done|lia|]. exists b. split; [done|lia].
Qed.

Lemma openMeta_ok f b :
  f_size f = Meta.metaLen -> Meta.Sequential.getSeqNum f = Ok b -> 0 <= b < 18446744073708000000 ->
  exists m, Meta.Sequential.openSequentialMeta (Some f) = Ok m /\ seqmeta_ok m /\ Meta.Sequential.seqNum m = b + 262144.
Proof.
  intros Hf Hb Hr. unfold Meta.Sequential.openSequentialMeta. rewrite Hf, Hb.
  assert (Meta.ReadUInt16At f Meta.metaHeaderOffset = Ok (le_get (mem_read (f_mem f) Meta.metaHeaderOffset 2))) as ->
    by (unfold Meta.ReadUInt16At; by rewrite Hf).
  change Meta.Sequential.smetaFieldNumberGap with 262144. cbn [rbind Meta.metaLen Z.add Pos.add Pos.succ Z.eqb]. rewrite u64_small by lia.
  eexists. split; [done|]. split; [|done]. split; cbn [Meta.Sequential.sfile Meta.Sequential.seqNum]; [done|lia|]. exists b. split; [done|lia].
Qed.

(** ** The invariant of the store *)

Context (size stop kl : Z).
Hypothesis Hsize : emptySize <= size < 4294967296.
Hypothesis Hstop : 2 <= stop.
Hypothesis Hkl : 0 < kl <= 32768.

Definition nextFn s : Z := Meta.Bitree.nextFileNum (Bitree.meta (btree s)).

(** The pairs in the bitree ([fk]), in sealed memtables ([ess]) and in the
    mutable one ([cur]); [cs] are the keys of the compactions. *)
Record sinv s (fk : list kv) (ess : list (list entry)) (cur : list entry) (cs : list bytes) : Prop := mkSinv {
  si_queue : exists ms m, queue s = ms ++ [m] /\ Forall2 (smem size true) ms ess /\ smem size false m cur;
  si_entries : Forall seq_entry (concat ess ++ cur);
  si_tree : exists dropped gs fm es, rinv (ixwf := ixwf) kl (btree s) dropped gs fm es fk cs;
  si_flushing : flushing s = bool_decide (ess <> []);
  si_meta : seqmeta_ok (smeta s);
  si_mem : memTableSize s = size;
  si_stop : stopWrites s = stop
}.

Definition total (fk : list kv) (ess : list (list entry)) (cur : list entry) : list kv := fk ++ (kv_of <$> concat ess ++ cur).

(** Pairs the store can take: keys of the fixed length [kl], increasing and below
    ff ff ff ff, where the index of the bitree ends; less than 4 GiB of them in
    all ([SuperTable.fits]); values that are not empty, since a lookup in a
    super table takes an empty value for none; and each pair small enough for
    an empty memtable, since [Set] never returns otherwise
    ([oversized_set_never_returns]). *)
Record good (kvs : list kv) : Prop := mkGood {
  go_fits : SuperTable.fits kl kvs;
  go_sorted : kv_sorted kvs;
  go_below : Forall (fun x => cmp x.1 BdbMaxKey < 0) kvs;
  go_each : Forall (fun x => x.2 <> [] /\ emptySize + room_of x <= size) kvs
}.

Lemma good_app_l a b : good (a ++ b) -> good a.
Proof.
  intros [H1 H2 H3 H4]. apply Forall_app in H3 as [H3 _]. apply Forall_app in H4 as [H4 _].
  split; [eapply fits_app_l; [lia|done]|by eapply kv_sorted_app_l|done|done].
Qed.

Lemma smem_any b ms ess : Forall2 (smem size b) ms ess -> Forall2 (fun m es => exists b, smem size b m es) ms ess.
Proof. intros H. eapply Forall2_impl; [exact H|]. eauto. Qed.

Lemma ready_spec ms m ess : Forall2 (smem size true) ms ess -> ready (ms ++ [m]) = length ms.
Proof.
  induction 1 as [|m' es ms ess Hm _ IH]; [done|]. cbn [app ready length]. destruct (ms ++ [m]) as [|x q] eqn:E; [by destruct ms|].
  unfold readyForFlush. rewrite (sm_refs _ _ _ _ Hm). change (0 =? 0) with true. cbv iota.
  by rewrite IH.
Qed.

(** With one memtable nothing is scheduled. *)
Lemma schedule_one s m : queue s = [m] -> maybeScheduleFlush s = s.
Proof. intros E. unfold maybeScheduleFlush. rewrite E. by rewrite orb_true_r. Qed.

Lemma seq_flush_spec s fk ess cur cs fuel f1 f2 :
  sinv s fk ess cur cs -> good (total fk ess cur) -> (length (total fk ess cur) < fuel)%nat -> nextFn s < 4294967296 ->
  exists s', flush cmp fuel s f1 f2 = Ok s' /\ sinv s' (fk ++ (kv_of <$> concat ess)) [] cur cs /\
    nextFn s' <= nextFn s + Z.min 1 (len (concat ess)) /\ smeta s' = smeta s /\ last (queue s') = last (queue s).
Proof.
  intros [(ms & m & Hq & Hms & Hm) He (d & gs & fm & es & Hr) Hfl Hme Hmem Hst] Hg Hfu Hn.
  unfold total in *. rewrite fmap_app, app_assoc in Hg. apply good_app_l in Hg as [G1 G2 G3 _]. apply Forall_app in G3 as [_ G3].
  rewrite length_app, length_fmap, length_app in Hfu. apply Forall_app in He as [He1 He2].
  destruct (runFlush_spec size kl fuel ms ess (btree s) d gs fm es fk cs f1 f2 (smem_any _ _ _ Hms) He1 G2 ltac:(lia) Hr G1 G3 Hn)
    as (t' & d' & gs' & fm' & es' & E & Hr' & Hn').
  unfold flush. rewrite Hq, (ready_spec ms m ess Hms). rewrite take_app_length, E. destruct (length ms) as [|k] eqn:El.
  - apply length_zero_iff_nil in El as ->. apply Forall2_nil_inv_l in Hms as ->. cbn [runFlush] in E. injection E as <-.
    cbn [rbind]. rewrite (schedule_one _ m) by done. eexists. split; [done|].
    split; [|split; [unfold nextFn; cbn [btree with_flushing]; lia|split; [done|cbn; by rewrite Hq]]].
    split; cbn; try done; [exists [], m; eauto|eauto 10].
  - cbn [rbind queue with_btree]. rewrite <-El, Hq, drop_app_length. rewrite (schedule_one _ m) by done. eexists. split; [done|].
    split; [|split; [exact Hn'|split; [done|by rewrite last_snoc]]]. split; cbn; try done; [exists [], m; eauto|eauto 10].
Qed.

(** ** Making room *)

Lemma set_last_snoc ms m m' : set_last (ms ++ [m]) m' = ms ++ [m'].
Proof. unfold set_last. rewrite length_app. cbn [length]. rewrite Nat.add_sub. by rewrite take_app_length. Qed.

Lemma queued_bytes_spec ms m ess cur :
  Forall2 (smem size true) ms ess -> smem size false m cur -> queued_bytes (ms ++ [m]) = size * (len ess + 1).
Proof.
  intros H Hm. induction H as [|m' es ms ess Hm' _ IH].
  - unfold queued_bytes. cbn [app foldr].
    rewrite (smem_total _ _ _ _ Hm). change (len (@nil (list entry))) with 0. lia.
  - unfold queued_bytes in *. cbn [app foldr]. rewrite IH, (smem_total _ _ _ _ Hm'), len_cons. lia.
Qed.

Lemma sinv_same_mem s fk ess cur cs ms m m' :
  sinv s fk ess cur cs -> queue s = ms ++ [m] -> smem size false m' cur -> sinv (with_queue s (ms ++ [m'])) fk ess cur cs.
Proof.
  intros [(ms0 & m0 & Hq & Hms & Hm) ? ? ? ? ? ?] E Hm'. rewrite E in Hq. apply app_inj_tail in Hq as [<- <-].
  split; cbn [queue with_queue flushing btree smeta memTableSize stopWrites]; try done. by exists ms, m'.
Qed.

(** A turn that finds the table full, below the limit: a new memtable. *)
Lemma turn_rotate s fk ess cur cs ms m m' e n force fuel ffuel f1 f2 :
  sinv s fk ess cur cs -> queue s = ms ++ [m] -> attempt m n force = (m', Some e) -> smem size false m' cur -> len ess + 1 < stop ->
  exists s' mn, makeRoomForWrite cmp (S fuel) ffuel s n force f1 f2 = makeRoomForWrite cmp fuel ffuel s' n false f1 f2 /\
    sinv s' fk (ess ++ [cur]) [] cs /\ btree s' = btree s /\ smeta s' = smeta s /\ last (queue s') = Some mn /\ newMemTable size 0 = Ok mn.
Proof.
  intros Hi Hq Ha Hm' Hst. cbn [makeRoomForWrite]. rewrite Hq, last_snoc, Ha. cbv zeta. rewrite set_last_snoc.
  pose proof (sinv_same_mem _ _ _ _ _ _ _ _ Hi Hq Hm') as [(ms0 & m0 & Hq0 & Hms & _) He Ht Hf Hme Hmm Hss].
  cbn [queue with_queue flushing btree smeta memTableSize stopWrites] in *. apply app_inj_tail in Hq0 as [<- <-].
  rewrite Hmm, Hss, (queued_bytes_spec ms m' ess cur Hms Hm'). unfold emptySize in Hsize.
  destruct (Z.leb_spec (stop * size) (size * (len ess + 1))); [nia|].
  destruct (newMemTable_smem size) as (mn & En & Hmn); [unfold emptySize; lia|]. rewrite En. cbn [rbind].
  destruct (smem_seal _ _ _ Hm') as [Hsl Hz]. destruct (writerUnref m') as [imm zero]. cbn [fst snd] in Hsl, Hz. subst zero.
  rewrite set_last_snoc. eexists _, mn. split; [reflexivity|].
  assert (Hq2 : 1 < len ((ms ++ [imm]) ++ [mn])) by (rewrite !len_app; pose proof (len_nonneg ms); unfold len in *; cbn; lia).
  set (s2 := with_queue (with_queue s (ms ++ [m'])) ((ms ++ [imm]) ++ [mn])).
  assert (E : maybeScheduleFlush s2 = with_flushing s2 true).
  { unfold maybeScheduleFlush. destruct (flushing s2) eqn:Ef; [destruct s2; cbn in *; by subst|]. cbn [s2 queue with_queue orb].
    destruct (Z.leb_spec (len ((ms ++ [imm]) ++ [mn])) 1); [lia|done]. }
  rewrite E. split; [|do 2 (split; [done|]); split; [cbn; by rewrite last_snoc|done]].
  split; cbn [s2 queue with_queue with_flushing flushing btree smeta memTableSize stopWrites]; try done.
  - exists (ms ++ [imm]), mn. split; [done|]. split; [|done]. apply Forall2_app; [done|]. constructor; [done|constructor].
  - rewrite concat_app. cbn [concat]. by rewrite !app_nil_r.
  - symmetry. apply bool_decide_eq_true. by destruct ess.
Qed.

(** A turn at the limit waits for the flush. *)
Lemma turn_stall s fk ess cur cs ms m m' e n force fuel ffuel f1 f2 :
  sinv s fk ess cur cs -> good (total fk ess cur) -> (length (total fk ess cur) < ffuel)%nat -> nextFn s < 4294967296 ->
  queue s = ms ++ [m] -> attempt m n force = (m', Some e) -> smem size false m' cur -> stop <= len ess + 1 ->
  exists s', makeRoomForWrite cmp (S fuel) ffuel s n force f1 f2 = makeRoomForWrite cmp fuel ffuel s' n force f1 f2 /\
    sinv s' (fk ++ (kv_of <$> concat ess)) [] cur cs /\ nextFn s' <= nextFn s + Z.min 1 (len (concat ess)) /\ smeta s' = smeta s /\
    last (queue s') = Some m'.
Proof.
  intros Hi Hg Hfu Hn Hq Ha Hm' Hst. cbn [makeRoomForWrite]. rewrite Hq, last_snoc, Ha. cbv zeta. rewrite set_last_snoc.
  pose proof (sinv_same_mem _ _ _ _ _ _ _ _ Hi Hq Hm') as Hi'.
  destruct (seq_flush_spec _ fk ess cur cs ffuel f1 f2 Hi' Hg Hfu Hn) as (s' & E & Hi2 & Hn' & Hme' & Hl').
  destruct Hi' as [(ms0 & m0 & Hq0 & Hms & _) He Ht Hf Hme Hmm Hss].
  set (s1 := with_queue s (ms ++ [m'])) in *. cbn [s1 queue with_queue] in Hq0. apply app_inj_tail in Hq0 as [<- <-].
  change (queue s1) with (ms ++ [m']) in *. rewrite Hmm, Hss, (queued_bytes_spec ms m' ess cur Hms Hm').
  unfold emptySize in Hsize. destruct (Z.leb_spec (stop * size) (size * (len ess + 1))); [|nia].
  rewrite Hf, bool_decide_true by (intros ->; change (len (@nil (list entry))) with 0 in Hst; lia). rewrite E. cbn [rbind].
  exists s'. split; [done|]. split; [done|]. split; [exact Hn'|]. split; [done|]. by rewrite Hl', last_snoc.
Qed.

(** Whether a sealing turn must first wait for a flush or not: three turns end
    with a fresh mutable memtable. *)
Lemma seal_spec s fk ess cur cs ms m m' e n force fuel ffuel f1 f2 :
  sinv s fk ess cur cs -> good (total fk ess cur) -> (length (total fk ess cur) < ffuel)%nat -> nextFn s < 4294967296 ->
  queue s = ms ++ [m] -> attempt m n force = (m', Some e) -> smem size false m' cur ->
  (exists m2, attempt m' n force = (m2, Some e) /\ smem size false m2 cur) ->
  exists s' fk' ess' mn, total fk' ess' [] = total fk ess cur /\
    (makeRoomForWrite cmp (S (S fuel)) ffuel s n force f1 f2 = makeRoomForWrite cmp (S fuel) ffuel s' n false f1 f2 \/
     makeRoomForWrite cmp (S (S fuel)) ffuel s n force f1 f2 = makeRoomForWrite cmp fuel ffuel s' n false f1 f2) /\
    sinv s' fk' ess' [] cs /\ ess' <> [] /\ nextFn s' <= nextFn s + 1 /\ smeta s' = smeta s /\ last (queue s') = Some mn /\ newMemTable size 0 = Ok mn.
Proof.
  intros Hi Hg Hfu Hn Hq Ha Hm' (m2 & Ha2 & Hm2). unfold total. destruct (Z_lt_le_dec (len ess + 1) stop) as [Hlt|Hle].
  - destruct (turn_rotate s fk ess cur cs ms m m' e n force (S fuel) ffuel f1 f2) as (s' & mn & E & Hi' & Hb & Hme & Hl & En); try done.
    exists s', fk, (ess ++ [cur]), mn. split; [rewrite concat_app; cbn [concat]; by rewrite !app_nil_r|]. split; [by left|].
    split; [done|]. split; [by destruct ess|]. split; [unfold nextFn; rewrite Hb; lia|]. done.
  - destruct (turn_stall s fk ess cur cs ms m m' e n force (S fuel) ffuel f1 f2) as (s1 & E & Hi1 & Hn1 & Hme1 & Hl1); try done.
    pose proof (si_queue _ _ _ _ _ Hi1) as (ms1 & m1 & Hq1 & Hms1 & Hm1). rewrite Hq1, last_snoc in Hl1. injection Hl1 as ->.
    destruct (turn_rotate s1 (fk ++ (kv_of <$> concat ess)) [] cur cs ms1 m' m2 e n force fuel ffuel f1 f2) as (s' & mn & E' & Hi' & Hb & Hme & Hl & En);
      try done; [change (len (@nil (list entry))) with 0; lia|].
    exists s', (fk ++ (kv_of <$> concat ess)), ([] ++ [cur]), mn. split; [cbn [concat app]; by rewrite !app_nil_r, fmap_app, app_assoc|].
    split; [right; congruence|]. split; [done|]. split; [done|]. split; [unfold nextFn in *; rewrite Hb; lia|]. split; [congruence|done].
Qed.

Lemma attempt_size m n force : 0 < n -> attempt m n force = prepareBySize m n.
Proof. intros Hn. unfold attempt. by destruct (Z.ltb_spec 0 n); [|lia]. Qed.

Lemma room_found s fk ess cur cs ms m n fuel ffuel f1 f2 :
  sinv s fk ess cur cs -> queue s = ms ++ [m] -> 0 < n -> arena_n (arena (skl m)) + n <= size ->
  exists s' r, makeRoomForWrite cmp (S fuel) ffuel s n false f1 f2 = Ok s' /\
    queue s' = ms ++ [writerRef (with_reserved m r)] /\ sinv (with_queue s' (ms ++ [m])) fk ess cur cs /\ btree s' = btree s /\ smeta s' = smeta s.
Proof.
  intros Hi Hq Hn Hr. pose proof (si_queue _ _ _ _ _ Hi) as (ms0 & m0 & Hq0 & Hms & Hm). rewrite Hq in Hq0. apply app_inj_tail in Hq0 as [<- <-].
  pose proof (sm_size _ _ _ _ Hm) as Hsz. unfold emptySize in *.
  destruct (prepare_spec size m cur n Hm) as (r & E); [lia|]. rewrite decide_True in E by done.
  cbn [makeRoomForWrite]. rewrite Hq, last_snoc, attempt_size, E by done. cbv zeta. rewrite set_last_snoc.
  eexists _, r. split; [done|]. split; [done|]. split; [|done]. by apply (sinv_same_mem s fk ess cur cs ms m m).
Qed.

(** A writer gets room for its entry. *)
Lemma seq_makeRoom_spec s fk ess cur cs n fuel ffuel f1 f2 :
  sinv s fk ess cur cs -> good (total fk ess cur) -> (length (total fk ess cur) < ffuel)%nat -> nextFn s < 4294967296 ->
  0 < n -> emptySize + n <= size -> (3 <= fuel)%nat ->
  exists s' fk' ess' cur' ms m r, makeRoomForWrite cmp fuel ffuel s n false f1 f2 = Ok s' /\
    queue s' = ms ++ [writerRef (with_reserved m r)] /\ sinv (with_queue s' (ms ++ [m])) fk' ess' cur' cs /\
    total fk' ess' cur' = total fk ess cur /\ arena_n (arena (skl m)) + n <= size /\ nextFn s' <= nextFn s + 1 /\ smeta s' = smeta s.
Proof.
  intros Hi Hg Hfu Hn Hn0 Hroom Hf. pose proof (si_queue _ _ _ _ _ Hi) as (ms & m & Hq & Hms & Hm).
  destruct fuel as [|[|[|fuel]]]; try lia. destruct (decide (arena_n (arena (skl m)) + n <= size)) as [Hr|Hr].
  - destruct (room_found s fk ess cur cs ms m n (S (S fuel)) ffuel f1 f2 Hi Hq Hn0 Hr) as (s' & r & E & Hq' & Hi' & Hb & Hme).
    exists s', fk, ess, cur, ms, m, r. do 4 (split; [done|]). split; [done|]. split; [unfold nextFn; rewrite Hb; lia|done].
  - unfold emptySize in *. destruct (prepare_spec size m cur n Hm) as (r & E); [lia|]. rewrite decide_False in E by done.
    pose proof (smem_reserved _ _ _ _ r Hm) as Hm'. destruct (prepare_spec size _ cur n Hm') as (r' & E'); [lia|]. rewrite decide_False in E' by done.
    destruct (seal_spec s fk ess cur cs ms m (with_reserved m r) ErrTableFull n false (S fuel) ffuel f1 f2)
      as (s' & fk' & ess' & mn & Et & Emr & Hi' & _ & Hn' & Hme & Hl & En); try done; [by rewrite attempt_size| |].
    { rewrite attempt_size by done. eexists. split; [exact E'|]. by apply smem_reserved. }
    pose proof (si_queue _ _ _ _ _ Hi') as (ms' & m' & Hq' & _ & Hmn). rewrite Hq', last_snoc in Hl. injection Hl as ->.
    pose proof (proj1 (sm_empty _ _ _ _ Hmn) eq_refl) as Hemp. unfold emptySize in Hemp.
    destruct Emr as [Emr|Emr]; rewrite Emr.
    + destruct (room_found s' fk' ess' [] cs ms' mn n (S fuel) ffuel f1 f2 Hi' Hq' Hn0) as (s2 & r2 & E2 & Hq2 & Hi2 & Hb & Hme2); [lia|].
      exists s2, fk', ess', [], ms', mn, r2. do 4 (split; [done|]). split; [lia|]. split; [unfold nextFn in *; rewrite Hb; lia|congruence].
    + destruct (room_found s' fk' ess' [] cs ms' mn n fuel ffuel f1 f2 Hi' Hq' Hn0) as (s2 & r2 & E2 & Hq2 & Hi2 & Hb & Hme2); [lia|].
      exists s2, fk', ess', [], ms', mn, r2. do 4 (split; [done|]). split; [lia|]. split; [unfold nextFn in *; rewrite Hb; lia|congruence].
Qed.

(** ** Setting a pair *)

Lemma entry_size x : emptySize + room_of x <= size -> u32 (memTableEntrySize (len x.1) (len x.2)) = room_of x /\ 0 < room_of x /\ 0 <= len x.2 < 4294967296.
Proof.
  unfold room_of, memTableEntrySize, MaxNodeSize, InternalKey.Size, maxNodeSize, maxHeight, linksSize, align4, emptySize in *.
  cbn [InternalKey.UserKey InternalKey.MakeInternalKey]. pose proof (len_nonneg x.1). pose proof (len_nonneg x.2). intros H'.
  rewrite (u32_small (len x.1)), (u32_small (len x.2)) by lia.
  rewrite (u32_small (len x.1 + 8)) by lia.
  rewrite !(u32_small (16 + 18 * 8 + (len x.1 + 8) + len x.2 + 3)) by lia. lia.
Qed.

Lemma total_snoc fk ess cur n x : total fk ess (cur ++ [set_entry n x]) = total fk ess cur ++ [x].
Proof. unfold total. rewrite app_assoc, fmap_app, app_assoc. cbn. by destruct x. Qed.

Lemma unref_ref m es r sk :
  smem size false m es -> writerUnref (with_skl (writerRef (with_reserved m r)) sk) = (with_reserved (with_skl m sk) r, false).
Proof. intros H. pose proof (sm_refs _ _ _ _ H) as Hr. destruct m. cbn in Hr. by subst. Qed.

Lemma Set_spec s fk ess cur cs x rnd fuel ffuel f1 f2 :
  sinv s fk ess cur cs -> good (total fk ess cur ++ [x]) -> (length (total fk ess cur) < ffuel)%nat -> nextFn s < 4294967296 ->
  Meta.Sequential.seqNum (smeta s) < InternalKey.SeqNumMax -> (3 <= fuel)%nat ->
  exists s' fk' ess' cur', Set_ cmp fuel ffuel s x.1 x.2 InternalKey.KindSet rnd f1 f2 = Ok (s', None) /\
    sinv s' fk' ess' cur' cs /\ total fk' ess' cur' = total fk ess cur ++ [x] /\ nextFn s' <= nextFn s + 1 /\
    Meta.Sequential.seqNum (smeta s') = Meta.Sequential.seqNum (smeta s) + 1.
Proof.
  intros Hi Hg Hfu Hn Hseq Hf. pose proof (go_each _ Hg) as Hx. apply Forall_app in Hx as [_ Hx]. apply Forall_inv in Hx as [Hxv Hxr].
  pose proof (fits_keys _ _ (go_fits _ Hg)) as Hlen. apply Forall_app in Hlen as [_ Hlen]. apply Forall_inv in Hlen.
  destruct (entry_size x Hxr) as (Es & Hpos & Hv). unfold Set_. rewrite Es.
  assert (Hmax : InternalKey.SeqNumMax = 72057594037927935) by done. pose proof (sq_num _ (si_meta _ _ _ _ _ Hi)) as Hs0.
  destruct (getNextSeqNum_ok (smeta s) (si_meta _ _ _ _ _ Hi)) as (mm & -> & Hmf & Hms); [lia|]. cbn [rbind]. cbv zeta.
  destruct (Z.eqb_spec (room_of x) 0); [lia|]. set (s0 := with_smeta s mm).
  assert (Hi0 : sinv s0 fk ess cur cs) by (destruct Hi; by split).
  destruct (seq_makeRoom_spec s0 fk ess cur cs (room_of x) fuel ffuel f1 f2 Hi0 (good_app_l _ _ Hg) Hfu Hn Hpos Hxr Hf)
    as (s' & fk' & ess' & cur' & ms & m & r & -> & Hq & Hi' & Et & Har & Hn' & Hme). cbn [rbind].
  rewrite Hq, last_snoc. pose proof (si_queue _ _ _ _ _ Hi') as (ms0 & m0 & Hq0 & Hmss & Hm). cbn [queue with_queue] in Hq0. apply app_inj_tail in Hq0 as [<- <-].
  set (q := Meta.Sequential.seqNum (smeta s) + 1) in *. set (w := writerRef (with_reserved m r)).
  change (InternalKey.MakeInternalKey x.1 q InternalKey.KindSet) with (set_entry q x).1.
  assert (Hlt : Forall (fun e => cmp (InternalKey.UserKey e.1) x.1 < 0) cur').
  { apply Forall_forall. intros e He. pose proof (go_sorted _ Hg) as Hs. rewrite <-Et in Hs.
    apply (StronglySorted_app_1_elem_of _ _ _ (kv_of e) x Hs); [|left]. unfold total. apply elem_of_app. right. apply list_elem_of_fmap_2, elem_of_app. by right. }
  destruct (madd_spec size false m cur' q x rnd Hm Har) as (m' & Ea & Em & Hm'); [lia|lia|done|].
  unfold madd in Ea |- *. change (skl w) with (skl m). destruct (Add cmp (skl m) (randomHeight rnd) (set_entry q x).1 x.2) as [[sk er]|?|]; try done.
  cbn [rbind] in Ea |- *. injection Ea as Ea <-. subst m'. cbn [skl with_skl] in Em, Hm'.
  assert (Hu : writerUnref (with_skl w sk) = (with_reserved (with_skl m sk) (reserved w), false)).
  { by apply (unref_ref m cur'). }
  rewrite Hu. cbv zeta. rewrite set_last_snoc. eexists _, fk', ess', (cur' ++ [set_entry q x]). split; [reflexivity|].
  split; [|split; [by rewrite total_snoc, Et|split; [exact Hn'|cbn; rewrite Hme; exact Hms]]].
  destruct Hi' as [_ He Ht Hfl Hmt Hmm Hss]. split; cbn [queue with_queue flushing btree smeta memTableSize stopWrites] in *; try done.
  - eexists ms, _. split; [done|]. split; [done|]. by apply smem_reserved.
  - rewrite app_assoc. apply Forall_app. split; [done|]. constructor; [|constructor]. split; [|apply (mem_entry_key q (Batch.OpSet x.1 x.2))|done].
    + apply InternalKey.KindOf_Make; [lia|done].
    + split; [unfold op_ok; cbn [op_key op_value]|cbn [op_key]]; lia.
    + lia.
Qed.

(** ** The other operations *)

Lemma Get_store s fk ess cur cs k :
  sinv s fk ess cur cs -> kv_sorted (total fk ess cur) -> cmp k BdbMaxKey <= 0 ->
  SeqDB.Get cmp s k = match kv_get (total fk ess cur) k with Some v => Ok v | None => Err ErrNotFound end \/
  (SeqDB.Get cmp s k = Err ErrNotFound /\ exists c, c ∈ cs /\ cmp k c < 0).
Proof.
  intros [(ms & m & Hq & Hms & Hm) He (d & gs & fm & es & Hr) _ _ _ _] Hs Hk. unfold total in *.
  assert (Ec : concat ess ++ cur = concat (ess ++ [cur])) by (rewrite concat_app; cbn [concat]; by rewrite app_nil_r). rewrite Ec in *.
  unfold SeqDB.Get. rewrite Hq, (get_mems_spec size (ms ++ [m]) (ess ++ [cur]) k).
  2: { apply Forall2_app; [by eapply smem_any|]. constructor; [by exists false|constructor]. } 2: done. 2: by eapply StronglySorted_app_1_r.
  cbn [rbind]. rewrite kv_get_app. destruct (decide (k ∈ fk.*1)) as [Hin|Hnin].
  - rewrite (kv_get_absent (kv_of <$> concat (ess ++ [cur]))) by (by eapply kv_sorted_disjoint). cbn [fmap option_fmap option_map].
    destruct (rinv_get kl (btree s) d gs fm es fk cs k Hr) as [->|[-> Hc]]; [by eapply StronglySorted_app_1_l|done| |]; cbn [rbind].
    + left. by destruct (kv_get fk k).
    + by right.
  - destruct (kv_get (kv_of <$> concat (ess ++ [cur])) k) as [v|]; [by left|]. cbn [fmap option_fmap option_map].
    destruct (rinv_get kl (btree s) d gs fm es fk cs k Hr) as [->|[-> Hc]]; [by eapply StronglySorted_app_1_l|done| |]; cbn [rbind]; left; [|done].
    by rewrite (kv_get_absent fk).
Qed.

Lemma manual_spec s fk ess cur cs fuel ffuel f1 f2 g1 g2 :
  sinv s fk ess cur cs -> good (total fk ess cur) -> (length (total fk ess cur) < ffuel)%nat -> nextFn s + 1 < 4294967296 -> (3 <= fuel)%nat ->
  exists s' fk' ess' cur', manualFlush cmp fuel ffuel s f1 f2 g1 g2 = Ok s' /\ sinv s' fk' ess' cur' cs /\
    total fk' ess' cur' = total fk ess cur /\ nextFn s' <= nextFn s + 2 /\ smeta s' = smeta s.
Proof.
  intros Hi Hg Hfu Hn Hf. unfold manualFlush, manualAsyncFlush. destruct (forallb mempty (queue s)).
  { cbn [rbind andb]. exists s, fk, ess, cur. split; [done|]. split; [done|]. split; [done|]. split; [lia|done]. }
  pose proof (si_queue _ _ _ _ _ Hi) as (ms & m & Hq & Hms & Hm). destruct fuel as [|[|[|fuel]]]; try lia.
  destruct (seal_spec s fk ess cur cs ms m m ErrTableFull 0 true (S fuel) ffuel f1 f2)
    as (s' & fk' & ess' & mn & Et & Emr & Hi' & Hne & Hn' & Hme & Hl & En); try done; [lia|by exists m|].
  pose proof (si_queue _ _ _ _ _ Hi') as (ms' & m' & Hq' & _ & Hmn). rewrite Hq', last_snoc in Hl. injection Hl as ->.
  assert (Hend : forall k, makeRoomForWrite cmp (S k) ffuel s' 0 false f1 f2 = Ok (with_queue s' (ms' ++ [mn]))).
  { intros k. cbn [makeRoomForWrite]. rewrite Hq', last_snoc. unfold attempt. cbn [Z.ltb Z.compare]. cbv zeta. by rewrite set_last_snoc. }
  set (s2 := with_queue s' (ms' ++ [mn])) in *. pose proof (sinv_same_mem _ _ _ _ _ _ _ _ Hi' Hq' Hmn) as Hi2. fold s2 in Hi2.
  assert (E2 : makeRoomForWrite cmp (S (S (S fuel))) ffuel s 0 true f1 f2 = Ok s2) by (destruct Emr as [->| ->]; apply Hend).
  rewrite E2. cbn [rbind andb]. pose proof (si_flushing _ _ _ _ _ Hi2) as ->. rewrite bool_decide_true by done.
  rewrite <-Et in Hg, Hfu. destruct (seq_flush_spec s2 fk' ess' [] cs ffuel g1 g2 Hi2 Hg Hfu) as (s3 & -> & Hi3 & Hn3 & Hme3 & _).
  { unfold nextFn in *. cbn. lia. }
  exists s3, (fk' ++ (kv_of <$> concat ess')), [], []. split; [done|]. split; [done|]. split; [|split; [unfold nextFn in *; cbn in *; lia|rewrite Hme3; exact Hme]].
  rewrite <-Et. unfold total. cbn [concat app]. by rewrite !app_nil_r.
Qed.

Lemma Compact_spec s fk ess cur cs k f1 f2 :
  sinv s fk ess cur cs -> good (total fk ess cur) -> nextFn s < 4294967296 ->
  exists s', SeqDB.Compact s k f1 f2 = Ok s' /\ sinv s' fk ess cur (cs ++ [k]) /\ nextFn s' <= nextFn s + 1 /\ smeta s' = smeta s.
Proof.
  intros [Hq He (d & gs & fm & es & Hr) Hfl Hme Hmm Hss] Hg Hn. apply good_app_l in Hg as [G1 G2 _ _].
  destruct (bstep_spec kl (btree s) d gs fm es fk cs (BCompact f1 f2 k) Hr) as (t' & d' & gs' & fm' & es' & E & Hr' & Hn');
    unfold flushed, compacted in *; cbn [fmap list_fmap concat app] in *; rewrite ?app_nil_r in *; try done.
  cbn [bstep] in E. unfold Compact. rewrite E. cbn [rbind]. eexists. split; [done|]. split; [|done]. split; try done. eauto 10.
Qed.

(** Closing and opening again: [fuel] is for the tables of the bitree. *)
Definition reopenSeq (fuel ffuel : nat) s (f : nat -> list Z) : outcome sequentialDB :=
  let! (s, err) := Close cmp ffuel s (f 0%nat) (f 1%nat) (f 2%nat) (f 3%nat) in
  match err with
  | Some e => Err e
  | None =>
      let! t := BitreeSpec.reopen fuel (btree s) (f 4%nat) (f 5%nat) (f 6%nat) (f 7%nat) in
      newSequentialDB (Some (Meta.Sequential.sfile (smeta s))) t (memTableSize s) (stopWrites s)
  end.

Lemma reopen_seq_spec s fk ess cur cs fuel ffuel f :
  sinv s fk ess cur cs -> good (total fk ess cur) -> (length (total fk ess cur) < ffuel)%nat -> nextFn s + 2 < 4294967296 ->
  Meta.Sequential.seqNum (smeta s) < InternalKey.SeqNumMax ->
  exists s', reopenSeq fuel ffuel s f = Ok s' /\ sinv s' (total fk ess cur) [] [] cs /\
    nextFn s' <= nextFn s + 3 /\ Meta.Sequential.seqNum (smeta s') <= Meta.Sequential.seqNum (smeta s) + 524288.
Proof.
  intros Hi Hg Hfu Hn Hseq. unfold reopenSeq, Close.
  assert (H1 : exists s1 fk1 ess1, (if flushing s then let! s := flush cmp ffuel s (f 0%nat) (f 1%nat) in Ok (with_flushing s false) else Ok s) = Ok s1 /\
    sinv s1 fk1 ess1 cur cs /\ total fk1 ess1 cur = total fk ess cur /\ nextFn s1 <= nextFn s + 1 /\ smeta s1 = smeta s).
  { pose proof (si_flushing _ _ _ _ _ Hi) as Hf. destruct (flushing s); [|exists s, fk, ess; split; [done|split; [done|split; [done|split; [lia|done]]]]].
    destruct (seq_flush_spec s fk ess cur cs ffuel (f 0%nat) (f 1%nat) Hi Hg Hfu ltac:(lia)) as (s1 & -> & Hi1 & Hn1 & Hme1 & _). cbn [rbind].
    exists (with_flushing s1 false), (fk ++ (kv_of <$> concat ess)), []. split; [done|]. split; [destruct Hi1; by split|].
    split; [unfold total; cbn [concat app]; by rewrite fmap_app, app_assoc|]. split; [unfold nextFn in *; cbn; lia|done]. }
  destruct H1 as (s1 & fk1 & ess1 & -> & Hi1 & Et & Hn1 & Hme1). cbn [rbind]. rewrite <-Et in *.
  destruct Hi1 as [(ms & m & Hq & Hms & Hm) He (d & gs & fm & es & Hr) Hfl Hme Hmm Hss].
  assert (Ec : concat ess1 ++ cur = concat (ess1 ++ [cur])) by (rewrite concat_app; cbn [concat]; by rewrite app_nil_r).
  unfold total in *. rewrite Ec in *. pose proof Hg as [G1 G2 G3 _]. apply Forall_app in G3 as [_ G3].
  rewrite length_app, length_fmap in Hfu. rewrite Hq.
  destruct (runFlush_spec size kl ffuel (ms ++ [m]) (ess1 ++ [cur]) (btree s1) d gs fm es fk1 cs (f 2%nat) (f 3%nat))
    as (t2 & d2 & gs2 & fm2 & es2 & -> & Hr2 & Hn2); try done; [|lia|unfold nextFn in *; lia|].
  { apply Forall2_app; [by eapply smem_any|]. constructor; [by exists false|constructor]. }
  cbn [rbind btree with_btree smeta memTableSize stopWrites].
  destruct (bstep_spec kl t2 d2 gs2 fm2 es2 _ cs (BReopen fuel (f 4%nat) (f 5%nat) (f 6%nat) (f 7%nat)) Hr2) as (t3 & d3 & gs3 & fm3 & es3 & E3 & Hr3 & Hn3);
    unfold flushed, compacted in *; cbn [fmap list_fmap concat app] in *; rewrite ?app_nil_r in *; try done; [unfold nextFn in *; lia|].
  cbn [bstep] in E3. rewrite E3. cbn [rbind]. destruct Hme as [Hsf Hsn (b & Hsb & Hsr)]. rewrite Hme1 in *.
  assert (Hmax : InternalKey.SeqNumMax = 72057594037927935) by done.
  destruct (openMeta_ok _ b Hsf Hsb) as (mm & Em & Hmok & Hmn); [lia|]. unfold newSequentialDB. rewrite Em. cbn [rbind].
  destruct (newMemTable_smem size Hsize) as (mn & En & Hmem). rewrite Hmm, En. cbn [rbind]. eexists. split; [done|].
  split; [|split; [unfold nextFn in *; cbn; lia|cbn; rewrite Hmn; lia]].
  split; cbn; try done; [by exists [], mn|eauto 10].
Qed.

(** ** Runs of the store *)

Inductive sop : Type :=
| SSet (x : kv) (rnd : Z)
| SFlush
| SManual
| SCompact (key : bytes)
| SReopen.

(** [f] lists the tables each index update reports as freed; [SFlush] is the
    flush goroutine, which runs when a flush is scheduled. *)
Definition sstep (fuel ffuel : nat) s (o : sop * (nat -> list Z)) : outcome sequentialDB :=
  let '(o, f) := o in
  match o with
  | SSet x rnd =>
      let! (s, err) := Set_ cmp fuel ffuel s x.1 x.2 InternalKey.KindSet rnd (f 0%nat) (f 1%nat) in
      match err with None => Ok s | Some e => Err e end
  | SFlush => if flushing s then flush cmp ffuel s (f 0%nat) (f 1%nat) else Ok s
  | SManual => manualFlush cmp fuel ffuel s (f 0%nat) (f 1%nat) (f 2%nat) (f 3%nat)
  | SCompact key => SeqDB.Compact s key (f 0%nat) (f 1%nat)
  | SReopen => reopenSeq fuel ffuel s f
  end.

Fixpoint srun (fuel ffuel : nat) (ops : list (sop * (nat -> list Z))) s : outcome sequentialDB :=
  match ops with
  | [] => Ok s
  | o :: ops' => let! s := sstep fuel ffuel s o in srun fuel ffuel ops' s
  end.

(** What was set, in order, and the keys of the compactions. *)
Definition sset (ops : list (sop * (nat -> list Z))) : list kv := concat ((fun o => if o.1 is SSet x _ then [x] else []) <$> ops).
Definition scompacted (ops : list (sop * (nat -> list Z))) : list bytes := concat ((fun o => if o.1 is SCompact k then [k] else []) <$> ops).

Lemma sstep_spec s fk ess cur cs o fuel ffuel :
  sinv s fk ess cur cs -> good (total fk ess cur ++ sset [o]) -> (length (total fk ess cur) < ffuel)%nat -> nextFn s + 2 < 4294967296 ->
  Meta.Sequential.seqNum (smeta s) < InternalKey.SeqNumMax -> (3 <= fuel)%nat ->
  exists s' fk' ess' cur', sstep fuel ffuel s o = Ok s' /\ sinv s' fk' ess' cur' (cs ++ scompacted [o]) /\
    total fk' ess' cur' = total fk ess cur ++ sset [o] /\ nextFn s' <= nextFn s + 3 /\
    Meta.Sequential.seqNum (smeta s') <= Meta.Sequential.seqNum (smeta s) + 524288.
Proof.
  intros Hi Hg Hfu Hn Hseq Hf. unfold sset, scompacted in *. destruct o as [[x rnd| | |k|] f]; cbn [fmap list_fmap concat app fst sstep] in *; rewrite ?app_nil_r in *.
  - destruct (Set_spec s fk ess cur cs x rnd fuel ffuel (f 0%nat) (f 1%nat)) as (s' & fk' & ess' & cur' & -> & Hi' & Et & Hn' & Hs'); try done; [lia|].
    exists s', fk', ess', cur'. split; [done|]. split; [done|]. split; [done|]. lia.
  - pose proof (si_flushing _ _ _ _ _ Hi) as Hfl. destruct (flushing s).
    + destruct (seq_flush_spec s fk ess cur cs ffuel (f 0%nat) (f 1%nat) Hi Hg Hfu ltac:(lia)) as (s1 & -> & Hi1 & Hn1 & Hme1 & _).
      exists s1, (fk ++ (kv_of <$> concat ess)), [], cur. split; [done|]. split; [done|].
      split; [unfold total; cbn [concat app]; by rewrite fmap_app, app_assoc|]. rewrite Hme1. lia.
    + exists s, fk, ess, cur. split; [done|]. split; [done|]. split; [done|]. lia.
  - destruct (manual_spec s fk ess cur cs fuel ffuel (f 0%nat) (f 1%nat) (f 2%nat) (f 3%nat)) as (s' & fk' & ess' & cur' & -> & Hi' & Et & Hn' & Hs'); try done; [lia|].
    exists s', fk', ess', cur'. split; [done|]. split; [done|]. split; [done|]. rewrite Hs'. lia.
  - destruct (Compact_spec s fk ess cur cs k (f 0%nat) (f 1%nat)) as (s' & -> & Hi' & Hn' & Hs'); try done; [lia|].
    exists s', fk, ess, cur. split; [done|]. split; [done|]. split; [done|]. rewrite Hs'. lia.
  - destruct (reopen_seq_spec s fk ess cur cs fuel ffuel f) as (s' & -> & Hi' & Hn' & Hs'); try done.
    exists s', (total fk ess cur), [], []. split; [done|]. split; [done|]. split; [unfold total; cbn; by rewrite app_nil_r|]. lia.
Qed.

Lemma srun_spec ops s fk ess cur cs fuel ffuel :
  sinv s fk ess cur cs -> good (total fk ess cur ++ sset ops) -> (length (total fk ess cur ++ sset ops) < ffuel)%nat ->
  nextFn s + 3 * len ops < 4294967296 -> Meta.Sequential.seqNum (smeta s) + 524288 * len ops <= InternalKey.SeqNumMax -> (3 <= fuel)%nat ->
  exists s' fk' ess' cur', srun fuel ffuel ops s = Ok s' /\ sinv s' fk' ess' cur' (cs ++ scompacted ops) /\
    total fk' ess' cur' = total fk ess cur ++ sset ops /\ nextFn s' <= nextFn s + 3 * len ops /\
    Meta.Sequential.seqNum (smeta s') <= InternalKey.SeqNumMax.
Proof.
  revert s fk ess cur cs. induction ops as [|o ops IH]; intros s fk ess cur cs Hi Hg Hfu Hn Hseq Hf.
  { exists s, fk, ess, cur. unfold sset, scompacted. cbn. rewrite !app_nil_r. do 3 (split; [done|]). change (len (@nil (sop * (nat -> list Z)))) with 0 in *. lia. }
  assert (E1 : sset (o :: ops) = sset [o] ++ sset ops) by (unfold sset; cbn; by rewrite app_nil_r).
  assert (E2 : scompacted (o :: ops) = scompacted [o] ++ scompacted ops) by (unfold scompacted; cbn; by rewrite app_nil_r).
  rewrite E1, E2 in *. rewrite !app_assoc in *. rewrite len_cons in Hn, Hseq. pose proof (len_nonneg ops).
  destruct (sstep_spec s fk ess cur cs o fuel ffuel Hi (good_app_l _ _ Hg)) as (s' & fk' & ess' & cur' & E & Hi' & Et & Hn' & Hs'); try lia.
  { rewrite !length_app in Hfu. lia. }
  cbn [srun]. rewrite E. cbn [rbind]. rewrite <-Et in Hg, Hfu |- *.
  destruct (IH s' fk' ess' cur' (cs ++ scompacted [o])) as (s2 & fk2 & ess2 & cur2 & E3 & Hi2 & Et2 & Hn2 & Hs2); try done; [lia|lia|].
  exists s2, fk2, ess2, cur2. rewrite len_cons. do 3 (split; [done|]). split; [lia|done].
Qed.

(** A run from an empty directory. *)
Lemma srun_fresh b0 f0 maxSt fuel ffuel ops :
  ixwf b0 -> ix_list b0 = [] -> 8 < maxSt -> good (sset ops) -> (length (sset ops) < ffuel)%nat -> (3 <= fuel)%nat -> len ops < 1431655764 ->
  exists t s0 s fk ess cur, OpenBitree fuel None b0 (f0 0%nat) (f0 1%nat) (f0 2%nat) (f0 3%nat) (mkDir ∅ ∅) maxSt kl = Ok t /\
    newSequentialDB None t size stop = Ok s0 /\ srun fuel ffuel ops s0 = Ok s /\ sinv s fk ess cur (scompacted ops) /\
    total fk ess cur = sset ops /\ nextFn s <= 2 + 3 * len ops /\ Meta.Sequential.seqNum (smeta s) <= InternalKey.SeqNumMax.
Proof.
  intros Hb Hl Hmax Hg Hfu Hf Hn.
  destruct (open_fresh fuel b0 (f0 0%nat) (f0 1%nat) (f0 2%nat) (f0 3%nat) maxSt kl Hb Hl Hkl Hmax) as (t & Et & Hi & Hr & Hk & Hnx).
  destruct (openMeta_ok Meta.create 0) as (mm & Em & Hmok & Hmn); [done|by apply Meta.create_fields|lia|].
  destruct (newMemTable_smem size Hsize) as (mn & En & Hmem). set (s0 := mkSeq mm [mn] false t size stop).
  assert (E0 : newSequentialDB None t size stop = Ok s0).
  { unfold newSequentialDB. change (Meta.Sequential.openSequentialMeta None) with (Meta.Sequential.openSequentialMeta (Some Meta.create)). rewrite Em, En. done. }
  assert (H0 : sinv s0 [] [] [] []).
  { split; cbn; try done; [by exists [], mn|]. exists [], [], 1, []. by split. }
  destruct (srun_spec ops s0 [] [] [] [] fuel ffuel H0) as (s & fk & ess & cur & E & Hi' & Etot & Hns & Hsq); try done.
  { unfold nextFn. cbn [btree s0]. rewrite Hnx. lia. }
  { cbn [smeta s0]. rewrite Hmn. change InternalKey.SeqNumMax with 72057594037927935. lia. }
  exists t, s0, s, fk, ess, cur. do 5 (split; [done|]). assert (nextFn s0 <= 2) by (unfold nextFn; cbn [btree s0]; rewrite Hnx; lia). split; [lia|done].
Qed.

(** C13: the sequential store answers with what was set, as long as it is given
    pairs it can take ([good]: increasing keys of the fixed length below
    ff ff ff ff, non-empty values, each pair small enough for an empty memtable,
    less than 4 GiB in all) and the stop-writes threshold is at least 2.  Under
    any sequence of such sets, scheduled and manual flushes, compactions and
    restarts, starting with an empty directory, every operation succeeds, and a
    lookup of a key up to ff ff ff ff answers with the value set under the key,
    whether it is still in a memtable or in the bitree; only for keys before the
    key of some compaction it may answer that there is none. *)
Theorem seq_store_refines b0 f0 maxSt fuel ffuel ops :
  ixwf b0 -> ix_list b0 = [] -> 8 < maxSt -> good (sset ops) -> (length (sset ops) < ffuel)%nat -> (3 <= fuel)%nat -> len ops < 1431655764 ->
  exists t s0 s, OpenBitree fuel None b0 (f0 0%nat) (f0 1%nat) (f0 2%nat) (f0 3%nat) (mkDir ∅ ∅) maxSt kl = Ok t /\
    newSequentialDB None t size stop = Ok s0 /\ srun fuel ffuel ops s0 = Ok s /\
    forall k, cmp k BdbMaxKey <= 0 ->
      SeqDB.Get cmp s k = match kv_get (sset ops) k with Some v => Ok v | None => Err ErrNotFound end \/
      (SeqDB.Get cmp s k = Err ErrNotFound /\ exists c, c ∈ scompacted ops /\ cmp k c < 0).
Proof.
  intros Hb Hl Hmax Hg Hfu Hf Hn. destruct (srun_fresh b0 f0 maxSt fuel ffuel ops) as (t & s0 & s & fk & ess & cur & Et & E0 & E & Hi & Etot & _); try done.
  exists t, s0, s. do 3 (split; [done|]). intros k Hk. rewrite <-Etot. apply Get_store; [done| |done]. rewrite Etot. apply Hg.
Qed.

(** ** Entries no memtable can hold *)

Lemma sset_length ops : (length (sset ops) <= length ops)%nat.
Proof.
  unfold sset. induction ops as [|[o f] ops IH]; [done|]. cbn [fmap list_fmap concat fst length]. rewrite length_app. destruct o; cbn [length]; lia.
Qed.

(** No turn of the loop ends it: a memtable is sealed, or a flush awaited that
    leaves the mutable memtable alone. *)
Lemma oversized_loop n fuel ffuel s fk ess cur cs f1 f2 :
  sinv s fk ess cur cs -> good (total fk ess cur) -> (length (total fk ess cur) < ffuel)%nat ->
  nextFn s + len (concat ess ++ cur) < 4294967296 -> 0 < n < 4294967296 -> size < emptySize + n ->
  makeRoomForWrite cmp fuel ffuel s n false f1 f2 = Err ErrModelFuel.
Proof.
  intros Hi Hg Hfu Hn Hn0 Hbig. revert s fk ess cur Hi Hg Hfu Hn. induction fuel as [|fuel IH]; intros s fk ess cur Hi Hg Hfu Hn; [done|].
  pose proof (si_queue _ _ _ _ _ Hi) as (ms & m & Hq & _ & Hm). pose proof (sm_size _ _ _ _ Hm) as Hsz.
  destruct (prepare_spec size m cur n Hm) as (r & Er); [lia|]. rewrite decide_False in Er by lia. rewrite <-(attempt_size m n false) in Er by lia.
  pose proof (smem_reserved _ _ _ _ r Hm) as Hm'. pose proof (len_nonneg cur). rewrite len_app in Hn. pose proof (len_nonneg (concat ess)).
  unfold total in *. destruct (Z_lt_le_dec (len ess + 1) stop) as [Hlt|Hle].
  - destruct (turn_rotate s fk ess cur cs ms m (with_reserved m r) ErrTableFull n false fuel ffuel f1 f2) as (s' & mn & -> & Hi' & Hb & _); try done.
    assert (Ec : concat (ess ++ [cur]) ++ [] = concat ess ++ cur) by (rewrite concat_app; cbn [concat]; by rewrite !app_nil_r).
    apply (IH s' fk (ess ++ [cur]) [] Hi'); unfold total, nextFn in *; rewrite ?Ec; try done. rewrite Hb, len_app. lia.
  - destruct (turn_stall s fk ess cur cs ms m (with_reserved m r) ErrTableFull n false fuel ffuel f1 f2) as (s' & -> & Hi' & Hn' & _); try done; [lia|].
    assert (Ec : (fk ++ (kv_of <$> concat ess)) ++ (kv_of <$> cur) = fk ++ (kv_of <$> concat ess ++ cur)) by (by rewrite fmap_app, app_assoc).
    apply (IH s' (fk ++ (kv_of <$> concat ess)) [] cur Hi'); unfold total; cbn [concat app]; rewrite ?Ec; try done. lia.
Qed.

(** C37: a pair that does not fit into an empty memtable is never set: in every
    state the store reaches by less than 2^30 operations on pairs it can take
    (see [good]), [Set] with such a pair runs for ever.  However many turns the
    loop of [makeRoomForWrite] is given, it uses all of them up, without an
    answer, an error or a panic: it seals one empty memtable after the other
    and waits for flushes that have nothing to write. *)
Theorem oversized_set_never_returns b0 f0 maxSt fuel ffuel ops x :
  ixwf b0 -> ix_list b0 = [] -> 8 < maxSt -> good (sset ops) -> (length (sset ops) < ffuel)%nat -> (3 <= fuel)%nat -> len ops < 1073741000 ->
  len x.1 + len x.2 < 4294967000 -> size < emptySize + room_of x ->
  exists t s0 s, OpenBitree fuel None b0 (f0 0%nat) (f0 1%nat) (f0 2%nat) (f0 3%nat) (mkDir ∅ ∅) maxSt kl = Ok t /\
    newSequentialDB None t size stop = Ok s0 /\ srun fuel ffuel ops s0 = Ok s /\
    forall turns rnd f1 f2, Set_ cmp turns ffuel s x.1 x.2 InternalKey.KindSet rnd f1 f2 = Err ErrModelFuel.
Proof.
  intros Hb Hl Hmax Hg Hfu Hf Hn Hlen Hbig. destruct (srun_fresh b0 f0 maxSt fuel ffuel ops) as (t & s0 & s & fk & ess & cur & Et & E0 & E & Hi & Etot & Hns & Hsq); try done; [lia|].
  exists t, s0, s. do 3 (split; [done|]). intros turns rnd f1 f2. unfold Set_.
  assert (Hroom : u32 (memTableEntrySize (len x.1) (len x.2)) = room_of x /\ 0 < room_of x < 4294967296).
  { unfold room_of, memTableEntrySize, MaxNodeSize, InternalKey.Size, maxNodeSize, maxHeight, linksSize, align4.
    cbn [InternalKey.UserKey InternalKey.MakeInternalKey]. pose proof (len_nonneg x.1). pose proof (len_nonneg x.2).
    rewrite (u32_small (len x.1)), (u32_small (len x.2)) by lia. rewrite (u32_small (len x.1 + 8)) by lia.
    rewrite !(u32_small (16 + 18 * 8 + (len x.1 + 8) + len x.2 + 3)) by lia. lia. }
  destruct Hroom as [-> Hr].
  change InternalKey.SeqNumMax with 72057594037927935 in Hsq.
  destruct (getNextSeqNum_ok (smeta s) (si_meta _ _ _ _ _ Hi)) as (mm & -> & Hmm & _); [lia|]. cbn [rbind]. cbv zeta.
  destruct (Z.eqb_spec (room_of x) 0); [lia|]. set (s1 := with_smeta s mm).
  assert (Hi1 : sinv s1 fk ess cur (scompacted ops)) by (destruct Hi; by split).
  assert (Hle : len (concat ess ++ cur) <= len ops).
  { pose proof (sset_length ops) as Hs. rewrite <-Etot in Hs. unfold total, len in *. rewrite length_app, length_fmap in Hs. lia. }
  rewrite (oversized_loop (room_of x) turns ffuel s1 fk ess cur (scompacted ops) f1 f2 Hi1); rewrite ?Etot; try done. change (nextFn s1) with (nextFn s). lia.
Qed.
End Flush.

(** ** A run *)

Definition no_frees (i : nat) : list Z := [].

Definition demo_sops : list (sop * (nat -> list Z)) :=
  [(SSet ([0; 1], [5]) 0, no_frees); (SSet ([0; 2], [6; 7]) 1, no_frees); (SSet ([0; 3], [8]) 2, no_frees); (SFlush, no_frees);
   (SManual, no_frees); (SSet ([0; 4], [9]) 3, no_frees); (SReopen, no_frees); (SSet ([0; 5], [10]) 3, no_frees); (SCompact [0; 2], no_frees)].

Lemma demo_good : good 900 2 (sset demo_sops).
Proof. split; [split; [repeat constructor|done|done]|repeat constructor|repeat constructor|]. repeat (constructor; [split; done|]). constructor. Qed.

Lemma seq_store_refines_witness :
  exists t s0 s, OpenBitree 3 None ([] : list kv) [] [] [] [] (mkDir ∅ ∅) 20 2 = Ok t /\
    newSequentialDB None t 900 2 = Ok s0 /\ srun 3 6 demo_sops s0 = Ok s /\ SeqDB.Get cmp s [0; 4] = Ok [9].
Proof.
  destruct (seq_store_refines (I := listIndex) (ixwf := StronglySorted key_lt) 900 2 2 ltac:(unfold emptySize; lia) ltac:(lia) ltac:(lia)
    [] no_frees 20 3 6 demo_sops) as (t & s0 & s & Et & E0 & E & Hg).
  - constructor.
  - reflexivity.
  - lia.
  - apply demo_good.
  - vm_compute. lia.
  - lia.
  - done.
  - exists t, s0, s. split; [exact Et|]. split; [exact E0|]. split; [exact E|]. destruct (Hg [0; 4]) as [->|(_ & c & Hc & Hlt)]; [done|reflexivity|].
    exfalso. unfold scompacted in Hc. cbn in Hc. apply list_elem_of_singleton in Hc as ->. vm_compute in Hlt. discriminate Hlt.
Defined.

Lemma oversized_set_never_returns_witness :
  exists t s0 s, OpenBitree 3 None ([] : list kv) [] [] [] [] (mkDir ∅ ∅) 20 2 = Ok t /\
    newSequentialDB None t 900 2 = Ok s0 /\ srun 3 6 demo_sops s0 = Ok s /\
    forall turns, Set_ cmp turns 6 s [0; 6] (replicate 900 7) InternalKey.KindSet 0 [] [] = Err ErrModelFuel.
Proof.
  destruct (oversized_set_never_returns (I := listIndex) (ixwf := StronglySorted key_lt) 900 2 2 ltac:(unfold emptySize; lia) ltac:(lia) ltac:(lia)
    [] no_frees 20 3 6 demo_sops ([0; 6], replicate 900 7)) as (t & s0 & s & Et & E0 & E & Hg).
  - constructor.
  - reflexivity.
  - lia.
  - apply demo_good.
  - vm_compute. lia.
  - lia.
  - done.
  - done.
  - done.
  - exists t, s0, s. split; [exact Et|]. split; [exact E0|]. split; [exact E|]. intros turns. apply Hg.
Defined.

(** ** Deletions *)

Definition demo_sets : list (sop * (nat -> list Z)) :=
  [(SSet ([0; 1], [5]) 0, no_frees); (SSet ([0; 2], [6]) 1, no_frees); (SSet ([0; 3], [7]) 2, no_frees); (SManual, no_frees)].

(** [DeleteSeqDB] of the first key, then a flush. *)
Definition delete_flush (s : sequentialDB (B := list kv)) : outcome (outcome bytes * sequentialDB) :=
  let! (s, _) := Set_ cmp 3 6 s [0; 1] [] InternalKey.KindDelete 0 [] [] in
  let r := SeqDB.Get cmp s [0; 1] in
  let! s := manualFlush cmp 3 6 s [] [] [] [] in Ok (r, s).

(** Three keys set and flushed, then the first deleted and flushed, three
    times: what a lookup of the first key answers before and after the first of
    these flushes, and what a lookup of each key answers in the end. *)
Definition delete_run : outcome (list (outcome bytes)) :=
  let! t := OpenBitree 3 None ([] : list kv) [] [] [] [] (mkDir ∅ ∅) 1000 2 in
  let! s := newSequentialDB None t 900 2 in
  let! s := srun 3 6 demo_sets s in
  let! (r1, s) := delete_flush s in
  let r2 := SeqDB.Get cmp s [0; 1] in
  let! (_, s) := delete_flush s in
  let! (_, s) := delete_flush s in
  Ok [r1; r2; SeqDB.Get cmp s [0; 1]; SeqDB.Get cmp s [0; 2]; SeqDB.Get cmp s [0; 3]].

(** Deleting a flushed key does not last: the key is absent until the
    tombstone is flushed and then found again, and repeated deletions make the
    other keys disappear, since the flush appends the tombstone to the super
    table out of order. *)
Theorem delete_undone_by_flush :
  delete_run = Ok [Err ErrNotFound; Ok [5]; Ok [5]; Err ErrNotFound; Err ErrNotFound].
Proof. vm_compute. reflexivity. Qed.
