(* ===== verification/SeqIter.v ===== *)
(** Iterators of the sequential store (sequential_db.go, [NewIter]): the user
    iterator over the merge of the memtables' skiplists and the bitree, composed
    from the contracts of its parts.  Whatever is still in memtables and
    whatever was flushed, it is a cursor over the pairs that were set. *)

From Stdlib Require Import ZArith Lia.
From stdpp Require Import base numbers option sorting list gmap.
From S2P Require Import Prelude Base Arena Iter MergingIter MergeCursor CompactionIter UserIter Skl SklInv SklCursor MemTable Meta SuperTable SuperTableSpec Bitree BitreeSpec BitreeIter SeqDB SeqSpec.
Import SuperTable Bitree SeqDB BitreeIter.

Abbreviation cmp := bytes_compare (only parsing).

(** The pairs within bounds. *)
Definition kv_within (lo up : option bytes) (kvs : list kv) : list kv := filter (fun x => in_bounds lo up (kv_item x)) kvs.

Lemma in_bounds_inside lo up e : in_bounds lo up e <-> inside cmp lo up e.
Proof.
  unfold in_bounds, inside. rewrite andb_True. split.
  - intros [H1 H2]. split; intros b ->; [apply Is_true_true, Z.leb_le in H1|apply Is_true_true, Z.ltb_lt in H2]; done.
  - intros [H1 H2]. split; [destruct lo as [b|]|destruct up as [b|]]; try done; apply Is_true_true;
      [apply Z.leb_le; by apply H1|apply Z.ltb_lt; by apply H2].
Qed.

Lemma in_bounds_kv lo up e : in_bounds lo up (kv_item (kv_of e)) = in_bounds lo up e.
Proof. done. Qed.

Lemma kv_within_of lo up l : kv_within lo up (kv_of <$> l) = kv_of <$> within lo up l.
Proof.
  unfold kv_within, within. induction l as [|e l IH]; [done|]. rewrite fmap_cons, !filter_cons, in_bounds_kv.
  destruct (decide (in_bounds lo up e)); [rewrite fmap_cons|]; by rewrite IH.
Qed.

Lemma kv_of_item (l : list kv) : kv_of <$> (kv_item <$> l) = l.
Proof. rewrite <-list_fmap_compose. rewrite <-(list_fmap_id l) at 2. apply list_fmap_ext. by intros i [k v] _. Qed.

(** Entries the iterators see: sets, one for a key. *)
Record plain_entries (l : list entry) : Prop := mkPlain {
  pe_kind : Forall (fun e : entry => InternalKey.KindOf e.1 = InternalKey.KindSet) l;
  pe_sorted : kv_sorted (kv_of <$> l)
}.

Lemma live_plain l : plain_entries l -> UserIter.live cmp l = kv_of <$> l.
Proof.
  intros [Hk Hs]. unfold UserIter.live, UserIter.live_after. rewrite newest_from_id by done. clear Hs.
  induction Hk as [|e l He _ IH]; [done|]. rewrite fmap_cons. cbn [flat_map]. rewrite IH. unfold UserIter.shows. by rewrite He.
Qed.

Lemma sorted_within lo up l : kv_sorted (kv_of <$> l) -> kv_sorted (kv_of <$> within lo up l).
Proof.
  unfold within, kv_sorted. induction l as [|e l IH]; [done|]. rewrite fmap_cons, filter_cons. intros [Hs He]%StronglySorted_inv.
  case_decide; [|by apply IH]. rewrite fmap_cons. constructor; [by apply IH|]. apply Forall_fmap. rewrite Forall_fmap in He.
  rewrite Forall_forall in He |- *. intros x [_ Hx]%list_elem_of_filter. by apply He.
Qed.

Lemma plain_scannable lo up l :
  plain_entries l -> (forall a b, lo = Some a -> up = Some b -> cmp a b <= 0) -> UserIter.scannable cmp lo up (within lo up l).
Proof.
  intros [Hk Hs] Hb. pose proof (sorted_within lo up l Hs) as Hw. split; [by apply entries_sorted_kv| | | | |done].
  - apply Forall_forall. intros e [_ He]%list_elem_of_filter. left. rewrite Forall_forall in Hk. by apply Hk.
  - intros p a b Ha Hb' E. exfalso. unfold lookupZ in Ha, Hb'. destruct (Z.ltb_spec p 0), (Z.ltb_spec (p + 1) 0); try lia; try done.
    replace (Z.to_nat (p + 1)) with (S (Z.to_nat p)) in Hb' by lia.
    rewrite <-(take_drop_middle _ _ _ Ha) in Hw. rewrite fmap_app, fmap_cons in Hw. apply StronglySorted_app_1_r, StronglySorted_inv in Hw as [_ Hw].
    rewrite Forall_fmap, Forall_forall in Hw. specialize (Hw b). cbv beta in Hw. cbn [kv_of fst compose] in Hw.
    assert (Hin : b ∈ drop (S (Z.to_nat p)) (within lo up l)) by (apply list_elem_of_lookup_2 with 0%nat; by rewrite lookup_drop, Nat.add_0_r).
    specialize (Hw Hin). unfold UserIter.uk in E. rewrite E, (cmp_refl cmp) in Hw. lia.
  - intros b ->. apply Forall_forall. intros e [He _]%list_elem_of_filter. apply in_bounds_inside in He as [He _]. by apply He.
  - intros b ->. apply Forall_forall. intros e [He _]%list_elem_of_filter. apply in_bounds_inside in He as [_ He]. by apply He.
Qed.

(** An upper bound within the index makes the bitree's iterator a cursor for
    every seek the user iterator makes. *)
Lemma bounded_cursor {B : Type} {I : Index B} lo u {S} (o : iterOps S) Q :
  cmp u BdbMaxKey <= 0 -> BoundedCursor lo (Some u) (biOps (B := B) cmp o) Q -> CursorLaws cmp lo (Some u) (biOps (B := B) cmp o) Q.
Proof.
  intros Hu H. split; intros s l p.
  - intros k HQ Hk. by apply (bc_seekGE s l p k).
  - intros k HQ Hk. apply (bc_seekLT s l p k); [done|done|]. eapply (cmp_le_trans cmp); [by apply Hk|done].
  - apply bc_first.
  - done.
  - apply bc_next.
  - apply bc_prev.
  - done.
Qed.

Section Store.
Context {B : Type} {I : Index B} {ixwf : B -> Prop} `{!IndexLaws I ixwf}.
Implicit Types s : sequentialDB (B := B).

(** The iterator of a memtable. *)
Lemma newIter_cursor size b m es lo up :
  smem size b m es -> Forall seq_entry es -> MergeCursor.cursor cmp lo up (SeqDB.newIter cmp lo up m) (within lo up es) (-1).
Proof.
  intros Hm He. destruct (sm_holds _ _ _ _ Hm) as (ns & Hh & ->). exists (skl_at cmp lo up). split; [apply _|].
  apply (SklCursor.sNewIter_at cmp lo up); [done| |intros e; apply in_bounds_inside].
  rewrite Forall_fmap in He. eapply Forall_impl; [exact He|]. intros a Ha. apply (se_search _ Ha).
Qed.

Lemma mems_cursor size ms ess lo up :
  Forall2 (fun m es => exists b, smem size b m es) ms ess -> Forall seq_entry (concat ess) ->
  Forall2 (fun i l => exists p, MergeCursor.cursor cmp lo up i l p) (SeqDB.newIter cmp lo up <$> ms) (within lo up <$> ess).
Proof.
  induction 1 as [|m es ms ess (b & Hm) _ IH]; intros He; [constructor|]. cbn [concat] in He. apply Forall_app in He as [He1 He2].
  rewrite !fmap_cons. constructor; [|by apply IH]. exists (-1). by eapply newIter_cursor.
Qed.

Lemma within_join lo up (ls : list (list entry)) : mjoin (within lo up <$> ls) = within lo up (mjoin ls).
Proof. unfold within. by rewrite filter_join. Qed.

Lemma join_reverse (ls : list (list entry)) : mjoin (reverse ls) ≡ₚ mjoin ls.
Proof.
  induction ls as [|l ls IH]; [done|]. rewrite reverse_cons, join_app. cbn [mjoin list_join].
  change (mjoin (reverse ls) ++ l ++ [] ≡ₚ l ++ mjoin ls). rewrite app_nil_r, IH. apply Permutation_app_comm.
Qed.

(** Memtables newest first, then the tree: the merge is over all of them. *)
Lemma merged_store lo up (qs : list Iter) (tr : Iter) (ess : list (list entry)) (tl : list entry) :
  Forall2 (fun i l => exists p, MergeCursor.cursor cmp lo up i l p) qs (within lo up <$> ess) ->
  (exists p, MergeCursor.cursor cmp lo up tr (within lo up tl) p) -> plain_entries (tl ++ concat ess) ->
  merged cmp lo up (merging_init lo up (reverse qs ++ [tr])) (within lo up (tl ++ concat ess)) (-1).
Proof.
  intros Hq Ht Hp. pose proof (pe_sorted _ Hp) as Hs. pose proof Hs as Hsp. rewrite fmap_app in Hsp.
  apply (merging_init_merged cmp lo up _ (reverse (within lo up <$> ess) ++ [within lo up tl])).
  - apply Forall2_app; [by apply Forall2_reverse|]. by repeat constructor.
  - apply Forall_app. split.
    + apply Forall_forall. intros l Hl. rewrite elem_of_reverse in Hl. apply list_elem_of_fmap_1 in Hl as (es & -> & Hes).
      apply entries_sorted_kv, sorted_within. apply StronglySorted_app_1_r in Hsp. apply list_elem_of_lookup_1 in Hes as [i Hi].
      rewrite <-(take_drop_middle _ _ _ Hi), concat_app, !fmap_app in Hsp. cbn [concat] in Hsp. rewrite fmap_app in Hsp.
      by apply StronglySorted_app_1_r, StronglySorted_app_1_l in Hsp.
    + repeat constructor. apply entries_sorted_kv, sorted_within. by apply StronglySorted_app_1_l in Hsp.
  - by apply entries_sorted_kv, sorted_within.
  - rewrite join_app, join_reverse, within_join, join_concat. cbn [mjoin list_join]. unfold within. rewrite filter_app, app_nil_r. apply Permutation_app_comm.
  - apply Forall_forall. intros e [He _]%list_elem_of_filter. by apply in_bounds_inside.
Qed.

(** An iterator of a store in a good state. *)
Lemma store_iterates size stop kl s fk ess cur cs :
  sinv (ixwf := ixwf) size stop kl s fk ess cur cs -> kv_sorted (total fk ess cur) ->
  exists dropped live, total fk ess cur = dropped ++ live /\ Forall (fun x : kv => exists c, c ∈ cs /\ cmp x.1 c < 0) dropped /\
    forall (S : Type) (o : iterOps S) R, IndexIterLaws o R -> forall ix q lo u, R ix (kv_item <$> pool (SeqDB.btree s)) q -> cmp u BdbMaxKey <= 0 ->
      (forall b, lo = Some b -> cmp b u <= 0) -> forall equal split, (forall a b, equal a b = true <-> a = b) ->
      forall fuel steps xs, (length live < steps)%nat ->
      UserIter.iter_run cmp equal split (mergingOps cmp (Datatypes.S fuel)) steps (SeqDB.NewIter cmp o ix s lo (Some u)) xs =
      Ok (UserIter.cursor_run cmp (kv_within lo (Some u) live) (len (kv_within lo (Some u) live)) xs).
Proof.
  intros [(ms & m & Hq & Hms & Hm) He (d & gs & fm & es & Hr) _ _ _ _] Hs. unfold total in *.
  assert (Ec : concat ess ++ cur = concat (ess ++ [cur])) by (rewrite concat_app; cbn [concat]; by rewrite app_nil_r). rewrite Ec in *.
  pose proof (ri_kvs _ _ _ _ _ _ _ _ Hr) as Ek. rewrite fmap_app in Ek.
  set (tl := kv_item <$> (kvof <$> (entries gs ++ es))). set (all := tl ++ concat (ess ++ [cur])).
  assert (Ea : kv_of <$> all = (kvof <$> (entries gs ++ es)) ++ (kv_of <$> concat (ess ++ [cur]))) by (unfold all, tl; by rewrite fmap_app, kv_of_item).
  exists (kvof <$> d), (kv_of <$> all). rewrite Ea, <-Ek, <-app_assoc. split; [done|]. split; [apply Forall_fmap, Hr|].
  intros S o R HO ix q lo u HR Hu Hlo equal split Heq fuel steps xs Hst. rewrite <-Ea in *.
  assert (Hpl : plain_entries all).
  { split; [|rewrite <-Ek, <-app_assoc, <-Ea in Hs; by apply StronglySorted_app_1_r in Hs]. apply Forall_app. split.
    - apply Forall_fmap, Forall_forall. intros x _. cbn [compose kv_item fst]. reflexivity.
    - eapply Forall_impl; [exact He|]. intros e Hse. apply Hse. }
  rewrite kv_within_of, <-live_plain.
  2: { split; [|apply sorted_within, Hpl]. apply Forall_forall. intros e [_ Hin]%list_elem_of_filter. pose proof (pe_kind _ Hpl) as Hk. rewrite Forall_forall in Hk. by apply Hk. }
  apply (UserIter.iterator_refines cmp equal split Heq (mergingOps cmp (Datatypes.S fuel)) (merged cmp lo (Some u)) lo (Some u) (within lo (Some u) all)) with (p := -1).
  - apply plain_scannable; [done|]. intros a b Ea' [= <-]. by apply Hlo.
  - rewrite Hq, fmap_reverse. apply merged_store; [|exists (-1)|done].
    + apply (mems_cursor size); [|done]. apply Forall2_app; [by eapply smem_any|]. constructor; [by exists false|constructor].
    + pose proof (binv_tabs _ _ _ _ (ri_binv _ _ _ _ _ _ _ _ Hr)) as HG. eexists. split.
      * apply (bounded_cursor lo u o _ Hu). by apply (biOps_cursor o R (SeqDB.btree s) _ HG lo (Some u) (groups_last gs fm es)).
      * cbn [itSt]. unfold tl. rewrite <-items_kvof, <-(entries_groups gs fm es). by apply (BitreeIter.NewIter_at R (SeqDB.btree s) _ HG lo (Some u) ix q).
  - unfold within. pose proof (length_filter (fun e => in_bounds lo (Some u) e) all). rewrite length_fmap in Hst. lia.
Qed.

(** C14: after any sequence of sets of pairs the store can take ([good]:
    increasing keys of the fixed length below ff ff ff ff, non-empty values, each
    pair small enough for an empty memtable, less than 4 GiB in all), flushes,
    compactions and reopenings, with a stop-writes threshold of at least 2, an
    iterator of the sequential store with an upper bound of at most ff ff ff ff
    answers every sequence of [First], [Last], [Next], [Prev], [SeekGE] and
    [SeekLT] calls as a cursor over the pairs that were set, within its bounds,
    less a prefix that compactions dropped: the pairs of the memtables and of the
    bitree together, in key order, none twice and none missing, also where the
    direction changes. *)
Theorem seq_iterates size stop kl b0 f0 maxSt fuel ffuel ops :
  emptySize <= size < 4294967296 -> 2 <= stop -> 0 < kl <= 32768 ->
  ixwf b0 -> ix_list b0 = [] -> 8 < maxSt -> SeqSpec.good size kl (sset ops) -> (length (sset ops) < ffuel)%nat -> (3 <= fuel)%nat -> len ops < 1431655764 ->
  exists t s0 s dropped live, OpenBitree fuel None b0 (f0 0%nat) (f0 1%nat) (f0 2%nat) (f0 3%nat) (mkDir ∅ ∅) maxSt kl = Ok t /\
    newSequentialDB None t size stop = Ok s0 /\ srun fuel ffuel ops s0 = Ok s /\
    sset ops = dropped ++ live /\ Forall (fun x : kv => exists c, c ∈ scompacted ops /\ cmp x.1 c < 0) dropped /\
    forall (S : Type) (o : iterOps S) R, IndexIterLaws o R -> forall ix q lo u, R ix (kv_item <$> pool (SeqDB.btree s)) q -> cmp u BdbMaxKey <= 0 ->
      (forall b, lo = Some b -> cmp b u <= 0) -> forall equal split, (forall a b, equal a b = true <-> a = b) ->
      forall mfuel steps xs, (length live < steps)%nat ->
      UserIter.iter_run cmp equal split (mergingOps cmp (Datatypes.S mfuel)) steps (SeqDB.NewIter cmp o ix s lo (Some u)) xs =
      Ok (UserIter.cursor_run cmp (kv_within lo (Some u) live) (len (kv_within lo (Some u) live)) xs).
Proof.
  intros Hsize Hstop Hkl Hb Hl Hmax Hg Hfu Hf Hn.
  destruct (srun_fresh size stop kl Hsize Hstop Hkl b0 f0 maxSt fuel ffuel ops) as (t & s0 & s & fk & ess & cur & Et & E0 & E & Hi & Etot & _); try done.
  destruct (store_iterates size stop kl s fk ess cur (scompacted ops) Hi) as (d & live & Ed & Hd & Hit); [rewrite Etot; apply Hg|].
  exists t, s0, s, d, live. rewrite <-Etot. done.
Qed.
End Store.

(** Pairs in a super table, in a sealed memtable and in the mutable one; the
    prefix below the compaction key is still there. *)
Lemma seq_iterates_witness :
  exists t s0 s dropped live, OpenBitree 3 None ([] : list kv) [] [] [] [] (mkDir ∅ ∅) 20 2 = Ok t /\
    newSequentialDB None t 900 2 = Ok s0 /\ srun 3 6 demo_sops s0 = Ok s /\ sset demo_sops = dropped ++ live /\
    UserIter.iter_run cmp UserIter.bytes_equal (fun k => len k) (mergingOps cmp 1) 9
      (SeqDB.NewIter cmp (listOps cmp) (index_iter (SeqDB.btree s)) s (Some [0; 3]) (Some [0; 5]))
      [UserIter.OFirst; UserIter.ONext; UserIter.ONext; UserIter.OPrev; UserIter.OSeekLT [0; 4]] =
    Ok [Some ([0; 3], [8]); Some ([0; 4], [9]); None; Some ([0; 4], [9]); Some ([0; 3], [8])].
Proof.
  destruct (seq_iterates (I := listIndex) (ixwf := StronglySorted key_lt) 900 2 2 [] no_frees 20 3 6 demo_sops) as (t & s0 & s & d & live & Et & E0 & E & Ed & Hd & Hit).
  - unfold emptySize. lia.
  - lia.
  - lia.
  - constructor.
  - reflexivity.
  - lia.
  - apply demo_good.
  - vm_compute. lia.
  - lia.
  - done.
  - exists t, s0, s, d, live. split; [exact Et|]. split; [exact E0|]. split; [exact E|]. split; [exact Ed|].
    rewrite (Hit _ _ _ listOps_index (index_iter (SeqDB.btree s)) (-1) (Some [0; 3]) [0; 5] eq_refl);
      [|done|by intros b [= <-]|intros; apply bool_decide_eq_true|].
    + assert (Hk : kv_within (Some [0; 3]) (Some [0; 5]) live = [([0; 3], [8]); ([0; 4], [9])]); [|by rewrite Hk].
      assert (Hn : kv_within (Some [0; 3]) (Some [0; 5]) d = []).
      { clear - Hd. induction Hd as [|x d (c & Hc & Hx) _ IH]; [done|]. unfold kv_within in *. rewrite filter_cons_False; [done|].
        apply list_elem_of_singleton in Hc as ->. intros [H1 _]%andb_True. cbn in H1. apply Is_true_true, Z.leb_le in H1.
        pose proof (cmp_lt_ge_trans cmp x.1 [0; 2] [0; 3] Hx ltac:(by vm_compute)). lia. }
      transitivity (kv_within (Some [0; 3]) (Some [0; 5]) (sset demo_sops)); [|reflexivity]. rewrite Ed. unfold kv_within in *. by rewrite filter_app, Hn.
    + apply (f_equal length) in Ed. rewrite length_app in Ed. change (length (sset demo_sops)) with 5%nat in Ed. lia.
Defined.
