(* ===== verification/BdbPage.v ===== *)
(** Pages of the embedded database bdb (bitree/bdb/page.go and the page format of
    node.go): the elements of leaf and branch pages, and the nodes that are read
    from pages and written to them.

    A page is its header and the bytes behind it ([Freelist.page]); offsets
    are from the end of the header.  Go reads pages through unsafe pointers; an
    access outside the page, which Go would not notice, is a fault here. *)

From Stdlib Require Import ZArith Lia.
From stdpp Require Import base numbers option sorting list gmap.
From S2P Require Import Prelude Base Freelist FreelistSafe.
Import Freelist.

Module Bdb.

Definition minKeysPerPage : Z := 2.
Definition branchPageElementSize : Z := 16.
Definition leafPageElementSize : Z := 16.
Definition branchPageFlag : Z := 1.
Definition leafPageFlag : Z := 2.
Definition metaPageFlag : Z := 4.
Definition bucketLeafFlag : Z := 1.

(** ** Page elements *)

Record leafElem : Type := mkLeafElem { le_flags : Z; le_pos : Z; le_ksize : Z; le_vsize : Z }.
Record branchElem : Type := mkBranchElem { be_pos : Z; be_ksize : Z; be_pgid : Z }.

Definition get_u32 (d : bytes) (off : Z) : outcome Z := let! b := peek_data d off 4 in Ok (le_get b).
Definition get_u64 (d : bytes) (off : Z) : outcome Z := let! b := peek_data d off 8 in Ok (le_get b).

Definition leafPageElement (p : page) (i : Z) : outcome leafElem :=
  let o := leafPageElementSize * i in
  let! f := get_u32 (p_data p) o in
  let! pos := get_u32 (p_data p) (o + 4) in
  let! k := get_u32 (p_data p) (o + 8) in
  let! v := get_u32 (p_data p) (o + 12) in
  Ok (mkLeafElem f pos k v).

Definition branchPageElement (p : page) (i : Z) : outcome branchElem :=
  let o := branchPageElementSize * i in
  let! pos := get_u32 (p_data p) o in
  let! k := get_u32 (p_data p) (o + 4) in
  let! id := get_u64 (p_data p) (o + 8) in
  Ok (mkBranchElem pos k id).

(** The methods [key] and [value] of the elements: [pos] is relative to the
    element. *)
Definition leaf_key (p : page) (i : Z) (e : leafElem) : outcome bytes := peek_data (p_data p) (leafPageElementSize * i + le_pos e) (le_ksize e).
Definition leaf_value (p : page) (i : Z) (e : leafElem) : outcome bytes :=
  peek_data (p_data p) (leafPageElementSize * i + le_pos e + le_ksize e) (le_vsize e).
Definition branch_key (p : page) (i : Z) (e : branchElem) : outcome bytes := peek_data (p_data p) (branchPageElementSize * i + be_pos e) (be_ksize e).

(** ** Nodes *)

Record inode : Type := mkInode { iflags : Z; ipgid : Z; ikey : bytes; ivalue : bytes }.

(** [parent] and [children] are references into the heap of nodes of the bucket;
    [nkey] is [None] for a nil key. *)
Record node : Type := mkNode {
  isLeaf : bool;
  unbalanced : bool;
  spilled : bool;
  nkey : option bytes;
  npgid : Z;
  parent : option Z;
  children : list Z;
  inodes : list inode
}.

Definition with_inodes (n : node) (l : list inode) := mkNode (isLeaf n) (unbalanced n) (spilled n) (nkey n) (npgid n) (parent n) (children n) l.
Definition with_unbalanced (n : node) (b : bool) := mkNode (isLeaf n) b (spilled n) (nkey n) (npgid n) (parent n) (children n) (inodes n).
Definition with_children (n : node) (c : list Z) := mkNode (isLeaf n) (unbalanced n) (spilled n) (nkey n) (npgid n) (parent n) c (inodes n).
Definition with_parent (n : node) (p : option Z) := mkNode (isLeaf n) (unbalanced n) (spilled n) (nkey n) (npgid n) p (children n) (inodes n).
Definition with_npgid (n : node) (g : Z) := mkNode (isLeaf n) (unbalanced n) (spilled n) (nkey n) g (parent n) (children n) (inodes n).
Definition with_nkey (n : node) (k : option bytes) := mkNode (isLeaf n) (unbalanced n) (spilled n) k (npgid n) (parent n) (children n) (inodes n).
Definition with_spilled (n : node) (b : bool) := mkNode (isLeaf n) (unbalanced n) b (nkey n) (npgid n) (parent n) (children n) (inodes n).

Definition pageElementSize (leaf : bool) : Z := if leaf then leafPageElementSize else branchPageElementSize.

Definition item_size (leaf : bool) (x : inode) : Z := pageElementSize leaf + len (ikey x) + len (ivalue x).

Definition size (n : node) : Z := foldl (fun sz x => sz + item_size (isLeaf n) x) pageHeaderSize (inodes n).

Fixpoint less_loop (leaf : bool) (l : list inode) (sz v : Z) : bool :=
  match l with
  | [] => true
  | x :: l' => let sz := sz + item_size leaf x in if v <=? sz then false else less_loop leaf l' sz v
  end.

Definition sizeLessThan (n : node) (v : Z) : bool := less_loop (isLeaf n) (inodes n) pageHeaderSize v.

(** One turn of the loop of [read]. *)
Definition read_inode (leaf : bool) (p : page) (i : Z) : outcome inode :=
  let! x :=
    (if leaf then
       let! e := leafPageElement p i in
       let! k := leaf_key p i e in
       let! v := leaf_value p i e in
       Ok (mkInode (le_flags e) 0 k v)
     else
       let! e := branchPageElement p i in
       let! k := branch_key p i e in
       Ok (mkInode 0 (be_pgid e) k [])) in
  if len (ikey x) =? 0 then Panic else Ok x.

Fixpoint read_inodes (leaf : bool) (p : page) (i : Z) (n : nat) : outcome (list inode) :=
  match n with
  | O => Ok []
  | S n' => let! x := read_inode leaf p i in let! l := read_inodes leaf p (i + 1) n' in Ok (x :: l)
  end.

Definition leaf_page (p : page) : bool := negb (Z.land (p_flags p) leafPageFlag =? 0).

Definition read (n : node) (p : page) : outcome node :=
  let leaf := leaf_page p in
  let! l := read_inodes leaf p 0 (Z.to_nat (p_count p)) in
  Ok (mkNode leaf (unbalanced n) (spilled n) (ikey <$> head l) (p_id p) (parent n) (children n) l).

(** The element in front, then key and value behind all elements; [off] is where
    the next key goes. *)
Fixpoint write_loop (leaf : bool) (pid : Z) (l : list inode) (i off : Z) (d : bytes) : outcome bytes :=
  match l with
  | [] => Ok d
  | x :: l' =>
      if len (ikey x) =? 0 then Panic
      else
        let! d :=
          (if leaf then
             poke_data d (leafPageElementSize * i)
               (le_put 4 (iflags x) ++ le_put 4 (u32 (off - leafPageElementSize * i)) ++ le_put 4 (u32 (len (ikey x))) ++ le_put 4 (u32 (len (ivalue x))))
           else
             let! d := poke_data d (branchPageElementSize * i)
               (le_put 4 (u32 (off - branchPageElementSize * i)) ++ le_put 4 (u32 (len (ikey x))) ++ le_put 8 (ipgid x)) in
             if ipgid x =? pid then Panic else Ok d) in
        let! d := poke_data d off (ikey x ++ ivalue x) in
        write_loop leaf pid l' (i + 1) (off + (len (ikey x) + len (ivalue x))) d
  end.

Definition write (n : node) (p : page) : outcome page :=
  let flags := Z.lor (p_flags p) (if isLeaf n then leafPageFlag else branchPageFlag) in
  let c := len (inodes n) in
  if 65535 <=? c then Panic
  else if u16 c =? 0 then Ok (mkPage (p_id p) flags (u16 c) (p_overflow p) (p_data p))
  else
    let! d := write_loop (isLeaf n) (p_id p) (inodes n) 0 (pageElementSize (isLeaf n) * c) (p_data p) in
    Ok (mkPage (p_id p) flags (u16 c) (p_overflow p) d).

(** ** Reading back *)

Lemma peek_range d off n bs : peek_data d off n = Ok bs -> 0 <= off /\ 0 <= n /\ off + n <= len d /\ len bs = n.
Proof.
  unfold peek_data. destruct (Z.ltb_spec off 0); [done|]. destruct (Z.ltb_spec n 0); [done|]. destruct (Z.ltb_spec (len d) (off + n)); [done|]. cbn [orb].
  intros [= <-]. repeat split; try lia. unfold len in *. rewrite length_take, length_drop. lia.
Qed.

Lemma peek_ok d off n : 0 <= off -> 0 <= n -> off + n <= len d -> peek_data d off n = Ok (take (Z.to_nat n) (drop (Z.to_nat off) d)).
Proof. intros. unfold peek_data. bdestruct_all; (done || lia). Qed.

(** What a write leaves alone. *)
Lemma poke_other d off bs d' o n : poke_data d off bs = Ok d' -> o + n <= off \/ off + len bs <= o -> peek_data d' o n = peek_data d o n.
Proof.
  unfold poke_data. destruct (Z.ltb_spec off 0); [done|]. destruct (Z.ltb_spec (len d) (off + len bs)); [done|]. cbn [orb]. intros [= <-] Ho.
  pose proof (len_nonneg bs). set (a := take (Z.to_nat off) d). assert (Ha : length a = Z.to_nat off) by (unfold a; rewrite length_take; unfold len in *; lia).
  assert (Hlen : len (a ++ bs ++ drop (Z.to_nat (off + len bs)) d) = len d) by (unfold len in *; rewrite !length_app, Ha, length_drop; lia).
  unfold peek_data. rewrite Hlen. destruct (Z.ltb_spec o 0); [done|]. destruct (Z.ltb_spec n 0); [done|]. destruct (Z.ltb_spec (len d) (o + n)); [done|]. cbn [orb]. f_equal.
  destruct Ho as [Ho|Ho].
  - rewrite drop_app_le by lia. rewrite take_app_le by (rewrite length_drop, Ha; lia).
    unfold a. rewrite !take_drop_commute, take_take. do 2 f_equal. lia.
  - rewrite drop_app_ge by lia. rewrite Ha. rewrite drop_app_ge by (unfold len in *; lia). rewrite drop_drop. f_equal. f_equal. unfold len in *. lia.
Qed.

Lemma poke_ok d off bs : 0 <= off -> off + len bs <= len d ->
  exists d', poke_data d off bs = Ok d' /\ len d' = len d /\ peek_data d' off (len bs) = Ok bs /\
    forall o n, o + n <= off \/ off + len bs <= o -> peek_data d' o n = peek_data d o n.
Proof.
  intros Ho Hl. destruct (poke_data_ok d off bs Ho Hl) as (d' & E & H1 & _ & H2). exists d'. repeat split; try done. intros o n. by eapply poke_other.
Qed.

(** What a page keeps of an item. *)
Definition stored (leaf : bool) (x : inode) : inode :=
  if leaf then mkInode (iflags x) 0 (ikey x) (ivalue x) else mkInode 0 (ipgid x) (ikey x) [].

(** Items a page can hold. *)
Record item_ok (leaf : bool) (pid : Z) (x : inode) : Prop := mkItemOk {
  io_key : ikey x <> [];
  io_flags : 0 <= iflags x < 4294967296;
  io_pgid : 0 <= ipgid x < 18446744073709551616;
  io_self : leaf = false -> ipgid x <> pid
}.

Definition body_size (l : list inode) : Z := foldr (fun x s => len (ikey x) + len (ivalue x) + s) 0 l.

Lemma body_size_cons x l : body_size (x :: l) = len (ikey x) + len (ivalue x) + body_size l.
Proof. done. Qed.

Lemma body_size_nonneg l : 0 <= body_size l.
Proof. induction l as [|x l IH]; [done|]. rewrite body_size_cons. pose proof (len_nonneg (ikey x)). pose proof (len_nonneg (ivalue x)). lia. Qed.

Lemma get_u32_peek d off v rest n :
  0 <= v < 4294967296 -> peek_data d off n = Ok (le_put 4 v ++ rest) -> get_u32 d off = Ok v /\ peek_data d (off + 4) (n - 4) = Ok rest.
Proof.
  intros Hv H. destruct (peek_range _ _ _ _ H) as (_ & _ & _ & Hn). rewrite len_app in Hn. assert (E4 : len (le_put 4 v) = 4) by (unfold len; by rewrite length_le_put).
  rewrite <-Hn, <-len_app in H. apply peek_app in H as [H1 H2]. rewrite E4 in *. unfold get_u32. rewrite H1. cbn [rbind]. rewrite le_get_put_u32, u32_small by lia.
  split; [done|]. by replace (n - 4) with (len rest) by lia.
Qed.

Lemma get_u64_peek d off v : 0 <= v < 18446744073709551616 -> peek_data d off 8 = Ok (le_put 8 v) -> get_u64 d off = Ok v.
Proof. intros Hv H. unfold get_u64. rewrite H. cbn [rbind]. by rewrite le_get_put_u64, u64_small. Qed.

Lemma read_leaf_elem p i x off :
  item_ok true (p_id p) x -> 0 <= i -> leafPageElementSize * i <= off -> off + len (ikey x) + len (ivalue x) <= len (p_data p) -> len (p_data p) < 4294967296 ->
  peek_data (p_data p) (leafPageElementSize * i) 16 =
    Ok (le_put 4 (iflags x) ++ le_put 4 (u32 (off - leafPageElementSize * i)) ++ le_put 4 (u32 (len (ikey x))) ++ le_put 4 (u32 (len (ivalue x)))) ->
  peek_data (p_data p) off (len (ikey x ++ ivalue x)) = Ok (ikey x ++ ivalue x) -> read_inode true p i = Ok (stored true x).
Proof.
  intros Hx Hi Ho Hl H32 Hel Hkv. pose proof (len_nonneg (ikey x)). pose proof (len_nonneg (ivalue x)). unfold leafPageElementSize in *.
  rewrite !u32_small in Hel by lia. apply get_u32_peek in Hel as [E1 Hel]; [|apply Hx]. apply get_u32_peek in Hel as [E2 Hel]; [|lia].
  apply get_u32_peek in Hel as [E3 Hel]; [|lia]. rewrite <-(app_nil_r (le_put 4 (len (ivalue x)))) in Hel. apply get_u32_peek in Hel as [E4 _]; [|lia].
  apply peek_app in Hkv as [Hk Hv]. unfold read_inode, leafPageElement, leaf_key, leaf_value, leafPageElementSize. rewrite E1, E2. cbn [rbind].
  replace (16 * i + 8) with (16 * i + 4 + 4) by lia. rewrite E3. cbn [rbind]. replace (16 * i + 12) with (16 * i + 4 + 4 + 4) by lia. rewrite E4.
  cbn [rbind le_flags le_pos le_ksize le_vsize]. replace (16 * i + (off - 16 * i)) with off by lia. rewrite Hk. cbn [rbind]. rewrite Hv. cbn [rbind ikey].
  destruct (Z.eqb_spec (len (ikey x)) 0) as [E|]; [|done]. exfalso. apply (io_key _ _ _ Hx). by destruct (ikey x); [|rewrite len_cons in E; pose proof (len_nonneg l); lia].
Qed.

Lemma read_branch_elem p i x off :
  item_ok false (p_id p) x -> 0 <= i -> branchPageElementSize * i <= off -> off + len (ikey x) + len (ivalue x) <= len (p_data p) -> len (p_data p) < 4294967296 ->
  peek_data (p_data p) (branchPageElementSize * i) 16 =
    Ok (le_put 4 (u32 (off - branchPageElementSize * i)) ++ le_put 4 (u32 (len (ikey x))) ++ le_put 8 (ipgid x)) ->
  peek_data (p_data p) off (len (ikey x ++ ivalue x)) = Ok (ikey x ++ ivalue x) -> read_inode false p i = Ok (stored false x).
Proof.
  intros Hx Hi Ho Hl H32 Hel Hkv. pose proof (len_nonneg (ikey x)). pose proof (len_nonneg (ivalue x)). unfold branchPageElementSize in *.
  rewrite !u32_small in Hel by lia. apply get_u32_peek in Hel as [E1 Hel]; [|lia]. apply get_u32_peek in Hel as [E2 Hel]; [|lia].
  apply get_u64_peek in Hel; [|apply Hx]. apply peek_app in Hkv as [Hk _].
  unfold read_inode, branchPageElement, branch_key, branchPageElementSize. rewrite E1, E2. cbn [rbind].
  replace (16 * i + 8) with (16 * i + 4 + 4) by lia. rewrite Hel.
  cbn [rbind be_pos be_ksize be_pgid]. replace (16 * i + (off - 16 * i)) with off by lia. rewrite Hk. cbn [rbind ikey].
  destruct (Z.eqb_spec (len (ikey x)) 0) as [E|]; [|done]. exfalso. apply (io_key _ _ _ Hx). by destruct (ikey x); [|rewrite len_cons in E; pose proof (len_nonneg l); lia].
Qed.

Definition elem_bytes (leaf : bool) (i off : Z) (x : inode) : bytes :=
  if leaf then le_put 4 (iflags x) ++ le_put 4 (u32 (off - leafPageElementSize * i)) ++ le_put 4 (u32 (len (ikey x))) ++ le_put 4 (u32 (len (ivalue x)))
  else le_put 4 (u32 (off - branchPageElementSize * i)) ++ le_put 4 (u32 (len (ikey x))) ++ le_put 8 (ipgid x).

Lemma len_elem_bytes leaf i off x : len (elem_bytes leaf i off x) = 16.
Proof. unfold elem_bytes, len. destruct leaf; rewrite !length_app, !length_le_put; done. Qed.

(** Item [x] is in the data as element [i], with its key at [off]. *)
Definition elem_at (leaf : bool) (d : bytes) (i off : Z) (x : inode) : Prop :=
  peek_data d (16 * i) 16 = Ok (elem_bytes leaf i off x) /\ peek_data d off (len (ikey x ++ ivalue x)) = Ok (ikey x ++ ivalue x).

Lemma write_loop_ok leaf pid l i off d :
  Forall (item_ok leaf pid) l -> 0 <= i -> 16 * (i + len l) <= off -> off + body_size l <= len d ->
  exists d', write_loop leaf pid l i off d = Ok d' /\ len d' = len d /\
    (forall o n, o + n <= 16 * i \/ 16 * (i + len l) <= o -> o + n <= off \/ off + body_size l <= o -> peek_data d' o n = peek_data d o n) /\
    (forall j x, l !! j = Some x -> elem_at leaf d' (i + Z.of_nat j) (off + body_size (take j l)) x).
Proof.
  revert i off d. induction l as [|x l IH]; intros i off d Hl Hi Ho Hb; [by exists d|]. apply Forall_cons in Hl as [Hx Hl].
  rewrite body_size_cons in Hb. rewrite len_cons in Ho. pose proof (body_size_nonneg l). pose proof (len_nonneg l).
  pose proof (len_nonneg (ikey x)). pose proof (len_nonneg (ivalue x)). cbn [write_loop].
  destruct (Z.eqb_spec (len (ikey x)) 0) as [E|_].
  { exfalso. apply (io_key _ _ _ Hx). by destruct (ikey x) as [|b k]; [|rewrite len_cons in E; pose proof (len_nonneg k); lia]. }
  destruct (poke_ok d (16 * i) (elem_bytes leaf i off x)) as (d1 & E1 & L1 & P1 & F1); [lia|rewrite len_elem_bytes; lia|].
  rewrite len_elem_bytes in P1, F1.
  assert ((if leaf then poke_data d (leafPageElementSize * i)
               (le_put 4 (iflags x) ++ le_put 4 (u32 (off - leafPageElementSize * i)) ++ le_put 4 (u32 (len (ikey x))) ++ le_put 4 (u32 (len (ivalue x))))
           else
             let! d := poke_data d (branchPageElementSize * i)
               (le_put 4 (u32 (off - branchPageElementSize * i)) ++ le_put 4 (u32 (len (ikey x))) ++ le_put 8 (ipgid x)) in
             if ipgid x =? pid then Panic else Ok d) = Ok d1) as ->.
  { destruct leaf; [exact E1|]. unfold elem_bytes in E1. unfold branchPageElementSize in *. rewrite E1. cbn [rbind].
    destruct (Z.eqb_spec (ipgid x) pid) as [E|]; [|done]. by destruct (io_self _ _ _ Hx eq_refl). }
  cbn [rbind]. destruct (poke_ok d1 off (ikey x ++ ivalue x)) as (d2 & -> & L2 & P2 & F2); [lia|rewrite len_app; lia|]. rewrite len_app in F2. cbn [rbind].
  destruct (IH (i + 1) (off + (len (ikey x) + len (ivalue x))) d2) as (d' & E' & L' & F' & R'); [done|lia|lia|lia|].
  exists d'. split; [done|]. split; [congruence|]. split.
  - intros o n Ha Hc. rewrite len_cons in Ha. rewrite body_size_cons in Hc. rewrite F' by lia. rewrite F2 by lia. apply F1. lia.
  - intros [|j] y Hy; cbn in Hy.
    + injection Hy as <-. cbn [take body_size foldr]. rewrite !Z.add_0_r. split.
      * rewrite F' by lia. rewrite F2 by lia. done.
      * rewrite F' by (rewrite len_app; lia). done.
    + specialize (R' j y Hy). cbn [take]. rewrite body_size_cons. replace (i + Z.of_nat (S j)) with (i + 1 + Z.of_nat j) by lia.
      by replace (off + (len (ikey x) + len (ivalue x) + body_size (take j l))) with (off + (len (ikey x) + len (ivalue x)) + body_size (take j l)) by lia.
Qed.

Lemma body_size_app a b : body_size (a ++ b) = body_size a + body_size b.
Proof. induction a as [|x a IH]; [done|]. cbn [app]. rewrite !body_size_cons, IH. lia. Qed.

Lemma read_elems leaf p l i off :
  Forall (item_ok leaf (p_id p)) l -> 0 <= i -> 16 * (i + len l) <= off -> off + body_size l <= len (p_data p) -> len (p_data p) < 4294967296 ->
  (forall j x, l !! j = Some x -> elem_at leaf (p_data p) (i + Z.of_nat j) (off + body_size (take j l)) x) ->
  read_inodes leaf p i (length l) = Ok (stored leaf <$> l).
Proof.
  revert i off. induction l as [|x l IH]; intros i off Hl Hi Ho Hb H32 Hel; [done|]. apply Forall_cons in Hl as [Hx Hl].
  rewrite body_size_cons in Hb. rewrite len_cons in Ho. pose proof (body_size_nonneg l). pose proof (len_nonneg l). cbn [length read_inodes].
  assert (read_inode leaf p i = Ok (stored leaf x)) as ->.
  { destruct (Hel 0%nat x eq_refl) as [He Hkv]. cbn [take body_size foldr Z.of_nat] in He, Hkv.
    replace (off + 0) with off in He, Hkv by lia. replace (i + Z.of_nat 0) with i in He by lia.
    destruct leaf; [apply (read_leaf_elem p i x off); [done|done|unfold leafPageElementSize; lia|lia|done|exact He|done]|apply (read_branch_elem p i x off); [done|done|unfold branchPageElementSize; lia|lia|done|exact He|done]]. }
  pose proof (len_nonneg (ikey x)). pose proof (len_nonneg (ivalue x)).
  cbn [rbind]. rewrite (IH (i + 1) (off + (len (ikey x) + len (ivalue x)))); [done|done|lia|lia|lia|done|].
  intros j y Hy. specialize (Hel (S j) y Hy). cbn [take] in Hel. rewrite body_size_cons in Hel. replace (i + 1 + Z.of_nat j) with (i + Z.of_nat (S j)) by lia.
  by replace (off + (len (ikey x) + len (ivalue x)) + body_size (take j l)) with (off + (len (ikey x) + len (ivalue x) + body_size (take j l))) by lia.
Qed.

Lemma size_body n : size n = pageHeaderSize + 16 * len (inodes n) + body_size (inodes n).
Proof.
  unfold size. generalize pageHeaderSize as z. induction (inodes n) as [|x l IH]; intros z; cbn [foldl]; [change (len (@nil inode)) with 0; change (body_size []) with 0; lia|].
  rewrite IH, body_size_cons, len_cons. unfold item_size, pageElementSize, leafPageElementSize, branchPageElementSize. destruct (isLeaf n); lia.
Qed.

(** The two ways to measure a node agree. *)
Lemma sizeLessThan_size n v : pageHeaderSize < v -> sizeLessThan n v = (size n <? v).
Proof.
  unfold sizeLessThan, size. generalize pageHeaderSize as z. induction (inodes n) as [|x l IH]; intros z Hz; cbn [less_loop foldl].
  - by destruct (Z.ltb_spec z v); [|lia].
  - cbv zeta. destruct (Z.leb_spec v (z + item_size (isLeaf n) x)) as [Hle|Hlt]; [|by apply IH].
    symmetry. apply Z.ltb_ge. clear IH. revert Hle. generalize (z + item_size (isLeaf n) x) as w. induction l as [|y l IH]; intros w Hw; cbn [foldl]; [done|].
    apply IH. unfold item_size, pageElementSize, leafPageElementSize, branchPageElementSize. pose proof (len_nonneg (ikey y)). pose proof (len_nonneg (ivalue y)). destruct (isLeaf n); lia.
Qed.

Lemma flags_leaf fl (leaf : bool) : Z.land fl leafPageFlag = 0 ->
  negb (Z.land (Z.lor fl (if leaf then leafPageFlag else branchPageFlag)) leafPageFlag =? 0) = leaf.
Proof. intros E. rewrite Z.land_lor_distr_l, E, Z.lor_0_l. by destruct leaf. Qed.

(** A node that can be written to a page with that number. *)
Record writable (n : node) (pid : Z) : Prop := mkWritable {
  wr_items : Forall (item_ok (isLeaf n) pid) (inodes n);
  wr_count : len (inodes n) < 65535
}.

(** A node fits into the pages that are allocated for it, and what is read from
    them is what was written. *)
Lemma node_write_read n p m :
  writable n (p_id p) -> Z.land (p_flags p) leafPageFlag = 0 -> size n <= pageHeaderSize + len (p_data p) -> len (p_data p) < 4294967296 ->
  exists p', write n p = Ok p' /\ p_id p' = p_id p /\ p_overflow p' = p_overflow p /\ len (p_data p') = len (p_data p) /\
    p_count p' = len (inodes n) /\ leaf_page p' = isLeaf n /\
    (forall i, 0 <= i < len (inodes n) -> exists x, inodes n !! Z.to_nat i = Some x /\ read_inode (isLeaf n) p' i = Ok (stored (isLeaf n) x)) /\
    read m p' = Ok (mkNode (isLeaf n) (unbalanced m) (spilled m) (ikey <$> head (inodes n)) (p_id p) (parent m) (children m) (stored (isLeaf n) <$> inodes n)).
Proof.
  intros [Hit Hc] Hfl Hsz H32. rewrite size_body in Hsz. pose proof (len_nonneg (inodes n)) as Hn. unfold write.
  destruct (Z.leb_spec 65535 (len (inodes n))); [lia|]. rewrite u16_small by lia. set (fl := Z.lor _ _).
  assert (Hleaf : forall c d, leaf_page (mkPage (p_id p) fl c (p_overflow p) d) = isLeaf n) by (intros c d; apply flags_leaf, Hfl).
  assert (Hread : forall d, (forall j x, inodes n !! j = Some x -> elem_at (isLeaf n) d (Z.of_nat j) (16 * len (inodes n) + body_size (take j (inodes n))) x) ->
    len d = len (p_data p) -> forall m, read m (mkPage (p_id p) fl (len (inodes n)) (p_overflow p) d) =
      Ok (mkNode (isLeaf n) (unbalanced m) (spilled m) (ikey <$> head (inodes n)) (p_id p) (parent m) (children m) (stored (isLeaf n) <$> inodes n))).
  { intros d Hel Hd m'. unfold read. rewrite Hleaf. cbn [p_count p_id]. replace (Z.to_nat (len (inodes n))) with (length (inodes n)) by (unfold len; lia).
    rewrite (read_elems (isLeaf n) _ (inodes n) 0 (16 * len (inodes n))); cbn [p_id p_data]; [|done|lia|lia|lia|lia|exact Hel]. cbn [rbind].
    do 2 f_equal. destruct (inodes n) as [|x l]; [done|]. unfold stored. cbn. by destruct (isLeaf n). }
  assert (Hone : forall d, (forall j x, inodes n !! j = Some x -> elem_at (isLeaf n) d (Z.of_nat j) (16 * len (inodes n) + body_size (take j (inodes n))) x) ->
    len d = len (p_data p) -> forall c i, 0 <= i < len (inodes n) -> exists x, inodes n !! Z.to_nat i = Some x /\
      read_inode (isLeaf n) (mkPage (p_id p) fl c (p_overflow p) d) i = Ok (stored (isLeaf n) x)).
  { intros d Hel Hd c i Hi. destruct (lookup_lt_is_Some_2 (inodes n) (Z.to_nat i)) as [x Hx]; [unfold len in *; lia|]. exists x. split; [done|].
    destruct (Hel _ _ Hx) as [He Hkv]. rewrite Z2Nat.id in He by lia. rewrite Forall_lookup in Hit.
    assert (Hb : body_size (inodes n) = body_size (take (Z.to_nat i) (inodes n)) + (len (ikey x) + len (ivalue x) + body_size (drop (S (Z.to_nat i)) (inodes n)))).
    { rewrite <-body_size_cons, <-body_size_app. by rewrite take_drop_middle. }
    pose proof (body_size_nonneg (take (Z.to_nat i) (inodes n))). pose proof (body_size_nonneg (drop (S (Z.to_nat i)) (inodes n))). unfold pageHeaderSize in Hsz.
    destruct (isLeaf n) eqn:El; [apply (read_leaf_elem _ i x (16 * len (inodes n) + body_size (take (Z.to_nat i) (inodes n))))|
      apply (read_branch_elem _ i x (16 * len (inodes n) + body_size (take (Z.to_nat i) (inodes n))))]; cbn [p_id p_data]; unfold leafPageElementSize, branchPageElementSize;
      [by eapply Hit|lia|lia|lia|lia|exact He|exact Hkv|by eapply Hit|lia|lia|lia|lia|exact He|exact Hkv]. }
  destruct (Z.eqb_spec (len (inodes n)) 0) as [E|Hne].
  - assert (En : inodes n = []) by (destruct (inodes n); [done|rewrite len_cons in E; pose proof (len_nonneg l); lia]).
    eexists. split; [done|]. rewrite Hleaf. repeat split; try done; [by apply Hone; [rewrite En|]|by apply Hread; [rewrite En|]].
  - assert (pageElementSize (isLeaf n) * len (inodes n) = 16 * len (inodes n)) as -> by (unfold pageElementSize; by destruct (isLeaf n)).
    destruct (write_loop_ok (isLeaf n) (p_id p) (inodes n) 0 (16 * len (inodes n)) (p_data p)) as (d & -> & Ld & _ & Hel); [done|lia|lia|unfold pageHeaderSize in Hsz; lia|].
    cbn [rbind]. eexists. split; [done|]. rewrite Hleaf. repeat split; try done; [by apply Hone|by apply Hread].
Qed.

(** ** Pages for a node *)

(** The buffer [DB.allocate] makes for [count] pages. *)
Definition new_page (pageSize id count : Z) : page := mkPage id 0 0 (u32 (count - 1)) (replicate (Z.to_nat (count * pageSize - pageHeaderSize)) 0).

(** How many pages [spill] asks for. *)
Definition pages_for (n : node) (pageSize : Z) : Z := (size n + pageSize - 1) / pageSize.

Lemma pages_for_enough n pageSize : 0 < pageSize -> size n <= pages_for n pageSize * pageSize /\ 1 <= pages_for n pageSize.
Proof.
  intros Hp. unfold pages_for. pose proof (Z.div_mod (size n + pageSize - 1) pageSize ltac:(lia)) as E.
  pose proof (Z.mod_pos_bound (size n + pageSize - 1) pageSize Hp). pose proof (size_body n) as Hs. pose proof (body_size_nonneg (inodes n)).
  pose proof (len_nonneg (inodes n)). unfold pageHeaderSize in Hs. split; [lia|]. apply Z.div_le_lower_bound; lia.
Qed.

Lemma len_new_page pageSize id count : pageHeaderSize <= pageSize -> 1 <= count -> len (p_data (new_page pageSize id count)) = count * pageSize - pageHeaderSize.
Proof. intros H1 H2. unfold new_page. cbn [p_data]. unfold len. rewrite length_replicate, Z2Nat.id; [done|]. unfold pageHeaderSize in *. nia. Qed.

(** C24: a node written into the pages allocated for its size never runs past
    them, also when it needs several, and reading the page gives back the kind
    of the node and all its items, in order: flags, key and value in a leaf, key
    and child in a branch; the node's key is the first of them. *)
Theorem node_page_roundtrip n m id pageSize :
  writable n id -> pageHeaderSize < pageSize -> pages_for n pageSize * pageSize < 4294967296 ->
  exists p, write n (new_page pageSize id (pages_for n pageSize)) = Ok p /\ p_id p = id /\ p_overflow p = pages_for n pageSize - 1 /\
    read m p = Ok (mkNode (isLeaf n) (unbalanced m) (spilled m) (ikey <$> head (inodes n)) id (parent m) (children m) (stored (isLeaf n) <$> inodes n)).
Proof.
  intros Hw Hps H32. unfold pageHeaderSize in Hps. destruct (pages_for_enough n pageSize) as [H1 H2]; [lia|].
  pose proof (len_new_page pageSize id (pages_for n pageSize) ltac:(unfold pageHeaderSize; lia) H2) as Hl. unfold pageHeaderSize in Hl.
  destruct (node_write_read n (new_page pageSize id (pages_for n pageSize)) m) as (p & E & Hid & Ho & _ & _ & _ & _ & Hr); [done|done|unfold pageHeaderSize; lia|lia|].
  exists p. split; [done|]. split; [done|]. split; [|done]. rewrite Ho. cbn [new_page p_overflow]. apply u32_small. nia.
Qed.

(** A leaf of two pages. *)
Definition demo_leaf : node :=
  mkNode true false false None 0 None [] [mkInode 0 0 [1; 2] (replicate 40 7); mkInode 1 0 [1; 3] [8; 9]; mkInode 0 0 [2] []].

Lemma node_page_roundtrip_witness :
  exists p, write demo_leaf (new_page 64 5 2) = Ok p /\ p_overflow p = 1 /\
    read (mkNode false false false None 0 None [] []) p = Ok (mkNode true false false (Some [1; 2]) 5 None [] (inodes demo_leaf)).
Proof.
  destruct (node_page_roundtrip demo_leaf (mkNode false false false None 0 None [] []) 5 64) as (p & E & _ & Ho & Hr).
  - split; [|done]. repeat (constructor; [by split|]). constructor.
  - done.
  - done.
  - exists p. split; [exact E|]. split; [exact Ho|exact Hr].
Defined.

End Bdb.
