(* ===== verification/BdbCursor.v ===== *)
(** Buckets and cursors of bdb (bitree/bdb/cursor.go, the read side of bucket.go
    and bitree/bdb/iterator.go).

    A bucket is a B+tree of pages of which some, in a write transaction, are
    replaced by nodes: [nodes] maps a page number to a reference into [heap].
    [pg] is [tx.page].  A cursor is its stack of positions, the innermost first.

    Loops down the tree take fuel; a tree of height [h] needs [h + 1]. *)

From Stdlib Require Import ZArith Lia.
From stdpp Require Import base numbers option sorting list gmap.
From S2P Require Import Prelude Base Iter Freelist FreelistSafe BdbPage.
Import Freelist Bdb.

Module BdbCursor.

Record Bucket : Type := mkBucket {
  root : Z;
  sequence : Z;
  bpage : option page;         (* the page of an inline bucket *)
  rootNode : option Z;
  nodes : gmap Z Z;
  heap : gmap Z node;
  nextRef : Z                  (* the next unused reference *)
}.

Definition with_rootNode (b : Bucket) r := mkBucket (root b) (sequence b) (bpage b) r (nodes b) (heap b) (nextRef b).
Definition with_nodes (b : Bucket) m := mkBucket (root b) (sequence b) (bpage b) (rootNode b) m (heap b) (nextRef b).
Definition with_heap (b : Bucket) h := mkBucket (root b) (sequence b) (bpage b) (rootNode b) (nodes b) h (nextRef b).

Definition set_node (b : Bucket) (r : Z) (n : node) : Bucket := with_heap b (<[r := n]> (heap b)).

(** Following a reference; nil is a fault. *)
Definition deref (b : Bucket) (r : Z) : outcome node := match heap b !! r with Some n => Ok n | None => Panic end.

(** A new object. *)
Definition alloc (b : Bucket) (n : node) : Bucket * Z :=
  (mkBucket (root b) (sequence b) (bpage b) (rootNode b) (nodes b) (<[nextRef b := n]> (heap b)) (nextRef b + 1), nextRef b).

(** [sort.Search] over keys, remembering whether a key compared equal; [f]
    gives the comparison with the key that is sought. *)
Fixpoint search_exact_loop (fuel : nat) (i j : Z) (f : Z -> outcome Z) (exact : bool) : outcome (Z * bool) :=
  match fuel with
  | O => Ok (i, exact)
  | S fuel' =>
      if i <? j then
        let h := Z.shiftr (i + j) 1 in
        let! r := f h in
        let exact := exact || (r =? 0) in
        if negb (r =? -1) then search_exact_loop fuel' i h f exact else search_exact_loop fuel' (h + 1) j f exact
      else Ok (i, exact)
  end.

Definition search_exact (n : Z) (f : Z -> outcome Z) : outcome (Z * bool) := search_exact_loop (Z.to_nat n) 0 n f false.

Section Cursor.
Context (pg : Z -> outcome page).

Definition pageNode (b : Bucket) (id : Z) : outcome (option page * option Z) :=
  if root b =? 0 then
    if negb (id =? 0) then Panic
    else match rootNode b with
         | Some r => Ok (None, Some r)
         | None => Ok (bpage b, None)
         end
  else match nodes b !! id with
       | Some r => Ok (None, Some r)
       | None => let! p := pg id in Ok (Some p, None)
       end.

Record elemRef : Type := mkRef { ref_page : option page; ref_node : option Z; index : Z }.

Definition with_index (e : elemRef) (i : Z) : elemRef := mkRef (ref_page e) (ref_node e) i.

Definition ref_isLeaf (b : Bucket) (e : elemRef) : outcome bool :=
  match ref_node e, ref_page e with
  | Some r, _ => let! n := deref b r in Ok (isLeaf n)
  | None, Some p => Ok (leaf_page p)
  | None, None => Panic
  end.

Definition ref_count (b : Bucket) (e : elemRef) : outcome Z :=
  match ref_node e, ref_page e with
  | Some r, _ => let! n := deref b r in Ok (len (inodes n))
  | None, Some p => Ok (p_count p)
  | None, None => Panic
  end.

(** The page number in the element a branch position is at. *)
Definition ref_child (b : Bucket) (e : elemRef) : outcome Z :=
  match ref_node e, ref_page e with
  | Some r, _ =>
      let! n := deref b r in
      if index e <? 0 then Panic
      else match inodes n !! Z.to_nat (index e) with Some x => Ok (ipgid x) | None => Panic end
  | None, Some p => let! x := branchPageElement p (u16 (index e)) in Ok (be_pgid x)
  | None, None => Panic
  end.

Abbreviation stack := (list elemRef) (only parsing).

Definition top (c : stack) : outcome elemRef := match c with [] => Panic | e :: _ => Ok e end.

(** *** Moving down *)

Fixpoint first (fuel : nat) (b : Bucket) (c : stack) : outcome stack :=
  let! e := top c in
  let! leaf := ref_isLeaf b e in
  if leaf : bool then Ok c
  else
    match fuel with
    | O => Err ErrModelFuel
    | S fuel' =>
        let! id := ref_child b e in
        let! (p, n) := pageNode b id in
        first fuel' b (mkRef p n 0 :: c)
    end.

Fixpoint last (fuel : nat) (b : Bucket) (c : stack) : outcome stack :=
  let! e := top c in
  let! leaf := ref_isLeaf b e in
  if leaf : bool then Ok c
  else
    match fuel with
    | O => Err ErrModelFuel
    | S fuel' =>
        let! id := ref_child b e in
        let! (p, n) := pageNode b id in
        let! k := ref_count b (mkRef p n 0) in
        last fuel' b (mkRef p n (k - 1) :: c)
    end.

(** The element under the cursor: key, value and flags. *)
Definition keyValue (b : Bucket) (c : stack) : outcome (option (bytes * bytes * Z)) :=
  let! e := top c in
  let! k := ref_count b e in
  if (k =? 0) || (k <=? index e) then Ok None
  else
    match ref_node e, ref_page e with
    | Some r, _ =>
        let! n := deref b r in
        if index e <? 0 then Panic
        else match inodes n !! Z.to_nat (index e) with Some x => Ok (Some (ikey x, ivalue x, iflags x)) | None => Panic end
    | None, Some p =>
        let i := u16 (index e) in
        let! x := leafPageElement p i in
        let! k := leaf_key p i x in
        let! v := leaf_value p i x in
        Ok (Some (k, v, le_flags x))
    | None, None => Panic
    end.

(** *** Moving along *)

(** The positions that are at their last element are popped, the next one
    moves. *)
Fixpoint bump (b : Bucket) (c : stack) : outcome stack :=
  match c with
  | [] => Ok []
  | e :: c' =>
      let! k := ref_count b e in
      if index e <? k - 1 then Ok (with_index e (index e + 1) :: c') else bump b c'
  end.

(** [next]: at the end the stack stays as it is. *)
Fixpoint next (turns fuel : nat) (b : Bucket) (c : stack) : outcome (stack * option (bytes * bytes * Z)) :=
  let! c' := bump b c in
  match c' with
  | [] => Ok (c, None)
  | _ =>
      let! c' := first fuel b c' in
      let! e := top c' in
      let! k := ref_count b e in
      if k =? 0 then
        match turns with
        | O => Err ErrModelFuel
        | S turns' => next turns' fuel b c'
        end
      else let! r := keyValue b c' in Ok (c', r)
  end.

(** Popping on the way back: the stack is cut as it goes. *)
Fixpoint drop_back (c : stack) : stack :=
  match c with
  | [] => []
  | e :: c' => if 0 <? index e then with_index e (index e - 1) :: c' else drop_back c'
  end.

(** *** Searching *)

Definition keys_cmp (b : Bucket) (e : elemRef) (leaf : bool) (key : bytes) (i : Z) : outcome Z :=
  match ref_node e, ref_page e with
  | Some r, _ =>
      let! n := deref b r in
      match inodes n !! Z.to_nat i with Some x => Ok (bytes_compare (ikey x) key) | None => Panic end
  | None, Some p =>
      if leaf then let! x := leafPageElement p i in let! k := leaf_key p i x in Ok (bytes_compare k key)
      else let! x := branchPageElement p i in let! k := branch_key p i x in Ok (bytes_compare k key)
  | None, None => Panic
  end.

(** [nsearch]: the first element of the leaf at or past the key. *)
Definition nsearch (b : Bucket) (e : elemRef) (key : bytes) : outcome elemRef :=
  let! n := ref_count b e in
  let! i := search n (fun i => let! r := keys_cmp b e true key i in Ok (negb (r =? -1))) in
  Ok (with_index e i).

(** [searchNode] and [searchPage]: the child the key belongs to. *)
Definition search_branch (b : Bucket) (e : elemRef) (key : bytes) : outcome elemRef :=
  let! n := ref_count b e in
  let! (i, exact) := search_exact n (keys_cmp b e false key) in
  Ok (with_index e (if negb exact && (0 <? i) then i - 1 else i)).

Fixpoint csearch (fuel : nat) (b : Bucket) (key : bytes) (id : Z) (c : stack) : outcome stack :=
  let! (p, n) := pageNode b id in
  let! _ := (match p with
             | Some p => if Z.land (p_flags p) (Z.lor branchPageFlag leafPageFlag) =? 0 then Panic else Ok tt
             | None => Ok tt
             end) in
  let e := mkRef p n 0 in
  let! leaf := ref_isLeaf b e in
  if leaf : bool then let! e := nsearch b e key in Ok (e :: c)
  else
    match fuel with
    | O => Err ErrModelFuel
    | S fuel' =>
        let! e := search_branch b e key in
        let! id := (match ref_node e, ref_page e with
                    | None, Some p => if p_count p <=? index e then Panic else let! x := branchPageElement p (index e) in Ok (be_pgid x)
                    | _, _ => ref_child b e
                    end) in
        csearch fuel' b key id (e :: c)
    end.

(** ** The operations of a cursor *)

(** A bucket in place of a value shows no value. *)
Definition shown (r : option (bytes * bytes * Z)) : option (bytes * option bytes) :=
  match r with
  | None => None
  | Some (k, v, f) => Some (k, if negb (Z.land f bucketLeafFlag =? 0) then None else Some v)
  end.

Definition First (turns fuel : nat) (b : Bucket) : outcome (stack * option (bytes * option bytes)) :=
  let! (p, n) := pageNode b (root b) in
  let! c := first fuel b [mkRef p n 0] in
  let! e := top c in
  let! k := ref_count b e in
  let! c := (if k =? 0 then let! (c, _) := next turns fuel b c in Ok c else Ok c) in
  let! r := keyValue b c in Ok (c, shown r).

Definition Last (fuel : nat) (b : Bucket) : outcome (stack * option (bytes * option bytes)) :=
  let! (p, n) := pageNode b (root b) in
  let! k := ref_count b (mkRef p n 0) in
  let! c := last fuel b [mkRef p n (k - 1)] in
  let! r := keyValue b c in Ok (c, shown r).

Definition Next (turns fuel : nat) (b : Bucket) (c : stack) : outcome (stack * option (bytes * option bytes)) :=
  let! (c, r) := next turns fuel b c in Ok (c, shown r).

Definition Prev (fuel : nat) (b : Bucket) (c : stack) : outcome (stack * option (bytes * option bytes)) :=
  match drop_back c with
  | [] => Ok ([], None)
  | c => let! c := last fuel b c in let! r := keyValue b c in Ok (c, shown r)
  end.

Definition seek (fuel : nat) (b : Bucket) (key : bytes) : outcome (stack * option (bytes * bytes * Z)) :=
  let! c := csearch fuel b key (root b) [] in
  let! r := keyValue b c in Ok (c, r).

Definition Seek (turns fuel : nat) (b : Bucket) (key : bytes) : outcome (stack * option (bytes * option bytes)) :=
  let! (c, r) := seek fuel b key in
  let! e := top c in
  let! k := ref_count b e in
  let! (c, r) := (if k <=? index e then next turns fuel b c else Ok (c, r)) in
  Ok (c, shown r).

(** [Bucket.Get] *)
Definition bGet (fuel : nat) (b : Bucket) (key : bytes) : outcome (option bytes) :=
  let! (_, r) := seek fuel b key in
  Ok (match r with
      | Some (k, v, f) => if negb (Z.land f bucketLeafFlag =? 0) then None else if decide (key = k) then Some v else None
      | None => None
      end).

(** *** Turning pages into nodes *)

(** [Bucket.node] *)
Definition bnode (b : Bucket) (id : Z) (par : option Z) : outcome (Bucket * Z) :=
  match nodes b !! id with
  | Some r => Ok (b, r)
  | None =>
      let! p := (match bpage b with Some p => Ok p | None => pg id end) in
      let! n := read (mkNode false false false None 0 par [] []) p in
      let '(b, r) := alloc b n in
      let! b := (match par with
                 | None => Ok (with_rootNode b (Some r))
                 | Some q => let! m := deref b q in Ok (set_node b q (with_children m (children m ++ [r])))
                 end) in
      Ok (with_nodes b (<[id := r]> (nodes b)), r)
  end.

Definition childAt (b : Bucket) (r : Z) (i : Z) : outcome (Bucket * Z) :=
  let! n := deref b r in
  if isLeaf n then Panic
  else if i <? 0 then Panic
  else match inodes n !! Z.to_nat i with Some x => bnode b (ipgid x) (Some r) | None => Panic end.

(** The path of the stack from the root, without the leaf. *)
Fixpoint walk (b : Bucket) (r : Z) (path : stack) : outcome (Bucket * Z) :=
  match path with
  | [] => Ok (b, r)
  | e :: path' =>
      let! n := deref b r in
      if isLeaf n then Panic else let! (b, r) := childAt b r (index e) in walk b r path'
  end.

(** [Cursor.node]: the leaf under the cursor as a node. *)
Definition cnode (b : Bucket) (c : stack) : outcome (Bucket * Z) :=
  let! e := top c in
  let! leaf := ref_isLeaf b e in
  match ref_node e, leaf with
  | Some r, true => Ok (b, r)
  | _, _ =>
      match reverse c with
      | [] => Panic
      | e0 :: _ =>
          let! (b, r) := (match ref_node e0, ref_page e0 with
                          | Some r, _ => Ok (b, r)
                          | None, Some p => bnode b (p_id p) None
                          | None, None => Panic
                          end) in
          let! (b, r) := walk b r (reverse (tail c)) in
          let! n := deref b r in
          if isLeaf n then Ok (b, r) else Panic
      end
  end.

(** ** The iterator of the index *)

(** [BdbIterator]: a cursor in a bucket; [turns] and [fuel] are those of its
    cursor.  [SeekLT] and [SeekPrefixGE] are stubs in the source. *)
Definition BdbIterator : Type := Bucket * list elemRef.

Definition saveKV (r : option (bytes * option bytes)) : option entry :=
  match r with
  | None => None
  | Some (k, v) => Some (InternalKey.MakeInternalSetKey k, default [] v)
  end.

Definition iter_call (i : BdbIterator) (r : outcome (list elemRef * option (bytes * option bytes))) : outcome (BdbIterator * option entry) :=
  let! (c, kv) := r in Ok ((i.1, c), saveKV kv).

Definition bdbOps (turns fuel : nat) : iterOps BdbIterator := {|
  itFirst i := iter_call i (First turns fuel i.1);
  itLast i := iter_call i (Last fuel i.1);
  itNext i := iter_call i (Next turns fuel i.1 i.2);
  itPrev i := iter_call i (Prev fuel i.1 i.2);
  itSeekGE k i := iter_call i (Seek turns fuel i.1 k);
  itSeekLT _ i := Ok (i, None);
  itSeekPrefixGE _ _ _ i := Ok (i, None);
  itError _ := None;
  itSetBounds _ _ i := i
|}.

(** [DB.NewIter] *)
Definition newBdbIter (b : Bucket) : BdbIterator := (b, []).

End Cursor.
End BdbCursor.
