(* ===== verification/BdbTree.v ===== *)
(** The B+trees of bdb as pure trees, and the cursor as a position in the list
    of their items.

    A tree of height [h] is a leaf with items, or a branch with a key for each
    child.  [repr] ties it to a bucket, whose pages and nodes it reads through
    [pageNode]; [wf] is the order of its keys.  The cursor's stack is at index
    [q] of the contents ([at_]), and its movements are those of the index. *)

From Stdlib Require Import ZArith Lia.
From stdpp Require Import base numbers option sorting list gmap.
From S2P Require Import Prelude Base Iter Freelist FreelistSafe BdbPage BdbCursor.
Import Freelist Bdb BdbCursor.

Module BdbTree.

Abbreviation cmp := bytes_compare (only parsing).

Lemma elem_of_concat {A} (x : A) ls : x ∈ concat ls <-> exists l, x ∈ l /\ l ∈ ls.
Proof.
  induction ls as [|l ls IH]; cbn [concat]; [split; [by intros ?%elem_of_nil|by intros (l & _ & ?%elem_of_nil)]|].
  rewrite elem_of_app, IH. split.
  - intros [H|(c & H & Hc)]; [exists l; split; [done|left]|exists c; split; [done|by right]].
  - intros (c & H & [->|Hc]%elem_of_cons); [by left|right; eauto].
Qed.

(** ** What a position sees *)

(** A page that shows the items [l]. *)
Record pview (p : page) (leaf : bool) (l : list inode) : Prop := mkPview {
  pv_leaf : leaf_page p = leaf;
  pv_flags : Z.land (p_flags p) (Z.lor branchPageFlag leafPageFlag) <> 0;
  pv_count : p_count p = len l;
  pv_small : len l < 65535;
  pv_items : forall i x, l !! i = Some x -> read_inode leaf p (Z.of_nat i) = Ok x
}.

Definition rview (b : Bucket) (e : elemRef) (leaf : bool) (l : list inode) : Prop :=
  match ref_node e, ref_page e with
  | Some r, _ => exists n, heap b !! r = Some n /\ isLeaf n = leaf /\ inodes n = l
  | None, Some p => pview p leaf l
  | None, None => False
  end.

Lemma rview_index b e i leaf l : rview b (with_index e i) leaf l <-> rview b e leaf l.
Proof. done. Qed.

Lemma rview_isLeaf b e leaf l : rview b e leaf l -> ref_isLeaf b e = Ok leaf.
Proof.
  unfold rview, ref_isLeaf, deref. destruct (ref_node e) as [r|]; [by intros (n & -> & <- & _)|].
  destruct (ref_page e) as [p|]; [|done]. intros H. by rewrite (pv_leaf _ _ _ H).
Qed.

Lemma rview_count b e leaf l : rview b e leaf l -> ref_count b e = Ok (len l).
Proof.
  unfold rview, ref_count, deref. destruct (ref_node e) as [r|]; [by intros (n & -> & _ & <-)|].
  destruct (ref_page e) as [p|]; [|done]. intros H. by rewrite (pv_count _ _ _ H).
Qed.

Lemma read_leaf_parts p i x : read_inode true p i = Ok x ->
  exists e, leafPageElement p i = Ok e /\ leaf_key p i e = Ok (ikey x) /\ leaf_value p i e = Ok (ivalue x) /\ le_flags e = iflags x.
Proof.
  unfold read_inode. intros (y & H & Hy)%rbind_Ok. apply rbind_Ok in H as (e & E & H). apply rbind_Ok in H as (k & Ek & H).
  apply rbind_Ok in H as (v & Ev & [= <-]). cbn [ikey] in Hy. destruct (len k =? 0); [done|]. injection Hy as <-. by exists e.
Qed.

Lemma read_branch_parts p i x : read_inode false p i = Ok x ->
  exists e, branchPageElement p i = Ok e /\ branch_key p i e = Ok (ikey x) /\ be_pgid e = ipgid x.
Proof.
  unfold read_inode. intros (y & H & Hy)%rbind_Ok. apply rbind_Ok in H as (e & E & H). apply rbind_Ok in H as (k & Ek & [= <-]).
  cbn [ikey] in Hy. destruct (len k =? 0); [done|]. injection Hy as <-. by exists e.
Qed.

Lemma rview_child b e l j x : rview b e false l -> index e = Z.of_nat j -> l !! j = Some x ->
  ref_child b e = Ok (ipgid x) /\
  (match ref_node e, ref_page e with
   | None, Some p => if p_count p <=? index e then Panic else let! y := branchPageElement p (index e) in Ok (be_pgid y)
   | _, _ => ref_child b e
   end) = Ok (ipgid x).
Proof.
  intros Hv Hi Hx. pose proof (lookup_lt_Some _ _ _ Hx) as Hlt. unfold rview in Hv. unfold ref_child, deref. rewrite Hi. destruct (ref_node e) as [r|].
  - destruct Hv as (n & -> & _ & El). cbn [rbind]. rewrite El. destruct (Z.ltb_spec (Z.of_nat j) 0); [lia|]. by rewrite Nat2Z.id, Hx.
  - destruct (ref_page e) as [p|]; [|done]. pose proof (pv_small _ _ _ Hv). pose proof (pv_count _ _ _ Hv) as Hc. rewrite u16_small by (unfold len in *; lia).
    destruct (read_branch_parts _ _ _ (pv_items _ _ _ Hv j x Hx)) as (y & -> & _ & <-). cbn [rbind].
    destruct (Z.leb_spec (p_count p) (Z.of_nat j)); [unfold len in *; lia|done].
Qed.

Lemma rview_cmp b e leaf l j x key : rview b e leaf l -> l !! j = Some x -> keys_cmp b e leaf key (Z.of_nat j) = Ok (cmp (ikey x) key).
Proof.
  unfold rview, keys_cmp, deref. destruct (ref_node e) as [r|].
  - intros (n & -> & _ & El) Hx. cbn [rbind]. by rewrite El, Nat2Z.id, Hx.
  - destruct (ref_page e) as [p|]; [|done]. intros Hv Hx. pose proof (pv_items _ _ _ Hv j x Hx) as Hr. destruct leaf.
    + destruct (read_leaf_parts _ _ _ Hr) as (y & -> & Hk & _). cbn [rbind]. by rewrite Hk.
    + destruct (read_branch_parts _ _ _ Hr) as (y & -> & Hk & _). cbn [rbind]. by rewrite Hk.
Qed.

Definition item_of (x : inode) : bytes * bytes * Z := (ikey x, ivalue x, iflags x).

Lemma rview_kv b e c l : rview b e true l -> index e <= len l -> (0 <= index e \/ l = []) ->
  keyValue b (e :: c) = Ok (item_of <$> lookupZ l (index e)).
Proof.
  intros Hv Hi Hp. unfold keyValue. cbn [top rbind]. rewrite (rview_count _ _ _ _ Hv). cbn [rbind].
  destruct (Z.eqb_spec (len l) 0) as [E|Hne].
  { destruct l; [|rewrite len_cons in E; pose proof (len_nonneg l); lia]. cbn [orb]. by rewrite lookupZ_nil. }
  assert (Hp' : 0 <= index e) by (destruct Hp as [|E]; [done|subst l; done]). cbn [orb]. destruct (Z.leb_spec (len l) (index e)) as [Hge|Hlt]; [by rewrite lookupZ_None|].
  destruct (lookupZ_Some l (index e)) as [x Hx]; [lia|]. rewrite Hx. cbn [fmap option_fmap option_map]. unfold lookupZ in Hx. destruct (Z.ltb_spec (index e) 0); [lia|].
  unfold rview, deref in *. destruct (ref_node e) as [r|].
  - destruct Hv as (n & -> & _ & El). cbn [rbind]. by rewrite El, Hx.
  - destruct (ref_page e) as [p|]; [|done]. pose proof (pv_small _ _ _ Hv). rewrite u16_small by lia.
    pose proof (pv_items _ _ _ Hv _ x Hx) as Hr. rewrite Z2Nat.id in Hr by lia. destruct (read_leaf_parts _ _ _ Hr) as (y & -> & Hk & Hval & Hf).
    cbn [rbind]. rewrite Hk. cbn [rbind]. rewrite Hval. cbn [rbind]. by rewrite Hf.
Qed.

(** ** Trees *)

Fixpoint tr (h : nat) : Type := match h with O => (Z * list inode)%type | S h' => (Z * list (bytes * tr h'))%type end.

Definition tid {h : nat} : tr h -> Z := match h with O => fst | S _ => fst end.

Definition kid_item {h} (x : bytes * tr h) : inode := mkInode 0 (tid x.2) x.1 [].

Definition items {h : nat} : tr h -> list inode := match h with O => fun t => t.2 | S h' => fun t => kid_item <$> t.2 end.

Fixpoint contents {h : nat} : tr h -> list inode :=
  match h with O => fun t => t.2 | S h' => fun t => concat ((fun x => contents (h := h') x.2) <$> t.2) end.

Fixpoint ids {h : nat} : tr h -> list Z :=
  match h with O => fun t => [t.1] | S h' => fun t => t.1 :: concat ((fun x => ids (h := h') x.2) <$> t.2) end.

Definition is_leaf (h : nat) : bool := match h with O => true | S _ => false end.

(** The items before child [j]. *)
Definition off {h} (l : list (bytes * tr h)) (j : nat) : Z := len (concat ((fun x : bytes * tr h => contents x.2) <$> take j l)).

(** Every leaf has an item. *)
Fixpoint full {h : nat} : tr h -> Prop :=
  match h with O => fun t => t.2 <> [] | S h' => fun t => t.2 <> [] /\ Forall (fun x => full (h := h') x.2) t.2 end.

(** *** The order of the keys *)

Definition in_b (lo hi : option bytes) (k : bytes) : Prop := (forall a, lo = Some a -> cmp a k <= 0) /\ (forall z, hi = Some z -> cmp k z < 0).

Definition ksorted (l : list inode) : Prop := StronglySorted (fun x y => cmp (ikey x) (ikey y) < 0) l.

Definition lo_at {h} (lo : option bytes) (l : list (bytes * tr h)) (j : nat) : option bytes :=
  match j with O => lo | S _ => fst <$> l !! j end.
Definition hi_at {h} (hi : option bytes) (l : list (bytes * tr h)) (j : nat) : option bytes :=
  match l !! S j with Some x => Some x.1 | None => hi end.

Fixpoint wf {h : nat} (lo hi : option bytes) : tr h -> Prop :=
  match h with
  | O => fun t => ksorted t.2 /\ Forall (fun x => in_b lo hi (ikey x)) t.2
  | S h' => fun t => t.2 <> [] /\ ksorted (kid_item <$> t.2) /\ Forall (fun x : bytes * tr h' => in_b lo hi x.1) t.2 /\
      forall j x, t.2 !! j = Some x -> wf (h := h') (lo_at lo t.2 j) (hi_at hi t.2 j) x.2
  end.

(** *** Order *)

Lemma cmp_neg a c : cmp a c < 0 <-> cmp a c = -1.
Proof. revert c. induction a as [|x a IH]; intros [|y c]; cbn; try lia. bdestruct_all; try lia. apply IH. Qed.

Lemma in_b_lo lo hi k a : in_b (Some a) hi k -> in_b lo hi a -> in_b lo hi k.
Proof.
  intros [H1 H2] [H3 _]. specialize (H1 a eq_refl). split; [|done]. intros c Hc. eapply (cmp_le_trans cmp); [by apply H3|done].
Qed.

Lemma in_b_hi lo hi k z : in_b lo (Some z) k -> in_b lo hi z -> in_b lo hi k.
Proof. intros [H1 H2] [_ H4]. split; [done|]. intros c Hc. eapply (cmp_trans (cmp := cmp)); [by apply H2|by apply H4]. Qed.

Lemma in_b_kid {h} lo hi (l : list (bytes * tr h)) j x k :
  Forall (fun x : bytes * tr h => in_b lo hi x.1) l -> l !! j = Some x -> in_b (lo_at lo l j) (hi_at hi l j) k -> in_b lo hi k.
Proof.
  intros Hl Hx Hk. rewrite Forall_lookup in Hl. assert (Hk' : in_b lo (hi_at hi l j) k).
  { unfold lo_at in Hk. destruct j as [|j]; [done|]. rewrite Hx in Hk. cbn in Hk. destruct (Hl _ _ Hx) as [H1 H2]. destruct Hk as [H3 H4]. split; [|done].
    intros c Hc. eapply (cmp_le_trans cmp); [by apply H1|by apply H3]. }
  unfold hi_at in Hk'. destruct (l !! S j) as [y|] eqn:Ey; [|done]. eapply in_b_hi; [exact Hk'|]. by eapply Hl.
Qed.

Lemma kids_sorted {h} (l : list (bytes * tr h)) i j x y : ksorted (kid_item <$> l) -> l !! i = Some x -> l !! j = Some y -> (i < j)%nat -> cmp x.1 y.1 < 0.
Proof.
  intros Hs Hx Hy Hij. apply (StronglySorted_lookup _ _ i j (kid_item x) (kid_item y) Hs); [by rewrite list_lookup_fmap, Hx|by rewrite list_lookup_fmap, Hy|done].
Qed.

Lemma kids_sorted_le {h} (l : list (bytes * tr h)) i j x y : ksorted (kid_item <$> l) -> l !! i = Some x -> l !! j = Some y -> (i <= j)%nat -> cmp x.1 y.1 <= 0.
Proof.
  intros Hs Hx Hy Hij. destruct (decide (i = j)) as [->|]; [rewrite Hx in Hy; injection Hy as <-; rewrite (cmp_refl cmp); lia|].
  apply Z.lt_le_incl. eapply kids_sorted; [done..|lia].
Qed.

Lemma wf_bounds {h} lo hi (t : tr h) : wf lo hi t -> Forall (fun x => in_b lo hi (ikey x)) (contents t).
Proof.
  revert lo hi t. induction h as [|h IH]; intros lo hi t; cbn [wf contents]; [by intros [_ ?]|]. destruct t as [id kids]. cbn [snd]. intros (_ & _ & Hb & Hk).
  apply Forall_forall. intros x Hx. apply elem_of_concat in Hx as (c & Hx & Hc). apply list_elem_of_fmap_1 in Hc as (y & -> & Hy).
  apply list_elem_of_lookup_1 in Hy as [j Hy]. specialize (IH _ _ _ (Hk _ _ Hy)). rewrite Forall_forall in IH. by eapply in_b_kid, IH.
Qed.

(** Items of child [i] against the key of a later child, and those of a child
    against its own key. *)
Lemma kid_below {h} lo hi (l : list (bytes * tr h)) i j x y e :
  ksorted (kid_item <$> l) -> wf (lo_at lo l i) (hi_at hi l i) x.2 -> l !! i = Some x -> l !! j = Some y -> (i < j)%nat -> e ∈ contents x.2 -> cmp (ikey e) y.1 < 0.
Proof.
  intros Hs Hw Hx Hy Hij He. pose proof (wf_bounds _ _ _ Hw) as Hb. rewrite Forall_forall in Hb. destruct (Hb e He) as [_ Hh]. unfold hi_at in Hh.
  pose proof (lookup_lt_Some _ _ _ Hy). destruct (lookup_lt_is_Some_2 l (S i)) as [z Hz]; [lia|]. rewrite Hz in Hh.
  eapply (cmp_lt_le_trans cmp); [by apply Hh|]. eapply kids_sorted_le; [done..|lia].
Qed.

Lemma kid_above {h} lo hi (l : list (bytes * tr h)) j x e :
  wf (lo_at lo l j) (hi_at hi l j) x.2 -> l !! j = Some x -> j <> 0%nat -> e ∈ contents x.2 -> cmp x.1 (ikey e) <= 0.
Proof.
  intros Hw Hx Hj He. pose proof (wf_bounds _ _ _ Hw) as Hb. rewrite Forall_forall in Hb. destruct (Hb e He) as [Hl _]. unfold lo_at in Hl.
  destruct j; [done|]. rewrite Hx in Hl. by apply Hl.
Qed.

Lemma sorted_concat {A} (R : A -> A -> Prop) (ls : list (list A)) :
  (forall i l, ls !! i = Some l -> StronglySorted R l) ->
  (forall i j a c x y, ls !! i = Some a -> ls !! j = Some c -> (i < j)%nat -> x ∈ a -> y ∈ c -> R x y) -> StronglySorted R (concat ls).
Proof.
  induction ls as [|l ls IH]; intros H1 H2; [constructor|]. cbn [concat]. apply StronglySorted_app_2.
  - intros x y Hx Hy. apply elem_of_concat in Hy as (c & Hy & Hc). apply list_elem_of_lookup_1 in Hc as [j Hc].
    by apply (H2 0%nat (S j) l c); try done; lia.
  - by apply (H1 0%nat).
  - apply IH; [intros i c Hc; by apply (H1 (S i))|]. intros i j a c x y Ha Hc Hij. apply (H2 (S i) (S j)); [done|done|lia].
Qed.

Lemma wf_sorted {h} lo hi (t : tr h) : wf lo hi t -> ksorted (contents t).
Proof.
  revert lo hi t. induction h as [|h IH]; intros lo hi t; cbn [wf contents]; [by intros [? _]|]. destruct t as [id kids]. cbn [snd]. intros (_ & Hs & _ & Hk). apply sorted_concat.
  - intros i l Hl. rewrite list_lookup_fmap in Hl. destruct (kids !! i) as [x|] eqn:Hx; [|done]. injection Hl as <-. by eapply IH, Hk.
  - intros i j a c x y Ha Hc Hij Hx Hy. rewrite list_lookup_fmap in Ha, Hc. destruct (kids !! i) as [u|] eqn:Hu; [|done]. injection Ha as <-.
    destruct (kids !! j) as [v|] eqn:Hv; [|done]. injection Hc as <-.
    eapply (cmp_lt_le_trans cmp); [eapply (kid_below lo hi kids i j u v x); eauto|]. eapply (kid_above lo hi kids j v y); eauto. lia.
Qed.

(** Where a key belongs in a list. *)
Fixpoint iseek (k : bytes) (l : list inode) : Z :=
  match l with [] => 0 | x :: l' => if cmp (ikey x) k <? 0 then 1 + iseek k l' else 0 end.

Lemma iseek_range k l : 0 <= iseek k l <= len l.
Proof. induction l as [|x l IH]; cbn [iseek]; [done|]. rewrite len_cons. destruct (cmp (ikey x) k <? 0); lia. Qed.

Lemma iseek_app_lt k a c : Forall (fun x => cmp (ikey x) k < 0) a -> iseek k (a ++ c) = len a + iseek k c.
Proof. induction 1 as [|x a Hx _ IH]; [done|]. cbn [app iseek]. rewrite IH, len_cons. destruct (Z.ltb_spec (cmp (ikey x) k) 0); lia. Qed.

Lemma iseek_app_ge k a c : Forall (fun x => 0 <= cmp (ikey x) k) c -> iseek k (a ++ c) = iseek k a.
Proof.
  intros Hc. induction a as [|x a IH]; cbn [app iseek]; [|by rewrite IH]. destruct Hc as [|y c Hy _]; [done|]. cbn [iseek].
  destruct (Z.ltb_spec (cmp (ikey y) k) 0); [lia|done].
Qed.

Lemma iseek_before k l i x : l !! i = Some x -> Z.of_nat i < iseek k l -> cmp (ikey x) k < 0.
Proof.
  revert i. induction l as [|y l IH]; intros i Hx Hi; [done|]. cbn [iseek] in Hi. destruct (Z.ltb_spec (cmp (ikey y) k) 0) as [Hy|]; [|lia].
  destruct i as [|i]; cbn in Hx; [by injection Hx as <-|]. apply (IH i); [done|lia].
Qed.

Lemma iseek_after k l i x : ksorted l -> l !! i = Some x -> iseek k l <= Z.of_nat i -> 0 <= cmp (ikey x) k.
Proof.
  revert i. induction l as [|y l IH]; intros i Hs Hx Hi; [done|]. cbn [iseek] in Hi. apply StronglySorted_inv in Hs as [Hs Hy].
  destruct i as [|i]; cbn in Hx.
  - injection Hx as <-. destruct (Z.ltb_spec (cmp (ikey y) k) 0) as [|]; [pose proof (iseek_range k l); lia|done].
  - destruct (Z.ltb_spec (cmp (ikey y) k) 0) as [|Hge]; [apply (IH i); [done|done|lia]|].
    rewrite Forall_lookup in Hy. specialize (Hy _ _ Hx). destruct (Z.lt_ge_cases (cmp (ikey x) k) 0) as [Hlt|]; [|done].
    pose proof (cmp_trans (cmp := cmp) _ _ _ Hy Hlt). lia.
Qed.

(** The tree is what the bucket shows. *)
Section Repr.
Context (pg : Z -> outcome page) (b : Bucket).

Definition bview (id : Z) (leaf : bool) (l : list inode) : Prop :=
  exists p n, pageNode pg b id = Ok (p, n) /\ rview b (mkRef p n 0) leaf l.

Fixpoint repr {h : nat} : tr h -> Prop :=
  match h with
  | O => fun t => bview t.1 true t.2
  | S h' => fun t => bview t.1 false (kid_item <$> t.2) /\ Forall (fun x => repr (h := h') x.2) t.2
  end.

Lemma repr_view {h} (t : tr h) : repr t -> bview (tid t) (is_leaf h) (items t).
Proof. destruct h; [done|]. by intros [? _]. Qed.

(** The stack [c], innermost first, is at index [q] of the contents; with [d =
    0] it is past the last item of its leaf. *)
Definition spot (l : list inode) (q d : Z) : Prop := (d = 1 /\ 0 <= q < len l) \/ (d = 0 /\ q = len l).

Fixpoint at_ {h : nat} : tr h -> list elemRef -> Z -> Z -> Prop :=
  match h with
  | O => fun t c q d => exists e, c = [e] /\ rview b e true t.2 /\ index e = q /\ spot t.2 q d
  | S h' => fun t c q d => exists c' e j x q', c = c' ++ [e] /\ rview b e false (kid_item <$> t.2) /\ index e = Z.of_nat j /\
      t.2 !! j = Some x /\ at_ (h := h') x.2 c' q' d /\ q = off t.2 j + q'
  end.

Lemma toff_S {h} (l : list (bytes * tr h)) j x : l !! j = Some x -> off l (S j) = off l j + len (contents x.2).
Proof. intros Hx. unfold off. rewrite (take_S_r _ _ _ Hx), fmap_app, concat_app, len_app. cbn. by rewrite app_nil_r. Qed.

Lemma off_nonneg {h} (l : list (bytes * tr h)) j : 0 <= off l j.
Proof. apply len_nonneg. Qed.

Lemma off_le {h} (l : list (bytes * tr h)) j x : l !! j = Some x -> off l j + len (contents x.2) <= len (concat ((fun x : bytes * tr h => contents x.2) <$> l)).
Proof.
  intros Hx. rewrite <-(toff_S l j x Hx). unfold off. rewrite <-(take_drop (S j) l) at 2. rewrite fmap_app, concat_app, len_app.
  pose proof (len_nonneg (concat ((fun x : bytes * tr h => contents x.2) <$> drop (S j) l))). lia.
Qed.

Lemma off_length {h} (l : list (bytes * tr h)) : off l (length l) = len (concat ((fun x : bytes * tr h => contents x.2) <$> l)).
Proof. unfold off. by rewrite take_ge. Qed.

Lemma at_range {h} (t : tr h) c q d : at_ t c q d -> 0 <= q /\ q + d <= len (contents t).
Proof.
  revert t c q. induction h as [|h IH]; intros t c q; cbn [at_ contents snd].
  - intros (e & _ & _ & _ & [[-> Hq]|[-> ->]]); [lia|]. pose proof (len_nonneg t.2). lia.
  - intros (c' & e & j & x & q' & _ & _ & _ & Hx & Hat & ->). destruct (IH _ _ _ Hat) as [H1 H2]. pose proof (off_nonneg t.2 j).
    pose proof (off_le t.2 j x Hx). lia.
Qed.

Lemma lookupZ_concat {h} (l : list (bytes * tr h)) j x q : l !! j = Some x -> 0 <= q < len (contents x.2) ->
  lookupZ (concat ((fun x : bytes * tr h => contents x.2) <$> l)) (off l j + q) = lookupZ (contents x.2) q.
Proof.
  intros Hx Hq. rewrite <-(take_drop_middle l j x Hx) at 1. rewrite fmap_app, fmap_cons, concat_app. cbn [concat]. unfold off, lookupZ, len in *.
  destruct (Z.ltb_spec (Z.of_nat (length (concat ((fun x : bytes * tr h => contents x.2) <$> take j l))) + q) 0); [lia|]. destruct (Z.ltb_spec q 0); [lia|].
  rewrite lookup_app_r by lia. rewrite lookup_app_l by lia. f_equal. lia.
Qed.

Lemma at_d {h} (t : tr h) c q d : at_ t c q d -> d = 0 \/ d = 1.
Proof.
  revert t c q. induction h as [|h IH]; intros t c q; cbn [at_].
  - intros (e & _ & _ & _ & [[-> _]|[-> _]]); auto.
  - intros (c' & e & j & x & q' & _ & _ & _ & _ & Hat & _). by eapply IH.
Qed.

Lemma at_leaf {h} (t : tr h) c q d : h = 0%nat -> at_ t c q d -> exists e, c = [e] /\ rview b e true (contents t) /\ index e = q.
Proof. intros Hh. destruct h; [|done]. cbn [at_ contents]. intros (e & -> & Hv & Hi & _). by exists e. Qed.

Lemma repr_leaf {h} (t : tr h) : h = 0%nat -> repr t -> bview (tid t) true (contents t).
Proof. intros Hh. by destruct h. Qed.

(** The item under the cursor. *)
Lemma at_kv {h} (t : tr h) c q d : at_ t c q d ->
  exists e c', c = e :: c' /\ (exists l, rview b e true l /\ 0 <= index e <= len l /\ (d = 0 <-> len l <= index e)) /\
    forall rest, keyValue b (c ++ rest) = Ok (if d =? 0 then None else item_of <$> lookupZ (contents t) q).
Proof.
  revert t c q. induction h as [|h IH]; intros t c q; cbn [at_ contents snd].
  - intros (e & -> & Hv & <- & Hs). exists e, []. split; [done|].
    assert (Hl : 0 <= index e <= len t.2) by (pose proof (len_nonneg t.2); destruct Hs as [[_ ?]|[_ ?]]; lia). split; [exists t.2; split; [done|]; split; [done|]; destruct Hs as [[-> ?]|[-> ?]]; lia|].
    intros rest. cbn [app]. rewrite (rview_kv b e rest t.2 Hv) by lia.
    destruct Hs as [[-> Hr]|[-> Hr]]; [done|]. rewrite lookupZ_None by lia. done.
  - intros (c' & e & j & x & q' & -> & _ & _ & Hx & Hat & ->). destruct (IH _ _ _ Hat) as (e1 & c1 & -> & Hl & Hkv).
    exists e1, (c1 ++ [e]). split; [done|]. split; [done|]. intros rest. rewrite <-app_assoc, Hkv. destruct (Z.eqb_spec d 0); [done|].
    destruct (at_range _ _ _ _ Hat) as [H1 H2]. rewrite (lookupZ_concat t.2 j x q' Hx); [done|].
    destruct (at_d _ _ _ _ Hat); lia.
Qed.

(** ** Movements *)

Lemma first_eq fuel e c : first pg fuel b (e :: c) =
  (let! leaf := ref_isLeaf b e in
   if leaf : bool then Ok (e :: c)
   else match fuel with
        | O => Err ErrModelFuel
        | S fuel' => let! id := ref_child b e in let! (p, n) := pageNode pg b id in first pg fuel' b (mkRef p n 0 :: e :: c)
        end).
Proof. by destruct fuel. Qed.

Lemma last_eq fuel e c : last pg fuel b (e :: c) =
  (let! leaf := ref_isLeaf b e in
   if leaf : bool then Ok (e :: c)
   else match fuel with
        | O => Err ErrModelFuel
        | S fuel' => let! id := ref_child b e in let! (p, n) := pageNode pg b id in let! k := ref_count b (mkRef p n 0) in
            last pg fuel' b (mkRef p n (k - 1) :: e :: c)
        end).
Proof. by destruct fuel. Qed.

Lemma len_pos {A} (l : list A) : l <> [] -> 0 < len l.
Proof. destruct l; [done|]. intros _. rewrite len_cons. pose proof (len_nonneg l). lia. Qed.

Lemma full_contents {h} (t : tr h) : full t -> 0 < len (contents t).
Proof.
  induction h as [|h IH]; cbn [full contents]; [apply len_pos|]. intros [Hne Hf]. destruct (t.2) as [|x l]; [done|].
  apply Forall_cons in Hf as [Hx _]. rewrite fmap_cons. cbn [concat]. rewrite len_app. specialize (IH _ Hx). pose proof (len_nonneg (concat ((fun x : bytes * tr h => contents x.2) <$> l))). lia.
Qed.

Lemma kid_lookup {h} (l : list (bytes * tr h)) j x : l !! j = Some x -> (kid_item <$> l) !! j = Some (kid_item x).
Proof. intros H. by rewrite list_lookup_fmap, H. Qed.

Lemma first_down {h} (t : tr h) fuel e c : repr t -> full t -> (h <= fuel)%nat -> rview b e (is_leaf h) (items t) -> index e = 0 ->
  exists c1, (forall rest, first pg fuel b (e :: c ++ rest) = Ok (c1 ++ c ++ rest)) /\ at_ t c1 0 1.
Proof.
  revert t fuel e c. induction h as [|h IH]; intros t fuel e c Hr Hf Hfu Hv Hi.
  - exists [e]. split; [intros rest; rewrite first_eq, (rview_isLeaf _ _ _ _ Hv); done|]. exists e. split; [done|]. split; [done|]. split; [done|]. left. split; [done|].
    pose proof (len_pos t.2 Hf). lia.
  - destruct t as [id kids]. cbn [snd fst] in *. cbn [repr full snd] in Hr, Hf. destruct Hr as [_ Hr], Hf as [Hne Hf]. destruct fuel as [|fuel]; [lia|]. cbn [items is_leaf snd] in Hv.
    destruct kids as [|x l]; [done|]. apply Forall_cons in Hr as [Hrx _], Hf as [Hfx _].
    destruct (repr_view _ Hrx) as (p & n & Ep & Hvx).
    destruct (IH x.2 fuel (mkRef p n 0) (e :: c) Hrx Hfx ltac:(lia) Hvx eq_refl) as (c1 & E1 & Hat).
    exists (c1 ++ [e]). split.
    + intros rest. rewrite first_eq, (rview_isLeaf _ _ _ _ Hv). cbn [rbind]. destruct (rview_child b e _ 0 (kid_item x) Hv) as [-> _]; [done|done|]. cbn [rbind kid_item ipgid].
      rewrite Ep. cbn [rbind]. rewrite <-app_assoc. apply E1.
    + cbn [at_]. exists c1, e, 0%nat, x, 0. rewrite Hi. done.
Qed.

Lemma first_enter {h} (t : tr h) fuel c : repr t -> full t -> (h <= fuel)%nat ->
  exists p n c1, pageNode pg b (tid t) = Ok (p, n) /\ (forall rest, first pg fuel b (mkRef p n 0 :: c ++ rest) = Ok (c1 ++ c ++ rest)) /\ at_ t c1 0 1.
Proof.
  intros Hr Hf Hfu. destruct (repr_view _ Hr) as (p & n & Ep & Hv). exists p, n. destruct (first_down t fuel (mkRef p n 0) c Hr Hf Hfu Hv eq_refl) as (c1 & E & Hat).
  by exists c1.
Qed.

Lemma last_down {h} (t : tr h) fuel e c : repr t -> full t -> (h <= fuel)%nat -> rview b e (is_leaf h) (items t) -> index e = len (items t) - 1 ->
  exists c1, (forall rest, last pg fuel b (e :: c ++ rest) = Ok (c1 ++ c ++ rest)) /\ at_ t c1 (len (contents t) - 1) 1.
Proof.
  revert t fuel e c. induction h as [|h IH]; intros t fuel e c Hr Hf Hfu Hv Hi.
  - exists [e]. split; [intros rest; rewrite last_eq, (rview_isLeaf _ _ _ _ Hv); done|]. exists e. split; [done|]. split; [done|]. split; [done|]. left. split; [done|].
    pose proof (len_pos t.2 Hf). cbn [contents]. lia.
  - destruct t as [id kids]. cbn [snd fst] in *. cbn [repr full snd] in Hr, Hf. destruct Hr as [_ Hr], Hf as [Hne Hf]. destruct fuel as [|fuel]; [lia|]. cbn [items is_leaf snd] in Hv, Hi.
    assert (exists l x, kids = l ++ [x]) as (l & x & El) by (destruct kids as [|y l'] using rev_ind; [done|eauto]).
    rewrite El in Hr, Hf. apply Forall_app in Hr as [_ Hrx], Hf as [_ Hfx]. apply Forall_cons in Hrx as [Hrx _], Hfx as [Hfx _].
    destruct (repr_view _ Hrx) as (p & n & Ep & Hvx).
    assert (Hlk : kids !! length l = Some x) by (rewrite El; by apply list_lookup_middle).
    assert (Hi' : index e = Z.of_nat (length l)) by (rewrite Hi, El; unfold len; rewrite length_fmap, length_app; cbn; lia).
    destruct (IH x.2 fuel (mkRef p n (len (items x.2) - 1)) (e :: c) Hrx Hfx ltac:(lia) Hvx eq_refl) as (c1 & E1 & Hat).
    exists (c1 ++ [e]). split.
    + intros rest. rewrite last_eq, (rview_isLeaf _ _ _ _ Hv). cbn [rbind].
      destruct (rview_child b e _ (length l) (kid_item x) Hv) as [-> _]; [done|by apply kid_lookup|]. cbn [rbind kid_item ipgid].
      rewrite Ep. cbn [rbind]. rewrite (rview_count _ _ _ _ Hvx). cbn [rbind]. rewrite <-app_assoc. apply E1.
    + cbn [at_]. exists c1, e, (length l), x, (len (contents x.2) - 1). do 4 (split; [done|]). split; [done|]. cbn [contents snd].
      pose proof (toff_S kids (length l) x Hlk) as Ho. assert (S (length l) = length kids) as Hlen by (rewrite El, length_app; cbn; lia).
      rewrite Hlen, off_length in Ho. lia.
Qed.

Lemma last_enter {h} (t : tr h) fuel c : repr t -> full t -> (h <= fuel)%nat ->
  exists p n c1, pageNode pg b (tid t) = Ok (p, n) /\ ref_count b (mkRef p n 0) = Ok (len (items t)) /\
    (forall rest, last pg fuel b (mkRef p n (len (items t) - 1) :: c ++ rest) = Ok (c1 ++ c ++ rest)) /\ at_ t c1 (len (contents t) - 1) 1.
Proof.
  intros Hr Hf Hfu. destruct (repr_view _ Hr) as (p & n & Ep & Hv). exists p, n.
  destruct (last_down t fuel (mkRef p n (len (items t) - 1)) c Hr Hf Hfu Hv eq_refl) as (c1 & E & Hat). exists c1. split; [done|].
  split; [by apply (rview_count _ _ _ _ Hv)|done].
Qed.

Lemma move_next {h} (t : tr h) fuel c q d : repr t -> full t -> (h <= fuel)%nat -> at_ t c q d ->
  (q + d < len (contents t) /\ exists cb c1, cb <> [] /\ (forall rest, bump b (c ++ rest) = Ok (cb ++ rest)) /\
    (forall rest, first pg fuel b (cb ++ rest) = Ok (c1 ++ rest)) /\ at_ t c1 (q + d) 1) \/
  (q + d = len (contents t) /\ forall rest, bump b (c ++ rest) = bump b rest).
Proof.
  revert t fuel c q. induction h as [|h IH]; intros t fuel c q Hr Hf Hfu; cbn [at_ contents snd].
  - intros (e & -> & Hv & Hi & Hs). destruct Hs as [[-> Hq]|[-> ->]].
    + destruct (Z.lt_ge_cases (q + 1) (len t.2)) as [Hlt|Hge].
      * left. split; [done|]. exists [with_index e (q + 1)], [with_index e (q + 1)]. split; [done|]. split; [|split].
        -- intros rest. cbn [app bump]. rewrite (rview_count _ _ _ _ Hv). cbn [rbind]. rewrite Hi. destruct (Z.ltb_spec q (len t.2 - 1)); [done|lia].
        -- intros rest. cbn [app]. rewrite first_eq. change (ref_isLeaf b (with_index e (q + 1))) with (ref_isLeaf b e). by rewrite (rview_isLeaf _ _ _ _ Hv).
        -- exists (with_index e (q + 1)). split; [done|]. split; [done|]. split; [done|]. left. lia.
      * right. split; [lia|]. intros rest. cbn [app bump]. rewrite (rview_count _ _ _ _ Hv). cbn [rbind]. destruct (Z.ltb_spec (index e) (len t.2 - 1)); [lia|done].
    + right. split; [lia|]. intros rest. cbn [app bump]. rewrite (rview_count _ _ _ _ Hv). cbn [rbind]. destruct (Z.ltb_spec (index e) (len t.2 - 1)); [lia|done].
  - destruct t as [id kids]. cbn [snd fst] in *. intros (c' & e & j & x & q' & -> & Hv & Hi & Hx & Hat & ->). cbn [repr full snd] in Hr, Hf. destruct Hr as [_ Hr], Hf as [Hne Hf].
    destruct fuel as [|fuel]; [lia|]. rewrite Forall_lookup in Hr, Hf.
    destruct (IH x.2 (S fuel) c' q' (Hr _ _ Hx) (Hf _ _ Hx) ltac:(lia) Hat) as [(Hlt & cb & c1 & Hcb & Eb & Ef & Hat1)|[Heq Eb]].
    + left. pose proof (off_le kids j x Hx). split; [lia|]. exists (cb ++ [e]), (c1 ++ [e]). split; [by destruct cb|]. split; [|split].
      * intros rest. rewrite <-!app_assoc. apply Eb.
      * intros rest. rewrite <-!app_assoc. apply Ef.
      * exists c1, e, j, x, (q' + d). do 4 (split; [done|]). split; [done|lia].
    + pose proof (lookup_lt_Some _ _ _ Hx) as Hlt. assert (Hlen : len (kid_item <$> kids) = Z.of_nat (length kids)) by (unfold len; by rewrite length_fmap).
      assert (Ebe : forall rest, bump b ((c' ++ [e]) ++ rest) = (if Z.of_nat j <? Z.of_nat (length kids) - 1 then Ok (with_index e (Z.of_nat j + 1) :: rest) else bump b rest)).
      { intros rest. rewrite <-app_assoc, Eb. cbn [app bump]. rewrite (rview_count _ _ _ _ Hv), Hlen, Hi. done. }
      destruct (Z.ltb_spec (Z.of_nat j) (Z.of_nat (length kids) - 1)) as [Hj|Hj].
      * left. destruct (lookup_lt_is_Some_2 kids (S j)) as [y Hy]; [lia|]. pose proof (off_le kids (S j) y Hy). pose proof (full_contents _ (Hf _ _ Hy)).
        pose proof (toff_S kids j x Hx). split; [lia|]. set (e' := with_index e (Z.of_nat j + 1)) in *.
        destruct (first_enter y.2 fuel [e'] (Hr _ _ Hy) (Hf _ _ Hy) ltac:(lia)) as (p & n & c1 & Ep & Ef & Hat1).
        exists [e'], (c1 ++ [e']). split; [done|]. split; [exact Ebe|]. split.
        -- intros rest. cbn [app]. rewrite first_eq. change (ref_isLeaf b e') with (ref_isLeaf b e). rewrite (rview_isLeaf _ _ _ _ Hv). cbn [rbind].
           destruct (rview_child b e' (kid_item <$> kids) (S j) (kid_item y)) as [-> _]; [done|cbn; lia|by apply kid_lookup|].
           cbn [rbind kid_item ipgid]. rewrite Ep. cbn [rbind]. rewrite <-app_assoc. apply Ef.
        -- exists c1, e', (S j), y, 0. split; [done|]. split; [done|]. split; [cbn; lia|]. split; [done|]. split; [done|lia].
      * right. pose proof (toff_S kids j x Hx) as Ho. assert (S j = length kids) as Ej by lia. rewrite Ej, off_length in Ho. split; [lia|exact Ebe].
Qed.

Lemma move_prev {h} (t : tr h) fuel c q : repr t -> full t -> (h <= fuel)%nat -> at_ t c q 1 ->
  (0 < q /\ exists cb c1, cb <> [] /\ (forall rest, drop_back (c ++ rest) = cb ++ rest) /\
    (forall rest, last pg fuel b (cb ++ rest) = Ok (c1 ++ rest)) /\ at_ t c1 (q - 1) 1) \/
  (q = 0 /\ forall rest, drop_back (c ++ rest) = drop_back rest).
Proof.
  revert t fuel c q. induction h as [|h IH]; intros t fuel c q Hr Hf Hfu; cbn [at_ contents snd].
  - intros (e & -> & Hv & Hi & Hs). destruct Hs as [[_ Hq]|[? _]]; [|lia]. destruct (Z.lt_ge_cases 0 q) as [Hlt|Hge].
    + left. split; [done|]. exists [with_index e (q - 1)], [with_index e (q - 1)]. split; [done|]. split; [|split].
      * intros rest. cbn [app drop_back]. rewrite Hi. by destruct (Z.ltb_spec 0 q); [|lia].
      * intros rest. cbn [app]. rewrite last_eq. change (ref_isLeaf b (with_index e (q - 1))) with (ref_isLeaf b e). by rewrite (rview_isLeaf _ _ _ _ Hv).
      * exists (with_index e (q - 1)). split; [done|]. split; [done|]. split; [done|]. left. lia.
    + right. split; [lia|]. intros rest. cbn [app drop_back]. by destruct (Z.ltb_spec 0 (index e)); [lia|].
  - destruct t as [id kids]. cbn [snd fst] in *. intros (c' & e & j & x & q' & -> & Hv & Hi & Hx & Hat & ->). cbn [repr full snd] in Hr, Hf. destruct Hr as [_ Hr], Hf as [Hne Hf].
    destruct fuel as [|fuel]; [lia|]. rewrite Forall_lookup in Hr, Hf. pose proof (off_nonneg kids j).
    destruct (IH x.2 (S fuel) c' q' (Hr _ _ Hx) (Hf _ _ Hx) ltac:(lia) Hat) as [(Hlt & cb & c1 & Hcb & Eb & Ef & Hat1)|[-> Eb]].
    + left. split; [lia|]. exists (cb ++ [e]), (c1 ++ [e]). split; [by destruct cb|]. split; [|split].
      * intros rest. rewrite <-!app_assoc. apply Eb.
      * intros rest. rewrite <-!app_assoc. apply Ef.
      * exists c1, e, j, x, (q' - 1). do 4 (split; [done|]). split; [done|lia].
    + assert (Ebe : forall rest, drop_back ((c' ++ [e]) ++ rest) = (if 0 <? Z.of_nat j then with_index e (Z.of_nat j - 1) :: rest else drop_back rest)).
      { intros rest. rewrite <-app_assoc, Eb. cbn [app drop_back]. by rewrite Hi. }
      destruct (Z.ltb_spec 0 (Z.of_nat j)) as [Hj|Hj].
      * left. destruct j as [|j]; [lia|]. pose proof (lookup_lt_Some _ _ _ Hx). destruct (lookup_lt_is_Some_2 kids j) as [y Hy]; [lia|].
        pose proof (full_contents _ (Hf _ _ Hy)). pose proof (toff_S kids j y Hy). pose proof (off_nonneg kids j). split; [lia|]. set (e' := with_index e (Z.of_nat (S j) - 1)) in *.
        destruct (last_enter y.2 fuel [e'] (Hr _ _ Hy) (Hf _ _ Hy) ltac:(lia)) as (p & n & c1 & Ep & Ec & Ef & Hat1).
        exists [e'], (c1 ++ [e']). split; [done|]. split; [exact Ebe|]. split.
        -- intros rest. cbn [app]. rewrite last_eq. change (ref_isLeaf b e') with (ref_isLeaf b e). rewrite (rview_isLeaf _ _ _ _ Hv). cbn [rbind].
           destruct (rview_child b e' (kid_item <$> kids) j (kid_item y)) as [-> _]; [done|cbn; lia|by apply kid_lookup|].
           cbn [rbind kid_item ipgid]. rewrite Ep. cbn [rbind]. rewrite Ec. cbn [rbind]. rewrite <-app_assoc. apply Ef.
        -- exists c1, e', j, y, (len (contents y.2) - 1). split; [done|]. split; [done|]. split; [cbn; lia|]. split; [done|]. split; [done|lia].
      * right. assert (j = 0%nat) as -> by lia. split; [|exact Ebe]. unfold off. rewrite take_0. done.
Qed.

(** ** Searches *)

Lemma search_exact_loop_spec (f : Z -> outcome Z) (g : Z -> Z) p fuel i j ex :
  0 <= i -> i <= p <= j -> (Z.to_nat (j - i) <= fuel)%nat -> (forall k, i <= k < j -> f k = Ok (g k)) ->
  (forall k, i <= k < p -> g k = -1) -> (forall k, p <= k < j -> g k <> -1) -> (forall k, i <= k < j -> g k = 0 -> k = p) ->
  search_exact_loop fuel i j f ex = Ok (p, ex || ((p <? j) && (g p =? 0))).
Proof.
  revert i j ex. induction fuel as [|fuel IH]; intros i j ex Hi Hp Hf Hfg Hlo Hhi Hz; cbn [search_exact_loop].
  { assert (i = p) by lia. subst i. destruct (Z.ltb_spec p j); [lia|]. by rewrite orb_false_r. }
  destruct (Z.ltb_spec i j) as [Hlt|].
  2: { assert (i = p) by lia. subst i. destruct (Z.ltb_spec p j); [lia|]. by rewrite orb_false_r. }
  rewrite Z.shiftr_div_pow2 by lia. change (2 ^ 1) with 2.
  assert (Hh : i <= (i + j) / 2 < j) by (split; [apply Z.div_le_lower_bound; lia|apply Z.div_lt_upper_bound; lia]).
  set (h := (i + j) / 2) in *. rewrite Hfg by lia. cbn [rbind]. destruct (Z.eqb_spec (g h) (-1)) as [Eg|Hg]; cbn [negb].
  - assert (h < p) by (destruct (Z.lt_ge_cases h p); [done|]; exfalso; by apply (Hhi h); [lia|]).
    rewrite IH; try lia; [|intros; apply Hfg; lia|intros; apply Hlo; lia|intros; apply Hhi; lia|intros; apply Hz; [lia|done]].
    do 2 f_equal. f_equal. rewrite Eg. by rewrite orb_false_r.
  - assert (p <= h) by (destruct (Z.lt_ge_cases h p); [exfalso; apply Hg, Hlo; lia|done]).
    rewrite IH; try lia; [|intros; apply Hfg; lia|intros; apply Hlo; lia|intros; apply Hhi; lia|intros; apply Hz; [lia|done]].
    do 2 f_equal. destruct (Z.ltb_spec p j); [|lia]. destruct (Z.ltb_spec p h) as [Hph|].
    + destruct (Z.eqb_spec (g h) 0) as [E0|]; [apply Hz in E0; lia|]. by rewrite orb_false_r.
    + assert (h = p) as -> by lia. cbn [andb]. by rewrite orb_false_r.
Qed.

Lemma nsearch_spec e l key : rview b e true l -> ksorted l -> nsearch b e key = Ok (with_index e (iseek key l)).
Proof.
  intros Hv Hs. unfold nsearch. rewrite (rview_count _ _ _ _ Hv). cbn [rbind]. pose proof (iseek_range key l).
  rewrite (search_spec _ (fun i => match l !! Z.to_nat i with Some x => negb (cmp (ikey x) key =? -1) | None => true end) (len l) (iseek key l)); [done|done| | |].
  - intros k Hk. destruct (lookup_lt_is_Some_2 l (Z.to_nat k)) as [x Hx]; [unfold len in *; lia|]. rewrite Hx.
    pose proof (rview_cmp b e true l _ x key Hv Hx) as E. rewrite Z2Nat.id in E by lia. by rewrite E.
  - intros k Hk. destruct (lookup_lt_is_Some_2 l (Z.to_nat k)) as [x Hx]; [unfold len in *; lia|]. rewrite Hx.
    assert (cmp (ikey x) key = -1) as -> by (apply cmp_neg, (iseek_before key l _ x Hx); lia). done.
  - intros k Hk. destruct (lookup_lt_is_Some_2 l (Z.to_nat k)) as [x Hx]; [unfold len in *; lia|]. rewrite Hx.
    pose proof (iseek_after key l _ x Hs Hx ltac:(lia)) as Hc. destruct (Z.eqb_spec (cmp (ikey x) key) (-1)); [lia|done].
Qed.

(** The child that is chosen holds the keys around the one that is sought. *)
Lemma search_branch_spec {h} e (l : list (bytes * tr h)) key lo hi : rview b e false (kid_item <$> l) -> l <> [] -> ksorted (kid_item <$> l) -> in_b lo hi key ->
  exists j x, search_branch b e key = Ok (with_index e (Z.of_nat j)) /\ l !! j = Some x /\ in_b (lo_at lo l j) (hi_at hi l j) key.
Proof.
  intros Hv Hne Hs Hb. unfold search_branch. rewrite (rview_count _ _ _ _ Hv). cbn [rbind].
  set (li := kid_item <$> l) in *. set (p := iseek key li). pose proof (iseek_range key li) as Hp. fold p in Hp.
  assert (Hlen : length li = length l) by (unfold li; by rewrite length_fmap). pose proof (len_pos l Hne) as Hpos.
  set (g := fun i => match li !! Z.to_nat i with Some x => cmp (ikey x) key | None => 1 end).
  assert (Hg : forall i x, l !! i = Some x -> g (Z.of_nat i) = cmp x.1 key) by (intros i x Hx; unfold g, li; by rewrite Nat2Z.id, (kid_lookup _ _ _ Hx)).
  assert (Hlk : forall k, 0 <= k < len li -> exists x, l !! Z.to_nat k = Some x) by (intros k Hk; apply lookup_lt_is_Some_2; unfold len in *; lia).
  assert (Hbef : forall k, 0 <= k < p -> g k = -1).
  { intros k Hk. destruct (Hlk k) as [x Hx]; [lia|]. rewrite <-(Z2Nat.id k), (Hg _ x Hx) by lia. apply cmp_neg, (iseek_before key li (Z.to_nat k) (kid_item x)); [by apply kid_lookup|lia]. }
  assert (Haft : forall k, p <= k < len li -> 0 <= g k).
  { intros k Hk. destruct (Hlk k) as [x Hx]; [lia|]. rewrite <-(Z2Nat.id k), (Hg _ x Hx) by lia.
    apply (iseek_after key li (Z.to_nat k) (kid_item x) Hs); [by apply kid_lookup|lia]. }
  assert (Hzero : forall k, 0 <= k < len li -> g k = 0 -> k = p).
  { intros k Hk E0. destruct (Z.lt_ge_cases k p) as [Hlt|Hge]; [rewrite Hbef in E0 by lia; lia|]. destruct (Z.eq_dec k p) as [|Hnp]; [done|]. exfalso.
    destruct (Hlk k) as [x Hx]; [lia|]. destruct (Hlk p) as [y Hy]; [lia|]. rewrite <-(Z2Nat.id k), (Hg _ x Hx) in E0 by lia. apply (cmp_eq (cmp := cmp)) in E0.
    pose proof (Haft p ltac:(lia)) as Hpp. rewrite <-(Z2Nat.id p), (Hg _ y Hy) in Hpp by lia. pose proof (kids_sorted l _ _ y x Hs Hy Hx ltac:(lia)) as Hlt'. rewrite E0 in Hlt'. lia. }
  unfold search_exact. rewrite (search_exact_loop_spec _ g p); [|lia|lia|lia| |done|intros; pose proof (Haft k ltac:(lia)); lia|done].
  2: { intros k Hk. destruct (Hlk k Hk) as [x Hx]. pose proof (rview_cmp b e false li (Z.to_nat k) (kid_item x) key Hv (kid_lookup _ _ _ Hx)) as E.
       rewrite Z2Nat.id in E by lia. rewrite E. cbn [kid_item ikey]. f_equal. rewrite <-(Z2Nat.id k) by lia. symmetry. by apply Hg. }
  cbn [rbind orb]. set (ex := (p <? len li) && (g p =? 0)).
  assert (Hchoice : exists j x, (if negb ex && (0 <? p) then p - 1 else p) = Z.of_nat j /\ l !! j = Some x /\
    (j <> 0%nat -> cmp x.1 key <= 0) /\ (forall y, l !! S j = Some y -> cmp key y.1 < 0)).
  { assert (Hgt : forall k y, l !! k = Some y -> p < Z.of_nat k \/ (p <= Z.of_nat k /\ ex = false) -> cmp key y.1 < 0).
    { intros k y Hy Hk. pose proof (lookup_lt_Some _ _ _ Hy). assert (Hk0 : 0 <= g (Z.of_nat k)) by (apply Haft; unfold len in *; lia). rewrite (Hg _ _ Hy) in Hk0.
      destruct (Z.eq_dec (cmp y.1 key) 0) as [E0|]; [|apply (cmp_gt_lt cmp); lia]. exfalso.
      rewrite <-(Hg _ _ Hy) in E0. assert (Z.of_nat k = p) as Ek by (apply Hzero; [unfold len in *; lia|done]). destruct Hk as [|[_ Hex]]; [lia|].
      unfold ex in Hex. rewrite <-Ek, E0 in Hex. destruct (Z.ltb_spec (Z.of_nat k) (len li)); [done|unfold len in *; lia]. }
    destruct ex eqn:Eex; cbn [negb andb].
    - unfold ex in Eex. apply andb_prop in Eex as [H1%Z.ltb_lt H2%Z.eqb_eq]. destruct (Hlk p) as [x Hx]; [lia|]. exists (Z.to_nat p), x. split; [lia|]. split; [done|]. split.
      + intros _. rewrite <-(Hg _ _ Hx), Z2Nat.id by lia. lia.
      + intros y Hy. apply (Hgt _ y Hy). left. lia.
    - destruct (Z.ltb_spec 0 p) as [Hp0|Hp0].
      + destruct (Hlk (p - 1)) as [x Hx]; [lia|]. exists (Z.to_nat (p - 1)), x. split; [lia|]. split; [done|]. split.
        * intros _. rewrite <-(Hg _ _ Hx), Z2Nat.id, Hbef by lia. lia.
        * intros y Hy. apply (Hgt _ y Hy). right. split; [lia|done].
      + assert (p = 0) as Ep by lia. destruct l as [|x l']; [done|]. exists 0%nat, x. split; [lia|]. split; [done|]. split; [done|].
        intros y Hy. apply (Hgt _ y Hy). left. lia. }
  destruct Hchoice as (j & x & -> & Hx & Hl & Hh). exists j, x. split; [done|]. split; [done|]. destruct Hb as [Hb1 Hb2]. split.
  - unfold lo_at. destruct j as [|j]; [done|]. rewrite Hx. intros a [= <-]. by apply Hl.
  - unfold hi_at. destruct (l !! S j) as [y|] eqn:Ey; [|done]. intros z [= <-]. by apply Hh.
Qed.

Lemma csearch_eq fuel key id c : csearch pg fuel b key id c =
  (let! (p, n) := pageNode pg b id in
   let! _ := (match p with Some p => if Z.land (p_flags p) (Z.lor branchPageFlag leafPageFlag) =? 0 then Panic else Ok tt | None => Ok tt end) in
   let e := mkRef p n 0 in
   let! leaf := ref_isLeaf b e in
   if leaf : bool then let! e := nsearch b e key in Ok (e :: c)
   else match fuel with
        | O => Err ErrModelFuel
        | S fuel' =>
            let! e := search_branch b e key in
            let! id := (match ref_node e, ref_page e with
                        | None, Some p => if p_count p <=? index e then Panic else let! x := branchPageElement p (index e) in Ok (be_pgid x)
                        | _, _ => ref_child b e
                        end) in
            csearch pg fuel' b key id (e :: c)
        end).
Proof. by destruct fuel. Qed.

Lemma rview_type p n leaf l : rview b (mkRef p n 0) leaf l -> (n = None \/ p = None) ->
  (match p with Some p => if Z.land (p_flags p) (Z.lor branchPageFlag leafPageFlag) =? 0 then Panic else Ok tt | None => Ok (E := error) tt end) = Ok tt.
Proof.
  intros Hv Hd. destruct p as [p|]; [|done]. destruct Hd as [->|]; [|done]. cbn in Hv. pose proof (pv_flags _ _ _ Hv). by destruct (Z.eqb_spec (Z.land (p_flags p) (Z.lor branchPageFlag leafPageFlag)) 0).
Qed.

Lemma pageNode_one id p n : pageNode pg b id = Ok (p, n) -> n = None \/ p = None.
Proof.
  unfold pageNode. destruct (root b =? 0).
  - destruct (negb (id =? 0)); [done|]. destruct (rootNode b); intros [= <- <-]; auto.
  - destruct (nodes b !! id); [intros [= <- <-]; auto|]. intros (q & _ & [= <- <-])%rbind_Ok. auto.
Qed.

Lemma iseek_kids {h} lo hi (l : list (bytes * tr h)) key j x :
  ksorted (kid_item <$> l) -> (forall j x, l !! j = Some x -> wf (lo_at lo l j) (hi_at hi l j) x.2) -> l !! j = Some x -> in_b (lo_at lo l j) (hi_at hi l j) key ->
  iseek key (concat ((fun x : bytes * tr h => contents x.2) <$> l)) = off l j + iseek key (contents x.2).
Proof.
  intros Hs Hw Hx [Hl Hh]. rewrite <-(take_drop_middle l j x Hx) at 1. rewrite fmap_app, fmap_cons, concat_app. cbn [concat]. rewrite iseek_app_lt; [|].
  - fold (off l j). f_equal. apply iseek_app_ge. apply Forall_forall. intros e He. apply elem_of_concat in He as (c & He & Hc).
    apply list_elem_of_fmap_1 in Hc as (y & -> & Hy). apply list_elem_of_lookup_1 in Hy as [i Hy]. rewrite lookup_drop in Hy.
    pose proof (kid_above lo hi l _ y e (Hw _ _ Hy) Hy ltac:(lia) He) as Hye. unfold hi_at in Hh.
    destruct (lookup_lt_is_Some_2 l (S j)) as [z Hz]; [apply lookup_lt_Some in Hy; lia|]. rewrite Hz in Hh. specialize (Hh _ eq_refl).
    pose proof (kids_sorted_le l (S j) _ z y Hs Hz Hy ltac:(lia)) as Hzy. apply Z.lt_le_incl, (cmp_gt_lt cmp).
    eapply (cmp_lt_le_trans cmp); [exact Hh|]. by eapply (cmp_le_trans cmp).
  - apply Forall_forall. intros e He. apply elem_of_concat in He as (c & He & Hc). apply list_elem_of_fmap_1 in Hc as (y & -> & Hy).
    apply list_elem_of_lookup_1 in Hy as [i Hy]. pose proof (lookup_lt_Some _ _ _ Hy) as Hlt. rewrite length_take in Hlt. rewrite lookup_take_lt in Hy by lia.
    pose proof (kid_below lo hi l i j y x e Hs (Hw _ _ Hy) Hy Hx ltac:(lia) He) as Hlt'. eapply (cmp_lt_le_trans cmp); [exact Hlt'|].
    unfold lo_at in Hl. destruct j as [|j]; [lia|]. rewrite Hx in Hl. by apply Hl.
Qed.

Lemma csearch_spec {h} (t : tr h) lo hi fuel key c : repr t -> wf lo hi t -> in_b lo hi key -> (h <= fuel)%nat ->
  exists c1 d, (forall rest, csearch pg fuel b key (tid t) (c ++ rest) = Ok (c1 ++ c ++ rest)) /\ at_ t c1 (iseek key (contents t)) d.
Proof.
  revert t lo hi fuel c. induction h as [|h IH]; intros t lo hi fuel c Hr Hw Hb Hfu; destruct (repr_view _ Hr) as (p & n & Ep & Hv);
    pose proof (rview_type p n _ _ Hv (pageNode_one _ _ _ Ep)) as Ety.
  - destruct Hw as [Hs Hbd]. cbn [items is_leaf] in Hv. exists [with_index (mkRef p n 0) (iseek key t.2)], (if iseek key t.2 =? len t.2 then 0 else 1). split.
    + intros rest. rewrite csearch_eq, Ep. cbn [rbind]. rewrite Ety. cbn [rbind]. cbv zeta. rewrite (rview_isLeaf _ _ _ _ Hv). cbn [rbind].
      by rewrite (nsearch_spec _ _ key Hv Hs).
    + exists (with_index (mkRef p n 0) (iseek key t.2)). split; [done|]. split; [done|]. split; [done|]. pose proof (iseek_range key t.2). cbn [contents].
      unfold spot. destruct (Z.eqb_spec (iseek key t.2) (len t.2)); lia.
  - destruct t as [id kids]. cbn [repr wf items is_leaf snd contents] in *. destruct Hr as [_ Hr], Hw as (Hne & Hs & _ & Hw). destruct fuel as [|fuel]; [lia|].
    destruct (search_branch_spec (mkRef p n 0) kids key lo hi Hv Hne Hs Hb) as (j & x & Esb & Hx & Hbx). rewrite Forall_lookup in Hr.
    set (e := with_index (mkRef p n 0) (Z.of_nat j)) in *.
    destruct (IH x.2 _ _ fuel (e :: c) (Hr _ _ Hx) (Hw _ _ Hx) Hbx ltac:(lia)) as (c1 & d & E1 & Hat). exists (c1 ++ [e]), d. split.
    + intros rest. rewrite csearch_eq, Ep. cbn [rbind]. rewrite Ety. cbn [rbind]. cbv zeta. rewrite (rview_isLeaf _ _ _ _ Hv). cbn [rbind]. rewrite Esb. cbn [rbind].
      destruct (rview_child b e (kid_item <$> kids) j (kid_item x)) as [_ ->]; [done|done|by apply kid_lookup|]. cbn [rbind kid_item ipgid].
      rewrite <-app_assoc. apply E1.
    + cbn [at_ snd]. exists c1, e, j, x, (iseek key (contents x.2)). do 4 (split; [done|]). split; [done|]. by apply (iseek_kids lo hi).
Qed.

End Repr.
End BdbTree.
