(* ===== verification/BdbIter.v ===== *)
(** The iterator of bdb keeps the contract the bitree's iterator relies on
    ([IndexIterLaws]): over a bucket that shows a well-formed tree it is a cursor
    over the tree's pairs. *)

From Stdlib Require Import ZArith Lia.
From stdpp Require Import base numbers option sorting list gmap.
From S2P Require Import Prelude Base Iter Freelist FreelistSafe BdbPage BdbCursor BdbTree SuperTable SuperTableSpec Bitree BitreeSpec BitreeIter.
Import Freelist Bdb BdbCursor BdbTree.

Module BdbIter.

Definition pair_of (x : inode) : bytes * bytes := (ikey x, ivalue x).

(** What the iterator yields for an item. *)
Definition entry_for (x : inode) : entry := (InternalKey.MakeInternalSetKey (ikey x), ivalue x).

(** A bucket that can be read: its tree is well formed, no leaf of it is empty but
    an only one, and all items are plain pairs. *)
Record readable (pg : Z -> outcome page) (b : Bucket) {h} (t : tr h) : Prop := mkReadable {
  rd_repr : repr pg b t;
  rd_root : root b = tid t;
  rd_wf : wf None None t;
  rd_full : full t \/ (h = 0%nat /\ contents t = []);
  rd_plain : Forall (fun x => iflags x = 0) (contents t)
}.

Section Iter.
Context (pg : Z -> outcome page) (b : Bucket) {h : nat} (t : tr h) (Ht : readable pg b t) (turns fuel : nat) (Hfu : (h <= fuel)%nat).

Lemma in_b_none k : in_b None None k.
Proof. split; [by intros a [=]|by intros a [=]]. Qed.

Lemma shown_item q : saveKV (shown (item_of <$> lookupZ (contents t) q)) = lookupZ (entry_for <$> contents t) q.
Proof.
  rewrite lookupZ_fmap. destruct (lookupZ (contents t) q) as [x|] eqn:E; [|done]. cbn.
  pose proof (Forall_lookupZ _ _ _ _ (rd_plain _ _ _ Ht) E) as Hf. cbv beta in Hf. rewrite Hf. done.
Qed.

(** The only leaf, empty. *)
Lemma empty_leaf : contents t = [] -> exists p n, pageNode pg b (root b) = Ok (p, n) /\ forall i, rview b (mkRef p n i) true [].
Proof.
  intros E. destruct (rd_full _ _ _ Ht) as [Hf|[Hh _]]; [pose proof (full_contents t Hf) as Hp; rewrite E in Hp; done|].
  destruct (repr_leaf pg b t Hh (rd_repr _ _ _ Ht)) as (p & n & Ep & Hv). rewrite E in Hv. exists p, n. by rewrite (rd_root _ _ _ Ht).
Qed.

Lemma leaf_kv e c : rview b e true [] -> keyValue b (e :: c) = Ok None.
Proof. intros Hv. unfold keyValue. cbn [top rbind]. rewrite (rview_count _ _ _ _ Hv). done. Qed.

Lemma leaf_next e : rview b e true [] -> index e <= 0 -> -1 <= index e -> next pg turns fuel b [e] = Ok ([e], None).
Proof.
  intros Hv Hi Hi'. destruct turns; cbn [next bump]; rewrite (rview_count _ _ _ _ Hv); cbn [rbind]; change (len (@nil inode)) with 0;
    (destruct (Z.ltb_spec (index e) (0 - 1)); [lia|]); done.
Qed.

(** A step forward from any position. *)
Lemma bdb_next_spec c q d : full t -> at_ b t c q d ->
  exists c', next pg turns fuel b c = Ok (c', item_of <$> lookupZ (contents t) (q + d)) /\ (q + d < len (contents t) -> at_ b t c' (q + d) 1).
Proof.
  intros Hf Hat. destruct (move_next pg b t fuel c q d (rd_repr _ _ _ Ht) Hf Hfu Hat) as [(Hlt & cb & c1 & Hne & Eb & Ef & Hat1)|[Heq Eb]].
  - specialize (Eb []). specialize (Ef []). rewrite !app_nil_r in *. exists c1. split; [|done].
    destruct (at_kv b t c1 (q + d) 1 Hat1) as (e & c' & -> & (l & Hv & Hi & Hd) & Hkv). specialize (Hkv []). rewrite app_nil_r in Hkv. cbn [Z.eqb] in Hkv.
    assert (Hcnt : len l <> 0) by (intros E0; assert (1 = 0) by (apply Hd; lia); lia).
    assert (Hstep : forall k, (let! c' := Ok cb in match c' with [] => Ok (c, None) | _ => let! c'' := first pg fuel b c' in let! e := top c'' in let! k0 := ref_count b e in
      if k0 =? 0 then k c'' else let! r := keyValue b c'' in Ok (c'', r) end) = Ok (e :: c', item_of <$> lookupZ (contents t) (q + d))).
    { intros k. cbn [rbind]. destruct cb as [|e0 cb]; [done|]. rewrite Ef. cbn [rbind top]. rewrite (rview_count _ _ _ _ Hv). cbn [rbind].
      destruct (Z.eqb_spec (len l) 0); [done|]. by rewrite Hkv. }
    destruct turns as [|turns']; cbn [next]; rewrite Eb; [apply (Hstep (fun _ => Err ErrModelFuel))|apply (Hstep (fun c'' => next pg turns' fuel b c''))].
  - specialize (Eb []). rewrite app_nil_r in Eb. exists c. rewrite lookupZ_None by lia. split; [|lia].
    by destruct turns; cbn [next]; rewrite Eb.
Qed.

Definition R (i : BdbIterator) (l : list entry) (p : Z) : Prop :=
  i.1 = b /\ l = entry_for <$> contents t /\ (0 <= p < len l -> at_ b t i.2 p 1).

Lemma len_entries : len (entry_for <$> contents t) = len (contents t).
Proof. unfold len. by rewrite length_fmap. Qed.

Lemma answer c r q : r = Ok (c, shown (item_of <$> lookupZ (contents t) q)) -> (0 <= q < len (contents t) -> at_ b t c q 1) ->
  exists s', iter_call (b, c) r = Ok (s', lookupZ (entry_for <$> contents t) q) /\ R s' (entry_for <$> contents t) q.
Proof.
  intros -> Hat. exists (b, c). unfold iter_call. cbn [rbind fst]. rewrite shown_item. split; [done|]. split; [done|]. split; [done|]. by rewrite len_entries.
Qed.

Lemma full_cases : full t \/ contents t = [].
Proof. destruct (rd_full _ _ _ Ht) as [|[_ ?]]; auto. Qed.

#[export] Instance bdb_index_iter : BitreeIter.IndexIterLaws (bdbOps pg turns fuel) R.
Proof.
  pose proof (rd_repr _ _ _ Ht) as Hr. pose proof (rd_root _ _ _ Ht) as Hroot. split.
  - intros [b' c0] l p (Eb & -> & _). cbn in Eb. subst b'. cbn [bdbOps itFirst fst snd]. destruct full_cases as [Hf|E].
    + destruct (first_enter pg b t fuel [] Hr Hf Hfu) as (pp & n & c1 & Ep & Ef & Hat). specialize (Ef []). cbn [app] in Ef. rewrite app_nil_r in Ef.
      destruct (at_kv b t c1 0 1 Hat) as (e & c' & -> & (ll & Hv & Hi & Hd) & Hkv). specialize (Hkv []). rewrite app_nil_r in Hkv. cbn [Z.eqb] in Hkv.
      apply (answer (e :: c')); [|done]. unfold First. rewrite Hroot, Ep. cbn [rbind]. rewrite Ef. cbn [rbind top]. rewrite (rview_count _ _ _ _ Hv). cbn [rbind].
      assert (Hc : (if len ll =? 0 then let! (c, _) := next pg turns fuel b (e :: c') in Ok c else Ok (e :: c')) = Ok (e :: c')); [|rewrite Hc; cbn [rbind]; by rewrite Hkv].
      destruct (Z.eqb_spec (len ll) 0) as [E0|]; [|done]. assert (1 = 0) by (apply Hd; lia). lia.
    + destruct (empty_leaf E) as (pp & n & Ep & Hv). apply (answer [mkRef pp n 0]); [|rewrite E; change (len (@nil inode)) with 0; lia].
      unfold First. rewrite Ep. cbn [rbind]. rewrite first_eq, (rview_isLeaf _ _ _ _ (Hv 0)). cbn [rbind top]. rewrite (rview_count _ _ _ _ (Hv 0)). cbn [rbind].
      change (len (@nil inode) =? 0) with true. cbv iota. rewrite (leaf_next _ (Hv 0)) by (cbn; lia). cbn [rbind]. rewrite (leaf_kv _ _ (Hv 0)). cbn [rbind].
      by rewrite E, lookupZ_nil.
  - intros [b' c0] l p (Eb & -> & _). cbn in Eb. subst b'. cbn [bdbOps itLast fst snd]. rewrite len_entries. destruct full_cases as [Hf|E].
    + destruct (last_enter pg b t fuel [] Hr Hf Hfu) as (pp & n & c1 & Ep & Ec & Ef & Hat). specialize (Ef []). cbn [app] in Ef. rewrite app_nil_r in Ef.
      destruct (at_kv b t c1 _ 1 Hat) as (e & c' & -> & _ & Hkv). specialize (Hkv []). rewrite app_nil_r in Hkv. cbn [Z.eqb] in Hkv.
      apply (answer (e :: c')); [|done]. unfold Last. rewrite Hroot, Ep. cbn [rbind]. rewrite Ec. cbn [rbind]. rewrite Ef. cbn [rbind]. by rewrite Hkv.
    + destruct (empty_leaf E) as (pp & n & Ep & Hv). apply (answer [mkRef pp n (-1)]); [|rewrite E; change (len (@nil inode)) with 0; lia].
      unfold Last. rewrite Ep. cbn [rbind]. rewrite (rview_count _ _ _ _ (Hv 0)). cbn [rbind]. change (len (@nil inode) - 1) with (-1).
      rewrite last_eq, (rview_isLeaf _ _ _ _ (Hv (-1))). cbn [rbind]. rewrite (leaf_kv _ _ (Hv (-1))). cbn [rbind]. by rewrite E, lookupZ_nil.
  - intros [b' c0] l p (Eb & -> & Hat) Hp. cbn in Eb. subst b'. specialize (Hat Hp). cbn [bdbOps itNext fst snd] in *. rewrite len_entries in Hp.
    destruct full_cases as [Hf|E]; [|rewrite E in Hp; change (len (@nil inode)) with 0 in Hp; lia].
    destruct (bdb_next_spec c0 p 1 Hf Hat) as (c' & E & Hat'). apply (answer c'); [unfold Next; by rewrite E|]. intros Hq. apply Hat'. lia.
  - intros [b' c0] l p (Eb & -> & Hat) Hp. cbn in Eb. subst b'. specialize (Hat Hp). cbn [bdbOps itPrev fst snd] in *. rewrite len_entries in Hp.
    destruct full_cases as [Hf|E]; [|rewrite E in Hp; change (len (@nil inode)) with 0 in Hp; lia].
    destruct (move_prev pg b t fuel c0 p Hr Hf Hfu Hat) as [(Hlt & cb & c1 & Hne & Ed & El & Hat1)|[-> Ed]].
    + specialize (Ed []). specialize (El []). rewrite !app_nil_r in *. destruct (at_kv b t c1 _ 1 Hat1) as (e & c' & -> & _ & Hkv). specialize (Hkv []).
      rewrite app_nil_r in Hkv. cbn [Z.eqb] in Hkv. apply (answer (e :: c')); [|done]. unfold Prev. rewrite Ed. destruct cb as [|e0 cb]; [done|].
      rewrite El. cbn [rbind]. by rewrite Hkv.
    + specialize (Ed []). rewrite app_nil_r in Ed. apply (answer []); [|lia]. unfold Prev. by rewrite Ed.
  - intros [b' c0] l p k (Eb & -> & _). cbn in Eb. subst b'. cbn [bdbOps itSeekGE fst snd].
    assert (Ek : list_seek bytes_compare k (entry_for <$> contents t) = iseek k (contents t)).
    { clear. induction (contents t) as [|x l IH]; [done|]. rewrite fmap_cons. cbn [list_seek iseek]. rewrite IH. done. }
    rewrite Ek. destruct (csearch_spec pg b t None None fuel k [] Hr (rd_wf _ _ _ Ht) (in_b_none k) Hfu) as (c1 & d & Ec & Hat).
    specialize (Ec []). cbn [app] in Ec. rewrite app_nil_r in Ec. destruct (at_kv b t c1 _ d Hat) as (e & c' & -> & (ll & Hv & Hi & Hd) & Hkv).
    specialize (Hkv []). rewrite app_nil_r in Hkv. set (q := iseek k (contents t)) in *.
    assert (Es : seek pg fuel b k = Ok (e :: c', if d =? 0 then None else item_of <$> lookupZ (contents t) q)).
    { unfold seek. rewrite Hroot, Ec. cbn [rbind]. by rewrite Hkv. }
    destruct (Z.eqb_spec d 0) as [->|Hd0].
    + assert (Hle : len ll <= index e) by (by apply Hd).
      assert (Hn : exists c2, next pg turns fuel b (e :: c') = Ok (c2, item_of <$> lookupZ (contents t) q) /\ (q < len (contents t) -> at_ b t c2 q 1)).
      { destruct full_cases as [Hf|E].
        - destruct (bdb_next_spec (e :: c') q 0 Hf Hat) as (c2 & E2 & Hat2). rewrite Z.add_0_r in *. eauto.
        - destruct (rd_full _ _ _ Ht) as [Hf|[Hh _]]; [pose proof (full_contents t Hf) as Hp; rewrite E in Hp; done|].
          exists (e :: c'). destruct (at_leaf b t _ _ _ Hh Hat) as (e0 & [= <- ->] & Hv0 & Hi0). rewrite E in Hv0. assert (Hq0 : q = 0) by (unfold q; by rewrite E).
          rewrite (leaf_next e Hv0) by lia. rewrite E, lookupZ_nil. split; [done|]. change (len (@nil inode)) with 0. intros Hq. pose proof (iseek_range k (contents t)). lia. }
      destruct Hn as (c2 & En & Hat2). apply (answer c2); [|by intros [_ Hq]; apply Hat2].
      unfold Seek. rewrite Es. cbn [rbind top]. rewrite (rview_count _ _ _ _ Hv). cbn [rbind]. destruct (Z.leb_spec (len ll) (index e)); [|lia]. by rewrite En.
    + assert (d = 1) as -> by (destruct (at_d b t _ _ _ Hat); lia).
      apply (answer (e :: c')); [|done]. unfold Seek. rewrite Es. cbn [rbind top]. rewrite (rview_count _ _ _ _ Hv). cbn [rbind].
      destruct (Z.leb_spec (len ll) (index e)) as [Hge|]; [|done]. exfalso. apply Hd in Hge. lia.
Qed.

End Iter.

(** C23: over the pages of a well-formed B+tree, of any height, the iterator of the
    index keeps the contract of a cursor over the pairs of the tree in key
    order: [First], [Last] and [Seek] go where they should, [Next] and [Prev]
    move by one also across pages, and the ends are reported; so the bitree's
    iterator, proved against that contract, works over it. *)
Theorem bdb_iterates pg b {h} (t : tr h) turns fuel :
  readable pg b t -> (h <= fuel)%nat ->
  BitreeIter.IndexIterLaws (bdbOps pg turns fuel) (R b t) /\ R b t (newBdbIter b) (entry_for <$> contents t) (-1) /\
  StronglySorted (fun x y => bytes_compare (ikey x) (ikey y) < 0) (contents t).
Proof.
  intros Ht Hfu. split; [by apply bdb_index_iter|]. split; [split; [done|]; split; [done|lia]|]. apply (wf_sorted None None t), Ht.
Qed.

(** *** A tree of three pages *)

Definition demo_node (leaf : bool) (l : list inode) : node := mkNode leaf false false None 0 None [] l.

Definition demo_written (id : Z) (n : node) : page := match write n (new_page 128 id 1) with Ok p => p | _ => new_page 128 id 1 end.

Definition demo_left : list inode := [mkInode 0 0 [1] [10]; mkInode 0 0 [2] [20]].
Definition demo_right : list inode := [mkInode 0 0 [3] [30]].

Definition demo_tree : tr 1 := (5, [([1], (3, demo_left)); ([3], (4, demo_right))]).

Definition demo_pg (id : Z) : outcome page :=
  if id =? 3 then Ok (demo_written 3 (demo_node true demo_left))
  else if id =? 4 then Ok (demo_written 4 (demo_node true demo_right))
  else if id =? 5 then Ok (demo_written 5 (demo_node false [mkInode 0 3 [1] []; mkInode 0 4 [3] []]))
  else Panic.

Definition demo_bucket : Bucket := mkBucket 5 0 None None ∅ ∅ 0.

Lemma demo_bview id leaf l p :
  id <> 0 -> demo_pg id = Ok p -> pview p leaf l -> bview demo_pg demo_bucket id leaf l.
Proof.
  intros Hid E Hv. exists (Some p), None. split; [|done]. unfold pageNode. cbn [root demo_bucket nodes Z.eqb Pos.eqb].
  rewrite lookup_empty, E. done.
Qed.

Lemma demo_readable : readable demo_pg demo_bucket demo_tree.
Proof.
  split.
  - split; [|constructor; [|constructor; [|constructor]]]; (eapply demo_bview; [done|vm_compute; reflexivity|]); (split; [by vm_compute..|]);
      intros [|[|i]] x [= <-]; vm_compute; reflexivity.
  - done.
  - split; [done|]. split; [repeat constructor|]. split; [repeat constructor; by intros ? [=]|].
    intros [|[|j]] x [= <-]; (split; [repeat constructor|]); repeat constructor; by intros ? [= <-].
  - left. split; [done|]. repeat constructor; done.
  - repeat constructor.
Qed.

Lemma bdb_iterates_witness :
  (let! (i, a) := itSeekGE (bdbOps demo_pg 0 1) [2] (newBdbIter demo_bucket) in let! (i, c) := itNext (bdbOps demo_pg 0 1) i in Ok (a, c)) =
  Ok (Some (InternalKey.MakeInternalSetKey [2], [20]), Some (InternalKey.MakeInternalSetKey [3], [30])).
Proof.
  destruct (bdb_iterates demo_pg demo_bucket demo_tree 0 1 demo_readable ltac:(lia)) as (HL & H0 & _).
  destruct (BitreeIter.ixi_seekGE _ _ _ [2] H0) as (s1 & -> & H1). cbn [rbind].
  destruct (BitreeIter.ixi_next _ _ _ H1) as (s2 & -> & _); [by vm_compute|]. vm_compute. reflexivity.
Defined.
End BdbIter.
