(* ===== verification/BdbMeta.v ===== *)
(** The file of bdb (bitree/bdb/db.go, bdb_unix.go and the page writes of
    tx.go): pages in the file, the two meta pages, the size of the mapping and
    the writes of a commit.

    The file is its bytes, and the mapping shows them: [file_page] is the page
    [DB.page] points to.  Integers are little-endian, as on the machines the
    code is built for. *)

From Stdlib Require Import ZArith Lia.
From stdpp Require Import base numbers option sorting list gmap.
From S2P Require Import Prelude Base Freelist FreelistSafe BdbPage.
Import Freelist Bdb.

Module BdbMeta.

Definition versionFreelistUint : Z := 2.
Definition versionFreelistBitmap : Z := 3.
Definition version : Z := 3.
Definition magic : Z := 3977042669.
Definition pgidNoFreelist : Z := 18446744073709551615.
Definition maxMmapStep : Z := 1073741824.
Definition maxMapSize : Z := 281474976710655.
Definition maxAllocSize : Z := 2147483647.

(** ** Pages in the file *)

Definition page_header (p : page) : bytes := le_put 8 (p_id p) ++ le_put 2 (p_flags p) ++ le_put 2 (p_count p) ++ le_put 4 (p_overflow p).

Definition page_bytes (p : page) : bytes := page_header p ++ p_data p.

(** A field of [n] bytes, and what follows it. *)
Definition field (n : nat) (d : bytes) : Z * bytes := (le_get (take n d), drop n d).

(** The page at an offset: its header, and the bytes up to the end of its
    overflow pages, as far as the file goes. *)
Definition page_at (f : bytes) (off ps : Z) : outcome page :=
  let! h := peek_data f off pageHeaderSize in
  let '(id, h) := field 8 h in let '(fl, h) := field 2 h in let '(c, h) := field 2 h in let '(ov, _) := field 4 h in
  Ok (mkPage id fl c ov (take (Z.to_nat ((ov + 1) * ps - pageHeaderSize)) (drop (Z.to_nat (off + pageHeaderSize)) f))).

(** [DB.page], and [DB.pageInBuffer] on a buffer. *)
Definition file_page (f : bytes) (ps id : Z) : outcome page := page_at f (id * ps) ps.

(** [File.WriteAt]: a write behind the end fills the gap with zeros. *)
Definition write_at (f : bytes) (off : Z) (bs : bytes) : bytes :=
  let f := f ++ replicate (Z.to_nat (off - len f)) 0 in
  take (Z.to_nat off) f ++ bs ++ drop (Z.to_nat (off + len bs)) f.

(** The loop of [Tx.write] for one page: at most [maxAllocSize - 1] bytes at a
    time. *)
Fixpoint write_chunks (fuel : nat) (f : bytes) (off : Z) (bs : bytes) : outcome bytes :=
  match fuel with
  | O => Err ErrModelFuel
  | S fuel' =>
      let sz := if maxAllocSize - 1 <? len bs then maxAllocSize - 1 else len bs in
      let f := write_at f off (take (Z.to_nat sz) bs) in
      let rem := drop (Z.to_nat sz) bs in
      if len rem =? 0 then Ok f else write_chunks fuel' f (off + sz) rem
  end.

Definition chunks_fuel (bs : bytes) : nat := S (Z.to_nat (len bs / (maxAllocSize - 1))).

Definition write_page (ps : Z) (f : bytes) (p : page) : outcome bytes :=
  let bs := page_bytes p in write_chunks (chunks_fuel bs) f (p_id p * ps) bs.

(** [Tx.write]: the pages of the transaction in the order of their numbers. *)
Fixpoint write_pages (ps : Z) (f : bytes) (l : list page) : outcome bytes :=
  match l with
  | [] => Ok f
  | p :: l' => let! f := write_page ps f p in write_pages ps f l'
  end.

Definition page_le (p q : page) : Prop := p_id p <= p_id q.

#[export] Instance page_le_dec p q : Decision (page_le p q).
Proof. unfold page_le. apply _. Defined.

Definition sort_pages (l : list page) : list page := merge_sort page_le l.

Definition tx_write (ps : Z) (f : bytes) (pages : gmap Z page) : outcome bytes := write_pages ps f (sort_pages (map_to_list pages).*2).

(** ** Meta pages *)

Record meta : Type := mkMeta {
  m_magic : Z;
  m_version : Z;
  m_pageSize : Z;
  m_flags : Z;
  m_root : Z;
  m_sequence : Z;
  m_freelist : Z;
  m_pgid : Z;
  m_txid : Z;
  m_checksum : Z
}.

(** The bytes in front of the checksum. *)
Definition meta_head (m : meta) : bytes :=
  le_put 4 (m_magic m) ++ le_put 4 (m_version m) ++ le_put 4 (m_pageSize m) ++ le_put 4 (m_flags m) ++ le_put 8 (m_root m) ++ le_put 8 (m_sequence m) ++
  le_put 8 (m_freelist m) ++ le_put 8 (m_pgid m) ++ le_put 8 (m_txid m).

Definition meta_bytes (m : meta) : bytes := meta_head m ++ le_put 8 (m_checksum m).

Definition meta_of (d : bytes) : meta :=
  let '(mg, d) := field 4 d in let '(v, d) := field 4 d in let '(z, d) := field 4 d in let '(fl, d) := field 4 d in
  let '(r, d) := field 8 d in let '(s, d) := field 8 d in let '(l, d) := field 8 d in let '(g, d) := field 8 d in
  let '(t, d) := field 8 d in let '(k, d) := field 8 d in
  mkMeta mg v z fl r s l g t k.

Definition metaSize : Z := 64.

(** [page.meta]: the meta behind the header of the page at an offset. *)
Definition meta_at (f : bytes) (off : Z) : outcome meta := let! d := peek_data f (off + pageHeaderSize) metaSize in Ok (meta_of d).

(** [fnv.New64a] *)
Definition fnv64a (bs : bytes) : Z := foldl (fun h b => u64 (Z.lxor h b * 1099511628211)) 14695981039346656037 bs.

Definition sum64 (m : meta) : Z := fnv64a (meta_head m).

Definition validate (m : meta) : option error :=
  if negb (m_magic m =? magic) then Some ErrInvalid
  else if negb (m_version m =? versionFreelistUint) && negb (m_version m =? versionFreelistBitmap) then Some ErrVersionMismatch
  else if negb (m_checksum m =? 0) && negb (m_checksum m =? sum64 m) then Some ErrChecksum
  else None.

Definition with_checksum (m : meta) (c : Z) : meta :=
  mkMeta (m_magic m) (m_version m) (m_pageSize m) (m_flags m) (m_root m) (m_sequence m) (m_freelist m) (m_pgid m) (m_txid m) c.

Definition with_version (m : meta) (v : Z) : meta :=
  mkMeta (m_magic m) v (m_pageSize m) (m_flags m) (m_root m) (m_sequence m) (m_freelist m) (m_pgid m) (m_txid m) (m_checksum m).

(** [meta.write] *)
Definition meta_write (m : meta) (p : page) : outcome (meta * page) :=
  if m_pgid m <=? m_root m then Panic
  else if (m_pgid m <=? m_freelist m) && negb (m_freelist m =? pgidNoFreelist) then Panic
  else
    let m := with_checksum m (sum64 m) in
    let! d := poke_data (p_data p) 0 (meta_bytes m) in
    Ok (m, mkPage (m_txid m mod 2) (Z.lor (p_flags p) metaPageFlag) (p_count p) (p_overflow p) d).

(** [DB.meta]: of the two, the one of the later transaction that is valid. *)
Definition db_meta (m0 m1 : meta) : outcome meta :=
  let '(a, b) := if m_txid m0 <? m_txid m1 then (m1, m0) else (m0, m1) in
  match validate a with
  | None => Ok a
  | Some _ => match validate b with None => Ok b | Some _ => Panic end
  end.

Definition file_meta (f : bytes) (ps id : Z) : outcome meta := meta_at f (id * ps).

(** What the mapping shows: [db.meta0] and [db.meta1] are pointers into it. *)
Definition current (f : bytes) (ps : Z) : outcome meta :=
  let! m0 := file_meta f ps 0 in let! m1 := file_meta f ps 1 in db_meta m0 m1.

(** [Tx.writeMeta]; [v] is the version the database writes. *)
Definition write_meta (ps v : Z) (f : bytes) (m : meta) : outcome (bytes * meta) :=
  let! p := page_at (replicate (Z.to_nat ps) 0) 0 ps in
  let m := if (v =? versionFreelistBitmap) && negb (m_version m =? versionFreelistBitmap) then with_version m versionFreelistBitmap else m in
  let! (m, p) := meta_write m p in
  Ok (write_at f (p_id p * ps) (page_bytes p), m).

(** [DB.init]: an empty database of four pages. *)
Definition init_meta (ps i : Z) : meta :=
  let m := mkMeta magic version (u32 ps) 0 3 0 2 4 i 0 in with_checksum m (sum64 m).

Definition blank (ps id flags : Z) : page := mkPage id flags 0 0 (replicate (Z.to_nat (ps - pageHeaderSize)) 0).

Definition init_meta_page (ps i : Z) : outcome page :=
  let! d := poke_data (p_data (blank ps i metaPageFlag)) 0 (meta_bytes (init_meta ps i)) in Ok (mkPage i metaPageFlag 0 0 d).

Definition init (ps : Z) : outcome bytes :=
  let! p0 := init_meta_page ps 0 in
  let! p1 := init_meta_page ps 1 in
  Ok (write_at [] 0 (page_bytes p0 ++ page_bytes p1 ++ page_bytes (blank ps 2 freelistPageFlag) ++ page_bytes (blank ps 3 leafPageFlag))).

(** ** The size of the mapping *)

Fixpoint mmap_pow (n : nat) (i size : Z) : option Z :=
  match n with
  | O => None
  | S n' => if size <=? Z.shiftl 1 i then Some (Z.shiftl 1 i) else mmap_pow n' (i + 1) size
  end.

(** [DB.mmapSize], for a size of at least 0. *)
Definition mmapSize (ps size : Z) : outcome Z :=
  match mmap_pow 16 15 size with
  | Some z => Ok z
  | None =>
      if maxMapSize <? size then Err ErrMmapTooLarge
      else
        let r := size mod maxMmapStep in
        let sz := if 0 <? r then size + (maxMmapStep - r) else size in
        let sz := if negb (sz mod ps =? 0) then (sz / ps + 1) * ps else sz in
        Ok (if maxMapSize <? sz then maxMapSize else sz)
  end.

(** [DB.mmap]: the new size of the mapping; [sys] is whether the system maps that
    many bytes.  Both metas invalid is an error, but only after the mapping. *)
Definition mmap (sys : Z -> bool) (f : bytes) (ps minsz : Z) : outcome Z :=
  if len f <? ps * 2 then Err ErrFileTooSmall
  else
    let! size := mmapSize ps (if len f <? minsz then minsz else len f) in
    if negb (sys size) then Err ErrSys
    else
      let! m0 := file_meta f ps 0 in
      let! m1 := file_meta f ps 1 in
      match validate m0, validate m1 with
      | Some e, Some _ => Err e
      | _, _ => Ok size
      end.

(** ** Writing to the file *)

Lemma length_write_at f off bs : 0 <= off -> len (write_at f off bs) = Z.max (len f) (off + len bs).
Proof.
  intros Ho. unfold write_at, len. rewrite !length_app, length_take, length_drop, length_app, length_replicate. unfold len. lia.
Qed.

(** Behind the end [default 0] reads what a later write will put there. *)
Lemma lookup_write_at f off bs i : 0 <= off ->
  write_at f off bs !! i =
    if decide (off <= Z.of_nat i < off + len bs) then bs !! Z.to_nat (Z.of_nat i - off)
    else if decide (len f <= Z.of_nat i < off) then Some 0 else f !! i.
Proof.
  intros Ho. unfold write_at. set (f0 := f ++ _). assert (L0 : length f0 = Z.to_nat (Z.max (len f) off)) by (unfold f0, len; rewrite length_app, length_replicate; lia).
  assert (Hf0 : f0 !! i = if decide (len f <= Z.of_nat i < off) then Some 0 else f !! i).
  { unfold f0. destruct (decide (i < length f)%nat).
    - rewrite lookup_app_l by done. rewrite decide_False by (unfold len; lia). done.
    - rewrite lookup_app_r by lia. rewrite (lookup_ge_None_2 f) by lia. case_decide.
      + apply lookup_replicate. split; [done|]. unfold len in *. lia.
      + apply lookup_replicate_None. unfold len in *. lia. }
  assert (Lt : length (take (Z.to_nat off) f0) = Z.to_nat off) by (rewrite length_take; lia).
  destruct (decide (Z.of_nat i < off)).
  - rewrite decide_False by lia. rewrite lookup_app_l by lia. rewrite lookup_take_lt by lia. done.
  - rewrite lookup_app_r by lia. rewrite Lt. destruct (decide (off <= Z.of_nat i < off + len bs)) as [Hin|Hin].
    + rewrite lookup_app_l by (unfold len in *; lia). f_equal. lia.
    + rewrite lookup_app_r by (unfold len in *; lia). rewrite lookup_drop, <-Hf0. f_equal. unfold len in *. lia.
Qed.

(** Two files have the same bytes from [o] up to [o + n], all inside. *)
Definition same_at (f g : bytes) (o n : Z) : Prop := 0 <= o /\ 0 <= n /\ o + n <= len f /\ forall i, o <= Z.of_nat i < o + n -> g !! i = f !! i.

Lemma same_at_len f g o n : same_at f g o n -> 0 < n -> o + n <= len g.
Proof.
  intros (H0 & H1 & H2 & H) Hn. assert (Hl : is_Some (g !! Z.to_nat (o + n - 1))).
  { rewrite H by lia. apply lookup_lt_is_Some_2. unfold len in *. lia. }
  apply lookup_lt_is_Some_1 in Hl. unfold len. lia.
Qed.

Lemma same_at_sub f g o n o' n' : same_at f g o n -> o <= o' -> o' + n' <= o + n -> 0 <= n' -> same_at f g o' n'.
Proof. intros (H0 & H1 & H2 & H) Ho Hn Hn'. repeat split; [lia..|]. intros i Hi. apply H. lia. Qed.

Lemma same_at_trans f g k o n : same_at f g o n -> 0 < n -> same_at g k o n -> same_at f k o n.
Proof. intros H Hn (_ & _ & _ & H'). pose proof H as (H0 & H1 & H2 & Hi). repeat split; try done. intros i Hb. rewrite H' by done. by apply Hi. Qed.

Lemma write_at_other f off bs o n : 0 <= off -> 0 <= o -> 0 <= n -> o + n <= len f -> o + n <= off \/ off + len bs <= o -> same_at f (write_at f off bs) o n.
Proof.
  intros Hof Ho Hn Hl Hd. repeat split; [done..|]. intros i Hi. rewrite lookup_write_at by done. rewrite decide_False by lia. by rewrite decide_False by lia.
Qed.

Lemma same_at_slice f g o n : same_at f g o n -> take (Z.to_nat n) (drop (Z.to_nat o) g) = take (Z.to_nat n) (drop (Z.to_nat o) f).
Proof.
  intros (H0 & H1 & H2 & H). apply list_eq. intros i. destruct (decide (i < Z.to_nat n)%nat).
  - rewrite !lookup_take_lt, !lookup_drop by lia. apply H. lia.
  - by rewrite !lookup_take_ge by lia.
Qed.

Lemma same_at_peek f g o n : same_at f g o n -> 0 < n -> peek_data g o n = peek_data f o n.
Proof.
  intros H Hn. pose proof (same_at_len _ _ _ _ H Hn) as Hg. pose proof H as (H0 & H1 & H2 & _). rewrite !peek_ok by lia. f_equal. by apply same_at_slice.
Qed.

Lemma write_at_same f off bs : 0 <= off -> peek_data (write_at f off bs) off (len bs) = Ok bs.
Proof.
  intros Ho. pose proof (len_nonneg bs). rewrite peek_ok by (rewrite ?length_write_at; lia). f_equal. apply list_eq. intros i.
  destruct (decide (i < length bs)%nat).
  - rewrite lookup_take_lt by (unfold len; lia). rewrite lookup_drop, lookup_write_at by done. rewrite decide_True by (unfold len; lia). f_equal. lia.
  - rewrite lookup_take_ge by (unfold len; lia). symmetry. apply lookup_ge_None_2. lia.
Qed.

Lemma write_at_app f off a b : 0 <= off -> write_at (write_at f off a) (off + len a) b = write_at f off (a ++ b).
Proof.
  intros Ho. pose proof (len_nonneg a). pose proof (len_nonneg b). apply list_eq. intros i. rewrite !lookup_write_at by lia. rewrite length_write_at, len_app by done.
  destruct (decide (off + len a <= Z.of_nat i < off + len a + len b)) as [Hb|Hb].
  { rewrite (decide_True (P := off <= Z.of_nat i < off + (len a + len b))) by lia. rewrite lookup_app_r by (unfold len in *; lia). f_equal. unfold len in *. lia. }
  rewrite (decide_False (P := Z.max (len f) (off + len a) <= Z.of_nat i < off + len a)) by lia.
  destruct (decide (off <= Z.of_nat i < off + len a)) as [Ha|Ha].
  - rewrite (decide_True (P := off <= Z.of_nat i < off + (len a + len b))) by lia. rewrite lookup_app_l by (unfold len in *; lia). done.
  - by rewrite (decide_False (P := off <= Z.of_nat i < off + (len a + len b))) by lia.
Qed.

(** Chunks make no difference. *)
Lemma write_chunks_eq fuel f off bs : 0 <= off -> len bs < Z.of_nat fuel * (maxAllocSize - 1) + 1 -> (0 < fuel)%nat ->
  write_chunks fuel f off bs = Ok (write_at f off bs).
Proof.
  revert f off bs. induction fuel as [|fuel IH]; intros f off bs Ho Hf H0; [lia|]. unfold maxAllocSize in *. cbn [write_chunks]. unfold maxAllocSize.
  destruct (Z.ltb_spec (2147483647 - 1) (len bs)) as [Hlt|Hle].
  - set (n := Z.to_nat (2147483647 - 1)). assert (Hl : len (take n bs) = 2147483647 - 1) by (unfold len in *; rewrite length_take; lia).
    assert (Hd : len (drop n bs) = len bs - (2147483647 - 1)) by (unfold len in *; rewrite length_drop; lia).
    destruct (Z.eqb_spec (len (drop n bs)) 0); [lia|]. rewrite IH by lia. replace (off + (2147483647 - 1)) with (off + len (take n bs)) by lia. rewrite write_at_app by done. by rewrite take_drop.
  - rewrite take_ge by (unfold len; lia). rewrite drop_ge by (unfold len; lia). done.
Qed.

Lemma write_page_eq ps f p : 0 <= p_id p * ps -> write_page ps f p = Ok (write_at f (p_id p * ps) (page_bytes p)).
Proof.
  intros Ho. unfold write_page, chunks_fuel. apply write_chunks_eq; [done| |lia]. unfold maxAllocSize. pose proof (len_nonneg (page_bytes p)).
  pose proof (Z.mod_pos_bound (len (page_bytes p)) (2147483647 - 1)). pose proof (Z.div_mod (len (page_bytes p)) (2147483647 - 1)).
  pose proof (Z.div_pos (len (page_bytes p)) (2147483647 - 1)). lia.
Qed.

(** ** Reading pages and metas back *)

Record page_fits (ps : Z) (p : page) : Prop := mkFits {
  pf_id : 0 <= p_id p < 18446744073709551616;
  pf_flags : 0 <= p_flags p < 65536;
  pf_count : 0 <= p_count p < 65536;
  pf_overflow : 0 <= p_overflow p < 4294967296;
  pf_data : len (p_data p) = (p_overflow p + 1) * ps - pageHeaderSize
}.

Lemma len_page_header p : len (page_header p) = pageHeaderSize.
Proof. unfold page_header, len. by rewrite !length_app, !length_le_put. Qed.

Lemma len_page_bytes ps p : page_fits ps p -> len (page_bytes p) = (p_overflow p + 1) * ps.
Proof. intros H. unfold page_bytes. rewrite len_app, len_page_header, (pf_data _ _ H). lia. Qed.

Lemma field_put n v d : field n (le_put n v ++ d) = (v mod 2 ^ (8 * Z.of_nat n), d).
Proof. unfold field. rewrite take_app_length', drop_app_length' by (by rewrite length_le_put). by rewrite le_get_put. Qed.

Lemma field_put_last n v : (field n (le_put n v)).1 = v mod 2 ^ (8 * Z.of_nat n).
Proof. rewrite <-(app_nil_r (le_put n v)). by rewrite field_put. Qed.

Lemma page_at_bytes f off ps p : page_fits ps p -> peek_data f off (len (page_bytes p)) = Ok (page_bytes p) -> page_at f off ps = Ok p.
Proof.
  intros [H1 H2 H3 H4 H5] Hb. apply peek_app in Hb as [Hh Hd]. rewrite len_page_header in *. unfold page_at. rewrite Hh. cbn [rbind].
  unfold page_header. rewrite !field_put. rewrite (surjective_pairing (field 4 _)), field_put_last. rewrite !Z.mod_small by (cbn; lia).
  rewrite <-H5. destruct (peek_range _ _ _ _ Hd) as (? & ? & ? & _). rewrite peek_ok in Hd by lia. injection Hd as ->. by destruct p.
Qed.

Lemma page_at_same f g off ps p : 16 <= ps -> page_at f off ps = Ok p -> 0 <= p_overflow p -> same_at f g off ((p_overflow p + 1) * ps) -> page_at g off ps = Ok p.
Proof.
  intros Hps Hp Ho Hs. unfold page_at in *. assert (pageHeaderSize = 16) as Eh by done. assert (16 <= (p_overflow p + 1) * ps) as Hge by nia.
  rewrite (same_at_peek f g off pageHeaderSize); [|eapply same_at_sub; [exact Hs|unfold pageHeaderSize; lia..]|unfold pageHeaderSize; lia].
  apply rbind_Ok in Hp as (h & -> & Hp). cbn [rbind]. destruct (field 8 h) as [id h1]. destruct (field 2 h1) as [fl h2]. destruct (field 2 h2) as [c h3].
  destruct (field 4 h3) as [ov h4]. injection Hp as <-. cbn [p_overflow] in *. do 2 f_equal. apply same_at_slice. eapply same_at_sub; [exact Hs|lia..].
Qed.

(** Fields in range. *)
Record meta_fits (m : meta) : Prop := mkMetaFits {
  mf_magic : 0 <= m_magic m < 4294967296;
  mf_version : 0 <= m_version m < 4294967296;
  mf_pageSize : 0 <= m_pageSize m < 4294967296;
  mf_flags : 0 <= m_flags m < 4294967296;
  mf_root : 0 <= m_root m < 18446744073709551616;
  mf_sequence : 0 <= m_sequence m < 18446744073709551616;
  mf_freelist : 0 <= m_freelist m < 18446744073709551616;
  mf_pgid : 0 <= m_pgid m < 18446744073709551616;
  mf_txid : 0 <= m_txid m < 18446744073709551616;
  mf_checksum : 0 <= m_checksum m < 18446744073709551616
}.

Lemma meta_of_bytes m : meta_fits m -> meta_of (meta_bytes m) = m.
Proof.
  intros []. unfold meta_of, meta_bytes, meta_head. rewrite <-!app_assoc, !field_put. rewrite (surjective_pairing (field 8 _)), field_put_last.
  rewrite !Z.mod_small by (cbn; lia). by destruct m.
Qed.

Lemma len_meta_bytes m : len (meta_bytes m) = metaSize.
Proof. unfold meta_bytes, meta_head, len. by rewrite !length_app, !length_le_put. Qed.

Lemma file_meta_same f g ps id : 80 <= ps -> same_at f g (id * ps) ps -> file_meta g ps id = file_meta f ps id.
Proof.
  intros Hps Hs. unfold file_meta, meta_at. assert (pageHeaderSize = 16) as Eh by done. assert (metaSize = 64) as Em by done.
  rewrite (same_at_peek f g); [done|eapply same_at_sub; [exact Hs|unfold pageHeaderSize; lia..]|unfold pageHeaderSize; lia].
Qed.

(** The page [meta_write] fills, as it is in the file. *)
Lemma file_meta_written f ps id d m : 0 <= id -> 80 <= ps -> meta_fits m -> 0 <= id * ps -> page_fits ps d -> peek_data (p_data d) 0 metaSize = Ok (meta_bytes m) ->
  file_meta (write_at f (id * ps) (page_bytes d)) ps id = Ok m.
Proof.
  intros Hid Hps Hm Ho Hd Hp. pose proof (write_at_same f (id * ps) (page_bytes d) Ho) as Hw. apply peek_app in Hw as [_ Hw]. rewrite len_page_header in Hw.
  destruct (peek_range _ _ _ _ Hp) as (_ & _ & Hl & _). rewrite peek_ok in Hp by (unfold metaSize in *; lia). injection Hp as Hp. rewrite drop_0 in Hp.
  assert (exists r, p_data d = meta_bytes m ++ r) as [r Hs] by (exists (drop (Z.to_nat metaSize) (p_data d)); rewrite <-Hp; by rewrite take_drop).
  rewrite Hs in Hw. apply peek_app in Hw as [Hw _]. rewrite len_meta_bytes in Hw. unfold file_meta, meta_at. rewrite Hw. cbn [rbind]. by rewrite meta_of_bytes.
Qed.

(** ** The writes of a commit *)

Section Commit.
Context (ps : Z) (Hps : 80 <= ps).

(** The file holds the page, in whole. *)
Definition holds (f : bytes) (p : page) : Prop :=
  file_page f ps (p_id p) = Ok p /\ 2 <= p_id p /\ 0 <= p_overflow p /\ (p_id p + p_overflow p + 1) * ps <= len f.

Definition apart (p q : page) : Prop := p_id p + p_overflow p < p_id q \/ p_id q + p_overflow q < p_id p.

(** [m] is the meta in force: it is on the page of its transaction, and the other
    page is invalid or older. *)
Record live (f : bytes) (m : meta) : Prop := mkLive {
  lv_size : 2 * ps <= len f;
  lv_txid : 0 <= m_txid m;
  lv_meta : file_meta f ps (m_txid m mod 2) = Ok m;
  lv_valid : validate m = None;
  lv_other : exists o, file_meta f ps ((m_txid m + 1) mod 2) = Ok o /\ (validate o <> None \/ m_txid o < m_txid m)
}.

Lemma live_current f m : live f m -> current f ps = Ok m.
Proof.
  intros [_ Ht Hm Hv (o & Ho & Hd)]. unfold current, db_meta. destruct (Z.mod_pos_bound (m_txid m) 2) as [? ?]; [lia|].
  assert (m_txid m mod 2 = 0 /\ (m_txid m + 1) mod 2 = 1 \/ m_txid m mod 2 = 1 /\ (m_txid m + 1) mod 2 = 0) as [[E1 E2]|[E1 E2]].
  { rewrite <-Z.add_mod_idemp_l by lia. assert (m_txid m mod 2 = 0 \/ m_txid m mod 2 = 1) as [-> | ->] by lia; [by left|by right]. }
  - rewrite E1 in Hm. rewrite E2 in Ho. rewrite Hm, Ho. cbn [rbind]. destruct (Z.ltb_spec (m_txid m) (m_txid o)); [|by rewrite Hv].
    destruct (validate o); [by rewrite Hv|]. by destruct Hd; [|lia].
  - rewrite E1 in Hm. rewrite E2 in Ho. rewrite Ho. cbn [rbind]. rewrite Hm. cbn [rbind]. destruct (Z.ltb_spec (m_txid o) (m_txid m)); [by rewrite Hv|].
    destruct (validate o); [by rewrite Hv|]. by destruct Hd; [|lia].
Qed.

Lemma holds_same f g p : holds f p -> same_at f g (p_id p * ps) ((p_overflow p + 1) * ps) -> holds g p.
Proof.
  intros (Hp & H2 & Ho & Hl) Hs. repeat split; [|done..|].
  - eapply page_at_same; [|exact Hp|done|done]. lia.
  - pose proof (same_at_len _ _ _ _ Hs). nia.
Qed.

Lemma holds_write f off bs p : holds f p -> 0 <= off -> (p_id p + p_overflow p + 1) * ps <= off \/ off + len bs <= p_id p * ps -> holds (write_at f off bs) p.
Proof. intros Hp Ho Hd. eapply holds_same; [done|]. destruct Hp as (_ & H2 & Hov & Hl). apply write_at_other; nia. Qed.

Lemma live_write f off bs m : live f m -> 2 * ps <= off -> live (write_at f off bs) m.
Proof.
  intros [Hs Ht Hm Hv (o & Ho & Hd)] H2. assert (Hsame : forall id, 0 <= id < 2 -> file_meta (write_at f off bs) ps id = file_meta f ps id).
  { intros id Hid. apply file_meta_same; [done|]. apply write_at_other; nia. }
  pose proof (Z.mod_pos_bound (m_txid m) 2). pose proof (Z.mod_pos_bound (m_txid m + 1) 2). split; [|done| |done|].
  - rewrite length_write_at by lia. lia.
  - rewrite Hsame by lia. done.
  - exists o. rewrite Hsame by lia. done.
Qed.

(** What a process that dies while the pages are written leaves behind: some of
    them in whole, and a part of the next. *)
Inductive torn : bytes -> list page -> bytes -> Prop :=
| torn_none f l : torn f l f
| torn_part f q l j : torn f (q :: l) (write_at f (p_id q * ps) (take j (page_bytes q)))
| torn_next f q l f' : torn (write_at f (p_id q * ps) (page_bytes q)) l f' -> torn f (q :: l) f'.

Definition fresh (old : list page) (q : page) : Prop := page_fits ps q /\ 2 <= p_id q /\ forall p, p ∈ old -> apart p q.

Lemma fresh_write f old q j : Forall (holds f) old -> fresh old q -> Forall (holds (write_at f (p_id q * ps) (take j (page_bytes q)))) old.
Proof.
  intros Hold (Hq & H2 & Ha). rewrite Forall_forall in *. intros p Hp. apply holds_write; [by apply Hold|nia|].
  assert (len (take j (page_bytes q)) <= (p_overflow q + 1) * ps). { rewrite <-(len_page_bytes _ _ Hq). unfold len. rewrite length_take. lia. }
  destruct (Ha p Hp); nia.
Qed.

Lemma torn_holds f old new f' : torn f new f' -> Forall (holds f) old -> Forall (fresh old) new -> Forall (holds f') old.
Proof.
  induction 1 as [f l|f q l j|f q l f' _ IH]; intros Hold Hnew; [done|..]; apply Forall_cons_1 in Hnew as [Hq Hnew]; [by apply fresh_write|].
  apply IH; [|done]. pose proof (fresh_write f old q (length (page_bytes q)) Hold Hq) as H. by rewrite take_ge in H by lia.
Qed.

Lemma torn_live f m new f' : torn f new f' -> live f m -> Forall (fun q => 2 <= p_id q) new -> live f' m.
Proof.
  induction 1 as [f l|f q l j|f q l f' _ IH]; intros Hl Hnew; [done|..]; apply Forall_cons_1 in Hnew as [Hq Hnew]; [|apply IH; [|done]]; (apply live_write; [done|nia]).
Qed.

Lemma write_pages_torn f new : Forall (fun q => 2 <= p_id q) new -> exists f', write_pages ps f new = Ok f' /\ torn f new f'.
Proof.
  intros H. revert f. induction H as [|q l Hq _ IH]; intros f; [exists f; split; [done|constructor]|]. cbn [write_pages].
  rewrite write_page_eq by nia. cbn [rbind]. destruct (IH (write_at f (p_id q * ps) (page_bytes q))) as (f' & -> & Ht). exists f'. split; [done|]. by constructor.
Qed.

(** The written pages are there. *)
Lemma holds_new f q : page_fits ps q -> 2 <= p_id q -> holds (write_at f (p_id q * ps) (page_bytes q)) q.
Proof.
  intros Hq H2. pose proof (len_page_bytes _ _ Hq). pose proof (pf_overflow _ _ Hq). repeat split; [|lia..|].
  - apply page_at_bytes; [done|]. apply write_at_same. nia.
  - rewrite length_write_at by nia. nia.
Qed.

Lemma write_pages_holds f new f' : write_pages ps f new = Ok f' -> Forall (fresh []) new -> ForallOrdPairs apart new -> Forall (holds f') new.
Proof.
  revert f. induction new as [|q l IH]; intros f Hw Hf Ho; [constructor|]. cbn [write_pages] in Hw. apply Forall_cons_1 in Hf as [(Hq & H2 & _) Hf].
  inversion_clear Ho as [|? ? Hql Hol]. rewrite write_page_eq in Hw by nia. cbn [rbind] in Hw. constructor; [|by eapply IH].
  destruct (write_pages_torn (write_at f (p_id q * ps) (page_bytes q)) l) as (f2 & E & Ht); [eapply Forall_impl; [exact Hf|]; by intros ? (_ & ? & _)|].
  rewrite Hw in E. injection E as <-. enough (Hh : Forall (holds f') [q]) by (by apply Forall_cons_1 in Hh as [? _]).
  apply (torn_holds _ [q] _ _ Ht); [constructor; [by apply holds_new|constructor]|]. rewrite Forall_forall in *. intros p Hp. destruct (Hf p Hp) as (? & ? & _).
  split; [done|]. split; [done|]. intros p' ->%list_elem_of_singleton. by apply Hql.
Qed.

(** *** The meta page *)

Lemma blank_bytes : page_bytes (blank ps 0 0) = replicate (Z.to_nat ps) 0.
Proof.
  unfold page_bytes. replace (page_header (blank ps 0 0)) with (replicate 16 0) by (by vm_compute). cbn [blank p_data].
  replace (Z.to_nat ps) with (16 + Z.to_nat (ps - pageHeaderSize))%nat by (unfold pageHeaderSize; lia). by rewrite replicate_add.
Qed.

Lemma blank_fits : ps < 4294967296 -> page_fits ps (blank ps 0 0).
Proof. intros H. split; cbn; try lia. unfold len. rewrite length_replicate. unfold pageHeaderSize. lia. Qed.

(** What is written for a meta: the version in force and a checksum. *)
Definition sealed (v : Z) (m : meta) : meta :=
  let m := if (v =? versionFreelistBitmap) && negb (m_version m =? versionFreelistBitmap) then with_version m versionFreelistBitmap else m in
  with_checksum m (sum64 m).

Lemma sealed_txid v m : m_txid (sealed v m) = m_txid m.
Proof. unfold sealed. by destruct (_ && _). Qed.

Lemma sum64_range m : 0 <= sum64 m < 18446744073709551616.
Proof.
  unfold sum64, fnv64a. destruct (meta_head m) as [|x l] using rev_ind; [by vm_compute|]. rewrite foldl_app. cbn [foldl]. apply u64_range.
Qed.

(** A meta a transaction may write. *)
Record meta_ok (m : meta) : Prop := mkMetaOk {
  mo_fits : meta_fits m;
  mo_magic : m_magic m = magic;
  mo_version : m_version m = versionFreelistUint \/ m_version m = versionFreelistBitmap;
  mo_root : m_root m < m_pgid m;
  mo_freelist : m_freelist m < m_pgid m \/ m_freelist m = pgidNoFreelist
}.

Lemma sum64_checksum m c : sum64 (with_checksum m c) = sum64 m.
Proof. unfold sum64, meta_head. by cbn [with_checksum m_magic m_version m_pageSize m_flags m_root m_sequence m_freelist m_pgid m_txid]. Qed.

Lemma sealed_ok v m : meta_ok m -> meta_ok (sealed v m) /\ validate (sealed v m) = None.
Proof.
  intros [[] Hm Hv Hr Hf]. unfold sealed. set (b := (v =? versionFreelistBitmap) && _). set (m1 := if b then _ else _). pose proof (sum64_range m1) as Hs.
  assert (H1 : meta_ok m1). { unfold m1. destruct b; [|by split]. split; [|done|by right|done|done]. split; cbn; try done. }
  destruct H1 as [[] Hm1 Hv1 Hr1 Hf1]. split; [by split; [split|..]|]. unfold validate. rewrite sum64_checksum. clear Hs. generalize (sum64 m1). intros c.
  cbn [with_checksum m_magic m_version m_checksum]. rewrite Hm1, Z.eqb_refl. cbn [negb].
  destruct Hv1 as [-> | ->]; unfold versionFreelistUint, versionFreelistBitmap; rewrite !Z.eqb_refl; cbn; by destruct (c =? 0).
Qed.

Lemma write_meta_eq v f m : ps < 4294967296 -> meta_ok m ->
  exists p, write_meta ps v f m = Ok (write_at f (m_txid m mod 2 * ps) (page_bytes p), sealed v m) /\
    page_fits ps p /\ peek_data (p_data p) 0 metaSize = Ok (meta_bytes (sealed v m)) /\ len (page_bytes p) = ps.
Proof.
  intros Hs Hm. destruct (sealed_ok v m Hm) as [[_ _ _ Hr Hf] _]. pose proof (blank_fits Hs) as Hb. unfold write_meta.
  rewrite (page_at_bytes _ 0 ps (blank ps 0 0) Hb). 2: { rewrite blank_bytes. rewrite peek_ok by (unfold len; lia). f_equal. rewrite drop_0. apply take_ge. unfold len. lia. }
  cbn [rbind]. unfold sealed in *. set (m1 := if _ && _ then _ else m) in *. assert (Et : m_txid m1 = m_txid m) by (unfold m1; by destruct (_ && _)).
  unfold meta_write. generalize dependent (sum64 m1). intros c Hr Hf. cbn [with_checksum m_pgid m_root m_freelist m_txid] in Hr, Hf. destruct (Z.leb_spec (m_pgid m1) (m_root m1)); [lia|].
  assert ((m_pgid m1 <=? m_freelist m1) && negb (m_freelist m1 =? pgidNoFreelist) = false) as ->.
  { destruct Hf as [Hf|Hf]; [destruct (Z.leb_spec (m_pgid m1) (m_freelist m1)); [lia|done]|rewrite Hf, Z.eqb_refl; by rewrite andb_false_r]. }
  assert (Hd : len (p_data (blank ps 0 0)) = ps - 16) by (cbn; unfold len; rewrite length_replicate; unfold pageHeaderSize; lia).
  destruct (poke_ok (p_data (blank ps 0 0)) 0 (meta_bytes (with_checksum m1 c))) as (d' & E & Hl & Hpk & _); [lia|rewrite len_meta_bytes, Hd; unfold metaSize; lia|].
  rewrite E. cbn [rbind]. eexists. split; [cbn; by rewrite Et|]. rewrite len_meta_bytes in Hpk.
  assert (Hfit : page_fits ps (mkPage (m_txid m1 mod 2) (Z.lor 0 metaPageFlag) 0 0 d')).
  { pose proof (Z.mod_pos_bound (m_txid m1) 2). split; cbn [p_id p_flags p_count p_overflow p_data]; try lia; [by vm_compute|]. rewrite Hl, Hd. unfold pageHeaderSize. lia. }
  rewrite <-Et. split; [exact Hfit|]. split; [done|]. rewrite (len_page_bytes _ _ Hfit). cbn [p_overflow]. lia.
Qed.

(** The other meta page is replaced, by whatever. *)
Lemma meta_page_other f m d : live f m -> len d = ps -> let f' := write_at f ((m_txid m + 1) mod 2 * ps) d in
  file_meta f' ps (m_txid m mod 2) = Ok m /\ (forall p, holds f p -> holds f' p) /\ len f' = len f.
Proof.
  intros [Hs Ht Hm _ _] Hd f'. pose proof (Z.mod_pos_bound (m_txid m) 2). pose proof (Z.mod_pos_bound (m_txid m + 1) 2).
  assert (Hne : m_txid m mod 2 <> (m_txid m + 1) mod 2).
  { rewrite <-(Z.add_mod_idemp_l (m_txid m)) by lia. assert (m_txid m mod 2 = 0 \/ m_txid m mod 2 = 1) as [-> | ->] by lia; by vm_compute. }
  split; [|split].
  - unfold f'. rewrite (file_meta_same f); [done|done|]. apply write_at_other; nia.
  - intros p Hp. pose proof Hp as (_ & H2 & _). apply holds_write; [done|nia|]. right. nia.
  - unfold f'. rewrite length_write_at by nia. nia.
Qed.

Lemma live_torn_meta f m d o : live f m -> len d = ps -> file_meta (write_at f ((m_txid m + 1) mod 2 * ps) d) ps ((m_txid m + 1) mod 2) = Ok o -> validate o <> None ->
  live (write_at f ((m_txid m + 1) mod 2 * ps) d) m.
Proof.
  intros Hl Hd Ho Hv. destruct (meta_page_other f m d Hl Hd) as (Hm & _ & Hlen). destruct Hl as [Hs Ht _ Hval _]. split; [lia|done..|]. exists o. split; [done|by left].
Qed.

Lemma live_next f m m' v : ps < 4294967296 -> live f m -> meta_ok m' -> m_txid m' = m_txid m + 1 ->
  exists f', write_meta ps v f m' = Ok (f', sealed v m') /\ live f' (sealed v m') /\ (forall p, holds f p -> holds f' p).
Proof.
  intros Hs Hl Hm' Et. destruct (write_meta_eq v f m' Hs Hm') as (p & E & Hfit & Hpk & Hlen). rewrite Et in E. eexists. split; [exact E|].
  destruct (meta_page_other f m (page_bytes p) Hl Hlen) as (Hold & Hh & Hfl). split; [|exact Hh]. destruct Hl as [Hsz Ht Hm Hv _]. destruct (sealed_ok v m' Hm') as [[Hmf _ _ _ _] Hval].
  pose proof (Z.mod_pos_bound (m_txid m + 1) 2). split; rewrite ?sealed_txid, ?Et; [lia|lia| |done|].
  - apply file_meta_written; [lia|done|done|nia|done|done].
  - exists m. replace ((m_txid m + 1 + 1) mod 2) with (m_txid m mod 2); [split; [done|right; lia]|].
    rewrite <-Z.add_assoc. rewrite <-(Z.mul_1_l (1 + 1)). by rewrite Z_mod_plus_full.
Qed.

End Commit.

(** The pages of a transaction, each under its number. *)
Definition tx_pages_ok (ps : Z) (pages : gmap Z page) (old : list page) : Prop :=
  (forall id q, pages !! id = Some q -> p_id q = id /\ fresh ps old q) /\
  (forall i j p q, pages !! i = Some p -> pages !! j = Some q -> i <> j -> apart p q).

Lemma sorted_pages_spec (pages : gmap Z page) : forall q, q ∈ sort_pages (map_to_list pages).*2 <-> exists id, pages !! id = Some q.
Proof.
  intros q. unfold sort_pages. rewrite (merge_sort_Permutation page_le (map_to_list pages).*2). rewrite list_elem_of_fmap. split.
  - intros ([i p] & -> & Hp%elem_of_map_to_list). eauto.
  - intros (i & Hq%elem_of_map_to_list). by exists (i, q).
Qed.

Lemma ForallOrdPairs_perm {A} (R : A -> A -> Prop) l k : (forall x y, R x y -> R y x) -> l ≡ₚ k -> ForallOrdPairs R l -> ForallOrdPairs R k.
Proof.
  intros Hsym. induction 1 as [|x l k Hp IH|x y l|l k m _ IH1 _ IH2]; intros H; [constructor|..].
  - inversion_clear H as [|? ? Hx Hl]. constructor; [|by apply IH]. by rewrite <-Hp.
  - inversion_clear H as [|? ? Hx Hl]. inversion_clear Hl as [|? ? Hy Hl']. apply Forall_cons_1 in Hx as [Hxy Hx]. repeat constructor; try done. by apply Hsym.
  - by apply IH2, IH1.
Qed.

Lemma sorted_pages_apart ps (pages : gmap Z page) old : tx_pages_ok ps pages old -> ForallOrdPairs apart (sort_pages (map_to_list pages).*2).
Proof.
  intros [_ H]. eapply ForallOrdPairs_perm; [intros p q; unfold apart; lia|symmetry; apply merge_sort_Permutation|].
  pose proof (NoDup_fst_map_to_list pages) as Hn. assert (Hin : forall i q, (i, q) ∈ map_to_list pages -> pages !! i = Some q) by (intros i q; apply elem_of_map_to_list).
  induction (map_to_list pages) as [|[i p] l IH]; cbn; [constructor|]. cbn in Hn. apply NoDup_cons in Hn as [Hni Hn]. constructor; [|apply IH; [done|]; intros; apply Hin; by right].
  apply Forall_forall. intros q Hq. apply list_elem_of_fmap_1 in Hq as ([j q'] & -> & Hq). apply (H i j); [apply Hin; by left|apply Hin; by right|].
  intros ->. apply Hni, list_elem_of_fmap. by exists (j, q').
Qed.

(** *** An empty database *)

Lemma init_meta_ok ps i : 0 <= i < 18446744073709551616 -> meta_ok (init_meta ps i) /\ validate (init_meta ps i) = None.
Proof.
  intros Hi. change (init_meta ps i) with (sealed version (mkMeta magic version (u32 ps) 0 3 0 2 4 i 0)). apply sealed_ok.
  pose proof (u32_range ps). split; [|done|by right|done|by left]. split; cbn; try done.
Qed.

Lemma init_meta_txid ps i : m_txid (init_meta ps i) = i.
Proof. reflexivity. Qed.

Lemma blank_fits_any ps id flags : 80 <= ps -> 0 <= id < 18446744073709551616 -> 0 <= flags < 65536 -> page_fits ps (blank ps id flags).
Proof. intros Hps Hid Hfl. split; cbn; try lia. unfold len. rewrite length_replicate. unfold pageHeaderSize. lia. Qed.

Lemma init_meta_page_ok ps i : 80 <= ps -> 0 <= i < 2 ->
  exists p, init_meta_page ps i = Ok p /\ page_fits ps p /\ peek_data (p_data p) 0 metaSize = Ok (meta_bytes (init_meta ps i)).
Proof.
  intros Hps Hi. pose proof (blank_fits_any ps i metaPageFlag Hps ltac:(lia) ltac:(by vm_compute)) as [_ _ _ _ Hb]. cbn [p_overflow blank] in Hb. unfold init_meta_page.
  destruct (poke_ok (p_data (blank ps i metaPageFlag)) 0 (meta_bytes (init_meta ps i))) as (d & -> & Hl & Hpk & _).
  { lia. } { rewrite len_meta_bytes. unfold metaSize, pageHeaderSize in *. cbn [p_data blank] in *. lia. }
  cbn [rbind]. eexists. split; [done|]. rewrite len_meta_bytes in Hpk. split; [|done]. split; cbn [p_id p_flags p_count p_overflow p_data]; (unfold metaPageFlag; lia).
Qed.

Lemma init_live ps : 80 <= ps -> exists f, init ps = Ok f /\ live ps f (init_meta ps 1) /\ holds ps f (blank ps 2 freelistPageFlag) /\ holds ps f (blank ps 3 leafPageFlag).
Proof.
  intros Hps. destruct (init_meta_page_ok ps 0 Hps) as (p0 & E0 & F0 & K0); [lia|]. destruct (init_meta_page_ok ps 1 Hps) as (p1 & E1 & F1 & K1); [lia|].
  assert (p_overflow p0 = 0 /\ p_overflow p1 = 0) as [O0 O1].
  { unfold init_meta_page in *. apply rbind_Ok in E0 as (d0 & _ & [= <-]). by apply rbind_Ok in E1 as (d1 & _ & [= <-]). }
  pose proof (len_page_bytes _ _ F0) as L0. pose proof (len_page_bytes _ _ F1) as L1. rewrite O0 in L0. rewrite O1 in L1.
  pose proof (blank_fits_any ps 2 freelistPageFlag Hps ltac:(lia) ltac:(by vm_compute)) as F2. pose proof (blank_fits_any ps 3 leafPageFlag Hps ltac:(lia) ltac:(by vm_compute)) as F3.
  pose proof (len_page_bytes _ _ F2) as L2. cbn [p_overflow blank] in L2.
  unfold init. rewrite E0, E1. cbn [rbind]. eexists. split; [done|]. rewrite <-!write_at_app by (rewrite ?L0, ?L1, ?L2; lia). rewrite L0, L1, L2.
  set (f0 := write_at [] 0 (page_bytes p0)). set (f1 := write_at f0 (0 + (0 + 1) * ps) (page_bytes p1)). set (f2 := write_at f1 _ _).
  assert (Hl : live ps f1 (init_meta ps 1)).
  { destruct (init_meta_ok ps 1 ltac:(lia)) as [M1 V1]. destruct (init_meta_ok ps 0 ltac:(lia)) as [M0 V0]. assert (len f0 = ps) as Lf by (unfold f0; rewrite length_write_at, L0 by lia; change (len (@nil Z)) with 0; lia).
    split; rewrite ?init_meta_txid; [unfold f1; rewrite length_write_at, Lf, L1 by lia; lia|lia| |exact V1|exists (init_meta ps 0); rewrite init_meta_txid].
    all: change (1 mod 2) with 1; change ((1 + 1) mod 2) with 0.
    - unfold f1. replace (0 + (0 + 1) * ps) with (1 * ps) by lia. apply file_meta_written; [lia|done|apply M1|lia|exact F1|exact K1].
    - split; [|right; lia]. unfold f1. rewrite (file_meta_same f0); [|done|apply write_at_other; cbn; lia]. unfold f0. apply (file_meta_written [] ps 0); [lia|done|apply M0|lia|exact F0|exact K0]. }
  assert (H2 : holds ps f2 (blank ps 2 freelistPageFlag)). { unfold f2. replace (0 + (0 + 1) * ps + (0 + 1) * ps) with (p_id (blank ps 2 freelistPageFlag) * ps) by (cbn; lia). by apply holds_new. }
  split; [do 2 (apply live_write; [done| |lia]); exact Hl|]. split; [apply holds_write; [done|done|lia|cbn; lia]|].
  replace (0 + (0 + 1) * ps + (0 + 1) * ps + (0 + 1) * ps) with (p_id (blank ps 3 leafPageFlag) * ps) by (cbn; lia). by apply holds_new.
Qed.

(** What the pages of a transaction leave of the old ones, and the meta after them. *)
Lemma commit_writes ps f m (pages : gmap Z page) old :
  80 <= ps < 4294967296 -> live ps f m -> Forall (holds ps f) old -> tx_pages_ok ps pages old ->
  (forall f', torn ps f (sort_pages (map_to_list pages).*2) f' -> live ps f' m /\ Forall (holds ps f') old) /\
  exists fn, tx_write ps f pages = Ok fn /\ live ps fn m /\ Forall (holds ps fn) old /\
    (forall v m', meta_ok m' -> m_txid m' = m_txid m + 1 ->
       exists f', write_meta ps v fn m' = Ok (f', sealed v m') /\ live ps f' (sealed v m') /\
         Forall (holds ps f') old /\ forall id q, pages !! id = Some q -> holds ps f' q).
Proof.
  intros [Hps Hsm] Hl Hold Hok. set (new := sort_pages _) in *.
  assert (Hnew : forall o', (forall p, p ∈ o' -> p ∈ old) -> Forall (fresh ps o') new).
  { intros o' Ho'. apply Forall_forall. intros q [id Hq]%sorted_pages_spec. destruct (proj1 Hok id q Hq) as (_ & ? & ? & Ha). split; [done|]. split; [done|]. intros p Hp. by apply Ha, Ho'. }
  pose proof (Hnew old (fun p H => H)) as Hf. assert (H2 : Forall (fun q => 2 <= p_id q) new) by (eapply Forall_impl; [exact Hf|]; by intros ? (_ & ? & _)).
  split.
  - intros f' Ht. split; [by eapply torn_live|by eapply torn_holds].
  - destruct (write_pages_torn ps Hps f new H2) as (fn & Ew & Ht). exists fn. split; [exact Ew|].
    pose proof (torn_live ps Hps _ _ _ _ Ht Hl H2) as Hln. pose proof (torn_holds ps Hps _ _ _ _ Ht Hold Hf) as Holdn. split; [done|]. split; [done|].
    intros v m' Hm' Et. destruct (live_next ps Hps fn m m' v Hsm Hln Hm' Et) as (f' & E & Hl' & Hh). exists f'. split; [done|]. split; [done|].
    split; [by eapply Forall_impl|]. intros id q Hq. apply Hh.
    assert (Hall : Forall (holds ps fn) new) by (eapply write_pages_holds; [done|exact Ew|apply Hnew; by intros p ?%elem_of_nil|by eapply sorted_pages_apart]).
    rewrite Forall_forall in Hall. apply Hall. apply sorted_pages_spec. eauto.
Qed.

(** C20: a commit is atomic for a process that dies in it.  While the pages of the
    transaction are written, in whole or in part, and also when the meta page is
    left with anything that does not validate, the database still opens with the
    meta of the last commit and every page of its tree is as it was; when the
    meta is written, it opens with the new one, and the new pages are there
    beside the old. *)
Theorem commit_atomic ps f m (pages : gmap Z page) old :
  80 <= ps < 4294967296 -> live ps f m -> Forall (holds ps f) old -> tx_pages_ok ps pages old ->
  (forall f', torn ps f (sort_pages (map_to_list pages).*2) f' -> current f' ps = Ok m /\ Forall (holds ps f') old) /\
  exists fn, tx_write ps f pages = Ok fn /\
    (forall d o, len d = ps -> let f' := write_at fn ((m_txid m + 1) mod 2 * ps) d in
       file_meta f' ps ((m_txid m + 1) mod 2) = Ok o -> validate o <> None -> current f' ps = Ok m /\ Forall (holds ps f') old) /\
    (forall v m', meta_ok m' -> m_txid m' = m_txid m + 1 ->
       exists f', write_meta ps v fn m' = Ok (f', sealed v m') /\ current f' ps = Ok (sealed v m') /\ live ps f' (sealed v m') /\
         Forall (holds ps f') old /\ forall id q, pages !! id = Some q -> holds ps f' q).
Proof.
  intros Hps Hl Hold Hok. destruct (commit_writes ps f m pages old Hps Hl Hold Hok) as [Ht (fn & Ew & Hln & Holdn & Hm)]. split.
  - intros f' H. destruct (Ht f' H) as [Hl' Hold']. split; [by apply live_current|done].
  - exists fn. split; [done|]. split.
    + intros d o Hd f' Ho Hv. split; [by eapply live_current, live_torn_meta; [lia|..]|]. eapply Forall_impl; [exact Holdn|]. by apply meta_page_other; [lia|..].
    + intros v m' Hm' Et. destruct (Hm v m' Hm' Et) as (f' & E & Hl' & Ho' & Hn'). exists f'. split; [done|]. split; [by apply live_current|]. done.
Qed.

Definition demo_leaf_page : page := mkPage 4 leafPageFlag 0 0 (replicate 112 0).

Definition demo_next : meta := mkMeta magic version 128 0 4 0 2 5 2 0.

Lemma commit_atomic_witness :
  exists f fn f', init 128 = Ok f /\ tx_write 128 f {[4 := demo_leaf_page]} = Ok fn /\ write_meta 128 3 fn demo_next = Ok (f', sealed 3 demo_next) /\
    current f' 128 = Ok (sealed 3 demo_next) /\ file_page f' 128 4 = Ok demo_leaf_page.
Proof.
  destruct (init_live 128 ltac:(lia)) as (f & Ef & Hl & Hh2 & Hh3).
  destruct (commit_atomic 128 f (init_meta 128 1) {[4 := demo_leaf_page]} [blank 128 2 freelistPageFlag; blank 128 3 leafPageFlag] ltac:(lia) Hl) as (_ & fn & Ew & _ & Hn).
  - constructor; [exact Hh2|constructor; [exact Hh3|constructor]].
  - split.
    + intros id q [<- <-]%lookup_singleton_Some. split; [done|]. split; [by split|]. split; [by vm_compute|]. intros p Hp. apply list_elem_of_In in Hp as [<-|[<-|[]]]; left; by vm_compute.
    + intros i j p q [<- _]%lookup_singleton_Some [<- _]%lookup_singleton_Some. done.
  - destruct (Hn 3 demo_next) as (f' & E & Hc & _ & _ & Hp); [|done|].
    + split; [by split|done|by right|done|by left].
    + exists f, fn, f'. split; [exact Ef|]. split; [exact Ew|]. split; [exact E|]. split; [exact Hc|]. assert (H4 : ({[4 := demo_leaf_page]} : gmap Z page) !! 4 = Some demo_leaf_page) by reflexivity. pose proof (proj1 (Hp 4 demo_leaf_page H4)) as H. exact H.
Defined.

(** ** The size of a mapping *)

Lemma mmap_pow_spec n i size : 0 <= i ->
  match mmap_pow n i size with
  | Some z => size <= z /\ exists k, i <= k < i + Z.of_nat n /\ z = 2 ^ k
  | None => forall k, i <= k < i + Z.of_nat n -> 2 ^ k < size
  end.
Proof.
  revert i. induction n as [|n IH]; intros i Hi; cbn [mmap_pow]; [intros k Hk; lia|]. rewrite Z.shiftl_mul_pow2, Z.mul_1_l by done.
  destruct (Z.leb_spec size (2 ^ i)); [split; [done|]; exists i; lia|]. specialize (IH (i + 1) ltac:(lia)). destruct (mmap_pow n (i + 1) size) as [z|].
  - destruct IH as (? & k & ? & ?). split; [done|]. exists k. lia.
  - intros k Hk. destruct (decide (k = i)) as [->|]; [done|]. apply IH. lia.
Qed.

Lemma mmapSize_large ps size : maxMapSize < size -> mmapSize ps size = Err ErrMmapTooLarge.
Proof.
  intros H. unfold mmapSize. pose proof (mmap_pow_spec 16 15 size ltac:(lia)) as Hp. unfold maxMapSize in *. destruct (mmap_pow 16 15 size) as [z|].
  - destruct Hp as (Hz & k & Hk & ->). assert (2 ^ k <= 2 ^ 30) by (apply Z.pow_le_mono_r; lia). change (2 ^ 30) with 1073741824 in *. lia.
  - by destruct (Z.ltb_spec 281474976710655 size); [|lia].
Qed.

Lemma mmapSize_ok ps size : 0 < ps -> 0 <= size <= maxMapSize ->
  exists z, mmapSize ps size = Ok z /\ size <= z <= maxMapSize /\
    ((size <= maxMmapStep /\ exists k, 15 <= k <= 30 /\ z = 2 ^ k) \/
     (maxMmapStep < size /\ ((ps | maxMmapStep) -> z = maxMapSize \/ (maxMmapStep | z) /\ z < size + maxMmapStep))).
Proof.
  intros Hps [H0 Hle]. unfold mmapSize. pose proof (mmap_pow_spec 16 15 size ltac:(lia)) as Hp. unfold maxMapSize, maxMmapStep in *. destruct (mmap_pow 16 15 size) as [z|].
  - destruct Hp as (Hz & k & Hk & ->). assert (2 ^ k <= 2 ^ 30) by (apply Z.pow_le_mono_r; lia). change (2 ^ 30) with 1073741824 in *.
    exists (2 ^ k). split; [done|]. split; [lia|]. left. split; [lia|]. exists k. split; [lia|done].
  - specialize (Hp 30 ltac:(lia)). change (2 ^ 30) with 1073741824 in Hp. destruct (Z.ltb_spec 281474976710655 size); [lia|].
    eexists. split; [done|]. set (a := if 0 <? _ then _ else _).
    assert (Ha : size <= a < size + 1073741824 /\ (1073741824 | a)).
    { unfold a. pose proof (Z.mod_pos_bound size 1073741824 ltac:(lia)). pose proof (Z.div_mod size 1073741824 ltac:(lia)) as Hdm.
      destruct (Z.ltb_spec 0 (size mod 1073741824)); (split; [lia|]); [exists (size / 1073741824 + 1); lia|exists (size / 1073741824); lia]. }
    clearbody a. set (c := if negb _ then _ else _). assert (Hc : a <= c /\ ((ps | 1073741824) -> c = a)).
    { unfold c. destruct (Z.eqb_spec (a mod ps) 0) as [E|E]; cbn [negb]; [split; [lia|done]|]. pose proof (Z.mod_pos_bound a ps Hps). pose proof (Z.div_mod a ps ltac:(lia)).
      split; [nia|]. intros Hd. exfalso. apply E. apply Z.mod_divide; [lia|]. by eapply Z.divide_trans; [|apply Ha]. }
    clearbody c. split; [destruct (Z.ltb_spec 281474976710655 c); lia|]. right. split; [lia|]. intros Hd. destruct Hc as [_ Hc]. rewrite (Hc Hd). destruct (Z.ltb_spec 281474976710655 a); [by left|right].
    split; [apply Ha|lia].
Qed.

Lemma mmap_covers sys f ps minsz z : 0 < ps -> 0 <= minsz -> mmap sys f ps minsz = Ok z -> len f <= z <= maxMapSize /\ minsz <= z.
Proof.
  intros Hps H0 E. unfold mmap in E. destruct (len f <? ps * 2); [done|]. apply rbind_Ok in E as (s & Es & E). pose proof (len_nonneg f) as Hl.
  set (size := if len f <? minsz then minsz else len f) in *. assert (Hs : len f <= size /\ minsz <= size /\ 0 <= size) by (unfold size; destruct (Z.ltb_spec (len f) minsz); lia).
  destruct (Z.lt_ge_cases maxMapSize size) as [Hlt|Hle]; [by rewrite mmapSize_large in Es|]. destruct (mmapSize_ok ps size Hps ltac:(lia)) as (z' & Ez & Hz & _).
  rewrite Ez in Es. injection Es as ->. destruct (negb (sys s)); [done|]. apply rbind_Ok in E as (m0 & _ & E). apply rbind_Ok in E as (m1 & _ & E).
  destruct (validate m0), (validate m1); try done; injection E as <-; lia.
Qed.

(** The size of a mapping: one that is too large is refused, any other is
    covered, and within the largest mapping; up to a gigabyte it is a power of
    two from 32 kilobytes on, beyond that the next gigabyte when pages divide
    one.  So a mapping that is made for a size covers it. *)
Theorem mmapSize_covers sys f ps minsz z :
  0 < ps -> 0 <= minsz ->
  (maxMapSize < minsz -> mmapSize ps minsz = Err ErrMmapTooLarge) /\
  (minsz <= maxMapSize -> exists z, mmapSize ps minsz = Ok z /\ minsz <= z <= maxMapSize /\
     ((minsz <= maxMmapStep /\ exists k, 15 <= k <= 30 /\ z = 2 ^ k) \/
      (maxMmapStep < minsz /\ ((ps | maxMmapStep) -> z = maxMapSize \/ (maxMmapStep | z) /\ z < minsz + maxMmapStep)))) /\
  (mmap sys f ps minsz = Ok z -> len f <= z <= maxMapSize /\ minsz <= z).
Proof.
  intros Hps H0. split; [apply mmapSize_large|]. split; [intros H; by apply mmapSize_ok|]. apply mmap_covers; lia.
Qed.

Lemma mmapSize_covers_witness :
  mmapSize 4096 (2 * maxMapSize) = Err ErrMmapTooLarge /\ (exists z, mmapSize 4096 3000000000 = Ok z /\ 3000000000 <= z <= maxMapSize) /\
  exists f, init 128 = Ok f /\ mmap (fun _ => true) f 128 100000 = Ok (2 ^ 17) /\ 100000 <= 2 ^ 17.
Proof.
  split; [|split].
  - destruct (mmapSize_covers (fun _ => true) [] 4096 (2 * maxMapSize) 0 ltac:(lia) ltac:(by vm_compute)) as [H _]. by apply H.
  - destruct (mmapSize_covers (fun _ => true) [] 4096 3000000000 0 ltac:(lia) ltac:(lia)) as (_ & H & _). destruct H as (z & E & Hz & _); [by vm_compute|]. by exists z.
  - destruct (init 128) as [f|e|] eqn:E; [|by vm_compute in E..]. exists f. split; [done|]. assert (Em : mmap (fun _ => true) f 128 100000 = Ok (2 ^ 17)) by (vm_compute in E; injection E as <-; by vm_compute).
    split; [done|]. by destruct (mmapSize_covers (fun _ => true) f 128 100000 (2 ^ 17) ltac:(lia) ltac:(lia)) as (_ & _ & H); apply H.
Defined.

End BdbMeta.
