(* ===== verification/BdbNode.v ===== *)
(** The nodes of a write transaction (bitree/bdb/node.go): putting and deleting
    items, splitting a node that has outgrown its page, and the links between
    nodes.

    A node is an object in the heap of its bucket ([BdbCursor.Bucket]); [hwm] is
    the high water mark of the transaction, [meta.pgid].  The keys and values are
    copied out of the mapping by [dereference], which a value does not need. *)

From Stdlib Require Import ZArith Lia.
From stdpp Require Import base numbers option sorting list gmap.
From S2P Require Import Prelude Base Freelist FreelistSafe BdbPage BdbCursor BdbTree.
Import Freelist Bdb BdbCursor BdbTree.

Module BdbNode.

(** ** One node *)

(** [sort.Search] for the first key at or past [key]. *)
Definition key_index (l : list inode) (key : bytes) : outcome Z :=
  search (len l) (fun i => match l !! Z.to_nat i with Some x => Ok (negb (bytes_compare (ikey x) key =? -1)) | None => Panic end).

Definition key_at (l : list inode) (i : Z) : option bytes := ikey <$> l !! Z.to_nat i.

Definition minKeys (n : node) : Z := if isLeaf n then 1 else 2.

Definition childIndex (n child : node) : outcome Z := key_index (inodes n) (default [] (nkey child)).

Definition numChildren (n : node) : Z := len (inodes n).

Definition put (hwm : Z) (n : node) (oldKey newKey value : bytes) (pgid flags : Z) : outcome node :=
  if hwm <=? pgid then Panic
  else if len oldKey <=? 0 then Panic
  else if len newKey <=? 0 then Panic
  else
    let l := inodes n in
    let! index := key_index l oldKey in
    let exact := (0 <? len l) && (index <? len l) && bool_decide (key_at l index = Some oldKey) in
    let x := mkInode flags pgid newKey value in
    let l := take (Z.to_nat index) l ++ [x] ++ drop (Z.to_nat (if exact then index + 1 else index)) l in
    Ok (with_inodes n l).

Definition del (n : node) (key : bytes) : outcome node :=
  let l := inodes n in
  let! index := key_index l key in
  if (len l <=? index) || negb (bool_decide (key_at l index = Some key)) then Ok n
  else Ok (with_unbalanced (with_inodes n (take (Z.to_nat index) l ++ drop (Z.to_nat (index + 1)) l)) true).

(** The loop of [splitIndex]: [i] is the index of the head of [l], [index] that of
    the turn before, [lim] where it stops. *)
Fixpoint split_loop (leaf : bool) (threshold lim : Z) (l : list inode) (i index sz : Z) : Z * Z :=
  match l with
  | [] => (index, sz)
  | x :: l' =>
      if i <? lim then
        let elsize := item_size leaf x in
        if (minKeysPerPage <=? i) && (threshold <? sz + elsize) then (i, sz)
        else split_loop leaf threshold lim l' (i + 1) i (sz + elsize)
      else (index, sz)
  end.

Definition splitIndex (n : node) (threshold : Z) : Z * Z :=
  split_loop (isLeaf n) threshold (len (inodes n) - minKeysPerPage) (inodes n) 0 0 pageHeaderSize.

(** ** Nodes that refer to each other *)

Definition new_node (leaf : bool) (par : option Z) (ch : list Z) : node := mkNode leaf false false None 0 par ch [].

(** [splitTwo]: the second half, if there is one.  A bucket's [FillPercent] is
    [DefaultFillPercent], 1.0, all of the page, and the one other store to it in
    the repository, in compact.go, is 1.0 too, so that the clamping to
    [minFillPercent] and [maxFillPercent] changes nothing and the threshold is
    the page size. *)
Definition splitTwo (pageSize : Z) (b : Bucket) (r : Z) : outcome (Bucket * option Z) :=
  let! n := deref b r in
  if (len (inodes n) <=? minKeysPerPage * 2) || sizeLessThan n pageSize then Ok (b, None)
  else
    let threshold := pageSize in
    let '(splitIndex, _) := splitIndex n threshold in
    let '(b, par) :=
      match parent n with
      | Some q => (b, q)
      | None => let '(b, q) := alloc b (new_node false None [r]) in (set_node b r (with_parent n (Some q)), q)
      end in
    let '(b, next) := alloc b (with_inodes (new_node (isLeaf n) (Some par) []) (drop (Z.to_nat splitIndex) (inodes n))) in
    let! m := deref b par in
    let b := set_node b par (with_children m (children m ++ [next])) in
    let! n := deref b r in
    Ok (set_node b r (with_inodes n (take (Z.to_nat splitIndex) (inodes n))), Some next).

Fixpoint split (fuel : nat) (pageSize : Z) (b : Bucket) (r : Z) : outcome (Bucket * list Z) :=
  match fuel with
  | O => Err ErrModelFuel
  | S fuel' =>
      let! (b, next) := splitTwo pageSize b r in
      match next with
      | None => Ok (b, [r])
      | Some r' => let! (b, l) := split fuel' pageSize b r' in Ok (b, r :: l)
      end
  end.

(** [root]: up the parents. *)
Fixpoint root_of (fuel : nat) (b : Bucket) (r : Z) : outcome Z :=
  let! n := deref b r in
  match parent n with
  | None => Ok r
  | Some q => match fuel with O => Err ErrModelFuel | S fuel' => root_of fuel' b q end
  end.

Definition removeChild (b : Bucket) (r target : Z) : outcome Bucket :=
  let! n := deref b r in
  Ok (set_node b r (with_children n
    ((fix go (l : list Z) := match l with [] => [] | c :: l' => if c =? target then l' else c :: go l' end) (children n)))).

Section Siblings.
Context (pg : Z -> outcome page).

Definition nextSibling (b : Bucket) (r : Z) : outcome (Bucket * option Z) :=
  let! n := deref b r in
  match parent n with
  | None => Ok (b, None)
  | Some q =>
      let! m := deref b q in
      let! i := childIndex m n in
      if numChildren m - 1 <=? i then Ok (b, None) else let! (b, s) := childAt pg b q (i + 1) in Ok (b, Some s)
  end.

Definition prevSibling (b : Bucket) (r : Z) : outcome (Bucket * option Z) :=
  let! n := deref b r in
  match parent n with
  | None => Ok (b, None)
  | Some q =>
      let! m := deref b q in
      let! i := childIndex m n in
      if i =? 0 then Ok (b, None) else let! (b, s) := childAt pg b q (i - 1) in Ok (b, Some s)
  end.

End Siblings.

(** ** What [put] and [del] do *)

(** The same on a sorted list. *)
Fixpoint insert_item (x : inode) (l : list inode) : list inode :=
  match l with
  | [] => [x]
  | y :: l' => if cmp (ikey y) (ikey x) <? 0 then y :: insert_item x l' else if cmp (ikey y) (ikey x) =? 0 then x :: l' else x :: l
  end.

Definition remove_key (k : bytes) (l : list inode) : list inode := filter (fun x => ikey x <> k) l.

Lemma key_index_spec l key : ksorted l -> key_index l key = Ok (iseek key l).
Proof.
  intros Hs. unfold key_index. pose proof (iseek_range key l).
  rewrite (search_spec _ (fun i => match l !! Z.to_nat i with Some x => negb (cmp (ikey x) key =? -1) | None => true end) (len l) (iseek key l)); [done|done| | |].
  - intros k Hk. destruct (lookup_lt_is_Some_2 l (Z.to_nat k)) as [x Hx]; [unfold len in *; lia|]. by rewrite Hx.
  - intros k Hk. destruct (lookup_lt_is_Some_2 l (Z.to_nat k)) as [x Hx]; [unfold len in *; lia|]. rewrite Hx.
    assert (cmp (ikey x) key = -1) as -> by (apply cmp_neg, (iseek_before key l _ x Hx); lia). done.
  - intros k Hk. destruct (lookup_lt_is_Some_2 l (Z.to_nat k)) as [x Hx]; [unfold len in *; lia|]. rewrite Hx.
    pose proof (iseek_after key l _ x Hs Hx ltac:(lia)) as Hc. destruct (Z.eqb_spec (cmp (ikey x) key) (-1)); [lia|done].
Qed.

(** The items before a key, those after it, and the item that has it. *)
Definition below (k : bytes) (l : list inode) : Prop := Forall (fun x => cmp (ikey x) k < 0) l.
Definition above (k : bytes) (l : list inode) : Prop := Forall (fun x => cmp k (ikey x) < 0) l.

Lemma iseek_split k a c : below k a -> Forall (fun x => 0 <= cmp (ikey x) k) c -> iseek k (a ++ c) = len a.
Proof.
  intros Ha Hc. rewrite iseek_app_lt by done. replace (iseek k c) with 0; [lia|]. destruct Hc as [|x c Hx _]; [done|]. cbn [iseek].
  destruct (Z.ltb_spec (cmp (ikey x) k) 0); [lia|done].
Qed.

Lemma above_ge k c : above k c -> Forall (fun x => 0 <= cmp (ikey x) k) c.
Proof. intros H. eapply Forall_impl; [exact H|]. intros x Hx. apply (cmp_gt_lt cmp) in Hx. lia. Qed.

(** Where a key is or would be. *)
Lemma key_cases k l : ksorted l -> exists a c, l = a ++ c /\ below k a /\ (above k c \/ exists x c', c = x :: c' /\ ikey x = k /\ above k c').
Proof.
  induction l as [|x l IH]; intros Hs; [by exists [], []; repeat split; [constructor|left; constructor]|]. apply StronglySorted_inv in Hs as [Hs Hx].
  destruct (cmp_total cmp (ikey x) k) as [Hlt|[Heq|Hgt]].
  - destruct (IH Hs) as (a & c & -> & Ha & Hc). exists (x :: a), c. split; [done|]. split; [by constructor|done].
  - exists [], (x :: l). split; [done|]. split; [constructor|right]. exists x, l. split; [done|]. split; [done|]. by rewrite <-Heq.
  - exists [], (x :: l). split; [done|]. split; [constructor|left]. constructor; [done|]. eapply Forall_impl; [exact Hx|]. intros y Hy. by eapply (cmp_trans (cmp := cmp)).
Qed.

Lemma drop_item {A} (a : list A) x c : drop (length (a ++ [x])) (a ++ x :: c) = c.
Proof. rewrite (cons_middle x a c), app_assoc. apply drop_app_length. Qed.

Section Put.
Context (hwm : Z) (n : node) (oldKey newKey value : bytes) (pgid flags : Z).
Hypothesis Hhwm : pgid < hwm.
Hypothesis Hold : oldKey <> [].
Hypothesis Hnew : newKey <> [].

Lemma len_key (k : bytes) : k <> [] -> (len k <=? 0) = false.
Proof. intros Hk. pose proof (len_pos k Hk). by apply Z.leb_gt. Qed.

(** The item with the old key is replaced. *)
Lemma put_replace a x c : inodes n = a ++ x :: c -> ksorted (inodes n) -> ikey x = oldKey ->
  put hwm n oldKey newKey value pgid flags = Ok (with_inodes n (a ++ mkInode flags pgid newKey value :: c)).
Proof.
  intros El Hs Hx. unfold put. destruct (Z.leb_spec hwm pgid); [lia|]. rewrite !len_key by done. rewrite key_index_spec by done. rewrite El in *.
  pose proof Hs as Hs0. apply StronglySorted_app in Hs0 as (Hax & _ & Hc). apply StronglySorted_inv in Hc as [_ Hc].
  rewrite iseek_split.
  2: { apply Forall_forall. intros y Hy. rewrite <-Hx. apply Hax; [done|by left]. }
  2: { constructor; [rewrite Hx, (cmp_refl cmp); lia|]. apply above_ge. rewrite <-Hx. exact Hc. }
  cbn [rbind]. replace (Z.to_nat (len a)) with (length a) by (unfold len; lia).
  assert (Hk : key_at (a ++ x :: c) (len a) = Some oldKey) by (unfold key_at, len; rewrite Nat2Z.id, list_lookup_middle by done; cbn; by rewrite Hx).
  rewrite Hk, bool_decide_eq_true_2 by done. rewrite len_app, len_cons. pose proof (len_nonneg a). pose proof (len_nonneg c).
  destruct (Z.ltb_spec 0 (len a + (1 + len c))); [|lia]. destruct (Z.ltb_spec (len a) (len a + (1 + len c))); [|lia]. cbn [andb].
  rewrite take_app_length. replace (Z.to_nat (len a + 1)) with (length (a ++ [x])) by (rewrite length_app; unfold len; cbn; lia).
  by rewrite drop_item.
Qed.

(** No item has the old key: the new one goes where the old key would be. *)
Lemma put_insert a c : inodes n = a ++ c -> ksorted (inodes n) -> below oldKey a -> above oldKey c ->
  put hwm n oldKey newKey value pgid flags = Ok (with_inodes n (a ++ mkInode flags pgid newKey value :: c)).
Proof.
  intros El Hs Ha Hc. unfold put. destruct (Z.leb_spec hwm pgid); [lia|]. rewrite !len_key by done. rewrite key_index_spec by done. rewrite El in *.
  rewrite iseek_split by (done || by apply above_ge). cbn [rbind]. replace (Z.to_nat (len a)) with (length a) by (unfold len; lia).
  assert (Hk : key_at (a ++ c) (len a) <> Some oldKey).
  { unfold key_at, len. rewrite Nat2Z.id, lookup_app_r, Nat.sub_diag by done. destruct Hc as [|y c Hy _]; [done|]. cbn. intros [= E]. rewrite E, (cmp_refl cmp) in Hy. lia. }
  rewrite bool_decide_eq_false_2 by done. rewrite andb_false_r. replace (Z.to_nat (len a)) with (length a) by (unfold len; lia).
  by rewrite take_app_length, drop_app_length.
Qed.

End Put.

Lemma insert_item_split x a c : below (ikey x) a -> above (ikey x) c -> insert_item x (a ++ c) = a ++ x :: c.
Proof.
  induction 1 as [|y a Hy _ IH]; intros Hc; cbn [app insert_item].
  - destruct Hc as [|z c Hz _]; [done|]. cbn [insert_item]. apply (cmp_gt_lt cmp) in Hz. bdestruct_all; (done || lia).
  - destruct (Z.ltb_spec (cmp (ikey y) (ikey x)) 0); [|lia]. by rewrite IH.
Qed.

Lemma insert_item_replace x y a c : below (ikey x) a -> ikey y = ikey x -> insert_item x (a ++ y :: c) = a ++ x :: c.
Proof.
  induction 1 as [|z a Hz _ IH]; intros Hy; cbn [app insert_item].
  - rewrite Hy, (cmp_refl cmp). done.
  - destruct (Z.ltb_spec (cmp (ikey z) (ikey x)) 0); [|lia]. by rewrite IH.
Qed.

(** Into a leaf: old and new key are the same. *)
Lemma put_leaf hwm n k v pgid flags : ksorted (inodes n) -> pgid < hwm -> k <> [] ->
  put hwm n k k v pgid flags = Ok (with_inodes n (insert_item (mkInode flags pgid k v) (inodes n))).
Proof.
  intros Hs Hp Hk. destruct (key_cases k (inodes n) Hs) as (a & c & El & Ha & [Hc|(x & c' & -> & Hx & _)]).
  - rewrite (put_insert hwm n k k v pgid flags Hp Hk Hk a c) by done. by rewrite El, insert_item_split.
  - rewrite (put_replace hwm n k k v pgid flags Hp Hk Hk a x c') by done. by rewrite El, (insert_item_replace _ x).
Qed.

Lemma remove_key_none k l : Forall (fun x => ikey x <> k) l -> remove_key k l = l.
Proof. intros H. unfold remove_key. induction H as [|x l Hx _ IH]; [done|]. rewrite filter_cons_True by done. by rewrite IH. Qed.

Lemma below_ne k l : below k l -> Forall (fun x => ikey x <> k) l.
Proof. intros H. eapply Forall_impl; [exact H|]. intros x Hx E. cbv beta in Hx. rewrite E, (cmp_refl cmp) in Hx. lia. Qed.

Lemma above_ne k l : above k l -> Forall (fun x => ikey x <> k) l.
Proof. intros H. eapply Forall_impl; [exact H|]. intros x Hx E. cbv beta in Hx. rewrite E, (cmp_refl cmp) in Hx. lia. Qed.

Lemma del_spec n k : ksorted (inodes n) ->
  del n k = Ok (if decide (k ∈ ikey <$> inodes n) then with_unbalanced (with_inodes n (remove_key k (inodes n))) true else n).
Proof.
  intros Hs. unfold del. rewrite key_index_spec by done. cbn [rbind]. destruct (key_cases k (inodes n) Hs) as (a & c & El & Ha & [Hc|(x & c' & -> & Hx & Hc)]); rewrite El in *.
  - rewrite iseek_split by (done || by apply above_ge). rewrite decide_False.
    2: { rewrite list_elem_of_fmap. intros (y & -> & Hy). rewrite elem_of_app in Hy. unfold below, above in *. rewrite Forall_forall in Ha, Hc.
         destruct Hy as [Hy|Hy]; [specialize (Ha y Hy)|specialize (Hc y Hy)]; rewrite (cmp_refl cmp) in *; lia. }
    rewrite bool_decide_eq_false_2; [by rewrite orb_true_r|]. unfold key_at, len. rewrite Nat2Z.id, lookup_app_r, Nat.sub_diag by done.
    destruct Hc as [|y c Hy _]; [done|]. cbn. intros [= E]. rewrite E, (cmp_refl cmp) in Hy. lia.
  - assert (Hge : Forall (fun y => 0 <= cmp (ikey y) k) (x :: c')) by (constructor; [rewrite Hx, (cmp_refl cmp); lia|by apply above_ge]).
    rewrite iseek_split by done. rewrite decide_True. 2: { apply list_elem_of_fmap. exists x. split; [done|]. apply elem_of_app. right. by left. }
    assert (Hk : key_at (a ++ x :: c') (len a) = Some k) by (unfold key_at, len; rewrite Nat2Z.id, list_lookup_middle by done; cbn; by rewrite Hx).
    rewrite Hk, bool_decide_eq_true_2 by done. rewrite len_app, len_cons. pose proof (len_nonneg c'). destruct (Z.leb_spec (len a + (1 + len c')) (len a)); [lia|]. cbn [orb negb].
    replace (Z.to_nat (len a)) with (length a) by (unfold len; lia). replace (Z.to_nat (len a + 1)) with (length (a ++ [x])) by (rewrite length_app; unfold len; cbn; lia).
    rewrite take_app_length. do 3 f_equal. rewrite drop_item. unfold remove_key. rewrite filter_app, filter_cons_False by (by intros []).
    pose proof (remove_key_none k a (below_ne _ _ Ha)). pose proof (remove_key_none k c' (above_ne _ _ Hc)). unfold remove_key in *. congruence.
Qed.

(** ** What [split] does *)

(** The bytes a node of these items takes. *)
Definition node_bytes (l : list inode) : Z := pageHeaderSize + 16 * len l + body_size l.

Lemma node_bytes_snoc l x leaf : node_bytes (l ++ [x]) = node_bytes l + item_size leaf x.
Proof.
  unfold node_bytes, item_size. rewrite len_app, body_size_app, len_cons, body_size_cons. change (len (@nil inode)) with 0. change (body_size []) with 0.
  destruct leaf; cbn [pageElementSize]; unfold leafPageElementSize, branchPageElementSize; lia.
Qed.

Lemma node_bytes_mono l k : node_bytes l <= node_bytes (l ++ k).
Proof. unfold node_bytes. rewrite len_app, body_size_app. pose proof (body_size_nonneg k). pose proof (len_nonneg k). lia. Qed.

Definition split_at (ps : Z) (leaf : bool) (l : list inode) : nat := Z.to_nat (split_loop leaf ps (len l - minKeysPerPage) l 0 0 pageHeaderSize).1.

Lemma split_loop_spec leaf ps pre l : 4 < len (pre ++ l) -> len pre <= len (pre ++ l) - 2 -> (len pre <= 2 \/ node_bytes pre <= ps) ->
  let i := (split_loop leaf ps (len (pre ++ l) - minKeysPerPage) l (len pre) (Z.max 0 (len pre - 1)) (node_bytes pre)).1 in
  2 <= i <= len (pre ++ l) - 3 /\ (i = 2 \/ node_bytes (take (Z.to_nat i) (pre ++ l)) <= ps).
Proof.
  revert pre. induction l as [|x l IH]; intros pre Hl Hp Hs; [rewrite app_nil_r in *; lia|]. cbn [split_loop]. unfold minKeysPerPage.
  destruct (Z.ltb_spec (len pre) (len (pre ++ x :: l) - 2)) as [Hlt|Hge].
  - assert (Hsn : len (pre ++ [x]) = len pre + 1) by (rewrite len_app, len_cons; change (len (@nil inode)) with 0; lia). pose proof (len_nonneg pre) as Hpre.
    specialize (IH (pre ++ [x])). rewrite Hsn, (node_bytes_snoc pre x leaf) in IH. rewrite <-app_assoc in IH. cbn [app] in IH.
    replace (Z.max 0 (len pre + 1 - 1)) with (len pre) in IH by lia. destruct (Z.leb_spec 2 (len pre)) as [H2|H2]; cbn [andb].
    + destruct (Z.ltb_spec ps (node_bytes pre + item_size leaf x)) as [Hb|Hb].
      * cbn [fst]. split; [lia|]. replace (Z.to_nat (len pre)) with (length pre) by (unfold len; lia). rewrite take_app_length. lia.
      * apply IH; [done|lia|by right].
    + apply IH; [done|lia|left; lia].
  - cbn [fst]. assert (E : len pre = len (pre ++ x :: l) - 2) by lia. split; [lia|]. destruct Hs as [|Hs]; [lia|]. right. etrans; [|exact Hs].
    rewrite take_app_le by (unfold len in *; lia). set (k := Z.to_nat _). rewrite <-(take_drop k pre) at 2. apply node_bytes_mono.
Qed.

Lemma split_at_spec ps leaf l : 4 < len l ->
  (2 <= split_at ps leaf l <= length l - 3)%nat /\ (split_at ps leaf l = 2%nat \/ node_bytes (take (split_at ps leaf l) l) <= ps).
Proof.
  intros Hl. destruct (split_loop_spec leaf ps [] l) as [H1 H2]; [done|change (len (@nil inode)) with 0; cbn [app]; lia|left; by vm_compute|]. cbn [app] in *.
  change (Z.max 0 (len (@nil inode) - 1)) with 0 in *. change (len (@nil inode)) with 0 in *. change (node_bytes []) with pageHeaderSize in *.
  unfold split_at. set (i := (split_loop _ _ _ _ _ _ _).1) in *. split; [unfold len in *; lia|]. destruct H2 as [->|H2]; [by left|by right].
Qed.

(** The parts of a list of items. *)
Definition whole (ps : Z) (l : list inode) : bool := (len l <=? minKeysPerPage * 2) || (node_bytes l <? ps).

Fixpoint parts (fuel : nat) (ps : Z) (leaf : bool) (l : list inode) : list (list inode) :=
  match fuel with
  | O => [l]
  | S fuel' => if whole ps l then [l] else take (split_at ps leaf l) l :: parts fuel' ps leaf (drop (split_at ps leaf l) l)
  end.

Lemma parts_concat fuel ps leaf l : concat (parts fuel ps leaf l) = l.
Proof.
  revert l. induction fuel as [|fuel IH]; intros l; cbn [parts]; [apply app_nil_r|]. destruct (whole ps l); [apply app_nil_r|]. cbn [concat]. rewrite IH. apply take_drop.
Qed.

Lemma whole_false ps l : whole ps l = false -> 4 < len l /\ ps <= node_bytes l.
Proof. unfold whole, minKeysPerPage. intros [H1%Z.leb_gt H2%Z.ltb_ge]%orb_false_iff. lia. Qed.

(** A part fits its page, or has only a few large items. *)
Definition part_ok (ps : Z) (l : list inode) : Prop := len l <= 4 \/ node_bytes l <= ps.

Lemma parts_ok fuel ps leaf l : (length l <= fuel)%nat -> Forall (part_ok ps) (parts fuel ps leaf l).
Proof.
  revert l. induction fuel as [|fuel IH]; intros l Hf; cbn [parts].
  - constructor; [|constructor]. left. unfold len. lia.
  - destruct (whole ps l) eqn:E.
    + constructor; [|constructor]. unfold whole, minKeysPerPage in E. unfold part_ok. apply orb_true_iff in E as [E%Z.leb_le|E%Z.ltb_lt]; lia.
    + apply whole_false in E as [Hl _]. destruct (split_at_spec ps leaf l Hl) as [H1 H2]. constructor; [|apply IH; rewrite length_drop; lia].
      destruct H2 as [E2|H2]; [|by right]. left. unfold len. rewrite length_take. lia.
Qed.

Lemma parts_two fuel ps leaf l : 2 <= len l -> Forall (fun p => 2 <= len p) (parts fuel ps leaf l).
Proof.
  revert l. induction fuel as [|fuel IH]; intros l Hl; cbn [parts]; [by constructor|]. destruct (whole ps l) eqn:E; [by constructor|].
  apply whole_false in E as [Hl' _]. destruct (split_at_spec ps leaf l Hl') as [H1 _]. constructor; [unfold len; rewrite length_take; lia|]. apply IH. unfold len. rewrite length_drop. lia.
Qed.

Lemma parts_ne fuel ps leaf l : parts fuel ps leaf l <> [].
Proof. destruct fuel; cbn [parts]; [done|]. by destruct (whole ps l). Qed.

(** *** In the heap *)

(** References are given out in order. *)
Definition refs_below (b : Bucket) : Prop := forall r n, heap b !! r = Some n -> r < nextRef b.

(** Two buckets that differ in their nodes only. *)
Definition same_bucket (b b' : Bucket) : Prop :=
  root b' = root b /\ sequence b' = sequence b /\ bpage b' = bpage b /\ rootNode b' = rootNode b /\ nodes b' = nodes b.

Lemma same_bucket_trans b1 b2 b3 : same_bucket b1 b2 -> same_bucket b2 b3 -> same_bucket b1 b3.
Proof. unfold same_bucket. intuition congruence. Qed.

Lemma size_bytes n : size n = node_bytes (inodes n).
Proof. unfold node_bytes. apply size_body. Qed.

Lemma splitTwo_whole ps b r n : pageHeaderSize < ps -> heap b !! r = Some n -> whole ps (inodes n) = true -> splitTwo ps b r = Ok (b, None).
Proof. intros Hps Hn Hw. unfold splitTwo, deref. rewrite Hn. cbn [rbind]. rewrite sizeLessThan_size, size_bytes by done. unfold whole in Hw. by rewrite Hw. Qed.

Definition second (n : node) (q : Z) (l : list inode) : node := with_inodes (new_node (isLeaf n) (Some q) []) l.

Lemma splitTwo_parent ps b r n q m : pageHeaderSize < ps -> refs_below b -> heap b !! r = Some n -> parent n = Some q -> heap b !! q = Some m -> r <> q ->
  whole ps (inodes n) = false ->
  let i := split_at ps (isLeaf n) (inodes n) in
  exists b', splitTwo ps b r = Ok (b', Some (nextRef b)) /\ same_bucket b b' /\ nextRef b' = nextRef b + 1 /\
    heap b' = <[r := with_inodes n (take i (inodes n))]> (<[q := with_children m (children m ++ [nextRef b])]> (<[nextRef b := second n q (drop i (inodes n))]> (heap b))).
Proof.
  intros Hps Hb Hn Hp Hq Hrq Hw i. unfold splitTwo. unfold deref at 1. rewrite Hn. cbn [rbind]. rewrite sizeLessThan_size, size_bytes by done.
  unfold whole in Hw. rewrite Hw. unfold splitIndex. unfold i, split_at. destruct (split_loop _ _ _ _ _ _ _) as [z sz]. cbn [fst]. rewrite Hp. unfold alloc, deref. cbn [heap].
  pose proof (Hb _ _ Hn). pose proof (Hb _ _ Hq). rewrite lookup_insert_ne by lia. rewrite Hq. cbn [rbind]. unfold set_node, with_heap. cbn [heap].
  rewrite lookup_insert_ne by done. rewrite lookup_insert_ne by lia. rewrite Hn. cbn [rbind heap]. eexists. split; [done|]. split; [done|]. done.
Qed.

(** The state after a node with a parent is split into the parts [ls]. *)
Record split_into (b b' : Bucket) (r : Z) (n : node) (q : Z) (m : node) (ls : list (list inode)) : Prop := mkSplitInto {
  si_same : same_bucket b b';
  si_next : nextRef b' = nextRef b + (len ls - 1);
  si_self : heap b' !! r = Some (with_inodes n (default [] (head ls)));
  si_parent : heap b' !! q = Some (with_children m (children m ++ seqZ (nextRef b) (len ls - 1)));
  si_new : forall j l, ls !! S j = Some l -> heap b' !! (nextRef b + Z.of_nat j) = Some (second n q l);
  si_other : forall k, k <> r -> k <> q -> k < nextRef b \/ nextRef b' <= k -> heap b' !! k = heap b !! k
}.

Lemma with_inodes_same n : with_inodes n (inodes n) = n.
Proof. by destruct n. Qed.
Lemma with_children_same n : with_children n (children n) = n.
Proof. by destruct n. Qed.

Lemma split_spec fuel ps b r n q m : pageHeaderSize < ps -> refs_below b -> heap b !! r = Some n -> parent n = Some q -> heap b !! q = Some m -> r <> q ->
  (length (inodes n) < fuel)%nat ->
  let ls := parts fuel ps (isLeaf n) (inodes n) in
  exists b', split fuel ps b r = Ok (b', r :: seqZ (nextRef b) (len ls - 1)) /\ split_into b b' r n q m ls.
Proof.
  revert b r n m. induction fuel as [|fuel IH]; intros b r n m Hps Hb Hn Hp Hq Hrq Hf; [lia|]. cbn [split parts]. destruct (whole ps (inodes n)) eqn:Hw.
  - rewrite (splitTwo_whole ps b r n) by done. cbn [rbind]. eexists. split; [done|].
    split; cbn [head default]; [done|change (len [inodes n]) with 1; lia|by rewrite with_inodes_same|cbn; by rewrite app_nil_r, with_children_same|by intros j l|done].
  - destruct (splitTwo_parent ps b r n q m Hps Hb Hn Hp Hq Hrq Hw) as (b1 & -> & Hs1 & Hn1 & Hh1). cbn [rbind]. set (i := split_at ps (isLeaf n) (inodes n)) in *.
    pose proof (Hb _ _ Hn) as Hlr. pose proof (Hb _ _ Hq) as Hlq. destruct (whole_false _ _ Hw) as [H4 _]. destruct (split_at_spec ps (isLeaf n) (inodes n) H4) as [Hi _]. fold i in Hi.
    destruct (IH b1 (nextRef b) (second n q (drop i (inodes n))) (with_children m (children m ++ [nextRef b]))) as (b2 & E2 & S2).
    + done.
    + intros k x. rewrite Hh1, Hn1. intros Hk. destruct (decide (k = r)) as [->|]; [lia|]. rewrite lookup_insert_ne in Hk by done.
      destruct (decide (k = q)) as [->|]; [lia|]. rewrite lookup_insert_ne in Hk by done. destruct (decide (k = nextRef b)) as [->|]; [lia|].
      rewrite lookup_insert_ne in Hk by done. specialize (Hb _ _ Hk). lia.
    + rewrite Hh1. rewrite !lookup_insert_ne by lia. apply lookup_insert_eq.
    + done.
    + rewrite Hh1. rewrite lookup_insert_ne by lia. apply lookup_insert_eq.
    + lia.
    + cbn [second with_inodes inodes]. rewrite length_drop. lia.
    + rewrite E2. cbn [rbind]. cbn [second with_inodes inodes isLeaf new_node] in E2, S2 |- *. set (ls := parts fuel ps (isLeaf n) (drop i (inodes n))) in *.
      pose proof (parts_ne fuel ps (isLeaf n) (drop i (inodes n))) as Hne. fold ls in Hne. pose proof (len_pos ls Hne) as Hpos. rewrite len_cons, Hn1.
      replace (1 + len ls - 1) with (len ls) by lia. exists b2. split; [by rewrite (seqZ_cons (nextRef b) (len ls)) by lia|].
      destruct S2 as [T1 T2 T3 T4 T5 T6]. split.
      * by eapply same_bucket_trans.
      * rewrite T2, Hn1, len_cons. lia.
      * cbn [head default]. rewrite T6 by lia. rewrite Hh1. apply lookup_insert_eq.
      * rewrite T4. cbn [with_children children]. rewrite <-app_assoc. cbn [app]. rewrite len_cons. replace (1 + len ls - 1) with (len ls) by lia.
        rewrite (seqZ_cons (nextRef b) (len ls)), Hn1 by lia. done.
      * intros [|j] l Hl; cbn in Hl.
        -- rewrite Z.add_0_r, T3. destruct ls as [|l0 ls']; [done|]. cbn in Hl. injection Hl as ->. done.
        -- specialize (T5 j l Hl). rewrite Hn1 in T5. replace (nextRef b + Z.of_nat (S j)) with (nextRef b + 1 + Z.of_nat j) by lia. exact T5.
      * intros k Hkr Hkq Hk. rewrite T6 by lia. rewrite Hh1. rewrite !lookup_insert_ne by lia. done.
Qed.

Lemma parts_one fuel ps leaf l : whole ps l = true -> parts fuel ps leaf l = [l].
Proof. intros Hw. destruct fuel; [done|]. cbn [parts]. by rewrite Hw. Qed.

(** C22: [split] of a node with a parent.  It returns for any node, and its items,
    in their order, are those of the parts: the node itself and new siblings of
    the same kind behind it, which join the children of the parent.  A part fits
    into a page unless it has at most four items, no part has fewer than two
    when the node has not, and a node that is small or short stays whole.
    Nothing else in the bucket changes. *)
Theorem split_parts ps b r n q m :
  pageHeaderSize < ps -> refs_below b -> heap b !! r = Some n -> parent n = Some q -> heap b !! q = Some m -> r <> q ->
  exists b' l ls rs, split (S (length (inodes n))) ps b r = Ok (b', r :: rs) /\ l ++ concat ls = inodes n /\
    Forall (fun k => len k <= 4 \/ node_bytes k <= ps) (l :: ls) /\ (2 <= len (inodes n) -> Forall (fun k => 2 <= len k) (l :: ls)) /\
    (len (inodes n) <= 4 \/ size n < ps -> rs = []) /\
    heap b' !! r = Some (with_inodes n l) /\ Forall2 (fun r' k => heap b' !! r' = Some (mkNode (isLeaf n) false false None 0 (Some q) [] k)) rs ls /\
    heap b' !! q = Some (with_children m (children m ++ rs)) /\ NoDup rs /\ Forall (fun r' => heap b !! r' = None) rs /\
    (forall k, k <> r -> k <> q -> k ∉ rs -> heap b' !! k = heap b !! k) /\ same_bucket b b'.
Proof.
  intros Hps Hb Hn Hp Hq Hrq. set (fuel := S (length (inodes n))). destruct (split_spec fuel ps b r n q m Hps Hb Hn Hp Hq Hrq ltac:(unfold fuel; lia)) as (b' & E & [S1 S2 S3 S4 S5 S6]).
  pose proof (parts_concat fuel ps (isLeaf n) (inodes n)) as Hc. pose proof (parts_ok fuel ps (isLeaf n) (inodes n) ltac:(unfold fuel; lia)) as Hok.
  pose proof (parts_two fuel ps (isLeaf n) (inodes n)) as Htwo. pose proof (parts_one fuel ps (isLeaf n) (inodes n)) as Hone.
  set (ps' := parts fuel ps (isLeaf n) (inodes n)) in *. destruct ps' as [|l ls] eqn:El; [by destruct (parts_ne fuel ps (isLeaf n) (inodes n))|].
  exists b', l, ls, (seqZ (nextRef b) (len (l :: ls) - 1)). rewrite len_cons in *. replace (1 + len ls - 1) with (len ls) in * by lia.
  split; [done|]. split; [done|]. split; [exact Hok|]. split; [exact Htwo|]. split.
  { intros Hw. rewrite size_bytes in Hw. specialize (Hone ltac:(unfold whole, minKeysPerPage; apply orb_true_iff; rewrite Z.leb_le, Z.ltb_lt; lia)). by injection Hone as _ ->. }
  split; [done|]. split.
  { apply Forall2_lookup. intros j. destruct (ls !! j) as [k|] eqn:Ek.
    - pose proof (lookup_lt_Some _ _ _ Ek). rewrite lookup_seqZ_lt by (unfold len; lia). constructor. exact (S5 j k Ek).
    - rewrite lookup_seqZ_ge by (apply lookup_ge_None in Ek; unfold len; lia). constructor. }
  split; [done|]. split; [apply NoDup_seqZ|]. split.
  { apply Forall_forall. intros k Hk%elem_of_seqZ. destruct (heap b !! k) eqn:Ek; [|done]. specialize (Hb _ _ Ek). lia. }
  split; [|done]. intros k K1 K2 K3. rewrite elem_of_seqZ in K3. apply S6; [done|done|lia].
Qed.

(** A leaf of six items on pages of 128 bytes. *)
Definition six : node := mkNode true false false None 3 (Some 1) [] ((fun k => mkInode 0 0 [k] (replicate 10 k)) <$> [1; 2; 3; 4; 5; 6]).
Definition six_bucket : Bucket := mkBucket 2 0 None (Some 1) ∅ (<[0 := six]> {[1 := mkNode false false false None 2 None [0] [mkInode 0 3 [1] []]]}) 2.

Lemma split_parts_witness : exists b' l ls rs, split 7 128 six_bucket 0 = Ok (b', 0 :: rs) /\ l ++ concat ls = inodes six /\ Forall (fun k => 2 <= len k) (l :: ls) /\
  heap b' !! 0 = Some (with_inodes six l) /\ length <$> (match split 7 128 six_bucket 0 with Ok (b, rs) => inodes <$> omap (fun r => heap b !! r) rs | _ => [] end) = [3; 3]%nat.
Proof.
  destruct (split_parts 128 six_bucket 0 six 1 (mkNode false false false None 2 None [0] [mkInode 0 3 [1] []])) as (b' & l & ls & rs & E & Hc & _ & H2 & _ & Hh & _); try done.
  - intros k x Hk. cbn in *. destruct (decide (k = 0)) as [->|]; [lia|]. rewrite lookup_insert_ne in Hk by done. apply lookup_singleton_Some in Hk as [<- _]. lia.
  - exists b', l, ls, rs. split; [exact E|]. split; [exact Hc|]. split; [by apply H2; vm_compute|]. split; [exact Hh|]. vm_compute. reflexivity.
Defined.

End BdbNode.
