(* ===== verification/BdbTx.v ===== *)
(** Write transactions of bdb (bitree/bdb/tx.go, the write side of bucket.go,
    the rest of node.go, and the parts of db.go they use): allocating pages,
    rebalancing and spilling nodes, buckets in buckets, and the commit.

    Go walks maps in any order: [order] gives the one in which a bucket's nodes
    are visited, [porder] that of the pending transactions, [pick] the element a
    loop over a set meets first, and the buckets a transaction has opened are
    listed in the order in which they are spilled.  [sys] is whether the system
    maps that many bytes.  An error leaves no state behind: the transaction is
    rolled back from the file.  Statistics and locks are left out, and so is
    [dereference], which copies keys and values out of a mapping before it goes. *)

From Stdlib Require Import ZArith Lia.
From stdpp Require Import base numbers option sorting list gmap.
From S2P Require Import Prelude Base Freelist FreelistSafe BdbPage BdbCursor BdbMeta BdbNode.
Import Freelist Bdb BdbCursor BdbMeta BdbNode.

Module BdbTx.

Definition MaxKeySize : Z := 63744.
Definition MaxValueSize : Z := 2147483646.
Definition bucketHeaderSize : Z := 16.
Definition freelistBitmapHeaderSize : Z := 16.

(** ** The database and its write transaction *)

Record DB {S : Type} : Type := mkDB {
  d_file : bytes;
  d_pageSize : Z;
  d_datasz : Z;
  d_filesz : Z;
  d_freelist : freelist S;
  d_txs : list Z;              (* the transaction numbers of the open readers *)
  d_opened : bool;
  d_readOnly : bool;
  d_version : Z;
  d_AllocSize : Z;
  d_NoGrowSync : bool;
  d_NoFreelistSync : bool
}.
Arguments DB : clear implicits.
Arguments mkDB {S}.

(** [pages] is nil in a reader. *)
Record Tx {S : Type} : Type := mkTx { t_db : DB S; t_meta : meta; t_pages : gmap Z page }.
Arguments Tx : clear implicits.
Arguments mkTx {S}.

Section Updates.
Context {S : Type}.
Implicit Types (d : DB S) (t : Tx S).

Definition with_file d f : DB S :=
  mkDB f (d_pageSize d) (d_datasz d) (d_filesz d) (d_freelist d) (d_txs d) (d_opened d) (d_readOnly d) (d_version d) (d_AllocSize d) (d_NoGrowSync d) (d_NoFreelistSync d).
Definition with_freelist d fl : DB S :=
  mkDB (d_file d) (d_pageSize d) (d_datasz d) (d_filesz d) fl (d_txs d) (d_opened d) (d_readOnly d) (d_version d) (d_AllocSize d) (d_NoGrowSync d) (d_NoFreelistSync d).
Definition with_sizes d datasz filesz : DB S :=
  mkDB (d_file d) (d_pageSize d) datasz filesz (d_freelist d) (d_txs d) (d_opened d) (d_readOnly d) (d_version d) (d_AllocSize d) (d_NoGrowSync d) (d_NoFreelistSync d).
Definition with_txs d l : DB S :=
  mkDB (d_file d) (d_pageSize d) (d_datasz d) (d_filesz d) (d_freelist d) l (d_opened d) (d_readOnly d) (d_version d) (d_AllocSize d) (d_NoGrowSync d) (d_NoFreelistSync d).
Definition with_db t d : Tx S := mkTx d (t_meta t) (t_pages t).
Definition with_meta t m : Tx S := mkTx (t_db t) m (t_pages t).
Definition with_pages t p : Tx S := mkTx (t_db t) (t_meta t) p.
Definition tx_with_freelist t fl : Tx S := with_db t (with_freelist (t_db t) fl).

End Updates.

Definition with_pgid (m : meta) (g : Z) : meta :=
  mkMeta (m_magic m) (m_version m) (m_pageSize m) (m_flags m) (m_root m) (m_sequence m) (m_freelist m) g (m_txid m) (m_checksum m).
Definition with_txid (m : meta) (x : Z) : meta :=
  mkMeta (m_magic m) (m_version m) (m_pageSize m) (m_flags m) (m_root m) (m_sequence m) (m_freelist m) (m_pgid m) x (m_checksum m).
Definition with_root (m : meta) (r : Z) : meta :=
  mkMeta (m_magic m) (m_version m) (m_pageSize m) (m_flags m) r (m_sequence m) (m_freelist m) (m_pgid m) (m_txid m) (m_checksum m).
Definition with_mfreelist (m : meta) (l : Z) : meta :=
  mkMeta (m_magic m) (m_version m) (m_pageSize m) (m_flags m) (m_root m) (m_sequence m) l (m_pgid m) (m_txid m) (m_checksum m).

Section Write.
Context {S : Type} `{!FreeStore S}.
Context (pick : gset Z -> option Z) (sys : Z -> bool) (order : gmap Z Z -> list Z).
Implicit Types (d : DB S) (t : Tx S).

Definition tx_page t (id : Z) : outcome page :=
  match t_pages t !! id with Some p => Ok p | None => file_page (d_file (t_db t)) (d_pageSize (t_db t)) id end.

(** [DB.allocate]: from the free pages, or from behind the high water mark,
    which may take a larger mapping. *)
Definition db_allocate t (count : Z) : outcome (Tx S * page * bool) :=
  let d := t_db t in
  let ps := d_pageSize d in
  let! (fl, id) := Freelist.allocate pick (d_freelist d) (m_txid (t_meta t)) count in
  let d := with_freelist d fl in
  if negb (id =? 0) then Ok (with_db t d, new_page ps id count, true)
  else
    let id := m_pgid (t_meta t) in
    let minsz := (id + count + 1) * ps in
    let! datasz := (if d_datasz d <=? minsz then mmap sys (d_file d) ps minsz else Ok (d_datasz d)) in
    Ok (mkTx (with_sizes d datasz (d_filesz d)) (with_pgid (t_meta t) (id + count)) (t_pages t), new_page ps id count, false).

Definition tx_allocate t (count : Z) : outcome (Tx S * page * bool) :=
  let! (t, p, isFree) := db_allocate t count in
  Ok (with_pages t (<[p_id p := p]> (t_pages t)), p, isFree).

(** [freelist.free] for the page of a number. *)
Definition tx_free t (id : Z) : outcome (Tx S) :=
  let! p := tx_page t id in
  let! fl := Freelist.free (d_freelist (t_db t)) (m_txid (t_meta t)) p in
  Ok (tx_with_freelist t fl).

Definition node_free t (b : Bucket) (r : Z) : outcome (Tx S * Bucket) :=
  let! n := deref b r in
  if negb (npgid n =? 0) then let! t := tx_free t (npgid n) in Ok (t, set_node b r (with_npgid n 0)) else Ok (t, b).

(** ** Spilling *)

(** One part of a split node gets a page, and its parent the number of it.
    The page is one of the transaction's before it is filled. *)
Definition spill_part t (b : Bucket) (r : Z) : outcome (Tx S * Bucket) :=
  let! (t, b) :=
    (let! n := deref b r in
     if 0 <? npgid n then let! t := tx_free t (npgid n) in Ok (t, set_node b r (with_npgid n 0)) else Ok (t, b)) in
  let! n := deref b r in
  let! (t, p, _) := tx_allocate t (pages_for n (d_pageSize (t_db t))) in
  if m_pgid (t_meta t) <=? p_id p then Panic
  else
    let n := with_npgid n (p_id p) in
    let! p := Bdb.write n p in
    let t := with_pages t (<[p_id p := p]> (t_pages t)) in
    let n := with_spilled n true in
    match parent n with
    | None => Ok (t, set_node b r n)
    | Some q =>
        match inodes n with
        | [] => Panic
        | x :: _ =>
            let key := match nkey n with Some k => k | None => ikey x end in
            let! m := deref b q in
            let! m := put (m_pgid (t_meta t)) m key (ikey x) [] (npgid n) 0 in
            let b := set_node b q m in
            if len (ikey x) =? 0 then Panic else Ok (t, set_node b r (with_nkey n (Some (ikey x))))
        end
    end.

Fixpoint spill_parts t (b : Bucket) (l : list Z) : outcome (Tx S * Bucket) :=
  match l with
  | [] => Ok (t, b)
  | r :: l' => let! (t, b) := spill_part t b r in spill_parts t b l'
  end.

(** [sort.Sort] of the children by their first keys, which must be there when two
    are compared. *)
Definition first_key (b : Bucket) (r : Z) : option bytes := heap b !! r ≫= (fun n => ikey <$> head (inodes n)).

Definition child_le (x y : bytes * Z) : Prop := bytes_compare x.1 y.1 <= 0.

#[export] Instance child_le_dec x y : Decision (child_le x y).
Proof. unfold child_le. apply _. Defined.

Definition sort_children (b : Bucket) (l : list Z) : outcome (list Z) :=
  if len l <=? 1 then Ok l
  else if bool_decide (Forall (fun r => is_Some (first_key b r)) l) then Ok (merge_sort child_le ((fun r => (default [] (first_key b r), r)) <$> l)).*2
  else Panic.

(** [spill], and its loop over the children from index [i]: the list grows while
    the children are split. *)
Fixpoint spill (fuel : nat) t (b : Bucket) (r : Z) {struct fuel} : outcome (Tx S * Bucket) :=
  match fuel with
  | O => Err ErrModelFuel
  | Datatypes.S fuel' =>
      let! n := deref b r in
      if spilled n then Ok (t, b)
      else
        let! ch := sort_children b (children n) in
        let b := set_node b r (with_children n ch) in
        let! (t, b) := spill_from fuel' t b r 0 in
        let! n := deref b r in
        let b := set_node b r (with_children n []) in
        let! (b, l) := split (Datatypes.S (length (inodes n))) (d_pageSize (t_db t)) b r in
        let! (t, b) := spill_parts t b l in
        let! n := deref b r in
        match parent n with
        | None => Ok (t, b)
        | Some q =>
            let! m := deref b q in
            if npgid m =? 0 then spill fuel' t (set_node b r (with_children n [])) q else Ok (t, b)
        end
  end
with spill_from (fuel : nat) t (b : Bucket) (r : Z) (i : nat) {struct fuel} : outcome (Tx S * Bucket) :=
  match fuel with
  | O => Err ErrModelFuel
  | Datatypes.S fuel' =>
      let! n := deref b r in
      match children n !! i with
      | None => Ok (t, b)
      | Some c => let! (t, b) := spill fuel' t b c in spill_from fuel' t b r (Datatypes.S i)
      end
  end.

(** ** Rebalancing *)

(** The loaded children of the items [l] get a new parent, and leave the lists of
    their old ones. *)
Fixpoint adopt (b : Bucket) (par : Z) (l : list inode) : outcome Bucket :=
  match l with
  | [] => Ok b
  | x :: l' =>
      match nodes b !! ipgid x with
      | None => adopt b par l'
      | Some c =>
          let! n := deref b c in
          match parent n with
          | None => Panic
          | Some q =>
              let! b := removeChild b q c in
              let! n := deref b c in
              let b := set_node b c (with_parent n (Some par)) in
              let! m := deref b par in
              adopt (set_node b par (with_children m (children m ++ [c]))) par l'
          end
      end
  end.

(** The same without the lists, for a root that is replaced by its only child. *)
Fixpoint reparent (b : Bucket) (par : Z) (l : list inode) : outcome Bucket :=
  match l with
  | [] => Ok b
  | x :: l' =>
      match nodes b !! ipgid x with
      | None => reparent b par l'
      | Some c => let! n := deref b c in reparent (set_node b c (with_parent n (Some par))) par l'
      end
  end.

(** A node leaves the tree: its item, its place among the children, its page. *)
Definition drop_node t (b : Bucket) (q r : Z) : outcome (Tx S * Bucket) :=
  let! n := deref b r in
  let! m := deref b q in
  let! m := del m (default [] (nkey n)) in
  let! b := removeChild (set_node b q m) q r in
  let! n := deref b r in
  node_free t (with_nodes b (delete (npgid n) (nodes b))) r.

Fixpoint rebalance (fuel : nat) t (b : Bucket) (r : Z) : outcome (Tx S * Bucket) :=
  match fuel with
  | O => Err ErrModelFuel
  | Datatypes.S fuel' =>
      let! n := deref b r in
      if negb (unbalanced n) then Ok (t, b)
      else
        let b := set_node b r (with_unbalanced n false) in
        let threshold := d_pageSize (t_db t) / 4 in
        if (threshold <? Bdb.size n) && (minKeys n <? len (inodes n)) then Ok (t, b)
        else
          match parent n with
          | None =>
              match isLeaf n, inodes n with
              | false, [x] =>
                  let! (b, c) := bnode (tx_page t) b (ipgid x) (Some r) in
                  let! child := deref b c in
                  let! n := deref b r in
                  let b := set_node b r (mkNode (isLeaf child) (unbalanced n) (spilled n) (nkey n) (npgid n) (parent n) (children child) (inodes child)) in
                  let! b := reparent b r (inodes child) in
                  let! child := deref b c in
                  let b := set_node b c (with_parent child None) in
                  node_free t (with_nodes b (delete (npgid child) (nodes b))) c
              | _, _ => Ok (t, b)
              end
          | Some q =>
              if numChildren n =? 0 then
                let! (t, b) := drop_node t b q r in rebalance fuel' t b q
              else
                let! m := deref b q in
                if negb (1 <? numChildren m) then Panic
                else
                  let! i := childIndex m n in
                  let! (b, target) := (if i =? 0 then nextSibling (tx_page t) b r else prevSibling (tx_page t) b r) in
                  match target with
                  | None => Panic
                  | Some s =>
                      (* the left one takes the items of the right one *)
                      let '(l, g) := if i =? 0 then (r, s) else (s, r) in
                      let! gn := deref b g in
                      let! b := adopt b l (inodes gn) in
                      let! ln := deref b l in
                      let b := set_node b l (with_inodes ln (inodes ln ++ inodes gn)) in
                      let! (t, b) := drop_node t b q g in
                      rebalance fuel' t b q
                  end
          end
  end.

(** The nodes of a bucket, in the order of a walk over the map: one that has been
    deleted by then is not met. *)
Fixpoint rebalance_nodes (fuel : nat) t (b : Bucket) (l : list Z) : outcome (Tx S * Bucket) :=
  match l with
  | [] => Ok (t, b)
  | id :: l' =>
      match nodes b !! id with
      | None => rebalance_nodes fuel t b l'
      | Some r => let! (t, b) := rebalance fuel t b r in rebalance_nodes fuel t b l'
      end
  end.

(** ** Buckets *)

(** A bucket with the buckets in it that the transaction has opened. *)
Inductive bucketTree : Type := BT (b : Bucket) (subs : list (bytes * bucketTree)).

Definition bt_bucket (x : bucketTree) : Bucket := let '(BT b _) := x in b.
Definition bt_subs (x : bucketTree) : list (bytes * bucketTree) := let '(BT _ l) := x in l.

Fixpoint sub_find (name : bytes) (l : list (bytes * bucketTree)) : option bucketTree :=
  match l with [] => None | (k, x) :: l' => if decide (k = name) then Some x else sub_find name l' end.

Definition bucket_header (root seq : Z) : bytes := le_put 8 root ++ le_put 8 seq.

(** [openBucket]: the header in the value, and the page behind it of an inline
    bucket. *)
Definition openBucket (value : bytes) : outcome Bucket :=
  let! h := peek_data value 0 bucketHeaderSize in
  let '(root, h) := field 8 h in let '(seq, _) := field 8 h in
  let! pg := (if root =? 0 then let! p := page_at value bucketHeaderSize (len value - bucketHeaderSize) in Ok (Some p) else Ok None) in
  Ok (mkBucket root seq pg None ∅ ∅ 0).

(** [Bucket.write]: header and page of an inline bucket. *)
Definition bucket_write (b : Bucket) : outcome bytes :=
  match rootNode b with
  | None => Panic
  | Some r =>
      let! n := deref b r in
      let! p := Bdb.write n (mkPage 0 0 0 0 (replicate (Z.to_nat (Bdb.size n - pageHeaderSize)) 0)) in
      Ok (bucket_header (root b) (sequence b) ++ page_bytes p)
  end.

Fixpoint inline_loop (maxsz : Z) (l : list inode) (sz : Z) : bool :=
  match l with
  | [] => true
  | x :: l' =>
      let sz := sz + (leafPageElementSize + len (ikey x) + len (ivalue x)) in
      if negb (Z.land (iflags x) bucketLeafFlag =? 0) then false else if maxsz <? sz then false else inline_loop maxsz l' sz
  end.

Definition inlineable (ps : Z) (b : Bucket) : bool :=
  match rootNode b ≫= (fun r => heap b !! r) with
  | None => false
  | Some n => if negb (isLeaf n) then false else inline_loop (ps / 4) (inodes n) pageHeaderSize
  end.

(** [Bucket.free]: every page and node of the tree, in the order of
    [forEachPageNode]. *)
Fixpoint free_from (fuel : nat) t (b : Bucket) (id : Z) {struct fuel} : outcome (Tx S * Bucket) :=
  match fuel with
  | O => Err ErrModelFuel
  | Datatypes.S fuel' =>
      let! (p, n) := pageNode (tx_page t) b id in
      match p, n with
      | Some p, _ =>
          let! fl := Freelist.free (d_freelist (t_db t)) (m_txid (t_meta t)) p in
          let t := tx_with_freelist t fl in
          if negb (Z.land (p_flags p) branchPageFlag =? 0) then
            let! l := read_inodes false p 0 (Z.to_nat (p_count p)) in free_all fuel' t b (ipgid <$> l)
          else Ok (t, b)
      | None, Some r =>
          let! (t, b) := node_free t b r in
          let! n := deref b r in
          if isLeaf n then Ok (t, b) else free_all fuel' t b (ipgid <$> inodes n)
      | None, None => Panic
      end
  end
with free_all (fuel : nat) t (b : Bucket) (l : list Z) {struct fuel} : outcome (Tx S * Bucket) :=
  match fuel with
  | O => Err ErrModelFuel
  | Datatypes.S fuel' =>
      match l with
      | [] => Ok (t, b)
      | id :: l' => let! (t, b) := free_from fuel' t b id in free_all fuel' t b l'
      end
  end.

Definition with_broot (b : Bucket) (r : Z) : Bucket := mkBucket r (sequence b) (bpage b) (rootNode b) (nodes b) (heap b) (nextRef b).
Definition with_bpage (b : Bucket) (p : option page) : Bucket := mkBucket (root b) (sequence b) p (rootNode b) (nodes b) (heap b) (nextRef b).

Definition bucket_free (fuel : nat) t (b : Bucket) : outcome (Tx S * Bucket) :=
  if root b =? 0 then Ok (t, b)
  else
    let! (t, b) := (match bpage b with
                    | Some p => let! fl := Freelist.free (d_freelist (t_db t)) (m_txid (t_meta t)) p in Ok (tx_with_freelist t fl, b)
                    | None => free_from fuel t b (root b)
                    end) in
    Ok (t, with_broot b 0).

(** A key is put into the leaf the cursor stands at. *)
Definition put_at t (b : Bucket) (c : list elemRef) (key value : bytes) (flags : Z) : outcome Bucket :=
  let! (b, r) := cnode (tx_page t) b c in
  let! n := deref b r in
  let! n := put (m_pgid (t_meta t)) n key key value 0 flags in
  Ok (set_node b r n).

(** [Bucket.Put], in a write transaction. *)
Definition bucket_put (fuel : nat) t (b : Bucket) (key value : bytes) : outcome Bucket :=
  if len key =? 0 then Err ErrKeyRequired
  else if MaxValueSize <? len value then Err ErrValueTooLarge
  else
    let key := if MaxKeySize <? len key then take (Z.to_nat MaxKeySize) key else key in
    let! (c, r) := seek (tx_page t) fuel b key in
    if (match r with Some (k, _, f) => bool_decide (key = k) && negb (Z.land f bucketLeafFlag =? 0) | None => false end) then Err ErrIncompatibleValue
    else put_at t b c key value 0.

(** [Bucket.Delete] *)
Definition bucket_delete (fuel : nat) t (b : Bucket) (key : bytes) : outcome Bucket :=
  let! (c, r) := seek (tx_page t) fuel b key in
  match r with
  | Some (k, _, f) =>
      if negb (bool_decide (key = k)) then Ok b
      else if negb (Z.land f bucketLeafFlag =? 0) then Err ErrIncompatibleValue
      else
        let! (b, r) := cnode (tx_page t) b c in
        let! n := deref b r in
        let! n := del n key in
        Ok (set_node b r n)
  | None => if bool_decide (key = []) then let! (b, r) := cnode (tx_page t) b c in let! n := deref b r in let! n := del n key in Ok (set_node b r n) else Ok b
  end.

(** [Bucket.Bucket]: the bucket of a name, opened if need be. *)
Definition bucket_open (fuel : nat) t (x : bucketTree) (name : bytes) : outcome (bucketTree * option Bucket) :=
  let '(BT b subs) := x in
  match sub_find name subs with
  | Some y => Ok (x, Some (bt_bucket y))
  | None =>
      let! (_, r) := seek (tx_page t) fuel b name in
      match r with
      | Some (k, v, f) =>
          if negb (bool_decide (name = k)) || (Z.land f bucketLeafFlag =? 0) then Ok (x, None)
          else let! c := openBucket v in Ok (BT b (subs ++ [(name, BT c [])]), Some c)
      | None => Ok (x, None)
      end
  end.

(** [Bucket.CreateBucket], in a write transaction. *)
Definition empty_bucket : Bucket := mkBucket 0 0 None (Some 0) ∅ {[0 := new_node true None []]} 1.

Definition create_bucket (fuel : nat) t (x : bucketTree) (key : bytes) : outcome (bucketTree * option Bucket) :=
  let '(BT b subs) := x in
  if len key =? 0 then Err ErrBucketNameRequired
  else
    let! (c, r) := seek (tx_page t) fuel b key in
    match r with
    | Some (k, _, f) =>
        if bool_decide (key = k) then if negb (Z.land f bucketLeafFlag =? 0) then Err ErrBucketExists else Err ErrIncompatibleValue
        else
          let! value := bucket_write empty_bucket in
          let! b := put_at t b c key value bucketLeafFlag in
          bucket_open fuel t (BT (with_bpage b None) subs) key
    | None =>
        let! value := bucket_write empty_bucket in
        let! b := put_at t b c key value bucketLeafFlag in
        bucket_open fuel t (BT (with_bpage b None) subs) key
    end.

(** [Bucket.spill]: the buckets in it first, each as a value of its parent, then
    its own nodes. *)
Fixpoint bucket_spill (fuel : nat) t (x : bucketTree) : outcome (Tx S * bucketTree) :=
  match fuel with
  | O => Err ErrModelFuel
  | Datatypes.S fuel' =>
      let '(BT b subs) := x in
      let! (t, b, subs) :=
        (fix go t (b : Bucket) (l : list (bytes * bucketTree)) : outcome (Tx S * Bucket * list (bytes * bucketTree)) :=
           match l with
           | [] => Ok (t, b, [])
           | (name, BT c cs) :: l' =>
               let! (t, y, value) :=
                 (if inlineable (d_pageSize (t_db t)) c then
                    let! (t, c) := bucket_free fuel' t c in let! v := bucket_write c in Ok (t, BT c cs, v)
                  else
                    let! (t, y) := bucket_spill fuel' t (BT c cs) in Ok (t, y, bucket_header (root (bt_bucket y)) (sequence (bt_bucket y)))) in
               match rootNode (bt_bucket y) with
               | None => let! (t, b, l') := go t b l' in Ok (t, b, (name, y) :: l')
               | Some _ =>
                   let! (cur, r) := seek (tx_page t) fuel' b name in
                   match r with
                   | Some (k, _, f) =>
                       if negb (bool_decide (name = k)) then Panic
                       else if Z.land f bucketLeafFlag =? 0 then Panic
                       else let! b := put_at t b cur name value bucketLeafFlag in let! (t, b, l') := go t b l' in Ok (t, b, (name, y) :: l')
                   | None => Panic
                   end
               end
           end) t b subs in
      match rootNode b with
      | None => Ok (t, BT b subs)
      | Some r =>
          let! (t, b) := spill fuel' t b r in
          let! q := root_of fuel' b r in
          let! n := deref b q in
          if m_pgid (t_meta t) <=? npgid n then Panic
          else Ok (t, BT (with_broot (with_rootNode b (Some q)) (npgid n)) subs)
      end
  end.

(** [Bucket.rebalance] *)
Fixpoint bucket_rebalance (fuel : nat) t (x : bucketTree) : outcome (Tx S * bucketTree) :=
  match fuel with
  | O => Err ErrModelFuel
  | Datatypes.S fuel' =>
      let '(BT b subs) := x in
      let! (t, b) := rebalance_nodes fuel' t b (order (nodes b)) in
      let! (t, subs) :=
        (fix go t (l : list (bytes * bucketTree)) : outcome (Tx S * list (bytes * bucketTree)) :=
           match l with
           | [] => Ok (t, [])
           | (name, y) :: l' => let! (t, y) := bucket_rebalance fuel' t y in let! (t, l') := go t l' in Ok (t, (name, y) :: l')
           end) t subs in
      Ok (t, BT b subs)
  end.

(** ** Transactions *)

Context (ToBytes : gset Z -> bytes) (FromBytes : bytes -> option (list Z)) (porder : gmap Z txPending -> list Z).

Definition current_meta d : outcome meta := current (d_file d) (d_pageSize d).

Definition meta_bucket (m : meta) : Bucket := mkBucket (m_root m) (m_sequence m) None None ∅ ∅ 0.

(** [DB.beginRWTx] with [Tx.init]; [o1], [orders] and [o3] are the orders of
    [freePages].  The second result is the pages that have become free. *)
Definition begin_rw d (o1 : list Z) (orders : list (list Z)) (o3 : list Z) : outcome (Tx S * bucketTree * list Z) :=
  if d_readOnly d then Err ErrDatabaseReadOnly
  else if negb (d_opened d) then Err ErrDatabaseNotOpen
  else
    let! m := current_meta d in
    let! (fl, freed) := freePages (d_freelist d) o1 orders o3 (d_txs d) in
    Ok (mkTx (with_freelist d fl) (with_txid m (u64 (m_txid m + 1))) ∅, BT (meta_bucket m) [], freed).

(** [DB.beginTx], and the end of a reader in [removeTx]: the last one takes its
    place. *)
Definition begin_ro d : outcome (DB S * meta * Bucket) :=
  if negb (d_opened d) then Err ErrDatabaseNotOpen
  else let! m := current_meta d in Ok (with_txs d (d_txs d ++ [m_txid m]), m, meta_bucket m).

Definition remove_tx d (i : nat) : DB S := with_txs d (match d_txs d !! i with None => d_txs d | Some _ => swap_out i (d_txs d) end).

(** [DB.grow] *)
Definition grow d (sz : Z) : DB S :=
  if sz <=? d_filesz d then d
  else
    let sz := if d_datasz d <? d_AllocSize d then d_datasz d else sz + d_AllocSize d in
    let f := d_file d in
    let f := if negb (d_NoGrowSync d) && negb (d_readOnly d) then take (Z.to_nat sz) f ++ replicate (Z.to_nat (sz - len f)) 0 else f in
    with_sizes (with_file d f) (d_datasz d) sz.

(** The pages an allocation took out of the free ones are not written as free. *)
Fixpoint drop_run (n : nat) (id : Z) (rb : gset Z) (c : Z) : gset Z * Z :=
  match n with
  | O => (rb, c)
  | Datatypes.S n' => if bool_decide (id ∈ rb) then drop_run n' (id + 1) (rb ∖ {[id]}) (c - 1) else drop_run n' (id + 1) rb c
  end.

Definition commitFreelist t : outcome (Tx S) :=
  let opgid := m_pgid (t_meta t) in
  let '(rb, freeCount) := convertBitmap (d_freelist (t_db t)) (porder (pending (d_freelist (t_db t)))) in
  let rbLen := len (ToBytes rb) in
  let count := (rbLen + freelistBitmapHeaderSize) / d_pageSize (t_db t) + 2 in
  let! (t, p, isFree) := tx_allocate t count in
  let '(rb, freeCount, rbLen) :=
    if isFree : bool then let '(rb, c) := drop_run (Z.to_nat count) (p_id p) rb freeCount in (rb, c, len (ToBytes rb)) else (rb, freeCount, rbLen) in
  let freeCount := if freeCount <? 0 then 0 else freeCount in
  let! p := writeBitmap ToBytes p rb rbLen freeCount in
  let t := with_pages t (<[p_id p := p]> (t_pages t)) in
  let t := with_meta t (with_mfreelist (t_meta t) (p_id p)) in
  Ok (if opgid <? m_pgid (t_meta t) then with_db t (grow (t_db t) ((m_pgid (t_meta t) + 1) * d_pageSize (t_db t))) else t).

(** [Tx.Commit] without the check of the strict mode: the database after it. *)
Definition commit (fuel : nat) t (x : bucketTree) : outcome (DB S) :=
  let! (t, x) := bucket_rebalance fuel t x in
  let! (t, x) := bucket_spill fuel t x in
  let t := with_meta t (with_root (t_meta t) (root (bt_bucket x))) in
  let! t :=
    (if negb (m_freelist (t_meta t) =? pgidNoFreelist) then
       let! p := file_page (d_file (t_db t)) (d_pageSize (t_db t)) (m_freelist (t_meta t)) in
       let! fl := Freelist.free (d_freelist (t_db t)) (m_txid (t_meta t)) p in Ok (tx_with_freelist t fl)
     else Ok t) in
  let! t := (if negb (d_NoFreelistSync (t_db t)) then commitFreelist t else Ok (with_meta t (with_mfreelist (t_meta t) pgidNoFreelist))) in
  let d := t_db t in
  let! f := tx_write (d_pageSize d) (d_file d) (t_pages t) in
  let! (f, _) := write_meta (d_pageSize d) (d_version d) f (t_meta t) in
  Ok (with_file d f).

(** [Tx.Rollback] of a write transaction, and [rollback] after a failed one when
    the free list is in the file. *)
Definition rollback_tx t : outcome (DB S) :=
  let! fl := Freelist.rollback (d_freelist (t_db t)) (m_txid (t_meta t)) in Ok (with_freelist (t_db t) fl).

Definition rollback_failed t : outcome (DB S) :=
  let! d := rollback_tx t in
  let! m := current_meta d in
  let! p := file_page (d_file d) (d_pageSize d) (m_freelist m) in
  let! fl := Freelist.reload FromBytes (d_freelist d) p (m_version m =? versionFreelistBitmap) in
  Ok (with_freelist d fl).

(** [DB.Update] with a function that changes the buckets: an error of it rolls
    the transaction back. *)
Definition update (fuel : nat) d (o1 : list Z) (orders : list (list Z)) (o3 : list Z) (fn : Tx S -> bucketTree -> outcome bucketTree) : outcome (DB S * option error) :=
  let! (t, x, _) := begin_rw d o1 orders o3 in
  match fn t x with
  | Ok x => let! d := commit fuel t x in Ok (d, None)
  | Err e => let! d := rollback_tx t in Ok (d, Some e)
  | Panic => Panic
  end.

End Write.
End BdbTx.
