(* ===== verification/BdbOverlay.v ===== *)
(** The tree of a bucket in a write transaction: pages, of which those on the
    way to what was changed are nodes.

    [ot h] is a tree of height [h] in which every node has its page and, when it
    is loaded, its reference.  [own] ties it to the heap and the pages; what the
    bucket shows is the tree [strip] gives.  Here are turning pages into nodes on
    the way of a cursor, and putting an item into the leaf at its end. *)

From Stdlib Require Import ZArith Lia.
From stdpp Require Import base numbers option sorting list gmap.
From S2P Require Import Prelude Base Iter Freelist FreelistSafe BdbPage BdbCursor BdbTree BdbMeta BdbNode BdbTx.
Import Freelist Bdb BdbCursor BdbTree BdbMeta BdbNode BdbTx.

Module BdbOverlay.

Abbreviation head_t := (page * option Z)%type (only parsing).

Fixpoint ot (h : nat) : Type := match h with O => (head_t * list inode)%type | S h' => (head_t * list (bytes * ot h'))%type end.

Definition hd {h : nat} : ot h -> head_t := match h with O => fst | S _ => fst end.
Definition pag {h} (t : ot h) : page := (hd t).1.
Definition ref {h} (t : ot h) : option Z := (hd t).2.

Fixpoint heads {h : nat} : ot h -> list head_t :=
  match h with O => fun t => [t.1] | S h' => fun t => t.1 :: concat ((fun x => heads (h := h') x.2) <$> t.2) end.

Definition refs {h} (t : ot h) : list Z := omap snd (heads t).
Definition pgs {h} (t : ot h) : list page := (heads t).*1.

Fixpoint strip {h : nat} : ot h -> tr h :=
  match h with O => fun t => (p_id t.1.1, t.2) | S h' => fun t => (p_id t.1.1, (fun x => (x.1, strip (h := h') x.2)) <$> t.2) end.

Definition skid {h} (x : bytes * ot h) : bytes * tr h := (x.1, strip x.2).
Definition kitem {h} (x : bytes * ot h) : inode := kid_item (skid x).
Definition kheads {h} (l : list (bytes * ot h)) : list head_t := concat ((fun x : bytes * ot h => heads x.2) <$> l).
Definition krefs {h} (l : list (bytes * ot h)) : list Z := omap (fun x : bytes * ot h => ref x.2) l.

Section Own.
Context (pg : Z -> outcome page).

(** A page that shows the items, or a node that has them. *)
Definition view (b : Bucket) (x : head_t) (leaf : bool) (l : list inode) (kr : list Z) (par : option Z) (key : option bytes) : Prop :=
  pg (p_id x.1) = Ok x.1 /\
  match x.2 with
  | None => pview x.1 leaf l /\ key = ikey <$> head l /\ kr = []
  | Some r => exists ch, heap b !! r = Some (mkNode leaf false false key (p_id x.1) par ch l) /\ ch ≡ₚ kr
  end.

Fixpoint own (b : Bucket) {h : nat} (par : option Z) (key : option bytes) : ot h -> Prop :=
  match h with
  | O => fun t => view b t.1 true t.2 [] par key
  | S h' => fun t => view b t.1 false (kitem <$> t.2) (krefs t.2) par key /\ Forall (fun x => own b (h := h') t.1.2 (Some x.1) x.2) t.2
  end.

(** The bucket's map of nodes. *)
Definition mapped (b : Bucket) (l : list head_t) : Prop := Forall (fun x => nodes b !! p_id x.1 = x.2) l.

Lemma heads_S {h} (x : head_t) (l : list (bytes * ot h)) : heads (h := S h) (x, l) = x :: kheads l.
Proof. done. Qed.

Lemma heads_hd {h} (t : ot h) : exists l, heads t = hd t :: l.
Proof. destruct h; [by exists []|]. destruct t as [x l]. by exists (kheads l). Qed.

Lemma kheads_app {h} (a c : list (bytes * ot h)) : kheads (a ++ c) = kheads a ++ kheads c.
Proof. unfold kheads. by rewrite fmap_app, concat_app. Qed.

Lemma kheads_cons {h} x (c : list (bytes * ot h)) : kheads (x :: c) = heads x.2 ++ kheads c.
Proof. done. Qed.

Lemma elem_kheads {h} (l : list (bytes * ot h)) y z : y ∈ l -> z ∈ heads y.2 -> z ∈ kheads l.
Proof. intros Hy Hz. apply elem_of_concat. exists (heads y.2). split; [done|]. apply list_elem_of_fmap. by exists y. Qed.

Lemma mapped_app b l k : mapped b (l ++ k) <-> mapped b l /\ mapped b k.
Proof. apply Forall_app. Qed.

Lemma tid_strip {h} (t : ot h) : tid (strip t) = p_id (pag t).
Proof. by destruct h. Qed.

Lemma strip_S {h} (x : head_t) (l : list (bytes * ot h)) : strip (h := S h) (x, l) = (p_id x.1, skid <$> l).
Proof. done. Qed.

Lemma kitem_skid {h} (l : list (bytes * ot h)) : kitem <$> l = kid_item <$> (skid <$> l).
Proof. by rewrite <-list_fmap_compose. Qed.

(** What is owned is what the bucket shows. *)
Lemma own_repr b {h} par key (t : ot h) : root b <> 0 -> own b par key t -> mapped b (heads t) -> repr pg b (strip t).
Proof.
  intros Hroot. assert (Hv : forall x leaf l kr par key, view b x leaf l kr par key -> nodes b !! p_id x.1 = x.2 -> bview pg b (p_id x.1) leaf l).
  { intros [p o] leaf l kr par' key' [Hp Hv] Hm. cbn [fst snd] in *. unfold bview, pageNode. destruct (Z.eqb_spec (root b) 0); [done|]. rewrite Hm. destruct o as [r|].
    - destruct Hv as (ch & Hr & _). exists None, (Some r). split; [done|]. cbn. by eexists.
    - rewrite Hp. cbn [rbind]. exists (Some p), None. split; [done|]. apply Hv. }
  revert par key t. induction h as [|h IH]; intros par key t Ho Hm.
  - cbn in *. eapply Hv; [exact Ho|]. by apply Forall_cons_1 in Hm as [? _].
  - destruct t as [x l]. rewrite heads_S in Hm. cbn [own fst snd] in Ho. destruct Ho as [Hx Hl]. apply Forall_cons_1 in Hm as [Hmx Hm].
    rewrite strip_S. cbn [repr fst snd]. split; [rewrite <-kitem_skid; by eapply Hv|]. apply Forall_fmap. rewrite Forall_forall in *. intros y Hy. cbn.
    apply (IH x.2 (Some y.1)); [by apply Hl|]. unfold mapped in *. rewrite Forall_forall in *. intros z Hz. by apply Hm, (elem_kheads l y).
Qed.

End Own.

(** Ownership looks at its own references and pages only. *)
Lemma own_frame pg pg' b b' {h} par key (t : ot h) :
  own pg b par key t -> (forall r, r ∈ refs t -> heap b' !! r = heap b !! r) -> (forall p, p ∈ pgs t -> pg' (p_id p) = pg (p_id p)) -> own pg' b' par key t.
Proof.
  assert (Hv : forall x leaf l kr par key, view pg b x leaf l kr par key -> (forall r, x.2 = Some r -> heap b' !! r = heap b !! r) -> pg' (p_id x.1) = pg (p_id x.1) ->
    view pg' b' x leaf l kr par key).
  { intros [p o] leaf l kr par' key' [Hp H] Hr Hpg. cbn [fst snd] in *. unfold view. cbn [fst snd]. rewrite Hpg. split; [done|]. destruct o as [r|]; [|done].
    destruct H as (ch & H & Hch). exists ch. by rewrite Hr. }
  revert par key t. induction h as [|h IH]; intros par key t Ho Hr Hp.
  - apply Hv; [exact Ho| |].
    + intros r E. apply Hr. unfold refs. cbn. rewrite E. by left.
    + apply Hp. unfold pgs. cbn. by left.
  - destruct t as [x l]. cbn [own fst snd] in *. destruct Ho as [Hx Hl]. unfold refs, pgs in Hr, Hp. rewrite heads_S in Hr, Hp. split.
    + apply Hv; [done| |].
      * intros r E. apply Hr. cbn. rewrite E. by left.
      * apply Hp. cbn. by left.
    + rewrite Forall_forall in *. intros y Hy. apply IH; [by apply Hl| |].
      * intros r Hin. apply Hr. cbn [omap list_omap]. assert (r ∈ omap snd (kheads l)).
        { unfold refs in Hin. apply list_elem_of_omap in Hin as (z & Hz & Ez). apply list_elem_of_omap. exists z. split; [by apply (elem_kheads l y)|done]. }
        destruct x.2; [by right|done].
      * intros p Hin. apply Hp. cbn [fmap list_fmap]. right. unfold pgs in Hin. apply list_elem_of_fmap in Hin as (z & Ez & Hz). apply list_elem_of_fmap. exists z. split; [done|].
        by apply (elem_kheads l y).
Qed.

(** An unloaded tree has no parent to agree with, and nothing loaded below. *)
Lemma own_par pg b {h} par par' key (t : ot h) : ref t = None -> own pg b par key t -> own pg b par' key t.
Proof. intros E. destruct h; destruct t as [[p o] l]; cbn in E; subst o; by cbn [own fst snd view]. Qed.

Lemma krefs_nil {h} (l : list (bytes * ot h)) : krefs l = [] -> forall y, y ∈ l -> ref y.2 = None.
Proof.
  intros E y Hy. destruct (ref y.2) as [r|] eqn:Er; [|done]. assert (r ∈ krefs l) as Hin by (apply list_elem_of_omap; by exists y). rewrite E in Hin. by apply elem_of_nil in Hin.
Qed.

Lemma omap_concat {A B} (f : A -> option B) (ls : list (list A)) : omap f (concat ls) = concat ((fun l : list A => omap f l) <$> ls).
Proof. induction ls as [|l ls IH]; [done|]. cbn [concat fmap list_fmap]. by rewrite omap_app, IH. Qed.

Lemma unloaded_refs pg b {h} par key (t : ot h) : ref t = None -> own pg b par key t -> refs t = [].
Proof.
  revert par key t. induction h as [|h IH]; intros par key t E Ho; destruct t as [[p o] l]; cbn in E; subst o; [done|].
  cbn [own fst snd view] in Ho. destruct Ho as [(_ & _ & _ & Hk) Hl]. unfold refs. rewrite heads_S. cbn [omap list_omap snd]. unfold kheads. rewrite omap_concat, <-list_fmap_compose.
  assert (Hall : forall y, y ∈ l -> omap snd (heads y.2) = []). { intros y Hy. rewrite Forall_forall in Hl. apply (IH None (Some y.1)); [by apply (krefs_nil l)|by apply Hl]. }
  clear Hk Hl. induction l as [|y l IHl]; [done|]. cbn. rewrite Hall by (by left). apply IHl. intros z Hz. apply Hall. by right.
Qed.

Definition set_ref {h : nat} (o : option Z) : ot h -> ot h := match h with O => fun t => ((t.1.1, o), t.2) | S _ => fun t => ((t.1.1, o), t.2) end.

(** A page becomes a node. *)
Lemma own_load pg b b' {h} (s : ot h) par par' key r : ref s = None -> own pg b par key s ->
  heap b' !! r = Some (mkNode (is_leaf h) false false key (p_id (pag s)) par' [] (items (strip s))) -> own pg b' par' key (set_ref (Some r) s).
Proof.
  intros E Ho Hr. pose proof (unloaded_refs pg b par key s E Ho) as Hn. destruct h; destruct s as [[p o] l]; cbn in E; subst o; cbn [own set_ref fst snd view] in *.
  - destruct Ho as (Hp & _). split; [done|]. by exists [].
  - destruct Ho as [(Hp & _ & _ & Hk) Hl]. split; [split; [done|]; exists []; split; [|by rewrite Hk]; by rewrite Hr, strip_S; cbn [items snd]; rewrite <-kitem_skid|].
    rewrite Forall_forall in *. intros y Hy. apply (own_par pg b' None); [by apply (krefs_nil l)|]. eapply own_frame; [by apply Hl| |done].
    intros k Hin. rewrite (unloaded_refs pg b None (Some y.1) y.2) in Hin; [by apply elem_of_nil in Hin|by apply (krefs_nil l)|by apply Hl].
Qed.

Lemma read_pview n p leaf l : pview p leaf l -> read n p = Ok (mkNode leaf (unbalanced n) (spilled n) (ikey <$> head l) (p_id p) (parent n) (children n) l).
Proof.
  intros [Hl _ Hc _ Hi]. unfold read. rewrite Hl, Hc. replace (Z.to_nat (len l)) with (length l) by (unfold len; lia).
  assert (Hr : forall k i, k = drop i l -> read_inodes leaf p (Z.of_nat i) (length k) = Ok k).
  { intros k. induction k as [|x k IH]; intros i E; [done|]. cbn [length read_inodes]. assert (l !! i = Some x) as Hx by (rewrite <-(Nat.add_0_r i), <-lookup_drop, <-E; done).
    rewrite (Hi _ _ Hx). cbn [rbind]. replace (Z.of_nat i + 1) with (Z.of_nat (S i)) by lia. rewrite IH; [done|]. apply drop_S in Hx. congruence. }
  change 0 with (Z.of_nat 0). by rewrite (Hr l 0%nat eq_refl).
Qed.

(** [Bucket.node] of a page: the new reference, and what changes. *)
Lemma bnode_page pg b {h} (s : ot h) par key q m : bpage b = None -> ref s = None -> own pg b par key s -> nodes b !! p_id (pag s) = None ->
  (match q with Some q => heap b !! q = Some m /\ q < nextRef b | None => True end) ->
  exists b', bnode pg b (p_id (pag s)) q = Ok (b', nextRef b) /\
    heap b' = (let H := <[nextRef b := mkNode (is_leaf h) false false key (p_id (pag s)) q [] (items (strip s))]> (heap b) in
               match q with Some q => <[q := with_children m (children m ++ [nextRef b])]> H | None => H end) /\
    nodes b' = <[p_id (pag s) := nextRef b]> (nodes b) /\ nextRef b' = nextRef b + 1 /\ root b' = root b /\ sequence b' = sequence b /\ bpage b' = None /\
    rootNode b' = match q with Some _ => rootNode b | None => Some (nextRef b) end.
Proof.
  intros Hb E Ho Hn Hq. assert (Hp : pg (p_id (pag s)) = Ok (pag s) /\ pview (pag s) (is_leaf h) (items (strip s)) /\ key = ikey <$> head (items (strip s))).
  { destruct h; destruct s as [[p o] l]; cbn in E; subst o; cbn [own fst snd view] in Ho; [by destruct Ho as (? & ? & ? & _)|].
    destruct Ho as [(? & ? & ? & _) _]. rewrite strip_S. cbn [items snd]. rewrite <-kitem_skid. done. }
  destruct Hp as (Hp & Hv & ->). unfold bnode. rewrite Hn, Hb, Hp. cbn [rbind]. rewrite (read_pview _ _ _ _ Hv). cbn [rbind unbalanced spilled parent children].
  unfold alloc. destruct q as [q|].
  - destruct Hq as [Hq Hlt]. unfold deref. cbn [heap]. rewrite lookup_insert_ne by lia. rewrite Hq. cbn [rbind]. eexists. split; [done|]. done.
  - cbn [rbind]. eexists. split; [done|]. done.
Qed.

(** ** A leaf and the way to it *)

Definition rep {A} (j : nat) (y : A) (l : list A) : list A := take j l ++ y :: drop (S j) l.

Lemma rep_app {A} (a c : list A) x y : rep (length a) y (a ++ x :: c) = a ++ y :: c.
Proof. unfold rep. rewrite take_app_length. f_equal. f_equal. rewrite (cons_middle x a c), app_assoc. apply drop_app_length'. rewrite length_app. cbn. lia. Qed.

Lemma split_lookup {A} (l : list A) j x : l !! j = Some x -> exists a c, l = a ++ x :: c /\ j = length a.
Proof. intros H. exists (take j l), (drop (S j) l). split; [by rewrite take_drop_middle|]. rewrite length_take. apply lookup_lt_Some in H. lia. Qed.

Fixpoint tleaf {h : nat} : tr h -> list nat -> list inode :=
  match h with
  | O => fun t _ => t.2
  | S h' => fun t js => match js with [] => [] | j :: js' => match t.2 !! j with Some x => tleaf (h := h') x.2 js' | None => [] end end
  end.

Fixpoint tupd {h : nat} : tr h -> list nat -> list inode -> tr h :=
  match h with
  | O => fun t _ l => (t.1, l)
  | S h' => fun t js l =>
      match js with [] => t | j :: js' => match t.2 !! j with Some x => (t.1, rep j (x.1, tupd (h := h') x.2 js' l) t.2) | None => t end end
  end.

Fixpoint oupd {h : nat} : ot h -> list nat -> list inode -> ot h :=
  match h with
  | O => fun t _ l => (t.1, l)
  | S h' => fun t js l =>
      match js with [] => t | j :: js' => match t.2 !! j with Some x => (t.1, rep j (x.1, oupd (h := h') x.2 js' l) t.2) | None => t end end
  end.

Fixpoint oref {h : nat} : ot h -> list nat -> option Z :=
  match h with
  | O => fun t _ => t.1.2
  | S h' => fun t js => match js with [] => None | j :: js' => match t.2 !! j with Some x => oref (h := h') x.2 js' | None => None end end
  end.

Lemma tupd_S {h} id (k : list (bytes * tr h)) j js l :
  tupd (h := S h) (id, k) (j :: js) l = match k !! j with Some x => (id, rep j (x.1, tupd x.2 js l) k) | None => (id, k) end.
Proof. done. Qed.

Lemma oupd_S {h} x (k : list (bytes * ot h)) j js l :
  oupd (h := S h) (x, k) (j :: js) l = match k !! j with Some y => (x, rep j (y.1, oupd y.2 js l) k) | None => (x, k) end.
Proof. done. Qed.

Lemma tleaf_S {h} id (k : list (bytes * tr h)) j js : tleaf (h := S h) (id, k) (j :: js) = match k !! j with Some x => tleaf x.2 js | None => [] end.
Proof. done. Qed.

Lemma oref_S {h} x (k : list (bytes * ot h)) j js : oref (h := S h) (x, k) (j :: js) = match k !! j with Some y => oref y.2 js | None => None end.
Proof. done. Qed.

Lemma own_S pg b {h} par key x (k : list (bytes * ot h)) : own pg b par key (h := S h) (x, k) <->
  view pg b x false (kitem <$> k) (krefs k) par key /\ Forall (fun y : bytes * ot h => own pg b x.2 (Some y.1) y.2) k.
Proof. done. Qed.

Lemma strip_oupd {h} (t : ot h) js l : strip (oupd t js l) = tupd (strip t) js l.
Proof.
  revert t js. induction h as [|h IH]; intros t js; [done|]. destruct t as [x k], js as [|j js]; [done|]. rewrite strip_S, tupd_S, oupd_S, list_lookup_fmap.
  destruct (k !! j) as [y|] eqn:Ey; [|done]. cbn [fmap option_fmap option_map]. rewrite strip_S. cbn [fst]. f_equal. unfold rep. rewrite fmap_app, fmap_cons, fmap_take, fmap_drop.
  cbn [skid fst snd]. unfold skid at 2. cbn [fst snd]. by rewrite IH.
Qed.

Lemma hd_oupd {h} (t : ot h) js l : hd (oupd t js l) = hd t.
Proof. destruct h; [done|]. destruct t as [x k], js as [|j js]; [done|]. rewrite oupd_S. by destruct (k !! j). Qed.

Lemma heads_oupd {h} (t : ot h) js l : heads (oupd t js l) = heads t.
Proof.
  revert t js. induction h as [|h IH]; intros t js; [done|]. destruct t as [x k], js as [|j js]; [done|]. rewrite oupd_S. destruct (k !! j) as [y|] eqn:Ey; [|done].
  apply split_lookup in Ey as (a & c & -> & ->). rewrite rep_app, !heads_S. f_equal. rewrite !kheads_app, !kheads_cons. cbn [snd]. by rewrite IH.
Qed.

Lemma oref_refs {h} (t : ot h) js r : oref t js = Some r -> r ∈ refs t.
Proof.
  revert t js. induction h as [|h IH]; intros t js Hr; [unfold refs; cbn in *; rewrite Hr; by left|]. destruct t as [x k], js as [|j js]; [done|]. rewrite oref_S in Hr.
  destruct (k !! j) as [y|] eqn:Ey; [|done]. apply IH in Hr. unfold refs in *. rewrite heads_S. apply list_elem_of_omap in Hr as (z & Hz & Ez). apply list_elem_of_omap.
  exists z. split; [|done]. right. apply (elem_kheads k y); [by eapply list_elem_of_lookup_2|done].
Qed.

Lemma refs_S {h} (x : head_t) (l : list (bytes * ot h)) : refs (h := S h) (x, l) = option_list x.2 ++ omap snd (kheads l).
Proof. unfold refs. rewrite heads_S. cbn. by destruct x.2. Qed.

Lemma kitem_hd {h} k (s s' : ot h) : hd s' = hd s -> kitem (k, s') = kitem (k, s).
Proof. intros E. unfold kitem, kid_item, skid. cbn [fst snd]. rewrite !tid_strip. unfold pag. by rewrite E. Qed.

(** The items of a loaded leaf are changed. *)
Lemma own_set_leaf pg b {h} par key (t : ot h) js r : own pg b par key t -> NoDup (refs t) -> oref t js = Some r ->
  exists n, heap b !! r = Some n /\ isLeaf n = true /\ inodes n = tleaf (strip t) js /\ forall l, own pg (set_node b r (with_inodes n l)) par key (oupd t js l).
Proof.
  revert par key t js. induction h as [|h IH]; intros par key t js Ho Hnd Hr.
  - destruct t as [[p o] l]. cbn in Hr. subst o. destruct Ho as (Hp & ch & Hn & Hch). eexists. split; [exact Hn|]. split; [done|]. split; [done|].
    intros l'. split; [done|]. cbn. exists ch. by rewrite lookup_insert_eq.
  - destruct t as [x k], js as [|j js]; [done|]. rewrite oref_S in Hr. destruct (k !! j) as [[ky s]|] eqn:Ey; [|done]. cbn [snd] in Hr. destruct (proj1 (own_S pg b par key x k) Ho) as [Hx Hl]. clear Ho.
    pose proof (oref_refs _ _ _ Hr) as Hin. rewrite refs_S in Hnd. apply NoDup_app in Hnd as (_ & Hself & Hnd).
    setoid_rewrite oupd_S. rewrite strip_S, tleaf_S, list_lookup_fmap, Ey. cbn [fmap option_fmap option_map skid fst snd].
    apply split_lookup in Ey as (a & c & -> & ->). rewrite kheads_app, kheads_cons in Hnd, Hself. cbn [snd] in Hnd, Hself. rewrite !omap_app in Hnd, Hself.
    apply NoDup_app in Hnd as (_ & Ha & Hnd). apply NoDup_app in Hnd as (Hs & Hc & _). fold (refs s) in Hs, Hc. apply Forall_app in Hl as [Hla Hl]. apply Forall_cons_1 in Hl as [Hls Hlc].
    destruct (IH _ _ s js Hls Hs Hr) as (n & Hn & Hleaf & Hi & Hall). exists n. split; [done|]. split; [done|]. split; [done|]. intros l. rewrite rep_app.
    assert (Hother : forall y par' key', (forall z, z ∈ refs y.2 -> z <> r) -> own pg b par' key' (h := h) y.2 -> own pg (set_node b r (with_inodes n l)) par' key' (h := h) (y : bytes * ot h).2).
    { intros y par' key' Hne Hy. eapply own_frame; [exact Hy| |done]. intros z Hz. cbn. by rewrite lookup_insert_ne by (symmetry; by apply Hne). }
    assert (Hmem : forall (y : bytes * ot h) q z, y ∈ q -> z ∈ refs y.2 -> z ∈ omap snd (kheads q)).
    { intros y q z Hy Hz. unfold refs in Hz. apply list_elem_of_omap in Hz as (w & Hw & Ez). apply list_elem_of_omap. exists w. split; [by apply (elem_kheads q y)|done]. }
    apply own_S. split.
    + destruct Hx as [Hp Hx]. split; [done|]. rewrite !fmap_app, !fmap_cons in *. rewrite (kitem_hd ky s) by apply hd_oupd.
      assert (Hk : krefs (a ++ (ky, oupd s js l) :: c) = krefs (a ++ (ky, s) :: c)) by (unfold krefs; rewrite !omap_app; cbn; unfold ref; by rewrite hd_oupd).
      rewrite Hk. destruct x.2 as [r0|]; [|done]. destruct Hx as (ch & Hr0 & Hch). exists ch. split; [|done]. cbn. rewrite lookup_insert_ne; [done|]. intros <-. apply (Hself r); [by left|].
      rewrite !elem_of_app. right. by left.
    + apply Forall_app. split; [|constructor; [apply Hall|]].
      * rewrite Forall_forall in *. intros y Hy. apply Hother; [|by apply Hla]. intros z Hz ->. apply (Ha r); [by apply (Hmem y)|]. rewrite elem_of_app. by left.
      * rewrite Forall_forall in *. intros y Hy. apply Hother; [|by apply Hlc]. intros z Hz ->. apply (Hc r); [done|]. by apply (Hmem y).
Qed.

(** ** Loading the way to a leaf *)

Lemma elem_krefs_heads {h} (l : list (bytes * ot h)) y z : y ∈ l -> z ∈ refs y.2 -> z ∈ omap snd (kheads l).
Proof.
  intros Hy Hz. unfold refs in Hz. apply list_elem_of_omap in Hz as (w & Hw & Ez). apply list_elem_of_omap. exists w. split; [by apply (elem_kheads l y)|done].
Qed.

Lemma kheads_elem {h} (l : list (bytes * ot h)) w : w ∈ kheads l -> exists y, y ∈ l /\ w ∈ heads y.2.
Proof. intros H. apply elem_of_concat in H as (k & Hw & Hk). apply list_elem_of_fmap_1 in Hk as (y & -> & Hy). eauto. Qed.

Lemma own_refs_heap pg b {h} par key (t : ot h) r : own pg b par key t -> r ∈ refs t -> is_Some (heap b !! r).
Proof.
  revert par key t. induction h as [|h IH]; intros par key t Ho Hr.
  - unfold refs in Hr. cbn in *. destruct t as [[p o] l]. cbn in *. destruct o as [r0|]; [|by apply elem_of_nil in Hr]. apply list_elem_of_singleton in Hr as ->.
    destruct Ho as (_ & ch & Hh & _). eauto.
  - destruct t as [x k]. destruct (proj1 (own_S pg b par key x k) Ho) as [Hx Hl]. rewrite refs_S in Hr. apply elem_of_app in Hr as [Hr|Hr].
    + destruct Hx as [_ Hx]. destruct x.2 as [r0|]; [|by apply elem_of_nil in Hr]. apply list_elem_of_singleton in Hr as ->. destruct Hx as (ch & Hh & _). eauto.
    + apply list_elem_of_omap in Hr as (w & Hw & Ez). apply kheads_elem in Hw as (y & Hy & Hw). rewrite Forall_forall in Hl.
      eapply IH; [by apply Hl|]. apply list_elem_of_omap. eauto.
Qed.

Record loads (b b' : Bucket) {h} (t t' : ot h) : Prop := mkLoads {
  ld_strip : strip t' = strip t;
  ld_pgs : pgs t' = pgs t;
  ld_ref : ref t' = ref t;
  ld_mapped : mapped b' (heads t');
  ld_nodup : NoDup (refs t');
  ld_refs : forall k, k ∈ refs t' -> k ∈ refs t \/ nextRef b <= k;
  ld_below : refs_below b';
  ld_next : nextRef b <= nextRef b';
  ld_heap : forall k, k < nextRef b -> k ∉ refs t -> heap b' !! k = heap b !! k;
  ld_nodes : forall id, id ∉ p_id <$> pgs t -> nodes b' !! id = nodes b !! id;
  ld_same : root b' = root b /\ sequence b' = sequence b /\ bpage b' = bpage b /\ rootNode b' = rootNode b
}.

Lemma loads_refl b {h} (t : ot h) : mapped b (heads t) -> NoDup (refs t) -> refs_below b -> loads b b t t.
Proof. intros Hm Hn Hb. split; try done. by left. Qed.

Lemma loads_trans b1 b2 b3 {h} (t1 t2 t3 : ot h) : loads b1 b2 t1 t2 -> loads b2 b3 t2 t3 -> loads b1 b3 t1 t3.
Proof.
  intros [A1 A2 A3 A4 A5 A6 A7 A8 A9 A10 A11] [B1 B2 B3 B4 B5 B6 B7 B8 B9 B10 B11]. split; try congruence; try done.
  - intros k Hk. destruct (B6 k Hk) as [Hk2|]; [by apply A6|right; lia].
  - lia.
  - intros k Hk Hn. rewrite B9, A9; [done|done|done|lia|]. intros Hin. destruct (A6 k Hin); [done|lia].
  - intros id Hid. rewrite B10, A10; [done|done|]. by rewrite A2.
  - intuition congruence.
Qed.

Section Kid.
Context (pg : Z -> outcome page) {h : nat} (par : option Z) (key : option bytes) (p : page) (r : Z) (a c : list (bytes * ot h)) (ky : bytes).

Abbreviation with_kid s := ((p, Some r), a ++ (ky, s) :: c : list (bytes * ot h)) (only parsing).

Lemma refs_kid (s : ot h) : refs (h := S h) (with_kid s) = r :: omap snd (kheads a) ++ refs s ++ omap snd (kheads c).
Proof. rewrite refs_S, kheads_app, kheads_cons, !omap_app. done. Qed.

Lemma pgs_kid (s : ot h) : pgs (h := S h) (with_kid s) = p :: (kheads a).*1 ++ pgs s ++ (kheads c).*1.
Proof. unfold pgs. rewrite heads_S, kheads_app, kheads_cons. cbn [fmap list_fmap fst snd]. by rewrite !fmap_app. Qed.

(** One child changes, and perhaps its parent's list of children. *)
Lemma change_kid b1 b2 (s1 s2 : ot h) :
  own pg b1 par key (h := S h) (with_kid s1) -> mapped b1 (heads (h := S h) (with_kid s1)) -> NoDup (refs (h := S h) (with_kid s1)) ->
  NoDup (p_id <$> pgs (h := S h) (with_kid s1)) -> refs_below b1 -> own pg b2 (Some r) (Some ky) s2 ->
  strip s2 = strip s1 -> pgs s2 = pgs s1 -> mapped b2 (heads s2) -> NoDup (refs s2) -> (forall k, k ∈ refs s2 -> k ∈ refs s1 \/ nextRef b1 <= k) ->
  refs_below b2 -> nextRef b1 <= nextRef b2 -> (forall k, k < nextRef b1 -> k ∉ refs s1 -> k <> r -> heap b2 !! k = heap b1 !! k) ->
  (forall id, id ∉ p_id <$> pgs s1 -> nodes b2 !! id = nodes b1 !! id) ->
  (root b2 = root b1 /\ sequence b2 = sequence b1 /\ bpage b2 = bpage b1 /\ rootNode b2 = rootNode b1) ->
  view pg b2 (p, Some r) false (kitem <$> (a ++ (ky, s2) :: c)) (krefs (a ++ (ky, s2) :: c)) par key ->
  own pg b2 par key (h := S h) (with_kid s2) /\ loads b1 b2 (h := S h) (with_kid s1) (with_kid s2).
Proof.
  intros Ho Hm Hn Hid Hb Hs B1 B2 B4 B5 B6 B7 B8 B9 B10 B11 Hview. pose proof (own_refs_heap pg b1 par key (h := S h) (with_kid s1)) as Hin. specialize (fun k => Hin k Ho).
  assert (Hlt : forall k, k ∈ refs (h := S h) (with_kid s1) -> k < nextRef b1) by (intros k Hk; destruct (Hin k Hk) as [n Hn']; by eapply Hb).
  destruct (proj1 (own_S pg b1 par key (p, Some r) (a ++ (ky, s1) :: c)) Ho) as [Hx Hl]. clear Ho Hin. cbn [snd] in Hl.
  rewrite refs_kid in Hn, Hlt. rewrite pgs_kid in Hid. rewrite heads_S, kheads_app, kheads_cons in Hm. cbn [snd] in Hm.
  apply Forall_cons_1 in Hm as [Hmp Hm]. apply Forall_app in Hm as [Hma Hm]. apply Forall_app in Hm as [_ Hmc].
  rewrite fmap_cons, !fmap_app in Hid. apply NoDup_cons in Hid as [Hip Hid]. apply NoDup_app in Hid as (_ & Hia & Hid). apply NoDup_app in Hid as (_ & Hic & _).
  apply NoDup_cons in Hn as [Hr Hn]. apply NoDup_app in Hn as (Hna & Ha & Hn). apply NoDup_app in Hn as (Hns & Hc & Hnc).
  assert (Hh : forall k, k ∈ omap snd (kheads a) \/ k ∈ omap snd (kheads c) -> heap b2 !! k = heap b1 !! k).
  { intros k Hk. apply B9; [apply Hlt; rewrite elem_of_cons, !elem_of_app; tauto| |intros ->; apply Hr; rewrite !elem_of_app; tauto]. intros Hks. destruct Hk as [Hk|Hk].
    - apply (Ha k Hk). rewrite elem_of_app. tauto.
    - by apply (Hc k Hks). }
  apply Forall_app in Hl as [Hla Hl]. apply Forall_cons_1 in Hl as [_ Hlc].
  assert (Hkeep : forall w, w ∈ kheads a \/ w ∈ kheads c -> nodes b2 !! p_id w.1 = nodes b1 !! p_id w.1).
  { intros w Hw. apply B10. intros Hin. destruct Hw as [Hw|Hw].
    - apply (Hia (p_id w.1)); [|rewrite elem_of_app; by left]. apply list_elem_of_fmap. exists w.1. split; [done|]. apply list_elem_of_fmap. by exists w.
    - apply (Hic (p_id w.1)); [done|]. apply list_elem_of_fmap. exists w.1. split; [done|]. apply list_elem_of_fmap. by exists w. }
  split.
  - apply own_S. cbn [fst snd]. split.
    + exact Hview.
    + apply Forall_app. split; [|constructor; [exact Hs|]].
      * rewrite Forall_forall in *. intros y Hy. eapply own_frame; [by apply Hla| |done]. intros k Hk. apply Hh. left. by eapply elem_krefs_heads.
      * rewrite Forall_forall in *. intros y Hy. eapply own_frame; [by apply Hlc| |done]. intros k Hk. apply Hh. right. by eapply elem_krefs_heads.
  - split; try done.
    + rewrite !strip_S, !fmap_app, !fmap_cons. do 3 f_equal. unfold skid. cbn [fst snd]. by rewrite B1.
    + rewrite !pgs_kid. by rewrite B2.
    + rewrite heads_S, kheads_app, kheads_cons. cbn [snd]. constructor; [cbn [fst snd]; rewrite B10; [exact Hmp|]|apply Forall_app; split; [|apply Forall_app; split; [exact B4|]]].
      * intros Hin. apply Hip. rewrite !elem_of_app. cbn. tauto.
      * unfold mapped in *. rewrite Forall_forall in *. intros w Hw. rewrite Hkeep by (by left). by apply Hma.
      * unfold mapped in *. rewrite Forall_forall in *. intros w Hw. rewrite Hkeep by (by right). by apply Hmc.
    + rewrite refs_kid. assert (Hnew : forall k, k ∈ refs s2 -> k <> r /\ k ∉ omap snd (kheads a) /\ k ∉ omap snd (kheads c)).
      { intros k Hk. assert (Hd : forall z, z ∈ r :: omap snd (kheads a) ++ omap snd (kheads c) -> z < nextRef b1).
        { intros z Hz. apply Hlt. rewrite elem_of_cons, !elem_of_app in *. tauto. }
        destruct (B6 k Hk) as [Hk1|Hge].
        - split; [intros ->; apply Hr; rewrite !elem_of_app; tauto|]. split; [intros Hk2; apply (Ha k Hk2); rewrite elem_of_app; tauto|by apply Hc].
        - split; [intros ->; specialize (Hd r ltac:(by left)); lia|]. split; intros Hk2; (assert (k < nextRef b1); [|lia]); apply Hd; rewrite elem_of_cons, elem_of_app; tauto. }
      apply NoDup_cons. split; [rewrite !elem_of_app; intros [Hk|[Hk|Hk]]; [apply Hr; rewrite !elem_of_app; tauto|destruct (Hnew r Hk) as [? _]; done|apply Hr; rewrite !elem_of_app; tauto]|].
      apply NoDup_app. split; [done|]. split; [intros k Hk; rewrite elem_of_app; intros [Hk2|Hk2]; [destruct (Hnew k Hk2) as (_ & Hx2 & _); by apply Hx2|apply (Ha k Hk); rewrite elem_of_app; tauto]|].
      apply NoDup_app. split; [done|]. split; [|done]. intros k Hk. by apply Hnew.
    + intros k. rewrite !refs_kid, !elem_of_cons, !elem_of_app. intros [Hk|[Hk|[Hk|Hk]]]; [tauto..| |tauto]. destruct (B6 k Hk); tauto.
    + intros k Hk Hnk. rewrite refs_kid, elem_of_cons, !elem_of_app in Hnk. apply B9; [done|tauto|tauto].
    + intros id Hn'. apply B10. intros Hin. apply Hn'. rewrite pgs_kid, fmap_cons, !fmap_app, elem_of_cons, !elem_of_app. tauto.
Qed.


Lemma loads_kid b1 b2 (s1 s2 : ot h) :
  own pg b1 par key (h := S h) (with_kid s1) -> mapped b1 (heads (h := S h) (with_kid s1)) -> NoDup (refs (h := S h) (with_kid s1)) ->
  NoDup (p_id <$> pgs (h := S h) (with_kid s1)) -> refs_below b1 -> own pg b2 (Some r) (Some ky) s2 -> loads b1 b2 s1 s2 ->
  own pg b2 par key (h := S h) (with_kid s2) /\ loads b1 b2 (h := S h) (with_kid s1) (with_kid s2).
Proof.
  intros Ho Hm Hn Hid Hb Hs [B1 B2 B3 B4 B5 B6 B7 B8 B9 B10 B11]. apply (change_kid b1 b2 s1 s2); try done; [by intros; apply B9|].
  destruct (proj1 (own_S pg b1 par key (p, Some r) (a ++ (ky, s1) :: c)) Ho) as [[Hp (ch & Hr1 & Hch)] _]. split; [done|]. cbn [fst snd] in *. exists ch. split.
  - rewrite B9; [|by eapply Hb|intros Hin; rewrite refs_kid in Hn; apply NoDup_cons in Hn as [Hn _]; apply Hn; rewrite !elem_of_app; tauto].
    rewrite Hr1. do 2 f_equal. rewrite !fmap_app, !fmap_cons. do 2 f_equal. unfold kitem, skid. cbn [fst snd]. by rewrite B1.
  - unfold krefs in *. rewrite omap_app in *. cbn [omap list_omap snd] in *. by rewrite B3.
Qed.

(** [childAt]: the child is loaded, if it was not. *)
Lemma childAt_loads b (s : ot h) : own pg b par key (h := S h) (with_kid s) -> mapped b (heads (h := S h) (with_kid s)) -> NoDup (refs (h := S h) (with_kid s)) ->
  NoDup (p_id <$> pgs (h := S h) (with_kid s)) -> refs_below b -> bpage b = None ->
  exists b1 r1 s1, childAt pg b r (Z.of_nat (length a)) = Ok (b1, r1) /\ ref s1 = Some r1 /\
    own pg b1 par key (h := S h) (with_kid s1) /\ loads b b1 (h := S h) (with_kid s) (with_kid s1).
Proof.
  intros Ho Hm Hn Hid Hb Hbp. destruct (proj1 (own_S pg b par key (p, Some r) (a ++ (ky, s) :: c)) Ho) as [[Hp (ch & Hr & Hch)] Hl]. cbn [fst snd] in *.
  apply Forall_app in Hl as [_ Hl]. apply Forall_cons_1 in Hl as [Hs _]. cbn [fst snd] in Hs.
  assert (Hms : mapped b (heads s)) by (rewrite heads_S, kheads_app, kheads_cons in Hm; apply Forall_cons_1 in Hm as [_ Hm]; apply Forall_app in Hm as [_ Hm]; by apply Forall_app in Hm as [Hm _]).
  destruct (heads_hd s) as [hl Eh]. assert (Hmh : nodes b !! p_id (pag s) = ref s) by (rewrite Eh in Hms; by apply Forall_cons_1 in Hms as [? _]).
  unfold childAt, deref. rewrite Hr. cbn [rbind isLeaf inodes]. destruct (Z.ltb_spec (Z.of_nat (length a)) 0); [lia|].
  rewrite Nat2Z.id, fmap_app, fmap_cons. rewrite <-(length_fmap kitem a), list_lookup_middle by done. unfold kitem at 1, kid_item. cbn [skid fst snd ipgid]. rewrite tid_strip.
  destruct (ref s) as [rs|] eqn:Ers.
  - unfold bnode. rewrite Hmh. exists b, rs, s. split; [done|]. split; [done|]. split; [done|]. by apply loads_refl.
  - destruct (bnode_page pg b s (Some r) (Some ky) (Some r) _ Hbp Ers Hs Hmh (conj Hr (Hb _ _ Hr))) as (b1 & E & Hh & Hnd & Hnx & H1 & H2 & H3 & H4).
    pose proof (Hb _ _ Hr) as Hlt. exists b1, (nextRef b), (set_ref (Some (nextRef b)) s). split; [exact E|]. split; [by destruct h|]. cbn zeta in Hh.
    pose proof (unloaded_refs pg b _ _ s Ers Hs) as Hrs.
    assert (Hset : strip (set_ref (Some (nextRef b)) s) = strip s /\ pgs (set_ref (Some (nextRef b)) s) = pgs s /\ refs (set_ref (Some (nextRef b)) s) = nextRef b :: refs s /\
      heads (set_ref (Some (nextRef b)) s) = (pag s, Some (nextRef b)) :: hl /\ ref (set_ref (Some (nextRef b)) s) = Some (nextRef b)).
    { destruct h; destruct s as [[p' o] l]; cbn in Ers; subst o; cbn in Eh; injection Eh as <-; cbn; repeat split; try done; unfold refs, pgs; cbn; done. }
    destruct Hset as (S1 & S2 & S3 & S4 & S5).
    apply change_kid with (b1 := b); try done.
    + eapply own_load; [done|exact Hs|]. rewrite Hh. rewrite lookup_insert_ne by lia. apply lookup_insert_eq.
    + rewrite S4. constructor; [cbn [fst snd]; rewrite Hnd; apply lookup_insert_eq|]. rewrite Eh in Hms. apply Forall_cons_1 in Hms as [_ Hms]. unfold mapped. rewrite Forall_forall in *.
      intros w Hw. rewrite Hnd, lookup_insert_ne; [by apply Hms|]. intros Ew. rewrite pgs_kid, fmap_cons, !fmap_app in Hid. apply NoDup_cons in Hid as [_ Hid]. apply NoDup_app in Hid as (_ & _ & Hid).
      apply NoDup_app in Hid as (Hid & _ & _). unfold pgs in Hid. rewrite Eh in Hid. rewrite !fmap_cons in Hid. apply NoDup_cons in Hid as [Hid _]. apply Hid. fold (pag s). rewrite Ew.
      apply list_elem_of_fmap. exists w.1. split; [done|]. apply list_elem_of_fmap. by exists w.
    + rewrite S3, Hrs. apply NoDup_singleton.
    + intros k. rewrite S3, Hrs. intros ->%list_elem_of_singleton. right. lia.
    + intros k n. rewrite Hh, Hnx. intros Hk. destruct (decide (k = r)) as [->|]; [lia|]. rewrite lookup_insert_ne in Hk by done. destruct (decide (k = nextRef b)) as [->|]; [lia|].
      rewrite lookup_insert_ne in Hk by done. specialize (Hb _ _ Hk). lia.
    + lia.
    + intros k Hk _ Hkr. rewrite Hh. rewrite !lookup_insert_ne by lia. done.
    + intros id Hni. rewrite Hnd, lookup_insert_ne; [done|]. intros <-. apply Hni. apply list_elem_of_fmap. exists (pag s). split; [done|]. unfold pgs. rewrite Eh. by left.
    + by rewrite Hbp.
    + split; [done|]. cbn [fst snd]. eexists. split.
      * rewrite Hh, lookup_insert_eq. unfold with_children. cbn. do 2 f_equal. rewrite !fmap_app, !fmap_cons. do 2 f_equal. unfold kitem, skid. cbn [fst snd]. by rewrite S1.
      * unfold krefs in *. rewrite omap_app in *. cbn [omap list_omap snd] in *. rewrite S5. rewrite Ers in Hch. rewrite Hch. cbn. solve_Permutation.
Qed.

End Kid.

(** A way that exists. *)
Fixpoint on_tree {h : nat} : tr h -> list nat -> Prop :=
  match h with O => fun _ js => js = [] | S h' => fun t js => exists j js' x, js = j :: js' /\ t.2 !! j = Some x /\ on_tree (h := h') x.2 js' end.

Lemma walk_loads pg {h} (t : ot h) : forall b r par key path js,
  ref t = Some r -> own pg b par key t -> mapped b (heads t) -> NoDup (refs t) -> NoDup (p_id <$> pgs t) -> refs_below b -> bpage b = None ->
  Forall2 (fun e j => index e = Z.of_nat j) path js -> on_tree (strip t) js ->
  exists b' r' t', walk pg b r path = Ok (b', r') /\ oref t' js = Some r' /\ own pg b' par key t' /\ loads b b' t t'.
Proof.
  induction h as [|h IH]; intros b r par key path js Hr Ho Hm Hn Hid Hb Hbp Hpath Hon.
  - cbn in Hon. subst js. apply Forall2_nil_inv_r in Hpath as ->. exists b, r, t. split; [done|]. split; [done|]. split; [done|]. by apply loads_refl.
  - destruct t as [[p o] k]. cbn in Hr. subst o. rewrite strip_S in Hon. destruct Hon as (j & js' & x & -> & Hx & Hon). apply Forall2_cons_inv_r in Hpath as (e & path' & He & Hpath & ->).
    cbn [snd] in Hx. rewrite list_lookup_fmap in Hx. destruct (k !! j) as [[ky s]|] eqn:Ek; [|done]. injection Hx as <-. cbn [skid snd fst] in Hon.
    apply split_lookup in Ek as (a & c & -> & ->).
    destruct (childAt_loads pg par key p r a c ky b s Ho Hm Hn Hid Hb Hbp) as (b1 & r1 & s1 & Ec & Hr1 & Ho1 & L1).
    assert (Hn1 : NoDup (refs (h := S h) ((p, Some r), a ++ (ky, s1) :: c))) by apply L1.
    assert (Hid1 : NoDup (p_id <$> pgs (h := S h) ((p, Some r), a ++ (ky, s1) :: c))) by (by rewrite (ld_pgs _ _ _ _ L1)).
    destruct (proj1 (own_S pg b1 par key (p, Some r) (a ++ (ky, s1) :: c)) Ho1) as [_ Hl1]. apply Forall_app in Hl1 as [_ Hl1]. apply Forall_cons_1 in Hl1 as [Hs1 _]. cbn [fst snd] in Hs1.
    pose proof (ld_strip _ _ _ _ L1) as Est. rewrite !strip_S, !fmap_app, !fmap_cons in Est. injection Est as Es. apply app_inv_head in Es. injection Es as Es. cbn [skid snd] in Es.
    destruct (IH s1 b1 r1 (Some r) (Some ky) path' js') as (b2 & r2 & s2 & Ew & Hr2 & Hs2 & L2).
    + done.
    + done.
    + pose proof (ld_mapped _ _ _ _ L1) as Hm1. rewrite heads_S, kheads_app, kheads_cons in Hm1. apply Forall_cons_1 in Hm1 as [_ Hm1]. apply Forall_app in Hm1 as [_ Hm1]. by apply Forall_app in Hm1 as [Hm1 _].
    + rewrite refs_kid in Hn1. apply NoDup_cons in Hn1 as [_ Hn1]. apply NoDup_app in Hn1 as (_ & _ & Hn1). by apply NoDup_app in Hn1 as (? & _ & _).
    + rewrite pgs_kid, fmap_cons, !fmap_app in Hid1. apply NoDup_cons in Hid1 as [_ Hid1]. apply NoDup_app in Hid1 as (_ & _ & Hid1). by apply NoDup_app in Hid1 as (? & _ & _).
    + apply L1.
    + destruct (ld_same _ _ _ _ L1) as (_ & _ & -> & _). done.
    + done.
    + by rewrite Es.
    + destruct (loads_kid pg par key p r a c ky b1 b2 s1 s2 Ho1 (ld_mapped _ _ _ _ L1) Hn1 Hid1 (ld_below _ _ _ _ L1) Hs2 L2) as [Ho2 L12].
      exists b2, r2, ((p, Some r), a ++ (ky, s2) :: c). split.
      * cbn [walk]. destruct (proj1 (own_S pg b par key (p, Some r) (a ++ (ky, s) :: c)) Ho) as [[_ (ch & Hh & _)] _]. cbn [snd] in Hh. unfold deref. rewrite Hh. cbn [rbind isLeaf].
        rewrite He, Ec. cbn [rbind]. exact Ew.
      * split; [rewrite oref_S, list_lookup_middle by done; exact Hr2|]. split; [done|]. by eapply loads_trans.
Qed.

(** *** The root *)

(** A bucket in a write transaction whose tree is [t]. *)
Record lodged (pg : Z -> outcome page) (b : Bucket) {h} (t : ot h) : Prop := mkLodged {
  lg_own : exists key, key <> Some [] /\ own pg b None key t;
  lg_mapped : mapped b (heads t);
  lg_refs : NoDup (refs t);
  lg_ids : NoDup (p_id <$> pgs t);
  lg_below : refs_below b;
  lg_page : bpage b = None;
  lg_root : root b = p_id (pag t);
  lg_nz : root b <> 0;
  lg_node : rootNode b = ref t
}.

Lemma lodged_repr pg b {h} (t : ot h) : lodged pg b t -> repr pg b (strip t).
Proof. intros [(key & _ & Ho) Hm _ _ _ _ _ Hz _]. by eapply own_repr. Qed.

Lemma load_root pg b {h} (t : ot h) : lodged pg b t -> ref t = None ->
  exists b1 t1, bnode pg b (p_id (pag t)) None = Ok (b1, nextRef b) /\ ref t1 = Some (nextRef b) /\ strip t1 = strip t /\ pgs t1 = pgs t /\ lodged pg b1 t1.
Proof.
  intros [(key & Hky & Ho) Hm Hn Hid Hb Hbp Hr Hz Hrn] E. destruct (heads_hd t) as [hl Eh]. assert (Hmh : nodes b !! p_id (pag t) = None) by (rewrite Eh in Hm; apply Forall_cons_1 in Hm as [Hm _]; by rewrite <-E).
  destruct (bnode_page pg b t None key None (new_node true None []) Hbp E Ho Hmh I) as (b1 & E1 & Hh & Hnd & Hnx & H1 & H2 & H3 & H4). cbn zeta in Hh.
  pose proof (unloaded_refs pg b _ _ t E Ho) as Hrs. exists b1, (set_ref (Some (nextRef b)) t). split; [done|].
  assert (Hset : strip (set_ref (Some (nextRef b)) t) = strip t /\ pgs (set_ref (Some (nextRef b)) t) = pgs t /\ refs (set_ref (Some (nextRef b)) t) = nextRef b :: refs t /\
    heads (set_ref (Some (nextRef b)) t) = (pag t, Some (nextRef b)) :: hl /\ ref (set_ref (Some (nextRef b)) t) = Some (nextRef b) /\ pag (set_ref (Some (nextRef b)) t) = pag t).
  { destruct h; destruct t as [[p' o] l]; cbn in E; subst o; cbn in Eh; injection Eh as <-; cbn; repeat split; try done; unfold refs, pgs; cbn; done. }
  destruct Hset as (S1 & S2 & S3 & S4 & S5 & S6). split; [done|]. split; [done|]. split; [done|]. split; try congruence.
  - exists key. split; [done|]. eapply own_load; [done|exact Ho|]. rewrite Hh. apply lookup_insert_eq.
  - rewrite S4. constructor; [cbn [fst snd]; rewrite Hnd; apply lookup_insert_eq|]. rewrite Eh in Hm. apply Forall_cons_1 in Hm as [_ Hm]. unfold mapped. rewrite Forall_forall in *.
    intros w Hw. rewrite Hnd, lookup_insert_ne; [by apply Hm|]. intros Ew. unfold pgs in Hid. rewrite Eh, !fmap_cons in Hid. apply NoDup_cons in Hid as [Hid _]. apply Hid. fold (pag t). rewrite Ew.
    apply list_elem_of_fmap. exists w.1. split; [done|]. apply list_elem_of_fmap. by exists w.
  - rewrite S3, Hrs. apply NoDup_singleton.
  - intros k n. rewrite Hh, Hnx. intros Hk. destruct (decide (k = nextRef b)) as [->|]; [lia|]. rewrite lookup_insert_ne in Hk by done. specialize (Hb _ _ Hk). lia.
Qed.

End BdbOverlay.
