(* ===== verification/BdbPut.v ===== *)
(** Putting a pair into a bucket ([Bucket.Put], bitree/bdb/bucket.go): the search
    for the leaf, the nodes on the way to it, and the tree afterwards. *)

From Stdlib Require Import ZArith Lia.
From stdpp Require Import base numbers option sorting list gmap.
From S2P Require Import Prelude Base Iter Freelist FreelistSafe BdbPage BdbCursor BdbTree BdbMeta BdbNode BdbTx BdbOverlay.
Import Freelist Bdb BdbCursor BdbTree BdbMeta BdbNode BdbTx BdbOverlay.

Module BdbPut.

(** ** The tree with another leaf *)

Lemma insert_item_below x a c : below (ikey x) a -> insert_item x (a ++ c) = a ++ insert_item x c.
Proof. induction 1 as [|y a Hy _ IH]; [done|]. cbn [app insert_item]. destruct (Z.ltb_spec (cmp (ikey y) (ikey x)) 0); [|lia]. by rewrite IH. Qed.

Lemma insert_item_above x a c : above (ikey x) c -> insert_item x (a ++ c) = insert_item x a ++ c.
Proof.
  intros Hc. induction a as [|y a IH]; cbn [app insert_item].
  - destruct Hc as [|z c Hz _]; [done|]. cbn [insert_item]. apply (cmp_gt_lt cmp) in Hz. bdestruct_all; (done || lia).
  - rewrite IH. by destruct (cmp (ikey y) (ikey x) <? 0), (cmp (ikey y) (ikey x) =? 0).
Qed.

Lemma insert_item_elem x l y : y ∈ insert_item x l -> y = x \/ y ∈ l.
Proof.
  induction l as [|z l IH]; cbn [insert_item]; [intros ->%list_elem_of_singleton; by left|].
  destruct (cmp (ikey z) (ikey x) <? 0); [|destruct (cmp (ikey z) (ikey x) =? 0)]; rewrite ?elem_of_cons; naive_solver.
Qed.

Lemma insert_item_sorted x l : ksorted l -> ksorted (insert_item x l).
Proof.
  intros Hs. destruct (key_cases (ikey x) l Hs) as (a & c & -> & Ha & Hc). apply StronglySorted_app in Hs as (Hac & Hsa & Hsc).
  assert (Hgo : forall c', ksorted c' -> above (ikey x) c' -> (forall y z, y ∈ a -> z ∈ c' -> cmp (ikey y) (ikey z) < 0) -> ksorted (a ++ x :: c')).
  { intros c' Hs' Hc' Hac'. apply StronglySorted_app_2; [|done|by constructor]. unfold below in Ha. rewrite Forall_forall in Ha.
    intros y z Hy [->|Hz]%elem_of_cons; [by apply Ha|by apply Hac']. }
  destruct Hc as [Hc|(y & c' & -> & Hy & Hc)].
  - rewrite insert_item_split by done. by apply Hgo.
  - rewrite (insert_item_replace _ y) by done. apply StronglySorted_inv in Hsc as [Hsc _]. apply Hgo; [done|done|]. intros u z Hu Hz. apply Hac; [done|by right].
Qed.

Lemma insert_item_ne x l : insert_item x l <> [].
Proof. destruct l as [|y l]; [done|]. cbn [insert_item]. by destruct (cmp (ikey y) (ikey x) <? 0), (cmp (ikey y) (ikey x) =? 0). Qed.

(** A key belongs where the way leads. *)
Fixpoint routed {h : nat} (key : bytes) (lo hi : option bytes) : tr h -> list nat -> Prop :=
  match h with
  | O => fun _ js => js = [] /\ in_b lo hi key
  | S h' => fun t js => exists j js' x, js = j :: js' /\ t.2 !! j = Some x /\ in_b lo hi key /\ routed (h := h') key (lo_at lo t.2 j) (hi_at hi t.2 j) x.2 js'
  end.

Lemma routed_S {h} key lo hi id (k : list (bytes * tr h)) js : routed key lo hi (h := S h) (id, k) js <->
  exists j js' x, js = j :: js' /\ k !! j = Some x /\ in_b lo hi key /\ routed key (lo_at lo k j) (hi_at hi k j) x.2 js'.
Proof. done. Qed.

Lemma wf_S {h} lo hi id (k : list (bytes * tr h)) : wf lo hi (h := S h) (id, k) <->
  k <> [] /\ ksorted (kid_item <$> k) /\ Forall (fun x : bytes * tr h => in_b lo hi x.1) k /\ forall j x, k !! j = Some x -> wf (lo_at lo k j) (hi_at hi k j) x.2.
Proof. done. Qed.

Lemma contents_S {h} id (k : list (bytes * tr h)) : contents (h := S h) (id, k) = concat ((fun x : bytes * tr h => contents x.2) <$> k).
Proof. done. Qed.

Lemma full_S {h} id (k : list (bytes * tr h)) : full (h := S h) (id, k) <-> k <> [] /\ Forall (fun x : bytes * tr h => full x.2) k.
Proof. done. Qed.

Lemma routed_on {h} key lo hi (t : tr h) js : routed key lo hi t js -> on_tree t js.
Proof.
  revert lo hi t js. induction h as [|h IH]; intros lo hi t js; [by intros [-> _]|]. intros (j & js' & x & -> & Hx & _ & Hr). exists j, js', x. split; [done|]. split; [done|]. by eapply IH.
Qed.

Lemma tid_tupd {h} (t : tr h) js l : tid (tupd t js l) = tid t.
Proof. destruct h; [done|]. destruct t as [id k], js as [|j js]; [done|]. rewrite tupd_S. by destruct (k !! j). Qed.

Lemma lookup_rep {A} (l : list A) j x y i : l !! j = Some x -> rep j y l !! i = if decide (i = j) then Some y else l !! i.
Proof.
  intros Hx. apply split_lookup in Hx as (a & c & -> & ->). rewrite rep_app. case_decide as E; [subst i; by rewrite list_lookup_middle|].
  destruct (decide (i < length a)%nat); [by rewrite !lookup_app_l by done|]. rewrite !lookup_app_r by lia. destruct (i - length a)%nat eqn:E2; [lia|done].
Qed.

(** The other children are on either side of a key that belongs to one. *)
Lemma routed_kids {h} lo hi key ky s (a c : list (bytes * tr h)) : let k := a ++ (ky, s) :: c in
  ksorted (kid_item <$> k) -> (forall j x, k !! j = Some x -> wf (lo_at lo k j) (hi_at hi k j) x.2) -> in_b (lo_at lo k (length a)) (hi_at hi k (length a)) key ->
  below key (concat ((fun x : bytes * tr h => contents x.2) <$> a)) /\ above key (concat ((fun x : bytes * tr h => contents x.2) <$> c)).
Proof.
  intros k Hs Hk Hbx. assert (Ek : k !! length a = Some (ky, s)) by (unfold k; by rewrite list_lookup_middle).
  split; apply Forall_forall; intros e He; apply elem_of_concat in He as (l & He & Hl); apply list_elem_of_fmap_1 in Hl as (y & -> & Hy); apply list_elem_of_lookup_1 in Hy as [i Hy].
  - pose proof (lookup_lt_Some _ _ _ Hy) as Hlt. assert (Hyk : k !! i = Some y) by (unfold k; by rewrite lookup_app_l).
    pose proof (kid_below lo hi _ i (length a) y (ky, s) e Hs (Hk _ _ Hyk) Hyk Ek Hlt He) as Hlt'. eapply (cmp_lt_le_trans cmp); [exact Hlt'|].
    destruct Hbx as [Hl _]. unfold lo_at in Hl. destruct (length a) as [|n] eqn:En; [lia|]. rewrite Ek in Hl. by apply Hl.
  - assert (Hyk : k !! (S (length a) + i)%nat = Some y).
    { unfold k. rewrite (cons_middle (ky, s) a c), app_assoc, lookup_app_r; rewrite length_app; cbn; [by replace (S (length a + i) - (length a + 1))%nat with i by lia|lia]. }
    pose proof (kid_above lo hi _ _ y e (Hk _ _ Hyk) Hyk ltac:(lia) He) as Hye. destruct Hbx as [_ Hh]. unfold hi_at in Hh.
    destruct (lookup_lt_is_Some_2 k (S (length a))) as [z Hz]; [apply lookup_lt_Some in Hyk; lia|]. rewrite Hz in Hh. specialize (Hh _ eq_refl).
    pose proof (kids_sorted_le _ _ _ z y Hs Hz Hyk ltac:(lia)) as Hzy. eapply (cmp_lt_le_trans cmp); [exact Hh|]. by eapply (cmp_le_trans cmp).
Qed.

Lemma wf_tupd {h} x lo hi (t : tr h) js : wf lo hi t -> routed (ikey x) lo hi t js ->
  wf lo hi (tupd t js (insert_item x (tleaf t js))) /\ contents (tupd t js (insert_item x (tleaf t js))) = insert_item x (contents t).
Proof.
  revert lo hi t js. induction h as [|h IH]; intros lo hi t js Hw Hr.
  - destruct Hw as [Hs Hb], Hr as [-> Hx]. cbn. split; [|done]. split; [by apply insert_item_sorted|]. rewrite Forall_forall in *. intros y [->|Hy]%insert_item_elem; [done|by apply Hb].
  - destruct t as [id k]. destruct (proj1 (routed_S _ _ _ _ _ _) Hr) as (j & js' & [ky s] & -> & Ek & Hkey & Hr'). clear Hr. rename Hr' into Hr. rewrite tupd_S, tleaf_S, Ek. cbn [fst snd].
    destruct (proj1 (wf_S _ _ _ _) Hw) as (Hne & Hs & Hb & Hk). clear Hw. destruct (IH _ _ s js' (Hk _ _ Ek) Hr) as [Hw' Hc']. set (s' := tupd s js' _) in *.
    assert (Hbx : in_b (lo_at lo k j) (hi_at hi k j) (ikey x)). { clear -Hr. destruct h; [by destruct Hr|]. by destruct Hr as (? & ? & ? & _ & _ & ? & _). }
    assert (Hkeys : fst <$> rep j (ky, s') k = fst <$> k). { apply split_lookup in Ek as (a & c & -> & ->). by rewrite rep_app, !fmap_app. }
    assert (Hitems : kid_item <$> rep j (ky, s') k = kid_item <$> k).
    { apply split_lookup in Ek as (a & c & -> & ->). rewrite rep_app, !fmap_app, !fmap_cons. do 2 f_equal. unfold kid_item. cbn [fst snd]. unfold s'. by rewrite tid_tupd. }
    assert (Hlo : forall i, lo_at lo (rep j (ky, s') k) i = lo_at lo k i). { intros [|i]; [done|]. unfold lo_at. by rewrite <-!list_lookup_fmap, Hkeys. }
    assert (Hhi : forall i, hi_at hi (rep j (ky, s') k) i = hi_at hi k i).
    { intros i. unfold hi_at. assert (E : fst <$> rep j (ky, s') k !! S i = fst <$> k !! S i) by (by rewrite <-!list_lookup_fmap, Hkeys).
      destruct (rep j (ky, s') k !! S i), (k !! S i); cbn in E; congruence. }
    split.
    + apply wf_S. split; [unfold rep; by destruct (take j k)|]. rewrite Hitems. split; [done|]. split.
      * apply Forall_lookup. intros i y Hy. rewrite (lookup_rep k j (ky, s)) in Hy by done. rewrite Forall_lookup in Hb. case_decide as E; [|by eapply Hb].
        injection Hy as <-. by apply (Hb j (ky, s)).
      * intros i y Hy. rewrite Hlo, Hhi. rewrite (lookup_rep k j (ky, s)) in Hy by done. case_decide as E; [|by apply Hk]. injection Hy as <-. subst i. exact Hw'.
    + rewrite !contents_S. pose proof Ek as Ek0. apply split_lookup in Ek0 as (a & c & -> & ->). rewrite rep_app, !fmap_app, !fmap_cons, !concat_app. cbn [concat snd]. rewrite Hc'.
      destruct (routed_kids lo hi (ikey x) ky s a c Hs Hk Hbx) as [Ha Hc]. by rewrite insert_item_below, insert_item_above.
Qed.

Lemma full_tupd {h} (t : tr h) js l : l <> [] -> full t -> full (tupd t js l).
Proof.
  intros Hl. revert t js. induction h as [|h IH]; intros t js Hf; [done|]. destruct t as [id k], js as [|j js]; [done|]. rewrite tupd_S. destruct (k !! j) as [[ky s]|] eqn:Ek; [|done].
  destruct (proj1 (full_S _ _) Hf) as [Hne Hf']. clear Hf. rename Hf' into Hf. apply full_S. split; [unfold rep; by destruct (take j k)|]. rewrite Forall_lookup in *. intros i y Hy. rewrite (lookup_rep k j (ky, s)) in Hy by done.
  case_decide; [|by eapply Hf]. injection Hy as <-. cbn. apply IH. by apply (Hf _ _ Ek).
Qed.

(** No key of a branch is empty. *)
Fixpoint keyed {h : nat} : tr h -> Prop := match h with O => fun _ => True | S h' => fun t => Forall (fun x => x.1 <> [] /\ keyed (h := h') x.2) t.2 end.

Lemma keyed_S {h} id (k : list (bytes * tr h)) : keyed (h := S h) (id, k) <-> Forall (fun x : bytes * tr h => x.1 <> [] /\ keyed x.2) k.
Proof. done. Qed.

Lemma keyed_tupd {h} (t : tr h) js l : keyed t -> keyed (tupd t js l).
Proof.
  revert t js. induction h as [|h IH]; intros t js Hf; [done|]. destruct t as [id k], js as [|j js]; [done|]. rewrite tupd_S. destruct (k !! j) as [[ky s]|] eqn:Ek; [|done].
  pose proof (proj1 (keyed_S _ _) Hf) as Hf'. apply keyed_S. rewrite Forall_lookup in *. intros i y Hy. rewrite (lookup_rep k j (ky, s)) in Hy by done.
  case_decide; [|by eapply Hf']. injection Hy as <-. destruct (Hf' _ _ Ek) as [H1 H2]. split; [done|]. by apply IH.
Qed.

(** ** The search *)

Section Search.
Context (pg : Z -> outcome page) (b : Bucket) (key : bytes).

(** The stack of a search, innermost first, and the way it took. *)
Fixpoint tracks {h : nat} : tr h -> list elemRef -> list nat -> Prop :=
  match h with
  | O => fun t cc js => js = [] /\ exists e, cc = [e] /\ rview b e true t.2 /\ pageNode pg b t.1 = Ok (ref_page e, ref_node e) /\ index e = iseek key t.2
  | S h' => fun t cc js => exists cc' e j js' x, cc = cc' ++ [e] /\ js = j :: js' /\ pageNode pg b t.1 = Ok (ref_page e, ref_node e) /\ index e = Z.of_nat j /\
      t.2 !! j = Some x /\ tracks (h := h') x.2 cc' js'
  end.

Lemma tracks_S {h} id (k : list (bytes * tr h)) cc js : tracks (h := S h) (id, k) cc js <->
  exists cc' e j js' x, cc = cc' ++ [e] /\ js = j :: js' /\ pageNode pg b id = Ok (ref_page e, ref_node e) /\ index e = Z.of_nat j /\ k !! j = Some x /\ tracks x.2 cc' js'.
Proof. done. Qed.

Lemma csearch_tracks {h} (t : tr h) lo hi c : repr pg b t -> wf lo hi t -> in_b lo hi key ->
  exists cc js, (forall fuel, (h <= fuel)%nat -> csearch pg fuel b key (tid t) c = Ok (cc ++ c)) /\ tracks t cc js /\ routed key lo hi t js.
Proof.
  revert t lo hi c. induction h as [|h IH]; intros t lo hi c Hr Hw Hb; destruct (repr_view _ _ _ Hr) as (p & n & Ep & Hv);
    pose proof (rview_type b p n _ _ Hv (pageNode_one pg b _ _ _ Ep)) as Ety.
  - destruct Hw as [Hs Hbd]. cbn [items is_leaf] in Hv. exists [with_index (mkRef p n 0) (iseek key t.2)], []. split.
    + intros fuel _. rewrite csearch_eq, Ep. cbn [rbind]. rewrite Ety. cbn [rbind]. cbv zeta. rewrite (rview_isLeaf _ _ _ _ Hv). cbn [rbind]. by rewrite (nsearch_spec b _ _ key Hv Hs).
    + split; [|done]. split; [done|]. eexists. split; [done|]. split; [exact Hv|]. done.
  - destruct t as [id kids]. destruct Hr as [_ Hr]. destruct (proj1 (wf_S _ _ _ _) Hw) as (Hne & Hs & _ & Hk). cbn [items is_leaf snd] in Hv.
    destruct (search_branch_spec b (mkRef p n 0) kids key lo hi Hv Hne Hs Hb) as (j & x & Esb & Hx & Hbx). rewrite Forall_lookup in Hr.
    set (e := with_index (mkRef p n 0) (Z.of_nat j)) in *.
    destruct (IH x.2 _ _ (e :: c) (Hr _ _ Hx) (Hk _ _ Hx) Hbx) as (cc & js & E1 & Ht & Hro). exists (cc ++ [e]), (j :: js). split; [|split].
    + intros [|fuel] Hfu; [lia|]. rewrite csearch_eq, Ep. cbn [rbind]. rewrite Ety. cbn [rbind]. cbv zeta. rewrite (rview_isLeaf _ _ _ _ Hv). cbn [rbind]. rewrite Esb. cbn [rbind].
      destruct (rview_child b e (kid_item <$> kids) j (kid_item x)) as [_ ->]; [done|done|by apply kid_lookup|]. cbn [rbind kid_item ipgid]. rewrite <-app_assoc. apply E1. lia.
    + apply tracks_S. exists cc, e, j, js, x. split; [done|]. split; [done|]. split; [exact Ep|]. done.
    + apply routed_S. exists j, js, x. done.
Qed.

(** The innermost position is in the leaf. *)
Lemma tracks_leaf {h} (t : tr h) cc js : tracks t cc js -> exists e c, cc = e :: c /\ rview b e true (tleaf t js) /\ index e = iseek key (tleaf t js).
Proof.
  revert t cc js. induction h as [|h IH]; intros t cc js Ht.
  - destruct Ht as (-> & e & -> & Hv & _ & Hi). by exists e, [].
  - destruct t as [id k]. destruct (proj1 (tracks_S _ _ _ _) Ht) as (cc' & e & j & js' & x & -> & -> & _ & _ & Hx & Ht'). destruct (IH _ _ _ Ht') as (e' & c & -> & Hv & Hi).
    exists e', (c ++ [e]). rewrite tleaf_S, Hx. done.
Qed.

(** The outermost one is at the root. *)
Lemma tracks_root {h} (t : tr h) cc js : tracks t cc js -> exists e c, reverse cc = e :: c /\ pageNode pg b (tid t) = Ok (ref_page e, ref_node e).
Proof.
  destruct h as [|h].
  - intros (_ & e & -> & _ & Hp & _). by exists e, [].
  - destruct t as [id k]. intros (cc' & e & j & js' & x & -> & _ & Hp & _)%tracks_S. exists e, (reverse cc'). by rewrite reverse_snoc.
Qed.

Lemma tracks_path {h} (t : tr h) cc js : tracks t cc js -> Forall2 (fun e j => index e = Z.of_nat j) (reverse (tail cc)) js.
Proof.
  revert t cc js. induction h as [|h IH]; intros t cc js Ht.
  - destruct Ht as (-> & e & -> & _). constructor.
  - destruct t as [id k]. destruct (proj1 (tracks_S _ _ _ _) Ht) as (cc' & e & j & js' & x & -> & -> & _ & Hi & Hx & Ht'). destruct (tracks_leaf _ _ _ Ht') as (e' & c & -> & _).
    cbn [app tail]. rewrite reverse_snoc. constructor; [done|]. by apply (IH _ _ _ Ht').
Qed.

End Search.

Lemma tracks_ref pg b key {h} (t : ot h) cc js : root b <> 0 -> mapped b (heads t) -> tracks pg b key (strip t) cc js -> exists e c, cc = e :: c /\ ref_node e = oref t js.
Proof.
  intros Hz. revert t cc js. induction h as [|h IH]; intros t cc js Hm Ht.
  - destruct t as [[p o] l]. destruct Ht as (-> & e & -> & _ & Hp & _). exists e, []. split; [done|]. cbn in *. apply Forall_cons_1 in Hm as [Hm _]. cbn in Hm. unfold pageNode in Hp.
    destruct (Z.eqb_spec (root b) 0); [done|]. rewrite Hm in Hp. destruct o as [r|]; [by injection Hp as _ <-|]. apply rbind_Ok in Hp as (q & _ & [= _ <-]). done.
  - destruct t as [x k]. rewrite strip_S in Ht. destruct (proj1 (tracks_S _ _ _ _ _ _ _) Ht) as (cc' & e & j & js' & y & -> & -> & _ & _ & Hx & Ht').
    rewrite list_lookup_fmap in Hx. destruct (k !! j) as [[ky s]|] eqn:Ek; [|done]. injection Hx as <-. cbn [skid snd] in Ht'. rewrite oref_S, Ek. cbn [snd].
    rewrite heads_S in Hm. apply Forall_cons_1 in Hm as [_ Hm]. destruct (IH s cc' js') as (e' & c & -> & Hr); [|done|by exists e', (c ++ [e])].
    unfold mapped in *. rewrite Forall_forall in *. intros w Hw. apply Hm. apply (elem_kheads k (ky, s)); [by eapply list_elem_of_lookup_2|done].
Qed.

(** [Cursor.node]: the way to the leaf is loaded. *)
Lemma cnode_loads pg b key {h} (t : ot h) cc js : lodged pg b t -> tracks pg b key (strip t) cc js -> on_tree (strip t) js ->
  exists b' r' t', cnode pg b cc = Ok (b', r') /\ oref t' js = Some r' /\ lodged pg b' t' /\ strip t' = strip t /\ pgs t' = pgs t.
Proof.
  intros Hlg Ht Hon. pose proof Hlg as [(key' & _ & Ho) Hm Hn Hid Hb Hbp Hr Hz Hrn]. destruct (tracks_leaf pg b key _ _ _ Ht) as (e & c & Ecc & Hv & _).
  destruct (tracks_ref pg b key t cc js Hz Hm Ht) as (e' & c' & Ecc' & Hre). rewrite Ecc in Ecc'. injection Ecc' as <- <-.
  destruct (tracks_root pg b key _ _ _ Ht) as (e0 & c0 & Erev & Hp0). pose proof (tracks_path pg b key _ _ _ Ht) as Hpath. unfold cnode. assert (Htop : top cc = Ok e) by (by rewrite Ecc). rewrite Htop. cbn [rbind].
  rewrite (rview_isLeaf _ _ _ _ Hv). cbn [rbind]. rewrite Hre. destruct (oref t js) as [r|] eqn:Er; [by exists b, r, t|]. rewrite Erev.
  assert (Hgo : forall b1 r1 (t1 : ot h), lodged pg b1 t1 -> ref t1 = Some r1 -> strip t1 = strip t -> pgs t1 = pgs t ->
    exists b' r' t', (let! (b, r) := walk pg b1 r1 (reverse (tail cc)) in let! n := deref b r in if isLeaf n then Ok (b, r) else Panic) = Ok (b', r') /\
      oref t' js = Some r' /\ lodged pg b' t' /\ strip t' = strip t /\ pgs t' = pgs t).
  { intros b1 r1 t1 [(k1 & Hk1 & Ho1) Hm1 Hn1 Hid1 Hb1 Hbp1 Hr1 Hz1 Hrn1] Hrt Hst Hpg.
    destruct (walk_loads pg t1 b1 r1 None k1 (reverse (tail cc)) js Hrt Ho1 Hm1 Hn1 Hid1 Hb1 Hbp1 Hpath ltac:(by rewrite Hst)) as (b2 & r2 & t2 & -> & Hr2 & Ho2 & L).
    cbn [rbind]. destruct (own_set_leaf pg b2 None k1 t2 js r2 Ho2 (ld_nodup _ _ _ _ L) Hr2) as (n & Hn2 & Hleaf & _). unfold deref. rewrite Hn2. cbn [rbind]. rewrite Hleaf.
    exists b2, r2, t2. split; [done|]. split; [done|]. split; [|by rewrite (ld_strip _ _ _ _ L), (ld_pgs _ _ _ _ L)].
    destruct (ld_same _ _ _ _ L) as (S1 & S2 & S3 & S4). assert (Hpag : p_id (pag t2) = p_id (pag t1)) by (rewrite <-!tid_strip; by rewrite (ld_strip _ _ _ _ L)).
    split; [by exists k1|apply L|apply L|by rewrite (ld_pgs _ _ _ _ L)|apply L|congruence|congruence|congruence|]. rewrite S4, (ld_ref _ _ _ _ L). done. }
  rewrite tid_strip in Hp0. unfold pageNode in Hp0. destruct (Z.eqb_spec (root b) 0); [done|]. destruct (heads_hd t) as [hl Eh].
  assert (Hmh : nodes b !! p_id (pag t) = ref t) by (rewrite Eh in Hm; by apply Forall_cons_1 in Hm as [? _]). rewrite Hmh in Hp0. destruct (ref t) as [r0|] eqn:Ert.
  - injection Hp0 as <- <-. cbn [rbind]. by apply (Hgo b r0 t).
  - apply rbind_Ok in Hp0 as (p & Hp & [= <- <-]).
    assert (Epag : p = pag t). { clear -Ho Hp. destruct h; [destruct Ho as [Ho _]|destruct t as [x k]; destruct Ho as [[Ho _] _]]; unfold pag, hd in *; cbn in *; congruence. }
    subst p. destruct (load_root pg b t Hlg Ert) as (b1 & t1 & -> & Hr1 & Hs1 & Hp1 & Hl1). cbn [rbind]. by apply (Hgo b1 _ t1).
Qed.

Lemma tleaf_contents {h} (t : tr h) js x : x ∈ tleaf t js -> x ∈ contents t.
Proof.
  revert t js. induction h as [|h IH]; intros t js; [done|]. destruct t as [id k], js as [|j js]; [by intros ?%elem_of_nil|]. rewrite tleaf_S. destruct (k !! j) as [y|] eqn:Ey; [|by intros ?%elem_of_nil].
  intros Hx%IH. rewrite contents_S. apply elem_of_concat. exists (contents y.2). split; [done|]. apply list_elem_of_fmap. exists y. split; [done|]. by eapply list_elem_of_lookup_2.
Qed.

Lemma wf_tleaf {h} lo hi (t : tr h) js : wf lo hi t -> on_tree t js -> ksorted (tleaf t js).
Proof.
  revert lo hi t js. induction h as [|h IH]; intros lo hi t js Hw Hon; [apply Hw|]. destruct t as [id k]. destruct Hon as (j & js' & x & -> & Hx & Hon).
  destruct (proj1 (wf_S _ _ _ _) Hw) as (_ & _ & _ & Hk). rewrite tleaf_S. change (k !! j = Some x) in Hx. rewrite Hx. by eapply IH; [apply (Hk _ _ Hx)|].
Qed.

Lemma oref_loaded pg b {h} par key (t : ot h) js r : own pg b par key t -> oref t js = Some r -> ref t <> None.
Proof. intros Ho Hr E. apply oref_refs in Hr. rewrite (unloaded_refs pg b par key t E Ho) in Hr. by apply elem_of_nil in Hr. Qed.

(** ** Looking a key up *)

Definition find_item (k : bytes) (l : list inode) : option inode := head (filter (fun x => ikey x = k) l).

Lemma filter_no_key k l : Forall (fun x => ikey x <> k) l -> filter (fun x => ikey x = k) l = [].
Proof. induction 1 as [|x l Hx _ IH]; [done|]. by rewrite filter_cons_False. Qed.

Lemma find_below k a c : below k a -> find_item k (a ++ c) = find_item k c.
Proof. intros H. unfold find_item. rewrite filter_app, filter_no_key by (by apply below_ne). done. Qed.

Lemma find_above k a c : above k c -> find_item k (a ++ c) = find_item k a.
Proof. intros H. unfold find_item. rewrite filter_app, (filter_no_key _ c) by (by apply above_ne). by rewrite app_nil_r. Qed.

Lemma find_insert k x l : ksorted l -> find_item k (insert_item x l) = if decide (k = ikey x) then Some x else find_item k l.
Proof.
  intros Hs. destruct (key_cases (ikey x) l Hs) as (a & c & -> & Ha & Hc). case_decide as E.
  - subst k. destruct Hc as [Hc|(y & c' & -> & Hy & Hc)]; [rewrite insert_item_split by done|rewrite (insert_item_replace _ y) by done];
      rewrite find_below by done; unfold find_item; by rewrite filter_cons_True.
  - unfold find_item. destruct Hc as [Hc|(y & c' & -> & Hy & Hc)]; [rewrite insert_item_split by done|rewrite (insert_item_replace _ y) by done];
      rewrite !filter_app, !filter_cons_False by congruence; done.
Qed.

(** The key is in the leaf the search ends at, or nowhere. *)
Lemma routed_find {h} key lo hi (t : tr h) js : wf lo hi t -> routed key lo hi t js -> find_item key (contents t) = find_item key (tleaf t js).
Proof.
  revert lo hi t js. induction h as [|h IH]; intros lo hi t js Hw Hr; [done|]. destruct t as [id k].
  destruct (proj1 (routed_S _ _ _ _ _ _) Hr) as (j & js' & [ky s] & -> & Ek & _ & Hr'). destruct (proj1 (wf_S _ _ _ _) Hw) as (_ & Hs & _ & Hk).
  rewrite contents_S, tleaf_S, Ek. cbn [snd]. rewrite <-(IH _ _ s js' (Hk _ _ Ek) Hr').
  assert (Hbx : in_b (lo_at lo k j) (hi_at hi k j) key). { clear -Hr'. destruct h; [by destruct Hr'|]. by destruct Hr' as (? & ? & ? & _ & _ & ? & _). }
  apply split_lookup in Ek as (a & c & -> & ->). destruct (routed_kids lo hi key ky s a c Hs Hk Hbx) as [Ha Hc].
  rewrite fmap_app, fmap_cons, concat_app. cbn [concat snd]. by rewrite find_below, find_above.
Qed.

Lemma find_iseek key l : ksorted l -> (match lookupZ l (iseek key l) with Some x => if decide (key = ikey x) then Some x else None | None => None end) = find_item key l.
Proof.
  intros Hs. destruct (key_cases key l Hs) as (a & c & -> & Ha & Hc). rewrite find_below by done.
  assert (Hge : Forall (fun y => 0 <= cmp (ikey y) key) c).
  { destruct Hc as [Hc|(x & c' & -> & Hx & Hc)]; [by apply above_ge|]. constructor; [rewrite Hx, (cmp_refl cmp); lia|by apply above_ge]. }
  rewrite iseek_split by done. unfold lookupZ. pose proof (len_nonneg a). destruct (Z.ltb_spec (len a) 0); [lia|].
  rewrite lookup_app_r by (unfold len; lia). replace (Z.to_nat (len a) - length a)%nat with 0%nat by (unfold len; lia).
  destruct Hc as [Hc|(x & c' & -> & Hx & Hc)].
  - unfold find_item. rewrite (filter_no_key key c) by (by apply above_ne). destruct c as [|y c]; [done|]. cbn. apply above_ne in Hc. apply Forall_cons_1 in Hc as [Hy _]. by rewrite decide_False.
  - cbn. rewrite decide_True by done. unfold find_item. by rewrite filter_cons_True.
Qed.

Lemma bGet_spec pg b {h} (t : tr h) fuel key : repr pg b t -> root b = tid t -> wf None None t -> Forall (fun x => iflags x = 0) (contents t) -> (h <= fuel)%nat ->
  bGet pg fuel b key = Ok (ivalue <$> find_item key (contents t)).
Proof.
  intros Hrep Hroot Hw Hpl Hfu. assert (Hb : in_b None None key) by (split; [by intros a [=]|by intros a [=]]).
  destruct (csearch_tracks pg b key t None None [] Hrep Hw Hb) as (cc & js & Es & Ht & Hro). specialize (Es fuel Hfu). rewrite app_nil_r in Es.
  pose proof (wf_tleaf _ _ _ _ Hw (routed_on _ _ _ _ _ Hro)) as Hsl. rewrite (routed_find key None None t js Hw Hro), <-find_iseek by done.
  unfold bGet, seek. rewrite Hroot, Es. cbn [rbind]. destruct (tracks_leaf _ _ _ _ _ _ Ht) as (e & c & -> & Hv & Hi). pose proof (iseek_range key (tleaf t js)).
  rewrite (rview_kv b e c _ Hv) by lia. rewrite Hi. cbn [rbind]. f_equal. destruct (lookupZ (tleaf t js) (iseek key (tleaf t js))) as [x|] eqn:El; [|done]. cbn.
  assert (Hx : iflags x = 0).
  { rewrite Forall_forall in Hpl. apply Hpl, (tleaf_contents _ js). unfold lookupZ in El. destruct (_ <? 0); [done|]. by eapply list_elem_of_lookup_2. }
  rewrite Hx. cbn. by case_decide.
Qed.

Section Put.
Context {S : Type} (t : Tx S).

(** The pairs of a bucket that holds no buckets. *)
Definition plain (l : list inode) : Prop := Forall (fun x => iflags x = 0) l.

(** What putting an item into the tree of a bucket leaves. *)
Record put_done {h} (b b' : Bucket) (o o' : ot h) (x : inode) : Prop := mkPutDone {
  pd_lodged : lodged (tx_page t) b' o';
  pd_wf : wf None None (strip o');
  pd_contents : contents (strip o') = insert_item x (contents (strip o));
  pd_pgs : pgs o' = pgs o;
  pd_full : full (strip o) \/ h = 0%nat -> full (strip o');
  pd_keyed : keyed (strip o) -> keyed (strip o');
  pd_loaded : ref o' <> None
}.

(** The search for a key, and putting an item there. *)
Lemma seek_put b {h} (o : ot h) key value flags : lodged (tx_page t) b o -> wf None None (strip o) -> key <> [] -> 0 < m_pgid (t_meta t) ->
  exists cc y, (forall fuel, (h <= fuel)%nat -> seek (tx_page t) fuel b key = Ok (cc, item_of <$> y)) /\ (forall x, y = Some x -> x ∈ contents (strip o)) /\
    (match y with Some x => if decide (key = ikey x) then Some x else None | None => None end) = find_item key (contents (strip o)) /\
    exists b' (o' : ot h), put_at t b cc key value flags = Ok b' /\ put_done b b' o o' (mkInode flags 0 key value).
Proof.
  intros Hlg Hw Hk Hpg. pose proof (lodged_repr _ _ _ Hlg) as Hrep. assert (Hb : in_b None None key) by (split; [by intros a [=]|by intros a [=]]).
  destruct (csearch_tracks (tx_page t) b key (strip o) None None [] Hrep Hw Hb) as (cc & js & Es & Ht & Hro). pose proof (routed_on _ _ _ _ _ Hro) as Hon.
  pose proof (wf_tleaf _ _ _ _ Hw Hon) as Hsl. destruct (tracks_leaf _ _ _ _ _ _ Ht) as (e & c & Ecc & Hv & Hi).
  exists cc, (lookupZ (tleaf (strip o) js) (index e)). split; [|split; [|split]].
  - intros fuel Hfu. unfold seek. rewrite (lg_root _ _ _ Hlg), <-tid_strip, Es by done. cbn [rbind]. rewrite app_nil_r, Ecc. pose proof (iseek_range key (tleaf (strip o) js)). rewrite (rview_kv b e c _ Hv) by lia. done.
  - intros x El. apply (tleaf_contents _ js). unfold lookupZ in El. destruct (index e <? 0); [done|]. by eapply list_elem_of_lookup_2.
  - rewrite Hi, find_iseek by done. symmetry. by apply (routed_find key None None).
  - unfold put_at. destruct (cnode_loads (tx_page t) b key o cc js Hlg Ht Hon) as (b1 & r1 & o1 & -> & Hr1 & Hlg1 & Hs1 & Hp1). cbn [rbind].
    destruct Hlg1 as [(k1 & Hk1 & Ho1) Hm1 Hn1 Hid1 Hb1 Hbp1 Hrt1 Hz1 Hrn1]. destruct (own_set_leaf _ _ _ _ _ _ _ Ho1 Hn1 Hr1) as (nd & Hn & _ & Hin & Hset). rewrite Hs1 in Hin.
    unfold deref. rewrite Hn. cbn [rbind]. rewrite put_leaf by (rewrite ?Hin; done). cbn [rbind]. rewrite Hin.
    set (x := mkInode flags 0 key value). set (l := insert_item x (tleaf (strip o) js)). destruct (wf_tupd x None None (strip o) js Hw Hro) as [Hw' Hc']. fold l in Hw', Hc'.
    eexists _, (oupd o1 js l). split; [done|]. assert (Hst : strip (oupd o1 js l) = tupd (strip o) js l) by (by rewrite strip_oupd, Hs1). split; rewrite ?Hst; [|done|done|by unfold pgs in *; rewrite heads_oupd| | |].
    + assert (Hpag : pag (oupd o1 js l) = pag o1) by (unfold pag; by rewrite hd_oupd). split; cbn [set_node with_heap root bpage rootNode nodes heap nextRef]; unfold refs, pgs in *; rewrite ?heads_oupd, ?Hpag; try done.
      * exists k1. split; [done|]. apply Hset.
      * intros k m Hkm. destruct (decide (k = r1)) as [->|]; [by eapply Hb1|]. cbn in Hkm. rewrite lookup_insert_ne in Hkm by done. by eapply Hb1.
      * rewrite Hrn1. unfold ref. by rewrite hd_oupd.
    + intros [Hf|Hh]; [by apply full_tupd; [apply insert_item_ne|]|]. clear -Hh. subst h. cbn. apply insert_item_ne.
    + apply keyed_tupd.
    + unfold ref. rewrite hd_oupd. fold (ref o1). by eapply oref_loaded.
Qed.

Lemma bucket_put_ok b {h} (o : ot h) key value fuel : lodged (tx_page t) b o -> wf None None (strip o) -> plain (contents (strip o)) ->
  key <> [] -> len key <= MaxKeySize -> len value <= MaxValueSize -> 0 < m_pgid (t_meta t) -> (h <= fuel)%nat ->
  exists b' (o' : ot h), bucket_put fuel t b key value = Ok b' /\ put_done b b' o o' (mkInode 0 0 key value).
Proof.
  intros Hlg Hw Hpl Hk Hlk Hlv Hpg Hfu. unfold bucket_put. pose proof (len_pos key Hk). destruct (Z.eqb_spec (len key) 0); [lia|]. destruct (Z.ltb_spec MaxValueSize (len value)); [lia|].
  destruct (Z.ltb_spec MaxKeySize (len key)); [lia|]. destruct (seek_put b o key value 0 Hlg Hw Hk Hpg) as (cc & y & Es & Hin & _ & b' & o' & Ep & Hd). rewrite Es by done. cbn [rbind].
  exists b', o'. split; [|done]. destruct y as [x|]; [|exact Ep]. cbn. unfold plain in Hpl. rewrite Forall_forall in Hpl. rewrite (Hpl x (Hin x eq_refl)), andb_false_r. exact Ep.
Qed.

End Put.

(** ** Nodes that need no rebalancing *)

(** Every node the bucket knows is there, and nothing was deleted from it. *)
Definition calm (b : Bucket) : Prop := (forall r n, heap b !! r = Some n -> unbalanced n = false) /\ (forall id r, nodes b !! id = Some r -> is_Some (heap b !! r)).

Lemma calm_set b r n m : calm b -> heap b !! r = Some n -> unbalanced m = unbalanced n -> calm (set_node b r m).
Proof.
  intros [H1 H2] Hn Hu. split; cbn.
  - intros k x Hx. destruct (decide (k = r)) as [->|K]; [rewrite lookup_insert_eq in Hx; injection Hx as <-; rewrite Hu; by eapply H1|]. rewrite lookup_insert_ne in Hx by done. by eapply H1.
  - intros id k Hk. destruct (decide (k = r)) as [->|K]; [rewrite lookup_insert_eq; eauto|]. rewrite lookup_insert_ne by done. by eapply H2.
Qed.

Lemma read_calm n p m : read n p = Ok m -> unbalanced m = unbalanced n.
Proof. unfold read. intros (l & _ & H)%rbind_Ok. by injection H as <-. Qed.

Lemma bnode_calm pg b id par b' r : bnode pg b id par = Ok (b', r) -> calm b -> calm b'.
Proof.
  intros H Hc. unfold bnode in H. destruct (nodes b !! id) as [r0|]; [by injection H as <- _|]. apply rbind_Ok in H as (p & _ & H). apply rbind_Ok in H as (n & Hn & H).
  cbn [alloc] in H. apply read_calm in Hn. cbn in Hn.
  assert (Hc1 : calm (mkBucket (root b) (sequence b) (bpage b) (rootNode b) (nodes b) (<[nextRef b := n]> (heap b)) (nextRef b + 1))).
  { destruct Hc as [H1 H2]. split; cbn.
    - intros k x Hx. destruct (decide (k = nextRef b)) as [->|K]; [rewrite lookup_insert_eq in Hx; by injection Hx as <-|]. rewrite lookup_insert_ne in Hx by done. by eapply H1.
    - intros i k Hk. destruct (decide (k = nextRef b)) as [->|K]; [rewrite lookup_insert_eq; eauto|]. rewrite lookup_insert_ne by done. by eapply H2. }
  assert (Hend : forall b1, calm b1 -> is_Some (heap b1 !! nextRef b) -> calm (with_nodes b1 (<[id := nextRef b]> (nodes b1)))).
  { intros b1 [H1 H2] Hs. split; [exact H1|]. cbn. intros i k Hk. destruct (decide (i = id)) as [->|K]; [rewrite lookup_insert_eq in Hk; by injection Hk as <-|]. rewrite lookup_insert_ne in Hk by done. by eapply H2. }
  destruct par as [q|]; cbn [rbind] in H.
  - apply rbind_Ok in H as (b1 & H1 & H). apply rbind_Ok in H1 as (m & Hm & [= <-]). injection H as <- _. unfold deref in Hm. destruct (heap _ !! q) as [m'|] eqn:Eq; [|done]. injection Hm as ->.
    apply (Hend (set_node (mkBucket (root b) (sequence b) (bpage b) (rootNode b) (nodes b) (<[nextRef b := n]> (heap b)) (nextRef b + 1)) q (with_children m (children m ++ [nextRef b])))); [eapply calm_set; [exact Hc1|exact Eq|done]|]. cbn. destruct (decide (nextRef b = q)) as [->|K]; [rewrite lookup_insert_eq; eauto|]. rewrite lookup_insert_ne by done. rewrite lookup_insert_eq. eauto.
  - injection H as <- _. apply (Hend (with_rootNode (mkBucket (root b) (sequence b) (bpage b) (rootNode b) (nodes b) (<[nextRef b := n]> (heap b)) (nextRef b + 1)) (Some (nextRef b)))); [exact Hc1|]. cbn. rewrite lookup_insert_eq. eauto.
Qed.

Lemma walk_calm pg path : forall b r b' r', walk pg b r path = Ok (b', r') -> calm b -> calm b'.
Proof.
  induction path as [|e path IH]; intros b r b' r' H Hc; cbn [walk] in H; [by injection H as <- _|]. apply rbind_Ok in H as (n & _ & H). destruct (isLeaf n); [done|].
  apply rbind_Ok in H as ([b1 r1] & H1 & H). eapply IH; [exact H|]. unfold childAt in H1. apply rbind_Ok in H1 as (m & _ & H1). destruct (isLeaf m); [done|]. destruct (index e <? 0); [done|].
  destruct (inodes m !! _); [|done]. by eapply bnode_calm.
Qed.

Lemma cnode_calm pg b c b' r : cnode pg b c = Ok (b', r) -> calm b -> calm b'.
Proof.
  intros H Hc. unfold cnode in H. apply rbind_Ok in H as (e & _ & H). apply rbind_Ok in H as (leaf & _ & H).
  assert (Hgo : forall e0, (let! (b, r) := (match ref_node e0, ref_page e0 with Some r, _ => Ok (b, r) | None, Some p => bnode pg b (p_id p) None | None, None => Panic end) in
    let! (b, r) := walk pg b r (reverse (tail c)) in let! n := deref b r in if isLeaf n then Ok (b, r) else Panic) = Ok (b', r) -> calm b').
  { intros e0 H0. apply rbind_Ok in H0 as ([b1 r1] & H1 & H0). apply rbind_Ok in H0 as ([b2 r2] & H2 & H0). apply rbind_Ok in H0 as (n & _ & H0). destruct (isLeaf n); [|done]. injection H0 as <- _.
    eapply walk_calm; [exact H2|]. destruct (ref_node e0); [by injection H1 as <- _|]. destruct (ref_page e0); [|done]. by eapply bnode_calm. }
  destruct (ref_node e) as [r0|]; [destruct leaf; [by injection H as <- _|]|]; (destruct (reverse c) as [|e0 c']; [done|]); exact (Hgo e0 H).
Qed.

Lemma put_at_calm {S} (t : Tx S) b c key value flags b' : put_at t b c key value flags = Ok b' -> calm b -> calm b'.
Proof.
  intros H Hc. unfold put_at in H. apply rbind_Ok in H as ([b1 r] & H1 & H). apply rbind_Ok in H as (n & Hn & H). apply rbind_Ok in H as (n' & Hp & [= <-]). unfold deref in Hn.
  destruct (heap b1 !! r) as [m|] eqn:Em; [|done]. injection Hn as ->. eapply calm_set; [by eapply cnode_calm|exact Em|]. unfold put in Hp. destruct (_ <=? 0); [done|].
  destruct (len key <=? 0); [done|]. cbn in Hp. apply rbind_Ok in Hp as (i & _ & [= <-]). done.
Qed.

Lemma bucket_put_calm {S} (t : Tx S) b fuel key value b' : bucket_put fuel t b key value = Ok b' -> calm b -> calm b'.
Proof.
  unfold bucket_put. destruct (len key =? 0); [done|]. destruct (MaxValueSize <? len value); [done|]. intros ([c r] & _ & H)%rbind_Ok.
  destruct (match r with Some _ => _ | None => _ end); [done|]. exact (put_at_calm _ _ _ _ _ _ _ H).
Qed.

(** A key that is too long is cut: the pair is stored under another key. *)
Lemma bucket_put_cut {S} (t : Tx S) b fuel key value : key <> [] -> bucket_put fuel t b key value = bucket_put fuel t b (take (Z.to_nat MaxKeySize) key) value.
Proof.
  intros Hk. destruct (Z.leb_spec (len key) MaxKeySize) as [Hs|Hl]; [rewrite take_ge; [done|unfold len in Hs; lia]|]. unfold bucket_put. pose proof (len_pos key Hk).
  assert (E : len (take (Z.to_nat MaxKeySize) key) = MaxKeySize) by (unfold len in *; rewrite length_take; unfold MaxKeySize in *; lia). rewrite E.
  destruct (Z.eqb_spec (len key) 0); [lia|]. destruct (Z.ltb_spec MaxKeySize (len key)); [|lia]. rewrite Z.ltb_irrefl. done.
Qed.


(** *** A tree of three pages *)

Definition sample_left : list inode := [mkInode 0 0 [1] [10]; mkInode 0 0 [2] [20]].
Definition sample_right : list inode := [mkInode 0 0 [4] [40]].

Definition sample_page (id : Z) (leaf : bool) (l : list inode) : page :=
  match write (with_inodes (new_node leaf None []) l) (new_page 128 id 1) with Ok p => p | _ => new_page 128 id 1 end.

Definition sample_ot : ot 1 :=
  ((sample_page 5 false [mkInode 0 3 [1] []; mkInode 0 4 [4] []], None),
   [([1], ((sample_page 3 true sample_left, None), sample_left)); ([4], ((sample_page 4 true sample_right, None), sample_right))]).

Definition sample_tx : Tx pgids :=
  mkTx (mkDB [] 128 32768 0 (mkFL [] ∅ ∅ ∅) [] true false 2 65536 true false) (mkMeta magic 2 128 0 5 0 2 6 7 0)
    (<[3 := sample_page 3 true sample_left]> (<[4 := sample_page 4 true sample_right]> {[5 := sample_page 5 false [mkInode 0 3 [1] []; mkInode 0 4 [4] []]]})).

Definition sample_bucket : Bucket := mkBucket 5 0 None None ∅ ∅ 0.

Ltac page_view := split; [vm_compute; reflexivity|vm_compute; discriminate|vm_compute; reflexivity..|]; intros [|[|[|?]]] ? [= <-]; vm_compute; reflexivity.

Lemma sample_lodged : lodged (tx_page sample_tx) sample_bucket sample_ot.
Proof.
  split.
  - exists (Some [1]). split; [done|]. apply own_S. split; [split; [vm_compute; reflexivity|]; split; [page_view|done]|].
    constructor; [|constructor; [|constructor]]; (split; [vm_compute; reflexivity|]); (split; [page_view|done]).
  - repeat constructor; vm_compute; reflexivity.
  - constructor.
  - apply (bool_decide_unpack _). vm_compute. exact I.
  - intros r n Hr. done.
  - done.
  - vm_compute. reflexivity.
  - done.
  - done.
Qed.

Lemma sample_wf : wf None None (strip sample_ot) /\ plain (contents (strip sample_ot)) /\ full (strip sample_ot).
Proof.
  split; [|split].
  - split; [done|]. split; [repeat constructor|]. split; [repeat constructor; by intros ? [=]|].
    intros [|[|j]] x [= <-]; (split; [repeat constructor|]); repeat constructor; by intros ? [= <-].
  - repeat constructor.
  - split; [done|]. repeat constructor; done.
Qed.


End BdbPut.
