(* ===== verification/BdbLaid.v ===== *)
(** Trees that are all on pages, and the order of keys while some children are
    pages again and others still nodes: the pure side of spilling. *)

From Stdlib Require Import ZArith Lia.
From stdpp Require Import base numbers option sorting list gmap.
From S2P Require Import Prelude Base Iter Freelist FreelistSafe BdbPage BdbCursor BdbTree BdbMeta BdbNode BdbTx BdbOverlay BdbPut.
Import Freelist Bdb BdbCursor BdbTree BdbMeta BdbNode BdbTx BdbOverlay BdbPut.

Module BdbLaid.

(** The first key of a node. *)
Definition fkey {h} (s : ot h) : option bytes := ikey <$> head (items (strip s)).

Abbreviation tcontents s := (contents (strip s)) (only parsing).
Abbreviation kcontents K := (concat ((fun x => contents (strip x.2)) <$> K)) (only parsing).

Section Laid.
Context (pg : Z -> outcome page).

(** Every node of the tree is a page, and the key of a child its first one. *)
Fixpoint laid {h : nat} : ot h -> Prop :=
  match h with
  | O => fun t => t.1.2 = None /\ pg (p_id t.1.1) = Ok t.1.1 /\ pview t.1.1 true t.2 /\ t.2 <> []
  | S h' => fun t => t.1.2 = None /\ pg (p_id t.1.1) = Ok t.1.1 /\ pview t.1.1 false (kitem <$> t.2) /\ t.2 <> [] /\
      Forall (fun x => laid (h := h') x.2 /\ fkey (h := h') x.2 = Some x.1) t.2
  end.

Definition klaid {h} (x : bytes * ot h) : Prop := laid x.2 /\ fkey x.2 = Some x.1.

Lemma laid_S {h} x (K : list (bytes * ot h)) : laid (h := S h) (x, K) <->
  x.2 = None /\ pg (p_id x.1) = Ok x.1 /\ pview x.1 false (kitem <$> K) /\ K <> [] /\ Forall klaid K.
Proof. done. Qed.

Lemma laid_ref {h} (s : ot h) : laid s -> ref s = None.
Proof. destruct h; by intros [? _]. Qed.

Lemma klaid_krefs {h} (K : list (bytes * ot h)) : Forall klaid K -> krefs K = [].
Proof. induction 1 as [|x K [Hx _] _ IH]; [done|]. unfold krefs in *. cbn [omap list_omap]. by rewrite (laid_ref _ Hx). Qed.

Lemma laid_own b {h} par k (s : ot h) : laid s -> fkey s = Some k -> own pg b par (Some k) s.
Proof.
  revert par k s. induction h as [|h IH]; intros par k s Hl Hk.
  - destruct s as [[p o] l]. destruct Hl as (E & Hp & Hv & _). cbn in E. subst o. split; [done|]. split; [done|]. split; [|done]. by rewrite <-Hk.
  - destruct s as [[p o] K]. destruct (proj1 (laid_S _ _) Hl) as (E & Hp & Hv & Hne & HK). cbn in E. subst o. apply own_S. split.
    + split; [done|]. split; [done|]. split; [|by apply klaid_krefs]. unfold fkey in Hk. rewrite strip_S in Hk. cbn [items snd] in Hk. rewrite kitem_skid. by rewrite <-Hk.
    + eapply Forall_impl; [exact HK|]. intros x [H1 H2]. by apply IH.
Qed.

Lemma own_laid b {h} par key (s : ot h) : ref s = None -> own pg b par key s -> full (strip s) -> laid s /\ key = fkey s.
Proof.
  revert par key s. induction h as [|h IH]; intros par key s E Ho Hf; destruct s as [[p o] K]; cbn in E; subst o.
  - destruct Ho as (Hp & Hv & Hk & _). split; [done|]. done.
  - destruct (proj1 (own_S pg b par key (p, None) K) Ho) as [(Hp & Hv & Hk & Hr) HK]. cbn [fst snd] in *. rewrite strip_S in Hf. apply full_S in Hf as [Hne Hf].
    split; [|rewrite Hk; unfold fkey; rewrite strip_S; cbn [items snd]; by rewrite kitem_skid]. apply laid_S. split; [done|]. split; [done|]. split; [done|]. split; [by intros ->|].
    rewrite Forall_forall in HK. rewrite Forall_forall in Hf. apply Forall_forall. intros x Hx. destruct (IH None (Some x.1) x.2) as [H1 H2]; [by apply (krefs_nil K)|by apply HK| |by split].
    apply (Hf (skid x)). apply list_elem_of_fmap. by exists x.
Qed.

Lemma fkey_S {h} x y (K : list (bytes * ot h)) : fkey (h := S h) (x, y :: K) = Some y.1.
Proof. done. Qed.

Lemma laid_first {h} (s : ot h) : laid s -> tcontents s <> [] /\ fkey s = ikey <$> head (tcontents s).
Proof.
  revert s. induction h as [|h IH]; intros s Hl; [by destruct Hl as (_ & _ & _ & ?)|]. destruct s as [x K]. destruct (proj1 (laid_S _ _) Hl) as (_ & _ & _ & Hne & HK).
  destruct HK as [|y K [Hy Hk] _]; [done|]. destruct (IH _ Hy) as [H1 H2]. rewrite strip_S, contents_S, fkey_S, fmap_cons, fmap_cons. cbn [concat skid snd].
  destruct (tcontents y.2) as [|e l]; [done|]. split; [done|]. rewrite <-Hk, H2. done.
Qed.

Lemma laid_full {h} (s : ot h) : laid s -> full (strip s).
Proof.
  revert s. induction h as [|h IH]; intros s Hl; [by destruct Hl as (_ & _ & _ & ?)|]. destruct s as [x K]. destruct (proj1 (laid_S _ _) Hl) as (_ & _ & _ & Hne & HK).
  rewrite strip_S. apply full_S. split; [by destruct K|]. apply Forall_fmap. eapply Forall_impl; [exact HK|]. intros y [Hy _]. by apply IH.
Qed.

Lemma laid_refs {h} (s : ot h) : laid s -> refs s = [].
Proof.
  intros Hl. pose proof (laid_first s Hl) as [Hne Hf]. destruct (fkey s) as [k|] eqn:Ek; [|destruct (tcontents s); [done|discriminate Hf]].
  eapply (unloaded_refs pg (mkBucket 0 0 None None ∅ ∅ 0) None (Some k)); [by apply laid_ref|by apply laid_own].
Qed.

(** The keys of a laid child are those of its items. *)
Lemma klaid_key {h} (x : bytes * ot h) : klaid x -> exists e l, tcontents x.2 = e :: l /\ ikey e = x.1.
Proof.
  intros [Hl Hk]. destruct (laid_first _ Hl) as [Hne Hf]. destruct (tcontents x.2) as [|e l]; [done|]. exists e, l. split; [done|]. cbn in Hf. congruence.
Qed.

(** *** Order *)

Lemma kcontents_lookup {h} (K : list (bytes * ot h)) i j x y d e : ksorted (kcontents K) -> K !! i = Some x -> K !! j = Some y -> (i < j)%nat ->
  d ∈ tcontents x.2 -> e ∈ tcontents y.2 -> cmp (ikey d) (ikey e) < 0.
Proof.
  intros Hs Hx Hy Hij Hd He. apply split_lookup in Hx as (a & c & -> & ->). rewrite fmap_app, fmap_cons, concat_app in Hs. cbn [concat] in Hs.
  apply StronglySorted_app in Hs as (_ & _ & Hs). apply StronglySorted_app in Hs as (Hs & _ & _). apply Hs; [done|]. apply elem_of_concat. exists (tcontents y.2). split; [done|].
  apply list_elem_of_fmap. exists y. split; [done|]. rewrite lookup_app_r in Hy by lia. destruct (j - length a)%nat as [|k] eqn:Ek; [lia|]. by eapply list_elem_of_lookup_2.
Qed.

Lemma kcontents_sorted {h} (K : list (bytes * ot h)) x : ksorted (kcontents K) -> x ∈ K -> ksorted (tcontents x.2).
Proof.
  intros Hs Hx. apply list_elem_of_split in Hx as (a & c & ->). rewrite fmap_app, fmap_cons, concat_app in Hs. cbn [concat] in Hs.
  apply StronglySorted_app in Hs as (_ & _ & Hs). by apply StronglySorted_app in Hs as (_ & ? & _).
Qed.

Lemma contents_kcontents {h} x (K : list (bytes * ot h)) : tcontents ((x, K) : ot (S h)) = kcontents K.
Proof. rewrite strip_S, contents_S, <-list_fmap_compose. done. Qed.

Lemma ksorted_head l e d : ksorted (e :: l) -> d ∈ e :: l -> cmp (ikey e) (ikey d) <= 0.
Proof.
  intros Hs [->|Hd]%elem_of_cons; [rewrite (cmp_refl cmp); lia|]. apply StronglySorted_inv in Hs as [_ Hs]. rewrite Forall_forall in Hs. specialize (Hs d Hd). lia.
Qed.

Lemma kcontents_elem {h} (K : list (bytes * ot h)) x d : x ∈ K -> d ∈ tcontents x.2 -> d ∈ kcontents K.
Proof. intros Hx Hd. apply elem_of_concat. exists (tcontents x.2). split; [done|]. apply list_elem_of_fmap. by exists x. Qed.

Lemma klaid_keys_sorted {h} (K : list (bytes * ot h)) : Forall klaid K -> ksorted (kcontents K) -> ksorted (kid_item <$> (skid <$> K)).
Proof.
  intros HK Hs. induction HK as [|x K Hx HK IH]; [constructor|]. rewrite !fmap_cons. constructor.
  - apply IH. rewrite fmap_cons in Hs. cbn [concat] in Hs. by apply StronglySorted_app in Hs as (_ & _ & ?).
  - apply Forall_fmap, Forall_fmap. rewrite Forall_forall in *. intros y Hy. cbn. destruct (klaid_key x Hx) as (e & l & E & <-). destruct (klaid_key y (HK y Hy)) as (e' & l' & E' & <-).
    apply list_elem_of_lookup in Hy as [i Hy]. apply (kcontents_lookup (x :: K) 0 (S i) x y); [done|done|done|lia|rewrite E; by left|rewrite E'; by left].
Qed.

Lemma laid_wf {h} lo hi (s : ot h) : laid s -> ksorted (tcontents s) -> Forall (fun x => in_b lo hi (ikey x)) (tcontents s) -> wf lo hi (strip s).
Proof.
  revert lo hi s. induction h as [|h IH]; intros lo hi s Hl Hs Hb; [done|]. destruct s as [x K]. destruct (proj1 (laid_S _ _) Hl) as (_ & _ & _ & Hne & HK).
  rewrite contents_kcontents in Hs, Hb. rewrite Forall_forall in Hb. rewrite strip_S. apply wf_S. split; [by destruct K|]. split; [by apply klaid_keys_sorted|]. split.
  - apply Forall_fmap. rewrite Forall_forall in *. intros y Hy. cbn. destruct (klaid_key y (HK y Hy)) as (e & l & E & <-). apply Hb, (kcontents_elem K y); [done|]. rewrite E. by left.
  - intros j z Hz. rewrite list_lookup_fmap in Hz. destruct (K !! j) as [y|] eqn:Ey; [|done]. injection Hz as <-. cbn [skid snd].
    pose proof (list_elem_of_lookup_2 _ _ _ Ey) as Hy. pose proof HK as HK'. rewrite Forall_forall in HK. apply IH; [by apply HK|by apply (kcontents_sorted K)|]. apply Forall_forall. intros d Hd.
    destruct (Hb d (kcontents_elem K y d Hy Hd)) as [B1 B2]. split.
    + unfold lo_at. destruct j as [|j]; [done|]. rewrite list_lookup_fmap, Ey. cbn. intros a [= <-]. destruct (klaid_key y (HK y Hy)) as (e & l & E & <-).
      pose proof (kcontents_sorted K y Hs Hy) as Hsy. rewrite E in Hsy, Hd. by apply (ksorted_head l).
    + unfold hi_at. rewrite list_lookup_fmap. destruct (K !! S j) as [w|] eqn:Ew; [|done]. cbn. intros a [= <-]. pose proof (list_elem_of_lookup_2 _ _ _ Ew) as Hw.
      destruct (klaid_key w (HK w Hw)) as (e & l & E & <-). apply (kcontents_lookup K j (S j) y w); [done|done|done|lia|done|rewrite E; by left].
Qed.

End Laid.

Lemma laid_frame pg pg' {h} (s : ot h) : laid pg s -> (forall p, p ∈ pgs s -> pg' (p_id p) = pg (p_id p)) -> laid pg' s.
Proof.
  revert s. induction h as [|h IH]; intros s Hl Hp; destruct s as [x K].
  - destruct Hl as (E & Hx & Hv & Hne). split; [done|]. split; [|done]. cbn in *. rewrite Hp; [done|]. by left.
  - destruct (proj1 (laid_S _ _ _) Hl) as (E & Hx & Hv & Hne & HK). apply laid_S. split; [done|]. unfold pgs in Hp. rewrite heads_S in Hp. split; [rewrite Hp; [done|by left]|]. split; [done|]. split; [done|].
    rewrite Forall_forall in *. intros y Hy. destruct (HK y Hy) as [H1 H2]. split; [|done]. apply IH; [done|]. intros p Hin. apply Hp. right. unfold pgs in Hin.
    apply list_elem_of_fmap in Hin as (w & -> & Hw). apply list_elem_of_fmap. exists w. split; [done|]. by apply (elem_kheads K y).
Qed.

(** ** Children on their own sides *)

(** The keys a child answers for. *)
Definition block {h} (x : bytes * ot h) (k : bytes) : Prop := k = x.1 \/ exists e, e ∈ tcontents x.2 /\ ikey e = k.

Definition sides {h} (x y : bytes * ot h) : Prop := forall a c, block x a -> block y c -> cmp a c < 0.

Definition sep {h} (K : list (bytes * ot h)) : Prop := StronglySorted sides K.

Lemma sep_keys {h} (K : list (bytes * ot h)) : sep K -> ksorted (kitem <$> K).
Proof.
  induction 1 as [|x K _ IH Hx]; [constructor|]. rewrite fmap_cons. constructor; [done|]. apply Forall_fmap. eapply Forall_impl; [exact Hx|]. intros y Hy. apply Hy; by left.
Qed.

Lemma wf_sep {h} lo hi id (K : list (bytes * ot h)) : wf lo hi (h := S h) (id, skid <$> K) -> sep K.
Proof.
  intros Hw. destruct (proj1 (wf_S _ _ _ _) Hw) as (_ & Hs & _ & Hk). clear Hw.
  assert (Hpairs : forall i j x y, K !! i = Some x -> K !! j = Some y -> (i < j)%nat -> sides x y).
  { intros i j x y Hx Hy Hij a c Ha Hc.
    assert (Hx' : (skid <$> K) !! i = Some (skid x)) by (by rewrite list_lookup_fmap, Hx). assert (Hy' : (skid <$> K) !! j = Some (skid y)) by (by rewrite list_lookup_fmap, Hy).
    assert (H1 : cmp a y.1 < 0). { destruct Ha as [->|(e & He & <-)]; [by apply (kids_sorted (skid <$> K) i j (skid x) (skid y))|]. by apply (kid_below lo hi (skid <$> K) i j (skid x) (skid y)); [|apply Hk| | | |]. }
    destruct Hc as [->|(e & He & <-)]; [done|]. eapply (cmp_lt_le_trans cmp); [exact H1|]. apply (kid_above lo hi (skid <$> K) j (skid y)); [by apply Hk|done|lia|done]. }
  clear Hs Hk. induction K as [|x K IH]; [constructor|]. constructor.
  - apply IH. intros i j y z Hy Hz Hij. apply (Hpairs (S i) (S j)); [done|done|lia].
  - apply Forall_forall. intros y [j Hy]%list_elem_of_lookup. apply (Hpairs 0%nat (S j)); [done|done|lia].
Qed.

Lemma sep_laid pg {h} (K : list (bytes * ot h)) : Forall (klaid pg) K -> ksorted (kcontents K) -> sep K.
Proof.
  intros HK Hs. induction HK as [|x K Hx HK IH]; [constructor|]. constructor; [apply IH; rewrite fmap_cons in Hs; cbn [concat] in Hs; by apply StronglySorted_app in Hs as (_ & _ & ?)|].
  assert (Hblock : forall y k, klaid pg y -> block (h := h) y k -> exists e, e ∈ tcontents y.2 /\ ikey e = k).
  { intros y k Hy [->|H]; [|done]. destruct (klaid_key pg y Hy) as (e & l & -> & E). exists e. split; [by left|done]. }
  rewrite Forall_forall in *. intros y Hy a c Ha Hc. destruct (Hblock x a Hx Ha) as (d & Hd & <-). destruct (Hblock y c (HK y Hy) Hc) as (e & He & <-).
  apply list_elem_of_lookup in Hy as [i Hy]. by apply (kcontents_lookup (x :: K) 0 (S i) x y); try done; lia.
Qed.

Lemma sep_replace {h} (A C : list (bytes * ot h)) x ts : sep (A ++ x :: C) -> sep ts -> (forall y k, y ∈ ts -> block y k -> block x k) -> sep (A ++ ts ++ C).
Proof.
  intros Hs Ht Hb. apply StronglySorted_app in Hs as (H1 & H2 & H3). apply StronglySorted_inv in H3 as [H3 H4]. rewrite Forall_forall in H4.
  apply StronglySorted_app_2; [|done|apply StronglySorted_app_2; [|done|done]].
  - intros a y Ha [Hy|Hy]%elem_of_app; [|apply H1; [done|by right]]. intros k c Hk Hc. apply (H1 a x); [done|by left|done|by apply (Hb y)].
  - intros y c Hy Hc k z Hk Hz. by apply (H4 c Hc); [apply (Hb y)|].
Qed.

Lemma klaid_block pg {h} (y : bytes * ot h) k : klaid pg y -> block y k -> exists e, e ∈ tcontents y.2 /\ ikey e = k.
Proof. intros Hy [->|H]; [|done]. destruct (klaid_key pg y Hy) as (e & l & -> & E). exists e. split; [by left|done]. Qed.

(** The items of a child between its neighbours. *)
Lemma sep_between {h} (A C : list (bytes * ot h)) x : sep (A ++ x :: C) ->
  Forall (fun e => below (ikey e) (kitem <$> A) /\ above (ikey e) (kitem <$> C)) (tcontents x.2).
Proof.
  intros Hs. apply StronglySorted_app in Hs as (H1 & H2 & H3). apply StronglySorted_inv in H3 as [H3 H4]. rewrite Forall_forall in H4. apply Forall_forall. intros e He.
  assert (Hb : block x (ikey e)) by (right; by exists e). split; apply Forall_fmap, Forall_forall; intros y Hy; cbn.
  - apply (H1 y x); [done|by left|by left|done].
  - apply (H4 y Hy); [done|by left].
Qed.

(** ** Cutting a node into parts *)

(** The item of a parent for a page with the items [l]. *)
Definition pitem (p : page) (l : list inode) : inode := mkInode 0 (p_id p) (default [] (ikey <$> head l)) [].

(** All children are on pages. *)
Definition kids_laid (pg : Z -> outcome page) {h : nat} : ot h -> Prop := match h with O => fun _ => True | S _ => fun s => Forall (klaid pg) s.2 end.

(** The pages below the root, and those of several trees. *)
Definition kid_pgs {h} (s : ot h) : list page := (tail (heads s)).*1.
Definition all_pgs {h} (K : list (bytes * ot h)) : list page := (kheads K).*1.

Lemma pgs_kids {h} (s : ot h) : pgs s = pag s :: kid_pgs s.
Proof. unfold pgs, kid_pgs, pag. destruct (heads_hd s) as [l ->]. done. Qed.

Lemma all_pgs_app {h} (K K' : list (bytes * ot h)) : all_pgs (K ++ K') = all_pgs K ++ all_pgs K'.
Proof. unfold all_pgs. by rewrite kheads_app, fmap_app. Qed.

Lemma all_pgs_cons {h} x (K : list (bytes * ot h)) : all_pgs (x :: K) = pgs x.2 ++ all_pgs K.
Proof. unfold all_pgs, pgs. by rewrite kheads_cons, fmap_app. Qed.

Lemma kid_pgs_S {h} x (K : list (bytes * ot h)) : kid_pgs (h := S h) (x, K) = all_pgs K.
Proof. done. Qed.

Lemma elem_all_pgs {h} (K : list (bytes * ot h)) x p : x ∈ K -> p ∈ pgs x.2 -> p ∈ all_pgs K.
Proof.
  unfold pgs, all_pgs. intros Hx Hp. apply list_elem_of_fmap in Hp as (w & -> & Hw). apply list_elem_of_fmap. exists w. split; [done|]. by apply (elem_kheads K x).
Qed.

Definition on_page (pg : Z -> outcome page) (leaf : bool) (p : page) (l : list inode) : Prop := pg (p_id p) = Ok p /\ pview p leaf l.

Lemma cut_tree pg {h} (s : ot h) ps ls : concat ls = items (strip s) -> Forall2 (on_page pg (is_leaf h)) ps ls -> Forall (fun l => l <> []) ls -> kids_laid pg s ->
  exists ts : list (bytes * ot h), Forall (klaid pg) ts /\ kitem <$> ts = zip_with pitem ps ls /\ kcontents ts = tcontents s /\ all_pgs ts ≡ₚ ps ++ kid_pgs s.
Proof.
  intros Hc Hp Hne Hk. destruct h as [|h]; destruct s as [x K].
  - rewrite app_nil_r. change (contents (strip ((x, K) : ot 0))) with (items (strip ((x, K) : ot 0))). rewrite <-Hc. clear Hc Hk x K.
    induction Hp as [|p l ps ls [Hpg Hv] Hp IH]; [by exists []|]. apply Forall_cons_1 in Hne as [Hl Hne]. destruct (IH Hne) as (ts & I1 & I2 & I3 & I4). clear IH.
    destruct l as [|y l]; [done|]. exists ((ikey y, (((p, None), y :: l) : ot 0)) :: ts). split; [by constructor|]. split; [rewrite fmap_cons, I2; done|]. split; [rewrite fmap_cons; cbn [concat]; rewrite I3; done|].
    rewrite all_pgs_cons. cbn. by rewrite I4.
  - rewrite strip_S in Hc. cbn [items snd] in Hc. rewrite <-kitem_skid in Hc. rewrite contents_kcontents, kid_pgs_S. change (Forall (klaid pg) K) in Hk.
    revert K Hc Hk. induction Hp as [|p l ps ls [Hpg Hv] Hp IH]; intros K Hc Hk.
    + cbn in Hc. symmetry in Hc. apply fmap_nil_inv in Hc as ->. by exists [].
    + cbn [concat] in Hc. symmetry in Hc. apply fmap_app_inv in Hc as (K1 & K2 & E1 & E2 & ->). apply Forall_cons_1 in Hne as [Hl Hne]. apply Forall_app in Hk as [Hk1 Hk2].
      destruct (IH Hne K2) as (ts & I1 & I2 & I3 & I4); [done|done|]. clear IH. destruct K1 as [|y K1]; [by subst l|]. set (s1 := (((p, None), y :: K1) : ot (S h))).
      assert (Hs1 : laid pg s1) by (apply laid_S; cbn [fst snd]; rewrite <-E1; done).
      exists ((y.1, s1) :: ts). split; [constructor; [by split|done]|]. split; [rewrite fmap_cons, I2, E1; done|]. split.
      * rewrite fmap_cons, fmap_app, concat_app. cbn [concat snd]. rewrite I3. f_equal. apply contents_kcontents.
      * rewrite all_pgs_cons, all_pgs_app, I4. cbn [snd]. rewrite pgs_kids. unfold s1. rewrite kid_pgs_S. cbn [pag hd fst app]. solve_Permutation.
Qed.

End BdbLaid.
