(* ===== verification/BdbSpace.v ===== *)
(** The pages of a write transaction (bitree/bdb/tx.go and db.go over the free
    list): what an allocation may hand out, and what a transaction leaves alone.

    [space t L P]: the pages [L] are in use, and those of [P], the snapshot
    before the transaction, are never handed out, not even once they are freed. *)

From Stdlib Require Import ZArith Lia.
From stdpp Require Import base numbers option sorting list gmap.
From S2P Require Import Prelude Base Freelist FreelistSpec FreelistSafe BdbPage BdbCursor BdbMeta BdbNode BdbTx.
Import Freelist Bdb BdbCursor BdbMeta BdbNode BdbTx.

Module BdbSpace.

(** ** Results that may lack room *)

(** A result, or an error of a certain kind. *)
Definition yields {A} (E : error -> Prop) (r : outcome A) (P : A -> Prop) : Prop :=
  match r with Ok a => P a | Err e => E e | Panic => False end.

Lemma yields_bind {A B} E (r : outcome A) (k : A -> outcome B) P Q :
  yields E r P -> (forall a, P a -> yields E (k a) Q) -> yields E (let! a := r in k a) Q.
Proof. intros Hr Hk. destruct r; cbn in *; [by apply Hk|done|done]. Qed.

Lemma yields_mono {A} E (r : outcome A) (P Q : A -> Prop) : yields E r P -> (forall a, P a -> Q a) -> yields E r Q.
Proof. intros Hr Hk. destruct r; cbn in *; [by apply Hk|done|done]. Qed.

(** The same for enough fuel. *)
Definition settles {A} (E : error -> Prop) (f : nat -> outcome A) (P : A -> Prop) : Prop :=
  exists r n0, (forall n, (n0 <= n)%nat -> f n = r) /\ yields E r P.

Lemma settles_const {A} E (r : outcome A) P : yields E r P -> settles E (fun _ => r) P.
Proof. intros H. by exists r, 0%nat. Qed.

Lemma settles_bind {A B} E (f : nat -> outcome A) (k : A -> nat -> outcome B) P Q :
  settles E f P -> (forall a, P a -> settles E (k a) Q) -> settles E (fun n => let! a := f n in k a n) Q.
Proof.
  intros (r & n0 & Hf & Hr) Hk. destruct r as [a|e|]; cbn in Hr; [|exists (Err e), n0; split; [|done]; intros n Hn; by rewrite Hf|done].
  destruct (Hk a Hr) as (r' & n1 & Hk' & Hr'). exists r', (n0 `max` n1)%nat. split; [|done]. intros n Hn. rewrite Hf by lia. cbn [rbind]. apply Hk'. lia.
Qed.

Lemma settles_ext {A} E (f g : nat -> outcome A) P : (forall n, f n = g n) -> settles E f P -> settles E g P.
Proof. intros He (r & n0 & Hf & Hr). exists r, n0. split; [|done]. intros n Hn. rewrite <-He. by apply Hf. Qed.

Lemma settles_S {A} E (f g : nat -> outcome A) P : (forall n, f (S n) = g n) -> settles E g P -> settles E f P.
Proof. intros He (r & n0 & Hf & Hr). exists r, (S n0). split; [|done]. intros [|n] Hn; [lia|]. rewrite He. apply Hf. lia. Qed.

Lemma settles_mono {A} E (f : nat -> outcome A) (P Q : A -> Prop) : settles E f P -> (forall a, P a -> Q a) -> settles E f Q.
Proof. intros (r & n0 & Hf & Hr) H. exists r, n0. split; [done|]. by eapply yields_mono. Qed.

(** ** Room in the file *)

Section Space.
Context {S : Type} {I : FreeStore S} {R : S -> gset Z -> Prop} `{!FreeStoreLaws I R}.
Context (pick : gset Z -> option Z) (Hpick : picks pick) (sys : Z -> bool).
Implicit Types (t : Tx S).

Definition hwm t : Z := m_pgid (t_meta t).
Definition psize t : Z := d_pageSize (t_db t).
Definition flist t : freelist S := d_freelist (t_db t).

(** The mapping cannot grow. *)
Definition map_error (f : bytes) (ps : Z) (e : error) : Prop := exists minsz, mmap sys f ps minsz = Err e.

(** A run that is not free, and below the mark. *)
Definition kept (F : gset Z) (w : Z) (p : page) : Prop :=
  2 <= p_id p /\ 0 <= p_overflow p /\ p_id p + p_overflow p < w /\ forall id, p_id p <= id <= p_id p + p_overflow p -> id ∉ F.

Record space_in t (F : gset Z) (L P : list page) : Prop := mkSpace {
  sp_ps : 80 <= psize t <= 65536;
  sp_hwm : 2 <= hwm t;
  sp_room : hwm t * psize t <= maxMapSize /\ d_datasz (t_db t) <= maxMapSize;
  sp_inv : finv R (flist t) F;
  sp_free : forall id, id ∈ F -> id < hwm t;
  sp_pend : forall id b a, freed_by (pending (flist t)) id b a -> id < hwm t;
  sp_live : Forall (kept F (hwm t)) L;
  sp_used : forall p id b a, p ∈ L -> p_id p <= id <= p_id p + p_overflow p -> ~ freed_by (pending (flist t)) id b a;
  sp_apart : ForallOrdPairs apart L;
  sp_old : Forall (kept F (hwm t)) P;
  sp_new : forall id q, t_pages t !! id = Some q -> p_id q = id /\ page_fits (psize t) q /\ kept F (hwm t) q /\ forall p, p ∈ P -> apart p q;
  sp_news : forall i j p q, t_pages t !! i = Some p -> t_pages t !! j = Some q -> i <> j -> apart p q;
  sp_src : forall p, p ∈ L -> p ∈ P \/ t_pages t !! p_id p = Some p
}.

Definition space t (L P : list page) : Prop := exists F, space_in t F L P.

Lemma apart_sym p q : apart p q -> apart q p.
Proof. unfold apart. lia. Qed.

Lemma space_perm t L L' P : L ≡ₚ L' -> space t L P -> space t L' P.
Proof.
  intros Hp [F [H1 H2 H0 H3 H4 H5 H6 H7 H8 H9 H10 H11 H12]]. exists F. split; try done.
  - by rewrite <-Hp.
  - intros p id b a Hin. apply H7. by rewrite Hp.
  - by eapply ForallOrdPairs_perm; [exact apart_sym| |].
  - intros p Hin. apply H12. by rewrite Hp.
Qed.

(** A part of the live pages. *)
Lemma space_sub t L L' P : space t (L ++ L') P -> space t L' P.
Proof.
  intros [F [H1 H2 H0 H3 H4 H5 H6 H7 H8 H9 H10 H11 H12]]. exists F. split; try done.
  - by apply Forall_app in H6 as [_ ?].
  - intros p id b a Hin. apply H7. apply elem_of_app. by right.
  - clear -H8. induction L as [|x L IH]; [done|]. inversion_clear H8. by apply IH.
  - intros p Hin. apply H12. apply elem_of_app. by right.
Qed.

(** What a transaction leaves alone of the database: its readers and options. *)
Definition conf (d : DB S) : list Z * bool * bool * Z * Z * bool * bool :=
  (d_txs d, d_opened d, d_readOnly d, d_version d, d_AllocSize d, d_NoGrowSync d, d_NoFreelistSync d).

(** What a step of the transaction keeps: everything but its free list, the high
    water mark and new pages; the live pages [L] read the same. *)
Record step t t' (L : list page) : Prop := mkStep {
  st_file : d_file (t_db t') = d_file (t_db t);
  st_ps : psize t' = psize t;
  st_meta : t_meta t' = with_pgid (t_meta t) (m_pgid (t_meta t'));
  st_hwm : hwm t <= hwm t';
  st_read : forall p, p ∈ L -> tx_page t' (p_id p) = tx_page t (p_id p);
  st_conf : conf (t_db t') = conf (t_db t)
}.

Lemma with_pgid_same m : with_pgid m (m_pgid m) = m.
Proof. by destruct m. Qed.

Lemma step_refl t L : step t t L.
Proof. split; [done|done|by rewrite with_pgid_same|done|done|done]. Qed.

Lemma step_trans t1 t2 t3 L : step t1 t2 L -> step t2 t3 L -> step t1 t3 L.
Proof.
  intros [A1 A2 A3 A4 A5 A6] [B1 B2 B3 B4 B5 B6]. split; [congruence|congruence|rewrite B3, A3; by destruct (t_meta t1)|lia| |congruence].
  intros p Hp. by rewrite B5, A5.
Qed.

Lemma step_sub t t' L L' : (forall p, p ∈ L' -> p ∈ L) -> step t t' L -> step t t' L'.
Proof. intros Hs [A1 A2 A3 A4 A5 A6]. split; try done. intros p Hp. by apply A5, Hs. Qed.

Lemma mmap_yields f ps minsz : 80 <= ps -> yields (map_error f ps) (mmap sys f ps minsz) (fun _ => True).
Proof.
  intros Hps. destruct (mmap sys f ps minsz) as [z|e|] eqn:E; cbn; [done|by exists minsz|]. unfold mmap in E.
  destruct (Z.ltb_spec (len f) (ps * 2)); [done|].
  assert (Hm : forall id, 0 <= id < 2 -> exists m, file_meta f ps id = Ok m).
  { intros id Hid. unfold file_meta, meta_at. rewrite peek_ok; [by eexists|unfold pageHeaderSize; nia|done|unfold pageHeaderSize, metaSize; nia]. }
  destruct (Hm 0) as [m0 E0]; [lia|]. destruct (Hm 1) as [m1 E1]; [lia|]. rewrite E0, E1 in E.
  destruct (mmapSize ps (if len f <? minsz then minsz else len f)) as [z|e|] eqn:Ez; cbn [rbind] in E; [destruct (negb (sys z)); [done|]; by destruct (validate m0), (validate m1)|done|].
  unfold mmapSize in Ez. destruct (mmap_pow _ _ _); [done|]. by destruct (maxMapSize <? _).
Qed.

(** A run handed out is apart from every page that is kept. *)
Lemma kept_apart F w p id n : kept F w p -> 1 <= n -> (run F id n \/ w <= id) -> p_id p + p_overflow p < id \/ id + (n - 1) < p_id p.
Proof.
  intros (H2 & Ho & Hw & Hk) Hn [Hr|Hge]; [|lia]. destruct (Z.lt_ge_cases (p_id p + p_overflow p) id) as [|H1]; [by left|right].
  destruct (Z.lt_ge_cases (id + (n - 1)) (p_id p)) as [|H3]; [done|]. exfalso.
  set (z := Z.max id (p_id p)). apply (Hk z); [unfold z; lia|]. apply Hr. unfold z. lia.
Qed.

Lemma finv_live t F L P p : space_in t F L P -> p ∈ L -> in_use (flist t) F p.
Proof.
  intros H Hp. pose proof (sp_live _ _ _ _ H) as Hl. rewrite Forall_forall in Hl. destruct (Hl p Hp) as (H2 & Ho & Hw & Hk). repeat split; [done|done|by apply Hk|].
  intros b a. by apply (sp_used _ _ _ _ H p).
Qed.

(** Freeing a live page. *)
Lemma space_free t p L P : space t (p :: L) P -> tx_page t (p_id p) = Ok p ->
  exists t', tx_free t (p_id p) = Ok t' /\ space t' L P /\ t_pages t' = t_pages t /\ t_meta t' = t_meta t /\ step t t' L.
Proof.
  intros [F H] Hp. unfold tx_free. rewrite Hp. cbn [rbind]. destruct (free_spec (flist t) F (m_txid (t_meta t)) p (sp_inv _ _ _ _ H)) as (f' & E & Hf & Hfr).
  { apply (finv_live t F (p :: L) P); [done|by left]. }
  unfold flist in E. rewrite E. cbn [rbind]. eexists. split; [done|]. split; [|split; [done|split; [done|split; [done|done|by rewrite with_pgid_same|done|done|done]]]].
  destruct H as [H1 H2 H0 H3 H4 H5 H6 H7 H8 H9 H10 H11 H12]. apply Forall_cons_1 in H6 as [Hkp H6]. inversion_clear H8 as [|? ? Hap H8']. destruct Hkp as (K2 & Ko & Kw & Kk).
  exists F. split; try done.
  - intros id b a Hb. assert (Hex : exists b a, freed_by (pending f') id b a) by eauto. apply Hfr in Hex as [(b' & a' & Hb')|Hr]; [by eapply H5|]. unfold hwm in *. cbn. lia.
  - intros q id b a Hq Hid Hb. assert (Hex : exists b a, freed_by (pending f') id b a) by eauto. apply Hfr in Hex as [(b' & a' & Hb')|Hr].
    + apply (H7 q id b' a'); [by right|done|done].
    + rewrite Forall_forall in Hap. specialize (Hap q Hq). unfold apart in Hap. lia.
  - intros q Hq. apply H12. by right.
Qed.

(** Allocating. *)
Lemma space_allocate t L P count : space t L P -> 1 <= count < 4294967296 ->
  yields (map_error (d_file (t_db t)) (psize t)) (tx_allocate pick sys t count) (fun '(t', p, isFree) =>
    space t' (p :: L) P /\ p = new_page (psize t) (p_id p) count /\ t_pages t' = <[p_id p := p]> (t_pages t) /\ p_id p < hwm t' /\ step t t' L /\ (isFree = false -> p_id p = hwm t)).
Proof.
  intros [F H] Hc. unfold tx_allocate, db_allocate. destruct (allocate_spec pick (flist t) F (m_txid (t_meta t)) count Hpick (sp_inv _ _ _ _ H) ltac:(lia)) as (f' & id & E & Hd).
  unfold flist in E. rewrite E. cbn [rbind]. pose proof H as [H1 H2 H0 H3 H4 H5 H6 H7 H8 H9 H10 H11 H12].
  assert (Hgo : forall F' w d id', (run F id' count \/ hwm t <= id') -> 2 <= id' -> (forall x, x ∈ F' -> x ∈ F) -> (forall x, id' <= x < id' + count -> x ∉ F') -> hwm t <= w -> id' + count <= w ->
    (forall x, id' <= x < id' + count -> forall b a, ~ freed_by (pending (flist t)) x b a) ->
    finv R f' F' -> pending f' = pending (flist t) -> d_freelist d = f' -> d_pageSize d = psize t -> d_file d = d_file (t_db t) ->
    conf d = conf (t_db t) ->
    let t' := with_pages (mkTx d (with_pgid (t_meta t) w) (t_pages t)) (<[id' := new_page (psize t) id' count]> (t_pages t)) in
    w * psize t <= maxMapSize -> d_datasz d <= maxMapSize ->
    space t' (new_page (psize t) id' count :: L) P /\ step t t' L).
  { intros F' w d id' Hrun Hid2 Hsub Hout Hw Hidw Hnofree Hfi Hpe Hdf Hdp Hdfile Hconf t' Hbig Hbd. assert (id' < 18446744073709551616) by (unfold maxMapSize in Hbig; nia). set (p := new_page (psize t) id' count).
    assert (Epo : p_overflow p = count - 1) by (cbn; apply u32_small; lia).
    assert (Hkeep : forall q, kept F (hwm t) q -> kept F' w q /\ apart q p).
    { intros q Hq. pose proof (kept_apart F (hwm t) q id' count Hq ltac:(lia) Hrun) as Ha. destruct Hq as (Q2 & Qo & Qw & Qk). split.
      - repeat split; [done|done|lia|]. intros x Hx Hin. by apply (Qk x Hx), Hsub.
      - unfold apart. rewrite Epo. cbn [p p_id new_page]. lia. }
    assert (Hp : kept F' w p). { repeat split; [done|lia|rewrite Epo; cbn; lia|]. intros x Hx. apply Hout. rewrite Epo in Hx. cbn in Hx. lia. }
    assert (Hpf : page_fits (psize t) p).
    { split; [cbn; lia|done|done|rewrite Epo; lia|]. unfold p. rewrite len_new_page by (unfold pageHeaderSize; lia). fold p. rewrite Epo. lia. }
    split.
    - exists F'. split; cbn [t' with_pages t_db t_meta t_pages]; unfold psize, hwm, flist in *; cbn; rewrite ?Hdp, ?Hdf, ?Hpe; try done.
      + lia.
      + intros x Hx. specialize (H4 x (Hsub x Hx)). lia.
      + intros x b a Hb. specialize (H5 x b a Hb). lia.
      + constructor; [exact Hp|]. rewrite Forall_forall in *. intros q Hq. by apply Hkeep, H6.
      + intros q x b a [->|Hq]%elem_of_cons Hx; [|by apply (H7 q)]. apply Hnofree. rewrite Epo in Hx. cbn in Hx. lia.
      + constructor; [|done]. rewrite Forall_forall in *. intros q Hq. apply apart_sym, Hkeep, H6, Hq.
      + rewrite Forall_forall in *. intros q Hq. by apply Hkeep, H9.
      + intros i q Hq. destruct (decide (i = id')) as [->|Hne].
        * rewrite lookup_insert_eq in Hq. injection Hq as <-. split; [done|]. split; [done|]. split; [done|]. intros q Hq. rewrite Forall_forall in H9. by apply Hkeep, H9.
        * rewrite lookup_insert_ne in Hq by done. destruct (H10 i q Hq) as (A1 & A2 & A3 & A4). split; [done|]. split; [done|]. split; [by apply Hkeep|done].
      + intros i j q q' Hi Hj Hij. destruct (decide (i = id')) as [->|Hi'], (decide (j = id')) as [->|Hj']; [done|..].
        * rewrite lookup_insert_eq in Hi. rewrite lookup_insert_ne in Hj by done. injection Hi as <-. destruct (H10 _ _ Hj) as (_ & _ & A3 & _). by apply apart_sym, Hkeep.
        * rewrite lookup_insert_eq in Hj. rewrite lookup_insert_ne in Hi by done. injection Hj as <-. destruct (H10 _ _ Hi) as (_ & _ & A3 & _). by apply Hkeep.
        * rewrite lookup_insert_ne in Hi, Hj by done. by apply (H11 i j).
      + intros q [->|Hq]%elem_of_cons; [right; apply lookup_insert_eq|]. rewrite lookup_insert_ne; [by apply H12|]. rewrite Forall_forall in H6. destruct (Hkeep q (H6 q Hq)) as [_ Ha].
        unfold apart in Ha. rewrite Epo in Ha. cbn in Ha. pose proof (H6 q Hq) as (_ & Qo & _). intros ->. lia.
    - split; [done|done|done|unfold hwm in *; cbn; lia| |done]. intros q Hq. unfold tx_page. cbn [t' with_pages t_pages t_db]. rewrite lookup_insert_ne; [by rewrite Hdfile, Hdp|].
      rewrite Forall_forall in H6. destruct (Hkeep q (H6 q Hq)) as [_ Ha]. unfold apart in Ha. rewrite Epo in Ha. cbn in Ha. pose proof (H6 q Hq) as (_ & Qo & _). intros ->. lia. }
  destruct Hd as [(-> & -> & _)|(Hid & Hrun & Hf' & Hpe)].
  - cbn [Z.eqb negb]. set (ps := d_pageSize (t_db t)). set (minsz := (m_pgid (t_meta t) + count + 1) * ps).
    eapply (yields_bind _ _ _ (fun p => exists d, p = (mkTx d (with_pgid (t_meta t) (hwm t + count)) (t_pages t), new_page ps (hwm t) count, false) /\
      d_freelist d = flist t /\ d_pageSize d = ps /\ d_file d = d_file (t_db t) /\
      conf d = conf (t_db t) /\ d_datasz d <= maxMapSize /\ (hwm t + count) * ps <= maxMapSize)).
    + cbn [with_freelist d_datasz d_file]. eapply (yields_bind _ _ _ (fun z => z <= maxMapSize /\ (hwm t + count) * ps <= maxMapSize)).
      * destruct (Z.leb_spec (d_datasz (t_db t)) minsz) as [Hle|Hgt].
        -- destruct (mmap sys (d_file (t_db t)) ps minsz) as [z|e|] eqn:Em.
           ++ cbn. unfold psize, hwm in *. fold ps in H1, H0. destruct (mmap_covers sys (d_file (t_db t)) ps minsz z) as [? ?]; [lia|unfold minsz; nia|done|]. split; [lia|]. unfold minsz in *. nia.
           ++ cbn. by exists minsz.
           ++ pose proof (mmap_yields (d_file (t_db t)) ps minsz) as Hy. rewrite Em in Hy. cbn in Hy. apply Hy. unfold psize in H1. unfold ps. lia.
        -- cbn. split; [lia|]. unfold psize, hwm, minsz in *. fold ps in H1. nia.
      * intros z [Hz Hb]. cbn. eexists. split; [done|]. done.
    + intros x (d & -> & D1 & D2 & D3 & D0 & D4 & D5). cbn [rbind yields]. cbn [p_id new_page].
      destruct (Hgo F (hwm t + count) d (hwm t)) as [Hs Hst]; try done.
      * by right.
      * intros x Hx Hin. specialize (H4 x Hin). lia.
      * lia.
      * intros x Hx b a Hb. specialize (H5 x b a Hb). lia.
      * split; [exact Hs|]. split; [done|]. split; [done|]. split; [unfold hwm; cbn; lia|]. split; [exact Hst|done].
  - destruct (Z.eqb_spec id 0); [lia|]. cbn [negb rbind yields p_id new_page].
    assert (Hidw : id + count <= hwm t) by (assert (Hx : id + count - 1 ∈ F) by (apply Hrun; lia); specialize (H4 _ Hx); lia).
    destruct (Hgo (F ∖ run_set id count) (hwm t) (with_freelist (t_db t) f') id) as [Hs Hst]; try done.
    + by left.
    + intros x Hx. by apply elem_of_difference in Hx as [? _].
    + intros x Hx Hin. apply elem_of_difference in Hin as [_ Hin]. apply Hin. apply elem_run_set. lia.
    + intros x Hx b a Hb. by apply (fi_apart _ _ H3 _ _ _ Hb), Hrun.
    + apply H0.
    + apply H0.
    + assert (Emeta : with_pgid (t_meta t) (hwm t) = t_meta t) by (unfold hwm; by destruct (t_meta t)). rewrite Emeta in Hs, Hst. split; [exact Hs|]. split; [done|]. split; [done|].
      split; [unfold hwm in *; cbn; lia|]. split; [exact Hst|done].
Qed.

(** Filling a page of the transaction. *)
Lemma space_fill t p p' L P : space t (p :: L) P -> t_pages t !! p_id p = Some p -> p_id p' = p_id p -> p_overflow p' = p_overflow p -> page_fits (psize t) p' ->
  let t' := with_pages t (<[p_id p' := p']> (t_pages t)) in space t' (p' :: L) P /\ step t t' L /\ tx_page t' (p_id p') = Ok p'.
Proof.
  intros [F [H1 H2 H0 H3 H4 H5 H6 H7 H8 H9 H10 H11 H12]] Hp Hid Ho Hf t'. apply Forall_cons_1 in H6 as [Hk H6]. inversion_clear H8 as [|? ? Hap H8'].
  assert (Hkept : kept F (hwm t) p') by (unfold kept in *; by rewrite Hid, Ho). assert (Hapart : forall q, apart p q -> apart p' q) by (unfold apart; rewrite Hid, Ho; done).
  split; [|split].
  - exists F. split; unfold psize, hwm, flist in *; cbn [t' with_pages t_db t_meta t_pages]; try done.
    + by constructor.
    + intros q id b a [->|Hq]%elem_of_cons Hx; [rewrite Hid, Ho in Hx; apply (H7 p); [by left|done]|apply (H7 q); [by right|done]].
    + constructor; [|done]. eapply Forall_impl; [exact Hap|]. done.
    + intros i q Hq. destruct (decide (i = p_id p')) as [->|Hne].
      * rewrite lookup_insert_eq in Hq. injection Hq as <-. split; [done|]. split; [done|]. split; [done|]. intros o Hin. destruct (H10 _ _ Hp) as (_ & _ & _ & Ha).
        apply apart_sym, Hapart, apart_sym, Ha, Hin.
      * rewrite lookup_insert_ne in Hq by done. by apply H10.
    + intros i j q q' Hi Hj Hij. destruct (decide (i = p_id p')) as [->|Hi'], (decide (j = p_id p')) as [->|Hj']; [done|..].
      * rewrite lookup_insert_eq in Hi. rewrite lookup_insert_ne in Hj by done. injection Hi as <-. apply Hapart. by apply (H11 (p_id p) j); [| |rewrite <-Hid].
      * rewrite lookup_insert_eq in Hj. rewrite lookup_insert_ne in Hi by done. injection Hj as <-. apply apart_sym, Hapart. by apply (H11 (p_id p) i); [| |rewrite <-Hid].
      * rewrite lookup_insert_ne in Hi, Hj by done. by apply (H11 i j).
    + intros q [->|Hq]%elem_of_cons; [right; apply lookup_insert_eq|]. rewrite lookup_insert_ne; [apply H12; by right|]. rewrite Hid. rewrite Forall_forall in Hap. rewrite Forall_forall in H6.
      specialize (Hap q Hq). destruct (H6 q Hq) as (_ & Qo & _). destruct Hk as (_ & Ko & _). unfold apart in Hap. lia.
  - split; [done|done|by rewrite with_pgid_same|done| |done]. intros q Hq. unfold tx_page. cbn [t' with_pages t_pages t_db]. rewrite lookup_insert_ne; [done|]. rewrite Hid.
    rewrite Forall_forall in Hap, H6. specialize (Hap q Hq). destruct (H6 q Hq) as (_ & Qo & _). destruct Hk as (_ & Ko & _). unfold apart in Hap. lia.
  - unfold tx_page. cbn [t' with_pages t_pages]. by rewrite lookup_insert_eq.
Qed.

End Space.
End BdbSpace.
