(* ===== verification/BdbSpill.v ===== *)
(** Spilling a bucket ([node.spill] and [Bucket.spill], bitree/bdb/node.go and
    bucket.go): the nodes of a write transaction become pages again, split where
    they have grown, and the tree over the new pages holds the same items. *)

From Stdlib Require Import ZArith Lia.
From stdpp Require Import base numbers option sorting list gmap.
From S2P Require Import Prelude Base Iter Freelist FreelistSpec FreelistSafe BdbPage BdbCursor BdbTree BdbMeta BdbNode BdbTx BdbOverlay BdbPut BdbLaid BdbSpace.
Import Freelist Bdb BdbCursor BdbTree BdbMeta BdbNode BdbTx BdbOverlay BdbPut BdbLaid BdbSpace.

Module BdbSpill.

(** ** Items that pages can hold *)

(** Small enough for a few of them to fit where positions are 32 bits wide. *)
Record item_fit (leaf : bool) (x : inode) : Prop := mkItemFit {
  if_key : ikey x <> [];
  if_small : len (ikey x) + len (ivalue x) < 536870912;
  if_leaf : leaf = true -> ipgid x = 0 /\ 0 <= iflags x < 4294967296;
  if_branch : leaf = false -> iflags x = 0 /\ ivalue x = []
}.

Lemma stored_fit leaf x : item_fit leaf x -> stored leaf x = x.
Proof. intros [_ _ Hl Hb]. destruct leaf, x as [f g k v]; cbn in *; [by destruct (Hl eq_refl) as [-> _]|by destruct (Hb eq_refl) as [-> ->]]. Qed.

Lemma body_size_fit leaf l : Forall (item_fit leaf) l -> body_size l <= len l * 536870912.
Proof. induction 1 as [|x l Hx _ IH]; [done|]. rewrite body_size_cons, len_cons. pose proof (if_small _ _ Hx). lia. Qed.

Lemma node_bytes_fit leaf ps l : 80 <= ps <= 65536 -> Forall (item_fit leaf) l -> part_ok ps l -> len l < 65535 /\ node_bytes l < 4294901760.
Proof.
  intros Hps Hf Hp. pose proof (body_size_fit leaf l Hf). pose proof (body_size_nonneg l). pose proof (len_nonneg l). unfold part_ok, node_bytes, pageHeaderSize in *. lia.
Qed.

Lemma write_flags n p p' : write n p = Ok p' -> p_flags p' = Z.lor (p_flags p) (if isLeaf n then leafPageFlag else branchPageFlag).
Proof. unfold write. destruct (65535 <=? len (inodes n)); [done|]. destruct (u16 (len (inodes n)) =? 0); [by intros [= <-]|]. by intros (d & _ & [= <-])%rbind_Ok. Qed.

(** A node written into fresh pages. *)
Lemma write_fresh n id ps : 80 <= ps <= 65536 -> 2 <= id < 281474976710656 -> Forall (item_fit (isLeaf n)) (inodes n) -> part_ok ps (inodes n) ->
  (forall x, isLeaf n = false -> x ∈ inodes n -> 0 <= ipgid x < 281474976710656 /\ ipgid x <> id) ->
  exists p', write n (new_page ps id (pages_for n ps)) = Ok p' /\ p_id p' = id /\ p_overflow p' = p_overflow (new_page ps id (pages_for n ps)) /\
    page_fits ps p' /\ pview p' (isLeaf n) (inodes n).
Proof.
  intros Hps Hid Hf Hp Hg. destruct (node_bytes_fit _ _ _ Hps Hf Hp) as [Hc Hb]. rewrite <-size_bytes in Hb. destruct (pages_for_enough n ps) as [P1 P2]; [lia|].
  assert (P3 : pages_for n ps * ps <= size n + ps - 1) by (unfold pages_for; pose proof (Z.mul_div_le (size n + ps - 1) ps); lia).
  pose proof (len_new_page ps id (pages_for n ps) ltac:(unfold pageHeaderSize; lia) P2) as Hl. unfold pageHeaderSize in Hl.
  assert (Hu : u32 (pages_for n ps - 1) = pages_for n ps - 1) by (apply u32_small; nia).
  destruct (node_write_read n (new_page ps id (pages_for n ps)) n) as (p' & E & H1 & H2 & H3 & H4 & H5 & H6 & _).
  - split; [|done]. rewrite Forall_forall in *. intros x Hx. destruct (Hf x Hx) as [Fk _ Fl Fb]. cbn [new_page p_id]. destruct (isLeaf n).
    + destruct (Fl eq_refl) as [E1 E2]. by split; rewrite ?E1.
    + destruct (Fb eq_refl) as [E1 _]. destruct (Hg x eq_refl Hx) as [Hgx Hne]. split; [done|by rewrite E1|lia|done].
  - done.
  - unfold pageHeaderSize. lia.
  - lia.
  - exists p'. split; [done|]. split; [done|]. split; [done|]. pose proof (write_flags _ _ _ E) as Hfl. cbn [new_page p_flags p_id p_overflow] in *. rewrite Z.lor_0_l in Hfl. split.
    + split; [lia|rewrite Hfl; by destruct (isLeaf n)|rewrite H4; pose proof (len_nonneg (inodes n)); lia|rewrite H2, Hu; nia|].
      rewrite H3, Hl, H2, Hu. unfold pageHeaderSize. lia.
    + split; [done|rewrite Hfl; by destruct (isLeaf n)|done|done|]. intros i x Hx. pose proof (lookup_lt_Some _ _ _ Hx) as Hlt.
      destruct (H6 (Z.of_nat i)) as (y & Hy & ->); [unfold len; lia|]. rewrite Nat2Z.id, Hx in Hy. injection Hy as <-. f_equal. apply stored_fit. rewrite Forall_forall in Hf. apply Hf.
      by eapply list_elem_of_lookup_2.
Qed.

Section Spill.
Context {S : Type} {I : FreeStore S} {R : S -> gset Z -> Prop} `{!FreeStoreLaws I R}.
Context (pick : gset Z -> option Z) (Hpick : picks pick) (sys : Z -> bool).
Implicit Types (t : Tx S).

Abbreviation short t := (map_error sys (d_file (t_db t)) (psize t)) (only parsing).
Abbreviation space := (space (R := R)) (only parsing).

(** The page a node had. *)
Definition old_page t (n : node) (old : list page) : Prop :=
  (npgid n = 0 /\ old = []) \/ exists p, old = [p] /\ npgid n = p_id p /\ tx_page t (p_id p) = Ok p.

(** The items of a branch are live pages. *)
Definition linked (n : node) (L : list page) : Prop := isLeaf n = false -> forall x, x ∈ inodes n -> exists p, p ∈ L /\ ipgid x = p_id p.

Lemma space_ids t L P p : space t L P -> p ∈ L -> 2 <= p_id p < 281474976710656.
Proof.
  intros [F H] Hp. pose proof (sp_live _ _ _ _ H) as Hl. rewrite Forall_forall in Hl. destruct (Hl p Hp) as (H2 & Ho & Hw & _). pose proof (sp_ps _ _ _ _ H).
  destruct (sp_room _ _ _ _ H) as [Hr _]. unfold maxMapSize in Hr. nia.
Qed.

(** The first half of [spill_part]: the old page is freed, new ones are filled. *)
Definition to_page t (b : Bucket) (r : Z) : outcome (Tx S * Bucket * node) :=
  let! (t, b) :=
    (let! n := deref b r in
     if 0 <? npgid n then let! t := tx_free t (npgid n) in Ok (t, set_node b r (with_npgid n 0)) else Ok (t, b)) in
  let! n := deref b r in
  let! (t, p, _) := tx_allocate pick sys t (pages_for n (d_pageSize (t_db t))) in
  if m_pgid (t_meta t) <=? p_id p then Panic
  else
    let n := with_npgid n (p_id p) in
    let! p := Bdb.write n p in
    Ok (with_pages t (<[p_id p := p]> (t_pages t)), b, with_spilled n true).

Definition to_parent t (b : Bucket) (r : Z) (n : node) : outcome (Tx S * Bucket) :=
  match parent n with
  | None => Ok (t, set_node b r n)
  | Some q =>
      match inodes n with
      | [] => Panic
      | x :: _ =>
          let key := match nkey n with Some k => k | None => ikey x end in
          let! m := deref b q in
          let! m := put (m_pgid (t_meta t)) m key (ikey x) [] (npgid n) 0 in
          let b := set_node b q m in
          if len (ikey x) =? 0 then Panic else Ok (t, set_node b r (with_nkey n (Some (ikey x))))
      end
  end.

Lemma spill_part_eq t b r : spill_part pick sys t b r = (let! (t, b, n) := to_page t b r in to_parent t b r n).
Proof.
  unfold spill_part, to_page, to_parent. destruct (let! n := deref b r in _) as [[t1 b1]|e|]; cbn [rbind]; [|done|done]. destruct (deref b1 r) as [n|e|]; cbn [rbind]; [|done|done].
  destruct (tx_allocate pick sys t1 _) as [[[t2 p] f]|e|]; cbn [rbind]; [|done|done]. destruct (m_pgid (t_meta t2) <=? p_id p); [done|]. by destruct (Bdb.write _ p).
Qed.

Lemma to_page_parent t b r n : heap b !! r = Some n -> match to_page t b r with Ok (_, _, n') => parent n' = parent n | _ => True end.
Proof.
  intros Hn. unfold to_page. unfold deref at 1. rewrite Hn. cbn [rbind].
  assert (Hgo : forall t1 b1 n1, heap b1 !! r = Some n1 -> parent n1 = parent n ->
    match (let! n := deref b1 r in let! (t, p, _) := tx_allocate pick sys t1 (pages_for n (d_pageSize (t_db t1))) in
           if m_pgid (t_meta t) <=? p_id p then Panic
           else let n := with_npgid n (p_id p) in let! p := Bdb.write n p in Ok (with_pages t (<[p_id p := p]> (t_pages t)), b1, with_spilled n true)) with
    | Ok (_, _, n') => parent n' = parent n | _ => True end).
  { intros t1 b1 n1 H1 Hp. unfold deref. rewrite H1. cbn [rbind]. destruct (tx_allocate _ _ _ _) as [[[t2 p] f]|e|]; cbn [rbind]; [|done|done].
    destruct (m_pgid (t_meta t2) <=? p_id p); [done|]. destruct (Bdb.write _ p); cbn [rbind]; done. }
  destruct (0 <? npgid n); [|by apply (Hgo _ _ n)]. destruct (tx_free t (npgid n)) as [t1|e|]; cbn [rbind]; [|done|done]. apply (Hgo _ _ (with_npgid n 0)); [apply lookup_insert_eq|done].
Qed.

Lemma to_page_ok t b r n L P old : heap b !! r = Some n -> old_page t n old -> space t (old ++ L) P -> Forall (item_fit (isLeaf n)) (inodes n) ->
  part_ok (psize t) (inodes n) -> linked n L ->
  yields (short t) (to_page t b r) (fun '(t', b', n') => exists p, space t' (p :: L) P /\ step t t' L /\ tx_page t' (p_id p) = Ok p /\ pview p (isLeaf n) (inodes n) /\
    p_id p < hwm t' /\ n' = with_spilled (with_npgid n (p_id p)) true /\ same_bucket b b' /\ nextRef b' = nextRef b /\ (forall k, k <> r -> heap b' !! k = heap b !! k)).
Proof.
  intros Hn Hold Hsp Hf Hp Hlk. unfold to_page.
  eapply (yields_bind _ _ _ (fun '(t1, b1) => exists n1, space t1 L P /\ step t t1 L /\ t_meta t1 = t_meta t /\ same_bucket b b1 /\ nextRef b1 = nextRef b /\
    (forall k, k <> r -> heap b1 !! k = heap b !! k) /\ heap b1 !! r = Some n1 /\ (forall g, with_npgid n1 g = with_npgid n g))).
  - unfold deref. rewrite Hn. cbn [rbind]. destruct Hold as [[E ->]|(p & -> & E & Hpg)].
    + rewrite E. cbn. exists n. split; [done|]. split; [apply step_refl|]. done.
    + pose proof (space_ids t _ P p Hsp ltac:(by left)). rewrite E. destruct (Z.ltb_spec 0 (p_id p)); [|lia].
      destruct (space_free t p L P Hsp Hpg) as (t1 & -> & Hs1 & _ & Hm & Hst). cbn. exists (with_npgid n 0). split; [done|]. split; [done|]. split; [done|]. split; [done|]. split; [done|].
      split; [intros k Hk; by rewrite lookup_insert_ne|]. split; [apply lookup_insert_eq|]. done.
  - intros [t1 b1] (n1 & Hs1 & Hst1 & Hm1 & Hsb & Hnx & Hh & Hr & Hn1). unfold deref. rewrite Hr. cbn [rbind].
    assert (En : inodes n1 = inodes n /\ isLeaf n1 = isLeaf n /\ size n1 = size n). { specialize (Hn1 0). unfold with_npgid in Hn1. destruct n, n1; cbn in *. injection Hn1 as -> -> -> -> -> -> ->. done. }
    destruct En as (En & El & Ez). assert (Epf : pages_for n1 (d_pageSize (t_db t1)) = pages_for n (psize t)). { unfold pages_for. rewrite Ez. fold (psize t1). by rewrite (st_ps _ _ _ Hst1). }
    rewrite Epf. pose proof Hs1 as [F1 H1]. pose proof (sp_ps _ _ _ _ H1) as Hps. rewrite (st_ps _ _ _ Hst1) in Hps.
    destruct (node_bytes_fit _ _ _ Hps Hf Hp) as [_ Hb]. rewrite <-size_bytes in Hb. destruct (pages_for_enough n (psize t)) as [_ P2]; [lia|].
    assert (P3 : pages_for n (psize t) * psize t <= size n + psize t - 1) by (unfold pages_for; pose proof (Z.mul_div_le (size n + psize t - 1) (psize t)); lia).
    assert (Hal : yields (short t) (tx_allocate pick sys t1 (pages_for n (psize t))) (fun '(t', p, _) => space t' (p :: L) P /\
      p = new_page (psize t) (p_id p) (pages_for n (psize t)) /\ t_pages t' !! p_id p = Some p /\ p_id p < hwm t' /\ step t t' L)).
    { rewrite <-(st_file _ _ _ Hst1), <-(st_ps _ _ _ Hst1). eapply yields_mono; [apply space_allocate; [done|exact Hs1|rewrite (st_ps _ _ _ Hst1); nia]|].
      intros [[t2 p] f] (A1 & A2 & A3 & A4 & A5 & _). split; [done|]. split; [done|]. split; [rewrite A3; apply lookup_insert_eq|]. split; [done|]. by eapply step_trans. }
    eapply yields_bind; [exact Hal|].
    intros [[t2 p] f] (A1 & A2 & A3 & A4 & A5). fold (hwm t2). destruct (Z.leb_spec (hwm t2) (p_id p)); [lia|].
    pose proof (space_ids t2 _ P p A1 ltac:(by left)) as Hpid.
    destruct (write_fresh (with_npgid n1 (p_id p)) (p_id p) (psize t)) as (p' & E & W1 & W2 & W3 & W4); cbn [with_npgid isLeaf inodes]; rewrite ?En, ?El; [done|done|done|done| |].
    + intros x Hx Hin. destruct (Hlk Hx x Hin) as (px & Hpx & ->). split; [pose proof (space_ids t2 _ P px A1 ltac:(by right)); lia|].
      destruct A1 as [F2 H2]. pose proof (sp_apart _ _ _ _ H2) as Hap. inversion_clear Hap as [|? ? Ha _]. rewrite Forall_forall in Ha. specialize (Ha px Hpx).
      pose proof (sp_live _ _ _ _ H2) as Hlv. rewrite Forall_forall in Hlv. destruct (Hlv px ltac:(by right)) as (_ & O1 & _). destruct (Hlv p ltac:(by left)) as (_ & O2 & _).
      unfold apart in Ha. lia.
    + assert (Ep : pages_for (with_npgid n1 (p_id p)) (psize t) = pages_for n (psize t)) by (unfold pages_for; change (size (with_npgid n1 (p_id p))) with (size n1); by rewrite Ez).
      rewrite Ep in E, W2. rewrite <-A2 in E, W2. rewrite E. cbn [rbind yields].
      destruct (space_fill t2 p p' L P A1 A3 W1 W2) as (B1 & B2 & B3); [by rewrite (st_ps _ _ _ A5)|]. exists p'. split; [done|]. split; [by eapply step_trans|]. split; [done|].
      cbn [with_npgid isLeaf inodes] in W4. rewrite En, El in W4. split; [done|]. split; [rewrite W1; exact A4|]. split; [rewrite W1; by rewrite Hn1|]. done.
Qed.

(** ** A part and its parent *)

(** A node that is done. *)
Definition done_node (b : Bucket) (r q : Z) : Prop := exists n, heap b !! r = Some n /\ spilled n = true /\ parent n = Some q /\ inodes n <> [].

Lemma spill_part_ok t b r n q m L P old x l A C :
  heap b !! r = Some n -> parent n = Some q -> heap b !! q = Some m -> r <> q -> inodes n = x :: l ->
  old_page t n old -> space t (old ++ L) P -> Forall (item_fit (isLeaf n)) (inodes n) -> part_ok (psize t) (inodes n) -> linked n L ->
  (forall id w, id < w -> put w m (match nkey n with Some k => k | None => ikey x end) (ikey x) [] id 0 = Ok (with_inodes m (A ++ mkInode 0 id (ikey x) [] :: C))) ->
  yields (short t) (spill_part pick sys t b r) (fun '(t', b') => exists p, space t' (p :: L) P /\ step t t' L /\ tx_page t' (p_id p) = Ok p /\ pview p (isLeaf n) (inodes n) /\
    same_bucket b b' /\ nextRef b' = nextRef b /\ heap b' !! q = Some (with_inodes m (A ++ pitem p (inodes n) :: C)) /\ done_node b' r q /\
    forall k, k <> r -> k <> q -> heap b' !! k = heap b !! k).
Proof.
  intros Hn Hp Hq Hrq El Hold Hsp Hf Hpt Hlk Hput. rewrite spill_part_eq. eapply yields_bind; [by eapply to_page_ok|].
  intros [[t1 b1] n1] (p & S1 & S2 & S3 & S4 & S5 & -> & S6 & S7 & S8). unfold to_parent. cbn [with_spilled with_npgid parent inodes nkey npgid]. rewrite Hp, El.
  unfold deref. rewrite S8, Hq by done. cbn [rbind]. rewrite Hput by exact S5. cbn [rbind].
  assert (Hk : ikey x <> []). { rewrite El in Hf. apply Forall_cons_1 in Hf as [Hx _]. apply (if_key _ _ Hx). }
  pose proof (len_pos _ Hk). destruct (Z.eqb_spec (len (ikey x)) 0); [lia|]. cbn [yields]. exists p. split; [done|]. split; [done|]. split; [done|]. rewrite <-El. split; [done|]. split; [done|]. split; [done|].
  split; [|split].
  - cbn. rewrite lookup_insert_ne by done. rewrite lookup_insert_eq. unfold pitem. by rewrite El.
  - eexists. split; [cbn; apply lookup_insert_eq|]. cbn. rewrite El. done.
  - intros k K1 K2. cbn. rewrite !lookup_insert_ne by done. by apply S8.
Qed.

(** Fits and links of the parts of a node. *)
Definition good_part (leaf : bool) (ps : Z) (L : list page) (l : list inode) : Prop :=
  l <> [] /\ Forall (item_fit leaf) l /\ part_ok ps l /\ (leaf = false -> forall x, x ∈ l -> exists p, p ∈ L /\ ipgid x = p_id p).

Abbreviation written t := (on_page (tx_page t)) (only parsing).

Lemma with_inodes_twice n l k : with_inodes (with_inodes n l) k = with_inodes n k.
Proof. by destruct n. Qed.

(** The parts behind the first one are new to the parent. *)
Lemma spill_rest_ok n q C P ls : forall t b rs m A L,
  Forall2 (fun r l => heap b !! r = Some (second n q l)) rs ls -> NoDup rs -> q ∉ rs -> heap b !! q = Some m -> inodes m = A ++ C -> ksorted (A ++ C) ->
  space t L P -> Forall (good_part (isLeaf n) (psize t) L) ls -> ksorted (concat ls) ->
  Forall (fun x => below (ikey x) A /\ above (ikey x) C) (concat ls) ->
  yields (short t) (spill_parts pick sys t b rs) (fun '(t', b') => exists ps, Forall2 (written t' (isLeaf n)) ps ls /\ space t' (ps ++ L) P /\ step t t' L /\
    same_bucket b b' /\ nextRef b' = nextRef b /\ heap b' !! q = Some (with_inodes m (A ++ zip_with pitem ps ls ++ C)) /\ Forall (fun r => done_node b' r q) rs /\
    forall k, k ∉ rs -> k <> q -> heap b' !! k = heap b !! k).
Proof.
  induction ls as [|l ls IH]; intros t b rs m A L Hrs Hnd Hqrs Hq Em Hs Hsp Hg Hsl Hab.
  - apply Forall2_nil_inv_r in Hrs as ->. cbn. exists []. split; [constructor|]. split; [done|]. split; [apply step_refl|]. split; [done|]. split; [done|].
    cbn. rewrite <-Em, with_inodes_same. done.
  - apply Forall2_cons_inv_r in Hrs as (r & rs' & Hr & Hrs & ->). apply NoDup_cons in Hnd as [Hrn Hnd]. apply Forall_cons_1 in Hg as [(Hne & Hf & Hpt & Hlk) Hg].
    rewrite not_elem_of_cons in Hqrs. destruct Hqrs as [Hqr Hqrs]. destruct l as [|x l]; [done|]. cbn [concat app] in Hsl, Hab.
    pose proof Hsl as Hsl0. apply StronglySorted_inv in Hsl0 as [Hsl0 Hx]. apply Forall_cons_1 in Hab as [[Hxa Hxc] Hab].
    assert (Hkx : ikey x <> []) by (apply Forall_cons_1 in Hf as [Hx' _]; apply (if_key _ _ Hx')).
    cbn [spill_parts]. eapply yields_bind.
    + eapply (spill_part_ok t b r (second n q (x :: l)) q m L P [] x l A C); [done|done|done|done|done|by left|done|done|done|done|].
      intros id w Hw. cbn [second new_node with_inodes nkey]. apply put_insert; [done|done|done|done|by rewrite Em|done|done].
    + intros [t1 b1] (p & S1 & S2 & S3 & S4 & S5 & S6 & S7 & S8 & S9). cbn [second with_inodes new_node isLeaf inodes] in *.
      set (m1 := with_inodes m (A ++ pitem p (x :: l) :: C)) in *.
      assert (Hpk : ikey (pitem p (x :: l)) = ikey x) by done.
      rewrite <-(st_file _ _ _ S2), <-(st_ps _ _ _ S2). eapply yields_mono; [eapply (IH t1 b1 rs' m1 (A ++ [pitem p (x :: l)]) (p :: L)); try done|].
      * clear -Hrs S9 Hrn Hqrs. induction Hrs as [|r' l' rs' ls' Hr' _ IHr]; [constructor|]. rewrite not_elem_of_cons in Hrn, Hqrs. constructor; [|apply IHr; tauto]. rewrite S9; [done|naive_solver|naive_solver].
      * cbn. by rewrite <-app_assoc.
      * rewrite <-app_assoc. cbn [app]. apply StronglySorted_app in Hs as (HAC & HA & HC). apply StronglySorted_app_2; [|done|].
        -- intros u v Hu [->|Hv]%elem_of_cons; [rewrite Hpk; unfold below in Hxa; rewrite Forall_forall in Hxa; by apply Hxa|by apply HAC].
        -- constructor; [done|]. by rewrite Hpk.
      * rewrite (st_ps _ _ _ S2). eapply Forall_impl; [exact Hg|]. intros k (G1 & G2 & G3 & G4). split; [done|]. split; [done|]. split; [done|]. intros Hl y Hy. destruct (G4 Hl y Hy) as (py & ? & ?).
        exists py. split; [by right|done].
      * apply StronglySorted_app in Hsl0. apply Hsl0.
      * rewrite Forall_forall in *. intros y Hy. assert (Hyl : y ∈ l ++ concat ls) by (apply elem_of_app; by right). destruct (Hab y Hyl) as [Hya Hyc]. split; [|done].
        apply Forall_app. split; [done|]. constructor; [|constructor]. rewrite Hpk. by apply Hx.
      * intros [t2 b2] (ps & T1 & T2 & T3 & T4 & T5 & T6 & T7 & T8). exists (p :: ps). split; [|split; [|split; [|split; [|split; [|split; [|split]]]]]].
        -- constructor; [|done]. split; [|done]. rewrite (st_read _ _ _ T3); [done|by left].
        -- eapply space_perm; [|exact T2]. cbn. solve_Permutation.
        -- eapply step_trans; [exact S2|]. eapply step_sub; [|exact T3]. intros y Hy. by right.
        -- by eapply same_bucket_trans.
        -- lia.
        -- rewrite T6. unfold m1. rewrite with_inodes_twice. by rewrite <-app_assoc.
        -- constructor; [|done]. destruct S8 as (n' & N1 & N2). exists n'. split; [|done]. by rewrite T8.
        -- intros k Hk Hkq. rewrite not_elem_of_cons in Hk. rewrite T8 by tauto. apply S9; tauto.
Qed.

Lemma parts_nonempty fuel ps leaf l : l <> [] -> Forall (fun k => k <> []) (parts fuel ps leaf l).
Proof.
  revert l. induction fuel as [|fuel IH]; intros l Hl; cbn [parts]; [by constructor|]. destruct (whole ps l) eqn:E; [by constructor|].
  apply whole_false in E as [Hl' _]. destruct (split_at_spec ps leaf l Hl') as [H1 _]. unfold len in Hl'. constructor.
  - intros E. apply (f_equal length) in E. rewrite length_take in E. cbn in E. lia.
  - apply IH. intros E. apply (f_equal length) in E. rewrite length_drop in E. cbn in E. lia.
Qed.

Lemma whole_part ps l : whole ps l = true -> part_ok ps l.
Proof. unfold whole, part_ok, minKeysPerPage. intros [H%Z.leb_le|H%Z.ltb_lt]%orb_true_iff; lia. Qed.

(** ** A node with its parent *)

(** Where the parent has the node, between [A] and [C]: it is replaced there, or
    put into a parent that is empty. *)
Definition slot (n m : node) (A C : list inode) : Prop :=
  (exists x, inodes m = A ++ x :: C /\ nkey n = Some (ikey x) /\ ikey x <> []) \/ (inodes m = [] /\ A = [] /\ C = [] /\ nkey n <> Some []).

Lemma slot_put n m A C w id x : slot n m A C -> ksorted (inodes m) -> ikey x <> [] -> id < w ->
  put w m (match nkey n with Some k => k | None => ikey x end) (ikey x) [] id 0 = Ok (with_inodes m (A ++ mkInode 0 id (ikey x) [] :: C)).
Proof.
  intros [(y & Em & Hk & Hy)|(Em & -> & -> & Hk)] Hs Hx Hw.
  - rewrite Hk. by apply (put_replace w m (ikey y) (ikey x) [] id 0 Hw Hy Hx A y C).
  - apply put_insert; [done| |done|done|done|constructor|constructor]. destruct (nkey n) as [k|]; [|done]. by intros ->.
Qed.

Lemma ksorted_splice A l C : ksorted (A ++ C) -> ksorted l -> Forall (fun x => below (ikey x) A /\ above (ikey x) C) l -> ksorted (A ++ l ++ C).
Proof.
  intros Hs Hl Hb. apply StronglySorted_app in Hs as (HAC & HA & HC). rewrite Forall_forall in Hb. apply StronglySorted_app_2; [|done|apply StronglySorted_app_2; [|done|done]].
  - intros u v Hu [Hv|Hv]%elem_of_app; [|by apply HAC]. destruct (Hb v Hv) as [H _]. unfold below in H. rewrite Forall_forall in H. by apply H.
  - intros u v Hu Hv. destruct (Hb u Hu) as [_ H]. unfold above in H. rewrite Forall_forall in H. by apply H.
Qed.

Lemma slot_sorted n m A C : slot n m A C -> ksorted (inodes m) -> ksorted (A ++ C).
Proof.
  intros [(y & -> & _)|(_ & -> & -> & _)] Hs; [|constructor]. apply StronglySorted_app in Hs as (H1 & H2 & H3). apply StronglySorted_inv in H3 as [H3 _].
  apply StronglySorted_app_2; [|done|done]. intros u v Hu Hv. apply H1; [done|by right].
Qed.

(** The parts of a node become pages, and the parent has their numbers. *)
Record spread t t' (b b' : Bucket) (r q : Z) (n m : node) (A C : list inode) (L P : list page) (ps : list page) (ls : list (list inode)) (rs : list Z) : Prop := mkSpread {
  sd_concat : concat ls = inodes n;
  sd_ne : ls <> [] /\ Forall (fun l => l <> []) ls;
  sd_len : 2 <= len (inodes n) -> len ls * 2 <= len (inodes n);
  sd_written : Forall2 (written t' (isLeaf n)) ps ls;
  sd_space : space t' (ps ++ L) P;
  sd_step : step t t' L;
  sd_same : same_bucket b b';
  sd_next : nextRef b <= nextRef b';
  sd_below : refs_below b';
  sd_parent : heap b' !! q = Some (with_inodes (with_children m (children m ++ rs)) (A ++ zip_with pitem ps ls ++ C));
  sd_done : Forall (fun c => done_node b' c q) (r :: rs);
  sd_new : Forall (fun c => nextRef b <= c) rs;
  sd_heap : forall k, k < nextRef b -> k <> r -> k <> q -> heap b' !! k = heap b !! k
}.

Lemma len_double {A} (ls : list (list A)) : Forall (fun l => 2 <= len l) ls -> len ls * 2 <= len (concat ls).
Proof. induction 1 as [|l ls Hl _ IH]; [done|]. cbn [concat]. rewrite len_cons, len_app. lia. Qed.

Lemma spread_ok t b r n q m L P old A C :
  heap b !! r = Some n -> parent n = Some q -> heap b !! q = Some m -> r <> q -> refs_below b -> inodes n <> [] -> ksorted (inodes n) ->
  slot n m A C -> ksorted (inodes m) -> Forall (fun x => below (ikey x) A /\ above (ikey x) C) (inodes n) ->
  old_page t n old -> space t (old ++ L) P -> Forall (item_fit (isLeaf n)) (inodes n) -> linked n L ->
  yields (short t) (let! (b, l) := split (Datatypes.S (length (inodes n))) (psize t) b r in spill_parts pick sys t b l)
    (fun '(t', b') => exists ps ls rs, spread t t' b b' r q n m A C L P ps ls rs).
Proof.
  intros Hn Hp Hq Hrq Hb Hne Hs Hsl Hsm Hbt Hold Hsp Hf Hlk. pose proof Hsp as [F H0]. pose proof (sp_ps _ _ _ _ H0) as Hps. clear F H0.
  set (fuel := Datatypes.S (length (inodes n))).
  destruct (split_spec fuel (psize t) b r n q m ltac:(unfold pageHeaderSize; lia) Hb Hn Hp Hq Hrq ltac:(unfold fuel; lia)) as (b1 & -> & SI). cbn [rbind].
  pose proof (parts_concat fuel (psize t) (isLeaf n) (inodes n)) as Hc. pose proof (parts_ok fuel (psize t) (isLeaf n) (inodes n) ltac:(unfold fuel; lia)) as Hok.
  pose proof (parts_two fuel (psize t) (isLeaf n) (inodes n)) as Htwo. pose proof (parts_nonempty fuel (psize t) (isLeaf n) (inodes n) Hne) as Hnep.
  pose proof (parts_ne fuel (psize t) (isLeaf n) (inodes n)) as Hlne. set (ls := parts fuel (psize t) (isLeaf n) (inodes n)) in *. clearbody ls.
  destruct ls as [|l ls]; [done|]. clear Hlne. destruct SI as [S1 S2 S3 S4 S5 S6]. rewrite len_cons in *. replace (1 + len ls - 1) with (len ls) in * by lia. cbn [head default] in S3.
  set (rs := seqZ (nextRef b) (len ls)) in *. pose proof (Hb _ _ Hn) as Hlr. pose proof (Hb _ _ Hq) as Hlq. cbn [concat] in Hc.
  assert (Hrs : forall k, k ∈ rs -> nextRef b <= k < nextRef b1) by (intros k Hk%elem_of_seqZ; lia).
  destruct l as [|x l]; [by apply Forall_cons_1 in Hnep as [? _]|]. apply Forall_cons_1 in Hnep as [_ Hnep]. apply Forall_cons_1 in Hok as [Hok1 Hok].
  assert (Hsub : forall y, y ∈ x :: l -> y ∈ inodes n) by (intros y Hy; rewrite <-Hc; apply elem_of_app; by left).
  assert (Hsub2 : forall y, y ∈ concat ls -> y ∈ inodes n) by (intros y Hy; rewrite <-Hc; apply elem_of_app; by right).
  pose proof Hs as Hs0. rewrite <-Hc in Hs0. apply StronglySorted_app in Hs0 as (Hs1 & Hs2 & Hs3).
  set (m1 := with_children m (children m ++ rs)) in *. set (n1 := with_inodes n (x :: l)) in *. cbn [spill_parts].
  rewrite Forall_forall in Hf, Hbt. assert (Hkx : ikey x <> []) by (apply (if_key _ _ (Hf x (Hsub x ltac:(by left))))).
  eapply yields_bind.
  - eapply (spill_part_ok t b1 r n1 q m1 L P old x l A C); [done|done|done|done|done|exact Hold|done| |done| |].
    + apply Forall_forall. intros y Hy. by apply Hf, Hsub.
    + intros Hl y Hy. apply (Hlk Hl y), Hsub, Hy.
    + intros id w Hw. apply (slot_put n m1 A C w id x); [exact Hsl|exact Hsm|done|done].
  - intros [t1 b2] (p & T1 & T2 & T3 & T4 & T5 & T6 & T7 & T8 & T9). cbn [n1 with_inodes isLeaf inodes] in T4, T7.
    set (m2 := with_inodes m1 (A ++ pitem p (x :: l) :: C)) in *. rewrite <-(st_file _ _ _ T2), <-(st_ps _ _ _ T2).
    pose proof (slot_sorted n m A C Hsl Hsm) as HAC. destruct (Hbt x (Hsub x ltac:(by left))) as [HxA HxC].
    eapply yields_mono; [eapply (spill_rest_ok n q C P ls t1 b2 rs m2 (A ++ [pitem p (x :: l)]) (p :: L))|].
    + apply Forall2_lookup. intros j. unfold rs. destruct (ls !! j) as [k|] eqn:Ek.
      * pose proof (lookup_lt_Some _ _ _ Ek). rewrite lookup_seqZ_lt by (unfold len; lia). constructor. rewrite T9 by lia. exact (S5 j k Ek).
      * rewrite lookup_seqZ_ge by (apply lookup_ge_None in Ek; unfold len; lia). constructor.
    + apply NoDup_seqZ.
    + intros Hin%Hrs. lia.
    + exact T7.
    + cbn. by rewrite <-app_assoc.
    + rewrite <-app_assoc. apply (ksorted_splice A [pitem p (x :: l)] C); [done|repeat constructor|]. by constructor.
    + exact T1.
    + rewrite (st_ps _ _ _ T2). apply Forall_forall. intros k Hk. rewrite Forall_forall in Hnep, Hok. split; [by apply Hnep|].
      assert (Hin : forall y, y ∈ k -> y ∈ inodes n) by (intros y Hy; apply Hsub2, elem_of_concat; by exists k).
      split; [apply Forall_forall; intros y Hy; by apply Hf, Hin|]. split; [by apply Hok|]. intros Hl y Hy. destruct (Hlk Hl y (Hin y Hy)) as (py & ? & ?). exists py. split; [by right|done].
    + done.
    + apply Forall_forall. intros y Hy. destruct (Hbt y (Hsub2 y Hy)) as [HyA HyC]. split; [|done]. apply Forall_app. split; [done|]. constructor; [|constructor].
      change (cmp (ikey x) (ikey y) < 0). apply Hs1; [by left|done].
    + intros [t2 b3] (ps & U1 & U2 & U3 & U4 & U5 & U6 & U7 & U8). exists (p :: ps), ((x :: l) :: ls), rs.
      assert (Hframe : forall k, k <> r -> k <> q -> k < nextRef b \/ nextRef b1 <= k -> heap b3 !! k = heap b !! k).
      { intros k K1 K2 K3. rewrite U8; [|intros Hin%Hrs; lia|done]. rewrite T9 by done. by apply S6. }
      split.
      * done.
      * by split; [|constructor].
      * intros H2. specialize (Htwo H2). rewrite <-Hc. by apply (len_double ((x :: l) :: ls)).
      * constructor; [|done]. split; [|done]. rewrite (st_read _ _ _ U3); [done|by left].
      * eapply space_perm; [|exact U2]. cbn. solve_Permutation.
      * eapply step_trans; [exact T2|]. eapply step_sub; [|exact U3]. intros y Hy. by right.
      * eapply same_bucket_trans; [exact S1|]. by eapply same_bucket_trans.
      * pose proof (len_nonneg ls). lia.
      * intros k z Hk. pose proof (len_nonneg ls). rewrite U5, T6. destruct (Z.lt_ge_cases k (nextRef b1)) as [|Hge]; [done|]. rewrite Hframe in Hk by lia. apply Hb in Hk. lia.
      * rewrite U6. unfold m2. rewrite with_inodes_twice. by rewrite <-app_assoc.
      * constructor; [|done]. destruct T8 as (n' & N1 & N2). exists n'. split; [|done]. rewrite U8; [done|intros Hin%Hrs; lia|done].
      * apply Forall_forall. intros k Hk%Hrs. lia.
      * intros k K1 K2 K3. apply Hframe; [done|done|by left].
Qed.

(** ** The children *)

Lemma sort_children_ok (b : Bucket) l : (forall c, c ∈ l -> exists n, heap b !! c = Some n /\ inodes n <> []) -> exists l', sort_children b l = Ok l' /\ l' ≡ₚ l.
Proof.
  intros H. unfold sort_children. destruct (len l <=? 1); [by exists l|]. rewrite bool_decide_eq_true_2.
  - eexists. split; [done|]. rewrite merge_sort_Permutation, <-list_fmap_compose. rewrite (list_fmap_id l) at 1. done.
  - apply Forall_forall. intros c Hc. destruct (H c Hc) as (n & Hn & Hne). unfold first_key. rewrite Hn. cbn. destruct (inodes n); [done|]. by eexists.
Qed.

Lemma spill_done t b c q n : done_node b c q -> spill pick sys (Datatypes.S n) t b c = Ok (t, b).
Proof. intros (m & Hm & Hs & _). cbn [spill]. unfold deref. rewrite Hm. cbn [rbind]. by rewrite Hs. Qed.

(** The rest of the children, when they are done. *)
Lemma spill_from_done t b r n extra : forall pre, heap b !! r = Some n -> children n = pre ++ extra -> Forall (fun c => done_node b c r) extra ->
  settles (short t) (fun k => spill_from pick sys k t b r (length pre)) (fun p => p = (t, b)).
Proof.
  induction extra as [|c extra IH]; intros pre Hn Hc Hd.
  - eapply settles_S; [|by apply (settles_const _ (Ok (t, b)))]. intros k. cbn [spill_from]. unfold deref. rewrite Hn. cbn [rbind]. rewrite Hc, app_nil_r, lookup_ge_None_2; done.
  - apply Forall_cons_1 in Hd as [Hd1 Hd]. eapply settles_S.
    + intros k. cbn [spill_from]. unfold deref. rewrite Hn. cbn [rbind]. rewrite Hc, list_lookup_middle by done. reflexivity.
    + eapply settles_bind.
      * eapply settles_S; [|by apply (settles_const _ (Ok (t, b)) (fun p => p = (t, b)))]. intros k. by eapply spill_done.
      * intros a ->. specialize (IH (pre ++ [c]) Hn). rewrite length_app in IH. cbn [length] in IH. rewrite Nat.add_1_r in IH. apply IH; [by rewrite <-app_assoc|done].
Qed.

(** ** A node whose children are pages *)

Lemma items_keys (pg : Z -> outcome page) {h} (s : ot h) x : kids_laid pg s -> x ∈ items (strip s) -> exists e, e ∈ contents (strip s) /\ ikey e = ikey x.
Proof.
  destruct h as [|h]; destruct s as [y K]; intros Hk Hx; [by exists x|]. rewrite contents_kcontents. rewrite strip_S in Hx. cbn [items snd] in Hx. rewrite <-kitem_skid in Hx.
  apply list_elem_of_fmap in Hx as (z & -> & Hz). change (Forall (klaid pg) K) in Hk. rewrite Forall_forall in Hk. destruct (klaid_key pg z (Hk z Hz)) as (e & l & E & Ek).
  exists e. split; [|exact Ek]. apply (kcontents_elem K z); [done|]. rewrite E. by left.
Qed.

Lemma items_fit (pg : Z -> outcome page) {h} (s : ot h) : kids_laid pg s -> Forall (item_fit true) (contents (strip s)) -> Forall (item_fit (is_leaf h)) (items (strip s)).
Proof.
  intros Hk Hf. apply Forall_forall. intros x Hx. destruct (items_keys pg s x Hk Hx) as (e & He & Ek). rewrite Forall_forall in Hf. destruct h as [|h]; destruct s as [y K].
  - by apply Hf.
  - rewrite strip_S in Hx. cbn [items snd] in Hx. apply list_elem_of_fmap in Hx as (z & -> & Hz). destruct (Hf e He) as [F1 F2 _ _]. rewrite Ek in F1, F2.
    split; [done| |done|done]. cbn in *. pose proof (len_nonneg (ivalue e)). change (len (@nil Z)) with 0. lia.
Qed.

Lemma node_items_sorted (pg : Z -> outcome page) {h} (s : ot h) : kids_laid pg s -> ksorted (contents (strip s)) -> ksorted (items (strip s)).
Proof.
  destruct h as [|h]; destruct s as [y K]; intros Hk Hs; [done|]. rewrite contents_kcontents in Hs. rewrite strip_S. by eapply klaid_keys_sorted.
Qed.

Lemma kids_linked {h} (s : ot h) L n : isLeaf n = is_leaf h -> inodes n = items (strip s) -> linked n (kid_pgs s ++ L).
Proof.
  intros Hl Hi Hn x Hx. rewrite Hi in Hx. destruct h as [|h]; [cbn in Hl; congruence|]. destruct s as [y K]. rewrite strip_S in Hx. cbn [items snd] in Hx. rewrite <-kitem_skid in Hx.
  apply list_elem_of_fmap in Hx as (z & -> & Hz). exists (pag z.2). split; [|by rewrite <-tid_strip]. apply elem_of_app. left. rewrite kid_pgs_S. apply (elem_all_pgs K z); [done|].
  rewrite pgs_kids. by left.
Qed.

Lemma kids_laid_frame (pg pg' : Z -> outcome page) {h} (s : ot h) : kids_laid pg s -> (forall p, p ∈ kid_pgs s -> pg' (p_id p) = pg (p_id p)) -> kids_laid pg' s.
Proof.
  destruct h as [|h]; [done|]. destruct s as [x K]. intros Hk Hp. change (Forall (klaid pg) K) in Hk. change (Forall (klaid pg') K). rewrite kid_pgs_S in Hp.
  rewrite Forall_forall in *. intros y Hy. destruct (Hk y Hy) as [H1 H2]. split; [|done]. eapply laid_frame; [exact H1|]. intros p Hin. apply Hp. by apply (elem_all_pgs K y).
Qed.

Lemma kids_laid_refs (pg : Z -> outcome page) {h} (s : ot h) r : kids_laid pg s -> ref s = Some r -> refs s = [r].
Proof.
  destruct h as [|h]; destruct s as [[p o] K]; intros Hk E; cbn in E; subst o; [done|]. rewrite refs_S. cbn [snd option_list app]. f_equal. change (Forall (klaid pg) K) in Hk.
  induction Hk as [|y K [Hy _] _ IH]; [done|]. rewrite kheads_cons, omap_app, IH, app_nil_r. exact (laid_refs pg _ Hy).
Qed.

(** What spilling a child gives its parent [m]: trees on pages in its place. *)
Record kid_spilled {h} t t' (b b' : Bucket) (q : Z) (m : node) (s : ot h) (A C : list inode) (L P : list page) (ts : list (bytes * ot h)) (rs : list Z) : Prop := mkKidSpilled {
  ks_laid : Forall (klaid (tx_page t')) ts;
  ks_contents : concat ((fun x => contents (strip x.2)) <$> ts) = contents (strip s);
  ks_space : space t' (all_pgs ts ++ L) P;
  ks_step : step t t' L;
  ks_same : same_bucket b b';
  ks_next : nextRef b <= nextRef b';
  ks_below : refs_below b';
  ks_parent : heap b' !! q = Some (with_inodes (with_children m (children m ++ rs)) (A ++ (kitem <$> ts) ++ C));
  ks_done : Forall (fun c => done_node b' c q) rs;
  ks_new : Forall (fun c => nextRef b <= c) rs;
  ks_heap : forall k, k < nextRef b -> k ∉ refs s -> k <> q -> heap b' !! k = heap b !! k
}.

(** [spill] after the children, and its last step, a new root. *)
Definition up (k : nat) t (b : Bucket) (r : Z) : outcome (Tx S * Bucket) :=
  let! n := deref b r in
  match parent n with
  | None => Ok (t, b)
  | Some q =>
      let! m := deref b q in
      if npgid m =? 0 then spill pick sys k t (set_node b r (with_children n [])) q else Ok (t, b)
  end.

Definition finish (k : nat) t (b : Bucket) (r : Z) : outcome (Tx S * Bucket) :=
  let! n := deref b r in
  let b := set_node b r (with_children n []) in
  let! (b, l) := split (Datatypes.S (length (inodes n))) (d_pageSize (t_db t)) b r in
  let! (t, b) := spill_parts pick sys t b l in
  up k t b r.

Lemma spill_eq k t b r : spill pick sys (Datatypes.S k) t b r =
  (let! n := deref b r in
   if spilled n then Ok (t, b)
   else
     let! ch := sort_children b (children n) in
     let! (t, b) := spill_from pick sys k t (set_node b r (with_children n ch)) r 0 in finish k t b r).
Proof. reflexivity. Qed.

Lemma spill_loaded k t b r n : heap b !! r = Some n -> spilled n = false ->
  spill pick sys (Datatypes.S k) t b r =
  (let! (t, b) := (let! ch := sort_children b (children n) in spill_from pick sys k t (set_node b r (with_children n ch)) r 0) in finish k t b r).
Proof. intros Hn Hs. rewrite spill_eq. unfold deref. rewrite Hn. cbn [rbind]. rewrite Hs. by destruct (sort_children b (children n)). Qed.

(** The node of a tree whose children are pages. *)
Record node_of {h} t (b : Bucket) (r : Z) (n : node) (s : ot h) : Prop := mkNodeOf {
  no_heap : heap b !! r = Some n;
  no_ref : ref s = Some r;
  no_leaf : isLeaf n = is_leaf h;
  no_items : inodes n = items (strip s);
  no_pgid : npgid n = p_id (pag s);
  no_page : tx_page t (p_id (pag s)) = Ok (pag s);
  no_ne : inodes n <> [];
  no_kids : kids_laid (tx_page t) s;
  no_sorted : ksorted (contents (strip s));
  no_fit : Forall (item_fit true) (contents (strip s))
}.

Lemma finish_kid {h} t b r n (s : ot h) q m A C L P :
  node_of t b r n s -> parent n = Some q -> heap b !! q = Some m -> r <> q -> refs_below b -> npgid m <> 0 ->
  (exists x, inodes m = A ++ x :: C /\ nkey n = Some (ikey x) /\ ikey x <> []) -> ksorted (inodes m) ->
  Forall (fun x => below (ikey x) A /\ above (ikey x) C) (contents (strip s)) -> space t (pgs s ++ L) P ->
  settles (short t) (fun k => finish k t b r) (fun '(t', b') => exists ts rs, kid_spilled t t' b b' q m s A C L P ts rs).
Proof.
  intros [Hn Hr Hl Hi Hg Hpg Hne Hk Hs Hf] Hp Hq Hrq Hb Hmz Hslot Hsm Hbt Hsp. set (b0 := set_node b r (with_children n [])).
  assert (Hb0 : forall k, k <> r -> heap b0 !! k = heap b !! k) by (intros k K; by apply lookup_insert_ne).
  pose proof (Hb _ _ Hn) as Hlr.
  assert (Hy : yields (short t) (let! (b, l) := split (Datatypes.S (length (inodes n))) (psize t) b0 r in spill_parts pick sys t b l)
    (fun '(t', b') => exists ps ls rs, spread t t' b0 b' r q (with_children n []) m A C (kid_pgs s ++ L) P ps ls rs)).
  { change (inodes n) with (inodes (with_children n [])). apply (spread_ok t b0 r (with_children n []) q m (kid_pgs s ++ L) P [pag s] A C); cbn [with_children parent inodes isLeaf].
    - apply lookup_insert_eq.
    - done.
    - by rewrite Hb0.
    - done.
    - intros k x Hx. destruct (decide (k = r)) as [->|K]; [done|]. rewrite Hb0 in Hx by done. by eapply Hb.
    - done.
    - rewrite Hi. by eapply node_items_sorted.
    - by left.
    - done.
    - rewrite Hi. rewrite Forall_forall in *. intros x Hx. destruct (items_keys _ s x Hk Hx) as (e & He & <-). by apply Hbt.
    - right. by exists (pag s).
    - rewrite pgs_kids in Hsp. done.
    - rewrite Hi, Hl. by eapply items_fit.
    - by apply (kids_linked s). }
  assert (Efin : forall k, finish k t b r = (let! (t, b) := (let! (b, l) := split (Datatypes.S (length (inodes n))) (psize t) b0 r in spill_parts pick sys t b l) in up k t b r)).
  { intros k. unfold finish, up. unfold deref at 1. rewrite Hn. cbn [rbind]. fold b0. fold (psize t). destruct (split _ (psize t) b0 r) as [[b1 l]|e|]; done. }
  eapply settles_ext; [intros k; symmetry; apply Efin|]. eapply settles_bind; [apply settles_const, Hy|]. clear Hy. intros [t' b'] (ps & ls & rs & SD). destruct SD as [D1 [_ D2] _ D3 D4 D5 D6 D7 D8 D9 D10 D11 D12]. cbn [with_children inodes isLeaf] in *.
  destruct (cut_tree (tx_page t') s ps ls) as (ts & T1 & T2 & T3 & T4); [by rewrite D1, Hi|by rewrite <-Hl|done| |].
  { eapply kids_laid_frame; [exact Hk|]. intros p Hin. apply (st_read _ _ _ D5). apply elem_of_app. by left. }
  apply Forall_cons_1 in D10 as [(n' & N1 & _ & N2 & _) D10].
  unfold up, deref. rewrite N1. cbn [rbind]. rewrite N2, D9. cbn [rbind with_inodes with_children npgid]. destruct (Z.eqb_spec (npgid m) 0); [done|]. apply settles_const.
  exists ts, rs. split; try done.
  - eapply space_perm; [|exact D4]. rewrite T4. by rewrite app_assoc.
  - eapply step_sub; [|exact D5]. intros p Hin. apply elem_of_app. by right.
  - by rewrite D9, T2.
  - intros k K1 K2 K3. rewrite (kids_laid_refs _ s r Hk Hr) in K2. rewrite list_elem_of_singleton in K2. rewrite D12 by done. by apply Hb0.
Qed.

(** ** The children of a node *)

Definition sound {h} (s : ot h) : Prop :=
  full (strip s) /\ keyed (strip s) /\ (exists lo hi, wf lo hi (strip s)) /\ Forall (item_fit true) (contents (strip s)).

Lemma laid_keyed pg {h} (s : ot h) : laid pg s -> Forall (fun e => ikey e <> []) (contents (strip s)) -> keyed (strip s).
Proof.
  revert s. induction h as [|h IH]; intros s Hl Hf; [done|]. destruct s as [x K]. destruct (proj1 (laid_S _ _ _) Hl) as (_ & _ & _ & _ & HK). rewrite contents_kcontents in Hf. rewrite strip_S.
  apply keyed_S, Forall_fmap. rewrite Forall_forall in HK. rewrite Forall_forall in Hf. apply Forall_forall. intros y Hy. cbn [skid fst snd compose]. destruct (klaid_key pg y (HK y Hy)) as (e & l & E & Ek). split.
  - cbn. rewrite <-Ek. apply Hf, (kcontents_elem K y); [done|]. rewrite E. by left.
  - apply IH; [by apply HK|]. apply Forall_forall. intros d Hd. by apply Hf, (kcontents_elem K y).
Qed.

Lemma laid_sound pg {h} (s : ot h) : laid pg s -> ksorted (contents (strip s)) -> Forall (item_fit true) (contents (strip s)) -> sound s.
Proof.
  intros Hl Hs Hf. split; [by eapply laid_full|]. split; [|split; [|done]].
  - eapply laid_keyed; [done|]. eapply Forall_impl; [exact Hf|]. intros e He. apply (if_key _ _ He).
  - exists None, None. eapply laid_wf; [done|done|]. apply Forall_forall. intros e _. split; by intros ? [=].
Qed.

Record brood {h} t (b : Bucket) (r : Z) (n : node) (K : list (bytes * ot h)) (extra : list Z) (L P : list page) : Prop := mkBrood {
  br_heap : heap b !! r = Some n;
  br_old : npgid n <> 0;
  br_items : inodes n = kitem <$> K;
  br_refs : NoDup (r :: omap snd (kheads K));
  br_done : Forall (fun c => done_node b c r /\ c <> r /\ c ∉ omap snd (kheads K)) extra;
  br_below : refs_below b;
  br_kids : Forall (fun x => own (tx_page t) b (Some r) (Some x.1) x.2 /\ x.1 <> [] /\ sound x.2) K;
  br_sep : sep K;
  br_space : space t (all_pgs K ++ L) P
}.

Lemma brood_step {h} t t' b b' r n (A C : list (bytes * ot h)) x extra L P ts rs :
  brood t b r n (A ++ x :: C) extra L P ->
  kid_spilled t t' b b' r n x.2 (kitem <$> A) (kitem <$> C) (all_pgs A ++ all_pgs C ++ L) P ts rs ->
  brood t' b' r (with_inodes (with_children n (children n ++ rs)) (kitem <$> A ++ ts ++ C)) (A ++ ts ++ C) (extra ++ rs) L P.
Proof.
  intros [B1 B2 B3 B4 B5 B6 B7 B8 B9] [K1 K2 K3 K4 K5 K6 K7 K8 K9 K10 K11]. rewrite kheads_app, kheads_cons, !omap_app in B4, B5. apply Forall_app in B7 as [BA B7]. apply Forall_cons_1 in B7 as [(Hox & Hkx & Hgx) BC].
  apply NoDup_cons in B4 as [Hr B4]. apply NoDup_app in B4 as (NA & NAx & B4). apply NoDup_app in B4 as (Nx & NxC & NC). fold (refs x.2) in NAx, NxC, Nx, Hr, B5.
  destruct Hgx as (_ & _ & (lo & hi & Hw) & Hfit). pose proof (wf_sorted _ _ _ Hw) as Hsx.
  assert (Hts : omap snd (kheads ts) = []). { clear -K1. induction K1 as [|y ts [Hy _] _ IH]; [done|]. rewrite kheads_cons, omap_app, IH, app_nil_r. exact (laid_refs _ _ Hy). }
  assert (Hblock : forall y k, y ∈ ts -> block y k -> block x k).
  { intros y k Hy Hb. rewrite Forall_forall in K1. destruct (klaid_block _ y k (K1 y Hy) Hb) as (e & He & <-). right. exists e. split; [|done]. rewrite <-K2. by apply (kcontents_elem ts y). }
  assert (Hlt : forall y, y ∈ A ++ C -> forall k, k ∈ refs y.2 -> k < nextRef b /\ k ∉ refs x.2 /\ k <> r).
  { intros y Hy k Hk. rewrite Forall_forall in BA, BC. assert (Ho : own (tx_page t) b (Some r) (Some y.1) y.2) by (apply elem_of_app in Hy as [Hy|Hy]; [by apply BA|by apply BC]).
    destruct (own_refs_heap _ _ _ _ _ _ Ho Hk) as [z Hz]. split; [by eapply B6|]. apply elem_of_app in Hy as [Hy|Hy]; pose proof (elem_krefs_heads _ _ _ Hy Hk) as Hin.
    - split; [|intros ->; apply Hr; rewrite !elem_of_app; tauto]. intros Hx. apply (NAx k Hin). rewrite elem_of_app. by left.
    - split; [|intros ->; apply Hr; rewrite !elem_of_app; tauto]. intros Hx. by apply (NxC k Hx). }
  assert (Hown : forall y, y ∈ A ++ C -> own (tx_page t) b (Some r) (Some y.1) y.2 -> own (tx_page t') b' (Some r) (Some y.1) y.2).
  { intros y Hy Ho. eapply own_frame; [exact Ho| |].
    - intros k Hk. destruct (Hlt y Hy k Hk) as (L1 & L2 & L3). by apply K11.
    - intros p Hp. apply (st_read _ _ _ K4). apply elem_of_app in Hy as [Hy|Hy]; rewrite !elem_of_app; [left|right; left]; by eapply elem_all_pgs. }
  pose proof (B6 _ _ B1) as Hlr. rewrite Forall_forall in K9. rewrite Forall_forall in K10. rewrite Forall_forall in BA. rewrite Forall_forall in BC.
  split.
  - rewrite K8. by rewrite !fmap_app.
  - done.
  - done.
  - rewrite !kheads_app, !omap_app, Hts. cbn [app]. apply NoDup_cons. split; [rewrite !elem_of_app in *; tauto|]. apply NoDup_app. split; [done|]. split; [|done].
    intros k Hk Hk'. apply (NAx k Hk). rewrite elem_of_app. by right.
  - rewrite !kheads_app, !omap_app, Hts. cbn [app]. apply Forall_app. split.
    + rewrite Forall_forall in *. intros c Hc. destruct (B5 c Hc) as ((nc & N1 & N2) & Hcr & Hck). rewrite !elem_of_app in *. split; [|tauto]. exists nc. split; [|done]. rewrite K11; [done|by eapply B6|tauto|done].
    + apply Forall_forall. intros c Hc. specialize (K10 c Hc). split; [by apply K9|]. split; [lia|]. rewrite elem_of_app. intros [Hin|Hin]; apply list_elem_of_omap in Hin as (w & Hw' & Ew);
        apply kheads_elem in Hw' as (y & Hy & Hw'); (assert (c ∈ refs y.2) as Hcy by (apply list_elem_of_omap; eauto)); destruct (Hlt y ltac:(apply elem_of_app; tauto) c Hcy); lia.
  - done.
  - apply Forall_app. split; [|apply Forall_app; split]; apply Forall_forall; intros y Hy.
    + destruct (BA y Hy) as (H1 & H2 & H3). split; [|done]. apply Hown; [apply elem_of_app; by left|done].
    + rewrite Forall_forall in K1. destruct (K1 y Hy) as [H1 H2]. destruct (klaid_key _ y (K1 y Hy)) as (e & l & E & Ek).
      assert (Hin : forall d, d ∈ contents (strip y.2) -> d ∈ contents (strip x.2)) by (intros d Hd; rewrite <-K2; by apply (kcontents_elem ts y)).
      rewrite Forall_forall in Hfit. split; [by apply laid_own|]. split; [rewrite <-Ek; apply (if_key true), Hfit, Hin; rewrite E; by left|].
      eapply laid_sound; [done| |apply Forall_forall; intros d Hd; by apply Hfit, Hin]. rewrite <-K2 in Hsx. by apply (kcontents_sorted ts).
    + destruct (BC y Hy) as (H1 & H2 & H3). split; [|done]. apply Hown; [apply elem_of_app; by right|done].
  - eapply sep_replace; [exact B8| |exact Hblock]. eapply sep_laid; [exact K1|]. by rewrite K2.
  - eapply space_perm; [|exact K3]. rewrite !all_pgs_app. solve_Permutation.
Qed.

(** What a child needs to be spilled, and that it is. *)
Record kid_ready {h} t (b : Bucket) (r q : Z) (m : node) (s : ot h) (ky : bytes) (A C : list inode) (L P : list page) : Prop := mkKidReady {
  kr_ref : ref s = Some r;
  kr_own : own (tx_page t) b (Some q) (Some ky) s;
  kr_refs : NoDup (q :: refs s);
  kr_below : refs_below b;
  kr_parent : heap b !! q = Some m;
  kr_old : npgid m <> 0;
  kr_items : inodes m = A ++ kitem (ky, s) :: C;
  kr_sorted : ksorted (inodes m);
  kr_key : ky <> [];
  kr_sound : sound s;
  kr_between : Forall (fun x => below (ikey x) A /\ above (ikey x) C) (contents (strip s));
  kr_space : space t (pgs s ++ L) P
}.

Definition kids_spill (h : nat) : Prop := forall t b r q m (s : ot h) ky A C L P, kid_ready t b r q m s ky A C L P ->
  settles (short t) (fun k => spill pick sys k t b r) (fun '(t', b') => exists ts rs, kid_spilled t t' b b' q m s A C L P ts rs).

Lemma brood_ready {h} t b r n (A C : list (bytes * ot h)) x c extra L P : brood t b r n (A ++ x :: C) extra L P -> ref x.2 = Some c ->
  kid_ready t b c r n x.2 x.1 (kitem <$> A) (kitem <$> C) (all_pgs A ++ all_pgs C ++ L) P.
Proof.
  intros [B1 B2 B3 B4 B5 B6 B7 B8 B9] Hc. rewrite kheads_app, kheads_cons, !omap_app in B4. apply Forall_app in B7 as [_ B7]. apply Forall_cons_1 in B7 as [(Hox & Hkx & Hgx) _].
  split; try done.
  - fold (refs x.2) in B4. apply NoDup_cons in B4 as [Hr B4]. apply NoDup_app in B4 as (_ & _ & B4). apply NoDup_app in B4 as (Nx & _ & _). apply NoDup_cons. split; [|done]. rewrite !elem_of_app in Hr. tauto.
  - rewrite B3, fmap_app, fmap_cons. by destruct x.
  - rewrite B3. by apply sep_keys.
  - by apply sep_between.
  - eapply space_perm; [|exact B9]. rewrite all_pgs_app, all_pgs_cons. solve_Permutation.
Qed.

(** What is left of the children when the loop is over. *)
Record brood_spilled {h} t t' (b b' : Bucket) (r : Z) (n : node) (K K' : list (bytes * ot h)) (L P : list page) : Prop := mkBroodSpilled {
  bs_node : exists ch, heap b' !! r = Some (with_inodes (with_children n ch) (kitem <$> K'));
  bs_laid : Forall (klaid (tx_page t')) K';
  bs_contents : concat ((fun x => contents (strip x.2)) <$> K') = concat ((fun x => contents (strip x.2)) <$> K);
  bs_space : space t' (all_pgs K' ++ L) P;
  bs_step : step t t' L;
  bs_same : same_bucket b b';
  bs_next : nextRef b <= nextRef b';
  bs_below : refs_below b';
  bs_heap : forall k, k < nextRef b -> k ∉ omap snd (kheads K) -> k <> r -> heap b' !! k = heap b !! k
}.

Lemma brood_end {h} t b r n (K : list (bytes * ot h)) extra L P : brood t b r n K extra L P -> krefs K = [] -> brood_spilled t t b b r n K K L P.
Proof.
  intros [B1 B2 B3 B4 B5 B6 B7 B8 B9] Hk. split; try done.
  - exists (children n). rewrite B1. f_equal. rewrite <-B3. by destruct n.
  - rewrite Forall_forall in B7. apply Forall_forall. intros x Hx. destruct (B7 x Hx) as (Ho & _ & Hg & _). destruct (own_laid _ _ _ _ _ (krefs_nil K Hk x Hx) Ho Hg) as [H1 H2]. by split.
  - apply step_refl.
Qed.

Lemma spill_children {h} (IH : kids_spill h) todo : forall t b r n (K : list (bytes * ot h)) pre extra L P,
  brood t b r n K extra L P -> children n = pre ++ todo ++ extra -> krefs K ≡ₚ todo ->
  settles (short t) (fun k => spill_from pick sys k t b r (length pre)) (fun '(t', b') => exists K', brood_spilled t t' b b' r n K K' L P).
Proof.
  induction todo as [|c todo IHt]; intros t b r n K pre extra L P HB Hch Hk.
  - apply Permutation_nil_r in Hk. eapply settles_mono; [eapply spill_from_done; [apply HB|exact Hch|]|].
    + eapply Forall_impl; [apply (br_done _ _ _ _ _ _ _ _ HB)|]. by intros x [? _].
    + intros a ->. exists K. by eapply brood_end.
  - assert (Hc : c ∈ krefs K) by (rewrite Hk; by left). apply list_elem_of_omap in Hc as (x & Hx & Hc). apply list_elem_of_split in Hx as (A & C & ->).
    pose proof (brood_ready _ _ _ _ _ _ _ _ _ _ _ HB Hc) as Hkr.
    eapply settles_S; [intros k; cbn [spill_from]; unfold deref; rewrite (br_heap _ _ _ _ _ _ _ _ HB); cbn [rbind]; rewrite Hch; cbn [app]; rewrite list_lookup_middle by done; reflexivity|].
    eapply settles_bind; [exact (IH _ _ _ _ _ _ _ _ _ _ _ Hkr)|]. intros [t1 b1] (ts & rs & KS). pose proof (brood_step _ _ _ _ _ _ _ _ _ _ _ _ _ _ HB KS) as HB1.
    destruct KS as [K1 K2 K3 K4 K5 K6 K7 K8 K9 K10 K11]. rewrite <-(st_file _ _ _ K4), <-(st_ps _ _ _ K4). replace (Datatypes.S (length pre)) with (length (pre ++ [c])) by (rewrite length_app; cbn; lia).
    eapply settles_mono; [eapply IHt; [exact HB1| |]|].
    + cbn [with_inodes with_children children]. rewrite Hch. rewrite <-!app_assoc. done.
    + unfold krefs in *. rewrite !omap_app in *. pose proof (klaid_krefs _ _ K1) as E. unfold krefs in E. rewrite E. cbn [omap list_omap app] in *. rewrite Hc in Hk.
      rewrite <-Permutation_middle in Hk. by apply Permutation_cons_inv in Hk.
    + intros [t2 b2] (K' & [C1 C2 C3 C4 C5 C6 C7 C8 C9]). exists K'. split; try done.
      * rewrite C3. rewrite !fmap_app, !concat_app, fmap_cons. cbn [concat]. by rewrite K2.
      * eapply step_trans; [|exact C5]. eapply step_sub; [|exact K4]. intros p Hp. rewrite !elem_of_app. tauto.
      * by eapply same_bucket_trans.
      * lia.
      * intros k L1 L2 L3. rewrite kheads_app, kheads_cons, !omap_app, !elem_of_app in L2. rewrite C9; [apply K11; [done|unfold refs; tauto|done]|lia| |done].
        rewrite !kheads_app, !omap_app, !elem_of_app. intros [Hin|[Hin|Hin]]; [tauto| |tauto]. apply list_elem_of_omap in Hin as (w & Hw & Ew). apply kheads_elem in Hw as (y & Hy & Hw).
        rewrite Forall_forall in K1. destruct (K1 y Hy) as [Hl0 _]. pose proof (laid_refs _ _ Hl0) as Hl. assert (k ∈ refs y.2) as Hin by (apply list_elem_of_omap; eauto). rewrite Hl in Hin. by apply elem_of_nil in Hin.
Qed.

Lemma own_node pg b {h} par key (s : ot h) r : own pg b par key s -> ref s = Some r ->
  exists ch, heap b !! r = Some (mkNode (is_leaf h) false false key (p_id (pag s)) par ch (items (strip s))) /\ pg (p_id (pag s)) = Ok (pag s).
Proof.
  destruct h as [|h]; destruct s as [[p o] K]; intros Ho E; cbn in E; subst o.
  - destruct Ho as (Hp & ch & Hh & _). by exists ch.
  - destruct (proj1 (own_S pg b par key (p, Some r) K) Ho) as [(Hp & ch & Hh & _) _]. exists ch. split; [|done]. rewrite strip_S. cbn [items snd]. rewrite <-kitem_skid. exact Hh.
Qed.

Lemma full_items {h} (t : tr h) : full t -> items t <> [].
Proof. destruct h; destruct t as [id k]; [done|]. intros [Hne _]%full_S. cbn. by destruct k. Qed.

(** A node when its children are spilled. *)
Record ripe {h} t t' (b b' : Bucket) (r : Z) (par : option Z) (key : option bytes) (s s' : ot h) (n : node) (L P : list page) : Prop := mkRipe {
  rp_node : node_of t' b' r n s';
  rp_par : parent n = par /\ nkey n = key;
  rp_head : hd s' = hd s;
  rp_contents : contents (strip s') = contents (strip s);
  rp_space : space t' (pgs s' ++ L) P;
  rp_step : step t t' L;
  rp_same : same_bucket b b';
  rp_next : nextRef b <= nextRef b';
  rp_below : refs_below b';
  rp_heap : forall k, k < nextRef b -> k ∉ refs s -> heap b' !! k = heap b !! k
}.

Definition kids_done (h : nat) : Prop := match h with O => True | Datatypes.S h' => kids_spill h' end.

Lemma set_below b r n m : heap b !! r = Some n -> refs_below b -> refs_below (set_node b r m).
Proof. intros Hn Hb k x Hx. cbn in *. destruct (decide (k = r)) as [->|K]; [by eapply Hb|]. rewrite lookup_insert_ne in Hx by done. by eapply Hb. Qed.

Lemma spill_own {h} (IH : kids_done h) t b r par key (s : ot h) n L P :
  ref s = Some r -> own (tx_page t) b par key s -> heap b !! r = Some n -> NoDup (refs s) -> refs_below b -> sound s -> space t (pgs s ++ L) P ->
  settles (short t) (fun k => let! ch := sort_children b (children n) in spill_from pick sys k t (set_node b r (with_children n ch)) r 0)
    (fun '(t', b') => exists (s' : ot h) n', ripe t t' b b' r par key s s' n' L P).
Proof.
  intros Hr Ho Hn Hnd Hb Hsd Hsp. destruct (own_node _ _ _ _ _ _ Ho Hr) as (ch & Hn' & Hpg). rewrite Hn in Hn'. injection Hn' as ->. cbn [children].
  destruct Hsd as (Hfull & Hkeyed & (lo & hi & Hw) & Hfit). pose proof (wf_sorted _ _ _ Hw) as Hsort. pose proof (Hb _ _ Hn) as Hlr. destruct h as [|h]; destruct s as [[p o] K]; cbn in Hr; subst o.
  - destruct Ho as (_ & ch' & Hh & Hch). cbn in Hh, Hn. rewrite Hh in Hn. injection Hn as ->. apply Permutation_nil_r in Hch as ->. cbn [sort_children len length Z.of_nat Z.leb Z.compare rbind with_children].
    set (n := mkNode true false false key (p_id p) par [] K). set (b1 := set_node b r n).
    eapply settles_mono; [apply (spill_from_done t b1 r n [] []); [apply lookup_insert_eq|done|constructor]|]. intros a ->. exists ((p, Some r), K), n. split; try done.
    + split; try done. apply lookup_insert_eq.
    + apply step_refl.
    + by eapply set_below.
    + intros k K1 K2. cbn. rewrite lookup_insert_ne; [done|]. intros <-. apply K2. by left.
  - destruct (proj1 (own_S _ b par key (p, Some r) K) Ho) as [(_ & ch' & Hh & Hch) HK]. cbn [fst snd] in Hh, HK. rewrite Hh in Hn. injection Hn as <- _. rename ch' into ch.
    rewrite refs_S in Hnd. cbn [option_list snd app] in Hnd. rewrite strip_S in Hfull, Hkeyed, Hw. destruct (proj1 (full_S _ _) Hfull) as [HneK HfullK]. rewrite contents_kcontents in Hsort, Hfit.
    rewrite keyed_S in Hkeyed. destruct (proj1 (wf_S _ _ _ _) Hw) as (_ & _ & _ & HwK). pose proof (wf_sep _ _ _ _ Hw) as Hsep.
    destruct (sort_children_ok b ch) as (ch1 & -> & Hch1).
    { intros c Hc. rewrite Hch in Hc. apply list_elem_of_omap in Hc as (x & Hx & Hc). rewrite Forall_forall in HK. destruct (own_node _ _ _ _ _ _ (HK x Hx) Hc) as (chx & Hx' & _).
      eexists. split; [exact Hx'|]. cbn. apply full_items. rewrite Forall_fmap, Forall_forall in HfullK. by apply (HfullK x). }
    cbn [rbind]. set (n := mkNode false false false key (p_id p) par ch (items (strip (((p, Some r), K) : ot (Datatypes.S h))))). set (b1 := set_node b r (with_children n ch1)).
    assert (HB : brood t b1 r (with_children n ch1) K [] (p :: L) P).
    { split.
      - apply lookup_insert_eq.
      - cbn. assert (Hid := space_ids t _ P p Hsp ltac:(rewrite pgs_kids; by left)). lia.
      - unfold n. cbn [with_children inodes]. rewrite strip_S. cbn [items snd]. by rewrite <-kitem_skid.
      - done.
      - constructor.
      - by eapply set_below.
      - apply Forall_forall. intros x Hx. rewrite Forall_forall in HK. rewrite Forall_fmap, Forall_forall in HfullK. rewrite Forall_fmap, Forall_forall in Hkeyed. destruct (Hkeyed x Hx) as [Hk1 Hk2]. split; [|split; [exact Hk1|]].
        + eapply own_frame; [by apply HK| |done]. intros k Hk. cbn. rewrite lookup_insert_ne; [done|]. intros <-. apply NoDup_cons in Hnd as [Hnd _]. apply Hnd. by eapply elem_krefs_heads.
        + split; [by apply HfullK|]. split; [exact Hk2|]. split.
          * apply list_elem_of_lookup in Hx as [j Hj]. eexists _, _. apply (HwK j (skid x)). by rewrite list_lookup_fmap, Hj.
          * rewrite Forall_forall in Hfit. apply Forall_forall. intros e He. apply Hfit. by apply (kcontents_elem K x).
      - done.
      - eapply space_perm; [|exact Hsp]. rewrite pgs_kids, kid_pgs_S. cbn. solve_Permutation. }
    eapply settles_mono; [apply (spill_children IH ch1 t b1 r (with_children n ch1) K [] [] (p :: L) P HB); [by rewrite app_nil_r|by rewrite Hch1, Hch]|].
    intros [t1 b2] (K' & [(ch2 & C1) C2 C3 C4 C5 C6 C7 C8 C9]). exists ((p, Some r), K'). eexists. split.
    + split.
      * exact C1.
      * done.
      * done.
      * cbn [with_inodes inodes]. rewrite strip_S. cbn [items snd]. by rewrite <-kitem_skid.
      * done.
      * cbn. rewrite (st_read _ _ _ C5); [done|by left].
      * cbn [with_inodes inodes]. intros E. apply fmap_nil_inv in E as ->. pose proof (full_contents _ Hfull) as Hpos. rewrite <-strip_S, contents_kcontents, <-C3 in Hpos. done.
      * exact C2.
      * by rewrite contents_kcontents, C3.
      * by rewrite contents_kcontents, C3.
    + done.
    + done.
    + by rewrite !contents_kcontents, C3.
    + eapply space_perm; [|exact C4]. rewrite pgs_kids, kid_pgs_S. cbn. solve_Permutation.
    + eapply step_sub; [|exact C5]. intros y Hy. by right.
    + exact C6.
    + exact C7.
    + exact C8.
    + intros k K1 K2. rewrite refs_S in K2. assert (K3 : k <> r /\ k ∉ omap snd (kheads K)) by (by apply not_elem_of_cons). rewrite C9; [|done|tauto|tauto]. apply lookup_insert_ne. naive_solver.
Qed.

Lemma spill_kid h : kids_spill h.
Proof.
  assert (Hstep : forall h, kids_done h -> kids_spill h).
  { clear h. intros h IH t b r q m s ky A C L P [R1 R2 R3 R4 R5 R6 R7 R8 R9 R10 R11 R12]. destruct (own_node _ _ _ _ _ _ R2 R1) as (ch & Hn & _). apply NoDup_cons in R3 as [Hqs Hnd].
    pose proof (R4 _ _ R5) as Hlq. assert (Hrs : r ∈ refs s) by (unfold refs; destruct (heads_hd s) as [l ->]; cbn; unfold ref in R1; rewrite R1; by left).
    assert (Hrq : r <> q) by (by intros ->).
    eapply settles_S; [intros k; exact (spill_loaded k t b r _ Hn eq_refl)|]. eapply settles_bind; [eapply (spill_own IH t b r (Some q) (Some ky) s _ L P); done|].
    intros [t1 b1] (s' & n' & [P1 [P2 P3] P4 P5 P6 P7 P8 P9 P10 P11]). rewrite <-(st_file _ _ _ P7), <-(st_ps _ _ _ P7).
    eapply settles_mono; [apply (finish_kid t1 b1 r n' s' q m A C L P); try done|].
    - by rewrite P11.
    - eexists. split; [exact R7|]. done.
    - by rewrite P5.
    - intros [t2 b2] (ts & rs & [K1 K2 K3 K4 K5 K6 K7 K8 K9 K10 K11]). exists ts, rs. split; try done.
      + by rewrite K2.
      + by eapply step_trans.
      + by eapply same_bucket_trans.
      + lia.
      + eapply Forall_impl; [exact K10|]. intros c Hc. cbv beta in *. lia.
      + intros k L1 L2 L3. rewrite K11; [by apply P11|lia| |done]. rewrite (kids_laid_refs _ s' r (no_kids _ _ _ _ _ P1) (no_ref _ _ _ _ _ P1)). intros ->%list_elem_of_singleton. done. }
  induction h as [|h IH]; by apply Hstep.
Qed.

(** ** The root *)

(** Up the parents. *)
Lemma root_self b r n k : heap b !! r = Some n -> parent n = None -> root_of k b r = Ok r.
Proof. intros Hn Hp. destruct k; cbn [root_of]; unfold deref; rewrite Hn; cbn [rbind]; by rewrite Hp. Qed.

Lemma root_up b r n q k : heap b !! r = Some n -> parent n = Some q -> root_of (Datatypes.S k) b r = root_of k b q.
Proof. intros Hn Hp. cbn [root_of]. unfold deref. rewrite Hn. cbn [rbind]. by rewrite Hp. Qed.

(** A node without a parent is split like one under a new root. *)
Definition crown (b : Bucket) (r : Z) (n : node) : Bucket := set_node (alloc b (new_node false None [r])).1 r (with_parent n (Some (nextRef b))).

Lemma split_orphan fuel ps b r n : pageHeaderSize < ps -> heap b !! r = Some n -> parent n = None -> whole ps (inodes n) = false ->
  split (Datatypes.S fuel) ps b r = split (Datatypes.S fuel) ps (crown b r n) r.
Proof.
  intros Hps Hn Hp Hw. cbn [split]. assert (E : splitTwo ps b r = splitTwo ps (crown b r n) r); [|by rewrite E]. unfold splitTwo. unfold deref at 1. rewrite Hn. cbn [rbind].
  unfold deref at 3. assert (Hc : heap (crown b r n) !! r = Some (with_parent n (Some (nextRef b)))) by apply lookup_insert_eq. rewrite Hc. cbn [rbind]. cbn [with_parent inodes parent isLeaf].
  change (sizeLessThan (with_parent n (Some (nextRef b))) ps) with (sizeLessThan n ps). rewrite sizeLessThan_size, size_bytes by done. unfold whole in Hw. rewrite Hw.
  change (splitIndex (with_parent n (Some (nextRef b))) ps) with (splitIndex n ps). destruct (splitIndex n ps) as [z sz]. rewrite Hp. done.
Qed.

(** What is left when the root is done: a tree on pages. *)
Record top_spilled {h'} t t' (b b' : Bucket) (r : Z) (l : list inode) (s' : ot h') (L P : list page) : Prop := mkTopSpilled {
  ts_laid : laid (tx_page t') s';
  ts_contents : contents (strip s') = l;
  ts_space : space t' (pgs s' ++ L) P;
  ts_step : step t t' L;
  ts_same : same_bucket b b';
  ts_next : nextRef b <= nextRef b';
  ts_mark : p_id (pag s') < hwm t';
  ts_root : exists q n, heap b' !! q = Some n /\ npgid n = p_id (pag s') /\ exists k0, forall k, (k0 <= k)%nat -> root_of k b' r = Ok q;
  ts_heap : forall k, k < nextRef b -> k <> r -> heap b' !! k = heap b !! k
}.

(** A node without a parent whose children are pages. *)
Record top_of {h} t (b : Bucket) (r : Z) (n : node) (s : ot h) (old L P : list page) : Prop := mkTopOf {
  to_heap : heap b !! r = Some n;
  to_leaf : isLeaf n = is_leaf h;
  to_items : inodes n = items (strip s);
  to_ne : inodes n <> [];
  to_kids : kids_laid (tx_page t) s;
  to_sorted : ksorted (contents (strip s));
  to_fit : Forall (item_fit true) (contents (strip s));
  to_par : parent n = None;
  to_key : nkey n <> Some [];
  to_below : refs_below b;
  to_old : old_page t n old;
  to_space : space t (old ++ kid_pgs s ++ L) P
}.

Lemma cut_one pg {h} (s : ot h) p : on_page pg (is_leaf h) p (items (strip s)) -> items (strip s) <> [] -> kids_laid pg s ->
  exists s' : ot h, laid pg s' /\ contents (strip s') = contents (strip s) /\ pgs s' ≡ₚ p :: kid_pgs s /\ p_id (pag s') = p_id p.
Proof.
  intros Hp Hne Hk. destruct (cut_tree pg s [p] [items (strip s)]) as (ts & T1 & T2 & T3 & T4); [apply app_nil_r|by apply Forall2_cons_2; [|apply Forall2_nil_2]|by constructor|done|].
  destruct ts as [|x [|y ts]]; [done| |done]. apply Forall_cons_1 in T1 as [[T1 _] _]. exists x.2. split; [done|]. cbn in T3. rewrite app_nil_r in T3. split; [done|].
  rewrite all_pgs_cons in T4. cbn in T4. rewrite app_nil_r in T4. split; [done|]. cbn in T2. injection T2 as T2. by rewrite <-tid_strip.
Qed.

Lemma finish_whole {h} t b r n (s : ot h) old L P : top_of t b r n s old L P -> whole (psize t) (inodes n) = true ->
  settles (short t) (fun k => finish k t b r) (fun '(t', b') => exists s' : ot h, top_spilled t t' b b' r (contents (strip s)) s' L P).
Proof.
  intros [Hn Hl Hi Hne Hk Hs Hf Hp Hky Hb Hold Hsp] Hw. set (n0 := with_children n []). set (b0 := set_node b r n0). assert (Hn0 : heap b0 !! r = Some n0) by apply lookup_insert_eq.
  pose proof Hsp as [F H0]. pose proof (sp_ps _ _ _ _ H0) as Hps. clear F H0. set (fuel := Datatypes.S (length (inodes n))).
  assert (Efin : forall k, finish k t b r = (let! (t, b, n) := to_page t b0 r in Ok (t, set_node b r n))).
  { intros k. unfold finish. unfold deref at 1. rewrite Hn. cbn [rbind]. fold n0 b0 fuel (psize t). unfold fuel. cbn [split]. rewrite (splitTwo_whole (psize t) b0 r n0) by (unfold pageHeaderSize; done || lia).
    cbn [rbind spill_parts]. rewrite spill_part_eq. pose proof (to_page_parent t b0 r n0 Hn0) as Ht. destruct (to_page t b0 r) as [[[t1 b1] n1]|e|]; cbn [rbind]; [|done|done].
    unfold to_parent. rewrite Ht. cbn [n0 with_children parent]. rewrite Hp. cbn [rbind]. unfold up, deref. cbn. rewrite lookup_insert_eq. cbn [rbind]. rewrite Ht. cbn. by rewrite Hp. }
  eapply settles_ext; [intros k; symmetry; apply Efin|]. eapply settles_const, yields_bind.
  - apply (to_page_ok t b0 r n0 (kid_pgs s ++ L) P old); [done|exact Hold|done|cbn; rewrite Hi, Hl; by eapply items_fit| |by apply (kids_linked s)].
    cbn. apply (whole_part (psize t)), Hw.
  - intros [[t1 b1] n1] (p & A1 & A2 & A3 & A4 & A5 & A6 & A7 & A8 & A9). cbn [yields]. cbn [n0 with_children isLeaf inodes] in A4. rewrite Hl, Hi in A4.
    destruct (cut_one (tx_page t1) s p) as (s' & C1 & C2 & C3 & C4); [done|by rewrite <-Hi| |].
    { eapply kids_laid_frame; [exact Hk|]. intros x Hx. apply (st_read _ _ _ A2). apply elem_of_app. by left. }
    exists s'. split; try done.
    + eapply space_perm; [|exact A1]. rewrite C3. done.
    + eapply step_sub; [|exact A2]. intros x Hx. apply elem_of_app. by right.
    + change (nextRef b <= nextRef b1). rewrite A8. change (nextRef b <= nextRef b). lia.
    + by rewrite C4.
    + exists r, n1. split; [apply lookup_insert_eq|]. subst n1. split; [by rewrite C4|]. exists 0%nat. intros k _. eapply root_self; [apply lookup_insert_eq|done].
    + intros k K1 K2. cbn. rewrite lookup_insert_ne by done. rewrite A9 by done. cbn. by apply lookup_insert_ne.
Qed.

(** The root is split: its parts get a new root, which is spilled in turn. *)
Lemma crown_spread {h} t b r n (s : ot h) old L P : top_of t b r n s old L P -> whole (psize t) (inodes n) = false ->
  let n0 := with_children n [] in let b0 := set_node b r n0 in let q := nextRef b in
  yields (short t) (let! (b, l) := split (Datatypes.S (length (inodes n))) (psize t) b0 r in spill_parts pick sys t b l)
    (fun '(t', b') => exists ps ls rs,
       spread t t' (crown b0 r n0) b' r q (with_parent n0 (Some q)) (new_node false None [r]) [] [] (kid_pgs s ++ L) P ps ls rs).
Proof.
  intros [Hn Hl Hi Hne Hk Hs Hf Hp Hky Hb Hold Hsp] Hw n0 b0 q. assert (Hn0 : heap b0 !! r = Some n0) by apply lookup_insert_eq. pose proof (Hb _ _ Hn) as Hlr.
  pose proof Hsp as [F H0]. pose proof (sp_ps _ _ _ _ H0) as Hps. clear F H0. rewrite (split_orphan _ (psize t) b0 r n0) by (unfold pageHeaderSize; done || lia).
  change (inodes n) with (inodes (with_parent n0 (Some q))). change (isLeaf n) with (isLeaf (with_parent n0 (Some q))) in Hl.
  apply (spread_ok t (crown b0 r n0) r (with_parent n0 (Some q)) q (new_node false None [r]) (kid_pgs s ++ L) P old [] []).
  - apply lookup_insert_eq.
  - done.
  - cbn. rewrite lookup_insert_ne by (unfold q; lia). apply lookup_insert_eq.
  - unfold q. lia.
  - intros k x Hx. cbn in *. destruct (decide (k = r)) as [->|K]; [lia|]. rewrite lookup_insert_ne in Hx by done. destruct (decide (k = nextRef b)) as [->|K']; [lia|].
    rewrite !lookup_insert_ne in Hx by done. specialize (Hb _ _ Hx). lia.
  - done.
  - cbn. rewrite Hi. by eapply node_items_sorted.
  - right. done.
  - constructor.
  - apply Forall_forall. intros x _. split; constructor.
  - exact Hold.
  - done.
  - rewrite Hl. cbn. rewrite Hi. by eapply items_fit.
  - by apply (kids_linked s).
Qed.

Lemma done_set b c q n r : done_node b c q -> heap b !! r = Some n -> done_node (set_node b r (with_children n [])) c q.
Proof.
  intros (m & H1 & H2) Hn. destruct (decide (c = r)) as [->|K].
  - rewrite Hn in H1. injection H1 as <-. eexists. split; [apply lookup_insert_eq|]. done.
  - exists m. split; [|done]. cbn. by rewrite lookup_insert_ne.
Qed.

Definition top_settles (N : nat) : Prop := forall h t b r n (s : ot h) old L P, (length (inodes n) <= N)%nat -> top_of t b r n s old L P ->
  settles (short t) (fun k => finish k t b r) (fun '(t', b') => exists h' (s' : ot h'), top_spilled t t' b b' r (contents (strip s)) s' L P).

Lemma finish_crown N (IH : top_settles N) {h} t b r n (s : ot h) old L P : (length (inodes n) <= Datatypes.S N)%nat -> top_of t b r n s old L P ->
  whole (psize t) (inodes n) = false ->
  settles (short t) (fun k => finish k t b r) (fun '(t', b') => exists h' (s' : ot h'), top_spilled t t' b b' r (contents (strip s)) s' L P).
Proof.
  intros HN Htop Hw. pose proof (crown_spread t b r n s old L P Htop Hw) as Hy. cbv zeta in Hy. destruct Htop as [Hn Hl Hi Hne Hk Hs Hf Hp Hky Hb Hold Hsp].
  set (n0 := with_children n []) in *. set (b0 := set_node b r n0) in *. set (q := nextRef b) in *. pose proof (Hb _ _ Hn) as Hlr.
  assert (Efin : forall k, finish k t b r = (let! (t, b) := (let! (b, l) := split (Datatypes.S (length (inodes n))) (psize t) b0 r in spill_parts pick sys t b l) in up k t b r)).
  { intros k. unfold finish. unfold deref at 1. rewrite Hn. cbn [rbind]. fold n0 b0 (psize t). destruct (split _ (psize t) b0 r) as [[b1 l]|e|]; done. }
  eapply settles_ext; [intros k; symmetry; apply Efin|]. eapply settles_bind; [apply settles_const, Hy|]. clear Hy Efin.
  intros [t1 b1] (ps & ls & rs & [D1 [D2 D2'] D3 D4 D5 D6 D7 D8 D9 D10 D11 D12 D13]). cbn [with_parent n0 with_children inodes isLeaf children new_node app] in *.
  destruct (cut_tree (tx_page t1) s ps ls) as (ts & T1 & T2 & T3 & T4); [by rewrite D1, Hi|by rewrite <-Hl|done| |].
  { eapply kids_laid_frame; [exact Hk|]. intros p Hin. apply (st_read _ _ _ D6). apply elem_of_app. by left. }
  pose proof D11 as D11'. apply Forall_cons_1 in D11' as [(n' & N1 & _ & N2 & _) _]. rewrite app_nil_r, <-T2 in D10. set (m := with_inodes (with_children (new_node false None [r]) (r :: rs)) (kitem <$> ts)) in *.
  assert (Hlq : q < nextRef b1) by (by eapply D9). set (b2 := set_node b1 r (with_children n' [])).
  assert (Hq2 : heap b2 !! q = Some m) by (cbn; rewrite lookup_insert_ne by (unfold q; lia); exact D10).
  assert (Hd2 : Forall (fun c => done_node b2 c q) (r :: rs)) by (eapply Forall_impl; [exact D11|]; intros c Hc; by apply done_set).
  assert (Hup : forall k, up k t1 b1 r = spill pick sys k t1 b2 q) by (intros k; unfold up, deref; rewrite N1; cbn [rbind]; rewrite N2, D10; done).
  eapply settles_ext; [intros k; symmetry; apply Hup|]. rewrite <-(st_file _ _ _ D6), <-(st_ps _ _ _ D6).
  eapply settles_S; [intros k; exact (spill_loaded k t1 b2 q m Hq2 eq_refl)|]. cbn [m with_inodes with_children children].
  destruct (sort_children_ok b2 (r :: rs)) as (ch & -> & Hch). { intros c Hc. rewrite Forall_forall in Hd2. destruct (Hd2 c Hc) as (nc & Hc1 & _ & _ & Hc2). by exists nc. }
  cbn [rbind]. set (m' := with_children m ch). set (b3 := set_node b2 q m').
  assert (Hb2 : refs_below b2) by (by eapply set_below). assert (Hb3 : refs_below b3) by (by eapply set_below).
  eapply settles_bind.
  { apply (spill_from_done t1 b3 q m' ch []); [apply lookup_insert_eq|done|]. rewrite Hch. eapply Forall_impl; [exact Hd2|]. intros c (nc & Hc1 & Hc2 & Hc3 & Hc4). exists nc. split; [|done].
    cbn. rewrite lookup_insert_ne; [done|]. intros <-. rewrite Hq2 in Hc1. injection Hc1 as <-. done. }
  intros [t2 b4] [= -> ->].
  assert (Htop : top_of t1 b3 q m' (((pag s, Some q), ts) : ot (Datatypes.S h)) [] L P).
  { split; try done.
    - apply lookup_insert_eq.
    - cbn. by rewrite kitem_skid.
    - clear -T2 D4 D2. destruct ls as [|l0 ls]; [done|]. apply Forall2_cons_inv_r in D4 as (p0 & ps' & _ & _ & ->). by destruct ts.
    - by rewrite contents_kcontents, T3.
    - by rewrite contents_kcontents, T3.
    - by left.
    - rewrite kid_pgs_S. eapply space_perm; [|exact D5]. rewrite T4. by rewrite app_assoc. }
  assert (Hlen : (length (inodes m') <= N)%nat).
  { cbn. rewrite length_fmap. apply (f_equal length) in T2. rewrite length_fmap, length_zip_with in T2. destruct (whole_false _ _ Hw) as [H4 _]. specialize (D3 ltac:(lia)). unfold len in *. lia. }
  eapply settles_mono; [exact (IH _ t1 b3 q m' _ [] L P Hlen Htop)|]. intros [t3 b5] (h' & s' & [E1 E2 E3 E4 E5 E6 E7 E8 E9]).
  rewrite contents_kcontents, T3 in E2. exists h', s'. split; try done.
  - eapply step_trans; [|exact E4]. eapply step_sub; [|exact D6]. intros x Hx. apply elem_of_app. by right.
  - eapply same_bucket_trans; [|exact E5]. eapply same_bucket_trans; [|exact D7]. done.
  - cbn in E6. cbn in D8. lia.
  - destruct E8 as (q2 & nq & Q1 & Q2 & k0 & Q3). exists q2, nq. split; [done|]. split; [done|]. exists (Datatypes.S k0). intros [|k] Hk'; [lia|].
    rewrite (root_up b5 r (with_children n' []) q k); [apply Q3; lia| |done]. rewrite E9; [cbn; rewrite lookup_insert_ne by (unfold q; lia); apply lookup_insert_eq| |unfold q; lia].
    change (r < nextRef b1). lia.
  - intros k K1 K2. rewrite E9; [|change (k < nextRef b1); lia|unfold q; lia]. cbn. rewrite !lookup_insert_ne by (unfold q; lia). rewrite D13; [|change (k < q + 1); lia|done|unfold q; lia].
    cbn. rewrite !lookup_insert_ne by (unfold q in *; lia). done.
Qed.

Lemma finish_top N : top_settles N.
Proof.
  induction N as [|N IH]; intros h t b r n s old L P HN Htop.
  - destruct (inodes n) eqn:E; [|cbn in HN; lia]. by destruct (to_ne _ _ _ _ _ _ _ _ Htop).
  - destruct (whole (psize t) (inodes n)) eqn:Hw; [|by eapply finish_crown].
    eapply settles_mono; [by eapply finish_whole|]. intros [t' b'] (s' & H). by exists h, s'.
Qed.

(** The same of a whole tree. *)
Record root_spilled {h'} t t' (b b' : Bucket) (r : Z) (l : list inode) (s' : ot h') (L P : list page) : Prop := mkRootSpilled {
  rs_laid : laid (tx_page t') s';
  rs_contents : contents (strip s') = l;
  rs_space : space t' (pgs s' ++ L) P;
  rs_step : step t t' L;
  rs_same : same_bucket b b';
  rs_mark : p_id (pag s') < hwm t';
  rs_root : exists q n, heap b' !! q = Some n /\ npgid n = p_id (pag s') /\ exists k0, forall k, (k0 <= k)%nat -> root_of k b' r = Ok q
}.

Lemma spill_root t b r key {h} (o : ot h) L P :
  ref o = Some r -> own (tx_page t) b None key o -> key <> Some [] -> NoDup (refs o) -> refs_below b -> sound o -> space t (pgs o ++ L) P ->
  settles (short t) (fun k => spill pick sys k t b r) (fun '(t', b') => exists h' (s' : ot h'), root_spilled t t' b b' r (contents (strip o)) s' L P).
Proof.
  intros Hr Ho Hky Hnd Hb Hsd Hsp. destruct (own_node _ _ _ _ _ _ Ho Hr) as (ch & Hn & _). assert (IH : kids_done h) by (destruct h; [done|apply spill_kid]).
  eapply settles_S; [intros k; exact (spill_loaded k t b r _ Hn eq_refl)|]. eapply settles_bind; [eapply (spill_own IH t b r None key o _ L P); done|].
  intros [t1 b1] (s & n & [[N1 N2 N3 N4 N5 N6 N7 N8 N9 N10] [P2 P3] P4 P5 P6 P7 P8 P9 P10 P11]). rewrite <-(st_file _ _ _ P7), <-(st_ps _ _ _ P7).
  eapply settles_mono; [eapply (finish_top _ h t1 b1 r n s [pag s] L P (Nat.le_refl _))|].
  - split; try done.
    + by rewrite P3.
    + right. by exists (pag s).
    + rewrite pgs_kids in P6. done.
  - intros [t2 b2] (h' & s' & [E1 E2 E3 E4 E5 E6 E7 E8 E9]). exists h', s'. split; try done.
    + by rewrite E2.
    + by eapply step_trans.
    + by eapply same_bucket_trans.
Qed.

(** ** A bucket *)

(** A bucket as a transaction opens it from its header. *)
Definition header_bucket (root seq : Z) : Bucket := mkBucket root seq None None ∅ ∅ 0.

Lemma unloaded_repr pg b {h} key (o : ot h) seq : own pg b None key o -> ref o = None -> p_id (pag o) <> 0 -> repr pg (header_bucket (p_id (pag o)) seq) (strip o).
Proof.
  intros Ho Hr Hz. pose proof (unloaded_refs _ _ _ _ _ Hr Ho) as Hrs. apply (own_repr pg (header_bucket (p_id (pag o)) seq) None key); [done| |].
  - eapply own_frame; [exact Ho| |done]. rewrite Hrs. by intros r ?%elem_of_nil.
  - apply Forall_forall. intros w Hw. cbn. rewrite lookup_empty. destruct w.2 as [r|] eqn:E; [|done]. assert (r ∈ refs o) as Hin by (apply list_elem_of_omap; by exists w). rewrite Hrs in Hin. by apply elem_of_nil in Hin.
Qed.

Lemma laid_repr pg {h} (s : ot h) seq : laid pg s -> p_id (pag s) <> 0 -> repr pg (header_bucket (p_id (pag s)) seq) (strip s).
Proof.
  intros Hl Hz. destruct (laid_first _ _ Hl) as [Hne Hf]. destruct (fkey s) as [k|] eqn:Ek; [|destruct (contents (strip s)); [done|discriminate Hf]].
  eapply (unloaded_repr pg (header_bucket 0 0)); [by apply laid_own|by apply (laid_ref pg)|done].
Qed.

Lemma bucket_spill_leaf k t b : bucket_spill pick sys (Datatypes.S k) t (BT b []) =
  match rootNode b with
  | None => Ok (t, BT b [])
  | Some r =>
      let! (t, b) := spill pick sys k t b r in
      let! q := root_of k b r in
      let! n := deref b q in
      if m_pgid (t_meta t) <=? npgid n then Panic else Ok (t, BT (with_broot (with_rootNode b (Some q)) (npgid n)) [])
  end.
Proof. reflexivity. Qed.

(** [Bucket.spill] of a loaded bucket that holds no buckets. *)
Lemma bucket_spill_ok t b {h} (o : ot h) L P : lodged (tx_page t) b o -> ref o <> None -> sound o -> space t (pgs o ++ L) P ->
  settles (short t) (fun k => bucket_spill pick sys k t (BT b [])) (fun '(t', x) => exists b' h' (s' : ot h'), x = BT b' [] /\ root b' = p_id (pag s') /\ sequence b' = sequence b /\
    rootNode b' <> None /\ laid (tx_page t') s' /\ contents (strip s') = contents (strip o) /\ space t' (pgs s' ++ L) P /\ step t t' L).
Proof.
  intros [(key & Hky & Ho) Hm Hn Hid Hb Hbp Hr Hz Hrn] Hl Hsd Hsp. destruct (ref o) as [r|] eqn:Er; [|done]. clear Hl.
  eapply settles_S; [intros k; rewrite bucket_spill_leaf, Hrn; reflexivity|]. eapply settles_bind; [by eapply (spill_root t b r key o L P)|].
  intros [t1 b1] (h' & s' & [E1 E2 E3 E4 E5 E6 (q & n & Q1 & Q2 & k0 & Q3)]). exists (Ok (t1, BT (with_broot (with_rootNode b1 (Some q)) (npgid n)) [])), k0. split.
  - intros k Hk. rewrite Q3 by done. cbn [rbind]. unfold deref. rewrite Q1. cbn [rbind]. rewrite Q2. unfold hwm in E6. destruct (Z.leb_spec (m_pgid (t_meta t1)) (p_id (pag s'))); [lia|done].
  - cbn [yields]. eexists _, h', s'. split; [done|]. cbn. split; [done|]. destruct E5 as (_ & Hseq & _). by rewrite Hseq.
Qed.

End Spill.
End BdbSpill.
