(* ===== verification/BdbCommit.v ===== *)
(** The commit of a write transaction of bdb ([Tx.Commit], bitree/bdb/tx.go) that
    has put pairs into a bucket: rebalancing, spilling the bucket and the one
    that holds it, the free list, the pages and the meta page; and what the file
    shows afterwards.

    The bucket is one with pages of its own, as it is once it has outgrown a
    quarter of a page. *)

From Stdlib Require Import ZArith Lia.
From stdpp Require Import base numbers option sorting list gmap.
From S2P Require Import Prelude Base Iter Freelist FreelistSpec FreelistSafe BdbPage BdbCursor BdbTree BdbIter BdbMeta BdbNode BdbTx BdbOverlay BdbPut BdbLaid BdbSpace BdbSpill.
Import Freelist Bdb BdbCursor BdbTree BdbIter BdbMeta BdbNode BdbTx BdbOverlay BdbPut BdbLaid BdbSpace BdbSpill.

Module BdbCommit.

(** ** Putting pairs *)

Fixpoint put_all {S} (fuel : nat) (t : Tx S) (b : Bucket) (kvs : list (bytes * bytes)) : outcome Bucket :=
  match kvs with [] => Ok b | (k, v) :: kvs' => let! b := bucket_put fuel t b k v in put_all fuel t b kvs' end.

(** The function of a transaction that puts pairs into the bucket of a name, and
    has opened no other. *)
Definition put_pairs {S} (fuel : nat) (t : Tx S) (x : bucketTree) (name : bytes) (kvs : list (bytes * bytes)) : outcome bucketTree :=
  let! (x, c) := bucket_open fuel t x name in
  match c, x with
  | None, _ => Err ErrBucketNotFound
  | Some _, BT b [(k, BT c cs)] => let! c := put_all fuel t c kvs in Ok (BT b [(k, BT c cs)])
  | _, _ => Panic
  end.

(** What the pairs make of a sorted list of items. *)
Definition pairs_item (kv : bytes * bytes) : inode := mkInode 0 0 kv.1 kv.2.
Definition insert_all (kvs : list (bytes * bytes)) (l : list inode) : list inode := fold_left (fun l kv => insert_item (pairs_item kv) l) kvs l.

(** Pairs that four of fit into one page run. *)
Definition pair_fit (kv : bytes * bytes) : Prop := kv.1 <> [] /\ len kv.1 <= MaxKeySize /\ len kv.1 + len kv.2 < 536870912.

Record tree_ok {h} (o : ot h) : Prop := mkTreeOk {
  to_wf : wf None None (strip o);
  to_keyed : keyed (strip o);
  to_full : full (strip o) \/ h = 0%nat;
  to_fit : Forall (item_fit true) (contents (strip o))
}.

Lemma tree_sound {h} (o : ot h) : tree_ok o -> full (strip o) -> sound o.
Proof. intros [H1 H2 _ H4] Hf. split; [done|]. split; [done|]. split; [by exists None, None|done]. Qed.

Lemma put_done_ok {S} (t : Tx S) b b' {h} (o o' : ot h) x : tree_ok o -> put_done t b b' o o' x -> item_fit true x -> tree_ok o' /\ full (strip o').
Proof.
  intros [H1 H2 H3 H4] [P1 P2 P3 P4 P5 P6 P7] Hx. split; [|by apply P5]. split; [done|by apply P6|left; by apply P5|]. rewrite P3. rewrite Forall_forall in *. intros y [->|Hy]%insert_item_elem; [done|by apply H4].
Qed.

(** The fuel does not matter once it covers the height. *)
Lemma bucket_put_fuel {S} (t : Tx S) b {h} (o : ot h) key value fuel fuel' : lodged (tx_page t) b o -> wf None None (strip o) -> 0 < m_pgid (t_meta t) -> (h <= fuel)%nat -> (h <= fuel')%nat ->
  bucket_put fuel t b key value = bucket_put fuel' t b key value.
Proof.
  intros Hlg Hw Hpg Hf Hf'. unfold bucket_put. destruct (Z.eqb_spec (len key) 0) as [|Hk]; [done|]. destruct (MaxValueSize <? len value); [done|]. set (cut := if MaxKeySize <? len key then _ else _).
  assert (Hc : cut <> []). { unfold cut. destruct (Z.ltb_spec MaxKeySize (len key)); destruct key; done. }
  destruct (seek_put t b o cut value 0 Hlg Hw Hc Hpg) as (cc & y & Es & _). by rewrite !Es.
Qed.

Lemma put_all_ok {S} (t : Tx S) kvs : forall b {h} (o : ot h), lodged (tx_page t) b o -> tree_ok o -> plain (contents (strip o)) -> Forall pair_fit kvs ->
  0 < m_pgid (t_meta t) -> calm b ->
  exists b' (o' : ot h), (forall fuel, (h <= fuel)%nat -> put_all fuel t b kvs = Ok b') /\ lodged (tx_page t) b' o' /\ tree_ok o' /\ plain (contents (strip o')) /\
    contents (strip o') = insert_all kvs (contents (strip o)) /\ pgs o' = pgs o /\ calm b' /\ (kvs <> [] -> full (strip o') /\ ref o' <> None).
Proof.
  induction kvs as [|[k v] kvs IH]; intros b h o Hlg Hok Hpl Hf Hpg Hc; [by exists b, o|]. apply Forall_cons_1 in Hf as [(F1 & F2 & F3) Hf]. cbn [fst snd] in *.
  pose proof (len_nonneg k). pose proof (len_nonneg v).
  destruct (bucket_put_ok t b o k v h Hlg (to_wf _ Hok) Hpl F1 F2 ltac:(unfold MaxValueSize; lia) Hpg ltac:(done)) as (b1 & o1 & E1 & Hd).
  destruct (put_done_ok t b b1 o o1 _ Hok Hd) as [Hok1 Hf1]; [by split|]. destruct Hd as [P1 P2 P3 P4 P5 P6 P7].
  assert (Hpl1 : plain (contents (strip o1))) by (rewrite P3; unfold plain in *; rewrite Forall_forall in *; intros y [->|Hy]%insert_item_elem; [done|by apply Hpl]).
  destruct (IH b1 h o1 P1 Hok1 Hpl1 Hf Hpg (bucket_put_calm _ _ _ _ _ _ E1 Hc)) as (b2 & o2 & E2 & Q1 & Q2 & Q3 & Q4 & Q5 & Q6 & Q7).
  exists b2, o2. split. { intros fuel Hfu. cbn [put_all]. rewrite (bucket_put_fuel t b o k v fuel h Hlg (to_wf _ Hok) Hpg Hfu) by done. rewrite E1. cbn [rbind]. by apply E2. }
  split; [done|]. split; [done|]. split; [done|]. split; [rewrite Q4, P3; done|]. split; [congruence|]. split; [done|]. intros _.
  destruct kvs as [|kv kvs]; [|by apply Q7]. specialize (E2 h ltac:(done)). cbn in E2. injection E2 as <-. split.
  - destruct (to_full _ Q2) as [|Hh]; [done|]. clear -Hh Q4 Hf1. cbn in Q4. subst h. cbn in *. by rewrite Q4.
  - destruct Q1 as [_ _ _ _ _ _ _ _ Hr2], P1 as [_ _ _ _ _ _ _ _ Hr1]. congruence.
Qed.

Lemma lodged_frame pg pg' b {h} (o : ot h) : lodged pg b o -> (forall p, p ∈ pgs o -> pg' (p_id p) = pg (p_id p)) -> lodged pg' b o.
Proof. intros [(key & Hk & Ho) Hm Hn Hid Hb Hbp Hr Hz Hrn] Hp. split; try done. exists key. split; [done|]. by eapply own_frame. Qed.

(** ** Spilling a bucket and the one that holds it *)

Section Spill.
Context {S : Type} {I : FreeStore S} {R : S -> gset Z -> Prop} `{!FreeStoreLaws I R}.
Context (pick : gset Z -> option Z) (Hpick : picks pick) (sys : Z -> bool).
Implicit Types (t : Tx S).

Abbreviation short t := (map_error sys (d_file (t_db t)) (psize t)) (only parsing).
Abbreviation space := (space (R := R)) (only parsing).

(** The header of a spilled bucket goes into the one that holds it. *)
Definition put_header (k : nat) t (b : Bucket) (name : bytes) (y : bucketTree) : outcome Bucket :=
  let! (cur, r) := seek (tx_page t) k b name in
  match r with
  | Some (nm, _, f) =>
      if negb (bool_decide (name = nm)) then Panic
      else if Z.land f bucketLeafFlag =? 0 then Panic
      else put_at t b cur name (bucket_header (root (bt_bucket y)) (sequence (bt_bucket y))) bucketLeafFlag
  | None => Panic
  end.

Definition spill_own_nodes (k : nat) t (b : Bucket) (subs : list (bytes * bucketTree)) : outcome (Tx S * bucketTree) :=
  match rootNode b with
  | None => Ok (t, BT b subs)
  | Some r =>
      let! (t, b) := spill pick sys k t b r in
      let! q := root_of k b r in
      let! n := deref b q in
      if m_pgid (t_meta t) <=? npgid n then Panic else Ok (t, BT (with_broot (with_rootNode b (Some q)) (npgid n)) subs)
  end.

Lemma bucket_spill_one k t b name c : inlineable (d_pageSize (t_db t)) c = false ->
  bucket_spill pick sys (Datatypes.S k) t (BT b [(name, BT c [])]) =
  (let! (t, y) := bucket_spill pick sys k t (BT c []) in
   let! b := (match rootNode (bt_bucket y) with None => Ok b | Some _ => put_header k t b name y end) in
   spill_own_nodes k t b [(name, y)]).
Proof.
  intros Hin. cbn [bucket_spill]. rewrite Hin. destruct (bucket_spill pick sys k t (BT c [])) as [[t1 y]|e|]; cbn [rbind]; [|done|done].
  destruct (rootNode (bt_bucket y)) as [r0|]; cbn [rbind]; [|done]. unfold put_header. destruct (seek (tx_page t1) k b name) as [[cur [[[nm v] f]|]]|e|]; cbn [rbind]; [|done..].
  destruct (negb (bool_decide (name = nm))); [done|]. destruct (Z.land f bucketLeafFlag =? 0); [done|]. destruct (put_at t1 b cur name _ _); done.
Qed.

(** What is left of the two. *)
Record both_spilled t t' (x : bucketTree) {h1 h2} (sc : ot h1) (sr : ot h2) (name : bytes) (lc lr : list inode) (L P : list page) : Prop := mkBothSpilled {
  bo_child : laid (tx_page t') sc;
  bo_pairs : contents (strip sc) = lc;
  bo_root : laid (tx_page t') sr;
  bo_names : exists seq, contents (strip sr) = insert_item (mkInode bucketLeafFlag 0 name (bucket_header (p_id (pag sc)) seq)) lr;
  bo_id : root (bt_bucket x) = p_id (pag sr);
  bo_space : space t' (pgs sc ++ pgs sr ++ L) P;
  bo_step : step t t' L
}.

Lemma header_fit name root seq : name <> [] -> len name <= MaxKeySize -> item_fit true (mkInode bucketLeafFlag 0 name (bucket_header root seq)).
Proof.
  intros Hn Hl. split; [done| |done|done]. unfold bucket_header. cbn [ikey ivalue]. rewrite len_app. unfold len at 2 3. rewrite !length_le_put. unfold MaxKeySize in Hl. lia.
Qed.

Lemma spill_own_eq k t b subs : spill_own_nodes k t b subs = (let! (t, x) := bucket_spill pick sys (Datatypes.S k) t (BT b []) in Ok (t, BT (bt_bucket x) subs)).
Proof.
  rewrite bucket_spill_leaf. unfold spill_own_nodes. destruct (rootNode b) as [r|]; [|done]. destruct (spill pick sys k t b r) as [[t1 b1]|e|]; cbn [rbind]; [|done|done].
  destruct (root_of k b1 r) as [q|e|]; cbn [rbind]; [|done|done]. destruct (deref b1 q) as [n|e|]; cbn [rbind]; [|done|done]. by destruct (m_pgid (t_meta t1) <=? npgid n).
Qed.

Lemma settles_shift {A} E (f : nat -> outcome A) P : settles E f P -> settles E (fun k => f (Datatypes.S k)) P.
Proof. intros (r & n0 & Hf & Hr). exists r, n0. split; [|done]. intros n Hn. apply Hf. lia. Qed.

Lemma settles_from {A} E (f : nat -> outcome A) r n0 P : (forall n, (n0 <= n)%nat -> f n = r) -> yields E r P -> settles E f P.
Proof. intros H1 H2. by exists r, n0. Qed.

Lemma both_spill_ok t b c name {h1 h2} (oc : ot h1) (or : ot h2) L P y :
  lodged (tx_page t) c oc -> ref oc <> None -> sound oc -> inlineable (psize t) c = false ->
  lodged (tx_page t) b or -> tree_ok or -> name <> [] -> len name <= MaxKeySize -> 0 < hwm t ->
  find_item name (contents (strip or)) = Some y -> Z.land (iflags y) bucketLeafFlag <> 0 -> space t (pgs oc ++ pgs or ++ L) P ->
  settles (short t) (fun k => bucket_spill pick sys k t (BT b [(name, BT c [])])) (fun '(t', x) => exists h1 h2 (sc : ot h1) (sr : ot h2),
    both_spilled t t' x sc sr name (contents (strip oc)) (contents (strip or)) L P).
Proof.
  intros Hc Hlc Hsc Hin Hb Hor Hn Hnl Hw Hy Hfl Hsp. eapply settles_S; [intros k; apply bucket_spill_one, Hin|].
  eapply settles_bind; [by apply (bucket_spill_ok pick Hpick sys t c oc (pgs or ++ L) P)|]. intros [t1 x1] (c' & h1' & sc & -> & Hroot & Hsq & Hrn & Hlaid & Hcon & Hsp1 & Hst1). cbn [bt_bucket].
  destruct (rootNode c') as [rc|] eqn:Erc; [|done].
  assert (Hb1 : lodged (tx_page t1) b or) by (eapply lodged_frame; [exact Hb|]; intros p Hp; apply (st_read _ _ _ Hst1), elem_of_app; by left).
  assert (Hw1 : 0 < m_pgid (t_meta t1)) by (pose proof (st_hwm _ _ _ Hst1); unfold hwm in *; lia).
  destruct (seek_put t1 b or name (bucket_header (root c') (sequence c')) bucketLeafFlag Hb1 (to_wf _ Hor) Hn Hw1) as (cc & y0 & Es & _ & Ef & b1 & o1 & Ep & Hd).
  destruct (put_done_ok t1 b b1 or o1 _ Hor Hd (header_fit name _ _ Hn Hnl)) as [Hok1 Hf1]. destruct Hd as [P1 P2 P3 P4 P5 P6 P7].
  eapply settles_bind.
  { apply (settles_from _ _ (Ok b1) h2 (fun b' => b' = b1)); [|done]. intros k Hk. unfold put_header. rewrite Es by done. cbn [rbind]. rewrite Hy in Ef. destruct y0 as [x0|]; [|done].
    destruct (decide (name = ikey x0)) as [En|]; [|done]. injection Ef as ->. cbn. rewrite bool_decide_eq_true_2 by done. cbn. destruct (Z.eqb_spec (Z.land (iflags y) bucketLeafFlag) 0); [done|]. exact Ep. }
  intros ? ->. eapply settles_ext; [intros k; symmetry; apply spill_own_eq|]. rewrite <-(st_file _ _ _ Hst1), <-(st_ps _ _ _ Hst1).
  eapply settles_bind; [apply (settles_shift _ (fun k => bucket_spill pick sys k t1 (BT b1 []))), (bucket_spill_ok pick Hpick sys t1 b1 o1 (pgs sc ++ L) P P1 P7 (tree_sound _ Hok1 Hf1))|].
  { rewrite P4. eapply space_perm; [|exact Hsp1]. solve_Permutation. }
  intros [t2 x2] (b2 & h2' & sr & -> & Hroot2 & _ & _ & Hlaid2 & Hcon2 & Hsp2 & Hst2). apply settles_const. exists h1', h2', sc, sr. split.
  - eapply laid_frame; [exact Hlaid|]. intros p Hp. apply (st_read _ _ _ Hst2), elem_of_app. by left.
  - done.
  - done.
  - exists (sequence c'). by rewrite Hcon2, P3, Hroot.
  - done.
  - eapply space_perm; [|exact Hsp2]. solve_Permutation.
  - eapply step_trans; [eapply step_sub; [|exact Hst1]|eapply step_sub; [|exact Hst2]]; intros p Hp; apply elem_of_app; by right.
Qed.

(** ** Rebalancing has nothing to do *)

Lemma rebalance_calm k t b l : calm b -> rebalance_nodes (Datatypes.S k) t b l = Ok (t, b).
Proof.
  intros [H1 H2]. induction l as [|id l IH]; [done|]. cbn [rebalance_nodes]. destruct (nodes b !! id) as [r|] eqn:Er; [|done]. destruct (H2 _ _ Er) as [n Hn].
  cbn [rebalance]. unfold deref. rewrite Hn. cbn [rbind]. rewrite (H1 _ _ Hn). cbn [negb rbind]. exact IH.
Qed.

Lemma bucket_rebalance_calm order k t b name c : calm b -> calm c ->
  bucket_rebalance order (Datatypes.S (Datatypes.S (Datatypes.S k))) t (BT b [(name, BT c [])]) = Ok (t, BT b [(name, BT c [])]).
Proof. intros Hb Hc. cbn [bucket_rebalance]. rewrite rebalance_calm by done. cbn [rbind]. rewrite rebalance_calm by done. done. Qed.

(** ** The page of the free list *)

Context (ToBytes : gset Z -> bytes) (porder : gmap Z txPending -> list Z).

(** The bitmap library: numbers below [n] take no more than [n] bytes and 64
    kilobytes, and taking a run out of a bitmap makes it little longer. *)
Hypothesis bitmap_size : forall s n, 0 <= n -> (forall x, x ∈ s -> 0 <= x < n) -> len (ToBytes s) <= n + 65536.
Hypothesis bitmap_shrink : forall s id n, len (ToBytes (s ∖ run_set id n)) <= len (ToBytes s) + 512.
Hypothesis order_all : forall m, visits (porder m) m.

Lemma drop_run_set n : forall id rb c, (drop_run n id rb c).1 = rb ∖ run_set id (Z.of_nat n).
Proof.
  induction n as [|n IH]; intros id rb c; cbn [drop_run].
  - apply set_eq. intros x. rewrite elem_of_difference, elem_run_set. cbn. naive_solver lia.
  - case_bool_decide as E; rewrite IH; apply set_eq; intros x; rewrite !elem_of_difference, ?elem_of_singleton, !elem_run_set.
    + destruct (decide (x = id)) as [->|]; [naive_solver lia|]. split; intros [H1 H2]; (split; [tauto|]); lia.
    + destruct (decide (x = id)) as [->|]; [naive_solver lia|]. split; intros [H1 H2]; (split; [tauto|]); lia.
Qed.

Lemma writeBitmap_ok ps p rb c : page_fits ps p -> p_flags p = 0 -> 0 <= c -> 16 + len (ToBytes rb) <= len (p_data p) -> len (p_data p) < 18446744073709551616 ->
  exists p', writeBitmap ToBytes p rb (len (ToBytes rb)) c = Ok p' /\ page_fits ps p' /\ p_id p' = p_id p /\ p_overflow p' = p_overflow p.
Proof.
  intros [F1 F2 F3 F4 F5] Hfl Hc Hroom H64. unfold writeBitmap. rewrite Hfl. pose proof (len_nonneg (ToBytes rb)). change (Z.lor 0 freelistPageFlag) with 16.
  destruct (Z.eqb_spec c 0) as [->|Hne]; [eexists; split; [done|]; split; [split; cbn; try done; lia|done]|].
  destruct (Z.ltb_spec c 65535).
  - destruct (copyallBitmap_spec ToBytes (p_data p) 0 rb) as (d & -> & _ & Hd & _); [lia|lia|lia|]. cbn [rbind]. eexists. split; [done|]. split; [|done].
    split; cbn; [done|done|rewrite u16_small by lia; lia|done|by rewrite Hd].
  - assert (E8 : len (le_put 8 c) = 8) by (unfold len; by rewrite length_le_put). destruct (poke_data_ok (p_data p) 0 (le_put 8 c)) as (d1 & -> & L1 & _); [lia|lia|]. cbn [rbind].
    destruct (copyallBitmap_spec ToBytes d1 8 rb) as (d & -> & _ & Hd & _); [lia|lia|lia|]. cbn [rbind]. eexists. split; [done|]. split; [|done].
    split; cbn; [done|done|done|done|by rewrite Hd, L1].
Qed.

Lemma all_pages_below t F L P : space_in (R := R) t F L P -> forall x, x ∈ all_pages (flist t) -> 0 <= x < hwm t.
Proof.
  intros H x Hx. pose proof (sp_inv _ _ _ _ H) as Hi.
  assert (Hlt : forall y, y ∈ all_pages (flist t) -> y < hwm t).
  { intros y Hy. unfold all_pages in Hy. apply elem_of_union in Hy as [Hy|Hy].
    - apply (sp_free _ _ _ _ H). by rewrite (finv_pages _ _ Hi) in Hy.
    - apply (pending_set_spec _ _ (fi_pend _ _ Hi)) in Hy as (b & a & Hb). by apply (sp_pend _ _ _ _ H y b a). }
  split; [|by apply Hlt]. apply (all_pages_u64 _ _ Hi); [|done]. intros y Hy. specialize (Hlt y Hy). destruct (sp_room _ _ _ _ H) as [Hr _]. pose proof (sp_ps _ _ _ _ H).
  unfold maxMapSize in Hr. nia.
Qed.

Lemma live_not_free t F L P p id : space_in (R := R) t F L P -> p ∈ L -> p_id p <= id <= p_id p + p_overflow p -> id ∉ all_pages (flist t).
Proof.
  intros H Hp Hid Hin. pose proof (sp_inv _ _ _ _ H) as Hi. pose proof (sp_live _ _ _ _ H) as Hl. rewrite Forall_forall in Hl. destruct (Hl p Hp) as (_ & _ & _ & Hk).
  unfold all_pages in Hin. apply elem_of_union in Hin as [Hin|Hin].
  - apply (Hk id Hid). by rewrite (finv_pages _ _ Hi) in Hin.
  - apply (pending_set_spec _ _ (fi_pend _ _ Hi)) in Hin as (b & a & Hb). by apply (sp_used _ _ _ _ H p id b a).
Qed.

Lemma space_ext t t' L P : flist t' = flist t -> psize t' = psize t -> d_datasz (t_db t') = d_datasz (t_db t) -> hwm t' = hwm t -> t_pages t' = t_pages t -> space t L P -> space t' L P.
Proof. intros E1 E2 E3 E4 E5 [F [H1 H2 H0 H3 H4 H5 H6 H7 H8 H9 H10 H11 H12]]. exists F. by split; rewrite ?E1, ?E2, ?E3, ?E4, ?E5. Qed.

(** The free list is written: [rb] is what it says is free. *)
Record listed t t' (q : page) (rb : gset Z) (L P : list page) : Prop := mkListed {
  li_space : space t' (q :: L) P;
  li_meta : t_meta t' = with_mfreelist (with_pgid (t_meta t) (hwm t')) (p_id q);
  li_mark : p_id q < hwm t' /\ hwm t <= hwm t';
  li_file : d_file (t_db t') = d_file (t_db t) /\ psize t' = psize t /\ conf (t_db t') = conf (t_db t);
  li_read : forall p, p ∈ L -> tx_page t' (p_id p) = tx_page t (p_id p);
  li_page : exists p c, writeBitmap ToBytes p rb (len (ToBytes rb)) c = Ok q;
  li_free : forall p id, p ∈ q :: L -> p_id p <= id <= p_id p + p_overflow p -> id ∉ rb
}.

Lemma commitFreelist_ok t L P : space t L P -> 1024 <= psize t -> d_NoGrowSync (t_db t) = true ->
  yields (short t) (commitFreelist pick sys ToBytes porder t) (fun t' => exists q rb, listed t t' q rb L P).
Proof.
  intros Hsp Hps Hng. pose proof Hsp as [F H]. pose proof (all_pages_below t F L P H) as Hlow. pose proof (sp_ps _ _ _ _ H) as [_ Hps2]. destruct (sp_room _ _ _ _ H) as [Hroom _].
  pose proof (sp_hwm _ _ _ _ H) as Hh2. pose proof (bitmap_size (all_pages (flist t)) (hwm t) ltac:(lia) Hlow) as Hbs. unfold maxMapSize in Hroom.
  unfold commitFreelist. fold (flist t) (psize t). rewrite (convertBitmap_spec _ F _ (sp_inv _ _ _ _ H) (order_all _)). set (rb := all_pages (flist t)) in *.
  set (count := (len (ToBytes rb) + freelistBitmapHeaderSize) / psize t + 2). pose proof (len_nonneg (ToBytes rb)) as Hrl. unfold freelistBitmapHeaderSize in count.
  pose proof (Z.div_mod (len (ToBytes rb) + 16) (psize t) ltac:(lia)) as Hdm. pose proof (Z.mod_pos_bound (len (ToBytes rb) + 16) (psize t) ltac:(lia)) as Hmb.
  assert (Hcount : 2 <= count < 4294967296). { unfold count. assert (hwm t <= 281474976710656 / 1024) by (apply Z.div_le_lower_bound; nia). change (281474976710656 / 1024) with 274877906944 in *. nia. }
  eapply yields_bind; [apply (space_allocate pick Hpick sys t L P count Hsp); lia|]. intros [[t1 p] isFree] (A1 & A2 & A3 & A4 & A5 & A6).
  set (sel := if isFree then _ else _).
  assert (Hsel : exists rb' c, sel = (rb', c, len (ToBytes rb')) /\ (forall x, x ∈ rb' -> x ∈ rb) /\ (forall x, p_id p <= x <= p_id p + p_overflow p -> x ∉ rb') /\ len (ToBytes rb') <= len (ToBytes rb) + 512).
  { assert (Epo : p_overflow p = count - 1) by (rewrite A2; cbn; apply u32_small; lia). unfold sel. destruct isFree.
    - pose proof (drop_run_set (Z.to_nat count) (p_id p) rb (Freelist.count (flist t))) as Ed. rewrite Z2Nat.id in Ed by lia. destruct (drop_run _ _ _ _) as [rb' c]. cbn in Ed. subst rb'.
      exists (rb ∖ run_set (p_id p) count), c. split; [done|]. split; [by intros x [? _]%elem_of_difference|]. split; [|apply bitmap_shrink].
      intros x Hx [_ Hin]%elem_of_difference. apply Hin, elem_run_set. lia.
    - eexists _, _. split; [done|]. split; [done|]. split; [|lia]. intros x Hx Hin. specialize (Hlow x Hin). specialize (A6 eq_refl). lia. }
  destruct Hsel as (rb' & c & -> & Hsub & Hrun & Hlen'). set (cnt := if c <? 0 then 0 else c). assert (Hcnt : 0 <= cnt) by (unfold cnt; destruct (Z.ltb_spec c 0); lia).
  pose proof A1 as [F1 H1]. assert (Hp1 : t_pages t1 !! p_id p = Some p) by (rewrite A3; apply lookup_insert_eq). destruct (sp_new _ _ _ _ H1 _ _ Hp1) as (_ & Hfit & Hkp & _).
  pose proof (pf_data _ _ Hfit) as Hdata. rewrite (st_ps _ _ _ A5) in Hdata, Hfit. assert (Epo : p_overflow p = count - 1) by (rewrite A2; cbn; apply u32_small; lia). rewrite Epo in Hdata. unfold pageHeaderSize in Hdata.
  destruct (writeBitmap_ok (psize t) p rb' cnt Hfit) as (q & Ew & Hqf & Hqid & Hqo); [by rewrite A2|done|unfold count in *; nia|nia|]. rewrite Ew. cbn [rbind yields].
  destruct (space_fill t1 p q L P A1 Hp1 Hqid Hqo ltac:(by rewrite (st_ps _ _ _ A5))) as (B1 & B2 & B3). set (t2 := with_pages t1 _) in *.
  set (t3 := with_meta t2 (with_mfreelist (t_meta t2) (p_id q))). set (tg := if _ <? _ then _ else t3).
  assert (Htg : flist tg = flist t3 /\ psize tg = psize t3 /\ d_datasz (t_db tg) = d_datasz (t_db t3) /\ t_meta tg = t_meta t3 /\ t_pages tg = t_pages t3 /\ d_file (t_db tg) = d_file (t_db t3) /\ conf (t_db tg) = conf (t_db t3)).
  { assert (Eng : d_NoGrowSync (t_db t1) = d_NoGrowSync (t_db t)) by (pose proof (st_conf _ _ _ A5) as E; unfold conf in E; congruence). unfold tg. destruct (m_pgid (t_meta t) <? _); [|done]. unfold grow. destruct (_ <=? d_filesz (t_db t3)); [by destruct t1 as [[] ? ?]|].
    cbn [t3 t2 with_meta with_pages t_db with_db]. rewrite Eng, Hng. cbn [negb andb]. done. }
  destruct Htg as (G1 & G2 & G3 & G4 & G5 & G6 & G7). exists q, rb'. pose proof (step_trans _ _ _ _ A5 B2) as Hst. split.
  - apply (space_ext t2); [done|done|done|unfold hwm; by rewrite G4|done|exact B1].
  - rewrite G4. unfold hwm. rewrite G4. cbn [t3 with_meta t_meta]. rewrite (st_meta _ _ _ Hst) at 1. done.
  - unfold hwm in *. rewrite G4. cbn. rewrite Hqid. split; [exact A4|]. apply (st_hwm _ _ _ A5).
  - rewrite G2, G6, G7. pose proof (st_file _ _ _ Hst). pose proof (st_ps _ _ _ Hst). pose proof (st_conf _ _ _ Hst). done.
  - intros x Hx. rewrite <-(st_read _ _ _ Hst x Hx). unfold tx_page. unfold psize in G2. rewrite G5, G6, G2. done.
  - eexists _, _. exact Ew.
  - intros x id [->|Hx]%elem_of_cons Hid; [rewrite Hqid, Hqo in Hid; by apply Hrun|]. intros Hin. apply Hsub in Hin. by eapply (live_not_free t F L P x id).
Qed.

End Spill.

(** ** What a file stores *)

(** A tree of pages with the items [l]. *)
Record on_disk (pg : Z -> outcome page) {h} (s : ot h) (l : list inode) : Prop := mkOnDisk {
  od_laid : laid pg s;
  od_items : contents (strip s) = l;
  od_sorted : ksorted l;
  od_fit : Forall (item_fit true) l
}.

Lemma on_disk_sound pg {h} (s : ot h) l : on_disk pg s l -> sound s.
Proof. intros [H1 <- H3 H4]. by eapply laid_sound. Qed.

Lemma on_disk_tree pg {h} (s : ot h) l : on_disk pg s l -> tree_ok s.
Proof.
  intros H. destruct (on_disk_sound _ _ _ H) as (S1 & S2 & _ & S4). split; [|done|by left|done]. destruct H as [H1 <- H3 H4]. apply (laid_wf pg); [done|done|].
  apply Forall_forall. intros x _. split; by intros a [=].
Qed.

Lemma on_disk_lodged pg {h} (s : ot h) l seq : on_disk pg s l -> NoDup (p_id <$> pgs s) -> p_id (pag s) <> 0 -> lodged pg (header_bucket (p_id (pag s)) seq) s.
Proof.
  intros H Hnd Hz. pose proof (on_disk_sound _ _ _ H) as (_ & _ & _ & Hfit). destruct H as [Hl _ _ _]. pose proof (laid_refs _ _ Hl) as Hrs. destruct (laid_first _ _ Hl) as [Hne Hf].
  destruct (contents (strip s)) as [|x l0] eqn:Ec; [done|]. cbn in Hf. split; try done.
  - exists (Some (ikey x)). split; [|by apply laid_own]. apply Forall_cons_1 in Hfit as [[Hk _ _ _] _]. by intros [= E].
  - apply Forall_forall. intros w Hw. cbn. rewrite lookup_empty. destruct w.2 as [r|] eqn:E; [|done]. assert (r ∈ refs s) as Hin by (apply list_elem_of_omap; by exists w). rewrite Hrs in Hin. by apply elem_of_nil in Hin.
  - rewrite Hrs. constructor.
  - by rewrite (laid_ref pg).
Qed.

Lemma laid_read pg {h} (s : ot h) p : laid pg s -> p ∈ pgs s -> pg (p_id p) = Ok p.
Proof.
  revert s. induction h as [|h IH]; intros s Hl Hp; destruct s as [x K].
  - destruct Hl as (_ & Hx & _). by apply list_elem_of_singleton in Hp as ->.
  - destruct (proj1 (laid_S _ _ _) Hl) as (_ & Hx & _ & _ & HK). unfold pgs in Hp. rewrite heads_S, fmap_cons in Hp. apply elem_of_cons in Hp as [->|Hp]; [done|].
    apply list_elem_of_fmap in Hp as (w & -> & Hw). unfold kheads in Hw. apply elem_of_concat in Hw as (l & Hw & Hl'). apply list_elem_of_fmap in Hl' as (y & -> & Hy).
    rewrite Forall_forall in HK. destruct (HK y Hy) as [Hly _]. apply (IH y.2 Hly). apply list_elem_of_fmap. exists w. split; [done|exact Hw].
Qed.

(** The file stores, under the meta [m], the items [l] in the bucket of a name
    that is one of [names]; [L] are the pages of both trees. *)
Definition stored (f : bytes) (ps : Z) (m : meta) (name : bytes) (l names : list inode) (L : list page) : Prop :=
  exists h1 h2 (sc : ot h1) (sr : ot h2) seq y,
    on_disk (file_page f ps) sc l /\ plain l /\ on_disk (file_page f ps) sr names /\ m_root m = p_id (pag sr) /\
    find_item name names = Some y /\ Z.land (iflags y) bucketLeafFlag <> 0 /\ ivalue y = bucket_header (p_id (pag sc)) seq /\ L = pgs sc ++ pgs sr.

Lemma openBucket_header r seq : 0 < r < 18446744073709551616 -> openBucket (bucket_header r seq) = Ok (header_bucket r (u64 seq)).
Proof.
  intros Hr. assert (El : len (bucket_header r seq) = 16) by (unfold bucket_header; rewrite len_app; unfold len; by rewrite !length_le_put).
  unfold openBucket. rewrite peek_ok by (rewrite ?El; unfold bucketHeaderSize; lia). cbn [rbind]. rewrite drop_0, take_ge by (unfold len in El; unfold bucketHeaderSize; lia).
  unfold bucket_header. rewrite field_put. change (2 ^ (8 * Z.of_nat 8)) with 18446744073709551616. rewrite Z.mod_small by lia.
  destruct (field 8 (le_put 8 seq)) as [v d] eqn:E. destruct (Z.eqb_spec r 0); [lia|]. cbn [rbind]. f_equal. unfold header_bucket. f_equal.
  pose proof (field_put_last 8 seq) as E2. rewrite E in E2. cbn in E2. done.
Qed.

(** Opening the bucket of a name. *)
Lemma bucket_open_header {S} (t : Tx S) b {h} (o : ot h) name y r seq fuel : lodged (tx_page t) b o -> wf None None (strip o) -> name <> [] -> 0 < m_pgid (t_meta t) -> (h <= fuel)%nat ->
  find_item name (contents (strip o)) = Some y -> Z.land (iflags y) bucketLeafFlag <> 0 -> ivalue y = bucket_header r seq -> 0 < r < 18446744073709551616 ->
  bucket_open fuel t (BT b []) name = Ok (BT b [(name, BT (header_bucket r (u64 seq)) [])], Some (header_bucket r (u64 seq))).
Proof.
  intros Hlg Hw Hn Hpg Hfu Hy Hfl Hv Hr. destruct (seek_put t b o name [] 0 Hlg Hw Hn Hpg) as (cc & y0 & Es & _ & Ef & _). unfold bucket_open. cbn [sub_find]. rewrite Es by done. cbn [rbind].
  rewrite Hy in Ef. destruct y0 as [x|]; [|done]. destruct (decide (name = ikey x)) as [En|]; [|done]. injection Ef as ->. cbn. rewrite bool_decide_eq_true_2 by done.
  destruct (Z.eqb_spec (Z.land (iflags y) bucketLeafFlag) 0); [done|]. cbn. rewrite Hv, openBucket_header by done. done.
Qed.

(** A bucket that is more than a quarter of a page stays on pages of its own. *)
Lemma inlineable_large pg ps b {h} (o : ot h) : lodged pg b o -> inline_loop (ps / 4) (contents (strip o)) pageHeaderSize = false -> inlineable ps b = false.
Proof.
  intros [(key & _ & Ho) _ _ _ _ _ _ _ Hrn] Hi. unfold inlineable. destruct (rootNode b) as [r|] eqn:Er; [|done]. cbn. destruct h as [|h]; destruct o as [[p q] l]; cbn in Hrn; subst q.
  - destruct Ho as (_ & ch & -> & _). cbn. exact Hi.
  - destruct (proj1 (own_S _ _ _ _ _ _) Ho) as [(_ & ch & -> & _) _]. done.
Qed.

End BdbCommit.
