(* ===== verification/BdbUpdate.v ===== *)
(** An update of the tree of a bitree from end to end: pairs are put into a bucket
    in a write transaction, the transaction commits, and readers of the new file
    find them (bitree/bdb.go: [bdbSet], [switchBdbKey]; bitree/bdb/tx.go: [Commit]). *)

From Stdlib Require Import ZArith Lia.
From stdpp Require Import base numbers option sorting list gmap.
From S2P Require Import Prelude Base Iter Freelist FreelistSpec FreelistSafe BdbPage BdbCursor BdbTree BdbIter BdbMeta BdbNode BdbTx BdbOverlay BdbPut BdbLaid BdbSpace BdbSpill BdbCommit.
Import Freelist Bdb BdbCursor BdbTree BdbIter BdbMeta BdbNode BdbTx BdbOverlay BdbPut BdbLaid BdbSpace BdbSpill BdbCommit.

Module BdbUpdate.

(** ** Reading *)

(** A reader looks a key up in the bucket of a name. *)
Definition get_pair {S} (fuel : nat) (t : Tx S) (name key : bytes) : outcome (option bytes) :=
  let! (_, c) := bucket_open fuel t (BT (meta_bucket (t_meta t)) []) name in
  match c with None => Err ErrBucketNotFound | Some c => bGet (tx_page t) fuel c key end.

(** The pages of a file, by numbers. *)
Record numbered (L : list page) : Prop := mkNumbered {
  nb_once : NoDup (p_id <$> L);
  nb_range : Forall (fun p => 2 <= p_id p < 18446744073709551616) L
}.

Lemma numbered_app L L' : numbered (L ++ L') -> numbered L /\ numbered L'.
Proof. intros [H1 H2]. rewrite fmap_app in H1. apply NoDup_app in H1 as (? & _ & ?). apply Forall_app in H2 as [? ?]. split; by split. Qed.

Lemma pag_pgs {h} (s : ot h) : pag s ∈ pgs s.
Proof. unfold pgs. destruct (heads_hd s) as [l ->]. by left. Qed.

Lemma pag_range {h} (s : ot h) : numbered (pgs s) -> 2 <= p_id (pag s) < 18446744073709551616.
Proof. intros [_ H]. rewrite Forall_forall in H. apply H, pag_pgs. Qed.

Lemma stored_get {S} (t : Tx S) name key l names L : stored (d_file (t_db t)) (psize t) (t_meta t) name l names L -> t_pages t = ∅ -> numbered L -> 0 < m_pgid (t_meta t) -> name <> [] ->
  exists n, forall fuel, (n <= fuel)%nat -> get_pair fuel t name key = Ok (ivalue <$> find_item key l).
Proof.
  intros (h1 & h2 & sc & sr & seq & y & Hc & Hpl & Hr & Hroot & Hy & Hfl & Hv & ->) Hpg [Nc Nr]%numbered_app Hw Hn.
  assert (Hpage : forall id, tx_page t id = file_page (d_file (t_db t)) (psize t) id) by (intros id; unfold tx_page; by rewrite Hpg).
  assert (Hc' : on_disk (tx_page t) sc l) by (destruct Hc as [H1 ? ? ?]; split; [|done..]; eapply laid_frame; [exact H1|]; intros; apply Hpage).
  assert (Hr' : on_disk (tx_page t) sr names) by (destruct Hr as [H1 ? ? ?]; split; [|done..]; eapply laid_frame; [exact H1|]; intros; apply Hpage).
  pose proof (pag_range _ Nc) as Rc. pose proof (pag_range _ Nr) as Rr.
  pose proof (on_disk_lodged _ _ _ (m_sequence (t_meta t)) Hr' (nb_once _ Nr) ltac:(lia)) as Lr. rewrite <-Hroot in Lr. change (header_bucket (m_root (t_meta t)) (m_sequence (t_meta t))) with (meta_bucket (t_meta t)) in Lr.
  exists (h1 `max` h2)%nat. intros fuel Hfu. unfold get_pair.
  rewrite (bucket_open_header t _ sr name y (p_id (pag sc)) seq fuel Lr); [|by eapply to_wf, on_disk_tree|done|done|lia|by rewrite (od_items _ _ _ Hr')|done|done|lia].
  cbn [rbind]. pose proof (on_disk_lodged _ _ _ (u64 seq) Hc' (nb_once _ Nc) ltac:(lia)) as Lc.
  rewrite (bGet_spec _ _ (strip sc)); [by rewrite (od_items _ _ _ Hc')|by apply lodged_repr|by rewrite tid_strip; apply Lc|by eapply to_wf, on_disk_tree|by rewrite (od_items _ _ _ Hc')|lia].
Qed.

(** What a key has after the pairs are put. *)
Definition after_puts (kvs : list (bytes * bytes)) (key : bytes) (r : option bytes) : option bytes :=
  fold_left (fun r kv => if decide (key = kv.1) then Some kv.2 else r) kvs r.

Lemma find_insert_all kvs key : forall l, ksorted l -> ivalue <$> find_item key (insert_all kvs l) = after_puts kvs key (ivalue <$> find_item key l).
Proof.
  induction kvs as [|[k v] kvs IH]; intros l Hl; [done|]. change (insert_all ((k, v) :: kvs) l) with (insert_all kvs (insert_item (pairs_item (k, v)) l)).
  rewrite IH by (by apply insert_item_sorted). change (after_puts ((k, v) :: kvs) key (ivalue <$> find_item key l)) with (after_puts kvs key (if decide (key = k) then Some v else ivalue <$> find_item key l)).
  f_equal. rewrite find_insert by done. cbn [pairs_item ikey fst]. by case_decide.
Qed.

(** ** Committing *)

Section Update.
Context {S : Type} {I : FreeStore S} {R : S -> gset Z -> Prop} `{!FreeStoreLaws I R}.
Context (pick : gset Z -> option Z) (Hpick : picks pick) (sys : Z -> bool) (order : gmap Z Z -> list Z).
Context (ToBytes : gset Z -> bytes) (porder : gmap Z txPending -> list Z).
Hypothesis bitmap_size : forall s n, 0 <= n -> (forall x, x ∈ s -> 0 <= x < n) -> len (ToBytes s) <= n + 65536.
Hypothesis bitmap_shrink : forall s id n, len (ToBytes (s ∖ run_set id n)) <= len (ToBytes s) + 512.
Hypothesis order_all : forall m, visits (porder m) m.
Implicit Types (t : Tx S).

Abbreviation short t := (map_error sys (d_file (t_db t)) (psize t)) (only parsing).
Abbreviation space := (space (R := R)) (only parsing).

(** A database that is open for writing, with the program's options: the file is
    not grown ahead, and the free list is kept in it. *)
Record working (d : DB S) : Prop := mkWorking {
  wk_open : d_opened d = true /\ d_readOnly d = false;
  wk_opts : d_NoGrowSync d = true /\ d_NoFreelistSync d = false;
  wk_txs : forall r, r ∈ d_txs d -> 1 <= r < maxTxid
}.

Lemma working_conf d d' : conf d' = conf d -> working d -> working d'.
Proof. unfold conf. intros E [[H1 H2] [H3 H4] H5]. injection E as E1 E2 E3 E4 E5 E6 E7. split; [split; congruence|split; congruence|by rewrite E1]. Qed.

(** The database between write transactions: [m] is its meta, whose free list is
    on the page [fp]; [L], [fp] and [K] are the pages in use, and [P] those that
    may still be read: one that is freed is one that an open reader sees. *)
Record rest (d : DB S) (m : meta) (fp : page) (L K P : list page) : Prop := mkRest {
  rs_work : working d;
  rs_ps : 1024 <= d_pageSize d;
  rs_live : live (d_pageSize d) (d_file d) m;
  rs_held : Forall (holds (d_pageSize d) (d_file d)) P;
  rs_ok : meta_ok m;
  rs_list : m_freelist m = p_id fp;
  rs_space : space (mkTx d m ∅) (L ++ fp :: K) P;
  rs_seen : forall p id b a, p ∈ P -> p_id p <= id <= p_id p + p_overflow p -> freed_by (pending (d_freelist d)) id b a -> exists r, r ∈ d_txs d /\ a <= r < b
}.

(** A write transaction has begun on the snapshot of the meta [m], whose free
    list is on the page [fp]: [L] are the pages it will work on, [K] others in
    use, and [P] all that readers may still see, on pages of the file. *)
Record begun t (m : meta) (fp : page) (L K P : list page) : Prop := mkBegun {
  bg_live : live (psize t) (d_file (t_db t)) m;
  bg_held : Forall (holds (psize t) (d_file (t_db t))) P;
  bg_meta : t_meta t = with_txid m (m_txid m + 1);
  bg_ok : meta_ok m;
  bg_txid : m_txid m + 1 < 18446744073709551616;
  bg_pages : t_pages t = ∅;
  bg_list : m_freelist m = p_id fp;
  bg_conf : working (t_db t);
  bg_ps : 1024 <= psize t;
  bg_space : space t (L ++ fp :: K) P
}.

(** The rest of [Commit] after the spilling. *)
Definition commit_tail t (r : Z) : outcome (DB S) :=
  let t := with_meta t (with_root (t_meta t) r) in
  let! t :=
    (if negb (m_freelist (t_meta t) =? pgidNoFreelist) then
       let! p := file_page (d_file (t_db t)) (d_pageSize (t_db t)) (m_freelist (t_meta t)) in
       let! fl := Freelist.free (d_freelist (t_db t)) (m_txid (t_meta t)) p in Ok (tx_with_freelist t fl)
     else Ok t) in
  let! t := (if negb (d_NoFreelistSync (t_db t)) then commitFreelist pick sys ToBytes porder t else Ok (with_meta t (with_mfreelist (t_meta t) pgidNoFreelist))) in
  let d := t_db t in
  let! f := tx_write (d_pageSize d) (d_file d) (t_pages t) in
  let! (f, _) := write_meta (d_pageSize d) (d_version d) f (t_meta t) in
  Ok (with_file d f).

Lemma commit_eq fuel t x : commit pick sys order ToBytes porder fuel t x =
  (let! (t, x) := bucket_rebalance order fuel t x in let! (t, x) := bucket_spill pick sys fuel t x in commit_tail t (root (bt_bucket x))).
Proof. reflexivity. Qed.

(** What a commit leaves: a database at rest under the meta of the next
    transaction, the old pages untouched, and a free list [rb] on the page [q]
    that names none of the pages in use. *)
Record committed (d : DB S) (m m' : meta) (q : page) (rb : gset Z) (L K P : list page) : Prop := mkCommitted {
  cm_rest : rest d m' q L K (L ++ q :: K);
  cm_txid : m_txid m' = m_txid m + 1;
  cm_old : Forall (holds (d_pageSize d) (d_file d)) P;
  cm_list : exists p c, writeBitmap ToBytes p rb (len (ToBytes rb)) c = Ok q;
  cm_free : forall p id, p ∈ L ++ q :: K -> p_id p <= id <= p_id p + p_overflow p -> id ∉ rb
}.

(** Once it is written, what is in use is what may be read. *)
Lemma space_rest t d m L P : space t L P -> d_freelist d = flist t -> d_pageSize d = psize t -> d_datasz d = d_datasz (t_db t) -> m_pgid m = hwm t -> space (mkTx d m ∅) L L.
Proof.
  intros [F [H1 H2 H0 H3 H4 H5 H6 H7 H8 H9 H10 H11 H12]] E1 E2 E3 E4. exists F. split; unfold flist, psize, hwm in *; cbn [t_db t_meta t_pages]; rewrite ?E1, ?E2, ?E3, ?E4; try done.
  by left.
Qed.

Lemma space_tx_pages t L P : space t L P -> tx_pages_ok (psize t) (t_pages t) P.
Proof.
  intros [F H]. split; [|apply (sp_news _ _ _ _ H)]. intros id q Hq. destruct (sp_new _ _ _ _ H id q Hq) as (H1 & H2 & (H3 & _) & H4). split; [done|]. split; [done|]. split; [done|]. done.
Qed.

Lemma sealed_fields v m : m_root (sealed v m) = m_root m /\ m_freelist (sealed v m) = m_freelist m /\ m_pgid (sealed v m) = m_pgid m.
Proof. unfold sealed. by destruct (_ && _). Qed.

(** The meta of the commit. *)
Lemma next_meta_ok m r w q : meta_ok m -> m_txid m + 1 < 18446744073709551616 -> 0 <= r < w -> 0 <= q < w -> w < 18446744073709551616 ->
  meta_ok (with_mfreelist (with_pgid (with_root (with_txid m (m_txid m + 1)) r) w) q).
Proof. intros [[] H1 H2 H3 H4] Ht Hr Hq Hw. split; cbn; [|done|done|lia|left; lia]. split; cbn; try done; lia. Qed.

Lemma commit_tail_ok t t1 m fp K L0 L P r : begun t m fp L0 K P -> step t t1 (fp :: K) -> space t1 (L ++ fp :: K) P -> (exists p, p ∈ L /\ p_id p = r) ->
  yields (short t) (commit_tail t1 r) (fun d => exists m' q rb, d_pageSize d = psize t /\ m_root m' = r /\ committed d m m' q rb L K P).
Proof.
  intros Hb Hst Hsp (pr & Hpr & <-). pose proof Hb as [Hlive Hheld Hmeta Hok Htx Hpages Hfl Hwk Hps _]. pose proof (st_conf _ _ _ Hst) as Ecf.
  set (t2 := with_meta t1 (with_root (t_meta t1) (p_id pr))).
  assert (Hsp2 : space t2 (fp :: L ++ K) P) by (apply (space_ext t1); [done..|]; eapply space_perm; [|exact Hsp]; solve_Permutation).
  assert (Em2 : t_meta t2 = with_pgid (with_root (with_txid m (m_txid m + 1)) (p_id pr)) (hwm t1)) by (cbn [t2 with_meta t_meta]; rewrite (st_meta _ _ _ Hst), Hmeta; done).
  assert (Hfp : fp ∈ P). { destruct (bg_space _ _ _ _ _ _ Hb) as [F0 H0]. destruct (sp_src _ _ _ _ H0 fp) as [|Hin]; [apply elem_of_app; right; by left|done|]. by rewrite Hpages, lookup_empty in Hin. }
  rewrite Forall_forall in Hheld. pose proof (Hheld fp Hfp) as (Hread & _).
  assert (Hread2 : tx_page t2 (p_id fp) = Ok fp). { change (tx_page t2 (p_id fp)) with (tx_page t1 (p_id fp)). rewrite (st_read _ _ _ Hst fp) by (by left). unfold tx_page. by rewrite Hpages, lookup_empty. }
  destruct (space_free t2 fp (L ++ K) P Hsp2 Hread2) as (t3 & Efree & Hsp3 & _ & Em3 & Hst3).
  assert (Enf : m_freelist (t_meta t2) = p_id fp) by (by rewrite Em2).
  assert (Hnz : p_id fp <> pgidNoFreelist).
  { destruct Hsp2 as [F2 H2]. pose proof (sp_live _ _ _ _ H2) as Hl. apply Forall_cons_1 in Hl as [(K2 & Ko & Kw & _) _]. destruct (sp_room _ _ _ _ H2) as [Hr _]. pose proof (sp_ps _ _ _ _ H2).
    unfold maxMapSize in Hr. unfold pgidNoFreelist. nia. }
  unfold commit_tail. fold t2. rewrite Enf. destruct (Z.eqb_spec (p_id fp) pgidNoFreelist); [done|]. cbn [negb].
  assert (Efp : file_page (d_file (t_db t2)) (d_pageSize (t_db t2)) (p_id fp) = Ok fp). { pose proof (st_file _ _ _ Hst) as E1. pose proof (st_ps _ _ _ Hst) as E2. unfold psize in E2, Hread. cbn [t2 with_meta t_db]. rewrite E1, E2. exact Hread. }
  rewrite Efp. cbn [rbind]. unfold tx_free in Efree. rewrite Hread2 in Efree. cbn [rbind] in Efree. rewrite Efree. cbn [rbind].
  assert (Hwk3 : working (t_db t3)) by (eapply working_conf; [|exact Hwk]; rewrite (st_conf _ _ _ Hst3); exact Ecf). rewrite (proj2 (wk_opts _ Hwk3)). cbn [negb].
  assert (Ef3 : d_file (t_db t3) = d_file (t_db t) /\ psize t3 = psize t). { rewrite (st_file _ _ _ Hst3), (st_ps _ _ _ Hst3). cbn [t2 with_meta t_db]. split; [apply (st_file _ _ _ Hst)|apply (st_ps _ _ _ Hst)]. }
  destruct Ef3 as [Ef3 Ep3]. rewrite <-Ef3, <-Ep3.
  eapply yields_bind; [apply (commitFreelist_ok pick Hpick sys ToBytes porder bitmap_size bitmap_shrink order_all t3 (L ++ K) P Hsp3); [lia|apply Hwk3]|].
  intros t4 (q & rb & [L1 L2 [L3 L3'] (L4 & L5 & L6) L7 L8 L9]). fold (psize t4). rewrite L4, L5, Ef3, Ep3.
  assert (Hps2 : 80 <= psize t < 4294967296) by (destruct Hsp3 as [F3 H3]; pose proof (sp_ps _ _ _ _ H3); lia).
  pose proof (space_tx_pages _ _ _ L1) as Htp. rewrite L5, Ep3 in Htp.
  destruct (commit_writes (psize t) (d_file (t_db t)) m (t_pages t4) P Hps2 Hlive ltac:(by apply Forall_forall) Htp) as [_ (fn & Ew & _ & _ & Hm)]. rewrite Ew. cbn [rbind].
  assert (Em4 : t_meta t4 = with_mfreelist (with_pgid (with_root (with_txid m (m_txid m + 1)) (p_id pr)) (hwm t4)) (p_id q)) by (rewrite L2, Em3, Em2; done).
  pose proof L1 as [F4 H4]. pose proof (sp_live _ _ _ _ H4) as Hlv. rewrite Forall_forall in Hlv.
  assert (Hw4 : hwm t4 < 18446744073709551616) by (destruct (sp_room _ _ _ _ H4) as [Hr _]; pose proof (sp_ps _ _ _ _ H4); unfold maxMapSize in Hr; nia).
  assert (Hrr : 0 <= p_id pr < hwm t4) by (destruct (Hlv pr) as (? & ? & ? & _); [right; apply elem_of_app; by left|lia]).
  assert (Hqq : 0 <= p_id q < hwm t4) by (destruct (Hlv q) as (? & ? & ? & _); [by left|lia]).
  assert (Hmo : meta_ok (t_meta t4)) by (rewrite Em4; by apply next_meta_ok).
  destruct (Hm (d_version (t_db t4)) (t_meta t4) Hmo) as (f' & Ewm & Hl' & Hold & Hnew); [by rewrite Em4|]. rewrite Ewm. cbn [rbind yields].
  destruct (sealed_fields (d_version (t_db t4)) (t_meta t4)) as (S1 & S2 & S3). set (d' := with_file (t_db t4) f'). set (m' := sealed _ _) in *.
  assert (Eps : d_pageSize d' = psize t) by (cbn; unfold psize in *; congruence). assert (Hperm : q :: L ++ K ≡ₚ L ++ q :: K) by solve_Permutation.
  assert (Hrest : rest d' m' q L K (L ++ q :: K)).
  { split; rewrite ?Eps.
    - eapply working_conf; [|exact Hwk3]. exact L6.
    - done.
    - exact Hl'.
    - rewrite <-Hperm. apply Forall_forall. intros p Hp. destruct (sp_src _ _ _ _ H4 p Hp) as [Hin|Hin]; [rewrite Forall_forall in Hold; by apply Hold|by eapply Hnew].
    - by apply sealed_ok.
    - rewrite S2. by rewrite Em4.
    - eapply space_rest; [by eapply space_perm; [|exact L1]|done|done|done|exact S3].
    - intros p id b a Hp Hid Hfb. exfalso. rewrite <-Hperm in Hp. exact (sp_used _ _ _ _ H4 p id b a Hp Hid Hfb). }
  exists m', q, rb. split; [done|]. split; [rewrite S1; by rewrite Em4|]. split.
  - exact Hrest.
  - unfold m'. rewrite sealed_txid. by rewrite Em4.
  - rewrite Eps. exact Hold.
  - exact L8.
  - intros p id Hp. apply L9. by rewrite Hperm.
Qed.

Lemma apart_numbered L w : ForallOrdPairs apart L -> Forall (fun p => 2 <= p_id p /\ 0 <= p_overflow p /\ p_id p + p_overflow p < w) L -> w < 18446744073709551616 -> numbered L.
Proof.
  intros Ha Hf Hw. split; [|eapply Forall_impl; [exact Hf|]; intros p (? & ? & ?); lia]. induction Ha as [|p L Hp Ha IH]; [constructor|]. apply Forall_cons_1 in Hf as [(A1 & A2 & A3) Hf].
  constructor; [|by apply IH]. intros (p' & E & Hin)%list_elem_of_fmap. rewrite Forall_forall in Hp. rewrite Forall_forall in Hf. specialize (Hp p' Hin). destruct (Hf p' Hin) as (B1 & B2 & B3). unfold apart in Hp. lia.
Qed.

Lemma space_numbered t L L' P : space t (L ++ L') P -> numbered L.
Proof.
  intros [F H]. apply (numbered_app L L'), (apart_numbered _ (hwm t)); [apply (sp_apart _ _ _ _ H)| |].
  - eapply Forall_impl; [apply (sp_live _ _ _ _ H)|]. by intros p (? & ? & ? & _).
  - destruct (sp_room _ _ _ _ H) as [Hr _]. pose proof (sp_ps _ _ _ _ H). unfold maxMapSize in Hr. nia.
Qed.

Lemma on_disk_frame pg pg' {h} (s : ot h) l : on_disk pg s l -> (forall p, p ∈ pgs s -> pg' (p_id p) = Ok p) -> on_disk pg' s l.
Proof. intros [H1 H2 H3 H4] Hp. split; [|done..]. eapply laid_frame; [exact H1|]. intros p Hin. by rewrite Hp, (laid_read _ _ _ H1 Hin). Qed.

Lemma calm_header r seq : calm (header_bucket r seq).
Proof. split; cbn; [intros x n Hn|intros id x Hn]; by rewrite lookup_empty in Hn. Qed.

(** Putting the pairs. *)
Lemma put_pairs_ok t m {h1 h2} (sc : ot h1) (sr : ot h2) name kvs l names y seq : t_meta t = with_txid m (m_txid m + 1) -> 0 < hwm t ->
  on_disk (tx_page t) sc l -> plain l -> numbered (pgs sc) -> on_disk (tx_page t) sr names -> numbered (pgs sr) -> m_root m = p_id (pag sr) -> name <> [] ->
  find_item name names = Some y -> Z.land (iflags y) bucketLeafFlag <> 0 -> ivalue y = bucket_header (p_id (pag sc)) seq -> Forall pair_fit kvs ->
  exists c (oc : ot h1), (forall fuel, (h1 <= fuel)%nat -> (h2 <= fuel)%nat -> put_pairs fuel t (BT (meta_bucket m) []) name kvs = Ok (BT (meta_bucket m) [(name, BT c [])])) /\
    lodged (tx_page t) c oc /\ tree_ok oc /\ plain (contents (strip oc)) /\ contents (strip oc) = insert_all kvs l /\ pgs oc = pgs sc /\ calm c /\ (kvs <> [] -> full (strip oc) /\ ref oc <> None).
Proof.
  intros Hm Hw Hc Hpl Nc Hr Nr Hroot Hn Hy Hfl Hv Hkv. pose proof (pag_range _ Nc) as Rc. pose proof (pag_range _ Nr) as Rr.
  pose proof (on_disk_lodged _ _ _ (m_sequence m) Hr (nb_once _ Nr) ltac:(lia)) as Lr. rewrite <-Hroot in Lr. change (header_bucket (m_root m) (m_sequence m)) with (meta_bucket m) in Lr.
  pose proof (on_disk_lodged _ _ _ (u64 seq) Hc (nb_once _ Nc) ltac:(lia)) as Lc.
  destruct (put_all_ok t kvs _ sc Lc (on_disk_tree _ _ _ Hc) ltac:(by rewrite (od_items _ _ _ Hc)) Hkv Hw (calm_header _ _)) as (c & oc & E & H1 & H2 & H3 & H4 & H5). rewrite (od_items _ _ _ Hc) in H4.
  exists c, oc. split; [|done]. intros fuel F1 F2. unfold put_pairs.
  rewrite (bucket_open_header t _ sr name y (p_id (pag sc)) seq fuel Lr); [|by eapply to_wf, on_disk_tree|done|done|done|by rewrite (od_items _ _ _ Hr)|done|done|lia].
  cbn [rbind]. by rewrite E.
Qed.

(** The transaction from its beginning to its end. *)
Lemma commit_puts t m fp name kvs l names L K P :
  begun t m fp L K P -> stored (d_file (t_db t)) (psize t) m name l names L ->
  name <> [] -> len name <= MaxKeySize -> kvs <> [] -> Forall pair_fit kvs -> inline_loop (psize t / 4) (insert_all kvs l) pageHeaderSize = false ->
  exists x n0, (forall fuel, (n0 <= fuel)%nat -> put_pairs fuel t (BT (meta_bucket m) []) name kvs = Ok x) /\
  settles (short t) (fun fuel => commit pick sys order ToBytes porder fuel t x) (fun d => exists m' hdr L' q rb,
    d_pageSize d = psize t /\ committed d m m' q rb L' K P /\
    stored (d_file d) (psize t) m' name (insert_all kvs l) (insert_item (mkInode bucketLeafFlag 0 name hdr) names) L').
Proof.
  intros Hb (h1 & h2 & sc & sr & seq & y & Hc & Hpl & Hr & Hroot & Hy & Hfl & Hv & ->) Hn Hnl Hne Hkv Hin.
  assert (Hpage : forall id, tx_page t id = file_page (d_file (t_db t)) (psize t) id) by (intros id; unfold tx_page; by rewrite (bg_pages _ _ _ _ _ _ Hb), lookup_empty).
  assert (Hc' : on_disk (tx_page t) sc l) by (eapply on_disk_frame; [exact Hc|]; intros p Hp; rewrite Hpage; by apply (laid_read _ sc), Hp; apply Hc).
  assert (Hr' : on_disk (tx_page t) sr names) by (eapply on_disk_frame; [exact Hr|]; intros p Hp; rewrite Hpage; by apply (laid_read _ sr), Hp; apply Hr).
  pose proof (bg_space _ _ _ _ _ _ Hb) as Hsp. destruct (numbered_app _ _ (space_numbered _ _ _ _ Hsp)) as [Nc Nr].
  assert (Hw : 0 < hwm t) by (destruct Hsp as [F H]; pose proof (sp_hwm _ _ _ _ H); lia).
  destruct (put_pairs_ok t m sc sr name kvs l names y seq (bg_meta _ _ _ _ _ _ Hb) Hw Hc' Hpl Nc Hr' Nr Hroot Hn Hy Hfl Hv Hkv) as (c & oc & Eput & Lc & Tc & Pc & Cc & Gc & Kc & Fc).
  destruct (Fc Hne) as [Fu Href]. pose proof (pag_range _ Nr) as Rr.
  pose proof (on_disk_lodged _ _ _ (m_sequence m) Hr' (nb_once _ Nr) ltac:(lia)) as Lr. rewrite <-Hroot in Lr. change (header_bucket (m_root m) (m_sequence m)) with (meta_bucket m) in Lr.
  exists (BT (meta_bucket m) [(name, BT c [])]), (h1 `max` h2)%nat. split; [intros fuel Hf; apply Eput; lia|]. eapply settles_ext; [intros fuel; symmetry; apply commit_eq|].
  eapply settles_bind; [apply (settles_from _ _ (Ok (t, BT (meta_bucket m) [(name, BT c [])])) 3 (fun x => x = (t, BT (meta_bucket m) [(name, BT c [])]))); [|done]|].
  { intros [|[|[|fuel]]] Hf; [lia..|]. apply bucket_rebalance_calm; [apply calm_header|done]. }
  intros ? ->. eapply settles_bind.
  { apply (both_spill_ok pick Hpick sys t (meta_bucket m) c name oc sr (fp :: K) P y Lc Href (tree_sound _ Tc Fu)); [by eapply inlineable_large; [exact Lc|rewrite Cc]|exact Lr|by eapply on_disk_tree|done|done|done|
      by rewrite (od_items _ _ _ Hr')|done|]. rewrite Gc, app_assoc. exact Hsp. }
  intros [t1 x] (h1' & h2' & sc' & sr' & [B1 B2 B3 (seq' & B4) B5 B6 B7]). rewrite app_assoc in B6. apply settles_const. rewrite B5.
  eapply yields_mono; [apply (commit_tail_ok t t1 m fp K _ (pgs sc' ++ pgs sr') P (p_id (pag sr')) Hb B7 B6); exists (pag sr'); split; [apply elem_of_app; right; apply pag_pgs|done]|].
  intros d (m' & q & rb & Eps & Erm & Hcm). rewrite Cc in B2. rewrite (od_items _ _ _ Hr') in B4. exists m', (bucket_header (p_id (pag sc')) seq'), (pgs sc' ++ pgs sr'), q, rb.
  assert (Hst : stored (d_file d) (psize t) m' name (insert_all kvs l) (insert_item (mkInode bucketLeafFlag 0 name (bucket_header (p_id (pag sc')) seq')) names) (pgs sc' ++ pgs sr')).
  { pose proof (rs_held _ _ _ _ _ _ (cm_rest _ _ _ _ _ _ _ _ Hcm)) as Hnew. rewrite Eps, Forall_forall in Hnew. assert (Hin' : forall p, p ∈ pgs sc' ++ pgs sr' -> file_page (d_file d) (psize t) (p_id p) = Ok p) by (intros p Hp; apply Hnew, elem_of_app; by left).
    exists h1', h2', sc', sr', seq', (mkInode bucketLeafFlag 0 name (bucket_header (p_id (pag sc')) seq')).
    split; [eapply (on_disk_frame (tx_page t1)); [split; [done|done|rewrite <-Cc; eapply wf_sorted, Tc|rewrite <-Cc; apply Tc]|]; intros p Hp; apply Hin', elem_of_app; by left|].
    split; [by rewrite <-Cc|]. split; [eapply (on_disk_frame (tx_page t1)); [split; [done|done|apply insert_item_sorted, Hr|]|]|].
    - rewrite Forall_forall. intros z [->|Hz]%insert_item_elem; [by apply header_fit|]. pose proof (od_fit _ _ _ Hr) as Hf. rewrite Forall_forall in Hf. by apply Hf.
    - intros p Hp. apply Hin', elem_of_app. by right.
    - split; [done|]. split; [rewrite find_insert by apply Hr; cbn [ikey]; by case_decide|]. done. }
  done.
Qed.

(** Beginning a write transaction. *)
Lemma begin_rw_ok d m fp L K P o1 orders o3 : rest d m fp L K P -> m_txid m + 1 < 18446744073709551616 ->
  exists t freed, begin_rw d o1 orders o3 = Ok (t, BT (meta_bucket m) [], freed) /\ begun t m fp L K P /\ d_file (t_db t) = d_file d /\ psize t = d_pageSize d.
Proof.
  intros [Hwk Hps Hlive Hheld Hok Hfl [F H] Hseen] Htx. unfold begin_rw. destruct Hwk as [[Ho Hro] Hopts Htxs]. rewrite Hro, Ho. cbn [negb].
  unfold current_meta. rewrite (live_current _ _ _ Hlive). cbn [rbind].
  destruct (freePages_spec (d_freelist d) F o1 orders o3 (d_txs d) (sp_inv _ _ _ _ H) Htxs) as (fl & freed & M & -> & Hi & Hm & _). cbn [rbind].
  assert (Hk : forall p, kept F (m_pgid m) p -> (forall id b a, p_id p <= id <= p_id p + p_overflow p -> freed_by (pending (d_freelist d)) id b a -> ~ unseen (d_txs d) b a) -> kept (F ∪ list_to_set M) (m_pgid m) p).
  { intros p (K1 & K2 & K3 & K4) Hs. repeat split; [done|done|done|]. intros id Hid [|Hin]%elem_of_union; [by apply (K4 id)|]. apply elem_of_list_to_set in Hin. destruct (mv_out _ _ _ _ Hm id Hin) as (b & a & Hb & Hu). by apply (Hs id b a). }
  eexists _, freed. split; [by rewrite u64_small by (destruct Hlive; lia)|]. split; [|done].
  split; [done|done|done|done|done|done|done|by split|done|]. destruct H as [H1 H2 H0 H3 H4 H5 H6 H7 H8 H9 H10 H11 H12].
  exists (F ∪ list_to_set M). unfold psize, hwm, flist in *. cbn [t_db t_meta t_pages with_freelist d_pageSize d_freelist d_datasz with_txid m_pgid] in *.
  split; unfold psize, hwm, flist; cbn [t_db t_meta t_pages with_freelist d_pageSize d_freelist d_datasz with_txid m_pgid]; try done.
  - intros id [|Hin]%elem_of_union; [by apply H4|]. apply elem_of_list_to_set in Hin. destruct (mv_out _ _ _ _ Hm id Hin) as (b & a & Hb & _). by eapply H5.
  - intros id b a Hb. eapply H5, (mv_sub _ _ _ _ Hm), Hb.
  - apply Forall_forall. intros p Hp. rewrite Forall_forall in H6. apply Hk; [by apply H6|]. intros id b a Hid Hb. exfalso. by apply (H7 p id b a).
  - intros p id b a Hp Hid Hb. by apply (H7 p id b a Hp Hid), (mv_sub _ _ _ _ Hm).
  - apply Forall_forall. intros p Hp. rewrite Forall_forall in H9. apply Hk; [by apply H9|]. intros id b a Hid Hb Hu. destruct (Hseen p id b a Hp Hid Hb) as (r & Hr & Hab). by apply (Hu r Hr).
Qed.

(** What a reader of a database at rest finds. *)
Lemma rest_get d m fp L K P name key l names : rest d m fp L K P -> stored (d_file d) (d_pageSize d) m name l names L -> name <> [] ->
  exists n, forall fuel, (n <= fuel)%nat -> get_pair fuel (mkTx d m ∅) name key = Ok (ivalue <$> find_item key l).
Proof.
  intros Hr Hs Hn. pose proof (rs_space _ _ _ _ _ _ Hr) as Hsp. eapply stored_get; [exact Hs|done|by eapply space_numbered| |done]. destruct Hsp as [F H]. pose proof (sp_hwm _ _ _ _ H) as Hw. unfold hwm in Hw. cbn in *. lia.
Qed.

(** C19: an update of the tree from end to end.  Pairs are put into a bucket that
    has pages of its own, and the transaction commits: the nodes are rebalanced
    and spilled onto free or new pages, split where they outgrow one, up through
    the bucket that holds the bucket; the free list is written, the pages, and
    the meta.  Unless the mapping cannot grow, this comes to an end with a
    database at rest again, whose meta is that of the next transaction and whose
    file has the tree with the pairs inserted and the other names as they were.
    Every page that an open reader may see is untouched, no page in use is on
    the free list that was written, and a reader of the new snapshot finds under
    each key the last value put, or what was there. *)
Theorem update_puts d m fp name kvs l names L K P o1 orders o3 :
  rest d m fp L K P -> m_txid m + 1 < 18446744073709551616 -> stored (d_file d) (d_pageSize d) m name l names L ->
  name <> [] -> len name <= MaxKeySize -> kvs <> [] -> Forall pair_fit kvs -> inline_loop (d_pageSize d / 4) (insert_all kvs l) pageHeaderSize = false ->
  settles (map_error sys (d_file d) (d_pageSize d))
    (fun fuel => update pick sys order ToBytes porder fuel d o1 orders o3 (fun t x => put_pairs fuel t x name kvs))
    (fun '(d', err) => err = None /\ exists m' hdr L' q rb,
       committed d' m m' q rb L' K P /\ current_meta d' = Ok m' /\
       stored (d_file d') (d_pageSize d') m' name (insert_all kvs l) (insert_item (mkInode bucketLeafFlag 0 name hdr) names) L' /\
       forall key, exists n, forall fuel, (n <= fuel)%nat -> get_pair fuel (mkTx d' m' ∅) name key = Ok (after_puts kvs key (ivalue <$> find_item key l))).
Proof.
  intros Hr Htx Hst Hn Hnl Hne Hkv Hin. destruct (begin_rw_ok d m fp L K P o1 orders o3 Hr Htx) as (t & freed & Eb & Hb & Ef & Ep). rewrite <-Ef, <-Ep in Hst |- *. rewrite <-Ep in Hin.
  destruct (commit_puts t m fp name kvs l names L K P Hb Hst Hn Hnl Hne Hkv Hin) as (x & n1 & Eput & r & n0 & Hrun & Hy). exists (match r with Ok d' => Ok (d', None) | Err e => Err e | Panic => Panic end), (n1 `max` n0)%nat. split.
  - intros fuel Hf. unfold update. rewrite Eb. cbn [rbind]. rewrite Eput, Hrun by lia. by destruct r.
  - destruct r as [d'|e|]; [|exact Hy..]. cbn in Hy |- *. split; [done|]. destruct Hy as (m' & hdr & L' & q & rb & Ep' & Hcm & Hst'). exists m', hdr, L', q, rb. pose proof (cm_rest _ _ _ _ _ _ _ _ Hcm) as Hrest.
    split; [done|]. split; [unfold current_meta; apply live_current, Hrest|]. rewrite <-Ep' in Hst'. split; [done|]. intros key. destruct (rest_get _ _ _ _ _ _ name key _ _ Hrest Hst' Hn) as (n & Hg).
    exists n. intros fuel Hf. rewrite Hg by done. rewrite find_insert_all; [done|]. destruct Hst as (h1 & h2 & sc & sr & seq & y & Hc & _). apply Hc.
Qed.

End Update.
(** *** A database of five pages *)

(** A codec for sets of page numbers: one byte for each up to the largest. *)
Definition max_id (s : gset Z) : Z := foldr Z.max (-1) (elements s).
Definition byte_map (s : gset Z) : bytes := (fun i => if bool_decide (i ∈ s) then 1 else 0) <$> seqZ 0 (max_id s + 1).

Lemma foldr_max l b : -1 <= b -> (forall x, x ∈ l -> x <= b) -> -1 <= foldr Z.max (-1) l <= b.
Proof. intros Hb. induction l as [|x l IH]; intros H; cbn; [lia|]. pose proof (H x ltac:(by left)). assert (-1 <= foldr Z.max (-1) l <= b) by (apply IH; intros y Hy; apply H; by right). lia. Qed.

Lemma foldr_max_ge l x : x ∈ l -> x <= foldr Z.max (-1) l.
Proof. induction 1 as [|x y l _ IH]; cbn; lia. Qed.

Lemma max_id_bounds s b : -1 <= b -> (forall x, x ∈ s -> x <= b) -> -1 <= max_id s <= b.
Proof. intros Hb H. apply foldr_max; [done|]. intros x Hx%elem_of_elements. by apply H. Qed.

Lemma len_byte_map s : -1 <= max_id s -> len (byte_map s) = max_id s + 1.
Proof. intros H. unfold len, byte_map. rewrite length_fmap, length_seqZ. lia. Qed.

Lemma max_id_low s : -1 <= max_id s.
Proof. unfold max_id. induction (elements s) as [|x l IH]; cbn; lia. Qed.

Lemma byte_map_size s n : 0 <= n -> (forall x, x ∈ s -> 0 <= x < n) -> len (byte_map s) <= n + 65536.
Proof. intros Hn H. rewrite len_byte_map by apply max_id_low. pose proof (max_id_bounds s (n - 1) ltac:(lia)) as Hm. destruct Hm; [|lia]. intros x Hx. specialize (H x Hx). lia. Qed.

Lemma byte_map_shrink s id n : len (byte_map (s ∖ run_set id n)) <= len (byte_map s) + 512.
Proof.
  rewrite !len_byte_map by apply max_id_low. pose proof (max_id_bounds (s ∖ run_set id n) (max_id s) (max_id_low s)) as Hm. destruct Hm; [|lia].
  intros x [Hx _]%elem_of_difference. apply foldr_max_ge. by apply elem_of_elements.
Qed.

Definition keys_of {A} (m : gmap Z A) : list Z := (map_to_list m).*1.

(** The bucket [idx] is on page 4, and its name on page 3. *)
Definition idx_name : bytes := [105; 100; 120].
Definition idx_items : list inode := [mkInode 0 0 [1] (replicate 100 1); mkInode 0 0 [2] (replicate 100 2); mkInode 0 0 [3] (replicate 100 3)].
Definition idx_names : list inode := [mkInode bucketLeafFlag 0 idx_name (bucket_header 4 0)].

Definition leaf_of (id : Z) (l : list inode) : page :=
  match Bdb.write (with_inodes (new_node true None []) l) (new_page 1024 id 1) with Ok p => p | _ => new_page 1024 id 1 end.

Definition idx_pages : gmap Z page := <[3 := leaf_of 3 idx_names]> {[4 := leaf_of 4 idx_items]}.
Definition idx_meta : meta := sealed 3 (mkMeta magic version 1024 0 3 0 2 9 2 0).
Definition idx_file : bytes :=
  match (let! f := init 1024 in let! f := tx_write 1024 f idx_pages in write_meta 1024 3 f (mkMeta magic version 1024 0 3 0 2 9 2 0)) with Ok (f, _) => f | _ => [] end.

Definition idx_free : freelist spans := readIDs (newFreelist no_spans) [5; 6; 7; 8].
Definition idx_db : DB spans := mkDB idx_file 1024 32768 0 idx_free [] true false 3 65536 true false.
Definition idx_list : page := blank 1024 2 freelistPageFlag.
Definition idx_live : list page := [leaf_of 4 idx_items; leaf_of 3 idx_names].

Lemma leaf_fits id l : id ∈ [3; 4] -> l ∈ [idx_names; idx_items] -> page_fits 1024 (leaf_of id l) /\ p_id (leaf_of id l) = id /\ p_overflow (leaf_of id l) = 0.
Proof.
  intros Hid Hl. apply list_elem_of_In in Hid, Hl. destruct Hid as [<-|[<-|[]]], Hl as [<-|[<-|[]]]; (split; [|split; vm_compute; reflexivity]);
    (split; [vm_compute; by split; [discriminate|]..|vm_compute; reflexivity]).
Qed.

Lemma idx_pages_cases id q : idx_pages !! id = Some q -> id = 3 /\ q = leaf_of 3 idx_names \/ id = 4 /\ q = leaf_of 4 idx_items.
Proof.
  unfold idx_pages. destruct (decide (id = 3)) as [->|H3]; [rewrite lookup_insert_eq; intros [= <-]; by left|]. rewrite lookup_insert_ne by done. intros [<- <-]%lookup_singleton_Some. by right.
Qed.

Lemma idx_meta_ok : meta_ok (mkMeta magic version 1024 0 3 0 2 9 2 0).
Proof. split; [by split|done|by right|done|by left]. Qed.

(** It is what a first commit leaves of an empty database. *)
Lemma idx_on_file : live 1024 idx_file idx_meta /\ Forall (holds 1024 idx_file) (idx_list :: idx_live).
Proof.
  destruct (init_live 1024 ltac:(lia)) as (f & Ef & Hl & H2 & _).
  destruct (leaf_fits 3 idx_names ltac:(by left) ltac:(by left)) as (F3 & I3 & O3). destruct (leaf_fits 4 idx_items ltac:(right; by left) ltac:(right; by left)) as (F4 & I4 & O4).
  destruct (commit_writes 1024 f (init_meta 1024 1) idx_pages [idx_list] ltac:(lia) Hl) as [_ (fn & Ew & _ & _ & Hm)]; [by constructor| |].
  - split.
    + intros id q [[-> ->]|[-> ->]]%idx_pages_cases; (split; [done|]); (split; [done|]); rewrite ?I3, ?I4; (split; [lia|]); intros p ->%list_elem_of_singleton; left; rewrite ?I3, ?I4; cbn; lia.
    + intros i j p q [[-> ->]|[-> ->]]%idx_pages_cases [[-> ->]|[-> ->]]%idx_pages_cases Hij; try done; unfold apart; rewrite I3, O3, I4, O4; lia.
  - destruct (Hm 3 (mkMeta magic version 1024 0 3 0 2 9 2 0)) as (f' & E & Hl' & Hold & Hnew); [exact idx_meta_ok|by rewrite init_meta_txid|].
    assert (idx_file = f') as -> by (unfold idx_file; rewrite Ef; cbn [rbind]; rewrite Ew; cbn [rbind]; by rewrite E).
    split; [exact Hl'|]. constructor; [by apply Forall_cons_1 in Hold as [? _]|]. constructor; [apply (Hnew 4); by unfold idx_pages; rewrite lookup_insert_ne, lookup_singleton_eq|].
    constructor; [apply (Hnew 3); by unfold idx_pages; rewrite lookup_insert_eq|constructor].
Qed.

Lemma idx_free_ok : freach idx_free /\ forall id, id ∈ free_pages idx_free -> 5 <= id < 9.
Proof.
  split; [constructor; [repeat constructor; lia|done|apply Forall_forall; repeat constructor; lia]|]. intros id Hid. unfold free_pages in Hid. apply elem_of_list_to_set in Hid.
  assert (E : fs_getFreePageIDs (store idx_free) = [5; 6; 7; 8]) by (vm_compute; reflexivity). rewrite E in Hid. revert id Hid. apply Forall_forall. repeat constructor; lia.
Qed.

Lemma idx_space P : (forall p, p ∈ P -> p ∈ idx_list :: idx_live) -> (forall p, p ∈ idx_list :: idx_live -> p ∈ P) -> space (R := hash_rep) (mkTx idx_db idx_meta ∅) (idx_live ++ [idx_list]) P.
Proof.
  intros HP HP'. destruct idx_free_ok as [Hr Hf]. exists (free_pages idx_free). assert (Hw : hwm (mkTx idx_db idx_meta ∅) = 9) by reflexivity.
  destruct (leaf_fits 3 idx_names ltac:(by left) ltac:(by left)) as (_ & I3 & O3). destruct (leaf_fits 4 idx_items ltac:(right; by left) ltac:(right; by left)) as (_ & I4 & O4).
  assert (Hk : forall p, p ∈ idx_list :: idx_live -> kept (free_pages idx_free) 9 p).
  { intros p Hp. apply list_elem_of_In in Hp. assert (2 <= p_id p <= 4 /\ p_overflow p = 0) as [? ?] by (destruct Hp as [<-|[<-|[<-|[]]]]; rewrite ?I3, ?O3, ?I4, ?O4; cbn; lia).
    unfold kept. split; [lia|]. split; [lia|]. split; [lia|]. intros id Hid Hin. specialize (Hf id Hin). lia. }
  assert (Hl : forall p, p ∈ idx_live ++ [idx_list] <-> p ∈ idx_list :: idx_live) by (intros p; rewrite elem_of_app, list_elem_of_singleton, elem_of_cons; tauto).
  split; rewrite ?Hw.
  - cbn. lia.
  - lia.
  - split; vm_compute; discriminate.
  - exact (freach_inv (R := hash_rep) idx_free Hr).
  - intros id Hid. specialize (Hf id Hid). lia.
  - intros id b a (x & Hx & _). by vm_compute in Hx.
  - apply Forall_forall. intros p Hp. by apply Hk, Hl.
  - intros p id b a _ _ (x & Hx & _). by vm_compute in Hx.
  - unfold apart. repeat constructor; rewrite ?I3, ?O3, ?I4, ?O4; cbn; lia.
  - apply Forall_forall. intros p Hp. by apply Hk, HP.
  - intros id q Hq. cbn in Hq. by rewrite lookup_empty in Hq.
  - intros i j p q Hq. cbn in Hq. by rewrite lookup_empty in Hq.
  - intros p Hp. left. by apply HP', Hl.
Qed.

Lemma idx_rest : rest (R := hash_rep) idx_db idx_meta idx_list idx_live [] (idx_list :: idx_live).
Proof.
  destruct idx_on_file as [Hl Hh]. split.
  - split; [done|done|]. intros r Hr. by apply elem_of_nil in Hr.
  - cbn. lia.
  - exact Hl.
  - exact Hh.
  - apply sealed_ok, idx_meta_ok.
  - done.
  - by apply idx_space.
  - intros p id b a _ _ (x & Hx & _). by vm_compute in Hx.
Qed.

Lemma leaf_on_disk id l : holds 1024 idx_file (leaf_of id l) -> pview (leaf_of id l) true l -> l <> [] -> ksorted l -> Forall (item_fit true) l ->
  on_disk (file_page idx_file 1024) (h := 0) ((leaf_of id l, None), l) l.
Proof. intros (Hp & _) Hv Hne Hs Hf. by split. Qed.

Lemma idx_stored : stored idx_file 1024 idx_meta idx_name idx_items idx_names idx_live.
Proof.
  destruct idx_on_file as [_ Hh]. apply Forall_cons_1 in Hh as [_ Hh]. apply Forall_cons_1 in Hh as [H4 Hh]. apply Forall_cons_1 in Hh as [H3 _].
  exists 0%nat, 0%nat, ((leaf_of 4 idx_items, None), idx_items), ((leaf_of 3 idx_names, None), idx_names), 0, (mkInode bucketLeafFlag 0 idx_name (bucket_header 4 0)).
  split; [apply leaf_on_disk; [done|page_view|done|repeat constructor|repeat constructor; done]|]. split; [repeat constructor|].
  split; [apply leaf_on_disk; [done|page_view|done|repeat constructor|repeat constructor; done]|]. split; [vm_compute; reflexivity|]. split; [vm_compute; reflexivity|]. split; [done|]. split; [vm_compute; reflexivity|done].
Qed.

Definition idx_puts : list (bytes * bytes) := [([2], [20; 20]); ([5], replicate 700 50); ([2], [21])].

Definition idx_update (fuel : nat) : outcome (DB spans * option error) :=
  update pick_least (fun _ => true) keys_of byte_map keys_of fuel idx_db [] [] [] (fun t x => put_pairs fuel t x idx_name idx_puts).

Definition idx_read (fuel : nat) (key : bytes) : outcome (option bytes) :=
  let! (d, _) := idx_update fuel in let! m := current_meta d in get_pair fuel (mkTx d m ∅) idx_name key.

Lemma update_puts_witness :
  settles (map_error (fun _ => true) idx_file 1024) idx_update (fun '(d', err) => err = None /\ exists m', current_meta d' = Ok m' /\ m_txid m' = 3 /\
    exists n, forall fuel, (n <= fuel)%nat -> get_pair fuel (mkTx d' m' ∅) idx_name [2] = Ok (Some [21])) /\
  idx_read 20 [2] = Ok (Some [21]) /\ idx_read 20 [3] = Ok (Some (replicate 100 3)) /\ idx_read 20 [5] = Ok (Some (replicate 700 50)) /\ idx_read 20 [6] = Ok None.
Proof.
  split.
  - eapply settles_mono; [apply (update_puts (R := hash_rep) pick_least pick_least_picks (fun _ => true) keys_of byte_map keys_of byte_map_size byte_map_shrink (fun m => reflexivity _)
      idx_db idx_meta idx_list idx_name idx_puts idx_items idx_names idx_live [] (idx_list :: idx_live) [] [] [] idx_rest)|].
    + done.
    + exact idx_stored.
    + done.
    + done.
    + done.
    + repeat constructor; done.
    + vm_compute. reflexivity.
    + intros [d' err] (-> & m' & hdr & L' & q & rb & Hc & Em & _ & Hg). split; [done|]. exists m'. split; [done|]. split; [rewrite (cm_txid _ _ _ _ _ _ _ _ _ Hc); reflexivity|exact (Hg [2])].
  - split; [|split; [|split]]; vm_compute; reflexivity.
Defined.

End BdbUpdate.
